(* ===== verification/_CoqProject ===== *)
-Q . S2P
Prelude.v
IntegerDivisionTable.v
Types.v
IR.v
Semantics.v
Scope.v
Operators.v
ModulusRemainder.v
Mutator.v
Visitor.v
Intrinsics.v
FastIntegerDivide.v
Substitute.v
ExprUsesVar.v
Rebuild.v
LetValues.v
Equality.v
EqualityMeaning.v
CSE.v
CSESound.v
CSEReplace.v
CodeGenDivision.v
Interval.v
ConstBounds.v
Monotonic.v
Lanes.v
Conditions.v
Simplify.v
SimplifyRules.v
Bounds.v
BoundsOps.v
BoundsArith.v
BoundsNodes.v
BoundsLet.v
BoundsFold.v
Boxes.v
BoundsTerminates.v
BoundsDefects.v
BoundsSound.v
SimplifyQuotient.v
SimplifyAdd.v
SimplifyMul.v
SimplifySub.v
SimplifyDiv.v
SimplifyMod.v
SimplifyExtremum.v
SimplifyMin.v
SimplifyMax.v
SimplifyConditions.v
SimplifyNot.v
SimplifyLogic.v
SimplifyAnd.v
SimplifyOr.v
SimplifySelect.v
SimplifyEqual.v
SimplifyLess.v
SimplifyLessRules.v
SimplifyLessSound.v
