(* ===== verification/Prelude.v ===== *)
(** * A verification library for the core of the Halide compiler

    Halide (src/src) turns image-processing functions and schedules into loops and
    then into machine code. At its core is an immutable intermediate representation
    of expressions and statements and a library of passes over it. This development
    models that core in Rocq as it is written, function by function, gives the
    expressions a meaning, and proves what the passes promise.

    ** Files, and the code they model

    - Prelude.v: errors, the error monad and its notations, machine-width integers,
      lane-by-lane combinators, the tactics of the library.
    - Types.v (Type.h, Type.cpp, HalideRuntime.h, Util.cpp): types, the ranges of
      the integer types, representability, overflow tests.
    - IR.v (Expr.h, IR.h, IR.cpp): [Expr] and [Stmt], one constructor per node, and
      every [make] factory with its assertions. [wf] is what the factories enforce.
    - Semantics.v: the specification, an evaluator [eval] of expressions; [typed];
      [div_imp] and [mod_imp] (Simplify.h).
    - Scope.v (Scope.h): the symbol table.
    - Operators.v (IROperator.h, IROperator.cpp): constants, casts, type matching,
      the operators of the front end, [lossless_cast], integer powers.
    - ModulusRemainder.v (ModulusRemainder.h, ModulusRemainder.cpp): what an integer
      expression is divisible by.
    - Mutator.v (IRMutator.h, IRMutator.cpp): the rewriting base class, as functions
      in a state and error monad that take the subclass's [mutate]. Rebuild.v: what
      its visit methods build when the children change.
    - Visitor.v (IRVisitor.cpp): the graph visitor; ExprUsesVar.v (ExprUsesVar.h):
      the one that looks for variables.
    - Substitute.v (Substitute.cpp, and IRGraphMutator of IRMutator.cpp).
    - Equality.v (IREquality.h, IREquality.cpp): deep comparison and its cache;
      EqualityMeaning.v: equal expressions have equal values.
    - Interval.v (Interval.h, Interval.cpp), ConstBounds.v (the first part of
      Simplify.cpp), Monotonic.v (Monotonic.h, Monotonic.cpp): the analyses.
    - IntegerDivisionTable.v (IntegerDivisionTable.cpp, and the methods of
      src/tools/find_inverse.c), Intrinsics.v (the integer instructions of
      CodeGen_LLVM.cpp), FastIntegerDivide.v (FastIntegerDivide.cpp with the image
      calls of Image.cpp and Parameter.cpp): exact division by small integers.
    - CSE.v (CSE.cpp, with the name generator of Util.cpp): common subexpression
      elimination. LetValues.v, CSESound.v and CSEReplace.v: its proof.
    - CodeGenDivision.v (CodeGen_LLVM.cpp, CodeGen_Internal.cpp): the expressions
      divisions, moduli, minima and maxima are lowered to.
    - Simplify.v (Simplify.cpp): the object of the simplifier, its poison values, the
      frame of its visit methods and the visit of [Variable]. SimplifyAdd.v,
      SimplifySub.v, SimplifyMul.v, SimplifyDiv.v, SimplifyMod.v, SimplifyMin.v and
      SimplifyMax.v: the visits of [Add], [Sub], [Mul], [Div], [Mod], [Min] and [Max],
      rule by rule; SimplifyQuotient.v: the frame of the last four, which consult the
      bounds and the remainders of the operands; SimplifyExtremum.v: what the last two
      share. SimplifyNot.v: the visits of [Not] and of the comparisons that are mutated
      into [==] and [<]; SimplifyAnd.v and SimplifyOr.v: the visits of [And] and [Or],
      and SimplifyLogic.v what they share; SimplifyConditions.v: the truth of conditions,
      lane by lane, which their proofs go by; SimplifySelect.v: the visit of [Select];
      SimplifyEqual.v: the visit of [EQ]; SimplifyLess.v: the visit of [LT], proved in
      SimplifyLessRules.v (the rules on the operands) and SimplifyLessSound.v (the
      comparisons that are mutated, and the visit). Lanes.v (the lanes of integer
      expressions), Conditions.v (those of comparisons) and SimplifyRules.v (what a rule
      that applies says and builds) carry their proofs.
    - Bounds.v (Bounds.h, and the first half of Bounds.cpp): the visitor that infers the
      interval of an expression. Its proof goes by what a visit builds (BoundsOps.v), the
      visits of sums, differences, products and quotients (BoundsArith.v), of moduli,
      extrema, casts and selects (BoundsNodes.v), of lets (BoundsLet.v), and the whole
      (BoundsSound.v). BoundsTerminates.v: it ends. BoundsFold.v: a simplifier to run it
      with; BoundsDefects.v: what it gets wrong. Boxes.v (Bounds.h, Bounds.cpp): boxes and
      regions, their unions and the tests of overlap and containment.

    ** How the parts interact

    Passes build nodes through the factories, so each is proved to meet their
    assertions; they mutate through the base class, with scopes and memos as state;
    they compare with [equal], whose theorem makes the comparison one of values. The
    value numbering of CSE.v uses the mutator, a scope, the comparison and the graph
    visitor, and its proof uses the theorems of each. The lowering of divisions
    composes the tables, the operators, the intrinsics and common subexpression
    elimination, and so does its theorem. What one part expects of another that
    is not modelled, or is a parameter, is a class: [Prover] for the simplifier's
    [can_prove] (Monotonic.v), [Simplifies] for its recursive [mutate] and [Facts] for
    what its scopes say (Simplify.v), [Known] for the scopes of bounds and of remainders
    (SimplifyQuotient.v), [EqualityTest] for [equal] (EqualityMeaning.v),
    [Simplifier] for the [simplify] that bounds inference calls (BoundsOps.v),
    [LaneExtractor] for the [extract_lane] the visit of [EQ] calls (SimplifyEqual.v),
    [Intrinsics] for the instructions, [TableImages] for the images holding the
    tables; each has an instance.

    ** Modelling decisions

    - Fallible code returns [res]: an assertion that fails is an error value, and
      C++ operations without a defined result are the error [UB].
    - An undefined [Expr] handle is [None] ([ExprRef]); nodes are trees. The
      identity test of handles ([same_as]) is a parameter, of which the theorems
      only assume that handles it identifies are equal, so they hold whatever the
      sharing. Maps keyed by an address are association lists searched with it.
      Other addresses (images, parameters, functions) are abstract numbers.
    - Integers are [Z]; every C++ operation on a machine type wraps, or is [UB],
      where the type does. [eval] takes an overflow policy for the program that is
      compiled: [Machine] wraps at every width, [Strict] has no value where an
      operation overflows, and [Ideal] is the contract the comments of the code state
      (signed integers of 32 bits and more do not overflow, narrower ones wrap).
    - Memory, and calls that are not intrinsics, are components of the environment.
    - A visit of the simplifier is the list of its rules, in the order of the source's
      [else if] chain, each the condition and the action under it; the first that
      applies is run. The recursive [mutate] is an argument, so the theorem of a visit
      says what the visit adds: whatever [mutate] keeps, the visit keeps. The poison
      calls that stand for a flagged overflow are counted, and a theorem speaks of the
      value when the count did not move. What a rule needs and does not test is a
      condition of the visit's theorem on the mutated operands, written out beside it:
      constants that are folded must fit ([add_div_fits], [sub_safe], [div_safe]); the
      analyses are asked only what they answer rightly ([mods_exact] for the constant
      bounds, [defect_free] for the remainders, in [div_safe], [mod_safe], [min_safe],
      [max_safe], [eq_safe]); the shapes on which a rule is wrong are left out ([min_safe],
      [eq_safe]). What happens without them is shown by evaluation, in the theorems whose
      names end in [defect] or [defects].
      Both sides of [And] and [Or] are evaluated, as the code generated for them does, so
      the rules that substitute what one side says of a variable into the other are right
      when the other side keeps a value ([side_safe]).
    - The ends of the intervals bounds inference returns are expressions. Its theorem
      relates two environments, the one the program runs in and the one the ends are
      evaluated in, by the scope: a variable of the scope is inside its interval, another
      has one value in both. Its condition [covered] runs along the visitor and asks at
      each node that the ends keep their order and do not overflow, that intervals
      unbounded on one side stay off [Mod], [Select] and products by negative constants,
      and that the names a [Let] makes are new; it leaves out floats, [abs] and
      [if_then_else].
    - Messages of errors are kept only where two paths differ by them.

    ** Fuel

    Loops whose recursion is not structural run with fuel, and a theorem says it is
    enough: 66 rounds for the gcd (each two rounds halve an [int]), 64 for the
    logarithm of a constant, 65 levels for [raise_to_integer_power] (the exponent is
    halved), two for the nested [cast], and 2 plus the lengths of the two left spines
    for [make_max]. Bounds inference visits expressions it builds and what the simplifier
    makes of shifts; its recursion is [depth] deep when the latter happens a bounded
    number of times in a row (BoundsTerminates.v). The rows of the division tables are checked by evaluation.

    ** The theorems

    - The representation: factories enforce exactly [wf]; evaluation keeps types;
      blocks, allocation sizes, scopes, the identity mutator.
    - Arithmetic: limits, overflow tests, Euclidean division, the front-end
      operators, casts and powers, the tables and the divisions built from them.
    - Analyses are sound with respect to [eval]: moduli, constant bounds, intervals,
      monotonicity; and they end.
    - Passes are refinements: substitution, let removal and common subexpression
      elimination keep values, and the memoising versions are the plain ones; so do
      the simplifier's visits, on integers of every width and on vectors, except for
      the rules shown to be wrong.
    - The comparison is a strict weak order, its cache is transparent, and its
      equivalence is equality of values.
    - Bounds inference, where [covered] holds, returns an interval that contains every
      lane of the value; and it ends if re-simplifying its shifts does. Unions of boxes touch what their parts touch.
    - Where the code does not do what it means to do, a theorem shows an input.

    ** Not modelled

    The other visit methods of the simplifier, and what is built on it (the boxes a
    statement touches, the solver, loop partitioning); the front end's shared function and
    schedule objects; statement passes, whose meaning needs memory and schedules; the
    code generators (they emit text or call LLVM) other than the integer instructions
    and the lowering above; the HLS and CoreIR back ends, which call a library outside
    the repository; the runtime; printing. The remaining plan is to model the rest of
    the simplifier's visit methods one by one, in the frame of Simplify.v. *)

From Stdlib Require Import ZArith Lia Bool SpecFloat.
From stdpp Require Import prelude strings gmap.

#[local] Open Scope Z_scope.

(** * Errors

    The compiler reports failures in two ways, [internal_assert]/[internal_error]
    and [user_assert]/[user_error]; both throw. [UB] marks C++ expressions with no
    defined meaning (an overflowing [int] addition, a division by zero). *)
Inductive err :=
| InternalError (msg : string)
| UserError (msg : string)
| UB (msg : string).

Inductive res (A : Type) :=
| Ok (a : A)
| Err (e : err).
Arguments Ok {A} a.
Arguments Err {A} e.

#[global] Instance err_eq_dec : EqDecision err.
Proof. solve_decision. Defined.
#[global] Instance res_eq_dec {A} `{EqDecision A} : EqDecision (res A).
Proof. solve_decision. Defined.

#[global] Instance res_ret : MRet res := @Ok.
#[global] Instance res_bind : MBind res := fun A B f m =>
  match m with Ok a => f a | Err e => Err e end.
#[global] Instance res_map : FMap res := fun A B f m =>
  match m with Ok a => Ok (f a) | Err e => Err e end.

Declare Scope halide_scope.
Delimit Scope halide_scope with halide.

Definition internal_assert (b : bool) (msg : string) : res unit :=
  if b then Ok tt else Err (InternalError msg).
Definition user_assert (b : bool) (msg : string) : res unit :=
  if b then Ok tt else Err (UserError msg).

Notation "'guard!' b 'else' msg ; k" :=
  (mbind (M := res) (fun _ : unit => k) (internal_assert b msg))
  (at level 100, b at level 99, msg at level 0, k at level 200, right associativity)
  : halide_scope.

Definition is_ok {A} (r : res A) : bool := match r with Ok _ => true | Err _ => false end.

Lemma bind_Ok {A B} (f : A -> res B) (m : res A) (b : B) :
  (m ≫= f) = Ok b <-> exists a, m = Ok a /\ f a = Ok b.
Proof.
  destruct m as [a|e]; simpl; split.
  - intros H. by exists a.
  - intros (a' & [= ->] & H). exact H.
  - discriminate.
  - intros (a' & [=] & _).
Qed.

Lemma internal_assert_Ok b msg u : internal_assert b msg = Ok u <-> b = true.
Proof. unfold internal_assert. destruct b, u; naive_solver. Qed.

Lemma user_assert_Ok b msg u : user_assert b msg = Ok u <-> b = true.
Proof. unfold user_assert. destruct b, u; naive_solver. Qed.

(** * Tactics *)

(** Split every conjunction, existential and monadic success in the context. *)
Ltac inv_res :=
  repeat match goal with
  | H : @mbind res _ _ _ _ _ = Ok _ |- _ => apply bind_Ok in H; destruct H as (? & ? & ?)
  | H : internal_assert _ _ = Ok _ |- _ => apply internal_assert_Ok in H
  | H : user_assert _ _ = Ok _ |- _ => apply user_assert_Ok in H
  | H : @mbind option _ _ _ _ _ = Some _ |- _ => apply bind_Some in H; destruct H as (? & ? & ?)
  | H : Ok _ = Ok _ |- _ => injection H as H
  | H : Some _ = Some _ |- _ => injection H as H
  | H : Err _ = Ok _ |- _ => discriminate H
  | H : Ok _ = Err _ |- _ => discriminate H
  | H : None = Some _ |- _ => discriminate H
  | H : mret _ = Ok _ |- _ => unfold mret, res_ret in H
  | H : (_ && _)%bool = true |- _ => apply andb_true_iff in H; destruct H
  end; subst.

Ltac case_match_in H :=
  match type of H with context [match ?x with _ => _ end] => destruct x eqn:? end.

(** Turn boolean integer tests into propositions. *)
Ltac bool_to_prop :=
  repeat match goal with
  | H : (_ && _)%bool = true |- _ => apply andb_true_iff in H; destruct H
  | H : (_ && _)%bool = false |- _ => apply andb_false_iff in H
  | H : (_ || _)%bool = false |- _ => apply orb_false_iff in H; destruct H
  | H : (_ || _)%bool = true |- _ => apply orb_true_iff in H
  | H : negb _ = true |- _ => apply negb_true_iff in H
  | H : negb _ = false |- _ => apply negb_false_iff in H
  | H : (_ =? _)%Z = true |- _ => apply Z.eqb_eq in H
  | H : (_ =? _)%Z = false |- _ => apply Z.eqb_neq in H
  | H : (_ <? _)%Z = true |- _ => apply Z.ltb_lt in H
  | H : (_ <? _)%Z = false |- _ => apply Z.ltb_ge in H
  | H : (_ <=? _)%Z = true |- _ => apply Z.leb_le in H
  | H : (_ <=? _)%Z = false |- _ => apply Z.leb_gt in H
  | H : bool_decide _ = true |- _ => apply bool_decide_eq_true in H
  | H : bool_decide _ = false |- _ => apply bool_decide_eq_false in H
  end.

(** * Fixed-width integers

    [uwrap w] and [swrap w] are the values a [w]-bit unsigned or two's complement
    register holds after an operation whose mathematical result is [z]. *)
Definition uwrap (w z : Z) : Z := z mod 2 ^ w.
Definition swrap (w z : Z) : Z := (z + 2 ^ (w - 1)) mod 2 ^ w - 2 ^ (w - 1).

Definition in_urange (w z : Z) : Prop := 0 <= z < 2 ^ w.
Definition in_srange (w z : Z) : Prop := - 2 ^ (w - 1) <= z < 2 ^ (w - 1).

#[global] Instance in_urange_dec w z : Decision (in_urange w z).
Proof. unfold in_urange. apply _. Defined.
#[global] Instance in_srange_dec w z : Decision (in_srange w z).
Proof. unfold in_srange. apply _. Defined.

Lemma pow2_pos w : 0 <= w -> 0 < 2 ^ w.
Proof. intros. apply Z.pow_pos_nonneg; lia. Qed.

Lemma pow2_half w : 0 < w -> 2 ^ w = 2 * 2 ^ (w - 1).
Proof. intros. rewrite <- Z.pow_succ_r by lia. f_equal. lia. Qed.

Lemma uwrap_range w z : 0 <= w -> in_urange w (uwrap w z).
Proof. intros. apply Z.mod_pos_bound, pow2_pos; lia. Qed.

Lemma swrap_range w z : 0 < w -> in_srange w (swrap w z).
Proof.
  intros. unfold in_srange, swrap.
  pose proof (Z.mod_pos_bound (z + 2 ^ (w - 1)) (2 ^ w) (pow2_pos w ltac:(lia))).
  pose proof (pow2_half w ltac:(lia)). lia.
Qed.

Lemma uwrap_id w z : in_urange w z -> uwrap w z = z.
Proof. intros. apply Z.mod_small. assumption. Qed.

Lemma swrap_id w z : 0 < w -> in_srange w z -> swrap w z = z.
Proof.
  unfold swrap, in_srange. intros Hw H. pose proof (pow2_half w Hw).
  rewrite Z.mod_small; lia.
Qed.

Lemma uwrap_idemp w z : 0 <= w -> uwrap w (uwrap w z) = uwrap w z.
Proof. intros. apply uwrap_id, uwrap_range; lia. Qed.

Lemma swrap_idemp w z : 0 < w -> swrap w (swrap w z) = swrap w z.
Proof. intros. apply swrap_id, swrap_range; lia. Qed.

Lemma pow2_split w1 w2 : 0 <= w1 <= w2 -> 2 ^ w2 = 2 ^ w1 * 2 ^ (w2 - w1).
Proof. intros. rewrite <- Z.pow_add_r by lia. f_equal. lia. Qed.

(** Wrapping to a wider register first makes no difference. *)
Lemma uwrap_uwrap w1 w2 z : 0 <= w1 <= w2 -> uwrap w1 (uwrap w2 z) = uwrap w1 z.
Proof.
  intros H. unfold uwrap. pose proof (pow2_pos w1 ltac:(lia)).
  rewrite (Z.mod_eq z (2 ^ w2)), (pow2_split w1 w2) by (try done; apply Z.pow_nonzero; lia).
  rewrite <- Z.mul_assoc, (Z.mul_comm (2 ^ w1)), <- Z.add_opp_r, <- Z.mul_opp_l.
  apply Z.mod_add. lia.
Qed.

Lemma swrap_add_mul w z k : 0 < w -> swrap w (z + k * 2 ^ w) = swrap w z.
Proof.
  intros H. unfold swrap. f_equal. pose proof (pow2_pos w ltac:(lia)).
  replace (z + k * 2 ^ w + 2 ^ (w - 1)) with (z + 2 ^ (w - 1) + k * 2 ^ w) by lia.
  apply Z.mod_add. lia.
Qed.

Lemma swrap_form w z : 0 < w -> exists k, swrap w z = z + k * 2 ^ w.
Proof.
  intros H. unfold swrap. pose proof (pow2_pos w ltac:(lia)).
  exists (- ((z + 2 ^ (w - 1)) / 2 ^ w)). rewrite Z.mod_eq by lia. lia.
Qed.

Lemma swrap_swrap w1 w2 z : 0 < w1 <= w2 -> swrap w1 (swrap w2 z) = swrap w1 z.
Proof.
  intros H. destruct (swrap_form w2 z) as [k ->]; [lia|].
  rewrite (pow2_split w1 w2) by lia.
  replace (k * (2 ^ w1 * 2 ^ (w2 - w1))) with (k * 2 ^ (w2 - w1) * 2 ^ w1) by lia.
  apply swrap_add_mul. lia.
Qed.

Lemma uwrap_add_mul w z k : 0 <= w -> uwrap w (z + k * 2 ^ w) = uwrap w z.
Proof. intros H. unfold uwrap. pose proof (pow2_pos w H). apply Z.mod_add. lia. Qed.

Lemma srange_mono w1 w2 z : 0 < w1 <= w2 -> in_srange w1 z -> in_srange w2 z.
Proof.
  unfold in_srange. intros. pose proof (Z.pow_le_mono_r 2 (w1 - 1) (w2 - 1)). lia.
Qed.

Lemma urange_mono w1 w2 z : 0 <= w1 <= w2 -> in_urange w1 z -> in_urange w2 z.
Proof. unfold in_urange. intros. pose proof (Z.pow_le_mono_r 2 w1 w2). lia. Qed.

Create HintDb halide.
#[export] Hint Resolve pow2_pos uwrap_range swrap_range : halide.

(** * Lists *)

(** Pointwise combination of two lists of the same length; [None] when the
    lengths differ or an element is undefined. *)
Fixpoint zip_with_M {A B C} (f : A -> B -> option C) (l : list A) (k : list B)
  : option (list C) :=
  match l, k with
  | [], [] => Some []
  | a :: l', b :: k' => c ← f a b; cs ← zip_with_M f l' k'; Some (c :: cs)
  | _, _ => None
  end.

Lemma zip_with_M_length {A B C} (f : A -> B -> option C) l k r :
  zip_with_M f l k = Some r -> length l = length r /\ length k = length r.
Proof.
  revert k r. induction l as [|a l IH]; intros [|b k] r H; simpl in H; try discriminate.
  - injection H as <-. done.
  - inv_res. simpl. apply IH in H0. lia.
Qed.

Lemma zip_with_M_lookup {A B C} (f : A -> B -> option C) l k r i c :
  zip_with_M f l k = Some r -> r !! i = Some c ->
  exists a b, l !! i = Some a /\ k !! i = Some b /\ f a b = Some c.
Proof.
  revert k r i. induction l as [|a l IH]; intros [|b k] r i H Hi; simpl in H; try discriminate.
  - injection H as <-. done.
  - inv_res. destruct i as [|i]; simpl in *.
    + injection Hi as <-. eauto.
    + eauto.
Qed.

Lemma zip_with_M_ext {A B C} (f g : A -> B -> option C) l k :
  (forall a b, f a b = g a b) -> zip_with_M f l k = zip_with_M g l k.
Proof.
  intros H. revert k. induction l as [|a l IH]; intros [|b k]; simpl; [done..|].
  by rewrite H, IH.
Qed.

Lemma zip_with_M_mono {A B C} (f g : A -> B -> option C) l k r :
  (forall a b c, f a b = Some c -> g a b = Some c) ->
  zip_with_M f l k = Some r -> zip_with_M g l k = Some r.
Proof.
  intros Hfg. revert k r. induction l as [|a l IH]; intros [|b k] r H; simpl in *; try done.
  inv_res. rewrite (Hfg _ _ _ H). simpl. by rewrite (IH _ _ H0).
Qed.

Lemma zip_with_M_Forall {A B C} (f : A -> B -> option C) (P : C -> Prop) l k r :
  (forall a b c, f a b = Some c -> P c) ->
  zip_with_M f l k = Some r -> Forall P r.
Proof.
  intros Hf. revert k r. induction l as [|a l IH]; intros [|b k] r H; simpl in H; try done.
  - injection H as <-. constructor.
  - inv_res. constructor; eauto.
Qed.

Lemma zip_with_M_preserve {A B C} (f : A -> B -> option C) (P : A -> Prop) (Q : B -> Prop)
    (R : C -> Prop) l k r :
  (forall a b c, P a -> Q b -> f a b = Some c -> R c) ->
  Forall P l -> Forall Q k -> zip_with_M f l k = Some r -> Forall R r.
Proof.
  intros Hf Hl. revert k r. induction Hl as [|a l Ha Hl IH]; intros [|b k] r Hk H; simpl in H; try done.
  - injection H as <-. constructor.
  - apply Forall_cons in Hk as [Hb Hk]. inv_res. constructor; eauto.
Qed.
