(* ===== verification/IntegerDivisionTable.v ===== *)
(** The tables of src/src/IntegerDivisionTable.cpp, which turn divisions by small
    integers into multiplications, and the methods of src/tools/find_inverse.c they
    are for, with the proof that every row divides exactly, for every numerator of
    its width. A row holds the divisor, the method, the multiplier and the shift. *)

From Stdlib Require Import ZArith Lia Bool.
From stdpp Require Import prelude list.
From S2P Require Import Prelude.

#[local] Open Scope Z_scope.

Definition row : Type := Z * Z * Z * Z.

Definition table_u8 : list row := [
  (256, 0, 0, 8); (1, 0, 0, 0); (2, 0, 0, 1); (3, 1, 171, 1);
  (4, 0, 0, 2); (5, 1, 205, 2); (6, 1, 171, 2); (7, 2, 37, 2);
  (8, 0, 0, 3); (9, 1, 57, 1); (10, 1, 205, 3); (11, 2, 117, 3);
  (12, 1, 171, 3); (13, 1, 79, 2); (14, 2, 37, 3); (15, 1, 137, 3);
  (16, 0, 0, 4); (17, 1, 241, 4); (18, 1, 57, 2); (19, 1, 27, 1);
  (20, 1, 205, 4); (21, 2, 135, 4); (22, 2, 117, 4); (23, 2, 101, 4);
  (24, 1, 171, 4); (25, 1, 41, 2); (26, 1, 79, 3); (27, 1, 19, 1);
  (28, 2, 37, 4); (29, 2, 27, 4); (30, 1, 137, 4); (31, 2, 9, 4);
  (32, 0, 0, 5); (33, 1, 249, 5); (34, 1, 241, 5); (35, 1, 235, 5);
  (36, 1, 57, 3); (37, 1, 111, 4); (38, 1, 27, 2); (39, 2, 165, 5);
  (40, 1, 205, 5); (41, 1, 25, 2); (42, 2, 135, 5); (43, 1, 191, 5);
  (44, 1, 187, 5); (45, 2, 109, 5); (46, 2, 101, 5); (47, 1, 175, 5);
  (48, 1, 171, 5); (49, 2, 79, 5); (50, 1, 41, 3); (51, 1, 161, 5);
  (52, 1, 79, 4); (53, 1, 155, 5); (54, 1, 19, 2); (55, 1, 149, 5);
  (56, 2, 37, 5); (57, 1, 9, 1); (58, 2, 27, 5); (59, 1, 139, 5);
  (60, 1, 137, 5); (61, 2, 13, 5); (62, 2, 9, 5); (63, 2, 5, 5);
  (64, 0, 0, 6); (65, 1, 253, 6); (66, 1, 249, 6); (67, 1, 245, 6);
  (68, 1, 121, 5); (69, 1, 119, 5); (70, 1, 235, 6); (71, 1, 231, 6);
  (72, 1, 57, 4); (73, 1, 225, 6); (74, 1, 111, 5); (75, 1, 219, 6);
  (76, 1, 27, 3); (77, 1, 213, 6); (78, 2, 165, 6); (79, 1, 13, 2);
  (80, 1, 205, 6); (81, 1, 203, 6); (82, 1, 25, 3); (83, 1, 99, 5);
  (84, 2, 135, 6); (85, 1, 193, 6); (86, 1, 191, 6); (87, 1, 189, 6);
  (88, 1, 187, 6); (89, 1, 185, 6); (90, 1, 183, 6); (91, 1, 181, 6);
  (92, 1, 179, 6); (93, 1, 177, 6); (94, 1, 175, 6); (95, 1, 173, 6);
  (96, 1, 171, 6); (97, 1, 169, 6); (98, 1, 21, 3); (99, 1, 83, 5);
  (100, 1, 41, 4); (101, 1, 163, 6); (102, 1, 161, 6); (103, 2, 63, 6);
  (104, 1, 79, 5); (105, 2, 57, 6); (106, 1, 155, 6); (107, 2, 51, 6);
  (108, 1, 19, 3); (109, 1, 151, 6); (110, 1, 149, 6); (111, 1, 37, 4);
  (112, 2, 37, 6); (113, 1, 145, 6); (114, 1, 9, 2); (115, 1, 143, 6);
  (116, 2, 27, 6); (117, 2, 25, 6); (118, 1, 139, 6); (119, 1, 69, 5);
  (120, 1, 137, 6); (121, 2, 15, 6); (122, 2, 13, 6); (123, 2, 11, 6);
  (124, 2, 9, 6); (125, 2, 7, 6); (126, 2, 5, 6); (127, 2, 3, 6);
  (128, 0, 0, 7); (129, 1, 255, 7); (130, 1, 127, 6); (131, 1, 63, 5);
  (132, 1, 125, 6); (133, 1, 31, 4); (134, 1, 123, 6); (135, 1, 61, 5);
  (136, 1, 121, 6); (137, 1, 15, 3); (138, 1, 119, 6); (139, 1, 59, 5);
  (140, 1, 235, 7); (141, 1, 117, 6); (142, 1, 29, 4); (143, 1, 115, 6);
  (144, 1, 57, 5); (145, 1, 113, 6); (146, 1, 225, 7); (147, 1, 7, 2);
  (148, 1, 111, 6); (149, 1, 55, 5); (150, 1, 219, 7); (151, 1, 109, 6);
  (152, 1, 27, 4); (153, 1, 215, 7); (154, 1, 107, 6); (155, 1, 53, 5);
  (156, 1, 211, 7); (157, 1, 105, 6); (158, 1, 13, 3); (159, 1, 207, 7);
  (160, 1, 103, 6); (161, 1, 51, 5); (162, 1, 203, 7); (163, 1, 101, 6);
  (164, 1, 25, 4); (165, 1, 199, 7); (166, 1, 99, 6); (167, 1, 197, 7);
  (168, 1, 49, 5); (169, 1, 97, 6); (170, 1, 193, 7); (171, 1, 3, 1);
  (172, 1, 191, 7); (173, 1, 95, 6); (174, 1, 189, 7); (175, 1, 47, 5);
  (176, 1, 187, 7); (177, 1, 93, 6); (178, 1, 185, 7); (179, 1, 23, 4);
  (180, 1, 183, 7); (181, 1, 91, 6); (182, 1, 181, 7); (183, 1, 45, 5);
  (184, 1, 179, 7); (185, 1, 89, 6); (186, 1, 177, 7); (187, 1, 11, 3);
  (188, 1, 175, 7); (189, 1, 87, 6); (190, 1, 173, 7); (191, 1, 43, 5);
  (192, 1, 171, 7); (193, 1, 85, 6); (194, 1, 169, 7); (195, 2, 81, 7);
  (196, 1, 21, 4); (197, 1, 167, 7); (198, 1, 83, 6); (199, 1, 165, 7);
  (200, 1, 41, 5); (201, 2, 71, 7); (202, 1, 163, 7); (203, 1, 81, 6);
  (204, 1, 161, 7); (205, 1, 5, 2); (206, 2, 63, 7); (207, 1, 159, 7);
  (208, 1, 79, 6); (209, 1, 157, 7); (210, 2, 57, 7); (211, 1, 39, 5);
  (212, 1, 155, 7); (213, 1, 77, 6); (214, 2, 51, 7); (215, 1, 153, 7);
  (216, 1, 19, 4); (217, 2, 47, 7); (218, 1, 151, 7); (219, 1, 75, 6);
  (220, 1, 149, 7); (221, 2, 41, 7); (222, 1, 37, 5); (223, 1, 147, 7);
  (224, 2, 37, 7); (225, 1, 73, 6); (226, 1, 145, 7); (227, 2, 33, 7);
  (228, 1, 9, 3); (229, 2, 31, 7); (230, 1, 143, 7); (231, 1, 71, 6);
  (232, 2, 27, 7); (233, 1, 141, 7); (234, 2, 25, 7); (235, 1, 35, 5);
  (236, 1, 139, 7); (237, 2, 21, 7); (238, 1, 69, 6); (239, 2, 19, 7);
  (240, 1, 137, 7); (241, 1, 17, 4); (242, 2, 15, 7); (243, 1, 135, 7);
  (244, 2, 13, 7); (245, 1, 67, 6); (246, 2, 11, 7); (247, 1, 133, 7);
  (248, 2, 9, 7); (249, 1, 33, 5); (250, 2, 7, 7); (251, 1, 131, 7);
  (252, 2, 5, 7); (253, 1, 65, 6); (254, 2, 3, 7); (255, 1, 129, 7)
].

Definition table_s8 : list row := [
  (256, 0, 0, 7); (1, 0, 0, 0); (2, 0, 0, 1); (3, 1, 86, 0);
  (4, 0, 0, 2); (5, 1, 103, 1); (6, 1, 43, 0); (7, 1, 147, 2);
  (8, 0, 0, 3); (9, 1, 57, 1); (10, 1, 103, 2); (11, 1, 187, 3);
  (12, 1, 43, 1); (13, 1, 79, 2); (14, 1, 147, 3); (15, 1, 137, 3);
  (16, 0, 0, 4); (17, 1, 121, 3); (18, 1, 57, 2); (19, 1, 27, 1);
  (20, 1, 103, 3); (21, 1, 49, 2); (22, 1, 187, 4); (23, 1, 179, 4);
  (24, 1, 43, 2); (25, 1, 41, 2); (26, 1, 79, 3); (27, 1, 19, 1);
  (28, 1, 147, 4); (29, 1, 71, 3); (30, 1, 137, 4); (31, 1, 133, 4);
  (32, 0, 0, 5); (33, 1, 125, 4); (34, 1, 121, 4); (35, 1, 59, 3);
  (36, 1, 57, 3); (37, 1, 111, 4); (38, 1, 27, 2); (39, 1, 211, 5);
  (40, 1, 103, 4); (41, 1, 25, 2); (42, 1, 49, 3); (43, 1, 6, 0);
  (44, 1, 47, 3); (45, 1, 23, 2); (46, 1, 45, 3); (47, 1, 11, 1);
  (48, 1, 43, 3); (49, 1, 21, 2); (50, 1, 41, 3); (51, 1, 81, 4);
  (52, 1, 79, 4); (53, 1, 39, 3); (54, 1, 19, 2); (55, 1, 75, 4);
  (56, 1, 147, 5); (57, 1, 9, 1); (58, 1, 71, 4); (59, 1, 35, 3);
  (60, 1, 137, 5); (61, 1, 135, 5); (62, 1, 133, 5); (63, 1, 131, 5);
  (64, 0, 0, 6); (65, 1, 127, 5); (66, 1, 63, 4); (67, 1, 31, 3);
  (68, 1, 61, 4); (69, 1, 15, 2); (70, 1, 59, 4); (71, 1, 29, 3);
  (72, 1, 57, 4); (73, 1, 113, 5); (74, 1, 7, 1); (75, 1, 55, 4);
  (76, 1, 27, 3); (77, 1, 107, 5); (78, 1, 53, 4); (79, 1, 13, 2);
  (80, 1, 103, 5); (81, 1, 51, 4); (82, 1, 25, 3); (83, 1, 99, 5);
  (84, 1, 49, 4); (85, 1, 97, 5); (86, 1, 3, 0); (87, 1, 95, 5);
  (88, 1, 47, 4); (89, 1, 93, 5); (90, 1, 23, 3); (91, 1, 91, 5);
  (92, 1, 45, 4); (93, 1, 89, 5); (94, 1, 11, 2); (95, 1, 87, 5);
  (96, 1, 43, 4); (97, 1, 85, 5); (98, 1, 21, 3); (99, 1, 83, 5);
  (100, 1, 41, 4); (101, 1, 163, 6); (102, 1, 81, 5); (103, 1, 5, 1);
  (104, 1, 79, 5); (105, 1, 157, 6); (106, 1, 39, 4); (107, 1, 77, 5);
  (108, 1, 19, 3); (109, 1, 151, 6); (110, 1, 75, 5); (111, 1, 37, 4);
  (112, 1, 147, 6); (113, 1, 73, 5); (114, 1, 9, 2); (115, 1, 143, 6);
  (116, 1, 71, 5); (117, 1, 141, 6); (118, 1, 35, 4); (119, 1, 69, 5);
  (120, 1, 137, 6); (121, 1, 17, 3); (122, 1, 135, 6); (123, 1, 67, 5);
  (124, 1, 133, 6); (125, 1, 33, 4); (126, 1, 131, 6); (127, 1, 65, 5);
  (128, 0, 0, 7); (129, 0, 0, 7); (130, 0, 0, 7); (131, 0, 0, 7);
  (132, 0, 0, 7); (133, 0, 0, 7); (134, 0, 0, 7); (135, 0, 0, 7);
  (136, 0, 0, 7); (137, 0, 0, 7); (138, 0, 0, 7); (139, 0, 0, 7);
  (140, 0, 0, 7); (141, 0, 0, 7); (142, 0, 0, 7); (143, 0, 0, 7);
  (144, 0, 0, 7); (145, 0, 0, 7); (146, 0, 0, 7); (147, 0, 0, 7);
  (148, 0, 0, 7); (149, 0, 0, 7); (150, 0, 0, 7); (151, 0, 0, 7);
  (152, 0, 0, 7); (153, 0, 0, 7); (154, 0, 0, 7); (155, 0, 0, 7);
  (156, 0, 0, 7); (157, 0, 0, 7); (158, 0, 0, 7); (159, 0, 0, 7);
  (160, 0, 0, 7); (161, 0, 0, 7); (162, 0, 0, 7); (163, 0, 0, 7);
  (164, 0, 0, 7); (165, 0, 0, 7); (166, 0, 0, 7); (167, 0, 0, 7);
  (168, 0, 0, 7); (169, 0, 0, 7); (170, 0, 0, 7); (171, 0, 0, 7);
  (172, 0, 0, 7); (173, 0, 0, 7); (174, 0, 0, 7); (175, 0, 0, 7);
  (176, 0, 0, 7); (177, 0, 0, 7); (178, 0, 0, 7); (179, 0, 0, 7);
  (180, 0, 0, 7); (181, 0, 0, 7); (182, 0, 0, 7); (183, 0, 0, 7);
  (184, 0, 0, 7); (185, 0, 0, 7); (186, 0, 0, 7); (187, 0, 0, 7);
  (188, 0, 0, 7); (189, 0, 0, 7); (190, 0, 0, 7); (191, 0, 0, 7);
  (192, 0, 0, 7); (193, 0, 0, 7); (194, 0, 0, 7); (195, 0, 0, 7);
  (196, 0, 0, 7); (197, 0, 0, 7); (198, 0, 0, 7); (199, 0, 0, 7);
  (200, 0, 0, 7); (201, 0, 0, 7); (202, 0, 0, 7); (203, 0, 0, 7);
  (204, 0, 0, 7); (205, 0, 0, 7); (206, 0, 0, 7); (207, 0, 0, 7);
  (208, 0, 0, 7); (209, 0, 0, 7); (210, 0, 0, 7); (211, 0, 0, 7);
  (212, 0, 0, 7); (213, 0, 0, 7); (214, 0, 0, 7); (215, 0, 0, 7);
  (216, 0, 0, 7); (217, 0, 0, 7); (218, 0, 0, 7); (219, 0, 0, 7);
  (220, 0, 0, 7); (221, 0, 0, 7); (222, 0, 0, 7); (223, 0, 0, 7);
  (224, 0, 0, 7); (225, 0, 0, 7); (226, 0, 0, 7); (227, 0, 0, 7);
  (228, 0, 0, 7); (229, 0, 0, 7); (230, 0, 0, 7); (231, 0, 0, 7);
  (232, 0, 0, 7); (233, 0, 0, 7); (234, 0, 0, 7); (235, 0, 0, 7);
  (236, 0, 0, 7); (237, 0, 0, 7); (238, 0, 0, 7); (239, 0, 0, 7);
  (240, 0, 0, 7); (241, 0, 0, 7); (242, 0, 0, 7); (243, 0, 0, 7);
  (244, 0, 0, 7); (245, 0, 0, 7); (246, 0, 0, 7); (247, 0, 0, 7);
  (248, 0, 0, 7); (249, 0, 0, 7); (250, 0, 0, 7); (251, 0, 0, 7);
  (252, 0, 0, 7); (253, 0, 0, 7); (254, 0, 0, 7); (255, 0, 0, 7);
  (256, 0, 0, 7)
].

Definition table_u16 : list row := [
  (256, 0, 0, 8); (1, 0, 0, 0); (2, 0, 0, 1); (3, 1, 43691, 1);
  (4, 0, 0, 2); (5, 1, 52429, 2); (6, 1, 43691, 2); (7, 2, 9363, 2);
  (8, 0, 0, 3); (9, 1, 58255, 3); (10, 1, 52429, 3); (11, 1, 47663, 3);
  (12, 1, 43691, 3); (13, 1, 20165, 2); (14, 2, 9363, 3); (15, 1, 34953, 3);
  (16, 0, 0, 4); (17, 1, 61681, 4); (18, 1, 58255, 4); (19, 1, 55189, 4);
  (20, 1, 52429, 4); (21, 2, 34329, 4); (22, 1, 47663, 4); (23, 2, 25645, 4);
  (24, 1, 43691, 4); (25, 2, 18351, 4); (26, 1, 20165, 3); (27, 2, 12137, 4);
  (28, 2, 9363, 4); (29, 1, 18079, 3); (30, 1, 34953, 4); (31, 2, 2115, 4);
  (32, 0, 0, 5); (33, 1, 63551, 5); (34, 1, 61681, 5); (35, 1, 59919, 5);
  (36, 1, 58255, 5); (37, 1, 7085, 2); (38, 1, 55189, 5); (39, 2, 42011, 5);
  (40, 1, 52429, 5); (41, 2, 36765, 5); (42, 2, 34329, 5); (43, 1, 48771, 5);
  (44, 1, 47663, 5); (45, 1, 11651, 3); (46, 2, 25645, 5); (47, 2, 23705, 5);
  (48, 1, 43691, 5); (49, 2, 20063, 5); (50, 2, 18351, 5); (51, 1, 41121, 5);
  (52, 1, 20165, 4); (53, 1, 39569, 5); (54, 2, 12137, 5); (55, 2, 10725, 5);
  (56, 2, 9363, 5); (57, 2, 8049, 5); (58, 1, 18079, 4); (59, 1, 35545, 5);
  (60, 1, 34953, 5); (61, 1, 8595, 3); (62, 2, 2115, 5); (63, 2, 1041, 5);
  (64, 0, 0, 6); (65, 1, 4033, 2); (66, 1, 63551, 6); (67, 1, 31301, 5);
  (68, 1, 61681, 6); (69, 2, 56039, 6); (70, 1, 59919, 6); (71, 1, 59075, 6);
  (72, 1, 58255, 6); (73, 1, 57457, 6); (74, 1, 7085, 3); (75, 2, 46313, 6);
  (76, 1, 55189, 6); (77, 1, 6809, 3); (78, 2, 42011, 6); (79, 1, 53093, 6);
  (80, 1, 52429, 6); (81, 1, 25891, 5); (82, 2, 36765, 6); (83, 1, 25267, 5);
  (84, 2, 34329, 6); (85, 1, 49345, 6); (86, 1, 48771, 6); (87, 1, 48211, 6);
  (88, 1, 47663, 6); (89, 2, 28719, 6); (90, 1, 11651, 4); (91, 2, 26647, 6);
  (92, 2, 25645, 6); (93, 2, 24665, 6); (94, 2, 23705, 6); (95, 1, 44151, 6);
  (96, 1, 43691, 6); (97, 2, 20945, 6); (98, 2, 20063, 6); (99, 1, 42367, 6);
  (100, 2, 18351, 6); (101, 1, 5191, 3); (102, 1, 41121, 6); (103, 1, 20361, 5);
  (104, 1, 20165, 5); (105, 1, 19973, 5); (106, 1, 39569, 6); (107, 2, 12863, 6);
  (108, 2, 12137, 6); (109, 1, 2405, 2); (110, 2, 10725, 6); (111, 1, 37787, 6);
  (112, 2, 9363, 6); (113, 1, 18559, 5); (114, 2, 8049, 6); (115, 2, 7409, 6);
  (116, 1, 18079, 5); (117, 1, 35849, 6); (118, 1, 35545, 6); (119, 2, 4957, 6);
  (120, 1, 34953, 6); (121, 1, 4333, 3); (122, 1, 8595, 4); (123, 2, 2665, 6);
  (124, 2, 2115, 6); (125, 2, 1573, 6); (126, 2, 1041, 6); (127, 2, 517, 6);
  (128, 0, 0, 7); (129, 1, 16257, 5); (130, 1, 4033, 3); (131, 1, 16009, 5);
  (132, 1, 63551, 7); (133, 1, 63073, 7); (134, 1, 31301, 6); (135, 1, 31069, 6);
  (136, 1, 61681, 7); (137, 1, 61231, 7); (138, 2, 56039, 7); (139, 1, 30175, 6);
  (140, 1, 59919, 7); (141, 1, 29747, 6); (142, 1, 59075, 7); (143, 1, 29331, 6);
  (144, 1, 58255, 7); (145, 1, 57853, 7); (146, 1, 57457, 7); (147, 1, 28533, 6);
  (148, 1, 7085, 4); (149, 1, 14075, 5); (150, 2, 46313, 7); (151, 1, 27777, 6);
  (152, 1, 55189, 7); (153, 1, 13707, 5); (154, 1, 6809, 4); (155, 2, 42705, 7);
  (156, 2, 42011, 7); (157, 1, 53431, 7); (158, 1, 53093, 7); (159, 1, 52759, 7);
  (160, 1, 52429, 7); (161, 2, 38671, 7); (162, 1, 25891, 6); (163, 1, 6433, 4);
  (164, 2, 36765, 7); (165, 2, 36145, 7); (166, 1, 25267, 6); (167, 2, 34927, 7);
  (168, 2, 34329, 7); (169, 1, 49637, 7); (170, 1, 49345, 7); (171, 2, 32577, 7);
  (172, 1, 48771, 7); (173, 2, 31443, 7); (174, 1, 48211, 7); (175, 1, 47935, 7);
  (176, 1, 47663, 7); (177, 2, 29251, 7); (178, 2, 28719, 7); (179, 1, 2929, 3);
  (180, 1, 11651, 5); (181, 1, 23173, 6); (182, 2, 26647, 7); (183, 1, 2865, 3);
  (184, 2, 25645, 7); (185, 1, 1417, 2); (186, 2, 24665, 7); (187, 1, 44859, 7);
  (188, 2, 23705, 7); (189, 2, 23233, 7); (190, 1, 44151, 7); (191, 1, 2745, 3);
  (192, 1, 43691, 7); (193, 2, 21393, 7); (194, 2, 20945, 7); (195, 1, 43019, 7);
  (196, 2, 20063, 7); (197, 1, 21291, 6); (198, 1, 42367, 7); (199, 1, 21077, 6);
  (200, 2, 18351, 7); (201, 1, 41735, 7); (202, 1, 5191, 4); (203, 2, 17111, 7);
  (204, 1, 41121, 7); (205, 2, 16305, 7); (206, 1, 20361, 6); (207, 1, 40525, 7);
  (208, 1, 20165, 6); (209, 1, 40137, 7); (210, 1, 19973, 6); (211, 1, 39757, 7);
  (212, 1, 39569, 7); (213, 2, 13231, 7); (214, 2, 12863, 7); (215, 1, 39017, 7);
  (216, 2, 12137, 7); (217, 2, 11779, 7); (218, 1, 2405, 3); (219, 2, 11073, 7);
  (220, 2, 10725, 7); (221, 1, 18979, 6); (222, 1, 37787, 7); (223, 2, 9699, 7);
  (224, 2, 9363, 7); (225, 1, 37283, 7); (226, 1, 18559, 6); (227, 2, 8373, 7);
  (228, 2, 8049, 7); (229, 1, 4579, 4); (230, 2, 7409, 7); (231, 2, 7093, 7);
  (232, 1, 18079, 6); (233, 1, 36003, 7); (234, 1, 35849, 7); (235, 2, 5857, 7);
  (236, 1, 35545, 7); (237, 1, 35395, 7); (238, 2, 4957, 7); (239, 1, 35099, 7);
  (240, 1, 34953, 7); (241, 1, 4351, 4); (242, 1, 4333, 4); (243, 2, 3507, 7);
  (244, 1, 8595, 5); (245, 2, 2943, 7); (246, 2, 2665, 7); (247, 1, 16981, 6);
  (248, 2, 2115, 7); (249, 2, 1843, 7); (250, 2, 1573, 7); (251, 1, 33421, 7);
  (252, 2, 1041, 7); (253, 1, 33157, 7); (254, 2, 517, 7); (255, 1, 32897, 7)
].

Definition table_s16 : list row := [
  (256, 1, 32769, 7); (1, 0, 0, 0); (2, 0, 0, 1); (3, 1, 21846, 0);
  (4, 0, 0, 2); (5, 1, 26215, 1); (6, 1, 10923, 0); (7, 1, 18725, 1);
  (8, 0, 0, 3); (9, 1, 7282, 0); (10, 1, 26215, 2); (11, 1, 5958, 0);
  (12, 1, 10923, 1); (13, 1, 20165, 2); (14, 1, 18725, 2); (15, 1, 34953, 3);
  (16, 0, 0, 4); (17, 1, 30841, 3); (18, 1, 3641, 0); (19, 1, 55189, 4);
  (20, 1, 26215, 3); (21, 1, 49933, 4); (22, 1, 2979, 0); (23, 1, 45591, 4);
  (24, 1, 10923, 2); (25, 1, 5243, 1); (26, 1, 20165, 3); (27, 1, 38837, 4);
  (28, 1, 18725, 3); (29, 1, 18079, 3); (30, 1, 34953, 4); (31, 1, 16913, 3);
  (32, 0, 0, 5); (33, 1, 1986, 0); (34, 1, 30841, 4); (35, 1, 3745, 1);
  (36, 1, 3641, 1); (37, 1, 7085, 2); (38, 1, 55189, 5); (39, 1, 26887, 4);
  (40, 1, 26215, 4); (41, 1, 51151, 5); (42, 1, 49933, 5); (43, 1, 12193, 3);
  (44, 1, 2979, 1); (45, 1, 11651, 3); (46, 1, 45591, 5); (47, 1, 44621, 5);
  (48, 1, 10923, 3); (49, 1, 2675, 1); (50, 1, 5243, 2); (51, 1, 41121, 5);
  (52, 1, 20165, 4); (53, 1, 19785, 4); (54, 1, 38837, 5); (55, 1, 38131, 5);
  (56, 1, 18725, 4); (57, 1, 36793, 5); (58, 1, 18079, 4); (59, 1, 17773, 4);
  (60, 1, 34953, 5); (61, 1, 8595, 3); (62, 1, 16913, 4); (63, 1, 33289, 5);
  (64, 0, 0, 6); (65, 1, 4033, 2); (66, 1, 993, 0); (67, 1, 31301, 5);
  (68, 1, 30841, 5); (69, 1, 15197, 4); (70, 1, 3745, 2); (71, 1, 14769, 4);
  (72, 1, 3641, 2); (73, 1, 57457, 6); (74, 1, 7085, 3); (75, 1, 55925, 6);
  (76, 1, 55189, 6); (77, 1, 6809, 3); (78, 1, 26887, 5); (79, 1, 26547, 5);
  (80, 1, 26215, 5); (81, 1, 25891, 5); (82, 1, 51151, 6); (83, 1, 25267, 5);
  (84, 1, 49933, 6); (85, 1, 24673, 5); (86, 1, 12193, 4); (87, 1, 48211, 6);
  (88, 1, 2979, 2); (89, 1, 5891, 3); (90, 1, 11651, 4); (91, 1, 11523, 4);
  (92, 1, 45591, 6); (93, 1, 45101, 6); (94, 1, 44621, 6); (95, 1, 44151, 6);
  (96, 1, 10923, 4); (97, 1, 43241, 6); (98, 1, 2675, 2); (99, 1, 662, 0);
  (100, 1, 5243, 3); (101, 1, 5191, 3); (102, 1, 41121, 6); (103, 1, 20361, 5);
  (104, 1, 20165, 5); (105, 1, 19973, 5); (106, 1, 19785, 5); (107, 1, 1225, 1);
  (108, 1, 38837, 6); (109, 1, 2405, 2); (110, 1, 38131, 6); (111, 1, 37787, 6);
  (112, 1, 18725, 5); (113, 1, 18559, 5); (114, 1, 36793, 6); (115, 1, 36473, 6);
  (116, 1, 18079, 5); (117, 1, 35849, 6); (118, 1, 17773, 5); (119, 1, 35247, 6);
  (120, 1, 34953, 6); (121, 1, 4333, 3); (122, 1, 8595, 4); (123, 1, 34101, 6);
  (124, 1, 16913, 5); (125, 1, 33555, 6); (126, 1, 33289, 6); (127, 1, 33027, 6);
  (128, 0, 0, 7); (129, 1, 16257, 5); (130, 1, 4033, 3); (131, 1, 16009, 5);
  (132, 1, 993, 1); (133, 1, 31537, 6); (134, 1, 31301, 6); (135, 1, 31069, 6);
  (136, 1, 30841, 6); (137, 1, 3827, 3); (138, 1, 15197, 5); (139, 1, 30175, 6);
  (140, 1, 3745, 3); (141, 1, 29747, 6); (142, 1, 14769, 5); (143, 1, 29331, 6);
  (144, 1, 3641, 3); (145, 1, 28927, 6); (146, 1, 57457, 7); (147, 1, 28533, 6);
  (148, 1, 7085, 4); (149, 1, 14075, 5); (150, 1, 55925, 7); (151, 1, 27777, 6);
  (152, 1, 55189, 7); (153, 1, 13707, 5); (154, 1, 6809, 4); (155, 1, 54121, 7);
  (156, 1, 26887, 6); (157, 1, 6679, 4); (158, 1, 26547, 6); (159, 1, 6595, 4);
  (160, 1, 26215, 6); (161, 1, 6513, 4); (162, 1, 25891, 6); (163, 1, 6433, 4);
  (164, 1, 51151, 7); (165, 1, 50841, 7); (166, 1, 25267, 6); (167, 1, 6279, 4);
  (168, 1, 49933, 7); (169, 1, 24819, 6); (170, 1, 24673, 6); (171, 1, 49057, 7);
  (172, 1, 12193, 5); (173, 1, 24245, 6); (174, 1, 48211, 7); (175, 1, 749, 1);
  (176, 1, 2979, 3); (177, 1, 23697, 6); (178, 1, 5891, 4); (179, 1, 2929, 3);
  (180, 1, 11651, 5); (181, 1, 23173, 6); (182, 1, 11523, 5); (183, 1, 2865, 3);
  (184, 1, 45591, 7); (185, 1, 1417, 2); (186, 1, 45101, 7); (187, 1, 11215, 5);
  (188, 1, 44621, 7); (189, 1, 44385, 7); (190, 1, 44151, 7); (191, 1, 2745, 3);
  (192, 1, 10923, 5); (193, 1, 43465, 7); (194, 1, 43241, 7); (195, 1, 43019, 7);
  (196, 1, 2675, 3); (197, 1, 21291, 6); (198, 1, 331, 0); (199, 1, 21077, 6);
  (200, 1, 5243, 4); (201, 1, 41735, 7); (202, 1, 5191, 4); (203, 1, 10331, 5);
  (204, 1, 41121, 7); (205, 1, 40921, 7); (206, 1, 20361, 6); (207, 1, 40525, 7);
  (208, 1, 20165, 6); (209, 1, 20069, 6); (210, 1, 19973, 6); (211, 1, 39757, 7);
  (212, 1, 19785, 6); (213, 1, 4923, 4); (214, 1, 1225, 2); (215, 1, 39017, 7);
  (216, 1, 38837, 7); (217, 1, 19329, 6); (218, 1, 2405, 3); (219, 1, 38305, 7);
  (220, 1, 38131, 7); (221, 1, 18979, 6); (222, 1, 37787, 7); (223, 1, 18809, 6);
  (224, 1, 18725, 6); (225, 1, 37283, 7); (226, 1, 18559, 6); (227, 1, 36955, 7);
  (228, 1, 36793, 7); (229, 1, 4579, 4); (230, 1, 36473, 7); (231, 1, 36315, 7);
  (232, 1, 18079, 6); (233, 1, 36003, 7); (234, 1, 35849, 7); (235, 1, 35697, 7);
  (236, 1, 17773, 6); (237, 1, 8849, 5); (238, 1, 35247, 7); (239, 1, 35099, 7);
  (240, 1, 34953, 7); (241, 1, 4351, 4); (242, 1, 4333, 4); (243, 1, 17261, 6);
  (244, 1, 8595, 5); (245, 1, 535, 1); (246, 1, 34101, 7); (247, 1, 16981, 6);
  (248, 1, 16913, 6); (249, 1, 16845, 6); (250, 1, 33555, 7); (251, 1, 33421, 7);
  (252, 1, 33289, 7); (253, 1, 33157, 7); (254, 1, 33027, 7); (255, 1, 32897, 7);
  (256, 1, 32769, 7)
].

Definition table_u32 : list row := [
  (256, 0, 0, 8); (1, 0, 0, 0); (2, 0, 0, 1); (3, 1, 2863311531, 1);
  (4, 0, 0, 2); (5, 1, 3435973837, 2); (6, 1, 2863311531, 2); (7, 2, 613566757, 2);
  (8, 0, 0, 3); (9, 1, 954437177, 1); (10, 1, 3435973837, 3); (11, 1, 3123612579, 3);
  (12, 1, 2863311531, 3); (13, 1, 1321528399, 2); (14, 2, 613566757, 3); (15, 1, 2290649225, 3);
  (16, 0, 0, 4); (17, 1, 4042322161, 4); (18, 1, 954437177, 2); (19, 2, 2938661835, 4);
  (20, 1, 3435973837, 4); (21, 2, 2249744775, 4); (22, 1, 3123612579, 4); (23, 1, 2987803337, 4);
  (24, 1, 2863311531, 4); (25, 1, 1374389535, 3); (26, 1, 1321528399, 3); (27, 2, 795364315, 4);
  (28, 2, 613566757, 4); (29, 1, 2369637129, 4); (30, 1, 2290649225, 4); (31, 2, 138547333, 4);
  (32, 0, 0, 5); (33, 1, 1041204193, 3); (34, 1, 4042322161, 5); (35, 2, 3558687189, 5);
  (36, 1, 954437177, 3); (37, 2, 3134165325, 5); (38, 2, 2938661835, 5); (39, 2, 2753184165, 5);
  (40, 1, 3435973837, 5); (41, 1, 3352169597, 5); (42, 2, 2249744775, 5); (43, 1, 799063683, 3);
  (44, 1, 3123612579, 5); (45, 2, 1813430637, 5); (46, 1, 2987803337, 5); (47, 1, 2924233053, 5);
  (48, 1, 2863311531, 5); (49, 1, 1402438301, 4); (50, 1, 1374389535, 4); (51, 1, 2694881441, 5);
  (52, 1, 1321528399, 4); (53, 2, 891408307, 5); (54, 2, 795364315, 5); (55, 2, 702812831, 5);
  (56, 2, 613566757, 5); (57, 2, 527452125, 5); (58, 1, 2369637129, 5); (59, 1, 582368447, 3);
  (60, 1, 2290649225, 5); (61, 1, 1126548799, 4); (62, 2, 138547333, 5); (63, 2, 68174085, 5);
  (64, 0, 0, 6); (65, 1, 4228890877, 6); (66, 1, 1041204193, 4); (67, 1, 128207979, 1);
  (68, 1, 4042322161, 6); (69, 1, 1991868891, 5); (70, 2, 3558687189, 6); (71, 1, 3871519817, 6);
  (72, 1, 954437177, 4); (73, 2, 3235934265, 6); (74, 2, 3134165325, 6); (75, 1, 458129845, 3);
  (76, 2, 2938661835, 6); (77, 1, 892460737, 4); (78, 2, 2753184165, 6); (79, 1, 3479467177, 6);
  (80, 1, 3435973837, 6); (81, 1, 3393554407, 6); (82, 1, 3352169597, 6); (83, 1, 827945503, 4);
  (84, 2, 2249744775, 6); (85, 1, 3233857729, 6); (86, 1, 799063683, 4); (87, 1, 789879043, 4);
  (88, 1, 3123612579, 6); (89, 1, 3088515809, 6); (90, 2, 1813430637, 6); (91, 2, 1746305385, 6);
  (92, 1, 2987803337, 6); (93, 1, 2955676419, 6); (94, 1, 2924233053, 6); (95, 2, 1491936009, 6);
  (96, 1, 2863311531, 6); (97, 2, 1372618415, 6); (98, 1, 1402438301, 5); (99, 1, 2776544515, 6);
  (100, 1, 1374389535, 5); (101, 2, 1148159575, 6); (102, 1, 2694881441, 6); (103, 2, 1042467791, 6);
  (104, 1, 1321528399, 5); (105, 2, 940802361, 6); (106, 2, 891408307, 6); (107, 2, 842937507, 6);
  (108, 2, 795364315, 6); (109, 2, 748664025, 6); (110, 2, 702812831, 6); (111, 2, 657787785, 6);
  (112, 2, 613566757, 6); (113, 2, 570128403, 6); (114, 2, 527452125, 6); (115, 2, 485518043, 6);
  (116, 1, 2369637129, 6); (117, 2, 403800345, 6); (118, 1, 582368447, 4); (119, 1, 1154949189, 5);
  (120, 1, 2290649225, 6); (121, 2, 248469183, 6); (122, 1, 1126548799, 5); (123, 2, 174592167, 6);
  (124, 2, 138547333, 6); (125, 1, 274877907, 3); (126, 2, 68174085, 6); (127, 2, 33818641, 6);
  (128, 0, 0, 7); (129, 1, 266354561, 3); (130, 1, 4228890877, 7); (131, 1, 4196609267, 7);
  (132, 1, 1041204193, 5); (133, 1, 4133502361, 7); (134, 1, 128207979, 2); (135, 1, 4072265289, 7);
  (136, 1, 4042322161, 7); (137, 1, 125400505, 2); (138, 1, 1991868891, 6); (139, 1, 1977538899, 6);
  (140, 2, 3558687189, 7); (141, 1, 974744351, 5); (142, 1, 3871519817, 7); (143, 1, 3844446251, 7);
  (144, 1, 954437177, 5); (145, 1, 3791419407, 7); (146, 2, 3235934265, 7); (147, 1, 3739835469, 7);
  (148, 2, 3134165325, 7); (149, 1, 3689636335, 7); (150, 1, 458129845, 4); (151, 1, 910191745, 5);
  (152, 2, 2938661835, 7); (153, 1, 3593175255, 7); (154, 1, 892460737, 5); (155, 1, 3546811703, 7);
  (156, 2, 2753184165, 7); (157, 1, 875407347, 5); (158, 1, 3479467177, 7); (159, 2, 2620200175, 7);
  (160, 1, 3435973837, 7); (161, 1, 3414632385, 7); (162, 1, 3393554407, 7); (163, 1, 3372735055, 7);
  (164, 1, 3352169597, 7); (165, 1, 1665926709, 6); (166, 1, 827945503, 5); (167, 1, 1645975491, 6);
  (168, 2, 2249744775, 7); (169, 1, 1626496491, 6); (170, 1, 3233857729, 7); (171, 2, 2134925265, 7);
  (172, 1, 799063683, 5); (173, 2, 2060591247, 7); (174, 1, 789879043, 5); (175, 1, 1570730897, 6);
  (176, 1, 3123612579, 7); (177, 2, 1916962805, 7); (178, 1, 3088515809, 7); (179, 2, 1847555765, 7);
  (180, 2, 1813430637, 7); (181, 1, 3037324939, 7); (182, 2, 1746305385, 7); (183, 1, 3004130131, 7);
  (184, 1, 2987803337, 7); (185, 2, 1648338801, 7); (186, 1, 2955676419, 7); (187, 1, 2939870663, 7);
  (188, 1, 2924233053, 7); (189, 2, 1522554545, 7); (190, 2, 1491936009, 7); (191, 1, 2878302691, 7);
  (192, 1, 2863311531, 7); (193, 1, 356059465, 4); (194, 2, 1372618415, 7); (195, 2, 1343553873, 7);
  (196, 1, 1402438301, 6); (197, 2, 1286310003, 7); (198, 1, 2776544515, 7); (199, 1, 1381296015, 6);
  (200, 1, 1374389535, 6); (201, 1, 42735993, 1); (202, 2, 1148159575, 7); (203, 1, 2708156719, 7);
  (204, 1, 2694881441, 7); (205, 1, 1340867839, 6); (206, 2, 1042467791, 7); (207, 1, 663956297, 5);
  (208, 1, 1321528399, 6); (209, 1, 2630410593, 7); (210, 2, 940802361, 7); (211, 1, 2605477791, 7);
  (212, 2, 891408307, 7); (213, 1, 2581013211, 7); (214, 2, 842937507, 7); (215, 1, 1278501893, 6);
  (216, 2, 795364315, 7); (217, 2, 771906565, 7); (218, 2, 748664025, 7); (219, 2, 725633745, 7);
  (220, 2, 702812831, 7); (221, 2, 680198441, 7); (222, 2, 657787785, 7); (223, 2, 635578121, 7);
  (224, 2, 613566757, 7); (225, 1, 2443359173, 7); (226, 2, 570128403, 7); (227, 2, 548696263, 7);
  (228, 2, 527452125, 7); (229, 1, 1200340205, 6); (230, 2, 485518043, 7); (231, 2, 464823301, 7);
  (232, 1, 2369637129, 7); (233, 2, 423966729, 7); (234, 2, 403800345, 7); (235, 2, 383805589, 7);
  (236, 1, 582368447, 5); (237, 2, 344322273, 7); (238, 1, 1154949189, 6); (239, 1, 2300233531, 7);
  (240, 1, 2290649225, 7); (241, 1, 285143057, 4); (242, 2, 248469183, 7); (243, 1, 2262369605, 7);
  (244, 1, 1126548799, 6); (245, 2, 192835267, 7); (246, 2, 174592167, 7); (247, 2, 156496785, 7);
  (248, 2, 138547333, 7); (249, 2, 120742053, 7); (250, 1, 274877907, 4); (251, 1, 2190262207, 7);
  (252, 2, 68174085, 7); (253, 1, 2172947881, 7); (254, 2, 33818641, 7); (255, 1, 2155905153, 7)
].

Definition table_s32 : list row := [
  (256, 1, 2147483649, 7); (1, 0, 0, 0); (2, 0, 0, 1); (3, 1, 1431655766, 0);
  (4, 0, 0, 2); (5, 1, 1717986919, 1); (6, 1, 715827883, 0); (7, 1, 2454267027, 2);
  (8, 0, 0, 3); (9, 1, 954437177, 1); (10, 1, 1717986919, 2); (11, 1, 780903145, 1);
  (12, 1, 715827883, 1); (13, 1, 1321528399, 2); (14, 1, 2454267027, 3); (15, 1, 2290649225, 3);
  (16, 0, 0, 4); (17, 1, 2021161081, 3); (18, 1, 954437177, 2); (19, 1, 1808407283, 3);
  (20, 1, 1717986919, 3); (21, 1, 818089009, 2); (22, 1, 780903145, 2); (23, 1, 2987803337, 4);
  (24, 1, 715827883, 2); (25, 1, 1374389535, 3); (26, 1, 1321528399, 3); (27, 1, 1272582903, 3);
  (28, 1, 2454267027, 4); (29, 1, 2369637129, 4); (30, 1, 2290649225, 4); (31, 1, 2216757315, 4);
  (32, 0, 0, 5); (33, 1, 1041204193, 3); (34, 1, 2021161081, 4); (35, 1, 3926827243, 5);
  (36, 1, 954437177, 3); (37, 1, 3714566311, 5); (38, 1, 1808407283, 4); (39, 1, 3524075731, 5);
  (40, 1, 1717986919, 4); (41, 1, 1676084799, 4); (42, 1, 818089009, 3); (43, 1, 799063683, 3);
  (44, 1, 780903145, 3); (45, 1, 3054198967, 5); (46, 1, 2987803337, 5); (47, 1, 2924233053, 5);
  (48, 1, 715827883, 3); (49, 1, 1402438301, 4); (50, 1, 1374389535, 4); (51, 1, 2694881441, 5);
  (52, 1, 1321528399, 4); (53, 1, 1296593901, 4); (54, 1, 1272582903, 4); (55, 1, 156180629, 1);
  (56, 1, 2454267027, 5); (57, 1, 2411209711, 5); (58, 1, 2369637129, 5); (59, 1, 582368447, 3);
  (60, 1, 2290649225, 5); (61, 1, 1126548799, 4); (62, 1, 2216757315, 5); (63, 1, 2181570691, 5);
  (64, 0, 0, 6); (65, 1, 2114445439, 5); (66, 1, 1041204193, 4); (67, 1, 128207979, 1);
  (68, 1, 2021161081, 5); (69, 1, 1991868891, 5); (70, 1, 3926827243, 6); (71, 1, 3871519817, 6);
  (72, 1, 954437177, 4); (73, 1, 3765450781, 6); (74, 1, 3714566311, 6); (75, 1, 458129845, 3);
  (76, 1, 1808407283, 5); (77, 1, 892460737, 4); (78, 1, 3524075731, 6); (79, 1, 1739733589, 5);
  (80, 1, 1717986919, 5); (81, 1, 424194301, 3); (82, 1, 1676084799, 5); (83, 1, 827945503, 4);
  (84, 1, 818089009, 4); (85, 1, 1616928865, 5); (86, 1, 799063683, 4); (87, 1, 789879043, 4);
  (88, 1, 780903145, 4); (89, 1, 3088515809, 6); (90, 1, 3054198967, 6); (91, 1, 3020636341, 6);
  (92, 1, 2987803337, 6); (93, 1, 738919105, 4); (94, 1, 2924233053, 6); (95, 1, 2893451653, 6);
  (96, 1, 715827883, 4); (97, 1, 354224107, 3); (98, 1, 1402438301, 5); (99, 1, 2776544515, 6);
  (100, 1, 1374389535, 5); (101, 1, 680390859, 4); (102, 1, 2694881441, 6); (103, 1, 333589693, 3);
  (104, 1, 1321528399, 5); (105, 1, 2617884829, 6); (106, 1, 1296593901, 5); (107, 1, 1284476201, 5);
  (108, 1, 1272582903, 5); (109, 1, 2521815661, 6); (110, 1, 156180629, 2); (111, 1, 2476377541, 6);
  (112, 1, 2454267027, 6); (113, 1, 1216273925, 5); (114, 1, 2411209711, 6); (115, 1, 1195121335, 5);
  (116, 1, 2369637129, 6); (117, 1, 2349383821, 6); (118, 1, 582368447, 4); (119, 1, 1154949189, 5);
  (120, 1, 2290649225, 6); (121, 1, 70991195, 1); (122, 1, 1126548799, 5); (123, 1, 558694933, 4);
  (124, 1, 2216757315, 6); (125, 1, 274877907, 3); (126, 1, 2181570691, 6); (127, 1, 2164392969, 6);
  (128, 0, 0, 7); (129, 1, 266354561, 3); (130, 1, 2114445439, 6); (131, 1, 1049152317, 5);
  (132, 1, 1041204193, 5); (133, 1, 4133502361, 7); (134, 1, 128207979, 2); (135, 1, 4072265289, 7);
  (136, 1, 2021161081, 6); (137, 1, 125400505, 2); (138, 1, 1991868891, 6); (139, 1, 1977538899, 6);
  (140, 1, 3926827243, 7); (141, 1, 974744351, 5); (142, 1, 3871519817, 7); (143, 1, 961111563, 5);
  (144, 1, 954437177, 5); (145, 1, 3791419407, 7); (146, 1, 3765450781, 7); (147, 1, 1869917735, 6);
  (148, 1, 3714566311, 7); (149, 1, 230602271, 3); (150, 1, 458129845, 4); (151, 1, 910191745, 5);
  (152, 1, 1808407283, 6); (153, 1, 3593175255, 7); (154, 1, 892460737, 5); (155, 1, 443351463, 4);
  (156, 1, 3524075731, 7); (157, 1, 875407347, 5); (158, 1, 1739733589, 6); (159, 1, 432197967, 4);
  (160, 1, 1717986919, 6); (161, 1, 3414632385, 7); (162, 1, 424194301, 4); (163, 1, 210795941, 3);
  (164, 1, 1676084799, 6); (165, 1, 1665926709, 6); (166, 1, 827945503, 5); (167, 1, 1645975491, 6);
  (168, 1, 818089009, 5); (169, 1, 1626496491, 6); (170, 1, 1616928865, 6); (171, 1, 3214946281, 7);
  (172, 1, 799063683, 5); (173, 1, 397222409, 4); (174, 1, 789879043, 5); (175, 1, 1570730897, 6);
  (176, 1, 780903145, 5); (177, 1, 3105965051, 7); (178, 1, 3088515809, 7); (179, 1, 3071261531, 7);
  (180, 1, 3054198967, 7); (181, 1, 759331235, 5); (182, 1, 3020636341, 7); (183, 1, 3004130131, 7);
  (184, 1, 2987803337, 7); (185, 1, 2971653049, 7); (186, 1, 738919105, 5); (187, 1, 2939870663, 7);
  (188, 1, 2924233053, 7); (189, 1, 2908760921, 7); (190, 1, 2893451653, 7); (191, 1, 2878302691, 7);
  (192, 1, 715827883, 5); (193, 1, 356059465, 4); (194, 1, 354224107, 4); (195, 1, 2819260585, 7);
  (196, 1, 1402438301, 6); (197, 1, 1395319325, 6); (198, 1, 2776544515, 7); (199, 1, 1381296015, 6);
  (200, 1, 1374389535, 6); (201, 1, 42735993, 1); (202, 1, 680390859, 5); (203, 1, 2708156719, 7);
  (204, 1, 2694881441, 7); (205, 1, 1340867839, 6); (206, 1, 333589693, 4); (207, 1, 663956297, 5);
  (208, 1, 1321528399, 6); (209, 1, 2630410593, 7); (210, 1, 2617884829, 7); (211, 1, 81421181, 2);
  (212, 1, 1296593901, 6); (213, 1, 2581013211, 7); (214, 1, 1284476201, 6); (215, 1, 1278501893, 6);
  (216, 1, 1272582903, 6); (217, 1, 2533436931, 7); (218, 1, 2521815661, 7); (219, 1, 2510300521, 7);
  (220, 1, 156180629, 3); (221, 1, 2487582869, 7); (222, 1, 2476377541, 7); (223, 1, 2465272709, 7);
  (224, 1, 2454267027, 7); (225, 1, 2443359173, 7); (226, 1, 1216273925, 6); (227, 1, 605457945, 5);
  (228, 1, 2411209711, 7); (229, 1, 1200340205, 6); (230, 1, 1195121335, 6); (231, 1, 2379895299, 7);
  (232, 1, 2369637129, 7); (233, 1, 2359467013, 7); (234, 1, 2349383821, 7); (235, 1, 2339386443, 7);
  (236, 1, 582368447, 5); (237, 1, 2319644785, 7); (238, 1, 1154949189, 6); (239, 1, 2300233531, 7);
  (240, 1, 2290649225, 7); (241, 1, 285143057, 4); (242, 1, 70991195, 2); (243, 1, 2262369605, 7);
  (244, 1, 1126548799, 6); (245, 1, 1121950641, 6); (246, 1, 558694933, 5); (247, 1, 2225732041, 7);
  (248, 1, 2216757315, 7); (249, 1, 2207854675, 7); (250, 1, 274877907, 4); (251, 1, 2190262207, 7);
  (252, 1, 2181570691, 7); (253, 1, 2172947881, 7); (254, 1, 2164392969, 7); (255, 1, 2155905153, 7);
  (256, 1, 2147483649, 7)
].

Definition table_runtime_u8 : list row := [
  (256, 2, 1, 7); (1, 2, 257, 0); (2, 2, 1, 0); (3, 2, 86, 1);
  (4, 2, 1, 1); (5, 2, 154, 2); (6, 2, 86, 2); (7, 2, 37, 2);
  (8, 2, 1, 2); (9, 2, 200, 3); (10, 2, 154, 3); (11, 2, 117, 3);
  (12, 2, 86, 3); (13, 2, 60, 3); (14, 2, 37, 3); (15, 2, 18, 3);
  (16, 2, 1, 3); (17, 2, 226, 4); (18, 2, 200, 4); (19, 2, 176, 4);
  (20, 2, 154, 4); (21, 2, 135, 4); (22, 2, 117, 4); (23, 2, 101, 4);
  (24, 2, 86, 4); (25, 2, 72, 4); (26, 2, 60, 4); (27, 2, 48, 4);
  (28, 2, 37, 4); (29, 2, 27, 4); (30, 2, 18, 4); (31, 2, 9, 4);
  (32, 2, 1, 4); (33, 2, 241, 5); (34, 2, 226, 5); (35, 2, 213, 5);
  (36, 2, 200, 5); (37, 2, 187, 5); (38, 2, 176, 5); (39, 2, 165, 5);
  (40, 2, 154, 5); (41, 2, 144, 5); (42, 2, 135, 5); (43, 2, 126, 5);
  (44, 2, 117, 5); (45, 2, 109, 5); (46, 2, 101, 5); (47, 2, 93, 5);
  (48, 2, 86, 5); (49, 2, 79, 5); (50, 2, 72, 5); (51, 2, 66, 5);
  (52, 2, 60, 5); (53, 2, 54, 5); (54, 2, 48, 5); (55, 2, 42, 5);
  (56, 2, 37, 5); (57, 2, 32, 5); (58, 2, 27, 5); (59, 2, 22, 5);
  (60, 2, 18, 5); (61, 2, 13, 5); (62, 2, 9, 5); (63, 2, 5, 5);
  (64, 2, 1, 5); (65, 2, 249, 6); (66, 2, 241, 6); (67, 2, 234, 6);
  (68, 2, 226, 6); (69, 2, 219, 6); (70, 2, 213, 6); (71, 2, 206, 6);
  (72, 2, 200, 6); (73, 2, 193, 6); (74, 2, 187, 6); (75, 2, 181, 6);
  (76, 2, 176, 6); (77, 2, 170, 6); (78, 2, 165, 6); (79, 2, 159, 6);
  (80, 2, 154, 6); (81, 2, 149, 6); (82, 2, 144, 6); (83, 2, 139, 6);
  (84, 2, 135, 6); (85, 2, 130, 6); (86, 2, 126, 6); (87, 2, 121, 6);
  (88, 2, 117, 6); (89, 2, 113, 6); (90, 2, 109, 6); (91, 2, 105, 6);
  (92, 2, 101, 6); (93, 2, 97, 6); (94, 2, 93, 6); (95, 2, 89, 6);
  (96, 2, 86, 6); (97, 2, 82, 6); (98, 2, 79, 6); (99, 2, 75, 6);
  (100, 2, 72, 6); (101, 2, 69, 6); (102, 2, 66, 6); (103, 2, 63, 6);
  (104, 2, 60, 6); (105, 2, 57, 6); (106, 2, 54, 6); (107, 2, 51, 6);
  (108, 2, 48, 6); (109, 2, 45, 6); (110, 2, 42, 6); (111, 2, 40, 6);
  (112, 2, 37, 6); (113, 2, 34, 6); (114, 2, 32, 6); (115, 2, 29, 6);
  (116, 2, 27, 6); (117, 2, 25, 6); (118, 2, 22, 6); (119, 2, 20, 6);
  (120, 2, 18, 6); (121, 2, 15, 6); (122, 2, 13, 6); (123, 2, 11, 6);
  (124, 2, 9, 6); (125, 2, 7, 6); (126, 2, 5, 6); (127, 2, 3, 6);
  (128, 2, 1, 6); (129, 2, 253, 7); (130, 2, 249, 7); (131, 2, 245, 7);
  (132, 2, 241, 7); (133, 2, 237, 7); (134, 2, 234, 7); (135, 2, 230, 7);
  (136, 2, 226, 7); (137, 2, 223, 7); (138, 2, 219, 7); (139, 2, 216, 7);
  (140, 2, 213, 7); (141, 2, 209, 7); (142, 2, 206, 7); (143, 2, 203, 7);
  (144, 2, 200, 7); (145, 2, 196, 7); (146, 2, 193, 7); (147, 2, 190, 7);
  (148, 2, 187, 7); (149, 2, 184, 7); (150, 2, 181, 7); (151, 2, 179, 7);
  (152, 2, 176, 7); (153, 2, 173, 7); (154, 2, 170, 7); (155, 2, 167, 7);
  (156, 2, 165, 7); (157, 2, 162, 7); (158, 2, 159, 7); (159, 2, 157, 7);
  (160, 2, 154, 7); (161, 2, 152, 7); (162, 2, 149, 7); (163, 2, 147, 7);
  (164, 2, 144, 7); (165, 2, 142, 7); (166, 2, 139, 7); (167, 2, 137, 7);
  (168, 2, 135, 7); (169, 2, 132, 7); (170, 2, 130, 7); (171, 2, 128, 7);
  (172, 2, 126, 7); (173, 2, 123, 7); (174, 2, 121, 7); (175, 2, 119, 7);
  (176, 2, 117, 7); (177, 2, 115, 7); (178, 2, 113, 7); (179, 2, 111, 7);
  (180, 2, 109, 7); (181, 2, 107, 7); (182, 2, 105, 7); (183, 2, 103, 7);
  (184, 2, 101, 7); (185, 2, 99, 7); (186, 2, 97, 7); (187, 2, 95, 7);
  (188, 2, 93, 7); (189, 2, 91, 7); (190, 2, 89, 7); (191, 2, 88, 7);
  (192, 2, 86, 7); (193, 2, 84, 7); (194, 2, 82, 7); (195, 2, 81, 7);
  (196, 2, 79, 7); (197, 2, 77, 7); (198, 2, 75, 7); (199, 2, 74, 7);
  (200, 2, 72, 7); (201, 2, 71, 7); (202, 2, 69, 7); (203, 2, 67, 7);
  (204, 2, 66, 7); (205, 2, 64, 7); (206, 2, 63, 7); (207, 2, 61, 7);
  (208, 2, 60, 7); (209, 2, 58, 7); (210, 2, 57, 7); (211, 2, 55, 7);
  (212, 2, 54, 7); (213, 2, 52, 7); (214, 2, 51, 7); (215, 2, 49, 7);
  (216, 2, 48, 7); (217, 2, 47, 7); (218, 2, 45, 7); (219, 2, 44, 7);
  (220, 2, 42, 7); (221, 2, 41, 7); (222, 2, 40, 7); (223, 2, 38, 7);
  (224, 2, 37, 7); (225, 2, 36, 7); (226, 2, 34, 7); (227, 2, 33, 7);
  (228, 2, 32, 7); (229, 2, 31, 7); (230, 2, 29, 7); (231, 2, 28, 7);
  (232, 2, 27, 7); (233, 2, 26, 7); (234, 2, 25, 7); (235, 2, 23, 7);
  (236, 2, 22, 7); (237, 2, 21, 7); (238, 2, 20, 7); (239, 2, 19, 7);
  (240, 2, 18, 7); (241, 2, 16, 7); (242, 2, 15, 7); (243, 2, 14, 7);
  (244, 2, 13, 7); (245, 2, 12, 7); (246, 2, 11, 7); (247, 2, 10, 7);
  (248, 2, 9, 7); (249, 2, 8, 7); (250, 2, 7, 7); (251, 2, 6, 7);
  (252, 2, 5, 7); (253, 2, 4, 7); (254, 2, 3, 7); (255, 2, 2, 7)
].

Definition table_runtime_s8 : list row := [
  (256, 1, 2, 0); (1, 1, 257, 0); (2, 1, 129, 0); (3, 1, 86, 0);
  (4, 1, 129, 1); (5, 1, 103, 1); (6, 1, 43, 0); (7, 1, 147, 2);
  (8, 1, 129, 2); (9, 1, 57, 1); (10, 1, 103, 2); (11, 1, 187, 3);
  (12, 1, 43, 1); (13, 1, 79, 2); (14, 1, 147, 3); (15, 1, 137, 3);
  (16, 1, 129, 3); (17, 1, 121, 3); (18, 1, 57, 2); (19, 1, 27, 1);
  (20, 1, 103, 3); (21, 1, 49, 2); (22, 1, 187, 4); (23, 1, 179, 4);
  (24, 1, 43, 2); (25, 1, 41, 2); (26, 1, 79, 3); (27, 1, 19, 1);
  (28, 1, 147, 4); (29, 1, 71, 3); (30, 1, 137, 4); (31, 1, 133, 4);
  (32, 1, 129, 4); (33, 1, 125, 4); (34, 1, 121, 4); (35, 1, 59, 3);
  (36, 1, 57, 3); (37, 1, 111, 4); (38, 1, 27, 2); (39, 1, 211, 5);
  (40, 1, 103, 4); (41, 1, 25, 2); (42, 1, 49, 3); (43, 1, 6, 0);
  (44, 1, 47, 3); (45, 1, 23, 2); (46, 1, 45, 3); (47, 1, 11, 1);
  (48, 1, 43, 3); (49, 1, 21, 2); (50, 1, 41, 3); (51, 1, 81, 4);
  (52, 1, 79, 4); (53, 1, 39, 3); (54, 1, 19, 2); (55, 1, 75, 4);
  (56, 1, 147, 5); (57, 1, 9, 1); (58, 1, 71, 4); (59, 1, 35, 3);
  (60, 1, 137, 5); (61, 1, 135, 5); (62, 1, 133, 5); (63, 1, 131, 5);
  (64, 1, 129, 5); (65, 1, 127, 5); (66, 1, 63, 4); (67, 1, 31, 3);
  (68, 1, 61, 4); (69, 1, 15, 2); (70, 1, 59, 4); (71, 1, 29, 3);
  (72, 1, 57, 4); (73, 1, 113, 5); (74, 1, 7, 1); (75, 1, 55, 4);
  (76, 1, 27, 3); (77, 1, 107, 5); (78, 1, 53, 4); (79, 1, 13, 2);
  (80, 1, 103, 5); (81, 1, 51, 4); (82, 1, 25, 3); (83, 1, 99, 5);
  (84, 1, 49, 4); (85, 1, 97, 5); (86, 1, 3, 0); (87, 1, 95, 5);
  (88, 1, 47, 4); (89, 1, 93, 5); (90, 1, 23, 3); (91, 1, 91, 5);
  (92, 1, 45, 4); (93, 1, 89, 5); (94, 1, 11, 2); (95, 1, 87, 5);
  (96, 1, 43, 4); (97, 1, 85, 5); (98, 1, 21, 3); (99, 1, 83, 5);
  (100, 1, 41, 4); (101, 1, 163, 6); (102, 1, 81, 5); (103, 1, 5, 1);
  (104, 1, 79, 5); (105, 1, 157, 6); (106, 1, 39, 4); (107, 1, 77, 5);
  (108, 1, 19, 3); (109, 1, 151, 6); (110, 1, 75, 5); (111, 1, 37, 4);
  (112, 1, 147, 6); (113, 1, 73, 5); (114, 1, 9, 2); (115, 1, 143, 6);
  (116, 1, 71, 5); (117, 1, 141, 6); (118, 1, 35, 4); (119, 1, 69, 5);
  (120, 1, 137, 6); (121, 1, 17, 3); (122, 1, 135, 6); (123, 1, 67, 5);
  (124, 1, 133, 6); (125, 1, 33, 4); (126, 1, 131, 6); (127, 1, 65, 5);
  (128, 1, 129, 6); (129, 1, 2, 0); (130, 1, 2, 0); (131, 1, 2, 0);
  (132, 1, 2, 0); (133, 1, 2, 0); (134, 1, 2, 0); (135, 1, 2, 0);
  (136, 1, 2, 0); (137, 1, 2, 0); (138, 1, 2, 0); (139, 1, 2, 0);
  (140, 1, 2, 0); (141, 1, 2, 0); (142, 1, 2, 0); (143, 1, 2, 0);
  (144, 1, 2, 0); (145, 1, 2, 0); (146, 1, 2, 0); (147, 1, 2, 0);
  (148, 1, 2, 0); (149, 1, 2, 0); (150, 1, 2, 0); (151, 1, 2, 0);
  (152, 1, 2, 0); (153, 1, 2, 0); (154, 1, 2, 0); (155, 1, 2, 0);
  (156, 1, 2, 0); (157, 1, 2, 0); (158, 1, 2, 0); (159, 1, 2, 0);
  (160, 1, 2, 0); (161, 1, 2, 0); (162, 1, 2, 0); (163, 1, 2, 0);
  (164, 1, 2, 0); (165, 1, 2, 0); (166, 1, 2, 0); (167, 1, 2, 0);
  (168, 1, 2, 0); (169, 1, 2, 0); (170, 1, 2, 0); (171, 1, 2, 0);
  (172, 1, 2, 0); (173, 1, 2, 0); (174, 1, 2, 0); (175, 1, 2, 0);
  (176, 1, 2, 0); (177, 1, 2, 0); (178, 1, 2, 0); (179, 1, 2, 0);
  (180, 1, 2, 0); (181, 1, 2, 0); (182, 1, 2, 0); (183, 1, 2, 0);
  (184, 1, 2, 0); (185, 1, 2, 0); (186, 1, 2, 0); (187, 1, 2, 0);
  (188, 1, 2, 0); (189, 1, 2, 0); (190, 1, 2, 0); (191, 1, 2, 0);
  (192, 1, 2, 0); (193, 1, 2, 0); (194, 1, 2, 0); (195, 1, 2, 0);
  (196, 1, 2, 0); (197, 1, 2, 0); (198, 1, 2, 0); (199, 1, 2, 0);
  (200, 1, 2, 0); (201, 1, 2, 0); (202, 1, 2, 0); (203, 1, 2, 0);
  (204, 1, 2, 0); (205, 1, 2, 0); (206, 1, 2, 0); (207, 1, 2, 0);
  (208, 1, 2, 0); (209, 1, 2, 0); (210, 1, 2, 0); (211, 1, 2, 0);
  (212, 1, 2, 0); (213, 1, 2, 0); (214, 1, 2, 0); (215, 1, 2, 0);
  (216, 1, 2, 0); (217, 1, 2, 0); (218, 1, 2, 0); (219, 1, 2, 0);
  (220, 1, 2, 0); (221, 1, 2, 0); (222, 1, 2, 0); (223, 1, 2, 0);
  (224, 1, 2, 0); (225, 1, 2, 0); (226, 1, 2, 0); (227, 1, 2, 0);
  (228, 1, 2, 0); (229, 1, 2, 0); (230, 1, 2, 0); (231, 1, 2, 0);
  (232, 1, 2, 0); (233, 1, 2, 0); (234, 1, 2, 0); (235, 1, 2, 0);
  (236, 1, 2, 0); (237, 1, 2, 0); (238, 1, 2, 0); (239, 1, 2, 0);
  (240, 1, 2, 0); (241, 1, 2, 0); (242, 1, 2, 0); (243, 1, 2, 0);
  (244, 1, 2, 0); (245, 1, 2, 0); (246, 1, 2, 0); (247, 1, 2, 0);
  (248, 1, 2, 0); (249, 1, 2, 0); (250, 1, 2, 0); (251, 1, 2, 0);
  (252, 1, 2, 0); (253, 1, 2, 0); (254, 1, 2, 0); (255, 1, 2, 0);
  (256, 1, 2, 0)
].

Definition table_runtime_u16 : list row := [
  (256, 2, 1, 7); (1, 2, 65537, 0); (2, 2, 1, 0); (3, 2, 21846, 1);
  (4, 2, 1, 1); (5, 2, 39322, 2); (6, 2, 21846, 2); (7, 2, 9363, 2);
  (8, 2, 1, 2); (9, 2, 50973, 3); (10, 2, 39322, 3); (11, 2, 29790, 3);
  (12, 2, 21846, 3); (13, 2, 15124, 3); (14, 2, 9363, 3); (15, 2, 4370, 3);
  (16, 2, 1, 3); (17, 2, 57826, 4); (18, 2, 50973, 4); (19, 2, 44841, 4);
  (20, 2, 39322, 4); (21, 2, 34329, 4); (22, 2, 29790, 4); (23, 2, 25645, 4);
  (24, 2, 21846, 4); (25, 2, 18351, 4); (26, 2, 15124, 4); (27, 2, 12137, 4);
  (28, 2, 9363, 4); (29, 2, 6780, 4); (30, 2, 4370, 4); (31, 2, 2115, 4);
  (32, 2, 1, 4); (33, 2, 61565, 5); (34, 2, 57826, 5); (35, 2, 54302, 5);
  (36, 2, 50973, 5); (37, 2, 47824, 5); (38, 2, 44841, 5); (39, 2, 42011, 5);
  (40, 2, 39322, 5); (41, 2, 36765, 5); (42, 2, 34329, 5); (43, 2, 32006, 5);
  (44, 2, 29790, 5); (45, 2, 27671, 5); (46, 2, 25645, 5); (47, 2, 23705, 5);
  (48, 2, 21846, 5); (49, 2, 20063, 5); (50, 2, 18351, 5); (51, 2, 16706, 5);
  (52, 2, 15124, 5); (53, 2, 13602, 5); (54, 2, 12137, 5); (55, 2, 10725, 5);
  (56, 2, 9363, 5); (57, 2, 8049, 5); (58, 2, 6780, 5); (59, 2, 5554, 5);
  (60, 2, 4370, 5); (61, 2, 3224, 5); (62, 2, 2115, 5); (63, 2, 1041, 5);
  (64, 2, 1, 5); (65, 2, 63520, 6); (66, 2, 61565, 6); (67, 2, 59668, 6);
  (68, 2, 57826, 6); (69, 2, 56039, 6); (70, 2, 54302, 6); (71, 2, 52614, 6);
  (72, 2, 50973, 6); (73, 2, 49377, 6); (74, 2, 47824, 6); (75, 2, 46313, 6);
  (76, 2, 44841, 6); (77, 2, 43407, 6); (78, 2, 42011, 6); (79, 2, 40649, 6);
  (80, 2, 39322, 6); (81, 2, 38028, 6); (82, 2, 36765, 6); (83, 2, 35532, 6);
  (84, 2, 34329, 6); (85, 2, 33154, 6); (86, 2, 32006, 6); (87, 2, 30885, 6);
  (88, 2, 29790, 6); (89, 2, 28719, 6); (90, 2, 27671, 6); (91, 2, 26647, 6);
  (92, 2, 25645, 6); (93, 2, 24665, 6); (94, 2, 23705, 6); (95, 2, 22766, 6);
  (96, 2, 21846, 6); (97, 2, 20945, 6); (98, 2, 20063, 6); (99, 2, 19198, 6);
  (100, 2, 18351, 6); (101, 2, 17520, 6); (102, 2, 16706, 6); (103, 2, 15907, 6);
  (104, 2, 15124, 6); (105, 2, 14356, 6); (106, 2, 13602, 6); (107, 2, 12863, 6);
  (108, 2, 12137, 6); (109, 2, 11424, 6); (110, 2, 10725, 6); (111, 2, 10038, 6);
  (112, 2, 9363, 6); (113, 2, 8700, 6); (114, 2, 8049, 6); (115, 2, 7409, 6);
  (116, 2, 6780, 6); (117, 2, 6162, 6); (118, 2, 5554, 6); (119, 2, 4957, 6);
  (120, 2, 4370, 6); (121, 2, 3792, 6); (122, 2, 3224, 6); (123, 2, 2665, 6);
  (124, 2, 2115, 6); (125, 2, 1573, 6); (126, 2, 1041, 6); (127, 2, 517, 6);
  (128, 2, 1, 6); (129, 2, 64520, 7); (130, 2, 63520, 7); (131, 2, 62535, 7);
  (132, 2, 61565, 7); (133, 2, 60609, 7); (134, 2, 59668, 7); (135, 2, 58740, 7);
  (136, 2, 57826, 7); (137, 2, 56926, 7); (138, 2, 56039, 7); (139, 2, 55164, 7);
  (140, 2, 54302, 7); (141, 2, 53452, 7); (142, 2, 52614, 7); (143, 2, 51788, 7);
  (144, 2, 50973, 7); (145, 2, 50169, 7); (146, 2, 49377, 7); (147, 2, 48595, 7);
  (148, 2, 47824, 7); (149, 2, 47063, 7); (150, 2, 46313, 7); (151, 2, 45572, 7);
  (152, 2, 44841, 7); (153, 2, 44120, 7); (154, 2, 43407, 7); (155, 2, 42705, 7);
  (156, 2, 42011, 7); (157, 2, 41326, 7); (158, 2, 40649, 7); (159, 2, 39982, 7);
  (160, 2, 39322, 7); (161, 2, 38671, 7); (162, 2, 38028, 7); (163, 2, 37392, 7);
  (164, 2, 36765, 7); (165, 2, 36145, 7); (166, 2, 35532, 7); (167, 2, 34927, 7);
  (168, 2, 34329, 7); (169, 2, 33738, 7); (170, 2, 33154, 7); (171, 2, 32577, 7);
  (172, 2, 32006, 7); (173, 2, 31443, 7); (174, 2, 30885, 7); (175, 2, 30334, 7);
  (176, 2, 29790, 7); (177, 2, 29251, 7); (178, 2, 28719, 7); (179, 2, 28192, 7);
  (180, 2, 27671, 7); (181, 2, 27156, 7); (182, 2, 26647, 7); (183, 2, 26143, 7);
  (184, 2, 25645, 7); (185, 2, 25152, 7); (186, 2, 24665, 7); (187, 2, 24182, 7);
  (188, 2, 23705, 7); (189, 2, 23233, 7); (190, 2, 22766, 7); (191, 2, 22303, 7);
  (192, 2, 21846, 7); (193, 2, 21393, 7); (194, 2, 20945, 7); (195, 2, 20502, 7);
  (196, 2, 20063, 7); (197, 2, 19628, 7); (198, 2, 19198, 7); (199, 2, 18772, 7);
  (200, 2, 18351, 7); (201, 2, 17933, 7); (202, 2, 17520, 7); (203, 2, 17111, 7);
  (204, 2, 16706, 7); (205, 2, 16305, 7); (206, 2, 15907, 7); (207, 2, 15514, 7);
  (208, 2, 15124, 7); (209, 2, 14738, 7); (210, 2, 14356, 7); (211, 2, 13977, 7);
  (212, 2, 13602, 7); (213, 2, 13231, 7); (214, 2, 12863, 7); (215, 2, 12498, 7);
  (216, 2, 12137, 7); (217, 2, 11779, 7); (218, 2, 11424, 7); (219, 2, 11073, 7);
  (220, 2, 10725, 7); (221, 2, 10380, 7); (222, 2, 10038, 7); (223, 2, 9699, 7);
  (224, 2, 9363, 7); (225, 2, 9030, 7); (226, 2, 8700, 7); (227, 2, 8373, 7);
  (228, 2, 8049, 7); (229, 2, 7727, 7); (230, 2, 7409, 7); (231, 2, 7093, 7);
  (232, 2, 6780, 7); (233, 2, 6470, 7); (234, 2, 6162, 7); (235, 2, 5857, 7);
  (236, 2, 5554, 7); (237, 2, 5254, 7); (238, 2, 4957, 7); (239, 2, 4662, 7);
  (240, 2, 4370, 7); (241, 2, 4080, 7); (242, 2, 3792, 7); (243, 2, 3507, 7);
  (244, 2, 3224, 7); (245, 2, 2943, 7); (246, 2, 2665, 7); (247, 2, 2388, 7);
  (248, 2, 2115, 7); (249, 2, 1843, 7); (250, 2, 1573, 7); (251, 2, 1306, 7);
  (252, 2, 1041, 7); (253, 2, 778, 7); (254, 2, 517, 7); (255, 2, 258, 7)
].

Definition table_runtime_s16 : list row := [
  (256, 1, 32769, 7); (1, 1, 65537, 0); (2, 1, 32769, 0); (3, 1, 21846, 0);
  (4, 1, 32769, 1); (5, 1, 26215, 1); (6, 1, 10923, 0); (7, 1, 18725, 1);
  (8, 1, 32769, 2); (9, 1, 7282, 0); (10, 1, 26215, 2); (11, 1, 5958, 0);
  (12, 1, 10923, 1); (13, 1, 20165, 2); (14, 1, 18725, 2); (15, 1, 34953, 3);
  (16, 1, 32769, 3); (17, 1, 30841, 3); (18, 1, 3641, 0); (19, 1, 55189, 4);
  (20, 1, 26215, 3); (21, 1, 49933, 4); (22, 1, 2979, 0); (23, 1, 45591, 4);
  (24, 1, 10923, 2); (25, 1, 5243, 1); (26, 1, 20165, 3); (27, 1, 38837, 4);
  (28, 1, 18725, 3); (29, 1, 18079, 3); (30, 1, 34953, 4); (31, 1, 16913, 3);
  (32, 1, 32769, 4); (33, 1, 1986, 0); (34, 1, 30841, 4); (35, 1, 3745, 1);
  (36, 1, 3641, 1); (37, 1, 7085, 2); (38, 1, 55189, 5); (39, 1, 26887, 4);
  (40, 1, 26215, 4); (41, 1, 51151, 5); (42, 1, 49933, 5); (43, 1, 12193, 3);
  (44, 1, 2979, 1); (45, 1, 11651, 3); (46, 1, 45591, 5); (47, 1, 44621, 5);
  (48, 1, 10923, 3); (49, 1, 2675, 1); (50, 1, 5243, 2); (51, 1, 41121, 5);
  (52, 1, 20165, 4); (53, 1, 19785, 4); (54, 1, 38837, 5); (55, 1, 38131, 5);
  (56, 1, 18725, 4); (57, 1, 36793, 5); (58, 1, 18079, 4); (59, 1, 17773, 4);
  (60, 1, 34953, 5); (61, 1, 8595, 3); (62, 1, 16913, 4); (63, 1, 33289, 5);
  (64, 1, 32769, 5); (65, 1, 4033, 2); (66, 1, 993, 0); (67, 1, 31301, 5);
  (68, 1, 30841, 5); (69, 1, 15197, 4); (70, 1, 3745, 2); (71, 1, 14769, 4);
  (72, 1, 3641, 2); (73, 1, 57457, 6); (74, 1, 7085, 3); (75, 1, 55925, 6);
  (76, 1, 55189, 6); (77, 1, 6809, 3); (78, 1, 26887, 5); (79, 1, 26547, 5);
  (80, 1, 26215, 5); (81, 1, 25891, 5); (82, 1, 51151, 6); (83, 1, 25267, 5);
  (84, 1, 49933, 6); (85, 1, 24673, 5); (86, 1, 12193, 4); (87, 1, 48211, 6);
  (88, 1, 2979, 2); (89, 1, 5891, 3); (90, 1, 11651, 4); (91, 1, 11523, 4);
  (92, 1, 45591, 6); (93, 1, 45101, 6); (94, 1, 44621, 6); (95, 1, 44151, 6);
  (96, 1, 10923, 4); (97, 1, 43241, 6); (98, 1, 2675, 2); (99, 1, 662, 0);
  (100, 1, 5243, 3); (101, 1, 5191, 3); (102, 1, 41121, 6); (103, 1, 20361, 5);
  (104, 1, 20165, 5); (105, 1, 19973, 5); (106, 1, 19785, 5); (107, 1, 1225, 1);
  (108, 1, 38837, 6); (109, 1, 2405, 2); (110, 1, 38131, 6); (111, 1, 37787, 6);
  (112, 1, 18725, 5); (113, 1, 18559, 5); (114, 1, 36793, 6); (115, 1, 36473, 6);
  (116, 1, 18079, 5); (117, 1, 35849, 6); (118, 1, 17773, 5); (119, 1, 35247, 6);
  (120, 1, 34953, 6); (121, 1, 4333, 3); (122, 1, 8595, 4); (123, 1, 34101, 6);
  (124, 1, 16913, 5); (125, 1, 33555, 6); (126, 1, 33289, 6); (127, 1, 33027, 6);
  (128, 1, 32769, 6); (129, 1, 16257, 5); (130, 1, 4033, 3); (131, 1, 16009, 5);
  (132, 1, 993, 1); (133, 1, 31537, 6); (134, 1, 31301, 6); (135, 1, 31069, 6);
  (136, 1, 30841, 6); (137, 1, 3827, 3); (138, 1, 15197, 5); (139, 1, 30175, 6);
  (140, 1, 3745, 3); (141, 1, 29747, 6); (142, 1, 14769, 5); (143, 1, 29331, 6);
  (144, 1, 3641, 3); (145, 1, 28927, 6); (146, 1, 57457, 7); (147, 1, 28533, 6);
  (148, 1, 7085, 4); (149, 1, 14075, 5); (150, 1, 55925, 7); (151, 1, 27777, 6);
  (152, 1, 55189, 7); (153, 1, 13707, 5); (154, 1, 6809, 4); (155, 1, 54121, 7);
  (156, 1, 26887, 6); (157, 1, 6679, 4); (158, 1, 26547, 6); (159, 1, 6595, 4);
  (160, 1, 26215, 6); (161, 1, 6513, 4); (162, 1, 25891, 6); (163, 1, 6433, 4);
  (164, 1, 51151, 7); (165, 1, 50841, 7); (166, 1, 25267, 6); (167, 1, 6279, 4);
  (168, 1, 49933, 7); (169, 1, 24819, 6); (170, 1, 24673, 6); (171, 1, 49057, 7);
  (172, 1, 12193, 5); (173, 1, 24245, 6); (174, 1, 48211, 7); (175, 1, 749, 1);
  (176, 1, 2979, 3); (177, 1, 23697, 6); (178, 1, 5891, 4); (179, 1, 2929, 3);
  (180, 1, 11651, 5); (181, 1, 23173, 6); (182, 1, 11523, 5); (183, 1, 2865, 3);
  (184, 1, 45591, 7); (185, 1, 1417, 2); (186, 1, 45101, 7); (187, 1, 11215, 5);
  (188, 1, 44621, 7); (189, 1, 44385, 7); (190, 1, 44151, 7); (191, 1, 2745, 3);
  (192, 1, 10923, 5); (193, 1, 43465, 7); (194, 1, 43241, 7); (195, 1, 43019, 7);
  (196, 1, 2675, 3); (197, 1, 21291, 6); (198, 1, 331, 0); (199, 1, 21077, 6);
  (200, 1, 5243, 4); (201, 1, 41735, 7); (202, 1, 5191, 4); (203, 1, 10331, 5);
  (204, 1, 41121, 7); (205, 1, 40921, 7); (206, 1, 20361, 6); (207, 1, 40525, 7);
  (208, 1, 20165, 6); (209, 1, 20069, 6); (210, 1, 19973, 6); (211, 1, 39757, 7);
  (212, 1, 19785, 6); (213, 1, 4923, 4); (214, 1, 1225, 2); (215, 1, 39017, 7);
  (216, 1, 38837, 7); (217, 1, 19329, 6); (218, 1, 2405, 3); (219, 1, 38305, 7);
  (220, 1, 38131, 7); (221, 1, 18979, 6); (222, 1, 37787, 7); (223, 1, 18809, 6);
  (224, 1, 18725, 6); (225, 1, 37283, 7); (226, 1, 18559, 6); (227, 1, 36955, 7);
  (228, 1, 36793, 7); (229, 1, 4579, 4); (230, 1, 36473, 7); (231, 1, 36315, 7);
  (232, 1, 18079, 6); (233, 1, 36003, 7); (234, 1, 35849, 7); (235, 1, 35697, 7);
  (236, 1, 17773, 6); (237, 1, 8849, 5); (238, 1, 35247, 7); (239, 1, 35099, 7);
  (240, 1, 34953, 7); (241, 1, 4351, 4); (242, 1, 4333, 4); (243, 1, 17261, 6);
  (244, 1, 8595, 5); (245, 1, 535, 1); (246, 1, 34101, 7); (247, 1, 16981, 6);
  (248, 1, 16913, 6); (249, 1, 16845, 6); (250, 1, 33555, 7); (251, 1, 33421, 7);
  (252, 1, 33289, 7); (253, 1, 33157, 7); (254, 1, 33027, 7); (255, 1, 32897, 7);
  (256, 1, 32769, 7)
].

Definition table_runtime_u32 : list row := [
  (256, 2, 1, 7); (1, 2, 4294967297, 0); (2, 2, 1, 0); (3, 2, 1431655766, 1);
  (4, 2, 1, 1); (5, 2, 2576980378, 2); (6, 2, 1431655766, 2); (7, 2, 613566757, 2);
  (8, 2, 1, 2); (9, 2, 3340530120, 3); (10, 2, 2576980378, 3); (11, 2, 1952257862, 3);
  (12, 2, 1431655766, 3); (13, 2, 991146300, 3); (14, 2, 613566757, 3); (15, 2, 286331154, 3);
  (16, 2, 1, 3); (17, 2, 3789677026, 4); (18, 2, 3340530120, 4); (19, 2, 2938661835, 4);
  (20, 2, 2576980378, 4); (21, 2, 2249744775, 4); (22, 2, 1952257862, 4); (23, 2, 1680639377, 4);
  (24, 2, 1431655766, 4); (25, 2, 1202590843, 4); (26, 2, 991146300, 4); (27, 2, 795364315, 4);
  (28, 2, 613566757, 4); (29, 2, 444306962, 4); (30, 2, 286331154, 4); (31, 2, 138547333, 4);
  (32, 2, 1, 4); (33, 2, 4034666248, 5); (34, 2, 3789677026, 5); (35, 2, 3558687189, 5);
  (36, 2, 3340530120, 5); (37, 2, 3134165325, 5); (38, 2, 2938661835, 5); (39, 2, 2753184165, 5);
  (40, 2, 2576980378, 5); (41, 2, 2409371898, 5); (42, 2, 2249744775, 5); (43, 2, 2097542168, 5);
  (44, 2, 1952257862, 5); (45, 2, 1813430637, 5); (46, 2, 1680639377, 5); (47, 2, 1553498810, 5);
  (48, 2, 1431655766, 5); (49, 2, 1314785907, 5); (50, 2, 1202590843, 5); (51, 2, 1094795586, 5);
  (52, 2, 991146300, 5); (53, 2, 891408307, 5); (54, 2, 795364315, 5); (55, 2, 702812831, 5);
  (56, 2, 613566757, 5); (57, 2, 527452125, 5); (58, 2, 444306962, 5); (59, 2, 363980280, 5);
  (60, 2, 286331154, 5); (61, 2, 211227900, 5); (62, 2, 138547333, 5); (63, 2, 68174085, 5);
  (64, 2, 1, 5); (65, 2, 4162814457, 6); (66, 2, 4034666248, 6); (67, 2, 3910343360, 6);
  (68, 2, 3789677026, 6); (69, 2, 3672508268, 6); (70, 2, 3558687189, 6); (71, 2, 3448072337, 6);
  (72, 2, 3340530120, 6); (73, 2, 3235934265, 6); (74, 2, 3134165325, 6); (75, 2, 3035110223, 6);
  (76, 2, 2938661835, 6); (77, 2, 2844718599, 6); (78, 2, 2753184165, 6); (79, 2, 2663967058, 6);
  (80, 2, 2576980378, 6); (81, 2, 2492141518, 6); (82, 2, 2409371898, 6); (83, 2, 2328596727, 6);
  (84, 2, 2249744775, 6); (85, 2, 2172748162, 6); (86, 2, 2097542168, 6); (87, 2, 2024065048, 6);
  (88, 2, 1952257862, 6); (89, 2, 1882064321, 6); (90, 2, 1813430637, 6); (91, 2, 1746305385, 6);
  (92, 2, 1680639377, 6); (93, 2, 1616385542, 6); (94, 2, 1553498810, 6); (95, 2, 1491936009, 6);
  (96, 2, 1431655766, 6); (97, 2, 1372618415, 6); (98, 2, 1314785907, 6); (99, 2, 1258121734, 6);
  (100, 2, 1202590843, 6); (101, 2, 1148159575, 6); (102, 2, 1094795586, 6); (103, 2, 1042467791, 6);
  (104, 2, 991146300, 6); (105, 2, 940802361, 6); (106, 2, 891408307, 6); (107, 2, 842937507, 6);
  (108, 2, 795364315, 6); (109, 2, 748664025, 6); (110, 2, 702812831, 6); (111, 2, 657787785, 6);
  (112, 2, 613566757, 6); (113, 2, 570128403, 6); (114, 2, 527452125, 6); (115, 2, 485518043, 6);
  (116, 2, 444306962, 6); (117, 2, 403800345, 6); (118, 2, 363980280, 6); (119, 2, 324829460, 6);
  (120, 2, 286331154, 6); (121, 2, 248469183, 6); (122, 2, 211227900, 6); (123, 2, 174592167, 6);
  (124, 2, 138547333, 6); (125, 2, 103079216, 6); (126, 2, 68174085, 6); (127, 2, 33818641, 6);
  (128, 2, 1, 6); (129, 2, 4228378656, 7); (130, 2, 4162814457, 7); (131, 2, 4098251237, 7);
  (132, 2, 4034666248, 7); (133, 2, 3972037425, 7); (134, 2, 3910343360, 7); (135, 2, 3849563281, 7);
  (136, 2, 3789677026, 7); (137, 2, 3730665024, 7); (138, 2, 3672508268, 7); (139, 2, 3615188300, 7);
  (140, 2, 3558687189, 7); (141, 2, 3502987511, 7); (142, 2, 3448072337, 7); (143, 2, 3393925206, 7);
  (144, 2, 3340530120, 7); (145, 2, 3287871517, 7); (146, 2, 3235934265, 7); (147, 2, 3184703642, 7);
  (148, 2, 3134165325, 7); (149, 2, 3084305374, 7); (150, 2, 3035110223, 7); (151, 2, 2986566663, 7);
  (152, 2, 2938661835, 7); (153, 2, 2891383213, 7); (154, 2, 2844718599, 7); (155, 2, 2798656110, 7);
  (156, 2, 2753184165, 7); (157, 2, 2708291480, 7); (158, 2, 2663967058, 7); (159, 2, 2620200175, 7);
  (160, 2, 2576980378, 7); (161, 2, 2534297473, 7); (162, 2, 2492141518, 7); (163, 2, 2450502814, 7);
  (164, 2, 2409371898, 7); (165, 2, 2368739540, 7); (166, 2, 2328596727, 7); (167, 2, 2288934667, 7);
  (168, 2, 2249744775, 7); (169, 2, 2211018668, 7); (170, 2, 2172748162, 7); (171, 2, 2134925265, 7);
  (172, 2, 2097542168, 7); (173, 2, 2060591247, 7); (174, 2, 2024065048, 7); (175, 2, 1987956292, 7);
  (176, 2, 1952257862, 7); (177, 2, 1916962805, 7); (178, 2, 1882064321, 7); (179, 2, 1847555765, 7);
  (180, 2, 1813430637, 7); (181, 2, 1779682582, 7); (182, 2, 1746305385, 7); (183, 2, 1713292966, 7);
  (184, 2, 1680639377, 7); (185, 2, 1648338801, 7); (186, 2, 1616385542, 7); (187, 2, 1584774030, 7);
  (188, 2, 1553498810, 7); (189, 2, 1522554545, 7); (190, 2, 1491936009, 7); (191, 2, 1461638086, 7);
  (192, 2, 1431655766, 7); (193, 2, 1401984144, 7); (194, 2, 1372618415, 7); (195, 2, 1343553873, 7);
  (196, 2, 1314785907, 7); (197, 2, 1286310003, 7); (198, 2, 1258121734, 7); (199, 2, 1230216764, 7);
  (200, 2, 1202590843, 7); (201, 2, 1175239808, 7); (202, 2, 1148159575, 7); (203, 2, 1121346142, 7);
  (204, 2, 1094795586, 7); (205, 2, 1068504060, 7); (206, 2, 1042467791, 7); (207, 2, 1016683080, 7);
  (208, 2, 991146300, 7); (209, 2, 965853890, 7); (210, 2, 940802361, 7); (211, 2, 915988286, 7);
  (212, 2, 891408307, 7); (213, 2, 867059126, 7); (214, 2, 842937507, 7); (215, 2, 819040276, 7);
  (216, 2, 795364315, 7); (217, 2, 771906565, 7); (218, 2, 748664025, 7); (219, 2, 725633745, 7);
  (220, 2, 702812831, 7); (221, 2, 680198441, 7); (222, 2, 657787785, 7); (223, 2, 635578121, 7);
  (224, 2, 613566757, 7); (225, 2, 591751050, 7); (226, 2, 570128403, 7); (227, 2, 548696263, 7);
  (228, 2, 527452125, 7); (229, 2, 506393524, 7); (230, 2, 485518043, 7); (231, 2, 464823301, 7);
  (232, 2, 444306962, 7); (233, 2, 423966729, 7); (234, 2, 403800345, 7); (235, 2, 383805589, 7);
  (236, 2, 363980280, 7); (237, 2, 344322273, 7); (238, 2, 324829460, 7); (239, 2, 305499766, 7);
  (240, 2, 286331154, 7); (241, 2, 267321616, 7); (242, 2, 248469183, 7); (243, 2, 229771913, 7);
  (244, 2, 211227900, 7); (245, 2, 192835267, 7); (246, 2, 174592167, 7); (247, 2, 156496785, 7);
  (248, 2, 138547333, 7); (249, 2, 120742053, 7); (250, 2, 103079216, 7); (251, 2, 85557118, 7);
  (252, 2, 68174085, 7); (253, 2, 50928466, 7); (254, 2, 33818641, 7); (255, 2, 16843010, 7)
].

Definition table_runtime_s32 : list row := [
  (256, 1, 2147483649, 7); (1, 1, 4294967297, 0); (2, 1, 2147483649, 0); (3, 1, 1431655766, 0);
  (4, 1, 2147483649, 1); (5, 1, 1717986919, 1); (6, 1, 715827883, 0); (7, 1, 2454267027, 2);
  (8, 1, 2147483649, 2); (9, 1, 954437177, 1); (10, 1, 1717986919, 2); (11, 1, 780903145, 1);
  (12, 1, 715827883, 1); (13, 1, 1321528399, 2); (14, 1, 2454267027, 3); (15, 1, 2290649225, 3);
  (16, 1, 2147483649, 3); (17, 1, 2021161081, 3); (18, 1, 954437177, 2); (19, 1, 1808407283, 3);
  (20, 1, 1717986919, 3); (21, 1, 818089009, 2); (22, 1, 780903145, 2); (23, 1, 2987803337, 4);
  (24, 1, 715827883, 2); (25, 1, 1374389535, 3); (26, 1, 1321528399, 3); (27, 1, 1272582903, 3);
  (28, 1, 2454267027, 4); (29, 1, 2369637129, 4); (30, 1, 2290649225, 4); (31, 1, 2216757315, 4);
  (32, 1, 2147483649, 4); (33, 1, 1041204193, 3); (34, 1, 2021161081, 4); (35, 1, 3926827243, 5);
  (36, 1, 954437177, 3); (37, 1, 3714566311, 5); (38, 1, 1808407283, 4); (39, 1, 3524075731, 5);
  (40, 1, 1717986919, 4); (41, 1, 1676084799, 4); (42, 1, 818089009, 3); (43, 1, 799063683, 3);
  (44, 1, 780903145, 3); (45, 1, 3054198967, 5); (46, 1, 2987803337, 5); (47, 1, 2924233053, 5);
  (48, 1, 715827883, 3); (49, 1, 1402438301, 4); (50, 1, 1374389535, 4); (51, 1, 2694881441, 5);
  (52, 1, 1321528399, 4); (53, 1, 1296593901, 4); (54, 1, 1272582903, 4); (55, 1, 156180629, 1);
  (56, 1, 2454267027, 5); (57, 1, 2411209711, 5); (58, 1, 2369637129, 5); (59, 1, 582368447, 3);
  (60, 1, 2290649225, 5); (61, 1, 1126548799, 4); (62, 1, 2216757315, 5); (63, 1, 2181570691, 5);
  (64, 1, 2147483649, 5); (65, 1, 2114445439, 5); (66, 1, 1041204193, 4); (67, 1, 128207979, 1);
  (68, 1, 2021161081, 5); (69, 1, 1991868891, 5); (70, 1, 3926827243, 6); (71, 1, 3871519817, 6);
  (72, 1, 954437177, 4); (73, 1, 3765450781, 6); (74, 1, 3714566311, 6); (75, 1, 458129845, 3);
  (76, 1, 1808407283, 5); (77, 1, 892460737, 4); (78, 1, 3524075731, 6); (79, 1, 1739733589, 5);
  (80, 1, 1717986919, 5); (81, 1, 424194301, 3); (82, 1, 1676084799, 5); (83, 1, 827945503, 4);
  (84, 1, 818089009, 4); (85, 1, 1616928865, 5); (86, 1, 799063683, 4); (87, 1, 789879043, 4);
  (88, 1, 780903145, 4); (89, 1, 3088515809, 6); (90, 1, 3054198967, 6); (91, 1, 3020636341, 6);
  (92, 1, 2987803337, 6); (93, 1, 738919105, 4); (94, 1, 2924233053, 6); (95, 1, 2893451653, 6);
  (96, 1, 715827883, 4); (97, 1, 354224107, 3); (98, 1, 1402438301, 5); (99, 1, 2776544515, 6);
  (100, 1, 1374389535, 5); (101, 1, 680390859, 4); (102, 1, 2694881441, 6); (103, 1, 333589693, 3);
  (104, 1, 1321528399, 5); (105, 1, 2617884829, 6); (106, 1, 1296593901, 5); (107, 1, 1284476201, 5);
  (108, 1, 1272582903, 5); (109, 1, 2521815661, 6); (110, 1, 156180629, 2); (111, 1, 2476377541, 6);
  (112, 1, 2454267027, 6); (113, 1, 1216273925, 5); (114, 1, 2411209711, 6); (115, 1, 1195121335, 5);
  (116, 1, 2369637129, 6); (117, 1, 2349383821, 6); (118, 1, 582368447, 4); (119, 1, 1154949189, 5);
  (120, 1, 2290649225, 6); (121, 1, 70991195, 1); (122, 1, 1126548799, 5); (123, 1, 558694933, 4);
  (124, 1, 2216757315, 6); (125, 1, 274877907, 3); (126, 1, 2181570691, 6); (127, 1, 2164392969, 6);
  (128, 1, 2147483649, 6); (129, 1, 266354561, 3); (130, 1, 2114445439, 6); (131, 1, 1049152317, 5);
  (132, 1, 1041204193, 5); (133, 1, 4133502361, 7); (134, 1, 128207979, 2); (135, 1, 4072265289, 7);
  (136, 1, 2021161081, 6); (137, 1, 125400505, 2); (138, 1, 1991868891, 6); (139, 1, 1977538899, 6);
  (140, 1, 3926827243, 7); (141, 1, 974744351, 5); (142, 1, 3871519817, 7); (143, 1, 961111563, 5);
  (144, 1, 954437177, 5); (145, 1, 3791419407, 7); (146, 1, 3765450781, 7); (147, 1, 1869917735, 6);
  (148, 1, 3714566311, 7); (149, 1, 230602271, 3); (150, 1, 458129845, 4); (151, 1, 910191745, 5);
  (152, 1, 1808407283, 6); (153, 1, 3593175255, 7); (154, 1, 892460737, 5); (155, 1, 443351463, 4);
  (156, 1, 3524075731, 7); (157, 1, 875407347, 5); (158, 1, 1739733589, 6); (159, 1, 432197967, 4);
  (160, 1, 1717986919, 6); (161, 1, 3414632385, 7); (162, 1, 424194301, 4); (163, 1, 210795941, 3);
  (164, 1, 1676084799, 6); (165, 1, 1665926709, 6); (166, 1, 827945503, 5); (167, 1, 1645975491, 6);
  (168, 1, 818089009, 5); (169, 1, 1626496491, 6); (170, 1, 1616928865, 6); (171, 1, 3214946281, 7);
  (172, 1, 799063683, 5); (173, 1, 397222409, 4); (174, 1, 789879043, 5); (175, 1, 1570730897, 6);
  (176, 1, 780903145, 5); (177, 1, 3105965051, 7); (178, 1, 3088515809, 7); (179, 1, 3071261531, 7);
  (180, 1, 3054198967, 7); (181, 1, 759331235, 5); (182, 1, 3020636341, 7); (183, 1, 3004130131, 7);
  (184, 1, 2987803337, 7); (185, 1, 2971653049, 7); (186, 1, 738919105, 5); (187, 1, 2939870663, 7);
  (188, 1, 2924233053, 7); (189, 1, 2908760921, 7); (190, 1, 2893451653, 7); (191, 1, 2878302691, 7);
  (192, 1, 715827883, 5); (193, 1, 356059465, 4); (194, 1, 354224107, 4); (195, 1, 2819260585, 7);
  (196, 1, 1402438301, 6); (197, 1, 1395319325, 6); (198, 1, 2776544515, 7); (199, 1, 1381296015, 6);
  (200, 1, 1374389535, 6); (201, 1, 42735993, 1); (202, 1, 680390859, 5); (203, 1, 2708156719, 7);
  (204, 1, 2694881441, 7); (205, 1, 1340867839, 6); (206, 1, 333589693, 4); (207, 1, 663956297, 5);
  (208, 1, 1321528399, 6); (209, 1, 2630410593, 7); (210, 1, 2617884829, 7); (211, 1, 81421181, 2);
  (212, 1, 1296593901, 6); (213, 1, 2581013211, 7); (214, 1, 1284476201, 6); (215, 1, 1278501893, 6);
  (216, 1, 1272582903, 6); (217, 1, 2533436931, 7); (218, 1, 2521815661, 7); (219, 1, 2510300521, 7);
  (220, 1, 156180629, 3); (221, 1, 2487582869, 7); (222, 1, 2476377541, 7); (223, 1, 2465272709, 7);
  (224, 1, 2454267027, 7); (225, 1, 2443359173, 7); (226, 1, 1216273925, 6); (227, 1, 605457945, 5);
  (228, 1, 2411209711, 7); (229, 1, 1200340205, 6); (230, 1, 1195121335, 6); (231, 1, 2379895299, 7);
  (232, 1, 2369637129, 7); (233, 1, 2359467013, 7); (234, 1, 2349383821, 7); (235, 1, 2339386443, 7);
  (236, 1, 582368447, 5); (237, 1, 2319644785, 7); (238, 1, 1154949189, 6); (239, 1, 2300233531, 7);
  (240, 1, 2290649225, 7); (241, 1, 285143057, 4); (242, 1, 70991195, 2); (243, 1, 2262369605, 7);
  (244, 1, 1126548799, 6); (245, 1, 1121950641, 6); (246, 1, 558694933, 5); (247, 1, 2225732041, 7);
  (248, 1, 2216757315, 7); (249, 1, 2207854675, 7); (250, 1, 274877907, 4); (251, 1, 2190262207, 7);
  (252, 1, 2181570691, 7); (253, 1, 2172947881, 7); (254, 1, 2164392969, 7); (255, 1, 2155905153, 7);
  (256, 1, 2147483649, 7)
].
(** The table for a width, of compile-time divisors or of run-time ones. *)
Definition table_u (runtime : bool) (bits : Z) : list row :=
  match runtime, bits with
  | false, 8 => table_u8 | false, 16 => table_u16 | false, 32 => table_u32
  | true, 8 => table_runtime_u8 | true, 16 => table_runtime_u16 | true, 32 => table_runtime_u32
  | _, _ => []
  end.
Definition table_s (runtime : bool) (bits : Z) : list row :=
  match runtime, bits with
  | false, 8 => table_s8 | false, 16 => table_s16 | false, 32 => table_s32
  | true, 8 => table_runtime_s8 | true, 16 => table_runtime_s16 | true, 32 => table_runtime_s32
  | _, _ => []
  end.

(** * The methods (find_inverse.c) *)
Definition u_method_0 (num sh_post : Z) : Z := Z.shiftr num sh_post.
Definition u_method_1 (num mul sh_post bits : Z) : Z := Z.shiftr (Z.shiftr (num * mul) bits) sh_post.
Definition u_method_2 (num mul sh_post bits : Z) : Z :=
  let result := Z.shiftr (num * mul) bits in
  let result := result + Z.shiftr (num - result) 1 in
  Z.shiftr result sh_post.
Definition s_method_0 (num sh_post : Z) : Z := Z.shiftr num sh_post.
Definition s_method_1 (num mul sh_post bits : Z) : Z :=
  let xsign := Z.shiftr num (bits - 1) in
  let q0 := Z.shiftr (mul * Z.lxor xsign num) bits in
  Z.lxor xsign (Z.shiftr q0 sh_post).

(** The method a row names. *)
Definition u_method (r : row) (num bits : Z) : Z :=
  let '(_, method, mul, shift) := r in
  if method =? 0 then u_method_0 num shift
  else if method =? 1 then u_method_1 num mul shift bits
  else u_method_2 num mul shift bits.
Definition s_method (r : row) (num bits : Z) : Z :=
  let '(_, method, mul, shift) := r in
  if method =? 0 then s_method_0 num shift else s_method_1 num mul shift bits.

(** * Division by a reciprocal *)

(** [m / 2^k] is just above [1 / d]. *)
Lemma reciprocal_floor n m d k :
  0 < d -> 0 <= k -> 0 <= n -> 2 ^ k <= m * d -> n * (m * d - 2 ^ k) < 2 ^ k -> n * m / 2 ^ k = n / d.
Proof.
  intros Hd Hk Hn Hlo Hhi. pose proof (pow2_pos k Hk) as Hp.
  pose proof (Z.div_mod n d ltac:(lia)) as Hq. pose proof (Z.mod_pos_bound n d Hd) as Hr.
  set (q := n / d) in *. set (r := n mod d) in *.
  symmetry. apply (Z.div_unique_pos _ _ q (n * m - q * 2 ^ k)); [|lia].
  assert (He : d * (n * m - q * 2 ^ k) = n * (m * d - 2 ^ k) + r * 2 ^ k) by (rewrite Hq at 1 2; ring_simplify; nia).
  nia.
Qed.

(** A test of the multiplier, exhaustive for the numerators of 8 bits. *)
Definition reciprocal_ok (limit d m k : Z) : bool :=
  (0 <? d) && (0 <=? k) &&
  (if (2 ^ k <=? m * d) && ((limit - 1) * (m * d - 2 ^ k) <? 2 ^ k) then true
   else if limit <=? 256 then forallb (fun n => Z.shiftr (n * m) k =? n / d) (seqZ 0 limit) else false).

Lemma reciprocal_ok_div limit d m k n :
  reciprocal_ok limit d m k = true -> 0 <= n < limit -> Z.shiftr (n * m) k = n / d.
Proof.
  unfold reciprocal_ok. rewrite !andb_true_iff, Z.ltb_lt, Z.leb_le. intros [[Hd Hk] Hr] Hn.
  destruct ((2 ^ k <=? m * d) && ((limit - 1) * (m * d - 2 ^ k) <? 2 ^ k)) eqn:E.
  - apply andb_true_iff in E as [Hlo%Z.leb_le Hhi%Z.ltb_lt]. rewrite Z.shiftr_div_pow2 by done.
    apply reciprocal_floor; try lia. nia.
  - destruct (limit <=? 256); [|done]. rewrite forallb_forall in Hr.
    apply Z.eqb_eq, Hr, list_elem_of_In, elem_of_seqZ. lia.
Qed.

Definition u_row_ok (bits : Z) (r : row) : bool :=
  let '(d, method, mul, shift) := r in
  (0 <=? shift) && (0 <=? mul) &&
  (if method =? 0 then reciprocal_ok (2 ^ bits) d 1 shift
   else if method =? 1 then reciprocal_ok (2 ^ bits) d mul (bits + shift)
   else reciprocal_ok (2 ^ bits) d (mul + 2 ^ bits) (bits + 1 + shift)).

Definition s_row_ok (bits : Z) (r : row) : bool :=
  let '(d, method, mul, shift) := r in
  (0 <=? shift) && (0 <=? mul) &&
  (if method =? 0 then
     (if d =? 2 ^ shift then true
      else if bits <=? 8 then forallb (fun n => Z.shiftr n shift =? n / d) (seqZ (- 2 ^ (bits - 1)) (2 ^ bits))
      else false)
   else reciprocal_ok (2 ^ (bits - 1)) d mul (bits + shift)).

(** Row [i] is the row of divisor [i], row 0 that of 256. *)
Definition rows_in_order (t : list row) : bool :=
  forallb (fun '(i, (d, _, _, _)) => d =? (if i =? 0 then 256 else i)) (zip (seqZ 0 (Z.of_nat (length t))) t).

Lemma shiftr_shiftr_div n a b : 0 <= a -> 0 <= b -> Z.shiftr (Z.shiftr n a) b = Z.shiftr n (a + b).
Proof. intros. by rewrite Z.shiftr_shiftr. Qed.

Lemma average_exact num q : Z.shiftr (num - q) 1 + q = Z.shiftr (num + q) 1.
Proof.
  rewrite !Z.shiftr_div_pow2 by lia. change (2 ^ 1) with 2.
  replace (num + q) with (num - q + q * 2) by lia. rewrite Z.div_add by lia. lia.
Qed.

Lemma u_method_2_reciprocal num mul sh w : 0 <= sh -> 0 <= w ->
  u_method_2 num mul sh w = Z.shiftr (num * (mul + 2 ^ w)) (w + 1 + sh).
Proof.
  intros Hs Hw. unfold u_method_2. rewrite Z.add_comm, average_exact.
  rewrite Z.mul_add_distr_l, <- !shiftr_shiftr_div by lia. do 2 f_equal.
  rewrite !Z.shiftr_div_pow2 by lia. pose proof (pow2_pos w Hw). rewrite Z.div_add by lia. lia.
Qed.

Lemma u_row_div bits r d method mul shift num :
  r = (d, method, mul, shift) -> 0 <= bits -> u_row_ok bits r = true -> in_urange bits num ->
  u_method r num bits = num / d.
Proof.
  intros -> Hb. unfold u_row_ok, u_method, in_urange. rewrite !andb_true_iff, !Z.leb_le. intros [[Hs Hm] Hr] Hn.
  destruct (method =? 0).
  - unfold u_method_0. rewrite <- (Z.mul_1_r num) at 1. by apply (reciprocal_ok_div (2 ^ bits)).
  - destruct (method =? 1).
    + unfold u_method_1. rewrite shiftr_shiftr_div by done. by apply (reciprocal_ok_div (2 ^ bits)).
    + rewrite u_method_2_reciprocal by done. by apply (reciprocal_ok_div (2 ^ bits)).
Qed.

(** The sign mask, and the quotient of a flipped numerator. *)
Lemma sign_mask w n : 0 < w -> in_srange w n -> Z.shiftr n (w - 1) = if n <? 0 then -1 else 0.
Proof.
  unfold in_srange. intros Hw Hn. rewrite Z.shiftr_div_pow2 by lia. destruct (Z.ltb_spec n 0).
  - symmetry. apply (Z.div_unique _ _ _ (n + 2 ^ (w - 1))); lia.
  - apply Z.div_small. lia.
Qed.

Lemma lxor_mask (b : bool) n : Z.lxor (if b then -1 else 0) n = if b then - n - 1 else n.
Proof. destruct b; [rewrite Z.lxor_m1_l; unfold Z.lnot; lia|apply Z.lxor_0_l]. Qed.

Lemma flipped_div n d : 0 < d -> - ((- n - 1) / d) - 1 = n / d.
Proof.
  intros Hd. pose proof (Z.div_mod n d ltac:(lia)). pose proof (Z.mod_pos_bound n d Hd).
  assert ((- n - 1) / d = - (n / d) - 1); [|lia].
  symmetry. apply (Z.div_unique _ _ _ (d - 1 - n mod d)); lia.
Qed.

Lemma s_method_1_div d mul sh w n :
  0 < w -> 0 <= sh -> reciprocal_ok (2 ^ (w - 1)) d mul (w + sh) = true -> in_srange w n ->
  s_method_1 n mul sh w = n / d.
Proof.
  intros Hw Hs Hr Hn. unfold s_method_1. rewrite sign_mask, (lxor_mask (n <? 0) n) by done. unfold in_srange in Hn.
  rewrite shiftr_shiftr_div, Z.mul_comm by lia.
  assert (Hd : 0 < d) by (unfold reciprocal_ok in Hr; rewrite !andb_true_iff, Z.ltb_lt in Hr; tauto).
  rewrite (reciprocal_ok_div _ _ _ _ _ Hr) by (destruct (Z.ltb_spec n 0); lia).
  rewrite lxor_mask. destruct (n <? 0); [by apply flipped_div|done].
Qed.

Lemma s_row_div bits r d method mul shift num :
  r = (d, method, mul, shift) -> 0 < bits -> s_row_ok bits r = true -> in_srange bits num ->
  s_method r num bits = num / d.
Proof.
  intros -> Hb. unfold s_row_ok, s_method. rewrite !andb_true_iff, !Z.leb_le. intros [[Hs Hm] Hr] Hn.
  destruct (method =? 0); [|by apply s_method_1_div].
  unfold s_method_0. destruct (Z.eqb_spec d (2 ^ shift)) as [->|]; [by apply Z.shiftr_div_pow2|].
  destruct (bits <=? 8); [|done]. rewrite forallb_forall in Hr. apply Z.eqb_eq, Hr.
  apply list_elem_of_In, elem_of_seqZ. unfold in_srange in Hn. pose proof (pow2_half bits Hb). lia.
Qed.

Lemma tables_u_ok runtime bits : bits = 8 \/ bits = 16 \/ bits = 32 ->
  rows_in_order (table_u runtime bits) && forallb (u_row_ok bits) (table_u runtime bits) = true
  /\ length (table_u runtime bits) = 256%nat.
Proof. intros [->|[->| ->]]; destruct runtime; split; vm_compute; reflexivity. Qed.

Lemma tables_s_ok runtime bits : bits = 8 \/ bits = 16 \/ bits = 32 ->
  rows_in_order (table_s runtime bits) && forallb (s_row_ok bits) (table_s runtime bits) = true
  /\ length (table_s runtime bits) = 257%nat.
Proof. intros [->|[->| ->]]; destruct runtime; split; vm_compute; reflexivity. Qed.

Lemma rows_in_order_lookup t i d method mul shift :
  rows_in_order t = true -> t !! i = Some (d, method, mul, shift) -> d = if decide (i = O) then 256 else Z.of_nat i.
Proof.
  unfold rows_in_order. rewrite forallb_forall. intros Ht Hi.
  specialize (Ht (Z.of_nat i, (d, method, mul, shift))). simpl in Ht.
  assert (Hd : (d =? (if Z.of_nat i =? 0 then 256 else Z.of_nat i)) = true).
  { apply Ht, list_elem_of_In, elem_of_lookup_zip_with. exists i, (Z.of_nat i), (d, method, mul, shift).
    split; [done|]. split; [|done]. apply lookup_seqZ. split; [lia|].
    apply Nat2Z.inj_lt. exact (lookup_lt_Some _ _ _ Hi). }
  apply Z.eqb_eq in Hd. rewrite Hd. case_decide; destruct (Z.eqb_spec (Z.of_nat i) 0); (done || lia).
Qed.

(** Each row divides exactly. *)
Lemma table_u_div runtime bits i d method mul shift num :
  bits = 8 \/ bits = 16 \/ bits = 32 ->
  table_u runtime bits !! i = Some (d, method, mul, shift) -> in_urange bits num ->
  d = (if decide (i = O) then 256 else Z.of_nat i) /\ u_method (d, method, mul, shift) num bits = num / d.
Proof.
  intros Hb Hi Hn. destruct (tables_u_ok runtime bits Hb) as [[Ho Ha]%andb_true_iff _]. split.
  - by eapply rows_in_order_lookup.
  - eapply u_row_div; [done|lia| |done]. rewrite forallb_forall in Ha.
    apply Ha, list_elem_of_In. by eapply list_elem_of_lookup_2.
Qed.

Lemma table_s_div runtime bits i d method mul shift num :
  bits = 8 \/ bits = 16 \/ bits = 32 ->
  table_s runtime bits !! i = Some (d, method, mul, shift) -> in_srange bits num ->
  d = (if decide (i = O) then 256 else Z.of_nat i) /\ s_method (d, method, mul, shift) num bits = num / d.
Proof.
  intros Hb Hi Hn. destruct (tables_s_ok runtime bits Hb) as [[Ho Ha]%andb_true_iff _]. split.
  - by eapply rows_in_order_lookup.
  - eapply s_row_div; [done|lia| |done]. rewrite forallb_forall in Ha.
    apply Ha, list_elem_of_In. by eapply list_elem_of_lookup_2.
Qed.

Lemma row_at (t : list row) n i : length t = n -> (i < n)%nat ->
  exists d method mul shift, t !! i = Some (d, method, mul, shift).
Proof.
  intros <- Hi. apply lookup_lt_is_Some in Hi as [[[[d m] mul] sh] Hi]. eauto.
Qed.

(** C23. The integer division tables are correct: in each of the twelve, the row of
    every divisor from 1 to 256 (row 0 stands for 256) holds a method, a multiplier
    and a shift with which that method gives the floored quotient of every numerator
    of the table's width. The generator of the tables only tries a million random
    numerators for each row. *)
Theorem division_tables_exact runtime bits i (d := if decide (i = O) then 256 else Z.of_nat i) :
  bits = 8 \/ bits = 16 \/ bits = 32 ->
  ((i < 256)%nat -> exists method mul shift, table_u runtime bits !! i = Some (d, method, mul, shift) /\
     forall num, in_urange bits num -> u_method (d, method, mul, shift) num bits = num / d) /\
  ((i < 257)%nat -> exists method mul shift, table_s runtime bits !! i = Some (d, method, mul, shift) /\
     forall num, in_srange bits num -> s_method (d, method, mul, shift) num bits = num / d).
Proof.
  intros Hb. assert (Hu0 : in_urange bits 0 /\ in_srange bits 0) by (by destruct Hb as [->|[->| ->]]).
  split; intros Hi.
  - destruct (row_at _ _ i (proj2 (tables_u_ok runtime bits Hb)) Hi) as (d' & m & mul & sh & Hr).
    destruct (table_u_div _ _ _ _ _ _ _ 0 Hb Hr) as [-> _]; [apply Hu0|]. exists m, mul, sh. split; [done|].
    intros num Hn. by destruct (table_u_div _ _ _ _ _ _ _ num Hb Hr Hn).
  - destruct (row_at _ _ i (proj2 (tables_s_ok runtime bits Hb)) Hi) as (d' & m & mul & sh & Hr).
    destruct (table_s_div _ _ _ _ _ _ _ 0 Hb Hr) as [-> _]; [apply Hu0|]. exists m, mul, sh. split; [done|].
    intros num Hn. by destruct (table_s_div _ _ _ _ _ _ _ num Hb Hr Hn).
Qed.

Lemma division_tables_exact_witness :
  exists method mul shift, table_u false 16 !! 7%nat = Some (7, method, mul, shift) /\
    forall num, in_urange 16 num -> u_method (7, method, mul, shift) num 16 = num / 7.
Proof. apply (division_tables_exact false 16 7); [right; left; reflexivity|lia]. Defined.
