(* ===== verification/Types.v ===== *)
(** Halide scalar and vector types: src/src/Type.h, src/src/Type.cpp, the enum and
    struct of src/src/runtime/HalideRuntime.h they wrap, the overflow tests of
    src/src/Util.cpp, and the C conversions between [double], [float] and the
    64-bit integers they use. *)

From Stdlib Require Import ZArith Lia Bool SpecFloat.
From stdpp Require Import prelude strings gmap.
From S2P Require Import Prelude.

#[local] Open Scope Z_scope.

(** * C floating point

    A [double] is a [spec_float] with 53 bits of precision; conversions round to
    nearest, ties to even. *)
Section CFloat.
Definition float_prec (bits : Z) : option (Z * Z) :=
  if bits =? 16 then Some (11, 16)
  else if bits =? 32 then Some (24, 128)
  else if bits =? 64 then Some (53, 1024)
  else None.

(** Round a float to the format of [bits] bits. *)
Definition float_round (bits : Z) (f : spec_float) : spec_float :=
  match float_prec bits with
  | None => S754_nan
  | Some (prec, emax) =>
      match f with
      | S754_finite s m e =>
          binary_normalize prec emax (cond_Zopp s (Zpos m)) e s
      | _ => f
      end
  end.

(** [(double) z], [(float) z]. *)
Definition float_of_Z (bits z : Z) : spec_float :=
  match float_prec bits with
  | None => S754_nan
  | Some (prec, emax) => binary_normalize prec emax z 0 false
  end.

(** Truncation towards zero of a finite float, as the conversion to an integer
    type computes it; [None] on infinities and NaN. *)
Definition float_trunc (f : spec_float) : option Z :=
  match f with
  | S754_zero _ => Some 0
  | S754_finite s m e =>
      Some (cond_Zopp s (if 0 <=? e then Zpos m * 2 ^ e else Zpos m / 2 ^ (- e)))
  | _ => None
  end.

(** [(int64_t) f] and [(uint64_t) f]: undefined when the truncated value does not fit. *)
Definition float_to_int64 (f : spec_float) : option Z :=
  z ← float_trunc f; if decide (in_srange 64 z) then Some z else None.
Definition float_to_uint64 (f : spec_float) : option Z :=
  z ← float_trunc f; if decide (in_urange 64 z) then Some z else None.

Definition float_ltb (a b : spec_float) : bool :=
  match SFcompare a b with Some Lt => true | _ => false end.
Definition float_eqb (a b : spec_float) : bool :=
  match SFcompare a b with Some Eq => true | _ => false end.
Definition float_leb (a b : spec_float) : bool :=
  match SFcompare a b with Some Lt | Some Eq => true | _ => false end.
End CFloat.

#[global] Instance spec_float_eq_dec : EqDecision spec_float.
Proof. solve_decision. Defined.

(** * Type.h *)

Inductive halide_type_code_t :=
| halide_type_int
| halide_type_uint
| halide_type_float
| halide_type_handle.

#[global] Instance type_code_eq_dec : EqDecision halide_type_code_t.
Proof. solve_decision. Defined.

Definition type_code_num (c : halide_type_code_t) : Z :=
  match c with
  | halide_type_int => 0
  | halide_type_uint => 1
  | halide_type_float => 2
  | halide_type_handle => 3
  end.

Inductive CPPTypeType := Simple | Struct | Class | Union | Enum.

#[global] Instance CPPTypeType_eq_dec : EqDecision CPPTypeType.
Proof. solve_decision. Defined.

Record halide_cplusplus_type_name := mkTypeName {
  cpp_type_type : CPPTypeType;
  cpp_name : string
}.

#[global] Instance type_name_eq_dec : EqDecision halide_cplusplus_type_name.
Proof. solve_decision. Defined.

Inductive ReferenceType := NotReference | LValueReference | RValueReference.

#[global] Instance ReferenceType_eq_dec : EqDecision ReferenceType.
Proof. solve_decision. Defined.

Record halide_handle_cplusplus_type := mkHandleType {
  inner_name : halide_cplusplus_type_name;
  namespaces : list string;
  enclosing_types : list halide_cplusplus_type_name;
  cpp_type_modifiers : list Z;
  reference_type : ReferenceType
}.

#[global] Instance handle_type_eq_dec : EqDecision halide_handle_cplusplus_type.
Proof. solve_decision. Defined.

(** The eight modifier bytes are padded with zeros; more than eight is an error. *)
Definition CPPTypeModifiers_make (vals : list Z) : res (list Z) :=
  if (length vals <=? 8)%nat
  then Ok (vals ++ replicate (8 - length vals) 0)
  else Err (UserError "Too many levels of indirection in handle type").

(** [halide_handle_traits<void*>::type_info()]: a pointer (flag 8) to the simple
    type [void]. *)
Definition void_star : halide_handle_cplusplus_type :=
  mkHandleType (mkTypeName Simple "void") [] [] [8; 0; 0; 0; 0; 0; 0; 0] NotReference.

(** The struct Type: a [halide_type_t] and the handle description pointer
    ([None] is the null pointer, which stands for [void *]). *)
Record Ty := mkTy {
  code : halide_type_code_t;
  bits : Z;
  lanes : Z;
  handle_type : option halide_handle_cplusplus_type
}.

#[global] Instance Ty_eq_dec : EqDecision Ty.
Proof. solve_decision. Defined.

(** The constructor truncates [bits] to 8 bits and [lanes] to 16. *)
Definition Type_make (c : halide_type_code_t) (b l : Z)
    (h : option halide_handle_cplusplus_type) : Ty :=
  mkTy c (uwrap 8 b) (uwrap 16 l) h.

Definition bytes (t : Ty) : Z := (bits t + 7) / 8.

Definition with_code (t : Ty) (new_code : halide_type_code_t) : Ty :=
  Type_make new_code (bits t) (lanes t) None.
Definition with_bits (t : Ty) (new_bits : Z) : Ty :=
  Type_make (code t) new_bits (lanes t) None.
Definition with_lanes (t : Ty) (new_lanes : Z) : Ty :=
  Type_make (code t) (bits t) new_lanes None.

Definition is_bool (t : Ty) : bool :=
  bool_decide (code t = halide_type_uint) && (bits t =? 1).
Definition is_vector (t : Ty) : bool := negb (lanes t =? 1).
Definition is_scalar (t : Ty) : bool := lanes t =? 1.
Definition is_float (t : Ty) : bool := bool_decide (code t = halide_type_float).
Definition is_int (t : Ty) : bool := bool_decide (code t = halide_type_int).
Definition is_uint (t : Ty) : bool := bool_decide (code t = halide_type_uint).
Definition is_handle (t : Ty) : bool := bool_decide (code t = halide_type_handle).

Definition Int (b l : Z) : Ty := Type_make halide_type_int b l None.
Definition UInt (b l : Z) : Ty := Type_make halide_type_uint b l None.
Definition Float (b l : Z) : Ty := Type_make halide_type_float b l None.
Definition Bool (l : Z) : Ty := UInt 1 l.
Definition Handle (l : Z) (h : option halide_handle_cplusplus_type) : Ty :=
  Type_make halide_type_handle 64 l h.

Definition element_of (t : Ty) : Ty := Type_make (code t) (bits t) 1 None.

(** Equal pointers have equal contents, so the pointer test of the source is a
    shortcut for the comparison of contents. *)
Definition same_handle_type (t other : Ty) : bool :=
  let first := default void_star (handle_type t) in
  let second := default void_star (handle_type other) in
  bool_decide (inner_name first = inner_name second)
  && bool_decide (namespaces first = namespaces second)
  && bool_decide (enclosing_types first = enclosing_types second)
  && bool_decide (cpp_type_modifiers first = cpp_type_modifiers second)
  && bool_decide (reference_type first = reference_type second).

(** [Type::operator==] and [Type::operator!=]. *)
Definition type_eqb (t other : Ty) : bool :=
  bool_decide (code t = code other) && (bits t =? bits other) && (lanes t =? lanes other)
  && (negb (bool_decide (code t = halide_type_handle)) || same_handle_type t other).
Definition type_neqb (t other : Ty) : bool :=
  negb (bool_decide (code t = code other)) || negb (bits t =? bits other)
  || negb (lanes t =? lanes other)
  || (bool_decide (code t = halide_type_handle) && negb (same_handle_type t other)).

(** * Type.cpp *)

Definition max_uint (b : Z) : Z := Z.shiftr 0xffffffffffffffff (64 - b).
Definition max_int (b : Z) : Z := Z.shiftr 0x7fffffffffffffff (64 - b).
Definition min_int (b : Z) : Z := - max_int b - 1.

Definition is_max_uint64 (t : Ty) (x : Z) : bool :=
  if is_int t then x =? uwrap 64 (max_int (bits t))
  else if is_uint t then x =? max_uint (bits t)
  else false.
Definition is_max_int64 (t : Ty) (x : Z) : bool :=
  (0 <? x) && is_max_uint64 t (uwrap 64 x).
Definition is_min_int64 (t : Ty) (x : Z) : bool :=
  if is_int t then x =? min_int (bits t)
  else if is_uint t then x =? 0
  else false.
Definition is_min_uint64 (t : Ty) (x : Z) : bool := false.

Definition can_represent (t other : Ty) : bool :=
  if negb (lanes t =? lanes other) then false
  else if is_int t then
    (is_int other && (bits other <=? bits t)) || (is_uint other && (bits other <? bits t))
  else if is_uint t then
    is_uint other && (bits other <=? bits t)
  else if is_float t then
    (is_float other && (bits other <=? bits t))
    || ((bits t =? 64) && (bits other <=? 32))
    || ((bits t =? 32) && (bits other <=? 16))
  else false.

(** [(int64_t)(float)x == x]; the conversion back is undefined out of range. *)
Definition roundtrips_int64 (f : spec_float) (x : Z) : bool :=
  match float_to_int64 f with Some i => i =? x | None => false end.
Definition roundtrips_uint64 (f : spec_float) (x : Z) : bool :=
  match float_to_uint64 f with Some i => i =? x | None => false end.

Definition can_represent_int64 (t : Ty) (x : Z) : bool :=
  if is_int t then (min_int (bits t) <=? x) && (x <=? max_int (bits t))
  else if is_uint t then (0 <=? x) && (uwrap 64 x <=? max_uint (bits t))
  else if is_float t then
    if bits t =? 16 then roundtrips_int64 (float_round 16 (float_of_Z 32 x)) x
    else if bits t =? 32 then roundtrips_int64 (float_of_Z 32 x) x
    else if bits t =? 64 then roundtrips_int64 (float_of_Z 64 x) x
    else false
  else false.

Definition can_represent_uint64 (t : Ty) (x : Z) : bool :=
  if is_int t then x <=? uwrap 64 (max_int (bits t))
  else if is_uint t then x <=? max_uint (bits t)
  else if is_float t then
    if bits t =? 16 then roundtrips_uint64 (float_round 16 (float_of_Z 32 x)) x
    else if bits t =? 32 then roundtrips_uint64 (float_of_Z 32 x) x
    else if bits t =? 64 then roundtrips_uint64 (float_of_Z 64 x) x
    else false
  else false.

(** The comparisons of a [double] with an integer convert the integer to [double]. *)
Definition can_represent_double (t : Ty) (x : spec_float) : bool :=
  if is_int t then
    float_leb (float_of_Z 64 (min_int (bits t))) x
    && float_leb x (float_of_Z 64 (max_int (bits t)))
    && match float_to_int64 x with
       | Some i => float_eqb x (float_of_Z 64 i)
       | None => false
       end
  else if is_uint t then
    float_leb (float_of_Z 64 0) x
    && float_leb x (float_of_Z 64 (max_uint (bits t)))
    && match float_to_uint64 x with
       | Some u => float_eqb x (float_of_Z 64 u)
       | None => false
       end
  else if is_float t then
    if bits t =? 16 then float_eqb (float_round 16 x) x
    else if bits t =? 32 then float_eqb (float_round 32 x) x
    else bits t =? 64
  else false.

(** * Util.cpp: overflow tests on [int64_t] operands *)

Definition add_would_overflow (b x y : Z) : bool :=
  let max_val := Z.shiftr 0x7fffffffffffffff (64 - b) in
  let min_val := - max_val - 1 in
  ((0 <? y) && (max_val - y <? x)) || ((y <? 0) && (x <? min_val - y)).

Definition sub_would_overflow (b x y : Z) : bool :=
  let max_val := Z.shiftr 0x7fffffffffffffff (64 - b) in
  let min_val := - max_val - 1 in
  ((y <? 0) && (max_val + y <? x)) || ((0 <? y) && (x <? min_val + y)).

(** The product is taken modulo 2^64 on [uint64_t] and converted back. *)
Definition mul_would_overflow (b x y : Z) : bool :=
  let max_val := Z.shiftr 0x7fffffffffffffff (64 - b) in
  let min_val := - max_val - 1 in
  if x =? 0 then false
  else if x =? -1 then y =? min_val
  else
    let ab := swrap 64 (uwrap 64 x * uwrap 64 y) in
    (ab <? min_val) || (max_val <? ab) || negb (Z.quot ab x =? y).

(** * Type classes are exclusive *)

Lemma int_not_uint t : is_int t = true -> is_uint t = false.
Proof. unfold is_int, is_uint. intros. bool_to_prop. apply bool_decide_eq_false_2. congruence. Qed.
Lemma uint_not_int t : is_uint t = true -> is_int t = false.
Proof. unfold is_int, is_uint. intros. bool_to_prop. apply bool_decide_eq_false_2. congruence. Qed.
Lemma int_or_uint_not_float t : is_int t || is_uint t = true -> is_float t = false.
Proof. unfold is_int, is_uint, is_float. by destruct (code t). Qed.
Lemma int_or_uint_not_handle t : is_int t || is_uint t = true -> is_handle t = false.
Proof. unfold is_int, is_uint, is_handle. by destruct (code t). Qed.

(** * Limits *)

Lemma max_int_spec b : 0 < b <= 64 -> max_int b = 2 ^ (b - 1) - 1.
Proof.
  intros Hb. unfold max_int. rewrite Z.shiftr_div_pow2 by lia.
  symmetry. apply (Z.div_unique _ _ _ (2 ^ (64 - b) - 1)).
  - pose proof (pow2_pos (64 - b)). lia.
  - assert (2 ^ (b - 1) * 2 ^ (64 - b) = 2 ^ 63) by (rewrite <- Z.pow_add_r by lia; f_equal; lia).
    change 0x7fffffffffffffff with (2 ^ 63 - 1). nia.
Qed.

Lemma max_uint_spec b : 0 <= b <= 64 -> max_uint b = 2 ^ b - 1.
Proof.
  intros Hb. unfold max_uint. rewrite Z.shiftr_div_pow2 by lia.
  symmetry. apply (Z.div_unique _ _ _ (2 ^ (64 - b) - 1)).
  - pose proof (pow2_pos (64 - b)). lia.
  - assert (2 ^ b * 2 ^ (64 - b) = 2 ^ 64) by (rewrite <- Z.pow_add_r by lia; f_equal; lia).
    change 0xffffffffffffffff with (2 ^ 64 - 1). nia.
Qed.

Lemma min_int_spec b : 0 < b <= 64 -> min_int b = - 2 ^ (b - 1).
Proof. intros. unfold min_int. rewrite max_int_spec by done. lia. Qed.

#[export] Hint Rewrite max_int_spec max_uint_spec min_int_spec using lia : halide.

Lemma in_srange_limits b z : 0 < b <= 64 -> in_srange b z <-> min_int b <= z <= max_int b.
Proof. intros. rewrite min_int_spec, max_int_spec by done. unfold in_srange. lia. Qed.

(** * Overflow tests *)

(** Two products that differ by a multiple of 2^64 and have the same quotient are equal. *)
Lemma wrapped_product_exact x y :
  x <> 0 -> in_srange 64 x -> Z.quot (swrap 64 (x * y)) x = y -> swrap 64 (x * y) = x * y.
Proof.
  intros Hx Hr Hq.
  pose proof (Z.quot_rem (swrap 64 (x * y)) x Hx) as Hqr. rewrite Hq in Hqr.
  pose proof (Z.rem_bound_abs (swrap 64 (x * y)) x Hx) as Hb.
  unfold swrap in *. unfold in_srange in Hr.
  pose proof (Z.div_mod (x * y + 2 ^ (64 - 1)) (2 ^ 64) ltac:(lia)) as Hd.
  set (k := (x * y + 2 ^ (64 - 1)) / 2 ^ 64) in *.
  set (m := (x * y + 2 ^ (64 - 1)) mod 2 ^ 64) in *.
  assert (Z.abs (2 ^ 64 * k) < 2 ^ 64) by lia.
  assert (k = 0) by nia. lia.
Qed.

Lemma swrap_uwrap_mul w x y : 0 < w ->
  swrap w (uwrap w x * uwrap w y) = swrap w (x * y).
Proof.
  intros Hw. unfold swrap, uwrap. f_equal.
  rewrite <- Z.add_mod_idemp_l, <- Z.mul_mod, Z.add_mod_idemp_l; [done|..];
    apply Z.pow_nonzero; lia.
Qed.

Lemma would_overflow_range b x y :
  0 < b <= 64 -> in_srange b x -> in_srange b y ->
  (add_would_overflow b x y = true <-> ~ in_srange b (x + y)) /\
  (sub_would_overflow b x y = true <-> ~ in_srange b (x - y)) /\
  (mul_would_overflow b x y = true <-> ~ in_srange b (x * y)).
Proof.
  intros Hb Hx Hy.
  assert (Hm : Z.shiftr 0x7fffffffffffffff (64 - b) = 2 ^ (b - 1) - 1)
    by exact (max_int_spec b Hb).
  unfold add_would_overflow, sub_would_overflow, mul_would_overflow. rewrite Hm.
  pose proof (srange_mono b 64 x ltac:(lia) Hx) as Hx64.
  assert (Hr : forall z, in_srange b z <-> - 2 ^ (b - 1) <= z <= 2 ^ (b - 1) - 1)
    by (unfold in_srange; lia).
  rewrite !Hr in *.
  split; [|split].
  - rewrite orb_true_iff, !andb_true_iff, !Z.ltb_lt. lia.
  - rewrite orb_true_iff, !andb_true_iff, !Z.ltb_lt. lia.
  - destruct (Z.eqb_spec x 0) as [->|Hx0]; [lia|].
    destruct (Z.eqb_spec x (-1)) as [->|Hx1].
    { rewrite Z.eqb_eq. lia. }
    rewrite swrap_uwrap_mul by lia.
    rewrite !orb_true_iff, !Z.ltb_lt, negb_true_iff, Z.eqb_neq.
    destruct (decide (in_srange 64 (x * y))) as [Hin|Hin].
    + rewrite swrap_id by (done || lia). rewrite Z.mul_comm, Z.quot_mul by done. lia.
    + assert (~ (- 2 ^ (b - 1) <= x * y <= 2 ^ (b - 1) - 1)).
      { rewrite <- Hr. intros H. by apply Hin, (srange_mono b 64); [lia|]. }
      split; [done|intros _].
      destruct (Z.eq_dec (Z.quot (swrap 64 (x * y)) x) y) as [Hq|Hq]; [|by right].
      pose proof (wrapped_product_exact x y Hx0 Hx64 Hq) as He.
      destruct Hin. rewrite <- He. apply swrap_range. lia.
Qed.

(** The three overflow tests of Util.cpp answer exactly whether the sum,
    difference or product of two [b]-bit signed integers leaves the [b]-bit range,
    at every width up to 64 bits, although they compute on wrapping 64-bit
    registers. *)
Theorem would_overflow_exact b x y :
  0 < b <= 64 -> in_srange b x -> in_srange b y ->
  (add_would_overflow b x y = true <-> ~ in_srange b (x + y)) /\
  (sub_would_overflow b x y = true <-> ~ in_srange b (x - y)) /\
  (mul_would_overflow b x y = true <-> ~ in_srange b (x * y)).
Proof. apply would_overflow_range. Qed.

Lemma would_overflow_exact_witness :
  (add_would_overflow 8 100 28 = true <-> ~ in_srange 8 (100 + 28)) /\
  (sub_would_overflow 8 100 28 = true <-> ~ in_srange 8 (100 - 28)) /\
  (mul_would_overflow 8 100 28 = true <-> ~ in_srange 8 (100 * 28)).
Proof. apply would_overflow_exact; unfold in_srange; lia. Defined.

Lemma can_represent_range_spec t x :
  0 < bits t <= 64 -> is_int t || is_uint t = true ->
  (in_srange 64 x ->
     can_represent_int64 t x = true <->
     if is_int t then in_srange (bits t) x else in_urange (bits t) x) /\
  (in_urange 64 x ->
     can_represent_uint64 t x = true <->
     if is_int t then in_srange (bits t) x else in_urange (bits t) x).
Proof.
  intros Hb Ht. unfold can_represent_int64, can_represent_uint64.
  pose proof (max_int_spec _ Hb). pose proof (max_uint_spec (bits t) ltac:(lia)).
  pose proof (min_int_spec _ Hb). pose proof (pow2_pos (bits t - 1) ltac:(lia)).
  pose proof (Z.pow_le_mono_r 2 (bits t - 1) 63 ltac:(lia) ltac:(lia)).
  unfold in_srange, in_urange.
  destruct (is_int t).
  - split; intros Hx.
    + rewrite andb_true_iff, !Z.leb_le. lia.
    + rewrite Z.leb_le, uwrap_id by (unfold in_urange; lia). lia.
  - simpl in Ht. rewrite Ht. split; intros Hx.
    + rewrite andb_true_iff, !Z.leb_le. split.
      * intros [Hp Hq]. rewrite uwrap_id in Hq by (unfold in_urange; lia). lia.
      * intros. rewrite uwrap_id by (unfold in_urange; lia). lia.
    + rewrite Z.leb_le. lia.
Qed.

(** [Type::can_represent] on an [int64_t] or a [uint64_t] accepts exactly the
    values in the range of an integer type of at most 64 bits. *)
Theorem can_represent_int_exact t x :
  0 < bits t <= 64 -> is_int t || is_uint t = true ->
  (in_srange 64 x ->
     can_represent_int64 t x = true <->
     if is_int t then in_srange (bits t) x else in_urange (bits t) x) /\
  (in_urange 64 x ->
     can_represent_uint64 t x = true <->
     if is_int t then in_srange (bits t) x else in_urange (bits t) x).
Proof. exact (can_represent_range_spec t x). Qed.

Lemma can_represent_int_exact_witness :
  can_represent_int64 (UInt 8 1) 255 = true /\ can_represent_uint64 (Int 8 1) 128 = false.
Proof.
  split.
  - apply (can_represent_int_exact (UInt 8 1) 255); vm_compute; repeat split; discriminate.
  - apply not_true_is_false. intros H.
    apply (can_represent_int_exact (Int 8 1) 128) in H; revert H; vm_compute;
      try (intros [_ H]; discriminate H); repeat split; discriminate.
Defined.
