(* ===== verification/IR.v ===== *)
(** The IR node types and their factory functions: src/src/Expr.h, src/src/IR.h,
    src/src/IR.cpp. *)

From Stdlib Require Import ZArith Lia Bool SpecFloat.
From stdpp Require Import prelude strings gmap.
From S2P Require Import Prelude Types.

#[local] Open Scope Z_scope.
#[local] Open Scope halide_scope.

(** References to reference-counted objects that are not IR (a Buffer, a
    Parameter, a ReductionDomain, a FunctionContents) are kept as an identity;
    [None] is the undefined handle. *)
Abbreviation ptr := (option positive).

(** The fifteen node types with two children [a] and [b]; the source handles them
    with one template ([mutate_binary_operator], [visit_binary_operator]). *)
Inductive binop :=
| Add | Sub | Mul | Div | Mod | Min | Max
| EQ | NE | LT | LE | GT | GE
| And | Or.

#[global] Instance binop_eq_dec : EqDecision binop.
Proof. solve_decision. Defined.

Inductive CallType :=
| Image | Extern | ExternCPlusPlus | PureExtern | Halide | Intrinsic | PureIntrinsic.

#[global] Instance CallType_eq_dec : EqDecision CallType.
Proof. solve_decision. Defined.

Inductive Expr :=
| IntImm (t : Ty) (value : Z)
| UIntImm (t : Ty) (value : Z)
| FloatImm (t : Ty) (value : spec_float)
| StringImm (value : string)
| Cast (t : Ty) (value : Expr)
| Var (t : Ty) (name : string) (image param reduction_domain : ptr)
| Bin (op : binop) (a b : Expr)
| Not (a : Expr)
| Select (condition true_value false_value : Expr)
| Load (t : Ty) (name : string) (index : Expr) (image param : ptr)
| Ramp (base stride : Expr) (lanes : Z)
| Broadcast (value : Expr) (lanes : Z)
| Call (t : Ty) (name : string) (args : list Expr) (call_type : CallType)
    (func : ptr) (value_index : Z) (image param : ptr)
| Let (name : string) (value body : Expr).

Inductive DeviceAPI :=
| DeviceNone | Host | Default_GPU | CUDA | OpenCL | GLSL | Renderscript
| OpenGLCompute | Metal | Hexagon.

Inductive ForType := Serial | Parallel | Vectorized | Unrolled.

#[global] Instance DeviceAPI_eq_dec : EqDecision DeviceAPI.
Proof. solve_decision. Defined.
#[global] Instance ForType_eq_dec : EqDecision ForType.
Proof. solve_decision. Defined.

Record Range := mkRange { range_min : Expr; range_extent : Expr }.

(** Statements; a child that may be undefined is an [option]. *)
Inductive Stmt :=
| LetStmt (name : string) (value : Expr) (body : Stmt)
| AssertStmt (condition message : Expr)
| ProducerConsumer (name : string) (produce : Stmt) (update : option Stmt) (consume : Stmt)
| For (name : string) (min extent : Expr) (for_type : ForType) (device_api : DeviceAPI)
    (body : Stmt)
| Store (name : string) (value index : Expr) (param : ptr)
| Provide (name : string) (values args : list Expr)
| Allocate (name : string) (t : Ty) (extents : list Expr) (condition : Expr)
    (new_expr : option Expr) (free_function : string) (body : Stmt)
| Free (name : string)
| Realize (name : string) (types : list Ty) (bounds : list Range) (condition : Expr)
    (body : Stmt)
| Block (first rest : Stmt)
| IfThenElse (condition : Expr) (then_case : Stmt) (else_case : option Stmt)
| Evaluate (value : Expr).

(** The position of a node's class in [enum class IRNodeType]. *)
Definition binop_type_info (op : binop) : Z :=
  match op with
  | Add => 6 | Sub => 7 | Mul => 8 | Div => 9 | Mod => 10 | Min => 11 | Max => 12
  | EQ => 13 | NE => 14 | LT => 15 | LE => 16 | GT => 17 | GE => 18
  | And => 19 | Or => 20
  end.

Definition type_info (e : Expr) : Z :=
  match e with
  | IntImm _ _ => 0
  | UIntImm _ _ => 1
  | FloatImm _ _ => 2
  | StringImm _ => 3
  | Cast _ _ => 4
  | Var _ _ _ _ _ => 5
  | Bin op _ _ => binop_type_info op
  | Not _ => 21
  | Select _ _ _ => 22
  | Load _ _ _ _ _ => 23
  | Ramp _ _ _ => 24
  | Broadcast _ _ => 25
  | Call _ _ _ _ _ _ _ _ => 26
  | Let _ _ _ => 27
  end.

Definition stmt_type_info (s : Stmt) : Z :=
  match s with
  | LetStmt _ _ _ => 28
  | AssertStmt _ _ => 29
  | ProducerConsumer _ _ _ _ => 30
  | For _ _ _ _ _ _ => 31
  | Store _ _ _ _ => 32
  | Provide _ _ _ => 33
  | Allocate _ _ _ _ _ _ _ => 34
  | Free _ => 35
  | Realize _ _ _ _ _ => 36
  | Block _ _ => 37
  | IfThenElse _ _ _ => 38
  | Evaluate _ => 39
  end.

Definition is_comparison (op : binop) : bool :=
  match op with EQ | NE | LT | LE | GT | GE => true | _ => false end.
Definition is_logical (op : binop) : bool :=
  match op with And | Or => true | _ => false end.

(** [type_of<const char * >()]: a handle to [const char] (flags Pointer and Const). *)
Definition const_char_star : Ty :=
  Handle 1 (Some (mkHandleType (mkTypeName Simple "char") [] []
                    [9; 0; 0; 0; 0; 0; 0; 0] NotReference)).

(** The [type] field of a node, as its factory computes it. *)
Fixpoint type (e : Expr) : Ty :=
  match e with
  | IntImm t _ | UIntImm t _ | FloatImm t _ => t
  | StringImm _ => const_char_star
  | Cast t _ => t
  | Var t _ _ _ _ => t
  | Bin op a _ => if is_comparison op || is_logical op then Bool (lanes (type a)) else type a
  | Not a => Bool (lanes (type a))
  | Select _ t _ => type t
  | Load t _ _ _ _ => t
  | Ramp base _ l => with_lanes (type base) l
  | Broadcast v l => with_lanes (type v) l
  | Call t _ _ _ _ _ _ _ => t
  | Let _ _ body => type body
  end.

(** * Induction over expressions, with the hypothesis on every call argument *)
Section ExprInd.
Variable P : Expr -> Prop.
Hypothesis HIntImm : forall t v, P (IntImm t v).
Hypothesis HUIntImm : forall t v, P (UIntImm t v).
Hypothesis HFloatImm : forall t v, P (FloatImm t v).
Hypothesis HStringImm : forall s, P (StringImm s).
Hypothesis HCast : forall t v, P v -> P (Cast t v).
Hypothesis HVar : forall t n i p r, P (Var t n i p r).
Hypothesis HBin : forall op a b, P a -> P b -> P (Bin op a b).
Hypothesis HNot : forall a, P a -> P (Not a).
Hypothesis HSelect : forall c t f, P c -> P t -> P f -> P (Select c t f).
Hypothesis HLoad : forall t n x i p, P x -> P (Load t n x i p).
Hypothesis HRamp : forall b s l, P b -> P s -> P (Ramp b s l).
Hypothesis HBroadcast : forall v l, P v -> P (Broadcast v l).
Hypothesis HCall : forall t n args ct f vi i p,
  Forall P args -> P (Call t n args ct f vi i p).
Hypothesis HLet : forall n v b, P v -> P b -> P (Let n v b).

Fixpoint Expr_ind' (e : Expr) : P e :=
  match e with
  | IntImm t v => HIntImm t v
  | UIntImm t v => HUIntImm t v
  | FloatImm t v => HFloatImm t v
  | StringImm s => HStringImm s
  | Cast t v => HCast t v (Expr_ind' v)
  | Var t n i p r => HVar t n i p r
  | Bin op a b => HBin op a b (Expr_ind' a) (Expr_ind' b)
  | Not a => HNot a (Expr_ind' a)
  | Select c t f => HSelect c t f (Expr_ind' c) (Expr_ind' t) (Expr_ind' f)
  | Load t n x i p => HLoad t n x i p (Expr_ind' x)
  | Ramp b s l => HRamp b s l (Expr_ind' b) (Expr_ind' s)
  | Broadcast v l => HBroadcast v l (Expr_ind' v)
  | Call t n args ct f vi i p =>
      HCall t n args ct f vi i p
        ((fix go (l : list Expr) : Forall P l :=
            match l with
            | [] => Forall_nil_2 P
            | x :: l' => Forall_cons_2 P x l' (Expr_ind' x) (go l')
            end) args)
  | Let n v b => HLet n v b (Expr_ind' v) (Expr_ind' b)
  end.
End ExprInd.

(** * Induction over statements, through the handles that may be undefined *)
Section StmtInd.
Variable P : Stmt -> Prop.
Let PO (s : option Stmt) : Prop := match s with Some s => P s | None => True end.
Hypothesis HLetStmt : forall n v b, P b -> P (LetStmt n v b).
Hypothesis HAssertStmt : forall c m, P (AssertStmt c m).
Hypothesis HProducerConsumer : forall n p u c, P p -> PO u -> P c -> P (ProducerConsumer n p u c).
Hypothesis HFor : forall n m e f d b, P b -> P (For n m e f d b).
Hypothesis HStore : forall n v i p, P (Store n v i p).
Hypothesis HProvide : forall n v a, P (Provide n v a).
Hypothesis HAllocate : forall n t e c ne ff b, P b -> P (Allocate n t e c ne ff b).
Hypothesis HFree : forall n, P (Free n).
Hypothesis HRealize : forall n t bs c b, P b -> P (Realize n t bs c b).
Hypothesis HBlock : forall f r, P f -> P r -> P (Block f r).
Hypothesis HIfThenElse : forall c t e, P t -> PO e -> P (IfThenElse c t e).
Hypothesis HEvaluate : forall v, P (Evaluate v).

Fixpoint Stmt_ind' (s : Stmt) : P s :=
  match s with
  | LetStmt n v b => HLetStmt n v b (Stmt_ind' b)
  | AssertStmt c m => HAssertStmt c m
  | ProducerConsumer n p u c =>
      HProducerConsumer n p u c (Stmt_ind' p)
        (match u return PO u with Some u => Stmt_ind' u | None => I end) (Stmt_ind' c)
  | For n m e f d b => HFor n m e f d b (Stmt_ind' b)
  | Store n v i p => HStore n v i p
  | Provide n v a => HProvide n v a
  | Allocate n t e c ne ff b => HAllocate n t e c ne ff b (Stmt_ind' b)
  | Free n => HFree n
  | Realize n t bs c b => HRealize n t bs c b (Stmt_ind' b)
  | Block f r => HBlock f r (Stmt_ind' f) (Stmt_ind' r)
  | IfThenElse c t e =>
      HIfThenElse c t e (Stmt_ind' t) (match e return PO e with Some e => Stmt_ind' e | None => I end)
  | Evaluate v => HEvaluate v
  end.
End StmtInd.

#[global] Instance Expr_eq_dec : EqDecision Expr.
Proof.
  notypeclasses refine (fix go (x y : Expr) : Decision (x = y) := _).
  pose proof (@list_eq_dec Expr go) as Hl.
  refine (
    match x, y with
    | IntImm t v, IntImm t' v' =>
        cast_if_and (decide (t = t')) (decide (v = v'))
    | UIntImm t v, UIntImm t' v' =>
        cast_if_and (decide (t = t')) (decide (v = v'))
    | FloatImm t v, FloatImm t' v' =>
        cast_if_and (decide (t = t')) (decide (v = v'))
    | StringImm s, StringImm s' => cast_if (decide (s = s'))
    | Cast t v, Cast t' v' => cast_if_and (decide (t = t')) (go v v')
    | Var t n i p r, Var t' n' i' p' r' =>
        cast_if_and5 (decide (t = t')) (decide (n = n')) (decide (i = i'))
          (decide (p = p')) (decide (r = r'))
    | Bin o a b, Bin o' a' b' => cast_if_and3 (decide (o = o')) (go a a') (go b b')
    | Not a, Not a' => cast_if (go a a')
    | Select c t f, Select c' t' f' => cast_if_and3 (go c c') (go t t') (go f f')
    | Load t n x i p, Load t' n' x' i' p' =>
        cast_if_and5 (decide (t = t')) (decide (n = n')) (go x x')
          (decide (i = i')) (decide (p = p'))
    | Ramp b s l, Ramp b' s' l' => cast_if_and3 (go b b') (go s s') (decide (l = l'))
    | Broadcast v l, Broadcast v' l' => cast_if_and (go v v') (decide (l = l'))
    | Call t n a c f v i p, Call t' n' a' c' f' v' i' p' =>
        cast_if_and5 (decide (t = t')) (decide (n = n')) (Hl a a') (decide (c = c'))
          (decide ((f, v, i, p) = (f', v', i', p')))
    | Let n v b, Let n' v' b' => cast_if_and3 (decide (n = n')) (go v v') (go b b')
    | _, _ => right _
    end); clear go Hl; abstract congruence.
Defined.

(** * Factories

    A handle may be null, so a factory takes [option Expr]; the coercion lets a
    defined expression be passed as it is. *)
Definition ExprRef : Type := option Expr.
Definition StmtRef : Type := option Stmt.
Definition eref (e : Expr) : ExprRef := Some e.
Coercion eref : Expr >-> ExprRef.
Definition sref (s : Stmt) : StmtRef := Some s.
Coercion sref : Stmt >-> StmtRef.

(** [internal_assert(x.defined()) << msg], and use of [x] from there on. *)
Definition defined {A} (msg : string) (x : option A) : res A :=
  match x with Some a => Ok a | None => Err (InternalError msg) end.

Lemma defined_Ok {A} msg (x : option A) a : defined msg x = Ok a <-> x = Some a.
Proof. destruct x; simpl; naive_solver. Qed.

(** Normalise by dropping the high bits and sign-extending: on [int64_t],
    [value <<= 64 - bits; value >>= 64 - bits]. *)
Definition IntImm_make (t : Ty) (value : Z) : res Expr :=
  guard! is_int t && is_scalar t else "IntImm must be a scalar Int";
  guard! (bits t =? 8) || (bits t =? 16) || (bits t =? 32) || (bits t =? 64)
    else "IntImm must be 8, 16, 32, or 64-bit";
  let value := swrap 64 (Z.shiftl value (64 - bits t)) in
  let value := Z.shiftr value (64 - bits t) in
  Ok (IntImm t value).

Definition UIntImm_make (t : Ty) (value : Z) : res Expr :=
  guard! is_uint t && is_scalar t else "UIntImm must be a scalar UInt";
  guard! (bits t =? 1) || (bits t =? 8) || (bits t =? 16) || (bits t =? 32) || (bits t =? 64)
    else "UIntImm must be 1, 8, 16, 32, or 64-bit";
  let value := uwrap 64 (Z.shiftl value (64 - bits t)) in
  let value := Z.shiftr value (64 - bits t) in
  Ok (UIntImm t value).

Definition FloatImm_make (t : Ty) (value : spec_float) : res Expr :=
  guard! is_float t && is_scalar t else "FloatImm must be a scalar Float";
  if bits t =? 16 then Ok (FloatImm t (float_round 16 value))
  else if bits t =? 32 then Ok (FloatImm t (float_round 32 value))
  else if bits t =? 64 then Ok (FloatImm t value)
  else Err (InternalError "FloatImm must be 16, 32, or 64-bit").

Definition StringImm_make (val : string) : Expr := StringImm val.

Definition Cast_make (t : Ty) (v : ExprRef) : res Expr :=
  v ← defined "Cast of undefined" v;
  guard! lanes t =? lanes (type v) else "Cast may not change vector widths";
  Ok (Cast t v).

(** The common body of the arithmetic and comparison factories. *)
Definition binary_make (op : binop) (nm : string) (a b : ExprRef) : res Expr :=
  a ← defined (nm +:+ " of undefined") a;
  b ← defined (nm +:+ " of undefined") b;
  guard! type_eqb (type a) (type b) else (nm +:+ " of mismatched types");
  Ok (Bin op a b).

Definition Add_make : ExprRef -> ExprRef -> res Expr := binary_make Add "Add".
Definition Sub_make : ExprRef -> ExprRef -> res Expr := binary_make Sub "Sub".
Definition Mul_make : ExprRef -> ExprRef -> res Expr := binary_make Mul "Mul".
Definition Div_make : ExprRef -> ExprRef -> res Expr := binary_make Div "Div".
Definition Mod_make : ExprRef -> ExprRef -> res Expr := binary_make Mod "Mod".
Definition Min_make : ExprRef -> ExprRef -> res Expr := binary_make Min "Min".
Definition Max_make : ExprRef -> ExprRef -> res Expr := binary_make Max "Max".
Definition EQ_make : ExprRef -> ExprRef -> res Expr := binary_make EQ "EQ".
Definition NE_make : ExprRef -> ExprRef -> res Expr := binary_make NE "NE".
Definition LT_make : ExprRef -> ExprRef -> res Expr := binary_make LT "LT".
Definition LE_make : ExprRef -> ExprRef -> res Expr := binary_make LE "LE".
Definition GT_make : ExprRef -> ExprRef -> res Expr := binary_make GT "GT".
Definition GE_make : ExprRef -> ExprRef -> res Expr := binary_make GE "GE".

Definition logical_make (op : binop) (nm : string) (a b : ExprRef) : res Expr :=
  a ← defined (nm +:+ " of undefined") a;
  b ← defined (nm +:+ " of undefined") b;
  guard! is_bool (type a) else ("lhs of " +:+ nm +:+ " is not a bool");
  guard! is_bool (type b) else ("rhs of " +:+ nm +:+ " is not a bool");
  guard! type_eqb (type a) (type b) else (nm +:+ " of mismatched types");
  Ok (Bin op a b).

Definition And_make : ExprRef -> ExprRef -> res Expr := logical_make And "And".
Definition Or_make : ExprRef -> ExprRef -> res Expr := logical_make Or "Or".

Definition Not_make (a : ExprRef) : res Expr :=
  a ← defined "Not of undefined" a;
  guard! is_bool (type a) else "argument of Not is not a bool";
  Ok (Not a).

Definition Select_make (condition true_value false_value : ExprRef) : res Expr :=
  c ← defined "Select of undefined" condition;
  t ← defined "Select of undefined" true_value;
  f ← defined "Select of undefined" false_value;
  guard! is_bool (type c) else "First argument to Select is not a bool";
  guard! type_eqb (type f) (type t) else "Select of mismatched types";
  guard! is_scalar (type c) || (lanes (type c) =? lanes (type t))
    else "In Select, vector lanes of condition must either be 1, or equal to vector lanes of arguments";
  Ok (Select c t f).

Definition Load_make (t : Ty) (name : string) (index : ExprRef) (image param : ptr) : res Expr :=
  index ← defined "Load of undefined" index;
  guard! lanes t =? lanes (type index) else "Vector lanes of Load must match vector lanes of index";
  Ok (Load t name index image param).

Definition Ramp_make (base stride : ExprRef) (l : Z) : res Expr :=
  base ← defined "Ramp of undefined" base;
  stride ← defined "Ramp of undefined" stride;
  guard! is_scalar (type base) else "Ramp with vector base";
  guard! is_scalar (type stride) else "Ramp with vector stride";
  guard! 1 <? l else "Ramp of lanes <= 1";
  guard! type_eqb (type stride) (type base) else "Ramp of mismatched types";
  Ok (Ramp base stride l).

Definition Broadcast_make (value : ExprRef) (l : Z) : res Expr :=
  value ← defined "Broadcast of undefined" value;
  guard! is_scalar (type value) else "Broadcast of vector";
  guard! negb (l =? 1) else "Broadcast of lanes 1";
  Ok (Broadcast value l).

Definition Let_make (name : string) (value body : ExprRef) : res Expr :=
  value ← defined "Let of undefined" value;
  body ← defined "Let of undefined" body;
  Ok (Let name value body).

Definition Variable_make (t : Ty) (name : string) (image param reduction_domain : ptr) : res Expr :=
  guard! negb (bool_decide (name = "")) else "";
  Ok (Var t name image param reduction_domain).

Definition Call_make (t : Ty) (name : string) (args : list ExprRef) (call_type : CallType)
    (func : ptr) (value_index : Z) (image param : ptr) : res Expr :=
  args ← mapM (defined "Call of undefined") args;
  match call_type with
  | Halide =>
      guard! forallb (fun a => type_eqb (type a) (Int 32 1)) args
        else "Args to call to halide function must be type Int(32)";
      Ok (Call t name args call_type func value_index image param)
  | Image =>
      guard! bool_decide (is_Some param) || bool_decide (is_Some image)
        else "Call node to undefined image";
      guard! forallb (fun a => type_eqb (type a) (Int 32 1)) args
        else "Args to load from image must be type Int(32)";
      Ok (Call t name args call_type func value_index image param)
  | _ => Ok (Call t name args call_type func value_index image param)
  end.

(** [Call::is_pure] and [Call::is_intrinsic], on the fields of a call. *)
Definition call_is_pure (call_type : CallType) : bool :=
  match call_type with PureExtern | Image | PureIntrinsic => true | _ => false end.
Definition call_is_intrinsic (name : string) (call_type : CallType) (intrin_name : string) : bool :=
  match call_type with
  | Intrinsic | PureIntrinsic => bool_decide (name = intrin_name)
  | _ => false
  end.

(** ** Statement factories *)

Definition LetStmt_make (name : string) (value : ExprRef) (body : StmtRef) : res Stmt :=
  value ← defined "Let of undefined" value;
  body ← defined "Let of undefined" body;
  Ok (LetStmt name value body).

(** The message is dereferenced for its type, so it must not be null. *)
Definition AssertStmt_make (condition message : ExprRef) : res Stmt :=
  condition ← defined "AssertStmt of undefined" condition;
  message ← match message with Some m => Ok m | None => Err (UB "null message") end;
  guard! type_eqb (type message) (Int 32 1) else "AssertStmt message must be an int";
  Ok (AssertStmt condition message).

Definition ProducerConsumer_make (name : string) (produce update consume : StmtRef) : res Stmt :=
  produce ← defined "ProducerConsumer of undefined" produce;
  consume ← defined "ProducerConsumer of undefined" consume;
  Ok (ProducerConsumer name produce update consume).

Definition For_make (name : string) (min extent : ExprRef) (for_type : ForType)
    (device_api : DeviceAPI) (body : StmtRef) : res Stmt :=
  min ← defined "For of undefined" min;
  extent ← defined "For of undefined" extent;
  guard! is_scalar (type min) else "For with vector min";
  guard! is_scalar (type extent) else "For with vector extent";
  body ← defined "For of undefined" body;
  Ok (For name min extent for_type device_api body).

Definition Store_make (name : string) (value index : ExprRef) (param : ptr) : res Stmt :=
  value ← defined "Store of undefined" value;
  index ← defined "Store of undefined" index;
  Ok (Store name value index param).

Definition Provide_make (name : string) (values args : list ExprRef) : res Stmt :=
  guard! negb (bool_decide (length values = 0%nat)) else "Provide of no values";
  values ← mapM (defined "Provide of undefined value") values;
  args ← mapM (defined "Provide to undefined location") args;
  Ok (Provide name values args).

Definition Allocate_make (name : string) (t : Ty) (extents : list ExprRef)
    (condition : ExprRef) (body : StmtRef) (new_expr : ExprRef) (free_function : string)
    : res Stmt :=
  extents ← mapM (fun x =>
    x ← defined "Allocate of undefined extent" x;
    guard! is_scalar (type x) else "Allocate of vector extent";
    Ok x) extents;
  body ← defined "Allocate of undefined" body;
  condition ← defined "Allocate with undefined condition" condition;
  guard! is_bool (type condition) else "Allocate condition is not boolean";
  Ok (Allocate name t extents condition new_expr free_function body).

(** The running product is an [int64_t]; its overflow is undefined. *)
Fixpoint constant_allocation_size_loop (extents : list Expr) (result : Z) : res Z :=
  match extents with
  | [] => Ok (swrap 32 result)
  | IntImm _ v :: rest =>
      let result := result * v in
      if bool_decide (in_srange 64 result) then
        if 2 ^ 31 - 1 <? result
        then Err (UserError "Total size for allocation is constant but exceeds 2^31 - 1.")
        else constant_allocation_size_loop rest result
      else Err (UB "int64_t overflow in constant_allocation_size")
  | _ :: _ => Ok 0
  end.
Definition constant_allocation_size (extents : list Expr) : res Z :=
  constant_allocation_size_loop extents 1.

Definition Free_make (name : string) : Stmt := Free name.

Definition Range_make (min extent : Expr) : res Range :=
  guard! type_eqb (type min) (type extent) else "Region min and extent must have same type";
  Ok (mkRange min extent).

(** The bounds are ranges whose two fields may be undefined. *)
Definition Realize_make (name : string) (types : list Ty) (bounds : list (ExprRef * ExprRef))
    (condition : ExprRef) (body : StmtRef) : res Stmt :=
  bounds ← mapM (fun b =>
    min ← defined "Realize of undefined" (fst b);
    extent ← defined "Realize of undefined" (snd b);
    guard! is_scalar (type min) else "Realize of vector size";
    guard! is_scalar (type extent) else "Realize of vector size";
    Ok (mkRange min extent)) bounds;
  body ← defined "Realize of undefined" body;
  guard! negb (bool_decide (length types = 0%nat)) else "Realize has empty type";
  condition ← defined "Realize with undefined condition" condition;
  guard! is_bool (type condition) else "Realize condition is not boolean";
  Ok (Realize name types bounds condition body).

(** Blocks nest to the right: a block on the left is re-associated. *)
Fixpoint Block_join (first rest : Stmt) : Stmt :=
  match first with
  | Block b_first b_rest => Block b_first (Block_join b_rest rest)
  | _ => Block first rest
  end.
Definition Block_make (first rest : StmtRef) : res Stmt :=
  first ← defined "Block of undefined" first;
  rest ← defined "Block of undefined" rest;
  Ok (Block_join first rest).

(** [Block::make(const vector<Stmt> &)]: the last statement, then each earlier one in front. *)
Definition Block_make_list (stmts : list StmtRef) : res StmtRef :=
  match rev stmts with
  | [] => Ok None
  | result :: earlier =>
      foldl (fun acc s => result ← acc; r ← Block_make s result; Ok (Some r)) (Ok result) earlier
  end.

Definition IfThenElse_make (condition : ExprRef) (then_case else_case : StmtRef) : res Stmt :=
  condition ← defined "IfThenElse of undefined" condition;
  then_case ← defined "IfThenElse of undefined" then_case;
  Ok (IfThenElse condition then_case else_case).

Definition Evaluate_make (v : ExprRef) : res Stmt :=
  v ← defined "Evaluate of undefined" v;
  Ok (Evaluate v).

(** * Well-formed expressions

    [wf e] holds when every node satisfies what its factory asserts. *)
Definition int_width (b : Z) : bool := (b =? 8) || (b =? 16) || (b =? 32) || (b =? 64).
Definition uint_width (b : Z) : bool := (b =? 1) || int_width b.
Definition float_width (b : Z) : bool := (b =? 16) || (b =? 32) || (b =? 64).

Definition wf_node (e : Expr) : Prop :=
  match e with
  | IntImm t v => is_int t && is_scalar t && int_width (bits t) = true /\ in_srange (bits t) v
  | UIntImm t v => is_uint t && is_scalar t && uint_width (bits t) = true /\ in_urange (bits t) v
  | FloatImm t v => is_float t && is_scalar t && float_width (bits t) = true
                    /\ exists v0, v = if bits t =? 64 then v0 else float_round (bits t) v0
  | StringImm _ => True
  | Cast t v => lanes t = lanes (type v)
  | Var _ n _ _ _ => n <> ""
  | Bin op a b => type_eqb (type a) (type b) = true /\
                  (is_logical op = true -> is_bool (type a) = true /\ is_bool (type b) = true)
  | Not a => is_bool (type a) = true
  | Select c t f => is_bool (type c) = true /\ type_eqb (type f) (type t) = true
                    /\ is_scalar (type c) || (lanes (type c) =? lanes (type t)) = true
  | Load t _ i _ _ => lanes t = lanes (type i)
  | Ramp b s l => is_scalar (type b) && is_scalar (type s) = true /\ 1 < l
                  /\ type_eqb (type s) (type b) = true
  | Broadcast v l => is_scalar (type v) = true /\ l <> 1
  | Call _ _ args ct _ _ image param =>
      match ct with
      | Halide => forallb (fun a => type_eqb (type a) (Int 32 1)) args = true
      | Image => (is_Some param \/ is_Some image)
                 /\ forallb (fun a => type_eqb (type a) (Int 32 1)) args = true
      | _ => True
      end
  | Let _ _ _ => True
  end.

Fixpoint wf (e : Expr) : Prop :=
  wf_node e /\
  match e with
  | IntImm _ _ | UIntImm _ _ | FloatImm _ _ | StringImm _ | Var _ _ _ _ _ => True
  | Cast _ v | Not v | Broadcast v _ => wf v
  | Bin _ a b | Ramp a b _ | Let _ a b => wf a /\ wf b
  | Select c t f => wf c /\ wf t /\ wf f
  | Load _ _ i _ _ => wf i
  | Call _ _ args _ _ _ _ _ =>
      (fix go (l : list Expr) : Prop := match l with [] => True | x :: l' => wf x /\ go l' end) args
  end.

Lemma wf_args args :
  (fix go (l : list Expr) : Prop := match l with [] => True | x :: l' => wf x /\ go l' end) args
  <-> Forall wf args.
Proof.
  induction args as [|x l IH].
  - split; [constructor | done].
  - by rewrite Forall_cons, <- IH.
Qed.

(** ** Type equality *)

Lemma type_eqb_refl t : type_eqb t t = true.
Proof.
  unfold type_eqb, same_handle_type.
  rewrite !Z.eqb_refl.
  repeat match goal with
  | |- context [bool_decide (?x = ?x)] => rewrite (bool_decide_eq_true_2 (x = x)) by reflexivity
  end.
  apply orb_true_r.
Qed.

Lemma type_eqb_fields t u :
  type_eqb t u = true -> code t = code u /\ bits t = bits u /\ lanes t = lanes u.
Proof. unfold type_eqb. intros H. bool_to_prop. done. Qed.

Lemma type_eqb_sym t u : type_eqb t u = type_eqb u t.
Proof.
  assert (Hs : forall A `{EqDecision A} (x y : A), bool_decide (x = y) = bool_decide (y = x)).
  { intros A ? x y. by apply bool_decide_ext. }
  unfold type_eqb, same_handle_type. rewrite (Hs _ _ (code t)), (Z.eqb_sym (bits t)),
    (Z.eqb_sym (lanes t)).
  rewrite (Hs _ _ (inner_name _)), (Hs _ _ (namespaces _)), (Hs _ _ (enclosing_types _)),
    (Hs _ _ (cpp_type_modifiers _)), (Hs _ _ (reference_type _)).
  destruct (decide (code t = code u)) as [->|]; [done|].
  by rewrite (bool_decide_eq_false_2 (code u = code t)) by congruence.
Qed.

(** On the numeric types equality is on the three fields. *)
Lemma type_eqb_numeric t u :
  is_handle t = false ->
  type_eqb t u = true <-> code t = code u /\ bits t = bits u /\ lanes t = lanes u.
Proof.
  intros Hh. split; [apply type_eqb_fields|]. intros (Hc & Hb & Hl).
  unfold is_handle in Hh. bool_to_prop.
  unfold type_eqb. rewrite Hc, Hb, Hl, !Z.eqb_refl, bool_decide_eq_true_2 by done.
  rewrite Hc in Hh. by rewrite bool_decide_eq_false_2.
Qed.

Lemma type_neqb_negb t u : type_neqb t u = negb (type_eqb t u).
Proof.
  unfold type_neqb, type_eqb. rewrite !negb_andb, negb_orb, negb_involutive. done.
Qed.

Lemma type_eqb_classes t u :
  type_eqb t u = true ->
  is_int t = is_int u /\ is_uint t = is_uint u /\ is_float t = is_float u
  /\ is_handle t = is_handle u /\ is_bool t = is_bool u /\ is_scalar t = is_scalar u.
Proof.
  intros H. apply type_eqb_fields in H as (Hc & Hb & Hl).
  unfold is_int, is_uint, is_float, is_handle, is_bool, is_scalar. by rewrite Hc, Hb, Hl.
Qed.

(** * What the factories build

    [built e] when [e] can be obtained by calls of the factories. *)
Inductive built : Expr -> Prop :=
| built_IntImm t v e : IntImm_make t v = Ok e -> built e
| built_UIntImm t v e : UIntImm_make t v = Ok e -> built e
| built_FloatImm t v e : FloatImm_make t v = Ok e -> built e
| built_StringImm s : built (StringImm_make s)
| built_Cast t v e : built v -> Cast_make t v = Ok e -> built e
| built_Variable t n i p r e : Variable_make t n i p r = Ok e -> built e
| built_Add a b e : built a -> built b -> Add_make a b = Ok e -> built e
| built_Sub a b e : built a -> built b -> Sub_make a b = Ok e -> built e
| built_Mul a b e : built a -> built b -> Mul_make a b = Ok e -> built e
| built_Div a b e : built a -> built b -> Div_make a b = Ok e -> built e
| built_Mod a b e : built a -> built b -> Mod_make a b = Ok e -> built e
| built_Min a b e : built a -> built b -> Min_make a b = Ok e -> built e
| built_Max a b e : built a -> built b -> Max_make a b = Ok e -> built e
| built_EQ a b e : built a -> built b -> EQ_make a b = Ok e -> built e
| built_NE a b e : built a -> built b -> NE_make a b = Ok e -> built e
| built_LT a b e : built a -> built b -> LT_make a b = Ok e -> built e
| built_LE a b e : built a -> built b -> LE_make a b = Ok e -> built e
| built_GT a b e : built a -> built b -> GT_make a b = Ok e -> built e
| built_GE a b e : built a -> built b -> GE_make a b = Ok e -> built e
| built_And a b e : built a -> built b -> And_make a b = Ok e -> built e
| built_Or a b e : built a -> built b -> Or_make a b = Ok e -> built e
| built_Not a e : built a -> Not_make a = Ok e -> built e
| built_Select c t f e : built c -> built t -> built f -> Select_make c t f = Ok e -> built e
| built_Load t n x i p e : built x -> Load_make t n x i p = Ok e -> built e
| built_Ramp b s l e : built b -> built s -> Ramp_make b s l = Ok e -> built e
| built_Broadcast v l e : built v -> Broadcast_make v l = Ok e -> built e
| built_Call t n args ct f vi i p e :
    (forall a, a ∈ args -> built a) -> Call_make t n (eref <$> args) ct f vi i p = Ok e -> built e
| built_Let n v b e : built v -> built b -> Let_make n v b = Ok e -> built e.

Lemma sign_extend_high w v : 0 < w <= 64 ->
  Z.shiftr (swrap 64 (Z.shiftl v (64 - w))) (64 - w) = swrap w v.
Proof.
  intros Hw. rewrite Z.shiftr_div_pow2, Z.shiftl_mul_pow2 by lia. unfold swrap.
  pose proof (pow2_pos (64 - w)) as Hp. specialize (Hp ltac:(lia)).
  assert (H63 : 2 ^ (64 - 1) = 2 ^ (w - 1) * 2 ^ (64 - w)) by (rewrite <- Z.pow_add_r by lia; f_equal; lia).
  assert (H64 : 2 ^ 64 = 2 ^ w * 2 ^ (64 - w)) by (rewrite <- Z.pow_add_r by lia; f_equal; lia).
  rewrite H63, H64, <- Z.mul_add_distr_r, Zmult_mod_distr_r, <- Z.mul_sub_distr_r.
  apply Z.div_mul. lia.
Qed.

Lemma zero_extend_high w v : 0 < w <= 64 ->
  Z.shiftr (uwrap 64 (Z.shiftl v (64 - w))) (64 - w) = uwrap w v.
Proof.
  intros Hw. rewrite Z.shiftr_div_pow2, Z.shiftl_mul_pow2 by lia. unfold uwrap.
  pose proof (pow2_pos (64 - w)) as Hp. specialize (Hp ltac:(lia)).
  assert (H64 : 2 ^ 64 = 2 ^ w * 2 ^ (64 - w)) by (rewrite <- Z.pow_add_r by lia; f_equal; lia).
  rewrite H64, Zmult_mod_distr_r. apply Z.div_mul. lia.
Qed.

Lemma int_width_range b : int_width b = true -> 0 < b <= 64.
Proof. unfold int_width. intros H. bool_to_prop. repeat (destruct H as [H|H]; bool_to_prop); lia. Qed.
Lemma uint_width_range b : uint_width b = true -> 0 < b <= 64.
Proof.
  unfold uint_width. intros H. apply orb_true_iff in H as [H|H]; bool_to_prop; [lia|].
  by apply int_width_range.
Qed.

(** A constant node holds the value its type's register would. *)
Lemma IntImm_make_spec t v :
  is_int t = true -> is_scalar t = true -> int_width (bits t) = true ->
  IntImm_make t v = Ok (IntImm t (swrap (bits t) v)).
Proof.
  intros Hi Hs Hw. unfold IntImm_make. rewrite Hi, Hs.
  change ((bits t =? 8) || (bits t =? 16) || (bits t =? 32) || (bits t =? 64))
    with (int_width (bits t)). rewrite Hw. simpl.
  by rewrite sign_extend_high by (by apply int_width_range).
Qed.

Lemma UIntImm_make_spec t v :
  is_uint t = true -> is_scalar t = true -> uint_width (bits t) = true ->
  UIntImm_make t v = Ok (UIntImm t (uwrap (bits t) v)).
Proof.
  intros Hi Hs Hw. unfold UIntImm_make. rewrite Hi, Hs.
  replace ((bits t =? 1) || (bits t =? 8) || (bits t =? 16) || (bits t =? 32) || (bits t =? 64))
    with (uint_width (bits t)) by (unfold uint_width, int_width; by rewrite !orb_assoc).
  rewrite Hw. simpl. by rewrite zero_extend_high by (by apply uint_width_range).
Qed.

Lemma mapM_defined msg (args : list Expr) r :
  mapM (defined msg) (eref <$> args) = Ok r <-> r = args.
Proof.
  assert (H : mapM (M := res) (defined msg) (eref <$> args) = Ok args).
  { induction args as [|x l IH]; [done|]. cbn in IH |- *. by rewrite IH. }
  rewrite H. naive_solver.
Qed.

(** One factory call on defined children succeeds exactly when the node it builds
    is well formed, and it builds that node. *)
Lemma binary_make_Ok op nm a b e : is_logical op = false ->
  binary_make op nm (eref a) (eref b) = Ok e <-> e = Bin op a b /\ wf_node (Bin op a b).
Proof.
  intros Hl. unfold binary_make, internal_assert; simpl. rewrite Hl.
  destruct (type_eqb (type a) (type b)); simpl; naive_solver.
Qed.

Lemma logical_make_Ok op nm a b e : is_logical op = true ->
  logical_make op nm (eref a) (eref b) = Ok e <-> e = Bin op a b /\ wf_node (Bin op a b).
Proof.
  intros Hl. unfold logical_make, internal_assert; simpl. rewrite Hl.
  destruct (is_bool (type a)), (is_bool (type b)), (type_eqb (type a) (type b)); simpl; naive_solver.
Qed.

(** Unfold a successful factory call into the node and its conditions. *)
Ltac inv_make H :=
  unfold IntImm_make, UIntImm_make, FloatImm_make, Cast_make, Not_make, Select_make, Load_make,
    Ramp_make, Broadcast_make, Call_make, Let_make, Variable_make, internal_assert in H;
  simpl in H; repeat (case_match_in H; simpl in H); simplify_eq/=; bool_to_prop.

Lemma float_make_node t v e : FloatImm_make t v = Ok e -> wf e.
Proof.
  intros H. inv_make H; simpl; unfold float_width; (split; [|done]); split;
    repeat match goal with H : ?x = true |- context [?x] => rewrite H
           | H : bits t = _ |- _ => rewrite H end; simpl; try done; eauto.
Qed.


Lemma int_make_node t v e : IntImm_make t v = Ok e -> wf e.
Proof.
  intros H. assert (Hok : is_int t && is_scalar t = true /\ int_width (bits t) = true).
  { unfold IntImm_make in H. inv_res. split; [|done]. by rewrite andb_true_iff. }
  destruct Hok as [H1 H2]. pose proof H1 as H1'. apply andb_true_iff in H1 as [Hi Hs].
  rewrite IntImm_make_spec in H by done. injection H as <-. simpl. rewrite H1', H2.
  split; [|done]. split; [done|]. apply swrap_range. by apply int_width_range.
Qed.

Lemma uint_make_node t v e : UIntImm_make t v = Ok e -> wf e.
Proof.
  intros H. assert (Hok : is_uint t && is_scalar t = true /\ uint_width (bits t) = true).
  { unfold UIntImm_make in H. inv_res. split; [by rewrite andb_true_iff|].
    unfold uint_width, int_width. by rewrite !orb_assoc. }
  destruct Hok as [H1 H2]. pose proof H1 as H1'. apply andb_true_iff in H1 as [Hi Hs].
  rewrite UIntImm_make_spec in H by done. injection H as <-. simpl. rewrite H1', H2.
  split; [|done]. split; [done|]. apply uwrap_range. pose proof (uint_width_range _ H2). lia.
Qed.

Lemma built_wf e : built e -> wf e.
Proof.
  induction 1; try solve [eauto using int_make_node, uint_make_node, float_make_node];
    try solve [match goal with
      | H : ?mk _ _ = Ok _ |- _ =>
          unfold mk in H;
          (apply binary_make_Ok in H || apply logical_make_Ok in H); [|done];
          destruct H as [-> ?]; simpl; auto
      end];
    try solve [match goal with H : _ = Ok _ |- _ => inv_make H; simpl;
                 repeat split; auto; try (rewrite ?andb_true_iff; auto); lia end].
  - done.
  - (* Select *)
    inv_make H2; simpl; repeat split; auto. by apply orb_true_iff.
  - (* Call *)
    unfold Call_make in H1.
    apply bind_Ok in H1 as (args' & Ha & H1). apply mapM_defined in Ha as ->.
    destruct ct; inv_make H1; simpl; rewrite ?wf_args, ?Forall_forall; repeat split; auto.
    match goal with H : _ \/ _ |- _ => destruct H; bool_to_prop; auto end.
Qed.

Lemma wf_built e : wf e -> built e.
Proof.
  induction e using Expr_ind'; simpl; intros Hwf; destruct Hwf as [Hn Hc].
  - destruct Hn as [Ht Hv]. apply andb_true_iff in Ht as [Ht Hw]. apply andb_true_iff in Ht as [Hi Hs].
    apply (built_IntImm t v). rewrite IntImm_make_spec by done. do 2 f_equal.
    apply swrap_id; [by apply int_width_range|done].
  - destruct Hn as [Ht Hv]. apply andb_true_iff in Ht as [Ht Hw]. apply andb_true_iff in Ht as [Hi Hs].
    apply (built_UIntImm t v). rewrite UIntImm_make_spec by done. do 2 f_equal.
    by apply uwrap_id.
  - destruct Hn as [Ht [v0 ->]]. apply andb_true_iff in Ht as [Ht Hw].
    apply (built_FloatImm t v0). unfold FloatImm_make, internal_assert. rewrite Ht. simpl.
    unfold float_width in Hw.
    destruct (Z.eqb_spec (bits t) 16) as [->|]; [done|].
    destruct (Z.eqb_spec (bits t) 32) as [->|]; [done|]. simpl in Hw. by rewrite Hw.
  - apply built_StringImm.
  - apply (built_Cast t e); [auto|]. unfold Cast_make, internal_assert; simpl. by rewrite Hn, Z.eqb_refl.
  - apply (built_Variable t n i p r). unfold Variable_make, internal_assert.
    by rewrite bool_decide_eq_false_2.
  - destruct Hc as [Ha Hb].
    destruct op;
      (let c := match goal with |- built (Bin ?c _ _) => c end in
       match c with
       | Add => apply (built_Add e1 e2) | Sub => apply (built_Sub e1 e2)
       | Mul => apply (built_Mul e1 e2) | Div => apply (built_Div e1 e2)
       | Mod => apply (built_Mod e1 e2) | Min => apply (built_Min e1 e2)
       | Max => apply (built_Max e1 e2) | EQ => apply (built_EQ e1 e2)
       | NE => apply (built_NE e1 e2) | LT => apply (built_LT e1 e2)
       | LE => apply (built_LE e1 e2) | GT => apply (built_GT e1 e2)
       | GE => apply (built_GE e1 e2) | And => apply (built_And e1 e2)
       | Or => apply (built_Or e1 e2)
       end); auto;
      (by apply binary_make_Ok) || (by apply logical_make_Ok).
  - apply (built_Not e); [auto|]. unfold Not_make, internal_assert; simpl. by rewrite Hn.
  - destruct Hc as (Hc & Ht & Hf), Hn as (H1 & H2 & H3).
    apply (built_Select e1 e2 e3); auto.
    unfold Select_make, internal_assert; simpl. by rewrite H1, H2, H3.
  - apply (built_Load t n e i p); [auto|]. unfold Load_make, internal_assert; simpl.
    by rewrite Hn, Z.eqb_refl.
  - destruct Hc as [Hb Hs], Hn as (H1 & H2 & H3). apply andb_true_iff in H1 as [H1 H1'].
    apply (built_Ramp e1 e2 l); auto.
    unfold Ramp_make, internal_assert; simpl. by rewrite H1, H1', H3, (proj2 (Z.ltb_lt 1 l)).
  - destruct Hn as [H1 H2]. apply (built_Broadcast e l); [auto|].
    unfold Broadcast_make, internal_assert; simpl. by rewrite H1, (proj2 (Z.eqb_neq l 1)).
  - rewrite wf_args in Hc.
    apply (built_Call t n args ct f vi i p).
    + rewrite Forall_forall in H, Hc. auto.
    + unfold Call_make. rewrite (proj2 (mapM_defined _ args args)) by done. simpl.
      unfold internal_assert. destruct ct; simpl; try done; [destruct Hn as [Hn ->]|by rewrite Hn].
      destruct Hn; repeat case_bool_decide; naive_solver.
  - destruct Hc. apply (built_Let n e1 e2); auto.
Qed.

(** C27. The well-formedness predicate is exactly what the factories of IR.cpp and
    Expr.h enforce: an expression is well formed if and only if it can be obtained
    by successful factory calls starting from nothing. *)
Theorem built_iff_wf e : built e <-> wf e.
Proof. split; [apply built_wf | apply wf_built]. Qed.

(** * Blocks *)

(** The statements of a block in order, and the shape in which blocks nest only to
    the right. *)
Fixpoint block_list (s : Stmt) : list Stmt :=
  match s with
  | Block f r => block_list f ++ block_list r
  | _ => [s]
  end.

Definition is_block (s : Stmt) : bool := match s with Block _ _ => true | _ => false end.

Fixpoint right_nested (s : Stmt) : Prop :=
  match s with
  | Block f r => is_block f = false /\ right_nested r
  | _ => True
  end.

Lemma Block_join_list f r : block_list (Block_join f r) = block_list f ++ block_list r.
Proof. induction f; simpl; try done. by rewrite IHf2, app_assoc. Qed.

Lemma Block_join_nested f r : right_nested f -> right_nested r -> right_nested (Block_join f r).
Proof. induction f; simpl; try done. intros [? ?] ?. auto. Qed.

Lemma foldl_Block_make l acc :
  foldl (fun acc s => result ← acc; r ← Block_make s result; Ok (Some r)) (Ok (Some acc))
    (sref <$> l) = Ok (Some (foldl (fun acc s => Block_join s acc) acc l)).
Proof. revert acc. induction l as [|s l IH]; intros acc; simpl; [done|]. apply IH. Qed.

(** [Block::make] of a list of statements succeeds, keeps exactly the given
    statements in the given order, and returns a block nested only to the right,
    whatever blocks its arguments are themselves. *)
Theorem Block_make_flattens ss :
  ss <> [] -> Forall right_nested ss ->
  exists r, Block_make_list (sref <$> ss) = Ok (Some r) /\
            block_list r = concat (block_list <$> ss) /\ right_nested r.
Proof.
  intros Hne Hn. unfold Block_make_list.
  destruct ss as [|acc l _] using rev_ind; [done|]. clear Hne.
  rewrite fmap_app, rev_app_distr. simpl. rewrite <- map_rev.
  change (map sref (rev l)) with (sref <$> rev l).
  change (sref acc) with (Some acc). rewrite foldl_Block_make.
  eexists. split; [done|]. rewrite Forall_app in Hn. destruct Hn as [Hl Hacc].
  apply Forall_cons in Hacc as [Hacc _].
  revert acc Hacc. induction l as [|s l IH] using rev_ind; intros acc Hacc.
  - simpl. by rewrite app_nil_r.
  - apply Forall_app in Hl as [Hl Hs]. apply Forall_cons in Hs as [Hs _].
    rewrite rev_app_distr. simpl.
    destruct (IH Hl (Block_join s acc)) as [H1 H2]; [by apply Block_join_nested|].
    split; [|done]. rewrite H1, !fmap_app, !concat_app. simpl.
    by rewrite !app_nil_r, Block_join_list, app_assoc.
Qed.

Lemma Block_make_flattens_witness :
  exists r, Block_make_list (sref <$> [Block (Free "a") (Free "b"); Free "c"]) = Ok (Some r) /\
            block_list r = [Free "a"; Free "b"; Free "c"] /\ right_nested r.
Proof.
  apply (Block_make_flattens [Block (Free "a") (Free "b"); Free "c"]); [done|].
  repeat constructor.
Defined.

(** * Allocation sizes *)

Definition extent_value (e : Expr) : option Z :=
  match e with IntImm _ v => if bool_decide (0 < v <= 2 ^ 31 - 1) then Some v else None | _ => None end.

Lemma fold_mul_ge vs acc : 0 < acc -> Forall (fun v => 0 < v) vs -> acc <= foldl Z.mul acc vs.
Proof.
  intros Ha Hv. revert acc Ha. induction Hv as [|v vs Hv Hvs IH]; intros acc Ha; simpl; [lia|].
  specialize (IH (acc * v) ltac:(nia)). nia.
Qed.

Lemma allocation_loop_spec es vs acc :
  mapM extent_value es = Some vs -> 0 < acc <= 2 ^ 31 - 1 ->
  constant_allocation_size_loop es acc =
  if foldl Z.mul acc vs <=? 2 ^ 31 - 1 then Ok (foldl Z.mul acc vs)
  else Err (UserError "Total size for allocation is constant but exceeds 2^31 - 1.").
Proof.
  revert vs acc. induction es as [|e es IH]; intros vs acc Hm Ha.
  - simpl in Hm. injection Hm as <-. simpl foldl. rewrite (proj2 (Z.leb_le _ _)) by lia.
    simpl. rewrite swrap_id; [done|lia|]. unfold in_srange. lia.
  - cbn [mapM] in Hm. inv_res. injection H1 as <-.
    destruct e; try discriminate. cbn [extent_value] in H. case_bool_decide; [|done].
    injection H as <-. cbn [constant_allocation_size_loop foldl].
    rewrite bool_decide_eq_true_2 by (unfold in_srange; nia).
    destruct (Z.ltb_spec (2 ^ 31 - 1) (acc * value)).
    + assert (Hpos : Forall (fun v => 0 < v) x0).
      { apply mapM_Some in H0. apply Forall_forall. intros v Hv.
        apply list_elem_of_lookup_1 in Hv as [i Hi].
        destruct (Forall2_lookup_r _ _ _ _ _ H0 Hi) as (e & _ & He).
        destruct e; try done. simpl in He. case_bool_decide; naive_solver lia. }
      assert (0 < acc * value) as Hav by lia.
      pose proof (fold_mul_ge x0 (acc * value) Hav Hpos).
      by rewrite (proj2 (Z.leb_gt _ _)) by lia.
    + apply IH; [done|nia].
Qed.

(** [Allocate::constant_allocation_size] on positive constant 32-bit extents
    returns their exact product when it fits an [int32_t] and reports the
    documented user error when it does not; the 64-bit running product never
    overflows on the way. *)
Theorem constant_allocation_size_exact es vs :
  mapM extent_value es = Some vs ->
  constant_allocation_size es =
  if foldl Z.mul 1 vs <=? 2 ^ 31 - 1 then Ok (foldl Z.mul 1 vs)
  else Err (UserError "Total size for allocation is constant but exceeds 2^31 - 1.").
Proof. intros H. by apply allocation_loop_spec. Qed.

Lemma constant_allocation_size_exact_witness :
  constant_allocation_size [IntImm (Int 32 1) 65536; IntImm (Int 32 1) 32767] = Ok (65536 * 32767) /\
  is_ok (constant_allocation_size [IntImm (Int 32 1) 65536; IntImm (Int 32 1) 32768;
                                   IntImm (Int 32 1) 7]) = false.
Proof.
  split.
  - rewrite (constant_allocation_size_exact _ [65536; 32767]); reflexivity.
  - rewrite (constant_allocation_size_exact _ [65536; 32768; 7]); reflexivity.
Defined.
