(* ===== verification/Semantics.v ===== *)
(** The meaning of expressions: an evaluator the passes are proved against. It is
    the specification of the development; the arithmetic rules are those the
    comments of src/src/IR.h and src/src/Simplify.h document (Euclidean division,
    undefined overflow of signed integers of 32 bits and more). [div_imp] and
    [mod_imp] of src/src/Simplify.h are modelled here and proved Euclidean. *)

From Stdlib Require Import ZArith Lia Bool SpecFloat.
From stdpp Require Import prelude strings gmap.
From S2P Require Import Prelude Types IR.

#[local] Open Scope Z_scope.

(** * Values: one scalar per lane *)

Inductive scalar :=
| VInt (z : Z)
| VFloat (f : spec_float)
| VStr (s : string)
| VPtr (z : Z).

#[global] Instance scalar_eq_dec : EqDecision scalar.
Proof. solve_decision. Defined.

#[global] Instance VInt_inj : Inj (=) (=) VInt.
Proof. by intros ?? [=]. Qed.

Abbreviation value := (list scalar).

(** What an arithmetic operation does when its mathematical result does not fit:
    [Machine] wraps at every width; [Ideal] is the contract of the compiler
    ([no_overflow]): signed integers of 32 bits and more are mathematical integers,
    the others wrap; [Strict] leaves the expression undefined. *)
Inductive overflow := Machine | Ideal | Strict.

(** [no_overflow_scalar_int(t.element_of())] of Simplify.cpp. *)
Definition unbounded (t : Ty) : bool := is_int t && (32 <=? bits t).

Definition representable (t : Ty) (z : Z) : bool :=
  if is_int t then bool_decide (in_srange (bits t) z)
  else if is_uint t then bool_decide (in_urange (bits t) z)
  else false.

Definition wrap_type (t : Ty) (z : Z) : Z :=
  if is_int t then swrap (bits t) z else uwrap (bits t) z.

Definition ov_result (p : overflow) (t : Ty) (z : Z) : option Z :=
  match p with
  | Machine => Some (wrap_type t z)
  | Ideal => Some (if unbounded t then z else wrap_type t z)
  | Strict => if representable t z then Some z else None
  end.

(** * Euclidean division *)

Definition ediv (a b : Z) : Z := Z.sgn b * (a / Z.abs b).
Definition emod (a b : Z) : Z := a mod Z.abs b.

Lemma ediv_emod a b : b <> 0 -> a = b * ediv a b + emod a b /\ 0 <= emod a b < Z.abs b.
Proof.
  intros Hb. unfold ediv, emod.
  pose proof (Z.div_mod a (Z.abs b) ltac:(lia)) as Hd.
  pose proof (Z.mod_pos_bound a (Z.abs b) ltac:(lia)).
  split; [|lia]. rewrite Z.mul_assoc.
  replace (b * Z.sgn b) with (Z.abs b) by (destruct b; simpl; lia). lia.
Qed.

Lemma ediv_pos a b : 0 < b -> ediv a b = a / b.
Proof. intros. unfold ediv. rewrite Z.sgn_pos, Z.abs_eq by lia. lia. Qed.
Lemma ediv_neg a b : b < 0 -> ediv a b = - (a / - b).
Proof. intros. unfold ediv. rewrite Z.sgn_neg, Z.abs_neq by lia. lia. Qed.

Lemma ediv_unique a b q r :
  b <> 0 -> a = b * q + r -> 0 <= r < Z.abs b -> ediv a b = q /\ emod a b = r.
Proof.
  intros Hb Ha Hr. destruct (ediv_emod a b Hb) as [He Hm].
  assert (b * (ediv a b - q) = r - emod a b) by lia.
  assert (ediv a b - q = 0) by nia. split; lia.
Qed.

(** * Scalar operations *)

Definition float_floor (b : Z) (f : spec_float) : spec_float :=
  match f with
  | S754_finite s m e =>
      if 0 <=? e then f
      else match float_prec b with
           | Some (prec, emax) => binary_normalize prec emax (cond_Zopp s (Zpos m) / 2 ^ (- e)) 0 s
           | None => S754_nan
           end
  | _ => f
  end.

Definition int_binop (p : overflow) (op : binop) (t : Ty) (a b : Z) : option Z :=
  match op with
  | Add => ov_result p t (a + b)
  | Sub => ov_result p t (a - b)
  | Mul => ov_result p t (a * b)
  | Div => if b =? 0 then None else ov_result p t (ediv a b)
  | Mod => if b =? 0 then None else ov_result p t (emod a b)
  | Min => Some (Z.min a b)
  | Max => Some (Z.max a b)
  | EQ => Some (Z.b2z (a =? b))
  | NE => Some (Z.b2z (negb (a =? b)))
  | LT => Some (Z.b2z (a <? b))
  | LE => Some (Z.b2z (a <=? b))
  | GT => Some (Z.b2z (b <? a))
  | GE => Some (Z.b2z (b <=? a))
  | And => Some (Z.b2z (negb (a =? 0) && negb (b =? 0)))
  | Or => Some (Z.b2z (negb (a =? 0) || negb (b =? 0)))
  end.

Definition float_binop (op : binop) (w : Z) (a b : spec_float) : option scalar :=
  match float_prec w with
  | None => None
  | Some (prec, emax) =>
      match op with
      | Add => Some (VFloat (SFadd prec emax a b))
      | Sub => Some (VFloat (SFsub prec emax a b))
      | Mul => Some (VFloat (SFmul prec emax a b))
      | Div => Some (VFloat (SFdiv prec emax a b))
      | Mod => Some (VFloat (SFsub prec emax a
                 (SFmul prec emax b (float_floor w (SFdiv prec emax a b)))))
      | Min => Some (VFloat (if float_ltb a b then a else b))
      | Max => Some (VFloat (if float_ltb b a then a else b))
      | EQ => Some (VInt (Z.b2z (float_eqb a b)))
      | NE => Some (VInt (Z.b2z (negb (float_eqb a b))))
      | LT => Some (VInt (Z.b2z (float_ltb a b)))
      | LE => Some (VInt (Z.b2z (float_leb a b)))
      | GT => Some (VInt (Z.b2z (float_ltb b a)))
      | GE => Some (VInt (Z.b2z (float_leb b a)))
      | And | Or => None
      end
  end.

Definition eval_binop (p : overflow) (op : binop) (t : Ty) (x y : scalar) : option scalar :=
  match x, y with
  | VInt a, VInt b => z ← int_binop p op t a b; Some (VInt z)
  | VFloat a, VFloat b => float_binop op (bits t) a b
  | _, _ => None
  end.

(** An operation only looks at the code and the width of its type. *)
Lemma eval_binop_fields p op t u x y :
  code t = code u -> bits t = bits u -> eval_binop p op t x y = eval_binop p op u x y.
Proof.
  intros Hc Hb. destruct x, y; try done; simpl.
  - unfold int_binop, ov_result, unbounded, representable, wrap_type, is_int, is_uint.
    by rewrite Hc, Hb.
  - by rewrite Hb.
Qed.

Definition eval_not (x : scalar) : option scalar :=
  match x with VInt a => Some (VInt (Z.b2z (a =? 0))) | _ => None end.

(** A widening cast keeps the value; a narrowing one truncates, except under
    [Strict], where it must not lose information. *)
Definition cast_int (p : overflow) (src dst : Ty) (z : Z) : option Z :=
  match p with
  | Strict => if representable dst z then Some z else None
  | Machine => Some (wrap_type dst z)
  | Ideal => Some (if can_represent dst src then z else wrap_type dst z)
  end.

Definition cast_scalar (p : overflow) (src dst : Ty) (x : scalar) : option scalar :=
  match x with
  | VInt z =>
      if is_int dst || is_uint dst then z ← cast_int p src dst z; Some (VInt z)
      else if is_float dst then Some (VFloat (float_of_Z (bits dst) z))
      else None
  | VFloat f =>
      if is_float dst then Some (VFloat (float_round (bits dst) f))
      else z ← float_trunc f; if representable dst z then Some (VInt z) else None
  | VStr s => if is_handle dst then Some (VStr s) else None
  | VPtr z => if is_handle dst then Some (VPtr z) else None
  end.

(** Lane [i+1] of a ramp is lane [i] plus the stride. *)
Fixpoint ramp_lanes (p : overflow) (t : Ty) (n : nat) (base stride : scalar) : option value :=
  match n with
  | O => Some []
  | 1%nat => Some [base]
  | S n' => next ← eval_binop p Add t base stride;
            rest ← ramp_lanes p t n' next stride;
            Some (base :: rest)
  end.

Definition truthy (x : scalar) : option bool :=
  match x with VInt z => Some (negb (z =? 0)) | _ => None end.

Fixpoint select_lanes (c t f : value) : option value :=
  match c, t, f with
  | [], [], [] => Some []
  | c :: cs, t :: ts, f :: fs =>
      b ← truthy c; rest ← select_lanes cs ts fs; Some ((if b : bool then t else f) :: rest)
  | _, _, _ => None
  end.

(** * The evaluator *)

(** Variables, buffers (by element type, name and index) and the functions calls
    refer to. *)
Record env := mkEnv {
  vars : gmap string value;
  mem : Ty -> string -> Z -> option scalar;
  fn : Ty -> CallType -> string -> Z -> list value -> option value
}.

Definition bind_var (ρ : env) (x : string) (v : value) : env :=
  mkEnv (<[x := v]> (vars ρ)) (mem ρ) (fn ρ).

(** The intrinsics whose value is one of their arguments; every other call is the
    environment's. *)
Definition eval_call (ρ : env) (t : Ty) (ct : CallType) (name : string) (vi : Z)
    (args : list value) : option value :=
  if call_is_intrinsic name ct "likely" || call_is_intrinsic name ct "likely_if_innermost"
     || call_is_intrinsic name ct "return_second"
  then last args
  else fn ρ t ct name vi args.

Fixpoint eval (p : overflow) (ρ : env) (e : Expr) : option value :=
  match e with
  | IntImm _ v | UIntImm _ v => Some [VInt v]
  | FloatImm _ v => Some [VFloat v]
  | StringImm s => Some [VStr s]
  | Cast t v => vs ← eval p ρ v; mapM (cast_scalar p (type v) t) vs
  | Var _ n _ _ _ => vars ρ !! n
  | Bin op a b =>
      va ← eval p ρ a; vb ← eval p ρ b; zip_with_M (eval_binop p op (type a)) va vb
  | Not a => va ← eval p ρ a; mapM eval_not va
  | Select c t f =>
      vc ← eval p ρ c; vt ← eval p ρ t; vf ← eval p ρ f;
      match vc with
      | [x] => b ← truthy x; Some (if b : bool then vt else vf)
      | _ => select_lanes vc vt vf
      end
  | Load t n i _ _ =>
      vi ← eval p ρ i;
      mapM (fun x => match x with VInt z => mem ρ t n z | _ => None end) vi
  | Ramp b s l =>
      vb ← eval p ρ b; vs ← eval p ρ s;
      match vb, vs with
      | [x], [y] => ramp_lanes p (type b) (Z.to_nat l) x y
      | _, _ => None
      end
  | Broadcast v l =>
      vv ← eval p ρ v;
      match vv with [x] => Some (replicate (Z.to_nat l) x) | _ => None end
  | Call t n args ct _ vi _ _ => vs ← mapM (eval p ρ) args; eval_call ρ t ct n vi vs
  | Let n v b => vv ← eval p ρ v; eval p (bind_var ρ n vv) b
  end.

(** * Division and modulo on C++ integers (Simplify.h)

    [div_imp] and [mod_imp] at a signed type of [w] bits; the C operators [/] and
    [%] truncate and are undefined for a zero divisor and, at 32 bits or more, for
    the quotient of the least value by -1. *)
Definition c_div_undefined (w a b : Z) : bool :=
  (b =? 0) || ((32 <=? w) && (a =? - 2 ^ (w - 1)) && (b =? -1)).

Definition div_imp_int (w a b : Z) : res Z :=
  if c_div_undefined w a b then Err (UB "a / b")
  else
    let q := Z.quot a b in
    let r := a - q * b in
    let bs := Z.shiftr b (w - 1) in
    let rs := Z.shiftr r (w - 1) in
    Ok (swrap w (q - Z.land rs bs + Z.land rs (Z.lnot bs))).

(** The result of [r + ...] is an [int] for the types narrower than [int], and is
    then converted; for the others a sum out of range is undefined. *)
Definition mod_imp_int (w a b : Z) : res Z :=
  if c_div_undefined w a b then Err (UB "a % b")
  else
    let r := Z.rem a b in
    let r' := r + (if r <? 0 then swrap w (Z.abs b) else 0) in
    if w <? 32 then Ok (swrap w r')
    else if bool_decide (in_srange w r') then Ok r' else Err (UB "overflow in mod_imp").

Definition div_imp_uint (a b : Z) : res Z :=
  if b =? 0 then Err (UB "a / b") else Ok (a / b).
Definition mod_imp_uint (a b : Z) : res Z :=
  if b =? 0 then Err (UB "a % b") else Ok (a mod b).

Lemma shiftr_sign w z : 0 < w -> in_srange w z -> Z.shiftr z (w - 1) = if z <? 0 then -1 else 0.
Proof.
  intros Hw Hz. unfold in_srange in Hz. rewrite Z.shiftr_div_pow2 by lia.
  destruct (Z.ltb_spec z 0).
  - symmetry. apply (Z.div_unique _ _ _ (z + 2 ^ (w - 1))); lia.
  - apply Z.div_small. lia.
Qed.

Lemma quot_rem_sign a b : b <> 0 ->
  a = b * Z.quot a b + Z.rem a b /\ Z.abs (Z.rem a b) < Z.abs b /\ 0 <= Z.rem a b * a.
Proof.
  intros Hb. pose proof (Z.quot_rem a b Hb). pose proof (Z.rem_bound_abs a b Hb).
  pose proof (Z.rem_sign_mul a b Hb). lia.
Qed.

(** The branch-free correction of the truncated quotient and remainder. *)
Lemma euclid_correction a b : b <> 0 ->
  ediv a b = Z.quot a b + (if Z.rem a b <? 0 then - Z.sgn b else 0) /\
  emod a b = Z.rem a b + (if Z.rem a b <? 0 then Z.abs b else 0).
Proof.
  intros Hb. destruct (quot_rem_sign a b Hb) as (Ha & Hr & Hs).
  apply ediv_unique; [done| |]; destruct (Z.ltb_spec (Z.rem a b) 0); lia.
Qed.

Lemma ediv_range w a b : 0 < w -> in_srange w a -> in_srange w b -> b <> 0 ->
  ~ (a = - 2 ^ (w - 1) /\ b = -1) -> in_srange w (ediv a b).
Proof.
  unfold in_srange. intros Hw Ha Hb Hb0 Hn. destruct (ediv_emod a b Hb0) as [He Hm].
  pose proof (pow2_pos (w - 1) ltac:(lia)).
  assert (Hc : Z.abs b = 1 \/ 2 <= Z.abs b) by lia.
  destruct Hc as [Hc|Hc].
  - assert (b = 1 \/ b = -1) as [-> | ->] by lia; lia.
  - split; nia.
Qed.

Lemma c_div_defined w a b :
  b <> 0 -> ~ (a = - 2 ^ (w - 1) /\ b = -1) -> c_div_undefined w a b = false.
Proof.
  intros Hb0 Hn. unfold c_div_undefined. rewrite (proj2 (Z.eqb_neq b 0)) by done. simpl.
  destruct (Z.eqb_spec a (- 2 ^ (w - 1))), (Z.eqb_spec b (-1));
    rewrite ?andb_false_r; try done. tauto.
Qed.

Lemma div_imp_int_exact w a b :
  8 <= w <= 64 -> in_srange w a -> in_srange w b -> b <> 0 -> ~ (a = - 2 ^ (w - 1) /\ b = -1) ->
  div_imp_int w a b = Ok (ediv a b).
Proof.
  intros Hw Ha Hb Hb0 Hn. destruct (euclid_correction a b Hb0) as [Hq _].
  destruct (quot_rem_sign a b Hb0) as (Hd & Hlt & Hs).
  unfold div_imp_int. rewrite c_div_defined by done.
  f_equal. replace (a - Z.quot a b * b) with (Z.rem a b) by lia.
  rewrite !shiftr_sign by (unfold in_srange in *; lia).
  rewrite <- (swrap_id w (ediv a b)) by (try lia; by apply ediv_range; try lia).
  f_equal. rewrite Hq.
  destruct (Z.ltb_spec (Z.rem a b) 0), (Z.ltb_spec b 0);
    rewrite ?Z.land_0_l, ?Z.land_m1_l; unfold Z.lnot; lia.
Qed.

Lemma mod_imp_int_exact w a b :
  8 <= w <= 64 -> in_srange w a -> in_srange w b -> in_srange w (Z.abs b) ->
  b <> 0 -> ~ (a = - 2 ^ (w - 1) /\ b = -1) -> mod_imp_int w a b = Ok (emod a b).
Proof.
  intros Hw Ha Hb Hab Hb0 Hn. destruct (euclid_correction a b Hb0) as [_ Hr].
  destruct (ediv_emod a b Hb0) as [_ Hm].
  unfold mod_imp_int. rewrite c_div_defined by done.
  rewrite (swrap_id w (Z.abs b)) by (done || lia). rewrite <- Hr.
  assert (in_srange w (emod a b)) by (unfold in_srange in *; lia).
  rewrite swrap_id by (done || lia). rewrite bool_decide_eq_true_2 by done.
  by destruct (w <? 32).
Qed.

(** C33. [div_imp] and [mod_imp] at every signed width compute the Euclidean
    quotient and remainder the header documents, [(a/b)*b + a%b = a] and
    [0 <= a%b < |b|], for every pair of operands on which the C operators are
    defined (and, for the remainder, [|b|] representable). *)
Theorem div_mod_imp_euclidean w a b :
  8 <= w <= 64 -> in_srange w a -> in_srange w b -> in_srange w (Z.abs b) ->
  b <> 0 -> ~ (a = - 2 ^ (w - 1) /\ b = -1) ->
  exists q r, div_imp_int w a b = Ok q /\ mod_imp_int w a b = Ok r /\
              q * b + r = a /\ 0 <= r < Z.abs b.
Proof.
  intros Hw Ha Hb Hab Hb0 Hn. destruct (ediv_emod a b Hb0) as [He Hm].
  exists (ediv a b), (emod a b). rewrite div_imp_int_exact, mod_imp_int_exact by done.
  repeat split; lia.
Qed.

Lemma div_mod_imp_euclidean_witness :
  exists q r, div_imp_int 32 (-7) (-2) = Ok q /\ mod_imp_int 32 (-7) (-2) = Ok r /\
              q * (-2) + r = -7 /\ 0 <= r < Z.abs (-2).
Proof. apply (div_mod_imp_euclidean 32 (-7) (-2)); unfold in_srange; lia. Defined.

(** * Refinement between the overflow policies *)

Lemma representable_wrap t z : representable t z = true -> wrap_type t z = z.
Proof.
  unfold representable, wrap_type. destruct (is_int t); [|destruct (is_uint t); [|done]];
    intros H; bool_to_prop.
  - apply swrap_id; [|done]. unfold in_srange in H.
    destruct (decide (0 < bits t)); [done|]. rewrite (Z.pow_neg_r 2 (bits t - 1)) in H by lia. lia.
  - by apply uwrap_id.
Qed.

(** Wrapping is compatible with multiplication. *)
Lemma wrap_type_form t z : 0 < bits t -> exists k, wrap_type t z = z + k * 2 ^ bits t.
Proof.
  intros Hb. unfold wrap_type. destruct (is_int t); [by apply swrap_form|].
  unfold uwrap. exists (- (z / 2 ^ bits t)). pose proof (pow2_pos (bits t)). rewrite Z.mod_eq by lia. lia.
Qed.

Lemma wrap_type_add_mul t z k : 0 < bits t -> wrap_type t (z + k * 2 ^ bits t) = wrap_type t z.
Proof.
  intros Hb. unfold wrap_type. destruct (is_int t); [by apply swrap_add_mul|].
  apply uwrap_add_mul. lia.
Qed.

Lemma wrap_type_mul t a b : 0 < bits t ->
  wrap_type t (wrap_type t a * wrap_type t b) = wrap_type t (a * b).
Proof.
  intros Hb. destruct (wrap_type_form t a Hb) as [k ->], (wrap_type_form t b Hb) as [l ->].
  rewrite <- (wrap_type_add_mul t (a * b) (a * l + k * b + k * l * 2 ^ bits t)) by done.
  f_equal. ring.
Qed.

Lemma ov_result_strict p t z r : ov_result Strict t z = Some r -> ov_result p t z = Some r.
Proof.
  simpl. destruct (representable t z) eqn:Hr; [|done]. intros [= <-].
  destruct p; simpl; rewrite ?Hr, ?(representable_wrap _ _ Hr); [done| |done].
  by destruct (unbounded t).
Qed.

Lemma cast_int_strict p src dst z r :
  cast_int Strict src dst z = Some r -> cast_int p src dst z = Some r.
Proof.
  simpl. destruct (representable dst z) eqn:Hr; [|done]. intros [= <-].
  destruct p; simpl; rewrite ?Hr, ?(representable_wrap _ _ Hr); [done| |done].
  by destruct (can_represent dst src).
Qed.

Lemma int_binop_strict p op t a b r :
  int_binop Strict op t a b = Some r -> int_binop p op t a b = Some r.
Proof.
  destruct op; cbn [int_binop]; try exact (fun H => H); try apply ov_result_strict;
    destruct (b =? 0); (done || apply ov_result_strict).
Qed.

Lemma eval_binop_strict p op t x y r :
  eval_binop Strict op t x y = Some r -> eval_binop p op t x y = Some r.
Proof.
  destruct x, y; try exact (fun H => H). cbn [eval_binop]. intros H. inv_res.
  by rewrite (int_binop_strict p _ _ _ _ _ H).
Qed.

Lemma cast_scalar_strict p src dst x r :
  cast_scalar Strict src dst x = Some r -> cast_scalar p src dst x = Some r.
Proof.
  destruct x; try exact (fun H => H). cbn [cast_scalar].
  destruct (is_int dst || is_uint dst); [|exact (fun H => H)]. intros H. inv_res.
  by rewrite (cast_int_strict p _ _ _ _ H).
Qed.

Lemma mapM_mono {A B} (f g : A -> option B) l r :
  (forall x y, x ∈ l -> f x = Some y -> g x = Some y) -> mapM f l = Some r -> mapM g l = Some r.
Proof.
  rewrite !mapM_Some. intros Hfg H. induction H; constructor; eauto.
  - apply Hfg; [apply list_elem_of_here|done].
  - apply IHForall2. intros. apply Hfg; [by apply list_elem_of_further|done].
Qed.

Lemma ramp_lanes_strict p t n b s r :
  ramp_lanes Strict t n b s = Some r -> ramp_lanes p t n b s = Some r.
Proof.
  revert b r. induction n as [|n IH]; intros b r; [done|]. destruct n as [|n]; [done|].
  intros H. change (ramp_lanes Strict t (S (S n)) b s) with
    (next ← eval_binop Strict Add t b s; rest ← ramp_lanes Strict t (S n) next s;
     Some (b :: rest)) in H. inv_res.
  change (ramp_lanes p t (S (S n)) b s) with
    (next ← eval_binop p Add t b s; rest ← ramp_lanes p t (S n) next s; Some (b :: rest)).
  rewrite (eval_binop_strict p _ _ _ _ _ H). cbn [mbind option_bind]. by rewrite (IH _ _ H0).
Qed.

(** An expression whose evaluation never leaves its types ([Strict]) has the
    same value when every operation wraps as the hardware does ([Machine]) and
    when large signed integers are mathematical ([Ideal]). *)
Theorem strict_refines p ρ e v : eval Strict ρ e = Some v -> eval p ρ e = Some v.
Proof.
  revert ρ v. induction e using Expr_ind'; intros ρ v0 Hev; simpl in *; try exact Hev; inv_res;
    repeat match goal with
    | IH : forall ρ v, eval Strict ρ ?e = Some v -> _, H : eval Strict _ ?e = Some _ |- _ =>
        rewrite (IH _ _ H); clear H
    end; simpl; try done.
  - eapply mapM_mono; [|done]. eauto using cast_scalar_strict.
  - eapply zip_with_M_mono; [|done]. eauto using eval_binop_strict.
  - repeat case_match; try done. by apply ramp_lanes_strict.
  - match goal with Hm : mapM _ _ = Some ?vs |- _ =>
      assert (mapM (eval p ρ) args = Some vs) as ->; [|done];
      eapply mapM_mono; [|exact Hm] end.
    intros y z Hy Hz. rewrite Forall_forall in H. eauto.
  - by apply IHe2.
Qed.

Lemma strict_refines_witness :
  eval Strict (mkEnv ∅ (fun _ _ _ => None) (fun _ _ _ _ _ => None))
    (Bin Add (IntImm (Int 8 1) 100) (IntImm (Int 8 1) 27)) = Some [VInt 127] /\
  eval Machine (mkEnv ∅ (fun _ _ _ => None) (fun _ _ _ _ _ => None))
    (Bin Add (IntImm (Int 8 1) 100) (IntImm (Int 8 1) 27)) = Some [VInt 127].
Proof. split; [reflexivity|]. apply (strict_refines Machine). reflexivity. Defined.

(** * Typing *)

Definition scalar_ok (p : overflow) (t : Ty) (s : scalar) : Prop :=
  match s with
  | VInt z => is_int t || is_uint t = true
              /\ (match p with Ideal => unbounded t = true \/ representable t z = true
                   | _ => representable t z = true end)
  | VFloat _ => is_float t = true
  | VStr _ | VPtr _ => is_handle t = true
  end.

Definition value_ok (p : overflow) (t : Ty) (v : value) : Prop :=
  Z.of_nat (length v) = lanes t /\ Forall (scalar_ok p t) v.

(** The types the compiler uses: at least one bit, at most 64, and a lane count
    that fits its 16-bit field. *)
Definition ty_ok (t : Ty) : Prop := 0 < bits t <= 64 /\ 0 <= lanes t < 65536.

(** [typed Γ e]: the variables of [e] occur with the types [Γ] gives them, a bound
    variable with the type of its value, the types written in nodes are usable, and
    the intrinsics that return an argument have that argument's type. *)
Fixpoint typed (Γ : gmap string Ty) (e : Expr) : Prop :=
  match e with
  | IntImm t _ | UIntImm t _ | FloatImm t _ => ty_ok t
  | StringImm _ => True
  | Cast t v => ty_ok t /\ typed Γ v
  | Var t n _ _ _ => ty_ok t /\ Γ !! n = Some t
  | Bin _ a b => typed Γ a /\ typed Γ b
  | Not a => typed Γ a
  | Select c t f => typed Γ c /\ typed Γ t /\ typed Γ f
  | Load t _ i _ _ => ty_ok t /\ typed Γ i
  | Ramp b s l => typed Γ b /\ typed Γ s /\ l < 65536
  | Broadcast v l => typed Γ v /\ 0 <= l < 65536
  | Call t n args ct _ _ _ _ =>
      ty_ok t /\
      (call_is_intrinsic n ct "likely" || call_is_intrinsic n ct "likely_if_innermost"
       || call_is_intrinsic n ct "return_second" = true ->
       exists a, last args = Some a /\ type a = t) /\
      (fix go (l : list Expr) : Prop :=
         match l with [] => True | x :: l' => typed Γ x /\ go l' end) args
  | Let n v b => typed Γ v /\ typed (<[n := type v]> Γ) b
  end.

Lemma typed_args Γ args :
  (fix go (l : list Expr) : Prop :=
     match l with [] => True | x :: l' => typed Γ x /\ go l' end) args
  <-> Forall (typed Γ) args.
Proof.
  induction args as [|x l IH]; [split; [constructor|done]|]. by rewrite Forall_cons, <- IH.
Qed.

Record env_ok (p : overflow) (Γ : gmap string Ty) (ρ : env) : Prop := {
  env_vars : forall x t v, Γ !! x = Some t -> vars ρ !! x = Some v -> value_ok p t v;
  env_mem : forall t n i s, mem ρ t n i = Some s -> scalar_ok p t s;
  env_fn : forall t ct n vi args v, fn ρ t ct n vi args = Some v -> value_ok p t v
}.

Lemma env_ok_bind p Γ ρ x t v :
  env_ok p Γ ρ -> value_ok p t v -> env_ok p (<[x := t]> Γ) (bind_var ρ x v).
Proof.
  intros [Hv Hm Hf] Hok. constructor; simpl; eauto. intros y u w.
  destruct (decide (x = y)) as [->|]; simplify_map_eq; [by intros; simplify_eq|]. eauto.
Qed.

Lemma ty_ok_type Γ e : wf e -> typed Γ e -> ty_ok (type e).
Proof.
  assert (Hsmall : forall z, 0 <= z < 65536 -> uwrap 16 z = z) by (intros; by apply uwrap_id).
  assert (Hbits : forall z, 0 < z <= 64 -> uwrap 8 z = z)
    by (intros; apply uwrap_id; unfold in_urange; lia).
  revert Γ. induction e using Expr_ind'; intros Γ Hwf Ht; simpl in Hwf, Ht;
    destruct Hwf as [Hn Hc]; simpl; try tauto.
  - repeat split; by vm_compute.
  - destruct (IHe1 Γ) as [Hb Hl]; [tauto..|]. destruct (is_comparison op || is_logical op); [|done].
    split; cbn; [done|]. by rewrite Hsmall.
  - destruct (IHe Γ) as [Hb Hl]; [tauto..|]. split; cbn; [done|]. by rewrite Hsmall.
  - apply (IHe2 Γ); tauto.
  - destruct (IHe1 Γ) as [Hb Hl]; [tauto..|]. split; cbn; rewrite ?Hbits, ?Hsmall by lia; lia.
  - destruct (IHe Γ) as [Hb Hl]; [tauto..|]. split; cbn; rewrite ?Hbits, ?Hsmall by lia; lia.
  - apply (IHe2 (<[n := type e1]> Γ)); tauto.
Qed.

Lemma scalar_ok_fields p t u s :
  code t = code u -> bits t = bits u -> scalar_ok p t s -> scalar_ok p u s.
Proof.
  unfold scalar_ok, unbounded, representable, is_int, is_uint, is_float, is_handle.
  by intros -> ->.
Qed.

Lemma scalar_ok_eqb p t u s : type_eqb t u = true -> scalar_ok p t s -> scalar_ok p u s.
Proof. intros H. apply type_eqb_fields in H as (Hc & Hb & _). by apply scalar_ok_fields. Qed.

Lemma value_ok_eqb p t u v : type_eqb t u = true -> value_ok p t v -> value_ok p u v.
Proof.
  intros H [Hl Hf]. split.
  - apply type_eqb_fields in H as (_ & _ & <-). done.
  - eapply Forall_impl; [done|]. intros s. by apply scalar_ok_eqb.
Qed.

Lemma wrap_representable t z :
  0 < bits t -> is_int t || is_uint t = true -> representable t (wrap_type t z) = true.
Proof.
  unfold representable, wrap_type. intros Hb. destruct (is_int t); simpl.
  - intros _. apply bool_decide_eq_true. by apply swrap_range.
  - intros ->. apply bool_decide_eq_true. apply uwrap_range. lia.
Qed.

Lemma ov_result_ok p t z r :
  0 < bits t -> is_int t || is_uint t = true -> ov_result p t z = Some r -> scalar_ok p t (VInt r).
Proof.
  intros Hb Ht H. split; [done|]. destruct p; simpl in H.
  - injection H as <-. by apply wrap_representable.
  - injection H as <-. destruct (unbounded t); [by left|right]. by apply wrap_representable.
  - destruct (representable t z) eqn:Hr; [|done]. by injection H as <-.
Qed.

Lemma bool_ok p l (b : bool) : scalar_ok p (Bool l) (VInt (Z.b2z b)).
Proof. split; [done|]. assert (representable (Bool l) (Z.b2z b) = true) by (by destruct b). destruct p; auto. Qed.

(** The result type of a binary node. *)
Definition binop_type (op : binop) (t : Ty) : Ty :=
  if is_comparison op || is_logical op then Bool (lanes t) else t.

Lemma eval_binop_ok p op t x y r :
  0 < bits t -> scalar_ok p t x -> scalar_ok p t y ->
  eval_binop p op t x y = Some r -> scalar_ok p (binop_type op t) r.
Proof.
  intros Hb Hx Hy H. destruct x as [a|a| |], y as [b|b| |]; try done; cbn [eval_binop] in H.
  - inv_res. destruct Hx as [Ht Hra], Hy as [_ Hrb].
    destruct op; cbn [int_binop binop_type is_comparison is_logical orb] in *; inv_res;
      try apply bool_ok; eauto using ov_result_ok;
      try (destruct (b =? 0); [done|]; by eapply ov_result_ok).
    + destruct (Z.min_spec a b) as [[_ ->]|[_ ->]]; by split.
    + destruct (Z.max_spec a b) as [[_ ->]|[_ ->]]; by split.
  - unfold float_binop in H. destruct (float_prec (bits t)) as [[prec emax]|]; [|done].
    destruct op; simplify_eq; simpl; try apply bool_ok; done.
Qed.

Lemma can_represent_range dst src z :
  can_represent dst src = true -> 0 < bits src -> is_int src || is_uint src = true ->
  is_float dst = false -> representable src z = true -> representable dst z = true.
Proof.
  unfold can_represent, representable. intros Hc Hb Hs Hf Hr.
  destruct (negb (lanes dst =? lanes src)); [done|].
  pose proof (int_not_uint src).
  destruct (is_int dst) eqn:Hid; [|destruct (is_uint dst) eqn:Hud; [|by rewrite Hf in Hc]].
  - destruct (is_int src) eqn:His; simpl in Hc.
    + rewrite (H eq_refl), orb_false_r in Hc. bool_to_prop. apply bool_decide_eq_true.
      eapply srange_mono; [|done]. lia.
    + simpl in Hs. rewrite Hs in Hc, Hr. simpl in Hc. bool_to_prop. apply bool_decide_eq_true.
      unfold in_urange, in_srange in *.
      pose proof (Z.pow_le_mono_r 2 (bits src) (bits dst - 1)). lia.
  - destruct (is_int src) eqn:His; [by rewrite (H eq_refl) in Hc|].
    simpl in Hs. rewrite Hs in Hc, Hr. simpl in Hc. bool_to_prop. apply bool_decide_eq_true.
    eapply urange_mono; [|done]. lia.
Qed.

Lemma can_represent_unbounded dst src :
  can_represent dst src = true -> unbounded src = true -> is_float dst = false ->
  unbounded dst = true.
Proof.
  unfold can_represent, unbounded. intros Hc Hs Hf. bool_to_prop.
  destruct (negb (lanes dst =? lanes src)); [done|].
  assert (is_uint src = false) by (by apply int_not_uint).
  rewrite H, H1, Hf in Hc. simpl in Hc.
  destruct (is_int dst); simpl.
  - rewrite orb_false_r in Hc. bool_to_prop. apply Z.leb_le. lia.
  - by destruct (is_uint dst).
Qed.

Lemma cast_scalar_ok p src dst x r :
  0 < bits src -> 0 < bits dst -> scalar_ok p src x ->
  cast_scalar p src dst x = Some r -> scalar_ok p dst r.
Proof.
  intros Hbs Hbd Hx H. destruct x as [z|f|s|z]; cbn [cast_scalar] in H.
  - destruct (is_int dst || is_uint dst) eqn:Hd.
    + inv_res. rename x into z'.
      pose proof (int_or_uint_not_float _ Hd).
      destruct Hx as [Hs Hrep].
      split; [done|]. destruct p; simpl in H; inv_res.
      * by apply wrap_representable.
      * destruct (can_represent dst src) eqn:Hcr; [|right; by apply wrap_representable].
        destruct Hrep; [left; by eapply can_represent_unbounded|right; by eapply can_represent_range].
      * destruct (representable dst z) eqn:Hr; [|done]. by injection H as <-.
    + destruct (is_float dst) eqn:Hf; [|done]. by injection H as <-.
  - destruct (is_float dst) eqn:Hf; [by injection H as <-|]. inv_res.
    destruct (representable dst x) eqn:Hr; [|done]. injection H0 as <-.
    split.
    + unfold representable in Hr. destruct (is_int dst); [done|]. by destruct (is_uint dst).
    + destruct p; auto.
  - destruct (is_handle dst) eqn:Hh; [|done]. by injection H as <-.
  - destruct (is_handle dst) eqn:Hh; [|done]. by injection H as <-.
Qed.

Lemma ramp_lanes_ok p t n b s r :
  0 < bits t -> scalar_ok p t b -> scalar_ok p t s ->
  ramp_lanes p t n b s = Some r -> length r = n /\ Forall (scalar_ok p t) r.
Proof.
  intros Ht Hb Hs. revert b r Hb. induction n as [|n IH]; intros b r Hb H.
  { simpl in H. injection H as <-. by split. }
  destruct n as [|n].
  { simpl in H. injection H as <-. split; [done|]. by constructor. }
  change (ramp_lanes p t (S (S n)) b s) with
    (next ← eval_binop p Add t b s; rest ← ramp_lanes p t (S n) next s; Some (b :: rest)) in H.
  inv_res. apply IH in H0 as [<- Hf]; [|exact (eval_binop_ok p Add t _ _ _ Ht Hb Hs H)].
  split; [done|]. by constructor.
Qed.

Lemma select_lanes_Forall (P : scalar -> Prop) vc vt vf r :
  Forall P vt -> Forall P vf ->
  select_lanes vc vt vf = Some r -> length r = length vt /\ Forall P r.
Proof.
  intros Ht. revert vc vf r. induction Ht as [|x vt Hx Ht IH]; intros [|c vc] [|y vf] r Hf H;
    simpl in H; try done.
  - injection H as <-. by split.
  - inv_res. apply Forall_cons in Hf as [Hy Hf].
    match goal with H : select_lanes _ _ _ = _ |- _ => apply IH in H as [Hl Hr]; [|done] end.
    split; [simpl; congruence|]. constructor; [by case_match|done].
Qed.

Lemma mapM_ok {A} (f : A -> option scalar) (P : scalar -> Prop) l r :
  (forall x y, x ∈ l -> f x = Some y -> P y) -> mapM f l = Some r ->
  length r = length l /\ Forall P r.
Proof.
  rewrite mapM_Some. intros Hf H. induction H as [|x y l r Hxy H IH]; [by split|].
  destruct IH as [IHl IHf].
  { intros. eapply Hf; [|done]. by apply list_elem_of_further. }
  split; [simpl; congruence|]. constructor; [|done]. eapply Hf; [apply list_elem_of_here|done].
Qed.

Lemma Bool_lanes l : 0 <= l < 65536 -> lanes (Bool l) = l.
Proof. intros. cbn. by apply uwrap_id. Qed.

Lemma zip_eval_ok p op t x y r :
  ty_ok t -> Z.of_nat (length x) = lanes t ->
  Forall (scalar_ok p t) x -> Forall (scalar_ok p t) y ->
  zip_with_M (eval_binop p op t) x y = Some r -> value_ok p (binop_type op t) r.
Proof.
  intros [Hb Hlanes] Hl Hx Hy Hz. split.
  - apply zip_with_M_length in Hz as [Hlr _]. unfold binop_type.
    destruct (is_comparison op || is_logical op); rewrite ?Bool_lanes by done; lia.
  - rewrite Forall_forall in Hx, Hy. apply Forall_lookup. intros i c Hi.
    destruct (zip_with_M_lookup _ _ _ _ _ _ Hz Hi) as (a & b & Ha & Hb' & Hab).
    apply list_elem_of_lookup_2 in Ha, Hb'. eapply eval_binop_ok; [| | |done]; auto; lia.
Qed.

Lemma value_ok_with_lanes p t l v :
  0 < bits t <= 64 -> 0 <= l < 65536 -> Forall (scalar_ok p t) v -> length v = Z.to_nat l ->
  value_ok p (with_lanes t l) v.
Proof.
  intros Hb Hl Hf Hlen. split.
  - cbn. rewrite uwrap_id by done. lia.
  - eapply Forall_impl; [done|]. intros s. apply scalar_ok_fields; [done|].
    cbn. symmetry. apply uwrap_id. unfold in_urange. lia.
Qed.

Lemma last_arg_ok p ρ args vs a v :
  mapM (eval p ρ) args = Some vs -> last args = Some a -> last vs = Some v ->
  (forall b w, b ∈ args -> eval p ρ b = Some w -> value_ok p (type b) w) ->
  value_ok p (type a) v.
Proof.
  intros Hm Ha Hv Hok. apply mapM_Some in Hm.
  rewrite last_lookup in Ha. rewrite last_lookup in Hv.
  pose proof (Forall2_length _ _ _ Hm) as Hlen. rewrite <- Hlen in Hv.
  pose proof (Forall2_lookup_lr _ _ _ _ _ _ Hm Ha Hv).
  apply Hok; [|done]. by eapply list_elem_of_lookup_2.
Qed.

Lemma eval_value_ok p Γ ρ e v :
  wf e -> typed Γ e -> env_ok p Γ ρ -> eval p ρ e = Some v -> value_ok p (type e) v.
Proof.
  revert Γ ρ v. induction e using Expr_ind'; intros Γ ρ v0 Hwf Ht Hρ Hev;
    pose proof (ty_ok_type _ _ Hwf Ht) as Hty; simpl in Hwf, Ht, Hev; destruct Hwf as [Hn Hc].
  - injection Hev as <-. destruct Hn as [Ht' Hv]. bool_to_prop. unfold is_scalar in *. bool_to_prop.
    split; [simpl; lia|]. apply Forall_singleton. split; [simpl; by rewrite H|]. simpl.
    assert (representable t v = true) by (unfold representable; rewrite H; by apply bool_decide_eq_true).
    destruct p; auto.
  - injection Hev as <-. destruct Hn as [Ht' Hv]. bool_to_prop. unfold is_scalar in *. bool_to_prop.
    split; [simpl; lia|]. apply Forall_singleton. split; [simpl; rewrite H; apply orb_true_r|]. simpl.
    assert (is_int t = false) by (by apply uint_not_int).
    assert (representable t v = true)
      by (unfold representable; rewrite H, H2; by apply bool_decide_eq_true).
    destruct p; auto.
  - injection Hev as <-. destruct Hn as [Ht' Hv]. bool_to_prop. unfold is_scalar in *. bool_to_prop.
    split; [simpl; lia|]. by repeat constructor.
  - injection Hev as <-. split; [done|]. by repeat constructor.
  - inv_res. destruct Ht as [Hb Ht]. destruct (IHe _ _ _ Hc Ht Hρ H) as [Hl Hf].
    pose proof (ty_ok_type _ _ Hc Ht) as [Hbs _].
    apply (mapM_ok _ (scalar_ok p t)) in H0 as [Hl' Hf'].
    + split; [|done]. simpl. lia.
    + rewrite Forall_forall in Hf. intros y z Hy Hz. destruct Hb.
      eapply cast_scalar_ok; [| | |done]; eauto; lia.
  - destruct Ht as [_ Ht]. eapply (env_vars _ _ _ Hρ); eauto.
  - inv_res. destruct Ht as [Hta Htb], Hc as [Hca Hcb], Hn as [Heq _].
    destruct (IHe1 _ _ _ Hca Hta Hρ H) as [Hl Hf].
    rewrite type_eqb_sym in Heq.
    destruct (value_ok_eqb _ _ _ _ Heq (IHe2 _ _ _ Hcb Htb Hρ H0)) as [Hl2 Hf2].
    exact (zip_eval_ok _ _ _ _ _ _ (ty_ok_type _ _ Hca Hta) Hl Hf Hf2 H1).
  - inv_res. destruct (IHe _ _ _ Hc Ht Hρ H) as [Hl Hf].
    pose proof (ty_ok_type _ _ Hc Ht) as [_ Hlanes].
    change (type (Not e)) with (Bool (lanes (type e))).
    apply (mapM_ok _ (scalar_ok p (Bool (lanes (type e))))) in H0 as [Hl' Hf'].
    + split; [|done]. rewrite Bool_lanes by done. lia.
    + intros [z| | |] y _ Hy; try done. injection Hy as <-. apply bool_ok.
  - inv_res. destruct Ht as (Htc & Htt & Htf), Hc as (Hcc & Hct & Hcf), Hn as (Hb & Heq & Hlan).
    pose proof (IHe2 _ _ _ Hct Htt Hρ H0) as [Hlt Hft].
    destruct (value_ok_eqb _ _ _ _ Heq (IHe3 _ _ _ Hcf Htf Hρ H1)) as [Hlf Hff].
    assert (Hsel : forall r, select_lanes x x0 x1 = Some r -> value_ok p (type e2) r).
    { intros r Hr. apply (select_lanes_Forall (scalar_ok p (type e2))) in Hr as [Hlr Hr]; [|done..].
      split; [lia|done]. }
    destruct x as [|y [|y' x]]; [by apply Hsel| |by apply Hsel].
    inv_res. by destruct x.
  - inv_res. destruct Ht as [Hb Ht]. destruct (IHe _ _ _ Hc Ht Hρ H) as [Hl Hf].
    apply (mapM_ok _ (scalar_ok p t)) in H0 as [Hl' Hf'].
    + split; [simpl; lia|done].
    + intros [z| | |] y _ Hy; try done. by eapply (env_mem _ _ _ Hρ).
  - inv_res. destruct Ht as (Htb & Hts & Hl), Hc as [Hcb Hcs], Hn as (Hsc & Hl1 & Heq).
    destruct (IHe1 _ _ _ Hcb Htb Hρ H) as [_ Hfb].
    destruct (value_ok_eqb _ _ _ _ Heq (IHe2 _ _ _ Hcs Hts Hρ H0)) as [_ Hfs].
    repeat case_match; try done. apply Forall_cons in Hfb as [Hb _]. apply Forall_cons in Hfs as [Hs _].
    pose proof (ty_ok_type _ _ Hcb Htb) as [Hbits _].
    apply ramp_lanes_ok in H1 as [Hlr Hfr]; [|lia|done..].
    simpl. apply value_ok_with_lanes; [done|lia|done|done].
  - inv_res. destruct Ht as (Ht & Hl), Hn as (Hsc & Hl1).
    destruct (IHe _ _ _ Hc Ht Hρ H) as [_ Hf].
    repeat case_match; try done. inv_res. apply Forall_cons in Hf as [Hs _].
    pose proof (ty_ok_type _ _ Hc Ht) as [Hbits _].
    simpl. apply value_ok_with_lanes; [done|done|by apply Forall_replicate|].
    by rewrite length_replicate.
  - inv_res. destruct Ht as (Htb & Hint & Hargs). rewrite wf_args in Hc. rewrite typed_args in Hargs.
    unfold eval_call in H1.
    destruct (call_is_intrinsic n ct "likely" || _ || _); [|by eapply (env_fn _ _ _ Hρ)].
    destruct (Hint eq_refl) as (a & Ha & <-). clear Hint.
    refine (last_arg_ok p ρ args x a v0 H0 Ha H1 _).
    intros b w Hb Hw. rewrite Forall_forall in H, Hc, Hargs. eauto.
  - inv_res. destruct Ht as [Htv Htb], Hc as [Hcv Hcb].
    eapply IHe2; [done|done| |done]. apply env_ok_bind; [done|]. eauto.
Qed.

(** Type soundness: a well-formed, well-typed expression that has a value in a
    well-typed environment has one scalar per lane of its type, each of the class
    of that type and within its range (unbounded for the large signed integers
    under [Ideal]). *)
Theorem eval_type_sound p Γ ρ e v :
  wf e -> typed Γ e -> env_ok p Γ ρ -> eval p ρ e = Some v -> value_ok p (type e) v.
Proof. apply eval_value_ok. Qed.

Definition empty_env : env := mkEnv ∅ (fun _ _ _ => None) (fun _ _ _ _ _ => None).

Lemma empty_env_ok p : env_ok p ∅ empty_env.
Proof. constructor; simpl; intros; simplify_map_eq. Qed.

Lemma eval_type_sound_witness :
  value_ok Machine (UInt 8 1) [VInt 44].
Proof.
  change (UInt 8 1) with (type (Bin Add (UIntImm (UInt 8 1) 200) (UIntImm (UInt 8 1) 100))).
  apply (eval_type_sound Machine ∅ empty_env).
  - simpl. unfold in_urange. repeat split; (done || lia).
  - simpl. unfold ty_ok. cbn. unfold uwrap. simpl. repeat split; by vm_compute.
  - apply empty_env_ok.
  - reflexivity.
Defined.
