(* ===== verification/Scope.v ===== *)
(** The symbol table passes carry while they walk the IR: [SmallStack] and [Scope] of
    src/src/Scope.h. *)

From Stdlib Require Import ZArith Lia Bool.
From stdpp Require Import prelude strings gmap.
From S2P Require Import Prelude.

#[local] Open Scope Z_scope.
#[local] Open Scope halide_scope.

(** * SmallStack

    The top is a field of its own; [rest] is the vector below it, its back last. The
    element type has a default value, which [pop] stores over a removed top. *)
Record SmallStack (T : Type) := mkStack { s_top : T; s_rest : list T; s_empty : bool }.
Arguments mkStack {T} _ _ _.
Arguments s_top {T} _.
Arguments s_rest {T} _.
Arguments s_empty {T} _.

Section SmallStackOps.
Context {T : Type} `{Inhabited T}.

Definition stack_new : SmallStack T := mkStack inhabitant [] true.

Definition stack_pop (s : SmallStack T) : SmallStack T :=
  match last (s_rest s) with
  | None => mkStack inhabitant (s_rest s) true
  | Some t => mkStack t (removelast (s_rest s)) (s_empty s)
  end.

Definition stack_push (s : SmallStack T) (t : T) : SmallStack T :=
  if s_empty s then mkStack t (s_rest s) false
  else mkStack t (s_rest s ++ [s_top s]) (s_empty s).

(** The abstract stack, its top first, and the states the operations reach. *)
Definition stack_list (s : SmallStack T) : list T :=
  if s_empty s then [] else s_top s :: rev (s_rest s).
Definition stack_wf (s : SmallStack T) : Prop := s_empty s = true -> s_rest s = [].

Lemma stack_push_list s t : stack_list (stack_push s t) = t :: stack_list s \/ ~ stack_wf s.
Proof.
  unfold stack_list, stack_push, stack_wf. destruct (s_empty s); simpl.
  - destruct (s_rest s); [by left|right]. intros Hn. by specialize (Hn eq_refl).
  - left. by rewrite rev_app_distr.
Qed.

Lemma stack_push_nonempty s t : s_empty (stack_push s t) = false.
Proof. unfold stack_push. by destruct (s_empty s). Qed.

Lemma stack_push_top s t : s_top (stack_push s t) = t.
Proof. unfold stack_push. by destruct (s_empty s). Qed.

Lemma stack_push_wf s t : stack_wf (stack_push s t).
Proof. unfold stack_wf, stack_push. destruct (s_empty s) eqn:E; simpl; congruence. Qed.

Lemma stack_pop_wf s : stack_wf s -> stack_wf (stack_pop s).
Proof.
  unfold stack_wf, stack_pop. intros Hs. destruct (last (s_rest s)) eqn:E; simpl.
  - intros He. by rewrite (Hs He) in E.
  - intros _. by apply last_None.
Qed.

Lemma stack_pop_list s : stack_wf s -> stack_list (stack_pop s) = tail (stack_list s).
Proof.
  unfold stack_list, stack_pop, stack_wf. intros Hs. destruct (s_empty s) eqn:He.
  - by rewrite (Hs eq_refl).
  - destruct (s_rest s) as [|x l _] using rev_ind; [done|].
    rewrite last_snoc. simpl. by rewrite removelast_last, rev_app_distr.
Qed.

(** Pushing and then popping a non-empty stack restores the representation. *)
Lemma stack_pop_push s t : s_empty s = false -> stack_pop (stack_push s t) = s.
Proof.
  intros He. unfold stack_push, stack_pop. rewrite He. simpl.
  rewrite last_snoc, removelast_last. destruct s; simpl in *. by subst.
Qed.

Lemma stack_pop_push_empty s t : stack_wf s -> s_empty s = true ->
  s_empty (stack_pop (stack_push s t)) = true.
Proof. intros Hs He. unfold stack_push, stack_pop. rewrite He. simpl. by rewrite (Hs He). Qed.
End SmallStackOps.

(** * Scope *)

Inductive Scope (T : Type) :=
| mkScope (table : gmap string (SmallStack T)) (containing_scope : option (Scope T)).
Arguments mkScope {T} _ _.

Definition table {T} (s : Scope T) : gmap string (SmallStack T) :=
  match s with mkScope t _ => t end.
Definition containing_scope {T} (s : Scope T) : option (Scope T) :=
  match s with mkScope _ c => c end.

Section ScopeOps.
Context {T : Type} `{Inhabited T}.

Definition scope_new : Scope T := mkScope ∅ None.

Definition set_containing_scope (s : Scope T) (c : option (Scope T)) : Scope T :=
  mkScope (table s) c.

(** The entry of this scope itself: a stack that is not empty. *)
Definition find (s : Scope T) (name : string) : option (SmallStack T) :=
  st ← table s !! name; if s_empty st then None else Some st.

Fixpoint scope_get (s : Scope T) (name : string) : res T :=
  match s with
  | mkScope t c =>
      match (st ← t !! name; if s_empty st then None else Some st) with
      | Some st => Ok (s_top st)
      | None =>
          match c with
          | Some c => scope_get c name
          | None => Err (InternalError "Symbol not found")
          end
      end
  end.

Fixpoint scope_contains (s : Scope T) (name : string) : bool :=
  match s with
  | mkScope t c =>
      match (st ← t !! name; if s_empty st then None else Some st) with
      | Some _ => true
      | None => match c with Some c => scope_contains c name | None => false end
      end
  end.

(** [ref] returns a reference to the top entry; [f] is what the caller does to it. *)
Definition scope_ref (s : Scope T) (name : string) (f : T -> T) : res (Scope T) :=
  match find s name with
  | None => Err (InternalError "Symbol not found")
  | Some st =>
      Ok (mkScope (<[name := mkStack (f (s_top st)) (s_rest st) (s_empty st)]> (table s))
            (containing_scope s))
  end.

(** [table[name]] creates an empty stack when the name is new. *)
Definition scope_push (s : Scope T) (name : string) (value : T) : Scope T :=
  mkScope (<[name := stack_push (default stack_new (table s !! name)) value]> (table s))
    (containing_scope s).

Definition scope_pop (s : Scope T) (name : string) : res (Scope T) :=
  match table s !! name with
  | None => Err (InternalError "Name not in symbol table")
  | Some st =>
      let st' := stack_pop st in
      Ok (mkScope (if s_empty st' then delete name (table s) else <[name := st']> (table s))
            (containing_scope s))
  end.

(** No table holds an empty stack: [pop] erases the entry it empties. *)
Definition scope_wf (s : Scope T) : Prop :=
  forall name st, table s !! name = Some st -> s_empty st = false.

Lemma scope_new_wf : scope_wf scope_new.
Proof. intros name st. simpl. by rewrite lookup_empty. Qed.

Lemma scope_set_containing_wf s c : scope_wf s -> scope_wf (set_containing_scope s c).
Proof. done. Qed.

Lemma scope_push_wf s name value : scope_wf s -> scope_wf (scope_push s name value).
Proof.
  intros Hs n st. simpl. destruct (decide (name = n)) as [->|]; simplify_map_eq; [|by apply Hs].
  intros [= <-]. apply stack_push_nonempty.
Qed.

Lemma scope_pop_wf s name s' : scope_wf s -> scope_pop s name = Ok s' -> scope_wf s'.
Proof.
  intros Hs. unfold scope_pop. destruct (table s !! name) as [st|]; [|done]. intros [= <-] n u. simpl.
  destruct (s_empty (stack_pop st)) eqn:E; destruct (decide (name = n)) as [->|]; simplify_map_eq;
    try by apply Hs.
  - done.
  - by intros [= <-].
Qed.

Lemma scope_get_contains s name : scope_contains s name = true <-> is_ok (scope_get s name) = true.
Proof.
  revert s. fix IH 1. intros [t c]. simpl. destruct (t !! name) as [st|]; simpl.
  - destruct (s_empty st); simpl; [|done]. destruct c as [c|]; [apply IH|done].
  - destruct c as [c|]; [apply IH|done].
Qed.

Lemma scope_get_push s name value n :
  scope_wf s ->
  scope_get (scope_push s name value) n = if decide (name = n) then Ok value else scope_get s n.
Proof.
  intros Hs. destruct s as [t c]. cbn [scope_push scope_get table containing_scope].
  destruct (decide (name = n)) as [->|Hn].
  - rewrite lookup_insert_eq. cbn [mbind option_bind].
    by rewrite stack_push_nonempty, stack_push_top.
  - by rewrite lookup_insert_ne by done.
Qed.

(** Leaving a binding restores the scope exactly. *)
Lemma scope_pop_push s name value : scope_wf s -> scope_pop (scope_push s name value) name = Ok s.
Proof.
  intros Hs. destruct s as [t c]. unfold scope_pop, scope_push. simpl.
  rewrite lookup_insert_eq. f_equal. f_equal.
  destruct (t !! name) as [st|] eqn:E; simpl.
  - rewrite stack_pop_push by (by apply (Hs name)).
    rewrite (Hs name st E). by rewrite insert_insert_eq, insert_id.
  - rewrite delete_insert_id by done. done.
Qed.
End ScopeOps.

(** A scope is a stack of bindings per name: pushing a binding makes that name
    (and no other) refer to it, popping it restores the scope exactly, whatever
    bindings the name had before here or in the containing scopes, and [contains]
    answers exactly whether [get] succeeds. *)
Theorem scope_push_pop {T} `{Inhabited T} (s : Scope T) name value :
  scope_wf s ->
  scope_wf (scope_push s name value) /\
  scope_pop (scope_push s name value) name = Ok s /\
  forall n, scope_get (scope_push s name value) n = (if decide (name = n) then Ok value else scope_get s n) /\
            (scope_contains s n = true <-> is_ok (scope_get s n) = true).
Proof.
  intros Hs. split; [by apply scope_push_wf|]. split; [by apply scope_pop_push|].
  intros n. split; [by apply scope_get_push|]. apply scope_get_contains.
Qed.

Lemma scope_push_pop_witness :
  let s := scope_push (scope_new (T := Z)) "x" 1 in
  scope_wf (scope_push s "x" 2) /\ scope_pop (scope_push s "x" 2) "x" = Ok s /\
  forall n, scope_get (scope_push s "x" 2) n = (if decide ("x" = n) then Ok 2 else scope_get s n) /\
            (scope_contains s n = true <-> is_ok (scope_get s n) = true).
Proof.
  intros s. apply (scope_push_pop s "x" 2). unfold s. apply scope_push_wf, scope_new_wf.
Defined.
