(* ===== verification/Operators.v ===== *)
(** Predicates on constants, constant and cast construction, type matching, and the
    arithmetic operators of the front end: src/src/IROperator.cpp and
    src/src/IROperator.h. *)

From Stdlib Require Import ZArith Lia Bool SpecFloat.
From stdpp Require Import prelude strings gmap.
From S2P Require Import Prelude Types IR Semantics.

#[local] Open Scope Z_scope.
#[local] Open Scope halide_scope.

(** * Recognising constants (IROperator.cpp) *)

Fixpoint is_const (e : Expr) : bool :=
  match e with
  | IntImm _ _ | UIntImm _ _ | FloatImm _ _ | StringImm _ => true
  | Cast _ value => is_const value
  | Ramp base stride _ => is_const base && is_const stride
  | Broadcast value _ => is_const value
  | _ => false
  end.

(** [is_const(e, value)]; a [FloatImm] is compared after converting [value] to [double]. *)
Fixpoint is_const_value (e : Expr) (value : Z) : bool :=
  match e with
  | IntImm _ i => i =? value
  | UIntImm _ i => (0 <=? value) && (i =? uwrap 64 value)
  | FloatImm _ f => float_eqb f (float_of_Z 64 value)
  | Cast _ v => is_const_value v value
  | Broadcast v _ => is_const_value v value
  | _ => false
  end.

Definition is_no_op (s : StmtRef) : bool :=
  match s with
  | None => true
  | Some (Evaluate value) => is_const value
  | Some _ => false
  end.

Fixpoint as_const_int_expr (e : Expr) : option Z :=
  match e with
  | Broadcast value _ => as_const_int_expr value
  | IntImm _ v => Some v
  | _ => None
  end.
Definition as_const_int (e : ExprRef) : option Z := e ← e; as_const_int_expr e.

Fixpoint as_const_uint_expr (e : Expr) : option Z :=
  match e with
  | Broadcast value _ => as_const_uint_expr value
  | UIntImm _ v => Some v
  | _ => None
  end.
Definition as_const_uint (e : ExprRef) : option Z := e ← e; as_const_uint_expr e.

Fixpoint as_const_float_expr (e : Expr) : option spec_float :=
  match e with
  | Broadcast value _ => as_const_float_expr value
  | FloatImm _ f => Some f
  | _ => None
  end.
Definition as_const_float (e : ExprRef) : option spec_float := e ← e; as_const_float_expr e.

(** The loop [for (; val; val >>= 1)]; 64 steps empty a 64-bit register. *)
Fixpoint log2_loop (fuel : nat) (val bits : Z) : option Z :=
  match fuel with
  | O => None
  | S fuel =>
      if val =? 0 then None
      else if val =? 1 then Some bits
      else log2_loop fuel (Z.shiftr val 1) (bits + 1)
  end.

(** The result is the value written to [*bits] when the function returns true. *)
Fixpoint is_const_power_of_two_integer (e : Expr) : option Z :=
  if negb (is_int (type e) || is_uint (type e)) then None
  else
    match e with
    | Broadcast value _ => is_const_power_of_two_integer value
    | Cast _ value => is_const_power_of_two_integer value
    | _ =>
        let val :=
          match as_const_int e with
          | Some i => if i <? 0 then 0 else i
          | None => default 0 (as_const_uint e)
          end in
        if negb (val =? 0) && (Z.land val (val - 1) =? 0) then log2_loop 64 val 0 else None
    end.

Definition float_positive (f : spec_float) : bool := float_ltb (S754_zero false) f.
Definition float_negative (f : spec_float) : bool := float_ltb f (S754_zero false).

Fixpoint is_positive_const (e : Expr) : bool :=
  match e with
  | IntImm _ i => 0 <? i
  | UIntImm _ u => 0 <? u
  | FloatImm _ f => float_positive f
  | Cast _ value => is_positive_const value
  | Ramp base stride _ => is_positive_const base && is_positive_const stride
  | Broadcast value _ => is_positive_const value
  | _ => false
  end.

Fixpoint is_negative_const (e : Expr) : bool :=
  match e with
  | IntImm _ i => i <? 0
  | FloatImm _ f => float_negative f
  | Cast _ value => is_negative_const value
  | Ramp base stride _ => is_negative_const base && is_negative_const stride
  | Broadcast value _ => is_negative_const value
  | _ => false
  end.

(** The two-argument function; the one-argument function passes the type of [e]. *)
Fixpoint is_negative_negatable_const_at (e : Expr) (T : Ty) : bool :=
  match e with
  | IntImm _ i => (i <? 0) && negb (is_min_int64 T i)
  | FloatImm _ f => float_negative f
  | Cast t value => is_negative_negatable_const_at value t
  | Ramp base stride _ =>
      is_negative_negatable_const_at base (type base) && is_negative_const stride
  | Broadcast value _ => is_negative_negatable_const_at value (type value)
  | _ => false
  end.
Definition is_negative_negatable_const (e : Expr) : bool :=
  is_negative_negatable_const_at e (type e).

Fixpoint is_zero (e : Expr) : bool :=
  match e with
  | IntImm _ v | UIntImm _ v => v =? 0
  | FloatImm _ f => float_eqb f (S754_zero false)
  | Cast _ value | Broadcast value _ => is_zero value
  | _ => false
  end.

Fixpoint is_one (e : Expr) : bool :=
  match e with
  | IntImm _ v | UIntImm _ v => v =? 1
  | FloatImm _ f => float_eqb f (float_of_Z 64 1)
  | Cast _ value | Broadcast value _ => is_one value
  | _ => false
  end.

Fixpoint is_two (e : Expr) : bool :=
  match e with
  | IntImm _ v | UIntImm _ v => v =? 2
  | FloatImm _ f => float_eqb f (float_of_Z 64 2)
  | Cast _ value | Broadcast value _ => is_two value
  | _ => false
  end.

(** * Making constants *)

(** The argument of the three overloads of [make_const]. *)
Inductive number := Int64 (z : Z) | UInt64 (z : Z) | Double (f : spec_float).

Definition to_int64 (n : number) : res Z :=
  match n with
  | Int64 z => Ok z
  | UInt64 z => Ok (swrap 64 z)
  | Double f => match float_to_int64 f with Some z => Ok z | None => Err (UB "(int64_t)val") end
  end.
Definition to_uint64 (n : number) : res Z :=
  match n with
  | Int64 z | UInt64 z => Ok (uwrap 64 z)
  | Double f => match float_to_uint64 f with Some z => Ok z | None => Err (UB "(uint64_t)val") end
  end.
Definition to_double (n : number) : spec_float :=
  match n with Int64 z | UInt64 z => float_of_Z 64 z | Double f => f end.

(** [make_const_helper] at a scalar type, and at any type: a vector constant
    broadcasts the constant of the element type, which is scalar. *)
Definition make_const_scalar (t : Ty) (val : number) : res Expr :=
  if is_int t then v ← to_int64 val; IntImm_make t v
  else if is_uint t then v ← to_uint64 val; UIntImm_make t v
  else if is_float t then FloatImm_make t (to_double val)
  else Err (InternalError "Can't make a constant of type").

Definition make_const (t : Ty) (val : number) : res Expr :=
  if is_vector t then v ← make_const_scalar (element_of t) val; Broadcast_make (eref v) (lanes t)
  else make_const_scalar t val.

Definition make_bool (val : bool) (w : Z) : res Expr := make_const (UInt 1 w) (UInt64 (Z.b2z val)).

Definition make_zero (t : Ty) : res Expr :=
  if is_handle t then Call_make t "null_handle" [] PureIntrinsic None 0 None None
  else make_const t (Int64 0).
Definition make_one (t : Ty) : res Expr := make_const t (Int64 1).
Definition make_two (t : Ty) : res Expr := make_const t (Int64 2).
Definition const_true (w : Z) : res Expr := make_one (UInt 1 w).
Definition const_false (w : Z) : res Expr := make_zero (UInt 1 w).

(** [Type::max] and [Type::min] (Type.cpp); a vector limit broadcasts the element's. *)
Definition FLT_MAX : spec_float := S754_finite false 0xffffff 104.
Definition DBL_MAX : spec_float := S754_finite false 0x1fffffffffffff 971.
Definition float_limit (s : bool) (t : Ty) : res Expr :=
  guard! is_float t else "";
  let signed f := if s then SFopp f else f in
  if bits t =? 16 then FloatImm_make t (signed (float_of_Z 64 65504))
  else if bits t =? 32 then FloatImm_make t (signed FLT_MAX)
  else if bits t =? 64 then FloatImm_make t (signed DBL_MAX)
  else Err (InternalError "Unknown float type").

Definition Type_max_scalar (t : Ty) : res Expr :=
  if is_int t then IntImm_make t (max_int (bits t))
  else if is_uint t then UIntImm_make t (max_uint (bits t))
  else float_limit false t.
Definition Type_max (t : Ty) : res Expr :=
  if is_vector t then v ← Type_max_scalar (element_of t); Broadcast_make (eref v) (lanes t)
  else Type_max_scalar t.

Definition Type_min_scalar (t : Ty) : res Expr :=
  if is_int t then IntImm_make t (min_int (bits t))
  else if is_uint t then UIntImm_make t 0
  else float_limit true t.
Definition Type_min (t : Ty) : res Expr :=
  if is_vector t then v ← Type_min_scalar (element_of t); Broadcast_make (eref v) (lanes t)
  else Type_min_scalar t.

(** * Casts *)

(** One call of [cast]; [rec] stands for the recursive calls it makes. *)
Definition cast_body (rec : Ty -> Expr -> res Expr) (t : Ty) (a : Expr) : res Expr :=
  if type_eqb (type a) t then Ok a
  else if is_handle t && negb (is_handle (type a)) then Err (UserError "Can't cast to a handle")
  else if is_handle (type a) && negb (is_handle t) then Err (UserError "Can't cast handle")
  else
    match as_const_int a, as_const_uint a, as_const_float a with
    | Some i, _, _ => make_const t (Int64 i)
    | None, Some u, _ => make_const t (UInt64 u)
    | None, None, Some f => make_const t (Double f)
    | None, None, None =>
        if is_vector t then
          if is_scalar (type a) then v ← rec (element_of t) a; Broadcast_make (eref v) (lanes t)
          else
            match a with
            | Broadcast value l =>
                guard! l =? lanes t else "";
                v ← rec (element_of t) value; Broadcast_make (eref v) (lanes t)
            | _ => Cast_make t a
            end
        else Cast_make t a
    end.

(** The recursive calls are at the element type, which is not a vector, so they
    make none themselves ([cast_unfold]). *)
Definition cast_no_rec (t : Ty) (a : Expr) : res Expr := Err (InternalError "cast: third level").
Definition cast_expr (t : Ty) (a : Expr) : res Expr := cast_body (cast_body cast_no_rec) t a.

Definition cast (t : Ty) (a : ExprRef) : res Expr :=
  match a with
  | None => Err (UserError "cast of undefined Expr")
  | Some a => cast_expr t a
  end.

Fixpoint lossless_cast (t : Ty) (e : Expr) : res ExprRef :=
  if type_eqb t (type e) then Ok (Some e)
  else if can_represent t (type e) then r ← cast t e; Ok (Some r)
  else
    match e with
    | Cast _ value =>
        if can_represent t (type value) then lossless_cast t value else Ok None
    | Broadcast value l =>
        v ← lossless_cast (element_of t) value;
        match v with
        | Some v => r ← Broadcast_make (eref v) l; Ok (Some r)
        | None => Ok None
        end
    | IntImm _ i =>
        if can_represent_int64 t i then r ← make_const t (Int64 i); Ok (Some r) else Ok None
    | UIntImm _ i =>
        if can_represent_uint64 t i then r ← make_const t (UInt64 i); Ok (Some r) else Ok None
    | FloatImm _ f =>
        if can_represent_double t f then r ← make_const t (Double f); Ok (Some r) else Ok None
    | _ => Ok None
    end.

(** The constant printed in the message is built whether or not the test fails. *)
Definition check_representable (dst : Ty) (x : Z) : res unit :=
  if is_handle dst then
    user_assert (can_represent_int64 dst x) "Halide does not support pointer arithmetic"
  else
    _ ← make_const dst (Int64 x);
    user_assert (can_represent_int64 dst x) "implicitly coerced to a type which changes its value".

(** [match_types] widens a scalar operand, then casts; its two halves. *)
Definition match_lanes (a b : Expr) : res (Expr * Expr) :=
  if is_scalar (type a) && is_vector (type b) then
    a' ← Broadcast_make (eref a) (lanes (type b)); Ok (a', b)
  else if is_vector (type a) && is_scalar (type b) then
    b' ← Broadcast_make (eref b) (lanes (type a)); Ok (a, b')
  else
    guard! lanes (type a) =? lanes (type b) else "Can't match types of differing widths";
    Ok (a, b).

Definition match_element_types (a b : Expr) : res (Expr * Expr) :=
  let ta := type a in
  let tb := type b in
  if type_eqb ta tb then Ok (a, b)
  else if negb (is_float ta) && is_float tb then a ← cast tb (eref a); Ok (a, b)
  else if is_float ta && negb (is_float tb) then b ← cast ta (eref b); Ok (a, b)
  else if is_float ta && is_float tb then
    if bits tb <? bits ta then b ← cast ta (eref b); Ok (a, b)
    else a ← cast tb (eref a); Ok (a, b)
  else if is_uint ta && is_uint tb then
    if bits tb <? bits ta then b ← cast ta (eref b); Ok (a, b)
    else a ← cast tb (eref a); Ok (a, b)
  else if negb (is_float ta) && negb (is_float tb) then
    let bits := Z.max (bits ta) (bits tb) in
    let lanes := lanes (type a) in
    a ← cast (Int bits lanes) (eref a);
    b ← cast (Int bits lanes) (eref b);
    Ok (a, b)
  else Err (InternalError "Could not match types").

Definition match_types (a b : Expr) : res (Expr * Expr) :=
  _ ← user_assert (negb (is_handle (type a)) && negb (is_handle (type b)))
        "Can't do arithmetic on opaque pointer types";
  if type_eqb (type a) (type b) then Ok (a, b)
  else '(a, b) ← match_lanes a b; match_element_types a b.

(** * The operators (IROperator.h)

    Every binary operator comes in three forms: two expressions, which are matched,
    and an expression with a C++ [int] on either side, which must be representable. *)
Definition both_defined (msg : string) (a b : ExprRef) : res (Expr * Expr) :=
  match a, b with
  | Some a, Some b => Ok (a, b)
  | _, _ => Err (UserError msg)
  end.

Definition operator_ee (mk : ExprRef -> ExprRef -> res Expr) (nm : string) (a b : ExprRef) : res Expr :=
  '(a, b) ← both_defined (nm +:+ " of undefined Expr") a b;
  '(a, b) ← match_types a b;
  mk (eref a) (eref b).

Definition user_defined (msg : string) (a : ExprRef) : res Expr :=
  match a with Some a => Ok a | None => Err (UserError msg) end.

Definition operator_ei (mk : ExprRef -> ExprRef -> res Expr) (nm : string) (a : ExprRef) (b : Z) : res Expr :=
  a ← user_defined (nm +:+ " of undefined Expr") a;
  _ ← check_representable (type a) b;
  c ← make_const (type a) (Int64 b);
  mk (eref a) (eref c).

Definition operator_ie (mk : ExprRef -> ExprRef -> res Expr) (nm : string) (a : Z) (b : ExprRef) : res Expr :=
  b ← user_defined (nm +:+ " of undefined Expr") b;
  _ ← check_representable (type b) a;
  c ← make_const (type b) (Int64 a);
  mk (eref c) (eref b).

(** The compound assignments: the value assigned to [a]. *)
Definition operator_assign (mk : ExprRef -> ExprRef -> res Expr) (nm : string) (a b : ExprRef) : res Expr :=
  '(a, b) ← both_defined (nm +:+ " of undefined Expr") a b;
  c ← cast (type a) (eref b);
  mk (eref a) (eref c).

(** A C++ [float] operand is the constant [Expr(float)]. *)
Definition expr_of_float (b : spec_float) : res Expr := FloatImm_make (Float 32 1) b.
Definition operator_ef (op : ExprRef -> ExprRef -> res Expr) (a : ExprRef) (b : spec_float) : res Expr :=
  c ← expr_of_float b; op a (eref c).
Definition operator_fe (op : ExprRef -> ExprRef -> res Expr) (a : spec_float) (b : ExprRef) : res Expr :=
  c ← expr_of_float a; op (eref c) b.

Definition operator_add := operator_ee Add_make "operator+".
Definition operator_add_ei := operator_ei Add_make "operator+".
Definition operator_add_ie := operator_ie Add_make "operator+".
Definition operator_add_assign := operator_assign Add_make "operator+=".
Definition operator_sub := operator_ee Sub_make "operator-".
Definition operator_sub_ei := operator_ei Sub_make "operator-".
Definition operator_sub_ie := operator_ie Sub_make "operator-".
Definition operator_neg (a : ExprRef) : res Expr :=
  a ← user_defined "operator- of undefined Expr" a;
  z ← make_zero (type a); Sub_make (eref z) (eref a).
Definition operator_sub_assign := operator_assign Sub_make "operator-=".
Definition operator_mul := operator_ee Mul_make "operator*".
Definition operator_mul_ei := operator_ei Mul_make "operator*".
Definition operator_mul_ie := operator_ie Mul_make "operator*".
Definition operator_mul_assign := operator_assign Mul_make "operator*=".
Definition operator_div := operator_ee Div_make "operator/".
Definition operator_div_assign := operator_assign Div_make "operator/=".
Definition operator_div_ei := operator_ei Div_make "operator/".
Definition operator_div_ie := operator_ie Div_make "operator-".
Definition operator_mod (a b : ExprRef) : res Expr :=
  '(a, b) ← both_defined "operator% of undefined Expr" a b;
  _ ← user_assert (negb (is_zero b)) "operator% with constant 0 modulus";
  '(a, b) ← match_types a b;
  Mod_make (eref a) (eref b).
Definition operator_mod_ei (a : ExprRef) (b : Z) : res Expr :=
  a ← user_defined "operator% of undefined Expr" a;
  _ ← user_assert (negb (b =? 0)) "operator% with constant 0 modulus";
  operator_ei Mod_make "operator%" (eref a) b.
Definition operator_mod_ie (a : Z) (b : ExprRef) : res Expr :=
  b ← user_defined "operator% of undefined Expr" b;
  _ ← user_assert (negb (is_zero b)) "operator% with constant 0 modulus";
  operator_ie Mod_make "operator%" a (eref b).
Definition operator_gt := operator_ee GT_make "operator>".
Definition operator_gt_ei := operator_ei GT_make "operator>".
Definition operator_gt_ie := operator_ie GT_make "operator>".
Definition operator_lt := operator_ee LT_make "operator<".
Definition operator_lt_ei := operator_ei LT_make "operator<".
Definition operator_lt_ie := operator_ie LT_make "operator<".
Definition operator_le := operator_ee LE_make "operator<=".
Definition operator_le_ei := operator_ei LE_make "operator<=".
Definition operator_le_ie := operator_ie LE_make "operator<=".
Definition operator_ge := operator_ee GE_make "operator>=".
Definition operator_ge_ei := operator_ei GE_make "operator>=".
Definition operator_ge_ie := operator_ie GE_make "operator>=".
Definition operator_eq := operator_ee EQ_make "operator==".
Definition operator_eq_ei := operator_ei EQ_make "operator==".
Definition operator_eq_ie := operator_ie EQ_make "operator==".
Definition operator_ne := operator_ee NE_make "operator!=".
Definition operator_ne_ei := operator_ei NE_make "operator!=".
Definition operator_ne_ie := operator_ie NE_make "operator!=".
Definition max := operator_ee Max_make "max".
Definition max_ei := operator_ei Max_make "max".
Definition max_ie := operator_ie Max_make "max".
Definition min := operator_ee Min_make "min".
Definition min_ei := operator_ei Min_make "max".
Definition min_ie := operator_ie Min_make "max".

(** The logical operators do not test for undefined operands before matching them. *)
Definition deref (a : ExprRef) : res Expr :=
  match a with Some a => Ok a | None => Err (UB "null Expr") end.
Definition operator_and (a b : ExprRef) : res Expr :=
  a ← deref a; b ← deref b;
  '(a, b) ← match_types a b; And_make (eref a) (eref b).
Definition operator_or (a b : ExprRef) : res Expr :=
  a ← deref a; b ← deref b;
  '(a, b) ← match_types a b; Or_make (eref a) (eref b).
Definition operator_and_bool (a : ExprRef) (b : bool) : res Expr :=
  a ← defined "operator&& of undefined Expr" a;
  guard! is_bool (type a) else "operator&& of Expr of non-bool type";
  if b then Ok a else make_zero (type a).
Definition operator_or_bool (a : ExprRef) (b : bool) : res Expr :=
  a ← defined "operator|| of undefined Expr" a;
  guard! is_bool (type a) else "operator|| of Expr of non-bool type";
  if b then make_one (type a) else Ok a.
Definition operator_not (a : ExprRef) : res Expr := Not_make a.

Definition clamp (a min_val max_val : ExprRef) : res Expr :=
  match a, min_val, max_val with
  | Some a, Some min_val, Some max_val =>
      min_val ← cast (type a) (eref min_val);
      max_val ← cast (type a) (eref max_val);
      m ← Min_make (eref a) (eref max_val);
      Max_make (eref m) (eref min_val)
  | _, _, _ => Err (UserError "clamp of undefined Expr")
  end.

(** A [PureIntrinsic] or [PureExtern] call with no function, parameter or image. *)
Definition pure_intrinsic (t : Ty) (name : string) (args : list Expr) : res Expr :=
  Call_make t name (eref <$> args) PureIntrinsic None 0 None None.
Definition pure_extern (t : Ty) (name : string) (args : list Expr) : res Expr :=
  Call_make t name (eref <$> args) PureExtern None 0 None None.

Definition abs (a : ExprRef) : res Expr :=
  a ← user_defined "abs of undefined Expr" a;
  let t := type a in
  if is_uint t then Ok a
  else pure_intrinsic (with_code t (if is_int t then halide_type_uint else code t)) "abs" [a].

Definition absd (a b : ExprRef) : res Expr :=
  '(a, b) ← both_defined "absd of undefined Expr" a b;
  '(a, b) ← match_types a b;
  let t := type a in
  if is_float t then d ← operator_sub (eref a) (eref b); abs (eref d)
  else pure_intrinsic (with_code t (if is_int t then halide_type_uint else code t)) "absd" [a; b].

Definition select (condition true_value false_value : ExprRef) : res Expr :=
  condition ← (if as_const_int condition then c ← cast (Bool 1) condition; Ok (eref c)
               else Ok condition);
  true_value ← (if as_const_int true_value then
                  f ← deref false_value; t ← cast (type f) true_value; Ok (eref t)
                else Ok true_value);
  false_value ← (if as_const_int false_value then
                   t ← deref true_value; f ← cast (type t) false_value; Ok (eref f)
                 else Ok false_value);
  c ← deref condition;
  _ ← user_assert (is_bool (type c)) "The first argument to a select must be a boolean";
  t ← deref true_value;
  f ← deref false_value;
  _ ← user_assert (type_eqb (type t) (type f))
        "The second and third arguments to a select do not have a matching type";
  Select_make (eref c) (eref t) (eref f).

(** The multi-way overloads nest: [select(c1, v1, ..., cn, vn, default)]. *)
Fixpoint select_multi (cases : list (ExprRef * ExprRef)) (default_val : ExprRef) : res Expr :=
  match cases with
  | [] => deref default_val
  | [(c, v)] => select c v default_val
  | (c, v) :: rest => r ← select_multi rest default_val; select c v (eref r)
  end.

Definition reinterpret (t : Ty) (e : ExprRef) : res Expr :=
  e ← user_defined "reinterpret of undefined Expr" e;
  _ ← user_assert (bits (type e) * lanes (type e) =? bits t * lanes t) "Reinterpret cast";
  pure_intrinsic t "reinterpret" [e].

Definition bitwise (name msg : string) (x y : ExprRef) : res Expr :=
  '(x, y) ← both_defined (msg +:+ " of undefined Expr") x y;
  _ ← user_assert (is_int (type x) || is_uint (type x)) "The first argument must be an integer";
  _ ← user_assert (is_int (type y) || is_uint (type y)) "The second argument must be an integer";
  y ← (if negb (bits (type y) =? bits (type x))
       then cast (with_bits (type y) (bits (type x))) (eref y) else Ok y);
  y ← (if type_neqb (type y) (type x) then reinterpret (type x) (eref y) else Ok y);
  pure_intrinsic (type x) name [x; y].
Definition operator_bitand := bitwise "bitwise_and" "bitwise and".
Definition operator_bitor := bitwise "bitwise_or" "bitwise or".
Definition operator_bitxor := bitwise "bitwise_xor" "bitwise xor".
Definition operator_bitnot (x : ExprRef) : res Expr :=
  x ← user_defined "bitwise not of undefined Expr" x;
  _ ← user_assert (is_int (type x) || is_uint (type x)) "Argument to bitwise not must be an integer";
  pure_intrinsic (type x) "bitwise_not" [x].

Definition shift (name msg : string) (x y : ExprRef) : res Expr :=
  '(x, y) ← both_defined (msg +:+ " of undefined Expr") x y;
  _ ← user_assert (negb (is_float (type x))) "First argument to shift is a float";
  _ ← user_assert (negb (is_float (type y))) "Second argument to shift is a float";
  '(x, y) ← match_types x y;
  pure_intrinsic (type x) name [x; y].
Definition operator_shl := shift "shift_left" "shift left".
Definition operator_shr := shift "shift_right" "shift right".
(** With a C++ [int] on either side. *)
Definition shift_ei (op : ExprRef -> ExprRef -> res Expr) (x : ExprRef) (y : Z) : res Expr :=
  x ← deref x;
  _ ← check_representable (type x) y;
  c ← make_const (type x) (Int64 y);
  op (eref x) (eref c).
Definition shift_ie (op : ExprRef -> ExprRef -> res Expr) (x : Z) (y : ExprRef) : res Expr :=
  y ← deref y;
  _ ← check_representable (type y) x;
  c ← make_const (type y) (Int64 x);
  op (eref c) (eref y).
Definition operator_shl_ei := shift_ei operator_shl.
Definition operator_shl_ie := shift_ie operator_shl.
Definition operator_shr_ei := shift_ei operator_shr.
Definition operator_shr_ie := shift_ie operator_shr.

(** [floor]; [ceil], [round] and [trunc] follow the same pattern with their own
    names. *)
Definition floor_like (name : string) (x : ExprRef) : res Expr :=
  x ← user_defined (name +:+ " of undefined Expr") x;
  if type_eqb (element_of (type x)) (Float 64 1) then pure_extern (type x) (name +:+ "_f64") [x]
  else if type_eqb (element_of (type x)) (Float 16 1) then
    pure_extern (Float 16 1) (name +:+ "_f16") [x]
  else
    let t := Float 32 (lanes (type x)) in
    c ← cast t (eref x); pure_extern t (name +:+ "_f32") [c].
Definition floor := floor_like "floor".

Definition is_nan (x : ExprRef) : res Expr :=
  x ← user_defined "is_nan of undefined Expr" x;
  _ ← user_assert (is_float (type x)) "is_nan only works for float";
  let t := Bool (lanes (type x)) in
  if type_eqb (element_of (type x)) (Float 64 1) then pure_extern t "is_nan_f64" [x]
  else if type_eqb (element_of (type x)) (Float 64 1) then pure_extern t "is_nan_f16" [x]
  else c ← cast (Float 32 (lanes (type x))) (eref x); pure_extern t "is_nan_f32" [c].

Definition lerp (zero_val one_val weight : ExprRef) : res Expr :=
  zero_val ← user_defined "lerp with undefined zero value" zero_val;
  one_val ← user_defined "lerp with undefined one value" one_val;
  weight ← user_defined "lerp with undefined weight" weight;
  zero_val ← (if as_const_int (eref zero_val) then cast (type one_val) (eref zero_val)
              else Ok zero_val);
  one_val ← (if as_const_int (eref one_val) then cast (type zero_val) (eref one_val)
             else Ok one_val);
  _ ← user_assert (type_eqb (type zero_val) (type one_val)) "Can't lerp between different types";
  _ ← user_assert (is_uint (type weight) || is_float (type weight))
        "A lerp weight must be an unsigned integer or a float";
  _ ← user_assert (is_float (type zero_val) || (lanes (type zero_val) <=? 32))
        "Lerping between 64-bit integers is not supported";
  _ ← (if negb (is_float (type zero_val)) then
         match as_const_float (eref weight) with
         | Some w => user_assert (float_leb (S754_zero false) w && float_leb w (float_of_Z 64 1))
                       "Floating-point weight for lerp is not in the range [0.0, 1.0]"
         | None => Ok tt
         end
       else Ok tt);
  pure_intrinsic (type zero_val) "lerp" [zero_val; one_val; weight].

Definition popcount (x : ExprRef) : res Expr :=
  x ← user_defined "popcount of undefined Expr" x; pure_intrinsic (type x) "popcount" [x].
Definition count_leading_zeros (x : ExprRef) : res Expr :=
  x ← user_defined "count leading zeros of undefined Expr" x;
  pure_intrinsic (type x) "count_leading_zeros" [x].
Definition count_trailing_zeros (x : ExprRef) : res Expr :=
  x ← user_defined "count trailing zeros of undefined Expr" x;
  pure_intrinsic (type x) "count_trailing_zeros" [x].

(** [div_round_to_zero] and [mod_round_to_zero]: unsigned operands use the plain
    operator. *)
Definition round_to_zero (name : string) (op : ExprRef -> ExprRef -> res Expr) (x y : ExprRef) : res Expr :=
  x ← user_defined (name +:+ " of undefined dividend") x;
  y ← user_defined (name +:+ " of undefined divisor") y;
  '(x, y) ← match_types x y;
  if is_uint (type x) then op (eref x) (eref y)
  else
    _ ← user_assert (is_int (type x)) "First argument is not an integer";
    _ ← user_assert (is_int (type y)) "Second argument is not an integer";
    pure_intrinsic (type x) name [x; y].
Definition div_round_to_zero := round_to_zero "div_round_to_zero" operator_div.
Definition mod_round_to_zero := round_to_zero "mod_round_to_zero" operator_mod.

Definition likely (e : ExprRef) : res Expr := e ← deref e; pure_intrinsic (type e) "likely" [e].
Definition likely_if_innermost (e : ExprRef) : res Expr :=
  e ← deref e; pure_intrinsic (type e) "likely_if_innermost" [e].

(** * Powers and conjunctions (IROperator.cpp) *)

(** Each call halves the exponent after at most one change of sign, so 65 levels
    suffice for an [int64_t] ([raise_fuel]). *)
Fixpoint raise_to_integer_power_fuel (fuel : nat) (e : Expr) (p : Z) : res Expr :=
  match fuel with
  | O => Err (InternalError "raise_to_integer_power: out of fuel")
  | S fuel =>
      if p =? 0 then make_one (type e)
      else if p =? 1 then Ok e
      else if p <? 0 then
        if p =? - 2 ^ 63 then Err (UB "-p overflows int64_t")
        else
          one ← make_one (type e);
          y ← raise_to_integer_power_fuel fuel e (- p);
          operator_div (eref one) (eref y)
      else
        y ← raise_to_integer_power_fuel fuel e (Z.shiftr p 1);
        yy ← operator_mul (eref y) (eref y);
        if negb (Z.land p 1 =? 0) then operator_mul (eref yy) (eref e) else Ok yy
  end.
Definition raise_to_integer_power (e : Expr) (p : Z) : res Expr :=
  raise_to_integer_power_fuel 65 e p.

Definition pow (x y : ExprRef) : res Expr :=
  '(x, y) ← both_defined "pow of undefined Expr" x y;
  match as_const_int (eref y) with
  | Some i => raise_to_integer_power x i
  | None =>
      if type_eqb (type x) (Float 64 1) then
        y ← cast (Float 64 1) (eref y); pure_extern (Float 64 1) "pow_f64" [x; y]
      else if type_eqb (type x) (Float 16 1) then
        y ← cast (Float 16 1) (eref y); pure_extern (Float 16 1) "pow_f16" [x; y]
      else
        x ← cast (Float 32 1) (eref x);
        y ← cast (Float 32 1) (eref y);
        pure_extern (Float 32 1) "pow_f32" [x; y]
  end.

(** The conjuncts appended to [result]. *)
Fixpoint split_into_ands_expr (cond : Expr) (result : list Expr) : res (list Expr) :=
  guard! is_bool (type cond) else "Should be a boolean condition";
  match cond with
  | Bin And a b => result ← split_into_ands_expr a result; split_into_ands_expr b result
  | _ => Ok (if is_one cond then result else result ++ [cond])
  end.
Definition split_into_ands (cond : ExprRef) (result : list Expr) : res (list Expr) :=
  match cond with None => Ok result | Some c => split_into_ands_expr c result end.

(** * Constants have the value they are made from *)

(** Integer types of at most 64 bits, and among them the types constants exist for. *)
Definition int_like (t : Ty) : Prop :=
  is_int t || is_uint t = true /\ 0 < bits t <= 64 /\ 0 < lanes t < 65536.
Definition std_int (t : Ty) : Prop :=
  (is_int t && int_width (bits t)) || (is_uint t && uint_width (bits t)) = true
  /\ 0 < lanes t < 65536 /\ handle_type t = None.

Lemma std_int_width t : std_int t ->
  (is_int t = true /\ int_width (bits t) = true) \/ (is_uint t = true /\ uint_width (bits t) = true).
Proof. intros [H _]. bool_to_prop. destruct H; bool_to_prop; auto. Qed.

Lemma std_int_like t : std_int t -> int_like t.
Proof.
  intros H. pose proof (std_int_width _ H) as Hw. destruct H as (_ & Hl & _).
  destruct Hw as [[H1 H2]|[H1 H2]]; (split; [by rewrite H1, ?orb_true_r|]); split; try done;
    eauto using int_width_range, uint_width_range.
Qed.

Lemma int_like_bits t : int_like t -> 0 < bits t <= 64.
Proof. by intros (_ & ? & _). Qed.
Lemma std_int_bits t : std_int t -> 0 < bits t <= 64.
Proof. intros. by apply int_like_bits, std_int_like. Qed.

Lemma int_like_class t : int_like t ->
  is_int t || is_uint t = true /\ is_float t = false /\ is_handle t = false.
Proof.
  intros [H _]. auto using int_or_uint_not_float, int_or_uint_not_handle.
Qed.
Lemma std_int_class t : std_int t ->
  is_int t || is_uint t = true /\ is_float t = false /\ is_handle t = false.
Proof. intros. by apply int_like_class, std_int_like. Qed.

Lemma std_int_ty_ok t : std_int t -> ty_ok t.
Proof. intros H. split; [by apply std_int_bits|]. destruct H as (_ & ? & _). lia. Qed.

Lemma small_bits b : 0 < b <= 64 -> uwrap 8 b = b.
Proof. intros. apply uwrap_id. unfold in_urange. lia. Qed.
Lemma small_lanes l : 0 <= l < 65536 -> uwrap 16 l = l.
Proof. intros. by apply uwrap_id. Qed.

Lemma element_of_fields t : 0 < bits t <= 64 ->
  code (element_of t) = code t /\ bits (element_of t) = bits t /\ lanes (element_of t) = 1.
Proof. intros. cbn. by rewrite small_bits. Qed.

Lemma std_int_element t : std_int t -> std_int (element_of t).
Proof.
  intros H. pose proof (std_int_bits _ H) as Hb. destruct H as (H & _ & _).
  destruct (element_of_fields t Hb) as (Hc & Hb' & Hl).
  unfold std_int, is_int, is_uint in *. rewrite Hc, Hb', Hl. repeat split; (done || lia).
Qed.

Lemma element_of_scalar t : std_int t -> is_vector t = false -> element_of t = t.
Proof.
  intros H Hv. pose proof (std_int_bits _ H). destruct H as (_ & _ & Hh).
  unfold is_vector in Hv. bool_to_prop. destruct t as [c b l h]. simpl in *. subst.
  unfold element_of, Type_make. simpl. by rewrite small_bits.
Qed.

Lemma with_lanes_element t : std_int t -> with_lanes (element_of t) (lanes t) = t.
Proof.
  intros H. pose proof (std_int_bits _ H). destruct H as (_ & Hl & Hh).
  destruct t as [c b l h]. simpl in *. subst.
  unfold with_lanes, element_of, Type_make. simpl. rewrite !(small_bits b) by done.
  by rewrite small_lanes by lia.
Qed.

(** The constant of type [t] every lane of which is [v]. *)
Definition const_node (t : Ty) (v : Z) : Expr :=
  let s := if is_int t then IntImm (element_of t) v else UIntImm (element_of t) v in
  if is_vector t then Broadcast s (lanes t) else s.

Lemma wrap_type_fields t u z : code t = code u -> bits t = bits u -> wrap_type t z = wrap_type u z.
Proof. unfold wrap_type, is_int. by intros -> ->. Qed.

Lemma make_const_scalar_int t n z : std_int t -> is_vector t = false ->
  n = Int64 z \/ n = UInt64 z ->
  make_const_scalar t n = Ok (if is_int t then IntImm t (wrap_type t z) else UIntImm t (wrap_type t z)).
Proof.
  intros Ht Hv Hn. pose proof (std_int_bits _ Ht) as Hb.
  destruct (std_int_class _ Ht) as (Hc & _). destruct Ht as (Hw & _ & _).
  assert (Hs : is_scalar t = true) by (unfold is_vector in Hv; by apply negb_false_iff).
  unfold make_const_scalar, wrap_type. destruct (is_int t) eqn:Hi.
  - assert (is_uint t = false) by (by apply int_not_uint).
    rewrite H, orb_false_r in Hw. simpl in Hw.
    destruct Hn as [-> | ->]; simpl; rewrite IntImm_make_spec by done; [done|].
    by rewrite swrap_swrap by lia.
  - simpl in Hc, Hw. rewrite Hc in *. simpl in Hw.
    destruct Hn as [-> | ->]; simpl; rewrite UIntImm_make_spec by done;
      by rewrite uwrap_uwrap by lia.
Qed.

Lemma make_const_int t n z : std_int t -> n = Int64 z \/ n = UInt64 z ->
  make_const t n = Ok (const_node t (wrap_type t z)).
Proof.
  intros Ht Hn. unfold make_const, const_node. destruct (is_vector t) eqn:Hv.
  - pose proof (std_int_bits _ Ht) as Hb.
    destruct (element_of_fields t Hb) as (Hc & Hb' & Hl).
    rewrite (make_const_scalar_int _ _ z) by
      (by apply std_int_element || (unfold is_vector; by rewrite Hl) || done).
    rewrite (wrap_type_fields _ t) by done.
    assert (is_int (element_of t) = is_int t) as -> by (unfold is_int; by rewrite Hc).
    unfold Broadcast_make, internal_assert. simpl. unfold is_vector in Hv.
    by destruct (is_int t); simpl; rewrite Hv.
  - rewrite (make_const_scalar_int _ _ z) by done. by rewrite element_of_scalar by done.
Qed.

Lemma const_node_type t v : std_int t -> type (const_node t v) = t.
Proof.
  intros H. unfold const_node. destruct (is_vector t) eqn:Hv.
  - destruct (is_int t); simpl; by apply with_lanes_element.
  - destruct (is_int t); simpl; by apply element_of_scalar.
Qed.

Lemma const_node_typed Γ t v : std_int t -> typed Γ (const_node t v).
Proof.
  intros H. pose proof (std_int_ty_ok _ (std_int_element _ H)) as He. pose proof (std_int_ty_ok _ H) as [_ Hl].
  unfold const_node. destruct (is_vector t), (is_int t); simpl; auto.
Qed.

Lemma const_node_eval p ρ t v : std_int t ->
  eval p ρ (const_node t v) = Some (replicate (Z.to_nat (lanes t)) (VInt v)).
Proof.
  intros H. unfold const_node, is_vector. destruct (Z.eqb_spec (lanes t) 1) as [->|].
  - by destruct (is_int t).
  - by destruct (is_int t).
Qed.

Lemma const_node_wf t v : std_int t -> representable t v = true -> wf (const_node t v).
Proof.
  intros H Hr. pose proof (std_int_bits _ H) as Hb.
  destruct (element_of_fields t Hb) as (Hc & Hb' & Hl).
  destruct (std_int_class _ H) as (Hcl & _). destruct H as (Hw & _ & _).
  assert (Hi : is_int (element_of t) = is_int t) by (unfold is_int; by rewrite Hc).
  assert (Hu : is_uint (element_of t) = is_uint t) by (unfold is_uint; by rewrite Hc).
  assert (Hs : is_scalar (element_of t) = true) by (unfold is_scalar; by rewrite Hl).
  unfold representable in Hr.
  assert (wf (if is_int t then IntImm (element_of t) v else UIntImm (element_of t) v)).
  { destruct (is_int t) eqn:Hit.
    - assert (is_uint t = false) by (by apply int_not_uint).
      rewrite H, orb_false_r in Hw. simpl in Hw. cbn [wf wf_node]. rewrite Hi, Hs, Hb', Hw. bool_to_prop. done.
    - simpl in Hcl. rewrite Hcl in *. simpl in Hw. cbn [wf wf_node]. rewrite Hu, Hs, Hb', Hw.
      by bool_to_prop. }
  unfold const_node. destruct (is_vector t) eqn:Hv; [|done].
  split; [|done]. split.
  - by destruct (is_int t).
  - unfold is_vector in Hv. by bool_to_prop.
Qed.

(** * Casts have the wrapped value *)

Lemma cast_body_scalar r1 r2 t a : is_vector t = false -> cast_body r1 t a = cast_body r2 t a.
Proof. intros H. unfold cast_body. by rewrite H. Qed.

Lemma cast_body_ext r1 r2 t a : (forall b, r1 (element_of t) b = r2 (element_of t) b) ->
  cast_body r1 t a = cast_body r2 t a.
Proof. intros H. unfold cast_body. rewrite (H a). destruct a; try done. by rewrite H. Qed.

(** The two levels [cast_expr] provides are all the recursion there is. *)
Lemma cast_unfold t a : cast_expr t a = cast_body cast_expr t a.
Proof. apply cast_body_ext. intros b. by apply cast_body_scalar. Qed.

Lemma as_const_int_eval p ρ e i v :
  as_const_int_expr e = Some i -> eval p ρ e = Some v -> exists n, v = replicate n (VInt i).
Proof.
  revert v. induction e using Expr_ind'; intros v0 Hc He; simpl in *; try done.
  - simplify_eq. by exists 1%nat.
  - inv_res. repeat case_match; try done. simplify_eq.
    destruct (IHe _ Hc H) as [n Hn]. exists (Z.to_nat l). f_equal.
    destruct n as [|[|n]]; simplify_eq/=; done.
Qed.

Lemma as_const_uint_eval p ρ e i v :
  as_const_uint_expr e = Some i -> eval p ρ e = Some v -> exists n, v = replicate n (VInt i).
Proof.
  revert v. induction e using Expr_ind'; intros v0 Hc He; simpl in *; try done.
  - simplify_eq. by exists 1%nat.
  - inv_res. repeat case_match; try done. simplify_eq.
    destruct (IHe _ Hc H) as [n Hn]. exists (Z.to_nat l). f_equal.
    destruct n as [|[|n]]; simplify_eq/=; done.
Qed.

Lemma as_const_float_type e f : wf e -> as_const_float_expr e = Some f -> is_float (type e) = true.
Proof.
  induction e using Expr_ind'; intros Hwf Hc; simpl in *; try done.
  - destruct Hwf as [[H _] _]. by bool_to_prop.
  - destruct Hwf as [_ Hwf]. exact (IHe Hwf Hc).
Qed.

Lemma value_ints t v : is_int t || is_uint t = true -> value_ok Machine t v ->
  exists zs, v = VInt <$> zs /\ Forall (fun z => representable t z = true) zs
             /\ Z.of_nat (length zs) = lanes t.
Proof.
  intros Ht [Hl Hf]. rewrite <- Hl. clear Hl. induction Hf as [|s v Hs Hf IH].
  - by exists [].
  - destruct IH as (zs & -> & Hzs & _). destruct s as [z|f|s|z]; simpl in Hs.
    + destruct Hs. exists (z :: zs). simpl. split; [done|]. split; [by constructor|].
      by rewrite length_fmap.
    + by rewrite (int_or_uint_not_float _ Ht) in Hs.
    + by rewrite (int_or_uint_not_handle _ Ht) in Hs.
    + by rewrite (int_or_uint_not_handle _ Ht) in Hs.
Qed.

(** The lanes [zs] converted to the type [t]; a single lane is spread over all the
    lanes of [t]. *)
Definition coerce (t : Ty) (zs : list Z) : value :=
  match zs with
  | [z] => replicate (Z.to_nat (lanes t)) (VInt (wrap_type t z))
  | _ => (fun z => VInt (wrap_type t z)) <$> zs
  end.

Lemma coerce_lanes t zs : Z.of_nat (length zs) = lanes t ->
  coerce t zs = (fun z => VInt (wrap_type t z)) <$> zs.
Proof. intros H. unfold coerce. destruct zs as [|z [|z' zs]]; try done. simpl in *. by rewrite <- H. Qed.

Lemma coerce_replicate t n i :
  (0 < n)%nat -> n = 1%nat \/ Z.of_nat n = lanes t ->
  coerce t (replicate n i) = replicate (Z.to_nat (lanes t)) (VInt (wrap_type t i)).
Proof.
  intros Hn [-> | H]; [done|]. rewrite coerce_lanes by (by rewrite length_replicate).
  rewrite fmap_replicate, <- H. by rewrite Nat2Z.id.
Qed.

Lemma coerce_same t u zs :
  code t = code u -> bits t = bits u -> lanes t = lanes u ->
  Forall (fun z => representable t z = true) zs -> Z.of_nat (length zs) = lanes t ->
  coerce u zs = VInt <$> zs.
Proof.
  intros Hc Hb Hl Hf Hlen. rewrite coerce_lanes by congruence.
  clear Hlen. induction Hf as [|z zs Hz Hf IH]; [done|].
  rewrite !fmap_cons, <- (wrap_type_fields t u), representable_wrap by done. by f_equal.
Qed.

Lemma mapM_cast_ints src t zs : is_int t || is_uint t = true ->
  mapM (cast_scalar Machine src t) (VInt <$> zs) = Some ((fun z => VInt (wrap_type t z)) <$> zs).
Proof.
  intros Ht. induction zs as [|z zs IH]; [done|]. rewrite !fmap_cons. cbn [mapM].
  cbn [cast_scalar cast_int]. rewrite Ht. cbn [mbind option_bind]. by rewrite IH.
Qed.

Lemma replicate_VInt n i zs : VInt <$> zs = replicate n (VInt i) -> zs = replicate n i.
Proof.
  revert zs. induction n as [|n IH]; intros [|z zs] H; simplify_eq/=; [done|]. f_equal. by apply IH.
Qed.

Section CastSound.
Context (Γ : gmap string Ty) (ρ : env).

(** An integer expression with the lanes [zs]. *)
Record int_expr (a : Expr) (zs : list Z) : Prop := {
  ie_wf : wf a;
  ie_typed : typed Γ a;
  ie_std : int_like (type a);
  ie_eval : eval Machine ρ a = Some (VInt <$> zs);
  ie_range : Forall (fun z => representable (type a) z = true) zs;
  ie_lanes : Z.of_nat (length zs) = lanes (type a)
}.

Lemma int_expr_intro a va : wf a -> typed Γ a -> env_ok Machine Γ ρ -> int_like (type a) ->
  eval Machine ρ a = Some va -> exists zs, va = VInt <$> zs /\ int_expr a zs.
Proof.
  intros Hwf Ht Hρ Hs He. pose proof (eval_value_ok Machine Γ ρ a va Hwf Ht Hρ He) as Hok.
  destruct (value_ints _ _ (proj1 (int_like_class _ Hs)) Hok) as (zs & -> & Hr & Hl).
  exists zs. split; [done|]. constructor; eauto.
Qed.

(** [e] has type [t] and the lanes [v]. *)
Record casted (t : Ty) (v : value) (e : Expr) : Prop := {
  casted_type : type_eqb (type e) t = true;
  casted_wf : wf e;
  casted_typed : typed Γ e;
  casted_eval : eval Machine ρ e = Some v
}.

Lemma casted_const t z : std_int t ->
  casted t (replicate (Z.to_nat (lanes t)) (VInt (wrap_type t z))) (const_node t (wrap_type t z)).
Proof.
  intros Ht. constructor.
  - rewrite const_node_type by done. apply type_eqb_refl.
  - apply const_node_wf; [done|]. pose proof (std_int_bits _ Ht).
    apply wrap_representable; [lia|]. apply std_int_class, Ht.
  - by apply const_node_typed.
  - by apply const_node_eval.
Qed.

Lemma casted_Cast t a zs : std_int t -> int_expr a zs -> lanes t = lanes (type a) ->
  casted t (coerce t zs) (Cast t a).
Proof.
  intros Ht [Hwf Hty Hs He Hr Hl] Hlan. constructor.
  - apply type_eqb_refl.
  - by split.
  - split; [by apply std_int_ty_ok|done].
  - simpl. rewrite He. cbn [mbind option_bind].
    rewrite mapM_cast_ints by apply std_int_class, Ht. by rewrite coerce_lanes by congruence.
Qed.

Lemma casted_Broadcast t w e : std_int t -> is_vector t = true ->
  casted (element_of t) [w] e ->
  Broadcast_make (eref e) (lanes t) = Ok (Broadcast e (lanes t)) /\
  casted t (replicate (Z.to_nat (lanes t)) w) (Broadcast e (lanes t)).
Proof.
  intros Ht Hv [Hty Hwf Htd He]. pose proof (std_int_bits _ Ht) as Hb.
  destruct (element_of_fields t Hb) as (Hc & Hb' & Hl).
  apply type_eqb_fields in Hty as (Hct & Hbt & Hlt).
  assert (Hs : is_scalar (type e) = true) by (unfold is_scalar; by rewrite Hlt, Hl).
  unfold is_vector in Hv. split; [|constructor].
  - unfold Broadcast_make, internal_assert. simpl. by rewrite Hs, Hv.
  - change (type (Broadcast e (lanes t))) with (with_lanes (type e) (lanes t)).
    destruct (std_int_class _ Ht) as (_ & _ & Hh). destruct Ht as (_ & Hlan & _).
    rewrite type_eqb_sym. apply type_eqb_numeric; [done|]. cbn.
    rewrite Hct, Hbt, Hc, Hb', small_bits, small_lanes by lia. done.
  - split; [|done]. split; [done|]. by bool_to_prop.
  - split; [done|]. destruct Ht as (_ & ? & _). lia.
  - simpl. by rewrite He.
Qed.

(** The tests before the vector case: the type is already right, or the operand is
    a constant. *)
Lemma cast_body_head rec t a zs :
  std_int t -> int_expr a zs -> lanes (type a) = 1 \/ lanes t = lanes (type a) ->
  (exists e, cast_body rec t a = Ok e /\ casted t (coerce t zs) e) \/
  (cast_body rec t a =
     if is_vector t then
       if is_scalar (type a) then v ← rec (element_of t) a; Broadcast_make (eref v) (lanes t)
       else match a with
            | Broadcast value l =>
                guard! l =? lanes t else "";
                v ← rec (element_of t) value; Broadcast_make (eref v) (lanes t)
            | _ => Cast_make t a
            end
     else Cast_make t a).
Proof.
  intros Ht [Hwf Hty Hs He Hr Hl] Hlan. unfold cast_body.
  destruct (type_eqb (type a) t) eqn:Heq.
  { left. exists a. split; [done|]. apply type_eqb_fields in Heq as Hf.
    destruct Hf as (Hc & Hb & Hl').
    constructor; [done..|]. rewrite He. f_equal. symmetry. by apply (coerce_same (type a)). }
  destruct (std_int_class _ Ht) as (_ & _ & ->), (int_like_class _ Hs) as (_ & Hfl & ->).
  cbn [andb negb]. assert (Hpos : (0 < length zs)%nat) by (destruct Hs as (_ & _ & ?); lia).
  assert (Hconst : forall n i, VInt <$> zs = replicate n (VInt i) ->
    casted t (coerce t zs) (const_node t (wrap_type t i))).
  { intros n i Hrep. apply replicate_VInt in Hrep as ->. rewrite length_replicate in *.
    rewrite coerce_replicate by lia. by apply casted_const. }
  unfold as_const_int, as_const_uint, as_const_float, eref. cbn [mbind option_bind].
  destruct (as_const_int_expr a) as [i|] eqn:Hi.
  { left. destruct (as_const_int_eval _ _ _ _ _ Hi He) as [n Hn].
    eexists. split; [apply make_const_int; auto|eauto]. }
  destruct (as_const_uint_expr a) as [i|] eqn:Hu.
  { left. destruct (as_const_uint_eval _ _ _ _ _ Hu He) as [n Hn].
    eexists. split; [apply make_const_int; auto|eauto]. }
  destruct (as_const_float_expr a) as [f|] eqn:Hf; [|by right].
  by rewrite (as_const_float_type _ _ Hwf Hf) in Hfl.
Qed.

Lemma cast_expr_scalar t a zs :
  std_int t -> int_expr a zs -> lanes t = 1 -> lanes (type a) = 1 ->
  exists e, cast_expr t a = Ok e /\ casted t (coerce t zs) e.
Proof.
  intros Ht Ha Hl Hla.
  destruct (cast_body_head (cast_body cast_no_rec) t a zs Ht Ha ltac:(auto)) as [H|H]; [exact H|].
  unfold cast_expr. rewrite H. unfold is_vector. rewrite Hl. cbn [negb Z.eqb Pos.eqb].
  exists (Cast t a). unfold Cast_make, internal_assert. simpl. rewrite Hl, Hla.
  split; [done|]. apply casted_Cast; congruence.
Qed.

Lemma int_expr_broadcast value l zs :
  int_expr (Broadcast value l) zs ->
  exists z, int_expr value [z] /\ zs = replicate (Z.to_nat l) z /\
            lanes (type value) = 1 /\ l = lanes (type (Broadcast value l)).
Proof.
  intros [[[Hsc Hl1] Hwf] [Ht Hl] (Hcl & _ & Hlan) He Hr Hlen].
  pose proof (ty_ok_type _ _ Hwf Ht) as [Hb _].
  unfold is_scalar in Hsc. bool_to_prop.
  assert (Hll : l = lanes (type (Broadcast value l)))
    by (cbn; by rewrite small_lanes).
  cbn [eval] in He. inv_res. repeat case_match; try done. injection H0 as Hz. symmetry in Hz.
  assert (Hpos : (0 < Z.to_nat l)%nat) by lia.
  destruct zs as [|z zs]; [destruct (Z.to_nat l); [lia|done]|].
  assert (s = VInt z) as -> by (destruct (Z.to_nat l); simpl in Hz; by simplify_eq).
  apply replicate_VInt in Hz. exists z. split; [|by rewrite Hz].
  apply Forall_cons in Hr as [Hz1 _].
  unfold representable, is_int, is_uint in Hcl, Hz1.
  change (code (type (Broadcast value l))) with (code (type value)) in Hcl, Hz1.
  change (bits (type (Broadcast value l))) with (uwrap 8 (bits (type value))) in Hz1.
  rewrite small_bits in Hz1 by done.
  constructor; [done|eauto| |by rewrite H| |by rewrite Hsc].
  - split; [by apply orb_true_iff|]. rewrite Hsc. lia.
  - by apply Forall_singleton.
Qed.

Lemma cast_expr_int t a zs :
  std_int t -> int_expr a zs -> lanes (type a) = 1 \/ lanes t = lanes (type a) ->
  exists e, cast_expr t a = Ok e /\ casted t (coerce t zs) e.
Proof.
  intros Ht Ha Hlan. pose proof (std_int_bits _ Ht) as Hb.
  destruct (element_of_fields t Hb) as (Hc & Hb' & Hl').
  rewrite cast_unfold.
  destruct (cast_body_head cast_expr t a zs Ht Ha Hlan) as [H|H]; [exact H|]. rewrite H. clear H.
  assert (Hcast : lanes t = lanes (type a) ->
            exists e, Cast_make t a = Ok e /\ casted t (coerce t zs) e).
  { intros Hl. exists (Cast t a). unfold Cast_make, internal_assert. simpl.
    rewrite Hl, Z.eqb_refl. split; [done|]. by apply casted_Cast. }
  assert (Hspread : forall b z, int_expr b [z] -> lanes (type b) = 1 -> is_vector t = true ->
            exists e, (v ← cast_expr (element_of t) b; Broadcast_make (eref v) (lanes t)) = Ok e /\
                      casted t (replicate (Z.to_nat (lanes t)) (VInt (wrap_type t z))) e).
  { intros b z Hb1 Hb2 Hv.
    destruct (cast_expr_scalar (element_of t) b [z]) as (e & -> & He);
      [by apply std_int_element|done..|].
    unfold coerce in He. rewrite Hl', (wrap_type_fields _ t) in He by done.
    destruct (casted_Broadcast t _ e Ht Hv He) as [Hm Hc']. eauto. }
  unfold is_vector, is_scalar in *. destruct (Z.eqb_spec (lanes t) 1) as [Hlt|Hlt].
  { apply Hcast. lia. }
  cbn [negb]. destruct (Z.eqb_spec (lanes (type a)) 1) as [Hla|Hla].
  - destruct Ha as [Hwf Hty Hs He Hr Hl]. assert (exists z, zs = [z]) as [z ->].
    { destruct zs as [|z [|]]; simpl in Hl; try lia. eauto. }
    apply Hspread; [by constructor|done|done].
  - assert (Hl : lanes t = lanes (type a)) by lia.
    destruct a as [| | | | | | | | | | |b l| |]; try (apply Hcast, Hl).
    destruct (int_expr_broadcast _ _ _ Ha) as (z & Hz & -> & Hz1 & Hll).
    rewrite Hl, <- Hll, Z.eqb_refl. unfold internal_assert. cbn [mbind res_bind].
    replace l with (lanes t) by congruence.
    rewrite coerce_replicate by (destruct Ht as (_ & ? & _); lia).
    apply Hspread; [done|done|done].
Qed.
End CastSound.

(** [cast] between integer types: on a well-typed expression, for a target with
    as many lanes or any target for a scalar, it succeeds with an expression of the
    target type whose lanes are the operand's lanes wrapped to that type, whether it
    folds a constant, broadcasts, or builds a [Cast] node; a scalar is spread over
    the target's lanes. *)
Theorem cast_sound Γ ρ t a va :
  std_int t -> int_like (type a) -> lanes (type a) = 1 \/ lanes t = lanes (type a) ->
  wf a -> typed Γ a -> env_ok Machine Γ ρ -> eval Machine ρ a = Some va ->
  exists zs e, va = VInt <$> zs /\ cast t (Some a) = Ok e /\
    type_eqb (type e) t = true /\ wf e /\ eval Machine ρ e = Some (coerce t zs).
Proof.
  intros Ht Hs Hl Hwf Hty Hρ He.
  destruct (int_expr_intro Γ ρ a va Hwf Hty Hρ Hs He) as (zs & -> & Ha).
  destruct (cast_expr_int Γ ρ t a zs Ht Ha Hl) as (e & Hc & [H1 H2 _ H3]). eauto 10.
Qed.

(** * Matching types *)

(** The documented common type of two integer types: unsigned only when both are. *)
Definition matched_type (ta tb : Ty) : Ty :=
  let b := Z.max (bits ta) (bits tb) in
  let l := if is_scalar ta then lanes tb else lanes ta in
  if is_uint ta && is_uint tb then UInt b l else Int b l.

Lemma std_int_intro c b l :
  (bool_decide (c = halide_type_int) && int_width b)
  || (bool_decide (c = halide_type_uint) && uint_width b) = true ->
  0 < l < 65536 -> std_int (Type_make c b l None) /\ bits (Type_make c b l None) = b
                   /\ lanes (Type_make c b l None) = l.
Proof.
  intros Hc Hl.
  assert (Hb : 0 < b <= 64).
  { apply orb_true_iff in Hc. destruct Hc as [H|H]; apply andb_true_iff in H as [_ H];
      eauto using int_width_range, uint_width_range. }
  unfold std_int, is_int, is_uint. cbn. rewrite small_bits by done.
  rewrite small_lanes by lia. done.
Qed.

Lemma int_width_ge b : int_width b = true -> 8 <= b.
Proof.
  unfold int_width. intros H. bool_to_prop. repeat (destruct H as [H|H]; bool_to_prop); lia.
Qed.

Lemma matched_type_std ta tb :
  std_int ta -> std_int tb ->
  std_int (matched_type ta tb) /\ bits (matched_type ta tb) = Z.max (bits ta) (bits tb)
  /\ lanes (matched_type ta tb) = if is_scalar ta then lanes tb else lanes ta.
Proof.
  intros Ha Hb. unfold matched_type.
  assert (Hl : 0 < (if is_scalar ta then lanes tb else lanes ta) < 65536).
  { destruct Ha as (_ & ? & _), Hb as (_ & ? & _). by case_match. }
  apply std_int_width in Ha, Hb.
  assert (Huw : forall w, uint_width w = true -> int_width w = true \/ w = 1).
  { unfold uint_width. intros w Hw. apply orb_true_iff in Hw as [Hw|Hw]; bool_to_prop; auto. }
  assert (Hmax : uint_width (bits ta) = true -> uint_width (bits tb) = true ->
                 uint_width (Z.max (bits ta) (bits tb)) = true)
    by (intros; by destruct (Z.max_spec (bits ta) (bits tb)) as [[_ ->]|[_ ->]]).
  assert (Hi2u : forall w, int_width w = true -> uint_width w = true)
    by (unfold uint_width; intros w ->; apply orb_true_r).
  destruct (is_uint ta && is_uint tb) eqn:Hu.
  - apply std_int_intro; [|done]. apply orb_true_iff. right.
    apply andb_true_iff. split; [done|]. apply Hmax; naive_solver.
  - apply std_int_intro; [|done]. apply orb_true_iff. left. apply andb_true_iff. split; [done|].
    destruct (Z.max_spec (bits ta) (bits tb)) as [[? ->]|[? ->]];
      destruct Ha as [[Ha1 Ha2]|[Ha1 Ha2]], Hb as [[Hb1 Hb2]|[Hb1 Hb2]]; try done;
      rewrite ?Ha1, ?Hb1 in Hu; try done.
    + apply Huw in Hb2 as [?|Hb2]; [done|]. apply int_width_ge in Ha2. lia.
    + apply Huw in Ha2 as [?|Ha2]; [done|]. apply int_width_ge in Hb2. lia.
Qed.

Section MatchTypes.
Context (Γ : gmap string Ty) (ρ : env).

Lemma int_expr_spread a z l :
  int_expr Γ ρ a [z] -> std_int (type a) -> is_scalar (type a) = true -> 1 < l < 65536 ->
  Broadcast_make (eref a) l = Ok (Broadcast a l) /\ int_expr Γ ρ (Broadcast a l) (replicate (Z.to_nat l) z)
  /\ std_int (type (Broadcast a l)) /\ code (type (Broadcast a l)) = code (type a)
  /\ bits (type (Broadcast a l)) = bits (type a) /\ lanes (type (Broadcast a l)) = l.
Proof.
  intros [Hwf Hty _ He Hr Hl] Hs Hsc Hlan. pose proof (std_int_bits _ Hs) as Hb.
  assert (Hne : l <> 1) by lia. apply Z.eqb_neq in Hne as Hne'.
  assert (Hbits : bits (type (Broadcast a l)) = bits (type a)) by (cbn; by rewrite small_bits).
  assert (Hlanes : lanes (type (Broadcast a l)) = l) by (cbn; by rewrite small_lanes by lia).
  assert (Hs' : std_int (type (Broadcast a l))).
  { destruct Hs as (Hc & _ & _). unfold std_int, is_int, is_uint.
    rewrite Hbits, Hlanes. split; [exact Hc|]. split; [lia|done]. }
  split; [|split; [constructor|done]].
  - unfold Broadcast_make, internal_assert. simpl. by rewrite Hsc, Hne'.
  - by repeat split.
  - split; [done|lia].
  - by apply std_int_like.
  - simpl. rewrite He. simpl. by rewrite fmap_replicate.
  - apply Forall_replicate. apply Forall_cons in Hr as [Hr _].
    unfold representable, is_int, is_uint in *. rewrite Hbits. exact Hr.
  - rewrite length_replicate, Hlanes. lia.
Qed.

Lemma int_expr_single a zs : int_expr Γ ρ a zs -> is_scalar (type a) = true -> exists z, zs = [z].
Proof.
  intros [_ _ _ _ _ Hl] Hs. unfold is_scalar in Hs. bool_to_prop.
  destruct zs as [|z [|]]; simpl in Hl; try lia. eauto.
Qed.

Lemma int_expr_casted a zs t : int_expr Γ ρ a zs -> type_eqb (type a) t = true ->
  casted Γ ρ t (coerce t zs) a.
Proof.
  intros [Hwf Hty _ He Hr Hl] Heq. pose proof (type_eqb_fields _ _ Heq) as (Hc & Hb & Hla).
  constructor; [done..|]. by rewrite (coerce_same (type a)) by done.
Qed.

Lemma casted_fields t u zs e :
  is_handle u = false -> code t = code u -> bits t = bits u -> lanes t = lanes u ->
  casted Γ ρ t (coerce t zs) e -> casted Γ ρ u (coerce u zs) e.
Proof.
  intros Hh Hc Hb Hl [H1 H2 Hty H3]. apply type_eqb_fields in H1 as (Hc1 & Hb1 & Hl1).
  constructor; [|done..|].
  - rewrite type_eqb_sym. apply type_eqb_numeric; [done|]. repeat split; congruence.
  - rewrite H3. assert (Hw : forall z, wrap_type t z = wrap_type u z)
      by (intros; by apply wrap_type_fields).
    unfold coerce. rewrite Hl. destruct zs as [|z [|z' zs]]; [done|by rewrite Hw|].
    f_equal. apply list_fmap_ext. intros. by rewrite Hw.
Qed.

(** Operands with as many lanes as each other. *)
Lemma match_element_types_int a b za zb M :
  int_expr Γ ρ a za -> int_expr Γ ρ b zb -> std_int (type a) -> std_int (type b) ->
  lanes (type a) = lanes (type b) -> M = matched_type (type a) (type b) ->
  exists a' b', match_element_types a b = Ok (a', b') /\
    casted Γ ρ M (coerce M za) a' /\ casted Γ ρ M (coerce M zb) b'.
Proof.
  intros Ha Hb Hsa Hsb Hl HM.
  pose proof (matched_type_std _ _ Hsa Hsb) as (Hm & Hmb & Hml). rewrite <- HM in *.
  assert (Hml' : lanes M = lanes (type a)) by (rewrite Hml; by case_match).
  destruct (std_int_class _ Hsa) as (Hca & Hfa & _), (std_int_class _ Hsb) as (Hcb & Hfb & _).
  destruct (std_int_class _ Hm) as (_ & _ & Hhm).
  assert (Hcast : forall x zs t, int_expr Γ ρ x zs -> lanes (type x) = lanes (type a) ->
    std_int t -> code t = code M -> bits t = bits M -> lanes t = lanes M ->
    exists x', cast t (eref x) = Ok x' /\ casted Γ ρ M (coerce M zs) x').
  { intros x zs t Hx Hlx Ht Hc Hbt Hlt.
    destruct (cast_expr_int Γ ρ t x zs Ht Hx ltac:(right; congruence)) as (e & He & Hce).
    exists e. split; [done|]. by apply (casted_fields t). }
  assert (Hkeep : forall x zs, int_expr Γ ρ x zs -> code (type x) = code M -> bits (type x) = bits M ->
    lanes (type x) = lanes M -> casted Γ ρ M (coerce M zs) x).
  { intros x zs Hx H1 H2 H3. apply (casted_fields (type x)); [done..|].
    apply int_expr_casted; [done|]. apply type_eqb_refl. }
  assert (HcM : code M = if is_uint (type a) && is_uint (type b) then halide_type_uint else halide_type_int)
    by (rewrite HM; unfold matched_type; by destruct (is_uint (type a) && is_uint (type b))).
  unfold match_element_types. destruct (type_eqb (type a) (type b)) eqn:Heq.
  - exists a, b. split; [done|]. apply type_eqb_fields in Heq as (Hc & Hbi & _).
    assert (code (type a) = code M).
    { rewrite HcM. unfold is_uint, is_int in *. rewrite <- Hc in *.
      destruct (code (type a)); simpl in *; (done || discriminate). }
    split; apply Hkeep; (done || congruence || (rewrite Hmb; lia)).
  - rewrite Hfa, Hfb. cbn [negb andb].
    destruct (is_uint (type a) && is_uint (type b)) eqn:Hu.
    + apply andb_true_iff in Hu as [Hua Hub]. unfold is_uint in Hua, Hub. bool_to_prop.
      destruct (Z.ltb_spec (bits (type b)) (bits (type a))).
      * destruct (Hcast b zb (type a)) as (b' & -> & Hb'); [done..|congruence|lia|done|].
        exists a, b'. split; [done|]. split; [|done]. apply Hkeep; (done || congruence || lia).
      * destruct (Hcast a za (type b)) as (a' & -> & Ha'); [done..|congruence|lia|congruence|].
        exists a', b. split; [done|]. split; [done|]. apply Hkeep; (done || congruence || lia).
    + assert (M = Int (Z.max (bits (type a)) (bits (type b))) (lanes (type a))) as <-.
      { rewrite HM. unfold matched_type. rewrite Hu. f_equal. by case_match. }
      destruct (Hcast a za M) as (a' & -> & Ha'); [done..|].
      destruct (Hcast b zb M) as (b' & -> & Hb'); [done..|]. simpl. eauto.
Qed.

Lemma coerce_spread t z n : (0 < n)%nat -> Z.of_nat n = lanes t ->
  coerce t (replicate n z) = coerce t [z].
Proof. intros Hn Hl. by rewrite coerce_replicate by auto. Qed.

Lemma match_types_int a b za zb M :
  int_expr Γ ρ a za -> int_expr Γ ρ b zb -> std_int (type a) -> std_int (type b) ->
  lanes (type a) = lanes (type b) \/ lanes (type a) = 1 \/ lanes (type b) = 1 ->
  M = matched_type (type a) (type b) ->
  exists a' b', match_types a b = Ok (a', b') /\
    casted Γ ρ M (coerce M za) a' /\ casted Γ ρ M (coerce M zb) b'.
Proof.
  intros Ha Hb Hsa Hsb Hl HM.
  destruct (std_int_class _ Hsa) as (_ & _ & Hha), (std_int_class _ Hsb) as (_ & _ & Hhb).
  pose proof (matched_type_std _ _ Hsa Hsb) as (Hm & Hmb & Hml). rewrite <- HM in Hml.
  unfold match_types, user_assert. rewrite Hha, Hhb. cbn [negb andb mbind res_bind].
  destruct (type_eqb (type a) (type b)) eqn:Heq.
  { destruct (match_element_types_int a b za zb M) as (a' & b' & He & Hc); try done.
    { by apply type_eqb_fields in Heq as (_ & _ & ?). }
    unfold match_element_types in He. rewrite Heq in He. simplify_eq. eauto. }
  unfold match_lanes, is_vector, is_scalar in *.
  destruct Hsa as (Hwa & Hlana & Hna) eqn:Ea. clear Ea. destruct Hsb as (Hwb & Hlanb & Hnb) eqn:Eb. clear Eb.
  destruct (Z.eqb_spec (lanes (type a)) 1) as [H1|H1], (Z.eqb_spec (lanes (type b)) 1) as [H2|H2];
    cbn [negb andb].
  - unfold internal_assert. rewrite H1, H2. cbn [Z.eqb Pos.eqb mbind res_bind].
    apply match_element_types_int; (done || congruence).
  - destruct (int_expr_single a za Ha) as [z ->]; [unfold is_scalar; by apply Z.eqb_eq|].
    destruct (int_expr_spread a z (lanes (type b)) Ha) as (-> & Hx & Hsx & Hcx & Hbx & Hlx);
      [done|unfold is_scalar; by apply Z.eqb_eq|lia|].
    cbn [mbind res_bind]. rewrite <- (coerce_spread M z (Z.to_nat (lanes (type b)))) by lia.
    apply match_element_types_int; [done..|].
    rewrite HM. unfold matched_type, is_uint, is_scalar. rewrite Hcx, Hbx, Hlx, H1.
    rewrite (proj2 (Z.eqb_neq _ _) H2). done.
  - destruct (int_expr_single b zb Hb) as [z ->]; [unfold is_scalar; by apply Z.eqb_eq|].
    destruct (int_expr_spread b z (lanes (type a)) Hb) as (-> & Hx & Hsx & Hcx & Hbx & Hlx);
      [done|unfold is_scalar; by apply Z.eqb_eq|lia|].
    cbn [mbind res_bind]. rewrite <- (coerce_spread M z (Z.to_nat (lanes (type a)))) by lia.
    apply match_element_types_int; [done..|].
    rewrite HM. unfold matched_type, is_uint, is_scalar. rewrite Hcx, Hbx, Hlx.
    by rewrite (proj2 (Z.eqb_neq _ _) H1).
  - unfold internal_assert. rewrite (proj2 (Z.eqb_eq _ _)) by lia. cbn [mbind res_bind].
    apply match_element_types_int; (done || lia).
Qed.
End MatchTypes.

(** The lanes of an integer operand. *)
Definition lanes_of (ρ : env) (a : Expr) (zs : list Z) : Prop :=
  eval Machine ρ a = Some (VInt <$> zs).

Definition arith_operators : list (binop * (ExprRef -> ExprRef -> res Expr)) :=
  [(Add, operator_add); (Sub, operator_sub); (Mul, operator_mul); (Div, operator_div);
   (Min, min); (Max, max); (EQ, operator_eq); (NE, operator_ne); (LT, operator_lt);
   (LE, operator_le); (GT, operator_gt); (GE, operator_ge)].

(** C31. The arithmetic and comparison operators of the front end, on integer
    expressions of any two standard types with matching lanes (or a scalar on either
    side), never fail; both operands are converted, with the documented C rules, to
    the common type [matched_type], a scalar is spread over the lanes of the other
    operand, and the result is the operation applied lane by lane at that type. *)
Theorem operators_sound Γ ρ a b za zb op f :
  (op, f) ∈ arith_operators ->
  std_int (type a) -> std_int (type b) ->
  lanes (type a) = lanes (type b) \/ lanes (type a) = 1 \/ lanes (type b) = 1 ->
  wf a -> wf b -> typed Γ a -> typed Γ b -> env_ok Machine Γ ρ ->
  lanes_of ρ a za -> lanes_of ρ b zb ->
  let M := matched_type (type a) (type b) in
  exists a' b', f (Some a) (Some b) = Ok (Bin op a' b') /\
    type_eqb (type a') M = true /\ wf (Bin op a' b') /\
    eval Machine ρ (Bin op a' b') =
      zip_with_M (eval_binop Machine op M) (coerce M za) (coerce M zb).
Proof.
  intros Hin Hsa Hsb Hl Hwa Hwb Hta Htb Hρ Hea Heb M.
  destruct (int_expr_intro Γ ρ a _ Hwa Hta Hρ (std_int_like _ Hsa) Hea) as (za' & Hz & Ha).
  apply (inj (fmap VInt)) in Hz as <-.
  destruct (int_expr_intro Γ ρ b _ Hwb Htb Hρ (std_int_like _ Hsb) Heb) as (zb' & Hz & Hb).
  apply (inj (fmap VInt)) in Hz as <-.
  destruct (match_types_int Γ ρ a b za zb M Ha Hb Hsa Hsb Hl eq_refl)
    as (a' & b' & Hm & [Hta' Hwa' _ Hea'] & [Htb' Hwb' _ Heb']).
  assert (Htt : type_eqb (type a') (type b') = true).
  { pose proof (matched_type_std _ _ Hsa Hsb) as (Hs & _). fold M in Hs.
    destruct (std_int_class _ Hs) as (_ & _ & Hh).
    apply type_eqb_fields in Hta' as (Hc1 & Hb1 & Hl1), Htb' as (Hc2 & Hb2 & Hl2).
    apply type_eqb_numeric; [|repeat split; congruence].
    unfold is_handle in *. by rewrite Hc1. }
  assert (Hop : f (Some a) (Some b) = Ok (Bin op a' b') /\ is_logical op = false).
  { clear -Hin Hm Htt. apply list_elem_of_In in Hin. simpl in Hin.
    repeat (destruct Hin as [[= <- <-]|Hin];
      [split; [|done]; unfold operator_add, operator_sub, operator_mul, operator_div, min, max,
         operator_eq, operator_ne, operator_lt, operator_le, operator_gt, operator_ge, operator_ee;
       simpl; rewrite Hm; simpl;
       unfold Add_make, Sub_make, Mul_make, Div_make, Min_make, Max_make, EQ_make, NE_make,
         LT_make, LE_make, GT_make, GE_make, binary_make, internal_assert; simpl; by rewrite Htt|]).
    done. }
  destruct Hop as [Hf Hlog]. exists a', b'. split; [done|]. split; [done|]. split.
  - split; [|done]. split; [done|]. by rewrite Hlog.
  - cbn [eval]. rewrite Hea', Heb'. cbn [mbind option_bind].
    apply type_eqb_fields in Hta' as (Hc & Hb' & _).
    apply zip_with_M_ext. intros. by apply eval_binop_fields.
Qed.

(** * Lossless casts *)

(** Every [Cast] on the spine [lossless_cast] looks through keeps the value of its
    operand. *)
Fixpoint widening_casts (e : Expr) : bool :=
  match e with
  | Cast t value => can_represent t (type value) && widening_casts value
  | Broadcast value _ => widening_casts value
  | _ => true
  end.

Lemma can_represent_int_like dst src : int_like dst -> can_represent dst src = true ->
  is_int src || is_uint src = true /\ lanes src = lanes dst.
Proof.
  intros Hd H. destruct (int_like_class _ Hd) as (Hc & Hf & _). unfold can_represent in H.
  destruct (Z.eqb_spec (lanes dst) (lanes src)); [|done]. simpl in H. rewrite Hf in H.
  destruct (is_int dst), (is_uint dst), (is_int src), (is_uint src); simpl in *; (done || discriminate).
Qed.

Lemma coerce_id t src zs : std_int t -> int_like src -> can_represent t src = true ->
  Forall (fun z => representable src z = true) zs -> Z.of_nat (length zs) = lanes src ->
  coerce t zs = VInt <$> zs.
Proof.
  intros Ht Hs Hc Hr Hl. destruct (can_represent_int_like _ _ (std_int_like _ Ht) Hc) as [Hcl Hla].
  destruct (std_int_class _ Ht) as (_ & Hf & _).
  rewrite coerce_lanes by congruence. apply list_fmap_ext. intros i z Hi. f_equal.
  apply representable_wrap. apply (can_represent_range t src); try done.
  - apply int_like_bits in Hs. lia.
  - rewrite Forall_forall in Hr. apply Hr. by eapply list_elem_of_lookup_2.
Qed.

Lemma lossless_const Γ ρ t i n : std_int t -> lanes t = 1 -> n = Int64 i \/ n = UInt64 i ->
  representable t i = true ->
  exists e, make_const t n = Ok e /\ casted Γ ρ t [VInt i] e.
Proof.
  intros Ht Hl Hn Hr. exists (const_node t (wrap_type t i)). split; [by apply make_const_int|].
  pose proof (casted_const Γ ρ t i Ht) as Hc. rewrite Hl, representable_wrap in Hc by done.
  by rewrite representable_wrap by done.
Qed.

Lemma lossless_unfold t e :
  lossless_cast t e =
  if type_eqb t (type e) then Ok (Some e)
  else if can_represent t (type e) then r ← cast t e; Ok (Some r)
  else
    match e with
    | Cast _ value => if can_represent t (type value) then lossless_cast t value else Ok None
    | Broadcast value l =>
        v ← lossless_cast (element_of t) value;
        match v with
        | Some v => r ← Broadcast_make (eref v) l; Ok (Some r)
        | None => Ok None
        end
    | IntImm _ i =>
        if can_represent_int64 t i then r ← make_const t (Int64 i); Ok (Some r) else Ok None
    | UIntImm _ i =>
        if can_represent_uint64 t i then r ← make_const t (UInt64 i); Ok (Some r) else Ok None
    | FloatImm _ f =>
        if can_represent_double t f then r ← make_const t (Double f); Ok (Some r) else Ok None
    | _ => Ok None
    end.
Proof. by destruct e. Qed.

Lemma in_range_representable t i : is_int t || is_uint t = true ->
  (if is_int t then in_srange (bits t) i else in_urange (bits t) i) -> representable t i = true.
Proof.
  unfold representable. intros Hc. destruct (is_int t); simpl in Hc; rewrite ?Hc;
    intros; by apply bool_decide_eq_true.
Qed.

Section LosslessCast.
Context (Γ : gmap string Ty) (ρ : env) (Hρ : env_ok Machine Γ ρ).

Lemma lossless_imm t e i :
  std_int t -> lanes t = lanes (type e) -> int_expr Γ ρ e [i] -> is_scalar (type e) = true ->
  (is_int (type e) = true -> can_represent_int64 t i = true) ->
  (is_uint (type e) = true -> can_represent_uint64 t i = true) ->
  representable t i = true.
Proof.
  intros Ht Hl [_ _ (Hcl & Hbits & _) _ Hr _] Hs Hi Hu.
  destruct (std_int_class _ Ht) as (Hct & _).
  pose proof (std_int_bits _ Ht) as Hb.
  destruct (can_represent_range_spec t i Hb Hct) as [Hs64 Hu64].
  apply in_range_representable; [done|]. apply Forall_cons in Hr as [Hr _].
  unfold representable in Hr. destruct (is_int (type e)).
  - apply Hs64; [|auto]. bool_to_prop. eapply srange_mono; [|done]. lia.
  - simpl in Hcl. rewrite Hcl in Hr. apply Hu64; [|auto]. bool_to_prop.
    eapply urange_mono; [|done]. lia.
Qed.

Lemma lossless_head t e e' zs :
  std_int t -> lanes t = lanes (type e) -> int_expr Γ ρ e zs ->
  type_eqb t (type e) || can_represent t (type e) = true ->
  lossless_cast t e = Ok (Some e') -> casted Γ ρ t (VInt <$> zs) e'.
Proof.
  intros Ht Hl He Hor H. rewrite lossless_unfold in H.
  destruct (type_eqb t (type e)) eqn:Heq.
  - injection H as <-. rewrite type_eqb_sym in Heq.
    pose proof (type_eqb_fields _ _ Heq) as (Hc & Hb & _).
    pose proof He as [_ _ _ _ Hr Hlen].
    rewrite <- (coerce_same (type e) t zs) by done. by apply int_expr_casted.
  - simpl in Hor. rewrite Hor in H. apply bind_Ok in H as (r & H & Hr). injection Hr as <-.
    pose proof He as [_ _ Hlike _ Hr Hlen].
    rewrite <- (coerce_id _ _ _ Ht Hlike Hor Hr Hlen).
    destruct (cast_expr_int Γ ρ _ _ zs Ht He (or_intror Hl)) as (e1 & He1 & Hc1).
    unfold cast in H. simpl in H. congruence.
Qed.

(** The operand of a widening cast has the lanes of the cast. *)
Lemma widening_operand t v zs :
  can_represent t (type v) = true -> int_expr Γ ρ (Cast t v) zs -> typed Γ v -> int_expr Γ ρ v zs.
Proof.
  intros Hcr [[_ Hwf] _ Hlike He Hr Hlen] Hty.
  destruct (can_represent_int_like _ _ Hlike Hcr) as [Hcl Hla].
  pose proof (ty_ok_type _ _ Hwf Hty) as [Hb _].
  assert (Hlv : int_like (type v)).
  { split; [done|]. split; [done|]. rewrite Hla. apply Hlike. }
  cbn [eval] in He. apply bind_Some in He as (va & Hv & Hm).
  destruct (int_expr_intro Γ ρ v va Hwf Hty Hρ Hlv Hv) as (zs' & -> & [_ _ _ Hev Hr' Hlen']).
  assert (zs' = zs) as <-; [|by constructor; eauto].
  rewrite mapM_cast_ints in Hm by apply Hlike. injection Hm as Hm.
  apply (inj (fmap VInt)). rewrite <- Hm. apply list_fmap_ext. intros i z Hz. f_equal.
  symmetry. apply representable_wrap.
  apply (can_represent_range t (type v)); [done|lia|done| |].
  - apply int_like_class, Hlike.
  - rewrite Forall_forall in Hr'. apply Hr'. by eapply list_elem_of_lookup_2.
Qed.

Lemma lossless_cast_int e : forall t e' zs,
  std_int t -> lanes t = lanes (type e) -> widening_casts e = true ->
  typed Γ e -> int_expr Γ ρ e zs ->
  lossless_cast t e = Ok (Some e') -> casted Γ ρ t (VInt <$> zs) e'.
Proof.
  induction e using Expr_ind'; intros tt e' zs Ht Hl Hw Hty He Hlc;
    (match type of He with int_expr _ _ ?x _ =>
       destruct (type_eqb tt (type x) || can_represent tt (type x)) eqn:Hh;
         [exact (lossless_head tt x e' zs Ht Hl He Hh Hlc)|]
     end);
    rewrite lossless_unfold in Hlc; apply orb_false_iff in Hh as [Hh1 Hh2];
    rewrite Hh1, Hh2 in Hlc; clear Hh1 Hh2; try discriminate.
  - assert (Hsc : is_scalar (type (IntImm t v)) = true)
      by (destruct He as [[[Hn _] _] _ _ _ _ _]; by bool_to_prop).
    assert (zs = [v]) as -> by (destruct He as [_ _ _ He _ _]; simpl in He;
      injection He as He; destruct zs as [|? [|]]; by simplify_eq/=).
    destruct (can_represent_int64 tt v) eqn:Hc; [|done]. inv_res.
    destruct (lossless_const Γ ρ tt v (Int64 v) Ht) as (e1 & He1 & Hc1);
      [rewrite Hl; by apply Z.eqb_eq|auto| |
       rewrite He1 in H; by injection H as <-].
    apply (lossless_imm tt (IntImm t v)); [done..|].
    intros Hu. destruct He as [[[Hn _] _] _ _ _ _ _]. bool_to_prop.
    simpl in Hu. by rewrite (int_not_uint t) in Hu.
  - assert (Hsc : is_scalar (type (UIntImm t v)) = true)
      by (destruct He as [[[Hn _] _] _ _ _ _ _]; by bool_to_prop).
    assert (zs = [v]) as -> by (destruct He as [_ _ _ He _ _]; simpl in He;
      injection He as He; destruct zs as [|? [|]]; by simplify_eq/=).
    destruct (can_represent_uint64 tt v) eqn:Hc; [|done]. inv_res.
    destruct (lossless_const Γ ρ tt v (UInt64 v) Ht) as (e1 & He1 & Hc1);
      [rewrite Hl; by apply Z.eqb_eq|auto| |
       rewrite He1 in H; by injection H as <-].
    apply (lossless_imm tt (UIntImm t v)); [done..| |done].
    intros Hi. destruct He as [[[Hn _] _] _ _ _ _ _]. bool_to_prop.
    simpl in Hi. by rewrite (uint_not_int t) in Hi.
  - destruct He as [[[Hn _] _] _ Hlike _ _ _]. bool_to_prop.
    destruct (int_like_class _ Hlike) as (_ & Hf & _). simpl in Hf. congruence.
  - simpl in Hw. apply andb_true_iff in Hw as [Hcr Hw]. destruct Hty as [_ Hty].
    pose proof (widening_operand t e zs Hcr He Hty) as Hv.
    destruct (can_represent tt (type e)) eqn:Hcr2; [|done].
    destruct (can_represent_int_like _ _ (std_int_like _ Ht) Hcr2) as [_ Hla].
    by apply (IHe tt e' zs).
  - destruct Hty as [Hty _].
    destruct (int_expr_broadcast Γ ρ e l zs He) as (z & Hz & -> & Hlz & Hll).
    apply bind_Ok in Hlc as (r & Hr & Hlc). destruct r as [r|]; [|discriminate].
    apply bind_Ok in Hlc as (e1 & Hbm & Hlc). injection Hlc as <-.
    pose proof (std_int_element _ Ht) as Hte.
    apply (IHe (element_of tt) r [z]) in Hr; [|done|by rewrite Hlz|done..].
    assert (Hll' : l = lanes tt) by congruence.
    destruct He as [[[_ Hne] _] _ _ _ _ _].
    assert (Hv : is_vector tt = true)
      by (unfold is_vector; apply negb_true_iff, Z.eqb_neq; congruence).
    destruct (casted_Broadcast Γ ρ tt (VInt z) r Ht Hv Hr) as [Hb2 Hc].
    rewrite Hll' in Hbm. rewrite Hb2 in Hbm. injection Hbm as <-.
    rewrite fmap_replicate, Hll'. done.
Qed.
End LosslessCast.

(** [lossless_cast] loses no information: when it returns an expression for an
    integer expression whose own casts are widening, that expression has the target
    type and exactly the operand's value. *)
Theorem lossless_cast_sound Γ ρ t e e' v :
  std_int t -> int_like (type e) -> lanes t = lanes (type e) -> widening_casts e = true ->
  wf e -> typed Γ e -> env_ok Machine Γ ρ -> eval Machine ρ e = Some v ->
  lossless_cast t e = Ok (Some e') ->
  type_eqb (type e') t = true /\ wf e' /\ eval Machine ρ e' = Some v.
Proof.
  intros Ht Hs Hl Hw Hwf Hty Hρ He Hc.
  destruct (int_expr_intro Γ ρ e v Hwf Hty Hρ Hs He) as (zs & -> & Hi).
  by destruct (lossless_cast_int Γ ρ Hρ e t e' zs Ht Hl Hw Hty Hi Hc).
Qed.

(** The test [lossless_cast] makes before it looks through a cast is not that
    the cast widens: for an unsigned byte reinterpreted as signed it returns the byte
    itself, which has another value (-56 against 200). *)
Theorem lossless_cast_narrowing :
  let x := Var (UInt 8 1) "x" None None None in
  let e := Cast (Int 8 1) x in
  let ρ := bind_var empty_env "x" [VInt 200] in
  lossless_cast (UInt 8 1) e = Ok (Some x) /\
  eval Machine ρ e = Some [VInt (-56)] /\ eval Machine ρ x = Some [VInt 200].
Proof. repeat split; vm_compute; reflexivity. Qed.

(** * Powers of two *)

Lemma log2_loop_spec n : forall v k, 0 < v < 2 ^ Z.of_nat n ->
  log2_loop n v k = Some (k + Z.log2 v).
Proof.
  induction n as [|n IH]; intros v k Hv; [simpl in Hv; lia|].
  cbn [log2_loop]. rewrite (proj2 (Z.eqb_neq v 0)) by lia.
  destruct (Z.eqb_spec v 1) as [->|H1]; [by rewrite Z.add_0_r|].
  rewrite Nat2Z.inj_succ, Z.pow_succ_r in Hv by lia.
  rewrite Z.shiftr_div_pow2 by lia. change (2 ^ 1) with 2.
  rewrite IH by (split; [apply Z.div_str_pos; lia|apply Z.div_lt_upper_bound; lia]).
  f_equal. replace v with (2 * (v / 2) + v mod 2) at 2 by (pose proof (Z.div_mod v 2); lia).
  pose proof (Z.mod_pos_bound v 2 ltac:(lia)).
  assert (0 < v / 2) by (apply Z.div_str_pos; lia).
  assert (v mod 2 = 0 \/ v mod 2 = 1) as [-> | ->] by lia.
  - rewrite Z.add_0_r, Z.log2_double by done. lia.
  - rewrite Z.log2_succ_double by done. lia.
Qed.

Lemma land_pred_zero v : 0 < v -> Z.land v (v - 1) = 0 <-> v = 2 ^ Z.log2 v.
Proof.
  intros Hv. split.
  - intros H. destruct (Z.log2_spec v Hv) as [H1 H2].
    destruct (Z.eq_dec v (2 ^ Z.log2 v)) as [?|Hne]; [done|]. exfalso.
    assert (Hl : Z.log2 (v - 1) = Z.log2 v).
    { apply Z.log2_unique; [apply Z.log2_nonneg|]. lia. }
    assert (Hb : Z.testbit (Z.land v (v - 1)) (Z.log2 v) = true).
    { rewrite Z.land_spec, Z.bit_log2 by done. rewrite <- Hl. apply Z.bit_log2.
      pose proof (pow2_pos (Z.log2 v) (Z.log2_nonneg v)). lia. }
    rewrite H, Z.bits_0 in Hb. done.
  - intros ->. pose proof (Z.log2_nonneg v) as Hl.
    replace (2 ^ Z.log2 v - 1) with (Z.ones (Z.log2 v)) by (rewrite Z.ones_equiv; lia).
    rewrite Z.land_ones by done. apply Z.mod_same. apply Z.pow_nonzero; lia.
Qed.

(** [is_const_power_of_two_integer] on an integer constant of any width returns
    the exponent exactly when the value is a power of two (so never for zero or a
    negative value), and its loop ends. *)
Theorem power_of_two_exact t v k :
  wf (IntImm t v) \/ wf (UIntImm t v) ->
  is_const_power_of_two_integer (if is_int t then IntImm t v else UIntImm t v) = Some k <->
  0 <= k /\ v = 2 ^ k.
Proof.
  intros Hwf.
  assert (Hv : (is_int t = true /\ - 2 ^ 63 <= v < 2 ^ 63) \/
               (is_uint t = true /\ 0 <= v < 2 ^ 64)).
  { destruct Hwf as [[[Hn Hr] _]|[[Hn Hr] _]]; bool_to_prop; [left|right]; (split; [done|]).
    - apply int_width_range in H0. apply (srange_mono _ 64) in Hr; [done|lia].
    - apply uint_width_range in H0. apply (urange_mono _ 64) in Hr; [done|lia]. }
  set (val := if v <? 0 then 0 else v).
  assert (Heq : is_const_power_of_two_integer (if is_int t then IntImm t v else UIntImm t v) =
                if negb (val =? 0) && (Z.land val (val - 1) =? 0) then log2_loop 64 val 0 else None).
  { destruct Hv as [[Hi _]|[Hu Hp]].
    - rewrite Hi. cbn. by rewrite Hi.
    - rewrite (uint_not_int _ Hu). cbn. rewrite Hu, orb_true_r. unfold val.
      by rewrite (proj2 (Z.ltb_ge v 0)) by lia. }
  rewrite Heq. unfold val. destruct (Z.ltb_spec v 0) as [Hneg|Hpos].
  { simpl. split; [done|]. intros [Hk ->]. pose proof (pow2_pos k Hk). lia. }
  destruct (Z.eqb_spec v 0) as [->|Hnz].
  { simpl. split; [done|]. intros [Hk H]. pose proof (pow2_pos k Hk). lia. }
  cbn [negb andb].
  rewrite log2_loop_spec by (change (Z.of_nat 64) with 64; lia). rewrite Z.add_0_l.
  destruct (Z.eqb_spec (Z.land v (v - 1)) 0) as [Hz|Hz].
  - apply land_pred_zero in Hz; [|lia]. split.
    + intros [= <-]. split; [apply Z.log2_nonneg|done].
    + intros [Hk ->]. by rewrite Z.log2_pow2.
  - split; [done|]. intros [Hk ->]. destruct Hz. apply land_pred_zero; [lia|]. by rewrite Z.log2_pow2.
Qed.

Lemma power_of_two_exact_witness :
  is_const_power_of_two_integer (UIntImm (UInt 64 1) (2 ^ 63)) = Some 63.
Proof.
  apply (power_of_two_exact (UInt 64 1) (2 ^ 63) 63); [|lia].
  right. simpl. unfold in_urange. repeat split; (done || lia).
Defined.

(** * Conjunctions *)

Fixpoint and_leaves (cond : Expr) : list Expr :=
  match cond with
  | Bin And a b => and_leaves a ++ and_leaves b
  | _ => [cond]
  end.

Definition holds (p : overflow) (ρ : env) (e : Expr) : Prop :=
  exists z, eval p ρ e = Some [VInt z] /\ z <> 0.

Lemma split_into_ands_leaves cond : forall result, wf cond -> is_bool (type cond) = true ->
  split_into_ands_expr cond result =
  Ok (result ++ filter (fun c => is_one c = false) (and_leaves cond)).
Proof.
  induction cond as [| | | | | |op a b IHa IHb| | | | | | |] using Expr_ind'; intros result Hwf Hb;
    try (cbn [split_into_ands_expr]; unfold internal_assert; rewrite Hb; cbn [mbind res_bind and_leaves];
         rewrite filter_cons, filter_nil; destruct (is_one _); simpl; by rewrite ?app_nil_r).
  destruct op;
    try (cbn [split_into_ands_expr]; unfold internal_assert; rewrite Hb; cbn [mbind res_bind and_leaves];
         rewrite filter_cons, filter_nil; destruct (is_one _); simpl; by rewrite ?app_nil_r).
  destruct Hwf as [[_ Hlog] [Hwa Hwb]]. destruct (Hlog eq_refl) as [Hba Hbb].
  cbn [split_into_ands_expr]. unfold internal_assert. rewrite Hb. cbn [mbind res_bind].
  rewrite IHa by done. cbn [mbind res_bind and_leaves]. rewrite IHb by done.
  by rewrite filter_app, app_assoc.
Qed.

Lemma and_leaves_hold p ρ cond z : wf cond -> eval p ρ cond = Some [VInt z] ->
  z <> 0 <-> Forall (holds p ρ) (and_leaves cond).
Proof.
  revert z. induction cond as [| | | | | |op a b IHa IHb| | | | | | |] using Expr_ind'; intros z0 Hwf He;
    try (cbn [and_leaves]; rewrite Forall_singleton; unfold holds; rewrite He; naive_solver).
  destruct op;
    try (cbn [and_leaves]; rewrite Forall_singleton; unfold holds; rewrite He; naive_solver).
  destruct Hwf as [_ [Hwa Hwb]]. cbn [and_leaves eval] in *. rewrite Forall_app.
  apply bind_Some in He as (va & Ha & He). apply bind_Some in He as (vb & Hb & He).
  destruct va as [|x [|]], vb as [|y [|]]; simpl in He; try discriminate.
  - apply bind_Some in He as (s & Hs & He). injection He as ->.
    destruct x as [x| | |], y as [y| | |]; simpl in Hs; try discriminate.
    + injection Hs as <-. rewrite <- (IHa x), <- (IHb y) by done.
      destruct (Z.eqb_spec x 0), (Z.eqb_spec y 0); simpl; lia.
    + unfold float_binop in Hs. by destruct (float_prec (bits (type a))) as [[]|].
  - apply bind_Some in He as (? & Hs & He). discriminate.
  - apply bind_Some in He as (? & Hs & He). discriminate.
  - apply bind_Some in He as (? & Hs & He). apply bind_Some in He as (? & Hs' & He).
    apply bind_Some in Hs' as (? & _ & Hs'). apply bind_Some in Hs' as (? & _ & [= <-]). discriminate.
Qed.

(** [split_into_ands] on a well-formed condition succeeds; it appends, in order,
    the conjuncts of the condition other than the literal ones, and the condition
    holds exactly when every conjunct does, under each overflow policy. *)
Theorem split_into_ands_sound cond result :
  wf cond -> is_bool (type cond) = true ->
  exists l, split_into_ands (Some cond) result = Ok (result ++ filter (fun c => is_one c = false) l) /\
    Forall (fun c => match c with Bin And _ _ => False | _ => True end) l /\
    forall p ρ z, eval p ρ cond = Some [VInt z] -> z <> 0 <-> Forall (holds p ρ) l.
Proof.
  intros Hwf Hb. exists (and_leaves cond). split; [by apply split_into_ands_leaves|]. split.
  - clear. induction cond using Expr_ind'; try by constructor.
    destruct op; try by constructor. cbn [and_leaves]. by apply Forall_app.
  - intros. by apply and_leaves_hold.
Qed.

Lemma split_into_ands_sound_witness :
  let x := Bin LT (Var (Int 32 1) "x" None None None) (IntImm (Int 32 1) 5) in
  let y := Bin LT (IntImm (Int 32 1) 0) (Var (Int 32 1) "x" None None None) in
  exists l, split_into_ands (Some (Bin And x y)) [] = Ok ([] ++ filter (fun c => is_one c = false) l) /\
    Forall (fun c => match c with Bin And _ _ => False | _ => True end) l /\
    forall p ρ z, eval p ρ (Bin And x y) = Some [VInt z] -> z <> 0 <-> Forall (holds p ρ) l.
Proof.
  apply split_into_ands_sound; [|reflexivity].
  simpl. unfold in_srange. repeat split; (done || lia).
Defined.

(** * Powers *)

Section Powers.
Context (Γ : gmap string Ty) (ρ : env).

Lemma mul_casted t (f g : Z -> Z) r1 r2 zs :
  std_int t ->
  casted Γ ρ t ((fun z => VInt (wrap_type t (f z))) <$> zs) r1 ->
  casted Γ ρ t ((fun z => VInt (wrap_type t (g z))) <$> zs) r2 ->
  exists r, operator_mul (Some r1) (Some r2) = Ok r /\
            casted Γ ρ t ((fun z => VInt (wrap_type t (f z * g z))) <$> zs) r.
Proof.
  intros Ht [Ht1 Hw1 Hty1 He1] [Ht2 Hw2 Hty2 He2]. pose proof (std_int_bits _ Ht) as Hb.
  destruct (std_int_class _ Ht) as (_ & _ & Hh).
  pose proof (type_eqb_fields _ _ Ht1) as (Hc1 & Hb1 & Hl1).
  pose proof (type_eqb_fields _ _ Ht2) as (Hc2 & Hb2 & Hl2).
  assert (Hh1 : is_handle (type r1) = false) by (unfold is_handle in *; by rewrite Hc1).
  assert (Hh2 : is_handle (type r2) = false) by (unfold is_handle in *; by rewrite Hc2).
  assert (Heq : type_eqb (type r1) (type r2) = true)
    by (apply type_eqb_numeric; [done|repeat split; congruence]).
  exists (Bin Mul r1 r2). split.
  - unfold operator_mul, operator_ee, match_types, user_assert. simpl. rewrite Hh1, Hh2. simpl.
    rewrite Heq. simpl. unfold Mul_make, binary_make, internal_assert. simpl. by rewrite Heq.
  - constructor; [done|by repeat split|done|]. cbn [eval]. rewrite He1, He2. cbn [mbind option_bind].
    clear He1 He2. induction zs as [|z zs IH]; [done|]. rewrite !fmap_cons. cbn [zip_with_M].
    rewrite (eval_binop_fields _ _ _ t) by done. cbn [eval_binop int_binop ov_result mbind option_bind].
    rewrite IH, wrap_type_mul by lia. done.
Qed.

Lemma raise_fuel n e zs : forall p,
  int_expr Γ ρ e zs -> std_int (type e) -> 0 <= p < 2 ^ Z.of_nat n ->
  exists r, raise_to_integer_power_fuel (S n) e p = Ok r /\
            casted Γ ρ (type e) ((fun z => VInt (wrap_type (type e) (z ^ p))) <$> zs) r.
Proof.
  induction n as [|n IH]; intros p He Ht Hp.
  - assert (p = 0) as -> by (simpl in Hp; lia). cbn [raise_to_integer_power_fuel Z.eqb].
    unfold make_one. rewrite (make_const_int _ _ 1) by auto. eexists. split; [done|].
    pose proof (casted_const Γ ρ (type e) 1 Ht) as Hc.
    pose proof (ie_lanes _ _ _ _ He) as Hl.
    replace (_ <$> zs) with (replicate (Z.to_nat (lanes (type e))) (VInt (wrap_type (type e) 1))); [done|].
    rewrite <- Hl, Nat2Z.id. clear. induction zs as [|z zs IH]; simpl; [done|]. f_equal. exact IH.
  - remember (S n) as m. cbn [raise_to_integer_power_fuel]. subst m.
    destruct (Z.eqb_spec p 0) as [->|H0].
    { destruct (IH 0 He Ht) as (r & Hr & Hc); [pose proof (pow2_pos (Z.of_nat n)); lia|].
      exists r. split; [|done]. exact Hr. }
    destruct (Z.eqb_spec p 1) as [->|H1].
    { exists e. split; [done|]. pose proof He as [Hwf Hty _ Hev Hr _].
      constructor; [apply type_eqb_refl|done..|]. rewrite Hev. f_equal.
      apply list_fmap_ext. intros i z Hi. rewrite Z.pow_1_r, representable_wrap; [done|].
      rewrite Forall_forall in Hr. apply Hr. by eapply list_elem_of_lookup_2. }
    rewrite (proj2 (Z.ltb_ge p 0)) by lia.
    rewrite Z.shiftr_div_pow2 by lia. change (2 ^ 1) with 2.
    rewrite Nat2Z.inj_succ, Z.pow_succ_r in Hp by lia.
    destruct (IH (p / 2) He Ht) as (y & -> & Hy).
    { split; [apply Z.div_pos; lia|apply Z.div_lt_upper_bound; lia]. }
    cbn [mbind res_bind].
    destruct (mul_casted _ _ _ y y zs Ht Hy Hy) as (yy & Hyy & Hcyy).
    change (eref y) with (Some y). rewrite Hyy. cbn [mbind res_bind].
    change 1 with (Z.ones 1). rewrite Z.land_ones by lia. change (2 ^ 1) with 2.
    pose proof (Z.div_mod p 2 ltac:(lia)) as Hd.
    assert (Hq : 0 <= p / 2) by (apply Z.div_pos; lia).
    pose proof (Z.mod_pos_bound p 2 ltac:(lia)).
    assert (p mod 2 = 0 \/ p mod 2 = 1) as [Hm|Hm] by lia; rewrite Hm; cbn [Z.eqb negb].
    + exists yy. split; [done|]. replace (_ <$> zs) with
        ((fun z => VInt (wrap_type (type e) (z ^ (p / 2) * z ^ (p / 2)))) <$> zs); [done|].
      apply list_fmap_ext. intros i z _. rewrite <- Z.pow_add_r by done. do 3 f_equal. lia.
    + destruct (IH 1 He Ht) as (e1 & He1 & Hce1); [pose proof (pow2_pos (Z.of_nat n)); lia|].
      cbn in He1. injection He1 as <-.
      destruct (mul_casted _ _ _ yy e zs Ht Hcyy Hce1) as (r & Hr & Hcr).
      exists r. split; [exact Hr|]. replace (_ <$> zs) with
        ((fun z => VInt (wrap_type (type e) (z ^ (p / 2) * z ^ (p / 2) * z ^ 1))) <$> zs); [done|].
      apply list_fmap_ext. intros i z _. rewrite <- !Z.pow_add_r by lia. do 3 f_equal. lia.
Qed.
End Powers.

(** C40. [raise_to_integer_power] on an integer expression and any non-negative
    [int64_t] exponent ends, succeeds, and builds an expression of the same type
    whose value is the power, lane by lane, as the type's register holds it. *)
Theorem raise_to_integer_power_sound Γ ρ e zs p :
  std_int (type e) -> wf e -> typed Γ e -> env_ok Machine Γ ρ -> lanes_of ρ e zs ->
  0 <= p < 2 ^ 63 ->
  exists r, raise_to_integer_power e p = Ok r /\ type_eqb (type r) (type e) = true /\ wf r /\
    eval Machine ρ r = Some ((fun z => VInt (wrap_type (type e) (z ^ p))) <$> zs).
Proof.
  intros Ht Hwf Hty Hρ He Hp.
  destruct (int_expr_intro Γ ρ e _ Hwf Hty Hρ (std_int_like _ Ht) He) as (zs' & Hz & Hi).
  apply (inj (fmap VInt)) in Hz as <-.
  destruct (raise_fuel Γ ρ 64 e zs p Hi Ht) as (r & Hr & [H1 H2 _ H3]); [|by exists r].
  change (Z.of_nat 64) with 64. lia.
Qed.

(** * The limits of a type *)

Lemma IntImm_make_in_range t v : std_int t -> is_vector t = false -> is_int t = true ->
  in_srange (bits t) v -> IntImm_make t v = Ok (IntImm t v).
Proof.
  intros Ht Hv Hi Hr. pose proof (std_int_width _ Ht) as [[_ Hw]|[Hu _]];
    [|by rewrite (int_not_uint _ Hi) in Hu].
  unfold is_vector in Hv. apply negb_false_iff in Hv.
  rewrite IntImm_make_spec by done. rewrite swrap_id; [done|apply int_width_range, Hw|done].
Qed.

Lemma UIntImm_make_in_range t v : std_int t -> is_vector t = false -> is_uint t = true ->
  in_urange (bits t) v -> UIntImm_make t v = Ok (UIntImm t v).
Proof.
  intros Ht Hv Hu Hr. pose proof (std_int_width _ Ht) as [[Hi _]|[_ Hw]];
    [by rewrite (int_not_uint _ Hi) in Hu|].
  unfold is_vector in Hv. apply negb_false_iff in Hv.
  rewrite UIntImm_make_spec by done. by rewrite uwrap_id.
Qed.

Lemma Type_limit_scalar t : std_int t -> is_vector t = false ->
  exists lo hi, Type_min_scalar t = Ok (const_node t lo) /\ Type_max_scalar t = Ok (const_node t hi) /\
    forall z, representable t z = true <-> lo <= z <= hi.
Proof.
  intros Ht Hv. pose proof (std_int_bits _ Ht) as Hb.
  destruct (std_int_class _ Ht) as (Hc & _).
  unfold Type_min_scalar, Type_max_scalar, const_node, representable.
  rewrite Hv, (element_of_scalar t) by done.
  destruct (is_int t) eqn:Hi.
  - exists (min_int (bits t)), (max_int (bits t)).
    pose proof (in_srange_limits (bits t)) as Hr.
    rewrite !IntImm_make_in_range by (done || (apply Hr; [done|]; rewrite min_int_spec, max_int_spec by done;
      pose proof (pow2_pos (bits t - 1)); lia)).
    split; [done|]. split; [done|]. intros z. by rewrite bool_decide_eq_true, Hr.
  - simpl in Hc. rewrite Hc. exists 0, (max_uint (bits t)).
    pose proof (max_uint_spec (bits t)) as Hm. pose proof (pow2_pos (bits t)) as Hp.
    rewrite !UIntImm_make_in_range by (done || (unfold in_urange; lia)).
    split; [done|]. split; [done|]. intros z. rewrite bool_decide_eq_true. unfold in_urange. lia.
Qed.

(** [Type::min] and [Type::max] of an integer type succeed, and the values of
    the type are exactly those between the constants they return, in every lane. *)
Theorem type_limits_exact p ρ t : std_int t ->
  exists lo hi emin emax, Type_min t = Ok emin /\ Type_max t = Ok emax /\
    eval p ρ emin = Some (replicate (Z.to_nat (lanes t)) (VInt lo)) /\
    eval p ρ emax = Some (replicate (Z.to_nat (lanes t)) (VInt hi)) /\
    forall z, representable t z = true <-> lo <= z <= hi.
Proof.
  intros Ht. pose proof (std_int_bits _ Ht) as Hb.
  destruct (element_of_fields t Hb) as (Hc & Hb' & Hl).
  unfold Type_min, Type_max. destruct (is_vector t) eqn:Hv.
  - pose proof (std_int_element _ Ht) as Hte.
    assert (Hve : is_vector (element_of t) = false) by (unfold is_vector; by rewrite Hl).
    destruct (Type_limit_scalar _ Hte Hve) as (lo & hi & -> & -> & Hr).
    assert (Hbm : forall v, Broadcast_make (eref (const_node (element_of t) v)) (lanes t) =
                  Ok (Broadcast (const_node (element_of t) v) (lanes t))).
    { intros v. unfold Broadcast_make, internal_assert. cbn [defined eref mbind res_bind].
      rewrite const_node_type by done. unfold is_scalar. rewrite Hl. simpl.
      unfold is_vector in Hv. by rewrite Hv. }
    cbn [mbind res_bind]. rewrite !Hbm.
    exists lo, hi. do 2 eexists. split; [done|]. split; [done|].
    cbn [eval]. rewrite !const_node_eval by done. rewrite Hl. cbn [mbind option_bind].
    split; [done|]. split; [done|]. intros z. rewrite <- Hr. unfold representable, is_int, is_uint.
    by rewrite Hc, Hb'.
  - destruct (Type_limit_scalar _ Ht Hv) as (lo & hi & -> & -> & Hr).
    exists lo, hi. do 2 eexists. split; [done|]. split; [done|].
    by rewrite !const_node_eval.
Qed.

Lemma type_limits_exact_witness :
  exists lo hi emin emax, Type_min (Int 8 4) = Ok emin /\ Type_max (Int 8 4) = Ok emax /\
    eval Machine empty_env emin = Some (replicate (Z.to_nat (lanes (Int 8 4))) (VInt lo)) /\
    eval Machine empty_env emax = Some (replicate (Z.to_nat (lanes (Int 8 4))) (VInt hi)) /\
    forall z, representable (Int 8 4) z = true <-> lo <= z <= hi.
Proof. apply type_limits_exact. repeat split; reflexivity. Defined.

(** ** Witnesses *)

Definition x_env (t : Ty) (z : Z) : env := bind_var empty_env "x" [VInt z].

Lemma x_env_ok t z : value_ok Machine t [VInt z] -> env_ok Machine {["x" := t]} (x_env t z).
Proof.
  intros H. constructor; simpl; try done. intros y u v. rewrite lookup_singleton_Some, lookup_insert_Some, lookup_empty.
  naive_solver.
Qed.

Lemma cast_sound_witness :
  exists zs e, [VInt 200] = VInt <$> zs /\
    cast (Int 8 4) (Some (Var (UInt 8 1) "x" None None None)) = Ok e /\
    type_eqb (type e) (Int 8 4) = true /\ wf e /\
    eval Machine (x_env (UInt 8 1) 200) e = Some (coerce (Int 8 4) zs).
Proof.
  apply (cast_sound {["x" := UInt 8 1]}).
  - repeat split; vm_compute; congruence.
  - repeat split; vm_compute; congruence.
  - left. reflexivity.
  - done.
  - repeat split; vm_compute; congruence.
  - apply x_env_ok. split; [done|]. apply Forall_singleton. by split.
  - reflexivity.
Defined.

Lemma operators_sound_witness :
  let x := Var (UInt 8 1) "x" None None None in
  let M := matched_type (UInt 8 1) (Int 16 1) in
  exists a' b', operator_add (Some x) (Some (IntImm (Int 16 1) (-300))) = Ok (Bin Add a' b') /\
    type_eqb (type a') M = true /\ wf (Bin Add a' b') /\
    eval Machine (x_env (UInt 8 1) 200) (Bin Add a' b') =
      zip_with_M (eval_binop Machine Add M) (coerce M [200]) (coerce M [-300]).
Proof.
  apply (operators_sound {["x" := UInt 8 1]} _ (Var (UInt 8 1) "x" None None None)
           (IntImm (Int 16 1) (-300)) [200] [-300] Add operator_add).
  - apply list_elem_of_here.
  - repeat split; vm_compute; congruence.
  - repeat split; vm_compute; congruence.
  - left. reflexivity.
  - done.
  - repeat split; vm_compute; congruence.
  - repeat split; vm_compute; congruence.
  - repeat split; vm_compute; congruence.
  - apply x_env_ok. split; [done|]. apply Forall_singleton. by split.
  - reflexivity.
  - reflexivity.
Defined.

Lemma lossless_cast_sound_witness :
  let e := Cast (Int 32 1) (Var (UInt 8 1) "x" None None None) in
  let e' := Cast (Int 16 1) (Var (UInt 8 1) "x" None None None) in
  lossless_cast (Int 16 1) e = Ok (Some e') /\
  (type_eqb (type e') (Int 16 1) = true /\ wf e' /\
   eval Machine (x_env (UInt 8 1) 200) e' = Some [VInt 200]).
Proof.
  split; [reflexivity|].
  apply (lossless_cast_sound {["x" := UInt 8 1]} _ _
           (Cast (Int 32 1) (Var (UInt 8 1) "x" None None None))).
  - repeat split; vm_compute; congruence.
  - repeat split; vm_compute; congruence.
  - reflexivity.
  - reflexivity.
  - repeat split; vm_compute; congruence.
  - repeat split; vm_compute; congruence.
  - apply x_env_ok. split; [done|]. apply Forall_singleton. by split.
  - reflexivity.
  - reflexivity.
Defined.

Lemma raise_to_integer_power_sound_witness :
  exists r, raise_to_integer_power (Var (UInt 8 1) "x" None None None) 5 = Ok r /\
    type_eqb (type r) (UInt 8 1) = true /\ wf r /\
    eval Machine (x_env (UInt 8 1) 7) r =
      Some ((fun z => VInt (wrap_type (UInt 8 1) (z ^ 5))) <$> [7]).
Proof.
  apply (raise_to_integer_power_sound {["x" := UInt 8 1]} _ (Var (UInt 8 1) "x" None None None)).
  - repeat split; vm_compute; congruence.
  - done.
  - repeat split; vm_compute; congruence.
  - apply x_env_ok. split; [done|]. apply Forall_singleton. by split.
  - reflexivity.
  - lia.
Defined.
