(* ===== verification/ModulusRemainder.v ===== *)
(** What an integer expression is divisible by: src/src/ModulusRemainder.h and
    src/src/ModulusRemainder.cpp. *)

From Stdlib Require Import ZArith Lia Bool SpecFloat.
From stdpp Require Import prelude strings gmap.
From S2P Require Import Prelude Types IR Semantics Scope.

#[local] Open Scope Z_scope.
#[local] Open Scope halide_scope.

(** * Arithmetic on [int] *)

(** The result of an [int] operation; out of range it is undefined. *)
Definition int_op (z : Z) : res Z :=
  if bool_decide (in_srange 32 z) then Ok z else Err (UB "int overflow").

(** [a % b] on [int]. *)
Definition int_rem (a b : Z) : res Z :=
  if c_div_undefined 32 a b then Err (UB "a % b") else Ok (Z.rem a b).
Definition int_quot (a b : Z) : res Z :=
  if c_div_undefined 32 a b then Err (UB "a / b") else Ok (Z.quot a b).

(** The loop of [gcd]. The second operand at least halves in two rounds, so 66 rounds
    empty any [int] ([gcd_loop_spec]). *)
Fixpoint gcd_loop (fuel : nat) (a b : Z) : res Z :=
  match fuel with
  | O => Err (InternalError "gcd: out of fuel")
  | S fuel =>
      if b =? 0 then Ok a
      else r ← int_rem a b; gcd_loop fuel b r
  end.

Definition gcd (a b : Z) : res Z :=
  if a <? b then gcd_loop 66 b a else gcd_loop 66 a b.

Definition lcm (a b : Z) : res Z :=
  p ← int_op (a * b); g ← gcd a b; int_quot p g.

Definition mod_ (a m : Z) : res Z := if m =? 0 then Ok a else mod_imp_int 32 a m.

(** * The analysis *)

Record ModulusRemainder := mkMR { modulus : Z; remainder : Z }.

#[global] Instance MR_inhabited : Inhabited ModulusRemainder := populate (mkMR 0 0).
#[global] Instance MR_eq_dec : EqDecision ModulusRemainder.
Proof. solve_decision. Defined.

Definition visit_Add (a b : ModulusRemainder) : res ModulusRemainder :=
  m ← gcd (modulus a) (modulus b);
  s ← int_op (remainder a + remainder b);
  r ← mod_ s m;
  Ok (mkMR m r).

Definition visit_Sub (a b : ModulusRemainder) : res ModulusRemainder :=
  m ← gcd (modulus a) (modulus b);
  s ← int_op (remainder a - remainder b);
  r ← mod_ s m;
  Ok (mkMR m r).

(** The members [modulus] and [remainder] hold the result of the last [analyze],
    that of [b]. In the last case the product's remainder is stored in the local
    copy [a.remainder], so the member still is [b]'s. *)
Definition visit_Mul (a b : ModulusRemainder) : res ModulusRemainder :=
  if modulus a =? 0 then
    m ← int_op (remainder a * modulus b);
    r ← int_op (remainder a * remainder b);
    Ok (mkMR m r)
  else if modulus b =? 0 then
    m ← int_op (remainder b * modulus a);
    r ← int_op (remainder a * remainder b);
    Ok (mkMR m r)
  else if (remainder a =? 0) && (remainder b =? 0) then
    m ← int_op (modulus a * modulus b);
    Ok (mkMR m 0)
  else if remainder a =? 0 then
    g ← gcd (modulus b) (remainder b);
    m ← int_op (modulus a * g);
    Ok (mkMR m 0)
  else if remainder b =? 0 then
    g ← gcd (modulus a) (remainder a);
    m ← int_op (modulus b * g);
    Ok (mkMR m 0)
  else
    m ← gcd (modulus a) (modulus b);
    p ← int_op (remainder a * remainder b);
    a_remainder ← mod_ p m;
    Ok (mkMR m (remainder b)).

Definition unify_alternatives (a b : ModulusRemainder) : res ModulusRemainder :=
  m ← gcd (modulus a) (modulus b);
  let diff := remainder a - remainder b in
  if negb (can_represent_int64 (Int 32 1) diff) then Ok (mkMR 0 1)
  else
    let diff := if diff <? 0 then - diff else diff in
    m ← gcd (swrap 32 diff) m;
    ra ← mod_ (remainder a) m;
    rb ← mod_ (remainder b) m;
    guard! ra =? rb else "There's a bug inside ModulusRemainder in unify_alternatives";
    Ok (mkMR m ra).

Definition visit_Mod (a b : ModulusRemainder) : res ModulusRemainder :=
  m ← gcd (modulus a) (modulus b);
  m ← gcd m (remainder b);
  r ← mod_ (remainder a) m;
  Ok (mkMR m r).

(** [ComputeModulusRemainder]: the scope is the visitor's state. *)
Fixpoint analyze (scope : Scope ModulusRemainder) (e : Expr)
  : res (ModulusRemainder * Scope ModulusRemainder) :=
  match e with
  | IntImm _ value => Ok (mkMR 0 (swrap 32 value), scope)
  | UIntImm _ _ => Err (InternalError "modulus_remainder of uint")
  | FloatImm _ _ => Err (InternalError "modulus_remainder of float")
  | StringImm _ => Err (InternalError "modulus_remainder of string")
  | Cast _ _ => Ok (mkMR 1 0, scope)
  | Var _ name _ _ _ =>
      if scope_contains scope name then mod_rem ← scope_get scope name; Ok (mod_rem, scope)
      else Ok (mkMR 1 0, scope)
  | Bin op a b =>
      let both (f : ModulusRemainder -> ModulusRemainder -> res ModulusRemainder) :=
        '(a, scope) ← analyze scope a;
        '(b, scope) ← analyze scope b;
        r ← f a b;
        Ok (r, scope) in
      match op with
      | Add => both visit_Add
      | Sub => both visit_Sub
      | Mul => both visit_Mul
      | Div => Ok (mkMR 1 0, scope)
      | Mod => both visit_Mod
      | Min => both unify_alternatives
      | Max => both unify_alternatives
      | EQ | NE | LT | LE | GT | GE | And | Or => Err (InternalError "modulus_remainder of bool")
      end
  | Not _ => Err (InternalError "modulus_remainder of bool")
  | Select _ true_value false_value =>
      '(t, scope) ← analyze scope true_value;
      '(f, scope) ← analyze scope false_value;
      r ← unify_alternatives t f;
      Ok (r, scope)
  | Load _ _ _ _ _ => Ok (mkMR 1 0, scope)
  | Ramp _ _ _ => Err (InternalError "modulus_remainder of vector")
  | Broadcast _ _ => Err (InternalError "modulus_remainder of vector")
  | Call _ _ _ _ _ _ _ _ => Ok (mkMR 1 0, scope)
  | Let name value body =>
      if is_int (type value) then
        '(val, scope) ← analyze scope value;
        '(val, scope) ← analyze (scope_push scope name val) body;
        scope ← scope_pop scope name;
        Ok (val, scope)
      else analyze scope body
  end.

(** The visitor's methods for statements. *)
Definition analyze_stmt (s : Stmt) : res ModulusRemainder :=
  Err (InternalError "modulus_remainder of statement").

Definition modulus_remainder (e : Expr) : res ModulusRemainder :=
  r ← analyze (set_containing_scope scope_new None) e; Ok (fst r).
Definition modulus_remainder_in (e : Expr) (scope : Scope ModulusRemainder) : res ModulusRemainder :=
  r ← analyze (set_containing_scope scope_new (Some scope)) e; Ok (fst r).

(** The value written to [*remainder] when the function returns true. *)
Definition reduce_result (result : ModulusRemainder) (m : Z) : res (option Z) :=
  q ← int_rem (modulus result) m;
  if q =? 0 then r ← int_rem (remainder result) m; Ok (Some r) else Ok None.
Definition reduce_expr_modulo (expr : Expr) (m : Z) : res (option Z) :=
  result ← modulus_remainder expr; reduce_result result m.
Definition reduce_expr_modulo_in (expr : Expr) (m : Z) (scope : Scope ModulusRemainder) : res (option Z) :=
  result ← modulus_remainder_in expr scope; reduce_result result m.

(** The test of the source. *)
Definition test_check (e : Expr) (m r : Z) : bool :=
  bool_decide (modulus_remainder e = Ok (mkMR m r)).
Definition modulus_remainder_test : bool :=
  let x := Var (Int 32 1) "x" None None None in
  let y := Var (Int 32 1) "y" None None None in
  let c v := IntImm (Int 32 1) v in
  test_check (Bin Add (Bin Add (Bin Mul (c 30) x) (c 3)) (Bin Add (Bin Mul (c 40) y) (c 2))) 10 5
  && test_check (Bin Mul (Bin Add (Bin Mul (c 6) x) (c 3)) (Bin Add (Bin Mul (c 4) y) (c 1))) 2 1
  && test_check (Bin Max (Bin Sub (Bin Mul (c 30) x) (c 24)) (Bin Add (Bin Mul (c 40) y) (c 31))) 5 1
  && test_check (Bin Sub (Bin Mul (c 10) x) (Bin Mul (c 33) y)) 1 0
  && test_check (Bin Sub (Bin Mul (c 10) x) (Bin Mul (c 35) y)) 5 0
  && test_check (c 123) 0 123
  && test_check (Let "y" (Bin Add (Bin Mul x (c 3)) (c 4)) (Bin Add (Bin Mul y (c 3)) (c 4))) 9 7.

Example modulus_remainder_test_passes : modulus_remainder_test = true.
Proof. vm_compute. reflexivity. Qed.

(** * gcd and mod *)

Lemma int_op_Ok z r : int_op z = Ok r <-> r = z /\ in_srange 32 z.
Proof. unfold int_op. case_bool_decide; naive_solver. Qed.

Lemma int_rem_Ok a b r : int_rem a b = Ok r -> b <> 0 /\ r = Z.rem a b.
Proof.
  unfold int_rem, c_div_undefined. destruct (Z.eqb_spec b 0); [done|].
  destruct (_ && _); [done|]. by intros [= <-].
Qed.

Lemma int_rem_safe a b : - 2 ^ 31 < a -> b <> 0 -> int_rem a b = Ok (Z.rem a b).
Proof.
  intros Ha Hb. unfold int_rem, c_div_undefined. rewrite (proj2 (Z.eqb_neq b 0)) by done.
  rewrite (proj2 (Z.eqb_neq a _)) by (simpl; lia). by rewrite andb_false_r.
Qed.

Lemma gcd_rem a b : b <> 0 -> Z.gcd b (Z.rem a b) = Z.gcd a b.
Proof.
  intros Hb. pose proof (Z.quot_rem a b Hb) as Hq.
  replace (Z.rem a b) with (a + (- Z.quot a b) * b) by lia.
  rewrite Z.gcd_add_mult_diag_r. apply Z.gcd_comm.
Qed.

Lemma gcd_loop_sound fuel : forall a b g, gcd_loop fuel a b = Ok g ->
  Z.abs g = Z.gcd a b /\ (in_srange 32 a -> in_srange 32 b -> in_srange 32 g).
Proof.
  induction fuel as [|fuel IH]; intros a b g H; [done|]. cbn [gcd_loop] in H.
  destruct (Z.eqb_spec b 0) as [->|Hb].
  - injection H as <-. by rewrite Z.gcd_0_r.
  - apply bind_Ok in H as (r & Hr & H). apply int_rem_Ok in Hr as [_ ->].
    apply IH in H as [H1 H2]. rewrite gcd_rem in H1 by done. split; [done|].
    intros Ha Hbr. apply H2; [done|]. pose proof (Z.rem_bound_abs a b Hb).
    unfold in_srange in *. lia.
Qed.

(** Two rounds at least halve the second operand. *)
Lemma rem_halves a b : b <> 0 -> Z.rem a b <> 0 -> 2 * Z.abs (Z.rem b (Z.rem a b)) < Z.abs b.
Proof.
  intros Hb Hr. set (r := Z.rem a b) in *.
  pose proof (Z.rem_bound_abs a b Hb) as H1. fold r in H1.
  pose proof (Z.rem_bound_abs b r Hr) as H2.
  pose proof (Z.quot_rem b r Hr) as H3. pose proof (Z.rem_sign_mul b r Hr) as H4.
  set (q := Z.quot b r) in *. set (s := Z.rem b r) in *.
  assert (q <> 0) by (intros ->; lia). nia.
Qed.

Lemma gcd_loop_total k : forall fuel a b,
  (2 * k + 1 <= fuel)%nat -> Z.abs b < 2 ^ Z.of_nat k ->
  - 2 ^ 31 < a < 2 ^ 31 -> - 2 ^ 31 < b < 2 ^ 31 -> exists g, gcd_loop fuel a b = Ok g.
Proof.
  induction k as [|k IH]; intros fuel a b Hf Hk Ha Hb; (destruct fuel as [|fuel]; [lia|]);
    cbn [gcd_loop]; destruct (Z.eqb_spec b 0) as [->|Hb0]; try by eexists.
  - simpl in Hk. lia.
  - rewrite int_rem_safe by lia. cbn [mbind res_bind].
    destruct fuel as [|fuel]; [lia|]. cbn [gcd_loop].
    pose proof (Z.rem_bound_abs a b Hb0). 
    destruct (Z.eqb_spec (Z.rem a b) 0) as [_|Hr]; [by eexists|].
    rewrite int_rem_safe by lia. cbn [mbind res_bind].
    pose proof (Z.rem_bound_abs b (Z.rem a b) Hr). pose proof (rem_halves a b Hb0 Hr).
    rewrite Nat2Z.inj_succ, Z.pow_succ_r in Hk by lia.
    apply IH; lia.
Qed.

(** [gcd] ends on every pair of [int]s other than those with the least value, with
    the greatest common divisor up to its sign. *)
Theorem gcd_total a b :
  - 2 ^ 31 < a < 2 ^ 31 -> - 2 ^ 31 < b < 2 ^ 31 ->
  exists g, gcd a b = Ok g /\ Z.abs g = Z.gcd a b.
Proof.
  intros Ha Hb. unfold gcd.
  assert (Ht : forall x y, - 2 ^ 31 < x < 2 ^ 31 -> - 2 ^ 31 < y < 2 ^ 31 ->
            exists g, gcd_loop 66 x y = Ok g /\ Z.abs g = Z.gcd x y).
  { intros x y Hx Hy. destruct (gcd_loop_total 32 66 x y) as [g Hg]; [lia| |done..|].
    - change (Z.of_nat 32) with 32. lia.
    - exists g. split; [done|]. by apply (gcd_loop_sound 66 x y). }
  destruct (a <? b); [|by apply Ht]. rewrite Z.gcd_comm. by apply Ht.
Qed.

Lemma gcd_total_witness : exists g, gcd (-12) 18 = Ok g /\ Z.abs g = Z.gcd (-12) 18.
Proof. apply gcd_total; lia. Defined.

Lemma gcd_sound a b g : gcd a b = Ok g ->
  Z.abs g = Z.gcd a b /\ (in_srange 32 a -> in_srange 32 b -> in_srange 32 g).
Proof.
  unfold gcd. destruct (a <? b); intros H; apply gcd_loop_sound in H as [H1 H2].
  - rewrite Z.gcd_comm. auto.
  - auto.
Qed.

Lemma gcd_divides a b g : gcd a b = Ok g -> (g | a) /\ (g | b).
Proof.
  intros H. apply gcd_sound in H as [H _]. rewrite <- !(Z.divide_abs_l g), H.
  split; [apply Z.gcd_divide_l|apply Z.gcd_divide_r].
Qed.

(** A defined [mod_imp] on [int] is the Euclidean remainder, the least divisor included. *)
Lemma mod_Ok a m r : in_srange 32 a -> in_srange 32 m -> mod_ a m = Ok r ->
  r = (if m =? 0 then a else emod a m) /\ in_srange 32 r.
Proof.
  intros Ha Hm. unfold mod_. destruct (Z.eqb_spec m 0) as [|Hm0]; [by intros [= <-]|].
  unfold mod_imp_int. destruct (c_div_undefined 32 a m); [done|]. cbn [Z.ltb Z.compare].
  destruct (euclid_correction a m Hm0) as [_ He]. destruct (quot_rem_sign a m Hm0) as (Hd & Hlt & Hs).
  unfold in_srange in *. change (32 - 1) with 31 in *.
  change (32 <? 32) with false. cbn iota. case_bool_decide as Hr; [|done]. intros [= <-].
  split; [|done]. rewrite He. destruct (Z.ltb_spec (Z.rem a m) 0); [|lia].
  destruct (Z.eq_dec m (- 2 ^ 31)) as [->|Hne].
  - change (swrap 32 (Z.abs (- 2 ^ 31))) with (- 2 ^ 31) in Hr. lia.
  - rewrite swrap_id; [lia|lia|]. unfold in_srange. change (32 - 1) with 31. lia.
Qed.

Lemma mod_range a m r : in_srange 32 a -> in_srange 32 m -> mod_ a m = Ok r -> in_srange 32 r.
Proof. intros Ha Hm H. by apply mod_Ok in H as [_ ?]. Qed.

Lemma mod_congr a m r : in_srange 32 a -> in_srange 32 m -> mod_ a m = Ok r -> (m | a - r).
Proof.
  intros Ha Hm H. apply mod_Ok in H as [-> _]; [|done..].
  destruct (Z.eqb_spec m 0) as [->|Hm0].
  - rewrite Z.sub_diag. apply Z.divide_0_r.
  - destruct (ediv_emod a m Hm0) as [He _]. exists (ediv a m). lia.
Qed.

(** * The handlers *)

(** [z] is congruent to the remainder modulo the modulus. *)
Definition congr (mr : ModulusRemainder) (z : Z) : Prop := (modulus mr | z - remainder mr).

Definition mr_ok (mr : ModulusRemainder) : Prop :=
  in_srange 32 (modulus mr) /\ in_srange 32 (remainder mr).

Lemma congr_weaken m m' z r : (m' | m) -> (m | z - r) -> (m' | z - r).
Proof. intros H1 H2. by transitivity m. Qed.

Lemma congr_shift m z s r : (m | z - s) -> (m | s - r) -> (m | z - r).
Proof. intros H1 H2. replace (z - r) with ((z - s) + (s - r)) by lia. by apply Z.divide_add_r. Qed.

Lemma in_srange_0 : in_srange 32 0.
Proof. unfold in_srange. simpl. lia. Qed.

Ltac by_mod lem := eapply lem; [| |eassumption]; assumption.

Ltac inv_ops :=
  repeat match goal with
  | H : @mbind res _ _ _ _ _ = Ok _ |- _ => apply bind_Ok in H; destruct H as (? & ? & ?)
  | H : int_op _ = Ok _ |- _ => apply int_op_Ok in H; destruct H as [-> ?]
  | H : Ok _ = Ok _ |- _ => injection H as <-
  end.

Lemma visit_Add_ok a b r : mr_ok a -> mr_ok b -> visit_Add a b = Ok r ->
  mr_ok r /\ forall x y, congr a x -> congr b y -> congr r (x + y).
Proof.
  intros [Ham Har] [Hbm Hbr] H. unfold visit_Add in H. inv_ops.
  rename H into Hg, H1 into Hm. destruct (gcd_divides _ _ _ Hg) as [Hga Hgb].
  apply gcd_sound in Hg as [_ Hgr]. specialize (Hgr Ham Hbm).
  split; [split; [done|by_mod mod_range]|]. intros z y Hz Hy. unfold congr in *. simpl.
  eapply congr_shift; [|by_mod mod_congr].
  replace (z + y - (remainder a + remainder b)) with ((z - remainder a) + (y - remainder b)) by lia.
  apply Z.divide_add_r; eauto using Z.divide_trans.
Qed.

Lemma visit_Sub_ok a b r : mr_ok a -> mr_ok b -> visit_Sub a b = Ok r ->
  mr_ok r /\ forall x y, congr a x -> congr b y -> congr r (x - y).
Proof.
  intros [Ham Har] [Hbm Hbr] H. unfold visit_Sub in H. inv_ops.
  rename H into Hg, H1 into Hm. destruct (gcd_divides _ _ _ Hg) as [Hga Hgb].
  apply gcd_sound in Hg as [_ Hgr]. specialize (Hgr Ham Hbm).
  split; [split; [done|by_mod mod_range]|]. intros z y Hz Hy. unfold congr in *. simpl.
  eapply congr_shift; [|by_mod mod_congr].
  replace (z - y - (remainder a - remainder b)) with ((z - remainder a) - (y - remainder b)) by lia.
  apply Z.divide_sub_r; eauto using Z.divide_trans.
Qed.

Lemma visit_Mod_ok a b r : mr_ok a -> mr_ok b -> visit_Mod a b = Ok r ->
  mr_ok r /\ forall x y, y <> 0 -> congr a x -> congr b y -> congr r (emod x y).
Proof.
  intros [Ham Har] [Hbm Hbr] H. unfold visit_Mod in H. inv_ops.
  rename H into Hg, H0 into Hg2, H1 into Hm.
  destruct (gcd_divides _ _ _ Hg) as [Hga Hgb], (gcd_divides _ _ _ Hg2) as [Hg2a Hg2b].
  apply gcd_sound in Hg as [_ Hgr], Hg2 as [_ Hg2r]. specialize (Hg2r (Hgr Ham Hbm) Hbr).
  split; [split; [done|by_mod mod_range]|]. intros z y Hy0 Hz Hy. unfold congr in *. simpl.
  eapply congr_shift; [|by_mod mod_congr].
  destruct (ediv_emod z y Hy0) as [He _].
  replace (emod z y - remainder a) with ((z - remainder a) - y * ediv z y) by lia.
  apply Z.divide_sub_r; [eauto using Z.divide_trans|]. apply Z.divide_mul_l.
  replace y with ((y - remainder b) + remainder b) by lia.
  apply Z.divide_add_r; eauto using Z.divide_trans.
Qed.

(** The products of which the code's answer is right: the last case leaves the second
    remainder, which must be that of the product. *)
Definition mul_exact (a b : ModulusRemainder) : bool :=
  (modulus a =? 0) || (modulus b =? 0) || (remainder a =? 0) || (remainder b =? 0)
  || ((remainder a * remainder b - remainder b) mod Z.gcd (modulus a) (modulus b) =? 0).

Lemma mul_congr ma ra mb rb z y :
  (ma | z - ra) -> (mb | y - rb) -> exists k l, z = ra + k * ma /\ y = rb + l * mb.
Proof. intros [k Hk] [l Hl]. exists k, l. lia. Qed.

Lemma visit_Mul_ok a b r : mr_ok a -> mr_ok b -> visit_Mul a b = Ok r ->
  mr_ok r /\ forall x y, mul_exact a b = true -> congr a x -> congr b y -> congr r (x * y).
Proof.
  intros [Ham Har] [Hbm Hbr] H. unfold visit_Mul in H. unfold mul_exact, congr, mr_ok.
  destruct (Z.eqb_spec (modulus a) 0) as [Hma|Hma].
  { inv_ops. split; [done|]. intros z y _ Hz Hy.
    destruct (mul_congr _ _ _ _ _ _ Hz Hy) as (k & l & -> & ->). rewrite Hma. simpl. exists l. lia. }
  destruct (Z.eqb_spec (modulus b) 0) as [Hmb|Hmb].
  { inv_ops. split; [done|]. intros z y _ Hz Hy.
    destruct (mul_congr _ _ _ _ _ _ Hz Hy) as (k & l & -> & ->). rewrite Hmb. simpl. exists k. lia. }
  destruct (Z.eqb_spec (remainder a) 0) as [Hra|Hra], (Z.eqb_spec (remainder b) 0) as [Hrb|Hrb];
    cbn [andb orb] in *; inv_ops; cbn [modulus remainder].
  - split; [split; [done|apply in_srange_0]|]. intros z y _ Hz Hy.
    destruct (mul_congr _ _ _ _ _ _ Hz Hy) as (k & l & -> & ->). rewrite Hra, Hrb. exists (k * l). lia.
  - split; [split; [done|apply in_srange_0]|]. intros z y _ Hz Hy.
    destruct (gcd_divides _ _ _ H) as [[p Hp] [q Hq]].
    destruct (mul_congr _ _ _ _ _ _ Hz Hy) as (k & l & -> & ->). rewrite Hra, Hp, Hq.
    exists (k * (q + l * p)). lia.
  - split; [split; [done|apply in_srange_0]|]. intros z y _ Hz Hy.
    destruct (gcd_divides _ _ _ H) as [[p Hp] [q Hq]].
    destruct (mul_congr _ _ _ _ _ _ Hz Hy) as (k & l & -> & ->). rewrite Hrb, Hp, Hq.
    exists (l * (q + k * p)). lia.
  - destruct (gcd_divides _ _ _ H) as [[p Hp] [q Hq]]. apply gcd_sound in H as [Habs Hg]. split; [split; [auto|done]|].
    intros z y Hex%Z.eqb_eq Hz Hy. apply Z.mod_divide in Hex; [|by intros ?%Z.gcd_eq_0_l].
    rewrite <- Habs, Z.divide_abs_l in Hex.
    destruct (mul_congr _ _ _ _ _ _ Hz Hy) as (k & l & -> & ->), Hex as [c Hc]. rewrite Hp, Hq.
    exists (c + k * p * remainder b + l * q * remainder a + k * l * p * q * x). lia.
Qed.

Lemma can_represent_int32 z : can_represent_int64 (Int 32 1) z = true <-> in_srange 32 z.
Proof. symmetry. rewrite (in_srange_limits 32) by lia. unfold can_represent_int64. simpl. rewrite andb_true_iff, !Z.leb_le. done. Qed.

(** The alternatives whose difference does not overflow. *)
Definition unify_exact (a b : ModulusRemainder) : bool :=
  can_represent_int64 (Int 32 1) (remainder a - remainder b).

(** The difference is taken up to its sign; the least one stays what it is. *)
Lemma unify_difference diff : in_srange 32 diff ->
  let d := swrap 32 (if diff <? 0 then - diff else diff) in
  (forall m, (m | d) -> (m | diff)) /\ in_srange 32 d.
Proof.
  intros Hd d. split; [|by apply swrap_range]. intros m Hm. unfold d in Hm.
  destruct (Z.ltb_spec diff 0); [|by rewrite swrap_id in Hm by (done || lia)].
  destruct (Z.eq_dec diff (- 2 ^ 31)) as [->|Hne]; [exact Hm|].
  rewrite swrap_id in Hm; [by apply Z.divide_opp_r|lia|]. unfold in_srange in *. change (32 - 1) with 31 in *. lia.
Qed.

Lemma unify_ok a b r : mr_ok a -> mr_ok b -> unify_alternatives a b = Ok r ->
  mr_ok r /\ forall x, unify_exact a b = true -> congr a x \/ congr b x -> congr r x.
Proof.
  intros [Ham Har] [Hbm Hbr] H. unfold unify_alternatives, unify_exact in *. inv_ops.
  rename H into Hg. destruct (can_represent_int64 _ _) eqn:Hc; cbn [negb] in H0.
  - cbv zeta in H0. apply bind_Ok in H0 as (m & Hg2 & H0).
    apply bind_Ok in H0 as (ra & Hma & H0). apply bind_Ok in H0 as (rb & Hmb & H0).
    apply bind_Ok in H0 as (u & _ & H0). injection H0 as <-.
    apply can_represent_int32 in Hc.
    destruct (unify_difference _ Hc) as [Hd' Hdr]. set (d := swrap 32 _) in *.
    destruct (gcd_divides _ _ _ Hg) as [Hga Hgb], (gcd_divides _ _ _ Hg2) as [Hgd Hgg].
    apply gcd_sound in Hg as [_ Hgr], Hg2 as [_ Hg2r]. specialize (Hg2r Hdr (Hgr Ham Hbm)).
    split; [split; [done|by_mod mod_range]|]. intros z _ Hz. unfold congr in *. simpl.
    eapply congr_shift; [|by_mod mod_congr].
    destruct Hz as [Hz|Hz]; [eauto using Z.divide_trans|].
    replace (z - remainder a) with ((z - remainder b) - (remainder a - remainder b)) by lia.
    apply Z.divide_sub_r; [eauto using Z.divide_trans|].
    by apply Hd'.
  - inv_ops. split; [|done]. split; simpl; [apply in_srange_0|]. unfold in_srange. simpl. lia.
Qed.

(** The conditions ask for no more than the handlers need: where a product or a pair of
    alternatives is not exact, the answer is wrong for some operands. *)
Lemma inexact_answers a b r : mr_ok a -> mr_ok b ->
  (visit_Mul a b = Ok r -> mul_exact a b = false -> exists x y, congr a x /\ congr b y /\ ~ congr r (x * y)) /\
  (unify_alternatives a b = Ok r -> unify_exact a b = false -> exists x, (congr a x \/ congr b x) /\ ~ congr r x).
Proof.
  intros [_ Har] [_ Hbr]. assert (Hself : forall mr, congr mr (remainder mr)).
  { intros mr. unfold congr. rewrite Z.sub_diag. apply Z.divide_0_r. }
  split; intros H Hex.
  - exists (remainder a), (remainder b). split; [done|]. split; [done|]. unfold visit_Mul in H. unfold mul_exact in Hex.
    rewrite !orb_false_iff in Hex. destruct Hex as [[[[Hma Hmb] Hra] Hrb] Hex]. rewrite Hma, Hmb, Hra, Hrb in H. cbn [andb] in H.
    inv_ops. apply gcd_sound in H as [Habs _]. apply Z.eqb_neq in Hex. intros Hc. apply Hex. unfold congr in Hc. cbn [modulus remainder] in Hc.
    apply Z.mod_divide; [apply Z.eqb_neq in Hma; by intros ?%Z.gcd_eq_0_l|]. by rewrite <- Habs, Z.divide_abs_l.
  - unfold unify_alternatives, unify_exact in *. rewrite Hex in H. cbn [negb] in H. inv_ops.
    assert (Hne : remainder a <> 1 \/ remainder b <> 1).
    { destruct (Z.eq_dec (remainder a) 1) as [E|]; [right|by left]. intros E'. by rewrite E, E' in Hex. }
    destruct Hne as [Hne|Hne]; [exists (remainder a)|exists (remainder b)]; (split; [auto|]); intros Hc; unfold congr in Hc; cbn [modulus remainder] in Hc; apply Z.divide_0_l in Hc; lia.
Qed.

(** * Whole expressions *)

(** The analysis leaves the scope as it found it. *)
Lemma analyze_scope e : forall s r s', scope_wf s -> analyze s e = Ok (r, s') -> s' = s.
Proof.
  assert (Hboth : forall a b (f : ModulusRemainder -> ModulusRemainder -> res ModulusRemainder) s r s',
    (forall s r s', scope_wf s -> analyze s a = Ok (r, s') -> s' = s) ->
    (forall s r s', scope_wf s -> analyze s b = Ok (r, s') -> s' = s) ->
    scope_wf s ->
    ('(ra, s1) ← analyze s a; '(rb, s2) ← analyze s1 b; r ← f ra rb; Ok (r, s2)) = Ok (r, s') -> s' = s).
  { intros a b f s r s' Ha Hb Hs H. apply bind_Ok in H as ([ra s1] & H1 & H).
    apply bind_Ok in H as ([rb s2] & H2 & H). apply bind_Ok in H as (r' & _ & H).
    injection H as _ <-. apply Ha in H1 as ->; [|done]. by apply Hb in H2. }
  induction e using Expr_ind'; intros s0 mr s' Hs Ha; cbn [analyze] in Ha; try discriminate;
    try (injection Ha as _ <-; done).
  - destruct (scope_contains s0 n); inv_res; try done; by injection Ha.
  - destruct op; try discriminate; try (injection Ha as _ <-; done);
      eapply (Hboth e1 e2); eauto; done.
  - eapply (Hboth e2 e3); eauto.
  - destruct (is_int (type e1)); [|by eapply IHe2].
    apply bind_Ok in Ha as ([v s1] & H1 & Ha). apply IHe1 in H1 as ->; [|done].
    apply bind_Ok in Ha as ([v2 s2] & H2 & Ha). apply IHe2 in H2 as ->; [|by apply scope_push_wf].
    apply bind_Ok in Ha as (s3 & H3 & Ha). rewrite scope_pop_push in H3 by done.
    injection H3 as <-. by injection Ha as _ <-.
Qed.

(** No constant beyond [int], no product whose remainder is lost, and no alternatives
    whose difference overflows, is met on the way. *)
Fixpoint defect_free (scope : Scope ModulusRemainder) (e : Expr) : bool :=
  match e with
  | IntImm _ value => bool_decide (in_srange 32 value)
  | Bin op a b =>
      match op with
      | Add | Sub | Mod => defect_free scope a && defect_free scope b
      | Mul =>
          defect_free scope a && defect_free scope b &&
          match analyze scope a, analyze scope b with
          | Ok (ra, _), Ok (rb, _) => mul_exact ra rb
          | _, _ => true
          end
      | Min | Max =>
          defect_free scope a && defect_free scope b &&
          match analyze scope a, analyze scope b with
          | Ok (ra, _), Ok (rb, _) => unify_exact ra rb
          | _, _ => true
          end
      | _ => true
      end
  | Select _ t f =>
      defect_free scope t && defect_free scope f &&
      match analyze scope t, analyze scope f with
      | Ok (rt, _), Ok (rf, _) => unify_exact rt rf
      | _, _ => true
      end
  | Let name value body =>
      if is_int (type value) then
        defect_free scope value &&
        match analyze scope value with
        | Ok (v, _) => defect_free (scope_push scope name v) body
        | Err _ => true
        end
      else defect_free scope body
  | _ => true
  end.

(** Every lane is an integer congruent to what [mr] says. *)
Definition lane_congr (mr : ModulusRemainder) (s : scalar) : Prop :=
  exists z, s = VInt z /\ congr mr z.
Definition lanes_congr (mr : ModulusRemainder) (v : value) : Prop := Forall (lane_congr mr) v.

(** What the scope says of the variables that do not wrap is true of the environment. *)
Definition scope_sound (Γ : gmap string Ty) (ρ : env) (s : Scope ModulusRemainder) : Prop :=
  forall n mr, scope_get s n = Ok mr -> mr_ok mr /\
    forall t v, Γ !! n = Some t -> unbounded t = true -> vars ρ !! n = Some v -> lanes_congr mr v.

Lemma scope_new_sound Γ ρ : scope_sound Γ ρ (set_containing_scope scope_new None).
Proof. intros n mr H. simpl in H. by rewrite lookup_empty in H. Qed.

Lemma scope_push_sound Γ ρ s n t v mr :
  scope_wf s -> scope_sound Γ ρ s -> mr_ok mr -> (unbounded t = true -> lanes_congr mr v) ->
  scope_sound (<[n := t]> Γ) (bind_var ρ n v) (scope_push s n mr).
Proof.
  intros Hwf Hs Hm Hv m mr' H. rewrite scope_get_push in H by done. simpl.
  destruct (decide (n = m)) as [->|Hne].
  - injection H as <-. split; [done|]. intros u w. rewrite !lookup_insert_eq. intros [= <-] Hu [= <-]. auto.
  - destruct (Hs _ _ H) as [Hok Hl]. split; [done|]. intros u w.
    rewrite !lookup_insert_ne by done. apply Hl.
Qed.

(** A binding the analysis does not record, of a type it knows nothing about. *)
Lemma scope_hide_sound Γ ρ s n t v :
  scope_sound Γ ρ s -> is_int t = false -> scope_sound (<[n := t]> Γ) (bind_var ρ n v) s.
Proof.
  intros Hs Ht m mr H. destruct (Hs _ _ H) as [Hok Hl]. split; [done|]. intros u w. simpl.
  destruct (decide (n = m)) as [->|Hne].
  - rewrite !lookup_insert_eq. intros [= <-] Hu. unfold unbounded in Hu. by rewrite Ht in Hu.
  - rewrite !lookup_insert_ne by done. apply Hl.
Qed.

Lemma unbounded_eqb t u : type_eqb t u = true -> unbounded t = unbounded u.
Proof. intros H. apply type_eqb_fields in H as (Hc & Hb & _). unfold unbounded, is_int. by rewrite Hc, Hb. Qed.

Lemma no_information t v : unbounded t = true -> value_ok Ideal t v -> lanes_congr (mkMR 1 0) v.
Proof.
  intros Ht [_ Hf]. unfold unbounded in Ht. apply andb_true_iff in Ht as [Hi _].
  eapply Forall_impl; [done|]. intros s Hs.
  assert (Hiu : is_int t || is_uint t = true) by (by rewrite Hi).
  destruct s as [z|f|s|z]; simpl in Hs.
  - exists z. split; [done|]. apply Z.divide_1_l.
  - by rewrite (int_or_uint_not_float _ Hiu) in Hs.
  - by rewrite (int_or_uint_not_handle _ Hiu) in Hs.
  - by rewrite (int_or_uint_not_handle _ Hiu) in Hs.
Qed.

Lemma no_information_ok : mr_ok (mkMR 1 0).
Proof. split; simpl; unfold in_srange; simpl; lia. Qed.

(** Results stay in the [int] range. *)
Lemma analyze_range e : forall s r s',
  scope_wf s -> (forall n mr, scope_get s n = Ok mr -> mr_ok mr) -> analyze s e = Ok (r, s') -> mr_ok r.
Proof.
  assert (Hboth : forall a b (f : ModulusRemainder -> ModulusRemainder -> res ModulusRemainder) s r s',
    (forall s r s', scope_wf s -> (forall n mr, scope_get s n = Ok mr -> mr_ok mr) ->
       analyze s a = Ok (r, s') -> mr_ok r) ->
    (forall s r s', scope_wf s -> (forall n mr, scope_get s n = Ok mr -> mr_ok mr) ->
       analyze s b = Ok (r, s') -> mr_ok r) ->
    (forall ra rb r, mr_ok ra -> mr_ok rb -> f ra rb = Ok r -> mr_ok r) ->
    scope_wf s -> (forall n mr, scope_get s n = Ok mr -> mr_ok mr) ->
    ('(ra, s1) ← analyze s a; '(rb, s2) ← analyze s1 b; r ← f ra rb; Ok (r, s2)) = Ok (r, s') -> mr_ok r).
  { intros a b f s r s' Ha Hb Hf Hs Hg H. apply bind_Ok in H as ([ra s1] & H1 & H).
    apply bind_Ok in H as ([rb s2] & H2 & H). apply bind_Ok in H as (r' & H3 & H).
    injection H as <- _. pose proof (analyze_scope _ _ _ _ Hs H1) as ->. eauto. }
  induction e using Expr_ind'; intros s0 mr s' Hs Hg Ha; cbn [analyze] in Ha; try discriminate;
    try (injection Ha as <- _; apply no_information_ok).
  - injection Ha as <- _. split; simpl; [apply in_srange_0|by apply swrap_range].
  - destruct (scope_contains s0 n); [apply bind_Ok in Ha as (m & Hm & Ha)|]; injection Ha as <- _;
      eauto using no_information_ok.
  - destruct op; try discriminate; try (injection Ha as <- _; apply no_information_ok);
      eapply (Hboth e1 e2 _ s0 mr s' IHe1 IHe2); try exact Ha; try done; intros ra rb r' Hra Hrb Hr.
    + by apply (visit_Add_ok ra rb).
    + by apply (visit_Sub_ok ra rb).
    + by apply (visit_Mul_ok ra rb).
    + by apply (visit_Mod_ok ra rb).
    + by apply (unify_ok ra rb).
    + by apply (unify_ok ra rb).
  - eapply (Hboth e2 e3 _ s0 mr s' IHe2 IHe3); try exact Ha; try done.
    intros ra rb r' Hra Hrb Hr. by apply (unify_ok ra rb).
  - destruct (is_int (type e1)); [|by eapply IHe2].
    apply bind_Ok in Ha as ([v s1] & H1 & Ha). pose proof (analyze_scope _ _ _ _ Hs H1) as ->.
    apply bind_Ok in Ha as ([v2 s2] & H2 & Ha). apply bind_Ok in Ha as (s3 & _ & Ha). injection Ha as <- _.
    eapply IHe2; [| |exact H2]; [by apply scope_push_wf|].
    intros m mr'. rewrite scope_get_push by done. case_decide; [intros [= <-]|]; eauto.
Qed.

(** The exactness a handler's result depends on. *)
Definition op_exact (op : binop) (ra rb : ModulusRemainder) : bool :=
  match op with Mul => mul_exact ra rb | Min | Max => unify_exact ra rb | _ => true end.

Definition op_handler (op : binop) : option (ModulusRemainder -> ModulusRemainder -> res ModulusRemainder) :=
  match op with
  | Add => Some visit_Add | Sub => Some visit_Sub | Mul => Some visit_Mul | Mod => Some visit_Mod
  | Min | Max => Some unify_alternatives | _ => None
  end.

Lemma op_handler_sound op f t ra rb r x y z :
  op_handler op = Some f -> unbounded t = true -> mr_ok ra -> mr_ok rb -> f ra rb = Ok r ->
  op_exact op ra rb = true -> lane_congr ra x -> lane_congr rb y ->
  eval_binop Ideal op t x y = Some z -> lane_congr r z.
Proof.
  intros Hop Ht Ha Hb Hf Hex (zx & -> & Hx) (zy & -> & Hy) He. cbn [eval_binop] in He.
  apply bind_Some in He as (z' & He & Hz). injection Hz as <-. exists z'. split; [done|].
  destruct op; try discriminate; injection Hop as <-; cbn [int_binop ov_result] in He;
    rewrite ?Ht in He.
  - injection He as <-. by apply (visit_Add_ok ra rb r Ha Hb Hf).
  - injection He as <-. by apply (visit_Sub_ok ra rb r Ha Hb Hf).
  - injection He as <-. by apply (visit_Mul_ok ra rb r Ha Hb Hf).
  - destruct (Z.eqb_spec zy 0); [done|]. injection He as <-. by apply (visit_Mod_ok ra rb r Ha Hb Hf).
  - injection He as <-. apply (unify_ok ra rb r Ha Hb Hf); [done|].
    destruct (Z.min_spec zx zy) as [[_ ->]|[_ ->]]; auto.
  - injection He as <-. apply (unify_ok ra rb r Ha Hb Hf); [done|].
    destruct (Z.max_spec zx zy) as [[_ ->]|[_ ->]]; auto.
Qed.

Lemma analyze_Bin s op a b f : op_handler op = Some f ->
  analyze s (Bin op a b) =
    ('(ra, s1) ← analyze s a; '(rb, s2) ← analyze s1 b; r ← f ra rb; Ok (r, s2)) /\
  defect_free s (Bin op a b) =
    defect_free s a && defect_free s b &&
    (match op with
     | Mul | Min | Max =>
         match analyze s a, analyze s b with Ok (ra, _), Ok (rb, _) => op_exact op ra rb | _, _ => true end
     | _ => true end).
Proof. destruct op; try discriminate; intros [= <-]; split; try done; by rewrite andb_true_r. Qed.

Lemma op_exact_other op ra rb : op <> Mul -> op <> Min -> op <> Max -> op_exact op ra rb = true.
Proof. by destruct op. Qed.

Lemma analyze_pair_sound s s' a b mr
    (f : ModulusRemainder -> ModulusRemainder -> res ModulusRemainder) :
  scope_wf s -> (forall n mr, scope_get s n = Ok mr -> mr_ok mr) ->
  ('(ra, s1) ← analyze s a; '(rb, s2) ← analyze s1 b; r ← f ra rb; Ok (r, s2)) = Ok (mr, s') ->
  exists ra rb, analyze s a = Ok (ra, s) /\ analyze s b = Ok (rb, s) /\ f ra rb = Ok mr /\
    mr_ok ra /\ mr_ok rb.
Proof.
  intros Hs Hg H. apply bind_Ok in H as ([ra s1] & H1 & H).
  pose proof (analyze_scope _ _ _ _ Hs H1) as ->. apply bind_Ok in H as ([rb s2] & H2 & H).
  pose proof (analyze_scope _ _ _ _ Hs H2) as ->. apply bind_Ok in H as (r & H3 & H).
  injection H as <- _. exists ra, rb. eauto 10 using analyze_range.
Qed.
Lemma analyze_sound e : forall Γ ρ s mr s' v,
  scope_wf s -> scope_sound Γ ρ s -> wf e -> typed Γ e -> env_ok Ideal Γ ρ ->
  unbounded (type e) = true -> defect_free s e = true ->
  analyze s e = Ok (mr, s') -> eval Ideal ρ e = Some v -> lanes_congr mr v.
Proof.
  induction e using Expr_ind'; intros Γ ρ s0 mr s' v0 Hs Hsound Hwf Hty Hρ Hint Hdf Han Hev;
    pose proof (fun n m Hn => proj1 (Hsound n m Hn)) as Hok;
    pose proof (eval_value_ok Ideal Γ ρ _ v0 Hwf Hty Hρ Hev) as Hval;
    try (cbn [analyze] in Han; discriminate);
    try (cbn [analyze] in Han; injection Han as <- _; by eapply no_information).
  - (* IntImm *)
    cbn [analyze] in Han. injection Han as <- _. injection Hev as <-. apply Forall_singleton.
    exists v. split; [done|]. unfold congr. cbn [modulus remainder].
    cbn [defect_free] in Hdf. apply bool_decide_eq_true in Hdf. rewrite swrap_id by (done || lia).
    rewrite Z.sub_diag. apply Z.divide_0_r.
  - (* Variable *)
    cbn [analyze] in Han. destruct (scope_contains s0 n) eqn:Hc.
    + apply bind_Ok in Han as (m & Hm & Han). injection Han as <- _.
      destruct Hty as [_ Hty]. by eapply (Hsound _ _ Hm).
    + injection Han as <- _. by eapply no_information.
  - (* binary nodes *)
    destruct (op_handler op) as [f|] eqn:Hop.
    2: { destruct op; try discriminate. cbn [analyze] in Han. injection Han as <- _.
         by eapply no_information. }
    destruct (analyze_Bin s0 op e1 e2 f Hop) as [HA HD]. rewrite HA in Han. rewrite HD in Hdf.
    apply andb_true_iff in Hdf as [Hdf Hex]. apply andb_true_iff in Hdf as [Hd1 Hd2].
    destruct (analyze_pair_sound s0 s' e1 e2 mr f Hs Hok Han) as (ra & rb & H1 & H2 & Hf & Hra & Hrb).
    assert (Hexact : op_exact op ra rb = true).
    { rewrite H1, H2 in Hex. by destruct op. }
    assert (Ht1 : unbounded (type e1) = true).
    { rewrite <- Hint. cbn [type]. by destruct op. }
    destruct Hwf as [[Heq _] [Hw1 Hw2]], Hty as [Hty1 Hty2].
    pose proof (unbounded_eqb _ _ Heq) as Ht2. rewrite Ht1 in Ht2. symmetry in Ht2.
    cbn [eval] in Hev. apply bind_Some in Hev as (va & Hva & Hev).
    apply bind_Some in Hev as (vb & Hvb & Hev).
    apply (zip_with_M_preserve _ (lane_congr ra) (lane_congr rb) (lane_congr mr)) with (4 := Hev).
    + intros x y z Hx Hy Hz.
      by apply (op_handler_sound op f (type e1) ra rb mr x y z Hop Ht1).
    + by apply (IHe1 Γ ρ s0 ra s0).
    + by apply (IHe2 Γ ρ s0 rb s0).
  - (* Select *)
    cbn [analyze defect_free] in Han, Hdf.
    apply andb_true_iff in Hdf as [Hdf Hex]. apply andb_true_iff in Hdf as [Hd1 Hd2].
    destruct (analyze_pair_sound s0 s' e2 e3 mr _ Hs Hok Han) as (ra & rb & H1 & H2 & Hf & Hra & Hrb).
    rewrite H1, H2 in Hex.
    destruct Hwf as [(_ & Heq & _) (Hw1 & Hw2 & Hw3)], Hty as (Hty1 & Hty2 & Hty3).
    pose proof (unbounded_eqb _ _ Heq) as Ht3. change (type (Select e1 e2 e3)) with (type e2) in Hint.
    rewrite Hint in Ht3.
    cbn [eval] in Hev. apply bind_Some in Hev as (vc & Hvc & Hev).
    apply bind_Some in Hev as (vt & Hvt & Hev). apply bind_Some in Hev as (vf & Hvf & Hev).
    destruct (unify_ok ra rb mr Hra Hrb Hf) as [_ Hu].
    assert (Ht : lanes_congr mr vt).
    { assert (lanes_congr ra vt) by (eapply IHe2; eauto).
      eapply Forall_impl; [done|]. intros x (z & -> & Hz). exists z. auto. }
    assert (Hfl : lanes_congr mr vf).
    { assert (lanes_congr rb vf) by (eapply IHe3; eauto).
      eapply Forall_impl; [done|]. intros x (z & -> & Hz). exists z. auto. }
    destruct vc as [|x [|]].
    + by eapply select_lanes_Forall in Hev as [_ ?].
    + apply bind_Some in Hev as (bb & _ & Hev). injection Hev as <-. by destruct bb.
    + by eapply select_lanes_Forall in Hev as [_ ?].
  - (* Let *)
    cbn [analyze defect_free] in Han, Hdf. destruct Hwf as [_ [Hw1 Hw2]], Hty as [Hty1 Hty2].
    cbn [eval] in Hev. apply bind_Some in Hev as (vv & Hvv & Hev).
    pose proof (eval_value_ok Ideal Γ ρ _ _ Hw1 Hty1 Hρ Hvv) as Hvok.
    pose proof (env_ok_bind Ideal Γ ρ n (type e1) vv Hρ Hvok) as Hρ'.
    destruct (is_int (type e1)) eqn:Hi.
    + apply andb_true_iff in Hdf as [Hd1 Hd2].
      apply bind_Ok in Han as ([val s1] & H1 & Han). rewrite H1 in Hd2.
      pose proof (analyze_scope _ _ _ _ Hs H1) as ->.
      apply bind_Ok in Han as ([val2 s2] & H2 & Han). apply bind_Ok in Han as (s3 & _ & Han).
      injection Han as <- _.
      eapply (IHe2 (<[n := type e1]> Γ) (bind_var ρ n vv) (scope_push s0 n val)); eauto.
      * by apply scope_push_wf.
      * apply scope_push_sound; eauto using analyze_range.
    + eapply (IHe2 (<[n := type e1]> Γ) (bind_var ρ n vv) s0); eauto. by apply scope_hide_sound.
Qed.

(** C1. [modulus_remainder] is right where it is [defect_free]: for a well-formed signed
    integer expression of 32 bits or more on which no constant beyond [int], no product
    whose remainder is lost and no alternatives whose difference overflows are met, in an
    environment that agrees with the containing scope, every lane of every value of the
    expression is congruent to the remainder modulo the modulus. What is left out is
    wrong ([inexact_answers], [modulus_remainder_defects]). *)
Theorem modulus_remainder_sound Γ ρ scope e mr v :
  scope_sound Γ ρ (set_containing_scope scope_new (Some scope)) ->
  wf e -> typed Γ e -> env_ok Ideal Γ ρ -> unbounded (type e) = true ->
  defect_free (set_containing_scope scope_new (Some scope)) e = true ->
  modulus_remainder_in e scope = Ok mr -> eval Ideal ρ e = Some v -> lanes_congr mr v.
Proof.
  intros Hs Hwf Hty Hρ Hi Hd H Hev. unfold modulus_remainder_in in H.
  apply bind_Ok in H as ([r s'] & Ha & H). injection H as <-.
  eapply analyze_sound; [|exact Hs|..]; eauto. apply scope_set_containing_wf, scope_new_wf.
Qed.

(** [reduce_expr_modulo] answers only what holds: when it returns a remainder for
    a modulus, every lane of the expression is congruent to it. *)
Theorem reduce_expr_modulo_sound Γ ρ e m r v :
  wf e -> typed Γ e -> env_ok Ideal Γ ρ -> unbounded (type e) = true ->
  defect_free (set_containing_scope scope_new None) e = true ->
  reduce_expr_modulo e m = Ok (Some r) -> eval Ideal ρ e = Some v -> lanes_congr (mkMR m r) v.
Proof.
  intros Hwf Hty Hρ Hi Hd H Hev. unfold reduce_expr_modulo, modulus_remainder in H.
  apply bind_Ok in H as (mr & H1 & H). apply bind_Ok in H1 as ([mr' s'] & Ha & H1).
  injection H1 as <-. cbn [fst] in H.
  assert (Hl : lanes_congr mr' v).
  { eapply analyze_sound; [|apply scope_new_sound|..]; eauto. apply scope_set_containing_wf, scope_new_wf. }
  unfold reduce_result in H. apply bind_Ok in H as (q & Hq & H). apply int_rem_Ok in Hq as [Hm ->].
  destruct (Z.eqb_spec (Z.rem (modulus mr') m) 0) as [Hz|]; [|done].
  apply bind_Ok in H as (r' & Hr & H). injection H as <-. apply int_rem_Ok in Hr as [_ ->].
  apply Z.rem_divide in Hz; [|done].
  eapply Forall_impl; [done|]. intros x (z & -> & Hc). exists z. split; [done|]. unfold congr in *. simpl.
  eapply congr_shift; [by eapply congr_weaken|].
  exists (Z.quot (remainder mr') m). pose proof (Z.quot_rem (remainder mr') m Hm). lia.
Qed.

(** ** Safety *)

(** Expressions the visitor has a method for in every position it visits. *)
Fixpoint analyzable (e : Expr) : bool :=
  match e with
  | IntImm _ _ | Cast _ _ | Var _ _ _ _ _ | Load _ _ _ _ _ | Call _ _ _ _ _ _ _ _ => true
  | Bin op a b =>
      match op with
      | Add | Sub | Mul | Mod | Min | Max => analyzable a && analyzable b
      | Div => true
      | _ => false
      end
  | Select _ t f => analyzable t && analyzable f
  | Let _ value body => (negb (is_int (type value)) || analyzable value) && analyzable body
  | _ => false
  end.

(** Success, or an [int] operation with no defined result. *)
Definition ok_or_ub {A} (r : res A) : Prop :=
  match r with Ok _ | Err (UB _) => True | _ => False end.

Lemma ok_or_ub_bind {A B} (m : res A) (f : A -> res B) :
  ok_or_ub m -> (forall a, m = Ok a -> ok_or_ub (f a)) -> ok_or_ub (m ≫= f).
Proof. destruct m as [a|[]]; simpl; auto. Qed.

Lemma int_op_ub z : ok_or_ub (int_op z).
Proof. unfold int_op. by case_bool_decide. Qed.

Lemma int_rem_ub a b : ok_or_ub (int_rem a b).
Proof. unfold int_rem. by destruct (c_div_undefined 32 a b). Qed.

Lemma mod_ub a m : ok_or_ub (mod_ a m).
Proof.
  unfold mod_, mod_imp_int. destruct (m =? 0); [done|].
  destruct (c_div_undefined 32 a m); [done|]. change (32 <? 32) with false. cbn iota. by case_bool_decide.
Qed.

(** With the least value the loop may stop at an undefined [%], but never runs out. *)
Lemma gcd_loop_ub k : forall fuel a b,
  (2 * k + 1 <= fuel)%nat -> Z.abs b < 2 ^ Z.of_nat k -> ok_or_ub (gcd_loop fuel a b).
Proof.
  induction k as [|k IH]; intros fuel a b Hf Hk; (destruct fuel as [|fuel]; [lia|]);
    cbn [gcd_loop]; destruct (Z.eqb_spec b 0) as [->|Hb0]; try done.
  - simpl in Hk. lia.
  - apply ok_or_ub_bind; [apply int_rem_ub|]. intros r Hr. apply int_rem_Ok in Hr as [_ ->].
    destruct fuel as [|fuel]; [lia|]. cbn [gcd_loop].
    destruct (Z.eqb_spec (Z.rem a b) 0) as [_|Hr]; [done|].
    apply ok_or_ub_bind; [apply int_rem_ub|]. intros r Hr'. apply int_rem_Ok in Hr' as [_ ->].
    pose proof (rem_halves a b Hb0 Hr). rewrite Nat2Z.inj_succ, Z.pow_succ_r in Hk by lia.
    apply IH; lia.
Qed.

Lemma gcd_ub a b : in_srange 32 a -> in_srange 32 b -> ok_or_ub (gcd a b).
Proof.
  unfold in_srange, gcd. change (32 - 1) with 31. intros Ha Hb.
  destruct (a <? b); apply (gcd_loop_ub 32); try lia; change (Z.of_nat 32) with 32; lia.
Qed.

(** The internal assertion of [unify_alternatives] never fails. *)
Lemma unify_ub a b : mr_ok a -> mr_ok b -> ok_or_ub (unify_alternatives a b).
Proof.
  intros [Ham Har] [Hbm Hbr].
  pose proof (gcd_ub _ _ Ham Hbm). pose proof int_op_ub. pose proof mod_ub.
  unfold unify_alternatives. apply ok_or_ub_bind; [done|]. intros m Hm.
  destruct (can_represent_int64 _ _) eqn:Hc; cbn [negb]; [|done]. apply can_represent_int32 in Hc.
  cbv zeta. destruct (unify_difference _ Hc) as [Hd' Hdr]. set (d := swrap 32 _) in *.
  destruct (gcd_sound _ _ _ Hm) as [_ Hgr].
  apply ok_or_ub_bind; [by apply gcd_ub; auto|]. intros m2 Hm2.
  apply ok_or_ub_bind; [auto|]. intros ra Hra. apply ok_or_ub_bind; [auto|]. intros rb Hrb.
  destruct (gcd_divides _ _ _ Hm2) as [Hdiv _].
  destruct (gcd_sound _ _ _ Hm2) as [_ Hg2r]. specialize (Hg2r Hdr (Hgr Ham Hbm)).
  apply mod_Ok in Hra as [-> _]; [|done..]. apply mod_Ok in Hrb as [-> _]; [|done..].
  assert (Hdiff : (m2 | remainder a - remainder b)) by (by apply Hd').
  assert (Heq : (if m2 =? 0 then remainder a else emod (remainder a) m2) =
                (if m2 =? 0 then remainder b else emod (remainder b) m2)).
  2: { unfold internal_assert. rewrite Heq, Z.eqb_refl. done. }
  destruct (Z.eqb_spec m2 0) as [->|Hne].
  - apply Z.divide_0_l in Hdiff. lia.
  - destruct (ediv_emod (remainder b) m2 Hne) as [He Hem]. destruct Hdiff as [k Hk].
    apply (ediv_unique (remainder a) m2 (ediv (remainder b) m2 + k)); [done|lia|done].
Qed.

Lemma visit_ub op f a b : op_handler op = Some f -> mr_ok a -> mr_ok b -> ok_or_ub (f a b).
Proof.
  intros Hop Hoka Hokb. pose proof (unify_ub a b Hoka Hokb) as Hunify.
  destruct Hoka as [Ham Har], Hokb as [Hbm Hbr].
  pose proof (gcd_ub _ _ Ham Hbm). pose proof (gcd_ub _ _ Hbm Hbr). pose proof (gcd_ub _ _ Ham Har).
  pose proof int_op_ub. pose proof mod_ub.
  assert (Hsimple : forall z, ok_or_ub (m ← gcd (modulus a) (modulus b); s ← int_op z; r ← mod_ s m; Ok (mkMR m r))).
  { intros z. repeat (apply ok_or_ub_bind; [auto|intros]). done. }
  destruct op; try discriminate; injection Hop as <-; try apply Hsimple; try apply Hunify.
  - unfold visit_Mul. repeat case_match; repeat (apply ok_or_ub_bind; [auto|intros]); done.
  - unfold visit_Mod. apply ok_or_ub_bind; [done|]. intros m Hm.
    apply gcd_sound in Hm as [_ Hm]. apply ok_or_ub_bind; [apply gcd_ub; auto|]. intros m2 _.
    apply ok_or_ub_bind; [auto|]. done.
Qed.

Lemma analyze_pair_ub s a b (f : ModulusRemainder -> ModulusRemainder -> res ModulusRemainder) :
  scope_wf s -> (forall n mr, scope_get s n = Ok mr -> mr_ok mr) ->
  (forall ra rb, mr_ok ra -> mr_ok rb -> ok_or_ub (f ra rb)) ->
  ok_or_ub (analyze s a) -> ok_or_ub (analyze s b) ->
  ok_or_ub ('(ra, s1) ← analyze s a; '(rb, s2) ← analyze s1 b; r ← f ra rb; Ok (r, s2)).
Proof.
  intros Hs Hg Hf Ha Hb. apply ok_or_ub_bind; [done|]. intros [ra s1] H1.
  pose proof (analyze_scope _ _ _ _ Hs H1) as ->.
  apply ok_or_ub_bind; [done|]. intros [rb s2] H2.
  apply ok_or_ub_bind; [|done]. apply Hf; eauto using analyze_range.
Qed.

Lemma analyze_ub e : forall s, scope_wf s -> (forall n mr, scope_get s n = Ok mr -> mr_ok mr) ->
  analyzable e = true -> ok_or_ub (analyze s e).
Proof.
  induction e using Expr_ind'; intros s0 Hs Hg Hz; try done.
  - cbn [analyze]. destruct (scope_contains s0 n) eqn:Hc; [|done].
    apply scope_get_contains in Hc. by destruct (scope_get s0 n).
  - destruct (op_handler op) as [f|] eqn:Hop; [|by destruct op].
    rewrite (proj1 (analyze_Bin s0 op e1 e2 f Hop)).
    assert (Hab : analyzable e1 && analyzable e2 = true) by (by destruct op).
    apply andb_true_iff in Hab as [Ha Hb].
    apply analyze_pair_ub; eauto using visit_ub.
  - cbn [analyzable analyze] in *. apply andb_true_iff in Hz as [Ha Hb].
    apply analyze_pair_ub; eauto using unify_ub.
  - cbn [analyzable analyze] in *. apply andb_true_iff in Hz as [Ha Hb].
    destruct (is_int (type e1)); [|auto]. simpl in Ha.
    apply ok_or_ub_bind; [auto|]. intros [v s1] H1. pose proof (analyze_scope _ _ _ _ Hs H1) as ->.
    apply ok_or_ub_bind.
    + apply IHe2; [by apply scope_push_wf| |done]. intros m mr.
      rewrite scope_get_push by done. case_decide; [intros [= <-]|]; eauto using analyze_range.
    + intros [v2 s2] H2. pose proof (analyze_scope _ _ _ _ (scope_push_wf _ _ _ Hs) H2) as ->.
      by rewrite scope_pop_push.
Qed.

(** C35. On every integer expression built of the nodes the visitor handles, the
    analysis ends without an internal error: its loops end, lookups and scope pops
    succeed, and the consistency check in [unify_alternatives] never fails. The only
    other outcome is an [int] operation whose result C++ leaves undefined. *)
Theorem modulus_remainder_total e :
  analyzable e = true -> ok_or_ub (modulus_remainder e).
Proof.
  intros H. unfold modulus_remainder. apply ok_or_ub_bind; [|by intros [r s]].
  apply analyze_ub; [apply scope_set_containing_wf, scope_new_wf| |done].
  intros n mr Hn. simpl in Hn. by rewrite lookup_empty in Hn.
Qed.

Lemma modulus_remainder_total_witness :
  ok_or_ub (modulus_remainder (Bin Mul (IntImm (Int 32 1) 65536) (Bin Mul (IntImm (Int 32 1) 65536)
                                 (Var (Int 32 1) "x" None None None)))).
Proof. apply modulus_remainder_total. reflexivity. Defined.

Definition xy_env (x y : Z) : env := bind_var (bind_var empty_env "x" [VInt x]) "y" [VInt y].

(** Three defects. A product of two inexact operands keeps the second operand's
    remainder, so [(4x+3)*(4y+3)] is said to be 3 modulo 4 although it is 9 at
    [x = y = 0]; alternatives whose difference overflows are said to be the constant
    1; and a 64-bit constant is said to be the constant its low 32 bits denote. *)
Theorem modulus_remainder_defects :
  let x := Var (Int 32 1) "x" None None None in
  let y := Var (Int 32 1) "y" None None None in
  let c v := IntImm (Int 32 1) v in
  let prod := Bin Mul (Bin Add (Bin Mul (c 4) x) (c 3)) (Bin Add (Bin Mul (c 4) y) (c 3)) in
  let alt := Bin Min (c 2147483647) (c (-5)) in
  let wide := IntImm (Int 64 1) (2 ^ 32 + 5) in
  (modulus_remainder prod = Ok (mkMR 4 3) /\ eval Ideal (xy_env 0 0) prod = Some [VInt 9]
   /\ ~ congr (mkMR 4 3) 9) /\
  (modulus_remainder alt = Ok (mkMR 0 1) /\ eval Ideal empty_env alt = Some [VInt (-5)]
   /\ ~ congr (mkMR 0 1) (-5)) /\
  (modulus_remainder wide = Ok (mkMR 0 5) /\ eval Ideal empty_env wide = Some [VInt (2 ^ 32 + 5)]
   /\ ~ congr (mkMR 0 5) (2 ^ 32 + 5)).
Proof.
  intros x y c prod alt wide. repeat split; try (vm_compute; reflexivity);
    intros [k Hk]; simpl in Hk; lia.
Qed.

(** The product the repository tests: [(6x+3)*(4y+1)] is odd; here the scope knows that
    [x] is a multiple of 5. *)
Lemma modulus_remainder_sound_witness :
  let t := Int 32 1 in
  let x := Var t "x" None None None in
  let y := Var t "y" None None None in
  let c v := IntImm t v in
  let e := Bin Mul (Bin Add (Bin Mul (c 6) x) (c 3)) (Bin Add (Bin Mul (c 4) y) (c 1)) in
  let scope := scope_push scope_new "x" (mkMR 5 0) in
  modulus_remainder_in e scope = Ok (mkMR 2 1) /\ lanes_congr (mkMR 2 1) [VInt 567].
Proof.
  intros t x y c e scope. split; [reflexivity|].
  apply (modulus_remainder_sound (<["x" := t]> {["y" := t]}) (xy_env 10 2) scope e).
  - intros n mr H. cbn [set_containing_scope scope_get scope_new table] in H. rewrite lookup_empty in H.
    cbn [mbind option_bind] in H. unfold scope in H. rewrite scope_get_push in H by apply scope_new_wf.
    case_decide; [|simpl in H; by rewrite lookup_empty in H]. subst. injection H as <-. split.
    + split; unfold in_srange; simpl; lia.
    + intros u v _ _. cbn. intros [= <-]. apply Forall_singleton. exists 10. split; [done|]. exists 2. reflexivity.
  - repeat split; (discriminate || vm_compute; congruence).
  - repeat split; (vm_compute; congruence).
  - constructor; simpl; try done. intros n u v. rewrite lookup_insert_Some, lookup_singleton_Some.
    intros [[<- <-]|[_ [<- <-]]]; intros [= <-]; (split; [done|]); apply Forall_singleton; (split; [done|by left]).
  - reflexivity.
  - reflexivity.
  - reflexivity.
  - reflexivity.
Defined.

Lemma reduce_expr_modulo_sound_witness :
  let x := Var (Int 32 1) "x" None None None in
  let e := Bin Add (Bin Mul (IntImm (Int 32 1) 16) x) (IntImm (Int 32 1) 13) in
  reduce_expr_modulo e 8 = Ok (Some 5) /\ lanes_congr (mkMR 8 5) [VInt 29].
Proof.
  intros x e. split; [reflexivity|].
  apply (reduce_expr_modulo_sound {["x" := Int 32 1]} (bind_var empty_env "x" [VInt 1]) e).
  - repeat split; (discriminate || vm_compute; congruence).
  - repeat split; (vm_compute; congruence).
  - constructor; simpl; try done. intros y t v. rewrite lookup_singleton_Some, lookup_insert_Some, lookup_empty.
    intros [<- <-] [[_ <-]|[? ?]]; [|done]. split; [done|]. apply Forall_singleton. split; [done|by left].
  - reflexivity.
  - reflexivity.
  - reflexivity.
  - reflexivity.
Defined.
