(* ===== verification/Mutator.v ===== *)
(** The base class of the passes that rewrite the program: src/src/IRMutator.h and
    src/src/IRMutator.cpp. A mutator is an object: its methods run in a monad of
    its state and of the assertions of the factories. A subclass overrides methods,
    so the base methods take the subclass's [mutate] as an argument. *)

From Stdlib Require Import ZArith Lia Bool SpecFloat String.
From stdpp Require Import prelude strings gmap.
From S2P Require Import Prelude Types IR.

#[local] Open Scope Z_scope.
#[local] Open Scope halide_scope.

(** * The monad of a mutator whose state is [S] *)
Definition mut (S A : Type) : Type := S -> res (A * S).

#[global] Instance mut_ret {S} : MRet (mut S) := fun A a s => Ok (a, s).
#[global] Instance mut_bind {S} : MBind (mut S) := fun A B f m s =>
  match m s with Ok (a, s) => f a s | Err e => Err e end.

Definition lift {S A} (r : res A) : mut S A := fun s =>
  match r with Ok a => Ok (a, s) | Err e => Err e end.

Lemma mut_bind_run {S A B} (m : mut S A) (f : A -> mut S B) s a s' :
  m s = Ok (a, s') -> (m ≫= f) s = f a s'.
Proof. intros H. unfold mbind, mut_bind. by rewrite H. Qed.

Lemma mut_bind_Ok {S A B} (m : mut S A) (f : A -> mut S B) s r :
  (m ≫= f) s = Ok r <-> exists a s', m s = Ok (a, s') /\ f a s' = Ok r.
Proof.
  unfold mbind, mut_bind. destruct (m s) as [[a s']|]; split; try naive_solver.
Qed.

Lemma mut_ret_Ok {S A} (a : A) (s : S) r : (mret a : mut S A) s = Ok r <-> r = (a, s).
Proof. unfold mret, mut_ret. naive_solver. Qed.

Lemma lift_Ok {S A} (m : res A) (a : A) (s s' : S) : lift m s = Ok (a, s') <-> m = Ok a /\ s' = s.
Proof. unfold lift. destruct m; naive_solver. Qed.

(** The factory of each binary node. *)
Definition binop_make (op : binop) : ExprRef -> ExprRef -> res Expr :=
  match op with
  | Add => Add_make | Sub => Sub_make | Mul => Mul_make | Div => Div_make | Mod => Mod_make
  | Min => Min_make | Max => Max_make | EQ => EQ_make | NE => NE_make | LT => LT_make
  | LE => LE_make | GT => GT_make | GE => GE_make | And => And_make | Or => Or_make
  end.

Definition range_refs (r : Range) : ExprRef * ExprRef := (eref (range_min r), eref (range_extent r)).

Section IRMutator.
Context {S : Type}.
(** The tests that two handles point to one node. *)
Context (same_as : ExprRef -> ExprRef -> bool) (same_stmt : StmtRef -> StmtRef -> bool).
(** The subclass's [mutate], on defined nodes. *)
Context (mutate : Expr -> mut S ExprRef) (mutate_stmt : Stmt -> mut S StmtRef).

(** [mutate] on a handle: an undefined one stays undefined. *)
Definition mutate_ref (e : ExprRef) : mut S ExprRef :=
  match e with Some e => mutate e | None => mret None end.
Definition mutate_stmt_ref (s : StmtRef) : mut S StmtRef :=
  match s with Some s => mutate_stmt s | None => mret None end.

Definition mutate_list : list Expr -> mut S (list ExprRef) :=
  fix go (l : list Expr) : mut S (list ExprRef) :=
    match l with
    | [] => mret []
    | old_arg :: l => new_arg ← mutate old_arg; rest ← go l; mret (new_arg :: rest)
    end.

(** [Range(new_min, new_extent)] reads the types of both handles. *)
Definition Range_make_ref (min extent : ExprRef) : res Range :=
  match min, extent with
  | Some min, Some extent => Range_make min extent
  | _, _ => Err (UB "null expression")
  end.

Definition mutate_bounds : list Range -> mut S (list Range) :=
  fix go (l : list Range) : mut S (list Range) :=
    match l with
    | [] => mret []
    | old :: l =>
        new_min ← mutate (range_min old); new_extent ← mutate (range_extent old);
        new ← lift (Range_make_ref new_min new_extent);
        rest ← go l; mret (new :: rest)
    end.

Fixpoint all_same (new : list ExprRef) (old : list Expr) : bool :=
  match new, old with
  | n :: new, o :: old => same_as n (eref o) && all_same new old
  | _, _ => true
  end.

Fixpoint bounds_same (new old : list Range) : bool :=
  match new, old with
  | n :: new, o :: old =>
      same_as (eref (range_min n)) (eref (range_min o))
      && same_as (eref (range_extent n)) (eref (range_extent o)) && bounds_same new old
  | _, _ => true
  end.

(** The node itself when nothing changed, otherwise a new node. *)
Definition rebuild (unchanged : bool) (op : Expr) (make : res Expr) : mut S ExprRef :=
  if unchanged then mret (eref op) else e ← lift make; mret (eref e).
Definition rebuild_stmt (unchanged : bool) (op : Stmt) (make : res Stmt) : mut S StmtRef :=
  if unchanged then mret (sref op) else s ← lift make; mret (sref s).

(** The [visit] methods of expressions. *)
Definition visit_expr (op : Expr) : mut S ExprRef :=
  match op with
  | IntImm _ _ | UIntImm _ _ | FloatImm _ _ | StringImm _ | Var _ _ _ _ _ => mret (eref op)
  | Cast t v =>
      value ← mutate v;
      rebuild (same_as value (eref v)) op (Cast_make t value)
  | Bin o x y =>
      a ← mutate x; b ← mutate y;
      rebuild (same_as a (eref x) && same_as b (eref y)) op (binop_make o a b)
  | Not x =>
      a ← mutate x;
      rebuild (same_as a (eref x)) op (Not_make a)
  | Select c x y =>
      cond ← mutate c; t ← mutate x; f ← mutate y;
      rebuild (same_as cond (eref c) && same_as t (eref x) && same_as f (eref y)) op
        (Select_make cond t f)
  | Load t name i image param =>
      index ← mutate i;
      rebuild (same_as index (eref i)) op (Load_make t name index image param)
  | Ramp b s lanes =>
      base ← mutate b; stride ← mutate s;
      rebuild (same_as base (eref b) && same_as stride (eref s)) op (Ramp_make base stride lanes)
  | Broadcast v lanes =>
      value ← mutate v;
      rebuild (same_as value (eref v)) op (Broadcast_make value lanes)
  | Call t name args call_type func value_index image param =>
      new_args ← mutate_list args;
      rebuild (all_same new_args args) op
        (Call_make t name new_args call_type func value_index image param)
  | Let name v b =>
      value ← mutate v; body ← mutate b;
      rebuild (same_as value (eref v) && same_as body (eref b)) op (Let_make name value body)
  end.

(** The [visit] methods of statements. *)
Definition visit_stmt (op : Stmt) : mut S StmtRef :=
  match op with
  | LetStmt name v b =>
      value ← mutate v; body ← mutate_stmt b;
      rebuild_stmt (same_as value (eref v) && same_stmt body (sref b)) op (LetStmt_make name value body)
  | AssertStmt c m =>
      condition ← mutate c; message ← mutate m;
      rebuild_stmt (same_as condition (eref c) && same_as message (eref m)) op
        (AssertStmt_make condition message)
  | ProducerConsumer name p u c =>
      produce ← mutate_stmt p; update ← mutate_stmt_ref u; consume ← mutate_stmt c;
      rebuild_stmt (same_stmt produce (sref p) && same_stmt update u && same_stmt consume (sref c)) op
        (ProducerConsumer_make name produce update consume)
  | For name m e for_type device_api b =>
      min ← mutate m; extent ← mutate e; body ← mutate_stmt b;
      rebuild_stmt (same_as min (eref m) && same_as extent (eref e) && same_stmt body (sref b)) op
        (For_make name min extent for_type device_api body)
  | Store name v i param =>
      value ← mutate v; index ← mutate i;
      rebuild_stmt (same_as value (eref v) && same_as index (eref i)) op (Store_make name value index param)
  | Provide name vs xs =>
      new_args ← mutate_list xs; new_values ← mutate_list vs;
      rebuild_stmt (all_same new_args xs && all_same new_values vs) op
        (Provide_make name new_values new_args)
  | Allocate name t xs c ne free_function b =>
      new_extents ← mutate_list xs;
      body ← mutate_stmt b; condition ← mutate c; new_expr ← mutate_ref ne;
      rebuild_stmt (all_same new_extents xs && same_stmt body (sref b) && same_as condition (eref c)
                    && same_as new_expr ne) op
        (Allocate_make name t new_extents condition body new_expr free_function)
  | Free _ => mret (sref op)
  | Realize name types bs c b =>
      new_bounds ← mutate_bounds bs;
      body ← mutate_stmt b; condition ← mutate c;
      rebuild_stmt (bounds_same new_bounds bs && same_stmt body (sref b) && same_as condition (eref c)) op
        (Realize_make name types (range_refs <$> new_bounds) condition body)
  | Block f r =>
      first ← mutate_stmt f; rest ← mutate_stmt r;
      rebuild_stmt (same_stmt first (sref f) && same_stmt rest (sref r)) op (Block_make first rest)
  | IfThenElse c t e =>
      condition ← mutate c; then_case ← mutate_stmt t; else_case ← mutate_stmt_ref e;
      rebuild_stmt (same_as condition (eref c) && same_stmt then_case (sref t) && same_stmt else_case e) op
        (IfThenElse_make condition then_case else_case)
  | Evaluate x =>
      v ← mutate x;
      rebuild_stmt (same_as v (eref x)) op (Evaluate_make v)
  end.
End IRMutator.

(** * What a visit returns

    [returns I m a]: from every state satisfying [I], [m] ends normally with [a] in
    such a state. *)
Definition returns {S A} (I : S -> Prop) (m : mut S A) (a : A) : Prop :=
  forall s, I s -> exists s', m s = Ok (a, s') /\ I s'.

Lemma returns_ret {S A} (I : S -> Prop) (a : A) : returns I (mret a) a.
Proof. intros s Hs. by exists s. Qed.

Lemma returns_bind {S A B} (I : S -> Prop) (m : mut S A) (f : A -> mut S B) a b :
  returns I m a -> returns I (f a) b -> returns I (m ≫= f) b.
Proof.
  intros Hm Hf s Hs. destruct (Hm s Hs) as (s1 & H1 & Hs1). destruct (Hf s1 Hs1) as (s2 & H2 & Hs2).
  exists s2. split; [|done]. by rewrite (mut_bind_run _ _ _ _ _ H1).
Qed.

Lemma returns_lift {S A} (I : S -> Prop) (r : res A) a : r = Ok a -> returns I (lift r) a.
Proof. intros -> s Hs. by exists s. Qed.

(** The children of a node, and the node with every child replaced. *)
Definition children (e : Expr) : list Expr :=
  match e with
  | IntImm _ _ | UIntImm _ _ | FloatImm _ _ | StringImm _ | Var _ _ _ _ _ => []
  | Cast _ v | Not v | Broadcast v _ | Load _ _ v _ _ => [v]
  | Bin _ a b | Ramp a b _ | Let _ a b => [a; b]
  | Select c t f => [c; t; f]
  | Call _ _ args _ _ _ _ _ => args
  end.

Definition map_children (g : Expr -> Expr) (e : Expr) : Expr :=
  match e with
  | IntImm _ _ | UIntImm _ _ | FloatImm _ _ | StringImm _ | Var _ _ _ _ _ => e
  | Cast t v => Cast t (g v)
  | Bin op a b => Bin op (g a) (g b)
  | Not a => Not (g a)
  | Select c t f => Select (g c) (g t) (g f)
  | Load t n i im p => Load t n (g i) im p
  | Ramp b s l => Ramp (g b) (g s) l
  | Broadcast v l => Broadcast (g v) l
  | Call t n args ct f vi im p => Call t n (map g args) ct f vi im p
  | Let n v b => Let n (g v) (g b)
  end.

Lemma map_children_id g e : Forall (fun c => g c = c) (children e) -> map_children g e = e.
Proof.
  destruct e; simpl; intros H; repeat (apply Forall_cons in H as [? H]); try congruence.
  f_equal. induction H; simpl; congruence.
Qed.

(** ** The factories accept well-formed nodes *)
Lemma binop_make_ok op a b : wf_node (Bin op a b) -> binop_make op (eref a) (eref b) = Ok (Bin op a b).
Proof.
  intros H. destruct op; simpl; ((by apply binary_make_Ok) || (by apply logical_make_Ok)).
Qed.

Lemma Cast_make_ok t v : wf_node (Cast t v) -> Cast_make t (eref v) = Ok (Cast t v).
Proof. simpl. intros H. unfold Cast_make, internal_assert; simpl. by rewrite H, Z.eqb_refl. Qed.

Lemma Not_make_ok a : wf_node (Not a) -> Not_make (eref a) = Ok (Not a).
Proof. simpl. intros H. unfold Not_make, internal_assert; simpl. by rewrite H. Qed.

Lemma Select_make_ok c t f :
  wf_node (Select c t f) -> Select_make (eref c) (eref t) (eref f) = Ok (Select c t f).
Proof.
  simpl. intros (H1 & H2 & H3). unfold Select_make, internal_assert; simpl. by rewrite H1, H2, H3.
Qed.

Lemma Load_make_ok t n i im p :
  wf_node (Load t n i im p) -> Load_make t n (eref i) im p = Ok (Load t n i im p).
Proof. simpl. intros H. unfold Load_make, internal_assert; simpl. by rewrite H, Z.eqb_refl. Qed.

Lemma Ramp_make_ok b s l : wf_node (Ramp b s l) -> Ramp_make (eref b) (eref s) l = Ok (Ramp b s l).
Proof.
  simpl. intros (H1 & H2 & H3). apply andb_true_iff in H1 as [H1 H1'].
  unfold Ramp_make, internal_assert; simpl. by rewrite H1, H1', H3, (proj2 (Z.ltb_lt 1 l)).
Qed.

Lemma Broadcast_make_ok v l : wf_node (Broadcast v l) -> Broadcast_make (eref v) l = Ok (Broadcast v l).
Proof.
  simpl. intros (H1 & H2). unfold Broadcast_make, internal_assert; simpl.
  by rewrite H1, (proj2 (Z.eqb_neq l 1)).
Qed.

Lemma Call_make_ok t n args ct f vi i p :
  wf_node (Call t n args ct f vi i p) ->
  Call_make t n (eref <$> args) ct f vi i p = Ok (Call t n args ct f vi i p).
Proof.
  simpl. intros H. unfold Call_make. rewrite (proj2 (mapM_defined _ args args)) by done. simpl.
  unfold internal_assert. destruct ct; simpl; try done; [destruct H as [H ->]|by rewrite H].
  destruct H; repeat case_bool_decide; naive_solver.
Qed.

(** ** The base methods replace the children *)
Section VisitSpec.
Context {S : Type} (same_as : ExprRef -> ExprRef -> bool) (same_stmt : StmtRef -> StmtRef -> bool).
Hypothesis same_as_sound : forall a b, same_as a b = true -> a = b.
Context (mutate : Expr -> mut S ExprRef) (I : S -> Prop) (g : Expr -> Expr).

Lemma mutate_list_returns l :
  Forall (fun c => returns I (mutate c) (Some (g c))) l ->
  returns I (mutate_list mutate l) (eref <$> map g l).
Proof.
  induction 1 as [|x l Hx H IH]; simpl; [apply returns_ret|].
  eapply returns_bind; [done|]. eapply returns_bind; [done|]. apply returns_ret.
Qed.

Lemma rebuild_returns unchanged op make new :
  (unchanged = true -> new = op) -> (unchanged = false -> make = Ok new) ->
  returns I (rebuild (S := S) unchanged op make) (Some new).
Proof.
  intros Hs Hc. unfold rebuild. destruct unchanged.
  - rewrite Hs by done. apply returns_ret.
  - eapply returns_bind; [by apply returns_lift, Hc|]. apply returns_ret.
Qed.

Lemma same_as_inj a b : same_as (eref a) (eref b) = true -> a = b.
Proof. intros H. apply same_as_sound in H. by injection H. Qed.

Lemma all_same_sound new old :
  List.length new = List.length old -> all_same same_as (eref <$> new) old = true -> new = old.
Proof.
  revert old. induction new as [|n new IH]; intros [|o old] Hl H; simplify_eq/=; [done|].
  apply andb_true_iff in H as [H1 H2]. f_equal; [by apply same_as_inj|]. apply IH; [lia|done].
Qed.

Ltac step := eapply returns_bind; [first
  [match goal with H : returns _ ?m _ |- returns _ ?m _ => exact H end
  |apply mutate_list_returns; assumption]|].
Ltac same := let H := fresh in intros H;
  repeat (apply andb_true_iff in H; destruct H as [H ?]);
  repeat match goal with H : same_as (Some _) (eref _) = true |- _ => apply same_as_inj in H end; congruence.

Lemma visit_expr_returns e :
  Forall (fun c => returns I (mutate c) (Some (g c))) (children e) ->
  wf_node (map_children g e) ->
  returns I (visit_expr same_as mutate e) (Some (map_children g e)).
Proof.
  intros Hc Hwf. destruct e; cbn [children] in Hc; cbn [visit_expr map_children] in *;
    try apply returns_ret; try (pose proof Hc as Hc'; repeat (apply Forall_cons in Hc as [? Hc]));
    repeat step; apply rebuild_returns;
    solve [same | intros _; eauto using Cast_make_ok, binop_make_ok, Not_make_ok, Select_make_ok,
      Load_make_ok, Ramp_make_ok, Broadcast_make_ok, Call_make_ok] || idtac.
  intros H. f_equal. apply all_same_sound; [apply length_map|done].
Qed.
End VisitSpec.

(** ** A visit that changes nothing below returns the node itself *)
Definition stmt_exprs (s : Stmt) : list Expr :=
  match s with
  | LetStmt _ v _ => [v]
  | AssertStmt c m => [c; m]
  | ProducerConsumer _ _ _ _ | Free _ | Block _ _ => []
  | For _ m e _ _ _ => [m; e]
  | Store _ v i _ => [v; i]
  | Provide _ vs xs => vs ++ xs
  | Allocate _ _ xs c ne _ _ => xs ++ [c] ++ match ne with Some e => [e] | None => [] end
  | Realize _ _ bs c _ => concat (map (fun r => [range_min r; range_extent r]) bs) ++ [c]
  | IfThenElse c _ _ => [c]
  | Evaluate v => [v]
  end.

Definition stmt_children (s : Stmt) : list Stmt :=
  let opt (s : option Stmt) := match s with Some s => [s] | None => [] end in
  match s with
  | LetStmt _ _ b | For _ _ _ _ _ b | Allocate _ _ _ _ _ _ b | Realize _ _ _ _ b => [b]
  | ProducerConsumer _ p u c => [p] ++ opt u ++ [c]
  | Block f r => [f; r]
  | IfThenElse _ t e => [t] ++ opt e
  | AssertStmt _ _ | Store _ _ _ _ | Provide _ _ _ | Free _ | Evaluate _ => []
  end.

(** The two ends of a range have one type, as its constructor asserts. *)
Definition ranges_ok (s : Stmt) : bool :=
  match s with
  | Realize _ _ bs _ _ => forallb (fun r => type_eqb (type (range_min r)) (type (range_extent r))) bs
  | _ => true
  end.

Section VisitIdentity.
Context {S : Type} (same_as : ExprRef -> ExprRef -> bool) (same_stmt : StmtRef -> StmtRef -> bool).
Hypothesis same_as_refl : forall a, same_as a a = true.
Hypothesis same_stmt_refl : forall a, same_stmt a a = true.
Context (mutate : Expr -> mut S ExprRef) (mutate_stmt : Stmt -> mut S StmtRef) (I : S -> Prop).

Definition unchanged (e : Expr) : Prop := returns I (mutate e) (Some e).

Lemma mutate_list_unchanged l : Forall unchanged l -> returns I (mutate_list mutate l) (eref <$> l).
Proof.
  intros H. pose proof (mutate_list_returns mutate I id l) as Hl. rewrite map_id in Hl. by apply Hl.
Qed.

Lemma all_same_refl l : all_same same_as (eref <$> l) l = true.
Proof. induction l as [|x l IH]; simpl; [done|]. by rewrite same_as_refl. Qed.

Lemma visit_expr_unchanged e :
  Forall unchanged (children e) -> returns I (visit_expr same_as mutate e) (Some e).
Proof.
  intros Hc. destruct e; cbn [children] in Hc; cbn [visit_expr]; try apply returns_ret;
    [..|eapply returns_bind; [by apply mutate_list_unchanged|]; rewrite all_same_refl; apply returns_ret|];
    repeat (apply Forall_cons in Hc as [? Hc]; eapply returns_bind; [eassumption|]);
    rewrite !same_as_refl; apply returns_ret.
Qed.

Lemma mutate_bounds_unchanged bs :
  Forall unchanged (concat (map (fun r => [range_min r; range_extent r]) bs)) ->
  forallb (fun r => type_eqb (type (range_min r)) (type (range_extent r))) bs = true ->
  returns I (mutate_bounds mutate bs) bs.
Proof.
  induction bs as [|[m e] bs IH]; simpl; intros Hc Hr; [apply returns_ret|].
  apply andb_true_iff in Hr as [Hr Hrs].
  repeat (apply Forall_cons in Hc as [? Hc]; eapply returns_bind; [eassumption|]).
  eapply returns_bind; [apply returns_lift; simpl; unfold Range_make; by rewrite Hr|].
  eapply returns_bind; [by apply IH|]. apply returns_ret.
Qed.

Lemma bounds_same_refl bs : bounds_same same_as bs bs = true.
Proof. induction bs as [|b bs IH]; simpl; [done|]. by rewrite !same_as_refl. Qed.

Lemma visit_stmt_unchanged s :
  Forall unchanged (stmt_exprs s) ->
  Forall (fun c => returns I (mutate_stmt c) (Some c)) (stmt_children s) -> ranges_ok s = true ->
  returns I (visit_stmt same_as same_stmt mutate mutate_stmt s) (Some s).
Proof.
  intros He Hs Hr. destruct s; cbn [stmt_exprs stmt_children] in He, Hs; cbn [visit_stmt];
    rewrite ?Forall_app in He; rewrite ?Forall_app in Hs; destruct_and?;
    repeat match goal with
    | H : Forall _ (_ :: _) |- _ => apply Forall_cons in H as [? H]
    | |- returns _ (mret _) _ => apply returns_ret
    | |- returns _ (mutate_list _ _ ≫= _) _ => eapply returns_bind; [by apply mutate_list_unchanged|]
    | |- returns _ (mutate_bounds _ _ ≫= _) _ => eapply returns_bind; [by apply mutate_bounds_unchanged|]
    | |- returns _ (mutate_ref _ ?o ≫= _) _ => destruct o; simpl
    | |- returns _ (mutate_stmt_ref _ ?o ≫= _) _ => destruct o; simpl
    | H : unchanged ?e |- returns _ (mutate ?e ≫= _) _ => eapply returns_bind; [exact H|]
    | H : returns _ (mutate_stmt ?e) _ |- returns _ (mutate_stmt ?e ≫= _) _ => eapply returns_bind; [exact H|]
    | |- returns _ (mret _ ≫= _) _ => eapply returns_bind; [apply returns_ret|]
    | |- _ => rewrite ?all_same_refl, ?bounds_same_refl, ?same_as_refl, ?same_stmt_refl
    end; apply returns_ret.
Qed.
End VisitIdentity.

(** * The mutator that overrides nothing *)
Section Base.
Context {S : Type} (same_as : ExprRef -> ExprRef -> bool) (same_stmt : StmtRef -> StmtRef -> bool).

Fixpoint IRMutator_mutate (e : Expr) : mut S ExprRef := visit_expr same_as IRMutator_mutate e.
Fixpoint IRMutator_mutate_stmt (s : Stmt) : mut S StmtRef :=
  visit_stmt same_as same_stmt IRMutator_mutate IRMutator_mutate_stmt s.
End Base.

(** All statements below a statement satisfy [p]. *)
Fixpoint all_stmts (p : Stmt -> bool) (s : Stmt) : bool :=
  p s &&
  let opt (s : option Stmt) := match s with Some s => all_stmts p s | None => true end in
  match s with
  | LetStmt _ _ b | For _ _ _ _ _ b | Allocate _ _ _ _ _ _ b | Realize _ _ _ _ b => all_stmts p b
  | ProducerConsumer _ pr u c => all_stmts p pr && opt u && all_stmts p c
  | Block f r => all_stmts p f && all_stmts p r
  | IfThenElse _ t e => all_stmts p t && opt e
  | AssertStmt _ _ | Store _ _ _ _ | Provide _ _ _ | Free _ | Evaluate _ => true
  end.

Lemma all_stmts_here p s : all_stmts p s = true -> p s = true.
Proof. destruct s; simpl; rewrite ?andb_true_iff; tauto. Qed.

Lemma all_stmts_children p s : all_stmts p s = true -> Forall (fun c => all_stmts p c = true) (stmt_children s).
Proof.
  destruct s; simpl; rewrite ?andb_true_iff; intros H; destruct_and?; repeat constructor; try done;
    repeat case_match; repeat constructor; done.
Qed.

(** Induction through [stmt_children]. *)
Lemma Stmt_children_ind (P : Stmt -> Prop) :
  (forall s, Forall P (stmt_children s) -> P s) -> forall s, P s.
Proof.
  intros H s. induction s using Stmt_ind'; apply H; simpl; repeat constructor; try done;
    repeat case_match; repeat constructor; done.
Qed.

Lemma Expr_children_ind (P : Expr -> Prop) :
  (forall e, Forall P (children e) -> P e) -> forall e, P e.
Proof. intros H e. induction e using Expr_ind'; apply H; simpl; repeat constructor; done. Qed.

(** The base class changes nothing: run on any expression or statement, from any
    state, it returns the very node it was given and the state untouched, and no
    factory is called; the only assertion it can meet is that of the ranges it
    copies, whose two ends must have one type. *)
Theorem IRMutator_identity {S : Type} same_as same_stmt (st : S) :
  (forall a, same_as a a = true) -> (forall a, same_stmt a a = true) ->
  (forall e, IRMutator_mutate same_as e st = Ok (Some e, st)) /\
  (forall s, all_stmts ranges_ok s = true ->
     IRMutator_mutate_stmt same_as same_stmt s st = Ok (Some s, st)).
Proof.
  intros Ha Hs.
  assert (He : forall e, returns (.= st) (IRMutator_mutate same_as e) (Some e)).
  { induction e as [e IH] using Expr_children_ind.
    assert (E : IRMutator_mutate (S := S) same_as e = visit_expr same_as (IRMutator_mutate same_as) e) by (by destruct e).
    rewrite E. by apply visit_expr_unchanged. }
  assert (Hst : forall s, all_stmts ranges_ok s = true ->
            returns (.= st) (IRMutator_mutate_stmt same_as same_stmt s) (Some s)).
  { induction s as [s IH] using Stmt_children_ind. intros Hr.
    assert (E : IRMutator_mutate_stmt (S := S) same_as same_stmt s =
      visit_stmt same_as same_stmt (IRMutator_mutate same_as) (IRMutator_mutate_stmt same_as same_stmt) s)
      by (by destruct s).
    rewrite E. apply visit_stmt_unchanged; try done.
    - apply Forall_forall. intros. apply He.
    - pose proof (all_stmts_children _ _ Hr) as Hc. rewrite Forall_forall in IH, Hc |- *. auto.
    - by apply (all_stmts_here ranges_ok). }
  split; [intros e|intros s Hr]; [destruct (He e st eq_refl) as (s' & E & ->)|
    destruct (Hst s Hr st eq_refl) as (s' & E & ->)]; done.
Qed.

Lemma IRMutator_identity_witness :
  IRMutator_mutate_stmt (S := unit) (fun _ _ => true) (fun _ _ => true) (Block (Free "a") (Free "b")) tt
  = Ok (Some (Block (Free "a") (Free "b")), tt).
Proof.
  apply (IRMutator_identity (fun _ _ => true) (fun _ _ => true) tt); intros; reflexivity.
Defined.
