(* ===== verification/Visitor.v ===== *)
(** The visitor that sees every node of a graph once: [IRGraphVisitor] of
    src/src/IRVisitor.cpp. A subclass overrides [include] or [visit], so the base
    methods take the subclass's [include] as an argument; a state is threaded. *)

From Stdlib Require Import ZArith Lia Bool SpecFloat String.
From stdpp Require Import prelude strings gmap.
From S2P Require Import Prelude Types IR Mutator.

#[local] Open Scope Z_scope.

Section IRGraphVisitor.
Context {S : Type}.
Context (include : Expr -> S -> S) (include_stmt : Stmt -> S -> S).

Definition include_all : list Expr -> S -> S :=
  fix go (l : list Expr) (s : S) : S := match l with [] => s | e :: l => go l (include e s) end.

Definition include_bounds : list Range -> S -> S :=
  fix go (l : list Range) (s : S) : S :=
    match l with [] => s | r :: l => go l (include (range_extent r) (include (range_min r) s)) end.

(** The [visit] methods of expressions. *)
Definition graph_visit (op : Expr) (s : S) : S :=
  match op with
  | IntImm _ _ | UIntImm _ _ | FloatImm _ _ | StringImm _ | Var _ _ _ _ _ => s
  | Cast _ v | Not v | Broadcast v _ | Load _ _ v _ _ => include v s
  | Bin _ a b | Ramp a b _ | Let _ a b => include b (include a s)
  | Select c t f => include f (include t (include c s))
  | Call _ _ args _ _ _ _ _ => include_all args s
  end.

(** The [visit] methods of statements. *)
Definition graph_visit_stmt (op : Stmt) (s : S) : S :=
  match op with
  | LetStmt _ v b => include_stmt b (include v s)
  | AssertStmt c m => include m (include c s)
  | ProducerConsumer _ p u c =>
      let s := include_stmt p s in
      let s := match u with Some u => include_stmt u s | None => s end in
      include_stmt c s
  | For _ m e _ _ b => include_stmt b (include e (include m s))
  | Store _ v i _ => include i (include v s)
  | Provide _ vs xs => include_all xs (include_all vs s)
  | Allocate _ _ xs c ne _ b =>
      let s := include c (include_all xs s) in
      let s := match ne with Some e => include e s | None => s end in
      include_stmt b s
  | Free _ => s
  | Realize _ _ bs c b => include_stmt b (include c (include_bounds bs s))
  | Block f r => include_stmt r (include_stmt f s)
  | IfThenElse c t e =>
      let s := include_stmt t (include c s) in
      match e with Some e => include_stmt e s | None => s end
  | Evaluate v => include v s
  end.

Lemma graph_visit_children e s : graph_visit e s = include_all (children e) s.
Proof. by destruct e. Qed.
End IRGraphVisitor.
