(* ===== verification/Intrinsics.v ===== *)
(** What the code generator does with the integer intrinsics (the branches of
    [CodeGen_LLVM::visit(const Call * )] of src/src/CodeGen_LLVM.cpp that emit one
    instruction), and the rules by which the front end's operators, applied to scalar
    integer expressions, evaluate to the corresponding integer operations. *)

From Stdlib Require Import ZArith Lia Bool SpecFloat String.
From stdpp Require Import prelude strings gmap.
From S2P Require Import Prelude Types IR Semantics Operators Mutator.

#[local] Open Scope Z_scope.
#[local] Open Scope halide_scope.

(** * The instructions

    One lane of the value of an intrinsic of type [t]; [None] where LLVM leaves the
    result undefined: a shift by a negative amount or by the width and more, a zero
    divisor, and the quotient of the least value by -1. *)
Definition shift_amount (t : Ty) (b : Z) : bool := (0 <=? b) && (b <? bits t).

Definition div_undefined (t : Ty) (a b : Z) : bool :=
  (b =? 0) || (is_int t && (a =? - 2 ^ (bits t - 1)) && (b =? -1)).

Definition unary_lane (name : string) (a : Z) : option Z :=
  if bool_decide (name = "bitwise_not") then Some (Z.lnot a)
  else if bool_decide (name = "reinterpret") then Some a
  else if bool_decide (name = "abs") then Some (Z.abs a)
  else None.

Definition binary_lane (t : Ty) (name : string) (a b : Z) : option Z :=
  if bool_decide (name = "bitwise_and") then Some (Z.land a b)
  else if bool_decide (name = "bitwise_xor") then Some (Z.lxor a b)
  else if bool_decide (name = "bitwise_or") then Some (Z.lor a b)
  else if bool_decide (name = "shift_left") then
    if shift_amount t b then Some (Z.shiftl a b) else None
  else if bool_decide (name = "shift_right") then
    if shift_amount t b then Some (Z.shiftr a b) else None
  else if bool_decide (name = "absd") then Some (Z.abs (a - b))
  else if bool_decide (name = "div_round_to_zero") then
    if div_undefined t a b then None else Some (Z.quot a b)
  else if bool_decide (name = "mod_round_to_zero") then
    if div_undefined t a b then None else Some (Z.rem a b)
  else None.

Definition lift_unary (t : Ty) (f : Z -> option Z) (x : scalar) : option scalar :=
  match x with VInt a => z ← f a; Some (VInt (wrap_type t z)) | _ => None end.
Definition lift_binary (t : Ty) (f : Z -> Z -> option Z) (x y : scalar) : option scalar :=
  match x, y with VInt a, VInt b => z ← f a b; Some (VInt (wrap_type t z)) | _, _ => None end.

(** A call of type [t]; the registers hold the low bits of the result. *)
Definition intrinsic (t : Ty) (name : string) (args : list value) : option value :=
  if (is_int t && int_width (bits t)) || (is_uint t && uint_width (bits t)) then
    r ← match args with
        | [va] => mapM (lift_unary t (unary_lane name)) va
        | [va; vb] => zip_with_M (lift_binary t (binary_lane t name)) va vb
        | _ => None
        end;
    if Z.of_nat (length r) =? lanes t then Some r else None
  else None.

(** An environment in which the intrinsics are the instructions. *)
Class Intrinsics (ρ : env) : Prop :=
  intrinsics_fn t name vi args v :
    intrinsic t name args = Some v -> fn ρ t PureIntrinsic name vi args = Some v.

(** The environment with these variables, this memory, these functions of other kinds,
    and no other pure intrinsics. *)
Definition intrinsic_env (vs : gmap string value) (m : Ty -> string -> Z -> option scalar)
    (f : Ty -> CallType -> string -> Z -> list value -> option value) : env :=
  mkEnv vs m (fun t ct name vi args =>
    match ct with PureIntrinsic => intrinsic t name args | _ => f t ct name vi args end).

#[global] Instance intrinsic_env_intrinsics vs m f : Intrinsics (intrinsic_env vs m f).
Proof. by intros t name vi args v H. Qed.

#[global] Instance bind_var_intrinsics ρ x v `{!Intrinsics ρ} : Intrinsics (bind_var ρ x v).
Proof. intros t name vi args r H. simpl. by apply intrinsics_fn. Qed.

Lemma intrinsic_value_ok p t name args v : intrinsic t name args = Some v -> value_ok p t v.
Proof.
  unfold intrinsic. case_match eqn:Ht; [|done]. intros H. inv_res.
  case_match eqn:Hl; [|done]. inv_res. apply Z.eqb_eq in Hl. split; [done|].
  assert (Hok : forall z, scalar_ok p t (VInt (wrap_type t z))).
  { intros z. assert (0 < bits t /\ is_int t || is_uint t = true) as [Hb Hc].
    { bool_to_prop. destruct Ht; bool_to_prop; [apply int_width_range in H1|apply uint_width_range in H1];
        rewrite H0, ?orb_true_r; (split; [lia|done]). }
    split; [done|]. destruct p; auto using wrap_representable. }
  destruct args as [|va [|vb [|]]]; try done.
  - eapply mapM_ok; [|done]. intros x r _ Hr. destruct x; try done. simpl in Hr. inv_res. apply Hok.
  - eapply zip_with_M_Forall; [|done]. intros x y r Hr. destruct x, y; try done. simpl in Hr. inv_res.
    apply Hok.
Qed.

Lemma intrinsic_env_ok p Γ vs m f :
  (forall x t v, Γ !! x = Some t -> vs !! x = Some v -> value_ok p t v) ->
  (forall t n i s, m t n i = Some s -> scalar_ok p t s) ->
  (forall t ct name vi args v, f t ct name vi args = Some v -> value_ok p t v) ->
  env_ok p Γ (intrinsic_env vs m f).
Proof.
  intros Hv Hm Hf. constructor; simpl; [done..|]. intros t ct name vi args v.
  destruct ct; eauto using intrinsic_value_ok.
Qed.

(** * Scalar expressions

    [scalar_expr t e z]: [e] has exactly the integer type [t], one lane, and the value
    [z]. *)
Definition sint (t : Ty) : Prop := std_int t /\ lanes t = 1.

Lemma sint_int b : int_width b = true -> sint (Int b 1) /\ bits (Int b 1) = b.
Proof.
  intros H. destruct (std_int_intro halide_type_int b 1) as (H1 & H2 & H3); [by rewrite H|lia|done].
Qed.
Lemma sint_uint b : uint_width b = true -> sint (UInt b 1) /\ bits (UInt b 1) = b.
Proof.
  intros H. destruct (std_int_intro halide_type_uint b 1) as (H1 & H2 & H3); [by rewrite H|lia|done].
Qed.

Lemma std_int_eqb t u : std_int t -> std_int u -> type_eqb t u = true -> t = u.
Proof.
  intros (_ & _ & H1) (_ & _ & H2) (Hc & Hb & Hl)%type_eqb_fields. destruct t, u. simpl in *. congruence.
Qed.

Lemma sint_cases t : sint t -> t = Int (bits t) 1 /\ int_width (bits t) = true
  \/ t = UInt (bits t) 1 /\ uint_width (bits t) = true.
Proof.
  intros [Hs Hl]. pose proof (std_int_bits _ Hs) as Hb. pose proof (std_int_width _ Hs) as Hw.
  destruct Hs as (_ & _ & Hh). destruct t as [c b l h]. simpl in *. subst. unfold Int, UInt, Type_make.
  rewrite small_bits by done. change (uwrap 16 1) with 1.
  unfold is_int, is_uint in Hw. simpl in Hw. destruct Hw as [[H1 H2]|[H1 H2]]; bool_to_prop; subst; auto.
Qed.

Lemma matched_sint ta tb : sint ta -> sint tb ->
  sint (matched_type ta tb) /\ bits (matched_type ta tb) = Z.max (bits ta) (bits tb)
  /\ is_uint (matched_type ta tb) = is_uint ta && is_uint tb.
Proof.
  intros [Ha Hla] [Hb Hlb]. destruct (matched_type_std _ _ Ha Hb) as (Hs & Hbi & Hl).
  split; [|split; [done|]].
  - split; [done|]. by rewrite Hl, Hla, Hlb; case_match.
  - unfold matched_type. by destruct (is_uint ta && is_uint tb).
Qed.

(** Wrapping twice at one width is wrapping once. *)
Lemma wrap_type_wrap t u z : 0 < bits t -> bits t <= bits u -> wrap_type t (wrap_type u z) = wrap_type t z.
Proof.
  intros Ht Hu. destruct (wrap_type_form u z) as [k ->]; [lia|].
  replace (2 ^ bits u) with (2 ^ (bits u - bits t) * 2 ^ bits t) by (rewrite <- Z.pow_add_r by lia; f_equal; lia).
  rewrite Z.mul_assoc. by apply wrap_type_add_mul.
Qed.

Section Scalars.
Context (Γ : gmap string Ty) (ρ : env) `{!Intrinsics ρ}.

Record scalar_expr (t : Ty) (e : Expr) (z : Z) : Prop := {
  se_type : type e = t;
  se_wf : wf e;
  se_typed : typed Γ e;
  se_eval : eval Machine ρ e = Some [VInt z];
  se_range : representable t z = true
}.

Lemma scalar_int_expr t e z : sint t -> scalar_expr t e z -> int_expr Γ ρ e [z].
Proof.
  intros [Hs Hl] [<- Hwf Ht He Hr]. constructor; auto using std_int_like.
Qed.

Lemma scalar_casted t e z : sint t -> type e = t -> casted Γ ρ t (coerce t [z]) e ->
  scalar_expr t e (wrap_type t z).
Proof.
  intros [Hs Hl] Hty [_ Hwf Ht He]. unfold coerce in He. rewrite Hl in He. constructor; [done..|].
  pose proof (std_int_bits _ Hs). apply wrap_representable; [lia|]. apply std_int_class, Hs.
Qed.

Lemma make_const_scalar_expr t z : sint t ->
  exists e, make_const t (Int64 z) = Ok e /\ scalar_expr t e (wrap_type t z).
Proof.
  intros [Hs Hl]. rewrite (make_const_int t _ z) by auto. eexists. split; [done|].
  apply scalar_casted; [done|by apply const_node_type|]. unfold coerce. by apply casted_const.
Qed.

Lemma cast_type t a e : std_int t -> is_vector t = false -> wf a -> std_int (type a) ->
  cast_expr t a = Ok e -> type e = t.
Proof.
  intros Ht Hv Hwf Ha. unfold cast_expr, cast_body. rewrite Hv.
  destruct (type_eqb (type a) t) eqn:Heq; [intros [= <-]; by apply std_int_eqb|].
  destruct (std_int_class _ Ht) as (_ & _ & ->), (std_int_class _ Ha) as (_ & Hf & ->). cbn [andb negb].
  unfold as_const_int, as_const_uint, as_const_float, eref. cbn [mbind option_bind].
  assert (Hc : forall n z, n = Int64 z \/ n = UInt64 z -> make_const t n = Ok e -> type e = t).
  { intros n z Hn. rewrite (make_const_int t n z) by done. intros [= <-]. by apply const_node_type. }
  destruct (as_const_int_expr a); [eauto|]. destruct (as_const_uint_expr a); [eauto|].
  destruct (as_const_float_expr a) eqn:Hfl; [by rewrite (as_const_float_type _ _ Hwf Hfl) in Hf|].
  unfold Cast_make. intros H. simpl in H. inv_res. done.
Qed.

Lemma cast_scalar_expr t u a z : sint t -> sint u -> scalar_expr u a z ->
  exists e, cast t (Some a) = Ok e /\ scalar_expr t e (wrap_type t z).
Proof.
  intros [Ht Hl] [Hu Hlu] Ha. pose proof (scalar_int_expr _ _ _ (conj Hu Hlu) Ha) as Hi. destruct Ha as [<- Hwf _ _ _].
  destruct (cast_expr_scalar Γ ρ t a [z] Ht Hi Hl Hlu) as (e & He & Hc).
  exists e. split; [done|]. apply scalar_casted; [done| |done].
  eapply cast_type; [done| |done|done|done]. unfold is_vector. by rewrite Hl.
Qed.

Lemma representable_int64 t z : sint t -> in_srange 64 z -> representable t z = true ->
  can_represent_int64 t z = true.
Proof.
  intros [Hs _] Hz Hr. pose proof (std_int_bits _ Hs) as Hb. destruct (std_int_class _ Hs) as (Hc & _).
  apply (can_represent_range_spec t z Hb Hc); [done|]. unfold representable in Hr.
  destruct (is_int t), (is_uint t); try done; by bool_to_prop.
Qed.

Lemma check_representable_ok t z : sint t -> in_srange 64 z -> representable t z = true ->
  check_representable t z = Ok tt.
Proof.
  intros Ht Hz Hr. unfold check_representable. destruct (std_int_class _ (proj1 Ht)) as (_ & _ & ->).
  destruct (make_const_scalar_expr t z Ht) as (e & -> & _). simpl.
  by rewrite representable_int64.
Qed.

(** ** Matching the types *)

Lemma cast_type_or_fail t a : sint t -> wf a -> std_int (type a) ->
  match cast t (Some a) with Ok e => type e = t | Err _ => True end.
Proof.
  intros [Ht Hl] Hwf Ha. destruct (cast t (Some a)) eqn:H; [|done]. eapply cast_type; [done| |done|done|exact H].
  unfold is_vector. by rewrite Hl.
Qed.

Lemma match_types_std a b a' b' : sint (type a) -> sint (type b) -> wf a -> wf b ->
  match_types a b = Ok (a', b') -> std_int (type a') /\ std_int (type b').
Proof.
  intros Ha Hb Hwa Hwb. pose proof (sint_cases _ Ha) as Hca. pose proof (sint_cases _ Hb) as Hcb.
  destruct (matched_sint _ _ Ha Hb) as (Hm & _). pose proof Hm as [Hms _]. revert Hm Hms. unfold matched_type.
  destruct Ha as [Hsa Hla], Hb as [Hsb Hlb].
  destruct (std_int_class _ Hsa) as (_ & Hfa & Hha), (std_int_class _ Hsb) as (_ & Hfb & Hhb).
  pose proof (cast_type_or_fail (type b) a (conj Hsb Hlb) Hwa Hsa) as C1.
  pose proof (cast_type_or_fail (type a) b (conj Hsa Hla) Hwb Hsb) as C2.
  unfold match_types, user_assert, match_lanes, is_vector, is_scalar.
  rewrite Hha, Hhb, Hla, Hlb. cbn [negb andb Z.eqb Pos.eqb mbind res_bind].
  destruct (type_eqb (type a) (type b)) eqn:Heq; [by intros _ _ [= <- <-]|].
  unfold internal_assert. cbn [mbind res_bind]. unfold match_element_types, eref.
  rewrite Heq, Hfa, Hfb, Hla. cbn [negb andb].
  destruct (is_uint (type a) && is_uint (type b)).
  - intros _ _. destruct (bits (type b) <? bits (type a)).
    + destruct (cast (type a) (Some b)); [|done]. intros [= <- <-]. by rewrite C2.
    + destruct (cast (type b) (Some a)); [|done]. intros [= <- <-]. by rewrite C1.
  - intros Hm Hms. clear C1 C2. pose proof (cast_type_or_fail _ a Hm Hwa Hsa) as C3.
    pose proof (cast_type_or_fail _ b Hm Hwb Hsb) as C4.
    destruct (cast _ (Some a)) as [x|]; [|done]. cbn [mbind res_bind].
    destruct (cast _ (Some b)) as [y|]; [|done]. intros [= <- <-]. by rewrite C3, C4.
Qed.

Lemma match_scalar ta tb a b z w : sint ta -> sint tb -> scalar_expr ta a z -> scalar_expr tb b w ->
  exists a' b', match_types a b = Ok (a', b') /\
    scalar_expr (matched_type ta tb) a' (wrap_type (matched_type ta tb) z) /\
    scalar_expr (matched_type ta tb) b' (wrap_type (matched_type ta tb) w).
Proof.
  intros Hta Htb Ha Hb. destruct (matched_sint _ _ Hta Htb) as (Hm & _).
  pose proof (scalar_int_expr _ _ _ Hta Ha) as Hia. pose proof (scalar_int_expr _ _ _ Htb Hb) as Hib.
  destruct Ha as [<- Hwa _ _ _], Hb as [<- Hwb _ _ _].
  destruct (match_types_int Γ ρ a b [z] [w] (matched_type (type a) (type b)) Hia Hib (proj1 Hta) (proj1 Htb)) as (a' & b' & He & Ca & Cb);
    [by right; left; apply Hta|done|].
  exists a', b'. split; [done|]. destruct (match_types_std a b a' b') as [Sa Sb]; [done..|].
  split; apply scalar_casted; try done; (apply std_int_eqb; [done|apply Hm|]); [apply Ca|apply Cb].
Qed.

(** ** Operators *)

Lemma scalar_bin op nm t a b z w r : sint t -> is_logical op = false ->
  scalar_expr t a z -> scalar_expr t b w -> int_binop Machine op t z w = Some r ->
  binary_make op nm (eref a) (eref b) = Ok (Bin op a b) /\ scalar_expr (binop_type op t) (Bin op a b) r.
Proof.
  intros [Hs Hl] Hlog [Ha1 Ha2 Ha3 Ha4 Ha5] [Hb1 Hb2 Hb3 Hb4 Hb5] Hr.
  assert (Heq : type_eqb (type a) (type b) = true) by (rewrite Ha1, Hb1; apply type_eqb_refl).
  assert (Hwf : wf_node (Bin op a b)) by (simpl; rewrite Hlog; done).
  split; [by apply binary_make_Ok|]. pose proof (std_int_bits _ Hs). destruct (std_int_class _ Hs) as (Hc & _).
  constructor.
  - simpl. unfold binop_type. by rewrite Ha1.
  - by split.
  - by split.
  - cbn [eval]. rewrite Ha4, Hb4. cbn. by rewrite Ha1, Hr.
  - destruct (eval_binop_ok Machine op t (VInt z) (VInt w) (VInt r)) as [_ Hok]; try done; [lia|].
    cbn [eval_binop]. by rewrite Hr.
Qed.

Lemma scalar_ee op nm nm' ta tb a b z w r (M := matched_type ta tb) : sint ta -> sint tb ->
  is_logical op = false -> scalar_expr ta a z -> scalar_expr tb b w ->
  int_binop Machine op M (wrap_type M z) (wrap_type M w) = Some r ->
  exists e, operator_ee (binary_make op nm) nm' (Some a) (Some b) = Ok e /\ scalar_expr (binop_type op M) e r.
Proof.
  intros Hta Htb Hlog Ha Hb Hr. destruct (match_scalar ta tb a b z w) as (a' & b' & Hm & Ha' & Hb'); [done..|].
  destruct (matched_sint _ _ Hta Htb) as (HM & _). eexists. unfold operator_ee. simpl. rewrite Hm. simpl.
  by apply (scalar_bin op nm M a' b' (wrap_type M z) (wrap_type M w) r).
Qed.

Lemma scalar_ei op nm nm' t a z k r : sint t -> is_logical op = false -> scalar_expr t a z ->
  in_srange 64 k -> representable t k = true -> int_binop Machine op t z k = Some r ->
  exists e, operator_ei (binary_make op nm) nm' (Some a) k = Ok e /\ scalar_expr (binop_type op t) e r.
Proof.
  intros Ht Hlog Ha Hk Hrep Hr. unfold operator_ei. simpl. pose proof Ha as [Hty _ _ _ _]. rewrite Hty.
  rewrite check_representable_ok by done. destruct (make_const_scalar_expr t k Ht) as (c & -> & Hc). simpl.
  rewrite representable_wrap in Hc by done. eexists. by apply (scalar_bin op nm t a c z k r).
Qed.

(** ** Intrinsics *)

Lemma std_guard t : std_int t ->
  (is_int t && int_width (bits t)) || (is_uint t && uint_width (bits t)) = true.
Proof. by intros [H _]. Qed.

(** The names the evaluator gives a meaning of its own are not instructions. *)
Lemma eval_call_intrinsic t name args v :
  intrinsic t name args = Some v ->
  (call_is_intrinsic name PureIntrinsic "likely" || call_is_intrinsic name PureIntrinsic "likely_if_innermost"
   || call_is_intrinsic name PureIntrinsic "return_second") = false ->
  eval_call ρ t PureIntrinsic name 0 args = Some v.
Proof. intros H Hn. unfold eval_call. rewrite Hn. by apply intrinsics_fn. Qed.

Lemma scalar_call t name args zs z : sint t ->
  (call_is_intrinsic name PureIntrinsic "likely" || call_is_intrinsic name PureIntrinsic "likely_if_innermost"
   || call_is_intrinsic name PureIntrinsic "return_second") = false ->
  intrinsic t name ((fun z => [VInt z]) <$> zs) = Some [VInt (wrap_type t z)] ->
  Forall2 (fun a z => exists u, scalar_expr u a z) args zs ->
  exists e, pure_intrinsic t name args = Ok e /\ scalar_expr t e (wrap_type t z).
Proof.
  intros [Hs Hl] Hn Hi Hargs. unfold pure_intrinsic, Call_make.
  rewrite (proj2 (mapM_defined _ _ args)) by done. cbn [mbind res_bind]. eexists. split; [done|].
  assert (He : mapM (eval Machine ρ) args = Some ((fun z => [VInt z]) <$> zs)).
  { clear -Hargs. induction Hargs as [|a b args zs [u [_ _ _ He _]] Hargs IH]; [done|]. cbn [mapM]. rewrite He. simpl.
    by rewrite IH. }
  pose proof (std_int_bits _ Hs). constructor.
  - done.
  - split; [done|]. apply wf_args. clear -Hargs. induction Hargs as [|? ? ? ? [u []] ? IH]; by constructor.
  - split; [by apply std_int_ty_ok|]. split; [by rewrite Hn|]. apply typed_args. clear -Hargs.
    induction Hargs as [|? ? ? ? [u []] ? IH]; by constructor.
  - cbn [eval]. rewrite He. by apply eval_call_intrinsic.
  - apply wrap_representable; [lia|]. apply std_int_class, Hs.
Qed.

Lemma scalar_unary t u name a z r : sint t -> unary_lane name z = Some r -> scalar_expr u a z ->
  exists e, pure_intrinsic t name [a] = Ok e /\ scalar_expr t e (wrap_type t r).
Proof.
  intros Ht Hr Ha. apply (scalar_call t name [a] [z]); [done| | |by repeat constructor; eexists].
  - simpl. unfold unary_lane in Hr. repeat case_bool_decide; subst; done.
  - unfold intrinsic. rewrite std_guard by apply Ht. simpl. rewrite Hr. simpl. by rewrite (proj2 Ht).
Qed.

Lemma scalar_binary t u v name a b z w r : sint t -> binary_lane t name z w = Some r ->
  scalar_expr u a z -> scalar_expr v b w ->
  exists e, pure_intrinsic t name [a; b] = Ok e /\ scalar_expr t e (wrap_type t r).
Proof.
  intros Ht Hr Ha Hb. apply (scalar_call t name [a; b] [z; w]);
    [done| | |repeat (constructor; [by eexists|]); constructor].
  - simpl. unfold binary_lane in Hr. repeat case_bool_decide; subst; done.
  - unfold intrinsic. rewrite std_guard by apply Ht. simpl. rewrite Hr. simpl. by rewrite (proj2 Ht).
Qed.

(** A right shift happens at the common type of the operands. *)
Lemma scalar_shr ta tb a b z w (M := matched_type ta tb) : sint ta -> sint tb ->
  scalar_expr ta a z -> scalar_expr tb b w -> shift_amount M (wrap_type M w) = true ->
  exists e, operator_shr (Some a) (Some b) = Ok e /\
    scalar_expr M e (wrap_type M (Z.shiftr (wrap_type M z) (wrap_type M w))).
Proof.
  intros Hta Htb Ha Hb Hw. destruct (matched_sint _ _ Hta Htb) as (HM & _).
  destruct (match_scalar ta tb a b z w) as (a' & b' & Hm & Ha' & Hb'); [done..|].
  unfold operator_shr, shift. simpl. rewrite (se_type _ _ _ Ha), (se_type _ _ _ Hb).
  destruct (std_int_class _ (proj1 Hta)) as (_ & -> & _), (std_int_class _ (proj1 Htb)) as (_ & -> & _).
  simpl. rewrite Hm. simpl. rewrite (se_type _ _ _ Ha').
  apply (scalar_binary M M M _ a' b' (wrap_type M z) (wrap_type M w)); try done.
  unfold binary_lane. simpl. by rewrite Hw.
Qed.

Lemma matched_type_same t : sint t -> matched_type t t = t.
Proof.
  intros H. destruct (matched_sint t t H H) as ((Hs & Hl) & Hb & Hu). apply std_int_eqb; [done|apply H|].
  destruct (std_int_class _ Hs) as (Hc & _ & Hh). apply type_eqb_numeric; [done|].
  destruct (std_int_class _ (proj1 H)) as (Hc' & _). rewrite Hl, Hb, (proj2 H), Z.max_id. split; [|done].
  unfold is_int, is_uint in *. rewrite andb_diag in Hu.
  destruct (code t), (code (matched_type t t)); simpl in *; try discriminate; done.
Qed.

Lemma shift_amount_representable t k : sint t -> 8 <= bits t -> shift_amount t k = true ->
  in_srange 64 k /\ representable t k = true.
Proof.
  intros [Hs _] Hb Hk. pose proof (std_int_bits _ Hs). unfold shift_amount in Hk. bool_to_prop.
  assert (bits t <= 2 ^ (bits t - 1)).
  { replace (bits t) with (Z.succ (bits t - 1)) at 1 by lia. apply Z.le_succ_l, Z.pow_gt_lin_r; lia. }
  pose proof (pow2_half (bits t)). destruct (std_int_class _ Hs) as (Hc & _).
  unfold representable, in_srange, in_urange. split; [lia|].
  destruct (is_int t), (is_uint t); try done; apply bool_decide_eq_true; lia.
Qed.

Lemma scalar_shr_ei t a z k : sint t -> 8 <= bits t -> scalar_expr t a z -> shift_amount t k = true ->
  exists e, operator_shr_ei (Some a) k = Ok e /\ scalar_expr t e (wrap_type t (Z.shiftr z k)).
Proof.
  intros Ht Hb8 Ha Hk. destruct (shift_amount_representable t k Ht Hb8 Hk) as [Hk64 Hrep].
  unfold operator_shr_ei, shift_ei. simpl. rewrite (se_type _ _ _ Ha), check_representable_ok by done.
  destruct (make_const_scalar_expr t k Ht) as (c & -> & Hc). simpl.
  rewrite representable_wrap in Hc by done.
  destruct (scalar_shr t t a c z k) as (e & He & Hs); [done..| |].
  { by rewrite matched_type_same, representable_wrap. }
  rewrite matched_type_same in Hs by done.
  rewrite (representable_wrap t z), (representable_wrap t k) in Hs by (done || apply (se_range _ _ _ Ha)). eauto.
Qed.

(** ** Bitwise operators: the second operand takes the width, then the type, of the first *)

Definition bitwise_names : list (string * (Z -> Z -> Z)) :=
  [("bitwise_and", Z.land); ("bitwise_xor", Z.lxor); ("bitwise_or", Z.lor)].

Lemma bitwise_lane t name f z w : (name, f) ∈ bitwise_names -> binary_lane t name z w = Some (f z w).
Proof.
  intros H. apply list_elem_of_In in H. simpl in H. repeat (destruct H as [[= <- <-]|H]; [done|]). done.
Qed.

Lemma with_bits_sint t u : sint t -> sint u -> bits t <> bits u -> 8 <= bits u ->
  sint (with_bits t (bits u)) /\ bits (with_bits t (bits u)) = bits u.
Proof.
  intros [Ht Hl] [Hu _] Hne Hb. pose proof (std_int_bits _ Hu) as Hbu. pose proof (std_int_width _ Hu) as Hw.
  destruct Ht as (Hc & _ & Hh). unfold with_bits, Type_make, sint, std_int, is_int, is_uint in *. simpl.
  rewrite Hl, small_bits by done. change (uwrap 16 1) with 1.
  assert (Hwi : int_width (bits u) = true).
  { destruct Hw as [[_ ?]|[_ Hw]]; [done|]. unfold uint_width in Hw. bool_to_prop. destruct Hw; [|done].
    bool_to_prop. lia. }
  unfold uint_width. rewrite Hwi, orb_true_r, !andb_true_r. repeat split; try lia.
  destruct (code t); simpl in *; done.
Qed.

Lemma scalar_bitwise name f msg tx ty x y z w : (name, f) ∈ bitwise_names ->
  sint tx -> sint ty -> 8 <= bits tx -> scalar_expr tx x z -> scalar_expr ty y w ->
  exists e, bitwise name msg (Some x) (Some y) = Ok e /\
    scalar_expr tx e (wrap_type tx (f z (wrap_type tx w))).
Proof.
  intros Hin Htx Hty Hb8 Hx Hy. unfold bitwise, both_defined, user_assert. cbn [mbind res_bind]. rewrite (se_type _ _ _ Hx), (se_type _ _ _ Hy).
  destruct (std_int_class _ (proj1 Htx)) as (-> & _), (std_int_class _ (proj1 Hty)) as (-> & _).
  cbn [mbind res_bind]. pose proof (std_int_bits _ (proj1 Htx)) as Hbx.
  assert (H1 : exists u y', (if negb (bits ty =? bits tx) then cast (with_bits ty (bits tx)) (eref y) else Ok y) = Ok y'
    /\ sint u /\ bits u = bits tx /\ scalar_expr u y' (wrap_type u w)).
  { destruct (Z.eqb_spec (bits ty) (bits tx)) as [He|Hne]; simpl.
    - exists ty, y. rewrite representable_wrap by apply (se_range _ _ _ Hy). done.
    - destruct (with_bits_sint ty tx Hty Htx Hne Hb8) as [Hs Hsb].
      destruct (cast_scalar_expr _ ty y w Hs Hty Hy) as (y' & Hc & Hy'). exists (with_bits ty (bits tx)), y'. done. }
  destruct H1 as (u & y' & -> & Hu & Hub & Hy'). cbn [mbind res_bind].
  assert (H2 : exists y'', (if type_neqb (type y') tx then reinterpret tx (eref y') else Ok y') = Ok y''
    /\ scalar_expr tx y'' (wrap_type tx w)).
  { rewrite (se_type _ _ _ Hy'), type_neqb_negb. destruct (type_eqb u tx) eqn:Heq; simpl.
    - apply (std_int_eqb _ _ (proj1 Hu) (proj1 Htx)) in Heq as ->. eauto.
    - unfold reinterpret. simpl. rewrite (se_type _ _ _ Hy'), Hub, (proj2 Hu), (proj2 Htx), Z.eqb_refl. simpl.
      destruct (scalar_unary tx u "reinterpret" y' (wrap_type u w) (wrap_type u w)) as (y'' & -> & Hy''); [done..|].
      exists y''. split; [done|]. by rewrite wrap_type_wrap in Hy'' by lia. }
  destruct H2 as (y'' & -> & Hy''). cbn [mbind res_bind].
  apply (scalar_binary tx tx tx name x y'' z (wrap_type tx w)); [done| |done..]. by apply bitwise_lane.
Qed.

(** ** Select *)

Lemma constant_branch t a b z w : sint t -> scalar_expr t a z -> scalar_expr t b w ->
  exists a', (if as_const_int (Some a) then
                f ← deref (Some b); t ← cast (type f) (Some a); Ok (eref t)
              else @Ok ExprRef (Some a)) = Ok (eref a') /\ scalar_expr t a' z.
Proof.
  intros Ht Ha Hb. destruct (as_const_int (Some a)); [|eauto]. cbn [deref defined mbind res_bind].
  rewrite (se_type _ _ _ Hb).
  destruct (cast_scalar_expr t t a z Ht Ht Ha) as (a' & -> & Ha').
  rewrite representable_wrap in Ha' by apply (se_range _ _ _ Ha). simpl. eauto.
Qed.

Lemma scalar_select t c a b (k : bool) z w : sint t -> as_const_int (Some c) = None ->
  scalar_expr (Bool 1) c (Z.b2z k) -> scalar_expr t a z -> scalar_expr t b w ->
  exists e, select (Some c) (Some a) (Some b) = Ok e /\ scalar_expr t e (if k then z else w).
Proof.
  intros Ht Hk Hc Ha Hb. unfold select. rewrite Hk. cbn [mbind res_bind].
  destruct (constant_branch t a b z w Ht Ha Hb) as (a' & -> & Ha'). cbn [mbind res_bind].
  change (deref (eref a')) with (deref (Some a')).
  destruct (constant_branch t b a' w z Ht Hb Ha') as (b' & -> & Hb'). unfold deref, eref, user_assert. cbn [mbind res_bind].
  destruct Hc as [Hc1 Hc2 Hc3 Hc4 _], Ha' as [Ha1 Ha2 Ha3 Ha4 Ha5], Hb' as [Hb1 Hb2 Hb3 Hb4 Hb5].
  rewrite Hc1, Ha1, Hb1, type_eqb_refl. simpl. eexists. split.
  - apply Select_make_ok. simpl. by rewrite Hc1, Ha1, Hb1, type_eqb_refl.
  - constructor.
    + done.
    + simpl. by rewrite Hc1, Ha1, Hb1, type_eqb_refl.
    + done.
    + cbn [eval]. rewrite Hc4, Ha4, Hb4. by destruct k.
    + by destruct k.
Qed.

Lemma comparison_not_const op a b : as_const_int (Some (Bin op a b)) = None.
Proof. done. Qed.
End Scalars.
