(* ===== verification/FastIntegerDivide.v ===== *)
(** Division by small run-time integers: src/src/FastIntegerDivide.cpp, with the calls
    to images it makes (src/src/Image.cpp, src/src/Parameter.cpp, src/src/Var.h). The
    function builds an expression that looks a multiplier and a shift up in one of six
    built-in images; the theorems say which quotient that expression has. *)

From Stdlib Require Import ZArith Lia Bool SpecFloat String.
From stdpp Require Import prelude strings pretty gmap.
From S2P Require Import Prelude IntegerDivisionTable Types IR Semantics Operators Mutator Intrinsics.

#[local] Open Scope Z_scope.
#[local] Open Scope halide_scope.

(** * Calls to images *)

(** The fields of an image that calls to it read. *)
Record ImageBase := mkImage {
  buffer_type : Ty;
  buffer_name : string;
  buffer : ptr;
  dims : Z
}.

Definition is_placeholder (name : string) : bool := bool_decide (name = "_").
Definition implicit_var (n : Z) : Expr := Var (Int 32 1) ("_" +:+ pretty n) None None None.

(** The new argument list and whether the argument was the placeholder. *)
Definition add_implicit_args_if_placeholder (im : ImageBase) (args : list ExprRef) (last_arg : ExprRef)
    (total_args : Z) (placeholder_seen : bool) : res (list ExprRef * bool) :=
  match last_arg with
  | Some (Var _ name _ _ _) as last_arg =>
      if is_placeholder name then
        _ ← user_assert (negb placeholder_seen) "Only one placeholder ('_') allowed";
        Ok (args ++ (eref ∘ implicit_var <$> seqZ 0 (dims im - total_args + 1)), true)
      else
        _ ← user_assert (negb (negb placeholder_seen && (Z.of_nat (List.length args) + 1 =? total_args)
                               && (Z.of_nat (List.length args) + 1 <? dims im)))
              "Can't construct a reference to Image with this many arguments";
        Ok (args ++ [last_arg], false)
  | _ =>
      _ ← user_assert (negb (negb placeholder_seen && (Z.of_nat (List.length args) + 1 =? total_args)
                             && (Z.of_nat (List.length args) + 1 <? dims im)))
            "Can't construct a reference to Image with this many arguments";
      Ok (args ++ [last_arg], false)
  end.

Definition check_call_arg_type (arg : ExprRef) : res ExprRef :=
  e ← user_defined "Argument to call is an undefined Expr" arg;
  let t := type e in
  _ ← user_assert (negb (is_float t || (is_uint t && (32 <=? bits t)) || (is_int t && (32 <? bits t))))
        "Implicit cast to int in argument to call is not allowed";
  if type_neqb t (Int 32 1) then c ← Cast_make (Int 32 1) (eref e); Ok (eref c) else Ok (eref e).
Definition check_call_arg_types (args : list ExprRef) (dims : Z) : res (list ExprRef) :=
  _ ← user_assert (Z.of_nat (List.length args) =? dims) "wrong number of arguments in call";
  mapM check_call_arg_type args.

(** [im(x, y)]. *)
Definition image_call_2 (im : ImageBase) (x y : ExprRef) : res Expr :=
  '(args, seen) ← add_implicit_args_if_placeholder im [] x 2 false;
  '(args, _) ← add_implicit_args_if_placeholder im args y 2 seen;
  args ← check_call_arg_types args (dims im);
  Call_make (buffer_type im) (buffer_name im) args Image None 0 (buffer im) None.

(** * The images

    Column 0 is the multiplier and column 1 the shift, converted to the element type
    of the image. *)
Definition fill_table (b : Z) (rows : list row) (i j : Z) : option Z :=
  if (0 <=? i) && (i <? 256) then
    match rows !! Z.to_nat i with
    | Some (_, _, mul, shift) =>
        if j =? 0 then Some (uwrap b mul) else if j =? 1 then Some (uwrap b shift) else None
    | None => None
    end
  else None.

Definition integer_divide_table_u8 := fill_table 8 table_runtime_u8.
Definition integer_divide_table_s8 := fill_table 8 table_runtime_s8.
Definition integer_divide_table_u16 := fill_table 16 table_runtime_u16.
Definition integer_divide_table_s16 := fill_table 16 table_runtime_s16.
Definition integer_divide_table_u32 := fill_table 32 table_runtime_u32.
Definition integer_divide_table_s32 := fill_table 32 table_runtime_s32.

Definition integer_divide_table (signed : bool) (b : Z) : Z -> Z -> option Z :=
  if signed then
    if b =? 8 then integer_divide_table_s8 else if b =? 16 then integer_divide_table_s16
    else integer_divide_table_s32
  else
    if b =? 8 then integer_divide_table_u8 else if b =? 16 then integer_divide_table_u16
    else integer_divide_table_u32.

(** * The division

    [images signed bits] is the image object made for that table. *)
Definition expr_of_int (z : Z) : res Expr := IntImm_make (Int 32 1) z.

(** [result / (1 << t.bits())], or a shift where that constant does not fit an [int]. *)
Definition keep_high_half (t : Ty) (result : Expr) : res Expr :=
  result ← (if bits t <? 32 then operator_div_ei (eref result) (Z.shiftl 1 (bits t))
            else operator_shr_ei (eref result) (bits t));
  cast t (eref result).

Definition divide_unsigned (im : ImageBase) (t wide : Ty) (numerator denominator : Expr) : res Expr :=
  c0 ← expr_of_int 0; mul ← image_call_2 im (eref denominator) (eref c0);
  c1 ← expr_of_int 1; shift ← image_call_2 im (eref denominator) (eref c1);
  mul ← cast wide (eref mul);
  result ← operator_mul (eref mul) (eref numerator);
  result ← keep_high_half t result;
  rest ← operator_sub (eref numerator) (eref result);
  half ← operator_div_ei (eref rest) 2;
  result ← operator_add (eref result) (eref half);
  operator_shr (eref result) (eref shift).

(** Returns the flipped numerator too. *)
Definition divide_signed (im : ImageBase) (t wide : Ty) (numerator denominator : Expr) : res (Expr * Expr) :=
  c0 ← expr_of_int 0; mul ← image_call_2 im (eref denominator) (eref c0);
  c1 ← expr_of_int 1; shift ← image_call_2 im (eref denominator) (eref c1);
  positive ← operator_gt_ei (eref numerator) 0;
  zero ← cast t (eref c0); m1 ← expr_of_int (-1); minus_one ← cast t (eref m1);
  xsign ← select (eref positive) (eref zero) (eref minus_one);
  numerator ← operator_bitxor (eref xsign) (eref numerator);
  mul ← cast wide (eref mul);
  result ← operator_mul (eref mul) (eref numerator);
  result ← keep_high_half t result;
  result ← operator_shr (eref result) (eref shift);
  result ← operator_bitxor (eref xsign) (eref result);
  Ok (numerator, result).

Definition fast_integer_divide (images : bool -> Z -> ImageBase) (numerator denominator : ExprRef) : res Expr :=
  denominator ← deref denominator;
  if is_const denominator then
    d ← cast (UInt 8 1) (eref denominator); operator_div numerator (eref d)
  else
    _ ← user_assert (type_eqb (type denominator) (UInt 8 1)) "requires a UInt(8) denominator";
    numerator ← deref numerator;
    let t := type numerator in
    _ ← user_assert (is_uint t || is_int t) "requires an integer numerator";
    _ ← user_assert ((bits t =? 8) || (bits t =? 16) || (bits t =? 32)) "requires 8, 16, or 32 bits";
    let wide := with_bits t (bits t * 2) in
    '(numerator, result) ←
      (if is_uint t then
         r ← divide_unsigned (images false (bits t)) t wide numerator denominator; Ok (numerator, r)
       else divide_signed (images true (bits t)) t wide numerator denominator);
    one ← operator_eq_ei (eref denominator) 1;
    result ← select (eref one) (eref numerator) (eref result);
    guard! type_eqb (type result) t else "";
    Ok result.

(** * Correctness *)

Definition table_width (b : Z) : Prop := b = 8 \/ b = 16 \/ b = 32.
Definition divisor (k : Z) : Z := if k =? 0 then 256 else k.

(** Every run-time row uses the most general method, with a shift of at most 7; its
    multiplier fits the element type, except that of divisor 1. *)
Definition runtime_row_ok (signed : bool) (b : Z) (r : row) : bool :=
  let '(d, method, mul, shift) := r in
  (method =? if signed then 1 else 2) && (0 <? uwrap b mul) && ((uwrap b mul =? mul) || (d =? 1))
  && (0 <=? shift) && (shift <? 8).

Lemma runtime_rows_ok b : table_width b ->
  forallb (runtime_row_ok false b) (table_u true b) && forallb (runtime_row_ok true b) (table_s true b) = true.
Proof. intros [->|[->| ->]]; vm_compute; reflexivity. Qed.

Lemma runtime_row (signed : bool) (b k : Z) (rows := if signed then table_s true b else table_u true b) :
  table_width b -> 0 <= k < 256 ->
  exists m mul shift, rows !! Z.to_nat k = Some (divisor k, m, mul, shift) /\
    runtime_row_ok signed b (divisor k, m, mul, shift) = true /\
    (forall j, integer_divide_table signed b k j = fill_table b rows k j).
Proof.
  intros Hb Hk. assert (Hlook : is_Some (rows !! Z.to_nat k)).
  { apply lookup_lt_is_Some. destruct (tables_u_ok true b Hb) as [_ Hu], (tables_s_ok true b Hb) as [_ Hs].
    unfold rows. destruct signed; lia. }
  destruct Hlook as [[[[d m] mul] shift] Hrow]. exists m, mul, shift.
  assert (d = divisor k) as ->.
  { assert (Hd : divisor k = if decide (Z.to_nat k = O) then 256 else Z.of_nat (Z.to_nat k)).
    { unfold divisor. case_decide; destruct (Z.eqb_spec k 0); lia. }
    rewrite Hd. unfold rows in Hrow. destruct signed.
    - by destruct (table_s_div true b _ d m mul shift 0 Hb Hrow) as [-> _]; [destruct Hb as [->|[->| ->]]|].
    - by destruct (table_u_div true b _ d m mul shift 0 Hb Hrow) as [-> _]; [destruct Hb as [->|[->| ->]]|]. }
  split; [done|]. split.
  - pose proof (runtime_rows_ok b Hb) as H. apply andb_true_iff in H as [Hu Hs]. rewrite forallb_forall in Hu, Hs.
    unfold rows in Hrow. apply list_elem_of_lookup_2, list_elem_of_In in Hrow. destruct signed; auto.
  - intros j. unfold rows. by destruct Hb as [->|[->| ->]]; destruct signed.
Qed.

Lemma table_entries signed b k : table_width b -> 0 <= k < 256 ->
  exists mul shift, integer_divide_table signed b k 0 = Some mul /\ integer_divide_table signed b k 1 = Some shift
    /\ 0 < mul < 2 ^ b /\ 0 <= shift < 8
    /\ (k <> 1 -> if signed then forall z, in_srange b z -> s_method_1 z mul shift b = z / divisor k
                  else forall z, in_urange b z -> u_method_2 z mul shift b = z / divisor k).
Proof.
  intros Hb Hk. destruct (runtime_row signed b k Hb Hk) as (m & mul & shift & Hrow & Hok & Hfill).
  unfold runtime_row_ok in Hok. apply andb_true_iff in Hok as [Hok Hs2%Z.ltb_lt].
  apply andb_true_iff in Hok as [Hok Hs1%Z.leb_le]. apply andb_true_iff in Hok as [Hok Hm].
  apply andb_true_iff in Hok as [Hmeth%Z.eqb_eq Hpos%Z.ltb_lt]. subst m.
  assert (Hb0 : 3 <= b) by (unfold table_width in Hb; lia).
  pose proof (Z.pow_le_mono_r 2 3 b ltac:(lia) Hb0) as Hsmall.
  exists (uwrap b mul), shift. rewrite !Hfill. unfold fill_table.
  rewrite (proj2 (Z.leb_le 0 k)), (proj2 (Z.ltb_lt k 256)), Hrow by lia. cbn [andb Z.eqb].
  pose proof (uwrap_range b mul ltac:(lia)) as [_ ?].
  rewrite (uwrap_id b shift) by (unfold in_urange; lia). repeat split; try done.
  intros Hk1. apply orb_true_iff in Hm as [->%Z.eqb_eq|Hd%Z.eqb_eq].
  2:{ unfold divisor in Hd. destruct (Z.eqb_spec k 0); lia. }
  destruct signed; intros z Hz.
  - by destruct (table_s_div true b _ (divisor k) 1 mul shift z Hb Hrow Hz) as [_ <-].
  - by destruct (table_u_div true b _ (divisor k) 2 mul shift z Hb Hrow Hz) as [_ <-].
Qed.

(** The images hold the tables: their types, and what a call to one returns. *)
Class TableImages (images : bool -> Z -> ImageBase) (ρ : env) : Prop := {
  ti_type s b : table_width b -> buffer_type (images s b) = UInt b 1;
  ti_dims s b : dims (images s b) = 2;
  ti_buffer s b : is_Some (buffer (images s b));
  ti_fn s b i j x : table_width b -> integer_divide_table s b i j = Some x ->
    fn ρ (UInt b 1) Image (buffer_name (images s b)) 0 [[VInt i]; [VInt j]] = Some [VInt x]
}.

Definition not_placeholder (e : Expr) : bool :=
  match e with Var _ n _ _ _ => negb (is_placeholder n) | _ => true end.

Lemma add_implicit_plain im args e : not_placeholder e = true -> dims im = 2 ->
  add_implicit_args_if_placeholder im args (Some e) 2 false = Ok (args ++ [Some e], false).
Proof.
  intros He Hd.
  assert (Hguard : negb false && (Z.of_nat (List.length args) + 1 =? 2)
                   && (Z.of_nat (List.length args) + 1 <? dims im) = false).
  { rewrite Hd. simpl. destruct (Z.eqb_spec (Z.of_nat (List.length args) + 1) 2) as [->|]; done. }
  unfold add_implicit_args_if_placeholder. rewrite Hguard.
  destruct e; try done. simpl in He. apply negb_true_iff in He. by rewrite He.
Qed.

Section Divide.
Context (Γ : gmap string Ty) (ρ : env) `{!Intrinsics ρ}.
Context (images : bool -> Z -> ImageBase) `{!TableImages images ρ}.

#[local] Notation scalar_expr := (scalar_expr Γ ρ).

(** An argument of a call to an image is converted to a 32-bit index. *)
Lemma index_arg t e z : sint t -> scalar_expr t e z -> 0 <= z < 2 ^ 31 ->
  is_int t = true /\ bits t = 32 \/ bits t < 32 ->
  exists e', check_call_arg_type (Some e) = Ok (Some e') /\ scalar_expr (Int 32 1) e' z.
Proof.
  intros [Hs Hl] He Hz Hb. unfold check_call_arg_type, user_defined. cbn [mbind res_bind].
  rewrite (se_type _ _ _ _ _ He). destruct (std_int_class _ Hs) as (_ & -> & _).
  assert (Hg : (is_uint t && (32 <=? bits t)) || (is_int t && (32 <? bits t)) = false).
  { destruct Hb as [[Hi Hb]|Hb].
    - rewrite (int_not_uint _ Hi), Hb. by rewrite andb_false_r.
    - rewrite (proj2 (Z.leb_gt 32 (bits t))), (proj2 (Z.ltb_ge 32 (bits t))), !andb_false_r by lia. done. }
  simpl orb. rewrite Hg. unfold user_assert. cbn [negb mbind res_bind]. rewrite type_neqb_negb.
  destruct (type_eqb t (Int 32 1)) eqn:Heq; cbn [negb].
  - apply std_int_eqb in Heq as ->; [|done|repeat split; done]. eauto.
  - destruct He as [Hty Hwf Htd Hev Hr].
    rewrite Cast_make_ok by (simpl; by rewrite Hty, Hl). cbn [mbind res_bind]. eexists. split; [done|].
    assert (Hrep : representable (Int 32 1) z = true)
      by (unfold representable; apply bool_decide_eq_true; change (bits (Int 32 1)) with 32; unfold in_srange; lia).
    assert (Hw : wrap_type (Int 32 1) z = z)
      by (by apply representable_wrap).
    constructor.
    + done.
    + split; [|done]. simpl. by rewrite Hty, Hl.
    + split; [by split|done].
    + cbn [eval]. rewrite Hev. cbn [mbind option_bind mapM cast_scalar cast_int]. by rewrite Hw.
    + done.
Qed.

Lemma expr_of_int_ok k : in_srange 32 k ->
  expr_of_int k = Ok (IntImm (Int 32 1) k) /\ scalar_expr (Int 32 1) (IntImm (Int 32 1) k) k.
Proof.
  intros Hk. split.
  - unfold expr_of_int. rewrite IntImm_make_spec by done. by rewrite swrap_id by done.
  - constructor; [done..| | |].
    + by repeat split.
    + done.
    + unfold representable. simpl. by apply bool_decide_eq_true.
Qed.

Lemma image_value s b d k j x : table_width b -> scalar_expr (UInt 8 1) d k -> not_placeholder d = true ->
  j = 0 \/ j = 1 -> integer_divide_table s b k j = Some x -> representable (UInt b 1) x = true ->
  exists e, image_call_2 (images s b) (eref d) (eref (IntImm (Int 32 1) j)) = Ok e /\ scalar_expr (UInt b 1) e x.
Proof.
  intros Hb Hd Hnp Hj Hx Hr. pose proof (se_range _ _ _ _ _ Hd) as Hk.
  apply bool_decide_eq_true in Hk. change (0 <= k < 2 ^ 8) in Hk.
  destruct (expr_of_int_ok j) as [_ Hje]; [unfold in_srange; simpl; lia|].
  destruct (index_arg (UInt 8 1) d k) as (d' & Hcd & Hd'); [by repeat split|done|lia|by right|].
  destruct (index_arg (Int 32 1) (IntImm (Int 32 1) j) j) as (j' & Hcj & Hj'); [by repeat split|done|lia|by left|].
  unfold image_call_2, eref. rewrite add_implicit_plain by (done || apply ti_dims). cbn [mbind res_bind app].
  rewrite add_implicit_plain by (done || apply ti_dims). cbn [mbind res_bind app].
  unfold check_call_arg_types. rewrite ti_dims. unfold user_assert. simpl Z.eqb. cbn [mbind res_bind mapM].
  rewrite Hcd, Hcj. cbn [mbind res_bind mret res_ret].
  set (call := Call (buffer_type (images s b)) (buffer_name (images s b)) [d'; j'] Image None 0 (buffer (images s b)) None).
  assert (Hwf : wf_node call).
  { simpl. rewrite (se_type _ _ _ _ _ Hd'), (se_type _ _ _ _ _ Hj'). split; [right; by apply (ti_buffer (ρ := ρ))|done]. }
  exists call. split; [exact (Call_make_ok _ _ _ _ _ _ _ _ Hwf)|].
  destruct Hd' as [_ Hd2 Hd3 Hd4 _], Hj' as [_ Hj2 Hj3 Hj4 _]. unfold call in *. rewrite ti_type in * by done.
  constructor; [done| | | |done].
  - split; [exact Hwf|by repeat split].
  - split; [|by repeat split].
    unfold ty_ok. by destruct Hb as [->|[->| ->]].
  - cbn [eval mapM]. rewrite Hd4, Hj4. cbn [mbind option_bind mret option_ret]. unfold eval_call. simpl. by apply ti_fn.
Qed.

(** ** The types of the computation *)
Definition num_type (s : bool) (b : Z) : Ty := if s then Int b 1 else UInt b 1.

Lemma num_type_facts s b (t := num_type s b) (w := num_type s (2 * b)) : table_width b ->
  sint t /\ sint w /\ bits t = b /\ bits w = 2 * b /\ with_bits t (bits t * 2) = w /\ is_int t = s
  /\ is_uint t = negb s /\ matched_type w t = w /\ matched_type t (UInt b 1) = t.
Proof.
  intros Hb. assert (int_width b = true /\ int_width (2 * b) = true) as [H1 H2]
    by (by destruct Hb as [->|[->| ->]]).
  assert (H3 : forall w, int_width w = true -> sint (num_type s w) /\ bits (num_type s w) = w).
  { intros v Hv. destruct s; [by apply sint_int|]. apply sint_uint. unfold uint_width. by rewrite Hv, orb_true_r. }
  destruct (H3 b H1) as [? ?], (H3 (2 * b) H2) as [? ?]. repeat split; try done; try apply H; try apply H0.
  all: by destruct Hb as [->|[->| ->]], s.
Qed.

Lemma num_matched s b : table_width b -> matched_type (num_type s (2 * b)) (UInt b 1) = num_type s (2 * b).
Proof. intros Hb. by destruct Hb as [->|[->| ->]], s. Qed.

Lemma keep_high_half_value s b e p : table_width b -> scalar_expr (num_type s (2 * b)) e p ->
  exists r, keep_high_half (num_type s b) e = Ok r /\
    scalar_expr (num_type s b) r (wrap_type (num_type s b) (Z.shiftr p b)).
Proof.
  intros Hb He. destruct (num_type_facts s b Hb) as (Ht & Hw & Hbt & Hbw & _).
  unfold keep_high_half. rewrite Hbt. rewrite <- (wrap_type_wrap _ (num_type s (2 * b))) by (rewrite ?Hbt, ?Hbw; unfold table_width in Hb; lia).
  assert (H1 : exists r, (if b <? 32 then operator_div_ei (eref e) (Z.shiftl 1 b) else operator_shr_ei (eref e) b) = Ok r
    /\ scalar_expr (num_type s (2 * b)) r (wrap_type (num_type s (2 * b)) (Z.shiftr p b))).
  { destruct (Z.ltb_spec b 32) as [Hlt|Hge].
    - assert (0 < 2 ^ b) by (apply pow2_pos; unfold table_width in Hb; lia).
      rewrite Z.shiftl_1_l. apply (scalar_ei Γ ρ Div "Div" "operator/" _ e p (2 ^ b)); [done..| | |].
      + by destruct Hb as [->|[->| ->]].
      + by destruct Hb as [->|[->| ->]], s.
      + unfold int_binop. rewrite (proj2 (Z.eqb_neq _ _)), ediv_pos by lia.
        rewrite Z.shiftr_div_pow2 by (unfold table_width in Hb; lia). done.
    - apply (scalar_shr_ei Γ ρ); [done| |done|].
      + rewrite Hbw. unfold table_width in Hb. lia.
      + unfold shift_amount. rewrite Hbw. unfold table_width in Hb. apply andb_true_iff. rewrite Z.leb_le, Z.ltb_lt. lia. }
  destruct H1 as (r & -> & Hr). cbn [mbind res_bind].
  by apply (cast_scalar_expr Γ ρ (num_type s b) (num_type s (2 * b))).
Qed.

Definition in_num_range (s : bool) (b z : Z) : Prop := if s then in_srange b z else in_urange b z.

Lemma num_representable s b z : table_width b -> representable (num_type s b) z = true <-> in_num_range s b z.
Proof.
  intros Hb. destruct Hb as [->|[->| ->]], s; exact (bool_decide_eq_true _).
Qed.

Lemma wide_representable s b z : table_width b ->
  representable (num_type s (2 * b)) z = true <-> in_num_range s (2 * b) z.
Proof.
  intros Hb. destruct Hb as [->|[->| ->]], s; exact (bool_decide_eq_true _).
Qed.

(** The product of the multiplier and a numerator fits the wide type, and its high
    half fits the narrow one. *)
Lemma high_half_range s b mul n : table_width b -> 0 < mul < 2 ^ b -> in_num_range s b n ->
  in_num_range s (2 * b) mul /\ in_num_range s (2 * b) n /\ in_num_range s (2 * b) (mul * n)
  /\ in_num_range s b (Z.shiftr (mul * n) b).
Proof.
  intros Hb Hm Hn. assert (0 < b) by (unfold table_width in Hb; lia).
  rewrite Z.shiftr_div_pow2 by lia. unfold in_num_range, in_srange, in_urange in *.
  pose proof (pow2_half b ltac:(lia)) as H1. pose proof (pow2_half (2 * b) ltac:(lia)) as H2.
  assert (H3 : 2 ^ (2 * b) = 2 ^ b * 2 ^ b) by (rewrite <- Z.pow_add_r by lia; f_equal; lia).
  pose proof (pow2_pos (b - 1) ltac:(lia)) as Hp. set (P := 2 ^ (b - 1)) in *. clearbody P.
  set (Q := 2 ^ (2 * b - 1)) in *. clearbody Q. rewrite H1 in *. destruct s.
  - repeat split; try nia; [apply Z.div_le_lower_bound|apply Z.div_lt_upper_bound]; nia.
  - repeat split; try nia; [apply Z.div_pos|apply Z.div_lt_upper_bound]; nia.
Qed.

Lemma multiply_high s b mul n me ne : table_width b -> 0 < mul < 2 ^ b ->
  scalar_expr (UInt b 1) me mul -> scalar_expr (num_type s b) ne n ->
  exists m p r, cast (num_type s (2 * b)) (eref me) = Ok m /\ operator_mul (eref m) (eref ne) = Ok p /\
    keep_high_half (num_type s b) p = Ok r /\ scalar_expr (num_type s b) r (Z.shiftr (mul * n) b).
Proof.
  intros Hb Hm Hme Hne. destruct (num_type_facts s b Hb) as (Ht & Hw & Hbt & Hbw & _ & _ & _ & Hmt & _).
  destruct (num_type_facts false b Hb) as (Hu & _). simpl in Hu.
  pose proof (proj1 (num_representable s b n Hb) (se_range _ _ _ _ _ Hne)) as Hn.
  destruct (high_half_range s b mul n Hb Hm Hn) as (R1 & R2 & R3 & R4).
  apply wide_representable in R1, R2, R3; [|done..]. apply num_representable in R4; [|done].
  destruct (cast_scalar_expr Γ ρ (num_type s (2 * b)) _ me mul Hw Hu Hme) as (m & Hc & Hms).
  rewrite representable_wrap in Hms by done.
  destruct (scalar_ee Γ ρ Mul "Mul" "operator*" _ _ m ne mul n (mul * n) Hw Ht eq_refl Hms Hne) as (p & Hp & Hps).
  { rewrite Hmt, !representable_wrap by done. simpl. by rewrite representable_wrap. }
  rewrite Hmt in Hps. destruct (keep_high_half_value s b p (mul * n) Hb Hps) as (r & Hr & Hrs).
  rewrite representable_wrap in Hrs by done. eauto 10.
Qed.

(** A shift by an entry of the table. *)
Lemma shift_by_entry s b re e r sh : table_width b -> 0 <= sh < 8 ->
  scalar_expr (num_type s b) re r -> scalar_expr (UInt b 1) e sh ->
  exists x, operator_shr (eref re) (eref e) = Ok x /\ scalar_expr (num_type s b) x (Z.shiftr r sh).
Proof.
  intros Hb Hsh Hr He. destruct (num_type_facts s b Hb) as (Ht & _ & Hbt & _ & _ & _ & _ & _ & Hmt).
  destruct (num_type_facts false b Hb) as (Hu & _). simpl in Hu.
  assert (Hb8 : 8 <= b) by (unfold table_width in Hb; lia).
  assert (Hshr : representable (num_type s b) sh = true).
  { apply num_representable; [done|]. unfold in_num_range, in_srange, in_urange.
    pose proof (Z.pow_le_mono_r 2 3 (b - 1)). pose proof (pow2_half b). destruct s; lia. }
  destruct (scalar_shr Γ ρ _ _ re e r sh Ht Hu Hr He) as (x & Hx & Hxs).
  { rewrite Hmt, representable_wrap by done. unfold shift_amount. rewrite Hbt.
    apply andb_true_iff. rewrite Z.leb_le, Z.ltb_lt. lia. }
  rewrite Hmt, (representable_wrap _ sh) in Hxs by done.
  rewrite (representable_wrap _ r) in Hxs by apply (se_range _ _ _ _ _ Hr).
  exists x. split; [done|]. rewrite <- (representable_wrap (num_type s b)); [done|].
  apply num_representable; [done|]. pose proof (proj1 (num_representable s b r Hb) (se_range _ _ _ _ _ Hr)) as Hrr.
  rewrite Z.shiftr_div_pow2 by lia. pose proof (pow2_pos sh ltac:(lia)).
  unfold in_num_range, in_srange, in_urange in *. destruct s; split;
    try apply Z.div_le_lower_bound; try apply Z.div_lt_upper_bound; nia.
Qed.

(** An operator on two operands of the numerator's type. *)
Lemma num_op s b op nm nm' x y z w r : table_width b -> is_logical op = false ->
  scalar_expr (num_type s b) x z -> scalar_expr (num_type s b) y w ->
  int_binop Machine op (num_type s b) z w = Some r ->
  exists e, operator_ee (binary_make op nm) nm' (eref x) (eref y) = Ok e /\
    scalar_expr (binop_type op (num_type s b)) e r.
Proof.
  intros Hb Hlog Hx Hy Hr. destruct (num_type_facts s b Hb) as (Ht & _).
  destruct (scalar_ee Γ ρ op nm nm' _ _ x y z w r Ht Ht Hlog Hx Hy) as (e & He & Hes).
  - rewrite matched_type_same by done.
    pose proof (se_range _ _ _ _ _ Hx). pose proof (se_range _ _ _ _ _ Hy). by rewrite !representable_wrap.
  - rewrite matched_type_same in Hes by done. eauto.
Qed.

Lemma num_ov s b z : table_width b -> in_num_range s b z -> ov_result Machine (num_type s b) z = Some z.
Proof. intros Hb Hz. simpl. by rewrite representable_wrap by by apply num_representable. Qed.

Lemma average_le b mul z : 0 < b -> 0 < mul < 2 ^ b -> 0 <= z ->
  0 <= Z.shiftr (mul * z) b <= z /\
  0 <= (z - Z.shiftr (mul * z) b) / 2 /\ Z.shiftr (mul * z) b + (z - Z.shiftr (mul * z) b) / 2 <= z.
Proof.
  intros Hb Hm Hz. assert (H : 0 <= Z.shiftr (mul * z) b <= z).
  { rewrite Z.shiftr_div_pow2 by lia. split; [apply Z.div_pos; nia|].
    apply Z.div_le_upper_bound; nia. }
  split; [done|]. set (q := Z.shiftr (mul * z) b) in *.
  pose proof (Z.div_pos (z - q) 2 ltac:(lia) ltac:(lia)).
  pose proof (Z.div_le_upper_bound (z - q) 2 (z - q) ltac:(lia) ltac:(lia)). lia.
Qed.

Lemma divide_unsigned_value b n d z k mul sh : table_width b ->
  scalar_expr (num_type false b) n z -> scalar_expr (UInt 8 1) d k -> not_placeholder d = true ->
  integer_divide_table false b k 0 = Some mul -> integer_divide_table false b k 1 = Some sh ->
  0 < mul < 2 ^ b -> 0 <= sh < 8 ->
  exists e, divide_unsigned (images false b) (num_type false b) (num_type false (2 * b)) n d = Ok e /\
    scalar_expr (num_type false b) e (u_method_2 z mul sh b).
Proof.
  intros Hb Hn Hd Hnp Hmul Hsh Hm Hs. unfold divide_unsigned.
  pose proof (proj1 (num_representable false b z Hb) (se_range _ _ _ _ _ Hn)) as Hz. simpl in Hz. unfold in_urange in Hz.
  assert (Hb0 : 8 <= b) by (unfold table_width in Hb; lia).
  pose proof (Z.pow_le_mono_r 2 3 b ltac:(lia) ltac:(lia)) as Hsmall.
  destruct (expr_of_int_ok 0) as [-> _]; [done|]. destruct (expr_of_int_ok 1) as [-> _]; [done|]. cbn [mbind res_bind].
  destruct (image_value false b d k 0 mul) as (me & -> & Hme); [auto..|apply (num_representable false b); [done|]; simpl; unfold in_urange; lia|].
  destruct (image_value false b d k 1 sh) as (she & -> & Hshe); [auto..|apply (num_representable false b); [done|]; simpl; unfold in_urange; lia|].
  cbn [mbind res_bind].
  destruct (multiply_high false b mul z me n Hb Hm Hme Hn) as (m & p & r & -> & Hp & Hr & Hrs).
  cbn [mbind res_bind]. rewrite Hp. cbn [mbind res_bind]. rewrite Hr. cbn [mbind res_bind].
  destruct (average_le b mul z) as [H1 H2]; [lia..|]. set (q := Z.shiftr (mul * z) b) in *.
  destruct (num_op false b Sub "Sub" "operator-" n r z q (z - q)) as (rest & Hrest & Hrests); [done..| |].
  { apply num_ov; [done|]. simpl. unfold in_urange. lia. }
  unfold operator_sub, Sub_make. rewrite Hrest. cbn [mbind res_bind].
  destruct (num_type_facts false b Hb) as (Ht & _).
  destruct (scalar_ei Γ ρ Div "Div" "operator/" _ rest (z - q) 2 ((z - q) / 2) Ht eq_refl Hrests) as (half & Hh & Hhs);
    [done|apply num_representable; [done|]; simpl; unfold in_urange; lia| |].
  { unfold int_binop. simpl Z.eqb. rewrite ediv_pos by lia. apply num_ov; [done|]. simpl. unfold in_urange. lia. }
  unfold operator_div_ei, Div_make. change (Some rest) with (eref rest) in Hh. rewrite Hh. cbn [mbind res_bind].
  destruct (num_op false b Add "Add" "operator+" r half q ((z - q) / 2) (q + (z - q) / 2)) as (sum & Hsum & Hsums); [done..| |].
  { apply num_ov; [done|]. simpl. unfold in_urange. lia. }
  unfold operator_add, Add_make. rewrite Hsum. cbn [mbind res_bind].
  destruct (shift_by_entry false b sum she _ sh Hb Hs Hsums Hshe) as (e & He & Hes). exists e. split; [done|].
  unfold u_method_2. rewrite (Z.mul_comm z mul). fold q. by rewrite (Z.shiftr_div_pow2 (z - q)) by lia.
Qed.

(** The mask and the flipped numerator the signed division works with. Zero counts as
    negative. *)
Definition sign_word (z : Z) : Z := if 0 <? z then 0 else -1.
Definition flip_bits (z : Z) : Z := if 0 <? z then z else - z - 1.

Lemma lxor_sign_word z y : Z.lxor (sign_word z) y = if 0 <? z then y else - y - 1.
Proof. unfold sign_word. destruct (0 <? z); [apply Z.lxor_0_l|rewrite Z.lxor_m1_l; unfold Z.lnot; lia]. Qed.

Lemma flip_bits_range b z : in_srange b z -> in_srange b (flip_bits z).
Proof. unfold in_srange, flip_bits. destruct (Z.ltb_spec 0 z); lia. Qed.

Lemma bitxor_sign b xs y z w : table_width b -> scalar_expr (Int b 1) xs (sign_word z) ->
  scalar_expr (Int b 1) y w ->
  exists e, operator_bitxor (eref xs) (eref y) = Ok e /\ scalar_expr (Int b 1) e (if 0 <? z then w else - w - 1).
Proof.
  intros Hb Hx Hy. destruct (num_type_facts true b Hb) as (Ht & _ & Hbt & _).
  change (num_type true b) with (Int b 1) in *. pose proof (se_range _ _ _ _ _ Hy) as Hw.
  destruct (scalar_bitwise Γ ρ "bitwise_xor" Z.lxor "bitwise xor" (Int b 1) (Int b 1) xs y (sign_word z) w) as (e & He & Hes);
    [by right; left|done|done|rewrite Hbt; unfold table_width in Hb; lia|done|done|].
  exists e. split; [done|]. rewrite (representable_wrap _ w), lxor_sign_word in Hes by done.
  rewrite representable_wrap in Hes; [done|]. apply (num_representable true b); [done|].
  apply (num_representable true b) in Hw; [|done]. unfold in_num_range in *. unfold in_srange in *. destruct (0 <? z); lia.
Qed.

Lemma sign_word_value b n z : table_width b -> scalar_expr (Int b 1) n z ->
  exists p zero minus_one xs, operator_gt_ei (eref n) 0 = Ok p /\
    cast (Int b 1) (eref (IntImm (Int 32 1) 0)) = Ok zero /\
    cast (Int b 1) (eref (IntImm (Int 32 1) (-1))) = Ok minus_one /\
    select (eref p) (eref zero) (eref minus_one) = Ok xs /\ scalar_expr (Int b 1) xs (sign_word z).
Proof.
  intros Hb Hn. destruct (num_type_facts true b Hb) as (Ht & _). simpl in Ht.
  assert (H32 : sint (Int 32 1)) by (by apply sint_int).
  destruct (scalar_ei Γ ρ GT "GT" "operator>" _ n z 0 (Z.b2z (0 <? z)) Ht eq_refl Hn) as (p & Hp & Hps);
    [done|by destruct Hb as [->|[->| ->]]|done|].
  destruct (expr_of_int_ok 0) as [_ H0]; [done|]. destruct (expr_of_int_ok (-1)) as [_ H1]; [done|].
  destruct (cast_scalar_expr Γ ρ (Int b 1) _ _ 0 Ht H32 H0) as (zero & Hz & Hzs).
  destruct (cast_scalar_expr Γ ρ (Int b 1) _ _ (-1) Ht H32 H1) as (mo & Hm & Hms).
  assert (wrap_type (Int b 1) 0 = 0 /\ wrap_type (Int b 1) (-1) = -1) as [E0 E1] by (by destruct Hb as [->|[->| ->]]).
  rewrite E0 in Hzs. rewrite E1 in Hms.
  assert (Hc : as_const_int (Some p) = None).
  { unfold operator_ei, binary_make in Hp. simpl in Hp. inv_res. done. }
  assert (Hps' : scalar_expr (Bool 1) p (Z.b2z (0 <? z))) by (by destruct Hb as [->|[->| ->]]).
  destruct (scalar_select Γ ρ _ p zero mo (0 <? z) 0 (-1) Ht Hc Hps' Hzs Hms) as (xs & Hx & Hxs).
  eauto 10.
Qed.

Lemma divide_signed_value b n d z k mul sh : table_width b ->
  scalar_expr (num_type true b) n z -> scalar_expr (UInt 8 1) d k -> not_placeholder d = true ->
  integer_divide_table true b k 0 = Some mul -> integer_divide_table true b k 1 = Some sh ->
  0 < mul < 2 ^ b -> 0 <= sh < 8 ->
  exists n' e, divide_signed (images true b) (num_type true b) (num_type true (2 * b)) n d = Ok (n', e) /\
    scalar_expr (num_type true b) n' (flip_bits z) /\
    scalar_expr (num_type true b) e
      (Z.lxor (sign_word z) (Z.shiftr (Z.shiftr (mul * flip_bits z) b) sh)).
Proof.
  intros Hb Hn Hd Hnp Hmul Hsh Hm Hs. unfold divide_signed.
  assert (Hb0 : 8 <= b) by (unfold table_width in Hb; lia).
  pose proof (Z.pow_le_mono_r 2 3 b ltac:(lia) ltac:(lia)) as Hsmall.
  destruct (expr_of_int_ok 0) as [-> _]; [done|]. destruct (expr_of_int_ok 1) as [-> _]; [done|].
  destruct (expr_of_int_ok (-1)) as [-> _]; [done|]. cbn [mbind res_bind].
  destruct (image_value true b d k 0 mul) as (me & -> & Hme); [auto..|apply (num_representable false b); [done|]; simpl; unfold in_urange; lia|].
  destruct (image_value true b d k 1 sh) as (she & -> & Hshe); [auto..|apply (num_representable false b); [done|]; simpl; unfold in_urange; lia|].
  destruct (sign_word_value b n z Hb Hn) as (p & zero & mo & xs & Hp & Hz & Hmo & Hxs & Hxss).
  change (num_type true b) with (Int b 1) in *. cbn [mbind res_bind].
  rewrite Hp. cbn [mbind res_bind]. rewrite Hz. cbn [mbind res_bind]. rewrite Hmo. cbn [mbind res_bind].
  rewrite Hxs. cbn [mbind res_bind].
  destruct (bitxor_sign b xs n z z Hb Hxss Hn) as (n' & -> & Hn'). fold (flip_bits z) in Hn'. cbn [mbind res_bind].
  destruct (multiply_high true b mul (flip_bits z) me n' Hb Hm Hme Hn') as (m & pr & r & -> & Hpr & Hr & Hrs).
  cbn [mbind res_bind]. rewrite Hpr. cbn [mbind res_bind].
  change (num_type true b) with (Int b 1) in Hr. rewrite Hr. cbn [mbind res_bind].
  destruct (shift_by_entry true b r she _ sh Hb Hs Hrs Hshe) as (q & -> & Hqs). cbn [mbind res_bind].
  destruct (bitxor_sign b xs q z _ Hb Hxss Hqs) as (e & -> & He). cbn [mbind res_bind].
  exists n', e. split; [done|]. split; [done|]. by rewrite lxor_sign_word.
Qed.

(** With a divisor of at least 2 this is the quotient of the table's method: zero is
    flipped to -1 and back. *)
Lemma signed_quotient b z mul sh : 0 < b -> 0 < mul < 2 ^ b -> 0 <= sh -> in_srange b z ->
  Z.lxor (sign_word z) (Z.shiftr (Z.shiftr (mul * flip_bits z) b) sh) = s_method_1 z mul sh b.
Proof.
  intros Hb Hm Hs Hz. unfold s_method_1. rewrite sign_mask, (lxor_mask (z <? 0) z), !lxor_mask by done.
  rewrite lxor_sign_word. unfold flip_bits.
  destruct (Z.ltb_spec 0 z), (Z.ltb_spec z 0); try lia; try done.
  assert (z = 0) as -> by lia. rewrite Z.mul_0_r, !Z.shiftr_0_l.
  assert (Z.shiftr (mul * (-0 - 1)) b = -1) as ->.
  { rewrite Z.shiftr_div_pow2 by lia. symmetry. apply (Z.div_unique_pos _ _ _ (2 ^ b - mul)); lia. }
  assert (Z.shiftr (-1) sh = -1) as ->; [|done].
  rewrite Z.shiftr_div_pow2 by lia. pose proof (pow2_pos sh Hs). symmetry.
  apply (Z.div_unique_pos _ _ _ (2 ^ sh - 1)); lia.
Qed.
End Divide.

(** The end of the function: the table does not work for divisor 1. *)
Lemma divide_by_one Γ ρ `{!Intrinsics ρ} s b d k n' r z w : table_width b ->
  scalar_expr Γ ρ (UInt 8 1) d k -> scalar_expr Γ ρ (num_type s b) n' z -> scalar_expr Γ ρ (num_type s b) r w ->
  exists one e, operator_eq_ei (eref d) 1 = Ok one /\ select (eref one) (eref n') (eref r) = Ok e /\
    scalar_expr Γ ρ (num_type s b) e (if k =? 1 then z else w).
Proof.
  intros Hb Hd Hn Hr. destruct (num_type_facts s b Hb) as (Ht & _).
  destruct (scalar_ei Γ ρ EQ "EQ" "operator==" (UInt 8 1) d k 1 (Z.b2z (k =? 1))) as (one & Ho & Hos);
    [by apply sint_uint|done..|].
  assert (Hc : as_const_int (Some one) = None).
  { unfold operator_ei, binary_make in Ho. simpl in Ho. inv_res. done. }
  destruct (scalar_select Γ ρ _ one n' r (k =? 1) z w Ht Hc Hos Hn Hr) as (e & He & Hes). eauto.
Qed.

(** A constant divisor is converted to a byte, and the ordinary operator matches that to
    the numerator's type. *)
Definition constant_divisor (s : bool) (b k : Z) : Z := wrap_type (num_type s b) (uwrap 8 k).

Lemma divide_by_constant Γ ρ s b td numerator denominator z k : table_width b -> sint td ->
  scalar_expr Γ ρ (num_type s b) numerator z -> scalar_expr Γ ρ td denominator k ->
  constant_divisor s b k <> 0 ->
  exists d e, cast (UInt 8 1) (eref denominator) = Ok d /\ operator_div (eref numerator) (eref d) = Ok e /\
    scalar_expr Γ ρ (num_type s b) e (wrap_type (num_type s b) (ediv z (constant_divisor s b k))).
Proof.
  intros Hb Htd Hn Hd Hk. destruct (num_type_facts s b Hb) as (Ht & _).
  assert (Hm : matched_type (num_type s b) (UInt 8 1) = num_type s b) by (by destruct Hb as [->|[->| ->]], s).
  destruct (num_type_facts false 8 ltac:(by left)) as (Hu & _).
  destruct (cast_scalar_expr Γ ρ (UInt 8 1) td denominator k Hu Htd Hd) as (d & Hc & Hds).
  destruct (scalar_ee Γ ρ Div "Div" "operator/" _ (UInt 8 1) numerator d z (uwrap 8 k)
    (wrap_type (num_type s b) (ediv z (constant_divisor s b k))) Ht Hu eq_refl Hn Hds) as (e & He & Hes).
  - rewrite Hm, representable_wrap by apply (se_range _ _ _ _ _ Hn). fold (constant_divisor s b k).
    unfold int_binop. by rewrite (proj2 (Z.eqb_neq _ _) Hk).
  - rewrite Hm in Hes. by exists d, e.
Qed.

(** What the function makes of [z / k]: by a constant, an ordinary division; at run time
    the floored quotient, a zero divisor counting as 256; but a signed numerator divided by
    1 comes out with the bits flipped that were flipped on the way in. *)
Definition fast_quotient (s : bool) (b : Z) (constant : bool) (z k : Z) : Z :=
  if constant then wrap_type (num_type s b) (ediv z (constant_divisor s b k))
  else if s && (k =? 1) then flip_bits z else ediv z (divisor k).

(** C21. [fast_integer_divide] on a scalar numerator of 8, 16 or 32 bits, signed or not,
    never fails, and its expression has the numerator's type and the value
    [fast_quotient], for every numerator of that type. For a run-time divisor, which must
    be a byte and not the placeholder [_], that is the floored quotient by 2 to 256, where
    a zero divisor counts as 256, and by 1 where the numerator is unsigned or positive;
    a signed numerator [z] that is not positive, divided by 1, gives [- z - 1]. A constant
    divisor, of any integer type, is reduced to a byte and converted to the numerator's
    type, and divides as [operator/] does, unless it is zero by then. *)
Theorem fast_integer_divide_exact Γ ρ images s b td numerator denominator z k :
  Intrinsics ρ -> TableImages images ρ -> table_width b -> sint td ->
  scalar_expr Γ ρ (num_type s b) numerator z -> scalar_expr Γ ρ td denominator k ->
  (if is_const denominator then constant_divisor s b k <> 0
   else td = UInt 8 1 /\ not_placeholder denominator = true) ->
  exists e, fast_integer_divide images (Some numerator) (Some denominator) = Ok e /\
    scalar_expr Γ ρ (num_type s b) e (fast_quotient s b (is_const denominator) z k).
Proof.
  intros Hi Him Hb Htd Hn Hd Hc. unfold fast_integer_divide, fast_quotient. cbn [deref mbind res_bind].
  destruct (is_const denominator).
  { destruct (divide_by_constant Γ ρ s b td numerator denominator z k) as (d & e & -> & He & Hes); [done..|]. by exists e. }
  destruct Hc as [-> Hnp]. destruct (num_type_facts s b Hb) as (Ht & _ & Hbt & _ & Hw & His & Hu & _).
  pose proof (proj1 (num_representable s b z Hb) (se_range _ _ _ _ _ Hn)) as Hz.
  assert (Hk : 0 <= k < 256).
  { pose proof (se_range _ _ _ _ _ Hd) as Hr. apply bool_decide_eq_true in Hr. exact Hr. }
  rewrite (se_type _ _ _ _ _ Hd), (se_type _ _ _ _ _ Hn), Hw, Hbt, His, Hu.
  replace ((b =? 8) || (b =? 16) || (b =? 32)) with true by (by destruct Hb as [->|[->| ->]]).
  assert (Hq : ediv z (divisor k) = z / divisor k) by (apply ediv_pos; unfold divisor; destruct (Z.eqb_spec k 0); lia).
  destruct (table_entries s b k Hb Hk) as (mul & sh & Hmul & Hsh & Hm & Hs & Hdiv).
  destruct s; cbn [user_assert negb orb mbind res_bind andb].
  - destruct (divide_signed_value Γ ρ images b numerator denominator z k mul sh) as (n' & r & -> & Hn' & Hr); [done..|].
    cbn [mbind res_bind]. destruct (divide_by_one Γ ρ true b denominator k n' r _ _ Hb Hd Hn' Hr) as (one & e & -> & Hsel & He).
    cbn [mbind res_bind]. rewrite Hsel. cbn [mbind res_bind].
    rewrite (se_type _ _ _ _ _ He), type_eqb_refl. exists e. split; [done|].
    destruct (Z.eqb_spec k 1); [done|]. by rewrite signed_quotient, Hdiv, <- Hq in He by (done || (unfold table_width in Hb; lia)).
  - destruct (divide_unsigned_value Γ ρ images b numerator denominator z k mul sh) as (r & -> & Hr); [done..|].
    cbn [mbind res_bind]. destruct (divide_by_one Γ ρ false b denominator k numerator r _ _ Hb Hd Hn Hr) as (one & e & -> & Hsel & He).
    cbn [mbind res_bind]. rewrite Hsel. cbn [mbind res_bind].
    rewrite (se_type _ _ _ _ _ He), type_eqb_refl. exists e. split; [done|]. rewrite Hq.
    destruct (Z.eqb_spec k 1) as [->|Hk1]; [by rewrite Z.div_1_r|]. by rewrite Hdiv in He.
Qed.

(** ** Concrete images *)

Definition concrete_images (s : bool) (b : Z) : ImageBase :=
  mkImage (UInt b 1) (pretty ((if s then - b else b) : Z)) (Some 1%positive) 2.

(** Calls to the images look the tables up. *)
Definition image_fn (t : Ty) (ct : CallType) (name : string) (vi : Z) (args : list value) : option value :=
  match ct, args with
  | Image, [[VInt i]; [VInt j]] =>
      let key s b := bool_decide (name = buffer_name (concrete_images s b)) && bool_decide (t = UInt b 1) in
      let entry s b := x ← integer_divide_table s b i j; Some [VInt x] in
      if key false 8 then entry false 8 else if key true 8 then entry true 8
      else if key false 16 then entry false 16 else if key true 16 then entry true 16
      else if key false 32 then entry false 32 else if key true 32 then entry true 32 else None
  | _, _ => None
  end.

Definition division_env (n d : Z) : env :=
  intrinsic_env (<["n" := [VInt n]]> {["d" := [VInt d]]}) (fun _ _ _ => None) image_fn.
Definition division_types (t : Ty) : gmap string Ty := <["n" := t]> {["d" := UInt 8 1]}.

#[global] Instance concrete_table_images n d : TableImages concrete_images (division_env n d).
Proof.
  constructor; [done..| |].
  - by eexists.
  - intros s b i j x Hb Hx. by destruct Hb as [->|[->| ->]], s; cbn -[integer_divide_table]; rewrite Hx.
Qed.

Definition division (t : Ty) (n d : Z) : option value :=
  match fast_integer_divide concrete_images (Some (Var t "n" None None None))
          (Some (Var (UInt 8 1) "d" None None None)) with
  | Ok e => eval Machine (division_env n d) e
  | Err _ => None
  end.

Lemma fast_integer_divide_exact_witness :
  exists e, fast_integer_divide concrete_images (Some (Var (Int 16 1) "n" None None None))
              (Some (Var (UInt 8 1) "d" None None None)) = Ok e /\
    scalar_expr (division_types (Int 16 1)) (division_env (-10000) 7) (Int 16 1) e (-1429).
Proof.
  apply (fast_integer_divide_exact (division_types (Int 16 1)) (division_env (-10000) 7) concrete_images true 16 (UInt 8 1)
           (Var (Int 16 1) "n" None None None) (Var (UInt 8 1) "d" None None None) (-10000) 7).
  - apply _.
  - apply _.
  - right. left. reflexivity.
  - repeat split; reflexivity.
  - constructor; try reflexivity; repeat split; (discriminate || vm_compute; congruence).
  - constructor; try reflexivity; repeat split; (discriminate || vm_compute; congruence).
  - split; reflexivity.
Defined.

(** Where the function does not divide. A signed numerator that is not positive,
    divided by 1, loses its value (-5 / 1 gives 4 and 0 / 1 gives -1). A constant
    divisor takes the ordinary operator, which matches the types: a signed 8-bit
    numerator turns a constant 200 into -56, whereas the same divisor at run time is
    200; and a constant 0 is an ordinary division by zero, not a division by 256. *)
Theorem fast_integer_divide_defects :
  division (Int 32 1) (-5) 1 = Some [VInt 4] /\ division (Int 8 1) 0 1 = Some [VInt (-1)] /\
  fast_integer_divide concrete_images (Some (Var (Int 8 1) "n" None None None)) (Some (UIntImm (UInt 8 1) 200))
    = Ok (Bin Div (Var (Int 8 1) "n" None None None) (IntImm (Int 8 1) (-56))) /\
  eval Machine (division_env 100 0) (Bin Div (Var (Int 8 1) "n" None None None) (IntImm (Int 8 1) (-56)))
    = Some [VInt (-1)] /\
  division (Int 8 1) 100 200 = Some [VInt 0] /\
  fast_integer_divide concrete_images (Some (Var (UInt 8 1) "n" None None None)) (Some (UIntImm (UInt 8 1) 0))
    = Ok (Bin Div (Var (UInt 8 1) "n" None None None) (UIntImm (UInt 8 1) 0)) /\
  division (UInt 8 1) 100 0 = Some [VInt 0].
Proof. repeat split; vm_compute; reflexivity. Qed.
