(* ===== verification/Substitute.v ===== *)
(** Substitution of expressions for variables: src/src/Substitute.cpp, and the
    memoising mutator it uses, [IRGraphMutator] of src/src/IRMutator.cpp. *)

From Stdlib Require Import ZArith Lia Bool SpecFloat String.
From stdpp Require Import prelude strings gmap.
From S2P Require Import Prelude Types IR Semantics Scope Mutator.

#[local] Open Scope Z_scope.
#[local] Open Scope halide_scope.

(** * Substitute

    The replacements are a map that may hold undefined handles; the names bound by
    the enclosing lets and loops are hidden. *)
Definition hidden_scope : Type := Scope Z.

Section Substitute.
Context (same_as : ExprRef -> ExprRef -> bool) (same_stmt : StmtRef -> StmtRef -> bool).
Context (replace : gmap string ExprRef).

Definition find_replacement (hidden : hidden_scope) (s : string) : ExprRef :=
  match replace !! s with
  | Some r => if scope_contains hidden s then None else r
  | None => None
  end.

Definition hide (name : string) : mut hidden_scope unit := fun h => Ok (tt, scope_push h name 0).
Definition unhide (name : string) : mut hidden_scope unit := fun h =>
  h ← scope_pop h name; Ok (tt, h).

Fixpoint substitute_mutate (e : Expr) : mut hidden_scope ExprRef :=
  match e with
  | Var _ name _ _ _ => fun hidden =>
      Ok (match find_replacement hidden name with Some r => Some r | None => eref e end, hidden)
  | Let name v b =>
      new_value ← substitute_mutate v;
      _ ← hide name;
      new_body ← substitute_mutate b;
      _ ← unhide name;
      rebuild (same_as new_value (eref v) && same_as new_body (eref b)) e (Let_make name new_value new_body)
  | _ => visit_expr same_as substitute_mutate e
  end.

Fixpoint substitute_mutate_stmt (s : Stmt) : mut hidden_scope StmtRef :=
  match s with
  | LetStmt name v b =>
      new_value ← substitute_mutate v;
      _ ← hide name;
      new_body ← substitute_mutate_stmt b;
      _ ← unhide name;
      rebuild_stmt (same_as new_value (eref v) && same_stmt new_body (sref b)) s
        (LetStmt_make name new_value new_body)
  | For name m e for_type device_api b =>
      new_min ← substitute_mutate m;
      new_extent ← substitute_mutate e;
      _ ← hide name;
      new_body ← substitute_mutate_stmt b;
      _ ← unhide name;
      rebuild_stmt (same_as new_min (eref m) && same_as new_extent (eref e) && same_stmt new_body (sref b)) s
        (For_make name new_min new_extent for_type device_api new_body)
  | _ => visit_stmt same_as same_stmt substitute_mutate substitute_mutate_stmt s
  end.

(** [substitute(const map<string, Expr> &, ...)]. *)
Definition substitute (e : ExprRef) : res ExprRef :=
  r ← mutate_ref substitute_mutate e scope_new; Ok (fst r).
Definition substitute_stmt (s : StmtRef) : res StmtRef :=
  r ← mutate_stmt_ref substitute_mutate_stmt s scope_new; Ok (fst r).
End Substitute.

Definition substitute_var same_as (name : string) (replacement : ExprRef) (e : ExprRef) : res ExprRef :=
  substitute same_as {[ name := replacement ]} e.
Definition substitute_var_stmt same_as same_stmt (name : string) (replacement : ExprRef) (s : StmtRef)
  : res StmtRef := substitute_stmt same_as same_stmt {[ name := replacement ]} s.

(** * SubstituteExpr *)
Section SubstituteExpr.
Context (same_as : ExprRef -> ExprRef -> bool) (same_stmt : StmtRef -> StmtRef -> bool).
Context (equal : ExprRef -> ExprRef -> bool) (find replacement : ExprRef).

Fixpoint substitute_expr_mutate (e : Expr) : mut unit ExprRef :=
  if equal (eref e) find then mret replacement else visit_expr same_as substitute_expr_mutate e.
Fixpoint substitute_expr_mutate_stmt (s : Stmt) : mut unit StmtRef :=
  visit_stmt same_as same_stmt substitute_expr_mutate substitute_expr_mutate_stmt s.

Definition substitute_expr (e : ExprRef) : res ExprRef :=
  match e with
  | Some e => r ← substitute_expr_mutate e tt; Ok (fst r)
  | None => Ok (if equal None find then replacement else None)
  end.
Definition substitute_expr_stmt (s : StmtRef) : res StmtRef :=
  r ← mutate_stmt_ref substitute_expr_mutate_stmt s tt; Ok (fst r).
End SubstituteExpr.

(** * IRGraphMutator

    The results so far, keyed by the identity of the nodes ([ExprCompare] orders
    handles by address): a lookup finds the entry of the same node. *)
Record graph_memo := mkMemo {
  expr_replacements : list (Expr * ExprRef);
  stmt_replacements : list (Stmt * StmtRef)
}.
Definition no_memo : graph_memo := mkMemo [] [].

Section Graph.
Context (same_as : ExprRef -> ExprRef -> bool) (same_stmt : StmtRef -> StmtRef -> bool).

Fixpoint find_expr (l : list (Expr * ExprRef)) (e : Expr) : option ExprRef :=
  match l with
  | [] => None
  | (e', r) :: l => if same_as (eref e) (eref e') then Some r else find_expr l e
  end.
Fixpoint find_stmt (l : list (Stmt * StmtRef)) (s : Stmt) : option StmtRef :=
  match l with
  | [] => None
  | (s', r) :: l => if same_stmt (sref s) (sref s') then Some r else find_stmt l s
  end.

Definition graph_mutate (mutate : mut graph_memo ExprRef) (e : Expr) : mut graph_memo ExprRef := fun m =>
  match find_expr (expr_replacements m) e with
  | Some r => Ok (r, m)
  | None =>
      '(new_e, m) ← mutate m;
      Ok (new_e, mkMemo ((e, new_e) :: expr_replacements m) (stmt_replacements m))
  end.

Definition graph_mutate_stmt (mutate : mut graph_memo StmtRef) (s : Stmt) : mut graph_memo StmtRef := fun m =>
  match find_stmt (stmt_replacements m) s with
  | Some r => Ok (r, m)
  | None =>
      '(new_s, m) ← mutate m;
      Ok (new_s, mkMemo (expr_replacements m) ((s, new_s) :: stmt_replacements m))
  end.

(** ** GraphSubstitute *)
Section GraphSubstitute.
Context (var : string) (value : ExprRef).

Fixpoint graph_substitute_mutate (e : Expr) : mut graph_memo ExprRef :=
  graph_mutate
    match e with
    | Var _ name _ _ _ => mret (if bool_decide (name = var) then value else eref e)
    | _ => visit_expr same_as graph_substitute_mutate e
    end e.
Fixpoint graph_substitute_mutate_stmt (s : Stmt) : mut graph_memo StmtRef :=
  graph_mutate_stmt (visit_stmt same_as same_stmt graph_substitute_mutate graph_substitute_mutate_stmt s) s.

Definition graph_substitute (e : ExprRef) : res ExprRef :=
  r ← mutate_ref graph_substitute_mutate e no_memo; Ok (fst r).
Definition graph_substitute_stmt (s : StmtRef) : res StmtRef :=
  r ← mutate_stmt_ref graph_substitute_mutate_stmt s no_memo; Ok (fst r).
End GraphSubstitute.

(** ** GraphSubstituteExpr *)
Section GraphSubstituteExpr.
Context (find replace : ExprRef).

Fixpoint graph_substitute_expr_mutate (e : Expr) : mut graph_memo ExprRef :=
  if same_as (eref e) find then mret replace
  else graph_mutate (visit_expr same_as graph_substitute_expr_mutate e) e.
Fixpoint graph_substitute_expr_mutate_stmt (s : Stmt) : mut graph_memo StmtRef :=
  graph_mutate_stmt
    (visit_stmt same_as same_stmt graph_substitute_expr_mutate graph_substitute_expr_mutate_stmt s) s.

Definition graph_substitute_expr (e : ExprRef) : res ExprRef :=
  match e with
  | Some e => r ← graph_substitute_expr_mutate e no_memo; Ok (fst r)
  | None => Ok (if same_as None find then replace else None)
  end.
Definition graph_substitute_expr_stmt (s : StmtRef) : res StmtRef :=
  r ← mutate_stmt_ref graph_substitute_expr_mutate_stmt s no_memo; Ok (fst r).
End GraphSubstituteExpr.

(** ** SubstituteInAllLets *)
Fixpoint in_all_lets_mutate (e : Expr) : mut graph_memo ExprRef :=
  graph_mutate
    match e with
    | Let name v b =>
        value ← in_all_lets_mutate v;
        body ← in_all_lets_mutate b;
        lift (graph_substitute name value body)
    | _ => visit_expr same_as in_all_lets_mutate e
    end e.
Fixpoint in_all_lets_mutate_stmt (s : Stmt) : mut graph_memo StmtRef :=
  graph_mutate_stmt (visit_stmt same_as same_stmt in_all_lets_mutate in_all_lets_mutate_stmt s) s.

Definition substitute_in_all_lets (e : ExprRef) : res ExprRef :=
  r ← mutate_ref in_all_lets_mutate e no_memo; Ok (fst r).
Definition substitute_in_all_lets_stmt (s : StmtRef) : res StmtRef :=
  r ← mutate_stmt_ref in_all_lets_mutate_stmt s no_memo; Ok (fst r).
End Graph.

(** * Substitution as a function *)
Fixpoint subst (σ : gmap string Expr) (e : Expr) : Expr :=
  match e with
  | Var _ n _ _ _ => default e (σ !! n)
  | Let n v b => Let n (subst σ v) (subst (delete n σ) b)
  | _ => map_children (subst σ) e
  end.

(** Replacements have the types of the variables they replace. *)
Definition repl_ok (Γ : gmap string Ty) (σ : gmap string Expr) : Prop :=
  forall n r t, σ !! n = Some r -> Γ !! n = Some t -> wf r /\ type r = t.

Lemma repl_ok_delete Γ σ n t : repl_ok Γ σ -> repl_ok (<[n := t]> Γ) (delete n σ).
Proof.
  intros H m r u. destruct (decide (n = m)) as [->|Hn]; simplify_map_eq; [done|]. apply H.
Qed.

Lemma wf_children e : wf e -> Forall wf (children e).
Proof. destruct e; simpl; intros [_ H]; repeat constructor; try tauto. by apply wf_args. Qed.

Lemma wf_here e : wf e -> wf_node e.
Proof. destruct e; simpl; tauto. Qed.

Lemma wf_intro e : wf_node e -> Forall wf (children e) -> wf e.
Proof.
  intros H Hc. destruct e; simpl in *; (split; [done|]); rewrite ?Forall_cons in Hc; try tauto.
  by apply wf_args.
Qed.

Definition is_let (e : Expr) : bool := match e with Let _ _ _ => true | _ => false end.

Lemma typed_children Γ e : is_let e = false -> typed Γ e -> Forall (typed Γ) (children e).
Proof.
  destruct e; simpl; intros Hl H; repeat constructor; try tauto; try done.
  apply typed_args. tauto.
Qed.

(** A node whose children keep their types keeps its own type and stays well formed. *)
Lemma map_children_type g e :
  Forall (fun c => type (g c) = type c) (children e) -> type (map_children g e) = type e.
Proof.
  destruct e; simpl; intros H; rewrite ?Forall_cons in H; destruct_and?; try congruence;
    repeat match goal with H : type (g _) = _ |- _ => rewrite H end; done.
Qed.

Lemma forallb_map_types g args :
  Forall (fun c => type (g c) = type c) args ->
  forallb (fun a => type_eqb (type a) (Int 32 1)) (map g args) =
  forallb (fun a => type_eqb (type a) (Int 32 1)) args.
Proof. induction 1 as [|x l Hx H IH]; simpl; [done|]. by rewrite Hx, IH. Qed.

Lemma map_children_wf_node g e :
  wf_node e -> Forall (fun c => type (g c) = type c) (children e) -> wf_node (map_children g e).
Proof.
  intros Hwf H. destruct e; simpl in *; try done; try (rewrite !Forall_cons in H; destruct_and?);
    repeat match goal with H : type (g _) = _ |- _ => rewrite H end; try done.
  by rewrite forallb_map_types.
Qed.

Definition is_var (e : Expr) : bool := match e with Var _ _ _ _ _ => true | _ => false end.

(** Every node is a variable, a let, or one on which substitution is structural. *)
Variant node_view (e : Expr) : Prop :=
| view_var t n i p r : e = Var t n i p r -> node_view e
| view_let n v b : e = Let n v b -> node_view e
| view_plain : is_let e = false -> is_var e = false -> (forall σ, subst σ e = map_children (subst σ) e) -> node_view e.

Lemma view e : node_view e.
Proof.
  destruct e; try (by apply view_plain); [by eapply view_var|by eapply view_let].
Qed.

Lemma Forall_children_types Γ σ e :
  is_let e = false -> typed Γ e ->
  Forall (fun c => forall Γ σ, typed Γ c -> repl_ok Γ σ -> type (subst σ c) = type c) (children e) ->
  repl_ok Γ σ -> Forall (fun c => type (subst σ c) = type c) (children e).
Proof.
  intros Hl Ht H Hσ. apply typed_children in Ht; [|done]. rewrite Forall_forall in H, Ht |- *. eauto.
Qed.

Lemma subst_type e : forall Γ σ, typed Γ e -> repl_ok Γ σ -> type (subst σ e) = type e.
Proof.
  induction e as [e IH] using Expr_children_ind; intros Γ σ Ht Hσ.
  destruct (view e) as [t n i p r ->|n v b ->|Hl Hv Hs].
  - simpl in *. destruct (σ !! n) as [r'|] eqn:E; simpl; [|done]. destruct Ht as [_ Ht]. by eapply Hσ.
  - simpl in *. destruct Ht as [_ Ht]. rewrite !Forall_cons in IH. destruct IH as (_ & IH & _).
    eapply IH; [done|]. by apply repl_ok_delete.
  - rewrite Hs. apply map_children_type. by eapply Forall_children_types.
Qed.

Lemma subst_types_below Γ σ e :
  is_let e = false -> typed Γ e -> repl_ok Γ σ -> Forall (fun c => type (subst σ c) = type c) (children e).
Proof.
  intros. eapply Forall_children_types; [done..| |done]. apply Forall_forall. intros. by eapply subst_type.
Qed.

Lemma map_children_children g e : children (map_children g e) = map g (children e).
Proof. by destruct e. Qed.

Lemma subst_wf e : forall Γ σ, wf e -> typed Γ e -> repl_ok Γ σ -> wf (subst σ e).
Proof.
  induction e as [e IH] using Expr_children_ind; intros Γ σ Hwf Ht Hσ.
  destruct (view e) as [t n i p r ->|n v b ->|Hl Hv Hs].
  - simpl in *. destruct (σ !! n) as [r'|] eqn:E; simpl; [|done]. destruct Ht as [_ Ht]. by eapply Hσ.
  - simpl in *. rewrite !Forall_cons in IH. destruct IH as (IH1 & IH2 & _), Ht, Hwf as (? & ? & ?).
    split; [done|]. split; [by eapply IH1|]. eapply IH2; [done..|]. by apply repl_ok_delete.
  - rewrite Hs. apply wf_intro.
    + apply map_children_wf_node; [by apply wf_here|]. by eapply subst_types_below.
    + rewrite map_children_children. apply wf_children in Hwf. apply typed_children in Ht; [|done].
      apply Forall_map. rewrite Forall_forall in IH, Hwf, Ht |- *. eauto.
Qed.

(** ** The mutator computes it *)
Section Refines.
Context (same_as : ExprRef -> ExprRef -> bool) (same_stmt : StmtRef -> StmtRef -> bool).
Hypothesis same_as_sound : forall a b, same_as a b = true -> a = b.
Context (replace : gmap string ExprRef).

(** [σ] holds the replacements in force. *)
Definition in_force (hidden : hidden_scope) (σ : gmap string Expr) : Prop :=
  forall n, σ !! n = find_replacement replace hidden n.

Lemma scope_contains_push (h : hidden_scope) n v m :
  scope_wf h -> scope_contains (scope_push h n v) m = bool_decide (n = m) || scope_contains h m.
Proof.
  intros Hh. apply eq_bool_prop_intro. rewrite !Is_true_true, orb_true_iff, !scope_get_contains, scope_get_push by done.
  rewrite bool_decide_eq_true. destruct (decide (n = m)); simpl; tauto.
Qed.

Lemma in_force_hide h σ n : scope_wf h -> in_force h σ -> in_force (scope_push h n 0) (delete n σ).
Proof.
  intros Hh H m. unfold find_replacement. rewrite scope_contains_push by done.
  destruct (decide (n = m)) as [->|Hn].
  - rewrite lookup_delete_eq, bool_decide_eq_true_2 by done. simpl. by destruct (replace !! m).
  - rewrite lookup_delete_ne, bool_decide_eq_false_2 by done. apply H.
Qed.

Definition defined_replacements : gmap string Expr := omap (fun r : ExprRef => r : option Expr) replace.

Lemma in_force_new : in_force scope_new defined_replacements.
Proof.
  intros n. unfold defined_replacements. rewrite lookup_omap. unfold find_replacement.
  destruct (replace !! n) as [o|]; [|done].
  cbn [scope_contains scope_new]. by rewrite lookup_empty.
Qed.

Lemma substitute_mutate_plain e : is_let e = false -> is_var e = false ->
  substitute_mutate same_as replace e = visit_expr same_as (substitute_mutate same_as replace) e.
Proof. by destruct e. Qed.

Lemma hide_run n h : hide n h = Ok (tt, scope_push h n 0).
Proof. done. Qed.

Lemma unhide_run n h : scope_wf h -> unhide n (scope_push h n 0) = Ok (tt, h).
Proof. intros Hh. unfold unhide. by rewrite scope_pop_push. Qed.

Lemma substitute_mutate_spec e : forall Γ σ h,
  scope_wf h -> in_force h σ -> wf e -> typed Γ e -> repl_ok Γ σ ->
  substitute_mutate same_as replace e h = Ok (Some (subst σ e), h).
Proof.
  assert (Hret : forall (m : mut hidden_scope ExprRef) h a,
    returns (.= h) m a <-> m h = Ok (a, h)).
  { intros m h a. split; [intros H; destruct (H h eq_refl) as (? & ? & ->); done|]. intros H s ->. eauto. }
  induction e as [e IH] using Expr_children_ind; intros Γ σ h Hh Hf Hwf Ht Hσ.
  destruct (view e) as [t n i p r ->|n v b ->|Hl Hv Hs].
  - simpl. rewrite <- Hf. by destruct (σ !! n).
  - simpl in *. rewrite !Forall_cons in IH. destruct IH as (IH1 & IH2 & _), Ht, Hwf as (_ & ? & ?).
    rewrite (mut_bind_run _ _ _ _ _ (IH1 _ _ _ Hh Hf H1 H Hσ)). cbn [hide mbind mut_bind].
    specialize (IH2 _ (delete n σ) (scope_push h n 0)
      (scope_push_wf _ _ _ Hh) (in_force_hide _ _ _ Hh Hf) H2 H0 (repl_ok_delete _ _ _ _ Hσ)).
    refine (eq_trans (mut_bind_run _ _ _ _ _ IH2) _).
    refine (eq_trans (mut_bind_run _ _ _ _ _ (unhide_run n h Hh)) _).
    apply Hret, rebuild_returns; [|done].
    intros Hsame. apply andb_true_iff in Hsame as [Hs1 Hs2].
    apply (same_as_inj _ same_as_sound) in Hs1, Hs2. congruence.
  - rewrite Hs, substitute_mutate_plain by done.
    apply Hret, visit_expr_returns; [done| |].
    + apply wf_children in Hwf. apply typed_children in Ht; [|done].
      rewrite Forall_forall in IH, Hwf, Ht |- *. intros c Hc. apply Hret. eauto.
    + apply map_children_wf_node; [by apply wf_here|]. by eapply subst_types_below.
Qed.
End Refines.

(** * What substitution means *)

Fixpoint free_in (x : string) (e : Expr) : bool :=
  match e with
  | IntImm _ _ | UIntImm _ _ | FloatImm _ _ | StringImm _ => false
  | Var _ n _ _ _ => bool_decide (n = x)
  | Cast _ v | Not v | Broadcast v _ | Load _ _ v _ _ => free_in x v
  | Bin _ a b | Ramp a b _ => free_in x a || free_in x b
  | Select c t f => free_in x c || free_in x t || free_in x f
  | Call _ _ args _ _ _ _ _ => existsb (free_in x) args
  | Let n v b => free_in x v || (negb (bool_decide (n = x)) && free_in x b)
  end.

(** No let of [e] binds a name satisfying [P]. *)
Fixpoint lets_avoid (P : string -> Prop) (e : Expr) : Prop :=
  match e with
  | IntImm _ _ | UIntImm _ _ | FloatImm _ _ | StringImm _ | Var _ _ _ _ _ => True
  | Cast _ v | Not v | Broadcast v _ | Load _ _ v _ _ => lets_avoid P v
  | Bin _ a b | Ramp a b _ => lets_avoid P a /\ lets_avoid P b
  | Select c t f => lets_avoid P c /\ lets_avoid P t /\ lets_avoid P f
  | Call _ _ args _ _ _ _ _ =>
      (fix go (l : list Expr) : Prop := match l with [] => True | x :: l => lets_avoid P x /\ go l end) args
  | Let n v b => ~ P n /\ lets_avoid P v /\ lets_avoid P b
  end.

Lemma lets_avoid_children P e : lets_avoid P e -> Forall (lets_avoid P) (children e).
Proof.
  destruct e; simpl; intros H; repeat constructor; try tauto.
  induction args as [|x l IH]; constructor; [tauto|]. apply IH. tauto.
Qed.

Lemma free_in_children x e c : is_let e = false -> c ∈ children e -> free_in x c = true -> free_in x e = true.
Proof.
  destruct e; simpl; intros Hl Hc Hf; try done; try (rewrite !elem_of_cons, elem_of_nil in Hc;
    destruct_or?; subst; rewrite ?Hf, ?orb_true_r; done); try (by apply elem_of_nil in Hc).
  apply existsb_exists. exists c. split; [|done]. by apply list_elem_of_In.
Qed.

(** The variables aside, the same memory and the same functions. *)
Definition same_world (ρ ρ' : env) : Prop := mem ρ = mem ρ' /\ fn ρ = fn ρ'.

Lemma same_world_bind ρ ρ' n v w : same_world ρ ρ' -> same_world (bind_var ρ n v) (bind_var ρ' n w).
Proof. done. Qed.

Lemma mapM_map {A B C} (f : B -> option C) (g : A -> B) l : mapM f (map g l) = mapM (f ∘ g) l.
Proof. induction l as [|x l IH]; simpl; [done|]. by rewrite IH. Qed.

(** Evaluation is a congruence: a node whose children evaluate as those of another
    node evaluates as that node. *)
Lemma eval_map_children p g ρ ρ' e :
  is_let e = false -> is_var e = false -> same_world ρ ρ' ->
  Forall (fun c => type (g c) = type c) (children e) ->
  Forall (fun c => eval p ρ (g c) = eval p ρ' c) (children e) ->
  eval p ρ (map_children g e) = eval p ρ' e.
Proof.
  intros Hl Hv [Hm Hf] Ht He. destruct e; try done; cbn [children map_children eval] in *;
    rewrite ?Forall_cons in Ht, He; destruct_and?;
    repeat match goal with H : type (g _) = _ |- _ => rewrite H end;
    repeat match goal with H : eval _ _ (g _) = _ |- _ => rewrite H end; try done.
  - by rewrite Hm.
  - replace (mapM (eval p ρ) (map g args)) with (mapM (eval p ρ') args).
    + unfold eval_call. by rewrite Hf.
    + clear Ht. induction He as [|x l Hx He IH]; simpl; [done|]. by rewrite Hx, IH.
Qed.

Lemma map_children_idfun e : map_children (fun c => c) e = e.
Proof. apply map_children_id. apply Forall_forall. done. Qed.

(** The value of an expression only depends on its free variables. *)
Lemma eval_free p e : forall ρ ρ', same_world ρ ρ' ->
  (forall x, free_in x e = true -> vars ρ !! x = vars ρ' !! x) -> eval p ρ e = eval p ρ' e.
Proof.
  induction e as [e IH] using Expr_children_ind; intros ρ ρ' Hw Hx.
  destruct (view e) as [t n i q r ->|n v b ->|Hl Hv Hs].
  - simpl in *. apply Hx. by apply bool_decide_eq_true.
  - simpl in *. rewrite !Forall_cons in IH. destruct IH as (IH1 & IH2 & _).
    rewrite (IH1 ρ ρ' Hw) by (intros x H; apply Hx; by rewrite H).
    destruct (eval p ρ' v) as [vv|]; [|done]. cbn [mbind option_bind]. apply IH2; [done|].
    intros x H. simpl. destruct (decide (n = x)) as [->|Hn]; [by rewrite !lookup_insert_eq|].
    rewrite !lookup_insert_ne by done. apply Hx. rewrite H, bool_decide_eq_false_2 by done. apply orb_true_r.
  - rewrite <- (map_children_idfun e) at 1. apply eval_map_children; try done.
    + by apply Forall_forall.
    + rewrite Forall_forall in IH |- *. intros c Hc. apply IH; [done..|].
      intros x H. apply Hx. by eapply free_in_children.
Qed.

(** The environment in which a variable has the value of its replacement. *)
Definition subst_env (p : overflow) (σ : gmap string Expr) (ρ ρ' : env) : Prop :=
  same_world ρ ρ' /\
  forall n, vars ρ' !! n = match σ !! n with Some r => eval p ρ r | None => vars ρ !! n end.

Definition free_in_range (σ : gmap string Expr) (x : string) : Prop :=
  exists n r, σ !! n = Some r /\ free_in x r = true.

Lemma subst_env_bind p σ ρ ρ' n v :
  subst_env p σ ρ ρ' -> ~ free_in_range σ n ->
  subst_env p (delete n σ) (bind_var ρ n v) (bind_var ρ' n v).
Proof.
  intros [Hw Hv] Hn. split; [done|]. intros m. simpl. destruct (decide (n = m)) as [->|Hnm].
  - by rewrite lookup_delete_eq, !lookup_insert_eq.
  - rewrite lookup_delete_ne, !lookup_insert_ne, Hv by done. destruct (σ !! m) as [r|] eqn:E; [|done].
    apply eval_free; [done|]. intros x Hx. simpl. rewrite lookup_insert_ne; [done|].
    intros ->. apply Hn. by exists m, r.
Qed.

Lemma lets_avoid_impl (P Q : string -> Prop) e :
  (forall x, Q x -> P x) -> lets_avoid P e -> lets_avoid Q e.
Proof.
  intros HPQ. induction e using Expr_ind'; simpl; try naive_solver.
  induction H as [|x l Hx H IH]; naive_solver.
Qed.

Lemma eval_subst p e : forall Γ σ ρ ρ',
  typed Γ e -> repl_ok Γ σ -> lets_avoid (free_in_range σ) e -> subst_env p σ ρ ρ' ->
  eval p ρ (subst σ e) = eval p ρ' e.
Proof.
  induction e as [e IH] using Expr_children_ind; intros Γ σ ρ ρ' Ht Hσ Ha Hρ.
  destruct (view e) as [t n i q r ->|n v b ->|Hl Hv Hs].
  - simpl. rewrite (proj2 Hρ). by destruct (σ !! n).
  - simpl in *. rewrite !Forall_cons in IH. destruct IH as (IH1 & IH2 & _), Ht as [Htv Htb], Ha as (Hn & Hav & Hab).
    rewrite (IH1 Γ σ ρ ρ') by done. destruct (eval p ρ' v) as [vv|]; [|done]. cbn [mbind option_bind].
    eapply IH2; [done|by apply repl_ok_delete| |by apply subst_env_bind].
    eapply lets_avoid_impl; [|done]. intros x (m & r & Hm & Hr).
    apply lookup_delete_Some in Hm as [_ Hm]. by exists m, r.
  - rewrite Hs. apply eval_map_children; try done; [apply Hρ|by eapply subst_types_below|].
    apply typed_children in Ht; [|done]. apply lets_avoid_children in Ha.
    rewrite Forall_forall in IH, Ht, Ha |- *. eauto.
Qed.

(** C2. [substitute] succeeds on every well-formed, typed expression when each
    replacement has the type of the variables it replaces, and returns a
    well-formed expression of the same type; variables a let rebinds are left
    alone. When no let of the expression captures a variable of a replacement (the
    restriction the header warns of), the result means the original expression in
    the environment where each replaced variable has its replacement's value. *)
Theorem substitute_sound same_as replace Γ e :
  (forall a b, same_as a b = true -> a = b) ->
  wf e -> typed Γ e -> repl_ok Γ (defined_replacements replace) ->
  exists e', substitute same_as replace (eref e) = Ok (Some e') /\
    wf e' /\ type e' = type e /\
    (lets_avoid (free_in_range (defined_replacements replace)) e ->
     forall p ρ ρ', subst_env p (defined_replacements replace) ρ ρ' -> eval p ρ e' = eval p ρ' e).
Proof.
  intros Hs Hwf Ht Hσ. exists (subst (defined_replacements replace) e). split; [|split_and!].
  - unfold substitute. simpl.
    by rewrite (substitute_mutate_spec _ Hs replace e Γ _ _ scope_new_wf (in_force_new replace) Hwf Ht Hσ).
  - by eapply subst_wf.
  - by eapply subst_type.
  - intros Ha p ρ ρ' Hρ. by eapply eval_subst.
Qed.

(** * The memo changes nothing *)
Section Memo.
Context (same_as : ExprRef -> ExprRef -> bool).
Hypothesis same_as_sound : forall a b, same_as a b = true -> a = b.

Definition memo_ok (F : Expr -> Expr) (m : graph_memo) : Prop :=
  Forall (fun x => snd x = Some (F (fst x))) (expr_replacements m).

Lemma no_memo_ok F : memo_ok F no_memo.
Proof. constructor. Qed.

Lemma find_expr_ok F l e r :
  Forall (fun x => snd x = Some (F (fst x))) l -> find_expr same_as l e = Some r -> r = Some (F e).
Proof.
  induction 1 as [|[e' r'] l Hx H IH]; simpl; [done|]. destruct (same_as (eref e) (eref e')) eqn:E; [|done].
  apply (same_as_inj _ same_as_sound) in E as ->. by intros [= <-].
Qed.

Lemma graph_mutate_returns F mutate e :
  returns (memo_ok F) mutate (Some (F e)) -> returns (memo_ok F) (graph_mutate same_as mutate e) (Some (F e)).
Proof.
  intros H m Hm. unfold graph_mutate. destruct (find_expr same_as (expr_replacements m) e) as [r|] eqn:E.
  - exists m. by rewrite (find_expr_ok _ _ _ _ Hm E).
  - destruct (H m Hm) as (m' & -> & Hm'). eexists. split; [done|]. by constructor.
Qed.

Lemma subst_singleton_let n r m v b : n <> m ->
  subst {[n := r]} (Let m v b) = map_children (subst {[n := r]}) (Let m v b).
Proof. intros H. simpl. rewrite delete_id; [done|]. by rewrite lookup_singleton_ne. Qed.

Lemma graph_substitute_unfold var value e :
  graph_substitute_mutate same_as var value e =
  graph_mutate same_as
    (if is_var e
     then mret (match e with Var _ n _ _ _ => if bool_decide (n = var) then value else eref e | _ => None end)
     else visit_expr same_as (graph_substitute_mutate same_as var value) e) e.
Proof. by destruct e. Qed.

(** Where no let rebinds the variable, substituting in a graph is substituting. *)
Lemma graph_substitute_spec var r e : forall Γ,
  wf e -> typed Γ e -> repl_ok Γ {[ var := r ]} -> lets_avoid (.= var) e ->
  returns (memo_ok (subst {[ var := r ]})) (graph_substitute_mutate same_as var (Some r) e)
    (Some (subst {[ var := r ]} e)).
Proof.
  induction e as [e IH] using Expr_children_ind; intros Γ Hwf Ht Hσ Ha.
  rewrite graph_substitute_unfold. apply graph_mutate_returns.
  destruct (view e) as [t n i q u ->|n v b ->|Hl Hv Hs].
  - simpl. case_bool_decide as Hn; subst.
    + rewrite lookup_singleton_eq. apply returns_ret.
    + rewrite lookup_singleton_ne by done. apply returns_ret.
  - cbn [is_var]. cbn [lets_avoid] in Ha. destruct Ha as (Hn & Hav & Hab), Hwf as (_ & ? & ?), Ht.
    rewrite subst_singleton_let by done. cbn [children] in IH. rewrite !Forall_cons in IH. destruct IH as (IH1 & IH2 & _).
    assert (Hσ' : repl_ok (<[n:=type v]> Γ) {[var := r]}).
    { apply (repl_ok_delete _ _ n (type v)) in Hσ. rewrite delete_id in Hσ; [done|].
      by rewrite lookup_singleton_ne. }
    apply visit_expr_returns; [done| |done]. repeat constructor; [by eapply IH1|by eapply IH2].
  - rewrite Hv, Hs. apply visit_expr_returns; [done| |].
    + apply wf_children in Hwf. apply typed_children in Ht; [|done]. apply lets_avoid_children in Ha.
      rewrite Forall_forall in IH, Hwf, Ht, Ha |- *. eauto.
    + apply map_children_wf_node; [by apply wf_here|]. by eapply subst_types_below.
Qed.

Lemma graph_substitute_run var r e Γ :
  wf e -> typed Γ e -> repl_ok Γ {[ var := r ]} -> lets_avoid (.= var) e ->
  graph_substitute same_as var (Some r) (Some e) = Ok (Some (subst {[ var := r ]} e)).
Proof.
  intros Hwf Ht Hσ Ha. unfold graph_substitute. simpl.
  destruct (graph_substitute_spec var r e Γ Hwf Ht Hσ Ha no_memo (no_memo_ok _)) as (m & -> & _). done.
Qed.
End Memo.

(** * Removing every let *)
Fixpoint inline (e : Expr) : Expr :=
  match e with
  | Let n v b => subst {[ n := inline v ]} (inline b)
  | _ => map_children inline e
  end.

Definition let_free : Expr -> Prop := lets_avoid (fun _ => True).

Lemma let_free_avoid P e : let_free e -> lets_avoid P e.
Proof. by apply lets_avoid_impl. Qed.

Lemma lets_avoid_intro P e : is_let e = false -> Forall (lets_avoid P) (children e) -> lets_avoid P e.
Proof.
  destruct e; simpl; intros Hl H; rewrite ?Forall_cons in H; try done; try tauto.
  clear Hl. induction H; simpl; auto.
Qed.

Lemma is_let_map_children g e : is_let (map_children g e) = is_let e.
Proof. by destruct e. Qed.

Lemma let_free_is_let e : let_free e -> is_let e = false.
Proof. destruct e; try done. intros [H _]. by destruct H. Qed.

Lemma subst_let_free σ e :
  (forall n r, σ !! n = Some r -> let_free r) -> let_free e -> let_free (subst σ e).
Proof.
  intros Hσ. induction e as [e IH] using Expr_children_ind; intros He.
  destruct (view e) as [t n i q u ->|n v b ->|Hl Hv Hs].
  - simpl. destruct (σ !! n) as [r|] eqn:E; [by eapply Hσ|done].
  - by apply let_free_is_let in He.
  - rewrite Hs. apply lets_avoid_intro; [by rewrite is_let_map_children|].
    rewrite map_children_children. apply Forall_map. apply lets_avoid_children in He.
    rewrite Forall_forall in IH, He |- *. intros c Hc. apply IH; [done|]. by apply He.
Qed.

Lemma inline_let n v b : inline (Let n v b) = subst {[ n := inline v ]} (inline b).
Proof. done. Qed.

Lemma inline_plain e : is_let e = false -> inline e = map_children inline e.
Proof. by destruct e. Qed.

Lemma inline_let_free e : let_free (inline e).
Proof.
  induction e as [e IH] using Expr_children_ind.
  destruct (is_let e) eqn:Hl.
  - destruct e; try done. cbn [children] in IH. rewrite inline_let. rewrite !Forall_cons in IH. destruct IH as (? & ? & _).
    apply subst_let_free; [|done]. intros m r. rewrite lookup_singleton_Some. by intros [_ <-].
  - rewrite inline_plain by done. apply lets_avoid_intro; [by rewrite is_let_map_children|].
    rewrite map_children_children. by apply Forall_map.
Qed.

Lemma typed_intro Γ e :
  is_let e = false -> is_var e = false -> typed Γ e ->
  forall Γ' g, Forall (fun c => type (g c) = type c) (children e) ->
  Forall (fun c => typed Γ' (g c)) (children e) -> typed Γ' (map_children g e).
Proof.
  intros Hl Hv Ht Γ' g Hty Hc. destruct e; simpl in *; rewrite ?Forall_cons in Hc; try done; try tauto.
  destruct Ht as (H1 & H2 & _). split; [done|]. split.
  - intros Hi. destruct (H2 Hi) as (a & Ha & <-). exists (g a).
    change (map g args) with (g <$> args). rewrite fmap_last, Ha. split; [done|].
    rewrite Forall_forall in Hty. apply Hty. rewrite last_lookup in Ha. by eapply list_elem_of_lookup_2.
  - apply typed_args. by apply Forall_map.
Qed.

(** Substitution moves an expression from the context of the replaced variables to
    that of the replacements. *)
Lemma typed_subst_let_free e : forall Γ Γ' σ,
  let_free e -> typed Γ e -> repl_ok Γ σ ->
  (forall n t, Γ !! n = Some t ->
     match σ !! n with Some r => typed Γ' r | None => Γ' !! n = Some t end) ->
  typed Γ' (subst σ e).
Proof.
  induction e as [e IH] using Expr_children_ind; intros Γ Γ' σ Hf Ht Hσ HΓ.
  destruct (view e) as [t n i q u ->|n v b ->|Hl Hv Hs].
  - simpl in *. destruct Ht as [Hok Ht]. apply HΓ in Ht. by destruct (σ !! n).
  - by apply let_free_is_let in Hf.
  - rewrite Hs. pose proof (subst_types_below _ _ _ Hl Ht Hσ) as Hty.
    eapply typed_intro; [done..|]. apply typed_children in Ht; [|done]. apply lets_avoid_children in Hf.
    rewrite Forall_forall in IH, Ht, Hf |- *. intros c Hc. eapply IH; [done|by apply Hf|by apply Ht|done..].
Qed.

Lemma inline_ok e : forall Γ, wf e -> typed Γ e ->
  wf (inline e) /\ typed Γ (inline e) /\ type (inline e) = type e.
Proof.
  induction e as [e IH] using Expr_children_ind; intros Γ Hwf Ht. destruct (is_let e) eqn:Hl.
  - destruct e; try done. cbn [children] in IH. rewrite !Forall_cons in IH.
    destruct IH as (IH1 & IH2 & _), Hwf as (_ & Hwv & Hwb), Ht as [Htv Htb].
    destruct (IH1 Γ Hwv Htv) as (H1 & H2 & H3), (IH2 _ Hwb Htb) as (H4 & H5 & H6). rewrite inline_let.
    assert (Hσ : repl_ok (<[name := type e1]> Γ) {[name := inline e1]}).
    { intros m r t. rewrite lookup_singleton_Some. intros [<- <-]. rewrite lookup_insert_eq.
      intros [= <-]. done. }
    split; [|split].
    + by eapply subst_wf.
    + eapply typed_subst_let_free; [apply inline_let_free|done|done|].
      intros m t. destruct (decide (name = m)) as [->|Hn].
      * by rewrite lookup_singleton_eq.
      * by rewrite lookup_singleton_ne, lookup_insert_ne.
    + rewrite (subst_type _ _ _ H5 Hσ). done.
  - rewrite inline_plain by done. destruct (is_var e) eqn:Hv; [by destruct e|].
    pose proof (wf_children _ Hwf) as Hwc. pose proof (typed_children _ _ Hl Ht) as Htc.
    assert (Hc : Forall (fun c => wf (inline c) /\ typed Γ (inline c) /\ type (inline c) = type c) (children e)).
    { rewrite Forall_forall in IH, Hwc, Htc |- *. intros c Hc. by apply IH; auto. }
    rewrite !Forall_and in Hc. destruct Hc as (Hc1 & Hc2 & Hc3). split; [|split].
    + apply wf_intro; [apply map_children_wf_node; [by apply wf_here|done]|].
      rewrite map_children_children. by apply Forall_map.
    + by eapply typed_intro.
    + by apply map_children_type.
Qed.

(** A node whose children keep the values they have keeps the value it has. *)
Lemma eval_map_children_mono p g ρ e v :
  is_let e = false -> is_var e = false ->
  Forall (fun c => type (g c) = type c) (children e) ->
  Forall (fun c => forall w, eval p ρ c = Some w -> eval p ρ (g c) = Some w) (children e) ->
  eval p ρ e = Some v -> eval p ρ (map_children g e) = Some v.
Proof.
  intros Hl Hv Ht He H. destruct e; try done; cbn [children map_children eval] in *;
    rewrite ?Forall_cons in Ht, He; destruct_and?; inv_res;
    repeat match goal with
    | H : type (g _) = _ |- _ => rewrite H; clear H
    | IH : forall w, eval p ρ ?c = Some w -> _, H : eval p ρ ?c = Some _ |- _ => rewrite (IH _ H); clear H
    end; try done.
  replace (mapM (eval p ρ) (map g args)) with (mapM (eval p ρ) args); [by rewrite H|].
  rewrite mapM_map, H. symmetry. eapply mapM_mono; [|exact H].
  rewrite Forall_forall in He. intros y w Hy. by apply He.
Qed.

Lemma eval_inline p e : forall Γ ρ v, wf e -> typed Γ e -> eval p ρ e = Some v -> eval p ρ (inline e) = Some v.
Proof.
  induction e as [e IH] using Expr_children_ind; intros Γ ρ v0 Hwf Ht Hev. destruct (is_let e) eqn:Hl.
  - destruct e; try done. cbn [children] in IH. rewrite !Forall_cons in IH.
    destruct IH as (IH1 & IH2 & _), Hwf as (_ & Hwv & Hwb), Ht as [Htv Htb]. cbn [eval] in Hev. inv_res.
    rewrite inline_let. destruct (inline_ok _ _ Hwb Htb) as (_ & Htb' & _).
    destruct (inline_ok _ _ Hwv Htv) as (Hw & _ & Hty).
    rewrite (eval_subst p (inline e2) (<[name := type e1]> Γ) _ ρ (bind_var ρ name x)); [by eapply IH2| | | |].
    + done.
    + intros m r t. rewrite lookup_singleton_Some. intros [<- <-]. rewrite lookup_insert_eq. by intros [= <-].
    + apply let_free_avoid, inline_let_free.
    + split; [done|]. intros m. simpl. destruct (decide (name = m)) as [->|Hn].
      * rewrite lookup_singleton_eq, lookup_insert_eq. symmetry. by eapply IH1.
      * by rewrite lookup_singleton_ne, lookup_insert_ne.
  - destruct (is_var e) eqn:Hv; [by destruct e|]. rewrite inline_plain by done.
    pose proof (wf_children _ Hwf) as Hwc. pose proof (typed_children _ _ Hl Ht) as Htc.
    rewrite Forall_forall in IH, Hwc, Htc.
    apply eval_map_children_mono; [done|done| | |done]; apply Forall_forall; intros c Hc.
    + by eapply inline_ok; auto.
    + intros w. by eapply IH; auto.
Qed.

Section AllLets.
Context (same_as : ExprRef -> ExprRef -> bool).
Hypothesis same_as_sound : forall a b, same_as a b = true -> a = b.

Lemma in_all_lets_unfold e :
  in_all_lets_mutate same_as e =
  graph_mutate same_as
    match e with
    | Let name v b =>
        value ← in_all_lets_mutate same_as v;
        body ← in_all_lets_mutate same_as b;
        lift (graph_substitute same_as name value body)
    | _ => visit_expr same_as (in_all_lets_mutate same_as) e
    end e.
Proof. by destruct e. Qed.

Lemma in_all_lets_spec e : forall Γ, wf e -> typed Γ e ->
  returns (memo_ok inline) (in_all_lets_mutate same_as e) (Some (inline e)).
Proof.
  induction e as [e IH] using Expr_children_ind; intros Γ Hwf Ht.
  rewrite in_all_lets_unfold. apply graph_mutate_returns; [done|]. destruct (is_let e) eqn:Hl.
  - destruct e; try done. cbn [children] in IH. rewrite !Forall_cons in IH.
    destruct IH as (IH1 & IH2 & _), Hwf as (_ & Hwv & Hwb), Ht as [Htv Htb].
    destruct (inline_ok _ _ Hwb Htb) as (H1 & H2 & _), (inline_ok _ _ Hwv Htv) as (H3 & _ & H4).
    eapply returns_bind; [by eapply IH1|]. eapply returns_bind; [by eapply IH2|].
    apply returns_lift. rewrite inline_let. eapply graph_substitute_run; [done|done|exact H2| |].
    + intros m r t. rewrite lookup_singleton_Some. intros [<- <-]. rewrite lookup_insert_eq. by intros [= <-].
    + apply let_free_avoid, inline_let_free.
  - assert (E : forall k, match e with Let n v b => k n v b
      | _ => visit_expr same_as (in_all_lets_mutate same_as) e end =
      visit_expr same_as (in_all_lets_mutate same_as) e) by (by destruct e).
    rewrite E, inline_plain by done. destruct (is_var e) eqn:Hv; [destruct e; try done; apply returns_ret|].
    pose proof (wf_children _ Hwf) as Hwc. pose proof (typed_children _ _ Hl Ht) as Htc.
    rewrite Forall_forall in IH, Hwc, Htc.
    apply visit_expr_returns; [done| |apply map_children_wf_node; [by apply wf_here|]];
      apply Forall_forall; intros c Hc; [by eapply IH; auto|by eapply inline_ok; auto].
Qed.

(** C28. [graph_substitute] is [substitute] on expressions in which no let rebinds the
    variable, whatever its memo has seen: the memo is keyed by the identity of
    nodes, so it only ever repeats an answer. *)
Theorem graph_substitute_is_substitute Γ name r e :
  wf e -> typed Γ e -> repl_ok Γ {[ name := r ]} -> lets_avoid (.= name) e ->
  graph_substitute same_as name (eref r) (eref e) = substitute_var same_as name (eref r) (eref e).
Proof.
  intros Hwf Ht Hσ Ha.
  assert (E : defined_replacements {[ name := eref r ]} = {[ name := r ]}).
  { apply map_eq. intros n. unfold defined_replacements. rewrite lookup_omap.
    destruct (decide (name = n)) as [->|Hn]; [by rewrite !lookup_singleton_eq|].
    by rewrite !lookup_singleton_ne. }
  change (eref e) with (Some e). change (eref r) with (Some r) at 1.
  rewrite (graph_substitute_run same_as same_as_sound name r e Γ Hwf Ht Hσ Ha).
  unfold substitute_var, substitute. simpl.
  rewrite (substitute_mutate_spec _ same_as_sound {[ name := eref r ]} e Γ {[ name := r ]} _ scope_new_wf);
    try done.
  rewrite <- E. apply in_force_new.
Qed.

(** C29. [substitute_in_all_lets] removes every let and keeps the meaning: the result
    is well formed, of the same type and context, holds no let, and has every value
    the original has. No restriction on the names is needed, since the body it
    substitutes into has no let left to capture a variable. *)
Theorem substitute_in_all_lets_sound Γ e :
  wf e -> typed Γ e ->
  exists e', substitute_in_all_lets same_as (eref e) = Ok (Some e') /\
    wf e' /\ typed Γ e' /\ type e' = type e /\ let_free e' /\
    forall p ρ v, eval p ρ e = Some v -> eval p ρ e' = Some v.
Proof.
  intros Hwf Ht. exists (inline e). destruct (inline_ok _ _ Hwf Ht) as (H1 & H2 & H3).
  split; [|split_and!; try done].
  - unfold substitute_in_all_lets. simpl.
    destruct (in_all_lets_spec e Γ Hwf Ht no_memo (no_memo_ok _)) as (m & -> & _). done.
  - apply inline_let_free.
  - intros p ρ v. by eapply eval_inline.
Qed.
End AllLets.

(** * Witnesses *)
Definition same_ref (a b : ExprRef) : bool := bool_decide (a = b).
Lemma same_ref_sound a b : same_ref a b = true -> a = b.
Proof. apply bool_decide_eq_true. Qed.

Definition i32 : Ty := Int 32 1.
Definition ivar (n : string) : Expr := Var i32 n None None None.
Definition xy_types : gmap string Ty := {[ "x" := i32; "y" := i32 ]}.
(** let t = x + y in t * x *)
Definition let_expr : Expr :=
  Let "t" (Bin Add (ivar "x") (ivar "y")) (Bin Mul (Var i32 "t" None None None) (ivar "x")).

Lemma let_expr_wf : wf let_expr.
Proof. repeat split; discriminate. Qed.
Lemma let_expr_typed : typed xy_types let_expr.
Proof. repeat split; vm_compute; congruence. Qed.
Lemma y_repl_ok (Γ : gmap string Ty) : Γ !! "x" = Some i32 -> repl_ok Γ {[ "x" := ivar "y" ]}.
Proof.
  intros H m r t. rewrite lookup_singleton_Some. intros [<- <-]. rewrite H. intros [= <-].
  repeat split; discriminate.
Qed.

Lemma substitute_sound_witness :
  exists e', substitute same_ref {[ "x" := eref (ivar "y") ]} (eref let_expr) = Ok (Some e') /\
    wf e' /\ type e' = i32 /\
    (lets_avoid (free_in_range (defined_replacements {[ "x" := eref (ivar "y") ]})) let_expr ->
     forall p ρ ρ', subst_env p (defined_replacements {[ "x" := eref (ivar "y") ]}) ρ ρ' ->
       eval p ρ e' = eval p ρ' let_expr).
Proof.
  apply (substitute_sound same_ref {[ "x" := eref (ivar "y") ]} xy_types let_expr same_ref_sound
    let_expr_wf let_expr_typed).
  replace (defined_replacements {[ "x" := eref (ivar "y") ]}) with ({[ "x" := ivar "y" ]} : gmap string Expr)
    by reflexivity.
  apply y_repl_ok. reflexivity.
Defined.

Lemma graph_substitute_is_substitute_witness :
  graph_substitute same_ref "x" (eref (ivar "y")) (eref let_expr) =
  substitute_var same_ref "x" (eref (ivar "y")) (eref let_expr).
Proof.
  apply (graph_substitute_is_substitute same_ref same_ref_sound xy_types "x" (ivar "y") let_expr
    let_expr_wf let_expr_typed).
  - apply y_repl_ok. reflexivity.
  - repeat split; discriminate.
Defined.

Lemma substitute_in_all_lets_sound_witness :
  exists e', substitute_in_all_lets same_ref (eref let_expr) = Ok (Some e') /\
    wf e' /\ typed xy_types e' /\ type e' = i32 /\ let_free e' /\
    forall p ρ v, eval p ρ let_expr = Some v -> eval p ρ e' = Some v.
Proof.
  apply (substitute_in_all_lets_sound same_ref same_ref_sound xy_types let_expr let_expr_wf let_expr_typed).
Defined.
