(* ===== verification/ExprUsesVar.v ===== *)
(** Whether an expression refers to a variable: the visitor of src/src/ExprUsesVar.h,
    which visits each node of a graph once. *)

From Stdlib Require Import ZArith Lia Bool SpecFloat String.
From stdpp Require Import prelude strings gmap.
From S2P Require Import Prelude Types IR Semantics Scope Mutator Visitor Substitute.

#[local] Open Scope Z_scope.

(** * The visitor

    Its state is [result] and the set of visited nodes. Its scope of expressions, which
    the callers modelled here leave empty, is left out. *)
Section ExprUsesVars.
Context (same_node : Expr -> Expr -> bool) (vars : string -> bool).

Definition seen (visited : list Expr) (e : Expr) : bool := existsb (same_node e) visited.

(** [accept], which dispatches to [visit], around the children's [include]. *)
Definition uses_visit (include : Expr -> bool * list Expr -> bool * list Expr) (e : Expr)
    (st : bool * list Expr) : bool * list Expr :=
  match e with
  | Var _ name _ _ _ => if vars name then (true, snd st) else st
  | _ => graph_visit include e st
  end.

Fixpoint uses_include (e : Expr) (st : bool * list Expr) : bool * list Expr :=
  if seen (snd st) e then st
  else uses_visit uses_include e (fst st, e :: snd st).

(** [expr_uses_vars(e, v)], [vars] being [v.contains]. *)
Definition expr_uses_vars (e : Expr) : bool := fst (uses_visit uses_include e (false, [])).
End ExprUsesVars.

(** [expr_uses_var(e, v)] pushes the one name on an empty scope. *)
Definition expr_uses_var (same_node : Expr -> Expr -> bool) (e : Expr) (v : string) : bool :=
  expr_uses_vars same_node (scope_contains (scope_push scope_new v 0)) e.

(** * What the answer means *)

Fixpoint occurs (P : string -> bool) (e : Expr) : bool :=
  match e with
  | Var _ n _ _ _ => P n
  | IntImm _ _ | UIntImm _ _ | FloatImm _ _ | StringImm _ => false
  | Cast _ v | Not v | Broadcast v _ | Load _ _ v _ _ => occurs P v
  | Bin _ a b | Ramp a b _ | Let _ a b => occurs P a || occurs P b
  | Select c t f => occurs P c || occurs P t || occurs P f
  | Call _ _ args _ _ _ _ _ => existsb (occurs P) args
  end.

Lemma occurs_children P e : is_var e = false -> occurs P e = existsb (occurs P) (children e).
Proof. intros H. destruct e; simpl; rewrite ?orb_false_r, ?orb_assoc; try done. Qed.

Fixpoint node_size (e : Expr) : nat :=
  match e with
  | Var _ _ _ _ _ | IntImm _ _ | UIntImm _ _ | FloatImm _ _ | StringImm _ => 1
  | Cast _ v | Not v | Broadcast v _ | Load _ _ v _ _ => S (node_size v)
  | Bin _ a b | Ramp a b _ | Let _ a b => S (node_size a + node_size b)
  | Select c t f => S (node_size c + node_size t + node_size f)
  | Call _ _ args _ _ _ _ _ => S (list_sum (node_size <$> args))
  end.

Lemma node_size_child c e : c ∈ children e -> (node_size c < node_size e)%nat.
Proof.
  destruct e; simpl; rewrite ?elem_of_cons, ?elem_of_nil; intros H; destruct_or?; subst; try done; try lia.
  induction args as [|x l IH]; [by apply elem_of_nil in H|]. rewrite fmap_cons. simpl in IH |- *.
  apply elem_of_cons in H as [->|H]; [lia|]. specialize (IH H). lia.
Qed.

(** A visit whose children's visits only find uses finds only uses. *)
Lemma visit_finds P (include : Expr -> bool * list Expr -> bool * list Expr) e st :
  Forall (fun c => forall st, fst (include c st) = true -> fst st = true \/ occurs P c = true) (children e) ->
  fst (uses_visit P include e st) = true -> fst st = true \/ occurs P e = true.
Proof.
  intros IH. destruct (is_var e) eqn:Hv.
  - destruct e; try done. simpl. destruct (P name); auto.
  - assert (Hu : uses_visit P include e st = include_all include (children e) st).
    { rewrite <- graph_visit_children. by destruct e. }
    rewrite Hu, occurs_children by done. clear Hu Hv. revert st.
    induction IH as [|c l Hc _ IHl]; intros st; simpl; [by left|]. intros H.
    apply IHl in H as [H|H]; [|right; by rewrite H, orb_true_r]. apply Hc in H as [H|H]; [by left|right; by rewrite H].
Qed.

Section Meaning.
Context (same_node : Expr -> Expr -> bool) (P : string -> bool).
Hypothesis same_sound : forall a b, same_node a b = true -> a = b.

(** While no use is found, every visited node smaller than the one at hand has none. *)
Definition clear_below (n : nat) (V : list Expr) : Prop :=
  forall x, x ∈ V -> (node_size x <= n)%nat -> occurs P x = false.

Definition clears (e : Expr) (st st' : bool * list Expr) : Prop :=
  fst st' = false -> fst st = false /\
    (clear_below (node_size e) (snd st) -> occurs P e = false /\
     forall x, x ∈ snd st' -> x ∈ snd st \/ occurs P x = false).

Definition clears_all (l : list Expr) (st st' : bool * list Expr) : Prop :=
  fst st' = false -> fst st = false /\
    (Forall (fun c => clear_below (node_size c) (snd st)) l ->
     existsb (occurs P) l = false /\ forall x, x ∈ snd st' -> x ∈ snd st \/ occurs P x = false).

Lemma include_all_clears l : Forall (fun c => forall st, clears c st (uses_include same_node P c st)) l ->
  forall st, clears_all l st (include_all (uses_include same_node P) l st).
Proof.
  induction 1 as [|c l Hc Hl IH]; intros st; simpl; intros Hf; [split; [done|]; intros _; split; [done|by left]|].
  specialize (IH _ Hf) as [Hf1 IH]. specialize (Hc st Hf1) as [Hf0 Hc]. split; [done|].
  intros [Hb Hbs]%Forall_cons. destruct (Hc Hb) as [Ho Hv]. simpl. rewrite Ho.
  destruct IH as [Hos Hvs].
  - rewrite Forall_forall in Hbs |- *. intros d Hd x Hx Hn. destruct (Hv x Hx) as [|]; [|done]. by apply (Hbs d).
  - split; [done|]. intros x Hx. destruct (Hvs x Hx) as [Hx'|]; [|by right]. by apply Hv.
Qed.

Lemma visit_clears e st :
  (forall st, clears_all (children e) st (include_all (uses_include same_node P) (children e) st)) ->
  fst (uses_visit P (uses_include same_node P) e st) = false ->
  fst st = false /\
  ((forall x, x ∈ snd st -> (node_size x < node_size e)%nat -> occurs P x = false) -> occurs P e = false /\
   forall x, x ∈ snd (uses_visit P (uses_include same_node P) e st) -> x ∈ snd st \/ occurs P x = false).
Proof.
  intros Hall. destruct (is_var e) eqn:Hv.
  - destruct e; try done. simpl. destruct (P name) eqn:Hn; [done|]. intros Hf. split; [done|]. intros _. split; [done|by left].
  - assert (Hu : uses_visit P (uses_include same_node P) e st = include_all (uses_include same_node P) (children e) st).
    { rewrite <- graph_visit_children. by destruct e. }
    rewrite Hu, occurs_children by done. intros Hf. destruct (Hall st Hf) as [Hf0 Ha]. split; [done|].
    intros Hb. apply Ha. apply Forall_forall. intros c Hc x Hx Hn. apply Hb; [done|].
    pose proof (node_size_child c e Hc). lia.
Qed.

Lemma uses_include_clears e st : clears e st (uses_include same_node P e st).
Proof.
  revert st. induction e as [e IH] using Expr_children_ind. intros st Hf.
  assert (Hu : uses_include same_node P e st =
    if seen same_node (snd st) e then st else uses_visit P (uses_include same_node P) e (fst st, e :: snd st))
    by (by destruct e).
  rewrite Hu in Hf |- *. destruct (seen same_node (snd st) e) eqn:Hs.
  - split; [done|]. intros Hb. unfold seen in Hs. apply existsb_exists in Hs as (x & Hx & Hs).
    apply same_sound in Hs as <-. apply list_elem_of_In in Hx. split; [by apply Hb|by left].
  - pose proof (include_all_clears _ IH) as Hall.
    destruct (visit_clears e (fst st, e :: snd st) Hall Hf) as [Hf0 Hc]. split; [done|]. intros Hb. simpl in Hc.
    destruct Hc as [Ho Hv].
    { intros x Hx Hn. apply elem_of_cons in Hx as [->|Hx]; [lia|]. apply Hb; [done|lia]. }
    split; [done|]. intros x Hx. destruct (Hv x Hx) as [Hx'|]; [|by right].
    apply elem_of_cons in Hx' as [->|]; [by right|by left].
Qed.

Lemma expr_uses_vars_false e : expr_uses_vars same_node P e = false -> occurs P e = false.
Proof.
  intros H. refine (proj1 (proj2 (visit_clears e (false, []) _ H) _)).
  - apply include_all_clears. apply Forall_forall. intros c _ st. apply uses_include_clears.
  - intros x Hx. by apply elem_of_nil in Hx.
Qed.

(** The other way, a use that is found is one. *)
Lemma uses_include_finds e st : fst (uses_include same_node P e st) = true -> fst st = true \/ occurs P e = true.
Proof.
  revert st. induction e as [e IH] using Expr_children_ind. intros st.
  assert (Hu : uses_include same_node P e st =
    if seen same_node (snd st) e then st else uses_visit P (uses_include same_node P) e (fst st, e :: snd st))
    by (by destruct e).
  rewrite Hu. destruct (seen same_node (snd st) e); [by left|]. by apply (visit_finds P _ e (fst st, e :: snd st)).
Qed.
End Meaning.

Lemma occurs_free P e x : occurs P e = false -> free_in x e = true -> P x = false.
Proof.
  induction e as [e IH] using Expr_children_ind. intros Ho Hf. destruct (is_var e) eqn:Hv.
  - destruct e; try done. simpl in *. bool_to_prop. by subst.
  - rewrite occurs_children in Ho by done.
    assert (exists c, c ∈ children e /\ free_in x c = true) as (c & Hc & Hfc).
    { destruct (is_let e) eqn:Hl.
      - destruct e; try done. simpl in *. apply orb_true_iff in Hf as [Hf|Hf].
        + exists e1. split; [apply elem_of_cons; by left|done].
        + apply andb_true_iff in Hf as [_ Hf]. exists e2. split; [|done]. rewrite !elem_of_cons. tauto.
      - clear IH Ho. destruct e; try done; simpl in Hf; rewrite ?orb_true_iff in Hf; simpl;
          try (by eexists; split; [apply list_elem_of_here|]);
          try (destruct_or?; eexists; (split; [|eassumption]); rewrite !elem_of_cons; tauto).
        apply existsb_exists in Hf as (c & Hc & Hf). exists c. split; [by apply list_elem_of_In|done]. }
    rewrite Forall_forall in IH. apply (IH c Hc); [|done]. apply not_true_iff_false. intros Hoc.
    assert (existsb (occurs P) (children e) = true); [|congruence].
    apply existsb_exists. exists c. split; [by apply list_elem_of_In|done].
Qed.

(** C39. [expr_uses_vars] is exact: though it visits each node of the graph once, it answers
    whether some variable of the expression, bound or not, is one of the names. *)
Theorem expr_uses_vars_exact same_node P e : (forall a b, same_node a b = true -> a = b) ->
  expr_uses_vars same_node P e = occurs P e.
Proof.
  intros Hs. destruct (expr_uses_vars same_node P e) eqn:He; symmetry.
  - apply visit_finds in He; [by destruct He|]. apply Forall_forall. intros c _ st. apply uses_include_finds.
  - by apply (expr_uses_vars_false same_node P Hs).
Qed.

Lemma expr_uses_vars_exact_witness :
  let x := Var (Int 32 1) "x" None None None in
  let e := Let "y" (Bin Add x x) (Bin Mul x (Var (Int 32 1) "y" None None None)) in
  expr_uses_vars (fun a b => bool_decide (a = b)) (String.eqb "y") e = occurs (String.eqb "y") e /\
  occurs (String.eqb "y") e = true /\ occurs (String.eqb "z") e = false.
Proof. intros x e. split; [|done]. apply expr_uses_vars_exact. intros a b H. by apply bool_decide_eq_true in H. Defined.
