(* ===== verification/Rebuild.v ===== *)
(** Mutators whose results depend on the state they are called in: what
    [IRMutator::visit] (src/src/IRMutator.cpp) builds when the new children are
    related to the old ones but are not a function of them. *)

From Stdlib Require Import ZArith Lia Bool SpecFloat String.
From stdpp Require Import prelude strings gmap.
From S2P Require Import Prelude Types IR Semantics Mutator Substitute.

#[local] Open Scope Z_scope.
#[local] Open Scope halide_scope.

(** The node with other children. *)
Definition with_children (e : Expr) (cs : list Expr) : Expr :=
  match e, cs with
  | Cast t _, [v] => Cast t v
  | Not _, [a] => Not a
  | Broadcast _ l, [v] => Broadcast v l
  | Load t n _ im p, [i] => Load t n i im p
  | Bin op _ _, [a; b] => Bin op a b
  | Ramp _ _ l, [b; s] => Ramp b s l
  | Let n _ _, [v; b] => Let n v b
  | Select _ _ _, [c; t; f] => Select c t f
  | Call t n _ ct f vi im p, args => Call t n args ct f vi im p
  | e, _ => e
  end.

Section Children.
Context (P : Expr -> Expr -> Prop).

(** Destruct the new children of a node along the old ones. *)
Ltac split_children :=
  repeat match goal with
  | H : Forall2 _ (_ :: _) ?cs |- _ =>
      is_var cs; apply Forall2_cons_inv_l in H; destruct H as (? & ? & ? & ? & ->)
  | H : Forall2 _ [] ?cs |- _ => is_var cs; apply Forall2_nil_inv_l in H; subst cs
  end.

Lemma children_with_children e cs : Forall2 P (children e) cs -> children (with_children e cs) = cs.
Proof. destruct e; cbn [children]; intros H; split_children; done. Qed.

Lemma with_children_shape e cs : Forall2 P (children e) cs ->
  is_let (with_children e cs) = is_let e /\ is_var (with_children e cs) = is_var e.
Proof. destruct e; cbn [children]; intros H; split_children; done. Qed.

Hypothesis P_type : forall c c', P c c' -> type c' = type c.

Lemma with_children_type e cs : Forall2 P (children e) cs -> type (with_children e cs) = type e.
Proof.
  destruct e; cbn [children]; intros H; split_children; simpl;
    repeat match goal with H : P _ _ |- _ => apply P_type in H; rewrite ?H end; done.
Qed.

Lemma forallb_types_rel args args' : Forall2 P args args' ->
  forallb (fun a => type_eqb (type a) (Int 32 1)) args' = forallb (fun a => type_eqb (type a) (Int 32 1)) args.
Proof. induction 1 as [|c c' l l' Hc H IH]; simpl; [done|]. by rewrite (P_type _ _ Hc), IH. Qed.

Lemma with_children_wf_node e cs : Forall2 P (children e) cs -> wf_node e -> wf_node (with_children e cs).
Proof.
  destruct e; cbn [children]; intros H; split_children; simpl;
    repeat match goal with H : P _ _ |- _ => apply P_type in H end; try congruence;
    repeat match goal with H : type _ = type _ |- _ => rewrite H; clear H end; try done.
  by rewrite (forallb_types_rel _ _ H).
Qed.

Lemma with_children_wf e cs : Forall2 P (children e) cs -> wf e -> Forall wf cs -> wf (with_children e cs).
Proof.
  intros H Hwf Hc. apply wf_intro.
  - apply with_children_wf_node; [done|by apply wf_here].
  - by rewrite (children_with_children e cs).
Qed.

Lemma with_children_typed Γ Γ' e cs : is_let e = false -> is_var e = false ->
  Forall2 P (children e) cs -> typed Γ e -> Forall (typed Γ') cs -> typed Γ' (with_children e cs).
Proof.
  intros Hl Hv. destruct e; try done; cbn [children]; intros H Ht Hc; split_children;
    rewrite ?Forall_cons in Hc; simpl in *; try tauto.
  destruct Ht as (H1 & H2 & _). split; [done|]. split; [|by apply typed_args].
  intros Hi. destruct (H2 Hi) as (a & Ha & <-). rewrite last_lookup in *.
  destruct (Forall2_lookup_l _ _ _ _ _ H Ha) as (a' & Ha' & Hp).
  exists a'. split; [|by apply P_type]. by rewrite <- (Forall2_length _ _ _ H).
Qed.

Lemma with_children_eval p ρ ρ' e cs : is_let e = false -> is_var e = false -> same_world ρ ρ' ->
  Forall2 P (children e) cs -> Forall2 (fun c c' => eval p ρ c' = eval p ρ' c) (children e) cs ->
  eval p ρ (with_children e cs) = eval p ρ' e.
Proof.
  intros Hl Hv [Hm Hf]. destruct e; try done; cbn [children]; intros H He; split_children;
    repeat match goal with
    | H : Forall2 _ (_ :: _) (_ :: _) |- _ => apply Forall2_cons in H as [? H]
    | H : P _ _ |- _ => apply P_type in H
    end; cbn [with_children eval];
    repeat match goal with
    | H : type _ = type _ |- _ => rewrite H; clear H
    | H : eval p ρ _ = eval _ _ _ |- _ => rewrite H; clear H
    end; try done.
  - by rewrite Hm.
  - replace (mapM (eval p ρ) cs) with (mapM (eval p ρ') args).
    + unfold eval_call. by rewrite Hf.
    + clear H. induction He as [|x x' l l' Hx He IH]; simpl; [done|]. by rewrite Hx, IH.
Qed.

Lemma with_children_let_free Q e cs : is_let e = false -> Forall2 P (children e) cs ->
  Forall (lets_avoid Q) cs -> lets_avoid Q (with_children e cs).
Proof.
  intros Hl H Hc. destruct (with_children_shape e cs H) as [Hl' _].
  apply lets_avoid_intro; [congruence|]. by rewrite (children_with_children e cs).
Qed.

Lemma with_children_free x e cs : is_let e = false -> is_var e = false -> Forall2 P (children e) cs ->
  free_in x (with_children e cs) = true -> exists c, c ∈ cs /\ free_in x c = true.
Proof.
  intros Hl Hv. destruct e; try done; cbn [children]; intros H; split_children; cbn [with_children free_in];
    rewrite ?orb_true_iff; intros Hx; try done;
    try (destruct_or?; eexists; (split; [|eassumption]); rewrite !elem_of_cons; by auto).
  apply existsb_exists in Hx as (c & Hc & Hx). exists c. by rewrite list_elem_of_In.
Qed.
End Children.

(** * The visit *)
Section VisitRel.
Context {S : Type} (same_as : ExprRef -> ExprRef -> bool).
Hypothesis same_as_sound : forall a b, same_as a b = true -> a = b.
Context (mutate : Expr -> mut S ExprRef).

Lemma rebuild_run op make new unchanged (s : S) :
  (unchanged = true -> new = op) -> make = Ok new ->
  rebuild (S := S) unchanged op make s = Ok (Some new, s).
Proof. intros Hu ->. unfold rebuild. destruct unchanged; [by rewrite Hu|done]. Qed.

Lemma mutate_list_cons_run c cs (l : list Expr) (s s' : S) :
  mutate_list mutate (c :: l) s = Ok (eref <$> cs, s') ->
  exists c' cs' s1, cs = c' :: cs' /\ mutate c s = Ok (Some c', s1) /\ mutate_list mutate l s1 = Ok (eref <$> cs', s').
Proof.
  cbn [mutate_list]. intros H. apply mut_bind_Ok in H as (r & s1 & H1 & H).
  apply mut_bind_Ok in H as (rs & s2 & H2 & H). apply mut_ret_Ok in H. destruct cs as [|c' cs']; [done|].
  injection H as <- <- <-. eauto 10.
Qed.

Lemma mutate_list_nil_run cs (s s' : S) :
  mutate_list mutate [] s = Ok (eref <$> cs, s') -> cs = [] /\ s' = s.
Proof. cbn [mutate_list]. intros H. apply mut_ret_Ok in H as [= Hn <-]. by destruct cs. Qed.

Ltac same_children := let H := fresh in intros H;
  repeat (apply andb_true_iff in H; destruct H as [H ?]);
  repeat match goal with Hs : same_as (Some _) _ = true |- _ => apply same_as_sound in Hs end;
  unfold eref in *; congruence.

Lemma visit_expr_run e cs (s s' : S) :
  mutate_list mutate (children e) s = Ok (eref <$> cs, s') -> wf_node (with_children e cs) ->
  List.length cs = List.length (children e) ->
  visit_expr same_as mutate e s = Ok (Some (with_children e cs), s').
Proof.
  intros H Hwf Hlen.
  destruct e; cbn [children] in H; cbn [visit_expr];
    repeat match goal with
    | Hm : mutate_list mutate (_ :: _) _ = _ |- _ => apply mutate_list_cons_run in Hm; destruct Hm as (? & ? & ? & -> & ? & ?)
    | Hm : mutate_list mutate [] _ = _ |- _ => apply mutate_list_nil_run in Hm; destruct Hm as [-> ->]
    end; cbn [with_children] in *; try done;
    repeat (erewrite mut_bind_run by eassumption);
    (apply rebuild_run;
      [try same_children|unfold eref in *; eauto using Cast_make_ok, binop_make_ok, Not_make_ok, Select_make_ok,
        Load_make_ok, Ramp_make_ok, Broadcast_make_ok, Call_make_ok]).
  intros Hs. f_equal. by apply (all_same_sound same_as same_as_sound).
Qed.

Context (I : S -> Prop) (le : S -> S -> Prop) (R : S -> Expr -> Expr -> Prop).
Hypothesis le_refl : forall s, le s s.
Hypothesis le_trans : forall s1 s2 s3, le s1 s2 -> le s2 s3 -> le s1 s3.
Hypothesis R_mono : forall s s' c c', le s s' -> R s c c' -> R s' c c'.

(** [mutate] on [c], from any state that satisfies [I], ends with a related node. *)
Definition relates (c : Expr) : Prop := forall s, I s ->
  exists c' s', mutate c s = Ok (Some c', s') /\ I s' /\ le s s' /\ R s' c c'.

Lemma mutate_list_rel l : Forall relates l -> forall s, I s ->
  exists cs s', mutate_list mutate l s = Ok (eref <$> cs, s') /\ I s' /\ le s s' /\ Forall2 (R s') l cs.
Proof.
  induction 1 as [|c l Hc H IH]; intros s Hs; [by exists [], s|].
  destruct (Hc s Hs) as (c' & s1 & H1 & Hs1 & L1 & R1). destruct (IH s1 Hs1) as (cs & s2 & H2 & Hs2 & L2 & R2).
  exists (c' :: cs), s2. split; [|split; [done|split; [by eapply le_trans|constructor; [by eapply R_mono|done]]]].
  cbn [mutate_list]. rewrite (mut_bind_run _ _ _ _ _ H1), (mut_bind_run _ _ _ _ _ H2). done.
Qed.

Lemma visit_expr_rel e : Forall relates (children e) ->
  (forall s cs, I s -> Forall2 (R s) (children e) cs -> wf_node (with_children e cs)) -> forall s, I s ->
  exists cs s', visit_expr same_as mutate e s = Ok (Some (with_children e cs), s') /\ I s' /\ le s s'
    /\ Forall2 (R s') (children e) cs.
Proof.
  intros Hc Hwf s Hs. destruct (mutate_list_rel (children e) Hc s Hs) as (cs & s' & H & Hs' & L & HR).
  exists cs, s'. split; [|done]. apply visit_expr_run; [done|by eapply Hwf|].
  symmetry. by eapply Forall2_length.
Qed.
End VisitRel.
