(* ===== verification/LetValues.v ===== *)
(** One valuation for a whole expression. When every name a let binds is bound to one
    expression throughout, and never occurs free, the names can be given values once
    and for all: in that valuation every subexpression has the value it has where it
    occurs, so that passes that move subexpressions between scopes (src/src/CSE.cpp)
    can be understood without scopes. *)

From Stdlib Require Import ZArith Lia Bool SpecFloat String.
From stdpp Require Import prelude strings gmap.
From S2P Require Import Prelude Types IR Semantics Mutator Substitute.

#[local] Open Scope Z_scope.

(** The lets of an expression: each name with the expression it is bound to. *)
Fixpoint let_defs (e : Expr) : list (string * Expr) :=
  match e with
  | IntImm _ _ | UIntImm _ _ | FloatImm _ _ | StringImm _ | Var _ _ _ _ _ => []
  | Cast _ v | Not v | Broadcast v _ | Load _ _ v _ _ => let_defs v
  | Bin _ a b | Ramp a b _ => let_defs a ++ let_defs b
  | Select c t f => let_defs c ++ let_defs t ++ let_defs f
  | Call _ _ args _ _ _ _ _ => concat (map let_defs args)
  | Let n v b => (n, v) :: let_defs v ++ let_defs b
  end.

Definition let_name (e : Expr) (x : string) : Prop := exists v, (x, v) ∈ let_defs e.

Record lets_consistent (e : Expr) : Prop := {
  lc_unique x v w : (x, v) ∈ let_defs e -> (x, w) ∈ let_defs e -> v = w;
  lc_not_free x : let_name e x -> free_in x e = false
}.

Lemma let_defs_children e x v : is_let e = false ->
  (x, v) ∈ let_defs e <-> exists c, c ∈ children e /\ (x, v) ∈ let_defs c.
Proof.
  intros Hl. destruct e; try done; cbn [let_defs children].
  all: try set_solver.
Qed.

(** * Free variables and typing *)

Lemma typed_free e : forall Γ Γ', (forall y, free_in y e = true -> Γ !! y = Γ' !! y) -> typed Γ e -> typed Γ' e.
Proof.
  induction e as [e IH] using Expr_children_ind; intros Γ Γ' Hy Ht.
  destruct (view e) as [t n i q r ->|n v b ->|Hl Hv _].
  - simpl in *. rewrite <- Hy; [done|]. by apply bool_decide_eq_true.
  - simpl in *. rewrite !Forall_cons in IH. destruct IH as (IH1 & IH2 & _), Ht as [Htv Htb]. split.
    + eapply IH1; [|done]. intros y H. apply Hy. by rewrite H.
    + eapply IH2; [|done]. intros y H. destruct (decide (n = y)) as [->|Hn]; simplify_map_eq; [done|].
      apply Hy. rewrite H, bool_decide_eq_false_2 by done. apply orb_true_r.
  - rewrite <- (map_children_idfun e). apply (typed_intro Γ); [done..| |].
    + by apply Forall_forall.
    + apply typed_children in Ht; [|done]. rewrite Forall_forall in IH, Ht |- *. intros c Hc.
      eapply IH; [done| |by apply Ht]. intros y H. apply Hy. by eapply free_in_children.
Qed.

(** The types of the variables of [Γ] and of the names lets bind. *)
Definition let_types (Γ : gmap string Ty) (e : Expr) : gmap string Ty :=
  list_to_map ((fun '(x, v) => (x, type v)) <$> let_defs e) ∪ Γ.

Lemma let_types_bound Γ e x v : lets_consistent e -> (x, v) ∈ let_defs e -> let_types Γ e !! x = Some (type v).
Proof.
  intros [Hu _] Hx. apply lookup_union_Some_l. apply elem_of_list_to_map_1'.
  - intros t Ht. apply list_elem_of_fmap in Ht as ([y w] & [= -> ->] & Hw). by rewrite (Hu _ _ _ Hx Hw).
  - apply list_elem_of_fmap. by exists (x, v).
Qed.

Lemma let_types_free Γ e x : ~ let_name e x -> let_types Γ e !! x = Γ !! x.
Proof.
  intros Hx. apply lookup_union_r. apply not_elem_of_list_to_map_1.
  intros ([y t] & -> & ([z v] & [= -> ->] & Hv)%list_elem_of_fmap)%list_elem_of_fmap. apply Hx. by exists v.
Qed.

Lemma typed_lets e : forall Γ G, typed Γ e -> (forall y, free_in y e = true -> Γ !! y = G !! y) ->
  (forall x v, (x, v) ∈ let_defs e -> G !! x = Some (type v)) -> typed G e.
Proof.
  induction e as [e IH] using Expr_children_ind; intros Γ G Ht Hy Hd.
  destruct (view e) as [t n i q r ->|n v b ->|Hl Hv _].
  - simpl in *. rewrite <- Hy; [done|]. by apply bool_decide_eq_true.
  - cbn [typed children let_defs] in *. rewrite !Forall_cons in IH. destruct IH as (IH1 & IH2 & _), Ht as [Htv Htb].
    rewrite (insert_id G) by (apply Hd; set_solver). split.
    + eapply IH1; [done| |]; [|set_solver]. intros y H. apply Hy. simpl. by rewrite H.
    + eapply IH2; [done| |]; [|set_solver]. intros y H. destruct (decide (n = y)) as [->|Hn]; simplify_map_eq.
      * symmetry. apply Hd. set_solver.
      * apply Hy. simpl. rewrite H, bool_decide_eq_false_2 by done. apply orb_true_r.
  - rewrite <- (map_children_idfun e). apply (typed_intro Γ); [done..| |].
    + by apply Forall_forall.
    + apply typed_children in Ht; [|done]. rewrite Forall_forall in IH, Ht |- *. intros c Hc.
      eapply IH; [done|by apply Ht| |].
      * intros y H. apply Hy. by eapply free_in_children.
      * intros x w H. apply Hd. apply let_defs_children; [done|]. eauto.
Qed.

(** A node has a value only if all its children have. *)
Lemma mapM_is_Some {A B} (f : A -> option B) l r : mapM f l = Some r -> Forall (fun x => is_Some (f x)) l.
Proof.
  revert r. induction l as [|x l IH]; intros r H; [constructor|]. cbn [mapM] in H.
  apply bind_Some in H as (y & Hy & H). apply bind_Some in H as (ys & Hys & _). constructor; eauto.
Qed.

Lemma eval_children_Some p ρ e : is_let e = false -> is_var e = false -> is_Some (eval p ρ e) ->
  Forall (fun c => is_Some (eval p ρ c)) (children e).
Proof.
  intros Hl Hv [val H]. destruct e; try done; cbn [eval children] in *; inv_res; repeat constructor; eauto.
  by eapply mapM_is_Some.
Qed.

(** * The valuation *)
Definition at_vars (ρ : env) (W : gmap string value) : env := mkEnv W (mem ρ) (fn ρ).

Section Valuation.
Context (p : overflow) (ρ : env) (L : string -> Prop) `{!forall y, Decision (L y)}.

(** [W] gives each name of the definitions [D] the value of its expression, and what
    these expressions mention of [L] is defined in [D]. *)
Record valued (W : gmap string value) (D : string -> Expr -> Prop) : Prop := {
  vd_value x v : D x v -> exists w, W !! x = Some w /\ eval p (at_vars ρ W) v = Some w;
  vd_closed x v y : D x v -> free_in y v = true -> L y -> exists w, D y w;
  vd_names x v : D x v -> L x
}.

Definition and_defs (D : string -> Expr -> Prop) (e : Expr) : string -> Expr -> Prop :=
  fun x v => D x v \/ (x, v) ∈ let_defs e.
Definition and_all_defs (D : string -> Expr -> Prop) (es : list Expr) : string -> Expr -> Prop :=
  fun x v => D x v \/ exists c, c ∈ es /\ (x, v) ∈ let_defs c.
Definition functional (D : string -> Expr -> Prop) : Prop := forall x v w, D x v -> D x w -> v = w.

Lemma functional_sub (D D' : string -> Expr -> Prop) :
  (forall x v, D x v -> D' x v) -> functional D' -> functional D.
Proof. intros Hs Hf x v w Hv Hw. eapply Hf; by apply Hs. Qed.

(** Whether a name is defined is decidable. *)
Definition decided_names (D : string -> Expr -> Prop) : Prop :=
  forall y, (exists u, D y u) \/ ~ (exists u, D y u).

Lemma decided_names_app D (l : list (string * Expr)) D' :
  (forall x u, D' x u <-> D x u \/ (x, u) ∈ l) -> decided_names D -> decided_names D'.
Proof.
  intros He Hd y. destruct (Hd y) as [[u Hu]|Hn]; [left; exists u; apply He; auto|].
  destruct (decide (y ∈ l.*1)) as [Hy|Hy].
  - apply list_elem_of_fmap in Hy as ([z u] & -> & Hz). left. exists u. apply He. auto.
  - right. intros [u [Hu|Hu]%He]; [eauto|]. apply Hy, list_elem_of_fmap. by exists (y, u).
Qed.

(** Only names of [L] not yet defined change. *)
Definition keeps (D : string -> Expr -> Prop) (W W' : gmap string value) : Prop :=
  forall y, ~ L y \/ (exists v, D y v) -> W' !! y = W !! y.

Definition in_reach (D : string -> Expr -> Prop) (e : Expr) : Prop :=
  forall y, free_in y e = true -> L y -> exists v, D y v.
Definition agrees (ρ' : env) (W : gmap string value) (e : Expr) : Prop :=
  forall y, free_in y e = true -> vars ρ' !! y = W !! y.

Lemma eval_keeps D W W' e : keeps D W W' -> in_reach D e ->
  eval p (at_vars ρ W') e = eval p (at_vars ρ W) e.
Proof.
  intros Hk Hr. apply eval_free; [done|]. intros y Hy. apply Hk. destruct (decide (L y)); auto.
Qed.

Lemma keeps_trans (D D' : string -> Expr -> Prop) W W1 W2 :
  (forall x v, D x v -> D' x v) -> keeps D W W1 -> keeps D' W1 W2 -> keeps D W W2.
Proof. intros Hs H1 H2 y Hy. rewrite H2, H1; [done|done|]. naive_solver. Qed.

(** What a step establishes: every definition is valued and [e] has the value [val]. *)
Definition extended (D D' : string -> Expr -> Prop) (W : gmap string value) (P : gmap string value -> Prop) : Prop :=
  exists W', valued W' D' /\ keeps D W W' /\ P W'.

Definition extends_at (e : Expr) : Prop := forall ρ' D W val,
  same_world ρ ρ' -> eval p ρ' e = Some val -> agrees ρ' W e -> in_reach D e ->
  (forall x v, (x, v) ∈ let_defs e -> L x) -> functional (and_defs D e) -> decided_names D -> valued W D ->
  extended D (and_defs D e) W (fun W' => eval p (at_vars ρ W') e = Some val).

Lemma valued_ext W D D' : (forall x v, D x v <-> D' x v) -> valued W D -> valued W D'.
Proof.
  intros He [H1 H2 H3]. constructor.
  - intros x v Hx. by apply H1, He.
  - intros x v y Hx Hy Hl. destruct (H2 x v y) as [w Hw]; [by apply He|done|done|]. exists w. by apply He.
  - intros x v Hx. eapply H3. by apply He.
Qed.

Lemma extend_list es : Forall extends_at es -> forall ρ' D W,
  same_world ρ ρ' -> Forall (fun e => is_Some (eval p ρ' e)) es ->
  Forall (agrees ρ' W) es -> Forall (in_reach D) es ->
  (forall x v c, c ∈ es -> (x, v) ∈ let_defs c -> L x) -> functional (and_all_defs D es) -> decided_names D -> valued W D ->
  extended D (and_all_defs D es) W (fun W' => Forall (fun e => eval p (at_vars ρ W') e = eval p ρ' e) es).
Proof.
  induction 1 as [|e es He Hes IH]; intros ρ' D W Hw Hev Hag Hre Hn Hf Hdec Hv.
  - exists W. split; [|split; [done|constructor]]. eapply valued_ext; [|done]. unfold and_all_defs. set_solver.
  - apply Forall_cons in Hev as [[val Hev] Hevs], Hag as [Hag Hags], Hre as [Hre Hres].
    destruct (He ρ' D W val) as (W1 & Hv1 & Hk1 & E1); [done..| | |done|done|].
    { intros x v Hx. eapply Hn; [left|done]. }
    { eapply functional_sub, Hf. unfold and_defs, and_all_defs. set_solver. }
    destruct (IH ρ' (and_defs D e) W1) as (W2 & Hv2 & Hk2 & E2); [done|done| | | | | |done|].
    { rewrite Forall_forall in Hags, Hres |- *. intros c Hc y Hy. rewrite (Hags c Hc y Hy). symmetry. apply Hk1.
      destruct (decide (L y)); [right; by apply (Hres c)|by left]. }
    { rewrite Forall_forall in Hres |- *. intros c Hc y Hy Hl. destruct (Hres c Hc y Hy Hl) as [v ?]. exists v. by left. }
    { intros x v c Hc. apply Hn. by right. }
    { eapply functional_sub, Hf. unfold and_defs, and_all_defs. set_solver. }
    { eapply (decided_names_app D (let_defs e)); [|done]. done. }
    exists W2. split; [|split].
    + eapply valued_ext; [|exact Hv2]. unfold and_all_defs, and_defs. set_solver.
    + eapply keeps_trans; [|done|done]. by left.
    + constructor; [|done]. rewrite Hev, (eval_keeps (and_defs D e) W1); [done|done|].
      intros y Hy Hl. destruct (Hre y Hy Hl) as [v ?]. exists v. by left.
Qed.

(** A name gets the value of its expression, unless it has it already. *)
Lemma value_name n v w D W : decided_names D -> valued W D -> eval p (at_vars ρ W) v = Some w ->
  in_reach D v -> L n -> (forall u, D n u -> u = v) ->
  exists W', valued W' (fun x u => D x u \/ (x = n /\ u = v)) /\ keeps D W W' /\ W' !! n = Some w.
Proof.
  intros Hdec Hv Hev Hr HLn Hu. destruct (Hdec n) as [[u Hn]|Hno].
  - rewrite (Hu u Hn) in Hn. destruct (vd_value W _ Hv n v Hn) as (w' & Hn1 & Ev).
    exists W. split; [|split; [done|congruence]]. eapply valued_ext; [|done]. naive_solver.
  - exists (<[n := w]> W). assert (Hk : keeps D W (<[n := w]> W)).
    { intros y Hy. rewrite lookup_insert_ne; [done|]. intros <-. destruct Hy as [Hy|Hy]; [by apply Hy|by apply Hno]. }
    assert (Hrd : forall x u, D x u -> in_reach D u)
      by (intros x u Hx y Hy Hl; by eapply (vd_closed W _ Hv)).
    split; [|split; [done|by rewrite lookup_insert_eq]]. constructor.
    + intros x u [Hx|[-> ->]].
      * destruct (vd_value W _ Hv x u Hx) as (w' & Hx1 & Eu). exists w'.
        rewrite (eval_keeps D W), Hk by eauto using vd_names. done.
      * exists w. rewrite lookup_insert_eq, (eval_keeps D W) by done. done.
    + intros x u y [Hx|[-> ->]] Hy Hl; [destruct (Hrd x u Hx y Hy Hl) as [z Hz]|destruct (Hr y Hy Hl) as [z Hz]];
        exists z; by left.
    + intros x u [Hx|[-> ->]]; [by eapply (vd_names W _ Hv)|done].
Qed.

(** A let: its expression first, then its name unless it has its value already. *)
Lemma extend_let n v b : extends_at v -> extends_at b -> extends_at (Let n v b).
Proof.
  intros IHv IHb ρ' D W val Hw Hev Hag Hre Hn Hf Hdec Hv. cbn [let_defs] in Hn. cbn [eval] in Hev.
  apply bind_Some in Hev as (w & Hev & Heb).
  assert (Hin : forall D', (forall x u, D' x u -> D x u \/ (x, u) ∈ let_defs (Let n v b)) -> functional D').
  { intros D' Hs. eapply functional_sub, Hf. exact Hs. }
  destruct (IHv ρ' D W w) as (W1 & Hv1 & Hk1 & E1); [done|done| | | | |done|done|].
  { intros y Hy. apply Hag. simpl. by rewrite Hy. }
  { intros y Hy Hl. apply Hre; [|done]. simpl. by rewrite Hy. }
  { intros x u Hx. apply (Hn x u). set_solver. }
  { apply Hin. unfold and_defs. set_solver. }
  assert (Hnv : in_reach (and_defs D v) v).
  { intros y Hy Hl. destruct (Hre y) as [u Hu]; [simpl; by rewrite Hy|done|]. exists u. by left. }
  set (D2 := fun x u => and_defs D v x u \/ (x = n /\ u = v)).
  assert (HLn : L n) by (apply (Hn n v); set_solver).
  assert (Hdec1 : decided_names (and_defs D v)) by (by eapply (decided_names_app D (let_defs v))).
  destruct (value_name n v w (and_defs D v) W1) as (W2 & Hv2 & Hk2 & Hn2); [done..| |].
  { intros u Hu. apply (Hf n); unfold and_defs in *; cbn [let_defs]; set_solver. }
  fold D2 in Hv2.
  assert (Hfree : forall y, y <> n -> free_in y b = true -> free_in y (Let n v b) = true).
  { intros y Hy Hb. simpl. rewrite Hb, bool_decide_eq_false_2 by done. apply orb_true_r. }
  destruct (IHb (bind_var ρ' n w) D2 W2 val) as (W3 & Hv3 & Hk3 & E3); [done|done| | | | | |done|].
  { intros y Hy. simpl. destruct (decide (n = y)) as [->|Hny]; [by rewrite lookup_insert_eq|].
    rewrite lookup_insert_ne by done. rewrite (Hag y) by auto. symmetry.
    assert (HDy : ~ L y \/ exists u, D y u) by (destruct (decide (L y)); [right; auto|by left]).
    rewrite Hk2, Hk1; [done|done|]. unfold and_defs. naive_solver. }
  { intros y Hy Hl. destruct (decide (y = n)) as [->|Hny]; [exists v; by right|].
    destruct (Hre y) as [u Hu]; [auto|done|]. exists u. by left; left. }
  { intros x u Hx. apply (Hn x u). set_solver. }
  { apply Hin. unfold and_defs, D2, and_defs. cbn [let_defs]. set_solver. }
  { eapply (decided_names_app (and_defs D v) [(n, v)]); [|done]. intros x u. unfold D2. set_solver. }
  exists W3. split; [|split].
  - eapply valued_ext; [|done]. unfold and_defs, D2, and_defs. cbn [let_defs]. set_solver.
  - eapply keeps_trans; [|eapply keeps_trans; [|done|]|]; [| |done|done]; unfold D2, and_defs; naive_solver.
  - assert (Hr2 : in_reach D2 v) by (intros y Hy Hl; destruct (Hnv y Hy Hl) as [u ?]; exists u; by left).
    cbn [eval]. rewrite (eval_keeps D2 W2 W3 v), (eval_keeps (and_defs D v) W1 W2 v), E1 by done.
    cbn [mbind option_bind]. unfold bind_var. simpl. rewrite insert_id; [done|].
    rewrite Hk3; [done|]. right. exists v. by right.
Qed.

Lemma extend e : extends_at e.
Proof.
  induction e as [e IH] using Expr_children_ind. destruct (view e) as [t n i q r ->|n v b ->|Hl Hv _].
  - intros ρ' D W val Hw Hev Hag Hre Hn Hf Hdec Hvd. exists W. split; [|split; [done|]].
    + eapply valued_ext; [|done]. unfold and_defs. cbn [let_defs]. set_solver.
    + simpl in *. rewrite <- Hag; [done|]. simpl. by apply bool_decide_eq_true.
  - simpl in IH. rewrite !Forall_cons in IH. destruct IH as (IH1 & IH2 & _). by apply extend_let.
  - intros ρ' D W val Hw Hev Hag Hre Hn Hf Hdec Hvd.
    assert (Hd : forall x u, and_all_defs D (children e) x u <-> and_defs D e x u)
      by (intros x u; unfold and_all_defs, and_defs; by rewrite (let_defs_children e)).
    destruct (extend_list (children e) IH ρ' D W) as (W' & Hv' & Hk & He); [done| | | | | |done|done|].
    { eapply eval_children_Some; [done..|]. by eexists. }
    { apply Forall_forall. intros c Hc y Hy. apply Hag. by eapply free_in_children. }
    { apply Forall_forall. intros c Hc y Hy. apply Hre. by eapply free_in_children. }
    { intros x u c Hc Hx. eapply Hn, let_defs_children; eauto. }
    { eapply functional_sub, Hf. intros x u. by apply Hd. }
    exists W'. split; [by eapply valued_ext|]. split; [done|]. rewrite <- Hev.
    rewrite <- (map_children_idfun e) at 1. apply eval_map_children; [done|done|done| |].
    + by apply Forall_forall.
    + done.
Qed.
End Valuation.

(** Every expression with consistent lets and a value has such a valuation, which
    differs from the environment on the names it binds only. *)
Lemma lets_valuation p ρ e val : lets_consistent e -> eval p ρ e = Some val ->
  exists W, (forall y, ~ let_name e y -> W !! y = vars ρ !! y) /\ eval p (at_vars ρ W) e = Some val /\
    forall x v, (x, v) ∈ let_defs e -> exists w, W !! x = Some w /\ eval p (at_vars ρ W) v = Some w.
Proof.
  intros [Hu Hf] Hev. set (L := fun y => y ∈ (let_defs e).*1).
  assert (HL : forall y, L y <-> let_name e y).
  { intros y. unfold L. rewrite list_elem_of_fmap. split; [intros ([z u] & -> & Hy); by exists u|intros [u Hy]; by exists (y, u)]. }
  destruct (extend p ρ L e ρ (fun _ _ => False) (vars ρ) val) as (W & Hv & Hk & Ee); [done|done|done| | | | | |].
  - intros y Hy Hl%HL. by rewrite (Hf y Hl) in Hy.
  - intros x v Hx. apply HL. by exists v.
  - intros x v w [[]|Hx] [[]|Hx']. by eapply Hu.
  - intros y. right. naive_solver.
  - by constructor.
  - exists W. split; [|split; [done|]].
    + intros y Hy. apply Hk. left. by rewrite HL.
    + intros x v Hx. eapply vd_value; [done|]. by right.
Qed.
