(* ===== verification/Equality.v ===== *)
(** The deep comparison of expressions and statements and its cache:
    src/src/IREquality.h and src/src/IREquality.cpp. *)

From Stdlib Require Import ZArith Lia Bool SpecFloat String.
From stdpp Require Import prelude strings gmap.
From S2P Require Import Prelude Types IR.

#[local] Open Scope Z_scope.
#[local] Open Scope halide_scope.

Inductive CmpResult := Unknown | Equal | LessThan | GreaterThan.

#[global] Instance CmpResult_eq_dec : EqDecision CmpResult.
Proof. solve_decision. Defined.

Definition of_comparison (c : comparison) : CmpResult :=
  match c with Lt => LessThan | Gt => GreaterThan | Eq => Equal end.

(** [compare_scalar] at the integer and enumeration types, at [double], and
    [compare_names]; each starts from the result [Equal]. *)
Definition compare_scalar (a b : Z) : CmpResult :=
  if a <? b then LessThan else if b <? a then GreaterThan else Equal.
Definition compare_double (a b : spec_float) : CmpResult :=
  if float_ltb a b then LessThan else if float_ltb b a then GreaterThan else Equal.
Definition compare_names (a b : string) : CmpResult := of_comparison (String.compare a b).

(** Every comparison returns at once when the result so far is not [Equal]. *)
Definition and_then (r k : CmpResult) : CmpResult := match r with Equal => k | _ => r end.

Definition compare_types (a b : Ty) : CmpResult :=
  and_then (compare_scalar (type_code_num (code a)) (type_code_num (code b)))
    (and_then (compare_scalar (bits a) (bits b)) (compare_scalar (lanes a) (lanes b))).

Definition call_type_num (c : CallType) : Z :=
  match c with
  | Image => 0 | Extern => 1 | ExternCPlusPlus => 2 | PureExtern => 3
  | Halide => 4 | Intrinsic => 5 | PureIntrinsic => 6
  end.
Definition for_type_num (f : ForType) : Z :=
  match f with Serial => 0 | Parallel => 1 | Vectorized => 2 | Unrolled => 3 end.

(** * IRCompareCache *)

(** The address of a node, and the test that two handles point to one node. *)
Section Cache.
Context (addr : Expr -> Z) (same_as : Expr -> Expr -> bool).

Record IRCompareCache := mkCache { cache_bits : Z; entries : gmap Z (Expr * Expr) }.

Definition cache_hash (bits : Z) (a b : Expr) : Z :=
  let pa := addr a in
  let pb := addr b in
  let mix := uwrap 64 (uwrap 64 (pa + pb) + Z.lxor pa pb) in
  let mix := Z.lxor mix (Z.shiftr mix bits) in
  let mix := Z.lxor mix (Z.shiftr mix (bits * 2)) in
  Z.land mix (Z.shiftl 1 bits - 1).

Definition cache_insert (c : IRCompareCache) (a b : Expr) : IRCompareCache :=
  mkCache (cache_bits c) (<[cache_hash (cache_bits c) a b := (a, b)]> (entries c)).

(** An entry that was never written holds undefined handles, which no node is. *)
Definition cache_contains (c : IRCompareCache) (a b : Expr) : bool :=
  match entries c !! cache_hash (cache_bits c) a b with
  | Some (ea, eb) => (same_as a ea && same_as b eb) || (same_as a eb && same_as b ea)
  | None => false
  end.

Definition cache_clear (c : IRCompareCache) : IRCompareCache := mkCache (cache_bits c) ∅.
Definition cache_new (b : Z) : IRCompareCache := mkCache b ∅.

(** * IRComparer

    The comparer's state is the cache pointer; [None] is the null pointer. *)
Definition cstate : Type := option IRCompareCache.
Definition comparer : Type := cstate -> CmpResult * cstate.

Definition pure_cmp (r : CmpResult) : comparer := fun c => (r, c).
Definition seq_cmp (x y : comparer) : comparer := fun c =>
  let '(r, c) := x c in match r with Equal => y c | _ => (r, c) end.

Definition state_contains (c : cstate) (a b : Expr) : bool :=
  match c with Some c => cache_contains c a b | None => false end.
Definition state_insert (c : cstate) (a b : Expr) : cstate :=
  match c with Some c => Some (cache_insert c a b) | None => None end.

(** The part of [compare_expr] before and after the visit of two defined nodes. *)
Definition compare_nodes (a b : Expr) (visit : comparer) : comparer := fun c =>
  if same_as a b then (Equal, c)
  else
    match and_then (compare_scalar (type_info a) (type_info b)) (compare_types (type a) (type b)) with
    | Equal =>
        if state_contains c a b then (Equal, c)
        else
          let '(r, c) := visit c in
          (r, match r with Equal => state_insert c a b | _ => c end)
    | r => (r, c)
    end.

Fixpoint compare_expr (a b : Expr) {struct a} : comparer :=
  compare_nodes a b
    match a, b with
    | IntImm _ x, IntImm _ y => pure_cmp (compare_scalar x y)
    | UIntImm _ x, UIntImm _ y => pure_cmp (compare_scalar x y)
    | FloatImm _ x, FloatImm _ y => pure_cmp (compare_double x y)
    | StringImm x, StringImm y => pure_cmp (compare_names x y)
    | Cast _ x, Cast _ y => compare_expr x y
    | Var _ x _ _ _, Var _ y _ _ _ => pure_cmp (compare_names x y)
    | Bin _ xa xb, Bin _ ya yb => seq_cmp (compare_expr xa ya) (compare_expr xb yb)
    | Not x, Not y => compare_expr x y
    | Select xc xt xf, Select yc yt yf =>
        seq_cmp (compare_expr xc yc) (seq_cmp (compare_expr xt yt) (compare_expr xf yf))
    | Load _ xn xi _ _, Load _ yn yi _ _ =>
        seq_cmp (pure_cmp (compare_names yn xn)) (compare_expr xi yi)
    | Ramp xb xs _, Ramp yb ys _ => seq_cmp (compare_expr xb yb) (compare_expr xs ys)
    | Broadcast x _, Broadcast y _ => compare_expr x y
    | Call _ xn xargs xct _ xvi _ _, Call _ yn yargs yct _ yvi _ _ =>
        seq_cmp (pure_cmp (compare_names xn yn))
          (seq_cmp (pure_cmp (compare_scalar (call_type_num xct) (call_type_num yct)))
            (seq_cmp (pure_cmp (compare_scalar xvi yvi))
              (seq_cmp (pure_cmp (compare_scalar (Z.of_nat (List.length xargs)) (Z.of_nat (List.length yargs))))
                ((fix go (xs ys : list Expr) : comparer :=
                    match xs, ys with
                    | x :: xs, y :: ys => seq_cmp (compare_expr x y) (go xs ys)
                    | _, _ => pure_cmp Equal
                    end) xargs yargs))))
    | Let xn xv xb, Let yn yv yb =>
        seq_cmp (pure_cmp (compare_names xn yn)) (seq_cmp (compare_expr xv yv) (compare_expr xb yb))
    | _, _ => pure_cmp Unknown
    end.

(** [compare_expr] on handles that may be undefined. *)
Definition compare_ref (a b : ExprRef) : comparer :=
  match a, b with
  | Some a, Some b => compare_expr a b
  | None, None => pure_cmp Equal
  | None, Some _ => pure_cmp LessThan
  | Some _, None => pure_cmp GreaterThan
  end.

Fixpoint compare_elements (xs ys : list Expr) : comparer :=
  match xs, ys with
  | x :: xs, y :: ys => seq_cmp (compare_expr x y) (compare_elements xs ys)
  | _, _ => pure_cmp Equal
  end.
Definition compare_expr_vector (xs ys : list Expr) : comparer :=
  seq_cmp (pure_cmp (compare_scalar (Z.of_nat (List.length xs)) (Z.of_nat (List.length ys))))
    (compare_elements xs ys).

Fixpoint compare_type_list (xs ys : list Ty) : CmpResult :=
  match xs, ys with
  | x :: xs, y :: ys => and_then (compare_types x y) (compare_type_list xs ys)
  | _, _ => Equal
  end.
Fixpoint compare_bounds (xs ys : list Range) : comparer :=
  match xs, ys with
  | x :: xs, y :: ys =>
      seq_cmp (compare_expr (range_min x) (range_min y))
        (seq_cmp (compare_expr (range_extent x) (range_extent y)) (compare_bounds xs ys))
  | _, _ => pure_cmp Equal
  end.

(** [compare_stmt]; the identity test only returns early on equal statements, and
    [same_stmt] is that test. *)
Context (same_stmt : Stmt -> Stmt -> bool).

Fixpoint compare_stmt (a b : Stmt) {struct a} : comparer :=
  let compare_opt (a b : StmtRef) : comparer :=
    match a, b with
    | Some a, Some b => compare_stmt a b
    | None, None => pure_cmp Equal
    | None, Some _ => pure_cmp LessThan
    | Some _, None => pure_cmp GreaterThan
    end in
  if same_stmt a b then pure_cmp Equal
  else
    seq_cmp (pure_cmp (compare_scalar (stmt_type_info a) (stmt_type_info b)))
      match a, b with
      | LetStmt xn xv xb, LetStmt yn yv yb =>
          seq_cmp (pure_cmp (compare_names xn yn)) (seq_cmp (compare_expr xv yv) (compare_stmt xb yb))
      | AssertStmt xc xm, AssertStmt yc ym =>
          seq_cmp (compare_expr xc yc) (compare_expr xm ym)
      | ProducerConsumer xn xp xu xc, ProducerConsumer yn yp yu yc =>
          seq_cmp (pure_cmp (compare_names xn yn))
            (seq_cmp (compare_stmt xp yp) (seq_cmp (compare_opt xu yu) (compare_stmt xc yc)))
      | For xn xm xe xf _ xb, For yn ym ye yf _ yb =>
          seq_cmp (pure_cmp (compare_names xn yn))
            (seq_cmp (pure_cmp (compare_scalar (for_type_num xf) (for_type_num yf)))
              (seq_cmp (compare_expr xm ym) (seq_cmp (compare_expr xe ye) (compare_stmt xb yb))))
      | Store xn xv xi _, Store yn yv yi _ =>
          seq_cmp (pure_cmp (compare_names xn yn)) (seq_cmp (compare_expr xv yv) (compare_expr xi yi))
      | Provide xn xv xa, Provide yn yv ya =>
          seq_cmp (pure_cmp (compare_names xn yn))
            (seq_cmp (compare_expr_vector xa ya) (compare_expr_vector xv yv))
      | Allocate xn _ xe xc xnew xfree xb, Allocate yn _ ye yc ynew yfree yb =>
          seq_cmp (pure_cmp (compare_names xn yn))
            (seq_cmp (compare_expr_vector xe ye)
              (seq_cmp (compare_stmt xb yb)
                (seq_cmp (compare_expr xc yc)
                  (seq_cmp (compare_ref xnew ynew) (pure_cmp (compare_names xfree yfree))))))
      | Realize xn xt xbd xc xb, Realize yn yt ybd yc yb =>
          seq_cmp (pure_cmp (compare_names xn yn))
            (seq_cmp (pure_cmp (compare_scalar (Z.of_nat (List.length xt)) (Z.of_nat (List.length yt))))
              (seq_cmp (pure_cmp (compare_scalar (Z.of_nat (List.length xbd)) (Z.of_nat (List.length ybd))))
                (seq_cmp (pure_cmp (compare_type_list xt yt))
                  (seq_cmp (compare_bounds xbd ybd)
                    (seq_cmp (compare_stmt xb yb) (compare_expr xc yc))))))
      | Block xf xr, Block yf yr => seq_cmp (compare_stmt xf yf) (compare_stmt xr yr)
      | Free xn, Free yn => pure_cmp (compare_names xn yn)
      | IfThenElse xc xt xe, IfThenElse yc yt ye =>
          seq_cmp (compare_expr xc yc) (seq_cmp (compare_stmt xt yt) (compare_opt xe ye))
      | Evaluate x, Evaluate y => compare_expr x y
      | _, _ => pure_cmp Unknown
      end.

Definition compare_stmt_ref (a b : StmtRef) : comparer :=
  match a, b with
  | Some a, Some b => compare_stmt a b
  | None, None => pure_cmp Equal
  | None, Some _ => pure_cmp LessThan
  | Some _, None => pure_cmp GreaterThan
  end.

(** ** The functions of the header *)
Definition equal (a b : ExprRef) : bool := bool_decide (fst (compare_ref a b None) = Equal).
Definition graph_equal (a b : ExprRef) : bool :=
  bool_decide (fst (compare_ref a b (Some (cache_new 8))) = Equal).
Definition equal_stmt (a b : StmtRef) : bool :=
  bool_decide (fst (compare_stmt_ref a b None) = Equal).
Definition graph_equal_stmt (a b : StmtRef) : bool :=
  bool_decide (fst (compare_stmt_ref a b (Some (cache_new 8))) = Equal).
Definition IRDeepCompare (a b : ExprRef) : bool :=
  bool_decide (fst (compare_ref a b None) = LessThan).
Definition IRDeepCompare_stmt (a b : StmtRef) : bool :=
  bool_decide (fst (compare_stmt_ref a b None) = LessThan).
(** [ExprWithCompareCache::operator<] also updates the cache. *)
Definition ExprWithCompareCache_lt (a b : ExprRef) (cache : cstate) : bool * cstate :=
  let '(r, c) := compare_ref a b cache in (bool_decide (r = LessThan), c).
End Cache.

(** * Lexicographic keys

    A comparison of two nodes is the lexicographic comparison of two lists of
    integers. *)
Fixpoint lexZ (l k : list Z) : comparison :=
  match l, k with
  | [], [] => Eq
  | [], _ :: _ => Lt
  | _ :: _, [] => Gt
  | x :: l, y :: k => match Z.compare x y with Eq => lexZ l k | c => c end
  end.

Definition then_ (c k : comparison) : comparison := match c with Eq => k | _ => c end.

Lemma lexZ_refl l : lexZ l l = Eq.
Proof. induction l as [|x l IH]; simpl; [done|]. by rewrite Z.compare_refl. Qed.

Lemma lexZ_Eq l k : lexZ l k = Eq <-> l = k.
Proof.
  split; [|intros ->; apply lexZ_refl]. revert k.
  induction l as [|x l IH]; intros [|y k]; simpl; try done.
  destruct (Z.compare_spec x y) as [->| |]; try done. intros H. f_equal. by apply IH.
Qed.

Lemma lexZ_antisym l k : lexZ k l = CompOpp (lexZ l k).
Proof.
  revert k. induction l as [|x l IH]; intros [|y k]; simpl; try done.
  rewrite (Z.compare_antisym x y). destruct (x ?= y); simpl; auto.
Qed.

Lemma lexZ_trans l k m : lexZ l k = Lt -> lexZ k m = Lt -> lexZ l m = Lt.
Proof.
  revert k m. induction l as [|x l IH]; intros [|y k] [|z m]; simpl; try done.
  destruct (Z.compare_spec x y), (Z.compare_spec y z); subst; try done;
    intros; rewrite ?Z.compare_refl; try (by eapply IH);
    by (rewrite (proj2 (Z.compare_lt_iff _ _)) by lia).
Qed.

(** Neither list is a proper prefix of the other, so what follows them does not
    matter unless they are equal. *)
Definition decided (l k : list Z) : Prop :=
  forall l' k', lexZ (l ++ l') (k ++ k') = then_ (lexZ l k) (lexZ l' k').

Lemma decided_refl l : decided l l.
Proof. intros l' k'. rewrite lexZ_refl. induction l as [|x l IH]; simpl; [done|]. by rewrite Z.compare_refl. Qed.

Lemma decided_one x y : decided [x] [y].
Proof. intros l' k'. simpl. by destruct (x ?= y). Qed.

Lemma decided_app l k l' k' :
  decided l k -> (lexZ l k = Eq -> decided l' k') -> decided (l ++ l') (k ++ k').
Proof.
  intros H1 H2 r s. rewrite <- !app_assoc, !H1. destruct (lexZ l k) eqn:E; simpl; [|done..].
  by apply H2.
Qed.

Definition key_string (s : string) : list Z :=
  ((fun a => Z.of_N (Ascii.N_of_ascii a) + 1) <$> list_ascii_of_string s) ++ [0].

(** The names of loads are compared in the opposite direction. *)
Definition key_string_rev (s : string) : list Z := Z.opp <$> key_string s.

Definition key_float (f : spec_float) : list Z :=
  match f with
  | S754_infinity true => [-2; 0; 0]
  | S754_finite true m e => [-1; - e; Z.neg m]
  | S754_zero _ => [0; 0; 0]
  | S754_finite false m e => [1; e; Z.pos m]
  | S754_infinity false => [2; 0; 0]
  | S754_nan => [3; 0; 0]
  end.

Definition key_type (t : Ty) : list Z := [type_code_num (code t); bits t; lanes t].

Fixpoint key (e : Expr) : list Z :=
  [type_info e] ++ key_type (type e) ++
  match e with
  | IntImm _ v | UIntImm _ v => [v]
  | FloatImm _ f => key_float f
  | StringImm s => key_string s
  | Cast _ v => key v
  | Var _ n _ _ _ => key_string n
  | Bin _ a b => key a ++ key b
  | Not a => key a
  | Select c t f => key c ++ key t ++ key f
  | Load _ n i _ _ => key_string_rev n ++ key i
  | Ramp b s _ => key b ++ key s
  | Broadcast v _ => key v
  | Call _ n args ct _ vi _ _ =>
      key_string n ++ [call_type_num ct] ++ [vi] ++ [Z.of_nat (List.length args)] ++ concat (map key args)
  | Let n v b => key_string n ++ key v ++ key b
  end.

Fixpoint nan_free (e : Expr) : bool :=
  match e with
  | IntImm _ _ | UIntImm _ _ | StringImm _ | Var _ _ _ _ _ => true
  | FloatImm _ f => match f with S754_nan => false | _ => true end
  | Cast _ v | Not v | Broadcast v _ | Load _ _ v _ _ => nan_free v
  | Bin _ a b | Ramp a b _ | Let _ a b => nan_free a && nan_free b
  | Select c t f => nan_free c && nan_free t && nan_free f
  | Call _ _ args _ _ _ _ _ => forallb nan_free args
  end.

Lemma compare_scalar_key a b : compare_scalar a b = of_comparison (lexZ [a] [b]).
Proof.
  unfold compare_scalar. simpl. destruct (Z.compare_spec a b) as [->|H|H].
  - by rewrite Z.ltb_irrefl.
  - by rewrite (proj2 (Z.ltb_lt a b)).
  - by rewrite (proj2 (Z.ltb_ge a b)), (proj2 (Z.ltb_lt b a)) by lia.
Qed.

Lemma ascii_compare_key a b :
  Ascii.compare a b = (Z.of_N (Ascii.N_of_ascii a) + 1 ?= Z.of_N (Ascii.N_of_ascii b) + 1).
Proof.
  unfold Ascii.compare.
  destruct (N.compare_spec (Ascii.N_of_ascii a) (Ascii.N_of_ascii b)) as [H|H|H]; symmetry.
  - by rewrite H, Z.compare_refl.
  - apply Z.compare_lt_iff. lia.
  - apply Z.compare_gt_iff. lia.
Qed.

Lemma key_string_cons c s :
  key_string (String c s) = (Z.of_N (Ascii.N_of_ascii c) + 1) :: key_string s.
Proof. done. Qed.

Lemma key_string_lex a b l k :
  lexZ (key_string a ++ l) (key_string b ++ k) = then_ (String.compare a b) (lexZ l k).
Proof.
  assert (Hpos : forall c, 0 < Z.of_N (Ascii.N_of_ascii c) + 1) by (intros; lia).
  revert b. induction a as [|c a IH]; intros [|d b];
    rewrite ?key_string_cons; cbn [app lexZ String.compare].
  - done.
  - specialize (Hpos d). change (key_string "") with [0]. cbn [app lexZ].
    by rewrite (proj2 (Z.compare_lt_iff 0 _)).
  - specialize (Hpos c). change (key_string "") with [0]. cbn [app lexZ].
    by rewrite (proj2 (Z.compare_gt_iff _ 0)).
  - rewrite <- ascii_compare_key. destruct (Ascii.compare c d); [apply IH|done..].
Qed.

Lemma compare_names_key a b :
  compare_names a b = of_comparison (lexZ (key_string a) (key_string b)) /\
  decided (key_string a) (key_string b).
Proof.
  assert (H : lexZ (key_string a) (key_string b) = String.compare a b).
  { pose proof (key_string_lex a b [] []) as H. rewrite !app_nil_r in H. rewrite H. by destruct (String.compare a b). }
  split; [unfold compare_names; by rewrite H|]. intros l k. by rewrite key_string_lex, H.
Qed.

Lemma key_string_rev_lex a b l k :
  lexZ (key_string_rev a ++ l) (key_string_rev b ++ k) = then_ (String.compare b a) (lexZ l k).
Proof.
  assert (Hpos : forall c, - (Z.of_N (Ascii.N_of_ascii c) + 1) < 0) by (intros; lia).
  unfold key_string_rev. revert b. induction a as [|c a IH]; intros [|d b];
    rewrite ?key_string_cons, ?fmap_cons; cbn [app lexZ String.compare].
  - done.
  - specialize (Hpos d). change (Z.opp <$> key_string "") with [0]. cbn [app lexZ].
    by rewrite (proj2 (Z.compare_gt_iff 0 _)).
  - specialize (Hpos c). change (Z.opp <$> key_string "") with [0]. cbn [app lexZ].
    by rewrite (proj2 (Z.compare_lt_iff _ 0)).
  - rewrite Z.compare_opp, <- ascii_compare_key. destruct (Ascii.compare d c); [apply IH|done..].
Qed.

Lemma compare_names_rev_key a b :
  compare_names b a = of_comparison (lexZ (key_string_rev a) (key_string_rev b)) /\
  decided (key_string_rev a) (key_string_rev b).
Proof.
  assert (H : lexZ (key_string_rev a) (key_string_rev b) = String.compare b a).
  { pose proof (key_string_rev_lex a b [] []) as H. rewrite !app_nil_r in H. rewrite H. by destruct (String.compare b a). }
  split; [unfold compare_names; by rewrite H|]. intros l k. by rewrite key_string_rev_lex, H.
Qed.

Lemma compare_double_key a b : a <> S754_nan -> b <> S754_nan ->
  compare_double a b = of_comparison (lexZ (key_float a) (key_float b)) /\
  decided (key_float a) (key_float b).
Proof.
  intros Ha Hb. assert (Hs : forall x y z u v w, decided [x; y; z] [u; v; w]).
  { intros. apply (decided_app [x] [u] [y; z] [v; w]); [apply decided_one|intros _].
    apply (decided_app [y] [v] [z] [w]); [apply decided_one|intros _; apply decided_one]. }
  assert (Hc : forall a b, a <> S754_nan -> b <> S754_nan ->
            SFcompare a b = Some (lexZ (key_float a) (key_float b))).
  { clear. intros a b Ha Hb.
    destruct a as [sa|sa| |sa ma ea], b as [sb|sb| |sb mb eb]; try done;
      repeat match goal with s : bool |- _ => destruct s end; try done; simpl.
    - rewrite Z.compare_opp, (Z.compare_antisym ea eb).
      destruct (ea ?= eb); simpl; [|done..].
      unfold Pos.compare. by destruct (PosDef.Pos.compare_cont Eq ma mb).
    - destruct (ea ?= eb); [|done..]. unfold Pos.compare. by destruct (PosDef.Pos.compare_cont Eq ma mb). }
  split; [|destruct a as [|[]| |[]], b as [|[]| |[]]; apply Hs].
  unfold compare_double, float_ltb. rewrite !Hc by done. rewrite (lexZ_antisym (key_float a)).
  by destruct (lexZ (key_float a) (key_float b)).
Qed.

(** * The comparer computes the order of the keys

    The identity test may be any test that only holds of equal nodes, and the
    cache may hold any pairs of nodes with equal keys. *)
Section Comparer.
Context (addr : Expr -> Z) (same_as : Expr -> Expr -> bool).
Hypothesis same_as_sound : forall a b, same_as a b = true -> a = b.

Definition cache_ok (c : cstate) : Prop :=
  match c with
  | Some c => forall h x y, entries c !! h = Some (x, y) -> key x = key y
  | None => True
  end.

Definition implements (x : comparer) (l k : list Z) : Prop :=
  forall c, cache_ok c -> fst (x c) = of_comparison (lexZ l k) /\ cache_ok (snd (x c)).

Definition good (x : comparer) (l k : list Z) : Prop := implements x l k /\ decided l k.

Lemma good_pure r l k : r = of_comparison (lexZ l k) /\ decided l k -> good (pure_cmp r) l k.
Proof. intros [-> H]. split; [|done]. by intros c Hc. Qed.

Lemma good_scalar x y : good (pure_cmp (compare_scalar x y)) [x] [y].
Proof. apply good_pure. split; [apply compare_scalar_key|apply decided_one]. Qed.

Lemma good_names x y : good (pure_cmp (compare_names x y)) (key_string x) (key_string y).
Proof. apply good_pure, compare_names_key. Qed.

Lemma good_nil : good (pure_cmp Equal) [] [].
Proof. apply good_pure. split; [done|apply decided_refl]. Qed.

Lemma good_seq x y l k l' k' :
  good x l k -> (lexZ l k = Eq -> good y l' k') -> good (seq_cmp x y) (l ++ l') (k ++ k').
Proof.
  intros [Hx Hd] Hy. split.
  - intros c Hc. unfold seq_cmp. destruct (Hx c Hc) as [H1 H2]. rewrite Hd.
    destruct (x c) as [r c']. simpl in *. subst r.
    destruct (lexZ l k) eqn:E; simpl; [|done..]. by apply Hy.
  - apply decided_app; [done|]. intros E. by apply Hy.
Qed.

Lemma good_seq' x y l k l' k' :
  good x l k -> good y l' k' -> good (seq_cmp x y) (l ++ l') (k ++ k').
Proof. intros Hx Hy. by apply good_seq. Qed.

Lemma compare_types_key t u :
  compare_types t u = of_comparison (lexZ (key_type t) (key_type u)).
Proof.
  unfold compare_types, key_type. rewrite !compare_scalar_key. simpl.
  by destruct (type_code_num (code t) ?= _), (bits t ?= bits u), (lanes t ?= lanes u).
Qed.

Definition header (e : Expr) : list Z := [type_info e] ++ key_type (type e).

Lemma decided_length l k : List.length l = List.length k -> decided l k.
Proof.
  revert k. induction l as [|x l IH]; intros [|y k] H; simplify_eq/=; [by apply decided_refl|].
  apply (decided_app [x] [y]); [apply decided_one|]. intros _. by apply IH.
Qed.

Lemma state_contains_key c a b :
  cache_ok c -> state_contains addr same_as c a b = true -> key a = key b.
Proof.
  destruct c as [c|]; [|done]. simpl. intros Hc. unfold cache_contains.
  destruct (entries c !! _) as [[x y]|] eqn:E; [|done]. apply Hc in E.
  intros H. apply orb_true_iff in H as [H|H]; apply andb_true_iff in H as [H1 H2];
    apply same_as_sound in H1, H2; congruence.
Qed.

Lemma state_insert_ok c a b : cache_ok c -> key a = key b -> cache_ok (state_insert addr c a b).
Proof.
  destruct c as [c|]; [|done]. simpl. intros Hc Hk h x y.
  destruct (decide (h = cache_hash addr (cache_bits c) a b)) as [->|Hn].
  - rewrite lookup_insert_eq. naive_solver.
  - rewrite lookup_insert_ne by done. apply Hc.
Qed.

Lemma good_nodes a b visit l k :
  key a = header a ++ l -> key b = header b ++ k ->
  (header a = header b -> good visit l k) -> good (compare_nodes addr same_as a b visit) (key a) (key b).
Proof.
  intros Ha Hb Hv.
  assert (Hd : decided (header a) (header b)) by (by apply decided_length).
  split; [|rewrite Ha, Hb; apply decided_app; [done|]; intros E; apply lexZ_Eq in E; by apply Hv].
  intros c Hc. unfold compare_nodes.
  destruct (same_as a b) eqn:Es.
  { apply same_as_sound in Es as ->. rewrite lexZ_refl. done. }
  assert (Hh : and_then (compare_scalar (type_info a) (type_info b)) (compare_types (type a) (type b)) =
               of_comparison (lexZ (header a) (header b))).
  { rewrite compare_scalar_key, compare_types_key. simpl. by destruct (type_info a ?= type_info b). }
  rewrite Hh. destruct (lexZ (header a) (header b)) eqn:E;
    [|rewrite Ha, Hb, Hd, E; done..]. simpl.
  destruct (state_contains addr same_as c a b) eqn:Ec.
  { apply state_contains_key in Ec; [|done]. by rewrite Ec, lexZ_refl. }
  apply lexZ_Eq in E. destruct (Hv E) as [Hi _]. destruct (Hi c Hc) as [H1 H2].
  assert (Hk : lexZ (key a) (key b) = lexZ l k) by (by rewrite Ha, Hb, Hd, E, lexZ_refl).
  destruct (visit c) as [r c']. simpl in *. subst r. rewrite Hk. split; [done|].
  destruct (lexZ l k) eqn:El; simpl; [|done..]. apply state_insert_ok; [done|]. by apply lexZ_Eq.
Qed.

Lemma good_elements xs ys :
  List.length xs = List.length ys ->
  Forall (fun x => forall y, nan_free x = true -> nan_free y = true ->
            good (compare_expr addr same_as x y) (key x) (key y)) xs ->
  forallb nan_free xs = true -> forallb nan_free ys = true ->
  good (compare_elements addr same_as xs ys) (concat (map key xs)) (concat (map key ys)).
Proof.
  intros Hl Hf. revert ys Hl. induction Hf as [|x xs Hx Hf IH]; intros [|y ys] Hl Hn Hm; simplify_eq/=.
  - apply good_nil.
  - apply andb_true_iff in Hn as [Hn1 Hn2], Hm as [Hm1 Hm2]. apply good_seq'; auto.
Qed.

Lemma binop_type_info_inj op op' : binop_type_info op = binop_type_info op' -> op = op'.
Proof. by destruct op, op'. Qed.

Definition key_body (e : Expr) : list Z := skipn 4 (key e).

Lemma key_header e : key e = header e ++ key_body e.
Proof. by destruct e. Qed.

Lemma header_kind a b : header a = header b -> type_info a = type_info b.
Proof. by intros [=]. Qed.

Notation compare_expr := (compare_expr addr same_as).
Notation compare_elements := (compare_elements addr same_as).

(** One unfolding of [compare_expr], on two nodes of one class. *)
Definition compare_visit (a b : Expr) : comparer :=
  match a, b with
  | IntImm _ x, IntImm _ y | UIntImm _ x, UIntImm _ y => pure_cmp (compare_scalar x y)
  | FloatImm _ x, FloatImm _ y => pure_cmp (compare_double x y)
  | StringImm x, StringImm y | Var _ x _ _ _, Var _ y _ _ _ => pure_cmp (compare_names x y)
  | Cast _ x, Cast _ y | Not x, Not y | Broadcast x _, Broadcast y _ => compare_expr x y
  | Bin _ xa xb, Bin _ ya yb | Ramp xa xb _, Ramp ya yb _ =>
      seq_cmp (compare_expr xa ya) (compare_expr xb yb)
  | Select xc xt xf, Select yc yt yf =>
      seq_cmp (compare_expr xc yc) (seq_cmp (compare_expr xt yt) (compare_expr xf yf))
  | Load _ xn xi _ _, Load _ yn yi _ _ =>
      seq_cmp (pure_cmp (compare_names yn xn)) (compare_expr xi yi)
  | Call _ xn xargs xct _ xvi _ _, Call _ yn yargs yct _ yvi _ _ =>
      seq_cmp (pure_cmp (compare_names xn yn))
        (seq_cmp (pure_cmp (compare_scalar (call_type_num xct) (call_type_num yct)))
          (seq_cmp (pure_cmp (compare_scalar xvi yvi))
            (seq_cmp (pure_cmp (compare_scalar (Z.of_nat (List.length xargs)) (Z.of_nat (List.length yargs))))
              (compare_elements xargs yargs))))
  | Let xn xv xb, Let yn yv yb =>
      seq_cmp (pure_cmp (compare_names xn yn)) (seq_cmp (compare_expr xv yv) (compare_expr xb yb))
  | _, _ => pure_cmp Unknown
  end.

Lemma compare_expr_unfold a b :
  compare_expr a b = compare_nodes addr same_as a b (compare_visit a b).
Proof. by destruct a, b. Qed.

Lemma good_length {A} (xs ys : list A) x l k :
  (List.length xs = List.length ys -> good x l k) ->
  good (seq_cmp (pure_cmp (compare_scalar (Z.of_nat (List.length xs)) (Z.of_nat (List.length ys)))) x)
    (Z.of_nat (List.length xs) :: l) (Z.of_nat (List.length ys) :: k).
Proof.
  intros H. apply (good_seq _ _ [_] [_]); [apply good_scalar|].
  intros E. apply lexZ_Eq in E. apply H. injection E. lia.
Qed.

Lemma compare_expr_good a b :
  nan_free a = true -> nan_free b = true -> good (compare_expr a b) (key a) (key b).
Proof.
  revert b. induction a using Expr_ind'; intros b' Ha Hb; rewrite compare_expr_unfold;
    destruct b'; (eapply good_nodes; [apply key_header..|]); intros Hh; apply header_kind in Hh;
    try (by destruct op); try (by destruct op0); try done; clear Hh; simpl in Ha, Hb;
    rewrite ?andb_true_iff in Ha, Hb; destruct_and?; cbn [key_body skipn key app key_type compare_visit];
    unfold drop; auto using good_scalar, good_names, good_seq'.
  - apply good_pure, compare_double_key; intros ->; done.
  - apply good_seq'; [apply good_pure, compare_names_rev_key|auto].
  - apply good_seq'; [apply good_names|].
    apply (good_seq' _ _ [_] [_]); [apply good_scalar|].
    apply (good_seq' _ _ [_] [_]); [apply good_scalar|].
    apply good_length. intros Hl. by apply good_elements.
Qed.

Definition nan_free_ref (e : ExprRef) : bool := match e with Some e => nan_free e | None => true end.
Definition key_ref (e : ExprRef) : list Z := match e with Some e => 1 :: key e | None => [0] end.

Lemma compare_ref_good a b :
  nan_free_ref a = true -> nan_free_ref b = true ->
  good (compare_ref addr same_as a b) (key_ref a) (key_ref b).
Proof.
  destruct a as [a|], b as [b|]; simpl; intros Ha Hb.
  - destruct (compare_expr_good a b Ha Hb) as [Hi Hd]. split; [exact Hi|].
    apply (decided_app [1] [1]); [apply decided_one|done].
  - apply good_pure. split; [done|]. by intros l k.
  - apply good_pure. split; [done|]. by intros l k.
  - apply good_pure. split; [done|]. apply decided_refl.
Qed.

Lemma compare_ref_result a b c :
  nan_free_ref a = true -> nan_free_ref b = true -> cache_ok c ->
  fst (compare_ref addr same_as a b c) = of_comparison (lexZ (key_ref a) (key_ref b)) /\
  cache_ok (snd (compare_ref addr same_as a b c)).
Proof. intros Ha Hb Hc. by apply compare_ref_good. Qed.
End Comparer.

(** * What the comparison looks at

    [erase] forgets everything the comparer does not look at: the handle part of
    types, the images, parameters, reduction domains and functions attached to
    nodes, and the sign of a floating-point zero. *)
Definition erase_type (t : Ty) : Ty := mkTy (code t) (bits t) (lanes t) None.

Definition erase_float (f : spec_float) : spec_float :=
  match f with S754_zero _ => S754_zero false | _ => f end.

Fixpoint erase (e : Expr) : Expr :=
  match e with
  | IntImm t v => IntImm (erase_type t) v
  | UIntImm t v => UIntImm (erase_type t) v
  | FloatImm t f => FloatImm (erase_type t) (erase_float f)
  | StringImm s => StringImm s
  | Cast t v => Cast (erase_type t) (erase v)
  | Var t n _ _ _ => Var (erase_type t) n None None None
  | Bin op a b => Bin op (erase a) (erase b)
  | Not a => Not (erase a)
  | Select c t f => Select (erase c) (erase t) (erase f)
  | Load t n i _ _ => Load (erase_type t) n (erase i) None None
  | Ramp b s l => Ramp (erase b) (erase s) (uwrap 16 l)
  | Broadcast v l => Broadcast (erase v) (uwrap 16 l)
  | Call t n args ct _ vi _ _ => Call (erase_type t) n (map erase args) ct None vi None None
  | Let n v b => Let n (erase v) (erase b)
  end.

Definition erase_ref (e : ExprRef) : ExprRef := erase <$> e.

Lemma erase_key_type e : key_type (type (erase e)) = key_type (type e).
Proof.
  induction e using Expr_ind'; simpl; try done.
  - destruct (is_comparison op || is_logical op); [|done]. injection IHe1. by intros -> _ _.
  - injection IHe. by intros -> _ _.
  - injection IHe1. unfold key_type, with_lanes, Type_make. simpl. by intros _ -> ->; rewrite uwrap_uwrap.
  - injection IHe. unfold key_type, with_lanes, Type_make. simpl. by intros _ -> ->; rewrite uwrap_uwrap.
Qed.

Lemma erase_header e : header (erase e) = header e.
Proof.
  unfold header. rewrite erase_key_type. by destruct e.
Qed.

Lemma map_key_erase args :
  Forall (fun e => key (erase e) = key e) args -> map key (map erase args) = map key args.
Proof. induction 1; simpl; congruence. Qed.

Lemma key_erase e : key (erase e) = key e.
Proof.
  induction e using Expr_ind'; rewrite key_header, (key_header (_ : Expr)), erase_header; f_equal;
    cbn [key_body erase key key_type app skipn]; unfold drop; try congruence.
  - by destruct v.
  - by rewrite length_map, map_key_erase.
Qed.

Lemma app_inj_key_string a b l k :
  key_string a ++ l = key_string b ++ k -> a = b /\ l = k.
Proof.
  intros H. pose proof (key_string_lex a b l k) as E. rewrite H, lexZ_refl in E.
  destruct (String.compare a b) eqn:Ec; try done. 
  apply String.compare_eq_iff in Ec as ->. by apply app_inv_head in H.
Qed.

Lemma app_inj_key_string_rev a b l k :
  key_string_rev a ++ l = key_string_rev b ++ k -> a = b /\ l = k.
Proof.
  intros H. pose proof (key_string_rev_lex a b l k) as E. rewrite H, lexZ_refl in E.
  destruct (String.compare b a) eqn:Ec; try done.
  apply String.compare_eq_iff in Ec as ->. by apply app_inv_head in H.
Qed.

Lemma app_inj_key_float a b l k :
  key_float a ++ l = key_float b ++ k -> erase_float a = erase_float b /\ l = k.
Proof.
  destruct a as [[]|[]| |[]], b as [[]|[]| |[]]; intros [=]; subst; try done.
  by assert (e = e0) as -> by lia.
Qed.

Lemma key_type_inj t u : key_type t = key_type u -> erase_type t = erase_type u.
Proof.
  destruct t as [c ? ? ?], u as [d ? ? ?]. unfold erase_type. simpl. intros [= Hc -> ->].
  f_equal. by destruct c, d.
Qed.

Lemma call_type_num_inj c d : call_type_num c = call_type_num d -> c = d.
Proof. by destruct c, d. Qed.

Lemma key_list_inj xs ys l k :
  Forall (fun x => forall y l k, key x ++ l = key y ++ k -> erase x = erase y /\ l = k) xs ->
  List.length xs = List.length ys -> concat (map key xs) ++ l = concat (map key ys) ++ k ->
  map erase xs = map erase ys /\ l = k.
Proof.
  intros Hf. revert ys. induction Hf as [|x xs Hx Hf IH]; intros [|y ys] Hl H; simplify_eq/=; [done|].
  rewrite <- !app_assoc in H. apply Hx in H as [-> H]. apply IH in H as [-> ->]; [done|lia].
Qed.

Lemma key_split a b l k :
  key a ++ l = key b ++ k ->
  type_info a = type_info b /\ key_type (type a) = key_type (type b) /\
  key_body a ++ l = key_body b ++ k.
Proof.
  rewrite !key_header. unfold header. intros [= H1 H2 H3 H4 H5]. unfold key_type. by rewrite H2, H3, H4.
Qed.

Lemma key_inj a b l k : key a ++ l = key b ++ k -> erase a = erase b /\ l = k.
Proof.
  revert b l k. induction a using Expr_ind'; intros b' l0 k0 E; apply key_split in E as (Hi & Ht & E);
    destruct b'; try done; try (by destruct op); try (by destruct op0);
    cbn [key_body key key_type app skipn erase type] in *; unfold drop in E;
    rewrite <- ?app_assoc in E; try apply key_type_inj in Ht;
    repeat match goal with
    | H : key_string _ ++ _ = _ |- _ => apply app_inj_key_string in H as [-> H]
    | H : key_string_rev _ ++ _ = _ |- _ => apply app_inj_key_string_rev in H as [-> H]
    | H : key_float _ ++ _ = _ |- _ => apply app_inj_key_float in H as [-> H]
    | IH : forall b l k, key ?a ++ l = key b ++ k -> _, H : key ?a ++ _ = _ |- _ => apply IH in H as [-> H]
    end; try (split; congruence).
  - apply binop_type_info_inj in Hi as ->. split; congruence.
  - injection Ht as _ _ Ht. split; congruence.
  - injection Ht as _ _ Ht. split; congruence.
  - injection E as Hc Hv Hl E. apply call_type_num_inj in Hc as ->. 
    apply key_list_inj in E as [-> ->]; [|done|lia]. split; congruence.
Qed.

Lemma key_erase_iff a b : key a = key b <-> erase a = erase b.
Proof.
  split; intros H.
  - eapply (key_inj _ _ [] []). by rewrite H.
  - by rewrite <- (key_erase a), <- (key_erase b), H.
Qed.

Lemma key_ref_erase a b : key_ref a = key_ref b <-> erase_ref a = erase_ref b.
Proof.
  destruct a as [a|], b as [b|]; simpl; try done.
  pose proof (key_erase_iff a b). split; intros [=]; f_equal; naive_solver.
Qed.

(** * The order and the equality *)

Section Order.
Context (addr : Expr -> Z) (same_as : Expr -> Expr -> bool).
Hypothesis same_as_sound : forall a b, same_as a b = true -> a = b.

Notation IRDeepCompare := (IRDeepCompare addr same_as).
Notation equal := (equal addr same_as).

Lemma of_comparison_Lt c : of_comparison c = LessThan <-> c = Lt.
Proof. by destruct c. Qed.

Lemma of_comparison_Equal c : of_comparison c = Equal <-> c = Eq.
Proof. by destruct c. Qed.

Lemma IRDeepCompare_key a b :
  nan_free_ref a = true -> nan_free_ref b = true ->
  IRDeepCompare a b = true <-> lexZ (key_ref a) (key_ref b) = Lt.
Proof.
  intros Ha Hb. unfold Equality.IRDeepCompare. rewrite bool_decide_eq_true.
  destruct (compare_ref_result addr same_as same_as_sound a b None) as [-> _]; [done..|].
  apply of_comparison_Lt.
Qed.

Lemma equal_key a b :
  nan_free_ref a = true -> nan_free_ref b = true -> equal a b = true <-> key_ref a = key_ref b.
Proof.
  intros Ha Hb. unfold Equality.equal. rewrite bool_decide_eq_true.
  destruct (compare_ref_result addr same_as same_as_sound a b None) as [-> _]; [done..|].
  rewrite of_comparison_Equal. apply lexZ_Eq.
Qed.

(** C25. On expressions without NaN constants [IRDeepCompare] is a strict weak
    order, as [std::map] and [std::set] require of it: irreflexive, transitive,
    and two expressions neither of which precedes the other are the ones
    [equal] identifies, so incomparability is an equivalence.  It does not
    depend on how much sharing the identity test sees. *)
Theorem IRDeepCompare_strict_weak_order a b c :
  nan_free_ref a = true -> nan_free_ref b = true -> nan_free_ref c = true ->
  IRDeepCompare a a = false /\
  (IRDeepCompare a b = true -> IRDeepCompare b c = true -> IRDeepCompare a c = true) /\
  (IRDeepCompare a b = true -> IRDeepCompare b a = false) /\
  (IRDeepCompare a b = false -> IRDeepCompare b a = false -> equal a b = true) /\
  (equal a b = true -> IRDeepCompare a c = IRDeepCompare b c /\ IRDeepCompare c a = IRDeepCompare c b).
Proof.
  intros Ha Hb Hc. 
  assert (Hlt : forall x y, nan_free_ref x = true -> nan_free_ref y = true ->
            IRDeepCompare x y = bool_decide (lexZ (key_ref x) (key_ref y) = Lt)).
  { intros x y Hx Hy. apply eq_bool_prop_intro. rewrite !Is_true_true, bool_decide_eq_true.
    by apply IRDeepCompare_key. }
  rewrite equal_key, !Hlt, !bool_decide_eq_true, !bool_decide_eq_false, lexZ_refl by done.
  split_and!; [done|apply lexZ_trans| | |].
  - intros H. rewrite lexZ_antisym, H. done.
  - rewrite (lexZ_antisym (key_ref a)). intros H1 H2. apply lexZ_Eq.
    by destruct (lexZ (key_ref a) (key_ref b)).
  - by intros ->.
Qed.

(** [equal] holds of exactly the expressions that differ only in what the
    comparer never looks at: the C++ part of handle types, the image, parameter,
    reduction domain and function attached to a node, and the sign of a zero. *)
Theorem equal_exact a b :
  nan_free_ref a = true -> nan_free_ref b = true ->
  equal a b = true <-> erase_ref a = erase_ref b.
Proof. intros Ha Hb. rewrite equal_key by done. apply key_ref_erase. Qed.

(** C34. The cache changes no answer: whatever the addresses of the nodes, so
    whatever the hash does and whichever pairs evict one another, [graph_equal]
    is [equal], and a comparison with a cache of known-equal pairs answers as
    [IRDeepCompare] does and leaves a cache of known-equal pairs. *)
Theorem cache_transparent a b cache :
  nan_free_ref a = true -> nan_free_ref b = true -> cache_ok cache ->
  graph_equal addr same_as a b = equal a b /\
  fst (ExprWithCompareCache_lt addr same_as a b cache) = IRDeepCompare a b /\
  cache_ok (snd (ExprWithCompareCache_lt addr same_as a b cache)).
Proof.
  intros Ha Hb Hc.
  pose proof (compare_ref_result addr same_as same_as_sound a b) as H.
  unfold graph_equal, Equality.equal, ExprWithCompareCache_lt, Equality.IRDeepCompare.
  destruct (H None Ha Hb I) as [-> _], (H (Some (cache_new 8)) Ha Hb) as [-> _].
  { by intros h x y. }
  destruct (H cache Ha Hb Hc) as [H1 H2], (compare_ref addr same_as a b cache) as [r c'].
  simpl in *. by rewrite H1.
Qed.
End Order.

(** * Statements *)
Definition key_range (r : Range) : list Z := key (range_min r) ++ key (range_extent r).
Definition key_vector (l : list Expr) : list Z := Z.of_nat (List.length l) :: concat (map key l).

Fixpoint key_stmt (s : Stmt) : list Z :=
  let key_opt (s : option Stmt) : list Z :=
    match s with Some s => 1 :: key_stmt s | None => [0] end in
  stmt_type_info s ::
  match s with
  | LetStmt n v b => key_string n ++ key v ++ key_stmt b
  | AssertStmt c m => key c ++ key m
  | ProducerConsumer n p u c => key_string n ++ key_stmt p ++ key_opt u ++ key_stmt c
  | For n m e f _ b => key_string n ++ [for_type_num f] ++ key m ++ key e ++ key_stmt b
  | Store n v i _ => key_string n ++ key v ++ key i
  | Provide n v a => key_string n ++ key_vector a ++ key_vector v
  | Allocate n _ e c ne ff b =>
      key_string n ++ key_vector e ++ key_stmt b ++ key c ++ key_ref ne ++ key_string ff
  | Free n => key_string n
  | Realize n t bs c b =>
      key_string n ++ [Z.of_nat (List.length t)] ++ [Z.of_nat (List.length bs)] ++
        concat (map key_type t) ++ concat (map key_range bs) ++ key_stmt b ++ key c
  | Block f r => key_stmt f ++ key_stmt r
  | IfThenElse c t e => key c ++ key_stmt t ++ key_opt e
  | Evaluate v => key v
  end.

Definition nan_free_range (r : Range) : bool := nan_free (range_min r) && nan_free (range_extent r).

Fixpoint nan_free_stmt (s : Stmt) : bool :=
  let nan_free_opt (s : option Stmt) : bool :=
    match s with Some s => nan_free_stmt s | None => true end in
  match s with
  | LetStmt _ v b => nan_free v && nan_free_stmt b
  | AssertStmt c m => nan_free c && nan_free m
  | ProducerConsumer _ p u c => nan_free_stmt p && nan_free_opt u && nan_free_stmt c
  | For _ m e _ _ b => nan_free m && nan_free e && nan_free_stmt b
  | Store _ v i _ => nan_free v && nan_free i
  | Provide _ v a => forallb nan_free v && forallb nan_free a
  | Allocate _ _ e c ne _ b =>
      forallb nan_free e && nan_free c && nan_free_ref ne && nan_free_stmt b
  | Free _ => true
  | Realize _ _ bs c b => forallb nan_free_range bs && nan_free c && nan_free_stmt b
  | Block f r => nan_free_stmt f && nan_free_stmt r
  | IfThenElse c t e => nan_free c && nan_free_stmt t && nan_free_opt e
  | Evaluate v => nan_free v
  end.

Section StmtComparer.
Context (addr : Expr -> Z) (same_as : Expr -> Expr -> bool) (same_stmt : Stmt -> Stmt -> bool).
Hypothesis same_as_sound : forall a b, same_as a b = true -> a = b.
Hypothesis same_stmt_sound : forall a b, same_stmt a b = true -> a = b.

Notation compare_expr := (compare_expr addr same_as).
Notation compare_ref := (compare_ref addr same_as).
Notation compare_stmt := (compare_stmt addr same_as same_stmt).
Notation compare_stmt_ref := (compare_stmt_ref addr same_as same_stmt).
Notation compare_expr_vector := (compare_expr_vector addr same_as).
Notation compare_bounds := (compare_bounds addr same_as).

Definition stmt_visit (a b : Stmt) : comparer :=
  match a, b with
  | LetStmt xn xv xb, LetStmt yn yv yb =>
      seq_cmp (pure_cmp (compare_names xn yn)) (seq_cmp (compare_expr xv yv) (compare_stmt xb yb))
  | AssertStmt xc xm, AssertStmt yc ym => seq_cmp (compare_expr xc yc) (compare_expr xm ym)
  | ProducerConsumer xn xp xu xc, ProducerConsumer yn yp yu yc =>
      seq_cmp (pure_cmp (compare_names xn yn))
        (seq_cmp (compare_stmt xp yp) (seq_cmp (compare_stmt_ref xu yu) (compare_stmt xc yc)))
  | For xn xm xe xf _ xb, For yn ym ye yf _ yb =>
      seq_cmp (pure_cmp (compare_names xn yn))
        (seq_cmp (pure_cmp (compare_scalar (for_type_num xf) (for_type_num yf)))
          (seq_cmp (compare_expr xm ym) (seq_cmp (compare_expr xe ye) (compare_stmt xb yb))))
  | Store xn xv xi _, Store yn yv yi _ =>
      seq_cmp (pure_cmp (compare_names xn yn)) (seq_cmp (compare_expr xv yv) (compare_expr xi yi))
  | Provide xn xv xa, Provide yn yv ya =>
      seq_cmp (pure_cmp (compare_names xn yn))
        (seq_cmp (compare_expr_vector xa ya) (compare_expr_vector xv yv))
  | Allocate xn _ xe xc xnew xfree xb, Allocate yn _ ye yc ynew yfree yb =>
      seq_cmp (pure_cmp (compare_names xn yn))
        (seq_cmp (compare_expr_vector xe ye)
          (seq_cmp (compare_stmt xb yb)
            (seq_cmp (compare_expr xc yc)
              (seq_cmp (compare_ref xnew ynew) (pure_cmp (compare_names xfree yfree))))))
  | Realize xn xt xbd xc xb, Realize yn yt ybd yc yb =>
      seq_cmp (pure_cmp (compare_names xn yn))
        (seq_cmp (pure_cmp (compare_scalar (Z.of_nat (List.length xt)) (Z.of_nat (List.length yt))))
          (seq_cmp (pure_cmp (compare_scalar (Z.of_nat (List.length xbd)) (Z.of_nat (List.length ybd))))
            (seq_cmp (pure_cmp (compare_type_list xt yt))
              (seq_cmp (compare_bounds xbd ybd)
                (seq_cmp (compare_stmt xb yb) (compare_expr xc yc))))))
  | Block xf xr, Block yf yr => seq_cmp (compare_stmt xf yf) (compare_stmt xr yr)
  | Free xn, Free yn => pure_cmp (compare_names xn yn)
  | IfThenElse xc xt xe, IfThenElse yc yt ye =>
      seq_cmp (compare_expr xc yc) (seq_cmp (compare_stmt xt yt) (compare_stmt_ref xe ye))
  | Evaluate x, Evaluate y => compare_expr x y
  | _, _ => pure_cmp Unknown
  end.

Lemma compare_stmt_unfold a b :
  compare_stmt a b =
  if same_stmt a b then pure_cmp Equal
  else seq_cmp (pure_cmp (compare_scalar (stmt_type_info a) (stmt_type_info b))) (stmt_visit a b).
Proof. by destruct a, b. Qed.

Lemma good_vector xs ys :
  forallb nan_free xs = true -> forallb nan_free ys = true ->
  good (compare_expr_vector xs ys) (key_vector xs) (key_vector ys).
Proof.
  intros Hx Hy. apply good_length. intros Hl. apply good_elements; [done| |done..].
  apply Forall_forall. intros x _ y. by apply compare_expr_good.
Qed.

Lemma compare_type_list_key xs ys :
  List.length xs = List.length ys ->
  compare_type_list xs ys = of_comparison (lexZ (concat (map key_type xs)) (concat (map key_type ys))) /\
  decided (concat (map key_type xs)) (concat (map key_type ys)).
Proof.
  revert ys. induction xs as [|x xs IH]; intros [|y ys] Hl; try done.
  destruct (IH ys) as [H1 H2]; [simpl in Hl; lia|].
  assert (Hd : decided (key_type x) (key_type y)) by (by apply decided_length).
  cbn [compare_type_list map concat]. rewrite H1, compare_types_key, Hd.
  split; [by destruct (lexZ (key_type x) (key_type y))|]. by apply decided_app.
Qed.

Lemma good_bounds xs ys :
  List.length xs = List.length ys ->
  forallb nan_free_range xs = true -> forallb nan_free_range ys = true ->
  good (compare_bounds xs ys) (concat (map key_range xs)) (concat (map key_range ys)).
Proof.
  revert ys. induction xs as [|[xm xe] xs IH]; intros [|[ym ye] ys] Hl Hx Hy; try done.
  simpl in Hl, Hx, Hy. unfold nan_free_range in Hx, Hy. simpl in Hx, Hy.
  rewrite !andb_true_iff in Hx, Hy. destruct_and!.
  cbn [Equality.compare_bounds map concat key_range range_min range_extent]. unfold key_range. simpl.
  rewrite <- !app_assoc. auto 6 using good_seq', compare_expr_good.
Qed.

Definition key_stmt_ref (s : StmtRef) : list Z := match s with Some s => 1 :: key_stmt s | None => [0] end.
Definition nan_free_stmt_ref (s : StmtRef) : bool := match s with Some s => nan_free_stmt s | None => true end.

Definition good_stmt (a : Stmt) : Prop := forall b,
  nan_free_stmt a = true -> nan_free_stmt b = true -> good (compare_stmt a b) (key_stmt a) (key_stmt b).

Lemma good_stmt_ref a b :
  match a with Some a => good_stmt a | None => True end ->
  nan_free_stmt_ref a = true -> nan_free_stmt_ref b = true ->
  good (compare_stmt_ref a b) (key_stmt_ref a) (key_stmt_ref b).
Proof.
  destruct a as [a|], b as [b|]; simpl; intros Hg Ha Hb.
  - destruct (Hg b Ha Hb) as [Hi Hd]. split; [exact Hi|].
    apply (decided_app [1] [1]); [apply decided_one|done].
  - apply good_pure. split; [done|]. by intros l k.
  - apply good_pure. split; [done|]. by intros l k.
  - apply good_pure. split; [done|]. apply decided_refl.
Qed.

Definition key_stmt_body (s : Stmt) : list Z := tail (key_stmt s).

Lemma good_stmt_visit a b :
  (stmt_type_info a = stmt_type_info b -> good (stmt_visit a b) (key_stmt_body a) (key_stmt_body b)) ->
  good (compare_stmt a b) (key_stmt a) (key_stmt b).
Proof.
  intros H. rewrite compare_stmt_unfold. destruct (same_stmt a b) eqn:Es.
  { apply same_stmt_sound in Es as ->. apply good_pure. rewrite lexZ_refl. split; [done|apply decided_refl]. }
  assert (Hk : forall s, key_stmt s = [stmt_type_info s] ++ key_stmt_body s) by (by intros []).
  rewrite !Hk. apply good_seq; [apply good_scalar|]. intros E. apply lexZ_Eq in E. apply H. congruence.
Qed.

Lemma compare_stmt_good a : good_stmt a.
Proof.
  induction a using Stmt_ind'; intros b' Ha Hb; apply good_stmt_visit; intros Hi;
    destruct b'; try done; simpl in Ha, Hb; rewrite ?andb_true_iff in Ha, Hb; destruct_and?;
    cbn [key_stmt_body key_stmt tail stmt_visit];
    auto 8 using good_seq', good_names, good_scalar, compare_expr_good, good_vector, compare_ref_good, good_stmt_ref.
  apply good_seq'; [apply good_names|]. apply good_length. intros Hl.
  apply good_length. intros Hl'. apply good_seq'; [by apply good_pure, compare_type_list_key|].
  auto using good_seq', good_bounds, compare_expr_good.
Qed.

Lemma compare_stmt_ref_result a b c :
  nan_free_stmt_ref a = true -> nan_free_stmt_ref b = true -> cache_ok c ->
  fst (compare_stmt_ref a b c) = of_comparison (lexZ (key_stmt_ref a) (key_stmt_ref b)) /\
  cache_ok (snd (compare_stmt_ref a b c)).
Proof. intros Ha Hb Hc. apply good_stmt_ref; try done. destruct a; [apply compare_stmt_good|done]. Qed.

Notation IRDeepCompare_stmt := (IRDeepCompare_stmt addr same_as same_stmt).
Notation equal_stmt := (equal_stmt addr same_as same_stmt).
Notation graph_equal_stmt := (graph_equal_stmt addr same_as same_stmt).

(** The comparison of statements is a strict weak order too, its
    incomparability is [equal], and [graph_equal], which compares with a cache,
    agrees with [equal]. *)
Theorem IRDeepCompare_stmt_strict_weak_order a b c :
  nan_free_stmt_ref a = true -> nan_free_stmt_ref b = true -> nan_free_stmt_ref c = true ->
  IRDeepCompare_stmt a a = false /\
  (IRDeepCompare_stmt a b = true -> IRDeepCompare_stmt b c = true -> IRDeepCompare_stmt a c = true) /\
  (IRDeepCompare_stmt a b = true -> IRDeepCompare_stmt b a = false) /\
  (equal_stmt a b = true <-> IRDeepCompare_stmt a b = false /\ IRDeepCompare_stmt b a = false) /\
  graph_equal_stmt a b = equal_stmt a b.
Proof.
  intros Ha Hb Hc.
  assert (Hr : forall x y, nan_free_stmt_ref x = true -> nan_free_stmt_ref y = true ->
    fst (compare_stmt_ref x y None) = of_comparison (lexZ (key_stmt_ref x) (key_stmt_ref y)))
    by (intros; by apply compare_stmt_ref_result).
  unfold Equality.IRDeepCompare_stmt, Equality.equal_stmt, Equality.graph_equal_stmt.
  rewrite (proj1 (compare_stmt_ref_result a b (Some (cache_new 8)) Ha Hb ltac:(by intros h x y))).
  rewrite !Hr, lexZ_refl, (lexZ_antisym (key_stmt_ref a) (key_stmt_ref b)) by done.
  split_and!; [done| |..|done].
  - rewrite !bool_decide_eq_true, !of_comparison_Lt. apply lexZ_trans.
  - by destruct (lexZ (key_stmt_ref a) (key_stmt_ref b)).
  - destruct (lexZ (key_stmt_ref a) (key_stmt_ref b)); vm_compute; naive_solver.
Qed.
End StmtComparer.

(** * Where the comparison falls short *)
Definition float_imm (f : spec_float) : ExprRef := FloatImm (Float 32 1) f.

Definition float_one : spec_float := S754_finite false 8388608 (-23).
Definition float_two : spec_float := S754_finite false 8388608 (-22).

(** A NaN constant is [Equal] to every constant of its type, so with NaNs the
    order is not a strict weak one (1.0 and 2.0 are both incomparable with NaN,
    and 1.0 < 2.0), and two statements compare equal although they allocate
    different types or run on different devices. *)
Theorem comparison_defects addr same_as same_stmt :
  (forall a b, same_as a b = true -> a = b) -> (forall a b, same_stmt a b = true -> a = b) ->
  equal addr same_as (float_imm float_one) (float_imm S754_nan) = true /\
  equal addr same_as (float_imm S754_nan) (float_imm float_two) = true /\
  IRDeepCompare addr same_as (float_imm float_one) (float_imm float_two) = true /\
  (forall n t u e c ne ff b,
     nan_free_stmt (Allocate n t e c ne ff b) = true ->
     equal_stmt addr same_as same_stmt (Allocate n t e c ne ff b) (Allocate n u e c ne ff b) = true) /\
  (forall n m e f d d' b,
     nan_free_stmt (For n m e f d b) = true ->
     equal_stmt addr same_as same_stmt (For n m e f d b) (For n m e f d' b) = true).
Proof.
  intros Hs Ht.
  assert (Hne : forall f g, f <> g -> same_as (FloatImm (Float 32 1) f) (FloatImm (Float 32 1) g) = false).
  { intros f g Hn. apply not_true_iff_false. intros E. apply Hs in E. congruence. }
  assert (Hk : forall a b, nan_free_stmt a = true -> nan_free_stmt b = true -> key_stmt a = key_stmt b ->
            equal_stmt addr same_as same_stmt a b = true).
  { intros a b Ha Hb E. unfold equal_stmt. apply bool_decide_eq_true.
    destruct (compare_stmt_ref_result addr same_as same_stmt Hs Ht a b None) as [-> _]; try done.
    simpl. by rewrite E, lexZ_refl. }
  split_and!.
  - unfold equal. simpl. unfold compare_nodes. rewrite Hne by done. vm_compute. done.
  - unfold equal. simpl. unfold compare_nodes. rewrite Hne by done. vm_compute. done.
  - unfold IRDeepCompare. simpl. unfold compare_nodes. rewrite Hne by done. vm_compute. done.
  - intros. by apply Hk.
  - intros. by apply Hk.
Qed.

(** * Witnesses: the identity test is structural identity, the addresses constant *)
Definition same_expr (a b : Expr) : bool := bool_decide (a = b).
Definition same_stmt_none (a b : Stmt) : bool := false.

Lemma same_expr_sound a b : same_expr a b = true -> a = b.
Proof. apply bool_decide_eq_true. Qed.
Lemma same_stmt_none_sound a b : same_stmt_none a b = true -> a = b.
Proof. done. Qed.

Definition x_var : Expr := Var (Int 32 1) "x" None None None.
Definition x_param : Expr := Var (Int 32 1) "x" None (Some 3%positive) None.
Definition y_var : Expr := Var (Int 32 1) "y" None None None.
Definition x_plus (e : Expr) : Expr := Bin Add x_var e.
Definition eval_stmt (e : Expr) : StmtRef := sref (Evaluate e).

Lemma IRDeepCompare_strict_weak_order_witness :
  IRDeepCompare (fun _ => 0) same_expr (eref (x_plus x_var)) (eref (x_plus y_var)) = true /\
  IRDeepCompare (fun _ => 0) same_expr (eref (x_plus y_var)) (eref (x_plus x_var)) = false.
Proof.
  assert (H : IRDeepCompare (fun _ => 0) same_expr (eref (x_plus x_var)) (eref (x_plus y_var)) = true)
    by (vm_compute; reflexivity).
  split; [exact H|]. revert H.
  refine (proj1 (proj2 (proj2 (IRDeepCompare_strict_weak_order (fun _ => 0) same_expr same_expr_sound
    (eref (x_plus x_var)) (eref (x_plus y_var)) None _ _ _)))); reflexivity.
Defined.

Lemma equal_exact_witness :
  x_var <> x_param /\ equal (fun _ => 0) same_expr (eref (x_plus x_var)) (eref (x_plus x_param)) = true.
Proof.
  split; [discriminate|].
  apply (equal_exact (fun _ => 0) same_expr same_expr_sound (eref (x_plus x_var)) (eref (x_plus x_param)));
    reflexivity.
Defined.

(** Every pair falls in one bucket: the cache holds the last pair found equal. *)
Lemma cache_transparent_witness :
  graph_equal (fun _ => 0) same_expr (eref (x_plus x_var)) (eref (x_plus x_param)) =
  equal (fun _ => 0) same_expr (eref (x_plus x_var)) (eref (x_plus x_param)).
Proof.
  refine (proj1 (cache_transparent (fun _ => 0) same_expr same_expr_sound
    (eref (x_plus x_var)) (eref (x_plus x_param)) None _ _ _)); exact eq_refl || exact I.
Defined.

Lemma IRDeepCompare_stmt_strict_weak_order_witness :
  IRDeepCompare_stmt (fun _ => 0) same_expr same_stmt_none (eval_stmt x_var) (eval_stmt x_var) = false /\
  graph_equal_stmt (fun _ => 0) same_expr same_stmt_none (eval_stmt x_var) (eval_stmt y_var) =
  equal_stmt (fun _ => 0) same_expr same_stmt_none (eval_stmt x_var) (eval_stmt y_var).
Proof.
  pose proof (IRDeepCompare_stmt_strict_weak_order (fun _ => 0) same_expr same_stmt_none
    same_expr_sound same_stmt_none_sound (eval_stmt x_var) (eval_stmt y_var) (eval_stmt y_var)
    eq_refl eq_refl eq_refl) as H.
  split; apply H.
Defined.

Lemma comparison_defects_witness :
  equal (fun _ => 0) same_expr (float_imm float_one) (float_imm S754_nan) = true.
Proof.
  apply (comparison_defects (fun _ => 0) same_expr same_stmt_none same_expr_sound same_stmt_none_sound).
Defined.
