(* ===== verification/EqualityMeaning.v ===== *)
(** What [equal] of src/src/IREquality.cpp says about values: the interface the
    passes that test expressions with it rely on. *)

From Stdlib Require Import ZArith Lia Bool SpecFloat String.
From stdpp Require Import prelude strings gmap.
From S2P Require Import Prelude Types IR Semantics Equality.

#[local] Open Scope Z_scope.

(** No NaN, on which the comparison is not an order, and no negative zero, which it
    does not tell from zero. *)
Fixpoint plain_floats (e : Expr) : bool :=
  match e with
  | IntImm _ _ | UIntImm _ _ | StringImm _ | Var _ _ _ _ _ => true
  | FloatImm _ f => match f with S754_nan | S754_zero true => false | _ => true end
  | Cast _ v | Not v | Broadcast v _ | Load _ _ v _ _ => plain_floats v
  | Bin _ a b | Ramp a b _ | Let _ a b => plain_floats a && plain_floats b
  | Select c t f => plain_floats c && plain_floats t && plain_floats f
  | Call _ _ args _ _ _ _ _ => forallb plain_floats args
  end.

Lemma plain_floats_nan_free e : plain_floats e = true -> nan_free e = true.
Proof.
  induction e using Expr_ind'; simpl; rewrite ?andb_true_iff; try tauto.
  - by destruct v.
  - rewrite !forallb_forall. intros Ha x Hx. rewrite Forall_forall in H.
    apply H; [by apply list_elem_of_In|auto].
Qed.

(** Buffers and functions do not look at the C++ part of a handle type. *)
Definition handle_blind (ρ : env) : Prop :=
  (forall t n i, mem ρ t n i = mem ρ (erase_type t) n i) /\
  (forall t ct n vi args, fn ρ t ct n vi args = fn ρ (erase_type t) ct n vi args).

Lemma cast_scalar_fields p src dst x :
  cast_scalar p src dst x = cast_scalar p (erase_type src) (erase_type dst) x.
Proof. by destruct x, p. Qed.

Lemma key_type_fields t u : key_type t = key_type u -> code t = code u /\ bits t = bits u /\ lanes t = lanes u.
Proof. intros [= H1 H2 H3]. split; [|done]. by destruct (code t), (code u). Qed.

Lemma cast_scalar_src p src src' dst x : key_type src = key_type src' ->
  cast_scalar p src dst x = cast_scalar p src' dst x.
Proof.
  intros H. rewrite (cast_scalar_fields p src), (cast_scalar_fields p src').
  by rewrite (key_type_inj _ _ H).
Qed.

Lemma ramp_lanes_fields p t u n b s :
  code t = code u -> bits t = bits u -> ramp_lanes p t n b s = ramp_lanes p u n b s.
Proof.
  intros Hc Hb. revert b. induction n as [|n IH]; intros b; [done|]. destruct n as [|n]; [done|].
  change (ramp_lanes p t (S (S n)) b s) with
    (next ← eval_binop p Add t b s; rest ← ramp_lanes p t (S n) next s; Some (b :: rest)).
  change (ramp_lanes p u (S (S n)) b s) with
    (next ← eval_binop p Add u b s; rest ← ramp_lanes p u (S n) next s; Some (b :: rest)).
  rewrite (eval_binop_fields p Add t u) by done.
  destruct (eval_binop p Add u b s) as [x|]; [|done]. cbn [mbind option_bind]. by rewrite IH.
Qed.

Lemma mapM_map_ext {A B} (f : A -> option B) (g : A -> A) l :
  Forall (fun x => f (g x) = f x) l -> mapM f (map g l) = mapM f l.
Proof. induction 1 as [|x l Hx H IH]; simpl; [done|]. by rewrite Hx, IH. Qed.

Lemma eval_erase p e : forall Γ ρ, typed Γ e -> wf e -> plain_floats e = true -> handle_blind ρ ->
  eval p ρ (erase e) = eval p ρ e.
Proof.
  induction e using Expr_ind'; intros Γ ρ Ht Hwf Hp Hρ; simpl in Ht, Hwf, Hp; cbn [erase eval]; try done;
    rewrite ?andb_true_iff in Hp; destruct_and?;
    repeat match goal with
    | IH : forall Γ ρ, typed Γ ?e -> _, Ht : typed ?G ?e |- context [eval p ?ρ (erase ?e)] =>
        rewrite (IH G ρ) by done
    end; try done.
  - by destruct v as [[]|[]| |].
  - destruct (eval p ρ e) as [vs|]; [|done]. cbn [mbind option_bind].
    apply mapM_ext. intros x. rewrite (cast_scalar_fields p (type (erase e))), (cast_scalar_fields p (type e)).
    by rewrite (key_type_inj _ _ (erase_key_type e)).
  - destruct (key_type_fields _ _ (erase_key_type e1)) as (Hc & Hb & _).
    destruct (eval p ρ e1) as [va|]; [|done]. destruct (eval p ρ e2) as [vb|]; [|done]. cbn [mbind option_bind].
    apply zip_with_M_ext. intros x y. by apply eval_binop_fields.
  - destruct (eval p ρ e) as [vs|]; [|done]. cbn [mbind option_bind].
    apply mapM_ext. intros [z| | |]; try done. symmetry. apply Hρ.
  - destruct (key_type_fields _ _ (erase_key_type e1)) as (Hc & Hb & _).
    destruct (eval p ρ e1) as [[|x [|]]|]; try done. destruct (eval p ρ e2) as [[|y [|]]|]; try done.
    cbn [mbind option_bind]. rewrite uwrap_id by (unfold in_urange; lia). by apply ramp_lanes_fields.
  - destruct (eval p ρ e) as [[|x [|]]|]; try done.
    cbn [mbind option_bind]. by rewrite uwrap_id by (unfold in_urange; lia).
  - match goal with Ha : _ |- _ => rewrite typed_args in Ha end.
    match goal with Ha : _ |- _ => rewrite wf_args in Ha end.
    rewrite mapM_map_ext.
    + destruct (mapM (eval p ρ) args) as [vs|]; [|done]. cbn [mbind option_bind]. unfold eval_call.
      destruct (_ || _ || _); [done|]. symmetry. apply Hρ.
    + rewrite forallb_forall in Hp. rewrite !Forall_forall in *. intros x Hx.
      eapply H; eauto. apply Hp. by apply list_elem_of_In.
  - destruct (eval p ρ e1) as [vv|]; [|done]. cbn [mbind option_bind]. by eapply IHe2.
Qed.

Lemma equal_eval addr same_as Γ a b p ρ :
  (forall a b, same_as a b = true -> a = b) ->
  wf a -> wf b -> typed Γ a -> typed Γ b -> plain_floats a = true -> plain_floats b = true ->
  handle_blind ρ -> equal addr same_as (eref a) (eref b) = true -> eval p ρ a = eval p ρ b.
Proof.
  intros Hs Ha Hb Hta Htb Hpa Hpb Hρ He.
  apply equal_key in He; [|done|by apply plain_floats_nan_free..].
  injection He as He. apply key_erase_iff in He.
  rewrite <- (eval_erase p a Γ ρ), <- (eval_erase p b Γ ρ) by done. by rewrite He.
Qed.

(** The interface: a test that only holds of expressions with one value. *)
Class EqualityTest (Γ : gmap string Ty) (ρ : env) (test : ExprRef -> ExprRef -> bool) : Prop :=
  equality_test : forall p a b,
    wf a -> wf b -> typed Γ a -> typed Γ b -> plain_floats a = true -> plain_floats b = true ->
    test (eref a) (eref b) = true -> eval p ρ a = eval p ρ b.

Lemma equal_EqualityTest addr same_as Γ ρ :
  (forall a b, same_as a b = true -> a = b) -> handle_blind ρ -> EqualityTest Γ ρ (equal addr same_as).
Proof. intros Hs Hρ p a b. intros. by eapply equal_eval. Qed.

(** C32. Expressions without NaNs and negative zeros that [equal] identifies have the
    same value in every environment, under every overflow policy. On a NaN the
    comparison answers [Equal] for any constant, and it does not tell the two zeros
    apart, so these are left out ([comparison_defects]). *)
Theorem equal_same_value addr same_as Γ a b p ρ :
  (forall a b, same_as a b = true -> a = b) ->
  wf a -> wf b -> typed Γ a -> typed Γ b -> plain_floats a = true -> plain_floats b = true ->
  handle_blind ρ -> equal addr same_as (eref a) (eref b) = true -> eval p ρ a = eval p ρ b.
Proof. apply equal_eval. Qed.

Lemma equal_same_value_witness :
  eval Ideal empty_env (Bin Add x_var (Bin Mul x_var y_var)) =
  eval Ideal empty_env (Bin Add x_param (Bin Mul x_var y_var)).
Proof.
  apply (equal_same_value (fun _ => 0) same_expr {[ "x" := Int 32 1; "y" := Int 32 1 ]}).
  - apply same_expr_sound.
  - repeat split; discriminate.
  - repeat split; discriminate.
  - repeat split; vm_compute; congruence.
  - repeat split; vm_compute; congruence.
  - reflexivity.
  - reflexivity.
  - by split.
  - reflexivity.
Defined.
