(* ===== verification/CSE.v ===== *)
(** Common subexpression elimination: src/src/CSE.cpp, with the generator of fresh
    names of src/src/Util.cpp. Maps keyed by an expression's address are association
    lists searched with the identity test; the map of the value numbering, which is
    ordered by deep comparison with a cache, is one searched with [equal]: the order
    is a strict weak order whose equivalence is [equal], and the cache changes no
    answer (Equality.v). *)

From Stdlib Require Import ZArith Lia Bool SpecFloat String Ascii.
From stdpp Require Import prelude strings pretty gmap.
From S2P Require Import Prelude Types IR Semantics Scope Operators Mutator Visitor Substitute Equality.

#[local] Open Scope Z_scope.
#[local] Open Scope halide_scope.

(** * Fresh names

    The counters of [unique_name], by the hash of the prefix. *)
Definition name_counters : Type := gmap Z Z.
Definition num_unique_name_counters : Z := Z.shiftl 1 14.

Definition unique_count (h : Z) (cs : name_counters) : Z * name_counters :=
  let h := Z.land h (num_unique_name_counters - 1) in
  let n := default 0 (cs !! h) in
  (n, <[h := n + 1]> cs).

(** [unique_name(char)]. *)
Definition unique_name (prefix : ascii) (cs : name_counters) : string * name_counters :=
  let prefix := if bool_decide (prefix = "$"%char) then "_"%char else prefix in
  let '(n, cs) := unique_count (Z.of_N (N_of_ascii prefix)) cs in
  (String prefix (pretty n), cs).

(** * What is worth a let *)
Fixpoint should_extract (e : Expr) : bool :=
  if is_const e then false
  else
    match e with
    | Var _ _ _ _ _ => false
    | Broadcast v _ | Cast _ v => should_extract v
    | Bin (Add | Sub | Mul | Div) a b => negb (is_const a || is_const b)
    | Ramp _ s _ => negb (is_const s)
    | _ => true
    end.

(** * Global value numbering *)
Record Entry := mkEntry { entry_expr : Expr; use_count : Z }.

Record GVN := mkGVN {
  gvn_entries : list Entry;
  numbering : list (Expr * nat);
  shallow_numbering : list (Expr * nat);
  let_substitutions : Scope nat;
  number : nat
}.
Definition gvn_new : GVN := mkGVN [] [] [] scope_new 0.

Section CSE.
Context (addr : Expr -> Z) (same_as : ExprRef -> ExprRef -> bool).

Definition same_node (a b : Expr) : bool := same_as (eref a) (eref b).

(** [shallow_numbering.find] and [numbering.find]. *)
Definition find_shallow (l : list (Expr * nat)) (e : Expr) : option nat :=
  snd <$> List.find (fun '(k, _) => same_node e k) l.
Definition find_deep (l : list (Expr * nat)) (e : Expr) : option nat :=
  snd <$> List.find (fun '(k, _) => equal addr same_node (eref e) (eref k)) l.

(** The redirection of a variable bound by a let. *)
Definition find_let (e : Expr) (st : GVN) : option nat :=
  match e with
  | Var _ name _ _ _ =>
      if scope_contains (let_substitutions st) name then
        match scope_get (let_substitutions st) name with Ok n => Some n | Err _ => None end
      else None
  | _ => None
  end.

Definition set_number (n : nat) (st : GVN) : GVN :=
  mkGVN (gvn_entries st) (numbering st) (shallow_numbering st) (let_substitutions st) n.
Definition set_shallow (e : Expr) (n : nat) (st : GVN) : GVN :=
  mkGVN (gvn_entries st) (numbering st) ((e, n) :: shallow_numbering st) (let_substitutions st) (number st).
Definition set_lets (sc : Scope nat) (st : GVN) : GVN :=
  mkGVN (gvn_entries st) (numbering st) (shallow_numbering st) sc (number st).
Definition add_entry (e : Expr) (st : GVN) : GVN :=
  let n := List.length (gvn_entries st) in
  mkGVN (gvn_entries st ++ [mkEntry e 0]) ((e, n) :: numbering st) ((e, n) :: shallow_numbering st)
    (let_substitutions st) n.

(** [number = n; internal_assert(entries[n].expr.type() == e.type()); return entries[n].expr]. *)
Definition return_entry (n : nat) (e : Expr) : mut GVN ExprRef := fun st =>
  match gvn_entries st !! n with
  | Some entry =>
      guard! type_eqb (type (entry_expr entry)) (type e) else "";
      Ok (eref (entry_expr entry), set_number n st)
  | None => Err (UB "entry out of range")
  end.

Definition push_let (name : string) : mut GVN unit := fun st =>
  Ok (tt, set_lets (scope_push (let_substitutions st) name (number st)) st).
Definition pop_let (name : string) : mut GVN unit := fun st =>
  sc ← scope_pop (let_substitutions st) name; Ok (tt, set_lets sc st).

(** The second half of [mutate]: [visit] is [IRMutator::mutate(e)]. *)
Definition gvn_rebuild (visit : mut GVN ExprRef) (old_e : Expr) : mut GVN ExprRef := fun st =>
  '(r, st) ← visit st;
  e ← deref r;
  match find_deep (numbering st) e with
  | Some n => return_entry n old_e (set_shallow old_e n st)
  | None =>
      guard! type_eqb (type e) (type old_e) else "";
      Ok (eref e, add_entry e st)
  end.

Definition gvn_lookup (visit : mut GVN ExprRef) (e : Expr) : mut GVN ExprRef := fun st =>
  match find_shallow (shallow_numbering st) e with
  | Some n => return_entry n e st
  | None =>
      match find_let e st with
      | Some n => return_entry n e st
      | None =>
          match find_deep (numbering st) e with
          | Some n => return_entry n e (set_shallow e n st)
          | None => gvn_rebuild visit e st
          end
      end
  end.

Fixpoint gvn_mutate (e : Expr) : mut GVN ExprRef :=
  gvn_lookup
    match e with
    | Let name v b =>
        _ ← gvn_mutate v;
        _ ← push_let name;
        body ← gvn_mutate b;
        _ ← pop_let name;
        mret body
    | _ => visit_expr same_as gvn_mutate e
    end e.

(** * Use counts

    The entries whose counts grow, and the nodes visited so far. *)
Definition incr_use (n : nat) (es : list Entry) : list Entry :=
  alter (fun en => mkEntry (entry_expr en) (use_count en + 1)) n es.

Fixpoint include_uses (shallow : list (Expr * nat)) (e : Expr) (s : list Entry * list Expr)
    : list Entry * list Expr :=
  if negb (should_extract e) then graph_visit (include_uses shallow) e s
  else
    let '(es, visited) := s in
    let es := match find_shallow shallow e with Some n => incr_use n es | None => es end in
    if existsb (same_node e) visited then (es, visited)
    else graph_visit (include_uses shallow) e (es, e :: visited).

(** * Rebuilding with replacements *)
Fixpoint replacer_mutate (e : Expr) : mut graph_memo ExprRef :=
  graph_mutate same_as (visit_expr same_as replacer_mutate e) e.

Definition set_replacement (e : Expr) (r : ExprRef) (m : graph_memo) : graph_memo :=
  mkMemo ((e, r) :: expr_replacements m) (stmt_replacements m).
Definition erase_replacement (e : Expr) : mut graph_memo unit := fun m =>
  Ok (tt, mkMemo (List.filter (fun '(k, _) => negb (same_node e k)) (expr_replacements m)) (stmt_replacements m)).

(** The lets to add, in order, and the variables that stand for them. *)
Fixpoint choose_lets (es : list Entry) (lets : list (string * Expr)) (m : graph_memo) (cs : name_counters)
    : res (list (string * Expr) * graph_memo * name_counters) :=
  match es with
  | [] => Ok (lets, m, cs)
  | en :: es =>
      if 1 <? use_count en then
        let '(name, cs) := unique_name "t" cs in
        var ← Variable_make (type (entry_expr en)) name None None None;
        choose_lets es (lets ++ [(name, entry_expr en)]) (set_replacement (entry_expr en) (eref var) m) cs
      else choose_lets es lets m cs
  end.

(** The loop over [lets] from the last to the first. *)
Fixpoint wrap_lets (rev_lets : list (string * Expr)) (e : ExprRef) : mut graph_memo ExprRef :=
  match rev_lets with
  | [] => mret e
  | (name, value) :: rest =>
      _ ← erase_replacement value;
      value ← replacer_mutate value;
      e ← lift (Let_make name value e);
      wrap_lets rest (eref e)
  end.

Definition common_subexpression_elimination (e : Expr) (cs : name_counters) : res (ExprRef * name_counters) :=
  if is_const e || is_var e then Ok (eref e, cs)
  else
    '(r, gvn) ← gvn_mutate e gvn_new;
    e ← deref r;
    let '(es, _) := include_uses (shallow_numbering gvn) e (gvn_entries gvn, []) in
    '(lets, replacements, cs) ← choose_lets es [] no_memo cs;
    '(e, replacements) ← replacer_mutate e replacements;
    '(e, _) ← wrap_lets (rev lets) e replacements;
    Ok (e, cs).

(** [CSEEveryExprInStmt]. *)
Definition cse_mutate (e : Expr) : mut name_counters ExprRef := common_subexpression_elimination e.
Fixpoint cse_mutate_stmt (same_stmt : StmtRef -> StmtRef -> bool) (s : Stmt) : mut name_counters StmtRef :=
  visit_stmt same_as same_stmt cse_mutate (cse_mutate_stmt same_stmt) s.
Definition common_subexpression_elimination_stmt (same_stmt : StmtRef -> StmtRef -> bool) (s : StmtRef)
    : mut name_counters StmtRef := mutate_stmt_ref (cse_mutate_stmt same_stmt) s.
End CSE.
