(* ===== verification/CSESound.v ===== *)
(** Common subexpression elimination keeps the value of an expression: the value
    numbering of CSE.v collects canonical, let-free forms of the subexpressions, and
    replacing some of them by variables bound around the result changes nothing. *)

From Stdlib Require Import ZArith Lia Bool SpecFloat String.
From stdpp Require Import prelude strings pretty gmap.
From S2P Require Import Prelude Types IR Semantics Scope Operators Mutator Visitor Substitute Rebuild LetValues Equality EqualityMeaning CSE.

#[local] Open Scope Z_scope.
#[local] Open Scope halide_scope.

(** * Types the comparison sees in full *)

(** No type written in the expression carries the description of a C++ type. *)
Definition no_handle_type (t : Ty) : bool := match handle_type t with None => true | _ => false end.

Fixpoint plain_types (e : Expr) : bool :=
  match e with
  | IntImm t _ | UIntImm t _ | FloatImm t _ | Var t _ _ _ _ => no_handle_type t
  | StringImm _ => true
  | Cast t v | Load t _ v _ _ => no_handle_type t && plain_types v
  | Not v | Broadcast v _ => plain_types v
  | Bin _ a b | Ramp a b _ | Let _ a b => plain_types a && plain_types b
  | Select c t f => plain_types c && plain_types t && plain_types f
  | Call t _ args _ _ _ _ _ => no_handle_type t && forallb plain_types args
  end.

Lemma no_handle_fields t u : no_handle_type t = true -> no_handle_type u = true ->
  code t = code u -> bits t = bits u -> lanes t = lanes u -> t = u.
Proof. destruct t as [? ? ? []], u as [? ? ? []]; simpl; try done. by intros _ _ -> -> ->. Qed.

Lemma plain_erase_type a : forall b, plain_types a = true -> plain_types b = true -> erase a = erase b ->
  type a = type b.
Proof.
  induction a using Expr_ind'; intros c Ha Hc He; destruct c; simpl in *; try discriminate;
    rewrite ?andb_true_iff in *; destruct_and?; injection He; intros; subst;
    try (by apply no_handle_fields); try done.
  - by rewrite (IHa1 c1).
  - by rewrite (IHa c).
  - by rewrite (IHa2 c2).
  - rewrite (IHa1 c1) by done. unfold with_lanes, Type_make. by f_equal.
  - rewrite (IHa c) by done. unfold with_lanes, Type_make. by f_equal.
  - by rewrite (IHa2 c2).
Qed.

(** What the value numbering relies on: no NaN, no negative zero, no C++ types. *)
Definition plain (e : Expr) : bool := plain_floats e && plain_types e.

Lemma plain_children e : plain e = true -> Forall (fun c => plain c = true) (children e).
Proof.
  unfold plain. destruct e; simpl; rewrite ?andb_true_iff, ?forallb_forall; intros H; repeat constructor;
    rewrite ?andb_true_iff; try tauto.
  apply Forall_forall. intros x Hx%list_elem_of_In. apply andb_true_iff. split; [by apply H|by apply H].
Qed.

Lemma plain_with_children R e cs : Forall2 R (children e) cs -> plain e = true ->
  Forall (fun c => plain c = true) cs -> plain (with_children e cs) = true.
Proof.
  unfold plain. intros H He Hc.
  destruct e; cbn [children] in H;
    repeat match goal with
    | H : Forall2 _ (_ :: _) ?l |- _ => is_var l; apply Forall2_cons_inv_l in H; destruct H as (? & ? & ? & ? & ->)
    | H : Forall2 _ [] ?l |- _ => is_var l; apply Forall2_nil_inv_l in H; subst l
    end; simpl in *; rewrite ?Forall_cons in Hc; rewrite ?andb_true_iff in *; try tauto.
  destruct He as [_ [He _]]. split; [|split; [done|]]; apply forallb_forall; intros x Hx%list_elem_of_In;
    rewrite Forall_forall in Hc; by apply Hc in Hx as [? ?]%andb_true_iff.
Qed.

Section Meaning.
Context (addr : Expr -> Z) (same_as : ExprRef -> ExprRef -> bool).
Hypothesis same_as_sound : forall a b, same_as a b = true -> a = b.
(** The valuation all expressions are read in, their types, and the names lets bind. *)
Context (p : overflow) (ρ : env) (G : gmap string Ty) (bound : string -> Prop).
Hypothesis ρ_blind : handle_blind ρ.

Notation same_node := (same_node same_as).

Lemma same_node_sound a b : same_node a b = true -> a = b.
Proof. intros H. apply same_as_sound in H. by injection H. Qed.

(** Expressions the numbering is applied to, and the canonical forms it makes. *)
Record input_ok (e : Expr) : Prop := {
  io_wf : wf e;
  io_typed : typed G e;
  io_plain : plain e = true;
  io_value : is_Some (eval p ρ e);
  io_lets x v : (x, v) ∈ let_defs e ->
    bound x /\ vars ρ !! x = eval p ρ v /\ is_Some (eval p ρ v) /\ G !! x = Some (type v)
}.

Record canonical (e : Expr) : Prop := {
  ca_wf : wf e;
  ca_typed : typed G e;
  ca_plain : plain e = true;
  ca_value : is_Some (eval p ρ e);
  ca_let_free : let_free e;
  ca_free x : bound x -> free_in x e = false
}.

Lemma input_children e : is_let e = false -> is_var e = false -> input_ok e -> Forall input_ok (children e).
Proof.
  intros Hl Hv [Hwf Ht Hp Hs Hd]. apply wf_children in Hwf. apply typed_children in Ht; [|done].
  apply plain_children in Hp. apply eval_children_Some in Hs; [|done..].
  rewrite Forall_forall in Hwf, Ht, Hp, Hs |- *. intros c Hc. constructor; auto.
  intros x v Hx. apply Hd. apply let_defs_children; [done|]. eauto.
Qed.

Lemma input_let n v b : input_ok (Let n v b) -> input_ok v /\ input_ok b /\
  vars ρ !! n = eval p ρ v /\ G !! n = Some (type v) /\ eval p ρ (Let n v b) = eval p ρ b /\ bound n.
Proof.
  intros [Hwf [Htv Htb] Hp Hs Hd]. apply plain_children in Hp. cbn [children] in Hp.
  apply Forall_cons in Hp as [Hpv Hp]. apply Forall_cons in Hp as [Hpb _].
  destruct (Hd n v) as (Hb & Hvar & [w Hw] & HG); [cbn [let_defs]; set_solver|].
  assert (He : eval p ρ (Let n v b) = eval p ρ b).
  { cbn [eval]. rewrite Hw. cbn [mbind option_bind]. unfold bind_var. rewrite insert_id by congruence. by destruct ρ. }
  rewrite (insert_id G) in Htb by done. split; [|split; [|done]]; constructor; try done; try apply Hwf.
  - intros x u Hx. apply Hd. cbn [let_defs]. set_solver.
  - by rewrite <- He.
  - intros x u Hx. apply Hd. cbn [let_defs]. set_solver.
Qed.

Lemma equal_erase a b : plain a = true -> plain b = true ->
  equal addr same_node (eref a) (eref b) = true <-> erase a = erase b.
Proof.
  unfold plain. rewrite !andb_true_iff. intros [Ha _] [Hb _].
  rewrite (equal_key addr same_node same_node_sound) by (simpl; by apply plain_floats_nan_free).
  rewrite key_ref_erase. unfold erase_ref, eref. simpl. split; [by intros [=]|by intros ->].
Qed.

Lemma erase_value a b : wf a -> wf b -> typed G a -> typed G b -> plain a = true -> plain b = true ->
  erase a = erase b -> eval p ρ a = eval p ρ b /\ type a = type b.
Proof.
  intros Hwa Hwb Hta Htb Hpa Hpb He. split.
  - apply (equal_eval addr same_node G); try done; [apply same_node_sound|..|by apply equal_erase];
      unfold plain in *; by apply andb_true_iff in Hpa as [? _], Hpb as [? _].
  - unfold plain in *. apply andb_true_iff in Hpa as [_ ?], Hpb as [_ ?]. by apply plain_erase_type.
Qed.

(** * The invariant of the numbering *)
Definition entry_at (st : GVN) (n : nat) (e : Expr) : Prop :=
  exists en, gvn_entries st !! n = Some en /\ entry_expr en = e.

(** Entry [n] has the value and the type of [e]. *)
Definition denotes (st : GVN) (n : nat) (e : Expr) : Prop :=
  exists r, entry_at st n r /\ eval p ρ r = eval p ρ e /\ type r = type e.

Record gvn_ok (σ : Scope nat) (st : GVN) : Prop := {
  go_scope : let_substitutions st = σ;
  go_canonical n e : entry_at st n e -> canonical e;
  go_closed n e c : entry_at st n e -> c ∈ children e -> exists m, (m < n)%nat /\ entry_at st m c;
  go_distinct n m e e' : entry_at st n e -> entry_at st m e' -> erase e = erase e' -> n = m;
  go_shallow e n : (e, n) ∈ shallow_numbering st -> denotes st n e;
  go_numbering e n : (e, n) ∈ numbering st -> entry_at st n e;
  go_complete n e : entry_at st n e -> (e, n) ∈ numbering st;
  go_lets x n : scope_get σ x = Ok n ->
    exists r, entry_at st n r /\ vars ρ !! x = eval p ρ r /\ G !! x = Some (type r)
}.

Definition extends (st st' : GVN) : Prop := gvn_entries st `prefix_of` gvn_entries st'.

Lemma extends_refl st : extends st st.
Proof. unfold extends. reflexivity. Qed.
Lemma extends_trans st1 st2 st3 : extends st1 st2 -> extends st2 st3 -> extends st1 st3.
Proof. unfold extends. apply transitivity. Qed.

Lemma entry_at_mono st st' n e : extends st st' -> entry_at st n e -> entry_at st' n e.
Proof. intros Hp (en & Hn & <-). exists en. split; [|done]. by eapply prefix_lookup_Some. Qed.
Lemma denotes_mono st st' n e : extends st st' -> denotes st n e -> denotes st' n e.
Proof. intros Hp (r & Hr & H). exists r. split; [by eapply entry_at_mono|done]. Qed.

Lemma entry_at_inj st n e e' : entry_at st n e -> entry_at st n e' -> e = e'.
Proof. intros (en & H & <-) (en' & H' & <-). congruence. Qed.

(** What [mutate] returns for [e]. *)
Definition numbered (σ : Scope nat) (st st' : GVN) (e r : Expr) : Prop :=
  gvn_ok σ st' /\ extends st st' /\ entry_at st' (number st') r /\ eval p ρ r = eval p ρ e /\ type r = type e.

(** ** Updates of the state *)
Lemma gvn_ok_same σ st st' : gvn_entries st' = gvn_entries st -> numbering st' = numbering st ->
  shallow_numbering st' = shallow_numbering st -> let_substitutions st' = let_substitutions st ->
  gvn_ok σ st -> gvn_ok σ st'.
Proof.
  intros He Hn Hs Hl [H1 H2 H3 H4 H5 H6 H7 H8].
  unfold denotes, entry_at in *. constructor; unfold denotes, entry_at; rewrite ?He, ?Hn, ?Hs, ?Hl; assumption.
Qed.

Lemma set_shallow_ok σ st e n : gvn_ok σ st -> denotes st n e -> gvn_ok σ (set_shallow e n st).
Proof.
  intros [H1 H2 H3 H4 H5 H6 H7 H8] Hd. constructor; try done.
  intros e' n' [[= -> ->]|Hin]%elem_of_cons; [done|by apply H5].
Qed.

Lemma set_lets_ok σ σ' st : gvn_ok σ st ->
  (forall x n, scope_get σ' x = Ok n -> exists r, entry_at st n r /\ vars ρ !! x = eval p ρ r /\ G !! x = Some (type r)) ->
  gvn_ok σ' (set_lets σ' st).
Proof. intros [H1 H2 H3 H4 H5 H6 H7 H8] Hl. by constructor. Qed.

Lemma return_entry_ok σ st0 st e n : gvn_ok σ st -> extends st0 st -> denotes st n e ->
  exists r st', return_entry n e st = Ok (Some r, st') /\ numbered σ st0 st' e r.
Proof.
  intros Hok Hx (r & (en & Hn & <-) & Hev & Hty). unfold return_entry. rewrite Hn, Hty, type_eqb_refl.
  eexists _, _. split; [done|]. split; [by apply (gvn_ok_same σ st)|]. split; [exact Hx|]. split; [by exists en|done].
Qed.

(** ** Lookups *)
Lemma find_shallow_ok l e n : find_shallow same_as l e = Some n -> (e, n) ∈ l.
Proof.
  unfold find_shallow. intros H. apply fmap_Some in H as ([k m] & H & ->).
  apply List.find_some in H as [Hin Hs]. apply same_node_sound in Hs as ->. by apply list_elem_of_In.
Qed.

Lemma find_deep_Some l e n : find_deep addr same_as l e = Some n ->
  exists k, (k, n) ∈ l /\ equal addr same_node (eref e) (eref k) = true.
Proof.
  unfold find_deep. intros H. apply fmap_Some in H as ([k m] & H & ->).
  apply List.find_some in H as [Hin Hs]. exists k. by rewrite list_elem_of_In.
Qed.

Lemma find_deep_None l e k n : find_deep addr same_as l e = None -> (k, n) ∈ l ->
  equal addr same_node (eref e) (eref k) = false.
Proof.
  unfold find_deep. intros H Hin. apply fmap_None in H.
  apply (List.find_none _ _ H (k, n)). by apply list_elem_of_In.
Qed.

(** A deep lookup only finds entries of the same value and type. *)
Lemma find_deep_denotes σ st e n : gvn_ok σ st -> wf e -> typed G e -> plain e = true ->
  find_deep addr same_as (numbering st) e = Some n -> denotes st n e.
Proof.
  intros Hok Hwf Ht Hp Hf. destruct (find_deep_Some _ _ _ Hf) as (k & Hin & Heq).
  pose proof (go_numbering _ _ Hok _ _ Hin) as Hk. pose proof (go_canonical _ _ Hok _ _ Hk) as Hc.
  apply equal_erase in Heq; [|done|apply Hc]. exists k. split; [done|].
  destruct (erase_value e k) as [-> ->]; try done; apply Hc.
Qed.

(** ** A new entry *)
Lemma entry_at_new st e n r : entry_at (add_entry e st) n r <->
  entry_at st n r \/ (n = List.length (gvn_entries st) /\ r = e).
Proof.
  unfold entry_at. simpl. split.
  - intros (en & Hn & <-). apply lookup_snoc_Some in Hn as [[_ Hn]|[-> <-]]; [left; by exists en|by right].
  - intros [(en & Hn & <-)|[-> ->]].
    + exists en. split; [|done]. apply lookup_app_l_Some, Hn.
    + exists (mkEntry e 0). split; [|done]. apply lookup_snoc_Some. by right.
Qed.

Lemma entry_at_lt st n e : entry_at st n e -> (n < List.length (gvn_entries st))%nat.
Proof. intros (en & Hn & _). by eapply lookup_lt_Some. Qed.

Lemma extends_add st e : extends st (add_entry e st).
Proof. unfold extends. simpl. by apply prefix_app_r. Qed.

Lemma denotes_new st n e r : denotes st n e -> denotes (add_entry r st) n e.
Proof. apply denotes_mono, extends_add. Qed.

Lemma denotes_self st n e : entry_at st n e -> denotes st n e.
Proof. intros H. by exists e. Qed.

Lemma add_entry_ok σ st e : gvn_ok σ st -> canonical e ->
  (forall c, c ∈ children e -> exists m, entry_at st m c) ->
  (forall n r, entry_at st n r -> erase r <> erase e) -> gvn_ok σ (add_entry e st).
Proof.
  intros Hok Hc Hch Hnew. pose proof Hok as [H1 H2 H3 H4 H5 H6 H7 H8].
  assert (Hself : entry_at (add_entry e st) (List.length (gvn_entries st)) e) by (apply entry_at_new; by right).
  constructor.
  - done.
  - intros n r [Hr|[_ ->]]%entry_at_new; eauto.
  - intros n r c [Hr|[-> ->]]%entry_at_new Hin.
    + destruct (H3 n r c Hr Hin) as (m & Hm & Hem). exists m. split; [done|]. apply entry_at_new. by left.
    + destruct (Hch c Hin) as [m Hm]. exists m. split; [by eapply entry_at_lt|]. apply entry_at_new. by left.
  - intros n m r r' [Hr|[-> ->]]%entry_at_new [Hr'|[-> ->]]%entry_at_new He; eauto.
    + by destruct (Hnew n r Hr).
    + by destruct (Hnew m r' Hr').
  - intros r n [[= -> ->]|Hin]%elem_of_cons; [by apply denotes_self|]. apply denotes_new. by apply H5.
  - intros r n [[= -> ->]|Hin]%elem_of_cons; [done|]. apply entry_at_new. left. by apply H6.
  - intros n r [Hr|[-> ->]]%entry_at_new; [right; by apply H7|left].
  - intros x n Hx. destruct (H8 x n Hx) as (r & Hr & H). exists r. split; [|done]. apply entry_at_new. by left.
Qed.

(** ** The second half of [mutate]

    [r] is what the visit built: canonical, made of entries, and equal to [e]. *)
Definition built_from (st : GVN) (e r : Expr) : Prop :=
  canonical r /\ (forall c, c ∈ children r -> exists m, entry_at st m c) /\
  eval p ρ r = eval p ρ e /\ type r = type e.

Lemma gvn_rebuild_ok σ visit st st1 e r : visit st = Ok (Some r, st1) -> gvn_ok σ st1 -> extends st st1 ->
  built_from st1 e r ->
  exists r' st', gvn_rebuild addr same_as visit e st = Ok (Some r', st') /\ numbered σ st st' e r'.
Proof.
  intros Hv Hok Hx (Hc & Hch & Hev & Hty). unfold gvn_rebuild. rewrite Hv. cbn [mbind res_bind deref].
  destruct (find_deep addr same_as (numbering st1) r) as [n|] eqn:Hf.
  - assert (Hd : denotes st1 n e).
    { destruct (find_deep_denotes σ st1 r n) as (k & Hk & Hek & Htk); try done; try apply Hc.
      exists k. by rewrite Hek, Htk. }
    apply (return_entry_ok σ st (set_shallow e n st1)); [by apply set_shallow_ok|exact Hx|exact Hd].
  - rewrite Hty, type_eqb_refl. cbn. eexists _, _. split; [done|].
    assert (Hnew : forall n k, entry_at st1 n k -> erase k <> erase r).
    { intros n k Hk Heq. pose proof (find_deep_None _ _ _ _ Hf (go_complete _ _ Hok _ _ Hk)) as Hne.
      pose proof (go_canonical _ _ Hok _ _ Hk) as Hck.
      rewrite (proj2 (equal_erase r k (ca_plain _ Hc) (ca_plain _ Hck))) in Hne; [done|]. by symmetry. }
    split; [by apply add_entry_ok|]. split; [eapply extends_trans; [done|apply extends_add]|].
    split; [|done]. apply entry_at_new. by right.
Qed.

(** ** The early outs *)
Lemma gvn_lookup_ok σ visit st e : gvn_ok σ st -> input_ok e ->
  (find_let e st = None ->
   exists r st', gvn_rebuild addr same_as visit e st = Ok (Some r, st') /\ numbered σ st st' e r) ->
  exists r st', gvn_lookup addr same_as visit e st = Ok (Some r, st') /\ numbered σ st st' e r.
Proof.
  intros Hok He Hr. unfold gvn_lookup.
  destruct (find_shallow same_as (shallow_numbering st) e) as [n|] eqn:Hs.
  { apply (return_entry_ok σ); [done|apply extends_refl|]. by apply (go_shallow _ _ Hok), find_shallow_ok. }
  destruct (find_let e st) as [n|] eqn:Hl.
  { apply (return_entry_ok σ); [done|apply extends_refl|]. destruct e; try done. simpl in Hl.
    rewrite (go_scope _ _ Hok) in Hl. destruct (scope_contains σ name); [|done].
    destruct (scope_get σ name) as [m|] eqn:Hg; [|done]. injection Hl as <-.
    destruct (go_lets _ _ Hok _ _ Hg) as (r & Hre & Hvar & HG). exists r. split; [done|].
    destruct He as [_ [_ Ht] _ _ _]. simpl in Ht. split; [by rewrite <- Hvar|]. simpl. congruence. }
  destruct (find_deep addr same_as (numbering st) e) as [n|] eqn:Hd; [|by apply Hr].
  assert (Hden : denotes st n e) by (by eapply find_deep_denotes; try done; apply He).
  apply (return_entry_ok σ st (set_shallow e n st)); [by apply set_shallow_ok|exact (extends_refl st)|done].
Qed.

(** ** The whole numbering *)

(** [gvn_mutate] on [e] in any scope that redirects the bound names free in [e]. *)
Definition numbers (e : Expr) : Prop := forall σ st, scope_wf σ -> gvn_ok σ st -> input_ok e ->
  (forall x, bound x -> free_in x e = true -> exists n, scope_get σ x = Ok n) ->
  exists r st', gvn_mutate addr same_as e st = Ok (Some r, st') /\ numbered σ st st' e r.

Lemma numbered_var σ st e : is_var e = true -> gvn_ok σ st -> input_ok e -> find_let e st = None ->
  (forall x, bound x -> free_in x e = true -> exists n, scope_get σ x = Ok n) -> canonical e.
Proof.
  destruct e; try done. intros _ Hok [Hwf Ht Hp Hs _] Hl Hb. constructor; try done.
  intros x Hx. destruct (free_in x _) eqn:Hf; [|done]. destruct (Hb x Hx Hf) as [n Hn].
  cbn [free_in] in Hf. apply bool_decide_eq_true in Hf as ->. simpl in Hl. rewrite (go_scope _ _ Hok) in Hl.
  rewrite (proj2 (scope_get_contains σ x)) in Hl by (by rewrite Hn). by rewrite Hn in Hl.
Qed.
(** A new child and the one it was made from. *)
Definition entry_for (st : GVN) (c r : Expr) : Prop :=
  exists n, entry_at st n r /\ eval p ρ r = eval p ρ c /\ type r = type c.

Lemma entry_for_mono st st' c r : extends st st' -> entry_for st c r -> entry_for st' c r.
Proof. intros Hx (n & Hn & H). exists n. split; [by eapply entry_at_mono|done]. Qed.

Lemma entry_for_type st c r : entry_for st c r -> type r = type c.
Proof. by intros (n & _ & _ & H). Qed.

Lemma entries_canonical σ st l cs : gvn_ok σ st -> Forall2 (entry_for st) l cs -> Forall canonical cs.
Proof.
  intros Hok. induction 1 as [|c r l cs (n & Hn & _) H IH]; constructor; [|done]. by eapply go_canonical.
Qed.

Lemma node_built σ st e cs : gvn_ok σ st -> input_ok e -> is_let e = false -> is_var e = false ->
  Forall2 (entry_for st) (children e) cs -> built_from st e (with_children e cs).
Proof.
  intros Hok He Hl Hv Hcs. pose proof (entries_canonical _ _ _ _ Hok Hcs) as Hca.
  pose proof (entry_for_type st) as Hty. destruct He as [Hwf Ht Hp Hs Hd].
  assert (Hev : eval p ρ (with_children e cs) = eval p ρ e).
  { eapply with_children_eval; [done|done|done|done| |]; [done|].
    eapply Forall2_impl; [exact Hcs|]. by intros c r (n & _ & H & _). }
  split; [|split; [|split; [exact Hev|by eapply with_children_type]]].
  - constructor.
    + eapply with_children_wf; [done|done|done|]. by eapply Forall_impl; [exact Hca|intros ? []].
    + eapply with_children_typed; [done|done|done|done|done|]. by eapply Forall_impl; [exact Hca|intros ? []].
    + eapply plain_with_children; [done|done|]. by eapply Forall_impl; [exact Hca|intros ? []].
    + by rewrite Hev.
    + eapply with_children_let_free; [done|done|]. by eapply Forall_impl; [exact Hca|intros ? []].
    + intros x Hx. destruct (free_in x _) eqn:Hf; [|done].
      destruct (with_children_free _ _ _ _ Hl Hv Hcs Hf) as (c & Hc & Hfc).
      rewrite Forall_forall in Hca. by rewrite (ca_free _ (Hca c Hc) x Hx) in Hfc.
  - intros c Hc. rewrite (children_with_children _ _ _ Hcs) in Hc.
    apply list_elem_of_lookup in Hc as [i Hc]. destruct (Forall2_lookup_r _ _ _ _ _ Hcs Hc) as (d & _ & n & Hn & _).
    by exists n.
Qed.

Lemma gvn_mutate_unfold e : gvn_mutate addr same_as e =
  gvn_lookup addr same_as
    match e with
    | Let name v b =>
        _ ← gvn_mutate addr same_as v;
        _ ← push_let name;
        body ← gvn_mutate addr same_as b;
        _ ← pop_let name;
        mret body
    | _ => visit_expr same_as (gvn_mutate addr same_as) e
    end e.
Proof. by destruct e. Qed.

Lemma numbers_var e : is_var e = true -> numbers e.
Proof.
  intros Hv σ st Hσ Hok He Hb. rewrite gvn_mutate_unfold. apply gvn_lookup_ok; [done|done|]. intros Hl.
  destruct e; try done. eapply (gvn_rebuild_ok σ _ st st); [reflexivity|done|apply extends_refl|].
  split; [by eapply numbered_var|]. split; [by intros c Hc%not_elem_of_nil|done].
Qed.

Lemma numbers_node e : is_let e = false -> is_var e = false -> Forall numbers (children e) -> numbers e.
Proof.
  intros Hl Hv Hch σ st Hσ Hok He Hb. rewrite gvn_mutate_unfold. apply gvn_lookup_ok; [done|done|]. intros _.
  assert (Hrel : Forall (relates (gvn_mutate addr same_as) (gvn_ok σ) extends entry_for) (children e)).
  { pose proof (input_children e Hl Hv He) as Hin. rewrite Forall_forall in Hch, Hin |- *.
    intros c Hc s Hs. destruct (Hch c Hc σ s Hσ Hs (Hin c Hc)) as (r & s' & H & Hn1 & Hn2 & Hn3 & Hn4 & Hn5).
    { intros x Hx Hf. apply Hb; [done|]. by eapply free_in_children. }
    exists r, s'. split; [done|]. split; [done|]. split; [done|]. by exists (number s'). }
  destruct (visit_expr_rel same_as same_as_sound _ (gvn_ok σ) extends entry_for extends_refl extends_trans entry_for_mono
    e Hrel) with st as (cs & st1 & H1 & Hok1 & Hx1 & HR); [|done|].
  { intros s cs Hs HR. eapply with_children_wf_node; [apply (entry_for_type s)|done|]. by apply wf_here, He. }
  eapply (gvn_rebuild_ok σ _ st st1 e (with_children e cs)); [|done|done|by eapply node_built].
  rewrite <- H1. by destruct e.
Qed.
Lemma push_let_ok σ st name e r : scope_wf σ -> gvn_ok σ st -> entry_at st (number st) r ->
  vars ρ !! name = eval p ρ e -> G !! name = Some (type e) -> eval p ρ r = eval p ρ e -> type r = type e ->
  let σ' := scope_push σ name (number st) in
  push_let name st = Ok (tt, set_lets σ' st) /\ gvn_ok σ' (set_lets σ' st).
Proof.
  intros Hσ Hok Hr Hv HG He Ht σ'. unfold push_let. rewrite (go_scope _ _ Hok). split; [done|].
  apply (set_lets_ok σ); [done|]. intros x n Hx. unfold σ' in Hx. rewrite scope_get_push in Hx by done.
  case_decide as Hn; [|by apply (go_lets _ _ Hok)]. injection Hx as <-. subst x. exists r.
  split; [done|]. split; congruence.
Qed.

Lemma pop_let_ok σ st0 st name n : scope_wf σ -> gvn_ok σ st0 -> extends st0 st ->
  gvn_ok (scope_push σ name n) st ->
  pop_let name st = Ok (tt, set_lets σ st) /\ gvn_ok σ (set_lets σ st).
Proof.
  intros Hσ Hok0 Hx Hok. unfold pop_let. rewrite (go_scope _ _ Hok), (scope_pop_push _ _ _ Hσ). split; [done|].
  eapply set_lets_ok; [done|]. intros x m Hm. destruct (go_lets _ _ Hok0 x m Hm) as (r & Hr & H).
  exists r. split; [by eapply entry_at_mono|done].
Qed.

Lemma numbers_let n v b : numbers v -> numbers b -> numbers (Let n v b).
Proof.
  intros IHv IHb σ st Hσ Hok He Hb. rewrite gvn_mutate_unfold. apply gvn_lookup_ok; [done|done|]. intros _.
  destruct (input_let n v b He) as (Hiv & Hib & Hvar & HG & Hev & Hbn).
  destruct (IHv σ st Hσ Hok Hiv) as (r1 & s1 & H1 & Hok1 & Hx1 & Hr1 & Ev1 & Ty1).
  { intros x Hx Hf. apply Hb; [done|]. simpl. by rewrite Hf. }
  destruct (push_let_ok σ s1 n v r1 Hσ Hok1 Hr1 Hvar HG Ev1 Ty1) as [Hpush Hok1'].
  set (σ' := scope_push σ n (number s1)) in *.
  destruct (IHb σ' (set_lets σ' s1)) as (r2 & s2 & H2 & Hok2 & Hx2 & Hr2 & Ev2 & Ty2);
    [by apply scope_push_wf|done|done| |].
  { intros x Hx Hf. unfold σ'. rewrite scope_get_push by done. case_decide; [by eexists|].
    apply Hb; [done|]. simpl. rewrite Hf, bool_decide_eq_false_2 by congruence. apply orb_true_r. }
  assert (Hx : extends s1 s2) by exact Hx2.
  destruct (pop_let_ok σ s1 s2 n (number s1) Hσ Hok1 Hx Hok2) as [Hpop Hok2'].
  eapply (gvn_rebuild_ok σ _ st (set_lets σ s2) (Let n v b) r2); [|done|by eapply extends_trans|].
  - rewrite (mut_bind_run _ _ _ _ _ H1), (mut_bind_run _ _ _ _ _ Hpush), (mut_bind_run _ _ _ _ _ H2),
      (mut_bind_run _ _ _ _ _ Hpop). done.
  - split; [by eapply go_canonical|]. split; [|by rewrite Hev].
    intros c Hc. destruct (go_closed _ _ Hok2 _ _ _ Hr2 Hc) as (m & _ & Hm). by exists m.
Qed.

Lemma gvn_mutate_ok e : numbers e.
Proof.
  induction e as [e IH] using Expr_children_ind. destruct (view e) as [t n i q r ->|n v b ->|Hl Hv _].
  - by apply numbers_var.
  - simpl in IH. rewrite !Forall_cons in IH. destruct IH as (IH1 & IH2 & _). by apply numbers_let.
  - by apply numbers_node.
Qed.

Lemma gvn_new_ok : gvn_ok scope_new gvn_new.
Proof.
  assert (Hno : forall n e, ~ entry_at gvn_new n e) by (intros n e (en & He & _); simpl in He; by rewrite lookup_nil in He).
  constructor; try done; try (intros; exfalso; by eapply Hno).
  - by intros e n ?%not_elem_of_nil.
  - by intros e n ?%not_elem_of_nil.
Qed.
End Meaning.
