(* ===== verification/CSEReplace.v ===== *)
(** Common subexpression elimination, second half: the expressions chosen by the use
    counts are replaced by variables, and lets around the result give the variables
    their values. The theorem composes this with the value numbering. *)

From Stdlib Require Import ZArith Lia Bool SpecFloat String Ascii.
From stdpp Require Import prelude strings pretty gmap.
From S2P Require Import Prelude Types IR Semantics Scope Operators Mutator Visitor Substitute Rebuild LetValues Equality EqualityMeaning CSE CSESound.

#[local] Open Scope Z_scope.
#[local] Open Scope halide_scope.

(** * Subexpressions *)
Inductive within (a : Expr) : Expr -> Prop :=
| within_refl : within a a
| within_child c e : c ∈ children e -> within a c -> within a e.

(** No expression of the list occurs strictly inside an earlier one, nor in itself. *)
Fixpoint topological (l : list Expr) : Prop :=
  match l with
  | [] => True
  | e :: l' => (forall a c, a ∈ l -> c ∈ children e -> ~ within a c) /\ topological l'
  end.

Lemma topological_sublist l l' : l' `sublist_of` l -> topological l -> topological l'.
Proof.
  induction 1 as [|x l1 l2 H IH|x l1 l2 H IH]; simpl; [done| |tauto].
  intros [H1 H2]. split; [|by apply IH]. intros a c Ha. apply H1.
  apply elem_of_cons in Ha as [->|Ha]; [left|right]. by eapply elem_of_sublist.
Qed.

Lemma topological_intro l :
  (forall n m e a c, (n <= m)%nat -> l !! n = Some e -> l !! m = Some a -> c ∈ children e -> ~ within a c) ->
  topological l.
Proof.
  induction l as [|e l IH]; intros H; simpl; [done|]. split.
  - intros a c Ha. apply list_elem_of_lookup in Ha as [m Ha]. by apply (H 0%nat m); [lia|done|].
  - apply IH. intros n m x a c Hn Hx Ha. by apply (H (S n) (S m)); [lia|..].
Qed.

(** * Use counts leave the expressions alone *)
Lemma incr_use_exprs n es : entry_expr <$> incr_use n es = entry_expr <$> es.
Proof.
  unfold incr_use. apply list_eq. intros i. rewrite !list_lookup_fmap.
  destruct (decide (n = i)) as [->|Hn].
  - rewrite list_lookup_alter_eq. by destruct (es !! i).
  - by rewrite list_lookup_alter_ne.
Qed.

(** * The values of the new variables *)
Definition bind_all {A} (f : Expr -> option A) (l : list (string * Expr)) (m : gmap string A) : gmap string A :=
  fold_left (fun m '(x, e) => match f e with Some a => <[x := a]> m | None => m end) l m.

Lemma bind_all_snoc {A} (f : Expr -> option A) l x e a m : f e = Some a ->
  bind_all f (l ++ [(x, e)]) m = <[x := a]> (bind_all f l m).
Proof. intros H. unfold bind_all. rewrite fold_left_app. simpl. by rewrite H. Qed.

Lemma bind_all_other {A} (f : Expr -> option A) l : forall m x, x ∉ l.*1 -> bind_all f l m !! x = m !! x.
Proof.
  induction l as [|[y e] l IH]; intros m x Hx; [done|]. rewrite fmap_cons, not_elem_of_cons in Hx.
  destruct Hx as [Hn Hx]. simpl. rewrite IH by done. destruct (f e); [|done]. by rewrite lookup_insert_ne.
Qed.

Lemma bind_all_in {A} (f : Expr -> option A) l : forall m x e, NoDup l.*1 -> (x, e) ∈ l -> is_Some (f e) ->
  bind_all f l m !! x = f e.
Proof.
  induction l as [|[y d] l IH]; intros m x e Hn Hx [a Ha]; [by apply not_elem_of_nil in Hx|].
  rewrite fmap_cons, NoDup_cons in Hn. destruct Hn as [Hy Hn]. simpl. apply elem_of_cons in Hx as [[= -> ->]|Hx]; [|apply IH; [done|done|by eexists]].
  rewrite Ha, bind_all_other by done. by rewrite lookup_insert_eq.
Qed.

Section Meaning.
Context (same_as : ExprRef -> ExprRef -> bool).
Hypothesis same_as_sound : forall a b, same_as a b = true -> a = b.

Lemma include_uses_exprs sh e : forall s,
  entry_expr <$> fst (include_uses same_as sh e s) = entry_expr <$> fst s.
Proof.
  induction e as [e IH] using Expr_children_ind.
  assert (Hg : forall s, entry_expr <$> fst (graph_visit (include_uses same_as sh) e s) = entry_expr <$> fst s).
  { intros s. rewrite graph_visit_children. revert s. induction IH as [|c l Hc H IHl]; intros s; simpl; [done|].
    by rewrite IHl, Hc. }
  assert (Hu : include_uses same_as sh e = fun s =>
    if negb (should_extract e) then graph_visit (include_uses same_as sh) e s
    else
      let '(es, visited) := s in
      let es := match find_shallow same_as sh e with Some n => incr_use n es | None => es end in
      if existsb (same_node same_as e) visited then (es, visited)
      else graph_visit (include_uses same_as sh) e (es, e :: visited)) by (by destruct e).
  intros s. rewrite Hu. destruct (should_extract e); [|apply Hg]. destruct s as [es visited]. cbn [negb].
  set (es' := match _ with Some n => incr_use n es | None => es end).
  assert (He : entry_expr <$> es' = entry_expr <$> es)
    by (unfold es'; destruct (find_shallow same_as sh e); [apply incr_use_exprs|done]).
  destruct (existsb _ visited); [done|]. rewrite Hg. done.
Qed.

(** * Names *)

(** The counter of the names made from [t]. *)
Definition t_bucket : Z := Z.land (Z.of_N (N_of_ascii "t")) (num_unique_name_counters - 1).
Definition t_name (n : Z) : string := String "t" (pretty n).
Definition t_count (cs : name_counters) : Z := default 0 (cs !! t_bucket).

(** [x] is not a name [unique_name] can still make. *)
Definition settled (cs : name_counters) (x : string) : Prop := forall n, t_count cs <= n -> x <> t_name n.

Lemma t_name_inj n m : t_name n = t_name m -> n = m.
Proof. intros [= H]. by apply (inj pretty) in H. Qed.

Lemma unique_t cs : exists cs', unique_name "t" cs = (t_name (t_count cs), cs') /\ t_count cs' = t_count cs + 1.
Proof.
  unfold unique_name, unique_count. rewrite bool_decide_eq_false_2 by done. fold t_bucket.
  eexists. split; [done|]. unfold t_count. by rewrite (lookup_insert_eq (M:=gmap Z) cs).
Qed.

Record chosen (cs : name_counters) (es : list Entry) (lets : list (string * Expr)) : Prop := {
  ch_exprs : lets.*2 = entry_expr <$> List.filter (fun en => 1 <? use_count en) es;
  ch_names : lets.*1 = t_name <$> seqZ (t_count cs) (Z.of_nat (List.length lets))
}.

Definition var_of (x : string * Expr) : Expr * ExprRef :=
  (snd x, Some (Var (type (snd x)) (fst x) None None None)).

Lemma choose_lets_ok es : forall lets m cs,
  exists lets' cs', choose_lets es lets m cs =
      Ok (lets ++ lets', mkMemo (rev (var_of <$> lets') ++ expr_replacements m) (stmt_replacements m), cs') /\
    chosen cs es lets'.
Proof.
  induction es as [|en es IH]; intros lets m cs; cbn [choose_lets].
  - exists [], cs. rewrite app_nil_r. split; [by destruct m|by constructor].
  - destruct (1 <? use_count en) eqn:Hu.
    + destruct (unique_t cs) as (cs1 & -> & Hc1). unfold Variable_make.
      rewrite bool_decide_eq_false_2 by done. cbn [negb guard mbind res_bind].
      set (m1 := set_replacement (entry_expr en) (eref (Var (type (entry_expr en)) (t_name (t_count cs)) None None None)) m).
      destruct (IH (lets ++ [(t_name (t_count cs), entry_expr en)]) m1 cs1) as (l & cs' & Hl & [H1 H2]).
      exists ((t_name (t_count cs), entry_expr en) :: l), cs'. split.
      * etransitivity; [exact Hl|]. rewrite <- app_assoc. unfold m1, set_replacement. simpl. by rewrite <- app_assoc.
      * constructor; cbn [List.filter List.length]; rewrite ?Hu, ?fmap_cons; [by rewrite H1|].
        rewrite (seqZ_cons (t_count cs)), fmap_cons, H2, Hc1 by lia. cbn [fst]. do 3 f_equal; lia.
    + destruct (IH lets m cs) as (l & cs' & -> & [H1 H2]). exists l, cs'. split; [done|].
      constructor; cbn [List.filter]; by rewrite ?Hu.
Qed.
End Meaning.

(** * Replacement *)
Section Replacement.
Context (same_as : ExprRef -> ExprRef -> bool).
Hypothesis same_as_sound : forall a b, same_as a b = true -> a = b.
Context (p : overflow) (ρ : env) (G : gmap string Ty) (bound : string -> Prop) (lets : list (string * Expr)).

(** Expressions the replacer sees: canonical, and without the new names. *)
Definition clean (e : Expr) : Prop :=
  canonical p ρ G bound e /\ forall x, x ∈ lets.*1 -> free_in x e = false.

Hypothesis lets_clean : forall x e, (x, e) ∈ lets -> clean e.
Hypothesis lets_nodup : NoDup lets.*1.
Hypothesis lets_topological : topological lets.*2.
Hypothesis lets_unbound : forall x, x ∈ lets.*1 -> ~ bound x /\ x <> EmptyString.

(** The environment and the types where the lets of [l] are in scope. *)
Definition env_with (l : list (string * Expr)) : env := at_vars ρ (bind_all (eval p ρ) l (vars ρ)).
Definition types_with (l : list (string * Expr)) : gmap string Ty := bind_all (fun e => Some (type e)) l G.

Record replaced (c r : Expr) : Prop := {
  rp_type : type r = type c;
  rp_wf : wf r;
  rp_typed : typed (types_with lets) r;
  rp_value : eval p (env_with lets) r = eval p ρ c;
  rp_let_free : let_free r;
  rp_free x : free_in x r = true -> free_in x c = true \/ exists e, (x, e) ∈ lets /\ within e c
}.

(** [r] is [c] with something below the root replaced. *)
Definition replaced_below (c r : Expr) : Prop :=
  replaced c r /\ forall x, free_in x r = true ->
    free_in x c = true \/ exists e d, (x, e) ∈ lets /\ d ∈ children c /\ within e d.

Lemma clean_let e : clean e -> is_let e = false.
Proof. intros [[_ _ _ _ H _] _]. destruct e; try done. by destruct H as [[] _]. Qed.

Lemma clean_children e : is_var e = false -> clean e -> Forall clean (children e).
Proof.
  intros Hv Hc. pose proof (clean_let e Hc) as Hl. destruct Hc as [[Hwf Ht Hp Hs Hf Hb] Hx].
  apply wf_children in Hwf. apply typed_children in Ht; [|done]. apply plain_children in Hp.
  apply eval_children_Some in Hs; [|done..]. apply lets_avoid_children in Hf.
  rewrite Forall_forall in Hwf, Ht, Hp, Hs, Hf |- *.
  assert (Hfr : forall c x, c ∈ children e -> free_in x e = false -> free_in x c = false).
  { intros c x Hc Hfe. destruct (free_in x c) eqn:E; [|done]. by rewrite (free_in_children x e c) in Hfe. }
  intros c Hc. split; [constructor; auto; by apply Hf|auto].
Qed.

Lemma clean_env e : clean e -> eval p (env_with lets) e = eval p ρ e.
Proof.
  intros [_ Hx]. apply eval_free; [done|]. intros x Hf. simpl. apply bind_all_other. intros Hin.
  by rewrite Hx in Hf.
Qed.

Lemma clean_typed e : clean e -> typed (types_with lets) e.
Proof.
  intros [[_ Ht _ _ _ _] Hx]. eapply typed_free; [|exact Ht]. intros x Hf. symmetry. apply bind_all_other.
  intros Hin. by rewrite Hx in Hf.
Qed.

Lemma replaced_var e : is_var e = true -> clean e -> replaced_below e e.
Proof.
  intros Hv Hc. split; [|by auto]. constructor; [done|apply Hc|by apply clean_typed|by apply clean_env|apply Hc|by auto].
Qed.

Lemma replaced_node e cs : clean e -> is_var e = false -> Forall2 replaced (children e) cs ->
  replaced_below e (with_children e cs).
Proof.
  intros Hc Hv Hcs. pose proof (clean_let e Hc) as Hl.
  assert (Hf : forall x, free_in x (with_children e cs) = true ->
    free_in x e = true \/ exists a d, (x, a) ∈ lets /\ d ∈ children e /\ within a d).
  { intros x Hx. destruct (with_children_free _ _ _ _ Hl Hv Hcs Hx) as (r & Hr & Hfr).
    apply list_elem_of_lookup in Hr as [i Hr]. destruct (Forall2_lookup_r _ _ _ _ _ Hcs Hr) as (d & Hd & Hrd).
    apply list_elem_of_lookup_2 in Hd. destruct (rp_free _ _ Hrd x Hfr) as [H|(a & Ha & Hw)].
    - left. by eapply free_in_children.
    - right. by exists a, d. }
  assert (Hall : forall P : Expr -> Prop, (forall c r, replaced c r -> P r) -> Forall P cs).
  { intros P HP. apply Forall_forall. intros r Hr. apply list_elem_of_lookup in Hr as [i Hr].
    destruct (Forall2_lookup_r _ _ _ _ _ Hcs Hr) as (d & _ & Hrd). by eapply HP. }
  split; [|done]. constructor.
  - eapply with_children_type; [apply rp_type|done].
  - eapply with_children_wf; [apply rp_type|done|apply Hc|]. by apply Hall; intros ? ? [].
  - eapply with_children_typed; [apply rp_type|done|done|done|by apply clean_typed|]. by apply Hall; intros ? ? [].
  - eapply with_children_eval; [apply rp_type|done|done|done|done|].
    eapply Forall2_impl; [exact Hcs|]. by intros ? ? [].
  - eapply with_children_let_free; [done|done|]. by apply Hall; intros ? ? [].
  - intros x Hx. destruct (Hf x Hx) as [H|(a & d & Ha & Hd & Hw)]; [by left|right].
    exists a. split; [done|]. by eapply within_child.
Qed.
(** ** The memo *)
Definition memo_rel (m : graph_memo) : Prop := forall c r, (c, r) ∈ expr_replacements m ->
  exists r', r = Some r' /\ replaced c r'.

Lemma find_expr_in l e r : find_expr same_as l e = Some r -> (e, r) ∈ l.
Proof.
  induction l as [|[k r'] l IH]; simpl; [done|]. destruct (same_as (eref e) (eref k)) eqn:E.
  - apply same_as_sound in E. injection E as ->. intros [= ->]. left.
  - intros H. right. by apply IH.
Qed.

Lemma memo_add c r m l : memo_rel m -> replaced c r -> memo_rel (mkMemo ((c, Some r) :: expr_replacements m) l).
Proof.
  intros Hm Hr c' r' [H|H]%elem_of_cons; [|by apply Hm]. injection H as -> ->. by exists r.
Qed.

Definition replaces (c : Expr) : Prop :=
  relates (replacer_mutate same_as) memo_rel (fun _ _ => True) (fun _ => replaced) c.

Lemma replacer_visit e : clean e -> Forall replaces (children e) -> forall m, memo_rel m ->
  exists r m', visit_expr same_as (replacer_mutate same_as) e m = Ok (Some r, m') /\ memo_rel m' /\ replaced_below e r.
Proof.
  intros Hc Hch m Hm. destruct (is_var e) eqn:Hv.
  - exists e, m. split; [by destruct e|]. split; [done|by apply replaced_var].
  - destruct (visit_expr_rel same_as same_as_sound (replacer_mutate same_as) memo_rel (fun _ _ => True) (fun _ => replaced))
      with (e := e) (s := m) as (cs & m' & H & Hm' & _ & HR); try done.
    { intros s cs Hs HR. eapply with_children_wf_node; [apply rp_type|done|]. apply wf_here, Hc. }
    exists (with_children e cs), m'. split; [done|]. split; [done|by apply replaced_node].
Qed.

Lemma replacer_unfold e :
  replacer_mutate same_as e = graph_mutate same_as (visit_expr same_as (replacer_mutate same_as) e) e.
Proof. by destruct e. Qed.

Lemma replacer_miss e m : clean e -> Forall replaces (children e) -> memo_rel m ->
  find_expr same_as (expr_replacements m) e = None ->
  exists r m', replacer_mutate same_as e m = Ok (Some r, m') /\ memo_rel m' /\ replaced_below e r.
Proof.
  intros Hc Hch Hm Hf. rewrite replacer_unfold. unfold graph_mutate. rewrite Hf.
  destruct (replacer_visit e Hc Hch m Hm) as (r & m' & -> & Hm' & Hr). cbn [mbind res_bind].
  exists r. eexists. split; [done|]. split; [|done]. apply memo_add; [done|apply Hr].
Qed.

Lemma replacer_ok e : clean e -> replaces e.
Proof.
  induction e as [e IH] using Expr_children_ind. intros Hc m Hm.
  assert (Hch : Forall replaces (children e)).
  { destruct (is_var e) eqn:Hv; [by destruct e|]. pose proof (clean_children e Hv Hc) as Hcc.
    rewrite Forall_forall in IH, Hcc |- *. auto. }
  destruct (find_expr same_as (expr_replacements m) e) as [r|] eqn:Hf.
  - destruct (Hm e r (find_expr_in _ _ _ Hf)) as (r' & -> & Hr). exists r', m.
    rewrite replacer_unfold. unfold graph_mutate. by rewrite Hf.
  - destruct (replacer_miss e m Hc Hch Hm Hf) as (r & m' & H & Hm' & Hr & _). by exists r, m'.
Qed.

Lemma clean_children_ok e : clean e -> Forall replaces (children e).
Proof.
  intros Hc. destruct (is_var e) eqn:Hv; [by destruct e|].
  eapply Forall_impl; [by apply clean_children|apply replacer_ok].
Qed.

Lemma erase_ok e m : memo_rel m -> exists m', erase_replacement same_as e m = Ok (tt, m') /\ memo_rel m' /\
  find_expr same_as (expr_replacements m') e = None.
Proof.
  intros Hm. eexists. split; [done|]. split.
  - intros c r Hin. apply Hm. simpl in Hin. apply list_elem_of_In in Hin. apply list_elem_of_In.
    by apply List.filter_In in Hin as [? _].
  - simpl. induction (expr_replacements m) as [|[k r] l IH]; simpl; [done|].
    destruct (same_node same_as e k) eqn:E; simpl; [done|]. unfold same_node in E. by rewrite E.
Qed.

Lemma var_replaced x e : (x, e) ∈ lets -> replaced e (Var (type e) x None None None).
Proof.
  intros Hx. destruct (lets_clean x e Hx) as [Hc _].
  assert (Hn : x <> EmptyString) by (apply lets_unbound, list_elem_of_fmap; by exists (x, e)).
  constructor; try done.
  - split; [eapply ty_ok_type; apply Hc|]. unfold types_with. by apply (bind_all_in (fun e => Some (type e))).
  - simpl. apply bind_all_in; [done|done|apply Hc].
  - simpl. intros y Hy. apply bool_decide_eq_true in Hy as ->. right. exists e. split; [done|constructor].
Qed.

Lemma initial_memo_ok l : memo_rel (mkMemo (rev (var_of <$> lets)) l).
Proof.
  intros c r Hin. cbn [expr_replacements] in Hin. apply list_elem_of_In, in_rev, list_elem_of_In in Hin.
  apply list_elem_of_fmap in Hin as ([x e] & [= -> ->] & Hx). eexists. split; [done|]. by apply var_replaced.
Qed.
(** ** The lets

    What holds of the expression built so far, where the lets of [l] are to be added. *)
Record wrapped (val : value) (t : Ty) (l : list (string * Expr)) (e : Expr) : Prop := {
  wr_wf : wf e;
  wr_type : type e = t;
  wr_typed : typed (types_with l) e;
  wr_value : eval p (env_with l) e = Some val;
  wr_free x : bound x -> free_in x e = false
}.

(** The expression of a let only mentions the new names of the lets before it. *)
Lemma let_scope l1 x e l2 r : lets = l1 ++ (x, e) :: l2 -> replaced_below e r ->
  forall y, free_in y r = true -> (free_in y e = true /\ y ∉ lets.*1) \/ exists d, (y, d) ∈ l1.
Proof.
  intros Hl [_ Hr] y Hy. destruct (Hr y Hy) as [Hf|(a & d & Ha & Hd & Hw)].
  - left. split; [done|]. intros Hin. destruct (lets_clean x e) as [_ Hc]; [rewrite Hl; set_solver|].
    by rewrite Hc in Hf.
  - right. rewrite Hl in Ha. apply elem_of_app in Ha as [Ha|Ha]; [by exists a|]. exfalso.
    assert (Htop : topological (((x, e) :: l2).*2)).
    { eapply topological_sublist; [|exact lets_topological]. rewrite Hl, fmap_app. by apply sublist_inserts_l. }
    destruct Htop as [Ht _]. eapply (Ht a d); [|done|done]. apply (list_elem_of_fmap_2 snd _ _ Ha).
Qed.

Lemma bind_all_before {A} (f : Expr -> option A) l1 l2 m y d : lets = l1 ++ l2 -> (y, d) ∈ l1 ->
  is_Some (f d) -> bind_all f l1 m !! y = bind_all f lets m !! y.
Proof.
  intros Hl Hy Hf. rewrite (bind_all_in f lets m y d); [|done|rewrite Hl; set_solver|done].
  apply bind_all_in; [|done|done]. rewrite Hl, fmap_app in lets_nodup. by apply NoDup_app in lets_nodup as [? _].
Qed.

Lemma wrap_step val t l1 x e l2 r b : lets = l1 ++ (x, e) :: l2 -> replaced_below e r ->
  wrapped val t (l1 ++ [(x, e)]) b -> wrapped val t l1 (Let x r b).
Proof.
  intros Hl Hr [Hwf Hty Htd Hv Hf]. pose proof (let_scope _ _ _ _ _ Hl Hr) as Hsc. destruct Hr as [Hr _].
  destruct (lets_clean x e) as [Hc _]; [rewrite Hl; set_solver|].
  assert (Hout : forall y, y ∉ lets.*1 -> y ∉ l1.*1) by (intros y; rewrite Hl; set_solver).
  assert (Hlk : forall A (f : Expr -> option A) m y, (forall d, (y, d) ∈ l1 -> is_Some (f d)) ->
    free_in y r = true -> bind_all f l1 m !! y = bind_all f lets m !! y).
  { intros A f m y Hs Hy. destruct (Hsc y Hy) as [[_ Hn]|[d Hd]].
    - rewrite !bind_all_other; [done|done|by apply Hout].
    - eapply (bind_all_before f l1 ((x, e) :: l2)); [done|done|by apply Hs]. }
  assert (Hev : eval p (env_with l1) r = eval p ρ e).
  { rewrite <- (rp_value _ _ Hr). apply eval_free; [done|]. intros y Hy. simpl. apply Hlk; [|done].
    intros d Hd. destruct (lets_clean y d) as [Hcd _]; [rewrite Hl; set_solver|]. apply Hcd. }
  destruct (ca_value _ _ _ _ _ Hc) as [w Hw].
  constructor; simpl.
  - split; [done|]. split; [apply Hr|done].
  - done.
  - rewrite (rp_type _ _ Hr). split.
    + eapply typed_free; [|apply Hr]. intros y Hy. symmetry. apply Hlk; [by eexists|done].
    + unfold types_with in Htd. by rewrite (bind_all_snoc _ _ _ _ (type e)) in Htd.
  - rewrite Hev, Hw. cbn [mbind option_bind]. rewrite <- Hv. unfold env_with, bind_var. simpl.
    by rewrite (bind_all_snoc _ _ _ _ w).
  - intros y Hy. rewrite (Hf y Hy), andb_false_r, orb_false_r. destruct (free_in y r) eqn:E; [|done].
    destruct (Hsc y E) as [[He _]|[d Hd]]; [by rewrite (ca_free _ _ _ _ _ Hc y Hy) in He|].
    destruct (lets_unbound y) as [Hn _]; [|done]. rewrite Hl. set_solver.
Qed.

Lemma wrap_lets_ok val t l1 : forall l2 b m, lets = l1 ++ l2 -> memo_rel m -> wrapped val t l1 b ->
  exists b' m', wrap_lets same_as (rev l1) (eref b) m = Ok (eref b', m') /\ wrapped val t [] b'.
Proof.
  induction l1 as [|[x e] l1 IH] using rev_ind; intros l2 b m Hl Hm Hb; [by exists b, m|].
  rewrite <- app_assoc in Hl. simpl in Hl.
  assert (Hc : clean e) by (apply (lets_clean x); rewrite Hl; set_solver).
  destruct (erase_ok e m Hm) as (m1 & H1 & Hm1 & Hf).
  destruct (replacer_miss e m1 Hc (clean_children_ok e Hc) Hm1 Hf) as (r & m2 & H2 & Hm2 & Hr).
  destruct (IH ((x, e) :: l2) (Let x r b) m2 Hl Hm2 (wrap_step val t l1 x e l2 r b Hl Hr Hb)) as (b' & m' & H3 & Hb').
  exists b', m'. split; [|done]. rewrite rev_app_distr. cbn [rev app wrap_lets].
  rewrite (mut_bind_run _ _ _ _ _ H1), (mut_bind_run _ _ _ _ _ H2). exact H3.
Qed.

(** The replacement and the lets together. *)
Lemma replacement_ok e l val : clean e -> eval p ρ e = Some val ->
  exists b m b' m', replacer_mutate same_as e (mkMemo (rev (var_of <$> lets)) l) = Ok (eref b, m) /\
    wrap_lets same_as (rev lets) (eref b) m = Ok (eref b', m') /\ wrapped val (type e) [] b'.
Proof.
  intros Hc Hv. destruct (replacer_ok e Hc _ (initial_memo_ok l)) as (b & m & H1 & Hm & _ & Hr).
  destruct (wrap_lets_ok val (type e) lets [] b m) as (b' & m' & H2 & Hb'); [by rewrite app_nil_r|done| |by exists b, m, b', m'].
  constructor; try apply Hr.
  - by rewrite (rp_value _ _ Hr).
  - intros y Hy. destruct (free_in y b) eqn:E; [|done]. destruct (rp_free _ _ Hr y E) as [Hf|(a & Ha & _)].
    + destruct Hc as [Hc _]. by rewrite (ca_free _ _ _ _ _ Hc y Hy) in Hf.
    + destruct (lets_unbound y) as [Hn _]; [|done]. apply list_elem_of_fmap. by exists (y, a).
Qed.
End Replacement.

(** * The whole pass *)
Section Pass.
Context (addr : Expr -> Z) (same_as : ExprRef -> ExprRef -> bool).
Hypothesis same_as_sound : forall a b, same_as a b = true -> a = b.

(** The names of an expression, free or bound by a let. *)
Definition occurs (x : string) (e : Expr) : Prop := free_in x e = true \/ let_name e x.

Lemma canonical_weaken p ρ G (P Q : string -> Prop) e : (forall x, Q x -> P x) ->
  canonical p ρ G P e -> canonical p ρ G Q e.
Proof. intros H [? ? ? ? ? Hf]. constructor; auto. Qed.

Lemma entries_within p ρ G bound σ st n e a : gvn_ok p ρ G bound σ st -> entry_at st n e -> within a e ->
  exists m, (m <= n)%nat /\ entry_at st m a.
Proof.
  intros Hok He Hw. revert n He. induction Hw as [|c e Hc Hw IH]; intros n He; [by exists n|].
  destruct (go_closed _ _ _ _ _ _ Hok n e c He Hc) as (k & Hk & Hek). destruct (IH k Hek) as (m & Hm & Ha).
  exists m. split; [lia|done].
Qed.

Lemma entries_topological p ρ G bound σ st : gvn_ok p ρ G bound σ st ->
  topological (entry_expr <$> gvn_entries st).
Proof.
  intros Hok. apply topological_intro. intros n m e a c Hnm He Ha Hc Hw.
  assert (Hat : forall k x, (entry_expr <$> gvn_entries st) !! k = Some x -> entry_at st k x).
  { intros k x Hk. rewrite list_lookup_fmap in Hk. by apply fmap_Some in Hk as (en & Hk & ->); exists en. }
  destruct (go_closed _ _ _ _ _ _ Hok n e c (Hat _ _ He) Hc) as (k & Hk & Hck).
  destruct (entries_within _ _ _ _ _ _ _ _ a Hok Hck Hw) as (j & Hj & Haj).
  pose proof (go_distinct _ _ _ _ _ _ Hok _ _ _ _ (Hat _ _ Ha) Haj eq_refl). lia.
Qed.

Lemma filter_map_sublist {A B} (f : A -> bool) (g : A -> B) (l : list A) :
  g <$> List.filter f l `sublist_of` g <$> l.
Proof. induction l as [|x l IH]; simpl; [done|]. by destruct (f x); constructor. Qed.

(** The lets chosen from the entries of a numbering. *)
Record lets_ok p ρ G (e : Expr) (cs : name_counters) (lets : list (string * Expr)) : Prop := {
  lo_entry x d : (x, d) ∈ lets -> canonical p ρ G (fun y => let_name e y \/ ~ settled cs y) d;
  lo_nodup : NoDup lets.*1;
  lo_topological : topological lets.*2;
  lo_name x : x ∈ lets.*1 -> ~ settled cs x
}.

Lemma chosen_ok p ρ G e cs es lets st :
  gvn_ok p ρ G (fun y => let_name e y \/ ~ settled cs y) scope_new st ->
  entry_expr <$> es = entry_expr <$> gvn_entries st -> chosen cs es lets -> lets_ok p ρ G e cs lets.
Proof.
  intros Hok He [H1 H2].
  assert (Hsub : lets.*2 `sublist_of` entry_expr <$> gvn_entries st).
  { rewrite H1, <- He. apply filter_map_sublist. }
  constructor.
  - intros x d Hx. apply (list_elem_of_fmap_2 snd) in Hx. cbn [snd] in Hx. eapply elem_of_sublist in Hx; [|exact Hsub].
    apply list_elem_of_lookup in Hx as [n Hx]. rewrite list_lookup_fmap in Hx.
    apply fmap_Some in Hx as (en & Hn & ->). eapply (go_canonical _ _ _ _ _ _ Hok n). by exists en.
  - rewrite H2. apply NoDup_fmap_2_strong; [|apply NoDup_seqZ]. intros n m _ _. apply t_name_inj.
  - eapply topological_sublist; [exact Hsub|]. by eapply entries_topological.
  - intros x Hx. rewrite H2 in Hx. apply list_elem_of_fmap in Hx as (n & -> & Hn%elem_of_seqZ).
    intros Hs. by apply (Hs n); [lia|].
Qed.

Lemma input_ok_intro Γ p ρ W e val bound : wf e -> typed Γ e -> plain e = true -> lets_consistent e ->
  (forall x, let_name e x -> bound x) -> eval p (at_vars ρ W) e = Some val ->
  (forall x v, (x, v) ∈ let_defs e -> exists w, W !! x = Some w /\ eval p (at_vars ρ W) v = Some w) ->
  input_ok p (at_vars ρ W) (let_types Γ e) bound e.
Proof.
  intros Hwf Ht Hp Hlc Hb Hev Hd. constructor; try done.
  - eapply typed_lets; [done| |].
    + intros y Hy. symmetry. apply let_types_free. intros Hn. by rewrite (lc_not_free _ Hlc y Hn) in Hy.
    + intros x v Hx. by apply let_types_bound.
  - intros x v Hx. destruct (Hd x v Hx) as (w & H1 & H2). split; [apply Hb; by exists v|].
    split; [by rewrite H2|]. split; [by eexists|by apply let_types_bound].
Qed.

(** The pass on an expression that is neither a constant nor a variable. *)
Lemma cse_run Γ p ρ W e cs val : wf e -> typed Γ e -> plain e = true -> lets_consistent e -> handle_blind ρ ->
  (forall x, occurs x e -> settled cs x) -> eval p (at_vars ρ W) e = Some val ->
  (forall x v, (x, v) ∈ let_defs e -> exists w, W !! x = Some w /\ eval p (at_vars ρ W) v = Some w) ->
  is_const e || is_var e = false ->
  exists e' cs', common_subexpression_elimination addr same_as e cs = Ok (eref e', cs') /\
    wrapped p (at_vars ρ W) (let_types Γ e) (let_name e) val (type e) [] e'.
Proof.
  intros Hwf Ht Hp Hlc Hρ Hs Hev Hd Hcv. set (bound := fun y => let_name e y \/ ~ settled cs y).
  set (ρW := at_vars ρ W) in *. set (G := let_types Γ e) in *.
  assert (Hin : input_ok p ρW G bound e) by (eapply input_ok_intro; try done; by left).
  destruct (gvn_mutate_ok addr same_as same_as_sound p ρW G bound Hρ e scope_new gvn_new scope_new_wf
    (gvn_new_ok p ρW G bound) Hin) as (r & st & H1 & Hok & _ & Hr & Er & Tr).
  { intros x [Hx|Hx] Hf; [by rewrite (lc_not_free _ Hlc x Hx) in Hf|]. destruct Hx. apply Hs. by left. }
  unfold common_subexpression_elimination. rewrite Hcv, H1. cbn [mbind res_bind deref].
  destruct (include_uses same_as _ r _) as [es vs] eqn:Hu.
  pose proof (include_uses_exprs same_as (shallow_numbering st) r (gvn_entries st, [])) as He.
  rewrite Hu in He. cbn [fst] in He.
  destruct (choose_lets_ok es [] no_memo cs) as (lets & cs' & -> & Hch). cbn [mbind res_bind app].
  destruct (chosen_ok p ρW G e cs es lets st Hok He Hch) as [L1 L2 L3 L4].
  pose proof (go_canonical _ _ _ _ _ _ Hok _ _ Hr) as Hcr.
  assert (Hclean : forall d, canonical p ρW G bound d -> clean p ρW G (let_name e) lets d).
  { intros d Hc. split; [eapply canonical_weaken, Hc; by left|]. intros x Hx. apply Hc. right. by apply L4. }
  destruct (replacement_ok same_as same_as_sound p ρW G (let_name e) lets) with (e := r) (l := stmt_replacements no_memo)
    (val := val) as (b & m & b' & m' & H2 & H3 & Hb'); [by intros x d Hx; apply Hclean, (L1 x)|done|done| | |congruence|].
  { intros x Hx. split; [|intros ->; by apply (L4 EmptyString Hx); intros n _].
    intros Hn. apply (L4 x Hx), Hs. by right. }
  { by apply Hclean. }
  rewrite app_nil_r. setoid_rewrite H2. cbn [mbind res_bind]. setoid_rewrite H3. cbn [mbind res_bind].
  exists b', cs'. split; [done|]. by rewrite <- Tr.
Qed.
End Pass.

(** The pass keeps types and values. *)
Lemma cse_correct addr same_as Γ p ρ e cs val : (forall a b, same_as a b = true -> a = b) ->
  wf e -> typed Γ e -> plain e = true -> lets_consistent e -> handle_blind ρ ->
  (forall x, occurs x e -> settled cs x) -> eval p ρ e = Some val ->
  exists e' cs', common_subexpression_elimination addr same_as e cs = Ok (eref e', cs') /\
    wf e' /\ type e' = type e /\ typed Γ e' /\ eval p ρ e' = Some val.
Proof.
  intros Hsame Hwf Ht Hp Hlc Hρ Hs Hev. destruct (is_const e || is_var e) eqn:Hcv.
  { exists e, cs. unfold common_subexpression_elimination. by rewrite Hcv. }
  destruct (lets_valuation p ρ e val Hlc Hev) as (W & HW & EW & Hd).
  destruct (cse_run addr same_as Hsame Γ p ρ W e cs val) as (e' & cs' & H & [H1 H2 H3 H4 H5]); try done.
  assert (Hn : forall x, free_in x e' = true -> ~ let_name e x).
  { intros x Hf Hx. by rewrite (H5 x Hx) in Hf. }
  exists e', cs'. split; [done|]. split; [done|]. split; [done|]. split.
  - eapply typed_free; [|exact H3]. intros x Hf. by apply let_types_free, Hn.
  - rewrite <- H4. apply eval_free; [done|]. intros x Hf. symmetry. by apply HW, Hn.
Qed.

(** C6. Common subexpression elimination keeps the value of an expression that meets
    three conditions: it has no NaNs, negative zeros and C++ handle types; each name
    bound by a let is bound to one expression only and is not also free; and no name in
    it is one that [unique_name] is still to make. On such an expression the pass
    succeeds with a well-formed expression of the same type, which has the same value
    under every overflow policy. Without the second condition the value may change
    ([cse_shadowing_changes_value]). *)
Theorem cse_sound addr same_as Γ p ρ e cs val : (forall a b, same_as a b = true -> a = b) ->
  wf e -> typed Γ e -> plain e = true -> lets_consistent e -> handle_blind ρ ->
  (forall x, occurs x e -> settled cs x) -> eval p ρ e = Some val ->
  exists e' cs', common_subexpression_elimination addr same_as e cs = Ok (eref e', cs') /\
    wf e' /\ type e' = type e /\ typed Γ e' /\ eval p ρ e' = Some val.
Proof. apply cse_correct. Qed.

Definition cse_example : Expr :=
  let m := Bin Mul x_var y_var in
  Bin Add (Bin Mul m m) (Let "z" m (Bin Add (Bin Mul (Var (Int 32 1) "z" None None None) m) x_var)).
Definition cse_env : env :=
  mkEnv {[ "x" := [VInt 2]; "y" := [VInt 3] ]} (fun _ _ _ => None) (fun _ _ _ _ _ => None).

Lemma cse_example_settled x : occurs x cse_example -> settled ∅ x.
Proof.
  intros Hx n _ ->. destruct Hx as [Hx|[v Hx]]; [by vm_compute in Hx|].
  cbn [cse_example let_defs app] in Hx. by apply list_elem_of_singleton in Hx.
Qed.

Lemma cse_example_consistent : lets_consistent cse_example.
Proof.
  assert (Hd : forall x v, (x, v) ∈ let_defs cse_example -> x = "z" /\ v = Bin Mul x_var y_var).
  { intros x v Hx. cbn [cse_example let_defs app] in Hx. by apply list_elem_of_singleton in Hx as [= -> ->]. }
  constructor.
  - intros x v w [_ ->]%Hd [_ ->]%Hd. done.
  - intros x [v [-> _]%Hd]. reflexivity.
Qed.

Lemma cse_sound_witness : exists e' cs',
  common_subexpression_elimination (fun _ => 0) same_ref cse_example ∅ = Ok (eref e', cs') /\
  wf e' /\ type e' = type cse_example /\ typed {[ "x" := Int 32 1; "y" := Int 32 1 ]} e' /\
  eval Machine cse_env e' = Some [VInt 74].
Proof.
  apply (cse_sound (fun _ => 0) same_ref {[ "x" := Int 32 1; "y" := Int 32 1 ]} Machine cse_env cse_example ∅ [VInt 74]).
  - apply same_ref_sound.
  - repeat split; discriminate.
  - repeat split; vm_compute; congruence.
  - reflexivity.
  - apply cse_example_consistent.
  - by split.
  - apply cse_example_settled.
  - vm_compute. reflexivity.
Defined.

(** A let that binds a name which is also free: outside the hypotheses of [cse_sound]. *)
Definition cse_shadowing : Expr := Bin Add (Bin Mul x_var x_var) (Let "x" y_var (Bin Mul x_var x_var)).

(** With a let that shadows a free variable, common subexpression elimination changes
    the value: the body of the let is looked up in the numbering before its variables
    are redirected, and found among the expressions of the outer scope. *)
Theorem cse_shadowing_changes_value :
  eval Machine cse_env cse_shadowing = Some [VInt 13] /\
  exists e' cs', common_subexpression_elimination (fun _ => 0) same_ref cse_shadowing ∅ = Ok (eref e', cs') /\
    eval Machine cse_env e' = Some [VInt 8].
Proof.
  split; [reflexivity|]. eexists _, _. split; [vm_compute; reflexivity|]. vm_compute. reflexivity.
Qed.
