(* ===== verification/CodeGenDivision.v ===== *)
(** How divisions, moduli, minima and maxima are lowered before machine code is made for
    them: [mulhi_shr], [sorted_avg] and the visit methods of [Div], [Mod], [Min] and
    [Max] of src/src/CodeGen_LLVM.cpp, with [lower_euclidean_div] and
    [lower_euclidean_mod] of src/src/CodeGen_Internal.cpp. The expressions they build
    go through common subexpression elimination. The theorems say what the expressions
    evaluate to, the intrinsics being the instructions of Intrinsics.v. *)

From Stdlib Require Import ZArith Lia Bool SpecFloat String Ascii.
From stdpp Require Import prelude strings pretty gmap.
From S2P Require Import Prelude IntegerDivisionTable Types IR Semantics Operators Mutator Intrinsics FastIntegerDivide Substitute LetValues EqualityMeaning CSE CSESound CSEReplace.

#[local] Open Scope Z_scope.
#[local] Open Scope halide_scope.

(** What a visit method hands on: an expression to generate code for, or a single
    floating-point instruction on its operands. *)
Inductive lowered :=
| Instruction
| Lowered (e : ExprRef).

(** * Division by constants *)
Definition mulhi_shr (a b : Expr) (shr : Z) : res Expr :=
  let ty := type a in
  let wide_ty := with_bits ty (bits ty * 2) in
  wa ← cast wide_ty (eref a); wb ← cast wide_ty (eref b);
  p_wide ← operator_mul (eref wa) (eref wb);
  high ← operator_shr_ei (eref p_wide) (shr + bits ty);
  cast ty (eref high).

Definition sorted_avg (a b : Expr) : res Expr :=
  diff ← operator_sub (eref b) (eref a);
  half ← operator_div_ei (eref diff) 2;
  operator_add (eref a) (eref half).

(** The tables of divisors known at compile time. *)
Definition const_table_s (b : Z) : list row :=
  if b =? 32 then table_s32 else if b =? 16 then table_s16 else table_s8.
Definition const_table_u (b : Z) : list row :=
  if b =? 32 then table_u32 else if b =? 16 then table_u16 else table_u8.

Definition table_bits (b : Z) : bool := (b =? 8) || (b =? 16) || (b =? 32).

(** The conditions of the two table branches, with the divisor. *)
Definition small_int_divisor (t : Ty) (b : Expr) : option Z :=
  d ← as_const_int (eref b);
  if is_int t && table_bits (bits t) && (1 <? d) && (((8 <? bits t) && (d <? 256)) || (d <? 128))
  then Some d else None.
Definition small_uint_divisor (t : Ty) (b : Expr) : option Z :=
  d ← as_const_uint (eref b);
  if is_uint t && table_bits (bits t) && (1 <? d) && (d <? 256) then Some d else None.

Definition divide_by_int (t : Ty) (a : Expr) (d : Z) : res Expr :=
  match const_table_s (bits t) !! Z.to_nat d with
  | None => Err (UB "row out of range")
  | Some (_, _, multiplier, shift) =>
      last ← make_const t (Int64 (bits t - 1));
      sign ← operator_shr (eref a) (eref last);
      num ← cast (with_code (type a) halide_type_uint) (eref a);
      num ← operator_bitxor (eref num) (eref sign);
      mult ← make_const (type num) (Int64 multiplier);
      num ← mulhi_shr num mult shift;
      operator_bitxor (eref num) (eref sign)
  end.

Definition divide_by_uint (t : Ty) (a : Expr) (d : Z) : res Expr :=
  match const_table_u (bits t) !! Z.to_nat d with
  | None => Err (UB "row out of range")
  | Some (_, method, multiplier, shift) =>
      guard! negb (method =? 0) else "method 0 division is for powers of two and should have been handled elsewhere";
      mult ← make_const (type a) (Int64 multiplier);
      val ← mulhi_shr a mult (if method =? 1 then shift else 0);
      if method =? 2 then
        val ← sorted_avg val a;
        if negb (shift =? 0) then
          s ← make_const t (Int64 shift); operator_shr (eref val) (eref s)
        else Ok val
      else Ok val
  end.

(** * The general case *)
Section Lower.
Context (addr : Expr -> Z) (same_as : ExprRef -> ExprRef -> bool).

Definition lower_euclidean_div (a b : Expr) : mut name_counters ExprRef := fun cs =>
  guard! type_eqb (type a) (type b) else "";
  q ← pure_intrinsic (type a) "div_round_to_zero" [a; b];
  if is_int (type a) then
    qb ← operator_mul (eref q) (eref b);
    r ← operator_sub (eref a) (eref qb);
    bs ← operator_shr_ei (eref b) (bits (type a) - 1);
    rs ← operator_shr_ei (eref r) (bits (type a) - 1);
    down ← operator_bitand (eref rs) (eref bs);
    nbs ← operator_bitnot (eref bs);
    up ← operator_bitand (eref rs) (eref nbs);
    q ← operator_sub (eref q) (eref down);
    q ← operator_add (eref q) (eref up);
    common_subexpression_elimination addr same_as q cs
  else Ok (eref q, cs).

Definition lower_euclidean_mod (a b : Expr) : mut name_counters ExprRef := fun cs =>
  guard! type_eqb (type a) (type b) else "";
  r ← pure_intrinsic (type a) "mod_round_to_zero" [a; b];
  if is_int (type a) then
    negative ← operator_lt_ei (eref r) 0;
    m ← abs (eref b);
    up ← operator_add (eref r) (eref m);
    r ← select (eref negative) (eref up) (eref r);
    common_subexpression_elimination addr same_as r cs
  else Ok (eref r, cs).

(** * The visit methods *)
Definition lower_Div (a b : Expr) : mut name_counters lowered := fun cs =>
  let t := type a in
  _ ← user_assert (negb (is_zero b)) "Division by constant zero in expression";
  if is_float t then Ok (Instruction, cs)
  else
    match (if is_int t || is_uint t then is_const_power_of_two_integer b else None) with
    | Some shift_amount => e ← operator_shr_ei (eref a) shift_amount; Ok (Lowered (eref e), cs)
    | None =>
        match small_int_divisor t b with
        | Some d => e ← divide_by_int t a d; Ok (Lowered (eref e), cs)
        | None =>
            match small_uint_divisor t b with
            | Some d => e ← divide_by_uint t a d; Ok (Lowered (eref e), cs)
            | None => '(e, cs) ← lower_euclidean_div a b cs; Ok (Lowered e, cs)
            end
        end
    end.

(** The simplifier is called for the modulus of floats only. *)
Definition lower_Mod (simplify : Expr -> res ExprRef) (a b : Expr) : mut name_counters lowered := fun cs =>
  if is_float (type a) then
    q ← operator_div (eref a) (eref b); f ← floor (eref q);
    m ← operator_mul (eref b) (eref f); r ← operator_sub (eref a) (eref m);
    r ← simplify r; Ok (Lowered r, cs)
  else
    match is_const_power_of_two_integer b with
    | Some _ => m ← operator_sub_ei (eref b) 1; r ← operator_bitand (eref a) (eref m); Ok (Lowered (eref r), cs)
    | None => '(e, cs) ← lower_euclidean_mod a b cs; Ok (Lowered e, cs)
    end.

(** [Min] and [Max]: [op] is the comparison. *)
Definition lower_extremum (op : ExprRef -> ExprRef -> res Expr) (oa ob : Expr) : mut name_counters lowered := fun cs =>
  let '(a_name, cs) := unique_name "a"%char cs in
  let '(b_name, cs) := unique_name "b"%char cs in
  a ← Variable_make (type oa) a_name None None None;
  b ← Variable_make (type ob) b_name None None None;
  c ← op (eref a) (eref b);
  s ← select (eref c) (eref a) (eref b);
  inner ← Let_make b_name (eref ob) (eref s);
  e ← Let_make a_name (eref oa) (eref inner);
  Ok (Lowered (eref e), cs).

Definition lower_Min : Expr -> Expr -> mut name_counters lowered := lower_extremum operator_lt.
Definition lower_Max : Expr -> Expr -> mut name_counters lowered := lower_extremum operator_gt.
End Lower.

(** * Constants under casts *)
Fixpoint underlying (e : Expr) : Expr :=
  match e with Cast _ v | Broadcast v _ => underlying v | _ => e end.

Lemma is_zero_underlying e : is_zero e = is_zero (underlying e).
Proof. by induction e using Expr_ind'. Qed.

Lemma pow2_underlying e k : is_const_power_of_two_integer e = Some k ->
  is_const_power_of_two_integer (underlying e) = Some k.
Proof.
  induction e using Expr_ind'; try done; cbn [is_const_power_of_two_integer underlying];
    (destruct (negb _); [done|]); done.
Qed.

Lemma underlying_head e : match underlying e with Cast _ _ | Broadcast _ _ => False | _ => True end.
Proof. by induction e using Expr_ind'. Qed.

Section Constants.
Context (Γ : gmap string Ty) (ρ : env) (Hρ : env_ok Machine Γ ρ).

Lemma underlying_value e : forall z, int_expr Γ ρ e [z] -> widening_casts e = true ->
  int_expr Γ ρ (underlying e) [z].
Proof.
  induction e using Expr_ind'; intros z He Hw; try done; cbn [underlying widening_casts] in *.
  - apply andb_true_iff in Hw as [Hc Hw]. apply IHe; [|done].
    apply (widening_operand Γ ρ Hρ t e [z] Hc He). by destruct He as [_ [_ ?] _ _ _ _].
  - destruct (int_expr_broadcast Γ ρ e l [z] He) as (y & Hy & Hz & _).
    apply IHe; [|done]. destruct (Z.to_nat l) as [|[|]]; simpl in Hz; try done. by injection Hz as ->.
Qed.

(** An expression the code takes for the constant zero is zero. *)
Lemma is_zero_value e z : int_expr Γ ρ e [z] -> widening_casts e = true -> is_zero e = true -> z = 0.
Proof.
  intros He Hw Hz. rewrite is_zero_underlying in Hz. pose proof (underlying_head e) as Hu.
  destruct (underlying_value e z He Hw) as [Hwf _ Hlike Hev _ _].
  destruct (underlying e); try done; simpl in Hz, Hev.
  - injection Hev as ->. by apply Z.eqb_eq.
  - injection Hev as ->. by apply Z.eqb_eq.
Qed.

(** And one it takes for a power of two is that power. *)
Lemma pow2_value e z k : int_expr Γ ρ e [z] -> widening_casts e = true ->
  is_const_power_of_two_integer e = Some k -> 0 <= k /\ z = 2 ^ k.
Proof.
  intros He Hw Hk. apply pow2_underlying in Hk. pose proof (underlying_head e) as Hu.
  destruct (underlying_value e z He Hw) as [Hwf _ Hlike Hev _ _].
  destruct (underlying e) as [t v|t v| | | | | | | | | | | |]; try done;
    try (cbn in Hk; destruct (negb _); done).
  - injection Hev as ->. apply (power_of_two_exact t z k); [by left|].
    destruct Hwf as [[[[Hi _]%andb_true_iff _]%andb_true_iff _] _]. by rewrite Hi.
  - injection Hev as ->. apply (power_of_two_exact t z k); [by right|].
    destruct Hwf as [[[[Hi _]%andb_true_iff _]%andb_true_iff _] _]. by rewrite (uint_not_int _ Hi).
Qed.

(** The constants the table branches read. *)
Lemma as_const_int_value e z d : int_expr Γ ρ e [z] -> as_const_int (eref e) = Some d -> z = d.
Proof.
  intros [_ _ _ He _ _] Hd. destruct (as_const_int_eval _ _ _ _ _ Hd He) as [[|n] Hn]; [done|].
  by injection Hn.
Qed.
Lemma as_const_uint_value e z d : int_expr Γ ρ e [z] -> as_const_uint (eref e) = Some d -> z = d.
Proof.
  intros [_ _ _ He _ _] Hd. destruct (as_const_uint_eval _ _ _ _ _ Hd He) as [[|n] Hn]; [done|].
  by injection Hn.
Qed.
End Constants.

(** * The rows the compile-time divisors select *)
Definition const_row_ok (signed : bool) (b : Z) (r : row) : bool :=
  let '(d, method, mul, shift) := r in
  (Z.land d (d - 1) =? 0) || (signed && (b =? 8) && (128 <=? d)) ||
  ((method =? 1) || (negb signed && (method =? 2))) && (0 <? mul) && (mul <? 2 ^ b) && (0 <=? shift) && (shift <? 8).

Lemma const_rows_ok b : table_width b ->
  forallb (const_row_ok false b) (const_table_u b) = true /\ forallb (const_row_ok true b) (const_table_s b) = true.
Proof. intros [->|[->| ->]]; split; vm_compute; reflexivity. Qed.

Lemma const_tables b : table_width b -> const_table_u b = table_u false b /\ const_table_s b = table_s false b.
Proof. by intros [->|[->| ->]]. Qed.

Definition not_power_of_two (d : Z) : Prop := Z.land d (d - 1) <> 0.

(** The row of a divisor, and the exact quotient its method gives. *)
Lemma const_row (signed : bool) b d : table_width b -> 1 < d < 256 -> not_power_of_two d ->
  (signed = true -> b = 8 -> d < 128) ->
  exists method mul shift,
    (if signed then const_table_s b else const_table_u b) !! Z.to_nat d = Some (d, method, mul, shift) /\
    (method = 1 \/ signed = false /\ method = 2) /\ 0 < mul < 2 ^ b /\ 0 <= shift < 8 /\
    forall z, in_num_range signed b z ->
      (if signed then s_method_1 z mul shift b
       else if method =? 1 then u_method_1 z mul shift b else u_method_2 z mul shift b) = z / d.
Proof.
  intros Hb Hd Hp H8. destruct (const_tables b Hb) as [Eu Es]. destruct (const_rows_ok b Hb) as [Ou Os].
  assert (Hn : (Z.to_nat d < 256)%nat) by lia.
  assert (Hlen : exists n, length (if signed then const_table_s b else const_table_u b) = n /\ (256 <= n)%nat).
  { destruct signed; [rewrite Es, (proj2 (tables_s_ok false b Hb))|rewrite Eu, (proj2 (tables_u_ok false b Hb))]; eauto with lia. }
  destruct Hlen as (n & Hlen & Hn').
  destruct (row_at _ n (Z.to_nat d) Hlen ltac:(lia)) as (d' & m & mul & sh & Hr).
  assert (Hdec : (if decide (Z.to_nat d = O) then 256 else Z.of_nat (Z.to_nat d)) = d)
    by (rewrite decide_False by lia; lia).
  assert (H0 : in_urange b 0 /\ in_srange b 0) by (by destruct Hb as [->|[->| ->]]).
  assert (Hok : const_row_ok signed b (d', m, mul, sh) = true).
  { destruct signed; [rewrite forallb_forall in Os; apply Os|rewrite forallb_forall in Ou; apply Ou];
      apply list_elem_of_In; by eapply list_elem_of_lookup_2. }
  assert (Hd' : d' = d).
  { destruct signed; [rewrite Es in Hr; destruct (table_s_div _ _ _ _ _ _ _ 0 Hb Hr) as [-> _]
      |rewrite Eu in Hr; destruct (table_u_div _ _ _ _ _ _ _ 0 Hb Hr) as [-> _]]; by try apply H0. }
  subst d'. exists m, mul, sh. split; [done|]. unfold const_row_ok in Hok.
  apply orb_true_iff in Hok as [Hok|Hok].
  { exfalso. apply orb_true_iff in Hok as [Hok|Hok]; [by apply Z.eqb_eq in Hok|].
    rewrite !andb_true_iff, Z.eqb_eq, Z.leb_le in Hok. destruct Hok as [[Hs H] H']. specialize (H8 Hs H). lia. }
  rewrite !andb_true_iff, orb_true_iff, andb_true_iff, !Z.eqb_eq, !Z.ltb_lt, Z.leb_le in Hok.
  destruct Hok as [[[[Hm H1] H2] H3] H4].
  assert (Hm' : m = 1 \/ signed = false /\ m = 2) by (destruct Hm as [?|[? ?]]; [by left|right]; by destruct signed).
  clear Hm. rename Hm' into Hm.
  split; [done|]. split; [lia|]. split; [lia|]. intros z Hz. destruct signed.
  - rewrite Es in Hr. destruct (table_s_div _ _ _ _ _ _ _ z Hb Hr Hz) as [_ <-]. by destruct Hm as [->|[? _]].
  - rewrite Eu in Hr. destruct (table_u_div _ _ _ _ _ _ _ z Hb Hr Hz) as [_ <-]. by destruct Hm as [->|[_ ->]].
Qed.

Section Division.
Context (Γ : gmap string Ty) (ρ : env) `{!Intrinsics ρ}.

#[local] Notation scalar_expr := (scalar_expr Γ ρ).
#[local] Notation UIntb b := (num_type false b).

Lemma urange_of b e z : table_width b -> scalar_expr (UIntb b) e z -> in_urange b z.
Proof. intros Hb He. apply (num_representable false b z Hb), (se_range _ _ _ _ _ He). Qed.

Lemma wrap_unsigned b z : table_width b -> wrap_type (UIntb b) z = uwrap b z.
Proof. by intros [->|[->| ->]]. Qed.

Lemma mulhi_shr_value b n m y z shr : table_width b -> 0 <= shr < b ->
  scalar_expr (UIntb b) n y -> scalar_expr (UIntb b) m z ->
  exists e, mulhi_shr n m shr = Ok e /\ scalar_expr (UIntb b) e (Z.shiftr (y * z) (b + shr)).
Proof.
  intros Hb Hs Hn Hm. destruct (num_type_facts false b Hb) as (Ht & Hw & Hbt & Hbw & Hwide & _).
  pose proof (urange_of b n y Hb Hn) as Hy. pose proof (urange_of b m z Hb Hm) as Hz. unfold in_urange in Hy, Hz.
  assert (Hb0 : 8 <= b <= 32) by (unfold table_width in Hb; lia).
  assert (H2 : 2 ^ (2 * b) = 2 ^ b * 2 ^ b) by (rewrite <- Z.pow_add_r by lia; f_equal; lia).
  assert (Hrep : forall x, 0 <= x < 2 ^ (2 * b) -> representable (UIntb (2 * b)) x = true)
    by (intros x Hx; by apply (wide_representable false b)).
  assert (Hyz : 0 <= y * z < 2 ^ (2 * b)) by (rewrite H2; nia).
  unfold mulhi_shr. rewrite (se_type _ _ _ _ _ Hn), Hwide.
  destruct (cast_scalar_expr Γ ρ (UIntb (2 * b)) (UIntb b) n y Hw Ht Hn) as (wa & E1 & Hwa).
  destruct (cast_scalar_expr Γ ρ (UIntb (2 * b)) (UIntb b) m z Hw Ht Hm) as (wb & E2 & Hwb).
  unfold eref. rewrite E1, E2. cbn [mbind res_bind]. rewrite representable_wrap in Hwa, Hwb by (apply Hrep; nia).
  destruct (scalar_ee Γ ρ Mul "Mul" "operator*" _ _ wa wb y z (y * z) Hw Hw eq_refl Hwa Hwb) as (pw & E3 & Hpw).
  { rewrite matched_type_same by done. rewrite (representable_wrap _ y), (representable_wrap _ z) by (apply Hrep; nia).
    cbn [int_binop ov_result]. by rewrite (representable_wrap _ (y * z)) by (apply Hrep; exact Hyz). }
  rewrite matched_type_same in Hpw by done. unfold operator_mul, Mul_make. rewrite E3. cbn [mbind res_bind].
  destruct (scalar_shr_ei Γ ρ (UIntb (2 * b)) pw (y * z) (shr + bits (UIntb b)) Hw) as (hi & E4 & Hhi); [rewrite Hbw; lia|done| |].
  { unfold shift_amount. rewrite Hbt, Hbw. apply andb_true_iff. rewrite Z.leb_le, Z.ltb_lt. lia. }
  rewrite E4. cbn [mbind res_bind].
  destruct (cast_scalar_expr Γ ρ (UIntb b) (UIntb (2 * b)) hi _ Ht Hw Hhi) as (e & E5 & He).
  exists e. split; [done|].
  assert (Hr : 0 <= Z.shiftr (y * z) (b + shr) < 2 ^ b).
  { rewrite Z.shiftr_div_pow2 by lia. pose proof (pow2_pos shr ltac:(lia)). pose proof (pow2_pos b ltac:(lia)).
    rewrite Z.pow_add_r by lia. split; [apply Z.div_pos; nia|]. apply Z.div_lt_upper_bound; nia. }
  rewrite Hbt, (Z.add_comm shr) in He. rewrite (representable_wrap (UIntb (2 * b))) in He by (apply Hrep; nia).
  rewrite (representable_wrap (UIntb b)) in He; [done|]. by apply (num_representable false b).
Qed.
Lemma uwrap_lxor b x y : 0 <= b -> uwrap b (Z.lxor (uwrap b x) (uwrap b y)) = uwrap b (Z.lxor x y).
Proof.
  intros Hb. unfold uwrap. apply Z.bits_inj'. intros n Hn. destruct (Z_lt_ge_dec n b) as [Hlt|Hge].
  - by rewrite !Z.mod_pow2_bits_low, !Z.lxor_spec, !Z.mod_pow2_bits_low by lia.
  - by rewrite !Z.mod_pow2_bits_high by lia.
Qed.

Lemma xor_named : ("bitwise_xor", Z.lxor) ∈ bitwise_names.
Proof. by right; left. Qed.
Lemma eight_bits b : table_width b -> 8 <= bits (UIntb b).
Proof. by intros [->|[->| ->]]. Qed.

(** The mask of the sign and the flipped numerator, as unsigned registers. *)
Lemma flipped_numerator b a z : table_width b -> scalar_expr (Int b 1) a z ->
  exists last sign num num', make_const (Int b 1) (Int64 (b - 1)) = Ok last /\
    operator_shr (eref a) (eref last) = Ok sign /\ cast (with_code (type a) halide_type_uint) (eref a) = Ok num /\
    operator_bitxor (eref num) (eref sign) = Ok num' /\
    scalar_expr (Int b 1) sign (Z.shiftr z (b - 1)) /\
    scalar_expr (UIntb b) num' (Z.lxor (Z.shiftr z (b - 1)) z).
Proof.
  intros Hb Ha. destruct (num_type_facts true b Hb) as (Ht & _ & Hbt & _). simpl num_type in *.
  destruct (num_type_facts false b Hb) as (Hu & _ & Hbu & _).
  assert (Hb0 : 8 <= b <= 32) by (unfold table_width in Hb; lia).
  assert (Hrep : forall x, in_srange b x -> representable (Int b 1) x = true) by (intros x Hx; by apply (num_representable true b)).
  pose proof (se_range _ _ _ _ _ Ha) as Hz. apply (num_representable true b) in Hz; [|done]. simpl in Hz.
  assert (Hlast : in_srange b (b - 1)) by (by destruct Hb as [->|[->| ->]]).
  destruct (make_const_scalar_expr Γ ρ (Int b 1) (b - 1) Ht) as (last & E1 & Hl).
  rewrite representable_wrap in Hl by auto.
  destruct (scalar_shr Γ ρ _ _ a last z (b - 1) Ht Ht Ha Hl) as (sign & E2 & Hs).
  { rewrite matched_type_same, representable_wrap by auto. unfold shift_amount. rewrite Hbt.
    apply andb_true_iff. rewrite Z.leb_le, Z.ltb_lt. lia. }
  rewrite matched_type_same in Hs by done. rewrite (representable_wrap _ z), (representable_wrap _ (b - 1)) in Hs by auto.
  pose proof (sign_mask b z ltac:(lia) Hz) as Hm.
  assert (Hsr : in_srange b (Z.shiftr z (b - 1))).
  { rewrite Hm. unfold in_srange. pose proof (pow2_pos (b - 1) ltac:(lia)). destruct (z <? 0); lia. }
  rewrite representable_wrap in Hs by auto.
  assert (Hcode : with_code (type a) halide_type_uint = UIntb b)
    by (rewrite (se_type _ _ _ _ _ Ha); by destruct Hb as [->|[->| ->]]).
  destruct (cast_scalar_expr Γ ρ (UIntb b) _ a z Hu Ht Ha) as (num & E3 & Hn).
  destruct (scalar_bitwise Γ ρ "bitwise_xor" Z.lxor "bitwise xor" (UIntb b) (Int b 1) num sign _ _ xor_named Hu Ht (eight_bits b Hb) Hn Hs) as (num' & E4 & Hn').
  exists last, sign, num, num'. rewrite Hcode. split_and!; try done.
  assert (Hr : in_urange b (Z.lxor z (Z.shiftr z (b - 1)))).
  { rewrite Z.lxor_comm, Hm, lxor_mask. unfold in_urange, in_srange in *. pose proof (pow2_half b ltac:(lia)).
    destruct (Z.ltb_spec z 0); lia. }
  rewrite !wrap_unsigned, uwrap_lxor, uwrap_id in Hn' by (done || lia). by rewrite Z.lxor_comm.
Qed.

Lemma divide_by_int_value b a z d : table_width b -> scalar_expr (Int b 1) a z -> 1 < d < 256 ->
  not_power_of_two d -> (b = 8 -> d < 128) ->
  exists e, divide_by_int (Int b 1) a d = Ok e /\ scalar_expr (UIntb b) e (uwrap b (z / d)).
Proof.
  intros Hb Ha Hd Hp H8. destruct (num_type_facts true b Hb) as (Ht & _ & Hbt & _). simpl num_type in *.
  destruct (num_type_facts false b Hb) as (Hu & _ & Hbu & _).
  assert (Hb0 : 8 <= b <= 32) by (unfold table_width in Hb; lia).
  destruct (const_row true b d Hb Hd Hp (fun _ => H8)) as (me & mul & sh & Hrow & _ & Hmul & Hsh & Hdiv).
  destruct (flipped_numerator b a z Hb Ha) as (last & sign & num & num' & E1 & E2 & E3 & E4 & Hs & Hn).
  unfold divide_by_int. rewrite Hbt, Hrow, E1. cbn [mbind res_bind]. rewrite E2. cbn [mbind res_bind].
  rewrite E3. cbn [mbind res_bind]. rewrite E4. cbn [mbind res_bind]. rewrite (se_type _ _ _ _ _ Hn).
  destruct (make_const_scalar_expr Γ ρ (UIntb b) mul Hu) as (mult & E5 & Hm).
  rewrite E5. cbn [mbind res_bind]. rewrite wrap_unsigned, uwrap_id in Hm by (done || (unfold in_urange; lia)).
  destruct (mulhi_shr_value b num' mult _ mul sh Hb ltac:(lia) Hn Hm) as (q & E6 & Hq).
  rewrite E6. cbn [mbind res_bind].
  destruct (scalar_bitwise Γ ρ "bitwise_xor" Z.lxor "bitwise xor" (UIntb b) (Int b 1) q sign _ _ xor_named Hu Ht (eight_bits b Hb) Hq Hs) as (e & E7 & He).
  exists e. split; [exact E7|]. pose proof (urange_of b q _ Hb Hq) as Hqr.
  rewrite !wrap_unsigned in He by done. rewrite <- (uwrap_id b (Z.shiftr (_ * mul) (b + sh))), uwrap_lxor in He by (done || lia).
  pose proof (se_range _ _ _ _ _ Ha) as Hz. apply (num_representable true b) in Hz; [|done].
  rewrite <- (Hdiv z Hz). unfold s_method_1. rewrite shiftr_shiftr_div, (Z.mul_comm mul) by lia.
  by rewrite Z.lxor_comm.
Qed.

Lemma sorted_avg_value b v a q z : table_width b -> scalar_expr (UIntb b) v q -> scalar_expr (UIntb b) a z ->
  q <= z -> exists e, sorted_avg v a = Ok e /\ scalar_expr (UIntb b) e (q + (z - q) / 2).
Proof.
  intros Hb Hv Ha Hle. destruct (num_type_facts false b Hb) as (Ht & _).
  pose proof (urange_of b v q Hb Hv) as Hq. pose proof (urange_of b a z Hb Ha) as Hz. unfold in_urange in Hq, Hz.
  assert (H8 : 8 <= 2 ^ b) by (apply (Z.pow_le_mono_r 2 3 b); unfold table_width in Hb; lia).
  pose proof (Z.div_pos (z - q) 2 ltac:(lia) ltac:(lia)) as H1.
  pose proof (Z.div_le_upper_bound (z - q) 2 (z - q) ltac:(lia) ltac:(lia)) as H2.
  assert (Hov : forall x, 0 <= x < 2 ^ b -> ov_result Machine (UIntb b) x = Some x) by (intros x Hx; by apply num_ov).
  unfold sorted_avg.
  destruct (num_op Γ ρ false b Sub "Sub" "operator-" a v z q (z - q)) as (diff & E1 & Hd); [done..|apply Hov; lia|].
  unfold operator_sub, Sub_make. rewrite E1. cbn [mbind res_bind].
  destruct (scalar_ei Γ ρ Div "Div" "operator/" _ diff (z - q) 2 ((z - q) / 2) Ht eq_refl Hd) as (half & E2 & Hh);
    [done|apply num_representable; [done|]; simpl; unfold in_urange; lia| |].
  { unfold int_binop. simpl Z.eqb. rewrite ediv_pos by lia. apply Hov. lia. }
  unfold operator_div_ei, Div_make. change (Some diff) with (eref diff) in E2. rewrite E2. cbn [mbind res_bind].
  apply (num_op Γ ρ false b Add "Add" "operator+" v half q ((z - q) / 2)); [done..|]. apply Hov. lia.
Qed.

Lemma shift_const b v x sh : table_width b -> 0 <= sh < 8 -> scalar_expr (UIntb b) v x ->
  exists s e, make_const (UIntb b) (Int64 sh) = Ok s /\ operator_shr (eref v) (eref s) = Ok e /\
    scalar_expr (UIntb b) e (Z.shiftr x sh).
Proof.
  intros Hb Hs Hv. destruct (num_type_facts false b Hb) as (Ht & _ & Hbt & _).
  assert (H8 : 8 <= 2 ^ b) by (apply (Z.pow_le_mono_r 2 3 b); unfold table_width in Hb; lia).
  pose proof (urange_of b v x Hb Hv) as Hx. unfold in_urange in Hx.
  destruct (make_const_scalar_expr Γ ρ (UIntb b) sh Ht) as (s & E1 & Hse).
  rewrite wrap_unsigned, uwrap_id in Hse by (done || (unfold in_urange; lia)).
  destruct (scalar_shr Γ ρ _ _ v s x sh Ht Ht Hv Hse) as (e & E2 & He).
  { rewrite matched_type_same, wrap_unsigned, uwrap_id by (done || (unfold in_urange; lia)).
    unfold shift_amount. rewrite Hbt. unfold table_width in Hb. apply andb_true_iff. rewrite Z.leb_le, Z.ltb_lt. lia. }
  exists s, e. split; [done|]. split; [done|]. rewrite matched_type_same, !wrap_unsigned in He by done.
  rewrite (uwrap_id b x), (uwrap_id b sh), uwrap_id in He; try (unfold table_width in Hb; unfold in_urange; lia); [done|].
  unfold in_urange. rewrite Z.shiftr_div_pow2 by lia. pose proof (pow2_pos sh ltac:(lia)).
  split; [apply Z.div_pos; lia|]. apply Z.div_lt_upper_bound; nia.
Qed.

Lemma divide_by_uint_value b a z d : table_width b -> scalar_expr (UIntb b) a z -> 1 < d < 256 ->
  not_power_of_two d ->
  exists e, divide_by_uint (UIntb b) a d = Ok e /\ scalar_expr (UIntb b) e (z / d).
Proof.
  intros Hb Ha Hd Hp. destruct (num_type_facts false b Hb) as (Ht & _ & Hbt & _).
  assert (Hb0 : 8 <= b <= 32) by (unfold table_width in Hb; lia).
  destruct (const_row false b d Hb Hd Hp ltac:(done)) as (me & mul & sh & Hrow & Hme & Hmul & Hsh & Hdiv).
  pose proof (urange_of b a z Hb Ha) as Hz. specialize (Hdiv z Hz).
  unfold divide_by_uint. rewrite Hbt, Hrow.
  assert (Hm0 : negb (me =? 0) = true) by (by destruct Hme as [->|[_ ->]]). rewrite Hm0. cbn [guard mbind res_bind].
  rewrite (se_type _ _ _ _ _ Ha).
  destruct (make_const_scalar_expr Γ ρ (UIntb b) mul Ht) as (mult & E1 & Hm). rewrite E1. cbn [mbind res_bind].
  rewrite wrap_unsigned, uwrap_id in Hm by (done || (unfold in_urange; lia)).
  assert (Hshr : 0 <= (if me =? 1 then sh else 0) < b) by (destruct (me =? 1); lia).
  destruct (mulhi_shr_value b a mult z mul _ Hb Hshr Ha Hm) as (v & E2 & Hv). rewrite E2. cbn [mbind res_bind].
  destruct Hme as [->|[_ ->]]; cbn [Z.eqb Pos.eqb] in *.
  - exists v. split; [done|]. rewrite <- Hdiv. unfold u_method_1. by rewrite shiftr_shiftr_div by lia.
  - rewrite Z.add_0_r, (Z.mul_comm z mul) in Hv.
    destruct (average_le b mul z) as [H1 _]; [lia|lia|unfold in_urange in Hz; lia|].
    destruct (sorted_avg_value b v a _ z Hb Hv Ha ltac:(lia)) as (avg & E3 & Havg). rewrite E3. cbn [mbind res_bind].
    assert (Hq : Z.shiftr (Z.shiftr (mul * z) b + (z - Z.shiftr (mul * z) b) / 2) sh = z / d).
    { rewrite <- Hdiv. unfold u_method_2. rewrite (Z.mul_comm z mul). by rewrite (Z.shiftr_div_pow2 (z - _)) by lia. }
    destruct (Z.eqb_spec sh 0) as [->|Hne]; cbn [negb].
    + exists avg. split; [done|]. by rewrite <- Hq, Z.shiftr_0_r.
    + destruct (shift_const b avg _ sh Hb Hsh Havg) as (s & e & E4 & E5 & He). rewrite E4. cbn [mbind res_bind].
      exists e. split; [done|]. by rewrite <- Hq.
Qed.
End Division.

(** * The Euclidean quotient and remainder *)
Definition call1 (t : Ty) (name : string) (x : Expr) : Expr := Call t name [x] PureIntrinsic None 0 None None.
Definition call2 (t : Ty) (name : string) (x y : Expr) : Expr := Call t name [x; y] PureIntrinsic None 0 None None.
Definition sign_of (t : Ty) (e : Expr) : Expr := call2 t "shift_right" e (IntImm t (bits t - 1)).

(** What [lower_euclidean_div] builds for a signed type. *)
Definition euclidean_quotient (t : Ty) (a b : Expr) : Expr :=
  let q := call2 t "div_round_to_zero" a b in
  let rs := sign_of t (Bin Sub a (Bin Mul q b)) in
  let bs := sign_of t b in
  Bin Add (Bin Sub q (call2 t "bitwise_and" rs bs)) (call2 t "bitwise_and" rs (call1 t "bitwise_not" bs)).

(** What [lower_euclidean_mod] builds for a signed type. *)
Definition euclidean_remainder (t : Ty) (a b : Expr) : Expr :=
  let r := call2 t "mod_round_to_zero" a b in
  Select (Bin LT r (IntImm t 0)) (Bin Add r (Cast t (call1 (with_code t halide_type_uint) "abs" b))) r.

Section Trees.
Context (Γ : gmap string Ty) (ρ : env) `{!Intrinsics ρ} (w : Z) (Hw8 : 8 <= w) (Hwid : int_width w = true).

#[local] Notation scalar_expr := (scalar_expr Γ ρ).
#[local] Notation t := (Int w 1).

Lemma t_facts : sint t /\ bits t = w /\ 8 <= w <= 64.
Proof. destruct (sint_int w Hwid) as [H1 H2]. pose proof (int_width_range w Hwid). split; [done|]. split; [done|lia]. Qed.

Lemma t_representable z : representable t z = true <-> in_srange w z.
Proof.
  destruct t_facts as (_ & Hb & _). unfold representable. change (is_int t) with true. rewrite Hb.
  apply bool_decide_eq_true.
Qed.

Lemma pure_intrinsic_run u name args : pure_intrinsic u name args = Ok (Call u name args PureIntrinsic None 0 None None).
Proof. unfold pure_intrinsic, Call_make. by rewrite (proj2 (mapM_defined _ _ args)) by done. Qed.

Lemma match_same x y : type x = t -> type y = t -> match_types x y = Ok (x, y).
Proof. intros Hx Hy. unfold match_types. rewrite Hx, Hy, type_eqb_refl. done. Qed.

Lemma tree_bin op nm nm' x y z v r : is_logical op = false ->
  scalar_expr t x z -> scalar_expr t y v -> int_binop Machine op t z v = Some r ->
  operator_ee (binary_make op nm) nm' (eref x) (eref y) = Ok (Bin op x y) /\
  scalar_expr (binop_type op t) (Bin op x y) r.
Proof.
  intros Hop Hx Hy Hr. destruct t_facts as (Ht & _).
  destruct (scalar_bin Γ ρ op nm t x y z v r Ht Hop Hx Hy Hr) as [Hm Hs]. split; [|done].
  unfold operator_ee, both_defined, eref, user_assert. cbn [mbind res_bind].
  rewrite match_same by (eapply se_type; done). exact Hm.
Qed.
Lemma const_node_t v : const_node t v = IntImm t v.
Proof. unfold const_node. change (is_int t) with true. by rewrite element_of_scalar by (apply t_facts || done). Qed.

Lemma tree_const v : in_srange w v -> make_const t (Int64 v) = Ok (IntImm t v) /\ scalar_expr t (IntImm t v) v.
Proof.
  intros Hv. destruct t_facts as (Ht & _). destruct (make_const_scalar_expr Γ ρ t v Ht) as (e & He & Hs).
  rewrite representable_wrap in Hs by (by apply t_representable).
  assert (Hc : make_const t (Int64 v) = Ok (IntImm t v)).
  { by rewrite (make_const_int t _ v), representable_wrap, const_node_t by (apply Ht || by apply t_representable || by left). }
  rewrite Hc in He. by injection He as <-.
Qed.

(** A call built from scalars is the node, with the value the rule gives it. *)
Lemma tree_call2 name x y z v r : binary_lane t name z v = Some r -> scalar_expr t x z -> scalar_expr t y v ->
  pure_intrinsic t name [x; y] = Ok (call2 t name x y) /\ scalar_expr t (call2 t name x y) (wrap_type t r).
Proof.
  intros Hr Hx Hy. destruct t_facts as (Ht & _).
  destruct (scalar_binary Γ ρ t t t name x y z v r Ht Hr Hx Hy) as (e & He & Hs).
  rewrite pure_intrinsic_run in *. by injection He as <-.
Qed.

Lemma tree_sign x z : scalar_expr t x z ->
  operator_shr_ei (eref x) (bits t - 1) = Ok (sign_of t x) /\ scalar_expr t (sign_of t x) (if z <? 0 then -1 else 0).
Proof.
  intros Hx. destruct t_facts as (Ht & Hb & Hw). rewrite Hb.
  assert (Hk : in_srange w (w - 1)).
  { unfold in_srange. pose proof (pow2_pos (w - 1)). pose proof (Z.pow_gt_lin_r 2 (w - 1)). lia. }
  pose proof (tree_const (w - 1) Hk) as [Hc Hcs].
  pose proof (se_range _ _ _ _ _ Hx) as Hz. apply t_representable in Hz.
  assert (Hsh : binary_lane t "shift_right" z (w - 1) = Some (Z.shiftr z (w - 1))).
  { unfold binary_lane. simpl. unfold shift_amount. rewrite Hb. rewrite (proj2 (Z.leb_le _ _)), (proj2 (Z.ltb_lt _ _)) by lia.
    done. }
  destruct (tree_call2 _ _ _ _ _ _ Hsh Hx Hcs) as [Hrun Hs]. split.
  - unfold operator_shr_ei, shift_ei, eref. cbn [deref mbind res_bind]. rewrite (se_type _ _ _ _ _ Hx).
    rewrite (check_representable_ok Γ ρ); [|done|apply (srange_mono w 64); [lia|done]|by apply t_representable].
    cbn [mbind res_bind]. rewrite Hc. cbn [mbind res_bind]. unfold operator_shr, shift, both_defined, user_assert, eref.
    cbn [mbind res_bind]. rewrite (se_type _ _ _ _ _ Hx), (se_type _ _ _ _ _ Hcs). change (is_float t) with false.
    cbn [negb mbind res_bind]. rewrite match_same by (eapply se_type; done). cbn [mbind res_bind].
    rewrite (se_type _ _ _ _ _ Hx), Hrun. unfold sign_of. by rewrite Hb.
  - unfold sign_of. rewrite Hb. pose proof (shiftr_sign w z ltac:(lia) Hz) as Hsr. rewrite Hsr in Hs.
    rewrite representable_wrap in Hs; [done|]. apply t_representable. unfold in_srange.
    pose proof (pow2_pos (w - 1)). destruct (z <? 0); lia.
Qed.

Lemma tree_and x y z v : scalar_expr t x z -> scalar_expr t y v ->
  operator_bitand (eref x) (eref y) = Ok (call2 t "bitwise_and" x y) /\
  scalar_expr t (call2 t "bitwise_and" x y) (wrap_type t (Z.land z v)).
Proof.
  intros Hx Hy. destruct (tree_call2 "bitwise_and" x y z v (Z.land z v) eq_refl Hx Hy) as [Hr Hs]. split; [|done].
  unfold operator_bitand, bitwise, both_defined, user_assert, eref. cbn [mbind res_bind].
  rewrite (se_type _ _ _ _ _ Hx), (se_type _ _ _ _ _ Hy). change (is_int t) with true. cbn [orb mbind res_bind].
  rewrite Z.eqb_refl. cbn [negb mbind res_bind].
  rewrite (se_type _ _ _ _ _ Hy), type_neqb_negb, type_eqb_refl. cbn [negb mbind res_bind]. exact Hr.
Qed.

Lemma tree_not x z : scalar_expr t x z ->
  operator_bitnot (eref x) = Ok (call1 t "bitwise_not" x) /\
  scalar_expr t (call1 t "bitwise_not" x) (wrap_type t (Z.lnot z)).
Proof.
  intros Hx. destruct t_facts as (Ht & _).
  destruct (scalar_unary Γ ρ t t "bitwise_not" x z (Z.lnot z) Ht eq_refl Hx) as (e & He & Hs).
  rewrite pure_intrinsic_run in He. injection He as <-. split; [|done].
  unfold operator_bitnot, user_defined, user_assert, eref. cbn [mbind res_bind]. rewrite (se_type _ _ _ _ _ Hx).
  change (is_int t) with true. cbn [orb mbind res_bind]. by rewrite pure_intrinsic_run.
Qed.

(** ** The quotient *)
Lemma quot_range z v : in_srange w z -> in_srange w v -> v <> 0 -> ~ (z = - 2 ^ (w - 1) /\ v = -1) ->
  in_srange w (Z.quot z v).
Proof.
  unfold in_srange. intros Hz Hv Hv0 Hmin. destruct t_facts as (_ & _ & Hw).
  assert (Hpos : 2 ^ 7 <= 2 ^ (w - 1)) by (apply Z.pow_le_mono_r; lia).
  set (M := 2 ^ (w - 1)) in *. clearbody M. simpl in Hpos.
  destruct (decide (v = -1)) as [->|]; [change (-1) with (- (1)); rewrite Z.quot_opp_r, Z.quot_1_r by lia; lia|].
  destruct (decide (v = 1)) as [->|]; [rewrite Z.quot_1_r; lia|].
  assert (Z.abs (Z.quot z v) <= M - 1); [|lia].
  rewrite <- Z.quot_abs, Z.quot_div_nonneg by lia. apply Z.div_le_upper_bound; nia.
Qed.

Section Quotient.
Context (a b : Expr) (z v : Z) (Ha : scalar_expr t a z) (Hb : scalar_expr t b v) (Hv : v <> 0)
  (Hmin : ~ (z = - 2 ^ (w - 1) /\ v = -1)).

Lemma operand_range : in_srange w z /\ in_srange w v.
Proof. split; apply t_representable; [apply (se_range _ _ _ _ _ Ha)|apply (se_range _ _ _ _ _ Hb)]. Qed.

Lemma t_wrap x : in_srange w x -> wrap_type t x = x.
Proof. intros Hx. by apply representable_wrap, t_representable. Qed.
Lemma t_ov x : in_srange w x -> ov_result Machine t x = Some x.
Proof. intros Hx. simpl. by rewrite t_wrap. Qed.

Lemma not_undefined : div_undefined t z v = false.
Proof.
  destruct t_facts as (_ & Hbt & _). unfold div_undefined. rewrite Hbt. change (is_int t) with true.
  apply orb_false_iff. split; [by apply Z.eqb_neq|]. apply andb_false_iff.
  destruct (Z.eqb_spec z (- 2 ^ (w - 1))); [right|by left]. apply Z.eqb_neq. intros ->. by apply Hmin.
Qed.

Lemma truncated_quotient :
  scalar_expr t (call2 t "div_round_to_zero" a b) (Z.quot z v).
Proof.
  destruct operand_range as [Hz Hvr].
  assert (Hl : binary_lane t "div_round_to_zero" z v = Some (Z.quot z v))
    by (unfold binary_lane; simpl; by rewrite not_undefined).
  destruct (tree_call2 _ a b z v _ Hl Ha Hb) as [_ Hs]. by rewrite t_wrap in Hs by (by apply quot_range).
Qed.

Lemma truncated_remainder :
  scalar_expr t (call2 t "mod_round_to_zero" a b) (Z.rem z v).
Proof.
  destruct operand_range as [Hz Hvr]. destruct (quot_rem_sign z v Hv) as (_ & Hlt & _).
  assert (Hl : binary_lane t "mod_round_to_zero" z v = Some (Z.rem z v))
    by (unfold binary_lane; simpl; by rewrite not_undefined).
  destruct (tree_call2 _ a b z v _ Hl Ha Hb) as [_ Hs]. rewrite t_wrap in Hs; [done|].
  unfold in_srange in *. lia.
Qed.

(** The corrections the masks select. *)
Lemma mask_values (r : Z) :
  let bs := if v <? 0 then -1 else 0 in let rs := if r <? 0 then -1 else 0 in
  wrap_type t (Z.land rs bs) = (if (r <? 0) && (v <? 0) then -1 else 0) /\
  wrap_type t (Z.land rs (wrap_type t (Z.lnot bs))) = (if (r <? 0) && negb (v <? 0) then -1 else 0).
Proof.
  destruct t_facts as (_ & _ & Hw). assert (Hpos : 2 ^ 7 <= 2 ^ (w - 1)) by (apply Z.pow_le_mono_r; lia).
  assert (H : wrap_type t 0 = 0 /\ wrap_type t (-1) = -1) by (split; apply t_wrap; unfold in_srange; lia).
  destruct H as [H0 H1].
  destruct (v <? 0), (r <? 0); cbn [andb negb];
    change (Z.lnot (-1)) with 0; change (Z.lnot 0) with (-1); rewrite ?H0, ?H1, ?Z.land_0_l, ?Z.land_m1_l, ?H0, ?H1; done.
Qed.

Lemma corrected_quotient : Z.quot z v - (if (Z.rem z v <? 0) && (v <? 0) then -1 else 0)
  + (if (Z.rem z v <? 0) && negb (v <? 0) then -1 else 0) = ediv z v /\
  in_srange w (Z.quot z v - (if (Z.rem z v <? 0) && (v <? 0) then -1 else 0)).
Proof.
  destruct operand_range as [Hz Hvr]. destruct t_facts as (_ & _ & Hw).
  destruct (euclid_correction z v Hv) as [Hq _]. pose proof (quot_range z v Hz Hvr Hv Hmin) as Hqr.
  pose proof (ediv_range w z v ltac:(lia) Hz Hvr Hv Hmin) as Her.
  destruct (Z.ltb_spec (Z.rem z v) 0), (Z.ltb_spec v 0); cbn [andb negb] in *; (split; [lia|]); unfold in_srange in *; lia.
Qed.

Lemma quotient_tree :
  (forall addr same_as cs, lower_euclidean_div addr same_as a b cs =
     common_subexpression_elimination addr same_as (euclidean_quotient t a b) cs) /\
  scalar_expr t (euclidean_quotient t a b) (ediv z v).
Proof.
  destruct operand_range as [Hz Hvr]. destruct t_facts as (Ht & Hbt & Hw).
  destruct (quot_rem_sign z v Hv) as (Hd & Hlt & Hs). destruct corrected_quotient as [Hc1 Hc2].
  pose proof (ediv_range w z v ltac:(lia) Hz Hvr Hv Hmin) as Her.
  pose proof truncated_quotient as Hq0. set (q := call2 t "div_round_to_zero" a b) in *.
  destruct (tree_bin Mul "Mul" "operator*" q b _ _ (Z.quot z v * v) eq_refl Hq0 Hb) as [R1 S1].
  { apply t_ov. unfold in_srange in *. nia. }
  destruct (tree_bin Sub "Sub" "operator-" a (Bin Mul q b) z _ (Z.rem z v) eq_refl Ha S1) as [R2 S2].
  { simpl int_binop. replace (z - Z.quot z v * v) with (Z.rem z v) by lia. apply t_ov. unfold in_srange in *. lia. }
  destruct (tree_sign b v Hb) as [R3 S3]. destruct (tree_sign _ _ S2) as [R4 S4].
  destruct (tree_and _ _ _ _ S4 S3) as [R5 S5]. destruct (tree_not _ _ S3) as [R6 S6].
  destruct (tree_and _ _ _ _ S4 S6) as [R7 S7]. destruct (mask_values (Z.rem z v)) as [M1 M2].
  rewrite M1 in S5. rewrite M2 in S7.
  destruct (tree_bin Sub "Sub" "operator-" _ _ _ _ _ eq_refl Hq0 S5 (t_ov _ Hc2)) as [R8 S8].
  destruct (tree_bin Add "Add" "operator+" _ _ _ _ (ediv z v) eq_refl S8 S7) as [R9 S9].
  { simpl int_binop. rewrite Hc1. by apply t_ov. }
  split; [|exact S9].
  intros addr same_as cs. unfold lower_euclidean_div. rewrite (se_type _ _ _ _ _ Ha), (se_type _ _ _ _ _ Hb), type_eqb_refl.
  cbn [guard mbind res_bind]. rewrite pure_intrinsic_run. cbn [mbind res_bind]. change (is_int t) with true. cbn iota.
  change (Call t "div_round_to_zero" [a; b] PureIntrinsic None 0 None None) with q.
  unfold operator_mul, operator_sub, operator_add, Mul_make, Sub_make, Add_make. rewrite R1. cbn [mbind res_bind].
  rewrite R2. cbn [mbind res_bind]. rewrite R3. cbn [mbind res_bind]. rewrite R4. cbn [mbind res_bind].
  rewrite R5. cbn [mbind res_bind]. rewrite R6. cbn [mbind res_bind]. rewrite R7. cbn [mbind res_bind].
  rewrite R8. cbn [mbind res_bind]. rewrite R9. done.
Qed.
(** ** The remainder *)
#[local] Notation u := (with_code t halide_type_uint).

Lemma u_facts : sint u /\ bits u = w /\ u = UInt w 1.
Proof.
  destruct t_facts as (_ & Hbt & Hw). destruct (sint_uint w) as [H1 H2];
    [by unfold uint_width; rewrite Hwid, orb_true_r|].
  assert (Hu : u = UInt w 1) by (unfold with_code; by rewrite Hbt). by rewrite Hu.
Qed.

Lemma abs_tree : abs (eref b) = Ok (call1 u "abs" b) /\ scalar_expr u (call1 u "abs" b) (wrap_type u (Z.abs v)).
Proof.
  destruct u_facts as (Hu & _ & _).
  destruct (scalar_unary Γ ρ u t "abs" b v (Z.abs v) Hu eq_refl Hb) as (e & He & Hs).
  rewrite pure_intrinsic_run in He. injection He as <-. split; [|done].
  unfold abs, user_defined, eref. cbn [mbind res_bind]. rewrite (se_type _ _ _ _ _ Hb).
  change (is_uint t) with false. change (is_int t) with true. cbn iota. by rewrite pure_intrinsic_run.
Qed.

Lemma cast_abs : cast t (eref (call1 u "abs" b)) = Ok (Cast t (call1 u "abs" b)) /\
  scalar_expr t (Cast t (call1 u "abs" b)) (wrap_type t (wrap_type u (Z.abs v))).
Proof.
  destruct u_facts as (Hu & _ & _). destruct t_facts as (Ht & _). destruct abs_tree as [_ Ha'].
  destruct (cast_scalar_expr Γ ρ t u _ _ Ht Hu Ha') as (e & He & Hs).
  assert (Hc : cast t (eref (call1 u "abs" b)) = Ok (Cast t (call1 u "abs" b))) by reflexivity.
  unfold eref in Hc. rewrite Hc in He. by injection He as <-.
Qed.

Lemma match_abs r : type r = t ->
  match_types r (call1 u "abs" b) = Ok (r, Cast t (call1 u "abs" b)).
Proof.
  intros Hr. destruct t_facts as (Ht & Hbt & Hw). destruct u_facts as (_ & Hbu & Hu).
  unfold match_types. change (type (call1 u "abs" b)) with u. rewrite Hr.
  assert (Hne : type_eqb t u = false) by reflexivity. rewrite Hne.
  assert (Hml : match_lanes r (call1 u "abs" b) = Ok (r, call1 u "abs" b)).
  { unfold match_lanes. rewrite Hr. change (type (call1 u "abs" b)) with u. reflexivity. }
  change (user_assert _ _) with (@Ok unit tt). cbn [mbind res_bind]. rewrite Hml. cbn [mbind res_bind].
  unfold match_element_types. rewrite Hr. change (type (call1 u "abs" b)) with u. rewrite Hne.
  change (is_float t) with false. change (is_float u) with false. change (is_uint t) with false. cbn [negb andb].
  rewrite Hbt, Hbu, Z.max_id. change (lanes t) with 1.
  assert (Hcr : cast t (eref r) = Ok r) by (unfold cast, eref, cast_expr, cast_body; by rewrite Hr, type_eqb_refl).
  rewrite Hcr. cbn [mbind res_bind]. by rewrite (proj1 cast_abs).
Qed.

Lemma wrap_wrapped_sum x y : wrap_type t (x + wrap_type t (wrap_type u y)) = wrap_type t (x + y).
Proof.
  destruct t_facts as (_ & Hbt & Hw). destruct u_facts as (_ & Hbu & _).
  rewrite (wrap_type_wrap t u) by lia. destruct (wrap_type_form t y) as [k ->]; [lia|].
  replace (x + (y + k * 2 ^ bits t)) with (x + y + k * 2 ^ bits t) by lia. by apply wrap_type_add_mul; lia.
Qed.

Lemma negative_tree r x : scalar_expr t r x ->
  operator_lt_ei (eref r) 0 = Ok (Bin LT r (IntImm t 0)) /\
  scalar_expr (Bool 1) (Bin LT r (IntImm t 0)) (Z.b2z (x <? 0)).
Proof.
  intros Hr. destruct t_facts as (Ht & _ & Hw).
  assert (H0 : in_srange w 0) by (unfold in_srange; pose proof (pow2_pos (w - 1)); lia).
  destruct (tree_const 0 H0) as [Hc Hcs].
  destruct (scalar_bin Γ ρ LT "LT" t r (IntImm t 0) x 0 (Z.b2z (x <? 0)) Ht eq_refl Hr Hcs eq_refl) as [Hm Hs].
  split; [|exact Hs]. unfold operator_lt_ei, operator_ei, user_defined, eref. cbn [mbind res_bind].
  rewrite (se_type _ _ _ _ _ Hr), (check_representable_ok Γ ρ t 0 Ht) by (done || by apply t_representable).
  cbn [mbind res_bind]. rewrite Hc. cbn [mbind res_bind]. exact Hm.
Qed.

Lemma select_tree c x y (k : bool) xz yz : as_const_int (eref x) = None ->
  as_const_int (eref y) = None -> as_const_int (eref c) = None ->
  scalar_expr (Bool 1) c (Z.b2z k) -> scalar_expr t x xz -> scalar_expr t y yz ->
  select (eref c) (eref x) (eref y) = Ok (Select c x y) /\ scalar_expr t (Select c x y) (if k then xz else yz).
Proof.
  intros Hx0 Hy0 Hc0 Hc Hx Hy. destruct t_facts as (Ht & _).
  destruct (scalar_select Γ ρ t c x y k xz yz Ht Hc0 Hc Hx Hy) as (e & He & Hs).
  assert (Hrun : select (eref c) (eref x) (eref y) = Ok (Select c x y)).
  { unfold select. rewrite Hc0, Hx0. cbn [mbind res_bind]. rewrite Hy0. unfold deref, eref, user_assert. cbn [mbind res_bind].
    rewrite (se_type _ _ _ _ _ Hc), (se_type _ _ _ _ _ Hx), (se_type _ _ _ _ _ Hy), type_eqb_refl.
    change (is_bool (Bool 1)) with true. cbn [mbind res_bind]. apply Select_make_ok. simpl.
    by rewrite (se_type _ _ _ _ _ Hc), (se_type _ _ _ _ _ Hx), (se_type _ _ _ _ _ Hy), type_eqb_refl. }
  unfold eref in Hrun. rewrite Hrun in He. injection He as <-. done.
Qed.

Lemma remainder_tree :
  (forall addr same_as cs, lower_euclidean_mod addr same_as a b cs =
     common_subexpression_elimination addr same_as (euclidean_remainder t a b) cs) /\
  scalar_expr t (euclidean_remainder t a b) (emod z v).
Proof.
  destruct operand_range as [Hz Hvr]. destruct t_facts as (Ht & _ & Hw).
  destruct (euclid_correction z v Hv) as [_ Hq]. destruct (ediv_emod z v Hv) as [_ Hm].
  assert (Her : in_srange w (emod z v)) by (unfold in_srange in *; lia).
  pose proof truncated_remainder as Hr0. set (r := call2 t "mod_round_to_zero" a b) in *.
  destruct (negative_tree r _ Hr0) as [R1 S1]. destruct abs_tree as [R2 _]. destruct cast_abs as [_ S3].
  destruct (scalar_bin Γ ρ Add "Add" t r _ _ _ _ Ht eq_refl Hr0 S3 eq_refl) as [R4 S4].
  change (binop_type Add t) with t in S4. rewrite wrap_wrapped_sum in S4.
  destruct (select_tree (Bin LT r (IntImm t 0)) (Bin Add r (Cast t (call1 u "abs" b))) r _ _ _ eq_refl eq_refl eq_refl
    S1 S4 Hr0) as [R5 S5].
  split.
  - intros addr same_as cs. unfold lower_euclidean_mod.
    rewrite (se_type _ _ _ _ _ Ha), (se_type _ _ _ _ _ Hb), type_eqb_refl. cbn [guard mbind res_bind].
    rewrite pure_intrinsic_run. cbn [mbind res_bind]. change (is_int t) with true. cbn iota.
    change (Call t "mod_round_to_zero" [a; b] PureIntrinsic None 0 None None) with r.
    rewrite R1. cbn [mbind res_bind]. rewrite R2. cbn [mbind res_bind].
    unfold operator_add, operator_ee, both_defined, eref. cbn [mbind res_bind].
    rewrite (match_abs r (se_type _ _ _ _ _ Hr0)). cbn [mbind res_bind].
    unfold Add_make. unfold eref in *. rewrite R4. cbn [mbind res_bind].
    rewrite R5. done.
  - unfold euclidean_remainder. fold r. rewrite Hq. destruct (Z.ltb_spec (Z.rem z v) 0) as [Hn|Hn].
    + rewrite t_wrap in S5; [done|]. unfold in_srange in *. lia.
    + by rewrite Z.add_0_r.
Qed.
End Quotient.
End Trees.

(** * Elimination of common subexpressions in what was built *)

(** The operands are fit for the pass: no NaNs, negative zeros or C++ types, consistent
    lets, and names that [unique_name] is not still to make. *)
Record lowerable (cs : name_counters) (a b : Expr) : Prop := {
  lw_plain : plain a = true /\ plain b = true;
  lw_lets : lets_consistent (Bin Div a b);
  lw_names x : occurs x (Bin Div a b) -> settled cs x
}.

(** Expressions made of the two operands and nothing else that has names. *)
Definition made_of (a b e : Expr) : Prop :=
  (plain a = true -> plain b = true -> plain e = true) /\
  (forall x d, (x, d) ∈ let_defs e -> (x, d) ∈ let_defs (Bin Div a b)) /\
  (forall x, free_in x e = true -> free_in x (Bin Div a b) = true).

Lemma lets_consistent_sub e e' : (forall x d, (x, d) ∈ let_defs e' -> (x, d) ∈ let_defs e) ->
  (forall x, free_in x e' = true -> free_in x e = true) -> lets_consistent e -> lets_consistent e'.
Proof.
  intros Hd Hf [H1 H2]. constructor.
  - intros x v w Hv Hw. eapply H1; by apply Hd.
  - intros x [v Hv]. destruct (free_in x e') eqn:E; [|done]. rewrite <- (H2 x) by (exists v; by apply Hd).
    symmetry. by apply Hf.
Qed.

Lemma made_of_quotient w a b : made_of a b (euclidean_quotient (Int w 1) a b).
Proof.
  split; [|split].
  - unfold plain. simpl. rewrite !andb_true_iff. intros. tauto.
  - intros x d. cbn [euclidean_quotient let_defs sign_of call1 call2 map concat]. set_solver.
  - intros x. cbn [euclidean_quotient free_in sign_of call1 call2 existsb]. rewrite !orb_true_iff. intros. naive_solver.
Qed.

Lemma made_of_remainder w a b : made_of a b (euclidean_remainder (Int w 1) a b).
Proof.
  split; [|split].
  - unfold plain. simpl. rewrite !andb_true_iff. intros. tauto.
  - intros x d. cbn [euclidean_remainder let_defs call1 call2 map concat]. set_solver.
  - intros x. cbn [euclidean_remainder free_in call1 call2 existsb]. rewrite !orb_true_iff. intros. naive_solver.
Qed.

Lemma cse_scalar Γ ρ addr same_as cs a b t e z : (forall a b, same_as a b = true -> a = b) -> handle_blind ρ ->
  lowerable cs a b -> made_of a b e -> scalar_expr Γ ρ t e z ->
  exists e' cs', common_subexpression_elimination addr same_as e cs = Ok (eref e', cs') /\ scalar_expr Γ ρ t e' z.
Proof.
  intros Hs Hρ [[Hpa Hpb] Hl Hn] (Hp & Hd & Hf) [Hty Hwf Ht Hev Hr].
  destruct (cse_correct addr same_as Γ Machine ρ e cs [VInt z]) as (e' & cs' & H & H1 & H2 & H3 & H4); try done.
  - by apply Hp.
  - by eapply lets_consistent_sub.
  - intros x [Hx|[d Hx]]; apply Hn; [left; by apply Hf|right; exists d; by apply Hd].
  - exists e', cs'. split; [done|]. constructor; congruence.
Qed.

(** * The visit methods are right *)
Section Lowering.
Context (Γ : gmap string Ty) (ρ : env) `{!Intrinsics ρ} (Hρ : env_ok Machine Γ ρ) (Hblind : handle_blind ρ).
Context (addr : Expr -> Z) (same_as : ExprRef -> ExprRef -> bool).
Hypothesis same_as_sound : forall a b, same_as a b = true -> a = b.

#[local] Notation scalar_expr := (scalar_expr Γ ρ).

(** Division is defined: not by zero, and not the least value by -1. *)
Definition division_defined (t : Ty) (z v : Z) : Prop :=
  v <> 0 /\ ~ (is_int t = true /\ z = - 2 ^ (bits t - 1) /\ v = -1).

(** The register of [e] holds the value [z] of type [t], whatever the sign of its own
    type. *)
Definition register (t : Ty) (e : Expr) (z : Z) : Prop :=
  exists u x, sint u /\ bits u = bits t /\ scalar_expr u e x /\ wrap_type t x = z.

Lemma register_scalar t e z : sint t -> scalar_expr t e z -> register t e z.
Proof.
  intros Ht He. exists t, z. split; [done|]. split; [done|]. split; [done|].
  apply representable_wrap, (se_range _ _ _ _ _ He).
Qed.

Lemma unsigned_quotients w a b z v name f : uint_width w = true -> scalar_expr (UInt w 1) a z ->
  scalar_expr (UInt w 1) b v -> v <> 0 -> binary_lane (UInt w 1) name z v = Some (f z v) ->
  representable (UInt w 1) (f z v) = true ->
  scalar_expr (UInt w 1) (call2 (UInt w 1) name a b) (f z v).
Proof.
  intros Hw Ha Hb Hv Hl Hr. destruct (sint_uint w Hw) as [Ht _].
  destruct (scalar_binary Γ ρ _ _ _ name a b z v _ Ht Hl Ha Hb) as (e & He & Hs).
  rewrite pure_intrinsic_run in He. injection He as <-. by rewrite representable_wrap in Hs.
Qed.

Lemma unsigned_range w e z : uint_width w = true -> scalar_expr (UInt w 1) e z -> in_urange w z.
Proof.
  intros Hw He. destruct (sint_uint w Hw) as [_ Hb]. pose proof (se_range _ _ _ _ _ He) as Hz.
  unfold representable in Hz. change (is_int (UInt w 1)) with false in Hz. change (is_uint (UInt w 1)) with true in Hz.
  apply bool_decide_eq_true in Hz. by rewrite Hb in Hz.
Qed.

Lemma unsigned_representable w z : uint_width w = true -> in_urange w z -> representable (UInt w 1) z = true.
Proof.
  intros Hw Hz. destruct (sint_uint w Hw) as [_ Hb]. unfold representable.
  change (is_int (UInt w 1)) with false. change (is_uint (UInt w 1)) with true. apply bool_decide_eq_true. by rewrite Hb.
Qed.

Lemma euclidean_div_value t a b z v cs : sint t -> 8 <= bits t -> scalar_expr t a z -> scalar_expr t b v ->
  division_defined t z v -> lowerable cs a b ->
  exists e cs', lower_euclidean_div addr same_as a b cs = Ok (eref e, cs') /\ scalar_expr t e (ediv z v).
Proof.
  intros Ht H8 Ha Hb [Hv Hmin] Hlow. destruct (sint_cases t Ht) as [[Et Hw]|[Et Hw]]; set (w := bits t) in *;
    clearbody w; subst t.
  - destruct (sint_int w Hw) as [_ Hbt].
    assert (Hm : ~ (z = - 2 ^ (w - 1) /\ v = -1)) by (intros Hm; by apply Hmin).
    destruct (quotient_tree Γ ρ w H8 Hw a b z v Ha Hb Hv Hm) as [Hrun Hs]. rewrite Hrun.
    apply (cse_scalar Γ ρ addr same_as cs a b (Int w 1)); try done. apply made_of_quotient.
  - pose proof (unsigned_range w a z Hw Ha) as Hz. pose proof (unsigned_range w b v Hw Hb) as Hvr. unfold in_urange in *.
    unfold lower_euclidean_div. rewrite (se_type _ _ _ _ _ Ha), (se_type _ _ _ _ _ Hb), type_eqb_refl, pure_intrinsic_run.
    eexists _, cs. split; [reflexivity|]. rewrite ediv_pos, <- Z.quot_div_nonneg by lia.
    apply (unsigned_quotients w a b z v "div_round_to_zero" Z.quot); try done.
    + unfold binary_lane, div_undefined. simpl. by rewrite (proj2 (Z.eqb_neq v 0)).
    + apply unsigned_representable; [done|]. rewrite Z.quot_div_nonneg by lia. split; [apply Z.div_pos; lia|].
      apply Z.div_lt_upper_bound; nia.
Qed.
Lemma euclidean_mod_value t a b z v cs : sint t -> 8 <= bits t -> scalar_expr t a z -> scalar_expr t b v ->
  division_defined t z v -> lowerable cs a b ->
  exists e cs', lower_euclidean_mod addr same_as a b cs = Ok (eref e, cs') /\ scalar_expr t e (emod z v).
Proof.
  intros Ht H8 Ha Hb [Hv Hmin] Hlow. destruct (sint_cases t Ht) as [[Et Hw]|[Et Hw]]; set (w := bits t) in *;
    clearbody w; subst t.
  - assert (Hm : ~ (z = - 2 ^ (w - 1) /\ v = -1)) by (intros Hm; by apply Hmin).
    destruct (remainder_tree Γ ρ w H8 Hw a b z v Ha Hb Hv Hm) as [Hrun Hs]. rewrite Hrun.
    apply (cse_scalar Γ ρ addr same_as cs a b (Int w 1)); try done. apply made_of_remainder.
  - pose proof (unsigned_range w a z Hw Ha) as Hz. pose proof (unsigned_range w b v Hw Hb) as Hvr. unfold in_urange in *.
    unfold lower_euclidean_mod. rewrite (se_type _ _ _ _ _ Ha), (se_type _ _ _ _ _ Hb), type_eqb_refl, pure_intrinsic_run.
    eexists _, cs. split; [reflexivity|]. unfold emod. rewrite Z.abs_eq, <- Z.rem_mod_nonneg by lia.
    apply (unsigned_quotients w a b z v "mod_round_to_zero" Z.rem); try done.
    + unfold binary_lane, div_undefined. simpl. by rewrite (proj2 (Z.eqb_neq v 0)).
    + apply unsigned_representable; [done|]. rewrite Z.rem_mod_nonneg by lia.
      pose proof (Z.mod_pos_bound z v ltac:(lia)). unfold in_urange. lia.
Qed.

(** ** Powers of two *)
Lemma pow2_divisor t b v k : sint t -> 8 <= bits t -> scalar_expr t b v -> widening_casts b = true ->
  is_const_power_of_two_integer b = Some k -> v = 2 ^ k /\ 0 <= k < bits t.
Proof.
  intros Ht H8 Hb Hw Hk. pose proof (scalar_int_expr Γ ρ t b v Ht Hb) as Hi.
  destruct (pow2_value Γ ρ Hρ b v k Hi Hw Hk) as [Hk0 ->]. split; [done|]. split; [done|].
  pose proof (se_range _ _ _ _ _ Hb) as Hr. unfold representable in Hr. pose proof (std_int_bits _ (proj1 Ht)).
  apply (Z.pow_lt_mono_r_iff 2); [lia..|]. pose proof (pow2_half (bits t) ltac:(lia)). pose proof (pow2_pos (bits t - 1) ltac:(lia)).
  destruct (is_int t), (is_uint t); try done; apply bool_decide_eq_true in Hr; unfold in_srange, in_urange in Hr; lia.
Qed.

Lemma shifted_quotient t a z k : sint t -> 8 <= bits t -> scalar_expr t a z -> 0 <= k < bits t ->
  exists e, operator_shr_ei (eref a) k = Ok e /\ scalar_expr t e (z / 2 ^ k).
Proof.
  intros Ht H8 Ha Hk. destruct (scalar_shr_ei Γ ρ t a z k Ht H8 Ha) as (e & He & Hs).
  { unfold shift_amount. apply andb_true_iff. rewrite Z.leb_le, Z.ltb_lt. lia. }
  exists e. split; [done|]. rewrite Z.shiftr_div_pow2 in Hs by lia. rewrite representable_wrap in Hs; [done|].
  pose proof (se_range _ _ _ _ _ Ha) as Hr. unfold representable in *. pose proof (std_int_bits _ (proj1 Ht)).
  pose proof (pow2_pos k ltac:(lia)). pose proof (pow2_pos (bits t - 1) ltac:(lia)).
  destruct (is_int t), (is_uint t); try done; apply bool_decide_eq_true in Hr; apply bool_decide_eq_true;
    unfold in_srange, in_urange in *; split; try apply Z.div_le_lower_bound; try apply Z.div_lt_upper_bound; nia.
Qed.
Lemma log2_loop_none v : 0 < v < 2 ^ 64 -> log2_loop 64 v 0 <> None.
Proof. intros Hv. rewrite (log2_loop_spec 64 v 0 Hv). discriminate. Qed.

Lemma int_divisor_not_pow2 b d : is_int (type b) = true -> as_const_int_expr b = Some d -> 1 < d < 2 ^ 64 ->
  is_const_power_of_two_integer b = None -> not_power_of_two d.
Proof.
  induction b using Expr_ind'; try done; intros Hi Hc Hd Hp Hz.
  - injection Hc as ->. cbn [type] in Hi. cbn [is_const_power_of_two_integer type] in Hp. rewrite Hi in Hp.
    cbn [orb negb] in Hp. change (as_const_int (IntImm t d)) with (Some d) in Hp. cbn iota in Hp.
    rewrite (proj2 (Z.ltb_ge d 0)), (proj2 (Z.eqb_neq d 0)), Hz in Hp by lia.
    cbn [negb andb Z.eqb] in Hp. apply (log2_loop_none d); [lia|exact Hp].
  - cbn in Hi. apply IHb; try done. cbn [is_const_power_of_two_integer type] in Hp. change (is_int (with_lanes (type b) l)) with (is_int (type b)) in *.
    rewrite Hi in Hp. exact Hp.
Qed.

Lemma uint_divisor_not_pow2 b d : is_uint (type b) = true -> as_const_uint_expr b = Some d -> 1 < d < 2 ^ 64 ->
  is_const_power_of_two_integer b = None -> not_power_of_two d.
Proof.
  induction b using Expr_ind'; try done; intros Hi Hc Hd Hp Hz.
  - injection Hc as ->. cbn [type] in Hi. cbn [is_const_power_of_two_integer type] in Hp. rewrite Hi, orb_true_r in Hp.
    cbn [negb] in Hp. change (as_const_int (UIntImm t d)) with (@None Z) in Hp. cbn iota in Hp.
    change (default 0 (as_const_uint (UIntImm t d))) with d in Hp.
    rewrite (proj2 (Z.eqb_neq d 0)), Hz in Hp by lia.
    cbn [negb andb Z.eqb] in Hp. apply (log2_loop_none d); [lia|exact Hp].
  - cbn in Hi. apply IHb; try done. cbn [is_const_power_of_two_integer type] in Hp. change (is_uint (with_lanes (type b) l)) with (is_uint (type b)) in *.
    rewrite Hi, orb_true_r in Hp. exact Hp.
Qed.

Lemma table_bits_width b : table_bits b = true -> table_width b.
Proof. unfold table_bits, table_width. rewrite !orb_true_iff, !Z.eqb_eq. tauto. Qed.

(** ** The table branches *)
Lemma small_int_quotient t a b z v d : sint t -> scalar_expr t a z -> scalar_expr t b v ->
  small_int_divisor t b = Some d -> is_const_power_of_two_integer b = None ->
  exists e, divide_by_int t a d = Ok e /\ register t e (ediv z v).
Proof.
  intros Ht Ha Hb Hd Hp. unfold small_int_divisor in Hd.
  destruct (as_const_int (eref b)) as [d'|] eqn:Hc; [|done]. cbn [mbind option_bind] in Hd.
  destruct (_ && _) eqn:Hg in Hd; [|done]. injection Hd as ->.
  rewrite !andb_true_iff, orb_true_iff, andb_true_iff, !Z.ltb_lt in Hg.
  destruct Hg as [[[Hi Hw] H1] H2]. apply table_bits_width in Hw as Hw'.
  rewrite (as_const_int_value Γ ρ b v d (scalar_int_expr Γ ρ t b v Ht Hb) Hc), ediv_pos by lia.
  assert (Hnp : not_power_of_two d).
  { apply (int_divisor_not_pow2 b); [by rewrite (se_type _ _ _ _ _ Hb)|done|lia|done]. }
  destruct (sint_cases t Ht) as [[Et Hwd]|[Et Hwd]]; [|by rewrite Et in Hi]. set (w := bits t) in *. clearbody w. subst t.
  destruct (divide_by_int_value Γ ρ w a z d Hw' Ha) as (e & He & Hs); [lia|done|lia|].
  destruct (num_type_facts false w Hw') as (Hu & _ & Hbu & _). destruct (sint_int w Hwd) as [_ Hbt].
  exists e. split; [done|]. exists (num_type false w), (uwrap w (z / d)).
  split; [done|]. split; [by rewrite Hbu, Hbt|]. split; [done|].
  assert (H8 : 8 <= w) by (unfold table_width in Hw'; lia).
  rewrite <- (wrap_unsigned w), wrap_type_wrap by (done || lia). apply representable_wrap, (t_representable w H8 Hwd).
  pose proof (se_range _ _ _ _ _ Ha) as Hz. apply (t_representable w H8 Hwd) in Hz. unfold in_srange in *.
  pose proof (pow2_pos (w - 1) ltac:(lia)).
  split; [apply Z.div_le_lower_bound|apply Z.div_lt_upper_bound]; nia.
Qed.

Lemma small_uint_quotient t a b z v d : sint t -> scalar_expr t a z -> scalar_expr t b v ->
  small_uint_divisor t b = Some d -> is_const_power_of_two_integer b = None ->
  exists e, divide_by_uint t a d = Ok e /\ register t e (ediv z v).
Proof.
  intros Ht Ha Hb Hd Hp. unfold small_uint_divisor in Hd.
  destruct (as_const_uint (eref b)) as [d'|] eqn:Hc; [|done]. cbn [mbind option_bind] in Hd.
  destruct (_ && _) eqn:Hg in Hd; [|done]. injection Hd as ->. rewrite !andb_true_iff, !Z.ltb_lt in Hg.
  destruct Hg as [[[Hi Hw] H1] H2]. apply table_bits_width in Hw as Hw'.
  rewrite (as_const_uint_value Γ ρ b v d (scalar_int_expr Γ ρ t b v Ht Hb) Hc), ediv_pos by lia.
  assert (Hnp : not_power_of_two d).
  { apply (uint_divisor_not_pow2 b); [by rewrite (se_type _ _ _ _ _ Hb)|done|lia|done]. }
  destruct (sint_cases t Ht) as [[Et Hwd]|[Et Hwd]]; [by rewrite Et in Hi|]. set (w := bits t) in *. clearbody w. subst t.
  destruct (divide_by_uint_value Γ ρ w a z d Hw' Ha) as (e & He & Hs); [lia|done|].
  exists e. split; [done|]. by apply register_scalar.
Qed.

(** ** The division *)
Lemma lower_Div_value t a b z v cs : sint t -> 8 <= bits t -> scalar_expr t a z -> scalar_expr t b v ->
  division_defined t z v -> widening_casts b = true -> lowerable cs a b ->
  exists e cs', lower_Div addr same_as a b cs = Ok (Lowered (eref e), cs') /\ register t e (ediv z v).
Proof.
  intros Ht H8 Ha Hb Hdef Hw Hlow. pose proof (scalar_int_expr Γ ρ t b v Ht Hb) as Hi.
  unfold lower_Div. rewrite (se_type _ _ _ _ _ Ha). destruct (std_int_class _ (proj1 Ht)) as (-> & -> & _).
  destruct (is_zero b) eqn:Hz; [destruct Hdef as [[] _]; by apply (is_zero_value Γ ρ Hρ b)|]. cbn [negb].
  unfold user_assert. cbn [mbind res_bind].
  destruct (is_const_power_of_two_integer b) as [k|] eqn:Hk.
  { destruct (pow2_divisor t b v k Ht H8 Hb Hw Hk) as [-> Hkr].
    destruct (shifted_quotient t a z k Ht H8 Ha Hkr) as (e & -> & He). cbn [mbind res_bind].
    exists e, cs. split; [done|]. rewrite ediv_pos by (apply pow2_pos; lia). by apply register_scalar. }
  destruct (small_int_divisor t b) as [d|] eqn:Hd.
  { destruct (small_int_quotient t a b z v d Ht Ha Hb Hd Hk) as (e & -> & He). cbn [mbind res_bind]. by exists e, cs. }
  destruct (small_uint_divisor t b) as [d|] eqn:Hu.
  { destruct (small_uint_quotient t a b z v d Ht Ha Hb Hu Hk) as (e & -> & He). cbn [mbind res_bind]. by exists e, cs. }
  destruct (euclidean_div_value t a b z v cs Ht H8 Ha Hb Hdef Hlow) as (e & cs' & -> & He). cbn [mbind res_bind].
  exists e, cs'. split; [done|]. by apply register_scalar.
Qed.

(** ** The modulus *)
Lemma masked_remainder t a b z k : sint t -> 8 <= bits t -> scalar_expr t a z -> scalar_expr t b (2 ^ k) ->
  0 <= k < bits t ->
  exists m e, operator_sub_ei (eref b) 1 = Ok m /\ operator_bitand (eref a) (eref m) = Ok e /\
    scalar_expr t e (z mod 2 ^ k).
Proof.
  intros Ht H8 Ha Hb Hk. pose proof (pow2_pos k ltac:(lia)) as Hp. pose proof (std_int_bits _ (proj1 Ht)) as Hbt.
  pose proof (se_range _ _ _ _ _ Hb) as Hr.
  assert (Hrep : forall x, 0 <= x <= 2 ^ k -> representable t x = true).
  { intros x Hx. unfold representable in *. pose proof (pow2_pos (bits t - 1) ltac:(lia)).
    destruct (is_int t), (is_uint t); try done; apply bool_decide_eq_true in Hr; apply bool_decide_eq_true;
      unfold in_srange, in_urange in *; lia. }
  destruct (scalar_ei Γ ρ Sub "Sub" "operator-" t b (2 ^ k) 1 (2 ^ k - 1) Ht eq_refl Hb) as (m & E1 & Hm);
    [done|apply Hrep; lia| |].
  { simpl. by rewrite representable_wrap by (apply Hrep; lia). }
  destruct (scalar_bitwise Γ ρ "bitwise_and" Z.land "bitwise and" t t a m z (2 ^ k - 1) ltac:(by left) Ht Ht H8 Ha Hm)
    as (e & E2 & He).
  exists m, e. split; [done|]. split; [done|].
  assert (Hl : Z.land z (2 ^ k - 1) = z mod 2 ^ k).
  { rewrite <- Z.land_ones by lia. by rewrite Z.ones_equiv. }
  pose proof (Z.mod_pos_bound z (2 ^ k) Hp).
  rewrite (representable_wrap t (2 ^ k - 1)), Hl, representable_wrap in He by (apply Hrep; lia). done.
Qed.

Lemma lower_Mod_value simplify t a b z v cs : sint t -> 8 <= bits t -> scalar_expr t a z -> scalar_expr t b v ->
  division_defined t z v -> widening_casts b = true -> lowerable cs a b ->
  exists e cs', lower_Mod addr same_as simplify a b cs = Ok (Lowered (eref e), cs') /\ register t e (emod z v).
Proof.
  intros Ht H8 Ha Hb Hdef Hw Hlow. unfold lower_Mod. rewrite (se_type _ _ _ _ _ Ha).
  destruct (std_int_class _ (proj1 Ht)) as (_ & -> & _).
  destruct (is_const_power_of_two_integer b) as [k|] eqn:Hk.
  - destruct (pow2_divisor t b v k Ht H8 Hb Hw Hk) as [-> Hkr].
    destruct (masked_remainder t a b z k Ht H8 Ha Hb Hkr) as (m & e & -> & H2 & He). cbn [mbind res_bind]. rewrite H2.
    cbn [mbind res_bind]. exists e, cs. split; [done|]. unfold emod.
    rewrite Z.abs_eq by (apply Z.lt_le_incl, pow2_pos; lia). by apply register_scalar.
  - destruct (euclidean_mod_value t a b z v cs Ht H8 Ha Hb Hdef Hlow) as (e & cs' & -> & He). cbn [mbind res_bind].
    exists e, cs'. split; [done|]. by apply register_scalar.
Qed.
End Lowering.

(** ** Minimum and maximum *)
Section Extremum.
Context (Γ : gmap string Ty) (ρ : env) `{!Intrinsics ρ}.

Lemma unique_name_char c cs : c <> "$"%char -> exists n cs', unique_name c cs = (String c (pretty (n : Z)), cs').
Proof.
  intros Hc. unfold unique_name. rewrite bool_decide_eq_false_2 by done.
  destruct (unique_count _ cs) as [n cs']. by exists n, cs'.
Qed.

Lemma scalar_var t x z : sint t -> representable t z = true -> x <> EmptyString -> Γ !! x = Some t ->
  vars ρ !! x = Some [VInt z] ->
  Variable_make t x None None None = Ok (Var t x None None None) /\ scalar_expr Γ ρ t (Var t x None None None) z.
Proof.
  intros [Hs _] Hr Hx HG Hv. split.
  - unfold Variable_make. by rewrite bool_decide_eq_false_2.
  - constructor; try done. split; [by apply std_int_ty_ok|done].
Qed.

(** A comparison and the selection of one of the two variables it compares. *)
Lemma select_var o nm nm' t x y z v k : sint t -> is_logical o = false -> binop_type o t = Bool 1 ->
  int_binop Machine o t z v = Some (Z.b2z k) ->
  scalar_expr Γ ρ t x z -> scalar_expr Γ ρ t y v ->
  exists c s, operator_ee (binary_make o nm) nm' (eref x) (eref y) = Ok c /\
    select (eref c) (eref x) (eref y) = Ok s /\ scalar_expr Γ ρ t s (if k then z else v).
Proof.
  intros Ht Hlog Hbt Hop Hx Hy.
  destruct (scalar_ee Γ ρ o nm nm' t t x y z v (Z.b2z k) Ht Ht Hlog Hx Hy) as (c & E1 & Hc).
  { rewrite matched_type_same by done. by rewrite (representable_wrap t z), (representable_wrap t v) by eauto using se_range. }
  rewrite matched_type_same, Hbt in Hc by done.
  assert (Hcc : as_const_int (Some c) = None).
  { unfold operator_ee, both_defined, eref in E1. cbn [mbind res_bind] in E1.
    destruct (match_types x y) as [[x' y']|]; [|done]. cbn [mbind res_bind] in E1.
    unfold binary_make in E1. cbn [eref defined mbind res_bind] in E1. inv_res. done. }
  destruct (scalar_select Γ ρ t c x y k z v Ht Hcc Hc Hx Hy) as (s & E2 & Hs). by exists c, s.
Qed.
End Extremum.

Lemma lower_extremum_value Γ ρ `{!Intrinsics ρ} o nm nm' t a b z v k cs : sint t -> is_logical o = false ->
  binop_type o t = Bool 1 -> int_binop Machine o t z v = Some (Z.b2z k) ->
  scalar_expr Γ ρ t a z -> scalar_expr Γ ρ t b v -> free_in (fst (unique_name "a"%char cs)) b = false ->
  exists e cs', lower_extremum (operator_ee (binary_make o nm) nm') a b cs = Ok (Lowered (eref e), cs') /\
    scalar_expr Γ ρ t e (if k then z else v).
Proof.
  intros Ht Hlog Hbt Hop Ha Hb Hfree. unfold lower_extremum.
  destruct (unique_name_char "a"%char cs ltac:(done)) as (n & cs1 & E1). rewrite E1 in Hfree |- *. cbn [fst] in Hfree.
  destruct (unique_name_char "b"%char cs1 ltac:(done)) as (m & cs2 & E2). rewrite E2.
  set (an := String "a" (pretty n)) in *. set (bn := String "b" (pretty m)) in *.
  rewrite (se_type _ _ _ _ _ Ha), (se_type _ _ _ _ _ Hb).
  set (ρ1 := bind_var ρ an [VInt z]). set (ρ2 := bind_var ρ1 bn [VInt v]).
  set (Γ2 := <[bn := t]> (<[an := t]> Γ)).
  destruct (scalar_var Γ2 ρ2 t an z Ht (se_range _ _ _ _ _ Ha)) as [V1 S1]; [done|..].
  { unfold Γ2. by rewrite lookup_insert_ne, lookup_insert_eq. }
  { simpl. by rewrite lookup_insert_ne, lookup_insert_eq. }
  destruct (scalar_var Γ2 ρ2 t bn v Ht (se_range _ _ _ _ _ Hb)) as [V2 S2]; [done|..].
  { unfold Γ2. by rewrite lookup_insert_eq. }
  { simpl. by rewrite lookup_insert_eq. }
  rewrite V1, V2. cbn [mbind res_bind].
  destruct (select_var Γ2 ρ2 o nm nm' t _ _ z v k Ht Hlog Hbt Hop S1 S2) as (c & s & E3 & E4 & Hs).
  rewrite E3. cbn [mbind res_bind]. rewrite E4. cbn [mbind res_bind]. eexists _, cs2. split; [reflexivity|].
  destruct Ha as [Ta Wa Da Va Ra], Hb as [Tb Wb Db Vb Rb], Hs as [Ts Ws Ds Vs Rs].
  assert (Hne : forall y, free_in y b = true -> y <> an) by (intros y Hy ->; congruence).
  constructor; [exact Ts| | | |exact Rs].
  - done.
  - split; [done|]. rewrite Ta. split; [|by rewrite Tb].
    eapply typed_free; [|exact Db]. intros y Hy. by rewrite lookup_insert_ne by (intros <-; by apply (Hne an)).
  - cbn [eval]. rewrite Va. cbn [mbind option_bind]. fold ρ1.
    assert (Hb1 : eval Machine ρ1 b = Some [VInt v]).
    { rewrite <- Vb. apply eval_free; [done|]. intros y Hy. simpl. by rewrite lookup_insert_ne by (intros <-; by apply (Hne an)). }
    rewrite Hb1. exact Vs.
Qed.

(** C22. Divisions and moduli of scalar integers of 8 bits and more are lowered to
    expressions with the right value. For operands of one type for which the division is
    defined, neither visit method fails, whichever of the shift, the tables for signed
    and unsigned constants, the mask and the general code is chosen, and the register of
    the result holds the Euclidean quotient, respectively remainder, on two conditions:
    the divisor, if it is a constant under casts, is so under widening casts only
    (otherwise the shift may be by another value's exponent,
    [lower_div_narrowing_divisor]); and the operands are fit for common subexpression
    elimination ([lowerable]): no NaNs, negative zeros or C++ types, consistent lets,
    and no names that [unique_name] is still to make. *)
Theorem lower_div_mod_exact Γ ρ addr same_as simplify t a b z v cs :
  Intrinsics ρ -> env_ok Machine Γ ρ -> handle_blind ρ -> (forall a b, same_as a b = true -> a = b) ->
  sint t -> 8 <= bits t -> scalar_expr Γ ρ t a z -> scalar_expr Γ ρ t b v ->
  division_defined t z v -> widening_casts b = true -> lowerable cs a b ->
  (exists e cs', lower_Div addr same_as a b cs = Ok (Lowered (eref e), cs') /\ register Γ ρ t e (ediv z v)) /\
  (exists e cs', lower_Mod addr same_as simplify a b cs = Ok (Lowered (eref e), cs') /\ register Γ ρ t e (emod z v)).
Proof. intros. split; [by apply lower_Div_value|by apply lower_Mod_value]. Qed.

(** C26. [Min] and [Max] of scalar integers are lowered to two lets around a select whose
    value is the minimum, respectively the maximum, provided the first new name does
    not occur free in the second operand, which is evaluated under its let. *)
Theorem lower_min_max_exact Γ ρ t a b z v cs : Intrinsics ρ -> sint t ->
  scalar_expr Γ ρ t a z -> scalar_expr Γ ρ t b v -> free_in (fst (unique_name "a"%char cs)) b = false ->
  (exists e cs', lower_Min a b cs = Ok (Lowered (eref e), cs') /\ scalar_expr Γ ρ t e (Z.min z v)) /\
  (exists e cs', lower_Max a b cs = Ok (Lowered (eref e), cs') /\ scalar_expr Γ ρ t e (Z.max z v)).
Proof.
  intros HI Ht Ha Hb Hf. assert (Hbt : forall o, o = LT \/ o = GT -> binop_type o t = Bool 1)
    by (intros o [->| ->]; unfold binop_type; simpl; by rewrite (proj2 Ht)).
  split.
  - replace (Z.min z v) with (if z <? v then z else v) by (destruct (Z.ltb_spec z v); lia).
    apply (lower_extremum_value Γ ρ LT "LT" "operator<"); auto.
  - replace (Z.max z v) with (if v <? z then z else v) by (destruct (Z.ltb_spec v z); lia).
    apply (lower_extremum_value Γ ρ GT "GT" "operator>"); auto.
Qed.

(** * Instances *)
Definition nd_env (n d : Z) : env :=
  intrinsic_env (<["n" := [VInt n]]> {["d" := [VInt d]]}) (fun _ _ _ => None) (fun _ _ _ _ _ => None).
Definition nd_types (t : Ty) : gmap string Ty := <["n" := t]> {["d" := t]}.
Definition n_var (t : Ty) : Expr := Var t "n" None None None.
Definition d_var (t : Ty) : Expr := Var t "d" None None None.

Lemma nd_env_ok n d : representable (Int 32 1) n = true -> representable (Int 32 1) d = true ->
  env_ok Machine (nd_types (Int 32 1)) (nd_env n d).
Proof.
  intros Hn Hd. apply intrinsic_env_ok; [|done..]. intros x t v Ht Hv. unfold nd_types in Ht.
  destruct (decide (x = "n")) as [->|Hx]; [|destruct (decide (x = "d")) as [->|Hy]]; simplify_map_eq;
    (split; [done|]; repeat constructor; done).
Qed.

Lemma nd_env_blind n d : handle_blind (nd_env n d).
Proof. split; [done|]. intros t ct name vi args. destruct t, ct; done. Qed.

Lemma nd_scalars n d : representable (Int 32 1) n = true -> representable (Int 32 1) d = true ->
  scalar_expr (nd_types (Int 32 1)) (nd_env n d) (Int 32 1) (n_var (Int 32 1)) n /\
  scalar_expr (nd_types (Int 32 1)) (nd_env n d) (Int 32 1) (d_var (Int 32 1)) d.
Proof. intros Hn Hd. split; (constructor; [done|by repeat split|by repeat split|done|done]). Qed.

Lemma nd_lowerable : lowerable ∅ (n_var (Int 32 1)) (d_var (Int 32 1)).
Proof.
  constructor.
  - by split.
  - constructor; [by intros x v w ?%not_elem_of_nil|by intros x [v ?%not_elem_of_nil]].
  - intros x [Hx|[v ?%not_elem_of_nil]]; [|done]. intros k _ ->. cbn in Hx. done.
Qed.

Lemma lower_div_mod_exact_witness :
  (exists e cs', lower_Div (fun _ => 0) same_ref (n_var (Int 32 1)) (d_var (Int 32 1)) ∅ = Ok (Lowered (eref e), cs') /\
     register (nd_types (Int 32 1)) (nd_env (-17) (-5)) (Int 32 1) e 4) /\
  (exists e cs', lower_Mod (fun _ => 0) same_ref (fun e => Ok (eref e)) (n_var (Int 32 1)) (d_var (Int 32 1)) ∅ =
       Ok (Lowered (eref e), cs') /\
     register (nd_types (Int 32 1)) (nd_env (-17) (-5)) (Int 32 1) e 3).
Proof.
  apply (lower_div_mod_exact (nd_types (Int 32 1)) (nd_env (-17) (-5)) (fun _ => 0) same_ref (fun e => Ok (eref e))
    (Int 32 1) (n_var (Int 32 1)) (d_var (Int 32 1)) (-17) (-5) ∅).
  - apply _.
  - by apply nd_env_ok.
  - apply nd_env_blind.
  - apply same_ref_sound.
  - by repeat split.
  - done.
  - by apply nd_scalars.
  - by apply nd_scalars.
  - split; [done|]. intros (_ & H & _). discriminate.
  - reflexivity.
  - apply nd_lowerable.
Defined.

Lemma lower_min_max_exact_witness :
  (exists e cs', lower_Min (n_var (Int 32 1)) (d_var (Int 32 1)) ∅ = Ok (Lowered (eref e), cs') /\
     scalar_expr (nd_types (Int 32 1)) (nd_env 3 7) (Int 32 1) e 3) /\
  (exists e cs', lower_Max (n_var (Int 32 1)) (d_var (Int 32 1)) ∅ = Ok (Lowered (eref e), cs') /\
     scalar_expr (nd_types (Int 32 1)) (nd_env 3 7) (Int 32 1) e 7).
Proof.
  apply (lower_min_max_exact (nd_types (Int 32 1)) (nd_env 3 7) (Int 32 1) (n_var (Int 32 1)) (d_var (Int 32 1)) 3 7 ∅).
  - apply _.
  - by repeat split.
  - by apply nd_scalars.
  - by apply nd_scalars.
  - reflexivity.
Defined.

(** A constant divisor under a narrowing cast is taken for the power of two below the
    cast: -64 divided by the byte -128, written as a cast of 128, is lowered to a shift
    by 7 and gives -1; the Euclidean quotient is 1. *)
Theorem lower_div_narrowing_divisor :
  let d := Cast (Int 8 1) (IntImm (Int 32 1) 128) in
  eval Machine (nd_env (-64) 0) (Bin Div (n_var (Int 8 1)) d) = Some [VInt 1] /\
  exists e cs', lower_Div (fun _ => 0) same_ref (n_var (Int 8 1)) d ∅ = Ok (Lowered (eref e), cs') /\
    eval Machine (nd_env (-64) 0) e = Some [VInt (-1)].
Proof.
  split; [vm_compute; reflexivity|]. eexists _, _. split; [vm_compute; reflexivity|]. vm_compute. reflexivity.
Qed.
