(* ===== verification/Interval.v ===== *)
(** Intervals of expressions, possibly unbounded: src/src/Interval.h and
    src/src/Interval.cpp. *)

From Stdlib Require Import ZArith Lia Bool SpecFloat String.
From stdpp Require Import prelude strings gmap.
From S2P Require Import Prelude Types IR Semantics Operators Equality EqualityMeaning.

#[local] Open Scope Z_scope.
#[local] Open Scope halide_scope.

(** The infinities are two variables of handle type, told apart from all others by
    identity. *)
Definition pos_inf : ExprRef := eref (Var (Handle 1 None) "pos_inf" None None None).
Definition neg_inf : ExprRef := eref (Var (Handle 1 None) "neg_inf" None None None).

Definition is_const_ref (e : ExprRef) : bool := match e with Some e => is_const e | None => false end.

(** The operands of [e.as<Max>()] and [e.as<Min>()]. *)
Definition as_bin (op : binop) (e : ExprRef) : option (Expr * Expr) :=
  match e with
  | Some (Bin op' a b) => if bool_decide (op = op') then Some (a, b) else None
  | _ => None
  end.

Section Interval.
Context (same_as : ExprRef -> ExprRef -> bool) (equal : ExprRef -> ExprRef -> bool).

(** The part of [make_max] and [make_min] after the infinities, [op] being [Max] or
    [Min] and [is_max] telling which. *)
Definition fold_constants (is_max : bool) (a b : ExprRef) : option ExprRef :=
  let pick (gt : bool) := if Bool.eqb gt is_max then a else b in
  match as_const_int a, as_const_int b with
  | Some ia, Some ib => Some (pick (ib <? ia))
  | _, _ =>
      match as_const_uint a, as_const_uint b with
      | Some ua, Some ub => Some (pick (ub <? ua))
      | _, _ =>
          match as_const_float a, as_const_float b with
          | Some fa, Some fb => Some (pick (float_ltb fb fa))
          | _, _ => None
          end
      end
  end.

Definition balance (op : binop) (a b : ExprRef) : ExprRef * ExprRef :=
  match as_bin op a, as_bin op b with
  | None, Some (x, y) => if is_const x && is_const y then (a, b) else (b, a)
  | _, _ => (a, b)
  end.

Definition combine (op : binop) (make : ExprRef -> ExprRef -> res Expr)
    (rec : ExprRef -> ExprRef -> res ExprRef) (is_max : bool) (a b : ExprRef) : res ExprRef :=
  if equal a b then Ok a
  else
    match fold_constants is_max a b with
    | Some r => Ok r
    | None =>
        let '(a, b) := balance op a b in
        match as_bin op a with
        | Some (ma_a, ma_b) =>
            if is_const ma_b && is_const_ref b then
              r ← rec (eref ma_b) b; rec (eref ma_a) r
            else if same_as (eref ma_a) b || same_as (eref ma_b) b then Ok a
            else r ← make a b; Ok (eref r)
        | None => r ← make a b; Ok (eref r)
        end
    end.

Definition out_of_fuel : res ExprRef := Err (InternalError "out of fuel").

Fixpoint make_max_fuel (fuel : nat) (a b : ExprRef) : res ExprRef :=
  match fuel with
  | O => out_of_fuel
  | S fuel =>
      if same_as a b then Ok a
      else if same_as a pos_inf then Ok a
      else if same_as b pos_inf then Ok b
      else if same_as a neg_inf then Ok b
      else if same_as b neg_inf then Ok a
      else combine Max Max_make (make_max_fuel fuel) true a b
  end.

Fixpoint make_min_fuel (fuel : nat) (a b : ExprRef) : res ExprRef :=
  match fuel with
  | O => out_of_fuel
  | S fuel =>
      if same_as a b then Ok a
      else if same_as a pos_inf then Ok b
      else if same_as b pos_inf then Ok a
      else if same_as a neg_inf then Ok a
      else if same_as b neg_inf then Ok b
      else combine Min Min_make (make_min_fuel fuel) false a b
  end.

(** The recursion descends the left spine of the balanced operand. *)
Fixpoint spine (op : binop) (e : Expr) : nat :=
  match e with
  | Bin op' a _ => if bool_decide (op = op') then S (spine op a) else O
  | _ => O
  end.
Definition spine_ref (op : binop) (e : ExprRef) : nat := match e with Some e => spine op e | None => O end.
Definition combine_fuel (op : binop) (a b : ExprRef) : nat := S (S (spine_ref op a + spine_ref op b)).

Definition make_max (a b : ExprRef) : res ExprRef := make_max_fuel (combine_fuel Max a b) a b.
Definition make_min (a b : ExprRef) : res ExprRef := make_min_fuel (combine_fuel Min a b) a b.

(** * The class *)
Record Interval := mkInterval { i_min : ExprRef; i_max : ExprRef }.

Definition Interval_make (min max : ExprRef) : res Interval :=
  guard! bool_decide (is_Some min) && bool_decide (is_Some max) else "";
  Ok (mkInterval min max).

Definition everything : Interval := mkInterval neg_inf pos_inf.
Definition nothing : Interval := mkInterval pos_inf neg_inf.
Definition single_point (e : ExprRef) : res Interval := Interval_make e e.

Definition is_empty (i : Interval) : bool := same_as (i_min i) pos_inf || same_as (i_max i) neg_inf.
Definition is_everything (i : Interval) : bool := same_as (i_min i) neg_inf && same_as (i_max i) pos_inf.
Definition is_single_point (i : Interval) : bool := same_as (i_min i) (i_max i).
Definition is_single_point_of (i : Interval) (e : ExprRef) : bool :=
  same_as (i_min i) e && same_as (i_max i) e.
Definition has_upper_bound (i : Interval) : bool := negb (same_as (i_max i) pos_inf) && negb (is_empty i).
Definition has_lower_bound (i : Interval) : bool := negb (same_as (i_min i) neg_inf) && negb (is_empty i).
Definition is_bounded (i : Interval) : bool := has_upper_bound i && has_lower_bound i.
Definition interval_same_as (i other : Interval) : bool :=
  same_as (i_min i) (i_min other) && same_as (i_max i) (i_max other).

Definition include (this i : Interval) : res Interval :=
  max ← make_max (i_max this) (i_max i);
  min ← make_min (i_min this) (i_min i);
  Ok (mkInterval min max).
Definition include_expr (this : Interval) (e : ExprRef) : res Interval :=
  max ← make_max (i_max this) e;
  min ← make_min (i_min this) e;
  Ok (mkInterval min max).

Definition make_union (a b : Interval) : res Interval := include a b.
Definition make_intersection (a b : Interval) : res Interval :=
  min ← make_max (i_min a) (i_min b);
  max ← make_min (i_max a) (i_max b);
  Interval_make min max.

(** * The test *)
Definition interval_check (result : res Interval) (min max : ExprRef) : bool :=
  match result with
  | Ok r => equal (i_min r) min && equal (i_max r) max
  | Err _ => false
  end.

Definition interval_test : bool :=
  let x := eref (Var (Int 32 1) "x" None None None) in
  let c v := eref (IntImm (Int 32 1) v) in
  let e := everything in
  let n := nothing in
  let xp := mkInterval x pos_inf in
  let xn := mkInterval neg_inf x in
  let xx := mkInterval x x in
  let union := make_union in
  let inter := make_intersection in
  let i l h := mkInterval l h in
  is_everything e && negb (has_upper_bound e) && negb (has_lower_bound e) && negb (is_empty e)
  && negb (is_bounded e) && negb (is_single_point e)
  && negb (is_everything n) && negb (has_upper_bound n) && negb (has_lower_bound n) && is_empty n
  && negb (is_bounded n) && negb (is_single_point n)
  && negb (is_everything xp) && negb (has_upper_bound xp) && has_lower_bound xp && negb (is_empty xp)
  && negb (is_bounded xp) && negb (is_single_point xp)
  && negb (is_everything xn) && has_upper_bound xn && negb (has_lower_bound xn) && negb (is_empty xn)
  && negb (is_bounded xn) && negb (is_single_point xn)
  && negb (is_everything xx) && has_upper_bound xx && has_lower_bound xx && negb (is_empty xx)
  && is_bounded xx && is_single_point xx
  && interval_check (union xp xn) neg_inf pos_inf
  && interval_check (union e xn) neg_inf pos_inf
  && interval_check (union xn e) neg_inf pos_inf
  && interval_check (union xn n) neg_inf x
  && interval_check (union n xp) x pos_inf
  && interval_check (union xp xp) x pos_inf
  && interval_check (inter xp xn) x x
  && interval_check (inter e xn) neg_inf x
  && interval_check (inter xn e) neg_inf x
  && interval_check (inter xn n) pos_inf neg_inf
  && interval_check (inter n xp) pos_inf neg_inf
  && interval_check (inter xp xp) x pos_inf
  && interval_check (union (i (c 3) pos_inf) (i (c 5) pos_inf)) (c 3) pos_inf
  && interval_check (inter (i (c 3) pos_inf) (i (c 5) pos_inf)) (c 5) pos_inf
  && interval_check (union (i neg_inf (c 3)) (i neg_inf (c 5))) neg_inf (c 5)
  && interval_check (inter (i neg_inf (c 3)) (i neg_inf (c 5))) neg_inf (c 3)
  && interval_check (union (i (c 3) (c 4)) (i (c 9) (c 10))) (c 3) (c 10)
  && interval_check (inter (i (c 3) (c 4)) (i (c 9) (c 10))) (c 9) (c 4)
  && interval_check (union (i (c 3) (c 9)) (i (c 4) (c 10))) (c 3) (c 10)
  && interval_check (inter (i (c 3) (c 9)) (i (c 4) (c 10))) (c 4) (c 9).
End Interval.

(** Identity of handles, as structural identity. *)
Definition same_handle (a b : ExprRef) : bool := bool_decide (a = b).

Example interval_test_passes : interval_test same_handle (equal (fun _ => 0) same_expr) = true.
Proof. vm_compute. reflexivity. Qed.

(** * What the bounds mean *)
Section Meaning.
Context (same_as : ExprRef -> ExprRef -> bool) (equal : ExprRef -> ExprRef -> bool).
Hypothesis same_as_sound : forall a b, same_as a b = true -> a = b.
Hypothesis same_as_refl : forall a, same_as a a = true.
Context (p : overflow) (Γ : gmap string Ty) (ρ : env).
Context (Hρ : env_ok p Γ ρ) {Heq : EqualityTest Γ ρ equal}.
(** The type of the finite bounds. *)
Context (t : Ty) (Ht : is_int t || is_uint t = true).

Definition bound (e : Expr) : Prop :=
  wf e /\ typed Γ e /\ plain_floats e = true /\ type_eqb (type e) t = true.

(** The lanes of a bound. *)
Definition lanes_are (e : Expr) (zs : list Z) : Prop :=
  eval p ρ e = Some (VInt <$> zs) /\ Z.of_nat (List.length zs) = lanes t.

Lemma bound_lanes e v : bound e -> eval p ρ e = Some v -> exists zs, lanes_are e zs.
Proof.
  intros (Hwf & Hty & _ & He) Hv.
  destruct (value_ok_eqb _ _ _ _ He (eval_value_ok _ _ _ _ _ Hwf Hty Hρ Hv)) as [Hl Hf].
  assert (exists zs, v = VInt <$> zs) as [zs ->].
  { clear Hv Hl. induction Hf as [|s v Hs Hf [zs ->]]; [by exists []|].
    destruct s as [z|f|s|z]; simpl in Hs; [by exists (z :: zs)|..];
      [by rewrite (int_or_uint_not_float _ Ht) in Hs|by rewrite (int_or_uint_not_handle _ Ht) in Hs..]. }
  exists zs. split; [done|]. by rewrite length_fmap in Hl.
Qed.

Lemma lanes_are_inj e zs zs' : lanes_are e zs -> lanes_are e zs' -> zs = zs'.
Proof.
  intros [H1 _] [H2 _]. rewrite H1 in H2. injection H2 as H2. by apply (inj (fmap VInt)) in H2.
Qed.

Definition lane_op (op : binop) : Z -> Z -> Z := match op with Max => Z.max | _ => Z.min end.
Definition minmax (op : binop) : Prop := op = Max \/ op = Min.

Lemma minmax_type op a b : minmax op -> type (Bin op a b) = type a.
Proof. by intros [-> | ->]. Qed.

Lemma type_eqb_bound u : type_eqb u t = true <-> code u = code t /\ bits u = bits t /\ lanes u = lanes t.
Proof.
  rewrite type_eqb_sym, type_eqb_numeric by (by apply int_or_uint_not_handle). naive_solver.
Qed.

Lemma bound_Bin op a b : minmax op -> bound (Bin op a b) <-> bound a /\ bound b.
Proof.
  intros Hop. unfold bound. rewrite minmax_type by done. cbn [wf wf_node typed plain_floats].
  rewrite andb_true_iff. split.
  - intros (((Heq' & _) & Hwa & Hwb) & [Hta Htb] & [Hpa Hpb] & He). do 2 (split; [done|]).
    split; [done|]. split; [done|]. apply type_eqb_fields in Heq'. apply type_eqb_bound in He.
    apply type_eqb_bound. naive_solver congruence.
  - intros ((Hwa & Hta & Hpa & Ha) & (Hwb & Htb & Hpb & Hb)). split_and!; try done.
    + pose proof (proj1 (type_eqb_bound _) Ha). pose proof (proj1 (type_eqb_bound _) Hb).
      apply type_eqb_numeric; [|naive_solver congruence].
      apply type_eqb_classes in Ha as (_ & _ & _ & -> & _). by apply int_or_uint_not_handle.
    + by destruct Hop as [-> | ->].
Qed.

Lemma zip_with_M_ints op u za zb : minmax op -> List.length za = List.length zb ->
  zip_with_M (eval_binop p op u) (VInt <$> za) (VInt <$> zb) = Some (VInt <$> zip_with (lane_op op) za zb).
Proof.
  intros Hop. revert zb. induction za as [|x za IH]; intros [|y zb] Hl; simplify_eq/=; [done|].
  rewrite IH by lia. by destruct Hop as [-> | ->].
Qed.

Lemma lanes_are_Bin op a b za zb : minmax op ->
  lanes_are a za -> lanes_are b zb -> lanes_are (Bin op a b) (zip_with (lane_op op) za zb).
Proof.
  intros Hop [Ha Hla] [Hb Hlb]. split; [|rewrite length_zip_with; lia].
  cbn [eval]. rewrite Ha, Hb. cbn [mbind option_bind]. apply zip_with_M_ints; [done|lia].
Qed.

Lemma lanes_are_operands op a b zs : minmax op -> bound (Bin op a b) -> lanes_are (Bin op a b) zs ->
  exists za zb, lanes_are a za /\ lanes_are b zb /\ zs = zip_with (lane_op op) za zb.
Proof.
  intros Hop Hb Hz. pose proof Hz as [He _]. apply bound_Bin in Hb as [Hba Hbb]; [|done].
  cbn [eval] in He. apply bind_Some in He as (va & Ha & He). apply bind_Some in He as (vb & Hb & He).
  destruct (bound_lanes a va Hba Ha) as (za & Hza), (bound_lanes b vb Hbb Hb) as (zb & Hzb).
  exists za, zb. split; [done|]. split; [done|]. eapply lanes_are_inj; [done|]. by apply lanes_are_Bin.
Qed.

(** [Max] and [Min] of lanes. *)
Lemma lane_op_idemp op l : minmax op -> zip_with (lane_op op) l l = l.
Proof. intros [-> | ->]; induction l; simpl; f_equal; (lia || done). Qed.

Lemma lane_op_comm op l k : minmax op -> zip_with (lane_op op) l k = zip_with (lane_op op) k l.
Proof. intros [-> | ->]; revert k; induction l; intros [|? k]; simpl; f_equal; (lia || auto). Qed.

Lemma lane_op_assoc op l k m : minmax op ->
  zip_with (lane_op op) (zip_with (lane_op op) l k) m = zip_with (lane_op op) l (zip_with (lane_op op) k m).
Proof. intros [-> | ->]; revert k m; induction l; intros [|? k] [|? m]; simpl; f_equal; (lia || auto). Qed.

Lemma lane_op_replicate op n x y : minmax op ->
  zip_with (lane_op op) (replicate n x) (replicate n y) = replicate n (lane_op op x y).
Proof. intros Hop. induction n; simpl; f_equal; done. Qed.

(** ** Folding constants *)
Lemma replicate_lanes e zs n i : lanes_are e zs -> eval p ρ e = Some (replicate n (VInt i)) ->
  zs = replicate (Z.to_nat (lanes t)) i.
Proof.
  intros [He Hl] H. rewrite He in H. injection H as H.
  apply replicate_VInt in H. subst zs. rewrite length_replicate in Hl. f_equal. lia.
Qed.

Definition picks (op : binop) (a b : Expr) (r : ExprRef) : Prop :=
  forall za zb, lanes_are a za -> lanes_are b zb ->
  exists e, r = Some e /\ (e = a \/ e = b) /\ lanes_are e (zip_with (lane_op op) za zb).

Lemma pick_const op a b za zb ia ib na nb : minmax op ->
  lanes_are a za -> lanes_are b zb ->
  eval p ρ a = Some (replicate na (VInt ia)) -> eval p ρ b = Some (replicate nb (VInt ib)) ->
  exists e, (if Bool.eqb (ib <? ia) (bool_decide (op = Max)) then eref a else eref b) = Some e /\
    (e = a \/ e = b) /\ lanes_are e (zip_with (lane_op op) za zb).
Proof.
  intros Hop Ha Hb Hea Heb.
  pose proof (replicate_lanes _ _ _ _ Ha Hea) as Hza. pose proof (replicate_lanes _ _ _ _ Hb Heb) as Hzb.
  rewrite Hza, Hzb, lane_op_replicate by done.
  assert (H : lane_op op ia ib = (if Bool.eqb (ib <? ia) (bool_decide (op = Max)) then ia else ib)).
  { destruct Hop as [-> | ->], (Z.ltb_spec ib ia); simpl; lia. }
  rewrite H. destruct (Bool.eqb _ _).
  - exists a. rewrite <- Hza. auto.
  - exists b. rewrite <- Hzb. auto.
Qed.

Lemma fold_constants_sound op a b r : minmax op -> bound a ->
  fold_constants (bool_decide (op = Max)) (eref a) (eref b) = Some r -> picks op a b r.
Proof.
  intros Hop (Hwf & _ & _ & Hty) Hf za zb Ha Hb. pose proof (proj1 Ha) as Hea. pose proof (proj1 Hb) as Heb.
  unfold fold_constants in Hf. cbn [as_const_int as_const_uint as_const_float eref mbind option_bind] in Hf.
  assert (Hnf : as_const_float_expr a = None).
  { destruct (as_const_float_expr a) eqn:E; [|done]. apply as_const_float_type in E; [|done].
    apply type_eqb_classes in Hty as (Hi & Hu & Hfl & _). rewrite <- Hi, <- Hu in Ht.
    by rewrite (int_or_uint_not_float _ Ht) in E. }
  rewrite Hnf in Hf.
  destruct (as_const_int_expr a) as [ia|] eqn:Ea, (as_const_int_expr b) as [ib|] eqn:Eb.
  1: { destruct (as_const_int_eval _ _ _ _ _ Ea Hea) as [na Hna], (as_const_int_eval _ _ _ _ _ Eb Heb) as [nb Hnb].
       rewrite Hna in Hea. rewrite Hnb in Heb. injection Hf as <-. by eapply pick_const. }
  all: destruct (as_const_uint_expr a) as [ua|] eqn:Fa, (as_const_uint_expr b) as [ub|] eqn:Fb; try done;
    destruct (as_const_uint_eval _ _ _ _ _ Fa Hea) as [na Hna], (as_const_uint_eval _ _ _ _ _ Fb Heb) as [nb Hnb];
    rewrite Hna in Hea; rewrite Hnb in Heb; injection Hf as <-; by eapply pick_const.
Qed.

Lemma fold_constants_operand is_max a b r :
  fold_constants is_max (eref a) (eref b) = Some r -> r = eref a \/ r = eref b.
Proof. unfold fold_constants. intros H. repeat case_match; simplify_eq; auto. Qed.

(** ** Both functions at once *)
Definition op_make (op : binop) : ExprRef -> ExprRef -> res Expr :=
  match op with Max => Max_make | _ => Min_make end.
Definition extremum (op : binop) : nat -> ExprRef -> ExprRef -> res ExprRef :=
  match op with Max => make_max_fuel same_as equal | _ => make_min_fuel same_as equal end.

Lemma bound_not_inf e inf : inf = pos_inf \/ inf = neg_inf -> bound e -> same_as (eref e) inf = false.
Proof.
  intros Hi (_ & _ & _ & He). apply not_true_iff_false. intros H. apply same_as_sound in H.
  assert (Hh : is_handle (type e) = true) by (destruct Hi as [-> | ->]; by injection H as ->).
  apply type_eqb_classes in He as (_ & _ & _ & He & _). rewrite He in Hh.
  by rewrite (int_or_uint_not_handle _ Ht) in Hh.
Qed.

Lemma extremum_finite op n a b : minmax op -> bound a -> bound b ->
  extremum op (S n) (eref a) (eref b) =
  if same_as (eref a) (eref b) then Ok (eref a)
  else combine same_as equal op (op_make op) (extremum op n) (bool_decide (op = Max)) (eref a) (eref b).
Proof.
  intros Hop Ha Hb.
  pose proof (bound_not_inf a pos_inf (or_introl eq_refl) Ha) as H1.
  pose proof (bound_not_inf a neg_inf (or_intror eq_refl) Ha) as H2.
  pose proof (bound_not_inf b pos_inf (or_introl eq_refl) Hb) as H3.
  pose proof (bound_not_inf b neg_inf (or_intror eq_refl) Hb) as H4.
  destruct Hop as [-> | ->]; cbn [extremum make_max_fuel make_min_fuel]; rewrite H1, H2, H3, H4;
    by destruct (same_as (eref a) (eref b)).
Qed.

(** The left spine the recursion may still have to descend on the right operand. *)
Definition bspine (op : binop) (e : Expr) : nat :=
  match as_bin op (eref e) with
  | Some (x, y) => if is_const x && is_const y then O else spine op e
  | None => O
  end.

Lemma as_bin_Some op e x y : as_bin op (eref e) = Some (x, y) <-> e = Bin op x y.
Proof.
  split; [|intros ->; simpl; by rewrite bool_decide_eq_true_2].
  destruct e; try done. simpl. case_bool_decide; [|done]. by intros [= <- <-]; subst.
Qed.

Lemma as_bin_None op e : as_bin op (eref e) = None -> spine op e = O /\ bspine op e = O.
Proof.
  intros H. unfold bspine. rewrite H. split; [|done]. destruct e; try done.
  simpl in *. by case_bool_decide.
Qed.

Lemma is_const_as_bin op e : is_const e = true -> as_bin op (eref e) = None.
Proof. by destruct e. Qed.

Lemma is_const_bspine op e : is_const e = true -> spine op e = O /\ bspine op e = O.
Proof. intros H. by apply as_bin_None, is_const_as_bin. Qed.

Lemma bspine_const_pair op a b : is_const a = true -> is_const b = true -> bspine op (Bin op a b) = O.
Proof.
  intros Ha Hb. unfold bspine. rewrite (proj2 (as_bin_Some op _ a b)) by done. by rewrite Ha, Hb.
Qed.

Lemma bspine_le op e : (bspine op e <= spine op e)%nat.
Proof. unfold bspine. destruct (as_bin op (eref e)) as [[x y]|]; [destruct (_ && _)|]; lia. Qed.

Lemma balance_cases op a b :
  exists a' b', balance op (eref a) (eref b) = (eref a', eref b') /\
    (a' = a /\ b' = b \/ a' = b /\ b' = a) /\
    (Nat.max (spine op a') (bspine op b') <= Nat.max (spine op a) (bspine op b))%nat /\
    (is_const a = true -> is_const b = true -> a' = a /\ b' = b).
Proof.
  unfold balance. destruct (as_bin op (eref a)) as [[x y]|] eqn:Ea; [exists a, b; naive_solver lia|].
  destruct (as_bin op (eref b)) as [[x y]|] eqn:Eb; [|exists a, b; naive_solver lia].
  destruct (is_const x && is_const y) eqn:Ec; [exists a, b; naive_solver lia|].
  exists b, a. split; [done|]. split; [by right|]. apply as_bin_None in Ea as [H1 H2]. split.
  - unfold bspine at 2. rewrite Eb, Ec. lia.
  - intros _ Hb. by rewrite (is_const_as_bin op b Hb) in Eb.
Qed.

Lemma op_make_bound op a b : minmax op -> bound a -> bound b ->
  op_make op (eref a) (eref b) = Ok (Bin op a b).
Proof.
  intros Hop Ha Hb. assert (Hw : wf (Bin op a b)) by (by apply bound_Bin).
  assert (Hn : wf_node (Bin op a b)) by (by destruct Hw).
  destruct Hop as [-> | ->]; by apply binary_make_Ok.
Qed.

(** What both keep: any property of the operands that passes to their combinations. *)
Definition joinable (P : Expr -> bool) : Prop := forall op a b, minmax op -> P (Bin op a b) = P a && P b.
Definition keeps (a b e : Expr) : Prop :=
  forall P, joinable P -> P a = true -> P b = true -> P e = true.

Definition result (op : binop) (a b : Expr) (r : res ExprRef) : Prop :=
  exists e, r = Ok (Some e) /\ bound e /\ keeps a b e /\
    (forall za zb, lanes_are a za -> lanes_are b zb -> lanes_are e (zip_with (lane_op op) za zb)) /\
    (is_const a = true -> is_const b = true -> bspine op e = O).

Lemma result_operand op a b e : minmax op -> bound a -> bound b -> (e = a \/ e = b) ->
  (forall za zb, lanes_are a za -> lanes_are b zb -> lanes_are e (zip_with (lane_op op) za zb)) ->
  result op a b (Ok (Some e)).
Proof.
  intros Hop Ha Hb He Hl. exists e. split; [done|]. split; [by destruct He as [-> | ->]|].
  split; [intros P _ ??; by destruct He as [-> | ->]|]. split; [done|].
  intros Hca Hcb. destruct He as [-> | ->]; by apply is_const_bspine.
Qed.

Lemma result_node op a b : minmax op -> bound a -> bound b ->
  result op a b (r ← op_make op (eref a) (eref b); Ok (eref r)).
Proof.
  intros Hop Ha Hb. rewrite op_make_bound by done. exists (Bin op a b). split; [done|].
  split; [by apply bound_Bin|]. split; [|split; [intros; by apply lanes_are_Bin|by apply bspine_const_pair]].
  intros P HP H1 H2. by rewrite HP, H1, H2.
Qed.

Lemma result_swap op a b a' b' r : minmax op ->
  (a' = a /\ b' = b \/ a' = b /\ b' = a) -> (is_const a = true -> is_const b = true -> a' = a /\ b' = b) ->
  result op a' b' r -> result op a b r.
Proof.
  intros Hop [[-> ->]|[-> ->]] Hc H; [done|]. destruct H as (e & -> & He & Hk & Hl & Hs).
  exists e. split; [done|]. split; [done|]. split; [intros P HP ??; by apply Hk|]. split.
  - intros za zb Ha Hb. rewrite lane_op_comm by done. by apply Hl.
  - intros Hca Hcb. auto.
Qed.

Lemma extremum_sound op n : minmax op -> forall a b, bound a -> bound b ->
  (2 + Nat.max (spine op a) (bspine op b) <= n)%nat ->
  result op a b (extremum op n (eref a) (eref b)).
Proof.
  intros Hop. induction n as [|n IH]; intros a b Ba Bb Hn; [lia|].
  rewrite extremum_finite by done.
  assert (Hsame : a = b \/ eval p ρ a = eval p ρ b -> result op a b (Ok (Some a))).
  { intros Hab. apply result_operand; auto. intros za zb Ha Hb.
    replace zb with za; [by rewrite lane_op_idemp|].
    destruct Hab as [-> |Hab]; [by eapply lanes_are_inj|]. apply (lanes_are_inj b); [|done].
    destruct Ha as [Ha Hl]. split; [by rewrite <- Hab|done]. }
  destruct (same_as (eref a) (eref b)) eqn:Es.
  { apply same_as_sound in Es. apply Hsame. left. by injection Es. }
  unfold combine. destruct (equal (eref a) (eref b)) eqn:Ee.
  { apply Hsame. right. destruct Ba as (? & ? & ? & _), Bb as (? & ? & ? & _).
    by apply (equality_test (test := equal)). }
  destruct (fold_constants _ _ _) as [r|] eqn:Ef.
  { pose proof (fold_constants_sound op a b r Hop Ba Ef) as Hp.
    apply fold_constants_operand in Ef as [-> | ->]; apply result_operand; auto; intros za zb Ha Hb;
      destruct (Hp za zb Ha Hb) as (e & [= <-] & _ & He); exact He. }
  destruct (balance_cases op a b) as (a' & b' & -> & Hperm & Hsp & Hc).
  assert (Ba' : bound a') by naive_solver. assert (Bb' : bound b') by naive_solver.
  eapply result_swap; [done|exact Hperm|done|]. clear Hperm Hc Hsame Ba Bb Es Ee Ef.
  destruct (as_bin op (eref a')) as [[x y]|] eqn:Ea; [|by apply result_node].
  apply as_bin_Some in Ea as ->. pose proof (proj1 (bound_Bin op x y Hop) Ba') as [Bx By].
  simpl in Hsp. rewrite bool_decide_eq_true_2 in Hsp by done.
  destruct (is_const y && is_const_ref (eref b')) eqn:Ec.
  - apply andb_true_iff in Ec as [Hcy Hcb]. simpl in Hcb.
    destruct (IH y b' By Bb') as (r & -> & Br & Kr & Hr & Hsr).
    { destruct (is_const_bspine op y Hcy) as [-> _], (is_const_bspine op b' Hcb) as [_ ->]. lia. }
    destruct (IH x r Bx Br) as (e & He & Be & Ke & Hle & _).
    { rewrite Hsr by done. lia. }
    exists e. cbn [mbind res_bind]. change (Some r) with (eref r). rewrite He. split; [done|]. split; [done|]. split.
    + intros P HP Hxy Hb. rewrite HP in Hxy by done. apply andb_true_iff in Hxy as [Hx Hy].
      apply (Ke P HP Hx). by apply (Kr P HP).
    + split; [|done]. intros za zb Ha Hb. destruct (lanes_are_operands op x y za Hop Ba' Ha) as (zx & zy & Hx & Hy & ->).
      rewrite lane_op_assoc by done. auto.
  - destruct (same_as (eref x) (eref b') || same_as (eref y) (eref b')) eqn:Eb; [|by apply result_node].
    apply result_operand; auto. intros za zb Ha Hb.
    destruct (lanes_are_operands op x y za Hop Ba' Ha) as (zx & zy & Hx & Hy & ->).
    replace (zip_with (lane_op op) (zip_with (lane_op op) zx zy) zb) with (zip_with (lane_op op) zx zy); [done|].
    apply orb_true_iff in Eb as [Eb|Eb]; apply same_as_sound in Eb; injection Eb as ->.
    + rewrite (lanes_are_inj _ _ _ Hx Hb), (lane_op_comm op zb zy), lane_op_assoc, lane_op_idemp by done. done.
    + by rewrite (lanes_are_inj _ _ _ Hy Hb), lane_op_assoc, lane_op_idemp.
Qed.

Lemma extremum_bounds op a b : minmax op -> bound a -> bound b ->
  result op a b (extremum op (combine_fuel op (eref a) (eref b)) (eref a) (eref b)).
Proof.
  intros Hop Ha Hb. apply extremum_sound; [done..|]. unfold combine_fuel. simpl. pose proof (bspine_le op b). lia.
Qed.

(** ** Endpoints *)
Inductive ext := NegInf | PosInf | Fin (zs : list Z).

Inductive denotes : ExprRef -> ext -> Prop :=
| denotes_neg : denotes neg_inf NegInf
| denotes_pos : denotes pos_inf PosInf
| denotes_fin e zs : bound e -> lanes_are e zs -> denotes (eref e) (Fin zs).

Definition ext_max (x y : ext) : ext :=
  match x, y with
  | PosInf, _ | _, PosInf => PosInf
  | NegInf, z | z, NegInf => z
  | Fin l, Fin k => Fin (zip_with Z.max l k)
  end.
Definition ext_min (x y : ext) : ext :=
  match x, y with
  | NegInf, _ | _, NegInf => NegInf
  | PosInf, z | z, PosInf => z
  | Fin l, Fin k => Fin (zip_with Z.min l k)
  end.

Lemma inf_not_bound e inf : inf = pos_inf \/ inf = neg_inf -> bound e -> same_as inf (eref e) = false.
Proof.
  intros Hi Hb. apply not_true_iff_false. intros H. apply same_as_sound in H. 
  pose proof (bound_not_inf e inf Hi Hb) as Hn. by rewrite <- H, same_as_refl in Hn.
Qed.

Lemma infs_differ : same_as pos_inf neg_inf = false /\ same_as neg_inf pos_inf = false.
Proof. split; apply not_true_iff_false; intros H; by apply same_as_sound in H. Qed.

Lemma extremum_inf op n a b x y : minmax op -> denotes a x -> denotes b y ->
  (forall l k, x = Fin l -> y = Fin k -> False) ->
  exists r, extremum op (S n) a b = Ok r /\ denotes r (match op with Max => ext_max x y | _ => ext_min x y end).
Proof.
  intros Hop Ha Hb Hn. destruct infs_differ as [H1 H2].
  destruct Ha as [| |a za Ba Ha], Hb as [| |b zb Bb Hb]; try (by destruct (Hn _ _ eq_refl eq_refl));
    destruct Hop as [-> | ->]; cbn [extremum make_max_fuel make_min_fuel];
    rewrite ?same_as_refl, ?H1, ?H2, ?inf_not_bound, ?bound_not_inf by auto;
    eexists; (split; [done|]); by constructor.
Qed.

Lemma extremum_denotes op a b x y : minmax op -> denotes a x -> denotes b y ->
  exists r, extremum op (combine_fuel op a b) a b = Ok r /\
    denotes r (match op with Max => ext_max x y | _ => ext_min x y end).
Proof.
  intros Hop Ha Hb.
  assert (Hinf : (forall l k, x = Fin l -> y = Fin k -> False) \/ exists l k, x = Fin l /\ y = Fin k)
    by (destruct x, y; naive_solver).
  destruct Hinf as [Hinf|(l & k & -> & ->)]; [by apply extremum_inf|].
  inversion Ha as [| |e l' Be Hl]; subst. inversion Hb as [| |f k' Bf Hk]; subst.
  destruct (extremum_bounds op e f Hop Be Bf) as (r & -> & Br & _ & Hr & _). specialize (Hr l k Hl Hk).
  exists (eref r). split; [done|]. destruct Hop as [-> | ->]; by constructor.
Qed.

(** C4. [make_max] and [make_min] end and build an expression of the larger and the
    smaller bound, infinities included: whatever constants they fold and however
    they rebalance the tree, no factory fails and lane for lane the value is the
    maximum and the minimum of the two values. *)
Theorem make_max_min_sound a b x y :
  denotes a x -> denotes b y ->
  (exists r, make_max same_as equal a b = Ok r /\ denotes r (ext_max x y)) /\
  (exists r, make_min same_as equal a b = Ok r /\ denotes r (ext_min x y)).
Proof.
  intros Ha Hb. split; [apply (extremum_denotes Max)|apply (extremum_denotes Min)]; auto;
    [by left|by right].
Qed.

(** ** Sets of values *)
Definition at_least (x : ext) (v : list Z) : Prop :=
  match x with NegInf => True | PosInf => False | Fin l => Forall2 Z.le l v end.
Definition at_most (x : ext) (v : list Z) : Prop :=
  match x with NegInf => False | PosInf => True | Fin l => Forall2 Z.le v l end.

(** [v], with the lanes of the type of the bounds, lies in the interval from [x] to [y]. *)
Definition within (x y : ext) (v : list Z) : Prop := at_least x v /\ at_most y v.

Definition spans (i : Interval) (x y : ext) : Prop := denotes (i_min i) x /\ denotes (i_max i) y.

Lemma ext_length a x l : denotes a x -> x = Fin l -> Z.of_nat (List.length l) = lanes t.
Proof. intros [] [=]; subst. by destruct H0. Qed.

Lemma zip_max_le l k v : List.length l = List.length k ->
  Forall2 Z.le (zip_with Z.max l k) v <-> Forall2 Z.le l v /\ Forall2 Z.le k v.
Proof.
  revert k v. induction l as [|a l IH]; intros [|b k] v Hl; simplify_eq/=.
  - destruct v; split; intros H; try (by inversion H); try (split; constructor); done || constructor.
  - destruct v as [|c v]; [split; intros H; [inversion H|destruct H as [H _]; inversion H]|].
    rewrite !Forall2_cons, IH by lia. intuition lia.
Qed.

Lemma zip_min_ge l k v : List.length l = List.length k ->
  Forall2 Z.le v (zip_with Z.min l k) <-> Forall2 Z.le v l /\ Forall2 Z.le v k.
Proof.
  revert k v. induction l as [|a l IH]; intros [|b k] v Hl; simplify_eq/=.
  - destruct v; split; intros H; try (by inversion H); try (split; constructor); done || constructor.
  - destruct v as [|c v]; [split; intros H; [inversion H|destruct H as [H _]; inversion H]|].
    rewrite !Forall2_cons, IH by lia. intuition lia.
Qed.

Lemma zip_min_le l k v : List.length l = List.length k ->
  Forall2 Z.le l v \/ Forall2 Z.le k v -> Forall2 Z.le (zip_with Z.min l k) v.
Proof.
  intros Hl [H|H]; revert l k v Hl H; induction l as [|a l IH]; intros [|b k] v Hl H; simplify_eq/=;
    inversion H; subst; constructor; (lia || apply IH; auto; lia).
Qed.

Lemma zip_max_ge l k v : List.length l = List.length k ->
  Forall2 Z.le v l \/ Forall2 Z.le v k -> Forall2 Z.le v (zip_with Z.max l k).
Proof.
  intros Hl [H|H]; revert l k v Hl H; induction l as [|a l IH]; intros [|b k] v Hl H; simplify_eq/=;
    inversion H; subst; constructor; (lia || apply IH; auto; lia).
Qed.

(** C30. [make_union] and [make_intersection] succeed on intervals with meaningful ends;
    the union contains every value either interval contains, and the intersection
    contains exactly the values both contain. *)
Theorem union_intersection_sound i j xi yi xj yj :
  spans i xi yi -> spans j xj yj ->
  (exists u x y, make_union same_as equal i j = Ok u /\ spans u x y /\
     forall v, within xi yi v \/ within xj yj v -> within x y v) /\
  (exists n x y, make_intersection same_as equal i j = Ok n /\ spans n x y /\
     forall v, within x y v <-> within xi yi v /\ within xj yj v).
Proof.
  intros [Hxi Hyi] [Hxj Hyj].
  assert (Hlen : forall a b x y l k, denotes a x -> denotes b y -> x = Fin l -> y = Fin k ->
            List.length l = List.length k).
  { intros a b x y l k Ha Hb Hx Hy. pose proof (ext_length _ _ _ Ha Hx). pose proof (ext_length _ _ _ Hb Hy). lia. }
  pose proof (fun l k => Hlen _ _ _ _ l k Hxi Hxj) as Hlx. pose proof (fun l k => Hlen _ _ _ _ l k Hyi Hyj) as Hly.
  clear Hlen.
  destruct (extremum_denotes Max _ _ _ _ (or_introl eq_refl) Hyi Hyj) as (r1 & E1 & D1).
  destruct (extremum_denotes Min _ _ _ _ (or_intror eq_refl) Hxi Hxj) as (r2 & E2 & D2).
  destruct (extremum_denotes Max _ _ _ _ (or_introl eq_refl) Hxi Hxj) as (r3 & E3 & D3).
  destruct (extremum_denotes Min _ _ _ _ (or_intror eq_refl) Hyi Hyj) as (r4 & E4 & D4).
  split.
  - exists (mkInterval r2 r1), (ext_min xi xj), (ext_max yi yj). split; [|split; [done|]].
    + unfold make_union, include, make_max, make_min. cbn [extremum] in E1, E2. by rewrite E1, E2.
    + intros v Hv. unfold within in Hv. clear E1 E2 E3 E4 D1 D2 D3 D4. split.
      * assert (H : at_least xi v \/ at_least xj v) by tauto. clear Hv.
        destruct xi, xj; simpl in *; try tauto. apply zip_min_le; [by apply Hlx|done].
      * assert (H : at_most yi v \/ at_most yj v) by tauto. clear Hv.
        destruct yi, yj; simpl in *; try tauto. apply zip_max_ge; [by apply Hly|done].
  - exists (mkInterval r3 r4), (ext_max xi xj), (ext_min yi yj). split; [|split; [done|]].
    + unfold make_intersection, make_max, make_min. cbn [extremum] in E3, E4. rewrite E3, E4. cbn [mbind res_bind].
      unfold Interval_make. destruct D3, D4; done.
    + intros v. unfold within.
      assert (H1 : at_least (ext_max xi xj) v <-> at_least xi v /\ at_least xj v).
      { destruct xi, xj; simpl; try tauto. apply zip_max_le. by apply Hlx. }
      assert (H2 : at_most (ext_min yi yj) v <-> at_most yi v /\ at_most yj v).
      { destruct yi, yj; simpl; try tauto. apply zip_min_ge. by apply Hly. }
      rewrite H1, H2. tauto.
Qed.
End Meaning.

(** * Witnesses *)
Lemma same_handle_sound a b : same_handle a b = true -> a = b.
Proof. apply bool_decide_eq_true. Qed.
Lemma same_handle_refl a : same_handle a a = true.
Proof. by apply bool_decide_eq_true. Qed.

Definition ir_equal : ExprRef -> ExprRef -> bool := equal (fun _ => 0) same_expr.
Definition xv : Expr := Var (Int 32 1) "x" None None None.
Definition cv (v : Z) : Expr := IntImm (Int 32 1) v.
Definition x_types : gmap string Ty := {[ "x" := Int 32 1 ]}.
Definition x_is (v : Z) : env := bind_var empty_env "x" [VInt v].

Lemma x_is_ok v : in_srange 32 v -> env_ok Ideal x_types (x_is v).
Proof.
  intros Hv. constructor; simpl; try done. intros n t w.
  unfold x_types. rewrite lookup_singleton_Some, lookup_insert_Some, lookup_empty.
  intros [<- <-] [[_ <-]|[? ?]]; [|done]. split; [done|]. apply Forall_singleton. split; [done|by left].
Qed.

#[global] Instance x_is_equal v : EqualityTest x_types (x_is v) ir_equal.
Proof. apply equal_EqualityTest; [apply same_expr_sound|]. by split. Qed.

(** max(x, 3), 7 and max(x, 7) at x = 5. *)
Lemma make_max_min_sound_witness :
  make_max same_handle ir_equal (eref (Bin Max xv (cv 3))) (eref (cv 7)) = Ok (eref (Bin Max xv (cv 7))) /\
  exists r, make_max same_handle ir_equal (eref (Bin Max xv (cv 3))) (eref (cv 7)) = Ok r /\
    denotes Ideal x_types (x_is 5) (Int 32 1) r (Fin [7]).
Proof.
  split; [reflexivity|].
  refine (proj1 (make_max_min_sound same_handle ir_equal same_handle_sound same_handle_refl
    Ideal x_types (x_is 5) (x_is_ok 5 _) (Int 32 1) eq_refl
    (eref (Bin Max xv (cv 3))) (eref (cv 7)) (Fin [5]) (Fin [7]) _ _)).
  - unfold in_srange. simpl. lia.
  - constructor; [|by split]. repeat split; (discriminate || vm_compute; congruence).
  - constructor; [|by split]. repeat split; (discriminate || vm_compute; congruence).
Defined.

(** [x, 7] and [3, +inf) at x = 5. *)
Lemma union_intersection_sound_witness :
  exists u x y, make_union same_handle ir_equal (mkInterval (eref xv) (eref (cv 7)))
      (mkInterval (eref (cv 3)) pos_inf) = Ok u /\
    spans Ideal x_types (x_is 5) (Int 32 1) u x y /\
    forall v, within (Fin [5]) (Fin [7]) v \/ within (Fin [3]) PosInf v -> within x y v.
Proof.
  refine (proj1 (union_intersection_sound same_handle ir_equal same_handle_sound same_handle_refl
    Ideal x_types (x_is 5) (x_is_ok 5 _) (Int 32 1) eq_refl
    (mkInterval (eref xv) (eref (cv 7))) (mkInterval (eref (cv 3)) pos_inf)
    (Fin [5]) (Fin [7]) (Fin [3]) PosInf _ _)).
  - unfold in_srange. simpl. lia.
  - split; (constructor; [|by split]); repeat split; (discriminate || vm_compute; congruence).
  - split; [|constructor]. constructor; [|by split]. repeat split; (discriminate || vm_compute; congruence).
Defined.
