(* ===== verification/ConstBounds.v ===== *)
(** The constant bounds the simplifier computes, and its helpers on constants:
    the first part of src/src/Simplify.cpp. *)

From Stdlib Require Import ZArith Lia Bool SpecFloat String.
From stdpp Require Import prelude strings gmap.
From S2P Require Import Prelude Types IR Semantics Scope Operators Mutator Substitute.

#[local] Open Scope Z_scope.
#[local] Open Scope halide_scope.

(** Immediates and broadcasts of immediates, NaN excepted. *)
Fixpoint is_simple_const (e : Expr) : bool :=
  match e with
  | IntImm _ _ | UIntImm _ _ => true
  | FloatImm _ f => match f with S754_nan => false | _ => true end
  | Broadcast value _ => is_simple_const value
  | _ => false
  end.

(** [*name] when the function returns true. *)
Definition is_var_relop_simple_const (op : binop) (e : Expr) : option string :=
  match e with
  | Bin op' a b =>
      if bool_decide (op = op') then
        if is_simple_const b then match a with Var _ name _ _ _ => Some name | _ => None end
        else if is_simple_const a then match b with Var _ name _ _ _ => Some name | _ => None end
        else None
      else None
  | _ => None
  end.

Definition is_var_simple_const_comparison (e : Expr) : option string :=
  match is_var_relop_simple_const EQ e with
  | Some name => Some name
  | None => is_var_relop_simple_const NE e
  end.

Definition no_overflow_scalar_int (t : Ty) : bool := is_scalar t && is_int t && (32 <=? bits t).
Definition no_overflow (t : Ty) : bool := is_float t || no_overflow_scalar_int (element_of t).

(** The value written when the function returns true. *)
Definition const_float (e : Expr) : option spec_float :=
  if is_vector (type e) then None else as_const_float_expr e.
Definition const_int (e : Expr) : option Z :=
  if is_vector (type e) then None else as_const_int_expr e.
Definition const_uint (e : Expr) : option Z :=
  if is_vector (type e) then None else as_const_uint_expr e.

(** [int64_t] arithmetic, undefined when it overflows. *)
Definition i64 (z : Z) : res Z :=
  if bool_decide (in_srange 64 z) then Ok z else Err (UB "int64_t overflow").

Definition bounds : Type := Z * Z.

(** The test that ends the arithmetic cases. *)
Definition if_fits (t : Ty) (lo hi : Z) : option bounds :=
  if no_overflow_scalar_int (element_of t) || (can_represent_int64 t lo && can_represent_int64 t hi)
  then Some (lo, hi) else None.

Definition min4 (a b c d : Z) : Z := Z.min (Z.min a b) (Z.min c d).
Definition max4 (a b c d : Z) : Z := Z.max (Z.max a b) (Z.max c d).

Section ConstIntBounds.
Context (bounds_info : Scope bounds).

(** [f] on the bounds of two operands, [&&]-wise: the second is only asked when the
    first has bounds. *)
Definition both (a b : res (option bounds)) (f : bounds -> bounds -> res (option bounds))
  : res (option bounds) :=
  ra ← a;
  match ra with
  | None => Ok None
  | Some ra => rb ← b; match rb with None => Ok None | Some rb => f ra rb end
  end.
(** [||]-wise: the second is only asked when the first has none. *)
Definition either (a b : res (option bounds)) : res (option bounds) :=
  ra ← a; match ra with Some ra => Ok (Some ra) | None => b end.

Fixpoint const_int_bounds (e : Expr) : res (option bounds) :=
  let t := type e in
  match as_const_int_expr e with
  | Some i => Ok (Some (i, i))
  | None =>
      match e with
      | Var _ name _ _ _ =>
          if scope_contains bounds_info name then b ← scope_get bounds_info name; Ok (Some b)
          else Ok None
      | Broadcast value _ => const_int_bounds value
      | Bin Max a b =>
          match a with
          | Bin Min x y =>
              both (const_int_bounds b) (either (const_int_bounds y) (const_int_bounds x))
                (fun '(min_b, max_b) '(min_a, max_a) => Ok (Some (min_b, Z.max max_a max_b)))
          | _ =>
              both (const_int_bounds a) (const_int_bounds b)
                (fun '(min_a, max_a) '(min_b, max_b) => Ok (Some (Z.max min_a min_b, Z.max max_a max_b)))
          end
      | Bin Min a b =>
          match a with
          | Bin Max x y =>
              both (const_int_bounds b) (either (const_int_bounds y) (const_int_bounds x))
                (fun '(min_b, max_b) '(min_a, max_a) => Ok (Some (Z.min min_a min_b, max_b)))
          | _ =>
              both (const_int_bounds a) (const_int_bounds b)
                (fun '(min_a, max_a) '(min_b, max_b) => Ok (Some (Z.min min_a min_b, Z.min max_a max_b)))
          end
      | Select _ a b =>
          both (const_int_bounds a) (const_int_bounds b)
            (fun '(min_a, max_a) '(min_b, max_b) => Ok (Some (Z.min min_a min_b, Z.max max_a max_b)))
      | Bin Add a b =>
          both (const_int_bounds a) (const_int_bounds b)
            (fun '(min_a, max_a) '(min_b, max_b) =>
              lo ← i64 (min_a + min_b); hi ← i64 (max_a + max_b); Ok (if_fits t lo hi))
      | Bin Sub a b =>
          both (const_int_bounds a) (const_int_bounds b)
            (fun '(min_a, max_a) '(min_b, max_b) =>
              lo ← i64 (min_a - max_b); hi ← i64 (max_a - min_b); Ok (if_fits t lo hi))
      | Bin Mul a b =>
          both (const_int_bounds a) (const_int_bounds b)
            (fun '(min_a, max_a) '(min_b, max_b) =>
              t0 ← i64 (min_a * min_b); t1 ← i64 (min_a * max_b);
              t2 ← i64 (max_a * min_b); t3 ← i64 (max_a * max_b);
              Ok (if_fits t (min4 t0 t1 t2 t3) (max4 t0 t1 t2 t3)))
      | Bin Mod _ b =>
          rb ← const_int_bounds b;
          match rb with
          | Some (min_b, max_b) =>
              if (0 <? min_b) || (max_b <? 0)
              then hi ← i64 (Z.abs max_b); Ok (if_fits t 0 (hi - 1))
              else Ok None
          | None => Ok None
          end
      | Bin Div a b =>
          both (const_int_bounds a) (const_int_bounds b)
            (fun '(min_a, max_a) '(min_b, max_b) =>
              if (0 <? min_b) || (max_b <? 0) then
                t0 ← div_imp_int 64 min_a min_b; t1 ← div_imp_int 64 min_a max_b;
                t2 ← div_imp_int 64 max_a min_b; t3 ← div_imp_int 64 max_a max_b;
                Ok (if_fits t (min4 t0 t1 t2 t3) (max4 t0 t1 t2 t3))
              else Ok None)
      | Ramp base stride lanes =>
          both (const_int_bounds base) (const_int_bounds stride)
            (fun '(min_base, max_base) '(min_stride, max_stride) =>
              m ← i64 (min_stride * (lanes - 1)); min_last_lane ← i64 (min_base + m);
              m ← i64 (max_stride * (lanes - 1)); max_last_lane ← i64 (max_base + m);
              Ok (if_fits t (Z.min min_base min_last_lane) (Z.max max_base max_last_lane)))
      | _ => Ok None
      end
  end.
End ConstIntBounds.

(** * Arithmetic of bounds *)

Definition between (b : bounds) (z : Z) : Prop := fst b <= z <= snd b.

Lemma mul_between_l x y a b : x <= a <= y -> Z.min (x * b) (y * b) <= a * b <= Z.max (x * b) (y * b).
Proof. intros H. destruct (Z.le_ge_cases 0 b); [|rewrite Z.min_comm, Z.max_comm]; nia. Qed.

Lemma mul_corners a b min_a max_a min_b max_b :
  min_a <= a <= max_a -> min_b <= b <= max_b ->
  min4 (min_a * min_b) (min_a * max_b) (max_a * min_b) (max_a * max_b) <= a * b <=
  max4 (min_a * min_b) (min_a * max_b) (max_a * min_b) (max_a * max_b).
Proof.
  intros Ha Hb. pose proof (mul_between_l _ _ _ b Ha).
  pose proof (mul_between_l _ _ _ min_a Hb). pose proof (mul_between_l _ _ _ max_a Hb).
  unfold min4, max4. rewrite !(Z.mul_comm _ b) in *.
  rewrite !(Z.mul_comm min_a), !(Z.mul_comm max_a) in *. lia.
Qed.

Lemma div_mono_neg a x y : a <= 0 -> 0 < x <= y -> a / x <= a / y.
Proof.
  intros Ha Hx. apply Z.div_le_lower_bound; [lia|].
  pose proof (Z.mul_div_le a x ltac:(lia)). pose proof (Z.div_le_upper_bound a x 0 ltac:(lia) ltac:(lia)). nia.
Qed.

Lemma div_between_r a x y b : 0 < x <= b -> b <= y -> Z.min (a / x) (a / y) <= a / b <= Z.max (a / x) (a / y).
Proof.
  intros Hx Hy. destruct (Z.le_ge_cases 0 a).
  - pose proof (Z.div_le_compat_l a x b ltac:(lia) ltac:(lia)).
    pose proof (Z.div_le_compat_l a b y ltac:(lia) ltac:(lia)). lia.
  - pose proof (div_mono_neg a x b ltac:(lia) ltac:(lia)).
    pose proof (div_mono_neg a b y ltac:(lia) ltac:(lia)). lia.
Qed.

Lemma ediv_between_l x y a b : b <> 0 -> x <= a <= y ->
  Z.min (ediv x b) (ediv y b) <= ediv a b <= Z.max (ediv x b) (ediv y b).
Proof.
  intros Hb Ha. destruct (Z.lt_ge_cases 0 b).
  - rewrite !ediv_pos by done. pose proof (Z.div_le_mono x a b). pose proof (Z.div_le_mono a y b). lia.
  - rewrite !ediv_neg by lia. pose proof (Z.div_le_mono x a (- b)). pose proof (Z.div_le_mono a y (- b)). lia.
Qed.

Lemma ediv_between_r a x y b : 0 < x \/ y < 0 -> x <= b <= y ->
  Z.min (ediv a x) (ediv a y) <= ediv a b <= Z.max (ediv a x) (ediv a y).
Proof.
  intros [Hs|Hs] Hb.
  - rewrite !ediv_pos by lia. apply div_between_r; lia.
  - rewrite !ediv_neg by lia. pose proof (div_between_r a (- y) (- x) (- b) ltac:(lia) ltac:(lia)). lia.
Qed.

Lemma ediv_corners a b min_a max_a min_b max_b :
  0 < min_b \/ max_b < 0 -> min_a <= a <= max_a -> min_b <= b <= max_b ->
  min4 (ediv min_a min_b) (ediv min_a max_b) (ediv max_a min_b) (ediv max_a max_b) <= ediv a b <=
  max4 (ediv min_a min_b) (ediv min_a max_b) (ediv max_a min_b) (ediv max_a max_b).
Proof.
  intros Hs Ha Hb. pose proof (ediv_between_l _ _ _ b ltac:(lia) Ha).
  pose proof (ediv_between_r min_a _ _ _ Hs Hb). pose proof (ediv_between_r max_a _ _ _ Hs Hb).
  unfold min4, max4. lia.
Qed.

(** ** The types *)
Lemma fits_exact t lo hi b z :
  ty_ok t -> is_int t || is_uint t = true -> in_srange 64 lo -> in_srange 64 hi ->
  if_fits t lo hi = Some b -> lo <= z <= hi -> b = (lo, hi) /\ ov_result Ideal t z = Some z.
Proof.
  intros [Hb _] Ht Hlo Hhi Hf Hz. unfold if_fits in Hf.
  destruct (no_overflow_scalar_int (element_of t) || (can_represent_int64 t lo && can_represent_int64 t hi)) eqn:E;
    [|done]. injection Hf as <-. split; [done|]. simpl. f_equal.
  destruct (unbounded t) eqn:Hu; [done|]. apply representable_wrap, in_range_representable; [done|].
  apply orb_true_iff in E as [E|E].
  - exfalso. unfold no_overflow_scalar_int in E. bool_to_prop.
    destruct (element_of_fields t Hb) as (Hc & Hbits & _). unfold unbounded, is_int in *.
    rewrite Hc in *. rewrite Hbits in *. destruct (bool_decide _); [|done]. simpl in Hu. lia.
  - apply andb_true_iff in E as [E1 E2].
    apply (can_represent_range_spec t lo Hb Ht) in E1; [|done].
    apply (can_represent_range_spec t hi Hb Ht) in E2; [|done].
    destruct (is_int t); unfold in_srange, in_urange in *; lia.
Qed.

(** * The bounds hold *)
Section Sound.
Context (bounds_info : Scope bounds).

Notation cib := (const_int_bounds bounds_info).

Definition lane_such (P : Z -> Prop) (s : scalar) : Prop := forall z, s = VInt z -> P z.
Definition lane_in (b : bounds) : scalar -> Prop := lane_such (between b).

(** What the simplifier knows of the variables is true, and fits an [int64_t]. *)
Definition info_sound (ρ : env) : Prop :=
  forall n b, scope_get bounds_info n = Ok b ->
    in_srange 64 (fst b) /\ in_srange 64 (snd b) /\
    forall v, vars ρ !! n = Some v -> Forall (lane_in b) v.

(** No modulus is met on the way whose divisor is known to be negative, and has more
    than one possible value. *)
Fixpoint mods_exact (e : Expr) : bool :=
  match e with
  | Bin op a b =>
      mods_exact a && mods_exact b &&
      match op with
      | Mod => match cib b with Ok (Some (lo, hi)) => (0 <=? hi) || (lo =? hi) | _ => true end
      | _ => true
      end
  | Select _ a b | Ramp a b _ => mods_exact a && mods_exact b
  | Broadcast v _ => mods_exact v
  | _ => true
  end.

Lemma both_Some a b f r :
  both a b f = Ok (Some r) <-> exists ra rb, a = Ok (Some ra) /\ b = Ok (Some rb) /\ f ra rb = Ok (Some r).
Proof.
  unfold both. destruct a as [[ra|]|]; simpl; [|naive_solver..].
  destruct b as [[rb|]|]; simpl; naive_solver.
Qed.

Lemma either_Some a b r :
  either a b = Ok (Some r) -> a = Ok (Some r) \/ b = Ok (Some r).
Proof. unfold either. destruct a as [[ra|]|]; simpl; naive_solver. Qed.

Lemma i64_Ok z r : i64 z = Ok r <-> r = z /\ in_srange 64 z.
Proof. unfold i64. case_bool_decide; naive_solver. Qed.

Lemma if_fits_Some t lo hi b : if_fits t lo hi = Some b -> b = (lo, hi).
Proof. unfold if_fits. case_match; naive_solver. Qed.

Lemma div64_Ok a b q : in_srange 64 a -> in_srange 64 b ->
  div_imp_int 64 a b = Ok q -> q = ediv a b /\ in_srange 64 q.
Proof.
  intros Ha Hb H. unfold div_imp_int in H. destruct (c_div_undefined 64 a b) eqn:E; [done|].
  assert (Hd : b <> 0 /\ ~ (a = - 2 ^ (64 - 1) /\ b = -1)).
  { unfold c_div_undefined in E. apply orb_false_iff in E as [E1 E2]. apply Z.eqb_neq in E1.
    split; [done|]. intros [-> ->]. done. }
  pose proof (div_imp_int_exact 64 a b ltac:(lia) Ha Hb (proj1 Hd) (proj2 Hd)) as Hq.
  unfold div_imp_int in Hq. rewrite E in Hq. rewrite Hq in H. injection H as <-.
  destruct Hd. split; [done|]. by apply ediv_range.
Qed.

Definition bounds_range (b : bounds) : Prop := in_srange 64 (fst b) /\ in_srange 64 (snd b).

Lemma min_srange a b : in_srange 64 a -> in_srange 64 b -> in_srange 64 (Z.min a b).
Proof. unfold in_srange. lia. Qed.
Lemma max_srange a b : in_srange 64 a -> in_srange 64 b -> in_srange 64 (Z.max a b).
Proof. unfold in_srange. lia. Qed.

Lemma as_const_int_range e i : wf e -> as_const_int_expr e = Some i -> in_srange 64 i.
Proof.
  induction e using Expr_ind'; intros Hwf Hc; simpl in *; try done.
  - injection Hc as <-. destruct Hwf as [[Ht Hv] _]. apply andb_true_iff in Ht as [_ Hw].
    apply int_width_range in Hw. eapply srange_mono; [|done]. lia.
  - destruct Hwf as [_ Hwf]. auto.
Qed.

(** The cases of the function. *)
Ltac inv_both H := apply both_Some in H; destruct H as ([? ?] & [? ?] & ? & ? & H).
Ltac inv_i64 :=
  repeat match goal with
  | H : @mbind res _ _ _ _ _ = Ok _ |- _ => apply bind_Ok in H; destruct H as (? & ? & ?)
  | H : i64 _ = Ok _ |- _ => apply i64_Ok in H; destruct H as [-> ?]
  | H : Ok _ = Ok _ |- _ => injection H as H
  end.

Lemma min4_srange a b c d :
  in_srange 64 a -> in_srange 64 b -> in_srange 64 c -> in_srange 64 d -> in_srange 64 (min4 a b c d).
Proof. unfold in_srange, min4. lia. Qed.
Lemma max4_srange a b c d :
  in_srange 64 a -> in_srange 64 b -> in_srange 64 c -> in_srange 64 d -> in_srange 64 (max4 a b c d).
Proof. unfold in_srange, max4. lia. Qed.

(** Induction giving the hypothesis on the operands of the first operand too. *)
Lemma grandchildren_ind (P : Expr -> Prop) :
  (forall e, Forall P (children e) ->
     (forall op op' x y b, e = Bin op (Bin op' x y) b -> P x /\ P y) -> P e) -> forall e, P e.
Proof.
  intros H e. assert (HQ : P e /\ Forall P (children e)); [|tauto].
  induction e as [e IH] using Expr_children_ind.
  assert (Hc : Forall P (children e)) by (eapply Forall_impl; [exact IH|]; by intros ? []).
  split; [|done]. apply H; [done|]. intros op op' x y b ->. cbn [children] in IH.
  apply Forall_cons in IH as [[_ IH] _]. cbn [children] in IH. rewrite !Forall_cons in IH. tauto.
Qed.

Definition in_range_result (r : res (option bounds)) : Prop := forall b, r = Ok (Some b) -> bounds_range b.

Lemma both_range a b f :
  in_range_result a -> in_range_result b ->
  (forall ra rb, bounds_range ra -> bounds_range rb -> in_range_result (f ra rb)) ->
  in_range_result (both a b f).
Proof. intros Ha Hb Hf r H. apply both_Some in H as (ra & rb & H1 & H2 & H). by apply (Hf ra rb (Ha _ H1) (Hb _ H2)). Qed.

Lemma either_range a b : in_range_result a -> in_range_result b -> in_range_result (either a b).
Proof. intros Ha Hb r H. apply either_Some in H as [H|H]; eauto. Qed.

Lemma i64_range (z : Z) (k : Z -> res (option bounds)) :
  (in_srange 64 z -> in_range_result (k z)) -> in_range_result (x ← i64 z; k x).
Proof. intros H r Hr. apply bind_Ok in Hr as (x & Hx & Hr). apply i64_Ok in Hx as [-> Hx]. by eapply H. Qed.

Lemma div64_range a b (k : Z -> res (option bounds)) :
  in_srange 64 a -> in_srange 64 b -> (in_srange 64 (ediv a b) -> in_range_result (k (ediv a b))) ->
  in_range_result (x ← div_imp_int 64 a b; k x).
Proof.
  intros Ha Hb H r Hr. apply bind_Ok in Hr as (x & Hx & Hr). apply div64_Ok in Hx as [-> Hx]; [|done..].
  by eapply H.
Qed.

Lemma fits_range t lo hi : in_srange 64 lo -> in_srange 64 hi -> in_range_result (Ok (if_fits t lo hi)).
Proof. intros Hl Hh r [= H]. apply if_fits_Some in H as ->. by split. Qed.

Lemma pair_range lo hi : in_srange 64 lo -> in_srange 64 hi -> in_range_result (Ok (Some (lo, hi))).
Proof. intros Hl Hh r [= <-]. by split. Qed.

Lemma none_range : in_range_result (Ok None).
Proof. by intros r. Qed.

Lemma cib_const e i : as_const_int_expr e = Some i -> cib e = Ok (Some (i, i)).
Proof. intros H. destruct e; cbn [const_int_bounds]; by rewrite H. Qed.

(** [Max] and [Min] look at the first operand. *)
Definition nested (op : binop) (a : Expr) : option (Expr * Expr) :=
  match a with Bin op' x y => if bool_decide (op = op') then Some (x, y) else None | _ => None end.

Lemma nested_Some op a x y : nested op a = Some (x, y) -> a = Bin op x y.
Proof. destruct a; try done. simpl. case_bool_decide; [|done]. by intros [= <- <-]; subst. Qed.

Lemma cib_Max a b :
  cib (Bin Max a b) =
  match nested Min a with
  | Some (x, y) =>
      both (cib b) (either (cib y) (cib x))
        (fun '(min_b, max_b) '(min_a, max_a) => Ok (Some (min_b, Z.max max_a max_b)))
  | None =>
      both (cib a) (cib b)
        (fun '(min_a, max_a) '(min_b, max_b) => Ok (Some (Z.max min_a min_b, Z.max max_a max_b)))
  end.
Proof. destruct a as [| | | | | |op| | | | | | |]; try done. by destruct op. Qed.

Lemma cib_Min a b :
  cib (Bin Min a b) =
  match nested Max a with
  | Some (x, y) =>
      both (cib b) (either (cib y) (cib x))
        (fun '(min_b, max_b) '(min_a, max_a) => Ok (Some (Z.min min_a min_b, max_b)))
  | None =>
      both (cib a) (cib b)
        (fun '(min_a, max_a) '(min_b, max_b) => Ok (Some (Z.min min_a min_b, Z.min max_a max_b)))
  end.
Proof. destruct a as [| | | | | |op| | | | | | |]; try done. by destruct op. Qed.

Lemma const_int_bounds_range e : wf e ->
  (forall n b, scope_get bounds_info n = Ok b -> bounds_range b) -> in_range_result (cib e).
Proof.
  intros Hwf Hs. revert e Hwf. induction e as [e IH Hg] using grandchildren_ind. intros Hwf.
  assert (Hc : Forall (fun c => in_range_result (cib c)) (children e)).
  { apply wf_children in Hwf. rewrite Forall_forall in IH, Hwf |- *. auto. }
  assert (Hg' : forall op op' x y b, e = Bin op (Bin op' x y) b -> in_range_result (cib x) /\ in_range_result (cib y)).
  { intros op op' x y b ->. destruct (Hg _ _ _ _ _ eq_refl), Hwf as (_ & (_ & Hx & Hy) & _). auto. }
  clear IH Hg. destruct (as_const_int_expr e) as [i|] eqn:Ec.
  { intros b H. rewrite (cib_const _ _ Ec) in H. injection H as <-. pose proof (as_const_int_range e i Hwf Ec). by split. }
  destruct e; cbn [children] in Hc; rewrite ?Forall_cons in Hc; destruct_and?; try apply none_range; try done.
  - intros b H. cbn [const_int_bounds as_const_int_expr] in H. destruct (scope_contains bounds_info name); [|done].
    apply bind_Ok in H as (x & Hx & H). injection H as <-. eauto.
  - destruct op; try apply none_range;
      rewrite ?cib_Max, ?cib_Min; cbn [const_int_bounds as_const_int_expr];
      try (destruct (nested _ e1) as [[x y]|] eqn:En;
        [apply nested_Some in En as ->; destruct (Hg' _ _ _ _ _ eq_refl)|];
        apply both_range; eauto using either_range;
        intros [] [] [] []; simpl in *; apply pair_range; eauto using min_srange, max_srange).
    + apply both_range; [done..|]. intros [] [] [] []; simpl in *.
      repeat (apply i64_range; intros). by apply fits_range.
    + apply both_range; [done..|]. intros [] [] [] []; simpl in *.
      repeat (apply i64_range; intros). by apply fits_range.
    + apply both_range; [done..|]. intros [] [] [] []; simpl in *.
      repeat (apply i64_range; intros). apply fits_range; by (apply min4_srange || apply max4_srange).
    + apply both_range; [done..|]. intros [] [] [] []; simpl in *.
      destruct (_ || _); [|apply none_range].
      repeat (apply div64_range; [done..|intros]). apply fits_range; by (apply min4_srange || apply max4_srange).
    + intros r Hr. apply bind_Ok in Hr as ([[lo hi]|] & Hr & Hr'); [|done].
      destruct (_ || _); [|done]. revert r Hr'. apply i64_range. intros Ha.
      apply fits_range; unfold in_srange in *; simpl; lia.
  - cbn [const_int_bounds as_const_int_expr]. apply both_range; [done..|]. intros [] [] [] []; simpl in *.
    apply pair_range; eauto using min_srange, max_srange.
  - cbn [const_int_bounds as_const_int_expr]. apply both_range; [done..|]. intros [] [] [] []; simpl in *.
    repeat (apply i64_range; intros). apply fits_range; (by apply min_srange || by apply max_srange).
  - intros b H1. cbn [const_int_bounds] in H1. rewrite Ec in H1. by apply H.
Qed.

(** ** One operation *)
Lemma lanes_class p t v : value_ok p t v ->
  Forall (fun s => forall z, s = VInt z -> is_int t || is_uint t = true) v.
Proof. intros [_ H]. eapply Forall_impl; [exact H|]. intros s Hs z ->. apply Hs. Qed.

Lemma float_result op w f g u :
  is_comparison op = false -> float_binop op w f g = Some u -> exists h, u = VFloat h.
Proof.
  unfold float_binop. intros Hc H. destruct (float_prec w) as [[? ?]|]; [|done].
  destruct op; simplify_eq; eauto.
Qed.

Lemma bin_sound Γ ρ op a b ba bb br v :
  is_comparison op = false ->
  wf a -> typed Γ a -> env_ok Ideal Γ ρ ->
  (forall va, eval Ideal ρ a = Some va -> Forall (lane_in ba) va) ->
  (forall vb, eval Ideal ρ b = Some vb -> Forall (lane_in bb) vb) ->
  (forall x y z, is_int (type a) || is_uint (type a) = true -> between ba x -> between bb y ->
     int_binop Ideal op (type a) x y = Some z -> between br z) ->
  eval Ideal ρ (Bin op a b) = Some v -> Forall (lane_in br) v.
Proof.
  intros Hcmp Hwf Hty Hρ Ha Hb Hop He. cbn [eval] in He.
  apply bind_Some in He as (va & Hva & He). apply bind_Some in He as (vb & Hvb & He).
  pose proof (lanes_class _ _ _ (eval_value_ok _ _ _ _ _ Hwf Hty Hρ Hva)) as Hc.
  assert (Hca := conj Hc (Ha _ Hva)). apply Forall_and in Hca.
  eapply (zip_with_M_preserve _ _ (lane_in bb) (lane_in br)) with (2 := Hca) (4 := He); [|by apply Hb].
  intros sx sy sz [Hcl Hx] Hy Hz z ->. destruct sx as [x|x| |], sy as [y|y| |]; try done; cbn [eval_binop] in Hz.
  - apply bind_Some in Hz as (z' & Hz & Hz'). injection Hz' as ->.
    apply (Hop x y z); [by eapply Hcl|by apply Hx|by apply Hy|done].
  - destruct (float_result _ _ _ _ _ Hcmp Hz) as (? & [=]).
Qed.

Lemma minmax_in op t x y z : op = Max \/ op = Min ->
  int_binop Ideal op t x y = Some z -> z = (match op with Max => Z.max | _ => Z.min end) x y.
Proof. by intros [-> | ->] [= <-]. Qed.

Lemma between_fits t lo hi br z w : ty_ok t -> is_int t || is_uint t = true ->
  in_srange 64 lo -> in_srange 64 hi -> if_fits t lo hi = Some br -> lo <= z <= hi ->
  ov_result Ideal t z = Some w -> between br w.
Proof.
  intros Hok Ht Hl Hh Hf Hz Hw. destruct (fits_exact _ _ _ _ _ Hok Ht Hl Hh Hf Hz) as [-> E].
  rewrite E in Hw. by injection Hw as <-.
Qed.

(** The least and the greatest lane of a ramp are its first and its last. *)
Lemma ramp_sound t lo hi br n x y v :
  ty_ok t -> is_int t || is_uint t = true -> in_srange 64 lo -> in_srange 64 hi -> if_fits t lo hi = Some br ->
  (forall i, 0 <= i < Z.of_nat n -> lo <= x + i * y <= hi) ->
  ramp_lanes Ideal t n (VInt x) (VInt y) = Some v -> Forall (lane_in br) v.
Proof.
  intros Hok Ht Hl Hh Hf. revert x v. induction n as [|n IH]; intros x v Hx H.
  { injection H as <-. constructor. }
  assert (Hbr : br = (lo, hi)) by (by apply if_fits_Some in Hf).
  assert (H0 : lo <= x <= hi) by (specialize (Hx 0); lia).
  destruct n as [|n].
  { injection H as <-. apply Forall_singleton. intros z [= <-]. by rewrite Hbr. }
  change (ramp_lanes Ideal t (S (S n)) (VInt x) (VInt y)) with
    (next ← eval_binop Ideal Add t (VInt x) (VInt y); rest ← ramp_lanes Ideal t (S n) next (VInt y);
     Some (VInt x :: rest)) in H.
  apply bind_Some in H as (next & Hn & H). apply bind_Some in H as (rest & Hr & H). injection H as <-.
  assert (H1 : lo <= x + y <= hi) by (specialize (Hx 1); lia).
  cbn [eval_binop int_binop] in Hn. destruct (fits_exact _ _ _ _ _ Hok Ht Hl Hh Hf H1) as [_ E].
  rewrite E in Hn. injection Hn as <-. constructor; [intros z [= <-]; by rewrite Hbr|].
  eapply IH; [|exact Hr]. intros i Hi. specialize (Hx (i + 1)). lia.
Qed.

Lemma ramp_corners x y lo_x hi_x lo_y hi_y n i :
  lo_x <= x <= hi_x -> lo_y <= y <= hi_y -> 0 <= i <= n ->
  Z.min lo_x (lo_x + lo_y * n) <= x + i * y <= Z.max hi_x (hi_x + hi_y * n).
Proof.
  intros Hx Hy Hi. split.
  - assert (i * lo_y <= i * y) by nia.
    destruct (Z.le_ge_cases 0 lo_y); [assert (0 <= i * lo_y) by nia; lia|].
    assert (lo_y * n <= i * lo_y) by nia. lia.
  - assert (i * y <= i * hi_y) by nia.
    destruct (Z.le_ge_cases 0 hi_y); [|assert (i * hi_y <= 0) by nia; lia].
    assert (i * hi_y <= hi_y * n) by nia. lia.
Qed.

Lemma type_with_lanes_ok t l : ty_ok t -> 0 <= l < 65536 ->
  ty_ok (with_lanes t l) /\ code (with_lanes t l) = code t /\ bits (with_lanes t l) = bits t.
Proof.
  intros [Hb Hl] Hl'. unfold ty_ok. cbn. rewrite small_bits, small_lanes by done. repeat split; (done || lia).
Qed.

Lemma lane_in_weaken b b' v : (forall z, between b z -> between b' z) ->
  Forall (lane_in b) v -> Forall (lane_in b') v.
Proof. intros H Hf. eapply Forall_impl; [exact Hf|]. intros s Hs z Hz. auto. Qed.

Lemma mods_exact_operands op a b : mods_exact (Bin op a b) = true -> mods_exact a = true /\ mods_exact b = true.
Proof. simpl. rewrite !andb_true_iff. tauto. Qed.

(** The expression is within the bounds the function computes. *)
Definition sound_at (Γ : gmap string Ty) (ρ : env) (e : Expr) : Prop :=
  wf e -> typed Γ e -> mods_exact e = true ->
  forall b v, cib e = Ok (Some b) -> eval Ideal ρ e = Some v -> Forall (lane_in b) v.

Lemma info_range ρ n b : info_sound ρ -> scope_get bounds_info n = Ok b -> bounds_range b.
Proof. intros H Hb. destruct (H n b Hb) as (? & ? & _). by split. Qed.

Lemma arith_sound Γ ρ op a b br v : info_sound ρ -> env_ok Ideal Γ ρ ->
  op = Add \/ op = Sub \/ op = Mul \/ op = Div ->
  sound_at Γ ρ a -> sound_at Γ ρ b -> wf (Bin op a b) -> typed Γ (Bin op a b) -> mods_exact (Bin op a b) = true ->
  cib (Bin op a b) = Ok (Some br) -> eval Ideal ρ (Bin op a b) = Some v -> Forall (lane_in br) v.
Proof.
  intros Hi Hρ Hop Sa Sb Hwf Hty Hm H He. apply mods_exact_operands in Hm as [Hma Hmb].
  unfold sound_at in Sa, Sb.
  pose proof Hwf as (_ & Hwa & Hwb). pose proof Hty as [Hta Htb].
  assert (Hok : ty_ok (type a)) by (by eapply ty_ok_type).
  assert (Hr : forall c, wf c -> forall r, cib c = Ok (Some r) -> bounds_range r).
  { intros c Hc r. apply const_int_bounds_range; [done|]. intros n r' Hn. by eapply info_range. }
  destruct Hop as [-> |[-> |[-> | ->]]]; cbn [const_int_bounds as_const_int_expr type is_comparison is_logical orb] in H;
    inv_both H; (match type of He with eval _ _ (Bin ?o _ _) = _ => eapply (bin_sound Γ ρ o a b) end;
      [done..| | | |exact He]; [intros va Hva; by eapply Sa|intros vb Hvb; by eapply Sb|]);
    intros xa xb xr Hc Hx Hy Hz; unfold between in Hx, Hy; simpl in Hx, Hy, Hz.
  - inv_i64. eapply between_fits; [done|done| | |eassumption| |exact Hz]; [done|done|lia].
  - inv_i64. eapply between_fits; [done|done| | |eassumption| |exact Hz]; [done|done|lia].
  - inv_i64. eapply between_fits; [done|done| | |eassumption| |exact Hz];
      [by apply min4_srange|by apply max4_srange|by apply mul_corners].
  - destruct (_ || _) eqn:Ep; [|done]. apply orb_true_iff in Ep. rewrite !Z.ltb_lt in Ep.
    destruct (xb =? 0) eqn:Ey; [done|].
    destruct (Hr a Hwa _ H0) as [Ra1 Ra2], (Hr b Hwb _ H1) as [Rb1 Rb2]. simpl in Ra1, Ra2, Rb1, Rb2.
    inv_i64. repeat match goal with H : div_imp_int _ _ _ = Ok _ |- _ => apply div64_Ok in H; [destruct H as [-> ?]|done..] end.
    eapply between_fits; [done|done| | |eassumption| |exact Hz];
      [by apply min4_srange|by apply max4_srange|by apply ediv_corners].
Qed.

Lemma mod_sound Γ ρ a b br v : info_sound ρ -> env_ok Ideal Γ ρ ->
  sound_at Γ ρ b -> wf (Bin Mod a b) -> typed Γ (Bin Mod a b) -> mods_exact (Bin Mod a b) = true ->
  cib (Bin Mod a b) = Ok (Some br) -> eval Ideal ρ (Bin Mod a b) = Some v -> Forall (lane_in br) v.
Proof.
  intros Hi Hρ Sb Hwf Hty Hm H He. pose proof (mods_exact_operands _ _ _ Hm) as [Hma Hmb].
  pose proof Hwf as (_ & Hwa & Hwb). pose proof Hty as [Hta Htb].
  assert (Hok : ty_ok (type a)) by (by eapply ty_ok_type).
  cbn [const_int_bounds as_const_int_expr type is_comparison is_logical orb] in H.
  apply bind_Ok in H as ([[lo hi]|] & Hb & H); [|done].
  simpl in Hm. rewrite Hb, !andb_true_iff in Hm. destruct Hm as [_ Hm].
  destruct ((0 <? lo) || (hi <? 0)) eqn:Ep; [|done]. inv_i64.
  cbn [eval] in He. apply bind_Some in He as (va & Hva & He). apply bind_Some in He as (vb & Hvb & He).
  pose proof (lanes_class _ _ _ (eval_value_ok _ _ _ _ _ Hwa Hta Hρ Hva)) as Hc.
  pose proof (Sb Hwb Htb Hmb _ _ Hb Hvb) as Hbs.
  eapply (zip_with_M_preserve _ _ (lane_in (lo, hi)) (lane_in br)) with (2 := Hc) (3 := Hbs) (4 := He).
  intros sx sy sz Hcl Hy Hz z ->. destruct sx as [x|x| |], sy as [y|y| |]; try done; cbn [eval_binop] in Hz.
  2: { apply float_result in Hz as (? & [=]). done. }
  apply bind_Some in Hz as (z' & Hz & Hz'). injection Hz' as ->. cbn [int_binop] in Hz.
  specialize (Hy y eq_refl). unfold between in Hy. simpl in Hy.
  destruct (Z.eqb_spec y 0) as [|Hy0]; [done|]. pose proof (ediv_emod x y Hy0) as [_ Hm'].
  apply orb_true_iff in Hm. apply orb_true_iff in Ep. rewrite !Z.ltb_lt, ?Z.leb_le, ?Z.eqb_eq in *.
  eapply between_fits; [done|by eapply Hcl| | |eassumption| |exact Hz];
    unfold in_srange in *; simpl; lia.
Qed.

(** [Max] and [Min], on lanes of which something is known. *)
Definition lane_op (op : binop) : Z -> Z -> Z := match op with Max => Z.max | _ => Z.min end.
Lemma lanes_any (v : value) : Forall (lane_such (fun _ => True)) v.
Proof. by apply Forall_forall. Qed.

Lemma minmax_lanes op t va vb v (P Q R : Z -> Prop) : op = Max \/ op = Min ->
  Forall (lane_such P) va -> Forall (lane_such Q) vb ->
  (forall x y, P x -> Q y -> R (lane_op op x y)) ->
  zip_with_M (eval_binop Ideal op t) va vb = Some v -> Forall (lane_such R) v.
Proof.
  intros Hop Ha Hb HR He.
  eapply (zip_with_M_preserve _ (lane_such P) (lane_such Q)) with (2 := Ha) (3 := Hb) (4 := He).
  intros s t' u Hs Ht Hu z ->. destruct s as [x|f| |], t' as [y|g| |]; try done; cbn [eval_binop] in Hu.
  - apply bind_Some in Hu as (w & Hw & Hu). injection Hu as ->.
    destruct Hop as [-> | ->]; injection Hw as <-; by apply HR; [apply Hs|apply Ht].
  - apply float_result in Hu as (? & [=]). by destruct Hop as [-> | ->].
Qed.

(** One operand of a nested [Min] bounds it above, one of a nested [Max] below. *)
Lemma nested_sound Γ ρ op x y r va : op = Max \/ op = Min ->
  sound_at Γ ρ x -> sound_at Γ ρ y -> wf (Bin op x y) -> typed Γ (Bin op x y) ->
  mods_exact (Bin op x y) = true -> either (cib y) (cib x) = Ok (Some r) ->
  eval Ideal ρ (Bin op x y) = Some va ->
  Forall (lane_such (fun z => match op with Max => fst r <= z | _ => z <= snd r end)) va.
Proof.
  intros Hop Sx Sy (_ & Hwx & Hwy) [Htx Hty] Hm Hr Hva. apply mods_exact_operands in Hm as [Hmx Hmy].
  cbn [eval] in Hva. apply bind_Some in Hva as (vx & Hvx & Hva). apply bind_Some in Hva as (vy & Hvy & Hva).
  apply either_Some in Hr as [Hr|Hr].
  - eapply (minmax_lanes op _ vx vy va (fun _ => True) (between r)); [done|apply lanes_any| | |exact Hva].
    + by eapply Sy.
    + intros a b _ Hb. unfold between in Hb. destruct Hop as [-> | ->]; simpl; lia.
  - eapply (minmax_lanes op _ vx vy va (between r) (fun _ => True)); [done| |apply lanes_any| |exact Hva].
    + by eapply Sx.
    + intros a b Ha _. unfold between in Ha. destruct Hop as [-> | ->]; simpl; lia.
Qed.

Lemma minmax_sound Γ ρ op a b br v : op = Max \/ op = Min -> env_ok Ideal Γ ρ ->
  sound_at Γ ρ a -> sound_at Γ ρ b ->
  (forall op' x y, a = Bin op' x y -> sound_at Γ ρ x /\ sound_at Γ ρ y) ->
  wf (Bin op a b) -> typed Γ (Bin op a b) -> mods_exact (Bin op a b) = true ->
  cib (Bin op a b) = Ok (Some br) -> eval Ideal ρ (Bin op a b) = Some v ->
  Forall (lane_in br) v.
Proof.
  intros Hop Hρ Sa Sb Sxy Hwf Hty Hm H He. apply mods_exact_operands in Hm as [Hma Hmb].
  pose proof Hwf as (_ & Hwa & Hwb). pose proof Hty as [Hta Htb].
  cbn [eval] in He. apply bind_Some in He as (va & Hva & He). apply bind_Some in He as (vb & Hvb & He).
  assert (Hn : forall op' x y r, op' = Max \/ op' = Min -> a = Bin op' x y ->
    either (cib y) (cib x) = Ok (Some r) ->
    Forall (lane_such (fun z => match op' with Max => fst r <= z | _ => z <= snd r end)) va).
  { intros op' x y r Hop' -> Hr. destruct (Sxy _ _ _ eq_refl) as [Sx Sy].
    by apply (nested_sound Γ ρ op' x y r va). }
  assert (Hplain : forall ba bb, cib a = Ok (Some ba) -> cib b = Ok (Some bb) ->
    (forall x y, between ba x -> between bb y -> between br (lane_op op x y)) -> Forall (lane_in br) v).
  { intros ba bb Ha Hb Hbr. eapply (minmax_lanes op); [done| | |exact Hbr|exact He];
      [by eapply Sa|by eapply Sb]. }
  destruct Hop as [-> | ->]; [rewrite cib_Max in H|rewrite cib_Min in H];
    (destruct (nested _ a) as [[x y]|] eqn:En; inv_both H; injection H as <-;
      [apply nested_Some in En|by eapply Hplain; [eassumption..|unfold between; simpl; lia]]).
  - eapply (minmax_lanes Max) with (5 := He); [auto|eapply (Hn Min); eauto|by eapply Sb|].
    unfold between. simpl. lia.
  - eapply (minmax_lanes Min) with (5 := He); [auto|eapply (Hn Max); eauto|by eapply Sb|].
    unfold between. simpl. lia.
Qed.

Lemma const_sound ρ e i v : as_const_int_expr e = Some i -> eval Ideal ρ e = Some v ->
  Forall (lane_in (i, i)) v.
Proof.
  intros Hc He. destruct (as_const_int_eval _ _ _ _ _ Hc He) as [n ->].
  apply Forall_replicate. intros z [= <-]. unfold between. simpl. lia.
Qed.

Lemma select_sound Γ ρ c a b br v :
  sound_at Γ ρ a -> sound_at Γ ρ b ->
  wf (Select c a b) -> typed Γ (Select c a b) -> mods_exact (Select c a b) = true ->
  cib (Select c a b) = Ok (Some br) -> eval Ideal ρ (Select c a b) = Some v -> Forall (lane_in br) v.
Proof.
  intros Sa Sb (_ & _ & Hwa & Hwb) (_ & Hta & Htb) Hm H He. simpl in Hm. apply andb_true_iff in Hm as [Hma Hmb].
  cbn [const_int_bounds as_const_int_expr] in H. inv_both H. injection H as <-.
  cbn [eval] in He. apply bind_Some in He as (vc & _ & He). apply bind_Some in He as (vt & Hvt & He).
  apply bind_Some in He as (vf & Hvf & He).
  assert (Ht : Forall (lane_in (Z.min z z1, Z.max z0 z2)) vt).
  { eapply lane_in_weaken; [|by eapply Sa]. intros x. unfold between. simpl. lia. }
  assert (Hf : Forall (lane_in (Z.min z z1, Z.max z0 z2)) vf).
  { eapply lane_in_weaken; [|by eapply Sb]. intros x. unfold between. simpl. lia. }
  destruct vc as [|x [|]].
  - by eapply select_lanes_Forall in He as [_ ?].
  - apply bind_Some in He as (cond & _ & He). injection He as <-. by destruct cond.
  - by eapply select_lanes_Forall in He as [_ ?].
Qed.

Lemma ramp_float t n x y v : ramp_lanes Ideal t n (VFloat x) y = Some v ->
  Forall (fun s => forall z, s <> VInt z) v.
Proof.
  revert x v. induction n as [|n IH]; intros x v H; [injection H as <-; constructor|].
  destruct n as [|n]; [injection H as <-; by constructor|].
  change (ramp_lanes Ideal t (S (S n)) (VFloat x) y) with
    (next ← eval_binop Ideal Add t (VFloat x) y; rest ← ramp_lanes Ideal t (S n) next y;
     Some (VFloat x :: rest)) in H.
  apply bind_Some in H as (next & Hn & H). apply bind_Some in H as (rest & Hr & H). injection H as <-.
  constructor; [done|]. destruct y as [y|y| |]; try done. cbn [eval_binop] in Hn.
  apply float_result in Hn as (? & ->); [|done]. by eapply IH.
Qed.

Lemma ramp_kinds t n x y v : ramp_lanes Ideal t (S (S n)) x y = Some v ->
  (exists a b, x = VInt a /\ y = VInt b) \/ Forall (fun s => forall z, s <> VInt z) v.
Proof.
  intros H. pose proof H as H'.
  change (ramp_lanes Ideal t (S (S n)) x y) with
    (next ← eval_binop Ideal Add t x y; rest ← ramp_lanes Ideal t (S n) next y; Some (x :: rest)) in H.
  apply bind_Some in H as (next & Hn & _). destruct x as [x|x| |], y as [y|y| |]; try done; eauto.
  right. by eapply ramp_float.
Qed.

Lemma if_fits_fields t u lo hi : code t = code u -> bits t = bits u -> if_fits t lo hi = if_fits u lo hi.
Proof.
  destruct t as [c b l h], u as [c' b' l' h']. simpl. by intros -> ->.
Qed.

Lemma ramp_expr_sound Γ ρ b s l br v : info_sound ρ -> env_ok Ideal Γ ρ ->
  sound_at Γ ρ b -> sound_at Γ ρ s ->
  wf (Ramp b s l) -> typed Γ (Ramp b s l) -> mods_exact (Ramp b s l) = true ->
  cib (Ramp b s l) = Ok (Some br) -> eval Ideal ρ (Ramp b s l) = Some v -> Forall (lane_in br) v.
Proof.
  intros Hi Hρ Sb Ss ((_ & Hl & _) & Hwb & Hws) (Htb & Hts & Hl') Hm H He.
  simpl in Hm. apply andb_true_iff in Hm as [Hmb Hms].
  cbn [const_int_bounds as_const_int_expr] in H. inv_both H. inv_i64.
  cbn [eval] in He. apply bind_Some in He as (vb & Hvb & He). apply bind_Some in He as (vs & Hvs & He).
  pose proof (Sb Hwb Htb Hmb _ _ H0 Hvb) as Hb. pose proof (Ss Hws Hts Hms _ _ H1 Hvs) as Hs.
  pose proof (eval_value_ok _ _ _ _ _ Hwb Htb Hρ Hvb) as Hvok.
  pose proof (ty_ok_type _ _ Hwb Htb) as Hok.
  destruct vb as [|x [|]], vs as [|y [|]]; try done.
  apply Forall_cons in Hb as [Hb _], Hs as [Hs _]. destruct Hvok as [_ Hcl]. apply Forall_cons in Hcl as [Hcl _].
  destruct (type_with_lanes_ok _ l Hok ltac:(lia)) as (_ & Hcode & Hbits).
  replace (Z.to_nat l) with (S (S (Z.to_nat (l - 2)))) in He by lia.
  destruct (ramp_kinds _ _ _ _ _ He) as [(p & q & -> & ->)|Hn];
    [|eapply Forall_impl; [exact Hn|]; intros u Hu k ->; by destruct (Hu k)].
  destruct Hcl as [Hcl _]. specialize (Hb p eq_refl). specialize (Hs q eq_refl).
  rewrite (if_fits_fields _ (type b)) in H5 by done. unfold between in Hb, Hs. simpl in Hb, Hs.
  destruct (const_int_bounds_range b Hwb (fun n r => info_range ρ n r Hi) _ H0) as [R1 R2]. simpl in R1, R2.
  eapply ramp_sound; [exact Hok|exact Hcl| | |exact H5| |exact He]; [by apply min_srange|by apply max_srange|].
  intros k Hk. apply ramp_corners; lia.
Qed.

Lemma const_int_bounds_lanes Γ ρ e : info_sound ρ -> env_ok Ideal Γ ρ -> sound_at Γ ρ e.
Proof.
  intros Hi Hρ. induction e as [e IH Hg] using grandchildren_ind. intros Hwf Hty Hm br v H He.
  destruct (as_const_int_expr e) as [i|] eqn:Ec.
  { rewrite (cib_const _ _ Ec) in H. injection H as <-. by eapply const_sound. }
  destruct e; cbn [children] in IH; rewrite ?Forall_cons in IH; destruct_and?; try done.
  - cbn [const_int_bounds as_const_int_expr] in H. destruct (scope_contains bounds_info name); [|done].
    apply bind_Ok in H as (b & Hb & H). injection H as <-. destruct (Hi _ _ Hb) as (_ & _ & Hv).
    by apply Hv.
  - assert (Hxy : forall op' x y, e1 = Bin op' x y -> sound_at Γ ρ x /\ sound_at Γ ρ y).
    { intros op' x y ->. by eapply Hg. }
    destruct op; try done.
    1-4: match type of He with eval _ _ (Bin ?o _ _) = _ => eapply (arith_sound Γ ρ o e1 e2) end; eauto.
    + by eapply (mod_sound Γ ρ e1 e2).
    + eapply (minmax_sound Γ ρ Min e1 e2); eauto.
    + eapply (minmax_sound Γ ρ Max e1 e2); eauto.
  - by eapply (select_sound Γ ρ e1 e2 e3).
  - by eapply (ramp_expr_sound Γ ρ e1 e2).
  - cbn [const_int_bounds] in H. rewrite Ec in H. cbn [eval] in He.
    apply bind_Some in He as (vv & Hvv & He). destruct vv as [|x [|]]; try done. injection He as <-.
    destruct Hwf as [_ Hwf], Hty as [Hty _].
    match goal with S : sound_at _ _ _ |- _ => pose proof (S Hwf Hty Hm _ _ H Hvv) as Hx end.
    apply Forall_cons in Hx as [Hx _]. by apply Forall_replicate.
Qed.
End Sound.

(** C3. The bounds are right: for an expression of an integer type in which no modulus
    is met whose divisor is known to be negative and to have more than one possible
    value, every lane of its value lies between the two constants [const_int_bounds]
    returns, whatever is known of its variables being true, under the overflow contract
    of the compiler; narrow types included, since bounds that do not fit are refused.
    The moduli left out are bounded wrongly ([const_int_bounds_mod_defect]). *)
Theorem const_int_bounds_sound bounds_info Γ ρ e lo hi v :
  info_sound bounds_info ρ -> wf e -> typed Γ e -> env_ok Ideal Γ ρ -> is_int (type e) || is_uint (type e) = true ->
  mods_exact bounds_info e = true ->
  const_int_bounds bounds_info e = Ok (Some (lo, hi)) -> eval Ideal ρ e = Some v ->
  Forall (fun s => exists z, s = VInt z /\ lo <= z <= hi) v.
Proof.
  intros Hi Hwf Hty Hρ Ht Hm H He.
  pose proof (const_int_bounds_lanes bounds_info Γ ρ e Hi Hρ Hwf Hty Hm _ _ H He) as Hl.
  destruct (eval_value_ok _ _ _ _ _ Hwf Hty Hρ He) as [_ Hv].
  assert (Hb := conj Hl Hv). apply Forall_and in Hb. eapply Forall_impl; [exact Hb|].
  intros s [Hs Hok]. destruct s as [z|f|s|z]; simpl in Hok.
  - exists z. split; [done|]. by apply (Hs z).
  - by rewrite (int_or_uint_not_float _ Ht) in Hok.
  - by rewrite (int_or_uint_not_handle _ Ht) in Hok.
  - by rewrite (int_or_uint_not_handle _ Ht) in Hok.
Qed.

Definition c32 (v : Z) : Expr := IntImm (Int 32 1) v.
Definition v32 (n : string) : Expr := Var (Int 32 1) n None None None.

(** clamp(x, 0, 10) * 3 - 5 *)
Definition clamped : Expr :=
  Bin Sub (Bin Mul (Bin Max (Bin Min (v32 "x") (c32 10)) (c32 0)) (c32 3)) (c32 5).

Lemma const_int_bounds_sound_witness :
  const_int_bounds scope_new clamped = Ok (Some (-5, 25)) /\
  Forall (fun s => exists z, s = VInt z /\ -5 <= z <= 25) [VInt 25].
Proof.
  split; [reflexivity|].
  apply (const_int_bounds_sound scope_new {["x" := Int 32 1]} (bind_var empty_env "x" [VInt 77]) clamped).
  - intros n b. simpl. by rewrite lookup_empty.
  - repeat split; (discriminate || vm_compute; congruence).
  - repeat split; vm_compute; congruence.
  - constructor; simpl; try done. intros n t w. rewrite lookup_singleton_Some, lookup_insert_Some, lookup_empty.
    intros [<- <-] [[_ <-]|[? ?]]; [|done]. split; [done|]. apply Forall_singleton. split; [done|by left].
  - reflexivity.
  - reflexivity.
  - reflexivity.
  - reflexivity.
Defined.

(** The bounds of a modulus by a range of negative divisors are wrong: they are
    computed from the divisor nearest to zero. With [y] between -10 and -3 the
    bounds of [x % y] are 0 and 2, and [5 % -10] is 5. *)
Theorem const_int_bounds_mod_defect :
  let info := scope_push scope_new "y" (-10, -3) in
  let ρ := bind_var (bind_var empty_env "x" [VInt 5]) "y" [VInt (-10)] in
  info_sound info ρ /\
  const_int_bounds info (Bin Mod (v32 "x") (v32 "y")) = Ok (Some (0, 2)) /\
  eval Ideal ρ (Bin Mod (v32 "x") (v32 "y")) = Some [VInt 5].
Proof.
  intros info ρ. split; [|split; reflexivity].
  intros n b H. unfold info in H. rewrite scope_get_push in H by apply scope_new_wf.
  case_decide; [|simpl in H; by rewrite lookup_empty in H]. subst. injection H as <-.
  split; [unfold in_srange; simpl; lia|]. split; [unfold in_srange; simpl; lia|].
  intros v. simpl. rewrite lookup_insert_eq. intros [= <-]. apply Forall_singleton.
  intros z [= <-]. unfold between. simpl. lia.
Qed.
