(* ===== verification/Monotonic.v ===== *)
(** Whether an expression increases or decreases with a variable: the visitor of
    src/src/Monotonic.h and src/src/Monotonic.cpp. The simplifier's [can_prove] is
    reached through an interface, [Prover]. *)

From Stdlib Require Import ZArith Lia Bool SpecFloat String.
From stdpp Require Import prelude strings gmap.
From S2P Require Import Prelude Types IR Semantics Scope Operators Mutator Substitute.

#[local] Open Scope Z_scope.
#[local] Open Scope halide_scope.

(** [enum class Monotonic] *)
Inductive Monotonic := Constant | Increasing | Decreasing | Unknown.

#[global] Instance Monotonic_eq_dec : EqDecision Monotonic.
Proof. solve_decision. Defined.
#[global] Instance Monotonic_inhabited : Inhabited Monotonic := populate Constant.

Definition flip (r : Monotonic) : Monotonic :=
  match r with Increasing => Decreasing | Decreasing => Increasing | _ => r end.

Definition unify (a b : Monotonic) : Monotonic :=
  if decide (a = b) then a
  else match a, b with
       | Unknown, _ | _, Unknown => Unknown
       | Constant, _ => b
       | _, Constant => a
       | _, _ => Unknown
       end.

Definition both_constant (ra rb : Monotonic) : bool := bool_decide (ra = Constant) && bool_decide (rb = Constant).

(** What each [visit] does once its operands are analysed. *)
Definition cast_result (t value_type : Ty) (result : Monotonic) : Monotonic :=
  if can_represent t value_type then result
  else if (32 <=? bits value_type) && (32 <=? bits t) then result
  else if bool_decide (result = Constant) then result else Unknown.

Definition mul_result (a b : Expr) (ra rb : Monotonic) : Monotonic :=
  if both_constant ra rb then Constant
  else if is_positive_const a then rb
  else if is_positive_const b then ra
  else if is_negative_const a then flip rb
  else if is_negative_const b then flip ra
  else Unknown.

Definition div_result (b : Expr) (ra rb : Monotonic) : Monotonic :=
  if both_constant ra rb then Constant
  else if is_positive_const b then ra
  else if is_negative_const b then flip ra
  else Unknown.

Definition eq_result (ra rb : Monotonic) : Monotonic := if both_constant ra rb then Constant else Unknown.
Definition lt_result (ra rb : Monotonic) : Monotonic := unify (flip ra) rb.

(** [GT] and [GE] visit their second operand first: see [visit]. *)
Definition bin_result (op : binop) (a b : Expr) (ra rb : Monotonic) : Monotonic :=
  match op with
  | Add | Min | Max | And | Or => unify ra rb
  | Sub => unify ra (flip rb)
  | Mul => mul_result a b ra rb
  | Div => div_result b ra rb
  | Mod => Unknown
  | EQ | NE => eq_result ra rb
  | LT | LE => lt_result ra rb
  | GT | GE => lt_result rb ra
  end.

(** The last part of the method for [Select], from what the simplifier proves. *)
Definition select_answer (true_value_ge_false_value true_value_le_false_value : bool)
    (rcond ra rb : Monotonic) : Monotonic :=
  let unified := unify ra rb in
  let switches_from_true_to_false := bool_decide (rcond = Decreasing) in
  let switches_from_false_to_true := bool_decide (rcond = Increasing) in
  if true_value_ge_false_value && true_value_le_false_value then ra
  else if (bool_decide (unified = Increasing) || bool_decide (unified = Constant))
          && (switches_from_false_to_true && true_value_ge_false_value
              || switches_from_true_to_false && true_value_le_false_value) then Increasing
  else if (bool_decide (unified = Decreasing) || bool_decide (unified = Constant))
          && (switches_from_false_to_true && true_value_le_false_value
              || switches_from_true_to_false && true_value_ge_false_value) then Decreasing
  else Unknown.

Section Visitor.
Context (can_prove : Expr -> bool) (var : string).

Definition select_result (true_value false_value : Expr) (rcond ra rb : Monotonic) : res Monotonic :=
  if bool_decide (rcond = Constant) then Ok (unify ra rb)
  else
    ge ← operator_ge (eref true_value) (eref false_value);
    let true_value_ge_false_value := can_prove ge in
    le ← operator_le (eref true_value) (eref false_value);
    let true_value_le_false_value := can_prove le in
    Ok (select_answer true_value_ge_false_value true_value_le_false_value rcond ra rb).

Definition visitor_error {A} (msg : string) : mut (Scope Monotonic) A := fun _ => Err (InternalError msg).

Definition visit_Variable (name : string) : mut (Scope Monotonic) Monotonic := fun scope =>
  if bool_decide (name = var) then Ok (Increasing, scope)
  else if scope_contains scope name then r ← scope_get scope name; Ok (r, scope)
  else Ok (Constant, scope).

Definition push (name : string) (m : Monotonic) : mut (Scope Monotonic) unit := fun scope =>
  Ok (tt, scope_push scope name m).
Definition pop (name : string) : mut (Scope Monotonic) unit := fun scope =>
  scope ← scope_pop scope name; Ok (tt, scope).

Definition returns_last_arg (name : string) (ct : CallType) : bool :=
  call_is_intrinsic name ct "likely" || call_is_intrinsic name ct "likely_if_innermost"
  || call_is_intrinsic name ct "return_second".

(** The visitor: [scope] is its state, [result] what a visit leaves in the member. *)
Fixpoint visit (e : Expr) : mut (Scope Monotonic) Monotonic :=
  match e with
  | IntImm _ _ | UIntImm _ _ | FloatImm _ _ => mret Constant
  | StringImm _ => visitor_error "Monotonic on String"
  | Cast t value => result ← visit value; mret (cast_result t (type value) result)
  | Var _ name _ _ _ => visit_Variable name
  | Bin Mod _ _ => mret Unknown
  | Bin ((GT | GE) as op) a b => rb ← visit b; ra ← visit a; mret (bin_result op a b ra rb)
  | Bin op a b => ra ← visit a; rb ← visit b; mret (bin_result op a b ra rb)
  | Not a => result ← visit a; mret (flip result)
  | Select condition true_value false_value =>
      rcond ← visit condition;
      ra ← visit true_value;
      rb ← visit false_value;
      lift (select_result true_value false_value rcond ra rb)
  | Load _ _ index _ _ =>
      result ← visit index;
      mret (if bool_decide (result = Constant) then result else Unknown)
  | Ramp _ _ _ | Broadcast _ _ => visitor_error "Monotonic of vector"
  | Call _ name args ct _ _ _ _ =>
      if returns_last_arg name ct then
        (fix back (l : list Expr) : mut (Scope Monotonic) Monotonic :=
           match l with
           | [] => fun _ => Err (UB "back of an empty vector")
           | [arg] => visit arg
           | _ :: l => back l
           end) args
      else
        (fix go (l : list Expr) : mut (Scope Monotonic) Monotonic :=
           match l with
           | [] => mret Constant
           | arg :: l =>
               result ← visit arg;
               if bool_decide (result = Constant) then go l else mret Unknown
           end) args
  | Let name value body =>
      result ← visit value;
      if bool_decide (result = Constant) then visit body
      else
        _ ← push name result;
        r ← visit body;
        _ ← pop name;
        mret r
  end.

(** The methods for statements. *)
Definition visit_statement (s : Stmt) : mut (Scope Monotonic) Monotonic := visitor_error "Monotonic of statement".
End Visitor.

Definition is_monotonic (can_prove : Expr -> bool) (e : ExprRef) (var : string) : res Monotonic :=
  match e with
  | None => Ok Unknown
  | Some e => r ← visit can_prove var e scope_new; Ok (fst r)
  end.

(** * The test of the source

    Its prover must know the inequalities between linear expressions of one
    variable. *)
Fixpoint first_var (e : Expr) : option string :=
  match e with
  | Var _ n _ _ _ => Some n
  | Bin _ a b => match first_var a with Some n => Some n | None => first_var b end
  | _ => None
  end.

(** [e = k * x + c] *)
Fixpoint linear (x : string) (e : Expr) : option (Z * Z) :=
  if bool_decide (type e = Int 32 1) then
    match e with
    | IntImm _ c => Some (0, c)
    | Var _ n _ _ _ => if bool_decide (n = x) then Some (1, 0) else None
    | Bin Add a b => '(k, c) ← linear x a; '(k', c') ← linear x b; Some (k + k', c + c')
    | Bin Sub a b => '(k, c) ← linear x a; '(k', c') ← linear x b; Some (k - k', c - c')
    | Bin Mul a (IntImm _ i) => '(k, c) ← linear x a; Some (k * i, c * i)
    | _ => None
    end
  else None.

Definition linear_ge (a b : Expr) : bool :=
  match (x ← first_var (Bin Sub a b); '(k, c) ← linear x a; '(k', c') ← linear x b; Some (k - k', c - c')) with
  | Some (k, c) => (k =? 0) && (0 <=? c)
  | None => false
  end.

Definition linear_prover (e : Expr) : bool :=
  match e with
  | Bin GE a b => linear_ge a b
  | Bin LE a b => linear_ge b a
  | _ => false
  end.

Definition monotonic_check (m : Monotonic) (e : Expr) : bool :=
  bool_decide (is_monotonic linear_prover (eref e) "x" = Ok m).

Definition is_monotonic_test : bool :=
  let x := Var (Int 32 1) "x" None None None in
  let y := Var (Int 32 1) "y" None None None in
  let c v := IntImm (Int 32 1) v in
  let neg e := Bin Sub (c 0) e in
  let check_increasing := monotonic_check Increasing in
  let check_decreasing := monotonic_check Decreasing in
  let check_unknown := monotonic_check Unknown in
  let check_constant := monotonic_check Constant in
  check_increasing x
  && check_increasing (Bin Add x (c 4))
  && check_increasing (Bin Add x y)
  && check_increasing (Bin Mul x (c 4))
  && check_increasing (Bin Min (Bin Add x (c 4)) (Bin Add y (c 4)))
  && check_increasing (Bin Max (Bin Add x y) (Bin Sub x y))
  && check_increasing (Bin GE x y)
  && check_increasing (Bin GT x y)
  && check_decreasing (neg x)
  && check_decreasing (Bin Mul x (c (-4)))
  && check_decreasing (Bin Sub y x)
  && check_decreasing (Bin LT x y)
  && check_decreasing (Bin LE x y)
  && check_unknown (Bin EQ x y)
  && check_unknown (Bin NE x y)
  && check_unknown (Bin Mul x y)
  && check_increasing (Select (Bin EQ y (c 2)) x (Bin Add x (c 4)))
  && check_decreasing (Select (Bin EQ y (c 2)) (neg x) (Bin Mul x (c (-4))))
  && check_increasing (Select (Bin GT x (c 2)) (Bin Add x (c 1)) x)
  && check_increasing (Select (Bin LT x (c 2)) x (Bin Add x (c 1)))
  && check_decreasing (Select (Bin GT x (c 2)) (Bin Sub (neg x) (c 1)) (neg x))
  && check_decreasing (Select (Bin LT x (c 2)) (neg x) (Bin Sub (neg x) (c 1)))
  && check_unknown (Select (Bin LT x (c 2)) x (Bin Sub x (c 5)))
  && check_unknown (Select (Bin GT x (c 2)) (Bin Sub x (c 5)) x)
  && check_constant y
  && check_increasing (Select (Bin LT x (c 17)) y (Bin Add y (c 1)))
  && check_increasing (Select (Bin GT x (c 17)) y (Bin Sub y (c 1)))
  && check_decreasing (Select (Bin LT x (c 17)) y (Bin Sub y (c 1)))
  && check_decreasing (Select (Bin GT x (c 17)) y (Bin Add y (c 1)))
  && check_increasing (Select (Bin EQ (Bin Mod x (c 2)) (c 0)) (Bin Add x (c 3)) (Bin Add x (c 3)))
  && check_constant (Select (Bin GT y (c 3)) (Bin Add y (c 23)) (Bin Sub y (c 65))).

Example is_monotonic_test_passes : is_monotonic_test = true.
Proof. vm_compute. reflexivity. Qed.

(** * How two values relate

    [v] and [w] are the values of one expression before and after the variable
    grows. *)
Definition scalar_le (a b : scalar) : Prop :=
  a = b \/ exists x y, a = VInt x /\ b = VInt y /\ x <= y.

Definition lane_rel (m : Monotonic) (a b : scalar) : Prop :=
  match m with
  | Constant => a = b
  | Increasing => scalar_le a b
  | Decreasing => scalar_le b a
  | Unknown => True
  end.

Definition value_rel (m : Monotonic) (v w : value) : Prop :=
  match m with Unknown => True | _ => Forall2 (lane_rel m) v w end.

Lemma scalar_le_refl a : scalar_le a a.
Proof. by left. Qed.

Lemma scalar_le_VInt x y : scalar_le (VInt x) (VInt y) <-> x <= y.
Proof.
  split.
  - intros [[= ->]|(? & ? & [= ->] & [= ->] & ?)]; [lia|done].
  - intros H. right. eauto.
Qed.

Lemma lane_rel_refl m a : lane_rel m a a.
Proof. destruct m; simpl; try done; apply scalar_le_refl. Qed.

Lemma value_rel_refl m v : value_rel m v v.
Proof. destruct m; simpl; try done; apply Reflexive_instance_0; intros a; apply (lane_rel_refl _ a). Qed.

Lemma value_rel_Forall2 m v w : m <> Unknown -> value_rel m v w <-> Forall2 (lane_rel m) v w.
Proof. by destruct m. Qed.

Lemma flip_Unknown m : flip m = Unknown <-> m = Unknown.
Proof. by destruct m. Qed.

Lemma lane_rel_flip m a b : lane_rel (flip m) a b <-> lane_rel m b a.
Proof. destruct m; simpl; done. Qed.

Lemma value_rel_flip m v w : value_rel (flip m) v w <-> value_rel m w v.
Proof.
  destruct m; simpl; try done; split; intros H; apply Forall2_flip; (eapply Forall2_impl; [exact H|]);
    by intros ?? ?.
Qed.

(** An answer covers another when it claims no more. *)
Lemma lane_rel_unify_l a b x y : unify a b <> Unknown -> lane_rel a x y -> lane_rel (unify a b) x y.
Proof. unfold unify. destruct a, b; simpl; intros ? H; try done; rewrite H; apply scalar_le_refl. Qed.

Lemma lane_rel_unify_r a b x y : unify a b <> Unknown -> lane_rel b x y -> lane_rel (unify a b) x y.
Proof. unfold unify. destruct a, b; simpl; intros ? H; try done; rewrite H; apply scalar_le_refl. Qed.

Lemma value_rel_unify_l a b x y : value_rel a x y -> value_rel (unify a b) x y.
Proof.
  destruct (decide (unify a b = Unknown)) as [->|Hu]; [done|]. intros H.
  assert (a <> Unknown) by (intros ->; by destruct b). rewrite value_rel_Forall2 in H |- * by done.
  eapply Forall2_impl; [exact H|]. intros. by apply lane_rel_unify_l.
Qed.

Lemma value_rel_unify_r a b x y : value_rel b x y -> value_rel (unify a b) x y.
Proof.
  destruct (decide (unify a b = Unknown)) as [->|Hu]; [done|]. intros H.
  assert (b <> Unknown) by (intros ->; by destruct a). rewrite value_rel_Forall2 in H |- * by done.
  eapply Forall2_impl; [exact H|]. intros. by apply lane_rel_unify_r.
Qed.

(** A lane-wise operation relates its results when it does so on each lane. *)
Lemma zip_rel ma mb m (f : scalar -> scalar -> option scalar) a a' b b' c c' :
  (m <> Unknown -> ma <> Unknown /\ mb <> Unknown) ->
  (forall x x' y y' z z', x ∈ a -> x' ∈ a' -> y ∈ b -> y' ∈ b' -> lane_rel ma x x' -> lane_rel mb y y' ->
     f x y = Some z -> f x' y' = Some z' -> lane_rel m z z') ->
  value_rel ma a a' -> value_rel mb b b' ->
  zip_with_M f a b = Some c -> zip_with_M f a' b' = Some c' -> value_rel m c c'.
Proof.
  intros Hk. destruct (decide (m = Unknown)) as [->|Hm]; [done|]. destruct (Hk Hm) as [Hma Hmb].
  rewrite !value_rel_Forall2 by done. clear Hk.
  intros Hf Ha. revert b b' c c' Hf. induction Ha as [|x x' a a' Hx Ha IH];
    intros b b' c c' Hf Hb H H'; destruct Hb as [|y y' b b' Hy Hb]; simpl in H, H'; try done.
  - injection H as <-. injection H' as <-. constructor.
  - inv_res. constructor.
    + by apply (Hf x x' y y'); [apply list_elem_of_here..| | | |].
    + eapply IH; try eassumption. intros u u' v v' w w' ????. apply (Hf u u' v v' w w'); by apply list_elem_of_further.
Qed.

Lemma mapM_rel ma m (f : scalar -> option scalar) a a' c c' :
  (m <> Unknown -> ma <> Unknown) ->
  (forall x x' z z', x ∈ a -> x' ∈ a' -> lane_rel ma x x' -> f x = Some z -> f x' = Some z' -> lane_rel m z z') ->
  value_rel ma a a' -> mapM f a = Some c -> mapM f a' = Some c' -> value_rel m c c'.
Proof.
  intros Hk. destruct (decide (m = Unknown)) as [->|Hm]; [done|]. specialize (Hk Hm).
  rewrite !value_rel_Forall2 by done. intros Hf Ha. revert c c' Hf.
  induction Ha as [|x x' a a' Hx Ha IH]; intros c c' Hf H H'; simpl in H, H'.
  - injection H as <-. injection H' as <-. constructor.
  - inv_res. unfold mret, option_ret in *. simplify_eq. constructor.
    + by apply (Hf x x'); [apply list_elem_of_here..| | |].
    + eapply IH; try eassumption. intros u u' w w' ??. apply (Hf u u' w w'); by apply list_elem_of_further.
Qed.

(** ** On integers *)
Definition int_rel (m : Monotonic) (x y : Z) : Prop :=
  match m with Constant => x = y | Increasing => x <= y | Decreasing => y <= x | Unknown => True end.

Lemma lane_rel_VInt m x y : lane_rel m (VInt x) (VInt y) <-> int_rel m x y.
Proof. destruct m; simpl; rewrite ?scalar_le_VInt; [|done..]. split; [by intros [= ->]|by intros ->]. Qed.

Lemma ediv_mono b x y : 0 < b -> x <= y -> ediv x b <= ediv y b.
Proof. intros Hb H. rewrite !ediv_pos by done. by apply Z.div_le_mono. Qed.
Lemma ediv_anti b x y : b < 0 -> x <= y -> ediv y b <= ediv x b.
Proof. intros Hb H. rewrite !ediv_neg by done. pose proof (Z.div_le_mono x y (- b) ltac:(lia) H). lia. Qed.

Definition zero_one (z : Z) : Prop := z = 0 \/ z = 1.

(** The sign tests on a constant operand are right, and its answer is [Constant]. *)
Definition sign_right (a : Expr) (ra : Monotonic) (x : Z) : Prop :=
  (is_positive_const a = true -> ra = Constant /\ 0 < x) /\
  (is_negative_const a = true -> ra = Constant /\ x < 0).

(** Each operation, its results not overflowing. *)
Definition exact_binop (op : binop) (x y : Z) : option Z :=
  match op with
  | Add => Some (x + y) | Sub => Some (x - y) | Mul => Some (x * y)
  | Div => if y =? 0 then None else Some (ediv x y)
  | Mod => None
  | _ => int_binop Strict op (Int 32 1) x y
  end.

Lemma mul_rel a b ra rb x x' y y' :
  sign_right a ra x -> sign_right b rb y -> int_rel ra x x' -> int_rel rb y y' ->
  int_rel (mul_result a b ra rb) (x * y) (x' * y').
Proof.
  unfold sign_right, mul_result. intros [Pa Na] [Pb Nb] Hx Hy.
  destruct (both_constant ra rb) eqn:E.
  { unfold both_constant in E. bool_to_prop. simplify_eq. simpl in *. by subst. }
  destruct (is_positive_const a); [destruct (Pa eq_refl) as [-> ?]; simpl in Hx; subst; destruct rb; simpl in *; nia|].
  destruct (is_positive_const b); [destruct (Pb eq_refl) as [-> ?]; simpl in Hy; subst; destruct ra; simpl in *; nia|].
  destruct (is_negative_const a); [destruct (Na eq_refl) as [-> ?]; simpl in Hx; subst; destruct rb; simpl in *; nia|].
  destruct (is_negative_const b); [destruct (Nb eq_refl) as [-> ?]; simpl in Hy; subst; destruct ra; simpl in *; nia|].
  done.
Qed.

Lemma div_rel b ra rb x x' y y' :
  sign_right b rb y -> int_rel ra x x' -> int_rel rb y y' ->
  int_rel (div_result b ra rb) (ediv x y) (ediv x' y').
Proof.
  unfold sign_right, div_result. intros [Pb Nb] Hx Hy.
  destruct (both_constant ra rb) eqn:E.
  { unfold both_constant in E. bool_to_prop. simplify_eq. simpl in *. by subst. }
  destruct (is_positive_const b).
  { destruct (Pb eq_refl) as [-> ?]. simpl in Hy. subst.
    destruct ra; simpl in *; subst; try done; by apply ediv_mono. }
  destruct (is_negative_const b); [|done].
  destruct (Nb eq_refl) as [-> ?]. simpl in Hy. subst.
  destruct ra; simpl in *; subst; try done; by apply ediv_anti.
Qed.

Lemma b2z_le (b c : bool) : Z.b2z b <= Z.b2z c <-> (b = true -> c = true).
Proof. destruct b, c; simpl; intuition (done || lia). Qed.

Lemma bin_rel op a b ra rb x x' y y' z z' :
  (op = Mul -> sign_right a ra x) -> (op = Mul \/ op = Div -> sign_right b rb y) ->
  (is_logical op = true -> zero_one x /\ zero_one x' /\ zero_one y /\ zero_one y') ->
  int_rel ra x x' -> int_rel rb y y' -> exact_binop op x y = Some z -> exact_binop op x' y' = Some z' ->
  int_rel (bin_result op a b ra rb) z z'.
Proof.
  intros Sa Sb Hl Hx Hy Hz Hz'. destruct op; cbn [exact_binop int_binop bin_result] in *; inv_res.
  - unfold unify. destruct ra, rb; simpl in *; lia.
  - unfold unify. destruct ra, rb; simpl in *; lia.
  - apply mul_rel; auto.
  - destruct (Z.eqb_spec y 0), (Z.eqb_spec y' 0); inv_res. apply div_rel; auto.
  - unfold unify. destruct ra, rb; simpl in *; lia.
  - unfold unify. destruct ra, rb; simpl in *; lia.
  - destruct ra, rb; simpl in *; by subst.
  - destruct ra, rb; simpl in *; by subst.
  - unfold lt_result, unify. destruct ra, rb; simpl in *; subst; rewrite ?b2z_le, ?Z.ltb_lt; lia.
  - unfold lt_result, unify. destruct ra, rb; simpl in *; subst; rewrite ?b2z_le, ?Z.leb_le; lia.
  - unfold lt_result, unify. destruct ra, rb; simpl in *; subst; rewrite ?b2z_le, ?Z.ltb_lt; lia.
  - unfold lt_result, unify. destruct ra, rb; simpl in *; subst; rewrite ?b2z_le, ?Z.leb_le; lia.
  - destruct (Hl eq_refl) as ([-> | ->] & [-> | ->] & [-> | ->] & [-> | ->]);
      unfold unify; destruct ra, rb; simpl in *; lia.
  - destruct (Hl eq_refl) as ([-> | ->] & [-> | ->] & [-> | ->] & [-> | ->]);
      unfold unify; destruct ra, rb; simpl in *; lia.
Qed.

Lemma bin_result_known op a b ra rb :
  (is_positive_const a || is_negative_const a = true -> ra = Constant) ->
  (is_positive_const b || is_negative_const b = true -> rb = Constant) ->
  bin_result op a b ra rb <> Unknown -> ra <> Unknown /\ rb <> Unknown.
Proof.
  intros Ha Hb H. split; intros ->; apply H; clear H; destruct op; simpl;
    unfold mul_result, div_result, lt_result, eq_result, both_constant, unify;
    repeat match goal with
    | |- context [is_positive_const ?e] => destruct (is_positive_const e)
    | |- context [is_negative_const ?e] => destruct (is_negative_const e)
    end; simpl in *; rewrite ?Ha, ?Hb by done;
    repeat match goal with m : Monotonic |- _ => destruct m end;
    done || (by specialize (Ha eq_refl)) || (by specialize (Hb eq_refl)).
Qed.

(** ** The selection of a lane *)
Lemma select_lane (ge le : bool) rcond ra rb (b b' : bool) t t' f f' :
  int_rel rcond (Z.b2z b) (Z.b2z b') -> int_rel ra t t' -> int_rel rb f f' ->
  (ge = true -> f <= t /\ f' <= t') -> (le = true -> t <= f /\ t' <= f') ->
  int_rel (if bool_decide (rcond = Constant) then unify ra rb else select_answer ge le rcond ra rb)
    (if b then t else f) (if b' then t' else f').
Proof.
  intros Hc Ht Hf Hge Hle. unfold select_answer, unify. destruct ge, le;
    try specialize (Hge eq_refl); try specialize (Hle eq_refl); simpl;
    destruct rcond, ra, rb, b, b'; simpl in *; try done; lia.
Qed.

(** * The hypotheses of the soundness theorem *)

Fixpoint all_nodes (P : Expr -> bool) (e : Expr) : bool :=
  P e &&
  match e with
  | IntImm _ _ | UIntImm _ _ | FloatImm _ _ | StringImm _ | Var _ _ _ _ _ => true
  | Cast _ v | Not v | Broadcast v _ | Load _ _ v _ _ => all_nodes P v
  | Bin _ a b | Ramp a b _ | Let _ a b => all_nodes P a && all_nodes P b
  | Select c t f => all_nodes P c && all_nodes P t && all_nodes P f
  | Call _ _ args _ _ _ _ _ => forallb (all_nodes P) args
  end.

(** A constant operand whose sign the analysis reads through its casts. *)
Definition sign_readable (a : Expr) : bool :=
  negb (is_positive_const a || is_negative_const a) || widening_casts a.

(** The node is of an integer type, and its operation is exact: always so under
    [Strict]; under the compiler's contract ([Ideal]) when its arithmetic is on
    signed integers of 32 bits or more and it is no cast between types of 32 bits
    or more that may lose information. *)
Definition exact_node (p : overflow) (e : Expr) : bool :=
  (is_int (type e) || is_uint (type e)) &&
  match p with
  | Strict => true
  | Machine => false
  | Ideal =>
      match e with
      | Bin (Add | Sub) a _ => unbounded (type a)
      | Bin Mul a b => unbounded (type a) && sign_readable a && sign_readable b
      | Bin Div a b => unbounded (type a) && sign_readable b
      | Cast t v => can_represent t (type v) || negb ((32 <=? bits (type v)) && (32 <=? bits t))
      | _ => true
      end
  end.

(** What the analysis relies on of the simplifier: an expression it proves is true
    whatever the values of its variables. *)
Class Prover (p : overflow) (can_prove : Expr -> bool) : Prop :=
  prover_sound : forall Γ ρ e v, wf e -> typed Γ e -> env_ok p Γ ρ ->
    can_prove e = true -> eval p ρ e = Some v -> Forall (fun s => truthy s = Some true) v.

(** * The analysis is right *)
Section Sound.
Context (p : overflow) (can_prove : Expr -> bool) (var : string).

Notation visit := (visit can_prove var).
Notation exact := (all_nodes (exact_node p)).

(** What is known of a variable. *)
Definition known (s : Scope Monotonic) (n : string) : Monotonic :=
  if bool_decide (n = var) then Increasing
  else match scope_get s n with Ok m => m | Err _ => Constant end.

Lemma visit_Variable_known s n : visit_Variable var n s = Ok (known s n, s).
Proof.
  unfold visit_Variable, known. case_bool_decide; [done|].
  pose proof (scope_get_contains s n) as Hc. destruct (scope_contains s n).
  - destruct (scope_get s n); [done|]. by discriminate (proj1 Hc eq_refl).
  - destruct (scope_get s n); [|done]. by discriminate (proj2 Hc eq_refl).
Qed.

Record agree (s : Scope Monotonic) (ρ ρ' : env) : Prop := {
  agree_mem : mem ρ = mem ρ';
  agree_fn : fn ρ = fn ρ';
  agree_vars : forall n v w, vars ρ !! n = Some v -> vars ρ' !! n = Some w -> value_rel (known s n) v w
}.

Ltac inv_mut :=
  repeat match goal with
  | H : @mbind (mut _) _ _ _ _ _ _ = Ok _ |- _ => apply mut_bind_Ok in H; destruct H as (? & ? & ? & H)
  | H : @mret (mut _) _ _ _ _ = Ok _ |- _ => apply mut_ret_Ok in H; try injection H as H
  | H : visitor_error _ _ = Ok _ |- _ => discriminate H
  end.

(** ** The two kinds of calls *)
Fixpoint visit_back (l : list Expr) : mut (Scope Monotonic) Monotonic :=
  match l with
  | [] => fun _ => Err (UB "back of an empty vector")
  | [arg] => visit arg
  | _ :: l => visit_back l
  end.
Fixpoint visit_all (l : list Expr) : mut (Scope Monotonic) Monotonic :=
  match l with
  | [] => mret Constant
  | arg :: l => result ← visit arg; if bool_decide (result = Constant) then visit_all l else mret Unknown
  end.

Lemma visit_Call t n args ct f vi i q :
  visit (Call t n args ct f vi i q) = if returns_last_arg n ct then visit_back args else visit_all args.
Proof. reflexivity. Qed.

Lemma visit_back_last args s r : visit_back args s = Ok r -> exists a, last args = Some a /\ visit a s = Ok r.
Proof.
  induction args as [|a [|b args] IH]; [done|by exists a|]. intros H. apply IH in H. exact H.
Qed.

(** The operands of a binary node, in the order they are visited. *)
Lemma visit_Bin op a b s m s' : visit (Bin op a b) s = Ok (m, s') ->
  (op = Mod /\ m = Unknown /\ s' = s) \/
  exists ra rb s1, m = bin_result op a b ra rb /\
    ((visit a s = Ok (ra, s1) /\ visit b s1 = Ok (rb, s')) \/ (visit b s = Ok (rb, s1) /\ visit a s1 = Ok (ra, s'))).
Proof.
  intros H. destruct op; simpl in H; inv_mut; subst; eauto 12.
Qed.

(** Leaving a let restores the scope. *)
Ltac use_scope_IH :=
  repeat match goal with
  | IH : forall sc m sc', scope_wf sc -> ?v ?e sc = Ok (m, sc') -> sc' = sc, H : ?v ?e ?s = Ok (_, ?s') |- _ =>
      tryif constr_eq s s' then fail else (apply IH in H; [subst s'|assumption])
  end.

Lemma visit_all_scope args :
  Forall (fun a => forall sc m sc', scope_wf sc -> visit a sc = Ok (m, sc') -> sc' = sc) args ->
  forall sc m sc', scope_wf sc -> visit_all args sc = Ok (m, sc') -> sc' = sc.
Proof.
  induction 1 as [|a l Ha Hl IHl]; intros sc m sc' Hs Hv; simpl in Hv; inv_mut; [done|].
  use_scope_IH. case_bool_decide; [by apply IHl in Hv|]. by inv_mut.
Qed.

Lemma visit_scope e sc m sc' : scope_wf sc -> visit e sc = Ok (m, sc') -> sc' = sc.
Proof.
  revert sc m sc'. induction e using Expr_ind'; intros sc m sc' Hs Hv.
  all: try (simpl in Hv; inv_mut; use_scope_IH; by simplify_eq).
  - simpl in Hv. rewrite visit_Variable_known in Hv. by injection Hv.
  - apply visit_Bin in Hv as [(-> & -> & ->)|(ra & rb & s1 & -> & [[Ha Hb]|[Hb Ha]])]; by use_scope_IH.
  - simpl in Hv. inv_mut. use_scope_IH. by apply lift_Ok in Hv as [_ ->].
  - rewrite visit_Call in Hv. destruct (returns_last_arg _ _).
    + apply visit_back_last in Hv as (a & Ha & Hv). rewrite Forall_forall in H.
      eapply H; [|done|exact Hv]. by eapply list_elem_of_lookup_2; rewrite <- last_lookup.
    + by eapply visit_all_scope.
  - simpl in Hv. apply mut_bind_Ok in Hv as (r & s1 & Hv & Hb). apply IHe1 in Hv as ->; [|done].
    case_bool_decide; [by eapply IHe2|].
    apply mut_bind_Ok in Hb as (u & s2 & [= <- <-] & Hb). apply mut_bind_Ok in Hb as (r' & s3 & Hb & Hp).
    apply IHe2 in Hb as ->; [|by apply scope_push_wf].
    apply mut_bind_Ok in Hp as (u' & s4 & Hp & Hr). unfold pop in Hp. rewrite scope_pop_push in Hp by done.
    simpl in Hp. inv_mut. by simplify_eq.
Qed.

(** ** Lanes of integer expressions *)
Lemma value_VInts t v : is_int t || is_uint t = true -> value_ok p t v -> exists zs, v = VInt <$> zs.
Proof.
  intros Ht [_ Hv]. induction Hv as [|s v Hs Hv [zs ->]]; [by exists []|].
  destruct s as [z|f|s|z]; simpl in Hs; [by exists (z :: zs)|exfalso..].
  - by rewrite (int_or_uint_not_float _ Ht) in Hs.
  - by rewrite (int_or_uint_not_handle _ Ht) in Hs.
  - by rewrite (int_or_uint_not_handle _ Ht) in Hs.
Qed.

Lemma ov_result_exact t x z :
  p = Strict \/ p = Ideal /\ unbounded t = true -> ov_result p t x = Some z -> z = x.
Proof.
  intros [-> | [-> Hu]]; simpl; [destruct (representable t x); naive_solver|].
  rewrite Hu. naive_solver.
Qed.

Lemma exact_node_policy e : exact_node p e = true -> p = Strict \/ p = Ideal.
Proof. unfold exact_node. destruct p; rewrite ?andb_false_r; [done|by right|by left]. Qed.

Lemma exact_node_int e : exact_node p e = true -> is_int (type e) || is_uint (type e) = true.
Proof. unfold exact_node. by intros [H _]%andb_true_iff. Qed.

Lemma int_binop_exact op a b x y z :
  op <> Mod -> exact_node p (Bin op a b) = true -> int_binop p op (type a) x y = Some z ->
  exact_binop op x y = Some z.
Proof.
  intros Hop He H. assert (Ha : (op = Add \/ op = Sub \/ op = Mul \/ op = Div) ->
    p = Strict \/ p = Ideal /\ unbounded (type a) = true).
  { intros Ho. destruct (exact_node_policy _ He) as [->|Hp]; [by left|right]. split; [done|].
    unfold exact_node in He. rewrite Hp in He.
    destruct Ho as [->|[->|[->| ->]]]; rewrite ?andb_true_iff in He; tauto. }
  destruct op; cbn [int_binop exact_binop] in *; try done;
    try (apply ov_result_exact in H; [by subst|apply Ha; tauto]).
  destruct (y =? 0); [done|]. apply ov_result_exact in H; [by subst|apply Ha; tauto].
Qed.

Lemma cast_int_exact src dst x z :
  p = Strict \/ p = Ideal /\ can_represent dst src = true -> cast_int p src dst x = Some z -> z = x.
Proof.
  intros [-> | [-> Hc]]; simpl; [destruct (representable dst x); naive_solver|].
  rewrite Hc. naive_solver.
Qed.

Lemma cast_rel t e m x x' z z' : exact_node p (Cast t e) = true -> int_rel m x x' ->
  cast_int p (type e) t x = Some z -> cast_int p (type e) t x' = Some z' ->
  int_rel (cast_result t (type e) m) z z'.
Proof.
  intros He Hm Hz Hz'. unfold cast_result.
  assert (Hp : p = Strict \/ p = Ideal /\ can_represent t (type e) = true \/
    can_represent t (type e) = false /\ (32 <=? bits (type e)) && (32 <=? bits t) = false).
  { destruct (exact_node_policy _ He) as [->|Hp]; [by left|right]. unfold exact_node in He. rewrite Hp in He.
    apply andb_true_iff in He as [_ He]. destruct (can_represent t (type e)); [by left|right].
    by apply negb_true_iff in He. }
  assert (Hx : p = Strict \/ p = Ideal /\ can_represent t (type e) = true ->
    int_rel m z z').
  { intros H. apply cast_int_exact in Hz as ->; [|done]. by apply cast_int_exact in Hz' as ->. }
  destruct (decide (m = Constant)) as [->|Hm'].
  { simpl in Hm. subst. assert (z = z') as -> by congruence.
    destruct (can_represent _ _), (_ && _); done. }
  rewrite (bool_decide_eq_false_2 _ Hm').
  destruct Hp as [Hp|[Hp|[-> ->]]]; [| |done];
    destruct (can_represent t (type e)), ((32 <=? bits (type e)) && (32 <=? bits t)); try done; apply Hx; tauto.
Qed.

(** ** Operands that are constants *)
Lemma const_visit a sc m sc' :
  is_positive_const a || is_negative_const a = true -> visit a sc = Ok (m, sc') -> m = Constant.
Proof.
  revert m sc'. induction a using Expr_ind'; intros m sc' Hc Hv; simpl in Hc, Hv; try done.
  1-3: by apply mut_ret_Ok in Hv as [= -> _].
  apply mut_bind_Ok in Hv as (r & s1 & Hv & Hr). apply mut_ret_Ok in Hr as [= -> _].
  apply IHa in Hv as ->; [|done]. unfold cast_result.
  by destruct (can_represent t (type a)), ((32 <=? bits (type a)) && (32 <=? bits t)).
Qed.

Lemma const_sign a sc m sc' ρ v :
  wf a -> exact a = true -> p = Strict \/ p = Ideal /\ sign_readable a = true ->
  visit a sc = Ok (m, sc') -> is_positive_const a || is_negative_const a = true -> eval p ρ a = Some v ->
  exists x, v = [VInt x] /\ (is_positive_const a = true -> 0 < x) /\ (is_negative_const a = true -> x < 0).
Proof.
  intros Hwf He Hp Hv Hc Hev. assert (Hp' : p = Strict \/ p = Ideal /\ widening_casts a = true).
  { unfold sign_readable in Hp. by rewrite Hc in Hp. }
  clear Hp. revert m sc' v Hwf He Hp' Hv Hc Hev.
  induction a using Expr_ind'; intros m sc' v0 Hwf He Hp' Hv Hc Hev; try done.
  - injection Hev as <-. eexists. split; [done|]. simpl. by rewrite !Z.ltb_lt.
  - injection Hev as <-. eexists. split; [done|]. simpl. by rewrite !Z.ltb_lt.
  - simpl in He. rewrite andb_true_r in He. apply exact_node_int in He. simpl in He.
    destruct Hwf as [[Hf _] _]. rewrite !andb_true_iff in Hf. destruct Hf as [[Hf _] _].
    by rewrite (int_or_uint_not_float _ He) in Hf.
  - cbn [all_nodes] in He. apply andb_true_iff in He as [He Hea].
    apply exact_node_int in He. simpl in He, Hp'. simpl in Hv. inv_mut.
    destruct Hwf as [_ Hwf]. cbn [eval] in Hev. apply bind_Some in Hev as (w & Hw & Hev).
    destruct (IHa _ _ _ Hwf Hea ltac:(rewrite andb_true_iff in Hp'; tauto) ltac:(eassumption) Hc Hw)
      as (y & -> & Hy). simpl in Hev. rewrite He in Hev.
    destruct (cast_int p (type a) t y) as [z|] eqn:Hz; [|done]. simpl in Hev. injection Hev as <-.
    exists z. split; [done|].
    apply cast_int_exact in Hz as ->; [exact Hy|]. rewrite andb_true_iff in Hp'. tauto.
Qed.

(** ** The nodes *)
Lemma is_bool_uint t : is_bool t = true -> is_uint t = true /\ bits t = 1.
Proof. unfold is_bool. intros H. apply andb_true_iff in H as [H1 H2]. split; [done|]. by apply Z.eqb_eq. Qed.

Lemma bool_zero_one t z : is_bool t = true -> scalar_ok p t (VInt z) -> zero_one z.
Proof.
  intros [Hu Hb]%is_bool_uint [_ Hz]. pose proof (uint_not_int _ Hu) as Hi.
  assert (Hr : representable t z = true).
  { destruct p; [exact Hz| |exact Hz]. destruct Hz as [Hz|Hz]; [|done]. unfold unbounded in Hz. by rewrite Hi in Hz. }
  unfold representable in Hr. rewrite Hi, Hu, Hb in Hr. bool_to_prop. unfold in_urange, zero_one in *. simpl in Hr. lia.
Qed.

Lemma value_zero_one t v z : is_bool t = true -> value_ok p t v -> VInt z ∈ v -> zero_one z.
Proof. intros Hb [_ Hv] Hz. rewrite Forall_forall in Hv. by eapply bool_zero_one, Hv. Qed.

Lemma value_lane_int t v s : is_int t || is_uint t = true -> value_ok p t v -> s ∈ v -> exists z, s = VInt z.
Proof.
  intros Ht Hv Hs. destruct (value_VInts _ _ Ht Hv) as [zs ->]. apply list_elem_of_fmap in Hs as (z & -> & _).
  by exists z.
Qed.

(** What [const_visit] and [const_sign] say of an operand. *)
Definition sign_fact (a : Expr) (ra : Monotonic) (va : value) : Prop :=
  is_positive_const a || is_negative_const a = true ->
  ra = Constant /\
  (p = Strict \/ p = Ideal /\ sign_readable a = true ->
   exists x, va = [VInt x] /\ (is_positive_const a = true -> 0 < x) /\ (is_negative_const a = true -> x < 0)).

Lemma sign_fact_right a ra va x :
  sign_fact a ra va -> p = Strict \/ p = Ideal /\ sign_readable a = true -> VInt x ∈ va -> sign_right a ra x.
Proof.
  unfold sign_fact, sign_right. intros H Hp Hx. split; intros Hs; rewrite Hs, ?orb_true_r in H;
    destruct (H eq_refl) as [-> Hf]; destruct (Hf Hp) as (y & -> & Hpos & Hneg);
    apply elem_of_cons in Hx as [[= ->]|Hx]; (by apply elem_of_nil in Hx) || auto.
Qed.

Lemma bin_node op a b ra rb va va' vb vb' v v' :
  op <> Mod -> wf_node (Bin op a b) -> exact_node p (Bin op a b) = true ->
  is_int (type a) || is_uint (type a) = true -> is_int (type b) || is_uint (type b) = true ->
  value_ok p (type a) va -> value_ok p (type a) va' -> value_ok p (type b) vb -> value_ok p (type b) vb' ->
  sign_fact a ra va -> sign_fact b rb vb -> value_rel ra va va' -> value_rel rb vb vb' ->
  zip_with_M (eval_binop p op (type a)) va vb = Some v ->
  zip_with_M (eval_binop p op (type a)) va' vb' = Some v' ->
  value_rel (bin_result op a b ra rb) v v'.
Proof.
  intros Hop [_ Hlog] He Hta Htb Ha Ha' Hb Hb' Sa Sb Ra Rb Hv Hv'.
  eapply (zip_rel ra rb) with (3 := Ra) (4 := Rb) (5 := Hv) (6 := Hv').
  { apply bin_result_known; intros Hc; [by apply Sa in Hc as [-> _]|by apply Sb in Hc as [-> _]]. }
  intros x x' y y' z z' Hx Hx' Hy Hy' Rx Ry Hz Hz'.
  destruct (value_lane_int _ _ _ Hta Ha Hx) as [i ->], (value_lane_int _ _ _ Hta Ha' Hx') as [i' ->],
    (value_lane_int _ _ _ Htb Hb Hy) as [j ->], (value_lane_int _ _ _ Htb Hb' Hy') as [j' ->].
  cbn [eval_binop] in Hz, Hz'. apply bind_Some in Hz as (k & Hz & [= <-]), Hz' as (k' & Hz' & [= <-]).
  apply int_binop_exact with (b := b) in Hz, Hz'; [|done..]. rewrite lane_rel_VInt in *.
  assert (Hp : forall c, (op = Mul /\ (c = a \/ c = b) \/ op = Div /\ c = b) ->
    p = Strict \/ p = Ideal /\ sign_readable c = true).
  { intros c Hc. destruct (exact_node_policy _ He) as [->|Hp]; [by left|right]. split; [done|].
    unfold exact_node in He. rewrite Hp in He. destruct Hc as [[-> [-> | ->]]|[-> ->]]; rewrite !andb_true_iff in He; tauto. }
  eapply (bin_rel op a b ra rb i i' j j'); try done.
  - intros ->. eapply sign_fact_right; [exact Sa|apply Hp; tauto|done].
  - intros Ho. eapply sign_fact_right; [exact Sb|apply Hp; destruct Ho as [-> | ->]; tauto|done].
  - intros Hl. destruct (Hlog Hl) as [Hba Hbb]. repeat split;
      [by apply (value_zero_one _ _ _ Hba Ha)|by apply (value_zero_one _ _ _ Hba Ha')
      |by apply (value_zero_one _ _ _ Hbb Hb)|by apply (value_zero_one _ _ _ Hbb Hb')].
Qed.

Lemma not_node a m va va' v v' :
  is_bool (type a) = true -> value_ok p (type a) va -> value_ok p (type a) va' -> value_rel m va va' ->
  mapM eval_not va = Some v -> mapM eval_not va' = Some v' -> value_rel (flip m) v v'.
Proof.
  intros Hb Ha Ha' R Hv Hv'. assert (Ht : is_int (type a) || is_uint (type a) = true).
  { apply is_bool_uint in Hb as [-> _]. apply orb_true_r. }
  eapply mapM_rel with (3 := R) (4 := Hv) (5 := Hv'); [by destruct m|].
  intros x x' z z' Hx Hx' Rx Hz Hz'.
  destruct (value_lane_int _ _ _ Ht Ha Hx) as [i ->], (value_lane_int _ _ _ Ht Ha' Hx') as [i' ->].
  injection Hz as <-. injection Hz' as <-. rewrite lane_rel_VInt in *.
  destruct (value_zero_one _ _ _ Hb Ha Hx) as [-> | ->], (value_zero_one _ _ _ Hb Ha' Hx') as [-> | ->];
    destruct m; simpl in *; lia.
Qed.

Lemma cast_node t e m va va' v v' :
  exact_node p (Cast t e) = true -> is_int (type e) || is_uint (type e) = true ->
  value_ok p (type e) va -> value_ok p (type e) va' -> value_rel m va va' ->
  mapM (cast_scalar p (type e) t) va = Some v -> mapM (cast_scalar p (type e) t) va' = Some v' ->
  value_rel (cast_result t (type e) m) v v'.
Proof.
  intros He Ht Ha Ha' R Hv Hv'.
  eapply mapM_rel with (3 := R) (4 := Hv) (5 := Hv').
  { unfold cast_result. intros H ->. by destruct (can_represent t (type e)), ((32 <=? bits (type e)) && (32 <=? bits t)). }
  intros x x' z z' Hx Hx' Rx Hz Hz'.
  destruct (value_lane_int _ _ _ Ht Ha Hx) as [i ->], (value_lane_int _ _ _ Ht Ha' Hx') as [i' ->].
  pose proof (exact_node_int _ He) as Hd. simpl in Hd. cbn [cast_scalar] in Hz, Hz'. rewrite Hd in Hz, Hz'.
  apply bind_Some in Hz as (k & Hz & [= <-]), Hz' as (k' & Hz' & [= <-]). rewrite lane_rel_VInt in *.
  by eapply cast_rel.
Qed.

(** ** [Select] *)
Definition select_value (vc vt vf : value) : option value :=
  match vc with
  | [x] => b ← truthy x; Some (if b : bool then vt else vf)
  | _ => select_lanes vc vt vf
  end.

(** The condition of a lane. *)
Definition lane_condition (vc : value) (i : nat) : option scalar :=
  match vc with [x] => Some x | _ => vc !! i end.

Lemma select_lanes_lookup vc vt vf v i s : select_lanes vc vt vf = Some v -> v !! i = Some s ->
  exists c b t f, vc !! i = Some c /\ truthy c = Some b /\ vt !! i = Some t /\ vf !! i = Some f /\
    s = (if b : bool then t else f).
Proof.
  revert vt vf v i. induction vc as [|c vc IH]; intros [|t vt] [|f vf] v i H Hi; simpl in H; try done.
  - injection H as <-. done.
  - apply bind_Some in H as (b & Hb & H). apply bind_Some in H as (rest & Hr & [= <-]).
    destruct i as [|i]; simpl in Hi; [injection Hi as <-; eauto 10|].
    destruct (IH _ _ _ i Hr Hi) as (c' & b' & t' & f' & ?). by exists c', b', t', f'.
Qed.

Lemma select_value_lookup vc vt vf v i s :
  length vt = length vf -> select_value vc vt vf = Some v -> v !! i = Some s ->
  exists c b t f, lane_condition vc i = Some c /\ truthy c = Some b /\ vt !! i = Some t /\ vf !! i = Some f /\
    s = (if b : bool then t else f).
Proof.
  intros Hl H Hi. destruct vc as [|x [|y vc]]; [by eapply select_lanes_lookup| |by eapply select_lanes_lookup].
  simpl in H. apply bind_Some in H as (b & Hb & [= <-]).
  assert (Hlt : (i < length vt)%nat). { apply lookup_lt_Some in Hi. destruct b; lia. }
  destruct (lookup_lt_is_Some_2 vt i Hlt) as [t Ht], (lookup_lt_is_Some_2 vf i ltac:(lia)) as [f Hf].
  exists x, b, t, f. repeat split; try done. by destruct b; simplify_eq.
Qed.

Lemma select_value_length vc vt vf v :
  length vt = length vf -> select_value vc vt vf = Some v -> length v = length vt.
Proof.
  intros Hl H. destruct vc as [|x [|y vc]]; cbn [select_value] in H.
  2: { apply bind_Some in H as (b & Hb & [= <-]). by destruct b. }
  all: by eapply (select_lanes_Forall (fun _ => True)) in H as [? _]; [|by apply Forall_forall..].
Qed.

Lemma value_rel_lookup m v w i x y : value_rel m v w -> v !! i = Some x -> w !! i = Some y -> lane_rel m x y.
Proof.
  destruct (decide (m = Unknown)) as [->|Hm]; [done|]. rewrite value_rel_Forall2 by done.
  intros H Hx Hy. by eapply Forall2_lookup_lr.
Qed.

Lemma lane_condition_rel m vc vc' i c c' :
  value_rel m vc vc' -> lane_condition vc i = Some c -> lane_condition vc' i = Some c' -> lane_rel m c c'.
Proof.
  destruct (decide (m = Unknown)) as [->|Hm]; [done|]. intros H. pose proof H as H2.
  rewrite value_rel_Forall2 in H2 by done.
  destruct H2 as [|x x' ? ? Hx [|y y' ? ? Hy H2]]; unfold lane_condition.
  - by eapply value_rel_lookup.
  - by intros [= <-] [= <-].
  - by eapply value_rel_lookup.
Qed.

Lemma lane_condition_in vc i c : lane_condition vc i = Some c -> c ∈ vc.
Proof.
  unfold lane_condition. destruct vc as [|x [|y vc]]; [done|intros [= <-]; apply list_elem_of_here|].
  by intros H%list_elem_of_lookup_2.
Qed.

(** The comparison the method asks the simplifier about. *)
Lemma operator_cmp_make (op : binop) mk nm t f : (op = GE /\ mk = GE_make \/ op = LE /\ mk = LE_make) ->
  is_int (type t) || is_uint (type t) = true -> type_eqb (type t) (type f) = true ->
  operator_ee mk nm (eref t) (eref f) = Ok (Bin op t f).
Proof.
  intros Hop Hi Ht. assert (Hf : is_handle (type t) = false) by by apply int_or_uint_not_handle.
  assert (Hf' : is_handle (type f) = false).
  { apply type_eqb_fields in Ht as (Hc & _). unfold is_handle in *. by rewrite <- Hc. }
  unfold operator_ee, both_defined, match_types. simpl. rewrite Hf, Hf', Ht. simpl.
  destruct Hop as [[-> ->]|[-> ->]]; unfold GE_make, LE_make, binary_make; simpl; by rewrite Ht.
Qed.
Lemma proved_lanes Γ ρ op t f vt vf i x y : Prover p can_prove ->
  op = GE \/ op = LE -> wf t -> wf f -> typed Γ t -> typed Γ f -> env_ok p Γ ρ ->
  is_int (type t) || is_uint (type t) = true -> is_int (type f) || is_uint (type f) = true ->
  type_eqb (type t) (type f) = true -> can_prove (Bin op t f) = true ->
  eval p ρ t = Some vt -> eval p ρ f = Some vf ->
  vt !! i = Some (VInt x) -> vf !! i = Some (VInt y) -> if decide (op = GE) then y <= x else x <= y.
Proof.
  intros HP Hop Hwt Hwf Htt Htf Hρ Hit Hif Heq Hc Ht Hf Hx Hy.
  pose proof (eval_value_ok _ _ _ _ _ Hwt Htt Hρ Ht) as Hvt. pose proof (eval_value_ok _ _ _ _ _ Hwf Htf Hρ Hf) as Hvf.
  assert (Hl : length vt = length vf).
  { apply type_eqb_fields in Heq as (_ & _ & Heq). destruct Hvt, Hvf. lia. }
  destruct (value_VInts _ _ Hit Hvt) as [zt ->], (value_VInts _ _ Hif Hvf) as [zf ->].
  rewrite !length_fmap in Hl.
  set (cmp (x y : Z) := Z.b2z (if decide (op = GE) then y <=? x else x <=? y)).
  assert (Hz : zip_with_M (eval_binop p op (type t)) (VInt <$> zt) (VInt <$> zf) = Some (VInt <$> zip_with cmp zt zf)).
  { clear Hx Hy Ht Hf Hvt Hvf. revert zf Hl. induction zt as [|a zt IH]; intros [|b zf] Hl; simpl in Hl; try lia; [done|].
    simpl. rewrite IH by lia. unfold cmp. by destruct Hop as [-> | ->]. }
  assert (Hp : Forall (fun s => truthy s = Some true) (VInt <$> zip_with cmp zt zf)).
  { eapply (prover_sound (can_prove := can_prove) Γ ρ (Bin op t f)); try done.
    - split; [|done]. split; [done|]. by destruct Hop as [-> | ->].
    - simpl. by rewrite Ht, Hf; simpl. }
  rewrite Forall_lookup in Hp. rewrite list_lookup_fmap in Hx, Hy.
  apply fmap_Some in Hx as (x' & Hx & [= <-]), Hy as (y' & Hy & [= <-]).
  specialize (Hp i (VInt (cmp x y))). rewrite list_lookup_fmap, lookup_zip_with, Hx, Hy in Hp.
  specialize (Hp eq_refl). unfold cmp in Hp. simpl in Hp. injection Hp as Hp.
  destruct (decide (op = GE)); [destruct (Z.leb_spec y x)|destruct (Z.leb_spec x y)]; (done || lia).
Qed.

(** What the method concludes, and what the simplifier has proved by then. *)
Definition lanes_ordered (op : binop) (vt vf : value) : Prop :=
  forall i x y, vt !! i = Some (VInt x) -> vf !! i = Some (VInt y) -> if decide (op = GE) then y <= x else x <= y.

Lemma select_result_inv t f rcond ra rb m :
  is_int (type t) || is_uint (type t) = true -> type_eqb (type t) (type f) = true ->
  select_result can_prove t f rcond ra rb = Ok m ->
  exists ge le, m = (if bool_decide (rcond = Constant) then unify ra rb else select_answer ge le rcond ra rb) /\
    (ge = true -> can_prove (Bin GE t f) = true) /\ (le = true -> can_prove (Bin LE t f) = true).
Proof.
  intros Hi Ht H. unfold select_result in H. case_bool_decide; [exists false, false; by injection H as <-|].
  unfold operator_ge, operator_le in H.
  rewrite (operator_cmp_make GE GE_make), (operator_cmp_make LE LE_make) in H by (auto; done).
  injection H as <-. eauto.
Qed.

Lemma select_lanes_rel rcond ra rb ge le vc vc' vt vt' vf vf' i c c' b b' t t' f f' :
  lane_condition vc i = Some c -> lane_condition vc' i = Some c' -> truthy c = Some b -> truthy c' = Some b' ->
  vt !! i = Some (VInt t) -> vt' !! i = Some (VInt t') -> vf !! i = Some (VInt f) -> vf' !! i = Some (VInt f') ->
  (forall z, VInt z ∈ vc -> zero_one z) -> (forall z, VInt z ∈ vc' -> zero_one z) ->
  value_rel rcond vc vc' -> value_rel ra vt vt' -> value_rel rb vf vf' ->
  (ge = true -> lanes_ordered GE vt vf /\ lanes_ordered GE vt' vf') ->
  (le = true -> lanes_ordered LE vt vf /\ lanes_ordered LE vt' vf') ->
  int_rel (if bool_decide (rcond = Constant) then unify ra rb else select_answer ge le rcond ra rb)
    (if b then t else f) (if b' then t' else f').
Proof.
  intros Hc Hc' Hb Hb' Ht Ht' Hf Hf' HZ HZ' Rc Ra Rb Hge Hle. apply select_lane.
  - pose proof (lane_condition_rel _ _ _ _ _ _ Rc Hc Hc') as Rl.
    apply lane_condition_in in Hc, Hc'. destruct c as [z| | |], c' as [z'| | |]; try done.
    injection Hb as <-. injection Hb' as <-. rewrite lane_rel_VInt in Rl.
    destruct (HZ _ Hc) as [-> | ->], (HZ' _ Hc') as [-> | ->]; exact Rl.
  - rewrite <- lane_rel_VInt. by apply (value_rel_lookup ra vt vt' i).
  - rewrite <- lane_rel_VInt. by apply (value_rel_lookup rb vf vf' i).
  - intros H. destruct (Hge H) as [H1 H2]. split; [exact (H1 i _ _ Ht Hf)|exact (H2 i _ _ Ht' Hf')].
  - intros H. destruct (Hle H) as [H1 H2]. split; [exact (H1 i _ _ Ht Hf)|exact (H2 i _ _ Ht' Hf')].
Qed.

Lemma select_node t f rcond ra rb m vc vc' vt vt' vf vf' v v' tc :
  is_bool tc = true -> is_int (type t) || is_uint (type t) = true -> type_eqb (type t) (type f) = true ->
  value_ok p tc vc -> value_ok p tc vc' -> value_ok p (type t) vt -> value_ok p (type t) vt' ->
  value_ok p (type t) vf -> value_ok p (type t) vf' ->
  (forall op, op = GE \/ op = LE -> can_prove (Bin op t f) = true -> lanes_ordered op vt vf /\ lanes_ordered op vt' vf') ->
  value_rel rcond vc vc' -> value_rel ra vt vt' -> value_rel rb vf vf' ->
  select_result can_prove t f rcond ra rb = Ok m ->
  select_value vc vt vf = Some v -> select_value vc' vt' vf' = Some v' -> value_rel m v v'.
Proof.
  intros Hb Hi Heq Oc Oc' Ot Ot' Of Of' HP Rc Ra Rb Hm Hv Hv'.
  destruct (select_result_inv _ _ _ _ _ _ Hi Heq Hm) as (ge & le & Em & Hge & Hle).
  destruct (decide (m = Unknown)) as [->|Hu]; [done|]. rewrite value_rel_Forall2 by done.
  assert (Hl : length vt = length vf) by (destruct Ot, Of; lia).
  assert (Hl' : length vt' = length vf') by (destruct Ot', Of'; lia).
  apply Forall2_same_length_lookup_2.
  { rewrite (select_value_length _ _ _ _ Hl Hv), (select_value_length _ _ _ _ Hl' Hv').
    destruct Ot, Ot'. lia. }
  intros i s s' Hs Hs'.
  destruct (select_value_lookup _ _ _ _ _ _ Hl Hv Hs) as (c & b & t1 & f1 & Hc & Htb & Ht & Hf & ->).
  destruct (select_value_lookup _ _ _ _ _ _ Hl' Hv' Hs') as (c' & b' & t2 & f2 & Hc' & Htb' & Ht' & Hf' & ->).
  destruct (value_lane_int _ _ _ Hi Ot (list_elem_of_lookup_2 _ _ _ Ht)) as [zt ->],
    (value_lane_int _ _ _ Hi Ot' (list_elem_of_lookup_2 _ _ _ Ht')) as [zt' ->],
    (value_lane_int _ _ _ Hi Of (list_elem_of_lookup_2 _ _ _ Hf)) as [zf ->],
    (value_lane_int _ _ _ Hi Of' (list_elem_of_lookup_2 _ _ _ Hf')) as [zf' ->].
  pose proof (select_lanes_rel rcond ra rb ge le vc vc' vt vt' vf vf' i c c' b b' zt zt' zf zf'
    Hc Hc' Htb Htb' Ht Ht' Hf Hf' (fun z => value_zero_one _ _ z Hb Oc) (fun z => value_zero_one _ _ z Hb Oc')
    Rc Ra Rb) as Hlane.
  rewrite <- Em in Hlane. destruct b, b'; apply lane_rel_VInt, Hlane; intros H; apply HP; auto.
Qed.

(** ** Calls *)
Lemma value_rel_Constant v w : value_rel Constant v w -> v = w.
Proof. simpl. induction 1 as [|x y v w Hx H IH]; [done|]. simpl in Hx. by rewrite Hx, IH. Qed.

Lemma visit_all_constant args sc m sc' ρ ρ' vs vs' :
  scope_wf sc ->
  Forall (fun a => forall m sc' v v', visit a sc = Ok (m, sc') -> eval p ρ a = Some v -> eval p ρ' a = Some v' ->
    value_rel m v v') args ->
  visit_all args sc = Ok (m, sc') -> mapM (eval p ρ) args = Some vs -> mapM (eval p ρ') args = Some vs' ->
  m = Unknown \/ vs = vs'.
Proof.
  intros Hs H. revert m sc' vs vs'. induction H as [|a l Ha Hl IH]; intros m sc' vs vs' Hv Hm Hm'.
  - right. injection Hm as <-. by injection Hm' as <-.
  - simpl in Hv. apply mut_bind_Ok in Hv as (r & s1 & Hv & Hr). pose proof (visit_scope _ _ _ _ Hs Hv) as ->.
    case_bool_decide as Hc; [|left; by apply mut_ret_Ok in Hr as [= -> _]]. subst r.
    simpl in Hm, Hm'. apply bind_Some in Hm as (x & Hx & Hm), Hm' as (x' & Hx' & Hm').
    apply bind_Some in Hm as (xs & Hxs & [= <-]), Hm' as (xs' & Hxs' & [= <-]).
    destruct (IH _ _ _ _ Hr Hxs Hxs') as [-> | ->]; [by left|right]. f_equal.
    by apply value_rel_Constant, (Ha _ _ _ _ Hv).
Qed.


(** ** The induction *)
Context `{!Prover p can_prove}.

Record setting (Γ : gmap string Ty) (sc : Scope Monotonic) (ρ ρ' : env) (e : Expr) : Prop := {
  set_scope : scope_wf sc;
  set_agree : agree sc ρ ρ';
  set_wf : wf e;
  set_typed : typed Γ e;
  set_env : env_ok p Γ ρ;
  set_env' : env_ok p Γ ρ';
  set_exact : exact e = true;
  set_lets : lets_avoid (eq var) e
}.

Definition right_at (e : Expr) : Prop := forall Γ sc ρ ρ' m sc' v v',
  setting Γ sc ρ ρ' e -> visit e sc = Ok (m, sc') -> eval p ρ e = Some v -> eval p ρ' e = Some v' ->
  value_rel m v v'.

Lemma exact_int e : exact e = true -> is_int (type e) || is_uint (type e) = true.
Proof. intros H. apply exact_node_int. destruct e; cbn [all_nodes] in H; by apply andb_true_iff in H as [? _]. Qed.

(** The setting of an operand. *)
Ltac operand HS := destruct HS; simpl in *; constructor; rewrite ?andb_true_iff in *; tauto.

Lemma setting_value Γ sc ρ ρ' e v v' : setting Γ sc ρ ρ' e -> eval p ρ e = Some v -> eval p ρ' e = Some v' ->
  value_ok p (type e) v /\ value_ok p (type e) v'.
Proof. intros [_ _ Hw Ht H1 H2 _ _] E1 E2. by split; [apply (eval_value_ok p Γ ρ)|apply (eval_value_ok p Γ ρ')]. Qed.

Lemma setting_sign Γ sc ρ ρ' e m sc' v : setting Γ sc ρ ρ' e -> visit e sc = Ok (m, sc') -> eval p ρ e = Some v ->
  sign_fact e m v.
Proof.
  intros [] Hv He Hc. split; [by eapply const_visit|]. intros Hp. by eapply const_sign.
Qed.

Lemma right_Bin op a b : right_at a -> right_at b -> right_at (Bin op a b).
Proof.
  intros Ra Rb Γ sc ρ ρ' m sc' v v' HS Hv He He'.
  assert (HSa : setting Γ sc ρ ρ' a) by operand HS. assert (HSb : setting Γ sc ρ ρ' b) by operand HS.
  apply visit_Bin in Hv as [(_ & -> & _)|(ra & rb & s1 & -> & Hv)]; [done|].
  destruct (decide (op = Mod)) as [->|Hop]; [done|].
  assert (Hv' : visit a sc = Ok (ra, sc) /\ visit b sc = Ok (rb, sc)).
  { pose proof (set_scope _ _ _ _ _ HS) as Hs.
    destruct Hv as [[H1 H2]|[H1 H2]]; pose proof (visit_scope _ _ _ _ Hs H1) as ->;
      pose proof (visit_scope _ _ _ _ Hs H2) as ->; done. }
  clear Hv. destruct Hv' as [Hva Hvb]. cbn [eval] in He, He'.
  apply bind_Some in He as (va & Ea & He), He' as (va' & Ea' & He').
  apply bind_Some in He as (vb & Eb & He), He' as (vb' & Eb' & He').
  destruct (setting_value _ _ _ _ _ _ _ HSa Ea Ea'), (setting_value _ _ _ _ _ _ _ HSb Eb Eb').
  eapply (bin_node op a b ra rb va va' vb vb'); try done.
  - by destruct HS as [_ _ [? _]].
  - pose proof (set_exact _ _ _ _ _ HS) as Hx. cbn [all_nodes] in Hx. by apply andb_true_iff in Hx as [Hx _].
  - apply exact_int, HSa.
  - apply exact_int, HSb.
  - by eapply setting_sign.
  - by eapply setting_sign.
  - by eapply Ra.
  - by eapply Rb.
Qed.

Lemma right_Cast t e : right_at e -> right_at (Cast t e).
Proof.
  intros R Γ sc ρ ρ' m sc' v v' HS Hv He He'. assert (HSe : setting Γ sc ρ ρ' e) by operand HS.
  simpl in Hv. apply mut_bind_Ok in Hv as (r & s1 & Hv & Hr). apply mut_ret_Ok in Hr as [= -> _].
  cbn [eval] in He, He'. apply bind_Some in He as (w & Ew & He), He' as (w' & Ew' & He').
  destruct (setting_value _ _ _ _ _ _ _ HSe Ew Ew').
  pose proof (set_exact _ _ _ _ _ HS) as Hx. cbn [all_nodes] in Hx. apply andb_true_iff in Hx as [Hx _].
  eapply (cast_node t e r w w'); try done; [apply exact_int, HSe|by eapply R].
Qed.

Lemma right_Not e : right_at e -> right_at (Not e).
Proof.
  intros R Γ sc ρ ρ' m sc' v v' HS Hv He He'. assert (HSe : setting Γ sc ρ ρ' e) by operand HS.
  simpl in Hv. apply mut_bind_Ok in Hv as (r & s1 & Hv & Hr). apply mut_ret_Ok in Hr as [= -> _].
  cbn [eval] in He, He'. apply bind_Some in He as (w & Ew & He), He' as (w' & Ew' & He').
  destruct (setting_value _ _ _ _ _ _ _ HSe Ew Ew').
  eapply (not_node e r w w'); try done; [|by eapply R]. by destruct HS as [_ _ [? _]].
Qed.

Lemma right_Load t n e i q : right_at e -> right_at (Load t n e i q).
Proof.
  intros R Γ sc ρ ρ' m sc' v v' HS Hv He He'. assert (HSe : setting Γ sc ρ ρ' e) by operand HS.
  simpl in Hv. apply mut_bind_Ok in Hv as (r & s1 & Hv & Hr). apply mut_ret_Ok in Hr as [= -> _].
  cbn [eval] in He, He'. apply bind_Some in He as (w & Ew & He), He' as (w' & Ew' & He').
  case_bool_decide as Hc; [|done]. subst r. pose proof (R _ _ _ _ _ _ _ _ HSe Hv Ew Ew') as Hw.
  apply value_rel_Constant in Hw as <-. rewrite (agree_mem _ _ _ (set_agree _ _ _ _ _ HS)) in He.
  rewrite He in He'. injection He' as <-. apply value_rel_refl.
Qed.

Lemma right_Select c t f : right_at c -> right_at t -> right_at f -> right_at (Select c t f).
Proof.
  intros Rc Rt Rf Γ sc ρ ρ' m sc' v v' HS Hv He He'.
  assert (HSc : setting Γ sc ρ ρ' c) by operand HS. assert (HSt : setting Γ sc ρ ρ' t) by operand HS.
  assert (HSf : setting Γ sc ρ ρ' f) by operand HS. pose proof (set_scope _ _ _ _ _ HS) as Hs.
  simpl in Hv. apply mut_bind_Ok in Hv as (rc & s1 & Hvc & Hv). pose proof (visit_scope _ _ _ _ Hs Hvc) as ->.
  apply mut_bind_Ok in Hv as (rt & s2 & Hvt & Hv). pose proof (visit_scope _ _ _ _ Hs Hvt) as ->.
  apply mut_bind_Ok in Hv as (rf & s3 & Hvf & Hv). pose proof (visit_scope _ _ _ _ Hs Hvf) as ->.
  apply lift_Ok in Hv as [Hv _]. cbn [eval] in He, He'.
  apply bind_Some in He as (vc & Ec & He), He' as (vc' & Ec' & He').
  apply bind_Some in He as (vt & Et & He), He' as (vt' & Et' & He').
  apply bind_Some in He as (vf & Ef & He), He' as (vf' & Ef' & He').
  destruct (setting_value _ _ _ _ _ _ _ HSc Ec Ec') as [Oc Oc'], (setting_value _ _ _ _ _ _ _ HSt Et Et') as [Ot Ot'],
    (setting_value _ _ _ _ _ _ _ HSf Ef Ef') as [Of Of'].
  pose proof (set_wf _ _ _ _ _ HS) as [(Hb & Heq & _) _].
  pose proof (exact_int _ (set_exact _ _ _ _ _ HSt)) as It.
  pose proof (exact_int _ (set_exact _ _ _ _ _ HSf)) as If.
  assert (Heq' : type_eqb (type t) (type f) = true) by by rewrite type_eqb_sym.
  eapply (select_node t f rc rt rf m vc vc' vt vt' vf vf' v v' (type c)); try done.
  - by eapply value_ok_eqb.
  - by eapply value_ok_eqb.
  - intros op Hop Hp. destruct HSt, HSf.
    split; intros i x y Hx Hy; [by eapply (proved_lanes Γ ρ op t f)|by eapply (proved_lanes Γ ρ' op t f)].
  - by eapply Rc.
  - by eapply Rt.
  - by eapply Rf.
Qed.

Lemma right_Var t n i q r : right_at (Var t n i q r).
Proof.
  intros Γ sc ρ ρ' m sc' v v' HS Hv He He'. simpl in Hv. rewrite visit_Variable_known in Hv.
  injection Hv as <- <-. exact (agree_vars _ _ _ (set_agree _ _ _ _ _ HS) _ _ _ He He').
Qed.

Lemma setting_arg Γ sc ρ ρ' t n args ct f vi i q a :
  setting Γ sc ρ ρ' (Call t n args ct f vi i q) -> a ∈ args -> setting Γ sc ρ ρ' a.
Proof.
  intros [Hs Ha Hw Ht H1 H2 Hx Hl] Hin. simpl in Hw, Ht, Hx. destruct Hw as [_ Hw%wf_args].
  destruct Ht as (_ & _ & Ht%typed_args). apply andb_true_iff in Hx as [_ Hx].
  apply lets_avoid_children in Hl. simpl in Hl. rewrite Forall_forall in Hw, Ht, Hl.
  rewrite forallb_forall in Hx. constructor; auto. apply Hx. by apply list_elem_of_In.
Qed.

Lemma mapM_last {A B} (f : A -> option B) l r a : mapM f l = Some r -> last l = Some a ->
  exists b, last r = Some b /\ f a = Some b.
Proof.
  rewrite mapM_Some. intros H. induction H as [|x y l r Hxy H IH]; [done|]. intros Ha.
  destruct H as [|x' y' l r Hxy' H]; [injection Ha as <-; by exists y|]. exact (IH Ha).
Qed.

Lemma right_Call t n args ct f vi i q : Forall right_at args -> right_at (Call t n args ct f vi i q).
Proof.
  intros R Γ sc ρ ρ' m sc' v v' HS Hv He He'. rewrite visit_Call in Hv. cbn [eval] in He, He'.
  apply bind_Some in He as (vs & Es & He), He' as (vs' & Es' & He').
  pose proof (fun a => setting_arg _ _ _ _ _ _ _ _ _ _ _ _ a HS) as HSa. rewrite Forall_forall in R.
  unfold eval_call in He, He'. fold (returns_last_arg n ct) in He, He'. destruct (returns_last_arg n ct).
  - apply visit_back_last in Hv as (a & Ha & Hv).
    destruct (mapM_last _ _ _ _ Es Ha) as (w & Hw & Ew), (mapM_last _ _ _ _ Es' Ha) as (w' & Hw' & Ew').
    rewrite He in Hw. rewrite He' in Hw'. injection Hw as <-. injection Hw' as <-.
    assert (Hin : a ∈ args) by (by eapply list_elem_of_lookup_2; rewrite <- last_lookup).
    exact (R a Hin _ _ _ _ _ _ _ _ (HSa a Hin) Hv Ew Ew').
  - destruct (visit_all_constant args sc m sc' ρ ρ' vs vs') as [->|<-]; try done.
    + apply (set_scope _ _ _ _ _ HS).
    + apply Forall_forall. intros a Hin m' sc'' w w' H1 H2 H3.
      exact (R a Hin _ _ _ _ _ _ _ _ (HSa a Hin) H1 H2 H3).
    + rewrite (agree_fn _ _ _ (set_agree _ _ _ _ _ HS)) in He. rewrite He in He'. injection He' as <-.
      apply value_rel_refl.
Qed.

Lemma known_push s n m x : scope_wf s -> n <> var ->
  known (scope_push s n m) x = if decide (n = x) then m else known s x.
Proof.
  intros Hs Hn. unfold known. rewrite scope_get_push by done. destruct (decide (n = x)) as [->|]; [|done].
  by rewrite bool_decide_eq_false_2.
Qed.

(** Binding a value that grows as the scope says, or that stays the same. *)
Lemma agree_bind_push s ρ ρ' n m v w : scope_wf s -> n <> var ->
  agree s ρ ρ' -> value_rel m v w -> agree (scope_push s n m) (bind_var ρ n v) (bind_var ρ' n w).
Proof.
  intros Hs Hn [Hm Hf Hv] Hr. constructor; [done..|]. intros x a b. simpl. rewrite known_push by done.
  destruct (decide (n = x)) as [->|]; simplify_map_eq; [by intros [= <-] [= <-]|apply Hv].
Qed.

Lemma agree_bind_same s ρ ρ' n v : agree s ρ ρ' -> agree s (bind_var ρ n v) (bind_var ρ' n v).
Proof.
  intros [Hm Hf Hv]. constructor; [done..|]. intros x a b. simpl.
  destruct (decide (n = x)) as [->|]; simplify_map_eq; [intros; simplify_eq; apply value_rel_refl|apply Hv].
Qed.

Lemma right_Let n e b : right_at e -> right_at b -> right_at (Let n e b).
Proof.
  intros Re Rb Γ sc ρ ρ' m sc' v v' HS Hv He He'.
  assert (HSe : setting Γ sc ρ ρ' e) by operand HS. pose proof (set_scope _ _ _ _ _ HS) as Hs.
  simpl in Hv. apply mut_bind_Ok in Hv as (r & s1 & Hve & Hv). pose proof (visit_scope _ _ _ _ Hs Hve) as ->.
  cbn [eval] in He, He'. apply bind_Some in He as (w & Ew & He), He' as (w' & Ew' & He').
  destruct (setting_value _ _ _ _ _ _ _ HSe Ew Ew') as [Ow Ow'].
  pose proof (Re _ _ _ _ _ _ _ _ HSe Hve Ew Ew') as Hr.
  assert (HSb : forall sc2, scope_wf sc2 -> agree sc2 (bind_var ρ n w) (bind_var ρ' n w') ->
    setting (<[n := type e]> Γ) sc2 (bind_var ρ n w) (bind_var ρ' n w') b).
  { intros sc2 Hs2 Ha2. destruct HS. simpl in *. rewrite !andb_true_iff in *.
    constructor; try tauto; by apply env_ok_bind. }
  case_bool_decide as Hc.
  - subst r. apply value_rel_Constant in Hr as <-. eapply Rb; [|done..]. apply HSb; [done|].
    by apply agree_bind_same, (set_agree _ _ _ _ _ HS).
  - apply mut_bind_Ok in Hv as (u & s2 & [= <- <-] & Hv). apply mut_bind_Ok in Hv as (r' & s3 & Hv & Hp).
    apply mut_bind_Ok in Hp as (u' & s4 & _ & Hp). apply mut_ret_Ok in Hp as [= -> _].
    eapply Rb; [|done..]. apply HSb; [by apply scope_push_wf|].
    apply agree_bind_push; try done; [|apply (set_agree _ _ _ _ _ HS)].
    intros ->. destruct HS as [_ _ _ _ _ _ _ [Hl _]]. by apply Hl.
Qed.

Lemma visit_right e : right_at e.
Proof.
  induction e using Expr_ind';
    first [apply right_Var | by apply right_Cast | by apply right_Bin | by apply right_Not
          | by apply right_Select | by apply right_Load | by apply right_Call | by apply right_Let
          | intros Γ sc ρ ρ' m sc' v1 v2 HS Hv He He'; simpl in Hv, He, He'; try done;
            apply mut_ret_Ok in Hv as [= -> _]; simplify_eq; apply value_rel_refl].
Qed.

End Sound.

(** * The prover of the test is sound *)
Lemma linear_unfold x e r : linear x e = Some r -> type e = Int 32 1.
Proof. destruct e; cbn [linear]; by case_bool_decide. Qed.

Definition linear_value (ρ : env) (x : string) (kc : Z * Z) (z : Z) : Prop :=
  (fst kc = 0 /\ z = snd kc) \/ exists X, vars ρ !! x = Some [VInt X] /\ z = fst kc * X + snd kc.

Lemma linear_value_add ρ x k c k' c' z z' :
  linear_value ρ x (k, c) z -> linear_value ρ x (k', c') z' -> linear_value ρ x (k + k', c + c') (z + z').
Proof.
  unfold linear_value. simpl. intros [[-> ->]|(X & HX & ->)] [[-> ->]|(Y & HY & ->)]; [left; lia|right..];
    simplify_eq; eexists; (split; [eassumption|lia]).
Qed.

Lemma linear_value_scale ρ x k c i z : linear_value ρ x (k, c) z -> linear_value ρ x (k * i, c * i) (z * i).
Proof.
  unfold linear_value. simpl. intros [[-> ->]|(X & HX & ->)]; [left; lia|right].
  eexists. split; [eassumption|lia].
Qed.

Lemma linear_eval p Γ ρ x e kc v : p <> Machine -> typed Γ e -> env_ok p Γ ρ ->
  linear x e = Some kc -> eval p ρ e = Some v -> exists z, v = [VInt z] /\ linear_value ρ x kc z.
Proof.
  intros Hp. assert (Hov : forall a z, ov_result p (Int 32 1) a = Some z -> z = a).
  { intros a z. apply ov_result_exact. destruct p; [done|right|left]; done. }
  revert kc v. induction e using Expr_ind'; intros kc v0 Ht Hρ Hl Hev;
    pose proof (linear_unfold _ _ _ Hl) as Hty; cbn [linear] in Hl; case_bool_decide; try done.
  - injection Hl as <-. injection Hev as <-. eexists. split; [done|]. by left.
  - case_bool_decide; [|done]. injection Hl as <-. subst. simpl in Hty, Ht, Hev.
    destruct Ht as [_ HΓ]. pose proof (env_vars _ _ _ Hρ _ _ _ HΓ Hev) as Hv. subst t.
    destruct (value_VInts p (Int 32 1) _ eq_refl Hv) as [zs ->]. destruct Hv as [Hlen _].
    change (lanes (Int 32 1)) with 1 in Hlen. rewrite length_fmap in Hlen.
    destruct zs as [|z [|]]; simpl in Hlen; try lia. exists z. split; [done|]. right. exists z.
    split; [done|]. simpl. lia.
  - simpl in Ht. destruct Ht as [Ht1 Ht2]. cbn [eval] in Hev.
    apply bind_Some in Hev as (va & Ha & Hev). apply bind_Some in Hev as (vb & Hb & Hev).
    destruct op; try done.
    + apply bind_Some in Hl as ([k c] & Hl1 & Hl). apply bind_Some in Hl as ([k' c'] & Hl2 & [= <-]).
      destruct (IHe1 _ _ Ht1 Hρ Hl1 Ha) as (z & -> & Hz), (IHe2 _ _ Ht2 Hρ Hl2 Hb) as (z' & -> & Hz').
      rewrite (linear_unfold _ _ _ Hl1) in Hev. simpl in Hev.
      destruct (ov_result p (Int 32 1) (z + z')) as [s|] eqn:Hs; [|done]. apply Hov in Hs as ->.
      injection Hev as <-. eexists. split; [done|]. by apply linear_value_add.
    + apply bind_Some in Hl as ([k c] & Hl1 & Hl). apply bind_Some in Hl as ([k' c'] & Hl2 & [= <-]).
      destruct (IHe1 _ _ Ht1 Hρ Hl1 Ha) as (z & -> & Hz), (IHe2 _ _ Ht2 Hρ Hl2 Hb) as (z' & -> & Hz').
      rewrite (linear_unfold _ _ _ Hl1) in Hev. simpl in Hev.
      destruct (ov_result p (Int 32 1) (z - z')) as [s|] eqn:Hs; [|done]. apply Hov in Hs as ->.
      injection Hev as <-. eexists. split; [done|].
      apply (linear_value_scale _ _ _ _ (-1)) in Hz'. pose proof (linear_value_add _ _ _ _ _ _ _ _ Hz Hz') as Hsub.
      replace (k - k') with (k + k' * -1) by lia. replace (c - c') with (c + c' * -1) by lia.
      by replace (z - z') with (z + z' * -1) by lia.
    + destruct e2 as [t2 i| | | | | | | | | | | | |]; try done.
      apply bind_Some in Hl as ([k c] & Hl1 & [= <-]). injection Hb as <-.
      destruct (IHe1 _ _ Ht1 Hρ Hl1 Ha) as (z & -> & Hz).
      rewrite (linear_unfold _ _ _ Hl1) in Hev. simpl in Hev.
      destruct (ov_result p (Int 32 1) (z * i)) as [s|] eqn:Hs; [|done]. apply Hov in Hs as ->.
      injection Hev as <-. eexists. split; [done|]. by apply linear_value_scale.
Qed.

Lemma linear_ge_sound p Γ ρ a b va vb : p <> Machine -> typed Γ a -> typed Γ b -> env_ok p Γ ρ ->
  linear_ge a b = true -> eval p ρ a = Some va -> eval p ρ b = Some vb ->
  exists x y, va = [VInt x] /\ vb = [VInt y] /\ y <= x.
Proof.
  intros Hp Ha Hb Hρ H Ea Eb. unfold linear_ge in H. destruct (first_var (Bin Sub a b)) as [x|]; [|done]. cbn [mbind option_bind] in H.
  destruct (linear x a) as [[k c]|] eqn:La; [|done]. destruct (linear x b) as [[k' c']|] eqn:Lb; [|done].
  cbn [mbind option_bind] in H. apply andb_true_iff in H as [Hk%Z.eqb_eq Hc%Z.leb_le].
  destruct (linear_eval _ _ _ _ _ _ _ Hp Ha Hρ La Ea) as (z & -> & Hz), (linear_eval _ _ _ _ _ _ _ Hp Hb Hρ Lb Eb) as (z' & -> & Hz').
  exists z, z'. split; [done|]. split; [done|].
  destruct Hz as [[H1 ->]|(X & HX & ->)], Hz' as [[H2 ->]|(Y & HY & ->)]; simpl in *; simplify_eq; nia.
Qed.

#[export] Instance linear_Prover p : p <> Machine -> Prover p linear_prover.
Proof.
  intros Hp Γ ρ e v Hwf Ht Hρ H He. destruct e as [| | | | | |op a b| | | | | | |]; try done. destruct Ht as [Ha Hb].
  cbn [eval] in He. apply bind_Some in He as (va & Ea & He). apply bind_Some in He as (vb & Eb & He).
  destruct op; try done; simpl in H.
  - destruct (linear_ge_sound _ _ _ _ _ _ _ Hp Hb Ha Hρ H Eb Ea) as (x & y & -> & -> & Hxy).
    simpl in He. injection He as <-. apply Forall_singleton. simpl. by rewrite (proj2 (Z.leb_le y x)).
  - destruct (linear_ge_sound _ _ _ _ _ _ _ Hp Ha Hb Hρ H Ea Eb) as (x & y & -> & -> & Hxy).
    simpl in He. injection He as <-. apply Forall_singleton. simpl. by rewrite (proj2 (Z.leb_le y x)).
Qed.

(** * The theorems *)

(** C24. The answers of [is_monotonic] are right on the expressions described here: let
    the variable grow from [x] to [y] and everything else stay the same. An expression
    answered [Constant] keeps its value, an [Increasing] one does not shrink and a
    [Decreasing] one does not grow, in every lane. The expression is of integer types
    throughout, and no let of it binds that variable; its operations do not overflow
    ([Strict]), or ([Ideal]) its sums, differences, products and quotients are of signed
    integers of 32 bits and more, which the compiler takes not to overflow, its casts
    between types of 32 bits and more lose nothing, and a constant factor or divisor is
    under widening casts only ([exact_node]). On a let that rebinds the variable, on
    types that wrap and on narrowing casts of a factor the answers are wrong
    ([monotonic_defects]). The simplifier may be any sound prover. *)
Theorem is_monotonic_sound p can_prove var Γ ρ e x y m v w :
  Prover p can_prove -> wf e -> typed Γ e ->
  env_ok p Γ (bind_var ρ var [VInt x]) -> env_ok p Γ (bind_var ρ var [VInt y]) -> x <= y ->
  all_nodes (exact_node p) e = true -> lets_avoid (eq var) e ->
  is_monotonic can_prove (eref e) var = Ok m ->
  eval p (bind_var ρ var [VInt x]) e = Some v -> eval p (bind_var ρ var [VInt y]) e = Some w ->
  match m with
  | Constant => v = w
  | Increasing => Forall2 scalar_le v w
  | Decreasing => Forall2 scalar_le w v
  | Unknown => True
  end.
Proof.
  intros HP Hwf Ht H1 H2 Hxy He Hl Hm Hv Hw. unfold is_monotonic in Hm. simpl in Hm.
  apply bind_Ok in Hm as ([m' sc] & Hvis & Hm). injection Hm as <-.
  assert (HS : setting p var Γ scope_new (bind_var ρ var [VInt x]) (bind_var ρ var [VInt y]) e).
  { constructor; [apply scope_new_wf| |done..]. constructor; [done..|]. intros n a b. simpl. unfold known.
    destruct (decide (n = var)) as [->|Hn].
    - rewrite !lookup_insert_eq, bool_decide_eq_true_2 by done. intros [= <-] [= <-].
      constructor; [|constructor]. by apply scalar_le_VInt.
    - rewrite !lookup_insert_ne, bool_decide_eq_false_2 by congruence. intros. simplify_eq. apply value_rel_refl. }
  pose proof (visit_right p can_prove var e _ _ _ _ _ _ _ _ HS Hvis Hv Hw) as R. simpl.
  destruct m'; simpl in R; [by apply value_rel_Constant|done|by apply Forall2_flip|done].
Qed.

Definition int_x : Expr := Var (Int 32 1) "x" None None None.
Definition int_c (v : Z) : Expr := IntImm (Int 32 1) v.
Definition at_x (z : Z) : env := bind_var empty_env "x" [VInt z].

(** select(x > 2, x + 1, x), at 1 and at 5. *)
Lemma is_monotonic_sound_witness :
  is_monotonic linear_prover (eref (Select (Bin GT int_x (int_c 2)) (Bin Add int_x (int_c 1)) int_x)) "x" = Ok Increasing /\
  Forall2 scalar_le [VInt 1] [VInt 6].
Proof.
  split; [reflexivity|].
  assert (Henv : forall z, env_ok Ideal {["x" := Int 32 1]} (at_x z)).
  { intros z. constructor; simpl; try done. intros n t w. rewrite lookup_singleton_Some, lookup_insert_Some, lookup_empty.
    intros [<- <-] [[_ <-]|[? ?]]; [|done]. split; [done|]. apply Forall_singleton. split; [done|by left]. }
  apply (is_monotonic_sound Ideal linear_prover "x" {["x" := Int 32 1]} empty_env
    (Select (Bin GT int_x (int_c 2)) (Bin Add int_x (int_c 1)) int_x) 1 5 Increasing).
  - by apply linear_Prover.
  - repeat split; (discriminate || reflexivity || (vm_compute; congruence)).
  - repeat split; (reflexivity || vm_compute; congruence).
  - apply Henv.
  - apply Henv.
  - discriminate.
  - reflexivity.
  - repeat split.
  - reflexivity.
  - reflexivity.
  - reflexivity.
Defined.

(** Three inputs the analysis calls increasing that decrease: a let that rebinds
    the variable to a decreasing value, since the name is tested before the scope;
    a product with a constant whose sign is read through a narrowing cast; and a
    sum of an unsigned type, which wraps. *)
Theorem monotonic_defects :
  let rebound := Let "x" (Bin Sub (int_c 0) int_x) int_x in
  let narrowed := Bin Mul (Cast (Int 32 1) (Cast (Int 8 1) (int_c 200))) int_x in
  let wrapped := Bin Add (Var (UInt 8 1) "x" None None None) (UIntImm (UInt 8 1) 1) in
  (forall can_prove, is_monotonic can_prove (eref rebound) "x" = Ok Increasing /\
                     is_monotonic can_prove (eref narrowed) "x" = Ok Increasing /\
                     is_monotonic can_prove (eref wrapped) "x" = Ok Increasing) /\
  (eval Ideal (at_x 1) rebound = Some [VInt (-1)] /\ eval Ideal (at_x 2) rebound = Some [VInt (-2)]) /\
  (eval Ideal (at_x 1) narrowed = Some [VInt (-56)] /\ eval Ideal (at_x 2) narrowed = Some [VInt (-112)]) /\
  (eval Ideal (at_x 254) wrapped = Some [VInt 255] /\ eval Ideal (at_x 255) wrapped = Some [VInt 0]).
Proof. split; [intros can_prove; repeat split|]; repeat split. Qed.
