(* ===== verification/Lanes.v ===== *)
(** Expressions of one integer type, lane by lane: the values of the nodes of the
    simplifier's rules as functions of the lane. *)

From Stdlib Require Import ZArith Lia Bool SpecFloat String.
From stdpp Require Import prelude strings gmap.
From S2P Require Import Prelude Types IR Semantics Operators Equality EqualityMeaning ConstBounds Monotonic.

#[local] Open Scope Z_scope.

(** * Expressions without floats, and without casts to a one-bit signed integer, where
    the constant 1 is -1 *)

Fixpoint usual_types (e : Expr) : bool :=
  match e with
  | IntImm _ _ | UIntImm _ _ | StringImm _ => true
  | FloatImm _ _ => false
  | Cast t v => negb (is_float t) && negb (is_int t && (bits t =? 1)) && usual_types v
  | Load t _ v _ _ => negb (is_float t) && usual_types v
  | Var t _ _ _ _ => negb (is_float t)
  | Not v | Broadcast v _ => usual_types v
  | Bin _ a b | Ramp a b _ | Let _ a b => usual_types a && usual_types b
  | Select c t f => usual_types c && usual_types t && usual_types f
  | Call t _ args _ _ _ _ _ => negb (is_float t) && forallb usual_types args
  end.

Lemma usual_plain e : usual_types e = true -> plain_floats e = true.
Proof.
  induction e using Expr_ind'; simpl; rewrite ?andb_true_iff; try done; try tauto.
  rewrite !forallb_forall. intros [_ Ha] x Hx. rewrite Forall_forall in H.
  apply H; [by apply list_elem_of_In|auto].
Qed.

Lemma with_lanes_code t l : code (with_lanes t l) = code t.
Proof. done. Qed.

(** What the passes keep of an expression. *)
Record good (Γ : gmap string Ty) (e : Expr) : Prop := {
  good_wf : wf e;
  good_typed : typed Γ e;
  good_types : usual_types e = true
}.

(** An expression of the type [t], up to the C++ part of handle types. *)
Record hasty (Γ : gmap string Ty) (t : Ty) (e : Expr) : Prop := {
  hasty_good : good Γ e;
  hasty_type : type_eqb (type e) t = true
}.

Definition arith (op : binop) : bool := negb (is_comparison op || is_logical op).

Section Types.
Context (Γ : gmap string Ty) (t : Ty) (Ht : std_int t).

Lemma std_handle : is_handle t = false.
Proof. by apply (std_int_class t Ht). Qed.

Lemma type_eqb_std u : type_eqb u t = true <-> code u = code t /\ bits u = bits t /\ lanes u = lanes t.
Proof. rewrite type_eqb_sym, type_eqb_numeric by apply std_handle. naive_solver. Qed.

Lemma type_eqb_trans_std u w : type_eqb u t = true -> type_eqb w t = true -> type_eqb u w = true.
Proof.
  intros Hu Hw. pose proof (type_eqb_classes _ _ Hu) as (_ & _ & _ & Hh & _).
  apply type_eqb_numeric; [by rewrite Hh, std_handle|].
  apply type_eqb_std in Hu, Hw. naive_solver congruence.
Qed.

Lemma arith_type op a b : arith op = true -> type (Bin op a b) = type a.
Proof. unfold arith. simpl. by destruct (is_comparison op || is_logical op). Qed.

Lemma hasty_bin op a b : arith op = true -> hasty Γ t (Bin op a b) <-> hasty Γ t a /\ hasty Γ t b.
Proof.
  intros Hop. assert (Hl : is_logical op = false) by (by destruct op). split.
  - intros [[[[Heq _] [Hwa Hwb]] [Hta Htb] Hf] Hty]. rewrite arith_type in Hty by done.
    simpl in Hf. apply andb_true_iff in Hf as [Hfa Hfb]. split; (split; [by split|]); [done|].
    apply type_eqb_fields in Heq. apply type_eqb_std in Hty. apply type_eqb_std. naive_solver congruence.
  - intros [[[] Ha] [[] Hb]]. split; [|by rewrite arith_type].
    split; [|by split|simpl; by apply andb_true_iff].
    cbn [wf wf_node]. rewrite Hl. split; [split|]; [by apply type_eqb_trans_std|done|done].
Qed.

Lemma hasty_fields e : hasty Γ t e -> code (type e) = code t /\ bits (type e) = bits t /\ lanes (type e) = lanes t.
Proof. intros [_ H]. by apply type_eqb_std. Qed.

Lemma hasty_const z : representable t z = true -> hasty Γ t (const_node t z).
Proof.
  intros Hz. split; [split|].
  - by apply const_node_wf.
  - by apply const_node_typed.
  - unfold const_node. by destruct (is_vector t), (is_int t).
  - rewrite const_node_type by done. apply type_eqb_refl.
Qed.

Lemma hasty_scalar e : hasty Γ t e -> is_vector (type e) = is_vector t.
Proof. intros H. apply hasty_fields in H as (_ & _ & Hl). unfold is_vector. by rewrite Hl. Qed.

(** The front end's operators do not convert operands of one type. *)
Lemma operator_same mk nm a b : hasty Γ t a -> hasty Γ t b ->
  operator_ee mk nm (eref a) (eref b) = mk (eref a) (eref b).
Proof.
  intros Ha Hb. unfold operator_ee, match_types. simpl.
  assert (Hh : forall e, hasty Γ t e -> is_handle (type e) = false).
  { intros e [_ He]. pose proof (type_eqb_classes _ _ He) as (_ & _ & _ & Hh & _). by rewrite Hh, std_handle. }
  rewrite (Hh a), (Hh b) by done. simpl.
  by rewrite (type_eqb_trans_std (type a) (type b)) by (by eapply hasty_type).
Qed.

Lemma binary_make_same op nm a b : is_logical op = false -> hasty Γ t a -> hasty Γ t b ->
  binary_make op nm (eref a) (eref b) = Ok (Bin op a b).
Proof.
  intros Hl [_ Ha] [_ Hb]. unfold binary_make, internal_assert. simpl. by rewrite type_eqb_trans_std.
Qed.
End Types.

(** * Arithmetic of a lane *)

(** The values of the type, and the value of an operation. *)
Definition in_type (t : Ty) (z : Z) : Prop := unbounded t = true \/ representable t z = true.
Definition norm (t : Ty) (z : Z) : Z := if unbounded t then z else wrap_type t z.

Definition iop (t : Ty) (op : binop) (x y : Z) : Z :=
  match op with
  | Add => norm t (x + y)
  | Sub => norm t (x - y)
  | Mul => norm t (x * y)
  | Div => norm t (ediv x y)
  | Mod => norm t (emod x y)
  | Min => Z.min x y
  | Max => Z.max x y
  | _ => 0
  end.
Definition defd (op : binop) (y : Z) : Prop := match op with Div | Mod => y <> 0 | _ => True end.

Section Norm.
Context (t : Ty) (Ht : std_int t).

Lemma norm_form z : exists k, norm t z = z + k * 2 ^ bits t /\ (unbounded t = true -> k = 0).
Proof.
  unfold norm. destruct (unbounded t); [exists 0; split; lia|].
  destruct (wrap_type_form t z) as [k Hk]; [apply (std_int_bits t Ht)|]. by exists k.
Qed.

Lemma norm_shift z k : (unbounded t = true -> k = 0) -> norm t (z + k * 2 ^ bits t) = norm t z.
Proof.
  intros Hk. unfold norm. destruct (unbounded t).
  - rewrite Hk by done. f_equal. lia.
  - apply wrap_type_add_mul, (std_int_bits t Ht).
Qed.

Lemma norm_id z : in_type t z -> norm t z = z.
Proof. intros [H|H]; unfold norm; [by rewrite H|]. destruct (unbounded t); [done|]. by apply representable_wrap. Qed.

Lemma norm_in_type z : in_type t (norm t z).
Proof.
  unfold in_type, norm. destruct (unbounded t); [by left|right].
  apply wrap_representable; [by apply std_int_bits|]. by apply (std_int_class t Ht).
Qed.

Lemma norm_norm z : norm t (norm t z) = norm t z.
Proof. apply norm_id, norm_in_type. Qed.

Lemma norm_unbounded z : unbounded t = true -> norm t z = z.
Proof. unfold norm. by intros ->. Qed.

Lemma in_type_iop op x y : arith op = true -> in_type t x -> in_type t y -> in_type t (iop t op x y).
Proof.
  intros Hop Hx Hy. destruct op; try done; simpl; try apply norm_in_type.
  - destruct (Z.min_spec x y) as [[_ ->]|[_ ->]]; done.
  - destruct (Z.max_spec x y) as [[_ ->]|[_ ->]]; done.
Qed.

(** The integers [no_overflow] holds of are the unbounded ones. *)
Lemma no_overflow_unbounded u : type_eqb u t = true -> no_overflow u = true -> unbounded t = true.
Proof.
  intros Hu H. pose proof (type_eqb_classes _ _ Hu) as (_ & _ & Hf & _).
  apply type_eqb_fields in Hu as (Hc & Hb & _).
  pose proof (std_int_class t Ht) as (_ & Hft & _). pose proof (std_int_bits t Ht).
  unfold no_overflow in H. rewrite Hf, Hft in H. simpl in H. unfold no_overflow_scalar_int in H.
  bool_to_prop. destruct (element_of_fields u) as (Hc' & Hb' & _); [lia|].
  unfold unbounded. rewrite Hb', Hb in H1. apply andb_true_iff. split; [|lia].
  unfold is_int in *. rewrite Hc', Hc in H2. done.
Qed.
End Norm.

(** ** Congruence: equality of what the type keeps *)
Definition cong (t : Ty) (a b : Z) : Prop := exists k, a = b + k * 2 ^ bits t /\ (unbounded t = true -> k = 0).

#[global] Instance cong_equivalence t : Equivalence (cong t).
Proof.
  split.
  - intros a. exists 0. split; [ring|done].
  - intros a b (k & -> & Hk). exists (- k). split; [ring|]. intros H. rewrite (Hk H). done.
  - intros a b c (k & -> & Hk) (l & -> & Hl). exists (l + k). split; [ring|]. intros H. by rewrite (Hk H), (Hl H).
Qed.

#[global] Instance cong_add t : Proper (cong t ==> cong t ==> cong t) Z.add.
Proof.
  intros a a' (k & -> & Hk) b b' (l & -> & Hl). exists (k + l). split; [ring|]. intros H. by rewrite (Hk H), (Hl H).
Qed.
#[global] Instance cong_sub t : Proper (cong t ==> cong t ==> cong t) Z.sub.
Proof.
  intros a a' (k & -> & Hk) b b' (l & -> & Hl). exists (k - l). split; [ring|]. intros H. by rewrite (Hk H), (Hl H).
Qed.
#[global] Instance cong_mul t : Proper (cong t ==> cong t ==> cong t) Z.mul.
Proof.
  intros a a' (k & -> & Hk) b b' (l & -> & Hl). exists (a' * l + k * b' + k * l * 2 ^ bits t).
  split; [ring|]. intros H. rewrite (Hk H), (Hl H). ring.
Qed.

Lemma cong_eq t a b : a = b -> cong t a b.
Proof. by intros ->. Qed.
Lemma norm_cong t z : std_int t -> cong t (norm t z) z.
Proof. intros Ht. destruct (norm_form t Ht z) as (k & -> & Hk). by exists k. Qed.
Existing Class std_int.
#[global] Instance norm_proper t : std_int t -> Proper (cong t ==> cong t) (norm t).
Proof. intros Ht a b H. by rewrite !norm_cong. Qed.
Lemma cong_norm t a b : std_int t -> cong t a b -> norm t a = norm t b.
Proof. intros Ht (k & -> & Hk). by apply norm_shift. Qed.
Lemma cong_norm_id t a b : std_int t -> in_type t b -> cong t a b -> norm t a = b.
Proof. intros Ht Hb Hab. rewrite <- (norm_id t b Hb). by apply cong_norm. Qed.

(** Small constants survive at every width. *)
Lemma cong_wrap t z : std_int t -> -2147483648 <= z < 2147483648 -> cong t (wrap_type t z) z.
Proof.
  intros Ht Hz. destruct (wrap_type_form t z) as [k Hk]; [by apply std_int_bits|]. exists k. split; [done|].
  intros Hu. pose proof (std_int_bits t Ht). unfold unbounded in Hu. apply andb_true_iff in Hu as [Hi Hb].
  apply Z.leb_le in Hb. unfold wrap_type in Hk. rewrite Hi, swrap_id in Hk.
  - pose proof (pow2_pos (bits t)). nia.
  - lia.
  - apply (srange_mono 32); [lia|]. unfold in_srange. lia.
Qed.

(** An equation of ring expressions under [norm]. *)
Ltac norm_ring :=
  first [ reflexivity
        | apply cong_norm; [assumption|] | apply cong_norm_id; [assumption|assumption|]
        | symmetry; apply cong_norm_id; [assumption|assumption|] ];
  rewrite ?norm_cong by assumption; rewrite ?cong_wrap by (assumption || lia); apply cong_eq; ring.

(** * Values as functions of the lane *)

Definition tab (n : nat) (f : nat -> Z) : value := (fun i => VInt (f i)) <$> seq 0 n.
Definition nlanes (t : Ty) : nat := Z.to_nat (lanes t).

Lemma tab_length n f : length (tab n f) = n.
Proof. unfold tab. by rewrite length_fmap, length_seq. Qed.

Lemma tab_lookup n f i : (i < n)%nat -> tab n f !! i = Some (VInt (f i)).
Proof. intros H. unfold tab. rewrite list_lookup_fmap, lookup_seq_lt by done. done. Qed.

Lemma tab_eq n f g : tab n f = tab n g <-> forall i, (i < n)%nat -> f i = g i.
Proof.
  split.
  - intros H i Hi. pose proof (tab_lookup n f i Hi) as Hf. rewrite H, tab_lookup in Hf by done. congruence.
  - intros H. apply list_fmap_ext. intros j i Hj. apply lookup_seq in Hj as [-> Hi]. by rewrite H.
Qed.

Lemma tab_of n v zs : v = VInt <$> zs -> length v = n -> v = tab n (fun i => nth i zs 0).
Proof.
  intros -> Hn. rewrite length_fmap in Hn. subst n. unfold tab. induction zs as [|z zs IH]; [done|].
  simpl. f_equal. by rewrite <- fmap_S_seq, <- list_fmap_compose.
Qed.

Lemma tab_replicate n z : replicate n (VInt z) = tab n (fun _ => z).
Proof.
  unfold tab. generalize 0%nat. induction n as [|n IH]; intros k; [done|]. simpl. by rewrite (IH (S k)).
Qed.

Lemma tab_one f : tab 1 f = [VInt (f 0%nat)].
Proof. done. Qed.

Lemma zip_tab (h : scalar -> scalar -> option scalar) k n f g r :
  (forall i, (i < n)%nat -> h (VInt (f (i + k)%nat)) (VInt (g (i + k)%nat)) = Some (VInt (r (i + k)%nat))) ->
  zip_with_M h ((fun i => VInt (f i)) <$> seq k n) ((fun i => VInt (g i)) <$> seq k n) =
  Some ((fun i => VInt (r i)) <$> seq k n).
Proof.
  revert k. induction n as [|n IH]; intros k H; [done|]. simpl.
  pose proof (H 0%nat ltac:(lia)) as H0. simpl in H0. rewrite H0. cbn [mbind option_bind]. rewrite IH; [done|].
  intros i Hi. replace (i + S k)%nat with (S i + k)%nat by lia. apply H. lia.
Qed.

Section Values.
Context (Γ : gmap string Ty) (ρ : env) (Hρ : env_ok Ideal Γ ρ).
Context (t : Ty) (Ht : std_int t).

(** [e] has the value [f i] in lane [i]. *)
Definition den (e : Expr) (f : nat -> Z) : Prop := eval Ideal ρ e = Some (tab (nlanes t) f).

Lemma den_same e f g : den e f -> den e g -> forall i, (i < nlanes t)%nat -> f i = g i.
Proof. unfold den. intros Hf Hg. rewrite Hf in Hg. apply tab_eq. congruence. Qed.

Lemma den_ext e f g : den e f -> (forall i, (i < nlanes t)%nat -> f i = g i) -> den e g.
Proof. unfold den. intros -> H. f_equal. by apply tab_eq. Qed.

(** A value of the type is a function. *)
Lemma den_intro e v : hasty Γ t e -> eval Ideal ρ e = Some v ->
  exists f, den e f /\ v = tab (nlanes t) f /\ forall i, (i < nlanes t)%nat -> in_type t (f i).
Proof.
  intros [[Hwf Hty _] He] Hv. pose proof (eval_value_ok Ideal Γ ρ e v Hwf Hty Hρ Hv) as Hok.
  apply (value_ok_eqb _ _ _ _ He) in Hok as [Hl Hf].
  pose proof (std_int_class t Ht) as (Hi & Hfl & Hh).
  assert (exists zs, v = VInt <$> zs) as [zs Hzs].
  { clear Hl Hv. induction Hf as [|s v Hs Hf IH]; [by exists []|]. destruct IH as [zs ->].
    destruct s as [z|f|s|z]; simpl in Hs; [by exists (z :: zs)|congruence..]. }
  assert (Hn : length v = nlanes t) by (unfold nlanes; lia).
  pose proof (tab_of _ _ _ Hzs Hn) as Hv'. exists (fun i => nth i zs 0). unfold den. rewrite Hv, <- Hv'.
  split; [done|]. split; [done|]. intros i Hi'.
  assert (Hin : v !! i = Some (VInt (nth i zs 0))) by (rewrite Hv'; by apply tab_lookup).
  rewrite Forall_lookup in Hf. by destruct (Hf _ _ Hin) as [_ ?].
Qed.

Lemma eval_iop op u x y z : type_eqb u t = true -> arith op = true ->
  eval_binop Ideal op u (VInt x) (VInt y) = Some z <-> defd op y /\ z = VInt (iop t op x y).
Proof.
  intros Hu Hop. rewrite type_eqb_std in Hu by done. destruct Hu as (Hc & Hb & _).
  rewrite (eval_binop_fields Ideal op u t) by done.
  destruct op; try done; cbn [eval_binop int_binop ov_result defd iop]; unfold norm; simpl;
    try (destruct (Z.eqb_spec y 0); simpl); naive_solver.
Qed.

Lemma den_bin op a b f g : arith op = true -> hasty Γ t a ->
  den a f -> den b g -> (forall i, (i < nlanes t)%nat -> defd op (g i)) ->
  den (Bin op a b) (fun i => iop t op (f i) (g i)).
Proof.
  intros Hop Ha Hf Hg Hd. unfold den in *. cbn [eval]. rewrite Hf, Hg. cbn [mbind option_bind].
  apply zip_tab. intros i Hi. rewrite Nat.add_0_r. apply eval_iop; [by eapply hasty_type|done|].
  split; [by apply Hd|done].
Qed.

Lemma den_bin_inv op a b v : arith op = true -> hasty Γ t a -> hasty Γ t b ->
  eval Ideal ρ (Bin op a b) = Some v ->
  exists f g, den a f /\ den b g /\
    (forall i, (i < nlanes t)%nat -> in_type t (f i) /\ in_type t (g i) /\ defd op (g i)) /\
    v = tab (nlanes t) (fun i => iop t op (f i) (g i)).
Proof.
  intros Hop Ha Hb Hv. pose proof Hv as Hv0. cbn [eval] in Hv.
  apply bind_Some in Hv as (va & Hva & Hv). apply bind_Some in Hv as (vb & Hvb & Hv).
  destruct (den_intro _ _ Ha Hva) as (f & Hf & -> & Hif), (den_intro _ _ Hb Hvb) as (g & Hg & -> & Hig).
  assert (Hd : forall i, (i < nlanes t)%nat -> defd op (g i)).
  { intros i Hi. pose proof (zip_with_M_length _ _ _ _ Hv) as [Hl _]. rewrite tab_length in Hl.
    destruct (lookup_lt_is_Some_2 v i ltac:(lia)) as [s Hs].
    destruct (zip_with_M_lookup _ _ _ _ _ _ Hv Hs) as (x & y & Hx & Hy & Hxy).
    rewrite tab_lookup in Hx, Hy by done. injection Hx as <-. injection Hy as <-.
    apply (eval_iop op _ _ _ _ (hasty_type _ _ _ Ha) Hop) in Hxy as [? _]. done. }
  exists f, g. repeat split; try done; try (by apply Hif); try (by apply Hig); try (by apply Hd).
  pose proof (den_bin op a b f g Hop Ha Hf Hg Hd) as Hden. unfold den in Hden. congruence.
Qed.

Lemma den_const z : den (const_node t z) (fun _ => z).
Proof. unfold den. rewrite const_node_eval by done. f_equal. apply tab_replicate. Qed.

(** ** Constants *)

Lemma den_replicate e f z n : den e f -> eval Ideal ρ e = Some (replicate n (VInt z)) ->
  forall i, (i < nlanes t)%nat -> f i = z.
Proof.
  unfold den. intros Hf He i Hi. rewrite Hf in He. injection He as He.
  assert (Hlen : n = nlanes t) by (rewrite <- (tab_length (nlanes t) f), He; by rewrite length_replicate).
  subst n. rewrite tab_replicate in He. by apply (proj1 (tab_eq _ _ _) He).
Qed.

Lemma den_int e f z : as_const_int_expr e = Some z -> den e f -> forall i, (i < nlanes t)%nat -> f i = z.
Proof.
  intros Hc Hf. pose proof Hf as He. unfold den in He.
  destruct (as_const_int_eval _ _ _ _ _ Hc He) as [n Hn]. rewrite Hn in He. by eapply den_replicate.
Qed.

Lemma den_uint e f z : as_const_uint_expr e = Some z -> den e f -> forall i, (i < nlanes t)%nat -> f i = z.
Proof.
  intros Hc Hf. pose proof Hf as He. unfold den in He.
  destruct (as_const_uint_eval _ _ _ _ _ Hc He) as [n Hn]. rewrite Hn in He. by eapply den_replicate.
Qed.
End Values.

(** A constant 0 or 1 survives every conversion these predicates look through. *)
Lemma wrap_type_zero u : wrap_type u 0 = 0.
Proof.
  unfold wrap_type, uwrap, swrap. destruct (is_int u).
  - destruct (Z.lt_ge_cases 0 (bits u)).
    + apply (swrap_id (bits u) 0); [done|]. unfold in_srange. pose proof (pow2_pos (bits u - 1)). lia.
    + rewrite (Z.pow_neg_r 2 (bits u - 1)) by lia. simpl. rewrite Zmod_0_l. done.
  - apply Zmod_0_l.
Qed.

Lemma wrap_type_one u : 0 < bits u -> is_int u && (bits u =? 1) = false -> wrap_type u 1 = 1.
Proof.
  intros Hb H. unfold wrap_type. destruct (is_int u); simpl in H.
  - apply Z.eqb_neq in H. apply swrap_id; [done|]. unfold in_srange.
    pose proof (Z.pow_le_mono_r 2 1 (bits u - 1)). lia.
  - apply uwrap_id. unfold in_urange. pose proof (Z.pow_le_mono_r 2 1 (bits u)). lia.
Qed.

Lemma cast_replicate p src u z n w : is_float u = false -> wrap_type u z = z ->
  mapM (cast_scalar p src u) (replicate n (VInt z)) = Some w -> w = replicate n (VInt z).
Proof.
  intros Hf Hz. revert w. induction n as [|n IH]; intros w H; [by injection H as <-|].
  cbn [replicate mapM] in H. apply bind_Some in H as (s & Hs & H). apply bind_Some in H as (r & Hr & [= <-]).
  rewrite (IH r Hr). simpl. f_equal. cbn [cast_scalar] in Hs. rewrite Hf in Hs.
  destruct (is_int u || is_uint u); [|done]. apply bind_Some in Hs as (z' & Hz' & [= <-]). f_equal.
  destruct p; simpl in Hz'; repeat case_match; simplify_eq; auto.
Qed.

Lemma broadcast_replicate (v w : value) l z n : v = replicate n (VInt z) ->
  match v with [x] => Some (replicate l x) | _ => None end = Some w -> w = replicate l (VInt z).
Proof. intros ->. destruct n as [|[|n]]; by intros [= <-]. Qed.

Lemma is_zero_eval p ρ e v : is_zero e = true -> usual_types e = true -> eval p ρ e = Some v ->
  exists n, v = replicate n (VInt 0).
Proof.
  revert v. induction e using Expr_ind'; intros w Hz Hf He; simpl in *; try done.
  1,2: apply Z.eqb_eq in Hz as ->; injection He as <-; by exists 1%nat.
  - rewrite !andb_true_iff, !negb_true_iff in Hf. destruct Hf as [[Hft _] Hf].
    apply bind_Some in He as (vs & Hvs & He). destruct (IHe _ Hz Hf Hvs) as [n ->]. exists n.
    by eapply cast_replicate; [|apply wrap_type_zero|].
  - apply bind_Some in He as (vs & Hvs & He). destruct (IHe _ Hz Hf Hvs) as [n Hn].
    exists (Z.to_nat l). by eapply broadcast_replicate.
Qed.

Lemma is_one_eval p ρ Γ e v : is_one e = true -> usual_types e = true -> typed Γ e -> eval p ρ e = Some v ->
  exists n, v = replicate n (VInt 1).
Proof.
  revert v. induction e using Expr_ind'; intros w Hz Hf Ht He; simpl in *; try done.
  1,2: apply Z.eqb_eq in Hz as ->; injection He as <-; by exists 1%nat.
  - rewrite !andb_true_iff, !negb_true_iff in Hf. destruct Hf as [[Hft H1] Hf], Ht as [[Hb _] Ht].
    apply bind_Some in He as (vs & Hvs & He). destruct (IHe _ Hz Hf Ht Hvs) as [n ->]. exists n.
    eapply cast_replicate; [exact Hft| |exact He]. apply wrap_type_one; [lia|done].
  - apply bind_Some in He as (vs & Hvs & He). destruct (IHe _ Hz Hf (proj1 Ht) Hvs) as [n Hn].
    exists (Z.to_nat l). by eapply broadcast_replicate.
Qed.

(** * Vectors *)

Lemma norm_fields t u z : code t = code u -> bits t = bits u -> norm t z = norm u z.
Proof. unfold norm, unbounded, wrap_type, is_int. by intros -> ->. Qed.
Lemma in_type_fields t u z : code t = code u -> bits t = bits u -> in_type t z -> in_type u z.
Proof. unfold in_type, unbounded, representable, is_int, is_uint. by intros -> ->. Qed.

Section Vectors.
Context (Γ : gmap string Ty) (ρ : env) (Hρ : env_ok Ideal Γ ρ).
Context (t : Ty) (Ht : std_int t).

Notation te := (element_of t).

Lemma std_element : std_int te.
Proof. by apply std_int_element. Qed.

Lemma element_norm z : norm te z = norm t z.
Proof. destruct (element_of_fields t (std_int_bits t Ht)) as (? & ? & _). by apply norm_fields. Qed.
Lemma element_in_type z : in_type te z <-> in_type t z.
Proof. destruct (element_of_fields t (std_int_bits t Ht)) as (? & ? & _). split; by apply in_type_fields. Qed.
Lemma element_lanes : nlanes te = 1%nat.
Proof. destruct (element_of_fields t (std_int_bits t Ht)) as (_ & _ & Hl). unfold nlanes. by rewrite Hl. Qed.

(** The element of a node whose type is [with_lanes (type x) l]. *)
Lemma hasty_element x l : good Γ x -> is_scalar (type x) = true -> 0 <= l < 65536 ->
  type_eqb (with_lanes (type x) l) t = true -> hasty Γ te x /\ l = lanes t.
Proof.
  intros Hx Hs Hl He. rewrite type_eqb_std in He by done. destruct He as (Hc & Hb & Hl').
  pose proof (ty_ok_type Γ x (good_wf _ _ Hx) (good_typed _ _ Hx)) as [Hbx _].
  simpl in Hc, Hb, Hl'. rewrite small_bits in Hb by done. rewrite small_lanes in Hl' by done.
  split; [|done]. split; [done|]. rewrite type_eqb_std by apply std_element.
  destruct (element_of_fields t (std_int_bits t Ht)) as (-> & -> & ->).
  unfold is_scalar in Hs. bool_to_prop. done.
Qed.

Lemma element_hasty x : hasty Γ te x -> type_eqb (with_lanes (type x) (lanes t)) t = true /\ is_scalar (type x) = true.
Proof.
  intros Hx. apply hasty_fields in Hx as (Hc & Hb & Hl); [|apply std_element].
  destruct (element_of_fields t (std_int_bits t Ht)) as (Hc' & Hb' & Hl').
  split; [|unfold is_scalar; by rewrite Hl, Hl'].
  rewrite type_eqb_std by done. simpl. rewrite Hc, Hb, Hc', Hb'. split; [done|]. split.
  - apply small_bits, std_int_bits, Ht.
  - apply small_lanes. destruct Ht as (_ & ? & _). lia.
Qed.

Lemma lanes_small : 0 < lanes t < 65536.
Proof. by destruct Ht as (_ & ? & _). Qed.

Lemma hasty_broadcast x l : hasty Γ t (Broadcast x l) -> hasty Γ te x /\ l = lanes t /\ lanes t <> 1.
Proof.
  intros [[[[Hs Hl] Hwf] [Hty Hlt] Hf] He]. destruct (hasty_element x l) as [Hx ->]; try done.
Qed.

Lemma broadcast_hasty x : hasty Γ te x -> lanes t <> 1 ->
  Broadcast_make (eref x) (lanes t) = Ok (Broadcast x (lanes t)) /\ hasty Γ t (Broadcast x (lanes t)).
Proof.
  intros Hx Hl. destruct (element_hasty x Hx) as [He Hs]. pose proof lanes_small.
  split.
  - unfold Broadcast_make, internal_assert. simpl. rewrite Hs. by apply Z.eqb_neq in Hl as ->.
  - destruct Hx as [[] _]. split; [|done]. split; [by split|split; [done|lia]|done].
Qed.

Lemma den_broadcast x f : den ρ te x f -> den ρ t (Broadcast x (lanes t)) (fun _ => f 0%nat).
Proof.
  unfold den. rewrite element_lanes, tab_one. cbn [eval]. intros ->. cbn [mbind option_bind].
  f_equal. apply tab_replicate.
Qed.

Lemma den_broadcast_inv x l F : hasty Γ t (Broadcast x l) -> den ρ t (Broadcast x l) F ->
  exists f, den ρ te x f /\ in_type t (f 0%nat) /\ forall i, (i < nlanes t)%nat -> F i = f 0%nat.
Proof.
  intros Hb HF. destruct (hasty_broadcast _ _ Hb) as (Hx & -> & _).
  pose proof HF as He. unfold den in He. cbn [eval] in He. apply bind_Some in He as (vx & Hvx & _).
  destruct (den_intro Γ ρ Hρ te std_element x vx Hx Hvx) as (f & Hf & _ & Hin). exists f.
  split; [done|]. split; [apply element_in_type, Hin; rewrite element_lanes; lia|].
  eapply den_same; [done|]. by apply den_broadcast.
Qed.

Lemma hasty_ramp b s l : hasty Γ t (Ramp b s l) -> hasty Γ te b /\ hasty Γ te s /\ l = lanes t /\ 1 < lanes t.
Proof.
  intros [[[(Hs & Hl & Heq) [Hwb Hws]] (Htb & Hts & Hlt) Hf] He]. simpl in Hf.
  apply andb_true_iff in Hf as [Hfb Hfs]. apply andb_true_iff in Hs as [Hsb Hss].
  destruct (hasty_element b l) as [Hb ->]; [done..|lia|done|].
  split; [done|]. split; [|done]. split; [done|].
  destruct Hb as [_ Hb]. apply type_eqb_fields in Heq. rewrite type_eqb_std in * by apply std_element.
  naive_solver congruence.
Qed.

Lemma ramp_hasty b s : hasty Γ te b -> hasty Γ te s -> 1 < lanes t ->
  Ramp_make (eref b) (eref s) (lanes t) = Ok (Ramp b s (lanes t)) /\ hasty Γ t (Ramp b s (lanes t)).
Proof.
  intros Hb Hs Hl. destruct (element_hasty b Hb) as [He Hsb], (element_hasty s Hs) as [_ Hss].
  pose proof lanes_small. pose proof (type_eqb_trans_std te std_element _ _ (hasty_type _ _ _ Hs) (hasty_type _ _ _ Hb)) as Heq.
  split.
  - unfold Ramp_make, internal_assert. simpl. rewrite Hsb, Hss, Heq. by rewrite (proj2 (Z.ltb_lt 1 _) Hl).
  - destruct Hb as [[] _], Hs as [[] _]. split; [|done]. split.
    + cbn [wf wf_node]. rewrite Hsb, Hss. done.
    + split; [done|]. split; [done|lia].
    + simpl. by apply andb_true_iff.
Qed.

Lemma ramp_values u n x y k : code u = code t -> bits u = bits t -> in_type t x ->
  ramp_lanes Ideal u n (VInt (norm t (x + Z.of_nat k * y))) (VInt y) =
  Some ((fun i => VInt (norm t (x + Z.of_nat i * y))) <$> seq k n).
Proof.
  intros Hc Hb Hx. revert k. induction n as [|n IH]; intros k; [done|]. destruct n as [|n]; [done|].
  change (ramp_lanes Ideal u (S (S n)) ?b ?s) with
    (next ← eval_binop Ideal Add u b s; rest ← ramp_lanes Ideal u (S n) next s; Some (b :: rest)).
  rewrite (eval_binop_fields Ideal Add u t) by done. cbn [eval_binop int_binop ov_result mbind option_bind].
  change (if unbounded t then ?a else wrap_type t ?a) with (norm t a).
  replace (norm t (norm t (x + Z.of_nat k * y) + y)) with (norm t (x + Z.of_nat (S k) * y)); [by rewrite IH|].
  rewrite Nat2Z.inj_succ. norm_ring.
Qed.

Lemma den_ramp b s f g : hasty Γ te b -> den ρ te b f -> den ρ te s g -> in_type t (f 0%nat) ->
  den ρ t (Ramp b s (lanes t)) (fun i => norm t (f 0%nat + Z.of_nat i * g 0%nat)).
Proof.
  unfold den. rewrite element_lanes, !tab_one. cbn [eval]. intros Hb -> -> Hf. cbn [mbind option_bind].
  apply hasty_fields in Hb as (Hc & Hbits & _); [|apply std_element].
  destruct (element_of_fields t (std_int_bits t Ht)) as (Hc' & Hb' & _).
  pose proof (ramp_values (type b) (nlanes t) (f 0%nat) (g 0%nat) 0 ltac:(congruence) ltac:(congruence) Hf) as H.
  rewrite Z.mul_0_l, Z.add_0_r, norm_id in H by done. exact H.
Qed.

Lemma den_ramp_inv b s l F : hasty Γ t (Ramp b s l) -> den ρ t (Ramp b s l) F ->
  exists f g, den ρ te b f /\ den ρ te s g /\ in_type t (f 0%nat) /\ in_type t (g 0%nat) /\
    forall i, (i < nlanes t)%nat -> F i = norm t (f 0%nat + Z.of_nat i * g 0%nat).
Proof.
  intros Hr HF. destruct (hasty_ramp _ _ _ Hr) as (Hb & Hs & -> & _).
  pose proof HF as He. unfold den in He. cbn [eval] in He.
  apply bind_Some in He as (vb & Hvb & He). apply bind_Some in He as (vs & Hvs & _).
  destruct (den_intro Γ ρ Hρ te std_element b vb Hb Hvb) as (f & Hf & _ & Hfi).
  destruct (den_intro Γ ρ Hρ te std_element s vs Hs Hvs) as (g & Hg & _ & Hgi).
  rewrite element_lanes in Hfi, Hgi. exists f, g.
  assert (in_type t (f 0%nat)) by (apply element_in_type, Hfi; lia).
  assert (in_type t (g 0%nat)) by (apply element_in_type, Hgi; lia).
  repeat split; try done. eapply den_same; [done|]. by apply den_ramp.
Qed.

(** ** [Select] *)

(** What the condition says lane by lane; one lane speaks for all. *)
Definition picks (c : Expr) (p : nat -> bool) : Prop :=
  exists vc, eval Ideal ρ c = Some vc /\ (length vc = 1%nat \/ length vc = nlanes t) /\
    forall i, (i < nlanes t)%nat -> exists s, lane_condition vc i = Some s /\ truthy s = Some (p i).

Lemma picks_same c c' p q : eval Ideal ρ c = eval Ideal ρ c' -> picks c p -> picks c' q ->
  forall i, (i < nlanes t)%nat -> p i = q i.
Proof.
  intros He (vc & Hvc & _ & Hp) (vc' & Hvc' & _ & Hq) i Hi.
  destruct (Hp i Hi) as (s & Hs & Hps), (Hq i Hi) as (s' & Hs' & Hqs). congruence.
Qed.

Lemma select_lanes_tab vc k n f g p : length vc = n ->
  (forall i, (i < n)%nat -> exists s, vc !! i = Some s /\ truthy s = Some (p (i + k)%nat)) ->
  select_lanes vc ((fun i => VInt (f i)) <$> seq k n) ((fun i => VInt (g i)) <$> seq k n) =
  Some ((fun i => VInt (if p i : bool then f i else g i)) <$> seq k n).
Proof.
  revert k n. induction vc as [|c vc IH]; intros k [|n] Hn H; try done. simpl.
  destruct (H 0%nat ltac:(lia)) as (s & [= ->] & Hp). simpl in Hp. rewrite Hp. cbn [mbind option_bind].
  rewrite IH; [|by injection Hn|].
  - cbn [mbind option_bind]. by destruct (p k).
  - intros i Hi. destruct (H (S i) ltac:(lia)) as (s' & Hs & Hp'). exists s'. split; [done|].
    by replace (i + S k)%nat with (S i + k)%nat by lia.
Qed.

Lemma select_condition_length vc (vt vf v : value) n : length vt = n -> select_value vc vt vf = Some v ->
  length vc = 1%nat \/ length vc = n.
Proof.
  intros <- H. destruct vc as [|c0 [|c1 vc]]; [right|by left|right]; cbn [select_value] in H.
  - by destruct vt, vf.
  - clear Ht Hρ. revert H. generalize (c0 :: c1 :: vc). clear. intros vc H. revert vt vf v H.
    induction vc as [|c vc IH]; intros [|x vt] [|y vf] v H; simpl in H; try done.
    apply bind_Some in H as (b & _ & H). apply bind_Some in H as (r & Hr & _). simpl. f_equal. by eapply IH.
Qed.

Lemma den_select c x y p f g : picks c p -> den ρ t x f -> den ρ t y g ->
  den ρ t (Select c x y) (fun i => if p i then f i else g i).
Proof.
  intros (vc & Hvc & Hlen & Hp) Hf Hg. unfold den in *. cbn [eval]. rewrite Hvc, Hf, Hg. cbn [mbind option_bind].
  destruct vc as [|c0 [|c1 vc]].
  - destruct Hlen as [?|Hlen]; [done|]. unfold tab. by rewrite <- Hlen.
  - assert (Hn : (0 < nlanes t)%nat) by (unfold nlanes; pose proof lanes_small; lia).
    destruct (Hp 0%nat Hn) as (s & [= ->] & Hs). rewrite Hs. cbn [mbind option_bind].
    assert (Ha : forall i, (i < nlanes t)%nat -> p i = p 0%nat).
    { intros i Hi. destruct (Hp i Hi) as (s' & [= <-] & Hs'). congruence. }
    f_equal. destruct (p 0%nat) eqn:E; apply tab_eq; intros i Hi; by rewrite Ha.
  - destruct Hlen as [Hlen|Hlen]; [done|].
    apply (select_lanes_tab (c0 :: c1 :: vc) 0); [done|]. intros i Hi. rewrite Nat.add_0_r. by apply Hp.
Qed.

Lemma den_select_inv c x y v : hasty Γ t x -> hasty Γ t y -> eval Ideal ρ (Select c x y) = Some v ->
  exists p f g, picks c p /\ den ρ t x f /\ den ρ t y g /\
    (forall i, (i < nlanes t)%nat -> in_type t (f i) /\ in_type t (g i)) /\
    v = tab (nlanes t) (fun i => if p i : bool then f i else g i).
Proof.
  intros Hx Hy Hv. pose proof Hv as Hv0. cbn [eval] in Hv.
  apply bind_Some in Hv as (vc & Hvc & Hv). apply bind_Some in Hv as (vt & Hvt & Hv).
  apply bind_Some in Hv as (vf & Hvf & Hv).
  destruct (den_intro Γ ρ Hρ t Ht _ _ Hx Hvt) as (f & Hf & -> & Hif).
  destruct (den_intro Γ ρ Hρ t Ht _ _ Hy Hvf) as (g & Hg & -> & Hig).
  change (select_value vc (tab (nlanes t) f) (tab (nlanes t) g) = Some v) in Hv.
  pose proof (select_value_length _ _ _ _ ltac:(by rewrite !tab_length) Hv) as Hlen. rewrite tab_length in Hlen.
  exists (fun i => default false (lane_condition vc i ≫= truthy)), f, g.
  assert (Hp : picks c (fun i => default false (lane_condition vc i ≫= truthy))).
  { exists vc. split; [done|]. split.
    - eapply select_condition_length; [apply tab_length|exact Hv].
    - intros i Hi. destruct (lookup_lt_is_Some_2 v i ltac:(lia)) as [s Hs].
      destruct (select_value_lookup _ (tab (nlanes t) f) (tab (nlanes t) g) _ _ _ ltac:(by rewrite !tab_length) Hv Hs) as (s' & b & ? & ? & Hs' & Hb & _).
      exists s'. split; [done|]. rewrite Hs'. cbn [mbind option_bind]. by rewrite Hb. }
  split; [done|]. split; [done|]. split; [done|]. split; [naive_solver|].
  pose proof (den_select _ _ _ _ _ _ Hp Hf Hg) as Hd. unfold den in Hd. congruence.
Qed.

Lemma hasty_select c x y : hasty Γ t (Select c x y) ->
  good Γ c /\ hasty Γ t x /\ hasty Γ t y /\ is_bool (type c) = true /\
  is_scalar (type c) || (lanes (type c) =? lanes t) = true.
Proof.
  intros [[[(Hb & Heq & Hl) (Hwc & Hwx & Hwy)] (Htc & Htx & Hty) Hf] He]. simpl in Hf, He.
  rewrite !andb_true_iff in Hf. destruct Hf as [[Hfc Hfx] Hfy].
  assert (hasty Γ t x) as Hx by (by split).
  destruct (hasty_fields Γ t Ht x Hx) as (_ & _ & Hlx). rewrite Hlx in Hl.
  split; [done|]. split; [done|]. split; [|done]. split; [done|].
  apply type_eqb_fields in Heq. rewrite type_eqb_std in * by done. naive_solver congruence.
Qed.

Lemma select_hasty c x y : good Γ c -> hasty Γ t x -> hasty Γ t y -> is_bool (type c) = true ->
  is_scalar (type c) || (lanes (type c) =? lanes t) = true ->
  Select_make (eref c) (eref x) (eref y) = Ok (Select c x y) /\ hasty Γ t (Select c x y).
Proof.
  intros [] Hx Hy Hb Hl. pose proof (hasty_fields Γ t Ht x Hx) as (_ & _ & Hlx).
  pose proof (type_eqb_trans_std t Ht _ _ (hasty_type _ _ _ Hy) (hasty_type _ _ _ Hx)) as Heq.
  rewrite <- Hlx in Hl. split.
  - unfold Select_make, internal_assert. simpl. by rewrite Hb, Heq, Hl.
  - destruct Hx as [[] Hx], Hy as [[] _]. split; [|done]. split; [|done|simpl; by rewrite !andb_true_iff].
    by repeat split.
Qed.
End Vectors.
