(* ===== verification/Conditions.v ===== *)
(** Conditions lane by lane: comparisons of integers, and the logical operators, as
    functions from the lane to a boolean; what [select] builds of them. *)

From Stdlib Require Import ZArith Lia Bool SpecFloat String.
From stdpp Require Import prelude strings gmap.
From S2P Require Import Prelude Types IR Semantics Operators Equality EqualityMeaning ConstBounds Monotonic Lanes.

#[local] Open Scope Z_scope.

(** The comparison of two lanes. *)
Definition icmp (op : binop) (x y : Z) : bool :=
  match op with
  | EQ => x =? y
  | NE => negb (x =? y)
  | LT => x <? y
  | LE => x <=? y
  | GT => y <? x
  | GE => y <=? x
  | _ => false
  end.

Section Conditions.
Context (Γ : gmap string Ty) (ρ : env) (Hρ : env_ok Ideal Γ ρ).
Context (t : Ty) (Ht : std_int t).

Notation tb := (Bool (lanes t)).

Lemma bool_lanes : lanes tb = lanes t.
Proof. apply small_lanes. destruct Ht as (_ & ? & _). lia. Qed.

Lemma std_bool : std_int tb.
Proof. destruct Ht as (_ & ? & _). split; [done|]. split; [by rewrite bool_lanes|done]. Qed.

Lemma bool_nlanes : nlanes tb = nlanes t.
Proof. unfold nlanes. by rewrite bool_lanes. Qed.

Lemma bool_type e : type_eqb e tb = true <-> is_bool e = true /\ lanes e = lanes t.
Proof.
  rewrite (type_eqb_std tb std_bool), bool_lanes. unfold is_bool. rewrite andb_true_iff, bool_decide_eq_true, Z.eqb_eq. done || tauto.
Qed.

(** A value of the type of conditions is a condition. *)
Lemma in_type_bool z : in_type tb z <-> exists p, z = Z.b2z p.
Proof.
  unfold in_type. assert (unbounded tb = false) as -> by done.
  assert (representable tb z = true <-> 0 <= z < 2) as -> by (change (representable tb z) with (bool_decide (in_urange 1 z)); rewrite bool_decide_eq_true; unfold in_urange; lia).
  split.
  - intros [|Hz]; [done|]. exists (z =? 1). destruct (Z.eqb_spec z 1); simpl; lia.
  - intros [[] ->]; right; simpl; lia.
Qed.

(** ** Comparisons *)

Lemma cmp_arith op : is_comparison op = true -> arith op = false.
Proof. by destruct op. Qed.

Lemma type_cmp op x y : is_comparison op = true -> type (Bin op x y) = Bool (lanes (type x)).
Proof. intros H. simpl. by rewrite H. Qed.

Lemma hasty_cmp op x y : is_comparison op = true -> hasty Γ t x -> hasty Γ t y -> hasty Γ tb (Bin op x y).
Proof.
  intros Hop Hx Hy. destruct (hasty_fields Γ t Ht x Hx) as (_ & _ & Hl).
  assert (Hn : is_logical op = false) by (by destruct op).
  split; [|rewrite type_cmp, Hl by done; apply type_eqb_refl].
  destruct Hx as [[] Hx], Hy as [[] Hy]. split; [|done|simpl; by apply andb_true_iff].
  cbn [wf wf_node]. rewrite Hn. split; [split; [by apply (type_eqb_trans_std t Ht)|done]|done].
Qed.

Lemma cmp_hasty op x y : good Γ (Bin op x y) -> type_eqb (type x) t = true -> hasty Γ t x /\ hasty Γ t y.
Proof.
  intros [[[Heq _] [Hwa Hwb]] [Hta Htb] Hf] Hx. simpl in Hf. apply andb_true_iff in Hf as [Hfa Hfb].
  split; (split; [by split|]); [done|]. apply type_eqb_fields in Heq.
  rewrite (type_eqb_std t Ht) in *. naive_solver congruence.
Qed.

Lemma eval_icmp op u x y : is_comparison op = true ->
  eval_binop Ideal op u (VInt x) (VInt y) = Some (VInt (Z.b2z (icmp op x y))).
Proof. by destruct op. Qed.

Lemma den_cmp op x y f g : is_comparison op = true -> den ρ t x f -> den ρ t y g ->
  den ρ tb (Bin op x y) (fun i => Z.b2z (icmp op (f i) (g i))).
Proof.
  unfold den. rewrite bool_nlanes. intros Hop Hf Hg. cbn [eval]. rewrite Hf, Hg. cbn [mbind option_bind].
  apply zip_tab. intros i _. by rewrite Nat.add_0_r, eval_icmp.
Qed.

Lemma den_cmp_inv op x y F : is_comparison op = true -> hasty Γ t x -> hasty Γ t y -> den ρ tb (Bin op x y) F ->
  exists f g, den ρ t x f /\ den ρ t y g /\
    forall i, (i < nlanes t)%nat -> in_type t (f i) /\ in_type t (g i) /\ F i = Z.b2z (icmp op (f i) (g i)).
Proof.
  intros Hop Hx Hy HF. pose proof HF as He. unfold den in He. cbn [eval] in He.
  apply bind_Some in He as (vx & Hvx & He). apply bind_Some in He as (vy & Hvy & _).
  destruct (den_intro Γ ρ Hρ t Ht _ _ Hx Hvx) as (f & Hf & _ & Hif), (den_intro Γ ρ Hρ t Ht _ _ Hy Hvy) as (g & Hg & _ & Hig).
  exists f, g. split; [done|]. split; [done|]. intros i Hi. split; [by apply Hif|]. split; [by apply Hig|].
  apply (den_same ρ tb (Bin op x y) F (fun i => Z.b2z (icmp op (f i) (g i)))); [done|by apply den_cmp|by rewrite bool_nlanes].
Qed.

(** [select] on values of one type converts nothing. *)
Lemma select_same c x y : as_const_int_expr c = None -> is_bool (type c) = true -> hasty Γ t x -> hasty Γ t y ->
  select (eref c) (eref x) (eref y) = Select_make (eref c) (eref x) (eref y).
Proof.
  intros Hc Hb Hx Hy.
  pose proof (type_eqb_trans_std t Ht _ _ (hasty_type _ _ _ Hx) (hasty_type _ _ _ Hy)) as H1.
  pose proof (type_eqb_trans_std t Ht _ _ (hasty_type _ _ _ Hy) (hasty_type _ _ _ Hx)) as H2.
  assert (Hx' : cast (type y) (eref x) = Ok x) by (cbn [cast eref]; unfold cast_expr, cast_body; by rewrite H1).
  assert (Hy' : cast (type x) (eref y) = Ok y) by (cbn [cast eref]; unfold cast_expr, cast_body; by rewrite H2).
  unfold select, as_const_int. cbn [eref mbind option_bind] in *. rewrite Hc. cbn [mbind res_bind].
  unfold eref in *.
  destruct (as_const_int_expr x), (as_const_int_expr y); cbn [deref mbind res_bind];
    rewrite ?Hx'; cbn [deref mbind res_bind]; rewrite ?Hy'; cbn [deref mbind res_bind]; by rewrite Hb, H1.
Qed.

(** A condition is not an integer constant. *)
Lemma uint_const c : wf c -> is_int (type c) = false -> as_const_int_expr c = None.
Proof.
  induction c using Expr_ind'; intros Hwf Hb; try done; cbn [as_const_int_expr type] in *.
  - destruct Hwf as [[Hw _] _]. apply andb_true_iff in Hw as [Hw _]. apply andb_true_iff in Hw as [Hw _]. congruence.
  - apply IHc; [by destruct Hwf|done].
Qed.

Lemma condition_const c : wf c -> is_bool (type c) = true -> as_const_int_expr c = None.
Proof.
  intros Hwf Hb. apply uint_const; [done|]. unfold is_bool, is_int in *. apply andb_true_iff in Hb as [Hb _].
  apply bool_decide_eq_true in Hb as ->. done.
Qed.

(** A condition of as many lanes picks the side of a selection. *)
Lemma picks_den c p : den ρ tb c (fun i => Z.b2z (p i)) -> picks ρ t c p.
Proof.
  unfold den. rewrite bool_nlanes. intros Hc. exists (tab (nlanes t) (fun i => Z.b2z (p i))). split; [done|].
  split; [right; apply tab_length|]. intros i Hi. exists (VInt (Z.b2z (p i))). split; [|by destruct (p i)].
  unfold lane_condition. destruct (tab (nlanes t) _) as [|x [|y v]] eqn:E.
  - apply (f_equal length) in E. rewrite tab_length in E. simpl in E. lia.
  - pose proof (f_equal length E) as Hl. rewrite tab_length in Hl. simpl in Hl.
    assert (i = 0%nat) as -> by lia. pose proof (tab_lookup (nlanes t) (fun i => Z.b2z (p i)) 0 Hi) as H.
    rewrite E in H. exact H.
  - rewrite <- E. by apply tab_lookup.
Qed.

(** ** Logic *)

Lemma eval_ilogic op u x y p q : op = And \/ op = Or -> x = Z.b2z p -> y = Z.b2z q ->
  eval_binop Ideal op u (VInt x) (VInt y) = Some (VInt (Z.b2z (if bool_decide (op = And) then p && q else p || q))).
Proof. intros [-> | ->] -> ->; by destruct p, q. Qed.

Lemma hasty_logic op x y : is_logical op = true -> hasty Γ tb x -> hasty Γ tb y -> hasty Γ tb (Bin op x y).
Proof.
  intros Hop Hx Hy. destruct (hasty_fields Γ tb std_bool x Hx) as (_ & _ & Hl).
  pose proof (proj1 (bool_type _) (hasty_type _ _ _ Hx)) as [Hbx _].
  pose proof (proj1 (bool_type _) (hasty_type _ _ _ Hy)) as [Hby _].
  split.
  - destruct Hx as [[] Hx], Hy as [[] Hy]. split; [|done|simpl; by apply andb_true_iff].
    cbn [wf wf_node]. split; [split; [by apply (type_eqb_trans_std tb std_bool)|done]|done].
  - simpl. rewrite Hop, orb_true_r, Hl, bool_lanes. apply type_eqb_refl.
Qed.

Lemma logic_hasty op x y : is_logical op = true -> hasty Γ tb (Bin op x y) -> hasty Γ tb x /\ hasty Γ tb y.
Proof.
  intros Hop [[[[Heq Hb] [Hwa Hwb]] [Hta Htb] Hf] Ht']. destruct (Hb Hop) as [Hba Hbb].
  simpl in Hf. apply andb_true_iff in Hf as [Hfa Hfb]. simpl in Ht'. rewrite Hop, orb_true_r in Ht'.
  assert (Hl : lanes (type x) = lanes t).
  { apply (type_eqb_std tb std_bool) in Ht' as (_ & _ & Hl). rewrite bool_lanes in Hl.
    simpl in Hl. rewrite small_lanes in Hl; [done|]. pose proof (ty_ok_type Γ x Hwa Hta) as [_ ?]. lia. }
  pose proof (type_eqb_fields _ _ Heq) as (_ & _ & Hl').
  split; (split; [by split|]); apply bool_type; split; try done. congruence.
Qed.
End Conditions.
