(* ===== verification/Simplify.v ===== *)
(** The simplifier's state and the frame of its visit methods: src/src/Simplify.cpp.
    A visit mutates the operands, picks the first of a list of rules that applies, and
    carries out its action, mostly to [mutate] a rewritten expression again. The
    recursive [mutate] is an argument of the visits; the class [Simplifies] is what they
    need of it, and what the theorems about the visits give back. *)

From Stdlib Require Import ZArith Lia Bool SpecFloat String.
From stdpp Require Import prelude strings gmap.
From S2P Require Import Prelude Types IR Semantics Scope Operators ModulusRemainder Mutator Equality EqualityMeaning Interval ConstBounds Monotonic Lanes.

#[local] Open Scope Z_scope.
#[local] Open Scope halide_scope.

(** * The object *)

Record VarInfo := mkVarInfo { replacement : ExprRef; old_uses : Z; new_uses : Z }.
#[global] Instance VarInfo_inhabited : Inhabited VarInfo := populate (mkVarInfo None 0 0).
#[global] Instance bounds_inhabited : Inhabited bounds := populate (0, 0).

(** [overflow_counter] is the [static] counter of [signed_integer_overflow_error]. *)
Record Simplify := mkSimplify {
  simplify_lets : bool;
  var_info : Scope VarInfo;
  bounds_info : Scope bounds;
  alignment_info : Scope ModulusRemainder;
  overflow_counter : Z
}.

Definition set_var_info (s : Simplify) (v : Scope VarInfo) : Simplify :=
  mkSimplify (simplify_lets s) v (bounds_info s) (alignment_info s) (overflow_counter s).
Definition count_overflow (s : Simplify) : Simplify :=
  mkSimplify (simplify_lets s) (var_info s) (bounds_info s) (alignment_info s) (overflow_counter s + 1).

(** An undefined bound has no type to look at. *)
Definition const_int_ref (e : ExprRef) : res (option Z) :=
  match e with Some e => Ok (const_int e) | None => Err (UB "type of an undefined Expr") end.

(** The loop of the constructor, over the names of [bi] itself; the second bound is
    only looked at when the first is constant. *)
Definition push_bounds (entries : list (string * SmallStack Interval)) (info : Scope bounds)
  : res (Scope bounds) :=
  foldl (fun (acc : res (Scope bounds)) '(name, st) =>
      info ← acc;
      let i := s_top st in
      lo ← const_int_ref (i_min i);
      match lo with
      | None => Ok info
      | Some lo =>
          hi ← const_int_ref (i_max i);
          Ok (match hi with Some hi => scope_push info name (lo, hi) | None => info end)
      end)
    (Ok info) entries.

Definition Simplify_make (r : bool) (bi : Scope Interval) (ai : Scope ModulusRemainder) (counter : Z)
  : res Simplify :=
  info ← push_bounds (map_to_list (table bi)) scope_new;
  Ok (mkSimplify r scope_new info (set_containing_scope scope_new (Some ai)) counter).

(** * Expressions the visits build *)

Definition is_bin (op : binop) (e : Expr) : bool :=
  match e with Bin op' _ _ => bool_decide (op = op') | _ => false end.
Definition is_intrinsic_call (intrin : string) (e : Expr) : bool :=
  match e with Call _ name _ ct _ _ _ _ => call_is_intrinsic name ct intrin | _ => false end.

Coercion built_expr (e : Expr) : res Expr := Ok e.

(** An operator or factory applied to expressions that may have failed to build. *)
Definition on2 (op : ExprRef -> ExprRef -> res Expr) (a b : res Expr) : res Expr :=
  a ← a; b ← b; op (eref a) (eref b).

#[global] Arguments on2 : simpl never.

Notation "a +' b" := (on2 operator_add a b) (at level 50, left associativity) : halide_scope.
Notation "a -' b" := (on2 operator_sub a b) (at level 50, left associativity) : halide_scope.
Notation "a *' b" := (on2 operator_mul a b) (at level 40, left associativity) : halide_scope.
Notation "a /' b" := (on2 operator_div a b) (at level 40, left associativity) : halide_scope.
Notation "a %' b" := (on2 operator_mod a b) (at level 40, left associativity) : halide_scope.

Definition neg' (a : res Expr) : res Expr := a ← a; operator_neg (eref a).
(** [a - z] and [z - a] for a C++ [int] [z]. *)
Definition minus_int (a : res Expr) (z : Z) : res Expr := a ← a; operator_sub_ei (eref a) z.
Definition int_minus (z : Z) (a : res Expr) : res Expr := a ← a; operator_sub_ie z (eref a).
Definition ramp' (base stride : res Expr) (lanes : Z) : res Expr :=
  b ← base; s ← stride; Ramp_make (eref b) (eref s) lanes.
Definition select' (c t f : res Expr) : res Expr :=
  c ← c; t ← t; f ← f; Select_make (eref c) (eref t) (eref f).

(** * Rules and their actions *)

Inductive action :=
| Result (e : res Expr)                  (* expr = e *)
| Mutate (e : res Expr)                  (* expr = mutate(e) *)
| MutateLanes (e : res Expr) (lanes : Z) (* expr = Broadcast::make(mutate(e), lanes) *)
| MutateInto (e : res Expr) (k : ExprRef -> res Expr) (* expr = k(mutate(e)) *)
| Overflow (t : Ty).                     (* expr = signed_integer_overflow_error(t) *)

(** One [else if]: its condition, and the action under it. *)
Definition rule : Type := option action.
Definition when (b : bool) (act : action) : rule := if b then Some act else None.

(** [e.as<Op>()] not null, and what follows for its operands; the same for the other
    nodes, and for [const_int(e, &i)]. *)
Definition on_bin (op : binop) (e : Expr) (k : Expr -> Expr -> rule) : rule :=
  match e with Bin op' a b => if bool_decide (op = op') then k a b else None | _ => None end.
Definition on_ramp (e : Expr) (k : Expr -> Expr -> Z -> rule) : rule :=
  match e with Ramp base stride lanes => k base stride lanes | _ => None end.
Definition on_broadcast (e : Expr) (k : Expr -> Z -> rule) : rule :=
  match e with Broadcast value lanes => k value lanes | _ => None end.
Definition on_select (e : Expr) (k : Expr -> Expr -> Expr -> rule) : rule :=
  match e with Select c t f => k c t f | _ => None end.
Definition on_const {A} (c : option A) (k : A -> rule) : rule :=
  match c with Some i => k i | None => None end.

(** C's [a % b] on [int64_t]. *)
Definition c_rem64 (a b : Z) : res Z :=
  if c_div_undefined 64 a b then Err (UB "a % b") else Ok (Z.rem a b).

(** A condition whose evaluation may be undefined behaviour. *)
Definition when_ub (b : res bool) (act : action) : rule :=
  match b with Ok b => when b act | Err x => Some (Result (Err x)) end.

Fixpoint first_rule (rules : list rule) : rule :=
  match rules with
  | [] => None
  | Some act :: _ => Some act
  | None :: rules => first_rule rules
  end.

(** A fresh poison value: [counter++], whose [int] wraps. *)
Definition signed_integer_overflow_error (t : Ty) : mut Simplify ExprRef := fun s =>
  match (n ← IntImm_make (Int 32 1) (overflow_counter s);
         Call_make t "signed_integer_overflow" [eref n] Intrinsic None 0 None None) with
  | Ok e => Ok (eref e, count_overflow s)
  | Err x => Err x
  end.

Section Visits.
Context (same_as : ExprRef -> ExprRef -> bool).
Context (mutate : Expr -> mut Simplify ExprRef).

Definition run_action (act : action) : mut Simplify ExprRef :=
  match act with
  | Result e => e ← lift e; mret (eref e)
  | Mutate e => e ← lift e; mutate e
  | MutateLanes e lanes => e ← lift e; r ← mutate e; r ← lift (Broadcast_make r lanes); mret (eref r)
  | MutateInto e k => e ← lift e; r ← mutate e; x ← lift (k r); mret (eref x)
  | Overflow t => signed_integer_overflow_error t
  end.

(** The end of every chain: keep the node when neither operand changed. *)
Definition no_rule (make : ExprRef -> ExprRef -> res Expr) (op a b op_a op_b : Expr) : mut Simplify ExprRef :=
  if same_as (eref a) (eref op_a) && same_as (eref b) (eref op_b) then mret (eref op)
  else e ← lift (make (eref a) (eref b)); mret (eref e).

Definition mutate_defined (e : Expr) : mut Simplify Expr := r ← mutate e; lift (deref r).

(** The shape of the visits of [Add] and [Mul]: the operands are mutated, put in a
    canonical order, and the first rule that applies is carried out. *)
Definition visit_with (swap : Expr -> Expr -> bool) (rules : Ty -> Expr -> Expr -> list rule)
    (make : ExprRef -> ExprRef -> res Expr) (op op_a op_b : Expr) : mut Simplify ExprRef :=
  a ← mutate_defined op_a;
  b ← mutate_defined op_b;
  let '(a, b) := if swap a b then (b, a) else (a, b) in
  match first_rule (rules (type op) a b) with
  | Some act => run_action act
  | None => no_rule make op a b op_a op_b
  end.

(** A let-bound variable is replaced by what the let recorded for it. *)
Definition count_new_use (i : VarInfo) : VarInfo := mkVarInfo (replacement i) (old_uses i) (new_uses i + 1).
Definition count_old_use (i : VarInfo) : VarInfo := mkVarInfo (replacement i) (old_uses i + 1) (new_uses i).

Definition visit_Variable (op : Expr) (t : Ty) (name : string) : mut Simplify ExprRef := fun s =>
  if scope_contains (var_info s) name then
    match find (var_info s) name with
    | None => Err (InternalError "Symbol not found")
    | Some st =>
        match replacement (s_top st) with
        | Some r =>
            guard! type_eqb (type r) t else "replacement type";
            v ← scope_ref (var_info s) name count_new_use;
            Ok (eref r, set_var_info s v)
        | None => v ← scope_ref (var_info s) name count_old_use; Ok (eref op, set_var_info s v)
        end
    end
  else Ok (eref op, s).
End Visits.

(** * What the visits need of [mutate], and promise *)

Lemma type_eqb_trans t u w : type_eqb t u = true -> type_eqb u w = true -> type_eqb t w = true.
Proof.
  unfold type_eqb, same_handle_type.
  rewrite !andb_true_iff, !orb_true_iff, !andb_true_iff, !bool_decide_eq_true, !Z.eqb_eq, !negb_true_iff, !bool_decide_eq_false.
  intros (((Hc & Hb) & Hl) & H1) (((Hc' & Hb') & Hl') & H2).
  split; [split; [split|]; congruence|].
  destruct H1 as [H1|H1]; [by left|]. destruct H2 as [H2|H2]; [left; congruence|right].
  repeat match goal with H : _ /\ _ |- _ => destruct H end. split_and!; congruence.
Qed.

Lemma with_lanes_eqb t u l : type_eqb t u = true -> type_eqb (with_lanes t l) (with_lanes u l) = true.
Proof.
  intros H. apply type_eqb_fields in H as (Hc & Hb & _). unfold with_lanes. rewrite Hc, Hb. apply type_eqb_refl.
Qed.

(** No function of the environment gives a value to a poison call. *)
Definition no_poison (ρ : env) : Prop := forall t ct vi args,
  call_is_intrinsic "signed_integer_overflow" ct "signed_integer_overflow" = true ->
  fn ρ t ct "signed_integer_overflow" vi args = None.

(** The value of [e] in [ρ] is that of [e'], an expression of its type. *)
Record rewrites (Γ : gmap string Ty) (ρ : env) (e e' : Expr) : Prop := {
  rw_good : good Γ e';
  rw_type : type_eqb (type e') (type e) = true;
  rw_value : forall v, eval Ideal ρ e = Some v -> eval Ideal ρ e' = Some v
}.

Lemma rewrites_refl Γ ρ e : good Γ e -> rewrites Γ ρ e e.
Proof. intros H. split; [done|apply type_eqb_refl|done]. Qed.

Lemma rewrites_trans Γ ρ a b c : rewrites Γ ρ a b -> rewrites Γ ρ b c -> rewrites Γ ρ a c.
Proof. intros [_ H1 H2] [? H3 H4]. split; [done|by eapply type_eqb_trans|auto]. Qed.

Section Sound.
(** What the state says of the variables, and the test [equal]. *)
Context (facts : gmap string Ty -> env -> Simplify -> Prop).
Context (equal_ : ExprRef -> ExprRef -> bool).

Class Facts : Prop := {
  facts_env : forall Γ ρ s, facts Γ ρ s -> env_ok Ideal Γ ρ;
  facts_poison : forall Γ ρ s, facts Γ ρ s -> no_poison ρ;
  facts_equal : forall Γ ρ s, facts Γ ρ s -> EqualityTest Γ ρ equal_;
  facts_count : forall Γ ρ s, facts Γ ρ s -> facts Γ ρ (count_overflow s)
}.

(** A run that made no poison value keeps the value; every run keeps the type. *)
Record simplified (Γ : gmap string Ty) (ρ : env) (s : Simplify) (e e' : Expr) (s' : Simplify) : Prop := {
  sd_good : good Γ e';
  sd_type : type_eqb (type e') (type e) = true;
  sd_facts : facts Γ ρ s';
  sd_count : overflow_counter s <= overflow_counter s';
  sd_value : overflow_counter s' = overflow_counter s ->
             forall v, eval Ideal ρ e = Some v -> eval Ideal ρ e' = Some v
}.

Definition simplifies (m : mut Simplify ExprRef) (Γ : gmap string Ty) (ρ : env) (s : Simplify) (e : Expr) : Prop :=
  forall r s', m s = Ok (r, s') -> exists e', r = Some e' /\ simplified Γ ρ s e e' s'.

Class Simplifies (mutate : Expr -> mut Simplify ExprRef) : Prop :=
  simplifies_expr : forall Γ ρ s e, facts Γ ρ s -> good Γ e -> simplifies (mutate e) Γ ρ s e.

(** An action is right for [e] when it rewrites it. *)
Definition action_ok (Γ : gmap string Ty) (ρ : env) (e : Expr) (act : action) : Prop :=
  match act with
  | Result r | Mutate r => forall e', r = Ok e' -> rewrites Γ ρ e e'
  | MutateLanes r l => forall x, r = Ok x -> rewrites Γ ρ e (Broadcast x l)
  | MutateInto r k => forall x, r = Ok x -> good Γ x /\
      forall y e', good Γ y -> type_eqb (type y) (type x) = true -> k (eref y) = Ok e' ->
        good Γ e' /\ type_eqb (type e') (type e) = true /\
        ((forall v, eval Ideal ρ x = Some v -> eval Ideal ρ y = Some v) ->
         forall v, eval Ideal ρ e = Some v -> eval Ideal ρ e' = Some v)
  | Overflow t => type_eqb t (type e) = true /\ is_float t = false /\ ty_ok t
  end.
Definition rule_ok (Γ : gmap string Ty) (ρ : env) (e : Expr) (r : rule) : Prop :=
  forall act, r = Some act -> action_ok Γ ρ e act.

Lemma first_rule_ok Γ ρ e rules : Forall (rule_ok Γ ρ e) rules -> rule_ok Γ ρ e (first_rule rules).
Proof. intros H. by induction H as [|[a|] rules Hr H IH]. Qed.

(** The later rules are only tried when the earlier ones do not apply. *)
Lemma first_rule_app Γ ρ e l k : Forall (rule_ok Γ ρ e) l ->
  (Forall (fun r => r = None) l -> rule_ok Γ ρ e (first_rule k)) -> rule_ok Γ ρ e (first_rule (l ++ k)).
Proof.
  intros Hl. induction Hl as [|[a|] l Hr Hl IH]; intros Hk; [by apply Hk|done|].
  apply IH. intros Hn. apply Hk. by constructor.
Qed.

Lemma simplified_refl Γ ρ s e e' : facts Γ ρ s -> rewrites Γ ρ e e' -> simplified Γ ρ s e e' s.
Proof. intros Hs []. by split. Qed.

Lemma simplified_after Γ ρ s e x y s' : rewrites Γ ρ e x -> simplified Γ ρ s x y s' -> simplified Γ ρ s e y s'.
Proof. intros [_ H1 H2] []. split; try done; [by eapply type_eqb_trans|auto]. Qed.

Lemma simplified_trans Γ ρ s e x s1 y s2 :
  simplified Γ ρ s e x s1 -> simplified Γ ρ s1 x y s2 -> simplified Γ ρ s e y s2.
Proof.
  intros [_ Ht _ Hc Hv] [Hg' Ht' Hf' Hc' Hv']. split; [done|exact (type_eqb_trans _ _ _ Ht' Ht)|done|lia|].
  intros H v He. apply Hv'; [lia|]. apply Hv; [lia|done].
Qed.

Section Actions.
Context (same_as : ExprRef -> ExprRef -> bool) (mutate : Expr -> mut Simplify ExprRef).
Context {HF : Facts} {HM : Simplifies mutate}.

Lemma poison_simplifies Γ ρ s e t : facts Γ ρ s -> action_ok Γ ρ e (Overflow t) ->
  simplifies (signed_integer_overflow_error t) Γ ρ s e.
Proof.
  intros Hs (He & Hf & Ht) r s' H. unfold signed_integer_overflow_error in H.
  assert (Hn : IntImm_make (Int 32 1) (overflow_counter s) = Ok (IntImm (Int 32 1) (swrap 32 (overflow_counter s))))
    by (by apply IntImm_make_spec).
  rewrite Hn in H. cbn in H. injection H as <- <-. eexists. split; [done|]. split.
  - split.
    + split; [done|]. split; [|done]. split; [|done]. split; [done|]. by apply swrap_range.
    + split; [done|]. split; [done|]. split; [|done]. split; by vm_compute.
    + simpl. by rewrite Hf.
  - done.
  - by apply facts_count.
  - simpl. lia.
  - simpl. lia.
Qed.

Lemma lanes_simplified Γ ρ s x l y s' b : good Γ (Broadcast x l) -> simplified Γ ρ s x y s' ->
  Broadcast_make (eref y) l = Ok b -> b = Broadcast y l /\ simplified Γ ρ s (Broadcast x l) b s'.
Proof.
  intros [[[_ Hl] _] [_ Hlt] _] [[] Ht Hs Hc Hv] H. unfold Broadcast_make, internal_assert in H. simpl in H.
  destruct (is_scalar (type y)) eqn:E; [|done]. destruct (negb (l =? 1)); [|done]. injection H as <-.
  split; [done|]. split; try done.
  - by apply with_lanes_eqb.
  - intros Hc' v He. cbn [eval] in He |- *. apply bind_Some in He as (w & Hw & He). by rewrite (Hv Hc' _ Hw).
Qed.

Lemma run_action_sound Γ ρ s e act : facts Γ ρ s -> action_ok Γ ρ e act ->
  simplifies (run_action mutate act) Γ ρ s e.
Proof.
  intros Hs Hact. destruct act as [r|r|r l|r k|t]; [| | | |by apply poison_simplifies]; intros r' s' H;
    cbn [run_action] in H; apply mut_bind_Ok in H as (x & s1 & Hx & H); apply lift_Ok in Hx as [-> ->].
  - apply mut_ret_Ok in H as [= -> ->]. exists x. split; [done|]. apply simplified_refl; [done|]. by apply Hact.
  - pose proof (Hact x eq_refl) as Hrw. destruct (simplifies_expr Γ ρ s x Hs (rw_good _ _ _ _ Hrw) _ _ H) as (e' & -> & He).
    exists e'. split; [done|]. by eapply simplified_after.
  - pose proof (Hact x eq_refl) as Hrw. apply mut_bind_Ok in H as (y & s2 & Hy & H).
    assert (Hgx : good Γ x).
    { destruct (rw_good _ _ _ _ Hrw) as [[_ ?] [? _] ?]. by split. }
    destruct (simplifies_expr Γ ρ s x Hs Hgx _ _ Hy) as (y' & -> & Hyy).
    apply mut_bind_Ok in H as (b & s3 & Hb & H). apply lift_Ok in Hb as [Hb ->]. apply mut_ret_Ok in H as [= -> ->].
    destruct (lanes_simplified _ _ _ _ _ _ _ _ (rw_good _ _ _ _ Hrw) Hyy Hb) as [-> Hs'].
    eexists. split; [done|]. by eapply simplified_after.
  - destruct (Hact x eq_refl) as [Hgx Hk]. apply mut_bind_Ok in H as (y & s2 & Hy & H).
    destruct (simplifies_expr Γ ρ s x Hs Hgx _ _ Hy) as (y' & -> & [Hgy Hty Hsy Hcy Hvy]).
    apply mut_bind_Ok in H as (b & s3 & Hb & H). apply lift_Ok in Hb as [Hb ->]. apply mut_ret_Ok in H as [= -> ->].
    destruct (Hk y' b Hgy Hty Hb) as (Hgb & Htb & Hvb). exists b. split; [done|]. split; try done.
    intros Hc. apply Hvb. by apply Hvy.
Qed.

(** Mutating the operands of a node, one after the other. *)
Lemma mutate_defined_Ok e s x s' : mutate_defined mutate e s = Ok (x, s') <-> mutate e s = Ok (Some x, s').
Proof.
  unfold mutate_defined. rewrite mut_bind_Ok. split.
  - intros (r & s1 & Hr & H). apply lift_Ok in H as [H ->]. destruct r as [r|]; simpl in H; [|done].
    by injection H as ->.
  - intros H. exists (Some x), s'. split; [done|]. by apply lift_Ok.
Qed.

Lemma eval_bin_congr p ρ op a b a' b' v : type_eqb (type a') (type a) = true ->
  (forall w, eval p ρ a = Some w -> eval p ρ a' = Some w) ->
  (forall w, eval p ρ b = Some w -> eval p ρ b' = Some w) ->
  eval p ρ (Bin op a b) = Some v -> eval p ρ (Bin op a' b') = Some v.
Proof.
  intros Ht Ha Hb He. cbn [eval] in He |- *. apply bind_Some in He as (va & Hva & He).
  apply bind_Some in He as (vb & Hvb & He). rewrite (Ha _ Hva), (Hb _ Hvb). cbn [mbind option_bind].
  apply type_eqb_fields in Ht as (Hc & Hbits & _). rewrite <- He. apply zip_with_M_ext.
  intros x y. by apply eval_binop_fields.
Qed.

Lemma good_bin Γ op a b : good Γ (Bin op a b) -> good Γ a /\ good Γ b /\ type_eqb (type a) (type b) = true.
Proof.
  intros [[[Heq _] [Hwa Hwb]] [Hta Htb] Hf]. simpl in Hf. apply andb_true_iff in Hf as [Hfa Hfb]. by repeat split.
Qed.

(** After both operands: the node of the mutated operands stands for the node. *)
Lemma operands_simplified Γ ρ s op a b : arith op = true -> facts Γ ρ s -> good Γ (Bin op a b) -> std_int (type a) ->
  forall x s1 y s2, mutate a s = Ok (Some x, s1) -> mutate b s1 = Ok (Some y, s2) ->
  facts Γ ρ s2 /\ hasty Γ (type a) x /\ hasty Γ (type a) y /\ simplified Γ ρ s (Bin op a b) (Bin op x y) s2.
Proof.
  intros Hop Hs Hg Ht x s1 y s2 Hx Hy. destruct (good_bin _ _ _ _ Hg) as (Hga & Hgb & Heq).
  destruct (simplifies_expr Γ ρ s a Hs Hga _ _ Hx) as (x' & [= <-] & [Hgx Htx Hs1 Hc1 Hvx]).
  destruct (simplifies_expr Γ ρ s1 b Hs1 Hgb _ _ Hy) as (y' & [= <-] & [Hgy Hty Hs2 Hc2 Hvy]).
  assert (hasty Γ (type a) x) as Hhx by (by split).
  assert (hasty Γ (type a) y) as Hhy.
  { split; [done|]. eapply type_eqb_trans; [done|]. by rewrite type_eqb_sym. }
  split; [done|]. split; [done|]. split; [done|]. split; try done.
  - apply (hasty_good Γ (type a)), hasty_bin; done.
  - by rewrite !arith_type.
  - lia.
  - intros Hc v He. eapply eval_bin_congr; [done|apply Hvx; lia|apply Hvy; lia|done].
Qed.

Definition commutes (op : binop) : bool :=
  match op with Add | Mul | Min | Max => true | _ => false end.

Lemma commutes_arith op : commutes op = true -> arith op = true.
Proof. by destruct op. Qed.

Lemma rewrites_swap Γ ρ op x y t : commutes op = true -> std_int t -> env_ok Ideal Γ ρ ->
  hasty Γ t x -> hasty Γ t y -> rewrites Γ ρ (Bin op x y) (Bin op y x).
Proof.
  intros Hop Ht Hρ Hx Hy. pose proof (commutes_arith op Hop) as Ha. split.
  - apply (hasty_good Γ t), hasty_bin; done.
  - rewrite !arith_type by done. eapply type_eqb_trans_std; [done|by eapply hasty_type..].
  - intros v He. destruct (den_bin_inv Γ ρ Hρ t Ht op x y v Ha Hx Hy He) as (f & g & Hf & Hg & _ & ->).
    eapply (den_ext ρ t); [apply (den_bin Γ ρ t Ht); eauto|].
    + by destruct op.
    + intros i _. destruct op; try done; simpl; (lia || f_equal; lia).
Qed.

(** The operands in the order a visit puts them. *)
Lemma swapped_operands Γ ρ op x y t (swap : bool) : arith op = true -> (swap = true -> commutes op = true) -> std_int t ->
  env_ok Ideal Γ ρ -> hasty Γ t x -> hasty Γ t y ->
  exists x' y', (if swap then (y, x) else (x, y)) = (x', y') /\ hasty Γ t x' /\ hasty Γ t y' /\
    rewrites Γ ρ (Bin op x y) (Bin op x' y').
Proof.
  intros Hop Hc Ht Hρ Hx Hy. destruct swap; [exists y, x|exists x, y]; (split; [done|]); (split; [done|]); (split; [done|]).
  - by eapply rewrites_swap; auto.
  - by apply rewrites_refl, (hasty_good Γ t), hasty_bin.
Qed.

Lemma no_rule_sound Γ ρ s s2 op nm x y a b : arith op = true -> std_int (type a) ->
  facts Γ ρ s2 -> hasty Γ (type a) x -> hasty Γ (type a) y ->
  simplified Γ ρ s (Bin op a b) (Bin op x y) s2 -> good Γ (Bin op a b) -> overflow_counter s <= overflow_counter s2 ->
  forall r s', no_rule same_as (binary_make op nm) (Bin op a b) x y a b s2 = Ok (r, s') ->
  exists e', r = Some e' /\ simplified Γ ρ s (Bin op a b) e' s'.
Proof.
  intros Hop Ht Hs2 Hx Hy Hsd Hg Hc r s' H. unfold no_rule in H.
  destruct (same_as (eref x) (eref a) && same_as (eref y) (eref b)) eqn:E.
  - apply mut_ret_Ok in H as [= -> ->]. exists (Bin op a b). split; [done|]. split; try done. apply type_eqb_refl.
  - rewrite (binary_make_same Γ (type a) Ht op nm x y) in H by (done || by destruct op).
    apply mut_bind_Ok in H as (e & s3 & He & H). apply lift_Ok in He as [[= <-] ->].
    apply mut_ret_Ok in H as [= -> ->]. by exists (Bin op x y).
Qed.

(** A visit is sound when every rule of its chain is right for the mutated operands. *)
Lemma visit_with_sound Γ ρ s op nm swap rules a b : commutes op = true ->
  facts Γ ρ s -> good Γ (Bin op a b) -> std_int (type a) ->
  (forall x s1 y s2, mutate a s = Ok (Some x, s1) -> mutate b s1 = Ok (Some y, s2) ->
     hasty Γ (type a) x -> hasty Γ (type a) y ->
     let '(x, y) := if swap x y : bool then (y, x) else (x, y) in
     rule_ok Γ ρ (Bin op x y) (first_rule (rules (type a) x y))) ->
  simplifies (visit_with same_as mutate swap rules (binary_make op nm) (Bin op a b) a b) Γ ρ s (Bin op a b).
Proof.
  intros Hop Hs Hg Ht Hrules r s' H. pose proof (commutes_arith op Hop) as Ha.
  pose proof (facts_env Γ ρ s Hs) as Hρ.
  unfold visit_with in H. apply mut_bind_Ok in H as (x & s1 & Hx & H). apply mutate_defined_Ok in Hx.
  apply mut_bind_Ok in H as (y & s2 & Hy & H). apply mutate_defined_Ok in Hy.
  destruct (operands_simplified Γ ρ s op a b Ha Hs Hg Ht _ _ _ _ Hx Hy) as (Hs2 & Hhx & Hhy & Hsd).
  specialize (Hrules _ _ _ _ Hx Hy Hhx Hhy).
  destruct (swapped_operands Γ ρ op x y (type a) (swap x y) Ha (fun _ => Hop) Ht Hρ Hhx Hhy) as (x' & y' & E & Hx' & Hy' & Hrw).
  rewrite E in H, Hrules.
  assert (Hsd' : simplified Γ ρ s (Bin op a b) (Bin op x' y') s2).
  { eapply simplified_trans; [exact Hsd|]. by apply simplified_refl. }
  rewrite arith_type in H by done.
  destruct (first_rule (rules (type a) x' y')) as [act|] eqn:Er.
  - pose proof (Hrules act eq_refl) as Hact.
    destruct (run_action_sound Γ ρ s2 _ act Hs2 Hact _ _ H) as (e' & -> & Hr). exists e'. split; [done|].
    by eapply simplified_trans.
  - eapply (no_rule_sound Γ ρ s s2 op nm x' y' a b); try done; by destruct Hsd'.
Qed.
End Actions.
End Sound.

(** An action after the operands. *)
Lemma then_action facts equal mutate Γ ρ s s1 e e1 act r s' : Facts facts equal -> Simplifies facts mutate ->
  facts Γ ρ s1 -> simplified facts Γ ρ s e e1 s1 -> action_ok Γ ρ e1 act -> run_action mutate act s1 = Ok (r, s') ->
  exists e', r = Some e' /\ simplified facts Γ ρ s e e' s'.
Proof.
  intros HF HM Hs1 Hsd Hact Hrun.
  destruct (run_action_sound facts equal mutate Γ ρ s1 _ act Hs1 Hact _ _ Hrun) as (e' & -> & Hr).
  exists e'. split; [done|]. by eapply simplified_trans.
Qed.

(** * A mutator to try the visits on: it changes nothing *)

Definition no_mutate (e : Expr) : mut Simplify ExprRef := mret (eref e).
(** The facts of a state that knows nothing of the variables. *)
Definition env_facts (Γ : gmap string Ty) (ρ : env) (s : Simplify) : Prop :=
  env_ok Ideal Γ ρ /\ no_poison ρ /\ handle_blind ρ.
Definition ptr_equal : ExprRef -> ExprRef -> bool := equal (fun _ => 0) same_expr.
Definition new_simplify : Simplify := mkSimplify true scope_new scope_new scope_new 0.

#[global] Instance env_facts_Facts : Facts env_facts ptr_equal.
Proof.
  split; try by intros ??? (? & ? & ?).
  intros Γ ρ s (_ & _ & H). by apply equal_EqualityTest, H; first apply same_expr_sound.
Qed.

#[global] Instance no_mutate_Simplifies : Simplifies env_facts no_mutate.
Proof.
  intros Γ ρ s e Hs Hg r s' [= <- <-]. exists e. split; [done|].
  apply simplified_refl; [done|]. by apply rewrites_refl.
Qed.

Definition same_expr_ref (a b : ExprRef) : bool := bool_decide (a = b).

(** Two variables, and values for them. *)
Definition x32 : Expr := Var (Int 32 1) "x" None None None.
Definition y32 : Expr := Var (Int 32 1) "y" None None None.
Definition imm32 (z : Z) : Expr := IntImm (Int 32 1) z.
Definition xy_types : gmap string Ty := {["x" := Int 32 1; "y" := Int 32 1]}.
Definition xy_env (x y : Z) : env := bind_var (bind_var empty_env "x" [VInt x]) "y" [VInt y].

Lemma xy_facts x y : env_facts xy_types (xy_env x y) new_simplify.
Proof.
  split; [|by split]. split; [|done|done]. intros n t v Ht Hv. unfold xy_types in Ht. unfold xy_env in Hv.
  cbn [vars bind_var empty_env] in Hv.
  destruct (decide (n = "y")) as [->|]; [|destruct (decide (n = "x")) as [->|]]; simplify_map_eq; try done;
    split; try done; repeat constructor; simpl; by left.
Qed.
