(* ===== verification/SimplifyRules.v ===== *)
(** Proving the simplifier's rules right: what a rule that applies says of its operands,
    what it builds, and the lanes of both sides. *)

From Stdlib Require Import ZArith Lia Bool SpecFloat String.
From stdpp Require Import prelude strings gmap.
From S2P Require Import Prelude Types IR Semantics Scope Operators ModulusRemainder Mutator Equality EqualityMeaning Interval ConstBounds Monotonic Lanes Simplify.

#[local] Open Scope Z_scope.
#[local] Open Scope halide_scope.

(** * A rule that applies *)

Lemma on_bin_Some op e k act : on_bin op e k = Some act <-> exists x y, e = Bin op x y /\ k x y = Some act.
Proof.
  unfold on_bin. destruct e; try naive_solver. case_bool_decide; naive_solver.
Qed.
Lemma on_ramp_Some e k act : on_ramp e k = Some act <-> exists x y l, e = Ramp x y l /\ k x y l = Some act.
Proof. unfold on_ramp. destruct e; naive_solver. Qed.
Lemma on_broadcast_Some e k act : on_broadcast e k = Some act <-> exists x l, e = Broadcast x l /\ k x l = Some act.
Proof. unfold on_broadcast. destruct e; naive_solver. Qed.
Lemma on_select_Some e k act : on_select e k = Some act <-> exists c x y, e = Select c x y /\ k c x y = Some act.
Proof. unfold on_select. destruct e; naive_solver. Qed.
Lemma on_const_Some {A} (c : option A) k act : on_const c k = Some act <-> exists i, c = Some i /\ k i = Some act.
Proof. unfold on_const. destruct c; naive_solver. Qed.
Lemma when_Some b x act : when b x = Some act <-> b = true /\ x = act.
Proof. unfold when. destruct b; naive_solver. Qed.
Lemma when_ub_Some b x act : when_ub b x = Some act <->
  (b = Ok true /\ x = act) \/ exists err, b = Err err /\ act = Result (Err err).
Proof. unfold when_ub, when. destruct b as [[]|]; naive_solver. Qed.

Ltac inv_rule H :=
  repeat first
    [ apply on_bin_Some in H; destruct H as (? & ? & -> & H)
    | apply on_ramp_Some in H; destruct H as (? & ? & ? & -> & H)
    | apply on_broadcast_Some in H; destruct H as (? & ? & -> & H)
    | apply on_select_Some in H; destruct H as (? & ? & ? & -> & H)
    | apply @on_const_Some in H; destruct H as (? & ? & H)
    | apply when_Some in H; destruct H as [? H] ].
Ltac rule_action H act := inv_rule H; first [subst act | injection H as <-].
Ltac split_bools :=
  repeat match goal with
  | H : (_ && _)%bool = true |- _ => apply andb_true_iff in H; destruct H
  end.

(** * What it builds *)

Lemma on2_Ok op a b e : on2 op a b = Ok e <-> exists x y, a = Ok x /\ b = Ok y /\ op (eref x) (eref y) = Ok e.
Proof. unfold on2. rewrite bind_Ok. setoid_rewrite bind_Ok. naive_solver. Qed.

Section Build.
Context (Γ : gmap string Ty) (ρ : env).

(** An expression of the type [t], if any; with the lanes [G]. *)
Definition builds (t : Ty) (r : res Expr) : Prop := forall e, r = Ok e -> hasty Γ t e.
Definition computes (t : Ty) (r : res Expr) (G : nat -> Z) : Prop := forall e, r = Ok e -> den ρ t e G.

Context (t : Ty) (Ht : std_int t).

Lemma builds_expr x : hasty Γ t x -> builds t (built_expr x).
Proof. by intros Hx e [= <-]. Qed.
Lemma computes_expr x f : den ρ t x f -> computes t (built_expr x) f.
Proof. by intros Hx e [= <-]. Qed.

Lemma builds_bind {A} (m : res A) k : (forall x, m = Ok x -> builds t (k x)) -> builds t (x ← m; k x).
Proof. intros H e He. apply bind_Ok in He as (x & Hx & He). by eapply H. Qed.
Lemma computes_bind {A} (m : res A) k G : (forall x, m = Ok x -> computes t (k x) G) -> computes t (x ← m; k x) G.
Proof. intros H e He. apply bind_Ok in He as (x & Hx & He). by eapply H. Qed.

(** The two ways a binary node is made of operands of one type. *)
Lemma make_Ok op nm x y e : binary_make op nm (eref x) (eref y) = Ok e -> e = Bin op x y.
Proof. unfold binary_make, internal_assert. simpl. destruct (type_eqb _ _); [|done]. by intros [= <-]. Qed.

Lemma operator_Ok op nm nm' x y e : hasty Γ t x -> hasty Γ t y ->
  operator_ee (binary_make op nm) nm' (eref x) (eref y) = Ok e -> e = Bin op x y.
Proof. intros Hx Hy. rewrite (operator_same Γ t Ht) by done. apply make_Ok. Qed.

Lemma operator_mod_Ok x y e : hasty Γ t x -> hasty Γ t y ->
  operator_mod (eref x) (eref y) = Ok e -> e = Bin Mod x y.
Proof.
  intros Hx Hy He. unfold operator_mod in He. cbn [both_defined eref mbind res_bind] in He.
  apply bind_Ok in He as (u & _ & He). eapply (operator_Ok Mod "Mod" ""); [exact Hx|exact Hy|exact He].
Qed.

Definition joins (op : binop) (mk : ExprRef -> ExprRef -> res Expr) : Prop := forall x y e,
  hasty Γ t x -> hasty Γ t y -> mk (eref x) (eref y) = Ok e -> e = Bin op x y.

Lemma joins_operator op nm nm' : joins op (operator_ee (binary_make op nm) nm').
Proof. intros x y e. apply operator_Ok. Qed.
Lemma joins_make op nm : joins op (binary_make op nm).
Proof. intros x y e _ _. apply make_Ok. Qed.
Lemma joins_add : joins Add operator_add.
Proof. apply (joins_operator Add). Qed.
Lemma joins_sub : joins Sub operator_sub.
Proof. apply (joins_operator Sub). Qed.
Lemma joins_mul : joins Mul operator_mul.
Proof. apply (joins_operator Mul). Qed.
Lemma joins_div : joins Div operator_div.
Proof. apply (joins_operator Div). Qed.
Lemma joins_mod : joins Mod operator_mod.
Proof. intros x y e. apply operator_mod_Ok. Qed.
Lemma joins_min : joins Min Operators.min.
Proof. apply (joins_operator Min). Qed.
Lemma joins_max : joins Max Operators.max.
Proof. apply (joins_operator Max). Qed.
Lemma joins_Add_make : joins Add Add_make.
Proof. apply (joins_make Add). Qed.
Lemma joins_Sub_make : joins Sub Sub_make.
Proof. apply (joins_make Sub). Qed.
Lemma joins_Mul_make : joins Mul Mul_make.
Proof. apply (joins_make Mul). Qed.
Lemma joins_Div_make : joins Div Div_make.
Proof. apply (joins_make Div). Qed.
Lemma joins_Mod_make : joins Mod Mod_make.
Proof. apply (joins_make Mod). Qed.
Lemma joins_Min_make : joins Min Min_make.
Proof. apply (joins_make Min). Qed.
Lemma joins_Max_make : joins Max Max_make.
Proof. apply (joins_make Max). Qed.

Lemma builds_on2 op mk a b : joins op mk -> arith op = true -> builds t a -> builds t b -> builds t (on2 mk a b).
Proof.
  intros Hmk Hop Ha Hb e He. apply on2_Ok in He as (x & y & Hx & Hy & He).
  rewrite (Hmk x y e (Ha _ Hx) (Hb _ Hy) He). apply hasty_bin; [done..|]. split; [by apply Ha|by apply Hb].
Qed.

Lemma computes_on2 op mk a b f g : joins op mk -> arith op = true -> builds t a -> builds t b ->
  computes t a f -> computes t b g -> (forall i, (i < nlanes t)%nat -> defd op (g i)) ->
  computes t (on2 mk a b) (fun i => iop t op (f i) (g i)).
Proof.
  intros Hmk Hop Ha Hb Hf Hg Hd e He. apply on2_Ok in He as (x & y & Hx & Hy & He).
  rewrite (Hmk x y e (Ha _ Hx) (Hb _ Hy) He). apply (den_bin Γ ρ t Ht); auto.
Qed.

(** Constants of a type equal to [t] up to its C++ part. *)
Lemma imm_scalar (u : Ty) z e : type_eqb u t = true -> is_vector t = false ->
  (e = IntImm u (wrap_type t z) /\ is_int t = true \/ e = UIntImm u (wrap_type t z) /\ is_uint t = true) ->
  hasty Γ t e /\ den ρ t e (fun _ => wrap_type t z).
Proof.
  intros Hu Hv He. pose proof (proj1 (type_eqb_std t Ht u) Hu) as (Hc & Hb & Hl).
  pose proof (std_int_bits t Ht) as Hbits. pose proof (std_int_width t Ht) as Hw.
  pose proof (const_node_wf t (wrap_type t z) Ht ltac:(apply wrap_representable; [lia|by apply (std_int_class t Ht)])) as Hwf.
  assert (Hn : nlanes t = 1%nat).
  { unfold nlanes. unfold is_vector in Hv. bool_to_prop. by rewrite Hv. }
  assert (Hs : lanes t = 1) by (unfold is_vector in Hv; by bool_to_prop).
  split; [|unfold den; rewrite Hn; by destruct He as [[-> _]|[-> _]]].
  unfold const_node in Hwf. rewrite Hv in Hwf. rewrite element_of_scalar in Hwf by done.
  assert (Hu' : is_int u = is_int t /\ is_uint u = is_uint t /\ is_scalar u = is_scalar t)
    by (unfold is_int, is_uint, is_scalar; by rewrite Hc, Hl). destruct Hu' as (Hi & Hui & Hsc).
  destruct He as [[-> Ht']|[-> Ht']].
  - rewrite Ht' in Hwf. destruct Hwf as [[H1 H2] _]. split; [|done]. split; [|split; rewrite ?Hb, ?Hl; lia|done].
    split; [|done]. cbn [wf_node]. by rewrite Hi, Hsc, Hb.
  - assert (is_int t = false) as Hni by (destruct (is_int t) eqn:E; [by rewrite (int_not_uint t E) in Ht'|done]).
    rewrite Hni in Hwf. destruct Hwf as [[H1 H2] _]. split; [|done]. split; [|split; rewrite ?Hb, ?Hl; lia|done].
    split; [|done]. cbn [wf_node]. by rewrite Hui, Hsc, Hb.
Qed.

Lemma eqb_class u : type_eqb u t = true -> is_int u = is_int t /\ is_uint u = is_uint t /\ is_scalar u = is_scalar t
  /\ is_vector u = is_vector t /\ bits u = bits t /\ lanes u = lanes t /\ is_handle u = false /\ element_of u = element_of t.
Proof.
  intros Hu. pose proof (type_eqb_classes _ _ Hu) as (Hi & Hui & _ & Hh & _ & Hs).
  apply type_eqb_fields in Hu as (Hc & Hb & Hl). pose proof (std_handle t Ht).
  unfold is_vector, element_of. rewrite Hc, Hb, Hl. repeat split; congruence.
Qed.

Lemma IntImm_Ok u z e : type_eqb u t = true -> IntImm_make u z = Ok e ->
  hasty Γ t e /\ den ρ t e (fun _ => wrap_type t z).
Proof.
  intros Hu He. destruct (eqb_class u Hu) as (Hi & Hui & Hs & Hv & Hb & _).
  assert (is_int u = true /\ is_scalar u = true) as [Hi' Hs'].
  { unfold IntImm_make in He. apply bind_Ok in He as (? & He & _). apply internal_assert_Ok in He.
    by apply andb_true_iff in He. }
  assert (Hit : is_int t = true) by congruence.
  assert (Hw : int_width (bits t) = true).
  { destruct (std_int_width t Ht) as [[_ H]|[H _]]; [done|]. by rewrite (uint_not_int t H) in Hit. }
  rewrite IntImm_make_spec in He by (congruence || done). injection He as <-.
  apply (imm_scalar u z); [done|..].
  - unfold is_vector. unfold is_scalar in *. congruence || (rewrite Hs in Hs'; by rewrite Hs').
  - left. unfold wrap_type. by rewrite Hit, Hb.
Qed.

Lemma UIntImm_Ok u z e : type_eqb u t = true -> UIntImm_make u z = Ok e ->
  hasty Γ t e /\ den ρ t e (fun _ => wrap_type t z).
Proof.
  intros Hu He. destruct (eqb_class u Hu) as (Hi & Hui & Hs & Hv & Hb & _).
  assert (is_uint u = true /\ is_scalar u = true) as [Hi' Hs'].
  { unfold UIntImm_make in He. apply bind_Ok in He as (? & He & _). apply internal_assert_Ok in He.
    by apply andb_true_iff in He. }
  assert (Hut : is_uint t = true) by congruence.
  assert (Hni : is_int t = false) by (by apply uint_not_int).
  assert (Hw : uint_width (bits t) = true).
  { destruct (std_int_width t Ht) as [[H _]|[_ H]]; [congruence|done]. }
  rewrite UIntImm_make_spec in He by (congruence || done). injection He as <-.
  apply (imm_scalar u z); [done|..].
  - unfold is_vector. unfold is_scalar in *. congruence || (rewrite Hs in Hs'; by rewrite Hs').
  - right. unfold wrap_type. by rewrite Hni, Hb.
Qed.

Lemma make_const_Ok u z e : type_eqb u t = true -> make_const u (Int64 z) = Ok e ->
  hasty Γ t e /\ den ρ t e (fun _ => wrap_type t z).
Proof.
  intros Hu He. destruct (eqb_class u Hu) as (Hi & Hui & Hs & Hv & Hb & Hl & _ & Hel).
  destruct (is_vector t) eqn:E.
  - unfold make_const in He. rewrite Hv, Hel, Hl in He.
    assert (make_const t (Int64 z) = Ok e) as He' by (unfold make_const; by rewrite E).
    rewrite (make_const_int t _ z) in He' by auto. injection He' as <-. split; [|by apply den_const].
    apply hasty_const; [done|]. apply wrap_representable; [by apply std_int_bits|]. by apply (std_int_class t Ht).
  - unfold make_const in He. rewrite Hv in He. unfold make_const_scalar in He. cbn [to_int64 to_uint64] in He.
    destruct (is_int u) eqn:Ei; [by apply (IntImm_Ok u)|]. destruct (is_uint u) eqn:Eu.
    + apply (UIntImm_Ok u) in He as [H1 H2]; [|done]. split; [done|].
      assert (Hw : wrap_type t (uwrap 64 z) = wrap_type t z).
      { unfold wrap_type. rewrite <- Hi. apply uwrap_uwrap. pose proof (std_int_bits t Ht). lia. }
      by rewrite Hw in H2.
    + exfalso. pose proof (std_int_class t Ht) as (Hc & _). rewrite <- Hi, <- Hui in Hc. done.
Qed.

Lemma make_zero_Ok u e : type_eqb u t = true -> make_zero u = Ok e -> hasty Γ t e /\ den ρ t e (fun _ => 0).
Proof.
  intros Hu He. destruct (eqb_class u Hu) as (_ & _ & _ & _ & _ & _ & Hh & _).
  unfold make_zero in He. rewrite Hh in He. apply (make_const_Ok u) in He as [H1 H2]; [|done].
  split; [done|]. by rewrite wrap_type_zero in H2.
Qed.

Lemma builds_const u z : type_eqb u t = true -> builds t (make_const u (Int64 z)).
Proof. intros Hu e He. by apply (make_const_Ok u z). Qed.
Lemma computes_const u z : type_eqb u t = true -> computes t (make_const u (Int64 z)) (fun _ => wrap_type t z).
Proof. intros Hu e He. by apply (make_const_Ok u z). Qed.
Lemma builds_imm u z : type_eqb u t = true -> builds t (IntImm_make u z).
Proof. intros Hu e He. by apply (IntImm_Ok u z). Qed.
Lemma computes_imm u z : type_eqb u t = true -> computes t (IntImm_make u z) (fun _ => wrap_type t z).
Proof. intros Hu e He. by apply (IntImm_Ok u z). Qed.
Lemma builds_zero u : type_eqb u t = true -> builds t (make_zero u).
Proof. intros Hu e He. by apply (make_zero_Ok u). Qed.
Lemma computes_zero u : type_eqb u t = true -> computes t (make_zero u) (fun _ => 0).
Proof. intros Hu e He. by apply (make_zero_Ok u). Qed.
Lemma builds_one : builds t (make_one t).
Proof. apply builds_const, type_eqb_refl. Qed.
Lemma computes_one : computes t (make_one t) (fun _ => wrap_type t 1).
Proof. apply computes_const, type_eqb_refl. Qed.

(** [-x] is [0 - x]. *)
Lemma neg_Ok x e : hasty Γ t x -> operator_neg (eref x) = Ok e ->
  exists z, e = Bin Sub z x /\ hasty Γ t z /\ den ρ t z (fun _ => 0).
Proof.
  intros Hx He. unfold operator_neg in He. cbn [user_defined eref mbind res_bind] in He.
  apply bind_Ok in He as (z & Hz & He). apply make_zero_Ok in Hz as [H1 H2]; [|by eapply hasty_type].
  apply make_Ok in He as ->. by exists z.
Qed.

Lemma builds_neg a : builds t a -> builds t (neg' a).
Proof.
  intros Ha e He. unfold neg' in He. apply bind_Ok in He as (x & Hx & He).
  destruct (neg_Ok x e (Ha _ Hx) He) as (z & -> & Hz & _). apply hasty_bin; [done..|]. split; [done|by apply Ha].
Qed.
Lemma computes_neg a f : builds t a -> computes t a f -> computes t (neg' a) (fun i => norm t (0 - f i)).
Proof.
  intros Ha Hf e He. unfold neg' in He. apply bind_Ok in He as (x & Hx & He).
  destruct (neg_Ok x e (Ha _ Hx) He) as (z & -> & Hz & Hd).
  apply (den_bin Γ ρ t Ht Sub z x (fun _ => 0) f); auto. by intros.
Qed.

(** A C++ [int] on either side of a difference. *)
Lemma int_operand x z u e (op : ExprRef -> res Expr) : hasty Γ t x -> type_eqb u t = true ->
  (c ← make_const u (Int64 z); op (eref c)) = Ok e ->
  exists c, op (eref c) = Ok e /\ hasty Γ t c /\ den ρ t c (fun _ => wrap_type t z).
Proof.
  intros Hx Hu He. apply bind_Ok in He as (c & Hc & He). exists c. split; [done|]. by apply (make_const_Ok u z).
Qed.

Lemma minus_int_Ok x z e : hasty Γ t x -> operator_sub_ei (eref x) z = Ok e ->
  exists c, e = Bin Sub x c /\ hasty Γ t c /\ den ρ t c (fun _ => wrap_type t z).
Proof.
  intros Hx He. unfold operator_sub_ei, operator_ei in He. cbn [user_defined eref mbind res_bind] in He.
  apply bind_Ok in He as (? & _ & He).
  apply (int_operand x z _ e (fun c => Sub_make (eref x) c) Hx (hasty_type _ _ _ Hx)) in He as (c & He & Hc).
  exists c. split; [by apply make_Ok in He|done].
Qed.
Lemma int_minus_Ok x z e : hasty Γ t x -> operator_sub_ie z (eref x) = Ok e ->
  exists c, e = Bin Sub c x /\ hasty Γ t c /\ den ρ t c (fun _ => wrap_type t z).
Proof.
  intros Hx He. unfold operator_sub_ie, operator_ie in He. cbn [user_defined eref mbind res_bind] in He.
  apply bind_Ok in He as (? & _ & He).
  apply (int_operand x z _ e (fun c => Sub_make c (eref x)) Hx (hasty_type _ _ _ Hx)) in He as (c & He & Hc).
  exists c. split; [by apply make_Ok in He|done].
Qed.

Lemma builds_minus_int a z : builds t a -> builds t (minus_int a z).
Proof.
  intros Ha e He. unfold minus_int in He. apply bind_Ok in He as (x & Hx & He).
  destruct (minus_int_Ok x z e (Ha _ Hx) He) as (c & -> & Hc & _). apply hasty_bin; [done..|]. split; [by apply Ha|done].
Qed.
Lemma builds_int_minus a z : builds t a -> builds t (int_minus z a).
Proof.
  intros Ha e He. unfold int_minus in He. apply bind_Ok in He as (x & Hx & He).
  destruct (int_minus_Ok x z e (Ha _ Hx) He) as (c & -> & Hc & _). apply hasty_bin; [done..|]. split; [done|by apply Ha].
Qed.
Lemma computes_minus_int a z f : -2147483648 <= z < 2147483648 -> builds t a -> computes t a f ->
  computes t (minus_int a z) (fun i => norm t (f i - z)).
Proof.
  intros Hz Ha Hf e He. unfold minus_int in He. apply bind_Ok in He as (x & Hx & He).
  destruct (minus_int_Ok x z e (Ha _ Hx) He) as (c & -> & Hc & Hd).
  eapply den_ext; [apply (den_bin Γ ρ t Ht Sub x c f (fun _ => wrap_type t z)); auto; by intros|].
  intros i _. simpl. norm_ring.
Qed.
Lemma computes_int_minus a z f : -2147483648 <= z < 2147483648 -> builds t a -> computes t a f ->
  computes t (int_minus z a) (fun i => norm t (z - f i)).
Proof.
  intros Hz Ha Hf e He. unfold int_minus in He. apply bind_Ok in He as (x & Hx & He).
  destruct (int_minus_Ok x z e (Ha _ Hx) He) as (c & -> & Hc & Hd).
  eapply den_ext; [apply (den_bin Γ ρ t Ht Sub c x (fun _ => wrap_type t z) f); auto; by intros|].
  intros i _. simpl. norm_ring.
Qed.

(** ** Vectors and selections *)

Notation te := (element_of t).

Lemma builds_ramp a b : builds te a -> builds te b -> 1 < lanes t -> builds t (ramp' a b (lanes t)).
Proof.
  intros Ha Hb Hl e He. unfold ramp' in He. apply bind_Ok in He as (x & Hx & He). apply bind_Ok in He as (y & Hy & He).
  destruct (ramp_hasty Γ t Ht x y (Ha _ Hx) (Hb _ Hy) Hl) as [Hr Hh]. rewrite Hr in He. by injection He as <-.
Qed.
Lemma computes_ramp a b f g : builds te a -> builds te b -> 1 < lanes t -> computes te a f -> computes te b g ->
  in_type t (f 0%nat) -> computes t (ramp' a b (lanes t)) (fun i => norm t (f 0%nat + Z.of_nat i * g 0%nat)).
Proof.
  intros Ha Hb Hl Hf Hg Hin e He. unfold ramp' in He. apply bind_Ok in He as (x & Hx & He). apply bind_Ok in He as (y & Hy & He).
  destruct (ramp_hasty Γ t Ht x y (Ha _ Hx) (Hb _ Hy) Hl) as [Hr Hh]. rewrite Hr in He. injection He as <-.
  apply (den_ramp Γ ρ t Ht); auto.
Qed.

Lemma first_lane : (0 < nlanes t)%nat.
Proof. unfold nlanes. destruct Ht as (_ & ? & _). lia. Qed.

Lemma builds_broadcast r : lanes t <> 1 -> builds te r -> builds t (v ← r; Broadcast_make (eref v) (lanes t)).
Proof.
  intros Hl Hr e He. apply bind_Ok in He as (x & Hx & He).
  destruct (broadcast_hasty Γ t Ht x (Hr _ Hx) Hl) as [Hb Hh]. rewrite Hb in He. by injection He as <-.
Qed.
Lemma computes_broadcast r f : lanes t <> 1 -> builds te r -> computes te r f ->
  computes t (v ← r; Broadcast_make (eref v) (lanes t)) (fun _ => f 0%nat).
Proof.
  intros Hl Hr Hf e He. apply bind_Ok in He as (x & Hx & He).
  destruct (broadcast_hasty Γ t Ht x (Hr _ Hx) Hl) as [Hb Hh]. rewrite Hb in He. injection He as <-.
  apply (den_broadcast ρ t Ht), Hf, Hx.
Qed.

Lemma builds_select c a b : good Γ c -> is_bool (type c) = true ->
  is_scalar (type c) || (lanes (type c) =? lanes t) = true -> builds t a -> builds t b ->
  builds t (select' (built_expr c) a b).
Proof.
  intros Hc Hbool Hl Ha Hb e He. unfold select' in He. cbn [built_expr mbind res_bind] in He.
  apply bind_Ok in He as (x & Hx & He). apply bind_Ok in He as (y & Hy & He).
  destruct (select_hasty Γ t Ht c x y Hc (Ha _ Hx) (Hb _ Hy) Hbool Hl) as [Hr Hh]. rewrite Hr in He. by injection He as <-.
Qed.
Lemma computes_select c a b p f g : picks ρ t c p -> computes t a f -> computes t b g ->
  computes t (select' (built_expr c) a b) (fun i => if p i then f i else g i).
Proof.
  intros Hp Hf Hg e He. unfold select' in He. cbn [built_expr mbind res_bind] in He.
  apply bind_Ok in He as (x & Hx & He). apply bind_Ok in He as (y & Hy & He).
  assert (e = Select c x y) as ->.
  { unfold Select_make in He. cbn [defined eref mbind res_bind] in He.
    repeat (apply bind_Ok in He as (? & _ & He)). by injection He as <-. }
  apply (den_select ρ t Ht); auto.
Qed.
End Build.

(** * Both sides, lane by lane *)
Section Sides.
Context (Γ : gmap string Ty) (ρ : env) (Hρ : env_ok Ideal Γ ρ).
Context (t : Ty) (Ht : std_int t).

Lemma rule_rewrites e r : hasty Γ t e -> builds Γ t r ->
  (forall F, den ρ t e F -> (forall i, (i < nlanes t)%nat -> in_type t (F i)) ->
     exists G, computes ρ t r G /\ forall i, (i < nlanes t)%nat -> F i = G i) ->
  forall e', r = Ok e' -> rewrites Γ ρ e e'.
Proof.
  intros He Hb Hv e' Hr. pose proof (Hb _ Hr) as He'. split; [by apply (hasty_good Γ t)|..].
  - eapply type_eqb_trans_std; [exact Ht|by eapply hasty_type..].
  - intros v Hev. destruct (den_intro Γ ρ Hρ t Ht e v He Hev) as (F & HF & -> & Hin).
    destruct (Hv F HF Hin) as (G & HG & Heq). specialize (HG e' Hr). unfold den in HG. rewrite HG.
    f_equal. apply tab_eq. intros i Hi. by rewrite Heq.
Qed.

Lemma lanes_rewrites e r : hasty Γ t e -> lanes t <> 1 -> builds Γ (element_of t) r ->
  (forall F, den ρ t e F -> exists g, computes ρ (element_of t) r g /\ forall i, (i < nlanes t)%nat -> F i = g 0%nat) ->
  forall x, r = Ok x -> rewrites Γ ρ e (Broadcast x (lanes t)).
Proof.
  intros He Hl Hb Hv x Hr. destruct (broadcast_hasty Γ t Ht x (Hb _ Hr) Hl) as [_ Hx].
  apply (rule_rewrites e (built_expr (Broadcast x (lanes t)))); [done|by intros ? [= <-]| |done].
  intros F HF _. destruct (Hv F HF) as (g & Hg & Heq). exists (fun _ => g 0%nat). split; [|done].
  intros ? [= <-]. by apply (den_broadcast ρ t Ht), Hg.
Qed.

Lemma den_bin_lanes op a b F : arith op = true -> hasty Γ t a -> hasty Γ t b -> den ρ t (Bin op a b) F ->
  exists f g, den ρ t a f /\ den ρ t b g /\
    forall i, (i < nlanes t)%nat -> in_type t (f i) /\ in_type t (g i) /\ defd op (g i) /\ F i = iop t op (f i) (g i).
Proof.
  intros Hop Ha Hb HF. destruct (den_bin_inv Γ ρ Hρ t Ht op a b _ Hop Ha Hb HF) as (f & g & Hf & Hg & Hin & Heq).
  exists f, g. split; [done|]. split; [done|]. intros i Hi. destruct (Hin i Hi) as (? & ? & ?).
  repeat split; try done. by apply (proj1 (tab_eq _ _ _) Heq).
Qed.

Lemma den_select_lanes c x y F : hasty Γ t x -> hasty Γ t y -> den ρ t (Select c x y) F ->
  exists p f g, picks ρ t c p /\ den ρ t x f /\ den ρ t y g /\
    forall i, (i < nlanes t)%nat -> in_type t (f i) /\ in_type t (g i) /\ F i = if p i : bool then f i else g i.
Proof.
  intros Hx Hy HF. destruct (den_select_inv Γ ρ Hρ t Ht c x y _ Hx Hy HF) as (p & f & g & Hp & Hf & Hg & Hin & Heq).
  exists p, f, g. repeat split; try done; try by apply Hin. by apply (proj1 (tab_eq _ _ _) Heq).
Qed.

Lemma equal_lanes (test : ExprRef -> ExprRef -> bool) x y f g : EqualityTest Γ ρ test ->
  good Γ x -> good Γ y -> test (eref x) (eref y) = true -> den ρ t x f -> den ρ t y g ->
  forall i, (i < nlanes t)%nat -> f i = g i.
Proof.
  intros HE [Hwx Htx Hfx] [Hwy Hty Hfy] Hxy Hf Hg.
  assert (He : eval Ideal ρ x = eval Ideal ρ y) by (apply HE; auto using usual_plain).
  unfold den in *. rewrite He, Hg in Hf. apply tab_eq. congruence.
Qed.

Lemma zero_lanes x f : is_zero x = true -> good Γ x -> den ρ t x f -> forall i, (i < nlanes t)%nat -> f i = 0.
Proof.
  intros Hz [] Hf. pose proof Hf as He. unfold den in He.
  destruct (is_zero_eval _ _ _ _ Hz ltac:(done) He) as [n Hn]. rewrite Hn in He. by eapply den_replicate.
Qed.

Lemma one_lanes x f : is_one x = true -> good Γ x -> den ρ t x f -> forall i, (i < nlanes t)%nat -> f i = 1.
Proof.
  intros Hz [] Hf. pose proof Hf as He. unfold den in He.
  destruct (is_one_eval _ _ _ _ _ Hz ltac:(done) ltac:(eassumption) He) as [n Hn]. rewrite Hn in He. by eapply den_replicate.
Qed.

Lemma positive_lanes x f : is_positive_const x = true -> is_simple_const x = true -> good Γ x -> den ρ t x f ->
  forall i, (i < nlanes t)%nat -> 0 < f i.
Proof.
  intros Hp Hs [_ _ Hu] Hf i Hi. pose proof Hf as He. unfold den in He.
  assert (forall e v, is_positive_const e = true -> is_simple_const e = true -> usual_types e = true ->
    eval Ideal ρ e = Some v -> exists n z, v = replicate n (VInt z) /\ 0 < z) as H.
  { clear. intros e. induction e using Expr_ind'; intros w Hp Hs Hu He; simpl in *; try done.
    1,2: apply Z.ltb_lt in Hp; injection He as <-; by eexists 1%nat, _.
    apply bind_Some in He as (vs & Hvs & He). destruct (IHe _ Hp Hs Hu Hvs) as (n & z & Hn & Hz).
    exists (Z.to_nat l), z. split; [by eapply broadcast_replicate|done]. }
  destruct (H _ _ Hp Hs Hu He) as (n & z & Hn & Hz). rewrite Hn in He. by rewrite (den_replicate ρ t x f z n Hf He i Hi).
Qed.

Lemma const_int_lanes x f z : const_int x = Some z -> den ρ t x f -> forall i, (i < nlanes t)%nat -> f i = z.
Proof. unfold const_int. destruct (is_vector (type x)); [done|]. apply den_int. Qed.
Lemma const_uint_lanes x f z : const_uint x = Some z -> den ρ t x f -> forall i, (i < nlanes t)%nat -> f i = z.
Proof. unfold const_uint. destruct (is_vector (type x)); [done|]. apply den_uint. Qed.
End Sides.

(** Everything known, at one lane. *)
Ltac at_lane :=
  let i := fresh "i" in let Hi := fresh "Hi" in intros i Hi;
  repeat match goal with H : forall j, (j < _)%nat -> _ |- _ => specialize (H i Hi) end;
  repeat match goal with H : _ /\ _ |- _ => destruct H end;
  cbn [iop defd] in *;
  repeat match goal with
  | H : ?f ?i = ?x |- _ => is_var f; is_var i; rewrite H in *; clear H
  end.

(** The lanes of a node already split into those of its operands. *)
Definition split_already (ρ : env) (t : Ty) (e : Expr) (f : nat -> Z) : Prop := den ρ t e f.
Lemma computes_split ρ t x f : split_already ρ t x f -> computes ρ t (built_expr x) f.
Proof. apply computes_expr. Qed.

(** The types of the operands. *)
Ltac split_hasty Ht :=
  repeat match goal with
  | H : hasty _ _ (Bin _ _ _) |- _ => apply hasty_bin in H; [destruct H|exact Ht|reflexivity]
  end.
Ltac hasty_auto Ht :=
  repeat (apply hasty_bin; [exact Ht|reflexivity|split]); eassumption.
Ltac join_op :=
  lazymatch goal with
  | |- joins _ _ _ operator_add => apply joins_add
  | |- joins _ _ _ operator_sub => apply joins_sub
  | |- joins _ _ _ operator_mul => apply joins_mul
  | |- joins _ _ _ operator_div => apply joins_div
  | |- joins _ _ _ operator_mod => apply joins_mod
  | |- joins _ _ _ Operators.min => apply joins_min
  | |- joins _ _ _ Operators.max => apply joins_max
  | |- joins _ _ _ Add_make => apply joins_Add_make
  | |- joins _ _ _ Sub_make => apply joins_Sub_make
  | |- joins _ _ _ Mul_make => apply joins_Mul_make
  | |- joins _ _ _ Div_make => apply joins_Div_make
  | |- joins _ _ _ Mod_make => apply joins_Mod_make
  | |- joins _ _ _ Min_make => apply joins_Min_make
  | |- joins _ _ _ Max_make => apply joins_Max_make
  end; assumption.
(** The type of what a rule builds, and its lanes. *)
Ltac same_type Ht := first [apply type_eqb_refl|eapply hasty_type; hasty_auto Ht].
Ltac build Ht :=
  repeat first
    [ eassumption
    | lazymatch goal with
      | |- builds _ _ (built_expr _) => apply builds_expr; hasty_auto Ht
      | |- builds _ _ (make_const _ _) => apply (builds_const _ empty_env); [exact Ht|]; same_type Ht
      | |- builds _ _ (IntImm_make _ _) => apply (builds_imm _ empty_env); [exact Ht|]; same_type Ht
      | |- builds _ _ (make_one _) => apply (builds_one _ empty_env); exact Ht
      | |- builds _ _ (make_zero _) => apply (builds_zero _ empty_env); [exact Ht|]; same_type Ht
      | |- builds _ _ (neg' _) => apply (builds_neg _ empty_env); [exact Ht|]
      | |- builds _ _ (minus_int _ _) => apply (builds_minus_int _ empty_env); [exact Ht|]
      | |- builds _ _ (int_minus _ _) => apply (builds_int_minus _ empty_env); [exact Ht|]
      | |- builds _ _ (on2 _ _ _) => eapply builds_on2; [exact Ht|join_op|reflexivity| |]
      end ].
Ltac compute_lanes Ht :=
  repeat first
    [ eassumption
    | lazymatch goal with
      | |- computes _ _ (built_expr _) _ => first [apply computes_expr; eassumption|apply computes_split; eassumption]
      | |- computes _ _ (make_const _ _) _ => apply (computes_const ∅); [exact Ht|]; same_type Ht
      | |- computes _ _ (IntImm_make _ _) _ => apply (computes_imm ∅); [exact Ht|]; same_type Ht
      | |- computes _ _ (make_one _) _ => apply (computes_one ∅); exact Ht
      | |- computes _ _ (make_zero _) _ => apply (computes_zero ∅); [exact Ht|]; same_type Ht
      | |- computes _ _ (neg' _) _ => eapply computes_neg; [exact Ht|solve [build Ht]|]
      | |- computes _ _ (minus_int _ _) _ => eapply computes_minus_int; [exact Ht|lia|solve [build Ht]|]
      | |- computes _ _ (int_minus _ _) _ => eapply computes_int_minus; [exact Ht|lia|solve [build Ht]|]
      | |- computes _ _ (on2 _ _ _) _ =>
          eapply computes_on2; [exact Ht|join_op|reflexivity|solve [build Ht]|solve [build Ht]| | |try by intros]
      end ];
  try solve [at_lane; assumption].
(** The lanes of the operands of a node whose lanes are known. *)
Ltac split_den Hρ Ht :=
  repeat match goal with
  | H : den ?ρ ?t (Bin ?op ?x ?y) ?f |- _ =>
      pose proof (H : split_already ρ t (Bin op x y) f);
      eapply (den_bin_lanes _ _ Hρ _ Ht) in H; [|reflexivity|hasty_auto Ht|hasty_auto Ht];
      destruct H as (? & ? & ? & ? & ?)
  end.
(** What the tests of the rule say of the lanes. *)
Ltac test_facts HE Ht :=
  repeat match goal with
  | H : ?test (eref ?x) (eref ?y) = true, Hx : den _ ?t ?x ?f, Hy : den _ _ ?y ?g |- _ =>
      let K := fresh "Heq" in
      assert (K : forall i, (i < nlanes t)%nat -> f i = g i)
        by (eapply (equal_lanes _ _ _ test x y f g HE); [eapply hasty_good; hasty_auto Ht..|exact H|exact Hx|exact Hy]);
      clear H
  | H : is_zero ?x = true, Hx : den _ ?t ?x ?f |- _ =>
      let K := fresh "Heq" in
      assert (K : forall i, (i < nlanes t)%nat -> f i = 0)
        by (eapply zero_lanes; [exact H|eapply hasty_good; hasty_auto Ht|exact Hx]);
      clear H
  | H : is_one ?x = true, Hx : den _ ?t ?x ?f |- _ =>
      let K := fresh "Heq" in
      assert (K : forall i, (i < nlanes t)%nat -> f i = 1)
        by (eapply one_lanes; [exact H|eapply hasty_good; hasty_auto Ht|exact Hx]);
      clear H
  | H : const_int ?x = Some ?z, Hx : den _ ?t ?x ?f |- _ =>
      let K := fresh "Heq" in
      assert (K : forall i, (i < nlanes t)%nat -> f i = z) by (eapply const_int_lanes; [exact H|exact Hx]);
      clear H
  | H : const_uint ?x = Some ?z, Hx : den _ ?t ?x ?f |- _ =>
      let K := fresh "Heq" in
      assert (K : forall i, (i < nlanes t)%nat -> f i = z) by (eapply const_uint_lanes; [exact H|exact Hx]);
      clear H
  | H : is_positive_const ?x = true, H' : is_simple_const ?x = true, Hx : den _ ?t ?x ?f |- _ =>
      let K := fresh "Hpos" in
      assert (K : forall i, (i < nlanes t)%nat -> 0 < f i)
        by (eapply positive_lanes; [exact H|exact H'|eapply hasty_good; hasty_auto Ht|exact Hx]);
      clear H
  | H : no_overflow ?u = true |- _ =>
      let K := fresh "Hun" in
      pose proof (no_overflow_unbounded _ ltac:(exact Ht) u ltac:(first [apply type_eqb_refl|eapply hasty_type; hasty_auto Ht]) H) as K;
      clear H
  end.

Lemma i64_or z : i64 z = Ok z \/ exists x, i64 z = Err x.
Proof. unfold i64. case_bool_decide; eauto. Qed.

(** A rule that builds one expression from the operands: what is left is the
    equation of a lane. *)
Ltac lanes_of_rule Hρ HE Ht :=
  cbn [action_ok]; eapply (rule_rewrites _ _ Hρ _ Ht); [hasty_auto Ht|solve [build Ht]|];
  let F := fresh "F" in let HF := fresh "HF" in let Hin := fresh "Hin" in
  intros F HF Hin;
  eapply (den_bin_lanes _ _ Hρ _ Ht) in HF; [|reflexivity|hasty_auto Ht..]; destruct HF as (? & ? & ? & ? & HF);
  split_den Hρ Ht; test_facts HE Ht;
  eexists; split; [compute_lanes Ht|at_lane].
Ltac ring_rule Hρ HE Ht :=
  let act := fresh "act" in let Hact := fresh "Hact" in
  intros act Hact; rule_action Hact act; split_bools; split_hasty Ht;
  try match goal with |- action_ok _ _ _ (if ?c then _ else _) => destruct c end;
  lanes_of_rule Hρ HE Ht; norm_ring.

(** Rules that build a ramp, from the lanes of its base and stride. *)
Ltac build_ramp Ht Hte :=
  match goal with |- builds ?Γ ?t (ramp' ?a ?b _) =>
    apply (builds_ramp Γ t Ht a b); [build Hte|build Hte|assumption] end.
Ltac compute_ramp Γ Ht Hte :=
  match goal with |- computes ?ρ ?t (ramp' ?a ?b _) _ =>
    eapply (computes_ramp Γ ρ t Ht a b);
      [solve [build Hte]|solve [build Hte]|assumption|compute_lanes Hte|compute_lanes Hte|] end;
  cbn [iop]; rewrite ?element_norm by done; first [assumption|apply norm_in_type; done].
(** The lanes of a ramp or of a broadcast. *)
Ltac split_ramp Hρ Ht H HF :=
  let L := fresh "L" in
  destruct (den_ramp_inv _ _ Hρ _ Ht _ _ _ _ H HF) as (? & ? & ? & ? & ? & ? & L).
Ltac split_broadcast Hρ Ht H HF :=
  let L := fresh "L" in
  destruct (den_broadcast_inv _ _ Hρ _ Ht _ _ _ H HF) as (? & ? & ? & L).
(** Open a sum, difference or product of two nodes. *)
Ltac operands_of_rule Hρ Ht fa fb :=
  let F := fresh "F" in let HF := fresh "HF" in let Hin := fresh "Hin" in
  intros F HF; try intros Hin;
  eapply (den_bin_lanes _ _ Hρ _ Ht) in HF; [|reflexivity|hasty_auto Ht..];
  destruct HF as (? & ? & fa & fb & HF).

Lemma equal_conditions Γ ρ (test : ExprRef -> ExprRef -> bool) c c' : EqualityTest Γ ρ test -> good Γ c -> good Γ c' ->
  test (eref c) (eref c') = true -> eval Ideal ρ c = eval Ideal ρ c'.
Proof. intros HE [] [] H. apply HE; auto using usual_plain. Qed.

(** Rules that build a selection. *)
Ltac build_select Ht :=
  match goal with |- builds ?Γ ?t (select' (built_expr ?c) ?a ?b) =>
    apply (builds_select Γ t Ht c a b); [assumption|assumption|assumption|solve [build Ht]|solve [build Ht]] end.
Ltac compute_select Ht :=
  match goal with |- computes ?ρ ?t (select' (built_expr ?c) ?a ?b) _ =>
    eapply (computes_select ρ t Ht c a b); [eassumption|compute_lanes Ht|compute_lanes Ht] end.
Ltac split_select Hρ Ht HF :=
  let P := fresh "P" in let L := fresh "L" in
  eapply (den_select_lanes _ _ Hρ _ Ht) in HF; [|eassumption|eassumption];
  destruct HF as (? & ? & ? & P & ? & ? & L).
Ltac same_picks HE :=
  match goal with P : picks ?ρ ?t ?c ?p, Q : picks ?ρ ?t ?c' ?q, H : ?test (eref ?c) (eref ?c') = true |- _ =>
    pose proof (picks_same ρ t c c' p q
      (equal_conditions _ ρ test c c' HE ltac:(assumption) ltac:(assumption) H) P Q) end.
(** The lane picks one side. *)
Ltac pick_lane :=
  repeat match goal with H : _ = (if _ then _ else _) |- _ => rewrite H in * ; clear H
         | H : ?p ?i = ?q ?i |- _ => is_var p; is_var q; rewrite H in *; clear H end;
  repeat match goal with |- context [if ?b then _ else _] => destruct b end.

Lemma norm_zero t : norm t 0 = 0.
Proof. unfold norm. destruct (unbounded t); [done|apply wrap_type_zero]. Qed.

(** Under a type without overflow, an equation of integers. *)
Ltac exact_lane := rewrite ?norm_unbounded in * by assumption; lia.
Ltac exact_rule Hρ HE Ht :=
  let act := fresh "act" in let Hact := fresh "Hact" in
  intros act Hact; rule_action Hact act; split_bools; split_hasty Ht; lanes_of_rule Hρ HE Ht; exact_lane.

(** * Constants and poison *)
Section Constants.
Context (Γ : gmap string Ty) (ρ : env) (Hρ : env_ok Ideal Γ ρ) (Hp : no_poison ρ).
Context (t : Ty) (Ht : std_int t).

Lemma ediv_shift x d k : d <> 0 -> ediv (x + d * k) d = ediv x d + k.
Proof. intros Hd. destruct (ediv_emod x d Hd). apply (ediv_unique (x + d * k) d (ediv x d + k) (emod x d)); lia. Qed.

Lemma wrap_unbounded z : unbounded t = true -> in_srange (bits t) z -> wrap_type t z = z.
Proof.
  intros Hu Hz. unfold unbounded in Hu. apply andb_true_iff in Hu as [Hi _]. unfold wrap_type. rewrite Hi.
  apply swrap_id; [apply (std_int_bits t Ht)|done].
Qed.

Lemma const_int_in_range e i : hasty Γ t e -> const_int e = Some i ->
  in_srange (bits t) i /\ in_srange 64 i /\ is_int t = true.
Proof.
  intros He Hc. unfold const_int in Hc. destruct (is_vector (type e)) eqn:Hv; [done|].
  pose proof (hasty_good _ _ _ He) as [Hwf Hty _]. destruct e; try done.
  - simpl in Hc. injection Hc as ->. destruct (hasty_fields Γ t Ht _ He) as (Hc' & Hb & _).
    destruct Hwf as [[Hw Hr] _]. simpl in Hc', Hb. rewrite Hb in Hr. split; [done|].
    split; [eapply srange_mono; [|exact Hr]; pose proof (std_int_bits t Ht); lia|].
    apply andb_true_iff in Hw as [Hw _]. apply andb_true_iff in Hw as [Hw _]. unfold is_int in *. by rewrite <- Hc'.
  - exfalso. destruct Hwf as [[_ Hl] _], Hty as [_ Hlt]. simpl in Hv. unfold is_vector in Hv. simpl in Hv.
    rewrite small_lanes in Hv by done. bool_to_prop. done.
Qed.


(** An operand without a value leaves the node without one. *)
Lemma poison_rewrites op a b x : arith op = true -> hasty Γ t a -> hasty Γ t b -> x = a \/ x = b ->
  is_intrinsic_call "signed_integer_overflow" x = true -> rewrites Γ ρ (Bin op a b) x.
Proof.
  intros Hop Ha Hb Hx Hc. assert (Hh : hasty Γ t x) by (by destruct Hx as [-> | ->]).
  assert (Hn : eval Ideal ρ x = None).
  { destruct x as [| | | | | | | | | | | |u name args ct fn vi im pr|]; try done. simpl in Hc.
    assert (name = "signed_integer_overflow" /\ call_is_intrinsic "signed_integer_overflow" ct "signed_integer_overflow" = true) as [-> Hct].
    { unfold call_is_intrinsic in Hc |- *. destruct ct; try done; bool_to_prop; subst; by rewrite bool_decide_eq_true_2. }
    cbn [eval]. destruct (mapM (eval Ideal ρ) args) as [vs|]; [|done]. cbn [mbind option_bind].
    unfold eval_call. rewrite Hp by done. by destruct ct. }
  split; [by apply (hasty_good Γ t)|..].
  - rewrite arith_type by done. eapply type_eqb_trans_std; [exact Ht|by eapply hasty_type..].
  - intros v He. exfalso. cbn [eval] in He. destruct Hx as [<- | <-]; rewrite Hn in He; [done|].
    by destruct (eval Ideal ρ a).
Qed.

Lemma const_overflow_ok op a b : arith op = true -> hasty Γ t a -> action_ok Γ ρ (Bin op a b) (Overflow (type a)).
Proof.
  intros Hop Ha. cbn [action_ok]. rewrite arith_type by done. split; [apply type_eqb_refl|].
  pose proof (type_eqb_classes _ _ (hasty_type _ _ _ Ha)) as (_ & _ & -> & _).
  split; [by apply (std_int_class t Ht)|]. destruct Ha as [[] _]. by eapply ty_ok_type.
Qed.

Lemma no_overflow_no : no_overflow t = false -> unbounded t = false.
Proof.
  unfold no_overflow, no_overflow_scalar_int, unbounded. intros H. apply orb_false_iff in H as [_ H].
  destruct (element_of_fields t (std_int_bits t Ht)) as (Hc & Hb & Hl).
  unfold is_scalar, is_int in H. rewrite Hc, Hb, Hl in H. exact H.
Qed.


Lemma imm_rewrites op a b x u : arith op = true -> hasty Γ t a -> hasty Γ t b -> type_eqb u t = true ->
  (is_int t = true \/ is_uint t = true) ->
  (forall F, den ρ t (Bin op a b) F -> forall i, (i < nlanes t)%nat -> F i = wrap_type t x) ->
  (forall e', IntImm_make u x = Ok e' -> rewrites Γ ρ (Bin op a b) e') /\
  (forall e', UIntImm_make u x = Ok e' -> rewrites Γ ρ (Bin op a b) e').
Proof.
  intros Hop Ha Hb Hu _ HF.
  assert (Hab : hasty Γ t (Bin op a b)) by (by apply hasty_bin).
  split; intros e' He';
    [apply (IntImm_Ok Γ ρ t Ht u x e' Hu) in He' as [H1 H2]|apply (UIntImm_Ok Γ ρ t Ht u x e' Hu) in He' as [H1 H2]];
    (eapply (rule_rewrites _ _ Hρ _ Ht _ (built_expr e')); [done|by intros ? [= <-]| |done]);
    intros F HFd _; (eexists; split; [by intros ? [= <-]|]); by apply HF.
Qed.

(** Folding two signed constants: the overflow test guards the types whose overflow
    is undefined, and the others wrap. *)
Lemma int_fold_ok op a b ia ib z ov : arith op = true -> hasty Γ t a -> hasty Γ t b ->
  const_int a = Some ia -> const_int b = Some ib -> (forall x y, x = ia -> y = ib -> iop t op x y = norm t z) ->
  (ov = true <-> ~ in_srange (bits t) z) ->
  action_ok Γ ρ (Bin op a b)
    (if no_overflow (type a) && ov then Overflow (type a) else Result (v ← i64 z; IntImm_make (type a) v)).
Proof.
  intros Hop Ha Hb Hia Hib Hz Hov. destruct (no_overflow (type a) && ov) eqn:E; [by apply const_overflow_ok|].
  destruct (const_int_in_range a ia Ha Hia) as (_ & _ & Hi).
  cbn [action_ok]. destruct (i64_or z) as [-> | [? ->]]; [|by intros ? [=]]. cbn [mbind res_bind].
  apply (imm_rewrites op a b z); auto; [by eapply hasty_type|].
  intros F HF. eapply (den_bin_lanes _ _ Hρ _ Ht) in HF as (f & g & Hf & Hg & HF); [|done..].
  intros i Hl. destruct (HF i Hl) as (_ & _ & _ & ->).
  rewrite (Hz (f i) (g i)) by (by eapply const_int_lanes).
  apply andb_false_iff in E as [E|E].
  - unfold norm. rewrite no_overflow_no; [done|]. rewrite <- E. unfold no_overflow, no_overflow_scalar_int.
    pose proof (type_eqb_classes _ _ (hasty_type _ _ _ Ha)) as (_ & _ & -> & _).
    destruct (eqb_class t Ht (type a) (hasty_type _ _ _ Ha)) as (_ & _ & _ & _ & _ & _ & _ & ->). done.
  - unfold norm. destruct (unbounded t) eqn:Hu; [|done]. symmetry. apply wrap_unbounded; [done|].
    destruct (decide (in_srange (bits t) z)) as [|Hn]; [done|]. apply Hov in Hn. congruence.
Qed.

(** Unsigned constants wrap. *)
Lemma uint_fold_ok op a b ua ub z : arith op = true -> hasty Γ t a -> hasty Γ t b ->
  const_uint a = Some ua -> const_uint b = Some ub -> (forall x y, x = ua -> y = ub -> iop t op x y = norm t z) ->
  action_ok Γ ρ (Bin op a b) (Result (UIntImm_make (type a) (uwrap 64 z))).
Proof.
  intros Hop Ha Hb Hua Hub Hz e' He'.
  destruct (eqb_class t Ht (type a) (hasty_type _ _ _ Ha)) as (_ & Hue & _).
  assert (Hut : is_uint t = true).
  { rewrite <- Hue. unfold UIntImm_make in He'. apply bind_Ok in He' as (? & H & _).
    apply internal_assert_Ok, andb_true_iff in H as [H _]. done. }
  eapply (imm_rewrites op a b (uwrap 64 z)); [..|exact He']; auto; [by eapply hasty_type|].
  intros F HF. eapply (den_bin_lanes _ _ Hρ _ Ht) in HF as (f & g & Hf & Hg & HF); [|done..].
  intros i Hl. destruct (HF i Hl) as (_ & _ & _ & ->). rewrite (Hz (f i) (g i)) by (by eapply const_uint_lanes).
  unfold norm, unbounded, wrap_type. rewrite (uint_not_int t Hut). simpl. symmetry. apply uwrap_uwrap.
  pose proof (std_int_bits t Ht). lia.
Qed.

(** No float constant has an integer type. *)
Lemma FloatImm_no u f e : type_eqb u t = true -> FloatImm_make u f <> Ok e.
Proof.
  intros Hu He. unfold FloatImm_make in He. apply bind_Ok in He as (? & H & _).
  apply internal_assert_Ok, andb_true_iff in H as [H _].
  pose proof (type_eqb_classes _ _ Hu) as (_ & _ & Hf & _). rewrite Hf in H.
  by rewrite (proj1 (proj2 (std_int_class t Ht))) in H.
Qed.
Lemma float_fold_ok op a b f : arith op = true -> hasty Γ t a ->
  action_ok Γ ρ (Bin op a b) (Result (FloatImm_make (type a) f)).
Proof. intros Hop [_ Ha] e' He'. by apply FloatImm_no in He'. Qed.
End Constants.
