(* ===== verification/Bounds.v ===== *)
(** Bounds inference: the interval of values an expression takes while its variables
    range over the intervals of a scope, src/src/Bounds.h and src/src/Bounds.cpp. Each
    [visit] method is a function of the intervals of the operands, wrapped in the state
    of the visitor; [simplify] is a parameter. *)

From Stdlib Require Import ZArith Lia Bool SpecFloat String Ascii.
From stdpp Require Import prelude strings gmap.
From S2P Require Import Prelude Types IR Semantics Scope Operators Mutator Visitor ExprUsesVar CSE Interval Simplify.

#[local] Open Scope Z_scope.
#[local] Open Scope halide_scope.

#[global] Instance Interval_inhabited : Inhabited Interval := populate everything.

Inductive Direction := Upper | Lower.

(** A test of the front end on a handle: [as<Op>()] of a null handle is null. *)
Definition on_ref (test : Expr -> bool) (e : ExprRef) : bool :=
  match e with Some e => test e | None => false end.

Definition to_ref (e : res Expr) : res ExprRef := e ← e; Ok (eref e).

(** The object: [scope] has the caller's scope as its containing scope; the counters
    are those of [unique_name]. *)
Record Bounds := mkBounds { interval : Interval; scope : Scope Interval; counters : name_counters }.

Definition FuncValueBounds : Type := gmap (string * Z) Interval.

(** * What needs neither the simplifier nor the scope *)

Definition bounds_of_type (t : Ty) : res Interval :=
  let t := element_of t in
  if (is_uint t || is_int t) && (bits t <=? 16) then
    lo ← Type_min t; hi ← Type_max t; Interval_make (eref lo) (eref hi)
  else Ok everything.

Section Bounds.
Context (same_as equal : ExprRef -> ExprRef -> bool) (simplify : Expr -> Expr).

Notation has_lower_bound := (has_lower_bound same_as).
Notation has_upper_bound := (has_upper_bound same_as).
Notation is_bounded := (is_bounded same_as).
Notation is_single_point := (is_single_point same_as).
Notation is_single_point_of := (is_single_point_of same_as).
Notation make_min := (make_min same_as equal).
Notation make_max := (make_max same_as equal).

(** [can_prove] of Simplify.cpp. *)
Definition can_prove (e : Expr) : res bool :=
  guard! is_bool (type e) else "Argument to can_prove is not a boolean Expr";
  Ok (is_one (simplify e)).

Definition can_prove_that (e : res Expr) : res bool := e ← e; can_prove e.

Definition static_sign (x : Expr) : res Z :=
  if is_positive_const x then Ok 1
  else if is_negative_const x then Ok (-1)
  else
    zero ← make_zero (type x);
    gt ← operator_gt (eref x) (eref zero);
    true_1 ← const_true 1;
    if equal (eref true_1) (eref (simplify gt)) then Ok 1
    else
      lt ← operator_lt (eref x) (eref zero);
      if equal (eref true_1) (eref (simplify lt)) then Ok (-1) else Ok 0.

Fixpoint find_constant_bound (e : Expr) (d : Direction) : res ExprRef :=
  if is_const e then Ok (eref e)
  else
    match e with
    | Bin Min x y =>
        a ← find_constant_bound x d;
        b ← find_constant_bound y d;
        match a, b, d with
        | Some a, Some b, _ => m ← Min_make (eref a) (eref b); Ok (eref (simplify m))
        | Some a, None, Upper => Ok (eref a)
        | None, Some b, Upper => Ok (eref b)
        | _, _, _ => Ok None
        end
    | Bin Max x y =>
        a ← find_constant_bound x d;
        b ← find_constant_bound y d;
        match a, b, d with
        | Some a, Some b, _ => m ← Max_make (eref a) (eref b); Ok (eref (simplify m))
        | Some a, None, Lower => Ok (eref a)
        | None, Some b, Lower => Ok (eref b)
        | _, _, _ => Ok None
        end
    | Cast t value =>
        a ← find_constant_bound value d;
        match a with
        | Some a => c ← Cast_make t (eref a); Ok (eref (simplify c))
        | None => Ok None
        end
    | _ => Ok None
    end.

(** * The intervals the visits compute from those of the operands *)

(** [cast<int>(x) op cast<int>(y) == cast<int>(r)]. *)
Definition no_overflow_test (op : ExprRef -> ExprRef -> res Expr) (x y r : ExprRef) : res Expr :=
  x ← cast (Int 32 1) x;
  y ← cast (Int 32 1) y;
  s ← op (eref x) (eref y);
  r ← cast (Int 32 1) r;
  operator_eq (eref s) (eref r).

(** The check of [Add] and [Sub] for types narrower than [int]: whether the ends of [i]
    did not overflow. *)
Definition ends_fit (op : Expr) (operator : ExprRef -> ExprRef -> res Expr)
    (upper_x upper_y lower_x lower_y : ExprRef) (i : Interval) : res bool :=
  if negb (is_float (type op)) && (bits (type op) <? 32) then
    upper_fits ← (if has_upper_bound i then can_prove_that (no_overflow_test operator upper_x upper_y (i_max i))
                  else Ok true);
    if negb upper_fits then Ok false
    else if has_lower_bound i then can_prove_that (no_overflow_test operator lower_x lower_y (i_min i))
    else Ok true
  else Ok true.

Definition add_interval (op op_a op_b : Expr) (a b : Interval) : res Interval :=
  if is_single_point_of a (eref op_a) && is_single_point_of b (eref op_b) then single_point (eref op)
  else if is_single_point a && is_single_point b then
    s ← operator_add (i_min a) (i_min b); single_point (eref s)
  else
    min ← (if has_lower_bound a && has_lower_bound b then to_ref (operator_add (i_min a) (i_min b)) else Ok neg_inf);
    max ← (if has_upper_bound a && has_upper_bound b then to_ref (operator_add (i_max a) (i_max b)) else Ok pos_inf);
    let i := mkInterval min max in
    fits ← ends_fit op operator_add (i_max a) (i_max b) (i_min a) (i_min b) i;
    if negb fits then bounds_of_type (type op) else Ok i.

Definition sub_interval (op op_a op_b : Expr) (a b : Interval) : res Interval :=
  if is_single_point_of a (eref op_a) && is_single_point_of b (eref op_b) then single_point (eref op)
  else if is_single_point a && is_single_point b then
    s ← operator_sub (i_min a) (i_min b); single_point (eref s)
  else
    min ← (if has_lower_bound a && has_upper_bound b then to_ref (operator_sub (i_min a) (i_max b)) else Ok neg_inf);
    max ← (if has_upper_bound a && has_lower_bound b then to_ref (operator_sub (i_max a) (i_min b)) else Ok pos_inf);
    let i := mkInterval min max in
    fits ← ends_fit op operator_sub (i_max a) (i_min b) (i_min a) (i_max b) i;
    if negb fits then bounds_of_type (type op)
    else if is_uint (type op) && has_lower_bound i then
      no_underflow ← can_prove_that (operator_le (i_max b) (i_min a));
      if negb no_underflow then bounds_of_type (type op) else Ok i
    else Ok i.

(** [select(cmp, e1, e2)] and [select(cmp, e2, e1)]. *)
Definition select_interval (cmp : Expr) (e1 e2 : ExprRef) : res Interval :=
  lo ← select (eref cmp) e1 e2;
  hi ← select (eref cmp) e2 e1;
  Interval_make (eref lo) (eref hi).

(** The extrema of [op] at the corners of a rectangle, in the order of the source. *)
Definition corners_interval (corners : list (res Expr)) : res Interval :=
  foldl (fun i corner => i ← i; e ← corner; include_expr same_as equal i (eref e)) (Ok nothing) corners.

(** The products of the ends of [a] with the point [b]. *)
Definition mul_point_interval (op : Expr) (a b : Interval) : res Interval :=
  e1 ← (if has_lower_bound a then to_ref (operator_mul (i_min a) (i_min b)) else Ok (i_min a));
  e2 ← (if has_upper_bound a then to_ref (operator_mul (i_max a) (i_min b)) else Ok (i_max a));
  if on_ref is_zero (i_min b) then Ok b
  else if on_ref is_positive_const (i_min b) || is_uint (type op) then Interval_make e1 e2
  else if on_ref is_negative_const (i_min b) then Interval_make e2 e1
  else if is_bounded a then
    point ← deref (i_min b);
    zero ← make_zero (element_of (type point));
    cmp ← operator_ge (eref point) (eref zero);
    select_interval cmp e1 e2
  else Ok everything.

Definition mul_ends_interval (op op_a op_b : Expr) (a b : Interval) : res Interval :=
  if is_single_point_of a (eref op_a) && is_single_point_of b (eref op_b) then single_point (eref op)
  else if is_single_point a && is_single_point b then
    s ← operator_mul (i_min a) (i_min b); single_point (eref s)
  else if is_single_point b then mul_point_interval op a b
  else if is_bounded a && is_bounded b then
    corners_interval [operator_mul (i_min a) (i_min b); operator_mul (i_min a) (i_max b);
                      operator_mul (i_max a) (i_min b); operator_mul (i_max a) (i_max b)]
  else Ok everything.

Definition mul_test (x y : ExprRef) : res Expr :=
  p ← operator_mul x y; no_overflow_test operator_mul x y (eref p).

Definition mul_interval (op op_a op_b : Expr) (a b : Interval) : res Interval :=
  let '(a, b) := if is_single_point a && negb (is_single_point b) then (b, a) else (a, b) in
  i ← mul_ends_interval op op_a op_b a b;
  if (bits (type op) <? 32) && negb (is_float (type op)) then
    if is_bounded a && is_bounded b then
      test1 ← mul_test (i_min a) (i_min b);
      test2 ← mul_test (i_min a) (i_max b);
      test3 ← mul_test (i_max a) (i_min b);
      test4 ← mul_test (i_max a) (i_max b);
      both ← operator_and (eref test1) (eref test2);
      three ← operator_and (eref both) (eref test3);
      fits ← can_prove_that (operator_and (eref three) (eref test4));
      if negb fits then bounds_of_type (type op) else Ok i
    else bounds_of_type (type op)
  else Ok i.

(** The quotients of the ends of [a] by the one value of [b]. *)
Definition div_point_interval (op : Expr) (a b : Interval) : res Interval :=
  e1 ← (if has_lower_bound a then to_ref (operator_div (i_min a) (i_min b)) else Ok (i_min a));
  e2 ← (if has_upper_bound a then to_ref (operator_div (i_max a) (i_max b)) else Ok (i_max a));
  if on_ref is_positive_const (i_min b) || is_uint (type op) then Interval_make e1 e2
  else if on_ref is_negative_const (i_min b) then Interval_make e2 e1
  else if is_bounded a then
    point ← deref (i_min b);
    zero ← make_zero (element_of (type point));
    cmp ← operator_gt (eref point) (eref zero);
    select_interval cmp e1 e2
  else Ok everything.

Definition div_corners_interval (a b : Interval) : res Interval :=
  b_min ← deref (i_min b);
  b_max ← deref (i_max b);
  min_sign ← static_sign b_min;
  max_sign ← static_sign b_max;
  if negb (min_sign =? max_sign) || (min_sign =? 0) || (max_sign =? 0) then Ok everything
  else corners_interval [operator_div (i_min a) (i_min b); operator_div (i_max a) (i_min b);
                         operator_div (i_min a) (i_max b); operator_div (i_max a) (i_max b)].

Definition div_interval (op op_a op_b : Expr) (a b : Interval) : res Interval :=
  if negb (is_bounded b) then Ok everything
  else if is_single_point_of a (eref op_a) && is_single_point_of b (eref op_b) then single_point (eref op)
  else
    one_value ← can_prove_that (operator_eq (i_min b) (i_max b));
    if one_value : bool then div_point_interval op a b
    else if is_bounded a then div_corners_interval a b
    else Ok everything.

(** [Max::make(abs(b.min), abs(b.max))]. *)
Definition max_abs (b : Interval) : res Expr :=
  x ← abs (i_min b); y ← abs (i_max b); Max_make (eref x) (eref y).

Definition mod_interval (op op_a op_b : Expr) (a b : Interval) : res Interval :=
  if is_single_point_of a (eref op_a) && is_single_point_of b (eref op_b) then single_point (eref op)
  else
    let t := element_of (type op) in
    if is_single_point a && is_single_point b then
      s ← operator_mod (i_min a) (i_min b); single_point (eref s)
    else
      b_max ← deref (i_max b);
      zero ← make_zero t;
      if is_uint (type b_max) || is_int (type b_max) && on_ref is_positive_const (i_min b) then
        one ← make_one t;
        hi ← operator_sub (i_max b) (eref one);
        Interval_make (eref zero) (eref hi)
      else if is_int (type b_max) then
        m ← max_abs b;
        one ← make_one t;
        hi ← operator_sub (eref m) (eref one);
        Interval_make (eref zero) (eref hi)
      else
        hi ← max_abs b;
        Interval_make (eref zero) (eref hi).

Definition min_interval (op op_a op_b : Expr) (a b : Interval) : res Interval :=
  if is_single_point_of a (eref op_a) && is_single_point_of b (eref op_b) then single_point (eref op)
  else
    lo ← make_min (i_min a) (i_min b);
    hi ← make_min (i_max a) (i_max b);
    Interval_make lo hi.

Definition max_interval (op op_a op_b : Expr) (a b : Interval) : res Interval :=
  if is_single_point_of a (eref op_a) && is_single_point_of b (eref op_b) then single_point (eref op)
  else
    lo ← make_max (i_min a) (i_min b);
    hi ← make_max (i_max a) (i_max b);
    Interval_make lo hi.

(** The narrowing part of [Cast]: the constants that bound the operand, when they
    survive the cast. *)
Definition narrowed (to from : Ty) (a : Interval) : res (option Interval) :=
  a_min ← deref (i_min a);
  a_max ← deref (i_max a);
  lower_bound ← find_constant_bound a_min Lower;
  upper_bound ← find_constant_bound a_max Upper;
  match lower_bound, upper_bound with
  | Some lower_bound, Some upper_bound =>
      let round_trip (x : Expr) : res Expr :=
        y ← cast to (eref x); z ← cast from (eref y); operator_eq (eref z) (eref x) in
      x ← round_trip lower_bound;
      y ← round_trip upper_bound;
      fits ← can_prove_that (operator_and (eref x) (eref y));
      if fits : bool then i ← Interval_make (eref lower_bound) (eref upper_bound); Ok (Some i) else Ok None
  | _, _ => Ok None
  end.

(** The operand's interval to cast, or that the cast may overflow. *)
Definition cast_operand (to from : Ty) (a : Interval) : res (option Interval) :=
  if can_represent to from || is_float to then Ok (Some a)
  else if is_int to && (32 <=? bits to) then Ok (Some a)
  else if is_bounded a && can_represent from to then narrowed to from a
  else Ok None.

Definition cast_ends (to from : Ty) (a : Interval) : res Interval :=
  i ← bounds_of_type from;
  let i := if has_lower_bound a then mkInterval (i_min a) (i_max i) else i in
  let i := if has_upper_bound a then mkInterval (i_min i) (i_max a) else i in
  i ← (if has_lower_bound i then lo ← Cast_make to (i_min i); Ok (mkInterval (eref lo) (i_max i)) else Ok i);
  if has_upper_bound i then hi ← Cast_make to (i_max i); Ok (mkInterval (i_min i) (eref hi)) else Ok i.

Definition cast_interval (op : Expr) (t : Ty) (value : Expr) (a : Interval) : res Interval :=
  if is_single_point_of a (eref value) then single_point (eref op)
  else
    let to := element_of t in
    let from := element_of (type value) in
    if is_single_point a then c ← Cast_make to (i_min a); single_point (eref c)
    else
      r ← cast_operand to from a;
      match r with
      | Some a => cast_ends to from a
      | None => bounds_of_type to
      end.

(** One end of [Select]. *)
Definition select_end (condition : Expr) (const_scalar_condition : bool)
    (make : ExprRef -> ExprRef -> res ExprRef) (a b : ExprRef) : res ExprRef :=
  if same_as a b then Ok a
  else if const_scalar_condition then to_ref (select (eref condition) a b)
  else make a b.

Definition const_scalar_condition (s : Scope Interval) (condition : Expr) : bool :=
  is_scalar (type condition)
  && negb (expr_uses_vars (fun x y => same_as (eref x) (eref y)) (scope_contains s) condition).

Definition select_intervals (s : Scope Interval) (condition : Expr) (a b : Interval) : res Interval :=
  let const_scalar_condition := const_scalar_condition s condition in
  lo ← select_end condition const_scalar_condition make_min (i_min a) (i_min b);
  hi ← select_end condition const_scalar_condition make_max (i_max a) (i_max b);
  Ok (mkInterval lo hi).

Definition load_interval (t : Ty) (name : string) (image param : ptr) (index : Interval) : res Interval :=
  if is_single_point index then
    load_min ← Load_make (element_of t) name (i_min index) image param;
    single_point (eref load_min)
  else bounds_of_type t.

Definition abs_interval (t arg_type : Ty) (a : Interval) : res Interval :=
  zero ← make_zero t;
  if is_bounded a then
    if equal (i_min a) (i_max a) then
      c ← Call_make t "abs" [i_max a] PureIntrinsic None 0 None None; single_point (eref c)
    else if is_int arg_type && (32 <=? bits arg_type) then
      n ← operator_neg (i_min a);
      x ← Cast_make t (eref n);
      y ← Cast_make t (i_max a);
      hi ← Max_make (eref x) (eref y);
      Ok (mkInterval (eref zero) (eref hi))
    else
      x ← Call_make t "abs" [i_min a] PureIntrinsic None 0 None None;
      y ← Call_make t "abs" [i_max a] PureIntrinsic None 0 None None;
      hi ← Max_make (eref x) (eref y);
      Ok (mkInterval (eref zero) (eref hi))
  else Ok (mkInterval (eref zero) pos_inf).

(** * [Let] *)

(** One end of the variable, and what is left of that end of the value: constants are
    substituted, other ends get a name. *)
Definition let_end (finite : bool) (e inf : ExprRef) (t : Ty) (name : string) : res (ExprRef * ExprRef) :=
  if finite then
    if is_const_ref e then Ok (e, None)
    else v ← Variable_make t name None None None; Ok (eref v, e)
  else Ok (inf, e).

Definition let_variable (name : string) (value : Expr) (val : Interval) : res (Interval * Interval) :=
  let t := element_of (type value) in
  '(var_min, val_min) ← let_end (has_lower_bound val) (i_min val) neg_inf t (name +:+ ".min");
  let val := mkInterval val_min (i_max val) in
  '(var_max, val_max) ← let_end (has_upper_bound val) (i_max val) pos_inf t (name +:+ ".max");
  Ok (mkInterval var_min var_max, mkInterval val_min val_max).

(** The lets around one end of the body. *)
Definition wrap_let (name : string) (value e : ExprRef) : res ExprRef :=
  match value with
  | Some _ =>
      body ← deref e;
      if expr_uses_var (fun x y => same_as (eref x) (eref y)) body name then to_ref (Let_make name value e) else Ok e
  | None => Ok e
  end.

Definition wrap_end (name : string) (val : Interval) (e : ExprRef) : res ExprRef :=
  e ← wrap_let (name +:+ ".min") (i_min val) e;
  wrap_let (name +:+ ".max") (i_max val) e.

Definition let_interval (name : string) (val i : Interval) : res Interval :=
  i ← (if has_lower_bound i then lo ← wrap_end name val (i_min i); Ok (mkInterval lo (i_max i)) else Ok i);
  if has_upper_bound i then hi ← wrap_end name val (i_max i); Ok (mkInterval (i_min i) hi) else Ok i.

(** * The visitor *)

Section Visit.
Context (func_bounds : FuncValueBounds).

Definition bounds_of_func (name : string) (value_index : Z) (t : Ty) : res Interval :=
  i ← bounds_of_type t;
  match func_bounds !! (name, value_index) with
  | Some fb =>
      let i := if has_lower_bound fb then mkInterval (i_min fb) (i_max i) else i in
      Ok (if has_upper_bound fb then mkInterval (i_min i) (i_max fb) else i)
  | None => Ok i
  end.

Definition set_interval (i : Interval) (b : Bounds) : Bounds := mkBounds i (scope b) (counters b).
Definition set_scope (s : Scope Interval) (b : Bounds) : Bounds := mkBounds (interval b) s (counters b).

(** [interval = i], and [interval] as it is. *)
Definition become (i : res Interval) : mut Bounds Interval := fun st =>
  i ← i; Ok (i, set_interval i st).
Definition current : mut Bounds Interval := fun st => Ok (interval st, st).
Definition the_scope : mut Bounds (Scope Interval) := fun st => Ok (scope st, st).
Definition push (name : string) (i : Interval) : mut Bounds unit := fun st =>
  Ok (tt, set_scope (scope_push (scope st) name i) st).
Definition pop (name : string) : mut Bounds unit := fun st =>
  s ← scope_pop (scope st) name; Ok (tt, set_scope s st).
Definition fresh (prefix : ascii) : mut Bounds string := fun st =>
  let '(name, cs) := unique_name prefix (counters st) in
  Ok (name, mkBounds (interval st) (scope st) cs).

(** [e.accept(this)], and the [interval] it leaves. *)
Context (accept : Expr -> mut Bounds Interval).

Definition visit_binary (f : Interval -> Interval -> res Interval) (op_a op_b : Expr) : mut Bounds Interval :=
  a ← accept op_a; b ← accept op_b; become (f a b).

Definition visit_Cast (op : Expr) (t : Ty) (value : Expr) : mut Bounds Interval :=
  a ← accept value; become (cast_interval op t value a).

Definition visit_Variable (op : Expr) (t : Ty) (name : string) : mut Bounds Interval :=
  s ← the_scope;
  if scope_contains s name then become (scope_get s name)
  else if is_vector t then become (bounds_of_type t)
  else become (single_point (eref op)).

Definition visit_Mod (op op_a op_b : Expr) : mut Bounds Interval :=
  a ← accept op_a;
  b ← accept op_b;
  if negb (is_bounded b) then current else become (mod_interval op op_a op_b a b).

Definition visit_Select (condition true_value false_value : Expr) : mut Bounds Interval :=
  a ← accept true_value;
  if negb (is_bounded a) then current
  else
    b ← accept false_value;
    if negb (is_bounded b) then current
    else s ← the_scope; become (select_intervals s condition a b).

Definition visit_Load (t : Ty) (name : string) (index : Expr) (image param : ptr) : mut Bounds Interval :=
  i ← accept index; become (load_interval t name image param i).

(** The expression of a lane, a free variable [var_name] standing for its number. *)
Definition ramp_lane (base stride : Expr) (var_name : string) : res Expr :=
  var ← Variable_make (type base) var_name None None None;
  p ← operator_mul (eref var) (eref stride);
  operator_add (eref base) (eref p).
Definition ramp_range (t : Ty) (lanes : Z) : res Interval :=
  lo ← make_const t (Int64 0); hi ← make_const t (Int64 (lanes - 1)); Interval_make (eref lo) (eref hi).

Definition visit_Ramp (base stride : Expr) (lanes : Z) : mut Bounds Interval :=
  var_name ← fresh "t";
  lane ← lift (ramp_lane base stride var_name);
  range ← lift (ramp_range (type base) lanes);
  _ ← push var_name range;
  i ← accept lane;
  _ ← pop var_name;
  mret i.

Definition visit_Let (name : string) (value body : Expr) : mut Bounds Interval :=
  val ← accept value;
  '(var, val) ← lift (let_variable name value val);
  _ ← push name var;
  i ← accept body;
  _ ← pop name;
  become (let_interval name val i).

(** The arguments as points, while they are. *)
Fixpoint const_args (args : list Expr) : mut Bounds (option (list ExprRef)) :=
  match args with
  | [] => mret (Some [])
  | arg :: args =>
      i ← accept arg;
      if is_single_point i then rest ← const_args args; mret (cons (i_min i) <$> rest)
      else mret None
  end.

(** The monotonic functions whose calls are moved to the ends. *)
Definition monotonic_functions : list string :=
  ["ceil_f32"; "ceil_f64"; "floor_f32"; "floor_f64"; "round_f32"; "round_f64";
   "exp_f32"; "exp_f64"; "log_f32"; "log_f64"].

Definition nth_arg (args : list Expr) (i : nat) (msg : string) (check : bool) : res Expr :=
  guard! check else msg;
  match args !! i with Some a => Ok a | None => Err (UB "argument out of range") end.

Definition visit_Call (op : Expr) (t0 : Ty) (name : string) (args : list Expr) (call_type : CallType)
    (func : ptr) (value_index : Z) (image param : ptr) : mut Bounds Interval :=
  new_args ← const_args args;
  i ← current;
  let t := element_of t0 in
  let size := Z.of_nat (List.length args) in
  let is_intrinsic := call_is_intrinsic name call_type in
  let make (args : list ExprRef) := Call_make t name args call_type func value_index image param in
  let pure := bool_decide (call_type = PureExtern) || bool_decide (call_type = Image) in
  if is_handle t then become (Ok everything)
  else
    match (if pure then new_args else None) with
    | Some new_args => become (call ← make new_args; single_point (eref call))
    | None =>
      if is_intrinsic "abs" then
        arg ← lift (nth_arg args 0 "" true);
        become (abs_interval t (type arg) i)
      else if is_intrinsic "likely" || is_intrinsic "likely_if_innermost" then
        arg ← lift (nth_arg args 0 "" (size =? 1)); accept arg
      else if is_intrinsic "return_second" then
        arg ← lift (nth_arg args 1 "" (size =? 2)); accept arg
      else if is_intrinsic "if_then_else" then
        c ← lift (nth_arg args 0 "" (size =? 3));
        x ← lift (nth_arg args 1 "" true);
        y ← lift (nth_arg args 2 "" true);
        equivalent_select ← lift (Select_make (eref c) (eref x) (eref y));
        accept equivalent_select
      else if is_intrinsic "shift_left" || is_intrinsic "shift_right" || is_intrinsic "bitwise_and" then
        let simplified := simplify op in
        if negb (equal (eref simplified) (eref op)) then accept simplified
        else become (bounds_of_type t)
      else if (size =? 1) && is_bounded i && bool_decide (name ∈ monotonic_functions) then
        become (lo ← make [i_min i]; hi ← make [i_max i]; Interval_make (eref lo) (eref hi))
      else if is_intrinsic "extract_buffer_min" || is_intrinsic "extract_buffer_max" then
        become
          (lo ← Call_make (Int 32 1) "extract_buffer_min" (eref <$> args) PureIntrinsic None 0 None None;
           hi ← Call_make (Int 32 1) "extract_buffer_max" (eref <$> args) PureIntrinsic None 0 None None;
           Interval_make (eref lo) (eref hi))
      else if is_intrinsic "memoize_expr" then
        arg ← lift (nth_arg args 0 "" (1 <=? size)); accept arg
      else if is_intrinsic "trace_expr" then
        arg ← lift (nth_arg args 4 "" (5 <=? size)); accept arg
      else if bool_decide (call_type = Halide) then become (bounds_of_func name value_index t0)
      else become (bounds_of_type t)
    end.

Definition visit_with (e : Expr) : mut Bounds Interval :=
  match e with
  | IntImm _ _ | UIntImm _ _ | FloatImm _ _ => become (single_point (eref e))
  | StringImm _ => current
  | Cast t value => visit_Cast e t value
  | Var t name _ _ _ => visit_Variable e t name
  | Bin Add a b => visit_binary (add_interval e a b) a b
  | Bin Sub a b => visit_binary (sub_interval e a b) a b
  | Bin Mul a b => visit_binary (mul_interval e a b) a b
  | Bin Div a b => visit_binary (div_interval e a b) a b
  | Bin Mod a b => visit_Mod e a b
  | Bin Min a b => visit_binary (min_interval e a b) a b
  | Bin Max a b => visit_binary (max_interval e a b) a b
  | Bin (EQ | NE | LT | LE | GT | GE | And | Or) _ _ | Not _ => become (bounds_of_type (type e))
  | Select c t f => visit_Select c t f
  | Load t name index image param => visit_Load t name index image param
  | Ramp base stride lanes => visit_Ramp base stride lanes
  | Broadcast value _ => accept value
  | Call t name args ct func vi image param => visit_Call e t name args ct func vi image param
  | Let name value body => visit_Let name value body
  end.

Definition visit_statement (s : Stmt) : mut Bounds Interval := fun _ => Err (InternalError "Bounds of statement").
End Visit.

(** The visitor that does [out] once the recursion is deeper than the fuel, and the one
    for which that is an error. *)
Fixpoint visit_from (out : Expr -> mut Bounds Interval) (func_bounds : FuncValueBounds) (fuel : nat) (e : Expr) :
    mut Bounds Interval :=
  match fuel with
  | O => out e
  | S fuel => visit_with func_bounds (visit_from out func_bounds fuel) e
  end.

Definition visit : FuncValueBounds -> nat -> Expr -> mut Bounds Interval :=
  visit_from (fun _ _ => Err (InternalError "out of fuel")).

(** The infinities have no scalar type to check. *)
Definition check_scalar (finite : bool) (e : ExprRef) : res unit :=
  if finite then e ← deref e; internal_assert (is_scalar (type e)) "should have been a scalar" else Ok tt.

Definition bounds_of_expr_in_scope (fuel : nat) (expr : Expr) (s : Scope Interval) (fb : FuncValueBounds)
    (cs : name_counters) : res (Interval * name_counters) :=
  '(i, b) ← visit fb fuel expr (mkBounds everything (set_containing_scope scope_new (Some s)) cs);
  _ ← check_scalar (has_lower_bound i) (i_min i);
  _ ← check_scalar (has_upper_bound i) (i_max i);
  Ok (i, counters b).
End Bounds.
