(* ===== verification/BoundsOps.v ===== *)
(** The expressions bounds inference builds, and the ends of its intervals: each lemma
    says that an operation succeeds on integer scalars, the type of what it builds, and
    its value in every environment of a set. *)

From Stdlib Require Import ZArith Lia Bool SpecFloat String Ascii.
From stdpp Require Import prelude strings gmap.
From S2P Require Import Prelude Types IR Semantics Scope Operators Mutator Substitute Equality EqualityMeaning Interval ConstBounds Monotonic Lanes Conditions Simplify SimplifyRules Bounds.

#[local] Open Scope Z_scope.
#[local] Open Scope halide_scope.

(** What bounds inference needs of [simplify]: it keeps the type and the value of an
    integer expression, and brings in no new variable. *)
Class Simplifier (simplify : Expr -> Expr) : Prop := {
  simplify_hasty Γ t e : std_int t -> hasty Γ t e -> hasty Γ t (simplify e);
  simplify_value Γ ρ t e v : std_int t -> hasty Γ t e -> env_ok Ideal Γ ρ ->
    eval Ideal ρ e = Some v -> eval Ideal ρ (simplify e) = Some v;
  simplify_free x e : free_in x (simplify e) = true -> free_in x e = true
}.

(** The type of the ends. *)
Record scalar_int (t : Ty) : Prop := { scalar_std : std_int t; scalar_lanes : lanes t = 1 }.

#[global] Hint Resolve scalar_std : core.

Lemma scalar_element t : std_int t -> scalar_int (element_of t).
Proof.
  intros Ht. split; [by apply std_int_element|]. by apply (element_of_fields t (std_int_bits t Ht)).
Qed.

Lemma scalar_bool : scalar_int (Bool 1).
Proof. split; [by split|done]. Qed.

Lemma scalar_i32 : scalar_int (Int 32 1).
Proof. split; [by split|done]. Qed.

#[global] Hint Resolve scalar_element scalar_bool scalar_i32 : core.

Lemma scalar_nlanes t : scalar_int t -> nlanes t = 1%nat.
Proof. intros [_ H]. unfold nlanes. by rewrite H. Qed.

Lemma scalar_is_vector t : scalar_int t -> is_vector t = false.
Proof. intros [_ H]. unfold is_vector. by rewrite H. Qed.

Lemma scalar_element_id t : scalar_int t -> element_of t = t.
Proof. intros H. apply element_of_scalar; [by apply H|by apply scalar_is_vector]. Qed.

(** The element type only depends on the class and the width. *)
Lemma element_of_eqb u t : std_int t -> type_eqb u t = true -> element_of u = element_of t.
Proof. intros Ht H. rewrite (type_eqb_std t Ht) in H. destruct H as (Hc & Hb & _). unfold element_of. by rewrite Hc, Hb. Qed.

Section Values.
Context (Γ : gmap string Ty).

(** An environment that the variables' types fit. *)
Record world (ρ : env) : Prop := { world_ok : env_ok Ideal Γ ρ; world_blind : handle_blind ρ }.

(** The scalar [e] has the value [z]. *)
Definition val (ρ : env) (e : Expr) (z : Z) : Prop := eval Ideal ρ e = Some [VInt z].

Lemma val_same ρ e x y : val ρ e x -> val ρ e y -> x = y.
Proof. unfold val. congruence. Qed.

Section Scalar.
Context (t : Ty) (Ht : scalar_int t).
Context (ρ : env).

Lemma val_den e z : val ρ e z <-> den ρ t e (fun _ => z).
Proof. unfold val, den. by rewrite scalar_nlanes. Qed.

Lemma den_val e f : den ρ t e f -> val ρ e (f 0%nat).
Proof. unfold val, den. by rewrite scalar_nlanes. Qed.

Lemma val_in_type e z : world ρ -> hasty Γ t e -> val ρ e z -> in_type t z.
Proof.
  intros W He Hz. destruct (den_intro Γ ρ (world_ok _ W) t (scalar_std _ Ht) e _ He Hz) as (f & _ & Hv & Hf).
  rewrite scalar_nlanes in * by done. injection Hv as Hv. rewrite Hv. apply Hf. lia.
Qed.

Lemma val_const z : val ρ (const_node t z) z.
Proof. apply val_den, den_const; auto. Qed.

Lemma val_bin op a b x y : arith op = true -> hasty Γ t a -> val ρ a x -> val ρ b y -> defd op y ->
  val ρ (Bin op a b) (iop t op x y).
Proof.
  intros Hop Ha Hx Hy Hd. apply val_den. rewrite val_den in Hx, Hy.
  apply (den_bin Γ ρ t (scalar_std _ Ht) op a b (fun _ => x) (fun _ => y)); auto.
Qed.

Lemma val_cmp op a b x y : is_comparison op = true -> val ρ a x -> val ρ b y ->
  val ρ (Bin op a b) (Z.b2z (icmp op x y)).
Proof.
  intros Hop Hx Hy. unfold val. cbn [eval]. rewrite Hx, Hy. cbn [mbind option_bind zip_with_M].
  by rewrite eval_icmp.
Qed.

Lemma val_select c a b (p : bool) x y : val ρ c (Z.b2z p) -> val ρ a x -> val ρ b y ->
  val ρ (Select c a b) (if p then x else y).
Proof. intros Hc Hx Hy. unfold val. cbn [eval]. rewrite Hc, Hx, Hy. by destruct p. Qed.
End Scalar.

Lemma val_and ρ a b (p q : bool) : val ρ a (Z.b2z p) -> val ρ b (Z.b2z q) -> val ρ (Bin And a b) (Z.b2z (p && q)).
Proof. intros Hp Hq. unfold val. cbn [eval]. rewrite Hp, Hq. by destruct p, q. Qed.

(** ** Building *)
Section Building.
Context (t : Ty) (Ht : scalar_int t).

(** The factories of the arithmetic and comparison nodes, plain or behind an operator. *)
Definition factory (op : binop) (mk : ExprRef -> ExprRef -> res Expr) : Prop :=
  exists nm, mk = binary_make op nm \/ exists nm', mk = operator_ee (binary_make op nm) nm'.

Lemma factory_total op mk a b : factory op mk -> is_logical op = false -> hasty Γ t a -> hasty Γ t b ->
  mk (eref a) (eref b) = Ok (Bin op a b).
Proof.
  intros (nm & [-> | (nm' & ->)]) Hop Ha Hb.
  - by apply (binary_make_same Γ t (scalar_std _ Ht)).
  - rewrite (operator_same Γ t (scalar_std _ Ht)) by done. by apply (binary_make_same Γ t (scalar_std _ Ht)).
Qed.

Lemma arith_total op mk a b : factory op mk -> arith op = true -> hasty Γ t a -> hasty Γ t b ->
  mk (eref a) (eref b) = Ok (Bin op a b) /\ hasty Γ t (Bin op a b).
Proof.
  intros Hm Hop Ha Hb. split; [apply factory_total; auto; by destruct op|].
  by apply (hasty_bin Γ t (scalar_std _ Ht)).
Qed.

Lemma cmp_total op mk a b : factory op mk -> is_comparison op = true -> hasty Γ t a -> hasty Γ t b ->
  mk (eref a) (eref b) = Ok (Bin op a b) /\ hasty Γ (Bool 1) (Bin op a b).
Proof.
  intros Hm Hop Ha Hb. split; [apply factory_total; auto; by destruct op|].
  pose proof (hasty_cmp Γ t (scalar_std _ Ht) op a b Hop Ha Hb) as H. by rewrite (scalar_lanes _ Ht) in H.
Qed.

Lemma const_total u z : type_eqb u t = true -> exists e, make_const u (Int64 z) = Ok e /\ hasty Γ t e /\
  forall ρ, val ρ e (wrap_type t z).
Proof.
  intros Hu. assert (exists e, make_const u (Int64 z) = Ok e) as [e He].
  { destruct (eqb_class t (scalar_std _ Ht) u Hu) as (Hi & Hui & _ & Hv & Hb & Hl & _).
    unfold make_const, make_const_scalar. rewrite Hv, scalar_is_vector, Hi, Hui by done. cbn [to_int64 to_uint64 mbind res_bind].
    assert (is_scalar u = true) by (unfold is_scalar; rewrite Hl; by rewrite scalar_lanes).
    destruct (std_int_width t (scalar_std _ Ht)) as [[H1 H2]|[H1 H2]]; rewrite H1.
    - rewrite IntImm_make_spec; [eauto|congruence..].
    - rewrite (uint_not_int t H1), UIntImm_make_spec; [eauto|congruence..]. }
  exists e. split; [done|].
  destruct (make_const_Ok Γ empty_env t (scalar_std _ Ht) u z e Hu He) as [H1 _]. split; [done|].
  intros ρ. apply (val_den t Ht ρ). by apply (make_const_Ok Γ ρ t (scalar_std _ Ht) u z e).
Qed.

Lemma zero_total u : type_eqb u t = true -> exists e, make_zero u = Ok e /\ hasty Γ t e /\ forall ρ, val ρ e 0.
Proof.
  intros Hu. destruct (const_total u 0 Hu) as (e & He & H1 & H2). exists e.
  destruct (eqb_class t (scalar_std _ Ht) u Hu) as (_ & _ & _ & _ & _ & _ & Hh & _).
  unfold make_zero. rewrite Hh. rewrite wrap_type_zero in H2. done.
Qed.

Lemma select_total c a b : hasty Γ (Bool 1) c -> hasty Γ t a -> hasty Γ t b ->
  select (eref c) (eref a) (eref b) = Ok (Select c a b) /\ hasty Γ t (Select c a b).
Proof.
  intros Hc Ha Hb. pose proof (proj1 (bool_type (Bool 1) (scalar_std _ scalar_bool) _) (hasty_type _ _ _ Hc)) as [Hbc Hl].
  pose proof (hasty_good _ _ _ Hc) as Gc.
  rewrite (select_same Γ t (scalar_std _ Ht)); [|apply condition_const; [apply Gc|done]|done..].
  apply (select_hasty Γ t (scalar_std _ Ht)); auto. unfold is_scalar. by rewrite Hl.
Qed.
End Building.

Lemma and_total a b : hasty Γ (Bool 1) a -> hasty Γ (Bool 1) b ->
  operator_and (eref a) (eref b) = Ok (Bin And a b) /\ hasty Γ (Bool 1) (Bin And a b).
Proof.
  intros Ha Hb. pose proof (proj1 (bool_type (Bool 1) (scalar_std _ scalar_bool) _) (hasty_type _ _ _ Ha)) as [Ba _].
  pose proof (proj1 (bool_type (Bool 1) (scalar_std _ scalar_bool) _) (hasty_type _ _ _ Hb)) as [Bb _].
  split.
  - pose proof (type_eqb_trans_std (Bool 1) (scalar_std _ scalar_bool) _ _ (hasty_type _ _ _ Ha) (hasty_type _ _ _ Hb)) as Heq.
    pose proof (type_eqb_classes _ _ (hasty_type _ _ _ Ha)) as (_ & _ & _ & Hha & _).
    pose proof (type_eqb_classes _ _ (hasty_type _ _ _ Hb)) as (_ & _ & _ & Hhb & _).
    unfold operator_and, match_types. cbn [deref eref mbind res_bind]. rewrite Hha, Hhb, Heq.
    change (is_handle (Bool 1)) with false. cbn [andb negb user_assert mbind res_bind].
    unfold And_make, logical_make. cbn [defined eref mbind res_bind]. by rewrite Ba, Bb, Heq.
  - by apply (hasty_logic Γ (Bool 1) (scalar_std _ scalar_bool) And).
Qed.
End Values.

(** ** Casts *)

(** The value of a cast: a type that holds all values of the operand's keeps it. *)
Definition cast_value (to from : Ty) (x : Z) : Z := if can_represent to from then x else wrap_type to x.

Lemma can_represent_fields t s : is_int t || is_uint t = true -> code s = code t -> bits s = bits t -> lanes s = lanes t ->
  can_represent t s = true.
Proof.
  intros Hc Hco Hb Hl. unfold can_represent, is_int, is_uint in *. rewrite Hco, Hb, Hl, Z.eqb_refl. cbn [negb].
  destruct (code t); simpl in *; try done; by rewrite Z.leb_refl.
Qed.

Lemma can_represent_fields_r t s u : code s = code u -> bits s = bits u -> lanes s = lanes u ->
  can_represent t s = can_represent t u.
Proof. intros Hc Hb Hl. unfold can_represent, is_int, is_uint, is_float. by rewrite Hc, Hb, Hl. Qed.

Section Casting.
Context (Γ : gmap string Ty) (t s : Ty) (Ht : scalar_int t) (Hs : scalar_int s).

Lemma scalar_imm a i : hasty Γ s a -> as_const_int_expr a = Some i \/ as_const_uint_expr a = Some i ->
  representable s i = true.
Proof.
  intros Ha Hc. pose proof (hasty_fields Γ s (scalar_std _ Hs) a Ha) as (Hco & Hb & Hl). destruct Ha as [[Hwf Hty _] _].
  assert (Hr : forall u, code u = code s -> bits u = bits s -> representable u i = true -> representable s i = true).
  { intros u H1 H2. unfold representable, is_int, is_uint. by rewrite H1, H2. }
  rewrite (scalar_lanes s Hs) in Hl.
  destruct a; cbn [as_const_int_expr as_const_uint_expr] in Hc; destruct Hc as [Hc|Hc]; try done.
  - injection Hc as ->. destruct Hwf as [[Hw Hi] _]. rewrite !andb_true_iff in Hw. destruct Hw as [[Hw _] _].
    apply (Hr t0); [done..|]. unfold representable. rewrite Hw. by apply bool_decide_eq_true.
  - injection Hc as ->. destruct Hwf as [[Hw Hi] _]. rewrite !andb_true_iff in Hw. destruct Hw as [[Hw _] _].
    apply (Hr t0); [done..|]. unfold representable. rewrite (uint_not_int _ Hw), Hw. by apply bool_decide_eq_true.
  - destruct Hwf as [[_ Hl1] _], Hty as [_ Hlt]. simpl in Hl. by rewrite small_lanes in Hl.
  - destruct Hwf as [[_ Hl1] _], Hty as [_ Hlt]. simpl in Hl. by rewrite small_lanes in Hl.
Qed.

Lemma cast_value_const a i : hasty Γ s a -> as_const_int_expr a = Some i \/ as_const_uint_expr a = Some i ->
  cast_value t s i = wrap_type t i.
Proof.
  intros Ha Hc. unfold cast_value. destruct (can_represent t s) eqn:Hcr; [|done]. symmetry. apply representable_wrap.
  pose proof (std_int_class t (scalar_std _ Ht)) as (_ & Hf & _).
  apply (can_represent_range t s); auto.
  - apply std_int_bits, Hs.
  - apply (std_int_class s (scalar_std _ Hs)).
  - by apply (scalar_imm a).
Qed.

Lemma imm_value ρ a x i : val ρ a x ->
  as_const_int_expr a = Some i \/ as_const_uint_expr a = Some i -> x = i.
Proof.
  intros Hx Hc. pose proof Hx as He. unfold val in He.
  assert (exists n, [VInt x] = replicate n (VInt i)) as [n Hn].
  { destruct Hc as [Hc|Hc]; [destruct (as_const_int_eval _ _ _ _ _ Hc He) as [n Hn]|
      destruct (as_const_uint_eval _ _ _ _ _ Hc He) as [n Hn]]; eauto. }
  destruct n; [done|]. by injection Hn.
Qed.

Lemma cast_node_total a : hasty Γ s a ->
  Cast_make t (eref a) = Ok (Cast t a) /\ hasty Γ t (Cast t a) /\
  forall ρ x, val ρ a x -> val ρ (Cast t a) (cast_value t s x).
Proof.
  intros Ha. pose proof (hasty_fields Γ s (scalar_std _ Hs) a Ha) as (Hco & Hb & Hl).
  rewrite (scalar_lanes _ Hs) in Hl. pose proof (scalar_lanes _ Ht) as Hlt.
  destruct (std_int_class t (scalar_std _ Ht)) as (Hc & Hf & _).
  split; [unfold Cast_make; cbn [defined eref mbind res_bind]; by rewrite Hl, Hlt|]. split.
  - destruct Ha as [[Hwf Hty Hu] _]. split; [|apply type_eqb_refl]. split.
    + split; [cbn [wf_node]; congruence|done].
    + split; [apply std_int_ty_ok, Ht|done].
    + simpl. rewrite Hf, Hu. destruct (std_int_width t (scalar_std _ Ht)) as [[H1 H2]|[H1 _]].
      * apply int_width_ge in H2. rewrite (proj2 (Z.eqb_neq (bits t) 1)) by lia. by rewrite andb_false_r.
      * by rewrite (uint_not_int t H1).
  - intros ρ x Hx. unfold val. cbn [eval]. rewrite Hx. cbn [mbind option_bind mapM cast_scalar cast_int].
    rewrite Hc. unfold cast_value. pose proof (scalar_lanes _ Hs). by rewrite (can_represent_fields_r t (type a) s) by congruence.
Qed.

Lemma cast_total a : hasty Γ s a -> exists e, cast t (eref a) = Ok e /\ hasty Γ t e /\
  forall ρ x, val ρ a x -> val ρ e (cast_value t s x).
Proof.
  intros Ha. pose proof (hasty_fields Γ s (scalar_std _ Hs) a Ha) as (Hco & Hb & Hl).
  destruct (std_int_class t (scalar_std _ Ht)) as (Hc & _ & Hht), (std_int_class s (scalar_std _ Hs)) as (_ & Hfs & Hhs).
  cbn [cast eref]. unfold cast_expr, cast_body.
  destruct (type_eqb (type a) t) eqn:Heq.
  { exists a. split; [done|]. split; [split; [apply Ha|done]|]. intros ρ x Hx.
    apply type_eqb_fields in Heq as (H1 & H2 & H3). unfold cast_value. rewrite can_represent_fields by (done || congruence). done. }
  pose proof (type_eqb_classes _ _ (hasty_type _ _ _ Ha)) as (_ & _ & Hfa & Hha & _).
  rewrite Hht, Hha, Hhs. cbn [andb negb]. unfold as_const_int, as_const_uint, as_const_float, eref. cbn [mbind option_bind].
  destruct (as_const_int_expr a) as [i|] eqn:Ei.
  { destruct (const_total Γ t Ht t i (type_eqb_refl t)) as (e & He & Hty & Hv). exists e. split; [done|]. split; [done|].
    intros ρ x Hx. rewrite (imm_value ρ a x i Hx) by auto. rewrite (cast_value_const a i Ha) by auto. apply Hv. }
  destruct (as_const_uint_expr a) as [i|] eqn:Eu.
  { exists (const_node t (wrap_type t i)). split; [by apply make_const_int; auto|]. split.
    - apply hasty_const; [apply Ht|]. apply wrap_representable; [apply std_int_bits, Ht|done].
    - intros ρ x Hx. rewrite (imm_value ρ a x i Hx) by auto. rewrite (cast_value_const a i Ha) by auto.
      by apply val_const. }
  destruct (as_const_float_expr a) as [f|] eqn:Ef.
  { apply as_const_float_type in Ef; [congruence|apply Ha]. }
  rewrite scalar_is_vector by done. destruct (cast_node_total a Ha) as (H1 & H2 & H3).
  exists (Cast t a). split; [done|]. split; [done|]. intros ρ x. apply H3.
Qed.
End Casting.

(** ** What [can_prove] answers *)
Section Proving.
Context (same_as equal : ExprRef -> ExprRef -> bool) (simplify : Expr -> Expr) `{!Simplifier simplify}.
Context (Γ : gmap string Ty).

Lemma can_prove_total e : hasty Γ (Bool 1) e -> exists b, can_prove simplify e = Ok b /\
  (b = true -> forall ρ p, world Γ ρ -> val ρ e (Z.b2z p) -> p = true).
Proof.
  intros He. exists (is_one (simplify e)).
  pose proof (proj1 (bool_type (Bool 1) (scalar_std _ scalar_bool) _) (hasty_type _ _ _ He)) as [Hb _].
  split; [unfold can_prove; by rewrite Hb|]. intros H1 ρ p W Hp.
  pose proof (simplify_hasty Γ (Bool 1) e (scalar_std _ scalar_bool) He) as [[_ Hty Hu] _].
  pose proof (simplify_value Γ ρ (Bool 1) e _ (scalar_std _ scalar_bool) He (world_ok _ _ W) Hp) as Hv.
  destruct (is_one_eval _ _ _ _ _ H1 Hu Hty Hv) as [n Hn]. destruct n; [done|]. injection Hn as Hn. by destruct p.
Qed.

(** What a proved comparison says of its operands. *)
Lemma proves_total m e : m = Ok e -> hasty Γ (Bool 1) e -> exists b, can_prove_that simplify m = Ok b /\
  (b = true -> forall ρ p, world Γ ρ -> val ρ e (Z.b2z p) -> p = true).
Proof. intros -> He. by apply can_prove_total. Qed.

(** ** The overflow test *)
Section Narrow.
Context (t : Ty) (Ht : scalar_int t) (Hn : bits t < 32).

Lemma narrow_i32 : can_represent (Int 32 1) t = true.
Proof.
  unfold can_represent. rewrite (scalar_lanes _ Ht). cbn [lanes Int Type_make]. change (negb _) with false. cbn iota.
  change (is_int (Int 32 1)) with true. change (bits (Int 32 1)) with 32. cbn iota.
  destruct (std_int_width t (scalar_std _ Ht)) as [[H1 _]|[H1 _]]; rewrite H1; [|rewrite orb_true_iff; right]; simpl.
  - rewrite orb_true_iff. left. apply Z.leb_le. lia.
  - apply Z.ltb_lt. lia.
Qed.

Definition exact (op : binop) (x y : Z) : Z :=
  match op with Add => x + y | Sub => x - y | _ => x * y end.

Lemma no_overflow_total op mk a b r : op = Add \/ op = Sub \/ op = Mul -> factory op mk ->
  hasty Γ t a -> hasty Γ t b -> hasty Γ t r ->
  exists e, no_overflow_test mk (eref a) (eref b) (eref r) = Ok e /\ hasty Γ (Bool 1) e /\
    forall ρ x y z, val ρ a x -> val ρ b y -> val ρ r z ->
      val ρ e (Z.b2z (exact op x y =? z)).
Proof.
  intros Hop Hm Ha Hb Hr.
  destruct (cast_total Γ (Int 32 1) t scalar_i32 Ht a Ha) as (ca & Ea & Tca & Va).
  destruct (cast_total Γ (Int 32 1) t scalar_i32 Ht b Hb) as (cb & Eb & Tcb & Vb).
  destruct (cast_total Γ (Int 32 1) t scalar_i32 Ht r Hr) as (cr & Er & Tcr & Vr).
  assert (Hor : arith op = true) by (by destruct Hop as [-> | [-> | ->]]).
  destruct (arith_total Γ (Int 32 1) scalar_i32 op mk ca cb Hm Hor Tca Tcb) as [Es Ts].
  assert (factory EQ operator_eq) as Hf by (eexists; right; eexists; reflexivity).
  destruct (cmp_total Γ (Int 32 1) scalar_i32 EQ operator_eq _ cr Hf eq_refl Ts Tcr) as [Ee Te].
  exists (Bin EQ (Bin op ca cb) cr). unfold no_overflow_test. rewrite Ea, Eb. cbn [mbind res_bind]. rewrite Es, Er.
  split; [exact Ee|]. split; [done|]. intros ρ x y z Hx Hy Hz.
  apply Va in Hx. apply Vb in Hy. apply Vr in Hz.
  unfold cast_value in Hx, Hy, Hz. rewrite narrow_i32 in Hx, Hy, Hz.
  pose proof (val_bin Γ (Int 32 1) scalar_i32 ρ op ca cb x y Hor Tca Hx Hy) as Hv.
  pose proof (val_cmp ρ EQ (Bin op ca cb) cr _ z eq_refl (Hv ltac:(by destruct Hop as [-> | [-> | ->]])) Hz) as H.
  by destruct Hop as [-> | [-> | ->]].
Qed.
End Narrow.
End Proving.

(** * Ends and intervals *)

Section Ends.
Context (Γ : gmap string Ty).

Definition finite (t : Ty) (b : ExprRef) : Prop := exists e, b = eref e /\ hasty Γ t e.

(** The ends of an interval are expressions of the type [t] or the infinity of their side. *)
Definition lower_ok (t : Ty) (b : ExprRef) : Prop := b = neg_inf \/ finite t b.
Definition upper_ok (t : Ty) (b : ExprRef) : Prop := b = pos_inf \/ finite t b.
Definition ends_ok (t : Ty) (i : Interval) : Prop := lower_ok t (i_min i) /\ upper_ok t (i_max i).

(** [z] is on the right side of an end, as far as its value tells. *)
Definition above ρ (b : ExprRef) (z : Z) : Prop :=
  b = neg_inf \/ exists e l, b = eref e /\ val ρ e l /\ l <= z.
Definition below ρ (b : ExprRef) (z : Z) : Prop :=
  b = pos_inf \/ exists e u, b = eref e /\ val ρ e u /\ z <= u.
Definition inside ρ (i : Interval) (z : Z) : Prop := above ρ (i_min i) z /\ below ρ (i_max i) z.

Lemma everything_ok t : ends_ok t everything.
Proof. split; by left. Qed.
Lemma inside_everything ρ z : inside ρ everything z.
Proof. split; by left. Qed.

Lemma above_le ρ b x y : above ρ b x -> x <= y -> above ρ b y.
Proof. intros [->|(e & l & -> & H & Hl)] Hxy; [by left|right; exists e, l; repeat split; (done || lia)]. Qed.
Lemma below_le ρ b x y : below ρ b y -> x <= y -> below ρ b x.
Proof. intros [->|(e & u & -> & H & Hl)] Hxy; [by left|right; exists e, u; repeat split; (done || lia)]. Qed.
Lemma above_val ρ e l z : val ρ e l -> l <= z -> above ρ (eref e) z.
Proof. intros H Hl. right. by exists e, l. Qed.
Lemma below_val ρ e u z : val ρ e u -> z <= u -> below ρ (eref e) z.
Proof. intros H Hl. right. by exists e, u. Qed.

Section Typed.
Context (t : Ty) (Ht : scalar_int t).

Lemma hasty_not_inf e : hasty Γ t e -> eref e <> neg_inf /\ eref e <> pos_inf.
Proof.
  intros [_ H]. apply type_eqb_classes in H as (_ & _ & _ & Hh & _).
  pose proof (std_int_class t (scalar_std _ Ht)) as (_ & _ & Hht). rewrite Hht in Hh.
  split; intros Heq; injection Heq as ->; simpl in Hh; discriminate Hh.
Qed.

Lemma above_finite ρ e z : hasty Γ t e -> above ρ (eref e) z -> exists l, val ρ e l /\ l <= z.
Proof.
  intros He [H|(e' & l & [= <-] & Hl)]; [by destruct (hasty_not_inf e He)|]. by exists l.
Qed.
Lemma below_finite ρ e z : hasty Γ t e -> below ρ (eref e) z -> exists u, val ρ e u /\ z <= u.
Proof.
  intros He [H|(e' & l & [= <-] & Hl)]; [by destruct (hasty_not_inf e He)|]. by exists l.
Qed.

(** A point contains one value. *)
Lemma inside_point ρ e z : hasty Γ t e -> inside ρ (mkInterval (eref e) (eref e)) z -> val ρ e z.
Proof.
  intros He [Hl Hu]. apply above_finite in Hl as (l & Hl & Hlz); [|done]. apply below_finite in Hu as (u & Hu & Huz); [|done].
  pose proof (val_same ρ e l u Hl Hu). by replace z with l by lia.
Qed.

Lemma point_ok e : hasty Γ t e -> single_point (eref e) = Ok (mkInterval (eref e) (eref e)) /\
  ends_ok t (mkInterval (eref e) (eref e)).
Proof. intros He. split; [done|]. split; right; by exists e. Qed.
Lemma point_inside ρ e z : val ρ e z -> inside ρ (mkInterval (eref e) (eref e)) z.
Proof. intros H. split; [by eapply above_val|by eapply below_val]. Qed.

(** ** The tests of an interval *)
Section Tests.
Context (same_as : ExprRef -> ExprRef -> bool).
Hypothesis same_as_sound : forall a b, same_as a b = true -> a = b.
Hypothesis same_as_refl : forall a, same_as a a = true.

Lemma same_as_ne a b : a <> b -> same_as a b = false.
Proof. intros H. apply not_true_iff_false. intros He. by apply H, same_as_sound. Qed.

Lemma ends_not_empty i : ends_ok t i -> is_empty same_as i = false.
Proof.
  intros [Hl Hu]. unfold is_empty.
  rewrite (same_as_ne (i_min i) pos_inf), (same_as_ne (i_max i) neg_inf); [done|..].
  - destruct Hu as [->|(e & -> & He)]; [done|]. by apply hasty_not_inf.
  - destruct Hl as [->|(e & -> & He)]; [done|]. by apply hasty_not_inf.
Qed.

Lemma lower_view i : ends_ok t i ->
  (has_lower_bound same_as i = false /\ i_min i = neg_inf) \/
  (exists e, has_lower_bound same_as i = true /\ i_min i = eref e /\ hasty Γ t e).
Proof.
  intros H. pose proof (ends_not_empty i H) as He. unfold has_lower_bound. rewrite He. destruct H as [[->|(e & -> & Hty)] _].
  - left. by rewrite same_as_refl.
  - right. exists e. rewrite same_as_ne by (by apply hasty_not_inf). done.
Qed.

Lemma upper_view i : ends_ok t i ->
  (has_upper_bound same_as i = false /\ i_max i = pos_inf) \/
  (exists e, has_upper_bound same_as i = true /\ i_max i = eref e /\ hasty Γ t e).
Proof.
  intros H. pose proof (ends_not_empty i H) as He. unfold has_upper_bound. rewrite He. destruct H as [_ [->|(e & -> & Hty)]].
  - left. by rewrite same_as_refl.
  - right. exists e. rewrite same_as_ne by (by apply hasty_not_inf). done.
Qed.

Lemma bounded_view i : ends_ok t i -> is_bounded same_as i = true ->
  exists lo hi, i = mkInterval (eref lo) (eref hi) /\ hasty Γ t lo /\ hasty Γ t hi.
Proof.
  intros H Hb. unfold is_bounded in Hb. apply andb_true_iff in Hb as [Hu Hl].
  destruct (lower_view i H) as [[? _]|(lo & _ & E1 & Hlo)]; [congruence|].
  destruct (upper_view i H) as [[? _]|(hi & _ & E2 & Hhi)]; [congruence|].
  exists lo, hi. destruct i. simpl in *. subst. done.
Qed.

Lemma single_view i : ends_ok t i -> is_single_point same_as i = true ->
  exists e, i = mkInterval (eref e) (eref e) /\ hasty Γ t e.
Proof.
  intros [Hl Hu] Hs. unfold is_single_point in Hs. apply same_as_sound in Hs. destruct i as [lo hi]. simpl in *. subst hi.
  destruct Hl as [->|(e & -> & He)]; [|by exists e].
  destruct Hu as [H|(e & H & He)]; [done|]. symmetry in H. by apply hasty_not_inf in He as [? _].
Qed.

Lemma single_of_view i a : ends_ok t i -> is_single_point_of same_as i (eref a) = true ->
  i = mkInterval (eref a) (eref a) /\ hasty Γ t a.
Proof.
  intros [Hl Hu] Hs. unfold is_single_point_of in Hs. apply andb_true_iff in Hs as [H1 H2].
  apply same_as_sound in H1, H2. destruct i as [lo hi]. simpl in *. subst. split; [done|].
  destruct Hl as [H|(e & [= ->] & He)]; [|done]. destruct Hu as [H'|(e & [= ->] & He)]; [by rewrite H in H'|done].
Qed.

(** ** [make_min] and [make_max] *)
Section Extrema.
Context (equal : ExprRef -> ExprRef -> bool).
Hypothesis equal_test : forall ρ, handle_blind ρ -> EqualityTest Γ ρ equal.

Lemma hasty_bound e : hasty Γ t e <-> bound Γ t e /\ usual_types e = true.
Proof.
  split.
  - intros [[] H]. split; [|done]. split; [done|]. split; [done|]. split; [by apply usual_plain|done].
  - intros [(? & ? & _ & ?) Hu]. by repeat split.
Qed.

Lemma empty_env_types : env_ok Ideal Γ empty_env.
Proof. constructor; simpl; intros; simplify_map_eq. Qed.

Lemma extremum_total op a b : minmax op -> hasty Γ t a -> hasty Γ t b ->
  exists e, extremum same_as equal op (combine_fuel op (eref a) (eref b)) (eref a) (eref b) = Ok (eref e) /\
    hasty Γ t e /\
    forall ρ x y, world Γ ρ -> val ρ a x -> val ρ b y -> val ρ e (lane_op op x y).
Proof.
  intros Hop Ha Hb. apply hasty_bound in Ha as [Ba Ua], Hb as [Bb Ub].
  pose proof (std_int_class t (scalar_std _ Ht)) as (Hc & _).
  assert (Hr : forall ρ, env_ok Ideal Γ ρ -> handle_blind ρ ->
    result Ideal Γ ρ t op a b (extremum same_as equal op (combine_fuel op (eref a) (eref b)) (eref a) (eref b))).
  { intros ρ Hρ Hh. pose proof (equal_test ρ Hh). by apply extremum_bounds. }
  destruct (Hr empty_env empty_env_types) as (e & He & Be & Ke & _); [by split|].
  exists e. split; [done|]. split.
  { apply hasty_bound. split; [done|]. apply Ke; [|done..]. intros op' x y [-> | ->]; done. }
  intros ρ x y W Hx Hy.
  destruct (Hr ρ (world_ok _ _ W) (world_blind _ _ W)) as (e' & He' & _ & _ & Hl & _).
  rewrite He in He'. injection He' as <-.
  destruct (Hl [x] [y]) as [H _].
  - split; [by apply Hx|by rewrite (scalar_lanes _ Ht)].
  - split; [by apply Hy|by rewrite (scalar_lanes _ Ht)].
  - exact H.
Qed.

Lemma same_as_infs : same_as pos_inf neg_inf = false /\ same_as neg_inf pos_inf = false.
Proof. split; by apply same_as_ne. Qed.

Lemma inf_same e : hasty Γ t e -> same_as (eref e) neg_inf = false /\ same_as (eref e) pos_inf = false /\
  same_as neg_inf (eref e) = false /\ same_as pos_inf (eref e) = false.
Proof. intros He. destruct (hasty_not_inf e He). repeat split; by apply same_as_ne. Qed.

(** With an infinity, either gives back one of its operands. *)
Ltac infinite :=
  unfold make_min, make_max, combine_fuel; cbn [make_min_fuel make_max_fuel];
  repeat match goal with H : hasty Γ t ?e |- _ => destruct (inf_same e H) as (? & ? & ? & ?); clear H end;
  destruct same_as_infs as [? ?];
  repeat match goal with H : same_as _ _ = false |- _ => rewrite ?H; clear H end;
  rewrite ?same_as_refl.

Lemma make_min_lower a b : lower_ok t a -> lower_ok t b -> exists r, make_min same_as equal a b = Ok r /\ lower_ok t r /\
  forall ρ x y z, world Γ ρ -> above ρ a x -> above ρ b y -> Z.min x y <= z -> above ρ r z.
Proof.
  intros [->|(a' & -> & Ha)] Hb.
  { exists neg_inf. split; [destruct Hb as [->|(b' & -> & Hb)]; infinite; done|]. split; [by left|]. intros; by left. }
  destruct Hb as [->|(b' & -> & Hb)].
  { exists neg_inf. split; [infinite; done|]. split; [by left|]. intros; by left. }
  destruct (extremum_total Min a' b' (or_intror eq_refl) Ha Hb) as (e & He & Te & Ve).
  exists (eref e). split; [done|]. split; [right; by exists e|]. intros ρ x y z W Hx Hy Hz.
  apply above_finite in Hx as (l & Hl & Hlx); [|done]. apply above_finite in Hy as (k & Hk & Hky); [|done].
  eapply above_val; [by eapply Ve|]. simpl. lia.
Qed.

Lemma make_max_lower a b : lower_ok t a -> lower_ok t b -> exists r, make_max same_as equal a b = Ok r /\ lower_ok t r /\
  forall ρ x y z, world Γ ρ -> above ρ a x -> above ρ b y -> Z.max x y <= z -> above ρ r z.
Proof.
  intros [->|(a' & -> & Ha)] Hb.
  { exists b. split; [destruct Hb as [->|(b' & -> & Hb)]; infinite; done|]. split; [done|].
    intros ρ x y z _ _ Hy Hz. eapply above_le; [done|lia]. }
  destruct Hb as [->|(b' & -> & Hb)].
  { exists (eref a'). split; [infinite; done|]. split; [right; by exists a'|].
    intros ρ x y z _ Hx _ Hz. eapply above_le; [done|lia]. }
  destruct (extremum_total Max a' b' (or_introl eq_refl) Ha Hb) as (e & He & Te & Ve).
  exists (eref e). split; [done|]. split; [right; by exists e|]. intros ρ x y z W Hx Hy Hz.
  apply above_finite in Hx as (l & Hl & Hlx); [|done]. apply above_finite in Hy as (k & Hk & Hky); [|done].
  eapply above_val; [by eapply Ve|]. simpl. lia.
Qed.

Lemma make_min_upper a b : upper_ok t a -> upper_ok t b -> exists r, make_min same_as equal a b = Ok r /\ upper_ok t r /\
  forall ρ x y z, world Γ ρ -> below ρ a x -> below ρ b y -> z <= Z.min x y -> below ρ r z.
Proof.
  intros [->|(a' & -> & Ha)] Hb.
  { exists b. split; [destruct Hb as [->|(b' & -> & Hb)]; infinite; done|]. split; [done|].
    intros ρ x y z _ _ Hy Hz. eapply below_le; [done|lia]. }
  destruct Hb as [->|(b' & -> & Hb)].
  { exists (eref a'). split; [infinite; done|]. split; [right; by exists a'|].
    intros ρ x y z _ Hx _ Hz. eapply below_le; [done|lia]. }
  destruct (extremum_total Min a' b' (or_intror eq_refl) Ha Hb) as (e & He & Te & Ve).
  exists (eref e). split; [done|]. split; [right; by exists e|]. intros ρ x y z W Hx Hy Hz.
  apply below_finite in Hx as (l & Hl & Hlx); [|done]. apply below_finite in Hy as (k & Hk & Hky); [|done].
  eapply below_val; [by eapply Ve|]. simpl. lia.
Qed.

Lemma make_max_upper a b : upper_ok t a -> upper_ok t b -> exists r, make_max same_as equal a b = Ok r /\ upper_ok t r /\
  forall ρ x y z, world Γ ρ -> below ρ a x -> below ρ b y -> z <= Z.max x y -> below ρ r z.
Proof.
  intros [->|(a' & -> & Ha)] Hb.
  { exists pos_inf. split; [destruct Hb as [->|(b' & -> & Hb)]; infinite; done|]. split; [by left|]. intros; by left. }
  destruct Hb as [->|(b' & -> & Hb)].
  { exists pos_inf. split; [infinite; done|]. split; [by left|]. intros; by left. }
  destruct (extremum_total Max a' b' (or_introl eq_refl) Ha Hb) as (e & He & Te & Ve).
  exists (eref e). split; [done|]. split; [right; by exists e|]. intros ρ x y z W Hx Hy Hz.
  apply below_finite in Hx as (l & Hl & Hlx); [|done]. apply below_finite in Hy as (k & Hk & Hky); [|done].
  eapply below_val; [by eapply Ve|]. simpl. lia.
Qed.
End Extrema.
End Tests.

(** ** The range of a type *)
Lemma bounds_of_type_total u : std_int u -> element_of u = t -> exists i, bounds_of_type u = Ok i /\ ends_ok t i /\
  forall ρ z, in_type t z -> inside ρ i z.
Proof.
  intros Hu He. unfold bounds_of_type. rewrite He.
  destruct ((is_uint t || is_int t) && (bits t <=? 16)) eqn:Hb;
    [|exists everything; split; [done|]; split; [apply everything_ok|intros; apply inside_everything]].
  apply andb_true_iff in Hb as [Hc Hb]. apply Z.leb_le in Hb.
  destruct (Type_limit_scalar t (scalar_std _ Ht) (scalar_is_vector _ Ht)) as (lo & hi & H1 & H2 & Hr).
  unfold Type_min, Type_max. rewrite (scalar_is_vector _ Ht), H1, H2.
  assert (Hn : forall z, in_type t z <-> lo <= z <= hi).
  { intros z. rewrite <- Hr. unfold in_type. split; [|by right]. intros [H|]; [|done]. exfalso.
    unfold unbounded in H. apply andb_true_iff in H as [_ H]. apply Z.leb_le in H. lia. }
  assert (Hin : in_type t lo /\ in_type t hi).
  { assert (in_type t 0) as H0 by (rewrite <- (wrap_type_zero t); right; apply wrap_representable;
      [by apply std_int_bits, Ht|by apply (std_int_class t (scalar_std _ Ht))]).
    rewrite Hn in H0. split; apply Hn; lia. }
  exists (mkInterval (eref (const_node t lo)) (eref (const_node t hi))). split; [done|]. split.
  - split; right; (eexists; split; [reflexivity|]); apply hasty_const; try apply Ht; apply Hr; [apply Hn|apply Hn]; tauto.
  - intros ρ z Hz. apply Hn in Hz. split.
    + eapply above_val; [by apply (val_const t Ht ρ)|lia].
    + eapply below_val; [by apply (val_const t Ht ρ)|lia].
Qed.
End Typed.
End Ends.
