(* ===== verification/BoundsArith.v ===== *)
(** Bounds inference on the arithmetic nodes: the interval each visit of
    src/src/Bounds.cpp computes contains the values of the node, when the operands' do.
    The conditions ([add_safe] to [mod_safe]) leave out the cases in which it does not. *)

From Stdlib Require Import ZArith Lia Bool SpecFloat String Ascii.
From stdpp Require Import prelude strings gmap.
From S2P Require Import Prelude Types IR Semantics Scope Operators Mutator Substitute Equality EqualityMeaning Interval ConstBounds Monotonic Lanes Conditions Simplify SimplifyRules Bounds BoundsOps.

#[local] Open Scope Z_scope.
#[local] Open Scope halide_scope.

(** * The sign of a constant whose casts keep its value *)

Lemma sign_value ρ e : forall v0, wf e -> usual_types e = true -> widening_casts e = true ->
  is_positive_const e || is_negative_const e = true -> eval Ideal ρ e = Some [v0] ->
  exists z, v0 = VInt z /\ (is_positive_const e = true -> 0 < z) /\ (is_negative_const e = true -> z < 0).
Proof.
  induction e using Expr_ind'; intros v0 Hwf Hu Hw Hs He; simpl in Hs; try done; try discriminate Hu.
  - injection He as <-. exists v. simpl. rewrite !Z.ltb_lt. done.
  - injection He as <-. exists v. simpl. rewrite !Z.ltb_lt. done.
  - simpl in Hw, Hu. apply andb_true_iff in Hw as [Hc Hw]. apply andb_true_iff in Hu as [Hf Hu]. apply andb_true_iff in Hf as [Hf _].
    cbn [eval] in He. apply bind_Some in He as (vs & Hvs & He).
    apply mapM_Some_1 in He. pose proof (Forall2_length _ _ _ He) as Hl. destruct vs as [|s' [|]]; [done| |done].
    destruct (IHe s' (proj2 Hwf) Hu Hw Hs Hvs) as (z & -> & Hp & Hn). exists z.
    apply Forall2_cons in He as [Hy _]. split; [|done].
    cbn [cast_scalar cast_int] in Hy. rewrite Hc in Hy. destruct (is_int t || is_uint t); [by injection Hy|].
    apply negb_true_iff in Hf. by rewrite Hf in Hy.
  - cbn [eval] in He. destruct Hwf as [(_ & Hl & _) _]. apply bind_Some in He as (vb & _ & He). apply bind_Some in He as (vs & _ & He).
    destruct vb as [|b [|]]; try done. destruct vs as [|st [|]]; try done.
    destruct (Z.to_nat l) as [|[|n]] eqn:En; [lia|lia|].
    change (ramp_lanes Ideal (type e1) (S (S n)) b st) with
      (next ← eval_binop Ideal Add (type e1) b st; rest ← ramp_lanes Ideal (type e1) (S n) next st; Some (b :: rest)) in He.
    apply bind_Some in He as (nx & _ & He). apply bind_Some in He as (rest & Hr & He). injection He as -> ->.
    destruct n; simpl in Hr; [done|]. apply bind_Some in Hr as (? & _ & Hr). by apply bind_Some in Hr as (? & _ & ?).
  - cbn [eval] in He. apply bind_Some in He as (vs & Hvs & He). destruct vs as [|x [|]]; try done.
    injection He as He. destruct (Z.to_nat l) as [|[|n]]; simpl in He; simplify_eq.
    destruct (IHe v0 (proj2 Hwf) Hu Hw Hs Hvs) as (z & -> & H). by exists z.
Qed.

(** The extrema of four numbers are among them. *)
Lemma min4_one a b c d : let m := min4 a b c d in m = a \/ m = b \/ m = c \/ m = d.
Proof. unfold min4. lia. Qed.
Lemma max4_one a b c d : let m := max4 a b c d in m = a \/ m = b \/ m = c \/ m = d.
Proof. unfold max4. lia. Qed.
Lemma min4_swap a b c d : min4 a b c d = min4 a c b d.
Proof. unfold min4. lia. Qed.
Lemma max4_swap a b c d : max4 a b c d = max4 a c b d.
Proof. unfold max4. lia. Qed.

(** The test of the sign of a constant can be trusted. *)
Definition sign_trusted (e : ExprRef) : bool :=
  on_ref sign_readable e.

Section Arith.
Context (same_as equal : ExprRef -> ExprRef -> bool) (simplify : Expr -> Expr) `{!Simplifier simplify}.
Hypothesis same_as_sound : forall a b, same_as a b = true -> a = b.
Hypothesis same_as_refl : forall a, same_as a a = true.
Context (Γ : gmap string Ty).
Hypothesis equal_test : forall ρ, handle_blind ρ -> EqualityTest Γ ρ equal.
Context (t : Ty) (Ht : scalar_int t).

Notation std := (scalar_std _ Ht).
Notation world := (world Γ).

Lemma trusted_sign ρ e z : world ρ -> hasty Γ t e -> sign_trusted (eref e) = true -> val ρ e z ->
  (is_positive_const e = true -> 0 < z) /\ (is_negative_const e = true -> z < 0).
Proof.
  intros W [[Hwf _ Hu] _] Hs Hz. unfold sign_trusted in Hs. simpl in Hs. unfold sign_readable in Hs.
  destruct (is_positive_const e || is_negative_const e) eqn:Hc; simpl in Hs.
  - destruct (sign_value ρ e (VInt z) Hwf Hu Hs Hc Hz) as (y & [= <-] & H). done.
  - apply orb_false_iff in Hc as [-> ->]. done.
Qed.

Lemma in_type_between l u z : in_type t l -> in_type t u -> l <= z <= u -> in_type t z.
Proof.
  intros [|Hl]; [by left|]. intros [|Hu]; [by left|]. intros Hz. right.
  pose proof (std_int_class t std) as (Hc & _). unfold representable in *. destruct (is_int t); simpl in Hc.
  - unfold in_srange in *. bool_to_prop. apply bool_decide_eq_true. unfold in_srange in *. lia.
  - rewrite Hc in *. bool_to_prop. apply bool_decide_eq_true. unfold in_urange in *. lia.
Qed.

Lemma bool_unbounded : unbounded t = false -> bits t < 32 \/ is_uint t = true.
Proof.
  intros Hu. pose proof (std_int_class t std) as (Hc & _). unfold unbounded in Hu. destruct (is_int t); simpl in *; [|by right].
  left. apply Z.leb_gt in Hu. lia.
Qed.

Lemma uint_values z : is_uint t = true -> in_type t z -> 0 <= z.
Proof.
  intros Hu [H|H].
  - unfold unbounded in H. by rewrite (uint_not_int t Hu) in H.
  - unfold representable in H. rewrite (uint_not_int t Hu), Hu in H. apply bool_decide_eq_true in H. unfold in_urange in H. lia.
Qed.

(** What a visit promises: it succeeds, and its interval contains the values of the node. *)
Definition promises (r : res Interval) (in_a in_b : env -> Z -> Prop) (f : Z -> Z -> Z)
    (d : Z -> Prop) : Prop :=
  exists i, r = Ok i /\ ends_ok Γ t i /\
    forall ρ x y, world ρ -> in_type t x -> in_type t y -> in_a ρ x -> in_b ρ y -> d y ->
      inside ρ i (f x y).

Notation transfers r a b op :=
  (promises r (fun ρ => inside ρ a) (fun ρ => inside ρ b) (iop t op) (defd op)).

(** ** The operands *)
Section Node.
Context (op : binop) (op_a op_b : Expr) (Hop : arith op = true).
Notation node := (Bin op op_a op_b).
Context (Hstd : std_int (type node)) (Hel : element_of (type node) = t).

Lemma node_fields : is_int (type node) = is_int t /\ is_uint (type node) = is_uint t /\ bits (type node) = bits t /\
  is_float (type node) = false.
Proof.
  destruct (element_of_fields (type node) (std_int_bits _ Hstd)) as (Hc & Hb & _). rewrite Hel in Hc, Hb.
  pose proof (std_int_class _ Hstd) as (_ & Hf & _). unfold is_int, is_uint. by rewrite Hc, Hb.
Qed.

Lemma type_bounds : exists i, bounds_of_type (type node) = Ok i /\ ends_ok Γ t i /\
  forall ρ z, in_type t z -> inside ρ i z.
Proof. by apply bounds_of_type_total. Qed.

(** Both operands are points: the node, or the operation on the points. *)
Lemma node_point a b x y : ends_ok Γ t a -> ends_ok Γ t b ->
  is_single_point_of same_as a (eref op_a) && is_single_point_of same_as b (eref op_b) = true ->
  single_point (eref node) = Ok (mkInterval (eref node) (eref node)) /\
  ends_ok Γ t (mkInterval (eref node) (eref node)) /\
  forall ρ, world ρ -> inside ρ a x -> inside ρ b y -> defd op y ->
    inside ρ (mkInterval (eref node) (eref node)) (iop t op x y).
Proof.
  intros Ha Hb H. apply andb_true_iff in H as [H1 H2].
  apply (single_of_view Γ t) in H1 as [-> Ta]; [|done..].
  apply (single_of_view Γ t) in H2 as [-> Tb]; [|done..].
  assert (hasty Γ t node) as Hn by (by apply (hasty_bin Γ t std)).
  destruct (point_ok Γ t node Hn) as [H1 H2]. split; [done|]. split; [done|]. intros ρ W Hx Hy Hd.
  apply point_inside. apply (val_bin Γ t Ht ρ); auto; by eapply inside_point.
Qed.

Lemma points mk a b : factory op mk -> ends_ok Γ t a -> ends_ok Γ t b ->
  is_single_point same_as a && is_single_point same_as b = true ->
  exists i, (s ← mk (i_min a) (i_min b); single_point (eref s)) = Ok i /\ ends_ok Γ t i /\
    forall ρ x y, world ρ -> inside ρ a x -> inside ρ b y -> defd op y -> inside ρ i (iop t op x y).
Proof.
  intros Hm Ha Hb H. apply andb_true_iff in H as [H1 H2].
  apply (single_view Γ t) in H1 as (ea & -> & Ta); [|done..].
  apply (single_view Γ t) in H2 as (eb & -> & Tb); [|done..].
  destruct (arith_total Γ t Ht op mk ea eb Hm Hop Ta Tb) as [He Te]. cbn [i_min]. rewrite He. cbn [mbind res_bind].
  destruct (point_ok Γ t _ Te) as [H1 H2]. eexists. split; [exact H1|]. split; [done|]. intros ρ x y W Hx Hy Hd.
  apply point_inside. apply (val_bin Γ t Ht ρ); auto; by eapply inside_point.
Qed.

Lemma first_point a b r : ends_ok Γ t a -> ends_ok Γ t b -> transfers r a b op ->
  transfers (if is_single_point_of same_as a (eref op_a) && is_single_point_of same_as b (eref op_b)
             then single_point (eref node) else r) a b op.
Proof.
  intros Ha Hb Hr. destruct (_ && _) eqn:Ec; [|done]. eexists. split; [reflexivity|].
  split; [exact (proj1 (proj2 (node_point a b 0 0 Ha Hb Ec)))|]. intros ρ x y W _ _.
  exact (proj2 (proj2 (node_point a b x y Ha Hb Ec)) ρ W).
Qed.

Lemma second_point mk a b r : factory op mk -> ends_ok Γ t a -> ends_ok Γ t b -> transfers r a b op ->
  transfers (if is_single_point same_as a && is_single_point same_as b
             then s ← mk (i_min a) (i_min b); single_point (eref s) else r) a b op.
Proof.
  intros Hm Ha Hb Hr. destruct (_ && _) eqn:Ec; [|done].
  destruct (points mk a b Hm Ha Hb Ec) as (i & -> & Hi & Hv). exists i. split; [done|]. split; [done|].
  intros ρ x y W _ _. by apply (Hv ρ).
Qed.

(** One end: an operation on two ends, if they are finite. *)
Definition end_of (inf p q r : ExprRef) (f : bool) : Prop :=
  (r = inf /\ f = false) \/
  exists x y, p = eref x /\ q = eref y /\ r = eref (Bin op x y) /\ f = true /\
    hasty Γ t x /\ hasty Γ t y /\ hasty Γ t (Bin op x y).

Definition finite_if (f : bool) (inf p : ExprRef) : Prop :=
  (f = false /\ p = inf) \/ (exists e, f = true /\ p = eref e /\ hasty Γ t e).

Lemma end_total mk f g infp infq inf p q : factory op mk -> finite_if f infp p -> finite_if g infq q ->
  exists r, (if f && g then to_ref (mk p q) else Ok inf) = Ok r /\ end_of inf p q r (f && g).
Proof.
  intros Hm [[-> ->]|(x & -> & -> & Hx)]; [exists inf; split; [done|by left]|].
  intros [[-> ->]|(y & -> & -> & Hy)]; [exists inf; split; [done|by left]|].
  destruct (arith_total Γ t Ht op mk x y Hm Hop Hx Hy) as [He Te]. simpl. rewrite He. eexists. split; [done|].
  right. by exists x, y.
Qed.

Lemma end_lower_ok p q r f : end_of neg_inf p q r f -> lower_ok Γ t r.
Proof. intros [[-> _]|(x & y & _ & _ & -> & _ & _ & _ & H)]; [by left|right; by eexists]. Qed.
Lemma end_upper_ok p q r f : end_of pos_inf p q r f -> upper_ok Γ t r.
Proof. intros [[-> _]|(x & y & _ & _ & -> & _ & _ & _ & H)]; [by left|right; by eexists]. Qed.

(** The end of a narrow type did not overflow. *)
Definition end_exact ρ (p q : ExprRef) : Prop :=
  forall x y vx vy, p = eref x -> q = eref y -> val ρ x vx -> val ρ y vy -> iop t op vx vy = exact op vx vy.

Lemma end_test mk inf p q r : op = Add \/ op = Sub \/ op = Mul -> factory op mk -> bits t < 32 ->
  end_of inf p q r true ->
  exists b, can_prove_that simplify (no_overflow_test mk p q r) = Ok b /\
    (b = true -> forall ρ, world ρ -> end_exact ρ p q).
Proof.
  intros Ho Hm Hn [[_ ?]|(x & y & -> & -> & -> & _ & Hx & Hy & Hr)]; [done|].
  destruct (no_overflow_total Γ t Ht Hn op mk x y (Bin op x y) Ho Hm Hx Hy Hr) as (e & He & Te & Ve).
  destruct (proves_total simplify Γ _ e He Te) as (b & Hb & Pb). exists b. split; [done|].
  intros Hbt ρ W x' y' vx vy [= <-] [= <-] Hvx Hvy.
  assert (defd op vy) as Hd by (by destruct Ho as [-> | [-> | ->]]).
  pose proof (Ve ρ vx vy _ Hvx Hvy (val_bin Γ t Ht ρ op x y vx vy Hop Hx Hvx Hvy Hd)) as Hv.
  specialize (Pb Hbt ρ _ W Hv). apply Z.eqb_eq in Pb. by symmetry.
Qed.

Lemma finite_lower i : ends_ok Γ t i -> finite_if (has_lower_bound same_as i) neg_inf (i_min i).
Proof. intros H. destruct (lower_view Γ t Ht same_as same_as_sound same_as_refl i H) as [[-> ->]|(e & -> & -> & He)]; [by left|right; by exists e]. Qed.
Lemma finite_upper i : ends_ok Γ t i -> finite_if (has_upper_bound same_as i) pos_inf (i_max i).
Proof. intros H. destruct (upper_view Γ t Ht same_as same_as_sound same_as_refl i H) as [[-> ->]|(e & -> & -> & He)]; [by left|right; by exists e]. Qed.

Lemma end_of_flag inf p q r f g : end_of inf p q r f -> finite_if g inf r -> (forall e, hasty Γ t e -> eref e <> inf) -> f = g.
Proof.
  intros [[-> ->]|(x & y & _ & _ & -> & -> & _ & _ & H)] [[-> Hr]|(e & -> & Hr & He)] Hinf; try done.
  - by destruct (Hinf e He).
  - by destruct (Hinf _ H).
Qed.

Lemma ends_fit_total mk i ux uy lx ly fu fl : op = Add \/ op = Sub -> factory op mk -> ends_ok Γ t i ->
  end_of pos_inf ux uy (i_max i) fu -> end_of neg_inf lx ly (i_min i) fl ->
  exists fits, ends_fit same_as simplify node mk ux uy lx ly i = Ok fits /\
    (fits = true -> bits t < 32 -> forall ρ, world ρ ->
      (fu = true -> end_exact ρ ux uy) /\ (fl = true -> end_exact ρ lx ly)).
Proof.
  intros Ho Hm Hi Hu Hl. destruct node_fields as (_ & _ & Hb & Hf). unfold ends_fit. rewrite Hb, Hf. cbn [negb andb].
  destruct (Z.ltb_spec (bits t) 32) as [Hn|Hn]; [|exists true; split; [done|lia]].
  rewrite <- (end_of_flag _ _ _ _ _ _ Hu (finite_upper i Hi)) by (intros e He; by apply (hasty_not_inf Γ t Ht e He)).
  rewrite <- (end_of_flag _ _ _ _ _ _ Hl (finite_lower i Hi)) by (intros e He; by apply (hasty_not_inf Γ t Ht e He)).
  assert (Ho' : op = Add \/ op = Sub \/ op = Mul) by tauto.
  assert (Hup : exists b, (if fu then can_prove_that simplify (no_overflow_test mk ux uy (i_max i)) else Ok true) = Ok b /\
    (b = true -> forall ρ, world ρ -> fu = true -> end_exact ρ ux uy)).
  { destruct fu; [|by exists true]. destruct (end_test mk _ _ _ _ Ho' Hm Hn Hu) as (b & Hb1 & Hb2). exists b. split; [done|]. eauto. }
  assert (Hlo : exists b, (if fl then can_prove_that simplify (no_overflow_test mk lx ly (i_min i)) else Ok true) = Ok b /\
    (b = true -> forall ρ, world ρ -> fl = true -> end_exact ρ lx ly)).
  { destruct fl; [|by exists true]. destruct (end_test mk _ _ _ _ Ho' Hm Hn Hl) as (b & Hb1 & Hb2). exists b. split; [done|]. eauto. }
  destruct Hup as (b1 & -> & H1), Hlo as (b2 & Hb2 & H2). cbn [mbind res_bind].
  destruct b1; cbn [negb]; [|by exists false]. exists b2. split; [done|]. intros -> _ ρ W. eauto.
Qed.
End Node.

(** * Sums and differences *)

(** Both ends of the interval are finite, or neither is. *)
Definition two_sided (i : Interval) : bool := Bool.eqb (has_lower_bound same_as i) (has_upper_bound same_as i).
Definition add_safe (a b : Interval) : bool := unbounded t || (bits t <? 32) && two_sided a && two_sided b.
Definition sub_safe (a b : Interval) : bool := unbounded t || two_sided a && two_sided b.

Lemma inside_norm ρ i z : inside ρ i z -> in_type t z \/ i = everything -> inside ρ i (norm t z).
Proof. intros Hi [Hz| ->]; [by rewrite norm_id|apply inside_everything]. Qed.

Definition sum (op : binop) : Prop := op = Add \/ op = Sub.

Lemma sum_arith op : sum op -> arith op = true.
Proof. by intros [-> | ->]. Qed.
Lemma sum_iop op x y : sum op -> iop t op x y = norm t (exact op x y).
Proof. by intros [-> | ->]. Qed.

(** The exact result is on the right side of both ends, and the ends are exact. *)
Lemma ends_inside op lx ly m fl ux uy M fu ρ z : sum op ->
  end_of op neg_inf lx ly m fl -> end_of op pos_inf ux uy M fu ->
  (fl = true -> end_exact op ρ lx ly) -> (fu = true -> end_exact op ρ ux uy) -> world ρ ->
  (forall ex ey, lx = eref ex -> ly = eref ey -> hasty Γ t ex -> hasty Γ t ey ->
     exists vx vy, val ρ ex vx /\ val ρ ey vy /\ exact op vx vy <= z) ->
  (forall ex ey, ux = eref ex -> uy = eref ey -> hasty Γ t ex -> hasty Γ t ey ->
     exists vx vy, val ρ ex vx /\ val ρ ey vy /\ z <= exact op vx vy) ->
  unbounded t = true \/ fl = fu -> inside ρ (mkInterval m M) (norm t z).
Proof.
  intros Ho Hm HM Xl Xu W Hl Hu Hs. pose proof (sum_arith op Ho) as Har.
  assert (Lo : m = neg_inf /\ fl = false \/ exists e v, m = eref e /\ fl = true /\ val ρ e v /\ in_type t v /\ v <= z).
  { destruct Hm as [[-> ->]|(x & y & Ex & Ey & -> & -> & Hx & Hy & H)]; [by left|right].
    destruct (Hl x y Ex Ey Hx Hy) as (vx & vy & Vx & Vy & Hz).
    rewrite <- (Xl eq_refl x y vx vy Ex Ey Vx Vy) in Hz. eexists _, _. split; [done|]. split; [done|].
    split; [apply (val_bin Γ t Ht ρ); auto; by destruct Ho as [-> | ->]|]. split; [|done].
    rewrite sum_iop by done. apply norm_in_type, std. }
  assert (Up : M = pos_inf /\ fu = false \/ exists e v, M = eref e /\ fu = true /\ val ρ e v /\ in_type t v /\ z <= v).
  { destruct HM as [[-> ->]|(x & y & Ex & Ey & -> & -> & Hx & Hy & H)]; [by left|right].
    destruct (Hu x y Ex Ey Hx Hy) as (vx & vy & Vx & Vy & Hz).
    rewrite <- (Xu eq_refl x y vx vy Ex Ey Vx Vy) in Hz. eexists _, _. split; [done|]. split; [done|].
    split; [apply (val_bin Γ t Ht ρ); auto; by destruct Ho as [-> | ->]|]. split; [|done].
    rewrite sum_iop by done. apply norm_in_type, std. }
  apply inside_norm.
  - split; simpl.
    + destruct Lo as [[-> _]|(e & v & -> & _ & Hv & _ & Hz)]; [by left|by eapply above_val].
    + destruct Up as [[-> _]|(e & v & -> & _ & Hv & _ & Hz)]; [by left|by eapply below_val].
  - destruct Hs as [Hs|Hs]; [by left; left|].
    destruct Lo as [[-> Fl]|(e & v & -> & Fl & _ & Hv & Hz)], Up as [[-> Fu]|(e' & v' & -> & Fu & _ & Hv' & Hz')];
      try congruence; [by right|]. left. by apply (in_type_between v v').
Qed.

(** At unbounded types every end is exact. *)
Lemma unbounded_exact op ρ p q : sum op -> unbounded t = true -> end_exact op ρ p q.
Proof. intros Ho Hu x y vx vy _ _ _ _. rewrite sum_iop by done. by apply norm_unbounded. Qed.

Lemma two_sided_flags i : two_sided i = true -> has_lower_bound same_as i = has_upper_bound same_as i.
Proof. apply Bool.eqb_prop. Qed.

Lemma unbounded_wide : unbounded t = true -> ~ bits t < 32.
Proof. intros H. unfold unbounded in H. apply andb_true_iff in H as [_ H]. apply Z.leb_le in H. lia. Qed.

Lemma type_bounds_transfer op op_a op_b a b : arith op = true -> std_int (type (Bin op op_a op_b)) ->
  element_of (type (Bin op op_a op_b)) = t -> transfers (bounds_of_type (type (Bin op op_a op_b))) a b op.
Proof.
  intros Hop Hstd Hel. destruct (type_bounds op op_a op_b Hstd Hel) as (i & -> & Hi & Hin).
  exists i. split; [done|]. split; [done|]. intros ρ x y W Tx Ty _ _ _. apply Hin. by apply (in_type_iop t std).
Qed.

Lemma add_interval_total op_a op_b a b : std_int (type (Bin Add op_a op_b)) -> element_of (type (Bin Add op_a op_b)) = t ->
  ends_ok Γ t a -> ends_ok Γ t b -> add_safe a b = true ->
  transfers (add_interval same_as simplify (Bin Add op_a op_b) op_a op_b a b) a b Add.
Proof.
  intros Hstd Hel Ha Hb Hsafe. assert (Hf : factory Add operator_add) by (eexists; right; eexists; reflexivity).
  apply first_point; [done..|]. apply second_point; [done..|].
  destruct (end_total Add eq_refl operator_add _ _ _ _ neg_inf _ _ Hf (finite_lower a Ha) (finite_lower b Hb)) as (m & -> & Hm).
  destruct (end_total Add eq_refl operator_add _ _ _ _ pos_inf _ _ Hf (finite_upper a Ha) (finite_upper b Hb)) as (M & -> & HM).
  cbn [mbind res_bind].
  assert (Hi : ends_ok Γ t (mkInterval m M)) by (split; [by eapply end_lower_ok|by eapply end_upper_ok]).
  destruct (ends_fit_total Add op_a op_b eq_refl Hstd Hel operator_add (mkInterval m M) _ _ _ _ _ _ (or_introl eq_refl) Hf Hi HM Hm)
    as (fits & -> & Hfits). cbn [mbind res_bind].
  destruct fits; cbn [negb].
  - exists (mkInterval m M). split; [done|]. split; [done|]. intros ρ x y W Tx Ty [Hxl Hxu] [Hyl Hyu] _.
    assert (Hx : (unbounded t = true \/ bits t < 32 /\ two_sided a = true /\ two_sided b = true)).
    { unfold add_safe in Hsafe. apply orb_true_iff in Hsafe as [|Hs]; [by left|right].
      rewrite !andb_true_iff in Hs. destruct Hs as [[Hn H1] H2]. by apply Z.ltb_lt in Hn. }
    apply (ends_inside Add _ _ _ _ _ _ _ _ ρ (x + y) (or_introl eq_refl) Hm HM); try done.
    + intros Hfl. destruct Hx as [Hx|(Hn & _)]; [by apply unbounded_exact; [left|]|by apply (Hfits eq_refl Hn ρ W)].
    + intros Hfu. destruct Hx as [Hx|(Hn & _)]; [by apply unbounded_exact; [left|]|by apply (Hfits eq_refl Hn ρ W)].
    + intros ex ey Ex Ey Tex Tey. rewrite Ex in Hxl. rewrite Ey in Hyl.
      apply (above_finite Γ t Ht) in Hxl as (l & Hl & Hlx); [|done]. apply (above_finite Γ t Ht) in Hyl as (k & Hk & Hky); [|done].
      exists l, k. repeat split; try done. simpl. lia.
    + intros ex ey Ex Ey Tex Tey. rewrite Ex in Hxu. rewrite Ey in Hyu.
      apply (below_finite Γ t Ht) in Hxu as (l & Hl & Hlx); [|done]. apply (below_finite Γ t Ht) in Hyu as (k & Hk & Hky); [|done].
      exists l, k. repeat split; try done. simpl. lia.
    + destruct Hx as [Hx|(_ & H1 & H2)]; [by left|right]. by rewrite (two_sided_flags a H1), (two_sided_flags b H2).
  - by apply type_bounds_transfer.
Qed.

(** The difference of ends that are ordered does not leave an unsigned type. *)
Lemma uint_difference l k : is_uint t = true -> in_type t l -> in_type t k -> k <= l -> iop t Sub l k = exact Sub l k.
Proof.
  intros Hu Hl Hk Hkl. rewrite sum_iop by (by right). apply norm_id.
  pose proof (uint_values k Hu Hk). apply (in_type_between 0 l); [|done|simpl; lia].
  right. unfold representable. rewrite (uint_not_int t Hu), Hu. apply bool_decide_eq_true. unfold in_urange.
  pose proof (pow2_pos (bits t)). pose proof (std_int_bits t std). lia.
Qed.

Lemma sub_interval_total op_a op_b a b : std_int (type (Bin Sub op_a op_b)) -> element_of (type (Bin Sub op_a op_b)) = t ->
  ends_ok Γ t a -> ends_ok Γ t b -> sub_safe a b = true ->
  transfers (sub_interval same_as simplify (Bin Sub op_a op_b) op_a op_b a b) a b Sub.
Proof.
  intros Hstd Hel Ha Hb Hsafe. assert (Hf : factory Sub operator_sub) by (eexists; right; eexists; reflexivity).
  apply first_point; [done..|]. apply second_point; [done..|].
  destruct (end_total Sub eq_refl operator_sub _ _ _ _ neg_inf _ _ Hf (finite_lower a Ha) (finite_upper b Hb)) as (m & -> & Hm).
  destruct (end_total Sub eq_refl operator_sub _ _ _ _ pos_inf _ _ Hf (finite_upper a Ha) (finite_lower b Hb)) as (M & -> & HM).
  cbn [mbind res_bind].
  assert (Hi : ends_ok Γ t (mkInterval m M)) by (split; [by eapply end_lower_ok|by eapply end_upper_ok]).
  destruct (ends_fit_total Sub op_a op_b eq_refl Hstd Hel operator_sub (mkInterval m M) _ _ _ _ _ _ (or_intror eq_refl) Hf Hi HM Hm)
    as (fits & -> & Hfits). cbn [mbind res_bind].
  destruct fits; cbn [negb]; [|by apply type_bounds_transfer].
  (* the interval of the differences, where its ends are exact *)
  assert (Hgood : (forall ρ x y, world ρ -> inside ρ a x -> inside ρ b y ->
      (has_lower_bound same_as a && has_upper_bound same_as b = true -> end_exact Sub ρ (i_min a) (i_max b)) /\
      (has_upper_bound same_as a && has_lower_bound same_as b = true -> end_exact Sub ρ (i_max a) (i_min b)) /\
      (unbounded t = true \/ two_sided a = true /\ two_sided b = true)) ->
    transfers (Ok (mkInterval m M)) a b Sub).
  { intros Hs. exists (mkInterval m M). split; [done|]. split; [done|].
    intros ρ x y W Tx Ty Hx Hy _. destruct (Hs ρ x y W Hx Hy) as (H1 & H2 & H3).
    destruct Hx as [Hxl Hxu], Hy as [Hyl Hyu]. apply (ends_inside Sub _ _ _ _ _ _ _ _ ρ (x - y) (or_intror eq_refl) Hm HM); try done.
    - intros ex ey Ex Ey Tex Tey. rewrite Ex in Hxl. rewrite Ey in Hyu.
      apply (above_finite Γ t Ht) in Hxl as (l & Hl & Hlx); [|done]. apply (below_finite Γ t Ht) in Hyu as (k & Hk & Hky); [|done].
      exists l, k. repeat split; try done. simpl. lia.
    - intros ex ey Ex Ey Tex Tey. rewrite Ex in Hxu. rewrite Ey in Hyl.
      apply (below_finite Γ t Ht) in Hxu as (l & Hl & Hlx); [|done]. apply (above_finite Γ t Ht) in Hyl as (k & Hk & Hky); [|done].
      exists l, k. repeat split; try done. simpl. lia.
    - destruct H3 as [H3|[H3 H4]]; [by left|right]. rewrite (two_sided_flags a H3), (two_sided_flags b H4). by rewrite andb_comm. }
  assert (Hwide : unbounded t = true -> forall ρ p q, end_exact Sub ρ p q) by (intros; apply unbounded_exact; [by right|done]).
  destruct (node_fields Sub op_a op_b Hstd Hel) as (_ & -> & _ & _).
  destruct (is_uint t && has_lower_bound same_as (mkInterval m M)) eqn:Eu.
  - apply andb_true_iff in Eu as [Hut Hlow]. unfold has_lower_bound in Hlow. apply andb_true_iff in Hlow as [Hlow _].
    destruct Hm as [[-> _]|(xa & yb & Exa & Eyb & -> & Hflag & Txa & Tyb & Tm)]; [simpl in Hlow; by rewrite same_as_refl in Hlow|].
    rewrite Exa, Eyb.
    assert (Hle : factory LE operator_le) by (eexists; right; eexists; reflexivity).
    destruct (cmp_total Γ t Ht LE operator_le yb xa Hle eq_refl Tyb Txa) as [Ele Tle].
    destruct (proves_total simplify Γ _ _ Ele Tle) as (ok & -> & Hok). cbn [mbind res_bind].
    destruct ok; cbn [negb]; [|by apply type_bounds_transfer]. apply Hgood. intros ρ x y W [Hxl Hxu] [Hyl Hyu].
    assert (Hord : forall la ub, val ρ xa la -> val ρ yb ub -> ub <= la).
    { intros la ub Hla Hub. apply Z.leb_le. exact (Hok eq_refl ρ _ W (val_cmp ρ LE yb xa ub la eq_refl Hub Hla)). }
    rewrite Exa in Hxl. rewrite Eyb in Hyu.
    apply (above_finite Γ t Ht) in Hxl as (la & Hla & Hlx); [|done]. apply (below_finite Γ t Ht) in Hyu as (ub & Hub & Huy); [|done].
    specialize (Hord la ub Hla Hub).
    assert (Hu0 : unbounded t = false) by (unfold unbounded; by rewrite (uint_not_int t Hut)).
    unfold sub_safe in Hsafe. rewrite Hu0 in Hsafe. apply andb_true_iff in Hsafe as [H1 H2].
    split; [|split; [|by right]].
    + intros _ ex ey vx vy Ex Ey Hvx Hvy. rewrite Exa in Ex. rewrite Eyb in Ey. injection Ex as <-. injection Ey as <-.
      pose proof (val_same ρ xa la vx Hla Hvx) as <-. pose proof (val_same ρ yb ub vy Hub Hvy) as <-.
      apply uint_difference; [done|exact (val_in_type Γ t Ht ρ xa la W Txa Hla)|
        exact (val_in_type Γ t Ht ρ yb ub W Tyb Hub)|done].
    + intros Hflag' ex ey vx vy Ex Ey Hvx Hvy.
      destruct HM as [[_ Hff]|(ex' & ey' & Ex' & Ey' & _ & _ & Tex & Tey & _)]; [congruence|].
      rewrite Ex' in Ex. rewrite Ey' in Ey. injection Ex as <-. injection Ey as <-.
      rewrite Ex' in Hxu. rewrite Ey' in Hyl.
      apply (below_finite Γ t Ht) in Hxu as (ua & Hua & Hux); [|done]. apply (above_finite Γ t Ht) in Hyl as (lb & Hlb & Hly); [|done].
      pose proof (val_same ρ _ _ _ Hua Hvx) as <-. pose proof (val_same ρ _ _ _ Hlb Hvy) as <-.
      apply uint_difference; [done|exact (val_in_type Γ t Ht ρ _ ua W Tex Hua)|
        exact (val_in_type Γ t Ht ρ _ lb W Tey Hlb)|lia].
  - apply Hgood. intros ρ x y W _ _.
    assert (Hcases : unbounded t = true \/ bits t < 32 \/ (is_uint t = true /\ m = neg_inf)).
    { destruct (unbounded t) eqn:Hu; [by left|right]. destruct (bool_unbounded Hu) as [|Hut]; [by left|right]. split; [done|].
      rewrite Hut in Eu. simpl in Eu. destruct (lower_view Γ t Ht same_as same_as_sound same_as_refl _ Hi) as [[_ ?]|(e & He & _)]; [done|congruence]. }
    destruct Hcases as [Hu|Hc]; [split; [|split; [|by left]]; intros; by apply Hwide|].
    assert (two_sided a = true /\ two_sided b = true) as [H1 H2].
    { unfold sub_safe in Hsafe. destruct (unbounded t) eqn:Hu; [|by apply andb_true_iff].
      destruct Hc as [Hc|[Hut _]]; [by destruct (unbounded_wide Hu)|]. unfold unbounded in Hu. by rewrite (uint_not_int t Hut) in Hu. }
    destruct Hc as [Hn|[_ ->]].
    + destruct (Hfits eq_refl Hn ρ W) as [H3 H4]. split; [done|]. split; [done|by right].
    + assert (Hfl : has_lower_bound same_as a && has_upper_bound same_as b = false)
        by (destruct Hm as [[_ ->]|(? & ? & _ & _ & ? & _)]; done).
      rewrite <- (two_sided_flags a H1), (two_sided_flags b H2), Hfl. split; [done|]. split; [done|by right].
Qed.

(** * Points, and the corners of a rectangle *)

(** The extrema of some expressions. *)
Definition extrema_of (es : list Expr) (i : Interval) : Prop :=
  exists lo hi, i = mkInterval (eref lo) (eref hi) /\ hasty Γ t lo /\ hasty Γ t hi /\
    forall ρ, world ρ -> (forall e, e ∈ es -> exists v, val ρ e v) ->
      exists l u, val ρ lo l /\ val ρ hi u /\ forall e v, e ∈ es -> val ρ e v -> l <= v <= u.

Lemma include_first e : hasty Γ t e -> exists i, include_expr same_as equal nothing (eref e) = Ok i /\ extrema_of [e] i.
Proof.
  intros He. destruct (inf_same Γ t Ht same_as same_as_sound e He) as (H1 & H2 & H3 & H4).
  exists (mkInterval (eref e) (eref e)). split.
  - unfold include_expr, nothing, make_max, make_min, combine_fuel. cbn [i_min i_max make_max_fuel make_min_fuel].
    destruct (same_as_infs same_as same_as_sound) as [H5 H6]. by rewrite ?H1, ?H2, ?H3, ?H4, ?H5, ?H6, ?same_as_refl.
  - exists e, e. split; [done|]. split; [done|]. split; [done|]. intros ρ W Hv.
    destruct (Hv e) as [v Hev]; [apply list_elem_of_here|]. exists v, v. split; [done|]. split; [done|].
    intros e' v' He' Hv'. apply list_elem_of_singleton in He' as ->. rewrite (val_same ρ e v v' Hev Hv'). lia.
Qed.

Lemma include_next es i e : extrema_of es i -> hasty Γ t e ->
  exists j, include_expr same_as equal i (eref e) = Ok j /\ extrema_of (e :: es) j.
Proof.
  intros (lo & hi & -> & Tlo & Thi & Hv) He.
  destruct (extremum_total Γ t Ht same_as same_as_sound same_as_refl equal equal_test Max hi e (or_introl eq_refl) Thi He) as (hi' & E1 & T1 & V1).
  destruct (extremum_total Γ t Ht same_as same_as_sound same_as_refl equal equal_test Min lo e (or_intror eq_refl) Tlo He) as (lo' & E2 & T2 & V2).
  exists (mkInterval (eref lo') (eref hi')). split.
  - unfold include_expr, make_max, make_min. cbn [i_min i_max]. cbn [extremum] in E1, E2. by rewrite E1, E2.
  - exists lo', hi'. split; [done|]. split; [done|]. split; [done|]. intros ρ W Hall.
    destruct (Hv ρ W) as (l & u & Hl & Hu & Hb); [intros e' He'; apply Hall; by apply list_elem_of_further|].
    destruct (Hall e) as [v Hev]; [apply list_elem_of_here|].
    exists (Z.min l v), (Z.max u v). split; [by apply (V2 ρ)|]. split; [by apply (V1 ρ)|].
    intros e' v' He' Hv'. apply elem_of_cons in He' as [->|He'].
    + rewrite (val_same ρ e v v' Hev Hv'). lia.
    + specialize (Hb e' v' He' Hv'). lia.
Qed.

Lemma corners_total e1 e2 e3 e4 : hasty Γ t e1 -> hasty Γ t e2 -> hasty Γ t e3 -> hasty Γ t e4 ->
  exists i, corners_interval same_as equal [Ok e1; Ok e2; Ok e3; Ok e4] = Ok i /\ ends_ok Γ t i /\
    forall ρ v1 v2 v3 v4 z, world ρ -> val ρ e1 v1 -> val ρ e2 v2 -> val ρ e3 v3 -> val ρ e4 v4 ->
      min4 v1 v2 v3 v4 <= z <= max4 v1 v2 v3 v4 -> inside ρ i z.
Proof.
  intros H1 H2 H3 H4. destruct (include_first e1 H1) as (i1 & E1 & X1). destruct (include_next _ _ e2 X1 H2) as (i2 & E2 & X2).
  destruct (include_next _ _ e3 X2 H3) as (i3 & E3 & X3). destruct (include_next _ _ e4 X3 H4) as (i4 & E4 & X4).
  exists i4. split.
  { unfold corners_interval. cbn [foldl mbind res_bind]. rewrite E1. cbn [mbind res_bind]. rewrite E2. cbn [mbind res_bind].
    rewrite E3. cbn [mbind res_bind]. exact E4. }
  destruct X4 as (lo & hi & -> & Tlo & Thi & Hv). split; [split; right; by eexists|].
  intros ρ v1 v2 v3 v4 z W V1 V2 V3 V4 Hz. destruct (Hv ρ W) as (l & u & Hl & Hu & Hb).
  { intros e He. rewrite !elem_of_cons, elem_of_nil in He. destruct_or?; subst; eauto. }
  pose proof (Hb e1 v1 ltac:(rewrite !elem_of_cons; tauto) V1). pose proof (Hb e2 v2 ltac:(rewrite !elem_of_cons; tauto) V2).
  pose proof (Hb e3 v3 ltac:(rewrite !elem_of_cons; tauto) V3). pose proof (Hb e4 v4 ltac:(rewrite !elem_of_cons; tauto) V4).
  unfold min4, max4 in Hz. split; [eapply above_val; [exact Hl|lia]|eapply below_val; [exact Hu|lia]].
Qed.

Lemma select_interval_total c a b : hasty Γ (Bool 1) c -> hasty Γ t a -> hasty Γ t b ->
  exists i, select_interval c (eref a) (eref b) = Ok i /\ ends_ok Γ t i /\
    forall ρ (p : bool) x y z, val ρ c (Z.b2z p) -> val ρ a x -> val ρ b y ->
      (if p then x <= z <= y else y <= z <= x) -> inside ρ i z.
Proof.
  intros Hc Ha Hb. destruct (select_total Γ t Ht c a b Hc Ha Hb) as [E1 T1]. destruct (select_total Γ t Ht c b a Hc Hb Ha) as [E2 T2].
  exists (mkInterval (eref (Select c a b)) (eref (Select c b a))). unfold select_interval. rewrite E1. cbn [mbind res_bind]. rewrite E2.
  split; [done|]. split; [split; right; by eexists|]. intros ρ p x y z Hp Hx Hy Hz. split.
  - eapply above_val; [by apply (val_select ρ c a b p x y)|]. destruct p; lia.
  - eapply below_val; [by apply (val_select ρ c b a p y x)|]. destruct p; lia.
Qed.

(** * Products *)

(** The product of two ends is exact. *)
Definition exact_corners ρ (a b : Interval) : Prop :=
  end_exact Mul ρ (i_min a) (i_min b) /\ end_exact Mul ρ (i_min a) (i_max b) /\
  end_exact Mul ρ (i_max a) (i_min b) /\ end_exact Mul ρ (i_max a) (i_max b).

(** When [b] is a point, its sign can be read, and if negative the ends of [a] that
    change sides are finite. *)
Definition point_safe (a b : Interval) : bool :=
  negb (is_single_point same_as b) ||
  sign_trusted (i_min b) && (negb (on_ref is_negative_const (i_min b)) || is_bounded same_as a).

(** What a visit computes before its overflow check: [f] is the exact operation. *)
Definition computes_exactly (r : res Interval) (a b : Interval) (f : Z -> Z -> Z) (X : env -> Prop) : Prop :=
  exists i, r = Ok i /\ ends_ok Γ t i /\
    forall ρ x y, world ρ -> in_type t x -> in_type t y -> inside ρ a x -> inside ρ b y -> X ρ -> inside ρ i (f x y).

Lemma scaled_end mk op (f : bool) inf p e : arith op = true -> factory op mk -> finite_if f inf p -> hasty Γ t e ->
  exists r, (if f then to_ref (mk p (eref e)) else Ok p) = Ok r /\
    ((f = false /\ p = inf /\ r = inf) \/
     exists q, f = true /\ p = eref q /\ hasty Γ t q /\ r = eref (Bin op q e) /\ hasty Γ t (Bin op q e)).
Proof.
  intros Hop Hm [[-> ->]|(q & -> & -> & Hq)] He.
  - exists inf. split; [done|by left].
  - destruct (arith_total Γ t Ht op mk q e Hm Hop Hq He) as [Eq Tq]. simpl. rewrite Eq. eexists. split; [done|]. right. by exists q.
Qed.

(** Such an end as a bound of what it was computed from. *)
Lemma scaled_above op f p e r ρ x v : arith op = true -> world ρ -> defd op v ->
  ((f = false /\ p = neg_inf /\ r = neg_inf) \/
   exists q, f = true /\ p = eref q /\ hasty Γ t q /\ r = eref (Bin op q e) /\ hasty Γ t (Bin op q e)) ->
  above ρ p x -> val ρ e v ->
  r = neg_inf \/ exists q l, r = eref (Bin op q e) /\ p = eref q /\ hasty Γ t q /\ val ρ q l /\
    val ρ (Bin op q e) (iop t op l v) /\ l <= x.
Proof.
  intros Hop W Hd [(_ & _ & ->)|(q & _ & -> & Tq & -> & _)] Hx Hv; [by left|right].
  apply (above_finite Γ t Ht) in Hx as (l & Hl & Hlx); [|done]. exists q, l. do 5 (split; [by first [done | apply (val_bin Γ t Ht ρ)]|]). done.
Qed.

Lemma scaled_below op f p e r ρ x v : arith op = true -> world ρ -> defd op v ->
  ((f = false /\ p = pos_inf /\ r = pos_inf) \/
   exists q, f = true /\ p = eref q /\ hasty Γ t q /\ r = eref (Bin op q e) /\ hasty Γ t (Bin op q e)) ->
  below ρ p x -> val ρ e v ->
  r = pos_inf \/ exists q u, r = eref (Bin op q e) /\ p = eref q /\ hasty Γ t q /\ val ρ q u /\
    val ρ (Bin op q e) (iop t op u v) /\ x <= u.
Proof.
  intros Hop W Hd [(_ & _ & ->)|(q & _ & -> & Tq & -> & _)] Hx Hv; [by left|right].
  apply (below_finite Γ t Ht) in Hx as (l & Hl & Hlx); [|done]. exists q, l. do 5 (split; [by first [done | apply (val_bin Γ t Ht ρ)]|]). done.
Qed.

Lemma mul_iop x y : iop t Mul x y = norm t (x * y).
Proof. done. Qed.

Lemma zero_value ρ e v : world ρ -> hasty Γ t e -> is_zero e = true -> val ρ e v -> v = 0.
Proof.
  intros W [[_ _ Hu] _] Hz Hv.
  destruct (is_zero_eval Ideal ρ e _ Hz Hu Hv) as [n Hn]. destruct n; [done|]. by injection Hn.
Qed.

Lemma sign_condition mk cmp e : factory cmp mk -> is_comparison cmp = true -> hasty Γ t e ->
  exists c, (zero ← make_zero (element_of (type e)); mk (eref e) (eref zero)) = Ok c /\ hasty Γ (Bool 1) c /\
    forall ρ v, val ρ e v -> val ρ c (Z.b2z (icmp cmp v 0)).
Proof.
  intros Hm Hcmp He. pose proof (element_of_eqb _ t std (hasty_type _ _ _ He)) as Hel. rewrite (scalar_element_id _ Ht) in Hel.
  rewrite Hel. destruct (zero_total Γ t Ht t (type_eqb_refl t)) as (z & -> & Tz & Vz). cbn [mbind res_bind].
  destruct (cmp_total Γ t Ht cmp mk e z Hm Hcmp He Tz) as [-> Tc]. eexists. split; [done|]. split; [done|].
  intros ρ v Hv. by apply val_cmp.
Qed.

(** Two ends make an interval. *)
Lemma make_ends e1 e2 : lower_ok Γ t e1 -> upper_ok Γ t e2 -> Interval_make e1 e2 = Ok (mkInterval e1 e2).
Proof. intros [->|(? & -> & _)] [->|(? & -> & _)]; done. Qed.

Lemma mul_point_total node a b : is_uint (type node) = is_uint t -> ends_ok Γ t a -> ends_ok Γ t b ->
  is_single_point same_as b = true -> point_safe a b = true ->
  computes_exactly (mul_point_interval same_as node a b) a b Z.mul (fun ρ => exact_corners ρ a b).
Proof.
  intros Hui Ha Hb Hs Hsafe. unfold point_safe in Hsafe. rewrite Hs in Hsafe. cbn [negb orb] in Hsafe.
  apply andb_true_iff in Hsafe as [Hsign Hneg].
  apply (single_view Γ t) in Hs as (e & -> & Te); [|done..]. cbn [i_min i_max] in *.
  assert (Hf : factory Mul operator_mul) by (eexists; right; eexists; reflexivity).
  unfold mul_point_interval. cbn [i_min i_max].
  destruct (scaled_end operator_mul Mul _ _ _ e eq_refl Hf (finite_lower a Ha) Te) as (e1 & -> & H1).
  destruct (scaled_end operator_mul Mul _ _ _ e eq_refl Hf (finite_upper a Ha) Te) as (e2 & -> & H2).
  cbn [mbind res_bind on_ref eref]. rewrite Hui.
  (* the values of the two products *)
  assert (V1 : forall ρ x v, world ρ -> exact_corners ρ a (mkInterval (eref e) (eref e)) -> inside ρ a x -> val ρ e v ->
    e1 = neg_inf \/ exists q l, e1 = eref q /\ val ρ q (l * v) /\ l <= x).
  { intros ρ x v W (X1 & _) [Hx _] Hv.
    destruct (scaled_above Mul _ _ _ _ ρ x v eq_refl W I H1 Hx Hv) as [|(q & l & -> & Ep & Tq & Hq & Hp & Hl)]; [by left|right].
    rewrite (X1 q e l v Ep eq_refl Hq Hv) in Hp. eauto. }
  assert (V2 : forall ρ x v, world ρ -> exact_corners ρ a (mkInterval (eref e) (eref e)) -> inside ρ a x -> val ρ e v ->
    e2 = pos_inf \/ exists q u, e2 = eref q /\ val ρ q (u * v) /\ x <= u).
  { intros ρ x v W (_ & _ & X3 & _) [_ Hx] Hv.
    destruct (scaled_below Mul _ _ _ _ ρ x v eq_refl W I H2 Hx Hv) as [|(q & l & -> & Ep & Tq & Hq & Hp & Hl)]; [by left|right].
    rewrite (X3 q e l v Ep eq_refl Hq Hv) in Hp. eauto. }
  assert (L1 : lower_ok Γ t e1) by (destruct H1 as [(_ & _ & ->)|(q & _ & _ & _ & -> & T)]; [by left|right; by eexists]).
  assert (U2 : upper_ok Γ t e2) by (destruct H2 as [(_ & _ & ->)|(q & _ & _ & _ & -> & T)]; [by left|right; by eexists]).
  destruct (is_zero e) eqn:Ez.
  { eexists. split; [reflexivity|]. split; [done|]. intros ρ x y W _ _ _ Hy _.
    apply (inside_point Γ t Ht ρ) in Hy as Vy; [|done]. rewrite (zero_value ρ e y W Te Ez Vy) in Hy |- *.
    by rewrite Z.mul_0_r. }
  destruct (is_positive_const e || is_uint t) eqn:Ep.
  { rewrite (make_ends e1 e2) by done. eexists. split; [reflexivity|]. split; [done|]. intros ρ x y W Tx Ty Hx Hy X.
    apply (inside_point Γ t Ht ρ) in Hy as Vy; [|done].
    assert (0 <= y).
    { apply orb_true_iff in Ep as [Ep|Ep]; [|by apply uint_values]. destruct (trusted_sign ρ e y W Te Hsign Vy) as [Hp _]. specialize (Hp Ep). lia. }
    split; simpl.
    - destruct (V1 ρ x y W X Hx Vy) as [->|(q & l & -> & Hq & Hl)]; [by left|]. eapply above_val; [exact Hq|nia].
    - destruct (V2 ρ x y W X Hx Vy) as [->|(q & l & -> & Hq & Hl)]; [by left|]. eapply below_val; [exact Hq|nia]. }
  destruct (is_negative_const e) eqn:En.
  { simpl in Hneg. rewrite En in Hneg. cbn [negb orb] in Hneg. apply (bounded_view Γ t) in Hneg as (lo & hi & -> & Tlo & Thi); [|done..].
    cbn [i_min i_max] in *.
    destruct H1 as [(_ & Hinf & _)|(q1 & _ & _ & _ & -> & Tq1)]; [by destruct (hasty_not_inf Γ t Ht lo Tlo)|].
    destruct H2 as [(_ & Hinf & _)|(q2 & _ & _ & _ & -> & Tq2)]; [by destruct (hasty_not_inf Γ t Ht hi Thi)|].
    eexists. split; [reflexivity|]. split; [split; right; by eexists|]. intros ρ x y W Tx Ty Hx Hy X.
    apply (inside_point Γ t Ht ρ) in Hy as Vy; [|done]. destruct (trusted_sign ρ e y W Te Hsign Vy) as [_ Hn]. specialize (Hn En).
    split; simpl.
    - destruct (V2 ρ x y W X Hx Vy) as [Hf'|(q & l & Eq & Hq & Hl)]; [done|]. rewrite Eq. eapply above_val; [exact Hq|nia].
    - destruct (V1 ρ x y W X Hx Vy) as [Hf'|(q & l & Eq & Hq & Hl)]; [done|]. rewrite Eq. eapply below_val; [exact Hq|nia]. }
  destruct (is_bounded same_as a) eqn:Eb; [|exists everything; split; [done|]; split; [apply everything_ok|intros; apply inside_everything]].
  apply (bounded_view Γ t) in Eb as (lo & hi & -> & Tlo & Thi); [|done..]. cbn [i_min i_max deref eref mbind res_bind] in *.
  destruct H1 as [(_ & Hinf & _)|(q1 & _ & _ & _ & -> & Tq1)]; [by destruct (hasty_not_inf Γ t Ht lo Tlo)|].
  destruct H2 as [(_ & Hinf & _)|(q2 & _ & _ & _ & -> & Tq2)]; [by destruct (hasty_not_inf Γ t Ht hi Thi)|].
  assert (Hge : factory GE operator_ge) by (eexists; right; eexists; reflexivity).
  destruct (sign_condition operator_ge GE e Hge eq_refl Te) as (c & Ec & Tc & Vc).
  apply bind_Ok in Ec as (z & -> & Ec). cbn [mbind res_bind]. unfold eref in Ec |- *. rewrite Ec. cbn [mbind res_bind].
  destruct (select_interval_total c (Bin Mul q1 e) (Bin Mul q2 e) Tc Tq1 Tq2) as (i & Ei & Oi & Vi).
  exists i. split; [exact Ei|]. split; [done|]. intros ρ x y W Tx Ty Hx Hy X.
  apply (inside_point Γ t Ht ρ) in Hy as Vy; [|done].
  destruct (V1 ρ x y W X Hx Vy) as [|(q & l & [= <-] & Hq & Hl)]; [done|].
  destruct (V2 ρ x y W X Hx Vy) as [|(q' & u & [= <-] & Hq' & Hu)]; [done|].
  apply (Vi ρ (icmp GE y 0) (l * y) (u * y)); [by apply Vc|done..|]. simpl. destruct (Z.leb_spec 0 y); nia.
Qed.

(** Both operands bounded, and the corners exact: so is the product. *)
Lemma bounded_product ρ la ua lb ub x y : world ρ ->
  hasty Γ t la -> hasty Γ t ua -> hasty Γ t lb -> hasty Γ t ub ->
  inside ρ (mkInterval (eref la) (eref ua)) x -> inside ρ (mkInterval (eref lb) (eref ub)) y ->
  exact_corners ρ (mkInterval (eref la) (eref ua)) (mkInterval (eref lb) (eref ub)) ->
  exists v1 v2 v3 v4, val ρ (Bin Mul la lb) v1 /\ val ρ (Bin Mul la ub) v2 /\ val ρ (Bin Mul ua lb) v3 /\
    val ρ (Bin Mul ua ub) v4 /\ min4 v1 v2 v3 v4 <= x * y <= max4 v1 v2 v3 v4 /\ in_type t (x * y).
Proof.
  intros W Tla Tua Tlb Tub [Hxl Hxu] [Hyl Hyu] (X1 & X2 & X3 & X4). cbn [i_min i_max] in *.
  apply (above_finite Γ t Ht) in Hxl as (a1 & A1 & L1); [|done]. apply (below_finite Γ t Ht) in Hxu as (a2 & A2 & L2); [|done].
  apply (above_finite Γ t Ht) in Hyl as (b1 & B1 & L3); [|done]. apply (below_finite Γ t Ht) in Hyu as (b2 & B2 & L4); [|done].
  assert (P : forall p q v w, hasty Γ t p -> val ρ p v -> val ρ q w -> iop t Mul v w = v * w ->
    val ρ (Bin Mul p q) (v * w) /\ in_type t (v * w)).
  { intros p q v w Tp Hv Hw Hx. rewrite <- Hx. split; [by apply (val_bin Γ t Ht ρ)|]. rewrite mul_iop. apply norm_in_type, std. }
  destruct (P la lb a1 b1 Tla A1 B1 (X1 la lb a1 b1 eq_refl eq_refl A1 B1)) as [V1 T1].
  destruct (P la ub a1 b2 Tla A1 B2 (X2 la ub a1 b2 eq_refl eq_refl A1 B2)) as [V2 T2].
  destruct (P ua lb a2 b1 Tua A2 B1 (X3 ua lb a2 b1 eq_refl eq_refl A2 B1)) as [V3 T3].
  destruct (P ua ub a2 b2 Tua A2 B2 (X4 ua ub a2 b2 eq_refl eq_refl A2 B2)) as [V4 T4].
  pose proof (mul_corners x y a1 a2 b1 b2 (conj L1 L2) (conj L3 L4)) as Hc.
  eexists _, _, _, _. split; [exact V1|]. split; [exact V2|]. split; [exact V3|]. split; [exact V4|]. split; [exact Hc|].
  eapply in_type_between; [..|exact Hc].
  - by destruct (min4_one (a1 * b1) (a1 * b2) (a2 * b1) (a2 * b2)) as [-> | [-> | [-> | ->]]].
  - by destruct (max4_one (a1 * b1) (a1 * b2) (a2 * b1) (a2 * b2)) as [-> | [-> | [-> | ->]]].
Qed.

Lemma mul_ends_total op_a op_b a b : std_int (type (Bin Mul op_a op_b)) -> element_of (type (Bin Mul op_a op_b)) = t ->
  ends_ok Γ t a -> ends_ok Γ t b -> point_safe a b = true ->
  exists i, mul_ends_interval same_as equal (Bin Mul op_a op_b) op_a op_b a b = Ok i /\ ends_ok Γ t i /\
    forall ρ x y, world ρ -> in_type t x -> in_type t y -> inside ρ a x -> inside ρ b y -> exact_corners ρ a b ->
      unbounded t = true \/ is_bounded same_as a && is_bounded same_as b = true -> inside ρ i (norm t (x * y)).
Proof.
  intros Hstd Hel Ha Hb Hsafe. destruct (node_fields Mul op_a op_b Hstd Hel) as (_ & Hui & _ & _).
  assert (Hf : factory Mul operator_mul) by (eexists; right; eexists; reflexivity).
  unfold mul_ends_interval. destruct (is_single_point_of same_as a _ && is_single_point_of same_as b _) eqn:E1.
  { eexists. split; [reflexivity|]. destruct (node_point Mul op_a op_b eq_refl a b 0 0 Ha Hb E1) as (_ & Hok & _).
    split; [done|]. intros ρ x y W _ _ Hx Hy _ _. by apply (node_point Mul op_a op_b eq_refl a b x y Ha Hb E1). }
  destruct (is_single_point same_as a && is_single_point same_as b) eqn:E2.
  { destruct (points Mul eq_refl operator_mul a b Hf Ha Hb E2) as (i & -> & Hi & Hv). exists i. split; [done|]. split; [done|].
    intros ρ x y W _ _ Hx Hy _ _. by apply (Hv ρ). }
  (* the exact product is inside; where it counts it does not overflow *)
  assert (Hfin : forall r, computes_exactly r a b Z.mul (fun ρ => exact_corners ρ a b) ->
    exists i, r = Ok i /\ ends_ok Γ t i /\ forall ρ x y, world ρ -> in_type t x -> in_type t y -> inside ρ a x ->
      inside ρ b y -> exact_corners ρ a b -> unbounded t = true \/ is_bounded same_as a && is_bounded same_as b = true ->
      inside ρ i (norm t (x * y))).
  { intros r (i & -> & Hi & Hv). exists i. split; [done|]. split; [done|]. intros ρ x y W Tx Ty Hx Hy X Hs.
    apply inside_norm; [by apply (Hv ρ)|]. left. destruct Hs as [Hs|Hs]; [by left|].
    apply andb_true_iff in Hs as [Ba Bb]. apply (bounded_view Γ t) in Ba as (la & ua & -> & Tla & Tua); [|done..].
    apply (bounded_view Γ t) in Bb as (lb & ub & -> & Tlb & Tub); [|done..].
    by destruct (bounded_product ρ la ua lb ub x y W) as (? & ? & ? & ? & _ & _ & _ & _ & _ & ?). }
  destruct (is_single_point same_as b) eqn:E3; [by apply Hfin, mul_point_total|].
  destruct (is_bounded same_as a && is_bounded same_as b) eqn:E4; apply Hfin.
  - apply andb_true_iff in E4 as [Ba Bb]. apply (bounded_view Γ t) in Ba as (la & ua & -> & Tla & Tua); [|done..].
    apply (bounded_view Γ t) in Bb as (lb & ub & -> & Tlb & Tub); [|done..]. cbn [i_min i_max].
    destruct (arith_total Γ t Ht Mul operator_mul la lb Hf eq_refl Tla Tlb) as [-> T1].
    destruct (arith_total Γ t Ht Mul operator_mul la ub Hf eq_refl Tla Tub) as [-> T2].
    destruct (arith_total Γ t Ht Mul operator_mul ua lb Hf eq_refl Tua Tlb) as [-> T3].
    destruct (arith_total Γ t Ht Mul operator_mul ua ub Hf eq_refl Tua Tub) as [-> T4].
    destruct (corners_total _ _ _ _ T1 T2 T3 T4) as (i & -> & Hi & Hv). exists i. split; [done|]. split; [done|].
    intros ρ x y W Tx Ty Hx Hy X.
    destruct (bounded_product ρ la ua lb ub x y W) as (v1 & v2 & v3 & v4 & V1 & V2 & V3 & V4 & Hc & _); [done..|].
    by apply (Hv ρ v1 v2 v3 v4).
  - exists everything. split; [done|]. split; [apply everything_ok|]. intros; apply inside_everything.
Qed.

(** [a] and [b] after the swap that moves a point to the right. *)
Definition swapped (a b : Interval) : Interval * Interval :=
  if is_single_point same_as a && negb (is_single_point same_as b) then (b, a) else (a, b).
Definition mul_safe (a b : Interval) : bool :=
  let '(a, b) := swapped a b in (unbounded t || (bits t <? 32)) && point_safe a b.

Lemma mul_test_total p q : hasty Γ t p -> hasty Γ t q -> bits t < 32 ->
  exists e, mul_test (eref p) (eref q) = Ok e /\ hasty Γ (Bool 1) e /\
    forall ρ x y, world ρ -> val ρ p x -> val ρ q y -> val ρ e (Z.b2z (x * y =? iop t Mul x y)).
Proof.
  intros Hp Hq Hn. assert (Hf : factory Mul operator_mul) by (eexists; right; eexists; reflexivity).
  destruct (arith_total Γ t Ht Mul operator_mul p q Hf eq_refl Hp Hq) as [E1 T1].
  destruct (no_overflow_total Γ t Ht Hn Mul operator_mul p q (Bin Mul p q) ltac:(tauto) Hf Hp Hq T1) as (e & E2 & T2 & V2).
  exists e. unfold mul_test. rewrite E1. split; [exact E2|]. split; [done|]. intros ρ x y W Hx Hy.
  apply (V2 ρ x y _ Hx Hy). by apply (val_bin Γ t Ht ρ).
Qed.

(** The four tests prove the corners exact. *)
Lemma mul_tests_total la ua lb ub : hasty Γ t la -> hasty Γ t ua -> hasty Γ t lb -> hasty Γ t ub -> bits t < 32 ->
  exists fits,
    (test1 ← mul_test (eref la) (eref lb); test2 ← mul_test (eref la) (eref ub);
     test3 ← mul_test (eref ua) (eref lb); test4 ← mul_test (eref ua) (eref ub);
     both ← operator_and (eref test1) (eref test2);
     three ← operator_and (eref both) (eref test3);
     can_prove_that simplify (operator_and (eref three) (eref test4))) = Ok fits /\
    (fits = true -> forall ρ x y, world ρ -> inside ρ (mkInterval (eref la) (eref ua)) x ->
      inside ρ (mkInterval (eref lb) (eref ub)) y -> exact_corners ρ (mkInterval (eref la) (eref ua)) (mkInterval (eref lb) (eref ub))).
Proof.
  intros Tla Tua Tlb Tub Hn.
  destruct (mul_test_total la lb Tla Tlb Hn) as (e1 & -> & T1 & V1). destruct (mul_test_total la ub Tla Tub Hn) as (e2 & -> & T2 & V2).
  destruct (mul_test_total ua lb Tua Tlb Hn) as (e3 & -> & T3 & V3). destruct (mul_test_total ua ub Tua Tub Hn) as (e4 & -> & T4 & V4).
  cbn [mbind res_bind]. destruct (and_total Γ e1 e2 T1 T2) as [-> T12]. cbn [mbind res_bind].
  destruct (and_total Γ _ e3 T12 T3) as [-> T13]. cbn [mbind res_bind]. destruct (and_total Γ _ e4 T13 T4) as [E14 T14].
  destruct (proves_total simplify Γ _ _ E14 T14) as (fits & -> & Hfits). exists fits. split; [done|]. intros Hft ρ x y W [Hxl Hxu] [Hyl Hyu].
  cbn [i_min i_max] in *.
  apply (above_finite Γ t Ht) in Hxl as (a1 & A1 & _); [|done]. apply (below_finite Γ t Ht) in Hxu as (a2 & A2 & _); [|done].
  apply (above_finite Γ t Ht) in Hyl as (b1 & B1 & _); [|done]. apply (below_finite Γ t Ht) in Hyu as (b2 & B2 & _); [|done].
  pose proof (Hfits Hft ρ _ W (val_and ρ _ _ _ _ (val_and ρ _ _ _ _ (val_and ρ _ _ _ _ (V1 ρ a1 b1 W A1 B1)
    (V2 ρ a1 b2 W A1 B2)) (V3 ρ a2 b1 W A2 B1)) (V4 ρ a2 b2 W A2 B2))) as Hall.
  rewrite !andb_true_iff, !Z.eqb_eq in Hall. destruct Hall as [[[X1 X2] X3] X4].
  assert (P : forall p q v w, val ρ p v -> val ρ q w -> v * w = iop t Mul v w -> end_exact Mul ρ (eref p) (eref q)).
  { intros p q v w Hv Hw Hx p' q' v' w' [= <-] [= <-] Hv' Hw'.
    pose proof (val_same ρ p v v' Hv Hv') as <-. by pose proof (val_same ρ q w w' Hw Hw') as <-. }
  repeat split; simpl; eauto.
Qed.

Lemma mul_interval_total op_a op_b a b : std_int (type (Bin Mul op_a op_b)) -> element_of (type (Bin Mul op_a op_b)) = t ->
  ends_ok Γ t a -> ends_ok Γ t b -> mul_safe a b = true ->
  transfers (mul_interval same_as equal simplify (Bin Mul op_a op_b) op_a op_b a b) a b Mul.
Proof.
  intros Hstd Hel. revert a b.
  assert (Hord : forall a b, ends_ok Γ t a -> ends_ok Γ t b -> unbounded t || (bits t <? 32) = true -> point_safe a b = true ->
    transfers (i ← mul_ends_interval same_as equal (Bin Mul op_a op_b) op_a op_b a b;
      if (bits (type (Bin Mul op_a op_b)) <? 32) && negb (is_float (type (Bin Mul op_a op_b))) then
        if is_bounded same_as a && is_bounded same_as b then
          test1 ← mul_test (i_min a) (i_min b); test2 ← mul_test (i_min a) (i_max b);
          test3 ← mul_test (i_max a) (i_min b); test4 ← mul_test (i_max a) (i_max b);
          both ← operator_and (eref test1) (eref test2);
          three ← operator_and (eref both) (eref test3);
          fits ← can_prove_that simplify (operator_and (eref three) (eref test4));
          if negb fits then bounds_of_type (type (Bin Mul op_a op_b)) else Ok i
        else bounds_of_type (type (Bin Mul op_a op_b))
      else Ok i) a b Mul).
  { intros a b Ha Hb Hw Hsafe. destruct (node_fields Mul op_a op_b Hstd Hel) as (_ & _ & -> & ->).
    destruct (mul_ends_total op_a op_b a b Hstd Hel Ha Hb Hsafe) as (i & -> & Hi & Hv). cbn [mbind res_bind negb]. rewrite andb_true_r.
    destruct (Z.ltb_spec (bits t) 32) as [Hn|Hn].
    - destruct (is_bounded same_as a && is_bounded same_as b) eqn:Eb; [|by apply type_bounds_transfer].
      pose proof Eb as Hbb. apply andb_true_iff in Eb as [Ba Bb]. apply (bounded_view Γ t) in Ba as (la & ua & -> & Tla & Tua); [|done..].
      apply (bounded_view Γ t) in Bb as (lb & ub & -> & Tlb & Tub); [|done..]. cbn [i_min i_max].
      destruct (mul_tests_total la ua lb ub Tla Tua Tlb Tub Hn) as (fits & Hf & Hfits).
      assert (Heq : forall (r : bool -> res Interval), (test1 ← mul_test (eref la) (eref lb); test2 ← mul_test (eref la) (eref ub);
         test3 ← mul_test (eref ua) (eref lb); test4 ← mul_test (eref ua) (eref ub);
         both ← operator_and (eref test1) (eref test2); three ← operator_and (eref both) (eref test3);
         fits ← can_prove_that simplify (operator_and (eref three) (eref test4)); r fits) = r fits).
      { intros r. do 6 (apply bind_Ok in Hf as (? & -> & Hf); cbn [mbind res_bind]). by rewrite Hf. }
      rewrite Heq. destruct fits; cbn [negb]; [|by apply type_bounds_transfer].
      exists i. split; [done|]. split; [done|]. intros ρ x y W Tx Ty Hx Hy _.
      apply (Hv ρ); try done; [by apply (Hfits eq_refl ρ x y)|by right].
    - rewrite orb_false_r in Hw. exists i. split; [done|]. split; [done|]. intros ρ x y W Tx Ty Hx Hy _.
      apply (Hv ρ); try done; [|by left].
      repeat split; intros ? ? ? ? _ _ _ _; by apply norm_unbounded. }
  intros a b Ha Hb Hsafe. unfold mul_safe, swapped in Hsafe. unfold mul_interval.
  destruct (is_single_point same_as a && negb (is_single_point same_as b)); apply andb_true_iff in Hsafe as [Hw Hsafe].
  - destruct (Hord b a Hb Ha Hw Hsafe) as (i & Ei & Hi & Hv). exists i. split; [exact Ei|]. split; [done|].
    intros ρ x y W Tx Ty Hx Hy Hd. rewrite mul_iop, Z.mul_comm. by apply (Hv ρ y x).
  - exact (Hord a b Ha Hb Hw Hsafe).
Qed.

(** * Quotients *)

Lemma in_type_zero : in_type t 0.
Proof.
  rewrite <- (wrap_type_zero t). right.
  apply wrap_representable; [by apply std_int_bits, std|by apply (std_int_class t std)].
Qed.

(** A quotient only overflows when a negative number divides at a narrow type. *)
Lemma div_exact x y : in_type t x -> unbounded t = true \/ 0 < y -> iop t Div x y = ediv x y.
Proof.
  intros Tx [Hu|Hy]; [by apply norm_unbounded|]. apply norm_id. rewrite ediv_pos by done.
  destruct (Z.le_gt_cases 0 x).
  - apply (in_type_between 0 x); [apply in_type_zero|done|]. split; [by apply Z.div_pos|]. apply Z.div_le_upper_bound; nia.
  - apply (in_type_between x 0); [done|apply in_type_zero|]. split; [apply Z.div_le_lower_bound; nia|].
    apply Z.div_le_upper_bound; lia.
Qed.

Lemma ediv_up y a b : 0 < y -> a <= b -> ediv a y <= ediv b y.
Proof. intros Hy Hab. rewrite !ediv_pos by done. by apply Z.div_le_mono. Qed.
Lemma ediv_down y a b : y < 0 -> a <= b -> ediv b y <= ediv a y.
Proof. intros Hy Hab. rewrite !ediv_neg by done. pose proof (Z.div_le_mono a b (- y)). lia. Qed.

(** The type of the quotient is unsigned or wide, or the divisor is a positive constant;
    its sign can be read; a half-bounded interval is not divided by a negative constant. *)
Definition div_safe (a b : Interval) : bool :=
  negb (is_bounded same_as b) ||
  sign_trusted (i_min b) && sign_trusted (i_max b) &&
  (is_uint t || unbounded t || on_ref is_positive_const (i_min b)) &&
  (is_uint t || negb (on_ref is_negative_const (i_min b)) || is_bounded same_as a).

(** A divisor that is not zero is positive, unless the type is wide. *)
Lemma divisor_sign ρ lb v y : world ρ -> hasty Γ t lb -> sign_trusted (eref lb) = true ->
  is_uint t || unbounded t || is_positive_const lb = true -> in_type t y -> y <> 0 -> val ρ lb v -> v <= y ->
  unbounded t = true \/ 0 < y.
Proof.
  intros W Tl Hs Hc Ty Hy Hv Hvy. rewrite !orb_true_iff in Hc. destruct Hc as [[Hu|Hu]|Hp]; [right|by left|right].
  - pose proof (uint_values y Hu Ty). lia.
  - destruct (trusted_sign ρ lb v W Tl Hs Hv) as [H _]. specialize (H Hp). lia.
Qed.

Lemma div_point_total node a lb ub : is_uint (type node) = is_uint t -> ends_ok Γ t a -> hasty Γ t lb -> hasty Γ t ub ->
  sign_trusted (eref lb) = true -> is_uint t || unbounded t || is_positive_const lb = true ->
  is_uint t || negb (is_negative_const lb) || is_bounded same_as a = true ->
  exists i, div_point_interval same_as node a (mkInterval (eref lb) (eref ub)) = Ok i /\ ends_ok Γ t i /\
    forall ρ x y, world ρ -> in_type t x -> in_type t y -> inside ρ a x -> val ρ lb y -> val ρ ub y -> y <> 0 ->
      inside ρ i (iop t Div x y).
Proof.
  intros Hui Ha Tl Tu Hsign Hc Hneg. assert (Hf : factory Div operator_div) by (eexists; right; eexists; reflexivity).
  unfold div_point_interval. cbn [i_min i_max].
  destruct (scaled_end operator_div Div _ _ _ lb eq_refl Hf (finite_lower a Ha) Tl) as (e1 & -> & H1).
  destruct (scaled_end operator_div Div _ _ _ ub eq_refl Hf (finite_upper a Ha) Tu) as (e2 & -> & H2).
  cbn [mbind res_bind on_ref eref]. rewrite Hui.
  (* the values of the two quotients *)
  assert (V1 : forall ρ x y, world ρ -> in_type t y -> inside ρ a x -> val ρ lb y -> y <> 0 ->
    e1 = neg_inf \/ exists q l, e1 = eref q /\ val ρ q (ediv l y) /\ l <= x).
  { intros ρ x y W Ty [Hx _] Hv Hy.
    destruct (scaled_above Div _ _ _ _ ρ x y eq_refl W Hy H1 Hx Hv) as [|(q & l & -> & _ & Tq & Hq & Hp & Hl)]; [by left|right].
    rewrite div_exact in Hp; [eauto|by apply (val_in_type Γ t Ht ρ q)|].
    by apply (divisor_sign ρ lb y y). }
  assert (V2 : forall ρ x y, world ρ -> in_type t y -> inside ρ a x -> val ρ lb y -> val ρ ub y -> y <> 0 ->
    e2 = pos_inf \/ exists q l, e2 = eref q /\ val ρ q (ediv l y) /\ x <= l).
  { intros ρ x y W Ty [_ Hx] Hvl Hv Hy.
    destruct (scaled_below Div _ _ _ _ ρ x y eq_refl W Hy H2 Hx Hv) as [|(q & l & -> & _ & Tq & Hq & Hp & Hl)]; [by left|right].
    rewrite div_exact in Hp; [eauto|by apply (val_in_type Γ t Ht ρ q)|].
    by apply (divisor_sign ρ lb y y). }
  assert (X : forall ρ x y, world ρ -> in_type t x -> in_type t y -> val ρ lb y -> y <> 0 -> iop t Div x y = ediv x y).
  { intros ρ x y W Tx Ty Hv Hy. apply div_exact; [done|]. by apply (divisor_sign ρ lb y y). }
  assert (L1 : lower_ok Γ t e1) by (destruct H1 as [(_ & _ & ->)|(q & _ & _ & _ & -> & T)]; [by left|right; by eexists]).
  assert (U2 : upper_ok Γ t e2) by (destruct H2 as [(_ & _ & ->)|(q & _ & _ & _ & -> & T)]; [by left|right; by eexists]).
  destruct (is_positive_const lb || is_uint t) eqn:Ep.
  { rewrite (make_ends e1 e2) by done. eexists. split; [reflexivity|]. split; [done|]. intros ρ x y W Tx Ty Hx Hl Hu Hy.
    rewrite (X ρ) by done. assert (0 < y).
    { apply orb_true_iff in Ep as [Ep|Ep]; [by apply (trusted_sign ρ lb y W Tl Hsign Hl)|].
      pose proof (uint_values y Ep Ty). lia. }
    split; simpl.
    - destruct (V1 ρ x y W Ty Hx Hl Hy) as [->|(q & l & -> & Hq & Hlx)]; [by left|]. eapply above_val; [exact Hq|]. by apply ediv_up.
    - destruct (V2 ρ x y W Ty Hx Hl Hu Hy) as [->|(q & l & -> & Hq & Hlx)]; [by left|]. eapply below_val; [exact Hq|]. by apply ediv_up. }
  apply orb_false_iff in Ep as [Ep Eu].
  destruct (is_negative_const lb) eqn:En.
  { rewrite Eu in Hneg. cbn [negb orb] in Hneg. apply (bounded_view Γ t) in Hneg as (lo & hi & -> & Tlo & Thi); [|done..].
    cbn [i_min i_max] in *.
    destruct H1 as [(_ & Hinf & _)|(q1 & _ & _ & _ & -> & Tq1)]; [by destruct (hasty_not_inf Γ t Ht lo Tlo)|].
    destruct H2 as [(_ & Hinf & _)|(q2 & _ & _ & _ & -> & Tq2)]; [by destruct (hasty_not_inf Γ t Ht hi Thi)|].
    eexists. split; [reflexivity|]. split; [split; right; by eexists|]. intros ρ x y W Tx Ty Hx Hl Hu Hy.
    rewrite (X ρ) by done. destruct (trusted_sign ρ lb y W Tl Hsign Hl) as [_ Hn]. specialize (Hn En).
    split; simpl.
    - destruct (V2 ρ x y W Ty Hx Hl Hu Hy) as [|(q & l & [= <-] & Hq & Hlx)]; [done|]. eapply above_val; [exact Hq|]. by apply ediv_down.
    - destruct (V1 ρ x y W Ty Hx Hl Hy) as [|(q & l & [= <-] & Hq & Hlx)]; [done|]. eapply below_val; [exact Hq|]. by apply ediv_down. }
  destruct (is_bounded same_as a) eqn:Eb; [|exists everything; split; [done|]; split; [apply everything_ok|intros; apply inside_everything]].
  apply (bounded_view Γ t) in Eb as (lo & hi & -> & Tlo & Thi); [|done..]. cbn [i_min i_max deref eref mbind res_bind] in *.
  destruct H1 as [(_ & Hinf & _)|(q1 & _ & _ & _ & -> & Tq1)]; [by destruct (hasty_not_inf Γ t Ht lo Tlo)|].
  destruct H2 as [(_ & Hinf & _)|(q2 & _ & _ & _ & -> & Tq2)]; [by destruct (hasty_not_inf Γ t Ht hi Thi)|].
  assert (Hgt : factory GT operator_gt) by (eexists; right; eexists; reflexivity).
  destruct (sign_condition operator_gt GT lb Hgt eq_refl Tl) as (c & Ec & Tc & Vc).
  apply bind_Ok in Ec as (z & -> & Ec). cbn [mbind res_bind]. unfold eref in Ec |- *. rewrite Ec. cbn [mbind res_bind].
  destruct (select_interval_total c (Bin Div q1 lb) (Bin Div q2 ub) Tc Tq1 Tq2) as (i & Ei & Oi & Vi).
  exists i. split; [exact Ei|]. split; [done|]. intros ρ x y W Tx Ty Hx Hl Hu Hy. rewrite (X ρ) by done.
  destruct (V1 ρ x y W Ty Hx Hl Hy) as [|(q & l & [= <-] & Hq & Hlx)]; [done|].
  destruct (V2 ρ x y W Ty Hx Hl Hu Hy) as [|(q' & u & [= <-] & Hq' & Hux)]; [done|].
  apply (Vi ρ (icmp GT y 0) (ediv l y) (ediv u y)); [by apply Vc|done..|]. simpl.
  destruct (Z.ltb_spec 0 y); split; try (apply ediv_up; lia); apply ediv_down; lia.
Qed.

Lemma proved_comparison mk cmp x c : factory cmp mk -> is_comparison cmp = true -> hasty Γ t x ->
  mk (eref x) (eref c) = Ok (Bin cmp x c) -> hasty Γ t c -> (forall ρ, val ρ c 0) ->
  equal (eref (UIntImm (UInt 1 1) 1)) (eref (simplify (Bin cmp x c))) = true ->
  forall ρ v, world ρ -> val ρ x v -> icmp cmp v 0 = true.
Proof.
  intros Hm Hcmp Tx Emk Tc Vc Heq ρ v W Hv.
  destruct (cmp_total Γ t Ht cmp mk x c Hm Hcmp Tx Tc) as [_ Tb].
  pose proof (world_blind _ _ W) as Hb. pose proof (val_cmp ρ cmp x c v 0 Hcmp Hv (Vc ρ)) as He.
  pose proof (simplify_value Γ ρ (Bool 1) _ _ (scalar_std _ scalar_bool) Tb (world_ok _ _ W) He) as Hs.
  destruct (simplify_hasty Γ (Bool 1) _ (scalar_std _ scalar_bool) Tb) as [[Hwf Hty Hu] _].
  rewrite <- (equal_test ρ Hb Ideal (UIntImm (UInt 1 1) 1) _) in Hs; [|done..|by apply usual_plain|done].
  simpl in Hs. by destruct (icmp cmp v 0).
Qed.

Lemma static_sign_total x : hasty Γ t x -> sign_trusted (eref x) = true ->
  exists s, static_sign equal simplify x = Ok s /\
    forall ρ v, world ρ -> val ρ x v -> (s = 1 -> 0 < v) /\ (s = -1 -> v < 0).
Proof.
  intros Tx Hs. unfold static_sign.
  destruct (is_positive_const x) eqn:Ep.
  { exists 1. split; [done|]. intros ρ v W Hv. by destruct (trusted_sign ρ x v W Tx Hs Hv) as [H _]; split; [auto|]. }
  destruct (is_negative_const x) eqn:En.
  { exists (-1). split; [done|]. intros ρ v W Hv. by destruct (trusted_sign ρ x v W Tx Hs Hv) as [_ H]; split; [|auto]. }
  destruct (zero_total Γ t Ht (type x) (hasty_type _ _ _ Tx)) as (z & -> & Tz & Vz). cbn [mbind res_bind].
  assert (Hgt : factory GT operator_gt) by (eexists; right; eexists; reflexivity).
  assert (Hlt : factory LT operator_lt) by (eexists; right; eexists; reflexivity).
  destruct (cmp_total Γ t Ht GT operator_gt x z Hgt eq_refl Tx Tz) as [Eg _]. rewrite Eg. cbn [mbind res_bind].
  change (const_true 1) with (Ok (UIntImm (UInt 1 1) 1)). cbn [mbind res_bind].
  destruct (equal _ _) eqn:E1.
  { exists 1. split; [done|]. intros ρ v W Hv. split; [intros _|done].
    pose proof (proved_comparison operator_gt GT x z Hgt eq_refl Tx Eg Tz Vz E1 ρ v W Hv) as H. by apply Z.ltb_lt in H. }
  destruct (cmp_total Γ t Ht LT operator_lt x z Hlt eq_refl Tx Tz) as [El _]. rewrite El. cbn [mbind res_bind].
  destruct (equal _ (eref (simplify (Bin LT x z)))) eqn:E2.
  { exists (-1). split; [done|]. intros ρ v W Hv. split; [done|intros _].
    pose proof (proved_comparison operator_lt LT x z Hlt eq_refl Tx El Tz Vz E2 ρ v W Hv) as H. by apply Z.ltb_lt in H. }
  exists 0. split; [done|]. by intros.
Qed.

Lemma div_corners_total la ua lb ub : hasty Γ t la -> hasty Γ t ua -> hasty Γ t lb -> hasty Γ t ub ->
  sign_trusted (eref lb) = true -> sign_trusted (eref ub) = true -> is_uint t || unbounded t || is_positive_const lb = true ->
  exists i, div_corners_interval same_as equal simplify (mkInterval (eref la) (eref ua)) (mkInterval (eref lb) (eref ub)) = Ok i /\
    ends_ok Γ t i /\
    forall ρ x y, world ρ -> in_type t x -> in_type t y -> inside ρ (mkInterval (eref la) (eref ua)) x ->
      inside ρ (mkInterval (eref lb) (eref ub)) y -> y <> 0 -> inside ρ i (iop t Div x y).
Proof.
  intros Tla Tua Tlb Tub Hsl Hsu Hc. unfold div_corners_interval. cbn [i_min i_max deref eref mbind res_bind].
  destruct (static_sign_total lb Tlb Hsl) as (s & Es & Hs). destruct (static_sign_total ub Tub Hsu) as (s' & Es' & Hs').
  rewrite Es. cbn [mbind res_bind]. rewrite Es'. cbn [mbind res_bind].
  destruct (negb (s =? s') || (s =? 0) || (s' =? 0)) eqn:Ez; [exists everything; split; [done|]; split; [apply everything_ok|intros; apply inside_everything]|].
  rewrite !orb_false_iff, negb_false_iff, Z.eqb_eq, !Z.eqb_neq in Ez. destruct Ez as [[<- Hs0] _].
  assert (Hone : s = 1 \/ s = -1).
  { clear -Es Hs0. unfold static_sign in Es. repeat case_match; simplify_eq; auto.
    apply bind_Ok in Es as (? & _ & Es). apply bind_Ok in Es as (? & _ & Es). apply bind_Ok in Es as (? & _ & Es).
    case_match; simplify_eq; [auto|]. apply bind_Ok in Es as (? & _ & Es). case_match; simplify_eq; auto. }
  assert (Hf : factory Div operator_div) by (eexists; right; eexists; reflexivity).
  destruct (arith_total Γ t Ht Div operator_div la lb Hf eq_refl Tla Tlb) as [-> T1].
  destruct (arith_total Γ t Ht Div operator_div ua lb Hf eq_refl Tua Tlb) as [-> T2].
  destruct (arith_total Γ t Ht Div operator_div la ub Hf eq_refl Tla Tub) as [-> T3].
  destruct (arith_total Γ t Ht Div operator_div ua ub Hf eq_refl Tua Tub) as [-> T4].
  destruct (corners_total _ _ _ _ T1 T2 T3 T4) as (i & -> & Hi & Hv). exists i. split; [done|]. split; [done|].
  intros ρ x y W Tx Ty [Hxl Hxu] [Hyl Hyu] Hy. cbn [i_min i_max] in *.
  apply (above_finite Γ t Ht) in Hxl as (a1 & A1 & L1); [|done]. apply (below_finite Γ t Ht) in Hxu as (a2 & A2 & L2); [|done].
  apply (above_finite Γ t Ht) in Hyl as (b1 & B1 & L3); [|done]. apply (below_finite Γ t Ht) in Hyu as (b2 & B2 & L4); [|done].
  assert (Hsign : 0 < b1 \/ b2 < 0).
  { destruct (Hs ρ b1 W B1) as [P1 N1], (Hs' ρ b2 W B2) as [P2 N2]. destruct Hone as [-> | ->]; auto. }
  assert (Hwide : unbounded t = true \/ 0 < b1).
  { destruct (divisor_sign ρ lb b1 y W Tlb Hsl Hc Ty Hy B1 L3) as [|]; [by left|]. destruct Hsign; [by right|lia]. }
  assert (P : forall p q v w, hasty Γ t p -> val ρ p v -> val ρ q w -> b1 <= w <= b2 ->
    val ρ (Bin Div p q) (ediv v w)).
  { intros p q v w Tp Hp Hq Hw. rewrite <- div_exact; [|by apply (val_in_type Γ t Ht ρ p)|destruct Hwide; [by left|right; lia]].
    apply (val_bin Γ t Ht ρ); auto. simpl. lia. }
  rewrite div_exact; [|done|destruct Hwide; [by left|right; lia]].
  eapply (Hv ρ _ _ _ _ _ W (P la lb a1 b1 Tla A1 B1 ltac:(lia)) (P ua lb a2 b1 Tua A2 B1 ltac:(lia))
    (P la ub a1 b2 Tla A1 B2 ltac:(lia)) (P ua ub a2 b2 Tua A2 B2 ltac:(lia))).
  rewrite min4_swap, max4_swap. by apply ediv_corners.
Qed.

Lemma div_interval_total op_a op_b a b : std_int (type (Bin Div op_a op_b)) -> element_of (type (Bin Div op_a op_b)) = t ->
  ends_ok Γ t a -> ends_ok Γ t b -> div_safe a b = true ->
  transfers (div_interval same_as equal simplify (Bin Div op_a op_b) op_a op_b a b) a b Div.
Proof.
  intros Hstd Hel Ha Hb Hsafe. destruct (node_fields Div op_a op_b Hstd Hel) as (_ & Hui & _ & _).
  unfold div_interval. unfold div_safe in Hsafe.
  assert (Hev : transfers (Ok everything) a b Div)
    by (exists everything; split; [done|]; split; [apply everything_ok|intros; apply inside_everything]).
  destruct (is_bounded same_as b) eqn:Eb; cbn [negb orb] in *; [|done].
  apply first_point; [done..|].
  apply (bounded_view Γ t) in Eb as (lb & ub & -> & Tlb & Tub); [|done..]. cbn [i_min i_max on_ref eref] in *.
  rewrite !andb_true_iff in Hsafe. destruct Hsafe as [[[Hsl Hsu] Hc] Hneg].
  assert (Heq : factory EQ operator_eq) by (eexists; right; eexists; reflexivity).
  destruct (cmp_total Γ t Ht EQ operator_eq lb ub Heq eq_refl Tlb Tub) as [Ee Te].
  destruct (proves_total simplify Γ _ _ Ee Te) as (one & Eone & Hone). unfold eref in *. rewrite Eone. cbn [mbind res_bind].
  destruct one.
  - destruct (div_point_total (Bin Div op_a op_b) a lb ub Hui Ha Tlb Tub Hsl Hc Hneg) as (i & Ei & Hi & Hv).
    exists i. split; [exact Ei|]. split; [done|]. intros ρ x y W Tx Ty Hx [Hyl Hyu] Hd. cbn [i_min i_max] in *.
    apply (above_finite Γ t Ht) in Hyl as (b1 & B1 & L3); [|done]. apply (below_finite Γ t Ht) in Hyu as (b2 & B2 & L4); [|done].
    pose proof (Hone eq_refl ρ _ W (val_cmp ρ EQ lb ub b1 b2 eq_refl B1 B2)) as H. apply Z.eqb_eq in H as <-.
    assert (y = b1) as -> by lia. by apply (Hv ρ).
  - destruct (is_bounded same_as a) eqn:Ea; [|done].
    apply (bounded_view Γ t) in Ea as (la & ua & -> & Tla & Tua); [|done..].
    destruct (div_corners_total la ua lb ub Tla Tua Tlb Tub Hsl Hsu Hc) as (i & Ei & Hi & Hv).
    exists i. split; [exact Ei|]. split; [done|]. intros ρ x y W Tx Ty Hx Hy Hd. by apply (Hv ρ).
Qed.
End Arith.
