(* ===== verification/BoundsNodes.v ===== *)
(** Bounds inference on the other nodes of src/src/Bounds.cpp: remainders, extrema, casts
    and selections, each with the condition under which its interval contains the values. *)

From Stdlib Require Import ZArith Lia Bool SpecFloat String Ascii.
From stdpp Require Import prelude strings gmap.
From S2P Require Import Prelude Types IR Semantics Scope Operators Mutator Substitute Equality EqualityMeaning ExprUsesVar Interval ConstBounds Monotonic Lanes Conditions Simplify SimplifyRules Bounds BoundsOps BoundsArith.

#[local] Open Scope Z_scope.
#[local] Open Scope halide_scope.

Section Nodes.
Context (same_as equal : ExprRef -> ExprRef -> bool) (simplify : Expr -> Expr) `{!Simplifier simplify}.
Hypothesis same_as_sound : forall a b, same_as a b = true -> a = b.
Hypothesis same_as_refl : forall a, same_as a a = true.
Context (Γ : gmap string Ty).
Hypothesis equal_test : forall ρ, handle_blind ρ -> EqualityTest Γ ρ equal.
Context (t : Ty) (Ht : scalar_int t).

Notation std := (scalar_std _ Ht).
Notation world := (world Γ).
Notation transfers r a b op :=
  (promises Γ t r (fun ρ => inside ρ a) (fun ρ => inside ρ b) (iop t op) (defd op)).

Ltac library lem := apply (lem same_as equal simplify _ same_as_sound same_as_refl Γ equal_test t Ht).

(** * Remainders *)

(** The divisor is bounded, and unsigned or between positive constants; or both operands
    are points, the divisor not the constant 0, which [operator%] refuses; or nothing is
    known of the divisor. *)
Definition mod_safe (a b : Interval) : bool :=
  if is_bounded same_as b then
    if is_single_point same_as a && is_single_point same_as b then negb (on_ref is_zero (i_min b))
    else is_uint t || on_ref is_positive_const (i_min b) && sign_trusted (i_min b)
  else two_sided same_as b.

(** The visit: a divisor that is not bounded is what is left in [interval]. *)
Definition mod_result (op op_a op_b : Expr) (a b : Interval) : res Interval :=
  if negb (is_bounded same_as b) then Ok b else mod_interval same_as op op_a op_b a b.

Lemma emod_inside x y : in_type t y -> 0 < y -> iop t Mod x y = emod x y /\ 0 <= emod x y < y.
Proof.
  intros Ty Hy. destruct (ediv_emod x y ltac:(lia)) as [_ Hm].
  assert (0 <= emod x y < y) by lia. split; [|done]. apply norm_id.
  apply (in_type_between t Ht 0 y); [by apply in_type_zero|done|lia].
Qed.

Lemma unbounded_everything i : ends_ok Γ t i -> is_bounded same_as i = false -> two_sided same_as i = true -> i = everything.
Proof.
  intros Hi Hb Ht2. apply Bool.eqb_prop in Ht2. unfold is_bounded in Hb.
  destruct (lower_view Γ t Ht same_as same_as_sound same_as_refl i Hi) as [[F1 E1]|(e & F1 & E1 & _)];
  destruct (upper_view Γ t Ht same_as same_as_sound same_as_refl i Hi) as [[F2 E2]|(e' & F2 & E2 & _)];
    rewrite F1, F2 in *; try done.
  destruct i. simpl in *. by subst.
Qed.

(** The interval of remainders by a positive number: from 0 to the greatest divisor less 1. *)
Lemma mod_range_total u lb ub : type_eqb u t = true -> hasty Γ t lb -> hasty Γ t ub ->
  exists i, (zero ← make_zero u; one ← make_one u; hi ← operator_sub (eref ub) (eref one); Interval_make (eref zero) (eref hi)) = Ok i /\
    ends_ok Γ t i /\
    forall ρ x y, world ρ -> in_type t y -> 0 < y -> inside ρ (mkInterval (eref lb) (eref ub)) y -> inside ρ i (iop t Mod x y).
Proof.
  intros Hu Tl Tu. destruct (zero_total Γ t Ht u Hu) as (z & -> & Tz & Vz). cbn [mbind res_bind].
  unfold make_one. destruct (const_total Γ t Ht u 1 Hu) as (o & -> & To & Vo). cbn [mbind res_bind].
  assert (Hf : factory Sub operator_sub) by (eexists; right; eexists; reflexivity).
  destruct (arith_total Γ t Ht Sub operator_sub ub o Hf eq_refl Tu To) as [-> Ts].
  eexists. split; [reflexivity|]. split; [split; right; by eexists|].
  intros ρ x y W Ty Hy [_ Hyu]. apply (below_finite Γ t Ht) in Hyu as (v & Hv & Hyv); [|done].
  destruct (emod_inside x y Ty Hy) as [-> Hm].
  assert (Tv : in_type t v) by exact (val_in_type Γ t Ht ρ ub v W Tu Hv).
  assert (H1 : in_type t 1) by (apply (in_type_between t Ht 0 y); [by apply in_type_zero|done|lia]).
  assert (Hw : wrap_type t 1 = 1).
  { apply wrap_type_one; [apply std_int_bits, Ht|]. destruct (std_int_width t std) as [[-> Hw]|[Hu' _]].
    - apply int_width_ge in Hw. apply Z.eqb_neq. lia.
    - by rewrite (uint_not_int t Hu'). }
  pose proof (Vo ρ) as Ho. rewrite Hw in Ho.
  pose proof (val_bin Γ t Ht ρ Sub ub o v 1 eq_refl Tu Hv Ho I) as Hs.
  change (iop t Sub v 1) with (norm t (v - 1)) in Hs.
  rewrite norm_id in Hs by (apply (in_type_between t Ht 0 v); [by apply in_type_zero|done|lia]).
  split; simpl; [eapply above_val; [apply Vz|lia]|eapply below_val; [exact Hs|lia]].
Qed.

Lemma mod_interval_total op_a op_b a b : std_int (type (Bin Mod op_a op_b)) -> element_of (type (Bin Mod op_a op_b)) = t ->
  ends_ok Γ t a -> ends_ok Γ t b -> mod_safe a b = true ->
  transfers (mod_result (Bin Mod op_a op_b) op_a op_b a b) a b Mod.
Proof.
  intros Hstd Hel Ha Hb Hsafe. unfold mod_result, mod_safe in *. destruct (is_bounded same_as b) eqn:Eb; cbn [negb].
  2: { exists b. split; [done|]. split; [done|]. rewrite (unbounded_everything b) by done. intros; apply inside_everything. }
  unfold mod_interval. eapply first_point; [done..|]. rewrite Hel.
  destruct (is_single_point same_as a && is_single_point same_as b) eqn:Ep.
  { assert (Hf : factory Mod (operator_ee Mod_make "operator%")) by (eexists; right; eexists; reflexivity).
    destruct (points same_as same_as_sound Γ t Ht Mod eq_refl (operator_ee Mod_make "operator%") a b Hf Ha Hb Ep)
      as (i & Ei & Hi & Hv). exists i. split; [|split; [done|intros ρ x y W _ _; by apply Hv]].
    rewrite <- Ei. f_equal. apply andb_true_iff in Ep as [E1 E2]. apply negb_true_iff in Hsafe.
    apply (single_view Γ t) in E1 as (p & -> & _); [|done..]. apply (single_view Γ t) in E2 as (q & -> & _); [|done..].
    simpl in Hsafe. unfold operator_mod. simpl. by rewrite Hsafe. }
  apply (bounded_view Γ t) in Eb as (lb & ub & -> & Tlb & Tub); [|done..]. cbn [i_min i_max deref eref mbind res_bind on_ref] in *.
  destruct (type_eqb_classes _ _ (hasty_type _ _ _ Tub)) as (Hi & Hu & _). rewrite Hi, Hu.
  destruct (mod_range_total t lb ub (type_eqb_refl t) Tlb Tub) as (i & Ei & Oi & Vi).
  assert (Hres : is_uint t || is_int t && is_positive_const lb = true).
  { destruct (std_int_width t std) as [[-> _]|[-> _]]; [|done]. simpl.
    apply orb_true_iff in Hsafe as [->|Hs]; [done|]. apply andb_true_iff in Hs as [-> _]. by rewrite orb_true_r. }
  unfold eref in *. apply bind_Ok in Ei as (z & -> & Ei). cbn [mbind res_bind]. rewrite Hres.
  exists i. split; [exact Ei|]. split; [done|]. intros ρ x y W Tx Ty Hx Hy Hd. apply Vi; try done.
  apply orb_true_iff in Hsafe as [Hs|Hs]; [pose proof (uint_values t y Hs Ty); simpl in Hd; lia|].
  apply andb_true_iff in Hs as [Hp Hs]. destruct Hy as [Hyl _]. cbn [i_min] in Hyl.
  apply (above_finite Γ t Ht) in Hyl as (l & Hl & Hly); [|done].
  destruct (trusted_sign Γ t ρ lb l W Tlb Hs Hl) as [H _]. specialize (H Hp). lia.
Qed.

(** * Minima and maxima *)

Lemma extremum_interval_total op op_a op_b lo hi a b : arith op = true ->
  ends_ok Γ t a -> ends_ok Γ t b ->
  (exists r, lo = Ok r /\ lower_ok Γ t r /\
     forall ρ x y, world ρ -> above ρ (i_min a) x -> above ρ (i_min b) y -> above ρ r (iop t op x y)) ->
  (exists r, hi = Ok r /\ upper_ok Γ t r /\
     forall ρ x y, world ρ -> below ρ (i_max a) x -> below ρ (i_max b) y -> below ρ r (iop t op x y)) ->
  transfers (if is_single_point_of same_as a (eref op_a) && is_single_point_of same_as b (eref op_b)
             then single_point (eref (Bin op op_a op_b))
             else lo ← lo; hi ← hi; Interval_make lo hi) a b op.
Proof.
  intros Hop Ha Hb (l & -> & Hl & Vl) (h & -> & Hh & Vh). eapply first_point; [done..|]. cbn [mbind res_bind].
  rewrite (make_ends Γ t l h) by done. eexists. split; [reflexivity|]. split; [by split|].
  intros ρ x y W _ _ [Hxl Hxu] [Hyl Hyu] _. split; simpl; auto.
Qed.

Lemma min_interval_total op_a op_b a b : ends_ok Γ t a -> ends_ok Γ t b ->
  transfers (min_interval same_as equal (Bin Min op_a op_b) op_a op_b a b) a b Min.
Proof.
  intros Ha Hb. unfold min_interval. pose proof Ha as [Hal Hau]. pose proof Hb as [Hbl Hbu].
  destruct (make_min_lower Γ t Ht same_as same_as_sound same_as_refl equal equal_test _ _ Hal Hbl) as (l & El & Ol & Vl).
  destruct (make_min_upper Γ t Ht same_as same_as_sound same_as_refl equal equal_test _ _ Hau Hbu) as (h & Eh & Oh & Vh).
  apply extremum_interval_total; [done..|exists l|exists h]; (split; [done|]); (split; [done|]); intros ρ x y W Hx Hy.
  - apply (Vl ρ x y); [done..|]. simpl. lia.
  - apply (Vh ρ x y); [done..|]. simpl. lia.
Qed.

Lemma max_interval_total op_a op_b a b : ends_ok Γ t a -> ends_ok Γ t b ->
  transfers (max_interval same_as equal (Bin Max op_a op_b) op_a op_b a b) a b Max.
Proof.
  intros Ha Hb. unfold max_interval. pose proof Ha as [Hal Hau]. pose proof Hb as [Hbl Hbu].
  destruct (make_max_lower Γ t Ht same_as same_as_sound same_as_refl equal equal_test _ _ Hal Hbl) as (l & El & Ol & Vl).
  destruct (make_max_upper Γ t Ht same_as same_as_sound same_as_refl equal equal_test _ _ Hau Hbu) as (h & Eh & Oh & Vh).
  apply extremum_interval_total; [done..|exists l|exists h]; (split; [done|]); (split; [done|]); intros ρ x y W Hx Hy.
  - apply (Vl ρ x y); [done..|]. simpl. lia.
  - apply (Vh ρ x y); [done..|]. simpl. lia.
Qed.
End Nodes.

#[global] Instance std_int_dec t : Decision (std_int t).
Proof. unfold std_int. apply _. Defined.

(** * Casts *)

(** The casts [find_constant_bound] looks through hold the values of their operands. *)
Fixpoint bound_readable (e : Expr) : bool :=
  is_const e ||
  match e with
  | Bin (Min | Max) x y => bound_readable x && bound_readable y
  | Cast t value =>
      can_represent t (type value) && bool_decide (std_int t) && bool_decide (std_int (type value)) && bound_readable value
  | _ => true
  end.

Section Casts.
Context (simplify : Expr -> Expr) `{!Simplifier simplify}.
Context (Γ : gmap string Ty).

Notation world := (world Γ).

Lemma val_simplify t ρ e z : scalar_int t -> world ρ -> hasty Γ t e -> val ρ e z -> val ρ (simplify e) z.
Proof. intros Ht W He Hz. exact (simplify_value Γ ρ t e _ (scalar_std _ Ht) He (world_ok _ _ W) Hz). Qed.

Lemma val_bin_inv t ρ op a b z : scalar_int t -> world ρ -> arith op = true -> hasty Γ t a -> hasty Γ t b -> val ρ (Bin op a b) z ->
  exists x y, val ρ a x /\ val ρ b y /\ z = iop t op x y.
Proof.
  intros Ht W Hop Ha Hb Hz.
  destruct (den_bin_inv Γ ρ (world_ok _ _ W) t (scalar_std _ Ht) op a b _ Hop Ha Hb Hz) as (f & g & Hf & Hg & _ & Hv).
  rewrite scalar_nlanes in Hv by done. injection Hv as ->.
  exists (f 0%nat), (g 0%nat). split; [by apply (den_val t Ht)|]. split; [by apply (den_val t Ht)|done].
Qed.

(** [c] bounds [e] on the side of [d]. *)
Definition constant_bound (t : Ty) (e : Expr) (d : Direction) (c : Expr) : Prop :=
  hasty Γ t c /\ forall ρ v, world ρ -> val ρ e v ->
    exists w, val ρ c w /\ match d with Lower => w <= v | Upper => v <= w end.

Section Extremum.
Context (t : Ty) (Ht : scalar_int t) (op : binop) (Hop : minmax op) (d : Direction) (x y : Expr).
Context (Hx : hasty Γ t x) (Hy : hasty Γ t y).

Lemma extremum_value ρ v : world ρ -> val ρ (Bin op x y) v -> exists vx vy, val ρ x vx /\ val ρ y vy /\ v = iop t op vx vy.
Proof. intros W Hv. apply (val_bin_inv t ρ op x y v Ht W); [by destruct Hop as [-> | ->]|done..]. Qed.

Lemma constant_both nm a b : constant_bound t x d a -> constant_bound t y d b ->
  exists m, binary_make op nm (eref a) (eref b) = Ok m /\ constant_bound t (Bin op x y) d (simplify m).
Proof.
  intros [Ta Va] [Tb Vb]. assert (Har : arith op = true) by (by destruct Hop as [-> | ->]).
  assert (Hf : factory op (binary_make op nm)) by (eexists; left; reflexivity).
  destruct (arith_total Γ t Ht op _ a b Hf Har Ta Tb) as [-> Tm]. eexists. split; [reflexivity|].
  split; [by apply simplify_hasty; [apply Ht|]|]. intros ρ v W Hv.
  destruct (extremum_value ρ v W Hv) as (vx & vy & Hvx & Hvy & ->).
  destruct (Va ρ vx W Hvx) as (wa & Hwa & La), (Vb ρ vy W Hvy) as (wb & Hwb & Lb).
  exists (iop t op wa wb). split.
  - apply (val_simplify t); [done..|]. apply (val_bin Γ t Ht ρ); auto. by destruct Hop as [-> | ->].
  - destruct Hop as [-> | ->], d; simpl; lia.
Qed.

Lemma constant_one a : (op = Min /\ d = Upper \/ op = Max /\ d = Lower) ->
  constant_bound t x d a \/ constant_bound t y d a -> constant_bound t (Bin op x y) d a.
Proof.
  intros Hd Ha. split; [by destruct Ha as [[]|[]]|]. intros ρ v W Hv.
  destruct (extremum_value ρ v W Hv) as (vx & vy & Hvx & Hvy & ->).
  destruct Ha as [[_ Va]|[_ Va]]; [destruct (Va ρ vx W Hvx) as (w & Hw & L)|destruct (Va ρ vy W Hvy) as (w & Hw & L)];
    exists w; (split; [done|]); destruct Hd as [[-> ->]|[-> ->]]; simpl in *; lia.
Qed.
End Extremum.

Lemma constant_cast t u v d c : scalar_int t -> scalar_int u -> hasty Γ u v -> can_represent t (type v) = true -> constant_bound u v d c ->
  exists m, Cast_make t (eref c) = Ok m /\ constant_bound t (Cast t v) d (simplify m).
Proof.
  intros Ht Hu Tv Hcr [Tc Vc]. destruct (cast_node_total Γ t u Ht Hu c Tc) as (-> & Tm & Vm). eexists. split; [reflexivity|].
  destruct (cast_node_total Γ t u Ht Hu v Tv) as (_ & _ & Vv).
  pose proof (hasty_fields Γ u (scalar_std _ Hu) v Tv) as (Hc1 & Hb1 & Hl1). rewrite (can_represent_fields_r t (type v) u) in Hcr by done.
  split; [by apply simplify_hasty; [apply Ht|]|]. intros ρ z W Hz.
  pose proof Hz as He. unfold val in He. cbn [eval] in He. apply bind_Some in He as (vs & Hvs & _).
  destruct (den_intro Γ ρ (world_ok _ _ W) u (scalar_std _ Hu) v vs Tv Hvs) as (f & Hf & _). apply (den_val u Hu) in Hf.
  pose proof (val_same ρ (Cast t v) z _ Hz (Vv ρ _ Hf)) as ->.
  destruct (Vc ρ _ W Hf) as (w & Hw & L). exists (cast_value t u w). split; [by apply (val_simplify t); [..|apply Vm]|].
  unfold cast_value. by rewrite Hcr.
Qed.

Lemma find_constant_bound_total e d : forall t, scalar_int t -> hasty Γ t e -> bound_readable e = true ->
  exists r, find_constant_bound simplify e d = Ok r /\ forall c, r = Some c -> constant_bound t e d c.
Proof.
  assert (Hself : forall t e, hasty Γ t e -> constant_bound t e d e).
  { intros t e' He. split; [done|]. intros ρ v W Hv. exists v. split; [done|]. destruct d; lia. }
  induction e using Expr_ind'; intros t' Ht' He Hr; cbn [find_constant_bound];
    (destruct (is_const _) eqn:Ec; [eexists; split; [reflexivity|]; intros c [= <-]; by apply Hself|]);
    cbn [bound_readable] in Hr; rewrite ?Ec in Hr; cbn [orb] in Hr; try (eexists; split; [reflexivity|done]).
  - (* Cast *)
    rewrite !andb_true_iff, !bool_decide_eq_true in Hr. destruct Hr as [[[Hcr Hst] Hsv] Hr].
    pose proof (proj1 (type_eqb_std t' (scalar_std _ Ht') _) (hasty_type _ _ _ He)) as (_ & _ & Hl). simpl in Hl.
    destruct He as [[[Hl2 Hwf] [Htt Hty] Hu] Hte]. simpl in Hu. apply andb_true_iff in Hu as [_ Hu].
    rewrite (scalar_lanes _ Ht') in Hl. assert (Ht : scalar_int t) by by split.
    assert (Hsc : scalar_int (type e)) by (split; [done|congruence]).
    assert (Tv : hasty Γ (type e) e) by (split; [by split|apply type_eqb_refl]).
    destruct (IHe (type e) Hsc Tv Hr) as (r & -> & Hc). cbn [mbind res_bind]. destruct r as [c|]; [|by eexists].
    destruct (constant_cast t (type e) e d c Ht Hsc Tv Hcr (Hc c eq_refl)) as (m & -> & Tm & Vm).
    eexists. split; [reflexivity|]. intros c' [= <-]. split; [|done]. split; [apply Tm|].
    apply (type_eqb_std t' (scalar_std _ Ht')). pose proof (hasty_fields Γ t Hst _ Tm) as (H1 & H2 & H3).
    apply (type_eqb_std t' (scalar_std _ Ht')) in Hte as (H4 & H5 & H6). simpl in *. by rewrite H1, H2, H3.
  - (* Min, Max *)
    destruct op; try (eexists; split; [reflexivity|done]).
    all: apply andb_true_iff in Hr as [Hr1 Hr2].
    all: apply (hasty_bin Γ t' (scalar_std _ Ht')) in He as [T1 T2]; [|done].
    all: destruct (IHe1 t' Ht' T1 Hr1) as (r1 & -> & C1); destruct (IHe2 t' Ht' T2 Hr2) as (r2 & -> & C2); cbn [mbind res_bind].
    + assert (Hm : minmax Min) by (by right). destruct r1 as [a|], r2 as [b|]; [|destruct d..|by eexists]; try (by eexists).
      * destruct (constant_both t' Ht' Min Hm d e1 e2 T1 T2 "Min" a b (C1 _ eq_refl) (C2 _ eq_refl)) as (m & Em & Cm).
        unfold Min_make. rewrite Em. eexists. split; [reflexivity|]. by intros c [= <-].
      * eexists. split; [reflexivity|]. intros c [= <-]. apply (constant_one t'); auto.
      * eexists. split; [reflexivity|]. intros c [= <-]. apply (constant_one t'); auto.
    + assert (Hm : minmax Max) by (by left). destruct r1 as [a|], r2 as [b|]; [|destruct d..|by eexists]; try (by eexists).
      * destruct (constant_both t' Ht' Max Hm d e1 e2 T1 T2 "Max" a b (C1 _ eq_refl) (C2 _ eq_refl)) as (m & Em & Cm).
        unfold Max_make. rewrite Em. eexists. split; [reflexivity|]. by intros c [= <-].
      * eexists. split; [reflexivity|]. intros c [= <-]. apply (constant_one t'); auto.
      * eexists. split; [reflexivity|]. intros c [= <-]. apply (constant_one t'); auto.
Qed.
End Casts.

Section CastInterval.
Context (same_as equal : ExprRef -> ExprRef -> bool) (simplify : Expr -> Expr) `{!Simplifier simplify}.
Hypothesis same_as_sound : forall a b, same_as a b = true -> a = b.
Hypothesis same_as_refl : forall a, same_as a a = true.
Context (Γ : gmap string Ty).
Context (to from : Ty) (Hto : scalar_int to) (Hfrom : scalar_int from).

Notation world := (world Γ).
Notation cast_value := (cast_value to from).

(** Numbers between two that a cast keeps are kept. *)
Lemma cast_between l u x : cast_value l = l -> cast_value u = u -> l <= x <= u -> cast_value x = x.
Proof.
  unfold BoundsOps.cast_value. destruct (can_represent to from); [done|]. intros Hl Hu Hx. apply representable_wrap.
  pose proof (std_int_class to (scalar_std _ Hto)) as (Hc & _).
  assert (Hr : forall z, representable to (wrap_type to z) = true)
    by (intros z; apply wrap_representable; [by apply std_int_bits, Hto|done]).
  pose proof (Hr l) as R1. pose proof (Hr u) as R2. rewrite Hl in R1. rewrite Hu in R2.
  unfold representable in *. destruct (is_int to); simpl in Hc.
  - apply bool_decide_eq_true in R1, R2. apply bool_decide_eq_true. unfold in_srange in *. lia.
  - rewrite Hc in *. apply bool_decide_eq_true in R1, R2. apply bool_decide_eq_true. unfold in_urange in *. lia.
Qed.

(** A cast keeps the values of both ends of [i], which are finite. *)
Definition ends_kept (i : Interval) : Prop :=
  exists lo hi, i = mkInterval (eref lo) (eref hi) /\ hasty Γ from lo /\ hasty Γ from hi /\
    forall ρ l u, world ρ -> val ρ lo l -> val ρ hi u -> cast_value l = l /\ cast_value u = u.

Lemma cast_end_total p : hasty Γ from p ->
  exists c, Cast_make to (eref p) = Ok c /\ hasty Γ to c /\ forall ρ x, val ρ p x -> val ρ c (cast_value x).
Proof.
  intros Hp. destruct (cast_node_total Γ to from Hto Hfrom p Hp) as (E & T & V). exists (Cast to p). auto.
Qed.

(** What [cast_ends] starts from. *)
Lemma merged_total a i : ends_ok Γ from a -> ends_ok Γ from i ->
  let j := if has_lower_bound same_as a then mkInterval (i_min a) (i_max i) else i in
  let j := if has_upper_bound same_as a then mkInterval (i_min j) (i_max a) else j in
  ends_ok Γ from j /\ (forall ρ x, inside ρ a x -> inside ρ i x -> inside ρ j x) /\
  (is_bounded same_as a = true -> j = a).
Proof.
  intros [La Ua] [Li Ui]. unfold is_bounded. destruct a, i.
  destruct (has_lower_bound same_as _), (has_upper_bound same_as _); simpl in *; (split; [by split|]);
    (split; [intros ρ x [] []; by split|done]).
Qed.

Lemma unbounded_represent : can_represent to from = true -> unbounded from = true -> unbounded to = true.
Proof.
  unfold can_represent, unbounded. rewrite (scalar_lanes _ Hto), (scalar_lanes _ Hfrom). cbn [Z.eqb negb].
  intros Hc Hu. apply andb_true_iff in Hu as [Hi Hb]. apply Z.leb_le in Hb.
  pose proof (std_int_class to (scalar_std _ Hto)) as (Ht & _).
  assert (is_uint from = false) as Hfu by (destruct (is_uint from) eqn:E; [by rewrite (uint_not_int from E) in Hi|done]).
  rewrite Hfu in Hc. simpl in Hc. destruct (is_int to); simpl in *.
  - rewrite orb_false_r in Hc. apply andb_true_iff in Hc as [_ Hc]. apply Z.leb_le in Hc. apply Z.leb_le. lia.
  - by rewrite Ht in Hc.
Qed.

(** The tests of an interval whose ends need not have one type. *)
Lemma upper_test t m M : scalar_int t -> m <> pos_inf -> upper_ok Γ t M ->
  (has_upper_bound same_as (mkInterval m M) = false /\ M = pos_inf) \/
  (exists q, has_upper_bound same_as (mkInterval m M) = true /\ M = eref q /\ hasty Γ t q).
Proof.
  intros Ht Hm HM. unfold has_upper_bound, is_empty. cbn [i_min i_max].
  rewrite (same_as_ne same_as same_as_sound m pos_inf Hm). destruct HM as [->|(q & -> & Tq)].
  - left. by rewrite same_as_refl.
  - right. exists q. destruct (hasty_not_inf Γ t Ht q Tq). by rewrite !same_as_ne.
Qed.

(** What is known of the ends of the interval that is cast. *)
Definition castable (j : Interval) : Prop := forall ρ x, world ρ -> inside ρ j x -> cast_value x = x /\
  (forall p l, i_min j = eref p -> val ρ p l -> cast_value l = l) /\
  (forall q u, i_max j = eref q -> val ρ q u -> cast_value u = u).

Lemma castable_represent j : can_represent to from = true -> castable j.
Proof. intros Hcr ρ x W _. unfold BoundsOps.cast_value. by rewrite Hcr. Qed.

Lemma castable_kept j : ends_kept j -> castable j.
Proof.
  intros (lo & hi & -> & Tl & Th & Hk) ρ x W [Hl Hu]. cbn [i_min i_max] in *.
  apply (above_finite Γ from Hfrom) in Hl as (l & Hl & Lx); [|done]. apply (below_finite Γ from Hfrom) in Hu as (u & Hu & Ux); [|done].
  destruct (Hk ρ l u W Hl Hu) as [Kl Ku]. split; [by apply (cast_between l u)|].
  split; intros p v [= <-] Hv; [by rewrite (val_same ρ _ _ _ Hv Hl)|by rewrite (val_same ρ _ _ _ Hv Hu)].
Qed.

Lemma cast_both_total j : ends_ok Γ from j -> castable j ->
  exists i, (i ← (if has_lower_bound same_as j then lo ← Cast_make to (i_min j); Ok (mkInterval (eref lo) (i_max j)) else Ok j);
             if has_upper_bound same_as i then hi ← Cast_make to (i_max i); Ok (mkInterval (i_min i) (eref hi)) else Ok i) = Ok i /\
    ends_ok Γ to i /\ forall ρ x, world ρ -> inside ρ j x -> inside ρ i (cast_value x).
Proof.
  intros Hj Hk.
  assert (Hlow : exists lo, (if has_lower_bound same_as j then lo ← Cast_make to (i_min j); Ok (mkInterval (eref lo) (i_max j)) else Ok j)
    = Ok (mkInterval lo (i_max j)) /\ lower_ok Γ to lo /\ forall ρ x, world ρ -> inside ρ j x -> above ρ lo x).
  { destruct (lower_view Γ from Hfrom same_as same_as_sound same_as_refl j Hj) as [[-> Em]|(p & -> & Em & Tp)].
    - exists neg_inf. split; [destruct j; simpl in *; by subst|]. split; [by left|]. intros; by left.
    - rewrite Em. destruct (cast_end_total p Tp) as (c & -> & Tc & Vc). exists (eref c). split; [done|]. split; [right; by exists c|].
      intros ρ x W Hx. destruct (Hk ρ x W Hx) as (_ & Kl & _). destruct Hx as [Hl _]. rewrite Em in Hl.
      apply (above_finite Γ from Hfrom) in Hl as (l & Hl & Lx); [|done]. eapply above_val; [by apply Vc|]. by rewrite (Kl p l). }
  destruct Hlow as (lo & -> & Ol & Vl). cbn [mbind res_bind].
  assert (Hne : lo <> pos_inf) by (destruct Ol as [->|(c & -> & Tc)]; [done|by apply (hasty_not_inf Γ to Hto)]).
  destruct (upper_test from lo (i_max j) Hfrom Hne (proj2 Hj)) as [[-> EM]|(q & -> & EM & Tq)].
  - eexists. split; [reflexivity|]. split; [split; [done|by left]|]. intros ρ x W Hx.
    destruct (Hk ρ x W Hx) as (-> & _). split; [by apply Vl|]. by left.
  - cbn [i_max i_min]. rewrite EM. destruct (cast_end_total q Tq) as (c & -> & Tc & Vc). eexists. split; [reflexivity|].
    split; [split; [done|right; by exists c]|]. intros ρ x W Hx. destruct (Hk ρ x W Hx) as (-> & _ & Ku).
    split; [by apply Vl|]. destruct Hx as [_ Hu]. rewrite EM in Hu.
    apply (below_finite Γ from Hfrom) in Hu as (u & Hu & Ux); [|done]. simpl. eapply below_val; [by apply Vc|]. by rewrite (Ku q u).
Qed.

Lemma cast_ends_total a : ends_ok Γ from a -> can_represent to from = true \/ ends_kept a ->
  exists i, cast_ends same_as to from a = Ok i /\ ends_ok Γ to i /\
    forall ρ x, world ρ -> in_type from x -> inside ρ a x -> inside ρ i (cast_value x).
Proof.
  intros Ha Hk. unfold cast_ends.
  destruct (bounds_of_type_total Γ from Hfrom from (scalar_std _ Hfrom) (scalar_element_id _ Hfrom)) as (i0 & -> & H0 & V0).
  cbn [mbind res_bind]. pose proof (merged_total a i0 Ha H0) as Hm. cbn zeta in Hm.
  set (j := if has_upper_bound same_as a then _ else _) in *. destruct Hm as (Hj & Vj & Hb).
  assert (Hc : castable j).
  { destruct Hk as [Hcr|Hk]; [by apply castable_represent|]. rewrite Hb; [by apply castable_kept|].
    destruct Hk as (lo & hi & -> & Tl & Th & _). unfold is_bounded, has_upper_bound, has_lower_bound, is_empty. cbn [i_min i_max].
    destruct (hasty_not_inf Γ from Hfrom lo Tl), (hasty_not_inf Γ from Hfrom hi Th). by rewrite !same_as_ne. }
  destruct (cast_both_total j Hj Hc) as (i & -> & Hi & Vi). exists i. split; [done|]. split; [done|].
  intros ρ x W Tx Hx. by apply Vi; [|apply Vj; [|apply V0]].
Qed.

Lemma round_trip_total c : hasty Γ from c -> can_represent from to = true ->
  exists e, (y ← cast to (eref c); z ← cast from (eref y); operator_eq (eref z) (eref c)) = Ok e /\ hasty Γ (Bool 1) e /\
    forall ρ x, val ρ c x -> val ρ e (Z.b2z (cast_value x =? x)).
Proof.
  intros Tc Hcr. destruct (cast_total Γ to from Hto Hfrom c Tc) as (y & -> & Ty & Vy). cbn [mbind res_bind].
  destruct (cast_total Γ from to Hfrom Hto y Ty) as (z & -> & Tz & Vz). cbn [mbind res_bind].
  assert (Hf : factory EQ operator_eq) by (eexists; right; eexists; reflexivity).
  destruct (cmp_total Γ from Hfrom EQ operator_eq z c Hf eq_refl Tz Tc) as [-> Te]. eexists. split; [done|]. split; [done|].
  intros ρ x Hx. specialize (Vz ρ _ (Vy ρ x Hx)). unfold BoundsOps.cast_value in Vz at 1. rewrite Hcr in Vz.
  exact (val_cmp ρ EQ z c _ _ eq_refl Vz Hx).
Qed.

Lemma narrowed_total a : ends_ok Γ from a -> is_bounded same_as a = true -> can_represent from to = true ->
  on_ref bound_readable (i_min a) = true -> on_ref bound_readable (i_max a) = true ->
  exists r, narrowed simplify to from a = Ok r /\ forall i, r = Some i ->
    ends_ok Γ from i /\ ends_kept i /\ forall ρ x, world ρ -> inside ρ a x -> inside ρ i x.
Proof.
  intros Ha Hb Hcr Rl Ru. apply (bounded_view Γ from) in Hb as (lo & hi & -> & Tl & Th); [|done..]. simpl in Rl, Ru.
  unfold narrowed. cbn [i_min i_max deref eref mbind res_bind].
  destruct (find_constant_bound_total simplify Γ lo Lower from Hfrom Tl Rl) as (rl & -> & Cl). cbn [mbind res_bind].
  destruct (find_constant_bound_total simplify Γ hi Upper from Hfrom Th Ru) as (ru & -> & Cu). cbn [mbind res_bind].
  destruct rl as [cl|]; [|by eexists]. destruct ru as [cu|]; [|by eexists].
  destruct (Cl cl eq_refl) as [Tcl Vcl], (Cu cu eq_refl) as [Tcu Vcu].
  destruct (round_trip_total cl Tcl Hcr) as (x & -> & Tx & Vx). cbn [mbind res_bind].
  destruct (round_trip_total cu Tcu Hcr) as (y & -> & Ty & Vy). cbn [mbind res_bind].
  destruct (and_total Γ x y Tx Ty) as [Ea Ta]. destruct (proves_total simplify Γ _ _ Ea Ta) as (fits & -> & Hfits). cbn [mbind res_bind].
  destruct fits; [|by eexists]. eexists. split; [reflexivity|]. intros i [= <-].
  split; [split; right; by eexists|]. split.
  - exists cl, cu. split; [done|]. split; [done|]. split; [done|]. intros ρ l u W Hl Hu.
    pose proof (Hfits eq_refl ρ _ W (val_and ρ x y _ _ (Vx ρ l Hl) (Vy ρ u Hu))) as H.
    by rewrite andb_true_iff, !Z.eqb_eq in H.
  - intros ρ z W [Hl Hu]. cbn [i_min i_max] in *.
    apply (above_finite Γ from Hfrom) in Hl as (l & Hl & Lz); [|done]. apply (below_finite Γ from Hfrom) in Hu as (u & Hu & Uz); [|done].
    destruct (Vcl ρ l W Hl) as (wl & Hwl & L1), (Vcu ρ u W Hu) as (wu & Hwu & L2).
    split; [eapply above_val; [exact Hwl|lia]|eapply below_val; [exact Hwu|lia]].
Qed.

(** The cast keeps the values of the operand's type, or the operand is a point, or the cast
    is to a narrow type and the bounds it may be given can be read. *)
Definition cast_safe (a : Interval) : bool :=
  is_single_point same_as a || can_represent to from ||
  negb (is_int to && (32 <=? bits to)) &&
  (negb (is_bounded same_as a && can_represent from to) ||
   on_ref bound_readable (i_min a) && on_ref bound_readable (i_max a)).

Lemma cast_operand_total a : ends_ok Γ from a -> is_single_point same_as a = false -> cast_safe a = true ->
  exists r, cast_operand same_as simplify to from a = Ok r /\ forall i, r = Some i ->
    ends_ok Γ from i /\ (can_represent to from = true \/ ends_kept i) /\ forall ρ x, world ρ -> inside ρ a x -> inside ρ i x.
Proof.
  intros Ha Hs Hc. unfold cast_safe in Hc. rewrite Hs in Hc. cbn [orb] in Hc. unfold cast_operand.
  destruct (std_int_class to (scalar_std _ Hto)) as (_ & Hf & _). rewrite Hf, orb_false_r.
  destruct (can_represent to from) eqn:Hcr; cbn [orb] in Hc.
  { eexists. split; [reflexivity|]. intros i [= <-]. auto. }
  apply andb_true_iff in Hc as [Hw Hc]. apply negb_true_iff in Hw. rewrite Hw.
  destruct (is_bounded same_as a && can_represent from to) eqn:Eb; [|by eexists].
  apply andb_true_iff in Eb as [Hb Hft]. cbn [negb orb] in Hc. apply andb_true_iff in Hc as [Rl Ru].
  destruct (narrowed_total a Ha Hb Hft Rl Ru) as (r & -> & Hr). exists r. split; [done|]. intros i Hi.
  destruct (Hr i Hi) as (H1 & H2 & H3). auto.
Qed.

Lemma cast_interval_total t value a : std_int t -> lanes t = lanes (type value) -> std_int (type value) ->
  element_of t = to -> element_of (type value) = from -> ends_ok Γ from a -> cast_safe a = true ->
  exists i, cast_interval same_as simplify (Cast t value) t value a = Ok i /\ ends_ok Γ to i /\
    forall ρ x, world ρ -> in_type from x -> inside ρ a x -> inside ρ i (cast_value x).
Proof.
  intros St Hl Sv Et Ev Ha Hsafe. unfold cast_interval.
  destruct (is_single_point_of same_as a (eref value)) eqn:E1.
  { apply (single_of_view Γ from) in E1 as [-> Tv]; [|done..].
    pose proof (hasty_fields Γ from (scalar_std _ Hfrom) value Tv) as (_ & _ & Hlv). rewrite (scalar_lanes _ Hfrom) in Hlv.
    assert (Hst : scalar_int t) by (split; [done|congruence]). rewrite (scalar_element_id t Hst) in Et. subst t.
    destruct (cast_node_total Γ to from Hto Hfrom value Tv) as (_ & Tc & Vc).
    destruct (point_ok Γ to _ Tc) as [Ep Op]. eexists. split; [exact Ep|]. split; [done|]. intros ρ x W _ Hx.
    apply point_inside, Vc. by apply (inside_point Γ from Hfrom). }
  rewrite Et, Ev. destruct (is_single_point same_as a) eqn:E2.
  { apply (single_view Γ from) in E2 as (p & -> & Tp); [|done..]. cbn [i_min].
    destruct (cast_end_total p Tp) as (c & -> & Tc & Vc). destruct (point_ok Γ to _ Tc) as [Ep Op].
    eexists. split; [exact Ep|]. split; [done|]. intros ρ x W _ Hx. apply point_inside, Vc. by apply (inside_point Γ from Hfrom). }
  destruct (cast_operand_total a Ha E2 Hsafe) as (r & -> & Hr). cbn [mbind res_bind]. destruct r as [i|].
  - destruct (Hr i eq_refl) as (Hi & Hk & Vi). destruct (cast_ends_total i Hi Hk) as (j & -> & Hj & Vj).
    exists j. split; [done|]. split; [done|]. intros ρ x W Tx Hx. by apply Vj; [..|apply Vi].
  - destruct (bounds_of_type_total Γ to Hto to (scalar_std _ Hto) (scalar_element_id _ Hto)) as (j & -> & Hj & Vj).
    exists j. split; [done|]. split; [done|]. intros ρ x W Tx Hx. apply Vj. unfold BoundsOps.cast_value.
    destruct (can_represent to from) eqn:Hcr.
    + destruct Tx as [Hu|Hr']; [left|right].
      * by apply unbounded_represent.
      * apply (can_represent_range to from); [done|apply std_int_bits, Hfrom|apply (std_int_class from (scalar_std _ Hfrom))|
          apply (std_int_class to (scalar_std _ Hto))|done].
    + right. apply wrap_representable; [by apply std_int_bits, Hto|by apply (std_int_class to (scalar_std _ Hto))].
Qed.
End CastInterval.

(** * Selections *)

Section SelectInterval.
Context (same_as equal : ExprRef -> ExprRef -> bool).
Hypothesis same_as_sound : forall a b, same_as a b = true -> a = b.
Hypothesis same_as_refl : forall a, same_as a a = true.
Context (Γ : gmap string Ty).
Hypothesis equal_test : forall ρ, handle_blind ρ -> EqualityTest Γ ρ equal.
Context (t : Ty) (Ht : scalar_int t).

Notation world := (world Γ).

(** One end, of which [side] says that numbers are on its right side. *)
Lemma select_end_total c (const : bool) make (ok : ExprRef -> Prop) (side : env -> ExprRef -> Z -> Prop) p q :
  (forall e, hasty Γ t e -> ok (eref e)) ->
  (const = true -> hasty Γ (Bool 1) c) -> hasty Γ t p -> hasty Γ t q ->
  (exists r, make (eref p) (eref q) = Ok r /\ ok r /\ forall ρ x y (b : bool), world ρ -> side ρ (eref p) x -> side ρ (eref q) y ->
     side ρ r (if b then x else y)) ->
  (forall ρ (b : bool) x y, world ρ -> val ρ c (Z.b2z b) -> side ρ (eref p) x -> side ρ (eref q) y ->
     side ρ (eref (Select c p q)) (if b then x else y)) ->
  exists r, select_end same_as c const make (eref p) (eref q) = Ok r /\ ok r /\
    forall ρ x y (b : bool), world ρ -> (const = true -> val ρ c (Z.b2z b)) -> side ρ (eref p) x -> side ρ (eref q) y ->
      side ρ r (if b then x else y).
Proof.
  intros Hok Hc Tp Tq (r & Er & Or & Vr) Hs. unfold select_end.
  destruct (same_as (eref p) (eref q)) eqn:Es.
  { apply same_as_sound in Es. exists (eref p). split; [done|]. split; [by apply Hok|]. intros ρ x y b W _ Hx Hy.
    rewrite <- Es in Hy. by destruct b. }
  destruct const.
  - destruct (select_total Γ t Ht c p q (Hc eq_refl) Tp Tq) as [-> T]. simpl. eexists. split; [done|]. split; [by apply Hok|].
    intros ρ x y b W Hv Hx Hy. apply Hs; auto.
  - exists r. split; [done|]. split; [done|]. intros. by apply Vr.
Qed.

Lemma select_intervals_total s c a b : ends_ok Γ t a -> ends_ok Γ t b -> is_bounded same_as a = true -> is_bounded same_as b = true ->
  (const_scalar_condition same_as s c = true -> hasty Γ (Bool 1) c) ->
  exists i, select_intervals same_as equal s c a b = Ok i /\ ends_ok Γ t i /\
    forall ρ x y (p : bool), world ρ -> (const_scalar_condition same_as s c = true -> val ρ c (Z.b2z p)) ->
      inside ρ a x -> inside ρ b y -> inside ρ i (if p then x else y).
Proof.
  intros Ha Hb Ba Bb Hc. apply (bounded_view Γ t) in Ba as (la & ua & -> & Tla & Tua); [|done..].
  apply (bounded_view Γ t) in Bb as (lb & ub & -> & Tlb & Tub); [|done..]. unfold select_intervals. cbn [i_min i_max].
  assert (L : forall e, hasty Γ t e -> lower_ok Γ t (eref e)) by (intros e He; right; by exists e).
  assert (U : forall e, hasty Γ t e -> upper_ok Γ t (eref e)) by (intros e He; right; by exists e).
  destruct (select_end_total c (const_scalar_condition same_as s c) (make_min same_as equal) (lower_ok Γ t) above la lb) as (lo & -> & Ol & Vl);
    try done.
  { destruct (make_min_lower Γ t Ht same_as same_as_sound same_as_refl equal equal_test _ _ (L la Tla) (L lb Tlb)) as (r & Er & Or & Vr).
    exists r. split; [done|]. split; [done|]. intros ρ x y p W Hx Hy. apply (Vr ρ x y); [done..|]. destruct p; lia. }
  { intros ρ p x y W Hp Hx Hy. apply (above_finite Γ t Ht) in Hx as (l & Hl & Lx); [|done]. apply (above_finite Γ t Ht) in Hy as (k & Hk & Ky); [|done].
    eapply above_val; [by apply (val_select ρ c la lb p l k)|]. by destruct p. }
  cbn [mbind res_bind].
  destruct (select_end_total c (const_scalar_condition same_as s c) (make_max same_as equal) (upper_ok Γ t) below ua ub) as (hi & -> & Oh & Vh);
    try done.
  { destruct (make_max_upper Γ t Ht same_as same_as_sound same_as_refl equal equal_test _ _ (U ua Tua) (U ub Tub)) as (r & Er & Or & Vr).
    exists r. split; [done|]. split; [done|]. intros ρ x y p W Hx Hy. apply (Vr ρ x y); [done..|]. destruct p; lia. }
  { intros ρ p x y W Hp Hx Hy. apply (below_finite Γ t Ht) in Hx as (l & Hl & Lx); [|done]. apply (below_finite Γ t Ht) in Hy as (k & Hk & Ky); [|done].
    eapply below_val; [by apply (val_select ρ c ua ub p l k)|]. by destruct p. }
  cbn [mbind res_bind]. eexists. split; [reflexivity|]. split; [by split|].
  intros ρ x y p W Hp [Hxl Hxu] [Hyl Hyu]. split; simpl; auto.
Qed.
End SelectInterval.
