(* ===== verification/BoundsLet.v ===== *)
(** Bounds inference on [Let] (src/src/Bounds.cpp): the variable takes the ends of its
    value, those that are not constants under a name of their own, and the ends of the
    body are wrapped in lets of these names. *)

From Stdlib Require Import ZArith Lia Bool SpecFloat String Ascii.
From stdpp Require Import prelude strings gmap.
From S2P Require Import Prelude Types IR Semantics Scope Operators Mutator Substitute Equality EqualityMeaning ExprUsesVar Interval ConstBounds Monotonic Lanes Conditions Simplify SimplifyRules Bounds BoundsOps BoundsArith BoundsNodes.

#[local] Open Scope Z_scope.
#[local] Open Scope halide_scope.

Lemma is_const_closed x e : is_const e = true -> free_in x e = false.
Proof. induction e using Expr_ind'; simpl; intros Hc; try done; auto. apply andb_true_iff in Hc as [H1 H2]. by rewrite IHe1, IHe2. Qed.

Lemma val_free ρ ρ' e z : same_world ρ ρ' -> (forall x, free_in x e = true -> vars ρ !! x = vars ρ' !! x) -> val ρ e z -> val ρ' e z.
Proof. intros Hw Hx. unfold val. by rewrite (eval_free Ideal e ρ ρ'). Qed.

Lemma val_bind_other ρ n v e z : free_in n e = false -> val ρ e z <-> val (bind_var ρ n v) e z.
Proof.
  intros Hn. unfold val. rewrite (eval_free Ideal e (bind_var ρ n v) ρ); [done|done|].
  intros x Hx. simpl. by rewrite lookup_insert_ne by congruence.
Qed.

(** * The names of the ends *)

Definition min_name (x : string) : string := x +:+ ".min".
Definition max_name (x : string) : string := x +:+ ".max".

Lemma chars_app x y : list_ascii_of_string (x +:+ y) = list_ascii_of_string x ++ list_ascii_of_string y.
Proof. induction x as [|c x IH]; [done|]. simpl. by rewrite <- IH. Qed.

Lemma suffix_inj x y (u v : string) : String.length u = String.length v -> x +:+ u = y +:+ v -> x = y /\ u = v.
Proof.
  intros Hl H. apply (f_equal list_ascii_of_string) in H. rewrite !chars_app in H.
  apply app_inj_2 in H as [H1 H2].
  - rewrite <- (string_of_list_ascii_of_string x), <- (string_of_list_ascii_of_string y), H1.
    by rewrite <- (string_of_list_ascii_of_string u), <- (string_of_list_ascii_of_string v), H2.
  - assert (Hc : forall s, List.length (list_ascii_of_string s) = String.length s) by (intros s; induction s; simpl; auto).
    by rewrite !Hc.
Qed.

Lemma min_name_inj x y : min_name x = min_name y -> x = y.
Proof. intros H. by apply (suffix_inj x y _ _ eq_refl) in H as [? _]. Qed.
Lemma max_name_inj x y : max_name x = max_name y -> x = y.
Proof. intros H. by apply (suffix_inj x y _ _ eq_refl) in H as [? _]. Qed.
Lemma min_max_name x y : min_name x <> max_name y.
Proof. intros H. by apply (suffix_inj x y ".min" ".max" eq_refl) in H as [_ ?]. Qed.
Lemma min_name_nonempty x : min_name x <> "".
Proof. by destruct x. Qed.
Lemma max_name_nonempty x : max_name x <> "".
Proof. by destruct x. Qed.

Section Let.
Context (same_as : ExprRef -> ExprRef -> bool).
Hypothesis same_as_sound : forall a b, same_as a b = true -> a = b.
Hypothesis same_as_refl : forall a, same_as a a = true.
Context (Γ : gmap string Ty).

Notation same_node := (fun x y => same_as (eref x) (eref y)).
Notation world := (world Γ).

Lemma uses_free n e : expr_uses_var same_node e n = false -> free_in n e = false.
Proof.
  intros H. apply not_true_iff_false. intros Hf.
  apply expr_uses_vars_false in H; [|intros a b Hab; apply same_as_sound in Hab; by injection Hab].
  apply (occurs_free _ _ n) in H; [|done]. simpl in H. by rewrite lookup_insert_eq in H.
Qed.

Lemma world_bind t ρ n e l : std_int t -> world ρ -> hasty Γ t e -> type e = t -> Γ !! n = Some t -> val ρ e l ->
  world (bind_var ρ n [VInt l]).
Proof.
  intros Ht [Hok Hb] [[Hwf Hty _] _] He Hn Hl. split; [|done]. rewrite <- (insert_id Γ n t Hn).
  apply env_ok_bind; [done|]. rewrite <- He. exact (eval_value_ok Ideal Γ ρ e _ Hwf Hty Hok Hl).
Qed.

(** ** The ends of the variable *)

(** One end [p] of the value: the end of the variable, what is left to wrap, and the
    expression that is given a name. *)
Inductive variable_end (t : Ty) (name : string) (inf : ExprRef) : ExprRef -> ExprRef -> ExprRef -> option Expr -> Prop :=
| end_infinite : variable_end t name inf inf inf inf None
| end_const e : hasty Γ t e -> is_const e = true -> variable_end t name inf (eref e) (eref e) None None
| end_named e : hasty Γ t e -> type e = t -> hasty Γ t (Var t name None None None) ->
    variable_end t name inf (eref e) (eref (Var t name None None None)) (eref e) (Some e).

Lemma variable_lower t name p var rest nm : variable_end t name neg_inf p var rest nm -> lower_ok Γ t var.
Proof. intros [|e Te _|e _ _ Tv]; [by left|right; by exists e|right; by eexists]. Qed.
Lemma variable_upper t name p var rest nm : variable_end t name pos_inf p var rest nm -> upper_ok Γ t var.
Proof. intros [|e Te _|e _ _ Tv]; [by left|right; by exists e|right; by eexists]. Qed.

Lemma hasty_variable t name : std_int t -> name <> "" -> Γ !! name = Some t -> hasty Γ t (Var t name None None None).
Proof.
  intros Ht Hn Hg. split; [split|apply type_eqb_refl].
  - by split.
  - split; [by apply std_int_ty_ok|done].
  - simpl. by destruct (std_int_class t Ht) as (_ & -> & _).
Qed.

Lemma let_end_total t name inf (f : bool) p : std_int t -> name <> "" -> Γ !! name = Some t ->
  (f = false /\ p = inf) \/ (exists e, f = true /\ p = eref e /\ hasty Γ t e) ->
  (forall e, p = eref e -> f = true -> type e = t) ->
  exists var rest nm, let_end f p inf t name = Ok (var, rest) /\ variable_end t name inf p var rest nm.
Proof.
  intros Ht Hn Hg [[-> ->]|(e & -> & -> & Te)] Hty; unfold let_end.
  - eexists _, _, None. split; [done|constructor].
  - change (is_const_ref (eref e)) with (is_const e). destruct (is_const e) eqn:Ec.
    + eexists _, _, None. split; [done|by constructor].
    + unfold Variable_make. rewrite bool_decide_eq_false_2 by done. cbn [negb mbind res_bind].
      eexists _, _, (Some e). split; [done|]. constructor; [done|by apply Hty|by apply hasty_variable].
Qed.

(** The environment in which the name has the value of its expression. *)
Definition enters (name : string) (nm : option Expr) (ρ ρ' : env) : Prop :=
  match nm with
  | None => ρ' = ρ
  | Some e => exists l, val ρ e l /\ ρ' = bind_var ρ name [VInt l]
  end.

Lemma enters_same name nm ρ ρ' : enters name nm ρ ρ' -> same_world ρ ρ'.
Proof. destruct nm as [e|]; [intros (l & _ & ->); by split|by intros ->]. Qed.

Lemma enters_other name nm ρ ρ' x : enters name nm ρ ρ' -> x <> name -> vars ρ' !! x = vars ρ !! x.
Proof. destruct nm as [e|]; [intros (l & _ & ->) Hx; simpl; by rewrite lookup_insert_ne|by intros ->]. Qed.

Lemma enters_val name nm ρ ρ' e z : enters name nm ρ ρ' -> free_in name e = false -> val ρ e z -> val ρ' e z.
Proof.
  intros He Hf. apply val_free; [by eapply enters_same|]. intros x Hx. symmetry. eapply enters_other; [done|congruence].
Qed.

Section End.
Context (t : Ty) (Ht : scalar_int t) (name : string) (inf p var rest : ExprRef) (nm : option Expr).
Context (Hend : variable_end t name inf p var rest nm).

Lemma enters_world ρ ρ' : Γ !! name = Some t -> world ρ -> enters name nm ρ ρ' -> world ρ'.
Proof.
  intros Hg W. destruct Hend as [|e Te Hc|e Te He Tv]; [by intros ->..|].
  intros (l & Hl & ->). by apply (world_bind t _ _ e); [apply Ht|..].
Qed.

(** An end with a value can be entered. *)
Lemma enter ρ : (forall e, p = eref e -> hasty Γ t e -> exists l, val ρ e l) -> exists ρ', enters name nm ρ ρ'.
Proof.
  intros Hp. destruct Hend as [|e Te Hc|e Te He Tv]; [by exists ρ..|].
  destruct (Hp e eq_refl Te) as [l Hl]. exists (bind_var ρ name [VInt l]), l. done.
Qed.

(** The end of the variable has there the value the end of its value has outside. *)
Lemma variable_above ρ ρ' z : inf = neg_inf -> enters name nm ρ ρ' -> above ρ p z -> above ρ' var z.
Proof.
  intros ->. destruct Hend as [|e Te Hc|e Te He Tv]; [by left|..].
  - intros -> Hz. done.
  - intros (l & Hl & ->) Hz. apply (above_finite Γ t Ht) in Hz as (k & Hk & Lz); [|done].
    eapply above_val; [|exact Lz]. unfold val. simpl. rewrite lookup_insert_eq. by rewrite (val_same ρ e k l Hk Hl).
Qed.

Lemma variable_below ρ ρ' z : inf = pos_inf -> enters name nm ρ ρ' -> below ρ p z -> below ρ' var z.
Proof.
  intros ->. destruct Hend as [|e Te Hc|e Te He Tv]; [by left|..].
  - intros -> Hz. done.
  - intros (l & Hl & ->) Hz. apply (below_finite Γ t Ht) in Hz as (k & Hk & Lz); [|done].
    eapply below_val; [|exact Lz]. unfold val. simpl. rewrite lookup_insert_eq. by rewrite (val_same ρ e k l Hk Hl).
Qed.

(** Binding another name changes nothing. *)
Lemma variable_kept n v ρ z : n <> name -> inf = pos_inf -> below ρ var z -> below (bind_var ρ n v) var z.
Proof.
  intros Hn ->. destruct Hend as [|e Te Hc|e Te He Tv]; [by left|..]; (intros [H|(q & u & [= <-] & Hu & Uz)]; [by left|]);
    (eapply below_val; [|exact Uz]); apply val_bind_other; try done; [by apply is_const_closed|].
  simpl. by rewrite bool_decide_eq_false_2.
Qed.

(** The only variable of the end of the variable is its name. *)
Lemma variable_free x e : var = eref e -> hasty Γ t e -> free_in x e = true -> inf = neg_inf \/ inf = pos_inf -> x = name.
Proof.
  intros Hv Te Hx Hinf. destruct Hend as [|c Tc Hc|c Tc He Tv].
  - destruct (hasty_not_inf Γ t Ht e Te). by destruct Hinf as [-> | ->].
  - injection Hv as <-. by rewrite is_const_closed in Hx.
  - injection Hv as <-. simpl in Hx. apply bool_decide_eq_true in Hx. done.
Qed.

(** ** Wrapping an end of the body *)
Lemma wrap_let_total tb e : Γ !! name = Some t -> inf = neg_inf \/ inf = pos_inf -> hasty Γ tb e ->
  (rest = inf -> expr_uses_var same_node e name = false) ->
  exists r, wrap_let same_as name rest (eref e) = Ok (eref r) /\ hasty Γ tb r /\
    forall ρ ρ' z, enters name nm ρ ρ' -> val ρ' e z -> val ρ r z.
Proof.
  intros Hg Hinf Te Hu. destruct Hend as [|c Tc Hc|c Tc Htc Tv]; unfold wrap_let.
  - exists e. cbn [deref eref mbind res_bind]. rewrite Hu by done.
    split; [by destruct Hinf as [-> | ->]|]. split; [done|]. by intros ρ ρ' z ->.
  - exists e. split; [done|]. split; [done|]. by intros ρ ρ' z ->.
  - cbn [deref eref mbind res_bind]. destruct (expr_uses_var same_node e name) eqn:Eu.
    + exists (Let name c e). split; [done|]. destruct Te as [[Hwf Hty Hus] Hte], Tc as [[Hwc Htyc Husc] Htc'].
      split; [|intros ρ ρ' z (l & Hl & ->) Hz; unfold val in *; cbn [eval]; by rewrite Hl].
      split; [|done]. split; [by split| |simpl; by rewrite Husc].
      split; [done|]. rewrite insert_id; [done|]. by rewrite Htc.
    + exists e. split; [done|]. split; [done|]. intros ρ ρ' z (l & Hl & ->) Hz. by apply (val_bind_other ρ name [VInt l]); [apply uses_free|].
Qed.
End End.

(** ** The two ends together *)

(** The finite ends have the type [t] itself. *)
Definition ends_typed (t : Ty) (i : Interval) : bool :=
  (negb (has_lower_bound same_as i) || on_ref (fun e => bool_decide (type e = t)) (i_min i)) &&
  (negb (has_upper_bound same_as i) || on_ref (fun e => bool_decide (type e = t)) (i_max i)).

(** No end of the body uses the name of an infinite end. *)
Definition end_safe (name : string) (rest inf e : ExprRef) : bool :=
  negb (same_as rest inf) || negb (on_ref (fun e => expr_uses_var same_node e name) e).
Definition wrap_safe (x : string) (rest : Interval) (e : ExprRef) : bool :=
  end_safe (min_name x) (i_min rest) neg_inf e &&
  match wrap_let same_as (min_name x) (i_min rest) e with
  | Ok e => end_safe (max_name x) (i_max rest) pos_inf e
  | Err _ => false
  end.
Definition body_safe (x : string) (rest i : Interval) : bool :=
  (negb (has_lower_bound same_as i) || wrap_safe x rest (i_min i)) &&
  (negb (has_upper_bound same_as i) || wrap_safe x rest (i_max i)).
(** The value of the lower end is wrapped inside the let of the upper end. *)
Definition rest_safe (x : string) (rest : Interval) : bool := negb (on_ref (free_in (max_name x)) (i_min rest)).

Section Both.
Context (t : Ty) (Ht : scalar_int t) (x : string).
Hypothesis min_typed : Γ !! min_name x = Some t.
Hypothesis max_typed : Γ !! max_name x = Some t.

(** The interval of the variable and what is wrapped, the ends being named or not. *)
Record let_ends (val var rest : Interval) (nmin nmax : option Expr) : Prop := {
  let_min : variable_end t (min_name x) neg_inf (i_min val) (i_min var) (i_min rest) nmin;
  let_max : variable_end t (max_name x) pos_inf (i_max val) (i_max var) (i_max rest) nmax
}.

Lemma let_variable_total v val : element_of (type v) = t -> ends_ok Γ t val -> ends_typed t val = true ->
  exists var rest nmin nmax, let_variable same_as x v val = Ok (var, rest) /\ let_ends val var rest nmin nmax.
Proof.
  intros Hv Hval Hty. unfold let_variable. rewrite Hv. unfold ends_typed in Hty. apply andb_true_iff in Hty as [T1 T2].
  destruct (let_end_total t (min_name x) neg_inf (has_lower_bound same_as val) (i_min val) (scalar_std _ Ht) (min_name_nonempty x) min_typed)
    as (v1 & r1 & n1 & E1 & H1).
  { destruct (lower_view Γ t Ht same_as same_as_sound same_as_refl val Hval) as [[-> ->]|(e & -> & -> & Te)]; [by left|right; by exists e]. }
  { intros e He Hb. rewrite Hb, He in T1. simpl in T1. by apply bool_decide_eq_true in T1. }
  unfold min_name in E1. rewrite E1. cbn [mbind res_bind].
  assert (Hm : r1 <> pos_inf).
  { destruct H1 as [|e Te _|e Te _ _]; [done..|]. by apply (hasty_not_inf Γ t Ht). }
  destruct (let_end_total t (max_name x) pos_inf (has_upper_bound same_as (mkInterval r1 (i_max val))) (i_max val) (scalar_std _ Ht) (max_name_nonempty x) max_typed)
    as (v2 & r2 & n2 & E2 & H2).
  { destruct (upper_test same_as same_as_sound same_as_refl Γ t r1 (i_max val) Ht Hm (proj2 Hval)) as [[-> ->]|(e & -> & -> & Te)]; [by left|right; by exists e]. }
  { intros e He Hf. destruct (upper_view Γ t Ht same_as same_as_sound same_as_refl val Hval) as [[_ Ei]|(e' & Hu & Ei & Te)].
    - destruct (upper_test same_as same_as_sound same_as_refl Γ t r1 (i_max val) Ht Hm (proj2 Hval)) as [[Hf' _]|(q & _ & Hp & Tq)]; [congruence|].
      rewrite Ei in Hp. symmetry in Hp. by apply (hasty_not_inf Γ t Ht) in Hp.
    - rewrite Hu, He in T2. simpl in T2. by apply bool_decide_eq_true in T2. }
  unfold max_name in E2. cbn [i_max]. rewrite E2. cbn [mbind res_bind].
  exists (mkInterval v1 v2), (mkInterval r1 r2), n1, n2. split; [done|]. by split.
Qed.

Section Wrapping.
Context (iv var rest : Interval) (nmin nmax : option Expr) (Hends : let_ends iv var rest nmin nmax).

(** From the environment of the let to that of its body: the name of the upper end is
    bound first. *)
Definition enters_both (ρ ρ' : env) : Prop :=
  exists ρ1, enters (max_name x) nmax ρ ρ1 /\ enters (min_name x) nmin ρ1 ρ'.

Lemma end_safe_uses name inf r e : end_safe name r inf (eref e) = true -> r = inf -> expr_uses_var same_node e name = false.
Proof. unfold end_safe. intros H ->. rewrite same_as_refl in H. simpl in H. by apply negb_true_iff in H. Qed.

Lemma wrap_end_total tb e : hasty Γ tb e -> wrap_safe x rest (eref e) = true ->
  exists r, wrap_end same_as x rest (eref e) = Ok (eref r) /\ hasty Γ tb r /\
    forall ρ ρ' z, enters_both ρ ρ' -> val ρ' e z -> val ρ r z.
Proof.
  intros Te Hs. unfold wrap_safe in Hs. apply andb_true_iff in Hs as [S1 S2]. destruct Hends as [Hmin Hmax].
  destruct (wrap_let_total t (min_name x) _ _ _ _ _ Hmin tb e min_typed (or_introl eq_refl) Te (end_safe_uses _ _ _ _ S1)) as (e1 & E1 & T1 & V1).
  rewrite E1 in S2.
  destruct (wrap_let_total t (max_name x) _ _ _ _ _ Hmax tb e1 max_typed (or_intror eq_refl) T1 (end_safe_uses _ _ _ _ S2)) as (e2 & E2 & T2 & V2).
  exists e2. unfold wrap_end. fold (min_name x) (max_name x). rewrite E1. split; [exact E2|]. split; [done|].
  intros ρ ρ' z (ρ1 & H1 & H2) Hz. by eapply V2, V1.
Qed.

Lemma let_interval_total tb i : scalar_int tb -> ends_ok Γ tb i -> body_safe x rest i = true ->
  exists j, let_interval same_as x rest i = Ok j /\ ends_ok Γ tb j /\
    forall ρ ρ' z, enters_both ρ ρ' -> inside ρ' i z -> inside ρ j z.
Proof.
  intros Hb Hi Hs. unfold body_safe in Hs. apply andb_true_iff in Hs as [S1 S2]. unfold let_interval.
  assert (Hlow : exists lo, (if has_lower_bound same_as i then lo ← wrap_end same_as x rest (i_min i); Ok (mkInterval lo (i_max i)) else Ok i)
      = Ok (mkInterval lo (i_max i)) /\ lower_ok Γ tb lo /\ forall ρ ρ' z, enters_both ρ ρ' -> above ρ' (i_min i) z -> above ρ lo z).
  { destruct (lower_view Γ tb Hb same_as same_as_sound same_as_refl i Hi) as [[-> Em]|(e & Hf & Em & Te)].
    - exists neg_inf. split; [destruct i; simpl in *; by subst|]. split; [by left|]. intros; by left.
    - rewrite Hf in S1 |- *. rewrite Em in S1 |- *. destruct (wrap_end_total tb e Te S1) as (r & -> & Tr & Vr).
      exists (eref r). split; [done|]. split; [right; by exists r|]. intros ρ ρ' z He Hz.
      apply (above_finite Γ tb Hb) in Hz as (l & Hl & Lz); [|done]. eapply above_val; [by eapply Vr|done]. }
  destruct Hlow as (lo & -> & Ol & Vl). cbn [mbind res_bind].
  assert (Hne : lo <> pos_inf) by (destruct Ol as [->|(c & -> & Tc)]; [done|by apply (hasty_not_inf Γ tb Hb)]).
  destruct (upper_test same_as same_as_sound same_as_refl Γ tb lo (i_max i) Hb Hne (proj2 Hi)) as [[-> EM]|(q & -> & EM & Tq)].
  - eexists. split; [reflexivity|]. split; [split; [done|by left]|]. intros ρ ρ' z He [Hz _]. split; [by eapply Vl|by left].
  - cbn [i_max i_min]. assert (Hup : wrap_safe x rest (eref q) = true).
    { destruct (upper_view Γ tb Hb same_as same_as_sound same_as_refl i Hi) as [[_ E]|(e & Hf & _ & _)].
      - rewrite EM in E. by apply (hasty_not_inf Γ tb Hb) in E.
      - rewrite Hf, EM in S2. exact S2. }
    rewrite EM. destruct (wrap_end_total tb q Tq Hup) as (r & -> & Tr & Vr). eexists. split; [reflexivity|].
    split; [split; [done|right; by exists r]|]. intros ρ ρ' z He [Hz Hu]. split; [by eapply Vl|]. rewrite EM in Hu.
    apply (below_finite Γ tb Hb) in Hu as (u & Hu & Uz); [|done]. simpl. eapply below_val; [by eapply Vr|done].
Qed.

(** The body of the let can be entered wherever its value has one. *)
Lemma enter_both ρ z0 : ends_ok Γ t iv -> rest_safe x rest = true -> world ρ -> inside ρ iv z0 ->
  exists ρ', enters_both ρ ρ' /\ world ρ' /\ forall z, inside ρ iv z -> inside ρ' var z.
Proof.
  intros Hval Hrest W [Hl Hu]. destruct Hends as [Hmin Hmax].
  destruct (enter t _ _ _ _ _ _ Hmax ρ) as [ρ1 H1].
  { intros e He Te. rewrite He in Hu. apply (below_finite Γ t Ht) in Hu as (u & Hu & _); [|done]. by exists u. }
  assert (W1 : world ρ1) by (by eapply enters_world).
  (* the lower end of the value means the same below the name of the upper end *)
  assert (Hfree : forall e, nmin = Some e -> free_in (max_name x) e = false).
  { intros e He. subst nmin. inversion Hmin as [| |e1 Te1 Ht1 Tv1 Ei Ev Er Ex]; subst. unfold rest_safe in Hrest. rewrite <- Er in Hrest.
    by apply negb_true_iff in Hrest. }
  destruct nmin as [m|] eqn:En.
  - assert (Hm : i_min iv = eref m /\ hasty Γ t m) by (inversion Hmin; subst; auto). destruct Hm as [Em Tm]. rewrite Em in Hl.
    apply (above_finite Γ t Ht) in Hl as (l & Hl & Lz); [|done].
    exists (bind_var ρ1 (min_name x) [VInt l]).
    assert (Hl1 : val ρ1 m l) by (eapply enters_val; [exact H1|by apply Hfree|done]).
    assert (He : enters (min_name x) (Some m) ρ1 (bind_var ρ1 (min_name x) [VInt l])) by (by exists l).
    split; [exists ρ1; by rewrite ?En|]. split; [eapply enters_world; [exact Ht|exact Hmin|exact min_typed|exact W1|exact He]|]. intros z [Hzl Hzu].
    split.
    + eapply variable_above; [exact Ht|exact Hmin|done|exact He|]. rewrite Em in Hzl |- *.
      apply (above_finite Γ t Ht) in Hzl as (k & Hk & Kz); [|done]. rewrite (val_same ρ m k l Hk Hl) in Kz. by eapply above_val.
    + assert (Hz1 : below ρ1 (i_max var) z) by (eapply variable_below; [exact Ht|exact Hmax|done|exact H1|done]).
      eapply variable_kept; [exact Hmax|apply min_max_name|done|exact Hz1].
  - exists ρ1. split; [exists ρ1; by rewrite ?En|]. split; [done|]. intros z [Hzl Hzu]. split.
    + inversion Hmin as [Ea Eb Ec Ed|e Te Hc Ea Eb Ec Ed|]; [by left|]. rewrite <- Ea in Hzl.
      destruct Hzl as [E|(e' & k & [= <-] & Hk & Kz)]; [left; congruence|]. eapply above_val; [|exact Kz].
      eapply enters_val; [exact H1|by apply is_const_closed|done].
    + eapply variable_below; [exact Ht|exact Hmax|done|exact H1|done].
Qed.
End Wrapping.
End Both.
End Let.
