(* ===== verification/BoundsFold.v ===== *)
(** A simplifier for concrete inputs of bounds inference: it folds the expressions whose
    value needs no environment. It is the simplest one that satisfies [Simplifier] and
    finds constant ends. *)

From Stdlib Require Import ZArith Lia Bool String.
From stdpp Require Import prelude strings gmap.
From S2P Require Import Prelude Types IR Semantics Operators Substitute Monotonic Lanes Conditions SimplifyRules BoundsOps BoundsNodes.

#[local] Open Scope Z_scope.

(** * Evaluation is monotone in the environment *)

Record env_le (ρ ρ' : env) : Prop := {
  le_vars x v : vars ρ !! x = Some v -> vars ρ' !! x = Some v;
  le_mem t n i s : mem ρ t n i = Some s -> mem ρ' t n i = Some s;
  le_fn t ct n vi args v : fn ρ t ct n vi args = Some v -> fn ρ' t ct n vi args = Some v
}.

Lemma env_le_bind ρ ρ' x v : env_le ρ ρ' -> env_le (bind_var ρ x v) (bind_var ρ' x v).
Proof.
  intros [Hv Hm Hf]. split; [|done..]. intros y w. simpl. rewrite !lookup_insert.
  by destruct (decide (x = y)); [|apply Hv].
Qed.

(** A successful evaluation, its first operand succeeding in the larger environment. *)
Ltac operand He IH L :=
  let v := fresh "v" in let Hv := fresh "Hv" in
  apply bind_Some in He as (v & Hv & He); apply (IH _ _ v L) in Hv; rewrite Hv; cbn [mbind option_bind].

Lemma eval_mono p e : forall ρ ρ' v, env_le ρ ρ' -> eval p ρ e = Some v -> eval p ρ' e = Some v.
Proof.
  induction e using Expr_ind'; intros ρ ρ' w L He; cbn [eval] in *; try done;
    try (operand He IHe L; done); try (operand He IHe1 L; operand He IHe2 L; done).
  - by apply (le_vars _ _ L).
  - operand He IHe1 L. operand He IHe2 L. by operand He IHe3 L.
  - operand He IHe L. eapply mapM_mono; [|exact He]. intros [] y _; try done. apply (le_mem _ _ L).
  - apply bind_Some in He as (vs & Hvs & He). rewrite Forall_forall in H.
    rewrite (mapM_mono (eval p ρ) (eval p ρ') args vs); [|by eauto|done].
    cbn [mbind option_bind]. unfold eval_call in *. destruct (_ || _); [done|]. by apply (le_fn _ _ L).
  - operand He IHe1 L. eapply IHe2; [|exact He]. by apply env_le_bind.
Qed.

Lemma empty_env_le ρ : env_le empty_env ρ.
Proof. split; intros; simplify_map_eq. Qed.

(** * Folding *)

Definition fold_closed (e : Expr) : Expr :=
  match eval Ideal empty_env e with
  | Some [VInt z] =>
      if bool_decide (std_int (type e)) && representable (type e) z && is_scalar (type e)
      then const_node (type e) z else e
  | _ => e
  end.

Lemma fold_closed_cases e : fold_closed e = e \/
  exists z, fold_closed e = const_node (type e) z /\ eval Ideal empty_env e = Some [VInt z] /\
    scalar_int (type e) /\ representable (type e) z = true.
Proof.
  unfold fold_closed. destruct (eval Ideal empty_env e) as [[|[z|?|?|?] [|? ?]]|]; auto.
  destruct (_ && _ && _) eqn:H; auto. rewrite !andb_true_iff in H. destruct H as [[Hs%bool_decide_eq_true Hr] Hl%Z.eqb_eq].
  right. by exists z.
Qed.

#[global] Instance fold_closed_simplifier : Simplifier fold_closed.
Proof.
  split.
  - intros Γ t e Ht He. destruct (fold_closed_cases e) as [->|(z & -> & _ & Hs & Hr)]; [done|].
    split; [apply (hasty_const Γ (type e) (scalar_std _ Hs) z Hr)|].
    rewrite const_node_type by apply Hs. apply He.
  - intros Γ ρ t e v Ht He Hρ Hv. destruct (fold_closed_cases e) as [->|(z & -> & Hz & Hs & Hr)]; [done|].
    apply (eval_mono _ _ _ ρ) in Hz; [|apply empty_env_le]. rewrite Hz in Hv. simplify_eq. by apply val_const.
  - intros x e. by destruct (fold_closed_cases e) as [->|(z & -> & _)]; [done|]; unfold const_node; destruct (is_vector _), (is_int _).
Qed.
