(* ===== verification/Boxes.v ===== *)
(** Boxes: products of intervals with the condition under which they are touched, the
    unions, overlap and containment tests of src/src/Bounds.h and src/src/Bounds.cpp, and
    what they promise of the points of the boxes. *)

From Stdlib Require Import ZArith Lia Bool String.
From stdpp Require Import prelude strings gmap.
From S2P Require Import Prelude Types IR Semantics Operators Mutator Equality EqualityMeaning Interval ConstBounds Monotonic Lanes Conditions SimplifyRules CSE Bounds BoundsOps BoundsNodes BoundsFold.

#[local] Open Scope Z_scope.
#[local] Open Scope halide_scope.

Record Box := mkBox { used : ExprRef; bounds : list Interval }.

Definition size (b : Box) : nat := List.length (bounds b).
Definition empty (b : Box) : bool := Nat.eqb (size b) 0.
Definition maybe_unused (b : Box) : bool :=
  match used b with Some u => negb (is_one u) | None => false end.

Section Boxes.
Context (same_as equal : ExprRef -> ExprRef -> bool) (simplify : Expr -> Expr).

Definition simplified (e : Expr) : ExprRef := eref (simplify e).

(** * Regions *)

Definition range_union (a b : Range) : res Range :=
  min ← Min_make (eref (range_min a)) (eref (range_min b));
  max_a ← operator_add (eref (range_min a)) (eref (range_extent a));
  max_b ← operator_add (eref (range_min b)) (eref (range_extent b));
  max_plus_one ← Max_make (eref max_a) (eref max_b);
  extent ← operator_sub (eref max_plus_one) (eref min);
  Range_make (simplify min) (simplify extent).

(** [f] on the elements of two vectors of the same size, in order. *)
Fixpoint zip_res {A B C} (f : A -> B -> res C) (a : list A) (b : list B) : res (list C) :=
  match a, b with
  | x :: a, y :: b => z ← f x y; rest ← zip_res f a b; Ok (z :: rest)
  | _, _ => Ok []
  end.

Definition region_union (a b : list Range) : res (list Range) :=
  guard! Nat.eqb (List.length a) (List.length b) else "Mismatched dimensionality in region union";
  zip_res range_union a b.

(** * Unions *)

(** [a_maybe_unused && b_maybe_unused && (equal(a.used, !b.used) || equal(!a.used, b.used))]. *)
Definition complementary (a b : Box) : res bool :=
  if maybe_unused a && maybe_unused b then
    not_b ← operator_not (used b);
    if equal (used a) (eref not_b) then Ok true
    else not_a ← operator_not (used a); Ok (equal (eref not_a) (used b))
  else Ok false.

(** One end of the union, [make] being [make_min] or [make_max]. *)
Definition merge_end (make : ExprRef -> ExprRef -> res ExprRef) (a b : Box) (compl : bool) (x y : ExprRef) : res ExprRef :=
  e ← (if maybe_unused a && maybe_unused b then
         if compl then to_ref (select (used a) x y)
         else
           both ← operator_and (used a) (used b);
           m ← make x y;
           to_ref (select_multi [(eref both, m); (used a, x)] y)
       else if maybe_unused a then m ← make x y; to_ref (select (used a) m y)
       else if maybe_unused b then m ← make x y; to_ref (select (used b) m x)
       else make x y);
  e ← deref e;
  Ok (simplified e).

(** The body of the loop of [merge_boxes] on the two intervals of a dimension. *)
Definition merge_interval (a b : Box) (compl : bool) (x y : Interval) : res Interval :=
  x ← (if negb (same_as (i_min x) (i_min y)) then
         if has_lower_bound same_as x && has_lower_bound same_as y then
           lo ← merge_end (make_min same_as equal) a b compl (i_min x) (i_min y); Ok (mkInterval lo (i_max x))
         else Ok (mkInterval neg_inf (i_max x))
       else Ok x);
  if negb (same_as (i_max x) (i_max y)) then
    if has_upper_bound same_as x && has_upper_bound same_as y then
      hi ← merge_end (make_max same_as equal) a b compl (i_max x) (i_max y); Ok (mkInterval (i_min x) hi)
    else Ok (mkInterval (i_min x) pos_inf)
  else Ok x.

Definition merge_used (a b : Box) : res ExprRef :=
  if maybe_unused a && maybe_unused b then
    if negb (equal (used a) (used b)) then
      either ← operator_or (used a) (used b);
      let u := simplify either in
      Ok (if is_one u then None else eref u)
    else Ok (used a)
  else Ok None.

Definition merge_boxes (a b : Box) : res Box :=
  if empty b then Ok a
  else if empty a then Ok b
  else
    guard! Nat.eqb (size a) (size b) else "";
    compl ← complementary a b;
    bounds ← zip_res (merge_interval a b compl) (bounds a) (bounds b);
    used ← merge_used a b;
    Ok (mkBox used bounds).

Definition box_union (a b : Box) : res Box := merge_boxes a b.

(** * Tests *)

(** [overlap && x >= y] and the like. *)
Definition and_also (condition : Expr) (test : res Expr) : res Expr :=
  test ← test; operator_and (eref condition) (eref test).

Definition used_or_true (b : Box) : res ExprRef :=
  if maybe_unused b then Ok (used b) else to_ref (const_true 1).

(** The two tests of a dimension. *)
Definition overlap_tests (overlap : Expr) (x y : Interval) : res Expr :=
  overlap ← (if has_upper_bound same_as x && has_lower_bound same_as y
             then and_also overlap (operator_ge (i_max y) (i_min x)) else Ok overlap);
  if has_lower_bound same_as x && has_upper_bound same_as y
  then and_also overlap (operator_ge (i_max x) (i_min y)) else Ok overlap.

(** A loop over the elements of two vectors. *)
Fixpoint fold_both {A B S} (f : S -> A -> B -> res S) (s : S) (a : list A) (b : list B) : res S :=
  match a, b with
  | x :: a, y :: b => s ← f s x y; fold_both f s a b
  | _, _ => Ok s
  end.

Definition boxes_overlap (a b : Box) : res bool :=
  if negb (Nat.eqb (size a) (size b)) && (Nat.eqb (size a) 0 || Nat.eqb (size b) 0) then Ok false
  else
    guard! Nat.eqb (size a) (size b) else "";
    a_used ← used_or_true a;
    b_used ← used_or_true b;
    overlap ← operator_and a_used b_used;
    overlap ← fold_both overlap_tests overlap (bounds a) (bounds b);
    not_overlap ← operator_not (eref overlap);
    apart ← can_prove simplify (simplify not_overlap);
    Ok (negb apart).

Definition contain_tests (condition : Expr) (outer inner : Interval) : res Expr :=
  condition ← and_also condition (operator_le (i_min outer) (i_min inner));
  and_also condition (operator_ge (i_max outer) (i_max inner)).

Definition box_contains (outer inner : Box) : res bool :=
  if Nat.ltb (size outer) (size inner) then Ok false
  else
    condition ← const_true 1;
    condition ← fold_both contain_tests condition (bounds outer) (bounds inner);
    if maybe_unused outer then
      if maybe_unused inner then
        both ← operator_and (used outer) (used inner);
        condition ← and_also condition (operator_eq (eref both) (used inner));
        Ok (is_one (simplify condition))
      else Ok false
    else Ok (is_one (simplify condition)).
End Boxes.

(** * What they promise *)

Section Sound.
Context (same_as equal : ExprRef -> ExprRef -> bool) (simplify : Expr -> Expr) `{!Simplifier simplify}.
Hypothesis same_as_sound : forall a b, same_as a b = true -> a = b.
Hypothesis same_as_refl : forall a, same_as a a = true.
Context (Γ : gmap string Ty).
Hypothesis equal_test : forall ρ, handle_blind ρ -> EqualityTest Γ ρ equal.
Context (t : Ty) (Ht : scalar_int t).

Notation world := (world Γ).
Notation tb := (Bool 1).

(** The ends are of the type [t], the condition is a scalar condition. *)
Record box_typed (B : Box) : Prop := {
  typed_used u : used B = Some u -> hasty Γ tb u;
  typed_ends : Forall (ends_ok Γ t) (bounds B)
}.

(** The condition has the value [p]; an undefined one is true. *)
Definition active (ρ : env) (B : Box) (p : bool) : Prop :=
  match used B with None => p = true | Some u => val ρ u (Z.b2z p) end.

(** An end has a value, infinities aside. *)
Definition reads (ρ : env) (inf b : ExprRef) : Prop := b = inf \/ exists e l, b = eref e /\ val ρ e l.
Definition interval_reads (ρ : env) (i : Interval) : Prop := reads ρ neg_inf (i_min i) /\ reads ρ pos_inf (i_max i).

Record box_reads (ρ : env) (B : Box) : Prop := {
  reads_used : exists p, active ρ B p;
  reads_ends : Forall (interval_reads ρ) (bounds B)
}.

(** The box touches the point [z]. *)
Definition touches (ρ : env) (B : Box) (z : list Z) : Prop := active ρ B true /\ Forall2 (inside ρ) (bounds B) z.

(** ** Conditions *)

Lemma or_total a b : hasty Γ tb a -> hasty Γ tb b ->
  operator_or (eref a) (eref b) = Ok (Bin Or a b) /\ hasty Γ tb (Bin Or a b) /\
  forall ρ (p q : bool), val ρ a (Z.b2z p) -> val ρ b (Z.b2z q) -> val ρ (Bin Or a b) (Z.b2z (p || q)).
Proof.
  intros Ha Hb. pose proof (proj1 (bool_type tb (scalar_std _ scalar_bool) _) (hasty_type _ _ _ Ha)) as [Ba _].
  pose proof (proj1 (bool_type tb (scalar_std _ scalar_bool) _) (hasty_type _ _ _ Hb)) as [Bb _].
  split; [|split; [by apply (hasty_logic Γ tb (scalar_std _ scalar_bool) Or)|]].
  - pose proof (type_eqb_trans_std tb (scalar_std _ scalar_bool) _ _ (hasty_type _ _ _ Ha) (hasty_type _ _ _ Hb)) as Heq.
    pose proof (type_eqb_classes _ _ (hasty_type _ _ _ Ha)) as (_ & _ & _ & Hha & _).
    pose proof (type_eqb_classes _ _ (hasty_type _ _ _ Hb)) as (_ & _ & _ & Hhb & _).
    unfold operator_or, match_types. cbn [deref eref mbind res_bind]. rewrite Hha, Hhb, Heq.
    change (is_handle tb) with false. cbn [andb negb user_assert mbind res_bind].
    unfold Or_make, logical_make. cbn [defined eref mbind res_bind]. by rewrite Ba, Bb, Heq.
  - intros ρ p q Hp Hq. unfold val. cbn [eval]. rewrite Hp, Hq. by destruct p, q.
Qed.

Lemma not_total a : hasty Γ tb a -> operator_not (eref a) = Ok (Not a) /\ hasty Γ tb (Not a) /\
  forall ρ (p : bool), val ρ a (Z.b2z p) -> val ρ (Not a) (Z.b2z (negb p)).
Proof.
  intros Ha. pose proof (proj1 (bool_type tb (scalar_std _ scalar_bool) _) (hasty_type _ _ _ Ha)) as [Ba Bl].
  split; [|split].
  - unfold operator_not, Not_make. cbn [defined eref mbind res_bind]. by rewrite Ba.
  - destruct Ha as [[Hw Hty Hu] _]. split; [by split|]. simpl. by rewrite Bl.
  - intros ρ p Hp. unfold val. cbn [eval]. rewrite Hp. by destruct p.
Qed.

Lemma is_one_true ρ u p : hasty Γ tb u -> world ρ -> is_one u = true -> val ρ u (Z.b2z p) -> p = true.
Proof.
  intros [[_ Hty Hu] _] W H1 Hp. destruct (is_one_eval _ _ _ _ _ H1 Hu Hty Hp) as [n Hn].
  destruct n; [done|]. injection Hn as Hn. by destruct p.
Qed.

Lemma active_same ρ B p q : active ρ B p -> active ρ B q -> p = q.
Proof.
  unfold active. destruct (used B); [|congruence]. intros Hp Hq. pose proof (val_same _ _ _ _ Hp Hq). by destruct p, q.
Qed.

(** A box that is not [maybe_unused] is active; one that is has a condition. *)
Lemma always_used ρ B p : box_typed B -> world ρ -> maybe_unused B = false -> active ρ B p -> p = true.
Proof.
  intros HB W Hm Hp. unfold maybe_unused, active in *. destruct (used B) as [u|] eqn:Eu; [|done].
  apply negb_false_iff in Hm. by apply (is_one_true ρ u); [apply HB| | |].
Qed.

Lemma sometimes_used B : box_typed B -> maybe_unused B = true ->
  exists u, used B = eref u /\ hasty Γ tb u /\ forall ρ p, active ρ B p <-> val ρ u (Z.b2z p).
Proof.
  intros HB Hm. unfold maybe_unused, active in *. destruct (used B) as [u|] eqn:Eu; [|done].
  exists u. split; [done|]. split; [by apply HB|done].
Qed.

Lemma equal_value ρ u a b p q : std_int u -> world ρ -> hasty Γ u a -> hasty Γ u b -> equal (eref a) (eref b) = true ->
  val ρ a p -> val ρ b q -> p = q.
Proof.
  intros Hu W [[Wa Ta Ua] _] [[Wb Tb Ub] _] He Ha Hb.
  assert (H : eval Ideal ρ a = eval Ideal ρ b).
  { apply (equal_test ρ (world_blind _ _ W)); try done; by apply usual_plain. }
  unfold val in *. congruence.
Qed.

Lemma complementary_total a b : box_typed a -> box_typed b -> exists c, complementary equal a b = Ok c /\
  (c = true -> maybe_unused a = true /\ maybe_unused b = true /\
   forall ρ p q, world ρ -> active ρ a p -> active ρ b q -> q = negb p).
Proof.
  intros Ha Hb. unfold complementary. destruct (maybe_unused a && maybe_unused b) eqn:Hm; [|by exists false].
  apply andb_true_iff in Hm as [Ma Mb].
  destruct (sometimes_used a Ha Ma) as (u & -> & Tu & Vu), (sometimes_used b Hb Mb) as (w & -> & Tw & Vw).
  destruct (not_total w Tw) as (-> & Tnw & Vnw). cbn [mbind res_bind].
  destruct (equal (eref u) (eref (Not w))) eqn:E1.
  { exists true. split; [done|]. intros _. do 2 (split; [done|]). intros ρ p q W Hp%Vu Hq%Vw%Vnw.
    pose proof (equal_value ρ tb u (Not w) _ _ (scalar_std _ scalar_bool) W Tu Tnw E1 Hp Hq). by destruct p, q. }
  destruct (not_total u Tu) as (-> & Tnu & Vnu). cbn [mbind res_bind]. eexists. split; [reflexivity|]. intros E2.
  do 2 (split; [done|]). intros ρ p q W Hp%Vu%Vnu Hq%Vw.
  pose proof (equal_value ρ tb (Not u) w _ _ (scalar_std _ scalar_bool) W Tnu Tw E2 Hp Hq). by destruct p, q.
Qed.

(** ** One end of a union *)

(** The value of the end: that of the boxes that are touched. *)
Definition chosen (op : binop) (p q : bool) (x y : Z) : Z := if p && q then lane_op op x y else if p then x else y.

Lemma merge_end_total op make a b c x y : minmax op ->
  (forall x y, make (eref x) (eref y) = extremum same_as equal op (combine_fuel op (eref x) (eref y)) (eref x) (eref y)) ->
  box_typed a -> box_typed b -> complementary equal a b = Ok c -> hasty Γ t x -> hasty Γ t y ->
  exists e, merge_end simplify make a b c (eref x) (eref y) = Ok (eref e) /\ hasty Γ t e /\
    forall ρ p q v w, world ρ -> active ρ a p -> active ρ b q -> val ρ x v -> val ρ y w ->
      val ρ e (chosen op p q v w).
Proof.
  intros Hop Hmk Ha Hb Hc Tx Ty.
  destruct (extremum_total Γ t Ht same_as same_as_sound same_as_refl equal equal_test op x y Hop Tx Ty) as (m & Em & Tm & Vm).
  rewrite <- Hmk in Em. unfold merge_end.
  assert (Hfin : forall r e, r = Ok (eref e) -> hasty Γ t e ->
    (forall ρ p q v w, world ρ -> active ρ a p -> active ρ b q -> val ρ x v -> val ρ y w -> val ρ e (chosen op p q v w)) ->
    exists e', (e ← r; e ← deref e; Ok (simplified simplify e)) = Ok (eref e') /\ hasty Γ t e' /\
      forall ρ p q v w, world ρ -> active ρ a p -> active ρ b q -> val ρ x v -> val ρ y w -> val ρ e' (chosen op p q v w)).
  { intros r e -> Te Ve. exists (simplify e). split; [done|]. split; [by apply simplify_hasty; [apply Ht|]|].
    intros ρ p q v w W Hp Hq Hv Hw. apply (simplify_value Γ ρ t); [apply Ht|done|apply W|by apply Ve]. }
  destruct (complementary_total a b Ha Hb) as (c' & Ec & Vc). rewrite Hc in Ec. injection Ec as <-.
  destruct (maybe_unused a) eqn:Ma, (maybe_unused b) eqn:Mb; cbn [andb];
    try (destruct (sometimes_used a Ha Ma) as (ua & Ea & Ta & Va); rewrite Ea);
    try (destruct (sometimes_used b Hb Mb) as (ub & Eb & Tb & Vb); rewrite Eb).
  - destruct c.
    + destruct (select_total Γ t Ht ua x y Ta Tx Ty) as [Es Ts]. rewrite Es.
      apply (Hfin _ (Select ua x y)); [done|done|]. intros ρ p q v w W Hp Hq Hv Hw.
      destruct (Vc eq_refl) as (_ & _ & Vq). rewrite (Vq ρ p q W Hp Hq).
      pose proof (val_select ρ ua x y p v w (proj1 (Va _ _) Hp) Hv Hw) as H. by destruct p.
    + destruct (and_total Γ ua ub Ta Tb) as [Eand Tand]. rewrite Eand. cbn [mbind res_bind]. rewrite Em. cbn [mbind res_bind select_multi].
      destruct (select_total Γ t Ht ua x y Ta Tx Ty) as [Es Ts]. rewrite Es. cbn [mbind res_bind].
      destruct (select_total Γ t Ht (Bin And ua ub) m (Select ua x y) Tand Tm Ts) as [Es' Ts']. rewrite Es'.
      apply (Hfin _ (Select (Bin And ua ub) m (Select ua x y))); [done|done|]. intros ρ p q v w W Hp Hq Hv Hw.
      apply Va in Hp. apply Vb in Hq.
      pose proof (val_select ρ _ _ _ _ _ _ (val_and ρ ua ub p q Hp Hq) (Vm ρ v w W Hv Hw) (val_select ρ ua x y p v w Hp Hv Hw)) as H.
      unfold chosen. by destruct p, q.
  - rewrite Em. cbn [mbind res_bind].
    destruct (select_total Γ t Ht ua m y Ta Tm Ty) as [Es Ts]. rewrite Es.
    apply (Hfin _ (Select ua m y)); [done|done|]. intros ρ p q v w W Hp Hq Hv Hw.
    rewrite (always_used ρ b q Hb W Mb Hq).
    pose proof (val_select ρ ua m y p _ w (proj1 (Va _ _) Hp) (Vm ρ v w W Hv Hw) Hw) as H. by destruct p.
  - rewrite Em. cbn [mbind res_bind].
    destruct (select_total Γ t Ht ub m x Tb Tm Tx) as [Es Ts]. rewrite Es.
    apply (Hfin _ (Select ub m x)); [done|done|]. intros ρ p q v w W Hp Hq Hv Hw.
    rewrite (always_used ρ a p Ha W Ma Hp).
    pose proof (val_select ρ ub m x q _ v (proj1 (Vb _ _) Hq) (Vm ρ v w W Hv Hw) Hv) as H. by destruct q.
  - apply (Hfin _ m); [done|done|]. intros ρ p q v w W Hp Hq Hv Hw.
    rewrite (always_used ρ a p Ha W Ma Hp), (always_used ρ b q Hb W Mb Hq). by apply Vm.
Qed.

Lemma chosen_min p q v w z : (p = true /\ v <= z) \/ (q = true /\ w <= z) -> chosen Min p q v w <= z.
Proof. unfold chosen. intros [[-> ?]|[-> ?]]; [destruct q|destruct p]; simpl; lia. Qed.
Lemma chosen_max p q v w z : (p = true /\ z <= v) \/ (q = true /\ z <= w) -> z <= chosen Max p q v w.
Proof. unfold chosen. intros [[-> ?]|[-> ?]]; [destruct q|destruct p]; simpl; lia. Qed.

Lemma reads_finite ρ inf e : reads ρ inf (eref e) -> eref e <> inf -> exists l, val ρ e l.
Proof. intros [H|(e' & l & [= <-] & Hl)] Hn; [done|]. by exists l. Qed.

Ltac infinite_end := eexists; split; [reflexivity|]; split; [by left|]; intros; split; [by left|]; intros; by left.

(** The first half of the body of the loop. *)
Lemma merge_lower a b c x y : box_typed a -> box_typed b -> complementary equal a b = Ok c -> ends_ok Γ t x -> ends_ok Γ t y ->
  exists lo, (if negb (same_as (i_min x) (i_min y)) then
         if has_lower_bound same_as x && has_lower_bound same_as y then
           lo ← merge_end simplify (make_min same_as equal) a b c (i_min x) (i_min y); Ok (mkInterval lo (i_max x))
         else Ok (mkInterval neg_inf (i_max x))
       else Ok x) = Ok (mkInterval lo (i_max x)) /\ lower_ok Γ t lo /\
    forall ρ p q, world ρ -> active ρ a p -> active ρ b q -> reads ρ neg_inf (i_min x) -> reads ρ neg_inf (i_min y) ->
      reads ρ neg_inf lo /\ forall z, (p = true /\ above ρ (i_min x) z) \/ (q = true /\ above ρ (i_min y) z) -> above ρ lo z.
Proof.
  intros Ha Hb Hc Hx Hy. destruct (same_as (i_min x) (i_min y)) eqn:Es; cbn [negb].
  { apply same_as_sound in Es. exists (i_min x). split; [by destruct x|]. split; [apply Hx|].
    intros ρ p q W Hp Hq Rx Ry. split; [done|]. rewrite <- Es. by intros z [[_ ?]|[_ ?]]. }
  destruct (lower_view Γ t Ht same_as same_as_sound same_as_refl x Hx) as [[-> _]|(ex & -> & -> & Tx)]; [infinite_end|].
  destruct (lower_view Γ t Ht same_as same_as_sound same_as_refl y Hy) as [[-> _]|(ey & -> & -> & Ty)]; [infinite_end|].
  destruct (merge_end_total Min (make_min same_as equal) a b c ex ey) as (e & -> & Te & Ve); try done; [by right|].
  exists (eref e). split; [done|]. split; [right; by exists e|]. intros ρ p q W Hp Hq Rx Ry.
  apply reads_finite in Rx as (v & Hv); [|by apply (hasty_not_inf Γ t Ht)]. apply reads_finite in Ry as (w & Hw); [|by apply (hasty_not_inf Γ t Ht)].
  pose proof (Ve ρ p q v w W Hp Hq Hv Hw) as Hval. split; [right; by eexists _, _|]. intros z Hz. eapply above_val; [exact Hval|].
  apply chosen_min. destruct Hz as [[-> Hz]|[-> Hz]]; [left|right]; (split; [done|]);
    apply (above_finite Γ t Ht) in Hz as (l & Hl & ?); try done; [by rewrite (val_same ρ ex v l)|by rewrite (val_same ρ ey w l)].
Qed.

(** The second half. *)
Lemma merge_upper a b c x y : box_typed a -> box_typed b -> complementary equal a b = Ok c -> ends_ok Γ t x -> ends_ok Γ t y ->
  exists hi, (if negb (same_as (i_max x) (i_max y)) then
         if has_upper_bound same_as x && has_upper_bound same_as y then
           hi ← merge_end simplify (make_max same_as equal) a b c (i_max x) (i_max y); Ok (mkInterval (i_min x) hi)
         else Ok (mkInterval (i_min x) pos_inf)
       else Ok x) = Ok (mkInterval (i_min x) hi) /\ upper_ok Γ t hi /\
    forall ρ p q, world ρ -> active ρ a p -> active ρ b q -> reads ρ pos_inf (i_max x) -> reads ρ pos_inf (i_max y) ->
      reads ρ pos_inf hi /\ forall z, (p = true /\ below ρ (i_max x) z) \/ (q = true /\ below ρ (i_max y) z) -> below ρ hi z.
Proof.
  intros Ha Hb Hc Hx Hy. destruct (same_as (i_max x) (i_max y)) eqn:Es; cbn [negb].
  { apply same_as_sound in Es. exists (i_max x). split; [by destruct x|]. split; [apply Hx|].
    intros ρ p q W Hp Hq Rx Ry. split; [done|]. rewrite <- Es. by intros z [[_ ?]|[_ ?]]. }
  destruct (upper_view Γ t Ht same_as same_as_sound same_as_refl x Hx) as [[-> _]|(ex & -> & -> & Tx)]; [infinite_end|].
  destruct (upper_view Γ t Ht same_as same_as_sound same_as_refl y Hy) as [[-> _]|(ey & -> & -> & Ty)]; [infinite_end|].
  destruct (merge_end_total Max (make_max same_as equal) a b c ex ey) as (e & -> & Te & Ve); try done; [by left|].
  exists (eref e). split; [done|]. split; [right; by exists e|]. intros ρ p q W Hp Hq Rx Ry.
  apply reads_finite in Rx as (v & Hv); [|by apply (hasty_not_inf Γ t Ht)]. apply reads_finite in Ry as (w & Hw); [|by apply (hasty_not_inf Γ t Ht)].
  pose proof (Ve ρ p q v w W Hp Hq Hv Hw) as Hval. split; [right; by eexists _, _|]. intros z Hz. eapply below_val; [exact Hval|].
  apply chosen_max. destruct Hz as [[-> Hz]|[-> Hz]]; [left|right]; (split; [done|]);
    apply (below_finite Γ t Ht) in Hz as (l & Hl & ?); try done; [by rewrite (val_same ρ ex v l)|by rewrite (val_same ρ ey w l)].
Qed.

Lemma merge_interval_total a b c x y : box_typed a -> box_typed b -> complementary equal a b = Ok c -> ends_ok Γ t x -> ends_ok Γ t y ->
  exists i, merge_interval same_as equal simplify a b c x y = Ok i /\ ends_ok Γ t i /\
    forall ρ p q, world ρ -> active ρ a p -> active ρ b q -> interval_reads ρ x -> interval_reads ρ y ->
      interval_reads ρ i /\ forall z, (p = true /\ inside ρ x z) \/ (q = true /\ inside ρ y z) -> inside ρ i z.
Proof.
  intros Ha Hb Hc Hx Hy. unfold merge_interval.
  destruct (merge_lower a b c x y Ha Hb Hc Hx Hy) as (lo & El & Ol & Vl). rewrite El. cbn [mbind res_bind].
  assert (Hx' : ends_ok Γ t (mkInterval lo (i_max x))) by (split; [done|apply Hx]).
  destruct (merge_upper a b c _ y Ha Hb Hc Hx' Hy) as (hi & Eh & Oh & Vh). rewrite Eh.
  eexists. split; [done|]. split; [by split|]. intros ρ p q W Hp Hq [Rx1 Rx2] [Ry1 Ry2].
  destruct (Vl ρ p q W Hp Hq Rx1 Ry1) as [R1 I1]. destruct (Vh ρ p q W Hp Hq Rx2 Ry2) as [R2 I2].
  split; [by split|]. intros z Hz. split; [apply I1|apply I2]; destruct Hz as [[? []]|[? []]]; auto.
Qed.

(** ** Unions *)

Lemma zip_res_total {A B C} (f : A -> B -> res C) (P : A -> Prop) (Q : B -> Prop) (R : A -> B -> C -> Prop) a b :
  (forall x y, P x -> Q y -> exists z, f x y = Ok z /\ R x y z) -> Forall P a -> Forall Q b -> List.length a = List.length b ->
  exists c, zip_res f a b = Ok c /\ Forall3 R a b c.
Proof.
  intros Hf Ha. revert b. induction Ha as [|x a Hx Ha IH]; intros [|y b] Hb Hl; try done.
  { exists []. split; [done|constructor]. }
  apply Forall_cons in Hb as [Hy Hb]. destruct (Hf x y Hx Hy) as (z & Ez & Rz).
  destruct (IH b Hb ltac:(by injection Hl)) as (c & Ec & Rc). exists (z :: c). split; [|by constructor].
  cbn [zip_res]. rewrite Ez. cbn [mbind res_bind]. by rewrite Ec.
Qed.

Lemma merge_used_total a b : box_typed a -> box_typed b -> exists u, merge_used equal simplify a b = Ok u /\
  (forall e, u = eref e -> hasty Γ tb e) /\
  forall ρ p q, world ρ -> active ρ a p -> active ρ b q ->
    exists r, active ρ (mkBox u []) r /\ (p || q = true -> r = true).
Proof.
  intros Ha Hb. unfold merge_used. destruct (maybe_unused a && maybe_unused b) eqn:Hm.
  2:{ exists None. split; [done|]. split; [done|]. intros. by exists true. }
  apply andb_true_iff in Hm as [Ma Mb].
  destruct (sometimes_used a Ha Ma) as (u & -> & Tu & Vu), (sometimes_used b Hb Mb) as (w & -> & Tw & Vw).
  destruct (equal (eref u) (eref w)) eqn:Ee; cbn [negb].
  { exists (eref u). split; [done|]. split; [by intros e [= <-]|]. intros ρ p q W Hp%Vu Hq%Vw. exists p. split; [done|].
    pose proof (equal_value ρ tb u w _ _ (scalar_std _ scalar_bool) W Tu Tw Ee Hp Hq). by destruct p, q. }
  destruct (or_total u w Tu Tw) as (-> & To & Vo). cbn [mbind res_bind]. eexists. split; [reflexivity|].
  assert (Ts : hasty Γ tb (simplify (Bin Or u w))) by (by apply simplify_hasty; [apply scalar_bool|]).
  destruct (is_one (simplify (Bin Or u w))).
  { split; [done|]. intros. by exists true. }
  split; [by intros e [= <-]|]. intros ρ p q W Hp%Vu Hq%Vw. exists (p || q). split; [|done].
  apply (simplify_value Γ ρ tb); [apply scalar_bool|done|apply W|by apply Vo].
Qed.

(** What the union of two intervals [i] promises when the boxes are active as [p] and [q] say. *)
Definition covers (ρ : env) (p q : bool) (x y i : Interval) : Prop := interval_reads ρ x -> interval_reads ρ y ->
  interval_reads ρ i /\ forall z, (p = true /\ inside ρ x z) \/ (q = true /\ inside ρ y z) -> inside ρ i z.

Lemma covers_all ρ p q a b c : Forall3 (covers ρ p q) a b c -> Forall (interval_reads ρ) a -> Forall (interval_reads ρ) b ->
  Forall (interval_reads ρ) c /\
  forall z, (p = true /\ Forall2 (inside ρ) a z) \/ (q = true /\ Forall2 (inside ρ) b z) -> Forall2 (inside ρ) c z.
Proof.
  induction 1 as [|x y i a b c Hi Hc IH]; intros Ra Rb.
  { split; [constructor|]. by intros z [[_ Hz]|[_ Hz]]; inversion Hz. }
  apply Forall_cons in Ra as [Rx Ra], Rb as [Ry Rb]. destruct (Hi Rx Ry) as [Ri Vi]. destruct (IH Ra Rb) as [Rc Vc].
  split; [by constructor|]. intros z [[Hp Hz]|[Hq Hz]]; inversion Hz; subst; constructor; auto.
Qed.

Lemma merge_boxes_total a b : box_typed a -> box_typed b -> empty a = false -> size a = size b ->
  exists c, merge_boxes same_as equal simplify a b = Ok c /\ box_typed c /\ size c = size a /\
    forall ρ, world ρ -> box_reads ρ a -> box_reads ρ b ->
      box_reads ρ c /\ forall z, touches ρ a z \/ touches ρ b z -> touches ρ c z.
Proof.
  intros Ha Hb He Hs. unfold merge_boxes. assert (He' : empty b = false) by (unfold empty in *; by rewrite <- Hs).
  rewrite He, He', Hs, Nat.eqb_refl. cbn [internal_assert mbind res_bind].
  destruct (complementary_total a b Ha Hb) as (c & Ec & _). rewrite Ec. cbn [mbind res_bind].
  destruct (zip_res_total (merge_interval same_as equal simplify a b c) (ends_ok Γ t) (ends_ok Γ t) (fun x y i =>
    ends_ok Γ t i /\ forall ρ p q, world ρ -> active ρ a p -> active ρ b q -> covers ρ p q x y i)
    (bounds a) (bounds b)) as (l & -> & Hl);
    [intros x y Hx Hy; by apply merge_interval_total|apply Ha|apply Hb|done|]. cbn [mbind res_bind].
  destruct (merge_used_total a b Ha Hb) as (u & -> & Tu & Vu). cbn [mbind res_bind]. eexists. split; [done|].
  split; [|split].
  - split; [intros w; simpl; intros ->; by apply Tu|]. simpl. clear -Hl. induction Hl as [|x y i ? ? ? [] ? IH]; by constructor.
  - unfold size. simpl. change (List.length l = size b). rewrite <- Hs. symmetry. by apply Forall3_length_lr in Hl.
  - intros ρ W [[p Hp] Ra] [[q Hq] Rb].
    assert (Hc : Forall3 (covers ρ p q) (bounds a) (bounds b) l) by (eapply Forall3_impl; [exact Hl|]; intros x y i []; auto).
    destruct (covers_all ρ p q _ _ _ Hc Ra Rb) as [Rl Vl]. destruct (Vu ρ p q W Hp Hq) as (r & Hr & Hpq).
    split; [split; [by exists r|done]|]. intros z Hz.
    assert (Hpz : (p = true /\ Forall2 (inside ρ) (bounds a) z) \/ (q = true /\ Forall2 (inside ρ) (bounds b) z)).
    { destruct Hz as [[Hz1 Hz]|[Hz1 Hz]]; [left|right]; (split; [|done]).
      - by apply (active_same ρ a p true).
      - by apply (active_same ρ b q true). }
    split; [|by apply Vl]. destruct Hpz as [[-> _]|[-> _]]; rewrite Hpq in Hr; by rewrite ?orb_true_r.
Qed.

(** ** Tests *)

Definition finite_box (B : Box) : Prop := Forall (fun i => is_bounded same_as i = true) (bounds B).

Lemma and_also_total c m e : hasty Γ tb c -> m = Ok e -> hasty Γ tb e ->
  and_also c m = Ok (Bin And c e) /\ hasty Γ tb (Bin And c e).
Proof. intros Hc -> He. unfold and_also. cbn [mbind res_bind]. by apply and_total. Qed.

Lemma used_or_true_total B : box_typed B -> exists u, used_or_true B = Ok (eref u) /\ hasty Γ tb u /\
  forall ρ p, world ρ -> active ρ B p -> val ρ u (Z.b2z p).
Proof.
  intros HB. unfold used_or_true. destruct (maybe_unused B) eqn:Hm.
  - destruct (sometimes_used B HB Hm) as (u & -> & Tu & Vu). exists u. split; [done|]. split; [done|]. intros ρ p _. apply Vu.
  - exists (const_node tb 1). split; [done|]. split; [by apply hasty_const; [apply scalar_bool|]|].
    intros ρ p W Hp. rewrite (always_used ρ B p HB W Hm Hp). by apply (val_const tb scalar_bool ρ).
Qed.

Lemma ge_total x y : hasty Γ t x -> hasty Γ t y -> operator_ge (eref x) (eref y) = Ok (Bin GE x y) /\ hasty Γ tb (Bin GE x y).
Proof. intros Hx Hy. apply (cmp_total Γ t Ht GE operator_ge); [eexists; right; eexists; reflexivity|done..]. Qed.
Lemma le_total x y : hasty Γ t x -> hasty Γ t y -> operator_le (eref x) (eref y) = Ok (Bin LE x y) /\ hasty Γ tb (Bin LE x y).
Proof. intros Hx Hy. apply (cmp_total Γ t Ht LE operator_le); [eexists; right; eexists; reflexivity|done..]. Qed.

(** A finite interval that can be read has two numbers for ends. *)
Lemma finite_reads ρ lo hi : hasty Γ t lo -> hasty Γ t hi -> interval_reads ρ (mkInterval (eref lo) (eref hi)) ->
  exists l u, val ρ lo l /\ val ρ hi u /\ forall z, inside ρ (mkInterval (eref lo) (eref hi)) z <-> l <= z <= u.
Proof.
  intros Tl Tu [Rl Ru]. apply reads_finite in Rl as (l & Hl); [|by apply (hasty_not_inf Γ t Ht)].
  apply reads_finite in Ru as (u & Hu); [|by apply (hasty_not_inf Γ t Ht)]. exists l, u. split; [done|]. split; [done|]. intros z. split.
  - intros [Hzl Hzu]. apply (above_finite Γ t Ht) in Hzl as (l' & Hl' & ?); [|done]. apply (below_finite Γ t Ht) in Hzu as (u' & Hu' & ?); [|done].
    by rewrite (val_same _ _ _ _ Hl Hl'), (val_same _ _ _ _ Hu Hu').
  - intros [? ?]. split; [by eapply above_val|by eapply below_val].
Qed.

Lemma overlap_tests_total o x y : hasty Γ tb o -> ends_ok Γ t x -> ends_ok Γ t y ->
  is_bounded same_as x = true -> is_bounded same_as y = true ->
  exists o', overlap_tests same_as o x y = Ok o' /\ hasty Γ tb o' /\
    forall ρ p, val ρ o (Z.b2z p) -> interval_reads ρ x -> interval_reads ρ y ->
      exists r, val ρ o' (Z.b2z r) /\ forall z, p = true -> inside ρ x z -> inside ρ y z -> r = true.
Proof.
  intros To Ox Oy Bx By. unfold overlap_tests. assert (H := Bx). assert (H' := By). unfold is_bounded in H, H'.
  apply andb_true_iff in H as [-> ->], H' as [-> ->]. cbn [andb].
  apply (bounded_view Γ t Ht same_as same_as_sound) in Bx as (lx & ux & -> & Tlx & Tux); [|done..].
  apply (bounded_view Γ t Ht same_as same_as_sound) in By as (ly & uy & -> & Tly & Tuy); [|done..]. cbn [i_min i_max].
  destruct (ge_total uy lx Tuy Tlx) as [E1 T1]. destruct (and_also_total o _ _ To E1 T1) as [-> T1']. cbn [mbind res_bind].
  destruct (ge_total ux ly Tux Tly) as [E2 T2]. destruct (and_also_total _ _ _ T1' E2 T2) as [-> T2'].
  eexists. split; [done|]. split; [done|]. intros ρ p Hp Rx Ry.
  destruct (finite_reads ρ lx ux Tlx Tux Rx) as (a & b & Ha & Hb & Ix). destruct (finite_reads ρ ly uy Tly Tuy Ry) as (c & d & Hc & Hd & Iy).
  eexists. split.
  - apply val_and; [apply val_and; [exact Hp|]|]; by apply (val_cmp ρ GE).
  - intros z -> Hx%Ix Hy%Iy. simpl. apply andb_true_iff. split; apply Z.leb_le; lia.
Qed.

Lemma contain_tests_total c x y : hasty Γ tb c -> ends_ok Γ t x -> ends_ok Γ t y ->
  is_bounded same_as x = true -> is_bounded same_as y = true ->
  exists c', contain_tests c x y = Ok c' /\ hasty Γ tb c' /\
    forall ρ p, val ρ c (Z.b2z p) -> interval_reads ρ x -> interval_reads ρ y ->
      exists r, val ρ c' (Z.b2z r) /\ (r = true -> p = true /\ forall z, inside ρ y z -> inside ρ x z).
Proof.
  intros To Ox Oy Bx By. unfold contain_tests.
  apply (bounded_view Γ t Ht same_as same_as_sound) in Bx as (lx & ux & -> & Tlx & Tux); [|done..].
  apply (bounded_view Γ t Ht same_as same_as_sound) in By as (ly & uy & -> & Tly & Tuy); [|done..]. cbn [i_min i_max].
  destruct (le_total lx ly Tlx Tly) as [E1 T1]. destruct (and_also_total c _ _ To E1 T1) as [-> T1']. cbn [mbind res_bind].
  destruct (ge_total ux uy Tux Tuy) as [E2 T2]. destruct (and_also_total _ _ _ T1' E2 T2) as [-> T2'].
  eexists. split; [done|]. split; [done|]. intros ρ p Hp Rx Ry.
  destruct (finite_reads ρ lx ux Tlx Tux Rx) as (a & b & Ha & Hb & Ix). destruct (finite_reads ρ ly uy Tly Tuy Ry) as (d & e & Hd & He & Iy).
  eexists. split.
  - apply val_and; [apply val_and; [exact Hp|by apply (val_cmp ρ LE)]|by apply (val_cmp ρ GE)].
  - simpl. rewrite !andb_true_iff. intros [[-> H1%Z.leb_le] H2%Z.leb_le]. split; [done|]. intros z Hz%Iy. apply Ix. lia.
Qed.

(** The loops. *)
Lemma overlap_loop a b o : hasty Γ tb o -> Forall (ends_ok Γ t) a -> Forall (ends_ok Γ t) b ->
  Forall (fun i => is_bounded same_as i = true) a -> Forall (fun i => is_bounded same_as i = true) b ->
  exists o', fold_both (overlap_tests same_as) o a b = Ok o' /\ hasty Γ tb o' /\
    forall ρ p, val ρ o (Z.b2z p) -> Forall (interval_reads ρ) a -> Forall (interval_reads ρ) b ->
      exists r, val ρ o' (Z.b2z r) /\ forall z, p = true -> Forall2 (inside ρ) a z -> Forall2 (inside ρ) b z -> r = true.
Proof.
  revert b o. induction a as [|x a IH]; intros b o To Oa Ob Ba Bb.
  { exists o. split; [by destruct b|]. split; [done|]. intros ρ p Hp _ _. by exists p. }
  destruct b as [|y b].
  { exists o. split; [done|]. split; [done|]. intros ρ p Hp _ _. by exists p. }
  apply Forall_cons in Oa as [Ox Oa], Ob as [Oy Ob], Ba as [Bx Ba], Bb as [By Bb]. cbn [fold_both].
  destruct (overlap_tests_total o x y To Ox Oy Bx By) as (o1 & -> & T1 & V1). cbn [mbind res_bind].
  destruct (IH b o1 T1 Oa Ob Ba Bb) as (o2 & -> & T2 & V2). exists o2. split; [done|]. split; [done|].
  intros ρ p Hp [Rx Ra]%Forall_cons [Ry Rb]%Forall_cons. destruct (V1 ρ p Hp Rx Ry) as (q & Hq & Iq).
  destruct (V2 ρ q Hq Ra Rb) as (r & Hr & Ir). exists r. split; [done|]. intros z Hpt Hxz Hyz.
  inversion Hxz; subst. inversion Hyz; subst. eauto.
Qed.

Lemma contain_loop a b c : hasty Γ tb c -> Forall (ends_ok Γ t) a -> Forall (ends_ok Γ t) b ->
  Forall (fun i => is_bounded same_as i = true) a -> Forall (fun i => is_bounded same_as i = true) b -> (List.length b <= List.length a)%nat ->
  exists c', fold_both contain_tests c a b = Ok c' /\ hasty Γ tb c' /\
    forall ρ p, val ρ c (Z.b2z p) -> Forall (interval_reads ρ) a -> Forall (interval_reads ρ) b ->
      exists r, val ρ c' (Z.b2z r) /\ (r = true -> p = true /\
        forall z, Forall2 (inside ρ) b z -> Forall2 (inside ρ) (take (List.length b) a) z).
Proof.
  revert b c. induction a as [|x a IH]; intros b c Tc Oa Ob Ba Bb Hl.
  { destruct b as [|y b]; [|simpl in Hl; lia]. exists c. split; [done|]. split; [done|]. intros ρ p Hp _ _. by exists p. }
  destruct b as [|y b].
  { exists c. split; [done|]. split; [done|]. intros ρ p Hp _ _. by exists p. }
  apply Forall_cons in Oa as [Ox Oa], Ob as [Oy Ob], Ba as [Bx Ba], Bb as [By Bb]. cbn [fold_both]. simpl in Hl.
  destruct (contain_tests_total c x y Tc Ox Oy Bx By) as (c1 & -> & T1 & V1). cbn [mbind res_bind].
  destruct (IH b c1 T1 Oa Ob Ba Bb ltac:(lia)) as (c2 & -> & T2 & V2). exists c2. split; [done|]. split; [done|].
  intros ρ p Hp [Rx Ra]%Forall_cons [Ry Rb]%Forall_cons. destruct (V1 ρ p Hp Rx Ry) as (q & Hq & Iq).
  destruct (V2 ρ q Hq Ra Rb) as (r & Hr & Ir). exists r. split; [done|]. intros Hrt. destruct (Ir Hrt) as [Hqt Hz].
  destruct (Iq Hqt) as [Hpt Hz0]. split; [done|]. intros z Hyz. inversion Hyz; subst. simpl. constructor; auto.
Qed.

(** What a simplified condition that is the constant 1 says. *)
Lemma simplified_one c ρ p : hasty Γ tb c -> world ρ -> is_one (simplify c) = true -> val ρ c (Z.b2z p) -> p = true.
Proof.
  intros Tc W H1 Hp. apply (is_one_true ρ (simplify c)); [by apply simplify_hasty; [apply scalar_bool|]|done..|].
  by apply (simplify_value Γ ρ tb); [apply scalar_bool|done|apply W|].
Qed.

Lemma boxes_overlap_total a b : box_typed a -> box_typed b -> finite_box a -> finite_box b -> size a = size b ->
  exists r, boxes_overlap same_as simplify a b = Ok r /\
    (r = false -> forall ρ, world ρ -> box_reads ρ a -> box_reads ρ b -> forall z, touches ρ a z -> touches ρ b z -> False).
Proof.
  intros Ha Hb Fa Fb Hs. unfold boxes_overlap. rewrite Hs, Nat.eqb_refl. cbn [negb andb internal_assert mbind res_bind].
  destruct (used_or_true_total a Ha) as (u & -> & Tu & Vu), (used_or_true_total b Hb) as (w & -> & Tw & Vw). cbn [mbind res_bind].
  destruct (and_total Γ u w Tu Tw) as [-> To]. cbn [mbind res_bind].
  destruct (overlap_loop (bounds a) (bounds b) _ To) as (o & -> & T1 & V1); try apply Ha; try apply Hb; try done. cbn [mbind res_bind].
  destruct (not_total o T1) as (-> & Tn & Vn). cbn [mbind res_bind].
  pose proof (simplify_hasty Γ tb (Not o) (scalar_std _ scalar_bool) Tn) as Ts.
  destruct (can_prove_total simplify Γ (simplify (Not o)) Ts) as (r & -> & Hr). eexists. split; [done|].
  intros H%negb_false_iff ρ W Ra Rb z [A1 I1] [A2 I2].
  destruct (V1 ρ true (val_and ρ u w true true (Vu ρ true W A1) (Vw ρ true W A2)) (reads_ends _ _ Ra) (reads_ends _ _ Rb)) as (q & Hq & Iq).
  rewrite (Iq z eq_refl I1 I2) in Hq. apply Vn in Hq.
  apply (simplify_value Γ ρ tb) in Hq; [|apply scalar_bool|done|apply W]. by apply (Hr H ρ false W) in Hq.
Qed.

Lemma box_contains_total a b : box_typed a -> box_typed b -> finite_box a -> finite_box b ->
  exists r, box_contains simplify a b = Ok r /\
    (r = true -> forall ρ, world ρ -> box_reads ρ a -> box_reads ρ b -> forall z, touches ρ b z ->
      touches ρ (mkBox (used a) (take (size b) (bounds a))) z).
Proof.
  intros Ha Hb Fa Fb. unfold box_contains. destruct (Nat.ltb (size a) (size b)) eqn:Hs; [by exists false|]. apply Nat.ltb_ge in Hs.
  change (const_true 1) with (Ok (const_node tb 1)). cbn [mbind res_bind].
  assert (T1 : hasty Γ tb (const_node tb 1)) by (by apply hasty_const; [apply scalar_bool|]).
  destruct (contain_loop (bounds a) (bounds b) _ T1) as (c & -> & Tc & Vc); try apply Ha; try apply Hb; try done. cbn [mbind res_bind].
  assert (V1 : forall ρ, val ρ (const_node tb 1) (Z.b2z true)) by (intros ρ; by apply (val_const tb scalar_bool ρ)).
  destruct (maybe_unused a) eqn:Ma.
  2:{ eexists. split; [done|]. intros H1 ρ W [[p Hp] Ra] [[q Hq] Rb] z [_ Iz].
      destruct (Vc ρ true (V1 ρ) Ra Rb) as (r & Hr & Ir). apply (simplified_one c ρ r Tc W) in H1 as ->; [|done].
      split; [|by apply Ir]. unfold active at 1. cbn [used]. fold (active ρ a true). by rewrite (always_used ρ a p Ha W Ma Hp) in Hp. }
  destruct (maybe_unused b) eqn:Mb; [|by exists false].
  destruct (sometimes_used a Ha Ma) as (u & Eu & Tu & Vu), (sometimes_used b Hb Mb) as (w & Ew & Tw & Vw). rewrite Eu, Ew.
  destruct (and_total Γ u w Tu Tw) as [-> To]. cbn [mbind res_bind].
  assert (Hf : factory EQ operator_eq) by (eexists; right; eexists; reflexivity).
  destruct (cmp_total Γ tb scalar_bool EQ operator_eq (Bin And u w) w Hf eq_refl To Tw) as [Ee Te].
  destruct (and_also_total c _ _ Tc Ee Te) as [-> Tr]. cbn [mbind res_bind]. eexists. split; [done|].
  intros H1 ρ W [[p Hp] Ra] [[q Hq] Rb] z [Az Iz]. destruct (Vc ρ true (V1 ρ) Ra Rb) as (r & Hr & Ir).
  rewrite (active_same ρ b q true Hq Az) in Hq. apply Vu in Hp as Hp'. apply Vw in Hq as Hq'.
  pose proof (val_and ρ c _ r _ Hr (val_cmp ρ EQ _ _ _ _ eq_refl (val_and ρ u w p true Hp' Hq') Hq')) as Hv.
  apply (simplified_one _ ρ _ Tr W H1) in Hv. apply andb_true_iff in Hv as [-> Hv]. split; [|by apply Ir].
  unfold active. cbn [used]. rewrite <- Eu. fold (active ρ a true). by destruct p.
Qed.

(** ** Regions of 32- and 64-bit integers *)

Definition range_typed (r : Range) : Prop := hasty Γ t (range_min r) /\ hasty Γ t (range_extent r).
Definition range_reads (ρ : env) (r : Range) : Prop := exists m e, val ρ (range_min r) m /\ val ρ (range_extent r) e.
Definition within_range (ρ : env) (r : Range) (z : Z) : Prop :=
  exists m e, val ρ (range_min r) m /\ val ρ (range_extent r) e /\ m <= z < m + e.

Lemma unbounded_bin op a b x y ρ : unbounded t = true -> op = Add \/ op = Sub \/ op = Min \/ op = Max -> hasty Γ t a ->
  val ρ a x -> val ρ b y ->
  val ρ (Bin op a b) (match op with Add => x + y | Sub => x - y | Min => Z.min x y | _ => Z.max x y end).
Proof.
  intros Hu Hop Ha Hx Hy. pose proof (val_bin Γ t Ht ρ op a b x y) as H.
  replace (match op with Add => x + y | Sub => x - y | Min => Z.min x y | _ => Z.max x y end) with (iop t op x y).
  - apply H; try done; by destruct Hop as [-> | [-> | [-> | ->]]].
  - destruct Hop as [-> | [-> | [-> | ->]]]; unfold iop, norm; by rewrite ?Hu.
Qed.

Lemma range_union_total a b : unbounded t = true -> range_typed a -> range_typed b ->
  exists c, range_union simplify a b = Ok c /\
    (range_typed c /\ forall ρ, world ρ -> range_reads ρ a -> range_reads ρ b ->
      forall z, within_range ρ a z \/ within_range ρ b z -> within_range ρ c z).
Proof.
  intros Hu [Ta1 Ta2] [Tb1 Tb2]. unfold range_union.
  assert (Hplain : forall op, factory op (binary_make op "")) by (intros op; eexists; by left).
  destruct (arith_total Γ t Ht Min Min_make _ _ ltac:(eexists; by left) eq_refl Ta1 Tb1) as [-> T1]. cbn [mbind res_bind].
  destruct (arith_total Γ t Ht Add operator_add _ _ ltac:(eexists; right; eexists; reflexivity) eq_refl Ta1 Ta2) as [-> T2]. cbn [mbind res_bind].
  destruct (arith_total Γ t Ht Add operator_add _ _ ltac:(eexists; right; eexists; reflexivity) eq_refl Tb1 Tb2) as [-> T3]. cbn [mbind res_bind].
  destruct (arith_total Γ t Ht Max Max_make _ _ ltac:(eexists; by left) eq_refl T2 T3) as [-> T4]. cbn [mbind res_bind].
  destruct (arith_total Γ t Ht Sub operator_sub _ _ ltac:(eexists; right; eexists; reflexivity) eq_refl T4 T1) as [-> T5]. cbn [mbind res_bind].
  pose proof (simplify_hasty Γ t _ (scalar_std _ Ht) T1) as S1. pose proof (simplify_hasty Γ t _ (scalar_std _ Ht) T5) as S5.
  unfold Range_make. rewrite (type_eqb_trans_std t (scalar_std _ Ht) _ _ (hasty_type _ _ _ S1) (hasty_type _ _ _ S5)).
  eexists. split; [done|]. split; [by split|]. intros ρ W (m & e & Hm & He) (n & f & Hn & Hf) z Hz.
  pose proof (unbounded_bin Min _ _ _ _ ρ Hu ltac:(tauto) Ta1 Hm Hn) as V1.
  pose proof (unbounded_bin Add _ _ _ _ ρ Hu ltac:(tauto) Ta1 Hm He) as V2.
  pose proof (unbounded_bin Add _ _ _ _ ρ Hu ltac:(tauto) Tb1 Hn Hf) as V3.
  pose proof (unbounded_bin Max _ _ _ _ ρ Hu ltac:(tauto) T2 V2 V3) as V4.
  pose proof (unbounded_bin Sub _ _ _ _ ρ Hu ltac:(tauto) T4 V4 V1) as V5. simpl in V1, V2, V3, V4, V5.
  exists (Z.min m n), (Z.max (m + e) (n + f) - Z.min m n). cbn [range_min range_extent].
  split; [by apply (simplify_value Γ ρ t); [apply Ht|done|apply W|]|].
  split; [by apply (simplify_value Γ ρ t); [apply Ht|done|apply W|]|].
  destruct Hz as [(m' & e' & Hm' & He' & ?)|(m' & e' & Hm' & He' & ?)].
  - pose proof (val_same _ _ _ _ Hm Hm'). pose proof (val_same _ _ _ _ He He'). lia.
  - pose proof (val_same _ _ _ _ Hn Hm'). pose proof (val_same _ _ _ _ Hf He'). lia.
Qed.

Lemma region_union_total a b : unbounded t = true -> Forall range_typed a -> Forall range_typed b -> List.length a = List.length b ->
  exists c, region_union simplify a b = Ok c /\ Forall range_typed c /\
    forall ρ, world ρ -> Forall (range_reads ρ) a -> Forall (range_reads ρ) b ->
      forall z, Forall2 (within_range ρ) a z \/ Forall2 (within_range ρ) b z -> Forall2 (within_range ρ) c z.
Proof.
  intros Hu Ha Hb Hl. unfold region_union. rewrite Hl, Nat.eqb_refl. cbn [internal_assert mbind res_bind].
  destruct (zip_res_total (range_union simplify) range_typed range_typed _ a b (fun x y => range_union_total x y Hu) Ha Hb Hl) as (c & -> & Hc).
  exists c. split; [done|]. split; [clear -Hc; induction Hc as [|x y i ? ? ? [] ? IH]; by constructor|].
  intros ρ W. clear Hl Ha Hb. induction Hc as [|x y i a b c [_ Hi] Hc IH]; intros Ra Rb z Hz; [by destruct Hz as [Hz|Hz]; inversion Hz|].
  apply Forall_cons in Ra as [Rx Ra], Rb as [Ry Rb].
  destruct Hz as [Hz|Hz]; inversion Hz; subst; constructor; auto.
Qed.

(** C36. The union of two boxes of the same, positive number of dimensions: it is built, has
    well-typed ends that can be read, and touches every point that either box touches,
    whatever the two conditions are. The regions of loops and allocations have such a union too. *)
Theorem box_union_sound a b : box_typed a -> box_typed b -> empty a = false -> size a = size b ->
  exists c, box_union same_as equal simplify a b = Ok c /\ box_typed c /\ size c = size a /\
    forall ρ, world ρ -> box_reads ρ a -> box_reads ρ b ->
      box_reads ρ c /\ forall z, touches ρ a z \/ touches ρ b z -> touches ρ c z.
Proof. apply merge_boxes_total. Qed.

(** C37. The tests on boxes without infinite ends: [boxes_overlap] answers, and when it says no
    no point is touched by both; [box_contains] answers, and when it says yes every point the
    inner box touches is touched by the dimensions of the outer box that the inner one has. *)
Theorem box_tests_sound a b : box_typed a -> box_typed b -> finite_box a -> finite_box b -> size a = size b \/ size a = 0%nat \/ size b = 0%nat ->
  (exists r, boxes_overlap same_as simplify a b = Ok r /\
    (r = false -> forall ρ, world ρ -> box_reads ρ a -> box_reads ρ b -> forall z, touches ρ a z -> touches ρ b z -> False)) /\
  (exists r, box_contains simplify a b = Ok r /\
    (r = true -> forall ρ, world ρ -> box_reads ρ a -> box_reads ρ b -> forall z, touches ρ b z ->
      touches ρ (mkBox (used a) (take (size b) (bounds a))) z)).
Proof.
  intros Ha Hb Fa Fb Hs. split; [|by apply box_contains_total].
  destruct (decide (size a = size b)) as [|Hn]; [by apply boxes_overlap_total|].
  exists false. split.
  - unfold boxes_overlap. apply Nat.eqb_neq in Hn as Hn'. rewrite Hn'. destruct Hs as [|[-> | ->]]; [done|done|]. by rewrite orb_true_r.
  - intros _ ρ _ _ _ z [_ Ia] [_ Ib]. apply Forall2_length in Ia, Ib. unfold size in Hn. congruence.
Qed.
End Sound.

(** * Examples *)

Definition n32 (z : Z) : Expr := IntImm (Int 32 1) z.
Definition c_var : Expr := Var (Bool 1) "c" None None None.
Definition x_var : Expr := Var (Int 32 1) "x" None None None.
Definition from_to (l u : Expr) : Interval := mkInterval (eref l) (eref u).
Definition box_types : gmap string Ty := {["c" := Bool 1; "x" := Int 32 1]}.
Definition box_env : env := bind_var (bind_var empty_env "x" [VInt 5]) "c" [VInt 1].

(** [0, x] when [c], and [10, 20] when not. *)
Definition box_c : Box := mkBox (eref c_var) [from_to (n32 0) x_var].
Definition box_not_c : Box := mkBox (eref (Not c_var)) [from_to (n32 10) (n32 20)].

Lemma box_world : world box_types box_env.
Proof.
  split; [|by split]. split; [|done..]. intros y t v Ht Hv. unfold box_env, box_types in *. simpl in Hv.
  apply lookup_insert_Some in Hv as [[<- <-]|[_ Hv]]; [|apply lookup_insert_Some in Hv as [[<- <-]|[_ Hv]]; [|done]];
    vm_compute in Ht; injection Ht as <-; by repeat constructor.
Qed.

Lemma n32_finite z : representable (Int 32 1) z = true -> finite box_types (Int 32 1) (eref (n32 z)).
Proof. intros Hz. exists (n32 z). split; [done|]. by apply (hasty_const box_types (Int 32 1)). Qed.

Lemma box_1_typed u l h : (forall c, u = Some c -> hasty box_types (Bool 1) c) ->
  finite box_types (Int 32 1) (eref l) -> finite box_types (Int 32 1) (eref h) -> box_typed box_types (Int 32 1) (mkBox u [from_to l h]).
Proof. intros Hu Hl Hh. split; [done|]. constructor; [split; by right|constructor]. Qed.

Lemma box_1_reads u l h p x y : active box_env (mkBox u []) p -> val box_env l x -> val box_env h y ->
  box_reads box_env (mkBox u [from_to l h]).
Proof. intros Hu Hl Hh. split; [by exists p|]. constructor; [|constructor]. split; right; by eexists _, _. Qed.

Lemma touches_1 u l h x y z : active box_env (mkBox u []) true -> val box_env l x -> val box_env h y -> x <= z <= y ->
  touches box_env (mkBox u [from_to l h]) [z].
Proof.
  intros Hu Hl Hh Hz. split; [done|]. constructor; [|constructor]. split; right; eexists _, _; repeat split; eauto; lia.
Qed.

Lemma box_examples_typed : box_typed box_types (Int 32 1) box_c /\ box_typed box_types (Int 32 1) box_not_c.
Proof.
  split; apply box_1_typed; try (by apply n32_finite); try (intros c [= <-]; by repeat split). exists x_var. by repeat split.
Qed.

Lemma box_examples_read : box_reads box_env box_c /\ box_reads box_env box_not_c.
Proof. split; [by apply (box_1_reads _ _ _ true 0 5)|by apply (box_1_reads _ _ _ false 10 20)]. Qed.

Lemma box_union_sound_witness :
  size box_c = size box_not_c /\ exists u, box_union same_handle ir_equal fold_closed box_c box_not_c = Ok u /\ touches box_env u [3].
Proof.
  split; [done|]. destruct box_examples_typed as [Ta Tb], box_examples_read as [Ra Rb].
  destruct (box_union_sound same_handle ir_equal fold_closed same_handle_sound same_handle_refl box_types
    (fun ρ Hρ => equal_EqualityTest _ _ box_types ρ same_expr_sound Hρ) (Int 32 1) scalar_i32 box_c box_not_c Ta Tb eq_refl eq_refl)
    as (u & Hu & _ & _ & Hz).
  exists u. split; [done|]. apply (Hz box_env box_world Ra Rb). left. by apply (touches_1 _ _ _ 0 5).
Defined.

Lemma box_tests_sound_witness :
  let outer := mkBox None [from_to (n32 0) (n32 20)] in
  let inner := mkBox None [from_to (n32 4) (n32 8)] in
  let apart := mkBox None [from_to (n32 30) (n32 40)] in
  boxes_overlap same_handle fold_closed apart inner = Ok false /\ box_contains fold_closed outer inner = Ok true /\
  touches box_env (mkBox None (take 1 (bounds outer))) [5].
Proof.
  intros outer inner apart. split; [by vm_compute|]. split; [by vm_compute|].
  destruct (box_tests_sound same_handle fold_closed same_handle_sound same_handle_refl box_types (Int 32 1) scalar_i32
    outer inner) as [_ (r & Hr & Hc)].
  { by apply box_1_typed; [|apply n32_finite..]. }
  { by apply box_1_typed; [|apply n32_finite..]. }
  { by apply Forall_singleton. }
  { by apply Forall_singleton. }
  { by left. }
  vm_compute in Hr. injection Hr as <-. apply (Hc eq_refl box_env box_world).
  - by apply (box_1_reads _ _ _ true 0 20).
  - by apply (box_1_reads _ _ _ true 4 8).
  - by apply (touches_1 _ _ _ 4 8).
Defined.

(** C. Boxes with infinite ends, and boxes without dimensions. [boxes_overlap] tests the ends
    it does not compare: on [3, inf) and (-inf, 0], which are disjoint, it compares the
    infinities, which is a user error, and [box_contains] does so on every infinite end. The
    union of a scalar box under the condition [c] with one that is always used keeps [c]. *)
Theorem boxes_defects :
  (let up := mkBox None [mkInterval (eref (n32 3)) pos_inf] in
   let down := mkBox None [mkInterval neg_inf (eref (n32 0))] in
   (exists msg, boxes_overlap same_handle fold_closed up down = Err (UserError msg)) /\
   exists msg, boxes_overlap same_handle fold_closed down up = Err (UserError msg)) /\
  (exists msg, box_contains fold_closed (mkBox None [everything]) (mkBox None [from_to (n32 4) (n32 8)]) = Err (UserError msg)) /\
  box_union same_handle ir_equal fold_closed (mkBox (eref c_var) []) (mkBox None []) = Ok (mkBox (eref c_var) []).
Proof. repeat split; eexists; by vm_compute. Qed.
