(* ===== verification/BoundsTerminates.v ===== *)
(** The visitor of bounds inference terminates: [visit] also visits expressions it builds
    (the lane of a ramp, the select an [if_then_else] stands for) and what the simplifier
    makes of shifts and bitwise [and]s, and [depth] bounds the depth of its recursion. *)

From Stdlib Require Import ZArith Lia Bool String.
From stdpp Require Import prelude strings gmap.
From S2P Require Import Prelude Types IR Semantics Scope Operators Mutator Equality Interval Bounds BoundsFold.

#[local] Open Scope Z_scope.

Section Terminates.
Context (same_as equal : ExprRef -> ExprRef -> bool) (simplify : Expr -> Expr).

(** * The depth of the recursion *)

Definition is_bitwise (name : string) (ct : CallType) : bool :=
  call_is_intrinsic name ct "shift_left" || call_is_intrinsic name ct "shift_right" || call_is_intrinsic name ct "bitwise_and".

(** The simplifier makes something else of the expression, which the visitor then visits. *)
Definition changes (e : Expr) : bool := negb (equal (eref (simplify e)) (eref e)).

Definition deepest (x y : option nat) : option nat := a ← x; b ← y; Some (a `max` b)%nat.
Definition deeper (n : nat) (x : option nat) : option nat := a ← x; Some (n + a)%nat.

(** How deep the recursion goes, when the expressions the simplifier makes of shifts and
    bitwise [and]s are nested [rounds] times at most: the visitor may meet shifts in what
    the simplifier made, simplify those, and so on. *)
Fixpoint depth (rounds : nat) : Expr -> option nat :=
  fix depth_of (e : Expr) : option nat :=
    match e with
    | IntImm _ _ | UIntImm _ _ | FloatImm _ _ | StringImm _ | Var _ _ _ _ _ | Not _ => Some 1%nat
    | Cast _ v | Broadcast v _ | Load _ _ v _ _ => deeper 1 (depth_of v)
    | Bin _ a b | Let _ a b => deeper 1 (deepest (depth_of a) (depth_of b))
    | Select _ t f => deeper 1 (deepest (depth_of t) (depth_of f))
    | Ramp base stride _ => deeper 3 (deepest (depth_of base) (depth_of stride))
    | Call _ name args ct _ _ _ _ =>
        let operands := deeper 2 (foldr (fun a => deepest (depth_of a)) (Some 0%nat) args) in
        if is_bitwise name ct && changes e then
          match rounds with
          | O => None
          | S rounds => deepest operands (deeper 1 (depth rounds (simplify e)))
          end
        else operands
    end.

Lemma deeper_Some n x d : deeper n x = Some d -> exists a, x = Some a /\ (d = n + a)%nat.
Proof. destruct x as [a|]; [|done]. intros [= <-]. eauto. Qed.

Lemma deepest_Some x y d : deepest x y = Some d -> exists a b, x = Some a /\ y = Some b /\ (d = a `max` b)%nat.
Proof. destruct x as [a|], y as [b|]; try done. intros [= <-]. eauto 6. Qed.

Lemma deeper_is_Some n x : is_Some x -> is_Some (deeper n x).
Proof. intros [a ->]. by eexists. Qed.

Lemma deepest_is_Some x y : is_Some x -> is_Some y -> is_Some (deepest x y).
Proof. intros [a ->] [b ->]. by eexists. Qed.

(** Reads a depth off its parts. *)
Ltac split_depth := repeat match goal with
  | H : deeper _ _ = Some _ |- _ => apply deeper_Some in H as (? & ? & ?)
  | H : deepest _ _ = Some _ |- _ => apply deepest_Some in H as (? & ? & ? & ? & ?)
  | H : Some _ = Some _ |- _ => injection H as H
  end; subst.

(** The equations of [depth]. *)
Lemma depth_Cast r t v : depth r (Cast t v) = deeper 1 (depth r v).
Proof. by destruct r. Qed.
Lemma depth_Broadcast r v l : depth r (Broadcast v l) = deeper 1 (depth r v).
Proof. by destruct r. Qed.
Lemma depth_Load r t n v i p : depth r (Load t n v i p) = deeper 1 (depth r v).
Proof. by destruct r. Qed.
Lemma depth_Bin r op a b : depth r (Bin op a b) = deeper 1 (deepest (depth r a) (depth r b)).
Proof. by destruct r. Qed.
Lemma depth_Let r n a b : depth r (Let n a b) = deeper 1 (deepest (depth r a) (depth r b)).
Proof. by destruct r. Qed.
Lemma depth_Select r c a b : depth r (Select c a b) = deeper 1 (deepest (depth r a) (depth r b)).
Proof. by destruct r. Qed.
Lemma depth_Ramp r a b l : depth r (Ramp a b l) = deeper 3 (deepest (depth r a) (depth r b)).
Proof. by destruct r. Qed.
Lemma depth_call r t name args ct func vi image param : let e := Call t name args ct func vi image param in
  depth r e =
  let operands := deeper 2 (foldr (fun a => deepest (depth r a)) (Some 0%nat) args) in
  if is_bitwise name ct && changes e then
    match r with O => None | S r => deepest operands (deeper 1 (depth r (simplify e))) end
  else operands.
Proof. by destruct r. Qed.
Lemma depth_Var r t n i p rd : depth r (Var t n i p rd) = Some 1%nat.
Proof. by destruct r. Qed.
#[local] Hint Rewrite depth_Cast depth_Broadcast depth_Load depth_Bin depth_Let depth_Select depth_Ramp depth_Var : depth.

Lemma depth_pos rounds e d : depth rounds e = Some d -> (1 <= d)%nat.
Proof.
  intros H. destruct rounds, e; cbn [depth] in H; repeat (case_match; try done); split_depth; lia.
Qed.

Lemma depth_args rounds args d a : foldr (fun a => deepest (depth rounds a)) (Some 0%nat) args = Some d -> a ∈ args ->
  exists n, depth rounds a = Some n /\ (n <= d)%nat.
Proof.
  revert d. induction args as [|b args IH]; intros d H; [by intros ?%elem_of_nil|]. cbn [foldr] in H. split_depth.
  intros [->|Ha]%elem_of_cons; [eexists; split; [done|lia]|].
  destruct (IH _ ltac:(eassumption) Ha) as (n & ? & ?). exists n. split; [done|lia].
Qed.

(** The depths of the operands of a call, and of what the simplifier makes of it. *)
Lemma depth_Call rounds t name args ct func vi image param d : let e := Call t name args ct func vi image param in
  depth rounds e = Some d ->
  (forall a, a ∈ args -> exists n, depth rounds a = Some n /\ (2 + n <= d)%nat) /\
  (is_bitwise name ct = true -> changes e = true -> exists r n, depth r (simplify e) = Some n /\ (1 + n <= d)%nat).
Proof.
  intros e Hd.
  assert (Hsplit : exists n, foldr (fun a => deepest (depth rounds a)) (Some 0%nat) args = Some n /\ (2 + n <= d)%nat /\
    (is_bitwise name ct && changes e = true -> exists r m, depth r (simplify e) = Some m /\ (1 + m <= d)%nat)).
  { unfold e in Hd. rewrite depth_call in Hd. fold e in Hd. cbv zeta in Hd. destruct (is_bitwise name ct && changes e); [destruct rounds; [done|]|];
      split_depth; eexists; (split; [eassumption|]); (split; [lia|]); [|done].
    intros _. eexists _, _. split; [eassumption|lia]. }
  destruct Hsplit as (n & Hn & Hle & Hsim). split; [|intros H1 H2; by apply Hsim; rewrite H1].
  intros a Ha. destruct (depth_args _ _ _ _ Hn Ha) as (m & ? & ?). exists m. split; [done|lia].
Qed.

(** Where the simplifier leaves the shifts of what it makes, one round is enough for any
    expression. *)
Lemma one_round e : (forall e, is_Some (depth 0 (simplify e))) -> is_Some (depth 1 e).
Proof.
  intros Hs. induction e using Expr_ind'; autorewrite with depth; auto using deeper_is_Some, deepest_is_Some; try by eexists.
  rewrite depth_call. cbv zeta.
  match goal with |- is_Some (if _ then deepest ?o _ else _) => assert (Ho : is_Some o) end.
  { apply deeper_is_Some. match goal with H : Forall _ _ |- _ => induction H end; [by eexists|]. by apply deepest_is_Some. }
  destruct (_ && _); [|done]. apply deepest_is_Some; [done|]. apply deeper_is_Some, Hs.
Qed.

(** * Visitors that agree on smaller expressions *)

Section Agree.
Context (fb : FuncValueBounds) (accept accept' : Expr -> mut Bounds Interval) (n : nat).
Hypothesis simplify_wf : forall e, wf e -> wf (simplify e).
Hypothesis agree : forall rounds e d st, wf e -> depth rounds e = Some d -> (d <= n)%nat -> accept e st = accept' e st.

Lemma bind_agree {A B} (m m' : mut Bounds A) (k k' : A -> mut Bounds B) st :
  m st = m' st -> (forall a st, k a st = k' a st) -> (a ← m; k a) st = (a ← m'; k' a) st.
Proof. intros Hm Hk. unfold mbind, mut_bind. rewrite Hm. destruct (m' st) as [[a st']|]; [apply Hk|done]. Qed.

Lemma bind_same {A B} (m : mut Bounds A) (k k' : A -> mut Bounds B) st :
  (forall a st, k a st = k' a st) -> (a ← m; k a) st = (a ← m; k' a) st.
Proof. by apply bind_agree. Qed.

Lemma const_args_agree rounds args st : Forall wf args ->
  (forall a, a ∈ args -> exists d, depth rounds a = Some d /\ (d <= n)%nat) ->
  const_args same_as accept args st = const_args same_as accept' args st.
Proof.
  revert st. induction args as [|a args IH]; intros st Hw Hn; [done|].
  apply Forall_cons in Hw as [Ha Hw]. cbn [const_args].
  destruct (Hn a) as (d & Hd & Hle); [apply list_elem_of_here|].
  apply bind_agree; [by apply (agree rounds a d)|]. intros i st'. destruct (is_single_point same_as i); [|done].
  apply bind_agree; [|done]. apply IH; [done|]. intros b Hb. by apply Hn, list_elem_of_further.
Qed.

(** An operator on operands of one type builds its node, or fails. *)
Lemma operator_shape op nm nm' a b e : type_eqb (type a) (type b) = true ->
  operator_ee (binary_make op nm) nm' (eref a) (eref b) = Ok e -> e = Bin op a b.
Proof.
  intros Ht. unfold operator_ee, match_types, binary_make. simpl. rewrite Ht.
  destruct (user_assert _ _); [|done]. simpl. rewrite Ht. simpl. by intros [= <-].
Qed.

(** The lane of a ramp is what it looks like. *)
Lemma ramp_lane_shape base stride name lane : wf base -> wf stride -> type_eqb (type stride) (type base) = true ->
  ramp_lane base stride name = Ok lane ->
  lane = Bin Add base (Bin Mul (Var (type base) name None None None) stride) /\ wf lane.
Proof.
  intros Hb Hs Ht H. rewrite type_eqb_sym in Ht. unfold ramp_lane, Variable_make in H.
  case_bool_decide as Hne; [done|]. simpl in H.
  destruct (operator_mul _ _) as [p|] eqn:Ep; [|done]. apply operator_shape in Ep as ->; [|done].
  cbn [mbind res_bind] in H. apply operator_shape in H as ->; [|apply type_eqb_refl]. split; [done|].
  cbn [wf wf_node]. change (type (Bin Mul (Var (type base) name None None None) stride)) with (type base).
  rewrite type_eqb_refl. by repeat split.
Qed.

Lemma ramp_agree rounds base stride lanes d st : wf (Ramp base stride lanes) ->
  depth rounds (Ramp base stride lanes) = Some d -> (d <= S n)%nat ->
  visit_Ramp accept base stride lanes st = visit_Ramp accept' base stride lanes st.
Proof.
  intros [(_ & _ & Ht) [Hb Hs]] Hd Hn. unfold visit_Ramp. apply bind_same. intros name st1.
  unfold lift at 1 3. unfold mbind at 1 6. unfold mut_bind at 1 6.
  destruct (ramp_lane base stride name) as [lane|] eqn:El; [|done].
  destruct (ramp_lane_shape _ _ _ _ Hb Hs Ht El) as [-> Hw].
  apply bind_same. intros range st2. apply bind_same. intros _ st3. apply bind_agree; [|done].
  rewrite depth_Ramp in Hd. split_depth. pose proof (depth_pos rounds stride _ ltac:(eassumption)).
  eapply (agree rounds); [done| |].
  - autorewrite with depth. repeat match goal with H : depth _ _ = Some _ |- _ => rewrite H; clear H end. done.
  - lia.
Qed.
Lemma lift_bind_agree {A B} (r : res A) (k k' : A -> mut Bounds B) st : (forall a, r = Ok a -> k a st = k' a st) ->
  (a ← lift r; k a) st = (a ← lift r; k' a) st.
Proof. intros Hk. destruct r as [a|]; [by apply Hk|done]. Qed.

Lemma nth_arg_in args j msg check a : nth_arg args j msg check = Ok a -> a ∈ args.
Proof.
  unfold nth_arg. destruct check; [|done]. destruct (args !! j) eqn:Ea; [|done]. intros [= ->].
  by apply list_elem_of_lookup_2 in Ea.
Qed.

Lemma Select_shape c x y s : Select_make (eref c) (eref x) (eref y) = Ok s -> s = Select c x y /\ wf_node s.
Proof.
  unfold Select_make. simpl. destruct (is_bool (type c)) eqn:Hb; [|done]. simpl.
  destruct (type_eqb _ _) eqn:Ht; [|done]. simpl. destruct (is_scalar _ || _) eqn:Hl; [|done]. simpl. by intros [= <-].
Qed.

Lemma call_agree rounds t name args ct func vi image param d st : let e := Call t name args ct func vi image param in
  wf e -> depth rounds e = Some d -> (d <= S n)%nat ->
  visit_Call same_as equal simplify fb accept e t name args ct func vi image param st =
  visit_Call same_as equal simplify fb accept' e t name args ct func vi image param st.
Proof.
  intros e We Hd Hn. pose proof (simplify_wf e We) as Ws. destruct We as [_ Hw]. apply wf_args in Hw.
  destruct (depth_Call _ _ _ _ _ _ _ _ _ _ Hd) as [Hargs He]. fold e in He.
  assert (Hargs' : forall a, a ∈ args -> exists d, depth rounds a = Some d /\ (d < n)%nat).
  { intros a Ha. destruct (Hargs a Ha) as (m & ? & ?). exists m. split; [done|lia]. }
  unfold visit_Call. apply bind_agree.
  { apply (const_args_agree rounds); [done|]. intros a Ha. destruct (Hargs' a Ha) as (m & ? & ?). exists m. split; [done|lia]. }
  intros new_args st1. apply bind_same. intros i st2. destruct (is_handle _); [done|].
  destruct (if _ || _ then new_args else None) as [ps|]; [done|].
  rewrite Forall_forall in Hw.
  assert (Hnth : forall j msg check st, (arg ← lift (nth_arg args j msg check); accept arg) st =
                                     (arg ← lift (nth_arg args j msg check); accept' arg) st).
  { intros j msg check st0. apply lift_bind_agree. intros a Ha%nth_arg_in. destruct (Hargs' a Ha) as (m & Hm & ?).
    apply (agree rounds a m); [by apply Hw|done|lia]. }
  destruct (call_is_intrinsic name ct "abs"); [done|].
  destruct (call_is_intrinsic name ct "likely" || _); [apply Hnth|]. destruct (call_is_intrinsic name ct "return_second"); [apply Hnth|].
  destruct (call_is_intrinsic name ct "if_then_else").
  { apply lift_bind_agree. intros c Hc. apply lift_bind_agree. intros x Hx. apply lift_bind_agree. intros y Hy.
    apply lift_bind_agree. intros s Hsel.
    apply nth_arg_in in Hc, Hx, Hy. pose proof (Select_shape _ _ _ _ Hsel) as [-> Hnode].
    destruct (Hargs' x Hx) as (dx & Dx & ?), (Hargs' y Hy) as (dy & Dy & ?).
    apply (agree rounds _ (1 + dx `max` dy)); [split; [done|]; by repeat split; apply Hw|by rewrite depth_Select, Dx, Dy|lia]. }
  fold (is_bitwise name ct). destruct (is_bitwise name ct).
  { fold (changes e). destruct (changes e); [|done]. destruct (He eq_refl eq_refl) as (r & m & Hm & Hle).
    apply (agree r _ m); [done..|lia]. }
  destruct (_ && _ && _); [done|]. destruct (call_is_intrinsic name ct "extract_buffer_min" || _); [done|].
  destruct (call_is_intrinsic name ct "memoize_expr"); [apply Hnth|].
  destruct (call_is_intrinsic name ct "trace_expr"); [apply Hnth|]. done.
Qed.

Lemma visit_with_agree rounds e d st : wf e -> depth rounds e = Some d -> (d <= S n)%nat ->
  visit_with same_as equal simplify fb accept e st = visit_with same_as equal simplify fb accept' e st.
Proof.
  intros Hw Hd Hn.
  assert (Htwo : forall (k k' : Interval -> mut Bounds Interval) a st, wf a ->
    (exists x, depth rounds a = Some x /\ (x <= n)%nat) -> (forall i st, k i st = k' i st) ->
    (i ← accept a; k i) st = (i ← accept' a; k' i) st).
  { intros k k' a st0 Ha (x & Hx & ?) Hk. apply bind_agree; [by apply (agree rounds a x)|done]. }
  assert (Hbin : forall a b (k k' : Interval -> Interval -> mut Bounds Interval), wf a -> wf b -> deeper 1 (deepest (depth rounds a) (depth rounds b)) = Some d ->
    (forall i j st, k i j st = k' i j st) ->
    (i ← accept a; j ← accept b; k i j) st = (i ← accept' a; j ← accept' b; k' i j) st).
  { intros a b k k' Ha Hb Hab Hk. split_depth. apply Htwo; [done|eexists; split; [done|lia]|]. intros i st1.
    apply Htwo; [done|eexists; split; [done|lia]|]. intros j st2. apply Hk. }
  destruct e; cbn [visit_with]; try done; try (by apply (ramp_agree rounds _ _ _ d)); try (by apply (call_agree rounds _ _ _ _ _ _ _ _ d));
    autorewrite with depth in Hd.
  - split_depth. apply Htwo; [apply Hw|eexists; split; [done|lia]|done].
  - destruct Hw as [_ [Ha Hb]]. destruct op; try (by apply Hbin); done.
  - destruct Hw as [_ (_ & Ht & Hf)]. split_depth. apply Htwo; [done|eexists; split; [done|lia]|]. intros i st1.
    destruct (negb _); [done|]. apply Htwo; [done|eexists; split; [done|lia]|done].
  - split_depth. apply Htwo; [apply Hw|eexists; split; [done|lia]|done].
  - split_depth. apply (agree rounds _ _ _ (proj2 Hw) ltac:(eassumption)). lia.
  - destruct Hw as [_ [Hv Hb]]. split_depth. unfold visit_Let.
    apply Htwo; [done|eexists; split; [done|lia]|]. intros i st1. apply bind_same. intros [x y] st2.
    apply bind_same. intros _ st3. apply Htwo; [done|eexists; split; [done|lia]|done].
Qed.
End Agree.

Lemma visit_from_enough fb out out' : (forall e, wf e -> wf (simplify e)) ->
  forall n m m' rounds e d st, wf e -> depth rounds e = Some d -> (d <= n)%nat -> (n <= m)%nat -> (n <= m')%nat ->
  visit_from same_as equal simplify out fb m e st = visit_from same_as equal simplify out' fb m' e st.
Proof.
  intros Hsim n. induction n as [|n IH]; intros m m' rounds e d st Hw Hd Hn Hm Hm'; [pose proof (depth_pos _ _ _ Hd); lia|].
  destruct m as [|m]; [lia|]. destruct m' as [|m']; [lia|]. cbn [visit_from].
  apply (visit_with_agree fb _ _ n Hsim) with (rounds := rounds) (d := d); [|done..].
  intros r e' d' st' Hw' Hd' Hn'. by apply (IH m m' r e' d'); [..|lia|lia].
Qed.
End Terminates.

(** C38. The visitor of bounds inference terminates, although it visits expressions that are
    not part of the one it is given: the lane of a ramp, the select an [if_then_else]
    stands for, and what the simplifier makes of a shift or a bitwise [and], where there
    may be shifts again. When the simplifier returns built expressions and makes others of
    shifts [rounds] times in a row at most, the recursion is [depth] deep: with that much
    fuel the visitor never gets to what it does when out of fuel, and more fuel changes
    nothing. Where the simplifier leaves the shifts of what it makes, one round is enough
    and the visitor terminates on every expression. *)
Theorem bounds_visit_terminates same_as equal simplify fb : (forall e, wf e -> wf (simplify e)) ->
  (forall rounds e d out fuel st, wf e -> depth equal simplify rounds e = Some d -> (d <= fuel)%nat ->
     visit_from same_as equal simplify out fb fuel e st = visit same_as equal simplify fb d e st) /\
  ((forall e, is_Some (depth equal simplify 0 (simplify e))) ->
   forall e, wf e -> exists d, forall out fuel st, (d <= fuel)%nat ->
     visit_from same_as equal simplify out fb fuel e st = visit same_as equal simplify fb d e st).
Proof.
  intros Hsim. split.
  - intros rounds e d out fuel st Hw Hd Hn. by apply (visit_from_enough _ _ _ _ _ _ Hsim d _ _ rounds e d).
  - intros Hidle e Hw. destruct (one_round equal simplify e Hidle) as [d Hd]. exists d. intros out fuel st Hn.
    by apply (visit_from_enough _ _ _ _ _ _ Hsim d _ _ 1 e d).
Qed.

(** A simplifier that turns the shift of a variable by 1 into a product. *)
Definition unshift (e : Expr) : Expr :=
  match e with
  | Call _ "shift_left" [Var _ _ _ _ _ as x; IntImm u 1] PureIntrinsic _ _ _ _ =>
      if type_eqb (type x) u then Bin Mul x (IntImm u 2) else e
  | _ => e
  end.

Lemma unshift_wf e : wf e -> wf (unshift e).
Proof.
  intros Hw. unfold unshift. repeat (case_match; try done). subst. destruct Hw as (_ & Hx & Hc & _).
  split; [done|]. split; [done|]. destruct Hc as [[Ht Hc] _]. split; [split; [done|]|done].
  apply andb_true_iff in Ht as [_ Hb]. unfold int_width in Hb. rewrite !orb_true_iff, !Z.eqb_eq in Hb.
  unfold in_srange. destruct Hb as [[[->| ->]| ->]| ->]; by vm_compute.
Qed.

(** [ramp(if_then_else(c, x << 1, 1), 2, 4)]. *)
Definition deep_example : Expr :=
  let t := Int 32 1 in
  let call name args := Call t name args PureIntrinsic None 0 None None in
  let x := Var t "x" None None None in
  Ramp (call "if_then_else" [Var (Bool 1) "c" None None None; call "shift_left" [x; IntImm t 1]; IntImm t 1]) (IntImm t 2) 4.

(** Its visits are eight deep: the ramp, the sum of a lane, the call, the select, the
    shift, the product, a variable; with a step to spare. *)
Lemma bounds_visit_terminates_witness :
  let run := visit_from same_handle ir_equal unshift (fun _ st => Ok (everything, st)) ∅ in
  let st := mkBounds everything scope_new ∅ in
  (wf deep_example /\ depth ir_equal unshift 0 deep_example = None /\ depth ir_equal unshift 1 deep_example = Some 8%nat) /\
  (run 20%nat deep_example st = visit same_handle ir_equal unshift ∅ 8 deep_example st).
Proof.
  split; [by repeat split|].
  destruct (bounds_visit_terminates same_handle ir_equal unshift ∅ unshift_wf) as [Hdeep _].
  apply (Hdeep 1%nat).
  - by repeat split.
  - by vm_compute.
  - apply Nat.leb_le. by vm_compute.
Defined.
