(* ===== verification/BoundsDefects.v ===== *)
(** What the visits of bounds inference get wrong, on concrete expressions: a value of the
    expression outside the interval that is inferred for it. *)

From Stdlib Require Import ZArith Lia Bool String.
From stdpp Require Import prelude strings gmap.
From S2P Require Import Prelude Types IR Semantics Scope Operators Mutator Equality CSE Interval Bounds BoundsFold.

#[local] Open Scope Z_scope.

Definition infer (s : Scope Interval) (e : Expr) : res (Interval * name_counters) :=
  bounds_of_expr_in_scope same_handle ir_equal fold_closed 20 e s ∅ ∅.

(** The inferred interval. *)
Definition inferred (s : Scope Interval) (e : Expr) : option Interval :=
  match infer s e with Ok (i, _) => Some i | Err _ => None end.

(** [z] is on the wrong side of the value of an end. *)
Definition beyond (σ : env) (wrong : Z -> bool) (b : ExprRef) : bool :=
  match b ≫= eval Ideal σ with Some [VInt l] => wrong l | _ => false end.

Definition escapes (s : Scope Interval) (σ : env) (e : Expr) : bool :=
  match inferred s e, eval Ideal σ e with
  | Some i, Some [VInt z] => beyond σ (fun l => z <? l) (i_min i) || beyond σ (fun u => u <? z) (i_max i)
  | _, _ => false
  end.

Definition i32 := Int 32 1.
Definition i8 := Int 8 1.
Definition u32 := UInt 32 1.

Definition scope_of (l : list (string * Interval)) : Scope Interval :=
  foldl (fun s '(x, i) => scope_push s x i) scope_new l.
Definition env_of (l : list (string * Z)) : env := foldl (fun ρ '(x, v) => bind_var ρ x [VInt v]) empty_env l.
Definition at_least (l : Expr) : Interval := mkInterval (eref l) pos_inf.
Definition within (l u : Expr) : Interval := mkInterval (eref l) (eref u).
Definition int (v : Z) : Expr := IntImm i32 v.
Definition int8 (v : Z) : Expr := IntImm i8 v.
Definition var (t : Ty) (x : string) : Expr := Var t x None None None.

(** [y] is at least 3. *)
Definition y_scope : Scope Interval := scope_of [("y", at_least (int 3))].

(** Values outside the inferred interval. With [y] at least 3: [x % y] gets the interval
    of [y]; [select(x < y, y, -5)] that of its first branch; [y * -2] and [y / -2] get a
    lower end of plus infinity. An [int8] that is at least 0 stays so after adding 100.
    Sums and products of [uint32] wrap unnoticed. The quotient by -1 of an [int8] in
    [-128, 127] gets the upper end -128 / -1, which wraps. A factor that is the cast of 200
    to [int8] counts as positive. A bound [uint8(min(n, 300))] counts as at most 44. Where
    a [let] shadows a variable of the same name, the two ends of the inner one capture
    those of the outer one. *)
Theorem bounds_inference_defects :
  (escapes y_scope (env_of [("x", 0); ("y", 4)]) (Bin Mod (var i32 "x") (var i32 "y")) = true /\
   escapes y_scope (env_of [("x", 9); ("y", 4)]) (Select (Bin LT (var i32 "x") (var i32 "y")) (var i32 "y") (int (-5))) = true) /\
  (i_min <$> inferred y_scope (Bin Mul (var i32 "y") (int (-2))) = Some pos_inf /\
   i_min <$> inferred y_scope (Bin Div (var i32 "y") (int (-2))) = Some pos_inf) /\
  escapes (scope_of [("x", at_least (int8 0))]) (env_of [("x", 100)]) (Bin Add (var i8 "x") (int8 100)) = true /\
  (escapes (scope_of [("x", within (UIntImm u32 0) (UIntImm u32 4294967295))]) (env_of [("x", 5)])
     (Bin Add (var u32 "x") (UIntImm u32 1)) = true /\
   escapes (scope_of [("x", within (UIntImm u32 0) (UIntImm u32 65536))]) (env_of [("x", 5)])
     (Bin Mul (var u32 "x") (UIntImm u32 65536)) = true) /\
  escapes (scope_of [("x", within (int8 (-128)) (int8 127))]) (env_of [("x", 5)]) (Bin Div (var i8 "x") (int8 (-1))) = true /\
  escapes (scope_of [("x", within (int8 0) (int8 2))]) (env_of [("x", 1)]) (Bin Mul (var i8 "x") (Cast i8 (int 200))) = true /\
  escapes (scope_of [("v", within (int 0) (Cast i32 (Cast (UInt 8 1) (Bin Min (var i32 "n") (int 300)))))])
    (env_of [("n", 200); ("v", 200)]) (Cast (UInt 8 1) (var i32 "v")) = true /\
  escapes (scope_of [("a", within (int 0) (int 9))]) (env_of [("a", 9)])
    (Let "x" (Bin Add (var i32 "a") (int 1)) (Let "x" (Bin Sub (int 10) (var i32 "x")) (var i32 "x"))) = true.
Proof. repeat split; by vm_compute. Qed.
