(* ===== verification/BoundsSound.v ===== *)
(** The whole of bounds inference: the condition [covered], which follows the visitor and
    leaves out what the visits get wrong, and the theorem that under it the visit of an
    expression succeeds and its interval contains every value the expression takes. *)

From Stdlib Require Import ZArith Lia Bool SpecFloat String Ascii.
From stdpp Require Import prelude strings gmap.
From S2P Require Import Prelude Types IR Semantics Scope Operators Mutator Intrinsics Substitute LetValues Equality EqualityMeaning ExprUsesVar CSE Interval ConstBounds Monotonic Lanes Conditions Simplify SimplifyRules Bounds BoundsOps BoundsArith BoundsNodes BoundsLet BoundsFold.

#[local] Open Scope Z_scope.
#[local] Open Scope halide_scope.

(** * The condition *)

Section Covered.
Context (same_as equal : ExprRef -> ExprRef -> bool) (simplify : Expr -> Expr).
(** The bounds of functions and the types of their values; the names that lets bind, with
    the types of their ends. *)
Context (func_bounds : FuncValueBounds) (func_types : gmap (string * Z) Ty) (lets : list (string * Ty)).

Definition is_temp (n : string) : bool := existsb (fun '(x, _) => String.eqb n (min_name x) || String.eqb n (max_name x)) lets.

Definition operator_safe (op : binop) (t : Ty) (a b : Interval) : bool :=
  match op with
  | Add => add_safe same_as t a b
  | Sub => sub_safe same_as t a b
  | Mul => mul_safe same_as t a b
  | Div => div_safe same_as t a b
  | Mod => mod_safe same_as t a b
  | Min | Max => true
  | _ => false
  end.

Section Node.
Context (accept : Expr -> mut Bounds Interval) (covered : Expr -> Bounds -> bool).

(** [e] is covered and [k] holds of what its visit leaves. *)
Definition after (e : Expr) (st : Bounds) (k : Interval -> Bounds -> bool) : bool :=
  covered e st && match accept e st with Ok (i, st) => k i st | Err _ => false end.

Fixpoint args_covered (args : list Expr) (st : Bounds) : bool :=
  match args with
  | [] => true
  | a :: args => after a st (fun i st => if is_single_point same_as i then args_covered args st else true)
  end.

Definition arg_covered (args : list Expr) (i : nat) (st : Bounds) : bool :=
  match args !! i with Some a => covered a st | None => false end.

(** The calls that are not left out: a pure call on points is of a scalar; the functions
    whose bounds are known have the type of their bounds. *)
Definition call_covered (op : Expr) (t : Ty) (name : string) (args : list Expr) (ct : CallType) (vi : Z) (st : Bounds) : bool :=
  let size := Z.of_nat (List.length args) in
  let is_intrinsic := call_is_intrinsic name ct in
  args_covered args st &&
  match const_args same_as accept args st with
  | Err _ => false
  | Ok (new_args, st) =>
      match (if bool_decide (ct = PureExtern) || bool_decide (ct = Image) then new_args else None) with
      | Some _ => is_scalar t && forallb (fun a => is_scalar (type a)) args && bool_decide (ct = PureExtern)
      | None =>
          if is_intrinsic "abs" then false
          else if is_intrinsic "likely" || is_intrinsic "likely_if_innermost" then
            (size =? 1) && arg_covered args 0 st
          else if is_intrinsic "return_second" then (size =? 2) && arg_covered args 1 st
          else if is_intrinsic "if_then_else" then false
          else if is_intrinsic "shift_left" || is_intrinsic "shift_right" || is_intrinsic "bitwise_and" then
            if negb (equal (eref (simplify op)) (eref op)) then covered (simplify op) st && bool_decide (type (simplify op) = type op)
            else true
          else negb ((size =? 1) && bool_decide (name ∈ monotonic_functions)) &&
            negb (is_intrinsic "extract_buffer_min" || is_intrinsic "extract_buffer_max" ||
                  is_intrinsic "memoize_expr" || is_intrinsic "trace_expr") &&
            (negb (bool_decide (ct = Halide)) ||
             match func_bounds !! (name, vi) with
             | Some _ => bool_decide (func_types !! (name, vi) = Some (element_of t))
             | None => true
             end)
      end
  end.

Definition node_covered (e : Expr) (st : Bounds) : bool :=
  match e with
  | IntImm _ _ | UIntImm _ _ | Var _ _ _ _ _ | Not _ => true
  | FloatImm _ _ | StringImm _ => false
  | Cast t value =>
      bool_decide (std_int (type value)) &&
      after value st (fun a _ => cast_safe same_as (element_of t) (element_of (type value)) a)
  | Bin op a b =>
      if arith op then
        after a st (fun ia st => after b st (fun ib _ => operator_safe op (element_of (type a)) ia ib))
      else true
  | Select _ t f =>
      after t st (fun a st =>
        if is_bounded same_as a then
          after f st (fun b _ => is_bounded same_as b || two_sided same_as b)
        else two_sided same_as a)
  | Load _ _ index _ _ => after index st (fun _ _ => true)
  | Ramp base stride lanes =>
      let '(name, cs) := unique_name "t" (counters st) in
      negb (free_in name base) && negb (free_in name stride) && negb (is_temp name) &&
      bool_decide (std_int (type base)) && representable (type base) (lanes - 1) &&
      match ramp_lane base stride name, ramp_range (type base) lanes with
      | Ok lane, Ok range => covered lane (mkBounds (interval st) (scope_push (scope st) name range) cs)
      | _, _ => false
      end
  | Broadcast value _ => covered value st
  | Call t name args ct _ vi _ _ => call_covered e t name args ct vi st
  | Let x value body =>
      bool_decide ((x, element_of (type value)) ∈ lets) && negb (is_temp x) && bool_decide (std_int (type value)) &&
      after value st (fun val st =>
        ends_typed same_as (element_of (type value)) val &&
        match let_variable same_as x value val with
        | Ok (var, rest) =>
            rest_safe x rest &&
            after body (mkBounds (interval st) (scope_push (scope st) x var) (counters st))
              (fun i _ => body_safe same_as x rest i)
        | Err _ => false
        end)
  end.
End Node.

Fixpoint covered (fuel : nat) (e : Expr) (st : Bounds) : bool :=
  match fuel with
  | O => false
  | S fuel => bool_decide (std_int (type e)) &&
      node_covered (visit same_as equal simplify func_bounds fuel) (covered fuel) e st
  end.

Lemma covered_S fuel e st : covered (S fuel) e st = bool_decide (std_int (type e)) &&
  node_covered (visit same_as equal simplify func_bounds fuel) (covered fuel) e st.
Proof. done. Qed.
End Covered.

(** * The relation of the scope to the program's variables *)

(** A typed expression only mentions variables that have a type. *)
Lemma typed_mentions e : forall Δ y, typed Δ e -> free_in y e = true -> is_Some (Δ !! y).
Proof.
  induction e using Expr_ind'; intros Δ y Hty Hf; simpl in Hty, Hf; try done; rewrite ?orb_true_iff in Hf;
    try (destruct_and?; destruct_or?; eauto; fail).
  - apply bool_decide_eq_true in Hf as <-. destruct Hty as [_ ->]. eauto.
  - destruct Hty as (_ & _ & Hty). rewrite typed_args in Hty. apply existsb_exists in Hf as (a & Ha & Hf).
    apply list_elem_of_In in Ha. rewrite Forall_forall in Hty, H. eauto.
  - destruct Hty as [Hv Hb], Hf as [Hf|Hf]; [eauto|]. apply andb_true_iff in Hf as [Hn Hf].
    apply negb_true_iff, bool_decide_eq_false in Hn. destruct (IHe2 _ y Hb Hf) as [t Ht]. rewrite lookup_insert_ne in Ht by congruence. eauto.
Qed.

Section Sound.
Context (same_as equal : ExprRef -> ExprRef -> bool) (simplify : Expr -> Expr) `{!Simplifier simplify}.
Hypothesis same_as_sound : forall a b, same_as a b = true -> a = b.
Hypothesis same_as_refl : forall a, same_as a a = true.
Context (func_bounds : FuncValueBounds) (func_types : gmap (string * Z) Ty) (lets : list (string * Ty)).
(** The types of the variables of the ends. *)
Context (Γ : gmap string Ty).
Hypothesis equal_test : forall ρ, handle_blind ρ -> EqualityTest Γ ρ equal.

Notation world := (world Γ).
Notation is_temp := (is_temp lets).
Notation covered := (covered same_as equal simplify func_bounds func_types lets).

(** [e] is an end of [i] of the type [t]. *)
Definition is_end (t : Ty) (i : Interval) (e : Expr) : Prop := hasty Γ t e /\ (i_min i = eref e \/ i_max i = eref e).

(** [Δ] has the types of the program's variables: those in the scope have well-typed ends,
    which use no name of an end but their own; the others keep their type. *)
Record scope_typed (Δ : gmap string Ty) (s : Scope Interval) : Prop := {
  typed_wf : scope_wf s;
  typed_bound x i t : scope_get s x = Ok i -> Δ !! x = Some t -> std_int t ->
    ends_ok Γ (element_of t) i /\
    forall e n, is_end (element_of t) i e -> is_temp n = true -> free_in n e = true -> n = min_name x \/ n = max_name x;
  typed_unbound x t : scope_contains s x = false -> Δ !! x = Some t -> Γ !! x = Some t;
  typed_clean x t : Δ !! x = Some t -> is_temp x = false
}.

(** The program runs in [σ], the ends are evaluated in [ρ]: the variables in the scope
    are inside their intervals, the others have their value. *)
Record scope_valued (Δ : gmap string Ty) (s : Scope Interval) (σ ρ : env) : Prop := {
  valued_program : env_ok Ideal Δ σ;
  valued_world : world ρ;
  valued_same : same_world σ ρ;
  valued_bound x i t v z : scope_get s x = Ok i -> Δ !! x = Some t -> std_int t ->
    vars σ !! x = Some v -> VInt z ∈ v -> inside ρ i z;
  valued_unbound x t : scope_contains s x = false -> Δ !! x = Some t -> vars σ !! x = vars ρ !! x;
  valued_elements t n z : std_int t -> mem ρ t n z = mem ρ (element_of t) n z;
  valued_funcs name vi i t args v z : func_bounds !! (name, vi) = Some i ->
    fn ρ t Halide name vi args = Some v -> VInt z ∈ v -> inside ρ i z
}.

(** The bounds of functions are ends too. *)
Hypothesis funcs_typed : forall k i t, func_bounds !! k = Some i -> func_types !! k = Some t ->
  ends_ok Γ t i.
Hypothesis funcs_closed : forall k i e n, func_bounds !! k = Some i -> i_min i = eref e \/ i_max i = eref e -> is_temp n = true ->
  free_in n e = false.
(** The names of the ends of the variables of lets. *)
Hypothesis lets_typed : forall x t, (x, t) ∈ lets -> Γ !! min_name x = Some t /\ Γ !! max_name x = Some t.

(** What a visit leaves: [interval] contains the values of [e], and the scope is restored. *)
Definition bounded_by (Δ : gmap string Ty) (e : Expr) (st : Bounds) (r : res (Interval * Bounds)) : Prop :=
  exists i st', r = Ok (i, st') /\ interval st' = i /\ scope st' = scope st /\ ends_ok Γ (element_of (type e)) i /\
    forall σ ρ v z, scope_valued Δ (scope st) σ ρ -> eval Ideal σ e = Some v -> VInt z ∈ v -> inside ρ i z.

Lemma in_tab n f z : VInt z ∈ tab n f <-> exists k, (k < n)%nat /\ z = f k.
Proof.
  unfold tab. rewrite list_elem_of_fmap. split.
  - intros (k & [= ->] & Hk). apply elem_of_seq in Hk. exists k. split; [lia|done].
  - intros (k & Hk & ->). exists k. split; [done|]. apply elem_of_seq. lia.
Qed.

Lemma good_hasty Δ e : good Δ e -> hasty Δ (type e) e.
Proof. intros H. split; [done|apply type_eqb_refl]. Qed.

(** The value of an expression, lane by lane. *)
Lemma lanes_of Δ σ e v : env_ok Ideal Δ σ -> std_int (type e) -> good Δ e -> eval Ideal σ e = Some v ->
  exists f, den σ (type e) e f /\ v = tab (nlanes (type e)) f /\
    forall k, (k < nlanes (type e))%nat -> in_type (element_of (type e)) (f k).
Proof.
  intros Hσ St Hg Hv. destruct (den_intro Δ σ Hσ (type e) St e v (good_hasty Δ e Hg) Hv) as (f & Hf & -> & Hin).
  exists f. split; [done|]. split; [done|]. intros k Hk. by apply element_in_type; [|apply Hin].
Qed.

(** A visit that ends by setting [interval]. *)
Lemma becomes Δ e st st1 r i : r = Ok i -> scope st1 = scope st -> ends_ok Γ (element_of (type e)) i ->
  (forall σ ρ v z, scope_valued Δ (scope st) σ ρ -> eval Ideal σ e = Some v -> VInt z ∈ v -> inside ρ i z) ->
  bounded_by Δ e st (become r st1).
Proof. intros -> Hs Hi Hv. exists i, (set_interval i st1). split; [done|]. split; [done|]. split; [done|]. by split. Qed.

(** The bounds of the type, wherever the visit falls back on them. *)
Lemma becomes_type Δ e st st1 t : std_int (type e) -> good Δ e -> std_int t -> element_of t = element_of (type e) -> scope st1 = scope st ->
  bounded_by Δ e st (become (bounds_of_type t) st1).
Proof.
  intros St Hg Stt Het Hs.
  destruct (bounds_of_type_total Γ (element_of (type e)) (scalar_element _ St) t Stt Het) as (i & Ei & Hi & Hin).
  eapply becomes; [exact Ei|done|done|]. intros σ ρ v z Hv He Hz.
  destruct (lanes_of Δ σ e v (valued_program _ _ _ _ Hv) St Hg He) as (f & _ & -> & Hf).
  apply in_tab in Hz as (k & Hk & ->). auto.
Qed.

(** ** Pushing a variable *)

Lemma contains_push (s : Scope Interval) x i y : scope_wf s -> scope_contains (scope_push s x i) y = false -> x <> y /\ scope_contains s y = false.
Proof.
  intros Hw Hc. assert (Hg : forall s : Scope Interval, scope_contains s y = false -> is_ok (scope_get s y) = false).
  { intros s' H. apply not_true_iff_false. intros H'. apply scope_get_contains in H'. congruence. }
  pose proof (Hg _ Hc) as H. rewrite scope_get_push in H by done. destruct (decide (x = y)) as [|Hn]; [done|]. split; [done|].
  apply not_true_iff_false. intros H'. apply scope_get_contains in H'. congruence.
Qed.

Lemma scope_typed_push Δ s x t i : scope_typed Δ s -> is_temp x = false ->
  (std_int t -> ends_ok Γ (element_of t) i /\
     forall e n, is_end (element_of t) i e -> is_temp n = true -> free_in n e = true -> n = min_name x \/ n = max_name x) ->
  scope_typed (<[x := t]> Δ) (scope_push s x i).
Proof.
  intros [Hw Hb Hu Hc] Hx Hi. split.
  - by apply scope_push_wf.
  - intros y j u Hg Hd Su. rewrite scope_get_push in Hg by done. destruct (decide (x = y)) as [<-|Hn].
    + rewrite lookup_insert_eq in Hd. simplify_eq. auto.
    + rewrite lookup_insert_ne in Hd by done. eauto.
  - intros y u Hg Hd. apply contains_push in Hg as [Hn Hg]; [|done]. rewrite lookup_insert_ne in Hd by done. eauto.
  - intros y u Hd. destruct (decide (x = y)) as [<-|Hn]; [done|]. rewrite lookup_insert_ne in Hd by done. eauto.
Qed.

(** An interval means the same where its ends' variables have their values. *)
Lemma inside_moved t i ρ ρ' z : scalar_int t -> ends_ok Γ t i -> same_world ρ ρ' ->
  (forall e n, is_end t i e -> free_in n e = true -> vars ρ !! n = vars ρ' !! n) -> inside ρ i z -> inside ρ' i z.
Proof.
  intros Ht [Hl Hu] Hw Hv [Hzl Hzu]. split.
  - destruct Hl as [Hl|(e & He & Te)]; [by left|]. rewrite He in *.
    apply (above_finite Γ t Ht) in Hzl as (l & Hl & Lz); [|done]. eapply above_val; [|exact Lz].
    apply (val_free ρ ρ'); [done| |done]. intros n Hn. apply (Hv e n); [|done]. split; [done|]. by left.
  - destruct Hu as [Hu|(e & He & Te)]; [by left|]. rewrite He in *.
    apply (below_finite Γ t Ht) in Hzu as (l & Hl' & Lz); [|done]. eapply below_val; [|exact Lz].
    apply (val_free ρ ρ'); [done| |done]. intros n Hn. apply (Hv e n); [|done]. split; [done|]. by right.
Qed.

Lemma closed_moved i ρ ρ' z : same_world ρ ρ' ->
  (forall e n, i_min i = eref e \/ i_max i = eref e -> free_in n e = true -> vars ρ !! n = vars ρ' !! n) -> inside ρ i z -> inside ρ' i z.
Proof.
  intros Hw Hv [Hzl Hzu]. split.
  - destruct Hzl as [|(e & l & He & Hl & Lz)]; [by left|]. right. exists e, l. split; [done|]. split; [|done].
    apply (val_free ρ ρ'); [done| |done]. eauto.
  - destruct Hzu as [|(e & l & He & Hl & Lz)]; [by left|]. right. exists e, l. split; [done|]. split; [|done].
    apply (val_free ρ ρ'); [done| |done]. eauto.
Qed.

(** Entering the scope of [x], in an environment that differs in the names of its ends. *)
Lemma scope_valued_push Δ s σ ρ ρ' x t v i : scope_typed Δ s -> scope_valued Δ s σ ρ -> value_ok Ideal t v ->
  world ρ' -> same_world ρ ρ' ->
  (forall y, vars ρ !! y = vars ρ' !! y \/ is_temp y = true /\ (y = min_name x \/ y = max_name x)) ->
  (std_int t -> forall z, VInt z ∈ v -> inside ρ' i z) ->
  scope_valued (<[x := t]> Δ) (scope_push s x i) (bind_var σ x v) ρ'.
Proof.
  intros [Hw Hb Hu Hc] [Vp Vw Vs Vb Vu Ve Vf] Hv W' Hs Hy Hi. destruct Hs as [Hmem Hfn], Vs as [Hmem' Hfn']. split.
  - by apply env_ok_bind.
  - done.
  - split; simpl; congruence.
  - intros y j u w z Hg Hd Su Hw' Hz. rewrite scope_get_push in Hg by done. simpl in Hw'. destruct (decide (x = y)) as [<-|Hn].
    + rewrite lookup_insert_eq in Hd; rewrite lookup_insert_eq in Hw'; simplify_eq. auto.
    + rewrite lookup_insert_ne in Hd by done; rewrite lookup_insert_ne in Hw' by done. destruct (Hb y j u Hg Hd Su) as [Hj Hf].
      apply (inside_moved (element_of u) j ρ ρ' z (scalar_element _ Su) Hj); [by split| |by eapply Vb].
      intros e n He Hfn0. destruct (Hy n) as [|[Ht Hyn]]; [done|]. exfalso.
      destruct (Hf e n He Ht Hfn0) as [-> | ->], Hyn as [E|E]; try (by apply min_max_name in E); try (symmetry in E; by apply min_max_name in E);
        [apply min_name_inj in E|apply max_name_inj in E]; congruence.
  - intros y u Hg Hd. apply contains_push in Hg as [Hn Hg]; [|done]. rewrite lookup_insert_ne in Hd by done.
    simpl. rewrite lookup_insert_ne by done. rewrite (Vu y u Hg Hd). destruct (Hy y) as [|[Ht _]]; [done|].
    rewrite (Hc y u Hd) in Ht. done.
  - intros u n z Su. rewrite <- Hmem. by apply Ve.
  - intros name vi j u args w z Hj Hf Hz. rewrite <- Hfn in Hf. apply (closed_moved j ρ ρ'); [by split| |by eapply Vf].
    intros e n He Hn. destruct (Hy n) as [|[Ht _]]; [done|]. rewrite (funcs_closed _ _ _ _ Hj He Ht) in Hn. done.
Qed.

Section Node.
Context (fuel : nat).
Notation accept := (visit same_as equal simplify func_bounds fuel).
Notation here := (covered fuel).
(** The nodes below. *)
Hypothesis below_sound : forall Δ e st, good Δ e -> scope_typed Δ (scope st) -> here e st = true -> bounded_by Δ e st (accept e st).
Hypothesis below_std : forall e st, here e st = true -> std_int (type e).

(** The visit of a node below, and what is covered after it. *)
Lemma after_sound Δ e st k : good Δ e -> scope_typed Δ (scope st) -> after accept here e st k = true ->
  exists i st', accept e st = Ok (i, st') /\ k i st' = true /\ std_int (type e) /\ interval st' = i /\ scope st' = scope st /\
    ends_ok Γ (element_of (type e)) i /\
    forall σ ρ v z, scope_valued Δ (scope st) σ ρ -> eval Ideal σ e = Some v -> VInt z ∈ v -> inside ρ i z.
Proof.
  intros Hg Hs Ha. unfold after in Ha. apply andb_true_iff in Ha as [Hc Ha]. pose proof (below_std _ _ Hc).
  destruct (below_sound Δ e st Hg Hs Hc) as (i & st' & Er & H1 & H2 & H3 & H4). rewrite Er in Ha.
  exists i, st'. do 6 (split; [done|]). exact H4.
Qed.

(** The visit of a node below, as that of a node with the same values. *)
Lemma forward Δ e e' st st1 : good Δ e' -> scope_typed Δ (scope st) -> scope st1 = scope st -> here e' st1 = true ->
  element_of (type e') = element_of (type e) ->
  (forall σ ρ v z, scope_valued Δ (scope st) σ ρ -> eval Ideal σ e = Some v -> VInt z ∈ v -> exists v', eval Ideal σ e' = Some v' /\ VInt z ∈ v') ->
  bounded_by Δ e st (accept e' st1).
Proof.
  intros Hg Hs Hst Hc Ht Hv. rewrite <- Hst in Hs. destruct (below_sound Δ e' st1 Hg Hs Hc) as (i & st' & Er & H1 & H2 & H3 & H4).
  exists i, st'. split; [done|]. split; [done|]. split; [congruence|]. split; [by rewrite <- Ht|].
  intros σ ρ v z Hr He Hz. destruct (Hv σ ρ v z Hr He Hz) as (v' & Hv' & Hz'). rewrite Hst in H4. by apply (H4 σ ρ v').
Qed.

(** ** Constants and variables *)

Lemma becomes_point Δ e e' st st1 : std_int (type e) -> hasty Γ (element_of (type e)) e' -> scope st1 = scope st ->
  (forall σ ρ v z, scope_valued Δ (scope st) σ ρ -> eval Ideal σ e = Some v -> VInt z ∈ v -> val ρ e' z) ->
  bounded_by Δ e st (become (single_point (eref e')) st1).
Proof.
  intros St Te Hs Hv. destruct (point_ok Γ (element_of (type e)) e' Te) as [Ep Op].
  eapply becomes; [exact Ep|done|done|]. intros σ ρ v z Hr He Hz. apply point_inside. by eapply Hv.
Qed.

Lemma scalar_type e : std_int (type e) -> is_scalar (type e) = true -> scalar_int (type e).
Proof. intros St Hs. split; [done|]. unfold is_scalar in Hs. by apply Z.eqb_eq in Hs. Qed.

Lemma one_lane Δ σ e v z : env_ok Ideal Δ σ -> scalar_int (type e) -> good Δ e -> eval Ideal σ e = Some v -> VInt z ∈ v -> val σ e z.
Proof.
  intros Hσ Hs Hg He Hz. destruct (lanes_of Δ σ e v Hσ (scalar_std _ Hs) Hg He) as (f & Hden & -> & _).
  rewrite scalar_nlanes in * by done. apply in_tab in Hz as (k & Hk & ->). assert (k = 0%nat) as -> by lia.
  by apply (den_val (type e) Hs).
Qed.

Lemma imm_sound Δ e st : std_int (type e) -> good Δ e -> (forall x, free_in x e = false) -> is_scalar (type e) = true ->
  bounded_by Δ e st (become (single_point (eref e)) st).
Proof.
  intros St Hg Hf Hsc. pose proof (scalar_type e St Hsc) as Hs. apply becomes_point; [done| |done|].
  - rewrite scalar_element_id by done. split; [|apply type_eqb_refl]. destruct Hg as [Hw Ht Hu]. split; [done| |done].
    eapply typed_free; [|exact Ht]. intros y Hy. by rewrite Hf in Hy.
  - intros σ ρ v z Hr He Hz. apply (val_free σ ρ); [apply (valued_same _ _ _ _ Hr)| |].
    + intros y Hy. by rewrite Hf in Hy.
    + by apply (one_lane Δ σ e v z (valued_program _ _ _ _ Hr)).
Qed.

Lemma variable_sound Δ t n image param rd st :
  let e := Var t n image param rd in
  std_int t -> good Δ e -> scope_typed Δ (scope st) -> bounded_by Δ e st (visit_Variable e t n st).
Proof.
  intros e St Hg Hs. pose proof (good_typed _ _ Hg) as [_ Hd]. unfold visit_Variable, the_scope. rewrite (mut_bind_run _ _ st (scope st) st) by done.
  destruct (scope_contains (scope st) n) eqn:Ec.
  - pose proof Ec as Eg. apply scope_get_contains in Eg. destruct (scope_get (scope st) n) as [i|] eqn:Ei; [|done].
    destruct (typed_bound _ _ Hs n i t Ei Hd St) as [Hi _]. eapply becomes; [done|done|done|].
    intros σ ρ v z Hr He Hz. by eapply (valued_bound _ _ _ _ Hr n i t v z).
  - pose proof (typed_unbound _ _ Hs n t Ec Hd) as Hn. destruct (is_vector t) eqn:Ev; [by apply becomes_type|].
    assert (Ht : scalar_int t) by (split; [done|]; unfold is_vector in Ev; by apply negb_false_iff, Z.eqb_eq in Ev).
    apply becomes_point; [done| |done|].
    + change (type e) with t. rewrite scalar_element_id by done. split; [|apply type_eqb_refl]. destruct Hg as [Hw [Hok _] Hu]. by split.
    + intros σ ρ v z Hr He Hz. pose proof (one_lane Δ σ e v z (valued_program _ _ _ _ Hr) Ht Hg He Hz) as H.
      unfold val in *. simpl in *. by rewrite <- (valued_unbound _ _ _ _ Hr n t Ec Hd).
Qed.

(** ** Arithmetic *)

Lemma operator_sound Δ op a b st f : arith op = true -> std_int (type a) -> good Δ (Bin op a b) -> scope_typed Δ (scope st) ->
  after accept here a st (fun ia st => after accept here b st (fun ib _ => operator_safe same_as op (element_of (type a)) ia ib)) = true ->
  (forall ia ib, ends_ok Γ (element_of (type a)) ia -> ends_ok Γ (element_of (type a)) ib ->
    operator_safe same_as op (element_of (type a)) ia ib = true ->
    promises Γ (element_of (type a)) (f ia ib) (fun ρ => inside ρ ia) (fun ρ => inside ρ ib) (iop (element_of (type a)) op) (defd op)) ->
  bounded_by Δ (Bin op a b) st (visit_binary accept f a b st).
Proof.
  intros Hop St Hg Hs Hc Hf. pose proof (arith_type op a b Hop) as Ht.
  assert (Hab : hasty Δ (type a) a /\ hasty Δ (type a) b).
  { apply (hasty_bin Δ (type a) St op); [done|]. split; [done|rewrite Ht; apply type_eqb_refl]. }
  destruct Hab as [Ta Tb].
  destruct (after_sound Δ a st _ (hasty_good _ _ _ Ta) Hs Hc) as (ia & st1 & Ea & Hc1 & _ & _ & Hs1 & Oa & Va).
  rewrite <- Hs1 in Hs. destruct (after_sound Δ b st1 _ (hasty_good _ _ _ Tb) Hs Hc1) as (ib & st2 & Eb & Hsafe & _ & _ & Hs2 & Ob & Vb).
  rewrite (element_of_eqb _ _ St (hasty_type _ _ _ Tb)) in Ob.
  destruct (Hf ia ib Oa Ob Hsafe) as (i & Ei & Hi & Hv).
  unfold visit_binary. rewrite (mut_bind_run _ _ _ _ _ Ea), (mut_bind_run _ _ _ _ _ Eb).
  eapply becomes; [exact Ei|congruence|by rewrite Ht|]. intros σ ρ v z Hr He Hz.
  destruct (den_bin_inv Δ σ (valued_program _ _ _ _ Hr) (type a) St op a b v Hop Ta Tb He) as (g & h & Hg1 & Hh & Hin & ->).
  apply in_tab in Hz as (k & Hk & ->). destruct (Hin k Hk) as (I1 & I2 & Hd).
  assert (Hit : iop (type a) op (g k) (h k) = iop (element_of (type a)) op (g k) (h k))
    by (unfold iop; destruct op; rewrite ?element_norm; done).
  rewrite Hit. apply (Hv ρ); try done.
  - apply (valued_world _ _ _ _ Hr).
  - by apply element_in_type.
  - by apply element_in_type.
  - apply (Va σ ρ _ _ Hr Hg1). apply in_tab. eauto.
  - rewrite Hs1 in Vb. apply (Vb σ ρ _ _ Hr Hh). apply in_tab. eauto.
Qed.

Lemma mod_node_sound Δ a b st : let e := Bin Mod a b in std_int (type a) -> good Δ e -> scope_typed Δ (scope st) ->
  after accept here a st (fun ia st => after accept here b st (fun ib _ => operator_safe same_as Mod (element_of (type a)) ia ib)) = true ->
  bounded_by Δ e st (visit_Mod same_as accept e a b st).
Proof.
  intros e St Hg Hs Hc.
  assert (Heq : visit_Mod same_as accept e a b st = visit_binary accept (mod_result same_as e a b) a b st).
  { unfold after in Hc. apply andb_true_iff in Hc as [Ca Hc].
    assert (Hab : good Δ a /\ good Δ b).
    { destruct (proj1 (hasty_bin Δ (type a) St Mod a b eq_refl) (good_hasty Δ e Hg)). split; by eapply hasty_good. }
    destruct Hab as [Ga Gb]. destruct (below_sound Δ a st Ga Hs Ca) as (ia & st1 & Ea & _ & Hs1 & _). rewrite Ea in Hc.
    apply andb_true_iff in Hc as [Cb Hc]. rewrite <- Hs1 in Hs.
    destruct (below_sound Δ b st1 Gb Hs Cb) as (ib & st2 & Eb & Hi & _).
    unfold visit_Mod, visit_binary. rewrite !(mut_bind_run _ _ _ _ _ Ea), !(mut_bind_run _ _ _ _ _ Eb).
    unfold mod_result. destruct (is_bounded same_as ib); [done|]. simpl. unfold current, become. simpl.
    destruct st2 as [j sc cs]. simpl in *. by subst. }
  rewrite Heq. apply operator_sound; [done..|]. intros ia ib Oa Ob Hsafe.
  assert (Hel : std_int (type e)) by done.
  eapply (mod_interval_total same_as same_as_sound same_as_refl Γ (element_of (type a)) (scalar_element _ St)); done.
Qed.

Lemma arith_node_sound Δ op a b st : let e := Bin op a b in arith op = true -> std_int (type a) -> good Δ e -> scope_typed Δ (scope st) ->
  after accept here a st (fun ia st => after accept here b st (fun ib _ => operator_safe same_as op (element_of (type a)) ia ib)) = true ->
  bounded_by Δ e st (visit_with same_as equal simplify func_bounds accept e st).
Proof.
  intros e Hop St Hg Hs Hc. pose proof (scalar_element _ St) as Ht.
  assert (Ste : std_int (type e) /\ element_of (type e) = element_of (type a)) by (unfold e; by rewrite arith_type).
  destruct Ste as [Ste Hel]. destruct op; try done; unfold e; cbn [visit_with]; try (by apply mod_node_sound);
    apply operator_sound; try done; intros ia ib Oa Ob Hsafe.
  - by apply (add_interval_total same_as simplify same_as_sound same_as_refl Γ _ Ht).
  - by apply (sub_interval_total same_as simplify same_as_sound same_as_refl Γ _ Ht).
  - by apply (mul_interval_total same_as equal simplify same_as_sound same_as_refl Γ equal_test _ Ht).
  - by apply (div_interval_total same_as equal simplify same_as_sound same_as_refl Γ equal_test _ Ht).
  - by apply (min_interval_total same_as equal same_as_sound same_as_refl Γ equal_test _ Ht).
  - by apply (max_interval_total same_as equal same_as_sound same_as_refl Γ equal_test _ Ht).
Qed.

(** ** Casts, selections, broadcasts, loads *)

(** A cast of vectors, lane by lane. *)
Lemma cast_element t u z : std_int t -> std_int u -> lanes t = lanes u ->
  (if can_represent t u then z else wrap_type t z) = cast_value (element_of t) (element_of u) z.
Proof.
  intros St Su Hl. destruct (element_of_fields t (std_int_bits t St)) as (Hc1 & Hb1 & Hl1).
  destruct (element_of_fields u (std_int_bits u Su)) as (Hc2 & Hb2 & Hl2). unfold cast_value.
  rewrite (wrap_type_fields (element_of t) t) by done.
  replace (can_represent (element_of t) (element_of u)) with (can_represent t u); [done|].
  unfold can_represent, is_int, is_uint, is_float. by rewrite Hc1, Hb1, Hl1, Hc2, Hb2, Hl2, Hl, !Z.eqb_refl.
Qed.

Lemma condition_type Δ c : good Δ c -> is_bool (type c) = true -> is_scalar (type c) = true -> hasty Δ (Bool 1) c.
Proof.
  intros Gc Hb Hsc. split; [done|]. apply (bool_type (Bool 1) (scalar_std _ scalar_bool)). split; [done|].
  unfold is_scalar in Hsc. by apply Z.eqb_eq in Hsc.
Qed.

Lemma condition_value Δ σ c vc : env_ok Ideal Δ σ -> hasty Δ (Bool 1) c -> eval Ideal σ c = Some vc ->
  exists p, vc = [VInt (Z.b2z p)].
Proof.
  intros Hσ Tc Hvc. destruct (den_intro Δ σ Hσ (Bool 1) (scalar_std _ scalar_bool) c vc Tc Hvc) as (h & _ & -> & Hin).
  destruct (proj1 (in_type_bool (Bool 1) (h 0%nat)) (Hin 0%nat ltac:(by apply Nat.lt_0_succ))) as [p Hp].
  exists p. rewrite <- Hp. done.
Qed.

Lemma select_node_sound Δ c x y st : let e := Select c x y in std_int (type x) -> good Δ e -> scope_typed Δ (scope st) ->
  after accept here x st (fun a st => if is_bounded same_as a
    then after accept here y st (fun b _ => is_bounded same_as b || two_sided same_as b) else two_sided same_as a) = true ->
  bounded_by Δ e st (visit_Select same_as equal accept c x y st).
Proof.
  intros e St Hg Hs Hc. pose proof (scalar_element _ St) as Ht.
  destruct (hasty_select Δ (type x) St c x y) as (Gc & Tx & Ty & Hb & Hl); [split; [done|apply type_eqb_refl]|].
  destruct (after_sound Δ x st _ (hasty_good _ _ _ Tx) Hs Hc) as (a & st1 & Ea & Hc1 & _ & Hi1 & Hs1 & Oa & Va).
  unfold visit_Select. rewrite (mut_bind_run _ _ _ _ _ Ea).
  assert (Hev : forall j st', j = everything -> interval st' = j -> scope st' = scope st -> bounded_by Δ e st (current st')).
  { intros j st' -> Hj Hs'. exists everything, st'. unfold current. rewrite Hj. do 3 (split; [done|]).
    split; [apply everything_ok|intros; apply inside_everything]. }
  destruct (is_bounded same_as a) eqn:Ba; cbn [negb].
  2: { apply (Hev a); [|done..]. by apply (unbounded_everything same_as same_as_sound same_as_refl Γ _ Ht). }
  pose proof Hs as Hs0. rewrite <- Hs1 in Hs.
  destruct (after_sound Δ y st1 _ (hasty_good _ _ _ Ty) Hs Hc1) as (b & st2 & Eb & Hc2 & _ & Hi2 & Hs2 & Ob & Vb).
  rewrite (mut_bind_run _ _ _ _ _ Eb). rewrite (element_of_eqb _ _ St (hasty_type _ _ _ Ty)) in Ob.
  destruct (is_bounded same_as b) eqn:Bb; cbn [negb].
  2: { apply (Hev b); [|done|congruence]. by apply (unbounded_everything same_as same_as_sound same_as_refl Γ _ Ht). }
  rewrite (mut_bind_run _ _ st2 (scope st2) st2) by done.
  (* a constant scalar condition has one value, the same in both environments *)
  assert (Hfree : const_scalar_condition same_as (scope st2) c = true ->
    is_scalar (type c) = true /\ forall n, free_in n c = true -> scope_contains (scope st) n = false).
  { intros Hcs. apply andb_true_iff in Hcs as [Hsc Hu]. apply negb_true_iff in Hu. split; [done|]. intros n Hn.
    apply expr_uses_vars_false in Hu; [|intros p q Hpq; apply same_as_sound in Hpq; by injection Hpq].
    rewrite <- Hs1, <- Hs2. by apply (occurs_free _ c n). }
  assert (Hcond : const_scalar_condition same_as (scope st2) c = true -> hasty Γ (Bool 1) c).
  { intros Hcs. destruct (Hfree Hcs) as [Hsc Hn]. apply condition_type; [|done..].
    destruct Gc as [Hw Hty Hu]. split; [done| |done]. eapply typed_free; [|exact Hty]. intros n Hf.
      destruct (typed_mentions c Δ n Hty Hf) as [t Hd]. rewrite Hd. symmetry. by apply (typed_unbound _ _ Hs0); [apply Hn|]. }
  destruct (select_intervals_total same_as equal same_as_sound same_as_refl Γ equal_test _ Ht (scope st2) c a b Oa Ob Ba Bb Hcond) as (i & Ei & Hi & Hv).
  eapply becomes; [exact Ei|congruence|exact Hi|]. intros σ ρ v z Hr He Hz.
  destruct (den_select_inv Δ σ (valued_program _ _ _ _ Hr) (type x) St c x y v Tx Ty He) as (p & f & g & Hp & Hf & Hg' & _ & ->).
  apply in_tab in Hz as (k & Hk & ->). apply (Hv ρ _ _ (p k)).
  - apply (valued_world _ _ _ _ Hr).
  - intros Hcs. destruct (Hfree Hcs) as [Hsc Hn]. destruct Hp as (vc & Hvc & _ & Hp). destruct (Hp k Hk) as (q & Hq & Hqp).
    apply (val_free σ ρ); [apply (valued_same _ _ _ _ Hr)| |].
    { intros n Hf'. destruct (typed_mentions c Δ n (good_typed _ _ Gc) Hf') as [t Hd]. by eapply (valued_unbound _ _ _ _ Hr); [apply Hn|]. }
    destruct (condition_value Δ σ c vc (valued_program _ _ _ _ Hr) (condition_type Δ c Gc Hb Hsc) Hvc) as [b' ->].
    unfold val. rewrite Hvc. simpl in Hq. injection Hq as <-. do 3 f_equal. simpl in Hqp. by destruct b', (p k).
  - apply (Va σ ρ _ _ Hr Hf). apply in_tab. eauto.
  - rewrite Hs1 in Vb. apply (Vb σ ρ _ _ Hr Hg'). apply in_tab. eauto.
Qed.



Lemma cast_node_sound Δ t value st : let e := Cast t value in std_int t -> good Δ e -> scope_typed Δ (scope st) -> std_int (type value) ->
  after accept here value st (fun a _ => cast_safe same_as (element_of t) (element_of (type value)) a) = true ->
  bounded_by Δ e st (visit_Cast same_as simplify accept e t value st).
Proof.
  intros e St Hg Hs Sv Hc. destruct Hg as [[Hl Hw] [_ Hty] Hu]. cbn [usual_types] in Hu. apply andb_true_iff in Hu as [Hut Hu].
  assert (Gv : good Δ value) by by split.
  destruct (after_sound Δ value st _ Gv Hs Hc) as (a & st1 & Ea & Hsafe & _ & _ & Hs1 & Oa & Va).
  destruct (cast_interval_total same_as simplify same_as_sound same_as_refl Γ (element_of t) (element_of (type value))
    (scalar_element _ St) (scalar_element _ Sv) t value a St Hl Sv eq_refl eq_refl Oa Hsafe) as (i & Ei & Hi & Hv).
  unfold visit_Cast. rewrite (mut_bind_run _ _ _ _ _ Ea). eapply becomes; [exact Ei|done|done|].
  intros σ ρ v z Hr He Hz. cbn [eval e] in He. apply bind_Some in He as (vs & Hvs & He).
  destruct (lanes_of Δ σ value vs (valued_program _ _ _ _ Hr) Sv Gv Hvs) as (f & _ & -> & Hf).
  apply mapM_Some_1 in He. apply list_elem_of_lookup in Hz as [k Hk].
  destruct (Forall2_lookup_r _ _ _ _ _ He Hk) as (x & Hx & Hcs). pose proof Hx as Hin. apply list_elem_of_lookup_2 in Hin.
  assert (Hkl : (k < nlanes (type value))%nat) by (apply lookup_lt_Some in Hx; by rewrite tab_length in Hx).
  rewrite tab_lookup in Hx by done. injection Hx as <-.
  cbn [cast_scalar cast_int] in Hcs. destruct (std_int_class t St) as (Hc1 & _). rewrite Hc1 in Hcs.
  cbn [mbind option_bind] in Hcs. injection Hcs as <-. rewrite cast_element by (done || congruence).
  apply Hv; [apply (valued_world _ _ _ _ Hr)|by apply Hf|by apply (Va σ ρ _ _ Hr Hvs)].
Qed.

Lemma load_sound Δ t name index image param st : let e := Load t name index image param in std_int t -> good Δ e ->
  scope_typed Δ (scope st) -> after accept here index st (fun _ _ => true) = true ->
  bounded_by Δ e st (visit_Load same_as accept t name index image param st).
Proof.
  intros e St Hg Hs Hc. destruct Hg as [[Hl Hw] [Htt Hty] Hu]. pose proof (Build_good Δ e (conj Hl Hw) (conj Htt Hty) Hu) as Hge.
  cbn [usual_types] in Hu. apply andb_true_iff in Hu as [Hut Hu].
  assert (Gi : good Δ index) by by split.
  destruct (after_sound Δ index st _ Gi Hs Hc) as (i & st1 & Ei & _ & Si & _ & Hs1 & Oi & Vi).
  unfold visit_Load, load_interval. rewrite (mut_bind_run _ _ _ _ _ Ei).
  destruct (is_single_point same_as i) eqn:Es; [|by apply becomes_type].
  pose proof (scalar_element _ Si) as Hsi. pose proof (scalar_element _ St) as Hst.
  apply (single_view Γ (element_of (type index))) in Es as (p & -> & Tp); [|done..]. cbn [i_min].
  pose proof (hasty_fields Γ _ (scalar_std _ Hsi) p Tp) as (_ & _ & Hlp). rewrite (scalar_lanes _ Hsi) in Hlp.
  unfold Load_make. cbn [defined eref mbind res_bind]. rewrite Hlp, (scalar_lanes _ Hst). cbn [Z.eqb Pos.eqb mbind res_bind].
  apply becomes_point; [done| |done|].
  - destruct Tp as [[Hwp Htp Hup] _]. split; [|change (type e) with t; apply type_eqb_refl]. split.
    + split; [|done]. cbn [wf_node]. by rewrite Hlp, (scalar_lanes _ Hst).
    + split; [by apply std_int_ty_ok, std_int_element|done].
    + cbn [usual_types]. rewrite Hup. by destruct (std_int_class _ (scalar_std _ Hst)) as (_ & -> & _).
  - intros σ ρ v z Hr He Hz. cbn [eval e] in He. apply bind_Some in He as (vi & Hvi & He).
    apply mapM_Some_1 in He. apply list_elem_of_lookup in Hz as [k Hk].
    destruct (Forall2_lookup_r _ _ _ _ _ He Hk) as (x & Hx & Hm). destruct x as [y| | |]; try done.
    apply list_elem_of_lookup_2 in Hx. specialize (Vi σ ρ vi y Hr Hvi Hx).
    apply (inside_point Γ _ Hsi) in Vi; [|done]. unfold val in *. cbn [eval]. rewrite Vi. cbn [mbind option_bind mapM].
    destruct (valued_same _ _ _ _ Hr) as [Hmem _]. rewrite Hmem, (valued_elements _ _ _ _ Hr t name y St) in Hm.
    change (type e) with t. by rewrite Hm.
Qed.

Lemma broadcast_sound Δ value l st : let e := Broadcast value l in std_int (type e) -> good Δ e -> scope_typed Δ (scope st) ->
  here value st = true -> bounded_by Δ e st (accept value st).
Proof.
  intros e St Hg Hs Hc. destruct (hasty_broadcast Δ (type e) St value l (good_hasty Δ e Hg)) as (Tv & Hl & _).
  apply forward; [by eapply hasty_good|done|done|done| |].
  - rewrite (element_of_eqb _ _ (std_int_element _ St) (hasty_type _ _ _ Tv)). by apply scalar_element_id, scalar_element.
  - intros σ ρ v z Hr He Hz. cbn [eval e] in He. apply bind_Some in He as (vv & Hvv & He). exists vv. split; [done|].
    destruct vv as [|y [|]]; try done. injection He as <-. apply elem_of_replicate in Hz as [<- _]. apply list_elem_of_here.
Qed.

(** ** Ramps *)

(** The lane of a number, and the range of the numbers. *)
Lemma ramp_built Δ t base stride name lanes lane range : scalar_int t -> type base = t -> hasty Δ t base -> hasty Δ t stride ->
  free_in name base = false -> free_in name stride = false -> name <> "" ->
  ramp_lane base stride name = Ok lane -> ramp_range t lanes = Ok range ->
  lane = Bin Add base (Bin Mul (Var t name None None None) stride) /\ good (<[name := t]> Δ) lane /\ ends_ok Γ t range /\
  (forall e n, is_end t range e -> free_in n e = false) /\
  forall ρ z, representable t (lanes - 1) = true -> 0 <= z <= lanes - 1 -> inside ρ range z.
Proof.
  intros Ht Hb Tb Ts Fb Fs Hn El Er.
  assert (Tw : forall e, free_in name e = false -> hasty Δ t e -> hasty (<[name := t]> Δ) t e).
  { intros e Fe [[Hw Hty Hu] He]. split; [|done]. split; [done| |done]. eapply typed_free; [|exact Hty].
    intros y Hy. rewrite lookup_insert_ne; [done|congruence]. }
  assert (Tv : hasty (<[name := t]> Δ) t (Var t name None None None)).
  { apply hasty_variable; [apply Ht|done|apply lookup_insert_eq]. }
  pose proof (Tw base Fb Tb) as Tb'. pose proof (Tw stride Fs Ts) as Ts'.
  assert (Fm : factory Mul operator_mul) by (eexists; right; eexists; reflexivity).
  assert (Fa : factory Add operator_add) by (eexists; right; eexists; reflexivity).
  destruct (arith_total _ t Ht Mul operator_mul _ stride Fm eq_refl Tv Ts') as [Em Tm].
  destruct (arith_total _ t Ht Add operator_add base _ Fa eq_refl Tb' Tm) as [Ea Ta].
  assert (Ev : Variable_make t name None None None = Ok (Var t name None None None))
    by (unfold Variable_make; by rewrite bool_decide_eq_false_2).
  unfold ramp_lane in El. rewrite Hb, Ev in El. cbn [mbind res_bind] in El. unfold eref in *. rewrite Em in El. cbn [mbind res_bind] in El. rewrite Ea in El. injection El as <-.
  split; [done|]. split; [by eapply hasty_good|].
  unfold ramp_range in Er. rewrite !(make_const_int t _ _ (scalar_std _ Ht) (or_introl eq_refl)) in Er.
  cbn [mbind res_bind] in Er. rewrite wrap_type_zero in Er. injection Er as <-.
  assert (Hcl : forall z n, free_in n (const_node t z) = false).
  { intros z n. apply is_const_closed. unfold const_node. by destruct (is_vector t), (is_int t). }
  assert (Hh : forall z, hasty Γ t (const_node t (wrap_type t z))).
  { intros z. apply hasty_const; [apply Ht|]. apply wrap_representable; [by apply std_int_bits, Ht|by apply (std_int_class t (scalar_std _ Ht))]. }
  pose proof (Hh 0) as H0. rewrite wrap_type_zero in H0.
  split; [split; right; (eexists; split; [reflexivity|]); [exact H0|apply Hh]|]. split.
  - intros e n [_ [He|He]]; injection He as <-; apply Hcl.
  - intros ρ z Hr Hz. rewrite (representable_wrap t _ Hr).
    split; [eapply above_val; [by apply (val_const t Ht)|lia]|eapply below_val; [by apply (val_const t Ht)|lia]].
Qed.

Lemma unique_nonempty cs name cs' : unique_name "t" cs = (name, cs') -> name <> "".
Proof. unfold unique_name. intros H. injection H as <- _. repeat case_match; done. Qed.

Lemma lift_run {S A B} (r : res A) (a : A) (f : A -> mut S B) s : r = Ok a -> (lift r ≫= f) s = f a s.
Proof. intros ->. done. Qed.

(** Leaving the scope of a variable. *)
Lemma leave Δ e st st1 i x j : scope_wf (scope st) -> scope st1 = scope_push (scope st) x j -> interval st1 = i ->
  ends_ok Γ (element_of (type e)) i ->
  (forall σ ρ v z, scope_valued Δ (scope st) σ ρ -> eval Ideal σ e = Some v -> VInt z ∈ v -> inside ρ i z) ->
  bounded_by Δ e st ((_ ← pop x; mret i) st1).
Proof.
  intros Hw Hs Hi Oi Vi. exists i, (set_scope (scope st) st1).
  rewrite (mut_bind_run _ _ st1 tt (set_scope (scope st) st1)); [done|]. unfold pop. by rewrite Hs, scope_pop_push.
Qed.

Lemma ramp_node_sound Δ base stride lanes st : let e := Ramp base stride lanes in std_int (type e) -> good Δ e -> scope_typed Δ (scope st) ->
  node_covered same_as equal simplify func_bounds func_types lets accept here e st = true ->
  bounded_by Δ e st (visit_Ramp accept base stride lanes st).
Proof.
  intros e St Hg Hs Hc. cbn [node_covered e] in Hc. unfold visit_Ramp, fresh. destruct (unique_name "t" (counters st)) as [name cs] eqn:Eu.
  pose proof (unique_nonempty _ _ _ Eu) as Hne.
  rewrite !andb_true_iff, !negb_true_iff, bool_decide_eq_true in Hc. destruct Hc as [[[[[Fb Fs] Hx] Sb] Hr] Hc].
  destruct (ramp_lane base stride name) as [lane|] eqn:El; [|done]. destruct (ramp_range (type base) lanes) as [range|] eqn:Er; [|done].
  destruct (hasty_ramp Δ (type e) St base stride lanes (good_hasty Δ e Hg)) as (Tb & Ts & Hl & Hl1).
  pose proof (scalar_element _ St) as Hte. pose proof (hasty_fields Δ _ (scalar_std _ Hte) base Tb) as (Hcb & Hbb & Hlb).
  rewrite (scalar_lanes _ Hte) in Hlb. assert (Ht : scalar_int (type base)) by by split.
  assert (Het : type base = element_of (type e)) by (apply std_int_eqb; [done|apply Hte|by eapply hasty_type]).
  rewrite <- Het in Tb, Ts.
  destruct (ramp_built Δ (type base) base stride name lanes lane range Ht eq_refl Tb Ts Fb Fs Hne El Er) as (Elane & Gl & Or & Fr & Vr).
  set (st2 := mkBounds (interval st) (scope_push (scope st) name range) cs) in *.
  assert (Hs2 : scope_typed (<[name := type base]> Δ) (scope st2)).
  { apply scope_typed_push; [done..|]. intros _. rewrite (scalar_element_id _ Ht). split; [done|].
    intros q n Hq _ Hn. by rewrite (Fr q n Hq) in Hn. }
  destruct (below_sound _ lane st2 Gl Hs2 Hc) as (i & st3 & Ea & Hi & Hs3 & Oi & Vi).
  assert (Etl : type lane = type base) by (by rewrite Elane).
  rewrite (mut_bind_run _ _ st name (mkBounds (interval st) (scope st) cs)) by (by rewrite ?Eu).
  rewrite (lift_run _ lane) by done. rewrite (lift_run _ range) by done. cbv beta.
  rewrite (mut_bind_run _ _ _ tt st2) by done. rewrite (mut_bind_run _ _ _ _ _ Ea).
  apply (leave Δ e st st3 i name range); [apply Hs|done|done|by rewrite <- Het, <- (scalar_element_id _ Ht), <- Etl|].
  intros σ ρ v z Hrv He Hz.
  destruct (lanes_of Δ σ e v (valued_program _ _ _ _ Hrv) St Hg He) as (F & HF & -> & _).
  destruct (den_ramp_inv Δ σ (valued_program _ _ _ _ Hrv) (type e) St base stride lanes F (good_hasty Δ e Hg) HF) as (f & g & Hf & Hg' & If & Ig & HFv).
  apply in_tab in Hz as (k & Hk & ->). rewrite HFv by done.
  (* the number of the lane as a value of the variable *)
  assert (Hkl : 0 <= Z.of_nat k <= lanes - 1) by (unfold nlanes in Hk; rewrite Hl; lia).
  set (zk := Z.of_nat k) in *. set (σ' := bind_var σ name [VInt zk]).
  assert (Hzk : in_type (type base) zk) by (apply (in_type_between _ Ht 0 (lanes - 1)); [by apply in_type_zero|by right|done]).
  assert (Hbind : forall q y, free_in name q = false -> den σ (type base) q (fun _ => y) -> val σ' q y).
  { intros q y Hq Hy. apply (val_den (type base) Ht) in Hy. by apply val_bind_other. }
  destruct (hasty_bin (<[name := type base]> Δ) (type base) Sb Add base (Bin Mul (Var (type base) name None None None) stride) eq_refl) as [Hsplit _].
  rewrite <- Elane in Hsplit. destruct (Hsplit (Build_hasty _ _ _ Gl ltac:(rewrite Etl; apply type_eqb_refl))) as [Tb' Tm].
  apply (hasty_bin _ (type base) Sb) in Tm as [Tv' Ts']; [|done].
  rewrite <- Het in Hf, Hg'.
  assert (Hlane : val σ' lane (norm (type e) (f 0%nat + zk * g 0%nat))).
  { assert (Vb : val σ' base (f 0%nat)) by (apply Hbind; [done|]; apply (den_val (type base) Ht) in Hf; by apply (val_den (type base) Ht)).
    assert (Vs : val σ' stride (g 0%nat)) by (apply Hbind; [done|]; apply (den_val (type base) Ht) in Hg'; by apply (val_den (type base) Ht)).
    assert (Vv : val σ' (Var (type base) name None None None) zk) by (unfold val; simpl; by rewrite lookup_insert_eq).
    rewrite Elane.
    pose proof (val_bin _ (type base) Ht σ' Mul _ stride zk (g 0%nat) eq_refl Tv' Vv Vs I) as Vm.
    pose proof (val_bin _ (type base) Ht σ' Add base _ _ _ eq_refl Tb' Vb Vm I) as Va.
    rewrite <- (element_norm (type e) St), <- Het. unfold iop in Va.
    replace (norm (type base) (f 0%nat + zk * g 0%nat)) with (norm (type base) (f 0%nat + norm (type base) (zk * g 0%nat))); [done|]. norm_ring. }
  apply (Vi σ' ρ [VInt (norm (type e) (f 0%nat + zk * g 0%nat))]); [|exact Hlane|apply list_elem_of_here].
  apply scope_valued_push with ρ; try done.
  - split; [by rewrite (scalar_lanes _ Ht)|]. apply Forall_singleton. split; [by apply (std_int_class _ Sb)|done].
  - apply (valued_world _ _ _ _ Hrv).
  - intros y. by left.
  - intros _ y Hy. apply list_elem_of_singleton in Hy as [= ->]. by apply Vr.
Qed.

(** ** Lets *)

Lemma temp_names x t : (x, t) ∈ lets -> is_temp (min_name x) = true /\ is_temp (max_name x) = true.
Proof.
  intros Hx. apply list_elem_of_In in Hx. split; apply existsb_exists; exists (x, t); (split; [done|]); rewrite String.eqb_refl; [done|apply orb_true_r].
Qed.

(** The program enters the body of the let where the ends have their names. *)
Lemma enter_let Δ s σ ρ x value v t val var rest nmin nmax : scope_typed Δ s -> scope_valued Δ s σ ρ ->
  std_int (type value) -> good Δ value -> t = element_of (type value) -> (x, t) ∈ lets ->
  let_ends Γ t x val var rest nmin nmax -> ends_ok Γ t val -> rest_safe x rest = true ->
  eval Ideal σ value = Some v -> (forall z, VInt z ∈ v -> inside ρ val z) ->
  exists ρ', enters_both x nmin nmax ρ ρ' /\
    scope_valued (<[x := type value]> Δ) (scope_push s x var) (bind_var σ x v) ρ'.
Proof.
  intros Hs Hr Sv Gv -> Hx Hends Oval Hrest Hv Hin. pose proof (scalar_element _ Sv) as Ht.
  destruct (lets_typed x _ Hx) as [Hmin Hmax]. destruct (temp_names x _ Hx) as [Tmin Tmax].
  destruct (lanes_of Δ σ value v (valued_program _ _ _ _ Hr) Sv Gv Hv) as (f & Hf & Ev & _).
  assert (H0 : (0 < nlanes (type value))%nat) by (unfold nlanes; destruct Sv as (_ & ? & _); lia).
  assert (Hz0 : VInt (f 0%nat) ∈ v) by (rewrite Ev; apply in_tab; eauto).
  destruct (enter_both same_as same_as_sound same_as_refl Γ _ Ht x Hmin Hmax val var rest nmin nmax Hends ρ (f 0%nat) Oval Hrest (valued_world _ _ _ _ Hr) (Hin _ Hz0))
    as (ρ' & Henter & W' & Hvar).
  exists ρ'. split; [done|]. destruct Henter as (ρ1 & He1 & He2).
  apply scope_valued_push with ρ; try done.
  - eapply eval_value_ok; [apply Gv|apply Gv|apply (valued_program _ _ _ _ Hr)|done].
  - apply enters_same in He1, He2. destruct He1, He2. split; congruence.
  - intros y. destruct (decide (y = min_name x)) as [->|N1]; [right; auto|]. destruct (decide (y = max_name x)) as [->|N2]; [right; auto|].
    left. rewrite (enters_other _ _ _ _ y He2 N1). by rewrite (enters_other _ _ _ _ y He1 N2).
  - intros _ z Hz. apply Hvar. auto.
Qed.

Lemma let_sound Δ x value body st : let e := Let x value body in std_int (type e) -> good Δ e -> scope_typed Δ (scope st) ->
  node_covered same_as equal simplify func_bounds func_types lets accept here e st = true ->
  bounded_by Δ e st (visit_Let same_as accept x value body st).
Proof.
  intros e St Hg Hs Hc. destruct Hg as [[_ [Hwv Hwb]] [Htv Htb] Hu]. cbn [usual_types e] in Hu. apply andb_true_iff in Hu as [Huv Hub].
  cbn [node_covered e] in Hc. rewrite !andb_true_iff, !bool_decide_eq_true, negb_true_iff in Hc. destruct Hc as [[[Hx Hxt] Sv] Hc].
  assert (Gv : good Δ value) by by split. pose proof (scalar_element _ Sv) as Ht. destruct (lets_typed x _ Hx) as [Hmin Hmax].
  destruct (after_sound Δ value st _ Gv Hs Hc) as (val & st1 & Ev & Hc1 & _ & _ & Hs1 & Oval & Vval).
  apply andb_true_iff in Hc1 as [Het Hc1].
  destruct (let_variable_total same_as same_as_sound same_as_refl Γ _ Ht x Hmin Hmax value val eq_refl Oval Het)
    as (var & rest & nmin & nmax & Elv & Hends).
  rewrite Elv in Hc1. apply andb_true_iff in Hc1 as [Hrest Hc1].
  set (st2 := mkBounds (interval st1) (scope_push (scope st1) x var) (counters st1)) in *.
  assert (Gb : good (<[x := type value]> Δ) body) by by split.
  assert (Hs2 : scope_typed (<[x := type value]> Δ) (scope st2)).
  { simpl. rewrite Hs1. apply scope_typed_push; [done..|]. intros _. destruct Hends as [E1 E2]. split.
    - split; [eapply (variable_lower Γ _ _ _ _ _ _ E1)|eapply (variable_upper Γ _ _ _ _ _ _ E2)].
    - intros q n [Tq Hq] _ Hn. destruct Hq as [Hq|Hq]; [left|right]; [eapply (variable_free Γ _ Ht _ _ _ _ _ _ E1)|eapply (variable_free Γ _ Ht _ _ _ _ _ _ E2)]; eauto. }
  destruct (after_sound _ body st2 _ Gb Hs2 Hc1) as (i & st3 & Eb & Hbody & Sb & _ & Hs3 & Oi & Vi).
  destruct (let_interval_total same_as same_as_sound same_as_refl Γ _ x Hmin Hmax val var rest nmin nmax Hends (element_of (type body)) i
    (scalar_element _ Sb) Oi Hbody) as (j & Ej & Oj & Vj).
  unfold visit_Let. rewrite (mut_bind_run _ _ _ _ _ Ev), (lift_run _ _ _ _ Elv).
  rewrite (mut_bind_run _ _ _ tt st2) by done. rewrite (mut_bind_run _ _ _ _ _ Eb).
  rewrite (mut_bind_run _ _ st3 tt (set_scope (scope st1) st3))
    by (unfold pop; rewrite Hs3; simpl; rewrite scope_pop_push; [done|rewrite Hs1; apply Hs]).
  eapply becomes; [exact Ej|exact Hs1|exact Oj|]. intros σ ρ v z Hr He Hz.
  cbn [eval e] in He. apply bind_Some in He as (vv & Hvv & He).
  destruct (enter_let Δ (scope st) σ ρ x value vv _ val var rest nmin nmax Hs Hr Sv Gv eq_refl Hx Hends Oval Hrest Hvv) as (ρ' & Henter & Hr').
  { intros y Hy. by apply (Vval σ ρ vv). }
  apply (Vj ρ ρ' z Henter). apply (Vi (bind_var σ x vv) ρ' v z); [|done|done]. simpl. by rewrite Hs1.
Qed.

(** ** Calls *)

(** The arguments that are points. *)
Definition point_arg (Δ : gmap string Ty) (s : Scope Interval) (a : Expr) (r : ExprRef) : Prop :=
  exists p, r = eref p /\ hasty Γ (element_of (type a)) p /\
    forall σ ρ v z, scope_valued Δ s σ ρ -> eval Ideal σ a = Some v -> VInt z ∈ v -> val ρ p z.

Lemma const_args_sound Δ args : forall st, Forall (good Δ) args -> scope_typed Δ (scope st) -> args_covered same_as accept here args st = true ->
  exists r st', const_args same_as accept args st = Ok (r, st') /\ scope st' = scope st /\
    forall ps, r = Some ps -> Forall2 (point_arg Δ (scope st)) args ps.
Proof.
  induction args as [|a args IH]; intros st Hg Hs Hc; [exists (Some []), st; split; [done|]; split; [done|]; intros ps [= <-]; constructor|].
  apply Forall_cons in Hg as [Ga Hg]. cbn [args_covered] in Hc.
  destruct (after_sound Δ a st _ Ga Hs Hc) as (i & st1 & Ea & Hc1 & Sa & _ & Hs1 & Oi & Vi).
  cbn [const_args]. rewrite (mut_bind_run _ _ _ _ _ Ea).
  destruct (is_single_point same_as i) eqn:Es; [|exists None, st1; split; [done|]; split; [done|]; by intros ps].
  pose proof (scalar_element _ Sa) as Ht. apply (single_view Γ (element_of (type a))) in Es as (p & -> & Tp); [|done..].
  rewrite <- Hs1 in Hs. destruct (IH st1 Hg Hs Hc1) as (r & st2 & Er & Hs2 & Hr).
  rewrite (mut_bind_run _ _ _ _ _ Er). eexists _, st2. split; [done|]. split; [congruence|].
  intros ps Hps. destruct r as [qs|]; [|done]. injection Hps as <-. constructor.
  - exists p. split; [done|]. split; [done|]. intros σ ρ v z Hv He Hz. apply (inside_point Γ _ Ht); [done|]. by apply (Vi σ ρ v).
  - rewrite <- Hs1. by apply Hr.
Qed.

(** The values of scalar arguments are those of their points. *)
Lemma point_args_values Δ s args ps : Forall (good Δ) args -> Forall (fun a => std_int (type a)) args ->
  forallb (fun a => is_scalar (type a)) args = true -> Forall2 (point_arg Δ s) args ps ->
  exists qs, ps = eref <$> qs /\ Forall (good Γ) qs /\
    forall σ ρ vs, scope_valued Δ s σ ρ -> mapM (eval Ideal σ) args = Some vs -> mapM (eval Ideal ρ) qs = Some vs.
Proof.
  intros Hg Hstd Hsc Hp. revert Hg Hstd Hsc. induction Hp as [|a r args ps (p & -> & Tp & Vp) Hp IH]; intros Hg Hstd Hsc.
  - exists []. split; [done|]. split; [constructor|done].
  - apply Forall_cons in Hg as [Ga Hg], Hstd as [Sa Hstd]. simpl in Hsc. apply andb_true_iff in Hsc as [Hsa Hsc].
    destruct (IH Hg Hstd Hsc) as (qs & -> & Gq & Vq). exists (p :: qs). split; [done|].
    split; [constructor; [apply Tp|done]|]. intros σ ρ vs Hr Hv.
    cbn [mapM] in Hv. apply bind_Some in Hv as (v & Hv & Hvs). apply bind_Some in Hvs as (vs' & Hvs & [= <-]).
    pose proof (scalar_type a Sa Hsa) as Ht.
    destruct (lanes_of Δ σ a v (valued_program _ _ _ _ Hr) Sa Ga Hv) as (f & _ & -> & _). rewrite scalar_nlanes in * by done.
    assert (Hpv : val ρ p (f 0%nat)) by (apply (Vp σ ρ _ _ Hr Hv), list_elem_of_here).
    cbn [mapM]. rewrite Hpv. cbn [mbind option_bind]. by rewrite (Vq σ ρ vs' Hr Hvs).
Qed.

Lemma call_args_good Δ t name args ct func vi image param : good Δ (Call t name args ct func vi image param) -> Forall (good Δ) args.
Proof.
  intros [[_ Hw] (_ & _ & Ht) Hu]. rewrite wf_args in Hw. rewrite typed_args in Ht. cbn [usual_types] in Hu.
  apply andb_true_iff in Hu as [_ Hu]. rewrite forallb_forall in Hu. rewrite Forall_forall in *.
  intros a Ha. split; [by apply Hw|by apply Ht|]. apply Hu. by apply list_elem_of_In.
Qed.

Lemma defined_all msg qs : mapM (defined msg) (eref <$> qs) = Ok qs.
Proof.
  induction qs as [|q qs IH]; [done|]. rewrite fmap_cons. change (mapM (defined msg) (eref q :: (eref <$> qs))) with
    (y ← defined msg (eref q); k ← mapM (defined msg) (eref <$> qs); Ok (y :: k)). by rewrite IH.
Qed.

Lemma pure_call_sound Δ t name args func vi image param st st1 ps : let e := Call t name args PureExtern func vi image param in
  std_int t -> good Δ e -> scope st1 = scope st -> is_scalar t = true -> Forall (fun a => std_int (type a)) args ->
  forallb (fun a => is_scalar (type a)) args = true -> Forall2 (point_arg Δ (scope st)) args ps ->
  bounded_by Δ e st (become (call ← Call_make (element_of t) name ps PureExtern func vi image param; single_point (eref call)) st1).
Proof.
  intros e St Hg Hs Hsc Hstd Hsa Hp. pose proof (call_args_good _ _ _ _ _ _ _ _ _ Hg) as Ga.
  destruct (point_args_values Δ (scope st) args ps Ga Hstd Hsa Hp) as (qs & -> & Gq & Vq).
  pose proof (scalar_type e St Hsc) as Ht. change (type e) with t in Ht. rewrite (scalar_element_id t Ht).
  assert (Hmk : Call_make t name (eref <$> qs) PureExtern func vi image param = Ok (Call t name qs PureExtern func vi image param)).
  { unfold Call_make. by rewrite defined_all. }
  rewrite Hmk. cbn [mbind res_bind]. apply becomes_point; [done| |done|].
  - change (type e) with t. rewrite (scalar_element_id t Ht). split; [|apply type_eqb_refl]. split.
    + split; [done|]. apply wf_args. eapply Forall_impl; [exact Gq|]. by intros q [].
    + split; [by apply std_int_ty_ok|]. split; [done|]. apply typed_args. eapply Forall_impl; [exact Gq|]. by intros q [].
    + cbn [usual_types]. destruct (std_int_class t St) as (_ & -> & _). simpl. apply forallb_forall. intros q Hq.
      rewrite Forall_forall in Gq. apply Gq. by apply list_elem_of_In.
  - intros σ ρ v z Hr He Hz. pose proof (one_lane Δ σ e v z (valued_program _ _ _ _ Hr) Ht Hg He Hz) as H1.
    unfold val in *. cbn [eval e] in H1 |- *. apply bind_Some in H1 as (vs & Hvs & Hc). rewrite (Vq σ ρ vs Hr Hvs).
    cbn [mbind option_bind]. unfold eval_call in *. cbn [call_is_intrinsic orb] in *.
    destruct (valued_same _ _ _ _ Hr) as [_ Hfn]. by rewrite <- Hfn.
Qed.

(** A function whose bounds are known. *)
Lemma func_call_sound Δ t name args func vi image param st st1 : let e := Call t name args Halide func vi image param in
  std_int t -> good Δ e -> scope st1 = scope st ->
  match func_bounds !! (name, vi) with Some _ => bool_decide (func_types !! (name, vi) = Some (element_of t)) | None => true end = true ->
  bounded_by Δ e st (become (bounds_of_func same_as func_bounds name vi t) st1).
Proof.
  intros e St Hg Hs Hf. pose proof (scalar_element _ St) as Ht.
  destruct (bounds_of_type_total Γ (element_of t) Ht t St eq_refl) as (i0 & E0 & O0 & V0).
  assert (Htype : forall σ ρ v z, scope_valued Δ (scope st) σ ρ -> eval Ideal σ e = Some v -> VInt z ∈ v -> inside ρ i0 z).
  { intros σ ρ v z Hr He Hz. destruct (lanes_of Δ σ e v (valued_program _ _ _ _ Hr) St Hg He) as (f & _ & -> & Hin).
    apply in_tab in Hz as (k & Hk & ->). by apply V0, Hin. }
  unfold bounds_of_func. rewrite E0. cbn [mbind res_bind].
  destruct (func_bounds !! (name, vi)) as [fb|] eqn:Efb; [|by eapply becomes].
  apply bool_decide_eq_true in Hf. pose proof (funcs_typed _ _ _ Efb Hf) as Of.
  destruct (merged_total same_as Γ (element_of t) fb i0 Of O0) as (Oj & Vj & _).
  eapply becomes; [reflexivity|done|exact Oj|]. intros σ ρ v z Hr He Hz. apply Vj; [|by eapply Htype].
  cbn [eval e] in He. apply bind_Some in He as (vs & _ & He).
  destruct (valued_same _ _ _ _ Hr) as [_ Hfn]. unfold eval_call in He. cbn [call_is_intrinsic orb] in He. rewrite Hfn in He.
  by eapply (valued_funcs _ _ _ _ Hr).
Qed.

(** The calls whose value is their last argument. *)
Lemma last_call_sound Δ t name args ct func vi image param st st1 a : let e := Call t name args ct func vi image param in
  good Δ e -> scope_typed Δ (scope st) -> scope st1 = scope st ->
  call_is_intrinsic name ct "likely" || call_is_intrinsic name ct "likely_if_innermost" || call_is_intrinsic name ct "return_second" = true ->
  last args = Some a -> here a st1 = true -> bounded_by Δ e st (accept a st1).
Proof.
  intros e Hg Hs Hs1 Hi Hl Hc. pose proof (call_args_good _ _ _ _ _ _ _ _ _ Hg) as Ga.
  destruct Hg as [_ (_ & Hty & _) _]. destruct (Hty Hi) as (a' & Hl' & Ht). rewrite Hl in Hl'. injection Hl' as <-.
  apply forward; try done.
  - rewrite Forall_forall in Ga. apply Ga. apply last_Some_elem_of in Hl. done.
  - change (type e) with t. by rewrite Ht.
  - intros σ ρ v z Hr He Hz. cbn [eval e] in He. apply bind_Some in He as (vs & Hvs & He). unfold eval_call in He. rewrite Hi in He.
    exists v. split; [|done]. apply mapM_Some_1 in Hvs. 
    simpl in He. rewrite last_lookup in Hl. rewrite last_lookup in He. rewrite <- (Forall2_length _ _ _ Hvs) in He.
    destruct (Forall2_lookup_lr _ _ _ _ _ _ Hvs Hl He). done.
Qed.

Lemma args_covered_std args : forall st, args_covered same_as accept here args st = true ->
  forall ps st', const_args same_as accept args st = Ok (Some ps, st') -> Forall (fun a => std_int (type a)) args.
Proof.
  induction args as [|a args IH]; intros st Hc ps st' Hr; [constructor|]. cbn [args_covered] in Hc.
  unfold after in Hc. apply andb_true_iff in Hc as [Ha Hc]. cbn [const_args] in Hr.
  apply mut_bind_Ok in Hr as (i & st1 & Ea & Hr). rewrite Ea in Hc. constructor; [by eapply below_std|].
  destruct (is_single_point same_as i); [|done]. apply mut_bind_Ok in Hr as (r & st2 & Er & Hr).
  apply mut_ret_Ok in Hr. destruct r as [qs|]; [|done]. by eapply IH.
Qed.

Lemma call_sound Δ t name args ct func vi image param st : let e := Call t name args ct func vi image param in
  std_int t -> good Δ e -> scope_typed Δ (scope st) ->
  call_covered same_as equal simplify func_bounds func_types accept here e t name args ct vi st = true ->
  bounded_by Δ e st (visit_Call same_as equal simplify func_bounds accept e t name args ct func vi image param st).
Proof.
  intros e St Hg Hs Hc. pose proof (call_args_good _ _ _ _ _ _ _ _ _ Hg) as Ga.
  unfold call_covered in Hc. apply andb_true_iff in Hc as [Hca Hc].
  destruct (const_args_sound Δ args st Ga Hs Hca) as (r & st1 & Er & Hs1 & Hr). rewrite Er in Hc.
  unfold visit_Call. rewrite (mut_bind_run _ _ _ _ _ Er). rewrite (mut_bind_run _ _ st1 (interval st1) st1) by done.
  destruct (std_int_class _ (std_int_element t St)) as (_ & _ & ->).
  assert (Htype : bounded_by Δ e st (become (bounds_of_type (element_of t)) st1)).
  { apply becomes_type; [done..|by apply std_int_element| |done]. by apply scalar_element_id, scalar_element. }
  assert (Hnth : forall i msg check a k, args !! i = Some a -> check = true ->
    (arg ← lift (nth_arg args i msg check); k arg) st1 = (k a : mut Bounds Interval) st1).
  { intros i msg check a k Ha ->. apply lift_run. unfold nth_arg. by rewrite Ha. }
  destruct (if _ || _ then r else None) as [ps|] eqn:Ep.
  { assert (r = Some ps) as -> by (by destruct (_ || _)). rewrite !andb_true_iff, bool_decide_eq_true in Hc. destruct Hc as [[Hsc Hsa] ->].
    apply pure_call_sound; try done; [|by apply Hr]. by eapply args_covered_std. }
  clear Ep. destruct (call_is_intrinsic name ct "abs"); [done|].
  destruct (call_is_intrinsic name ct "likely" || call_is_intrinsic name ct "likely_if_innermost") eqn:El.
  { apply andb_true_iff in Hc as [Hn Hc]. unfold arg_covered in Hc. destruct (args !! 0%nat) as [a|] eqn:Ea; [|done].
    rewrite (Hnth 0%nat _ _ a) by done. eapply last_call_sound; try done; [by rewrite El|].
    apply Z.eqb_eq in Hn. destruct args as [|b [|]]; try (simpl in Hn; lia). done. }
  destruct (call_is_intrinsic name ct "return_second") eqn:E2.
  { apply andb_true_iff in Hc as [Hn Hc]. unfold arg_covered in Hc. destruct (args !! 1%nat) as [a|] eqn:Ea; [|done].
    rewrite (Hnth 1%nat _ _ a) by done. eapply last_call_sound; try done; [by rewrite E2, orb_true_r|].
    apply Z.eqb_eq in Hn. destruct args as [|b [|c [|]]]; try (simpl in Hn; lia). done. }
  destruct (call_is_intrinsic name ct "if_then_else"); [done|].
  destruct (call_is_intrinsic name ct "shift_left" || _ || _).
  { destruct (negb (equal _ _)); [|done]. apply andb_true_iff in Hc as [Hc Ht]. apply bool_decide_eq_true in Ht.
    pose proof (simplify_hasty Δ t e St (good_hasty Δ e Hg)) as Hsh.
    apply forward; [by eapply hasty_good|done|done|done|by rewrite Ht|].
    intros σ ρ v z Hv He Hz. exists v. split; [|done].
    exact (simplify_value Δ σ t e v St (good_hasty Δ e Hg) (valued_program _ _ _ _ Hv) He). }
  rewrite !andb_true_iff, !negb_true_iff, !orb_false_iff in Hc. destruct Hc as [[Hm [[[X1 X2] X3] X4]] Hf].
  rewrite (andb_comm _ (is_bounded _ _)), <- andb_assoc, Hm, andb_false_r, X1, X2, X3, X4. cbn [orb].
  destruct (bool_decide_reflect (ct = Halide)) as [->|]; [|done]. simpl in Hf. by apply func_call_sound.
Qed.

(** ** The visitor *)
Lemma node_sound Δ e st : std_int (type e) -> good Δ e -> scope_typed Δ (scope st) ->
  node_covered same_as equal simplify func_bounds func_types lets accept here e st = true ->
  bounded_by Δ e st (visit_with same_as equal simplify func_bounds accept e st).
Proof.
  intros St Hg Hs Hc. destruct e; cbn [node_covered] in Hc; cbn [visit_with]; try done.
  - apply imm_sound; [done..|]. destruct Hg as [[[Hw _] _] _ _]. rewrite !andb_true_iff in Hw. by destruct Hw as [[_ ?] _].
  - apply imm_sound; [done..|]. destruct Hg as [[[Hw _] _] _ _]. rewrite !andb_true_iff in Hw. by destruct Hw as [[_ ?] _].
  - apply andb_true_iff in Hc as [Sv Hc]. apply bool_decide_eq_true in Sv. by apply cast_node_sound.
  - by apply variable_sound.
  - destruct (arith op) eqn:Hop.
    + apply arith_node_sound; [done| |done..]. by rewrite arith_type in St.
    + assert (Htb : bounded_by Δ (Bin op e1 e2) st (become (bounds_of_type (type (Bin op e1 e2))) st)) by (by apply becomes_type).
      by destruct op.
  - by apply becomes_type.
  - by apply select_node_sound.
  - by apply load_sound.
  - by apply ramp_node_sound.
  - by apply (broadcast_sound Δ).
  - by apply call_sound.
  - by apply let_sound.
Qed.
End Node.

Lemma covered_std fuel e st : covered fuel e st = true -> std_int (type e).
Proof. destruct fuel; [done|]. intros H. apply andb_true_iff in H as [H _]. by apply bool_decide_eq_true in H. Qed.

Lemma visit_sound fuel : forall Δ e st, good Δ e -> scope_typed Δ (scope st) -> covered fuel e st = true ->
  bounded_by Δ e st (visit same_as equal simplify func_bounds fuel e st).
Proof.
  induction fuel as [|fuel IH]; [done|]. intros Δ e st Hg Hs Hc. pose proof (covered_std _ _ _ Hc) as St.
  rewrite covered_S in Hc. apply andb_true_iff in Hc as [_ Hc]. unfold visit. cbn [visit_from].
  apply node_sound; try done. intros e' st' H'. by apply (covered_std fuel e' st').
Qed.

(** * [bounds_of_expr_in_scope] *)

Lemma inner_get (s : Scope Interval) x : scope_get (set_containing_scope scope_new (Some s)) x = scope_get s x.
Proof. simpl. by rewrite lookup_empty. Qed.
Lemma inner_contains (s : Scope Interval) x : scope_contains (set_containing_scope scope_new (Some s)) x = scope_contains s x.
Proof. simpl. by rewrite lookup_empty. Qed.

Lemma inner_typed Δ s : scope_typed Δ s -> scope_typed Δ (set_containing_scope scope_new (Some s)).
Proof.
  intros [Hw Hb Hu Hc]. split.
  - apply scope_set_containing_wf, scope_new_wf.
  - intros x i t. rewrite inner_get. apply Hb.
  - intros x t. rewrite inner_contains. apply Hu.
  - done.
Qed.

Lemma inner_valued Δ s σ ρ : scope_valued Δ s σ ρ -> scope_valued Δ (set_containing_scope scope_new (Some s)) σ ρ.
Proof.
  intros []. by split.
Qed.

Lemma check_scalar_total t (f : bool) p : scalar_int t -> f = false \/ (exists e, p = eref e /\ hasty Γ t e) -> check_scalar f p = Ok tt.
Proof.
  intros Ht [->|(e & -> & Te)]; [done|]. unfold check_scalar. destruct f; [|done]. simpl.
  pose proof (hasty_fields Γ t (scalar_std _ Ht) e Te) as (_ & _ & Hl). unfold is_scalar. by rewrite Hl, (scalar_lanes _ Ht).
Qed.

(** C5. Bounds inference is sound: for an expression that [covered] accepts,
    [bounds_of_expr_in_scope] succeeds, its interval has well-typed ends, and wherever the
    variables of the scope are inside their intervals, so is every lane of the value of
    the expression, whatever values the other variables and the ends take. *)
Theorem bounds_of_expr_in_scope_sound fuel Δ s e cs : good Δ e -> scope_typed Δ s ->
  covered fuel e (mkBounds everything (set_containing_scope scope_new (Some s)) cs) = true ->
  exists i cs', bounds_of_expr_in_scope same_as equal simplify fuel e s func_bounds cs = Ok (i, cs') /\
    ends_ok Γ (element_of (type e)) i /\
    forall σ ρ v z, scope_valued Δ s σ ρ -> eval Ideal σ e = Some v -> VInt z ∈ v -> inside ρ i z.
Proof.
  intros Hg Hs Hc. destruct (visit_sound fuel Δ e (mkBounds everything (set_containing_scope scope_new (Some s)) cs) Hg (inner_typed Δ s Hs) Hc) as (i & st' & Er & _ & _ & Oi & Vi).
  pose proof (scalar_element _ (covered_std _ _ _ Hc)) as Ht.
  exists i, (counters st'). unfold bounds_of_expr_in_scope. rewrite Er. cbn [mbind res_bind].
  assert (Hlo : check_scalar (has_lower_bound same_as i) (i_min i) = Ok tt).
  { apply (check_scalar_total _ _ _ Ht).
    destruct (lower_view Γ _ Ht same_as same_as_sound same_as_refl i Oi) as [[-> _]|(q & -> & -> & Tq)]; [by left|right; by exists q]. }
  assert (Hhi : check_scalar (has_upper_bound same_as i) (i_max i) = Ok tt).
  { apply (check_scalar_total _ _ _ Ht).
    destruct (upper_view Γ _ Ht same_as same_as_sound same_as_refl i Oi) as [[-> _]|(q & -> & -> & Tq)]; [by left|right; by exists q]. }
  rewrite Hlo, Hhi. split; [done|]. split; [done|]. intros σ ρ v z Hr. apply Vi. by apply inner_valued.
Qed.
End Sound.

(** * An example *)

Definition i32 : Ty := Int 32 1.
Definition ic (v : Z) : Expr := IntImm i32 v.
Definition v32 (n : string) : Expr := Var i32 n None None None.
(** [let y = x + 1 in min(y * 3, a) + f(x)], for [x] in [0, 10] and [f] in [0, a]. *)
Definition let_example : Expr :=
  Let "y" (Bin Add (v32 "x") (ic 1))
    (Bin Add (Bin Min (Bin Mul (v32 "y") (ic 3)) (v32 "a"))
             (Call i32 "f" [v32 "x"] Halide None 0 None None)).
Definition x_scope : Scope Interval := scope_push scope_new "x" (mkInterval (eref (ic 0)) (eref (ic 10))).
Definition f_bounds : FuncValueBounds := {[("f", 0) := mkInterval (eref (ic 0)) (eref (v32 "a"))]}.
Definition f_types : gmap (string * Z) Ty := {[("f", 0) := i32]}.
Definition y_lets : list (string * Ty) := [("y", i32)].
Definition example_types : gmap string Ty := {["x" := i32; "a" := i32]}.
Definition end_types : gmap string Ty := {["a" := i32; "y.min" := i32; "y.max" := i32]}.

(** [a] is 20 and [f] is 5 everywhere; the program runs with [x] = 7. *)
Definition f_is_5 (t : Ty) (ct : CallType) (name : string) (vi : Z) (args : list value) : option value :=
  if bool_decide (erase_type t = i32 /\ ct = Halide /\ name = "f") then Some [VInt 5] else None.
Definition end_env : env := mkEnv {["a" := [VInt 20]]} (fun _ _ _ => None) f_is_5.
Definition example_env : env := bind_var end_env "x" [VInt 7].

Lemma f_is_5_Some t ct name vi args v : f_is_5 t ct name vi args = Some v ->
  erase_type t = i32 /\ ct = Halide /\ name = "f" /\ v = [VInt 5].
Proof. unfold f_is_5. case_bool_decide; [|done]. naive_solver. Qed.

Lemma example_env_ok : env_ok Ideal example_types example_env /\ env_ok Ideal end_types end_env.
Proof.
  split; (split; [|done|intros [c b l h] ct n vi args v ([= -> -> ->] & _ & _ & ->)%f_is_5_Some; by repeat constructor]);
    intros x t v Ht Hv; unfold example_env, bind_var, end_env, example_types, end_types in *; simpl in *.
  - apply lookup_insert_Some in Hv as [[<- <-]|[Hn Hv]]; [|apply lookup_singleton_Some in Hv as [<- <-]];
      simplify_map_eq; by repeat constructor.
  - apply lookup_singleton_Some in Hv as [<- <-]. simplify_map_eq. by repeat constructor.
Qed.

Lemma x_scope_typed : scope_typed y_lets end_types example_types x_scope.
Proof.
  split.
  - apply scope_push_wf, scope_new_wf.
  - intros x i t Hg Ht _. unfold x_scope in Hg. rewrite scope_get_push in Hg by apply scope_new_wf.
    destruct (decide ("x" = x)) as [<-|]; [|done]. simplify_eq/=. unfold example_types in Ht. simplify_map_eq.
    split.
    + split; right; eexists; (split; [done|]); by apply (hasty_const end_types i32).
    + intros e n [_ [He|He]]; simplify_eq/=; done.
  - intros x t Hc Ht. unfold example_types in Ht.
    apply lookup_insert_Some in Ht as [[<- <-]|[Hn Ht]]; [done|]. apply lookup_singleton_Some in Ht as [<- <-]. done.
  - intros x t Ht. unfold example_types in Ht.
    apply lookup_insert_Some in Ht as [[<- <-]|[Hn Ht]]; [done|]. apply lookup_singleton_Some in Ht as [<- <-]. done.
Qed.

Lemma x_scope_valued : scope_valued f_bounds end_types example_types x_scope example_env end_env.
Proof.
  destruct example_env_ok as [H1 H2]. split; try done.
  - intros x i t v z Hg Ht _ Hv Hz. unfold x_scope in Hg. rewrite scope_get_push in Hg by apply scope_new_wf.
    destruct (decide ("x" = x)) as [<-|]; [|done]. injection Hg as <-. vm_compute in Hv. injection Hv as <-.
    apply list_elem_of_singleton in Hz as [= ->]. by split; right; eexists _, _.
  - intros x t Hc Ht. unfold example_types in Ht.
    apply lookup_insert_Some in Ht as [[<- <-]|[Hn Ht]]; [done|]. apply lookup_singleton_Some in Ht as [<- <-]. done.
  - intros name vi i t args v z Hf (_ & _ & -> & ->)%f_is_5_Some Hz.
    unfold f_bounds in Hf. apply lookup_singleton_Some in Hf as [[= <-] <-]. apply list_elem_of_singleton in Hz as [= ->].
    by split; right; eexists _, _.
Qed.

Lemma f_bounds_typed k i t : f_bounds !! k = Some i -> f_types !! k = Some t -> ends_ok end_types t i.
Proof.
  unfold f_bounds, f_types. intros [<- <-]%lookup_singleton_Some Ht. rewrite lookup_singleton_eq in Ht. injection Ht as <-.
  split; right; eexists; (split; [done|]); [by apply (hasty_const end_types i32)|by repeat split].
Qed.

Lemma f_bounds_closed k i e n : f_bounds !! k = Some i -> i_min i = eref e \/ i_max i = eref e ->
  is_temp y_lets n = true -> free_in n e = false.
Proof.
  unfold f_bounds. intros [<- <-]%lookup_singleton_Some He Hn. destruct He as [[= <-]|[= <-]]; [done|].
  cbn [free_in v32]. apply bool_decide_eq_false. by intros <-.
Qed.

Lemma bounds_of_expr_in_scope_sound_witness :
  covered same_handle ir_equal fold_closed f_bounds f_types y_lets 10 let_example
    (mkBounds everything (set_containing_scope scope_new (Some x_scope)) ∅) = true /\
  exists i cs, bounds_of_expr_in_scope same_handle ir_equal fold_closed 10 let_example x_scope f_bounds ∅ = Ok (i, cs) /\
    (i_min i ≫= eval Ideal end_env) = Some [VInt 3] /\ (i_max i ≫= eval Ideal end_env) = Some [VInt 40] /\
    inside end_env i 25.
Proof.
  split; [by vm_compute|].
  destruct (bounds_of_expr_in_scope_sound same_handle ir_equal fold_closed same_handle_sound same_handle_refl
    f_bounds f_types y_lets end_types) with (fuel := 10%nat) (Δ := example_types) (s := x_scope) (e := let_example) (cs := ∅ : name_counters)
    as (i & cs & Hi & _ & Hin).
  - intros ρ Hρ. by apply equal_EqualityTest; [apply same_expr_sound|].
  - apply f_bounds_typed.
  - apply f_bounds_closed.
  - intros x t Hx. apply list_elem_of_singleton in Hx as [= -> ->]. done.
  - by repeat split.
  - apply x_scope_typed.
  - by vm_compute.
  - assert (Hends : match bounds_of_expr_in_scope same_handle ir_equal fold_closed 10 let_example x_scope f_bounds ∅ with
                    | Ok (i, _) => (i_min i ≫= eval Ideal end_env, i_max i ≫= eval Ideal end_env)
                    | Err _ => (None, None)
                    end = (Some [VInt 3], Some [VInt 40])) by (by vm_compute).
    rewrite Hi in Hends. injection Hends as Hlo Hhi. exists i, cs. do 3 (split; [done|]).
    apply (Hin example_env end_env [VInt 25]); [apply x_scope_valued|by vm_compute|apply list_elem_of_here].
Defined.
