(* ===== verification/SimplifyQuotient.v ===== *)
(** What the visits of [Div] and [Mod] (src/src/Simplify.cpp) share: tests on constants
    that divide one another, what the scopes of the simplifier say of an operand
    through [const_int_bounds] and [modulus_remainder], and the quotients of sums. *)

From Stdlib Require Import ZArith Lia Bool SpecFloat String.
From stdpp Require Import prelude strings gmap.
From S2P Require Import Prelude Types IR Semantics Scope Operators ModulusRemainder Mutator Equality EqualityMeaning Interval ConstBounds Monotonic Lanes Simplify SimplifyRules.

#[local] Open Scope Z_scope.
#[local] Open Scope halide_scope.

(** [ia % ib == 0]. *)
Definition divides (ib ia : Z) : res bool := r ← c_rem64 ia ib; Ok (r =? 0).
(** [make_const(t, div_imp(ia, ib))]. *)
Definition ratio (t : Ty) (ia ib : Z) : res Expr := q ← div_imp_int 64 ia ib; make_const t (Int64 q).
(** No lane of a ramp with stride [ia] crosses a multiple of [ib]. *)
Definition no_lane_crosses (mod_rem : ModulusRemainder) (ia ib lanes : Z) : res bool :=
  d ← divides ib (modulus mod_rem);
  if d : bool then
    q1 ← div_imp_int 64 (remainder mod_rem) ib;
    m ← i64 ((lanes - 1) * ia);
    l ← i64 (remainder mod_rem + m);
    q2 ← div_imp_int 64 l ib;
    Ok (q1 =? q2)
  else Ok false.

(** The state of the object. *)
Definition this : mut Simplify Simplify := fun s => Ok (s, s).

(** The shape of the visits of [Div], [Mod], [Min] and [Max]: an early answer from the
    bounds of the operands, and rules that use what is known of them. *)
Definition visit_known (same_as : ExprRef -> ExprRef -> bool) (mutate : Expr -> mut Simplify ExprRef)
    (swap : Expr -> Expr -> bool) (early : Expr -> Expr -> Simplify -> res rule) (rules : Expr -> Expr -> Simplify -> res (list rule))
    (make : ExprRef -> ExprRef -> res Expr) (op op_a op_b : Expr) : mut Simplify ExprRef :=
  a ← mutate_defined mutate op_a;
  b ← mutate_defined mutate op_b;
  let '(a, b) := if swap a b then (b, a) else (a, b) in
  s ← this;
  bounded ← lift (early a b s);
  match bounded with
  | Some act => run_action mutate act
  | None =>
      chain ← lift (rules a b s);
      match first_rule chain with
      | Some act => run_action mutate act
      | None => no_rule same_as make op a b op_a op_b
      end
  end.

(** No exchange of the operands. *)
Definition in_order (a b : Expr) : bool := false.

(** The scopes of the simplifier are right about the variables. *)
Class Known (facts : gmap string Ty -> env -> Simplify -> Prop) : Prop := {
  known_bounds : forall Γ ρ s, facts Γ ρ s -> info_sound (bounds_info s) ρ;
  known_alignment : forall Γ ρ s, facts Γ ρ s ->
    scope_sound Γ ρ (set_containing_scope scope_new (Some (alignment_info s)))
}.

(** * Quotients of sums *)

Lemma pull_right a b d k : d <> 0 -> a = b + d * k -> ediv a d = ediv b d + k.
Proof. intros Hd ->. by apply ediv_shift. Qed.
Lemma pull_left a b d k : d <> 0 -> a = b + d * k -> ediv a d = k + ediv b d.
Proof. intros Hd ->. rewrite ediv_shift by done. lia. Qed.
Lemma pull_minus a b d k : d <> 0 -> a = b - d * k -> ediv a d = ediv b d - k.
Proof. intros Hd ->. replace (b - d * k) with (b + d * - k) by lia. rewrite ediv_shift by done. lia. Qed.
Lemma pull_all a d k : d <> 0 -> a = d * k -> ediv a d = k.
Proof. intros Hd ->. by apply (ediv_unique _ d k 0); lia. Qed.
Lemma emod_shift a b d k : d <> 0 -> a = b + d * k -> emod a d = emod b d.
Proof. intros Hd ->. destruct (ediv_emod b d Hd). by apply (ediv_unique _ d (ediv b d + k)); lia. Qed.
Lemma emod_all a d k : d <> 0 -> a = d * k -> emod a d = 0.
Proof. intros Hd ->. by apply (ediv_unique _ d k 0); lia. Qed.
Lemma emod_small a d : 0 <= a < d -> emod a d = a.
Proof. intros Ha. by apply (ediv_unique a d 0 a); lia. Qed.

(** One quotient by one constant ends the sum. *)
Ltac pull := first [apply pull_right|apply pull_left|apply pull_minus|apply pull_all]; [assumption|ring].

(** The divisor of the first lane is not zero, as none is. *)
Ltac first_divisor Ht H0 :=
  let i := fresh "i" in let Hi := fresh "Hi" in
  intros i Hi; rewrite (element_lanes _ Ht) in Hi; replace i with 0%nat by lia;
  repeat match goal with H : forall j, (j < nlanes _)%nat -> _ |- _ => specialize (H 0%nat H0) end;
  destruct_and?; cbn [defd] in *; congruence.

Lemma ediv_between a x b d q : d <> 0 -> Z.min a b <= x <= Z.max a b -> ediv a d = q -> ediv b d = q -> ediv x d = q.
Proof.
  intros Hd Hx Ha Hb. assert (Hlt : d < 0 \/ 0 < d) by lia.
  destruct Hlt as [Hlt|Hlt]; destruct (Z.le_ge_cases a b);
    [pose proof (ediv_anti d a x Hlt ltac:(lia)); pose proof (ediv_anti d x b Hlt ltac:(lia))
    |pose proof (ediv_anti d b x Hlt ltac:(lia)); pose proof (ediv_anti d x a Hlt ltac:(lia))
    |pose proof (ediv_mono d a x Hlt ltac:(lia)); pose proof (ediv_mono d x b Hlt ltac:(lia))
    |pose proof (ediv_mono d b x Hlt ltac:(lia)); pose proof (ediv_mono d x a Hlt ltac:(lia))]; lia.
Qed.

(** * Tests on constants *)

Lemma divides_Ok ib ia : divides ib ia = Ok true -> ib <> 0 /\ exists k, ia = ib * k.
Proof.
  unfold divides, c_rem64. destruct (c_div_undefined 64 ia ib) eqn:E; [done|]. cbn [mbind res_bind].
  intros [= Hr]. apply Z.eqb_eq in Hr. unfold c_div_undefined in E. apply orb_false_iff in E as [E _].
  apply Z.eqb_neq in E. split; [done|]. exists (Z.quot ia ib). pose proof (Z.quot_rem' ia ib). lia.
Qed.

(** A plain constant that [is_const] finds equal to a value. *)
Lemma simple_value_lanes (Γ : gmap string Ty) (ρ : env) (t : Ty) z : in_srange 64 z -> forall x f,
  is_const_value x z = true -> is_simple_const x = true -> good Γ x -> den ρ t x f ->
  forall i, (i < nlanes t)%nat -> f i = z.
Proof.
  intros Hz x f Hm Hs [_ _ Hu] Hf. pose proof Hf as He. unfold den in He.
  assert (forall e v, is_const_value e z = true -> is_simple_const e = true -> usual_types e = true ->
    eval Ideal ρ e = Some v -> exists n, v = replicate n (VInt z)) as H.
  { clear - Hz. intros e. induction e using Expr_ind'; intros w Hm Hs Hu He; simpl in *; try done.
    - apply Z.eqb_eq in Hm as ->. injection He as <-. by exists 1%nat.
    - apply andb_true_iff in Hm as [Hp%Z.leb_le Hm%Z.eqb_eq]. injection He as <-. exists 1%nat. rewrite Hm.
      rewrite uwrap_id; [done|]. unfold in_srange, in_urange in *. lia.
    - apply bind_Some in He as (vs & Hvs & He). destruct (IHe _ Hm Hs Hu Hvs) as (n & Hn).
      exists (Z.to_nat l). by eapply broadcast_replicate. }
  destruct (H _ _ Hm Hs Hu He) as (n & Hn). rewrite Hn in He. by eapply (den_replicate ρ t x f z n).
Qed.

(** Inside a block of [ib] the quotient is that of the remainder, lane by lane. *)
Lemma no_lane_crosses_Ok mr ia ib lanes x i : mr_ok mr -> in_srange 64 ib ->
  no_lane_crosses mr ia ib lanes = Ok true -> congr mr x -> 0 <= i < lanes ->
  ib <> 0 /\ ediv (x + i * ia) ib = ediv x ib /\ emod (x + i * ia) ib = emod (remainder mr) ib + i * ia.
Proof.
  intros [_ Hr32] Hib H [k Hk] Hi. unfold no_lane_crosses in H.
  assert (Hr : in_srange 64 (remainder mr)) by (apply (srange_mono 32); [lia|done]).
  apply bind_Ok in H as (d & Hd & H). destruct d; [|done].
  apply bind_Ok in H as (q1 & H1 & H). apply bind_Ok in H as (m & Hm & H). apply i64_Ok in Hm as [-> Hm].
  apply bind_Ok in H as (l & Hl & H). apply i64_Ok in Hl as [-> Hl]. apply bind_Ok in H as (q2 & H2 & [= Hq]).
  apply Z.eqb_eq in Hq as <-. apply divides_Ok in Hd as (Hb & j & Hj).
  apply div64_Ok in H1 as [H1 _], H2 as [H2 _]; try done.
  assert (Hx : x = remainder mr + ib * (k * j)) by (rewrite Hj in Hk; replace (ib * (k * j)) with (k * (ib * j)) by ring; lia).
  assert (Hq : ediv (remainder mr + i * ia) ib = ediv (remainder mr) ib).
  { apply (ediv_between (remainder mr) _ (remainder mr + (lanes - 1) * ia) ib); [done| |done|congruence].
    destruct (Z.le_ge_cases 0 ia); [rewrite Z.min_l, Z.max_r by nia; nia|rewrite Z.min_r, Z.max_l by nia; nia]. }
  split; [done|]. replace (x + i * ia) with (remainder mr + i * ia + ib * (k * j)) by lia.
  rewrite ediv_shift, Hq, (emod_shift _ (remainder mr + i * ia) ib (k * j)) by done. split.
  - rewrite Hx. by rewrite ediv_shift.
  - destruct (ediv_emod (remainder mr) ib Hb), (ediv_emod (remainder mr + i * ia) ib Hb). rewrite Hq in *. lia.
Qed.

(** An integer type of 32 bits or more is a scalar that does not wrap. *)
Lemma scalar_no_overflow u t : std_int t -> type_eqb u t = true -> no_overflow_scalar_int u = true ->
  unbounded t = true /\ is_vector t = false.
Proof.
  intros Ht Hu H. apply type_eqb_fields in Hu as (Hc & Hb & Hl).
  unfold no_overflow_scalar_int, is_scalar, is_int in H. rewrite Hc, Hb, Hl in H. unfold unbounded, is_int, is_vector.
  rewrite !andb_true_iff in H. destruct H as [[H1 H2] H3]. rewrite H2, H3. split; [done|]. by rewrite H1.
Qed.

Section Quotients.
Context (Γ : gmap string Ty) (ρ : env) (t : Ty) (Ht : std_int t).

Lemma wrap_in_range z : unbounded t = true -> in_srange (bits t) z -> wrap_type t z = z.
Proof. apply (wrap_unbounded t Ht). Qed.

Lemma wrap_small z : unbounded t = true -> -2147483648 <= z < 2147483648 -> wrap_type t z = z.
Proof.
  intros Hu Hz. apply wrap_in_range; [done|]. unfold unbounded in Hu. apply andb_true_iff in Hu as [_ Hb%Z.leb_le].
  apply (srange_mono 32); [lia|]. unfold in_srange. lia.
Qed.

Lemma norm_wrap z : (no_overflow t = true -> in_srange (bits t) z) -> norm t z = wrap_type t z.
Proof.
  intros Hz. unfold norm. destruct (unbounded t) eqn:E; [|done]. symmetry. apply wrap_in_range; [done|].
  destruct (no_overflow t) eqn:Hn; [by apply Hz|]. by rewrite (no_overflow_no t Ht Hn) in E.
Qed.

Lemma const_uint_nonneg e u : hasty Γ t e -> const_uint e = Some u -> 0 <= u.
Proof.
  intros He Hc. unfold const_uint in Hc. destruct (is_vector (type e)) eqn:Hv; [done|].
  pose proof (hasty_good _ _ _ He) as [Hwf Hty _]. destruct e; try done.
  - simpl in Hc. injection Hc as ->. destruct Hwf as [[_ Hr] _]. unfold in_urange in Hr. lia.
  - exfalso. destruct Hwf as [[_ Hl] _], Hty as [_ Hlt]. simpl in Hv. unfold is_vector in Hv. simpl in Hv.
    rewrite small_lanes in Hv by done. bool_to_prop. done.
Qed.

Lemma element_class : std_int (element_of t).
Proof. by apply std_element. Qed.

Lemma element_unbounded : unbounded (element_of t) = unbounded t.
Proof. destruct (element_of_fields t (std_int_bits t Ht)) as (Hc & Hb & _). unfold unbounded, is_int. by rewrite Hc, Hb. Qed.

(** The element type of a ramp does not wrap: neither does its own. *)
Lemma element_no_overflow u : type_eqb u (element_of t) = true -> no_overflow_scalar_int u = true ->
  no_overflow t = true /\ unbounded t = true.
Proof.
  intros Hu H. split; [|rewrite <- element_unbounded; by eapply (scalar_no_overflow u), H; [apply element_class|]].
  unfold no_overflow. apply orb_true_iff. right. apply type_eqb_fields in Hu as (Hc & Hb & Hl).
  unfold no_overflow_scalar_int, is_scalar, is_int in *. by rewrite Hc, Hb, Hl in H.
Qed.

Lemma builds_ratio u ia ib : type_eqb u t = true -> builds Γ t (ratio u ia ib).
Proof. intros Hu. apply builds_bind. intros q _. by apply (builds_const Γ ρ t Ht). Qed.

Lemma computes_ratio u ia ib k : type_eqb u t = true -> unbounded t = true ->
  in_srange 64 ia -> in_srange 64 ib -> ediv ia ib = k -> in_srange (bits t) k ->
  computes ρ t (ratio u ia ib) (fun _ => k).
Proof.
  intros Hu Hun Ha Hb Hk Hr. apply computes_bind. intros q Hq. apply div64_Ok in Hq as [-> _]; [|done..].
  rewrite Hk. pose proof (computes_const Γ ρ t Ht u k Hu) as H. by rewrite wrap_in_range in H.
Qed.

(** A constant that a positive constant divides. *)
Lemma multiple_ratio y b ia ib : hasty Γ t y -> hasty Γ t b -> const_int y = Some ia -> const_int b = Some ib ->
  unbounded t = true -> 0 < ib -> divides ib ia = Ok true ->
  exists k, ia = ib * k /\ builds Γ t (ratio t ia ib) /\ computes ρ t (ratio t ia ib) (fun _ => k).
Proof.
  intros Hy Hb Hia Hib Hu Hpos Hd. apply divides_Ok in Hd as (Hb0 & k & Hk). exists k. split; [done|].
  destruct (const_int_in_range Γ t Ht y ia Hy Hia) as (Hra & Ha64 & _).
  destruct (const_int_in_range Γ t Ht b ib Hb Hib) as (Hrb & Hb64 & _).
  assert (Hq : ediv ia ib = k) by (by apply pull_all).
  split; [by apply builds_ratio, type_eqb_refl|].
  apply computes_ratio; [apply type_eqb_refl|done..|]. rewrite <- Hq.
  apply ediv_range; [apply (std_int_bits t Ht)|done..|lia].
Qed.
End Quotients.

(** * What the scopes say *)
Section Scopes.
Context (facts : gmap string Ty -> env -> Simplify -> Prop) {HK : Known facts}.
Context (Γ : gmap string Ty) (ρ : env) (Hρ : env_ok Ideal Γ ρ) (s : Simplify) (Hs : facts Γ ρ s).
Context (t : Ty) (Ht : std_int t).

Lemma bounds_lanes e lo hi f : hasty Γ t e -> mods_exact (bounds_info s) e = true ->
  const_int_bounds (bounds_info s) e = Ok (Some (lo, hi)) -> den ρ t e f ->
  in_srange 64 lo /\ in_srange 64 hi /\ forall i, (i < nlanes t)%nat -> lo <= f i <= hi.
Proof.
  intros [[Hwf Hty _] _] Hm H Hf. pose proof (known_bounds Γ ρ s Hs) as Hi.
  destruct (const_int_bounds_range (bounds_info s) e Hwf (fun n r => info_range _ ρ n r Hi) _ H) as [Hl Hh].
  split; [done|]. split; [done|]. intros i Hlt.
  pose proof (const_int_bounds_lanes _ Γ ρ e Hi Hρ Hwf Hty Hm _ _ H Hf) as Hall.
  rewrite Forall_lookup in Hall. by apply (Hall i (VInt (f i))); [apply tab_lookup|].
Qed.

Lemma modulus_lanes e mr f : hasty Γ t e -> unbounded t = true ->
  defect_free (set_containing_scope scope_new (Some (alignment_info s))) e = true ->
  modulus_remainder_in e (alignment_info s) = Ok mr -> den ρ t e f ->
  mr_ok mr /\ forall i, (i < nlanes t)%nat -> congr mr (f i).
Proof.
  intros [[Hwf Hty _] Heq] Hun Hd H Hf. pose proof (known_alignment Γ ρ s Hs) as Hi.
  unfold modulus_remainder_in in H. apply bind_Ok in H as ([r s'] & Ha & [= <-]).
  assert (Hsw : scope_wf (set_containing_scope scope_new (Some (alignment_info s)))) by (apply scope_set_containing_wf, scope_new_wf).
  split; [eapply analyze_range; [done| |exact Ha]; intros n m Hn; by apply (Hi n m)|].
  intros i Hlt. pose proof (analyze_sound e Γ ρ _ _ _ _ Hsw Hi Hwf Hty Hρ (eq_trans (unbounded_eqb _ _ Heq) Hun) Hd Ha Hf) as Hall.
  unfold lanes_congr in Hall. rewrite Forall_lookup in Hall.
  destruct (Hall i (VInt (f i)) (tab_lookup _ _ _ Hlt)) as (z & [= ->] & ?). done.
Qed.
End Scopes.

(** The visit is sound when its early answer and every rule of its chain are. *)
Lemma visit_known_sound facts equal same_as mutate Γ ρ s op nm swap early rules a b :
  Facts facts equal -> Simplifies facts mutate -> arith op = true -> (forall x y, swap x y = true -> commutes op = true) ->
  facts Γ ρ s -> good Γ (Bin op a b) -> std_int (type a) ->
  (forall x0 s1 y0 s2 x y, mutate a s = Ok (Some x0, s1) -> mutate b s1 = Ok (Some y0, s2) ->
     (if swap x0 y0 then (y0, x0) else (x0, y0)) = (x, y) ->
     facts Γ ρ s2 -> hasty Γ (type a) x -> hasty Γ (type a) y ->
     (forall r, early x y s2 = Ok r -> rule_ok Γ ρ (Bin op x y) r) /\
     (forall rs, early x y s2 = Ok None -> rules x y s2 = Ok rs -> rule_ok Γ ρ (Bin op x y) (first_rule rs))) ->
  simplifies facts (visit_known same_as mutate swap early rules (binary_make op nm) (Bin op a b) a b) Γ ρ s (Bin op a b).
Proof.
  intros HF HM Hop Hcomm Hs Hg Ht Hrules r s' H. unfold visit_known in H. pose proof (facts_env _ _ Γ ρ s Hs) as Hρ.
  apply mut_bind_Ok in H as (x0 & s1 & Hx & H). apply mutate_defined_Ok in Hx.
  apply mut_bind_Ok in H as (y0 & s2 & Hy & H). apply mutate_defined_Ok in Hy.
  destruct (operands_simplified facts mutate Γ ρ s op a b Hop Hs Hg Ht _ _ _ _ Hx Hy) as (Hs2 & Hhx0 & Hhy0 & Hsd0).
  destruct (swapped_operands Γ ρ op x0 y0 (type a) (swap x0 y0) Hop (Hcomm x0 y0) Ht Hρ Hhx0 Hhy0) as (x & y & E & Hhx & Hhy & Hrw).
  destruct (Hrules _ _ _ _ x y Hx Hy E Hs2 Hhx Hhy) as [Hearly Hchain]. rewrite E in H.
  assert (Hsd : simplified facts Γ ρ s (Bin op a b) (Bin op x y) s2) by (eapply simplified_trans; [exact Hsd0|by apply simplified_refl]).
  apply mut_bind_Ok in H as (s3 & s4 & Ht3 & H). unfold this in Ht3. injection Ht3 as <- <-.
  apply mut_bind_Ok in H as (rl & s4 & Hr & H). apply lift_Ok in Hr as [Hr ->].
  destruct rl as [act|].
  { eapply (then_action facts equal mutate Γ ρ s s2); eauto. by apply (Hearly _ Hr). }
  apply mut_bind_Ok in H as (rs & s4 & Hrs & H). apply lift_Ok in Hrs as [Hrs ->].
  destruct (first_rule rs) as [act|] eqn:E'.
  - eapply (then_action facts equal mutate Γ ρ s s2); eauto. by apply (Hchain _ Hr Hrs).
  - eapply (no_rule_sound facts same_as Γ ρ s s2 op nm x y a b); try done. apply Hsd.
Qed.

(** * A state that knows nothing, for trials *)

(** The facts of a state whose scopes are empty. *)
Definition idle_facts (Γ : gmap string Ty) (ρ : env) (s : Simplify) : Prop :=
  env_facts Γ ρ s /\ bounds_info s = scope_new /\ alignment_info s = scope_new.

#[global] Instance idle_facts_Facts : Facts idle_facts ptr_equal.
Proof.
  split; intros Γ ρ s (H & ?).
  - by apply (facts_env env_facts ptr_equal Γ ρ s).
  - by apply (facts_poison env_facts ptr_equal Γ ρ s).
  - by apply (facts_equal env_facts ptr_equal Γ ρ s).
  - split; [|done]. by apply (facts_count env_facts ptr_equal Γ ρ s).
Qed.

#[global] Instance idle_facts_Known : Known idle_facts.
Proof.
  split; intros Γ ρ s (_ & Hb & Ha).
  - rewrite Hb. intros n b. simpl. by rewrite lookup_empty.
  - rewrite Ha. intros n mr. simpl. by rewrite lookup_empty.
Qed.

#[global] Instance no_mutate_idle : Simplifies idle_facts no_mutate.
Proof.
  intros Γ ρ s e Hs Hg r s' [= <- <-]. exists e. split; [done|].
  apply simplified_refl; [done|]. by apply rewrites_refl.
Qed.
