(* ===== verification/SimplifyAdd.v ===== *)
(** The simplifier's visit of [Add] (src/src/Simplify.cpp): the chain of its rules, and
    the proof that each of them keeps the value of a sum of integers. *)

From Stdlib Require Import ZArith Lia Bool SpecFloat String.
From stdpp Require Import prelude strings gmap.
From S2P Require Import Prelude Types IR Semantics Scope Operators ModulusRemainder Mutator Equality EqualityMeaning Interval ConstBounds Monotonic Lanes Simplify SimplifyRules.

#[local] Open Scope Z_scope.
#[local] Open Scope halide_scope.

Section Rules.
Context (equal : ExprRef -> ExprRef -> bool).
(** [op->type], and the mutated operands in their canonical order. *)
Context (t : Ty) (a b : Expr).

Definition add_swap (a b : Expr) : bool :=
  (is_simple_const a && negb (is_simple_const b))
  || (is_bin Min b && negb (is_bin Min a)) || (is_bin Max b && negb (is_bin Max a)).

(** Constants, zero, [x + x], and poison. *)
Definition add_const_rules : list rule := [
  on_const (const_int a) (fun ia => on_const (const_int b) (fun ib =>
    Some (if no_overflow (type a) && add_would_overflow (bits (type a)) ia ib then Overflow (type a)
          else Result (v ← i64 (ia + ib); IntImm_make (type a) v))));
  on_const (const_uint a) (fun ua => on_const (const_uint b) (fun ub =>
    Some (Result (UIntImm_make (type a) (uwrap 64 (ua + ub))))));
  on_const (const_float a) (fun fa => on_const (const_float b) (fun fb =>
    Some (Result (FloatImm_make (type a) (SFadd 53 1024 fa fb)))));
  when (is_zero b) (Result a);
  when (is_zero a) (Result b);
  when (equal (eref a) (eref b)) (Mutate (a *' make_const t (Int64 2)));
  when (is_intrinsic_call "signed_integer_overflow" a) (Result a);
  when (is_intrinsic_call "signed_integer_overflow" b) (Result b)
].

Definition add_vector_rules : list rule := [
  on_ramp a (fun base_a stride_a lanes_a => on_ramp b (fun base_b stride_b _ =>
    Some (Mutate (ramp' (base_a +' base_b) (stride_a +' stride_b) lanes_a))));
  on_ramp a (fun base_a stride_a lanes_a => on_broadcast b (fun value_b _ =>
    Some (Mutate (ramp' (base_a +' value_b) stride_a lanes_a))));
  on_broadcast a (fun value_a _ => on_ramp b (fun base_b stride_b lanes_b =>
    Some (Mutate (ramp' (value_a +' base_b) stride_b lanes_b))));
  on_broadcast a (fun value_a lanes_a => on_broadcast b (fun value_b _ =>
    Some (MutateLanes (value_a +' value_b) lanes_a)))
].

Definition add_select_rules : list rule := [
  on_select a (fun c_a t_a f_a => on_select b (fun c_b t_b f_b =>
    when (equal (eref c_a) (eref c_b)) (Mutate (select' c_a (t_a +' t_b) (f_a +' f_b)))));
  on_select a (fun c_a t_a f_a =>
    when (is_simple_const b && (is_simple_const t_a || is_simple_const f_a))
      (Mutate (select' c_a (t_a +' b) (f_a +' b))))
].

(** Constants outwards, and terms that cancel. *)
Definition add_sum_rules : list rule := [
  on_bin Add a (fun a1 a2 =>
    when (is_simple_const a2)
      (if is_simple_const b then Mutate (a1 +' (a2 +' b)) else Mutate ((a1 +' b) +' a2)));
  on_bin Add b (fun b1 b2 =>
    when (is_simple_const b2) (Mutate ((a +' b1) +' b2)));
  on_bin Sub a (fun a1 a2 =>
    when (is_simple_const a1)
      (if is_simple_const b then Mutate ((a1 +' b) -' a2) else Mutate ((b -' a2) +' a1)));
  on_bin Sub a (fun a1 a2 =>
    when (equal (eref b) (eref a2)) (Result a1));
  on_bin Sub a (fun a1 a2 =>
    when (is_zero a1) (Mutate (b -' a2)));
  on_bin Sub b (fun b1 b2 =>
    when (equal (eref a) (eref b2)) (Result b1));
  on_bin Sub b (fun b1 b2 =>
    when (is_simple_const b1) (Mutate ((a -' b2) +' b1)));
  on_bin Sub a (fun a1 a2 => on_bin Sub b (fun b1 b2 =>
    when (equal (eref a2) (eref b1)) (Mutate (a1 -' b2))));
  on_bin Sub a (fun a1 a2 => on_bin Sub b (fun b1 b2 =>
    when (equal (eref a1) (eref b2)) (Mutate (b1 -' a2))))
].

Definition add_product_rules : list rule := [
  on_bin Mul b (fun b1 b2 =>
    when (is_negative_negatable_const b2) (Mutate (a -' b1 *' neg' b2)));
  on_bin Mul a (fun a1 a2 =>
    when (is_negative_negatable_const a2) (Mutate (b -' a1 *' neg' a2)));
  on_bin Mul b (fun b1 b2 =>
    when (negb (is_const a) && equal (eref a) (eref b1) && no_overflow t)
      (Mutate (a *' (make_one t +' b2))));
  on_bin Mul b (fun b1 b2 =>
    when (negb (is_const a) && equal (eref a) (eref b2) && no_overflow t)
      (Mutate ((make_one t +' b1) *' a)));
  on_bin Mul a (fun a1 a2 =>
    when (negb (is_const b) && equal (eref a1) (eref b) && no_overflow t)
      (Mutate (a1 *' (a2 +' make_one t))));
  on_bin Mul a (fun a1 a2 =>
    when (negb (is_const b) && equal (eref a2) (eref b) && no_overflow t)
      (Mutate ((a1 +' make_one t) *' b)))
].

(** The sum of a term with a minimum or a maximum one operand of which it cancels. *)
Definition add_cancel_rules (op : binop) (make : ExprRef -> ExprRef -> res Expr) : list rule := [
  on_bin op a (fun a1 a2 => on_bin Sub a2 (fun y z =>
    when (no_overflow t && equal (eref z) (eref b)) (Mutate (on2 make (on2 Add_make a1 b) y))));
  on_bin op a (fun a1 a2 => on_bin Sub a1 (fun y z =>
    when (no_overflow t && equal (eref z) (eref b)) (Mutate (on2 make y (on2 Add_make a2 b)))))
].
Definition add_offset_rules (op : binop) (make : ExprRef -> ExprRef -> res Expr) : list rule := [
  on_bin op a (fun a1 a2 => on_bin Add a2 (fun y z => on_const (const_int z) (fun ia => on_const (const_int b) (fun ib =>
    if no_overflow t then when_ub (s ← i64 (ia + ib); Ok (s =? 0)) (Mutate (on2 make (on2 Add_make a1 b) y))
    else None))));
  on_bin op a (fun a1 a2 => on_bin Add a1 (fun y z => on_const (const_int z) (fun ia => on_const (const_int b) (fun ib =>
    if no_overflow t then when_ub (s ← i64 (ia + ib); Ok (s =? 0)) (Mutate (on2 make y (on2 Add_make a2 b)))
    else None))))
].
Definition add_minmax_rules : list rule :=
  add_cancel_rules Min Min_make ++ add_cancel_rules Max Max_make ++
  add_offset_rules Min Min_make ++ add_offset_rules Max Max_make.

(** [((a + ia) / ib + ic) -> (a + (ia + ib*ic)) / ib]. *)
Definition add_div_rules : list rule := [
  on_bin Div a (fun n d => on_bin Add n (fun x y => on_const (const_int y) (fun ia => on_const (const_int d) (fun ib => on_const (const_int b) (fun ic =>
    when (no_overflow t && negb (ib =? 0))
      (Mutate ((x +' (m ← i64 (ib * ic); k ← i64 (ia + m); IntImm_make t k)) /' d)))))))
].

Definition add_factor_rules : list rule := [
  on_bin Mul a (fun a1 a2 => on_bin Mul b (fun b1 b2 =>
    when (equal (eref a1) (eref b1)) (Mutate (a1 *' (a2 +' b2)))));
  on_bin Mul a (fun a1 a2 => on_bin Mul b (fun b1 b2 =>
    when (equal (eref a2) (eref b1)) (Mutate (a2 *' (a1 +' b2)))));
  on_bin Mul a (fun a1 a2 => on_bin Mul b (fun b1 b2 =>
    when (equal (eref a2) (eref b2)) (Mutate (a2 *' (a1 +' b1)))));
  on_bin Mul a (fun a1 a2 => on_bin Mul b (fun b1 b2 =>
    when (equal (eref a1) (eref b2)) (Mutate (a1 *' (a2 +' b1)))))
].

Definition not_mod_by (x m : Expr) : bool :=
  match x with Bin Mod _ m' => negb (equal (eref m') (eref m)) | _ => true end.

Definition add_mod_rules : list rule := [
  on_bin Mod a (fun a1 a2 => on_bin Mul b (fun b1 b2 =>
    when (equal (eref a2) (eref b2)) (Mutate (b +' a))));
  on_bin Mul a (fun q a2 => on_bin Mod b (fun b1 b2 => on_bin Div q (fun n d =>
    when (no_overflow t && equal (eref a2) (eref d) && equal (eref a2) (eref b2) && equal (eref n) (eref b1))
      (Result n))));
  on_bin Add a (fun a1 a2 => on_bin Mul a1 (fun _ m => on_bin Mod b (fun _ b2 =>
    when (no_overflow t && equal (eref m) (eref b2) && not_mod_by a2 b2) (Mutate ((a1 +' b) +' a2)))));
  on_bin Add a (fun a1 a2 => on_bin Mod a1 (fun _ m => on_bin Mul b (fun _ b2 =>
    when (no_overflow t && equal (eref m) (eref b2) && not_mod_by a2 b2) (Mutate ((b +' a1) +' a2)))));
  on_bin Add a (fun a1 a2 => on_bin Mul a2 (fun _ m => on_bin Mod b (fun _ b2 =>
    when (no_overflow t && equal (eref m) (eref b2) && not_mod_by a1 b2) (Mutate (a1 +' (a2 +' b))))));
  on_bin Add a (fun a1 a2 => on_bin Mod a2 (fun _ m => on_bin Mul b (fun _ b2 =>
    when (no_overflow t && equal (eref m) (eref b2) && not_mod_by a1 b2) (Mutate (a1 +' (b +' a2))))))
].

(** [x*4 + y*2 -> (x*2 + y)*2]. *)
Definition add_ratio_rules : list rule := [
  on_bin Mul a (fun a1 a2 => on_bin Mul b (fun b1 b2 => on_const (const_int a2) (fun ia => on_const (const_int b2) (fun ib =>
    when_ub (r ← c_rem64 ia ib; Ok (r =? 0))
      (Mutate ((a1 *' (q ← div_imp_int 64 ia ib; make_const (type a) (Int64 q)) +' b1) *' b2))))))
].

Definition add_rules : list rule :=
  add_const_rules ++ add_vector_rules ++ add_select_rules ++ add_sum_rules ++ add_product_rules ++
  add_minmax_rules ++ add_div_rules ++ add_factor_rules ++ add_mod_rules ++ add_ratio_rules.
End Rules.

Definition visit_Add (same_as equal : ExprRef -> ExprRef -> bool) (mutate : Expr -> mut Simplify ExprRef)
    (op op_a op_b : Expr) : mut Simplify ExprRef :=
  visit_with same_as mutate add_swap (add_rules equal) Add_make op op_a op_b.

(** * Every rule keeps the value *)
Section Sound.
Context (equal : ExprRef -> ExprRef -> bool).
Context (Γ : gmap string Ty) (ρ : env) (Hρ : env_ok Ideal Γ ρ) (Hp : no_poison ρ).
Context (HE : EqualityTest Γ ρ equal).
Context (t : Ty) (Ht : std_int t).

Ltac rings := repeat (apply Forall_cons; split; [ring_rule Hρ HE Ht|]); by apply Forall_nil.

Lemma add_sum_right a b : hasty Γ t a -> hasty Γ t b ->
  Forall (rule_ok Γ ρ (Bin Add a b)) (add_sum_rules equal a b).
Proof. intros Ha Hb. rings. Qed.

Lemma add_product_right a b : hasty Γ t a -> hasty Γ t b ->
  Forall (rule_ok Γ ρ (Bin Add a b)) (add_product_rules equal t a b).
Proof. intros Ha Hb. rings. Qed.

Lemma add_factor_right a b : hasty Γ t a -> hasty Γ t b ->
  Forall (rule_ok Γ ρ (Bin Add a b)) (add_factor_rules equal a b).
Proof. intros Ha Hb. rings. Qed.

Lemma add_cancel_right op mk a b : (op = Min /\ mk = Min_make) \/ (op = Max /\ mk = Max_make) ->
  hasty Γ t a -> hasty Γ t b -> Forall (rule_ok Γ ρ (Bin Add a b)) (add_cancel_rules equal t a b op mk).
Proof. intros [[-> ->]|[-> ->]] Ha Hb; repeat (apply Forall_cons; split; [exact_rule Hρ HE Ht|]); by apply Forall_nil. Qed.

(** Rules whose test adds two constants. *)
Ltac offset_rule :=
  let act := fresh "act" in let Hact := fresh "Hact" in
  intros act Hact; inv_rule Hact;
  destruct (no_overflow t) eqn:?; [|done];
  apply when_ub_Some in Hact as [[Hact <-]|(? & _ & ->)]; [|by intros ? [=]];
  apply bind_Ok in Hact as (? & Hi & [= Hact]); apply i64_Ok in Hi as [-> _]; apply Z.eqb_eq in Hact;
  split_bools; split_hasty Ht; lanes_of_rule Hρ HE Ht; exact_lane.

Lemma add_offset_right op mk a b : (op = Min /\ mk = Min_make) \/ (op = Max /\ mk = Max_make) ->
  hasty Γ t a -> hasty Γ t b -> Forall (rule_ok Γ ρ (Bin Add a b)) (add_offset_rules t a b op mk).
Proof. intros [[-> ->]|[-> ->]] Ha Hb; repeat (apply Forall_cons; split; [offset_rule|]); by apply Forall_nil. Qed.

Lemma add_minmax_right a b : hasty Γ t a -> hasty Γ t b ->
  Forall (rule_ok Γ ρ (Bin Add a b)) (add_minmax_rules equal t a b).
Proof.
  intros Ha Hb. unfold add_minmax_rules. rewrite !Forall_app.
  split_and!; first [apply add_cancel_right; auto|apply add_offset_right; auto].
Qed.

Lemma add_mod_right a b : hasty Γ t a -> hasty Γ t b ->
  Forall (rule_ok Γ ρ (Bin Add a b)) (add_mod_rules equal t a b).
Proof.
  intros Ha Hb. apply Forall_cons; split; [ring_rule Hρ HE Ht|]. apply Forall_cons; split; [|rings].
  intros act Hact. rule_action Hact act. split_bools. split_hasty Ht. lanes_of_rule Hρ HE Ht.
  rewrite !norm_unbounded by assumption.
  match goal with |- context [ediv ?x ?y] => pose proof (ediv_emod x y ltac:(assumption)) end. lia.
Qed.

(** [(x + ia) / ib + ic]: the constant the rule folds must not wrap. *)
Definition add_div_fits (a b : Expr) : Prop := forall x y d ia ib ic,
  a = Bin Div (Bin Add x y) d -> const_int y = Some ia -> const_int d = Some ib -> const_int b = Some ic ->
  no_overflow t = true -> in_srange (bits t) (ia + ib * ic).

Lemma add_div_right a b : hasty Γ t a -> hasty Γ t b -> add_div_fits a b ->
  Forall (rule_ok Γ ρ (Bin Add a b)) (add_div_rules t a b).
Proof.
  intros Ha Hb Hfit. apply Forall_cons; split; [|by apply Forall_nil].
  intros act Hact. rule_action Hact act. split_bools. split_hasty Ht.
  pose proof (Hfit _ _ _ _ _ _ eq_refl ltac:(eassumption) ltac:(eassumption) ltac:(eassumption) ltac:(eassumption)) as Hin. clear Hfit.
  match goal with |- context [i64 (?p * ?q)] => destruct (i64_or (p * q)) as [-> | [? ->]]; [|by intros ? [=]] end.
  cbn [mbind res_bind].
  match goal with |- context [i64 ?p] => destruct (i64_or p) as [-> | [? ->]]; [|by intros ? [=]] end.
  cbn [mbind res_bind]. lanes_of_rule Hρ HE Ht.
  rewrite (wrap_unbounded t Ht), !norm_unbounded by assumption. symmetry.
  rewrite Z.add_assoc. apply ediv_shift. assumption.
Qed.

(** [ratio_rules] is tried when [b * -1] has been rewritten already. *)
Lemma ratio_exact ia ib q : in_srange (bits t) ia -> ib <> -1 -> in_srange 64 ia -> in_srange 64 ib ->
  in_srange (bits t) ib -> c_rem64 ia ib = Ok 0 -> div_imp_int 64 ia ib = Ok q -> ia = ib * q /\ in_srange (bits t) q.
Proof.
  intros Hia Hn Ha64 Hb64 Hib Hr Hq. destruct (div64_Ok _ _ _ Ha64 Hb64 Hq) as [-> _].
  unfold c_rem64 in Hr. destruct (c_div_undefined 64 ia ib) eqn:E; [done|]. injection Hr as Hr.
  assert (Hb : ib <> 0) by (unfold c_div_undefined in E; apply orb_false_iff in E as [E _]; by apply Z.eqb_neq).
  destruct (euclid_correction ia ib Hb) as [_ Hm]. rewrite Hr in Hm. simpl in Hm.
  destruct (ediv_emod ia ib Hb) as [Hd _]. split; [lia|].
  apply ediv_range; [apply (std_int_bits t Ht)|done..|]. lia.
Qed.

Lemma const_not_minus_one e i : hasty Γ t e -> const_int e = Some i -> is_negative_negatable_const e = false -> i <> -1.
Proof.
  intros He Hc Hn ->. destruct (const_int_in_range Γ t Ht _ _ He Hc) as (_ & _ & Hi).
  pose proof (std_int_width t Ht) as [[_ Hw]|[Hu _]]; [|by rewrite (uint_not_int t Hu) in Hi].
  unfold const_int in Hc. destruct (is_vector (type e)) eqn:Hv; [done|].
  destruct (hasty_fields Γ t Ht _ He) as (Hcd & Hb & _).
  destruct e; try done.
  - simpl in Hc, Hb, Hcd. injection Hc as ->. unfold is_negative_negatable_const in Hn. simpl in Hn.
    apply negb_false_iff in Hn. unfold is_min_int64 in Hn. unfold is_int in Hi, Hn. rewrite Hcd, Hi in Hn.
    apply Z.eqb_eq in Hn.
    rewrite Hb, min_int_spec in Hn by apply (std_int_bits t Ht).
    pose proof (int_width_ge _ Hw). pose proof (Z.pow_le_mono_r 2 7 (bits t - 1)). lia.
  - exfalso. destruct He as [[[[_ Hl] _] [_ Hlt] _] _]. unfold is_vector in Hv. simpl in Hv.
    rewrite small_lanes in Hv by done. bool_to_prop. done.
Qed.

Lemma add_ratio_right a b : hasty Γ t a -> hasty Γ t b ->
  Forall (fun r => r = None) (add_product_rules equal t a b) ->
  Forall (rule_ok Γ ρ (Bin Add a b)) (add_ratio_rules a b).
Proof.
  intros Ha Hb Hprev. apply Forall_cons; split; [|by apply Forall_nil]. apply Forall_inv in Hprev.
  intros act Hact. apply on_bin_Some in Hact as (a1 & a2 & -> & Hact). apply on_bin_Some in Hact as (b1 & b2 & -> & Hact).
  apply on_const_Some in Hact as (ia & Hia & Hact). apply on_const_Some in Hact as (ib & Hib & Hact).
  apply when_ub_Some in Hact as [[Hact <-]|(? & _ & ->)]; [|by intros ? [=]].
  apply bind_Ok in Hact as (r & Hr & [= Hz]). apply Z.eqb_eq in Hz as ->. split_hasty Ht.
  destruct (const_int_in_range Γ t Ht a2 ia) as (Hra & Ha64 & _); [done..|].
  destruct (const_int_in_range Γ t Ht b2 ib) as (Hrb & Hb64 & _); [done..|].
  assert (Hn : ib <> -1).
  { eapply const_not_minus_one; [|exact Hib|]; [done|]. simpl in Hprev. unfold when in Hprev.
    destruct (is_negative_negatable_const b2); done. }
  destruct (div_imp_int 64 ia ib) as [q|] eqn:Hq; [|by intros ? [=]].
  destruct (ratio_exact ia ib q) as [Heq Hrq]; try done. cbn [mbind res_bind].
  assert (Hw : cong t (wrap_type t q) q).
  { unfold cong. destruct (wrap_type_form t q) as [k Hk]; [apply (std_int_bits t Ht)|]. exists k. split; [done|].
    intros Hu. rewrite (wrap_unbounded t Ht) in Hk by done. pose proof (pow2_pos (bits t)). pose proof (std_int_bits t Ht). nia. }
  lanes_of_rule Hρ HE Ht. apply cong_norm; [done|]. rewrite !norm_cong, Hw by done. apply cong_eq. rewrite Heq. ring.
Qed.

(** ** Vectors *)
Notation te := (element_of t).
Let Hte : std_int te := std_element t Ht.

Lemma add_vector_right a b : hasty Γ t a -> hasty Γ t b ->
  Forall (rule_ok Γ ρ (Bin Add a b)) (add_vector_rules a b).
Proof.
  intros Ha Hb. apply Forall_cons; split; [|apply Forall_cons; split; [|apply Forall_cons; split; [|apply Forall_cons; split; [|by apply Forall_nil]]]];
    intros act Hact; inv_rule Hact; injection Hact as <-; cbn [action_ok].
  - destruct (hasty_ramp Γ t Ht _ _ _ Ha) as (? & ? & -> & ?), (hasty_ramp Γ t Ht _ _ _ Hb) as (? & ? & -> & _).
    eapply (rule_rewrites _ _ Hρ _ Ht); [hasty_auto Ht|build_ramp Ht Hte|].
    operands_of_rule Hρ Ht Hfa Hfb. split_ramp Hρ Ht Ha Hfa. split_ramp Hρ Ht Hb Hfb.
    eexists. split; [compute_ramp Γ Ht Hte|]. at_lane. rewrite !element_norm by done. norm_ring.
  - destruct (hasty_ramp Γ t Ht _ _ _ Ha) as (? & ? & -> & ?), (hasty_broadcast Γ t Ht _ _ Hb) as (? & -> & _).
    eapply (rule_rewrites _ _ Hρ _ Ht); [hasty_auto Ht|build_ramp Ht Hte|].
    operands_of_rule Hρ Ht Hfa Hfb. split_ramp Hρ Ht Ha Hfa. split_broadcast Hρ Ht Hb Hfb.
    eexists. split; [compute_ramp Γ Ht Hte|]. at_lane. rewrite !element_norm by done. norm_ring.
  - destruct (hasty_broadcast Γ t Ht _ _ Ha) as (? & -> & _), (hasty_ramp Γ t Ht _ _ _ Hb) as (? & ? & -> & ?).
    eapply (rule_rewrites _ _ Hρ _ Ht); [hasty_auto Ht|build_ramp Ht Hte|].
    operands_of_rule Hρ Ht Hfa Hfb. split_broadcast Hρ Ht Ha Hfa. split_ramp Hρ Ht Hb Hfb.
    eexists. split; [compute_ramp Γ Ht Hte|]. at_lane. rewrite !element_norm by done. norm_ring.
  - destruct (hasty_broadcast Γ t Ht _ _ Ha) as (? & -> & ?), (hasty_broadcast Γ t Ht _ _ Hb) as (? & -> & _).
    apply (lanes_rewrites _ _ Hρ _ Ht); [hasty_auto Ht|done|build Hte|].
    operands_of_rule Hρ Ht Hfa Hfb. split_broadcast Hρ Ht Ha Hfa. split_broadcast Hρ Ht Hb Hfb.
    eexists. split; [compute_lanes Hte|]. at_lane. by rewrite !element_norm by done.
Qed.

Lemma add_select_right a b : hasty Γ t a -> hasty Γ t b ->
  Forall (rule_ok Γ ρ (Bin Add a b)) (add_select_rules equal a b).
Proof.
  intros Ha Hb. apply Forall_cons; split; [|apply Forall_cons; split; [|by apply Forall_nil]];
    intros act Hact; rule_action Hact act; cbn [action_ok].
  - destruct (hasty_select Γ t Ht _ _ _ Ha) as (? & ? & ? & ? & ?), (hasty_select Γ t Ht _ _ _ Hb) as (? & ? & ? & _).
    eapply (rule_rewrites _ _ Hρ _ Ht); [hasty_auto Ht|build_select Ht|].
    operands_of_rule Hρ Ht Hfa Hfb. split_select Hρ Ht Hfa. split_select Hρ Ht Hfb.
    eexists. split; [compute_select Ht|].
    same_picks HE. at_lane. by pick_lane.
  - destruct (hasty_select Γ t Ht _ _ _ Ha) as (? & ? & ? & ? & ?).
    eapply (rule_rewrites _ _ Hρ _ Ht); [hasty_auto Ht|build_select Ht|].
    operands_of_rule Hρ Ht Hfa Hfb. split_select Hρ Ht Hfa.
    eexists. split; [compute_select Ht|]. at_lane. by pick_lane.
Qed.

Lemma add_const_right a b : hasty Γ t a -> hasty Γ t b ->
  Forall (rule_ok Γ ρ (Bin Add a b)) (add_const_rules equal t a b).
Proof.
  intros Ha Hb. apply Forall_cons; split.
  { intros act Hact. apply on_const_Some in Hact as (ia & Hia & Hact). apply on_const_Some in Hact as (ib & Hib & [= <-]).
    apply (int_fold_ok Γ ρ Hρ t Ht Add a b ia ib (ia + ib)); try done; [by intros ? ? -> ->|].
    destruct (const_int_in_range Γ t Ht a ia Ha Hia) as (Hra & _), (const_int_in_range Γ t Ht b ib Hb Hib) as (Hrb & _).
    destruct (hasty_fields Γ t Ht a Ha) as (_ & -> & _). apply would_overflow_range; [apply (std_int_bits t Ht)|done..]. }
  apply Forall_cons; split.
  { intros act Hact. apply on_const_Some in Hact as (ua & Hua & Hact). apply on_const_Some in Hact as (ub & Hub & [= <-]).
    apply (uint_fold_ok Γ ρ Hρ t Ht Add a b ua ub (ua + ub)); try done. by intros ? ? -> ->. }
  apply Forall_cons; split.
  { intros act Hact. apply on_const_Some in Hact as (fa & Hfa & Hact). apply on_const_Some in Hact as (fb & Hfb & [= <-]).
    by apply (float_fold_ok Γ ρ t Ht). }
  do 3 (apply Forall_cons; split; [ring_rule Hρ HE Ht|]).
  do 2 (apply Forall_cons; split; [intros act Hact; rule_action Hact act; intros e' [= <-];
    eapply (poison_rewrites Γ ρ Hp t Ht); eauto|]).
  by apply Forall_nil.
Qed.

Lemma add_rules_right a b : hasty Γ t a -> hasty Γ t b -> add_div_fits a b ->
  rule_ok Γ ρ (Bin Add a b) (first_rule (add_rules equal t a b)).
Proof.
  intros Ha Hb Hfit. unfold add_rules.
  do 4 (apply first_rule_app; [by auto using add_const_right, add_vector_right, add_select_right, add_sum_right|intros _]).
  apply first_rule_app; [by apply add_product_right|intros Hprev].
  do 4 (apply first_rule_app; [by auto using add_minmax_right, add_div_right, add_factor_right, add_mod_right|intros _]).
  apply first_rule_ok. by apply add_ratio_right.
Qed.
End Sound.

(** C7. The simplifier's visit of [Add] keeps the type of a sum of integers, and in
    every environment its value when no signed overflow was flagged on the way,
    whichever rule it applies to the mutated operands, if [mutate] keeps those of the
    operands and of what a rule passes it. One rule needs a condition: where the mutated
    operands are [(x + ia) / ib] and [ic], of a type without overflow, the constant [ia
    + ib*ic] has to fit the type; where it does not, the visit is wrong
    ([visit_Add_div_defect]). *)
Theorem visit_Add_sound facts equal same_as mutate Γ ρ s op_a op_b :
  Facts facts equal -> Simplifies facts mutate ->
  facts Γ ρ s -> good Γ (Bin Add op_a op_b) -> std_int (type op_a) ->
  (forall x s1 y s2, mutate op_a s = Ok (Some x, s1) -> mutate op_b s1 = Ok (Some y, s2) ->
     let '(a, b) := if add_swap x y then (y, x) else (x, y) in add_div_fits (type op_a) a b) ->
  simplifies facts (visit_Add same_as equal mutate (Bin Add op_a op_b) op_a op_b) Γ ρ s (Bin Add op_a op_b).
Proof.
  intros HF HM Hs Hg Ht Hfit.
  apply (visit_with_sound facts equal same_as mutate Γ ρ s Add "Add"); [done..|].
  intros x s1 y s2 Hx Hy Hhx Hhy. specialize (Hfit _ _ _ _ Hx Hy).
  destruct (add_swap x y);
    apply (add_rules_right equal Γ ρ (facts_env _ _ Γ ρ s Hs) (facts_poison _ _ Γ ρ s Hs) (facts_equal _ _ Γ ρ s Hs));
    done.
Qed.

(** The rule [((a + ia) / ib + ic) -> (a + (ia + ib*ic)) / ib] wraps the constant it
    folds: [(x + 2147483647) / 2 + 1] becomes [(x + -2147483647) / 2], which at [x = 0]
    is -1073741824 and not 1073741824, although neither expression overflows there. *)
Theorem visit_Add_div_defect same_as s :
  let a := Bin Div (Bin Add x32 (imm32 2147483647)) (imm32 2) in
  let r := Bin Div (Bin Add x32 (imm32 (-2147483647))) (imm32 2) in
  visit_Add same_as ptr_equal no_mutate (Bin Add a (imm32 1)) a (imm32 1) s = Ok (eref r, s) /\
  eval Strict (xy_env 0 0) (Bin Add a (imm32 1)) = Some [VInt 1073741824] /\
  eval Strict (xy_env 0 0) r = Some [VInt (-1073741824)].
Proof. split; [|split]; by vm_compute. Qed.

(** [(y - x) + x] is [y]. *)
Lemma visit_Add_sound_witness :
  let e := Bin Add (Bin Sub y32 x32) x32 in
  visit_Add same_expr_ref ptr_equal no_mutate e (Bin Sub y32 x32) x32 new_simplify = Ok (eref y32, new_simplify) /\
  eval Ideal (xy_env 5 (-3)) e = Some [VInt (-3)] /\
  simplifies env_facts (visit_Add same_expr_ref ptr_equal no_mutate e (Bin Sub y32 x32) x32)
    xy_types (xy_env 5 (-3)) new_simplify e.
Proof.
  split; [by vm_compute|]. split; [by vm_compute|].
  apply (visit_Add_sound env_facts ptr_equal same_expr_ref no_mutate).
  - apply env_facts_Facts.
  - apply no_mutate_Simplifies.
  - apply xy_facts.
  - split; [repeat split; by vm_compute|repeat split; by vm_compute|by vm_compute].
  - split; [by vm_compute|]. by vm_compute.
  - intros a s1 b s2 [= <- <-] [= <- <-]. simpl. by intros ??????.
Defined.
