(* ===== verification/SimplifyMul.v ===== *)
(** The simplifier's visit of [Mul] (src/src/Simplify.cpp): the chain of its rules, and
    the proof that each of them keeps the value of a product of integers. *)

From Stdlib Require Import ZArith Lia Bool SpecFloat String.
From stdpp Require Import prelude strings gmap.
From S2P Require Import Prelude Types IR Semantics Scope Operators ModulusRemainder Mutator Equality EqualityMeaning Interval ConstBounds Monotonic Lanes Simplify SimplifyRules.

#[local] Open Scope Z_scope.
#[local] Open Scope halide_scope.

Definition is_ramp (e : Expr) : bool := match e with Ramp _ _ _ => true | _ => false end.

Section Rules.
Context (t : Ty) (a b : Expr).

Definition mul_swap (a b : Expr) : bool := is_simple_const a.

(** Zero, one, constants, and poison. *)
Definition mul_const_rules : list rule := [
  when (is_zero a) (Result a);
  when (is_zero b) (Result b);
  when (is_one a) (Result b);
  when (is_one b) (Result a);
  on_const (const_int a) (fun ia => on_const (const_int b) (fun ib =>
    Some (if no_overflow (type a) && mul_would_overflow (bits (type a)) ia ib then Overflow (type a)
          else Result (v ← i64 (ia * ib); IntImm_make (type a) v))));
  on_const (const_uint a) (fun ua => on_const (const_uint b) (fun ub =>
    Some (Result (UIntImm_make (type a) (uwrap 64 (ua * ub))))));
  on_const (const_float a) (fun fa => on_const (const_float b) (fun fb =>
    Some (Result (FloatImm_make (type a) (SFmul 53 1024 fa fb)))));
  when (is_intrinsic_call "signed_integer_overflow" a) (Result a);
  when (is_intrinsic_call "signed_integer_overflow" b) (Result b)
].

Definition mul_vector_rules : list rule := [
  on_broadcast a (fun value_a lanes_a => on_broadcast b (fun value_b _ =>
    Some (MutateLanes (value_a *' value_b) lanes_a)));
  on_ramp a (fun base_a stride_a lanes_a => on_broadcast b (fun m _ =>
    Some (Mutate (ramp' (base_a *' m) (stride_a *' m) lanes_a))));
  on_broadcast a (fun m _ => on_ramp b (fun base_b stride_b lanes_b =>
    Some (Mutate (ramp' (m *' base_b) (m *' stride_b) lanes_b))))
].

(** Constants distributed or pulled outwards. *)
Definition mul_sum_rules : list rule := [
  on_bin Add a (fun a1 a2 =>
    when (negb (is_ramp a2 && is_ramp b) && is_simple_const a2 && is_simple_const b)
      (Mutate (a1 *' b +' a2 *' b)));
  on_bin Sub a (fun a1 a2 =>
    when (is_negative_negatable_const b) (Mutate (on2 Mul_make (on2 Sub_make a2 a1) (neg' b))));
  on_bin Mul a (fun a1 a2 =>
    when (is_simple_const a2 && is_simple_const b) (Mutate (a1 *' (a2 *' b))));
  on_bin Mul b (fun b1 b2 =>
    when (is_simple_const b2) (Mutate ((a *' b1) *' b2)))
].

Definition mul_rules : list rule := mul_const_rules ++ mul_vector_rules ++ mul_sum_rules.
End Rules.

Definition visit_Mul (same_as : ExprRef -> ExprRef -> bool) (mutate : Expr -> mut Simplify ExprRef)
    (op op_a op_b : Expr) : mut Simplify ExprRef :=
  visit_with same_as mutate mul_swap (fun _ => mul_rules) Mul_make op op_a op_b.

(** * Every rule keeps the value *)
Section Sound.
Context (equal : ExprRef -> ExprRef -> bool).
Context (Γ : gmap string Ty) (ρ : env) (Hρ : env_ok Ideal Γ ρ) (Hp : no_poison ρ).
Context (HE : EqualityTest Γ ρ equal).
Context (t : Ty) (Ht : std_int t).

Ltac rings := repeat (apply Forall_cons; split; [ring_rule Hρ HE Ht|]); by apply Forall_nil.

Lemma mul_const_right a b : hasty Γ t a -> hasty Γ t b ->
  Forall (rule_ok Γ ρ (Bin Mul a b)) (mul_const_rules a b).
Proof.
  intros Ha Hb. do 4 (apply Forall_cons; split; [ring_rule Hρ HE Ht|]). apply Forall_cons; split.
  { intros act Hact. apply on_const_Some in Hact as (ia & Hia & Hact). apply on_const_Some in Hact as (ib & Hib & [= <-]).
    apply (int_fold_ok Γ ρ Hρ t Ht Mul a b ia ib (ia * ib)); try done; [by intros ? ? -> ->|].
    destruct (const_int_in_range Γ t Ht a ia Ha Hia) as (Hra & _), (const_int_in_range Γ t Ht b ib Hb Hib) as (Hrb & _).
    destruct (hasty_fields Γ t Ht a Ha) as (_ & -> & _). apply would_overflow_range; [apply (std_int_bits t Ht)|done..]. }
  apply Forall_cons; split.
  { intros act Hact. apply on_const_Some in Hact as (ua & Hua & Hact). apply on_const_Some in Hact as (ub & Hub & [= <-]).
    apply (uint_fold_ok Γ ρ Hρ t Ht Mul a b ua ub (ua * ub)); try done. by intros ? ? -> ->. }
  apply Forall_cons; split.
  { intros act Hact. apply on_const_Some in Hact as (fa & Hfa & Hact). apply on_const_Some in Hact as (fb & Hfb & [= <-]).
    by apply (float_fold_ok Γ ρ t Ht). }
  do 2 (apply Forall_cons; split; [intros act Hact; rule_action Hact act; intros e' [= <-];
    eapply (poison_rewrites Γ ρ Hp t Ht); eauto|]).
  by apply Forall_nil.
Qed.

Lemma mul_sum_right a b : hasty Γ t a -> hasty Γ t b -> Forall (rule_ok Γ ρ (Bin Mul a b)) (mul_sum_rules a b).
Proof. intros Ha Hb. rings. Qed.

Let Hte : std_int (element_of t) := std_element t Ht.

Lemma mul_vector_right a b : hasty Γ t a -> hasty Γ t b ->
  Forall (rule_ok Γ ρ (Bin Mul a b)) (mul_vector_rules a b).
Proof.
  intros Ha Hb. apply Forall_cons; split; [|apply Forall_cons; split; [|apply Forall_cons; split; [|by apply Forall_nil]]];
    intros act Hact; inv_rule Hact; injection Hact as <-; cbn [action_ok].
  - destruct (hasty_broadcast Γ t Ht _ _ Ha) as (? & -> & ?), (hasty_broadcast Γ t Ht _ _ Hb) as (? & -> & _).
    apply (lanes_rewrites _ _ Hρ _ Ht); [hasty_auto Ht|done|build Hte|].
    operands_of_rule Hρ Ht Hfa Hfb. split_broadcast Hρ Ht Ha Hfa. split_broadcast Hρ Ht Hb Hfb.
    eexists. split; [compute_lanes Hte|]. at_lane. by rewrite !element_norm by done.
  - destruct (hasty_ramp Γ t Ht _ _ _ Ha) as (? & ? & -> & ?), (hasty_broadcast Γ t Ht _ _ Hb) as (? & -> & _).
    eapply (rule_rewrites _ _ Hρ _ Ht); [hasty_auto Ht|build_ramp Ht Hte|].
    operands_of_rule Hρ Ht Hfa Hfb. split_ramp Hρ Ht Ha Hfa. split_broadcast Hρ Ht Hb Hfb.
    eexists. split; [compute_ramp Γ Ht Hte|]. at_lane. rewrite !element_norm by done. norm_ring.
  - destruct (hasty_broadcast Γ t Ht _ _ Ha) as (? & -> & _), (hasty_ramp Γ t Ht _ _ _ Hb) as (? & ? & -> & ?).
    eapply (rule_rewrites _ _ Hρ _ Ht); [hasty_auto Ht|build_ramp Ht Hte|].
    operands_of_rule Hρ Ht Hfa Hfb. split_broadcast Hρ Ht Ha Hfa. split_ramp Hρ Ht Hb Hfb.
    eexists. split; [compute_ramp Γ Ht Hte|]. at_lane. rewrite !element_norm by done. norm_ring.
Qed.

Lemma mul_rules_right a b : hasty Γ t a -> hasty Γ t b -> rule_ok Γ ρ (Bin Mul a b) (first_rule (mul_rules a b)).
Proof.
  intros Ha Hb. apply first_rule_ok. unfold mul_rules. rewrite !Forall_app.
  auto using mul_const_right, mul_vector_right, mul_sum_right.
Qed.
End Sound.

(** C9. The simplifier's visit of [Mul] keeps the value of a product of integers,
    whatever rule it applies to the mutated operands, when no signed overflow was
    flagged on the way. *)
Theorem visit_Mul_sound facts equal same_as mutate Γ ρ s op_a op_b :
  Facts facts equal -> Simplifies facts mutate ->
  facts Γ ρ s -> good Γ (Bin Mul op_a op_b) -> std_int (type op_a) ->
  simplifies facts (visit_Mul same_as mutate (Bin Mul op_a op_b) op_a op_b) Γ ρ s (Bin Mul op_a op_b).
Proof.
  intros HF HM Hs Hg Ht.
  apply (visit_with_sound facts equal same_as mutate Γ ρ s Mul "Mul"); [done..|].
  intros x s1 y s2 Hx Hy Hhx Hhy.
  destruct (mul_swap x y);
    eapply (mul_rules_right Γ ρ (facts_env _ _ Γ ρ s Hs) (facts_poison _ _ Γ ρ s Hs));
    eauto.
Qed.

(** [(y - x) * -3] is [(x - y) * -(-3)]. *)
Lemma visit_Mul_sound_witness :
  let e := Bin Mul (Bin Sub y32 x32) (imm32 (-3)) in
  visit_Mul same_expr_ref no_mutate e (Bin Sub y32 x32) (imm32 (-3)) new_simplify =
    Ok (eref (Bin Mul (Bin Sub x32 y32) (Bin Sub (imm32 0) (imm32 (-3)))), new_simplify) /\
  eval Ideal (xy_env 5 (-3)) e = Some [VInt 24] /\
  simplifies env_facts (visit_Mul same_expr_ref no_mutate e (Bin Sub y32 x32) (imm32 (-3)))
    xy_types (xy_env 5 (-3)) new_simplify e.
Proof.
  split; [by vm_compute|]. split; [by vm_compute|].
  apply (visit_Mul_sound env_facts ptr_equal same_expr_ref no_mutate).
  - apply env_facts_Facts.
  - apply no_mutate_Simplifies.
  - apply xy_facts.
  - split; [repeat split; by vm_compute|repeat split; by vm_compute|by vm_compute].
  - split; [by vm_compute|]. by vm_compute.
Defined.
