(* ===== verification/SimplifySub.v ===== *)
(** The simplifier's visit of [Sub] (src/src/Simplify.cpp): the chain of its rules, and
    the proof that each of them keeps the value of a difference of integers. *)

From Stdlib Require Import ZArith Lia Bool SpecFloat String.
From stdpp Require Import prelude strings gmap.
From S2P Require Import Prelude Types IR Semantics Scope Operators ModulusRemainder Mutator Equality EqualityMeaning Interval ConstBounds Monotonic Lanes Simplify SimplifyRules.

#[local] Open Scope Z_scope.
#[local] Open Scope halide_scope.

Section Rules.
Context (equal : ExprRef -> ExprRef -> bool).
(** [op->type], and the mutated operands. *)
Context (t : Ty) (a b : Expr).

(** Zero, constants, and poison; a constant is added negated. *)
Definition sub_const_rules : list rule := [
  when (is_zero b) (Result a);
  when (equal (eref a) (eref b)) (Result (make_zero t));
  on_const (const_int a) (fun ia => on_const (const_int b) (fun ib =>
    Some (if no_overflow (type a) && sub_would_overflow (bits (type a)) ia ib then Overflow (type a)
          else Result (v ← i64 (ia - ib); IntImm_make (type a) v))));
  on_const (const_uint a) (fun ua => on_const (const_uint b) (fun ub =>
    Some (Result (UIntImm_make (type a) (uwrap 64 (ua - ub))))));
  on_const (const_float a) (fun fa => on_const (const_float b) (fun fb =>
    Some (Result (FloatImm_make (type a) (SFsub 53 1024 fa fb)))));
  on_const (const_int b) (fun ib => Some (Mutate (a +' (v ← i64 (- ib); IntImm_make (type a) v))));
  on_const (const_float b) (fun fb => Some (Mutate (a +' FloatImm_make (type a) (SFopp fb))));
  when (is_intrinsic_call "signed_integer_overflow" a) (Result a);
  when (is_intrinsic_call "signed_integer_overflow" b) (Result b)
].

Definition sub_vector_rules : list rule := [
  on_ramp a (fun base_a stride_a lanes_a => on_ramp b (fun base_b stride_b _ =>
    Some (Mutate (ramp' (base_a -' base_b) (stride_a -' stride_b) lanes_a))));
  on_ramp a (fun base_a stride_a lanes_a => on_broadcast b (fun value_b _ =>
    Some (Mutate (ramp' (base_a -' value_b) stride_a lanes_a))));
  on_broadcast a (fun value_a _ => on_ramp b (fun base_b stride_b lanes_b =>
    Some (Mutate (ramp' (value_a -' base_b) (make_zero (type stride_b) -' stride_b) lanes_b))));
  on_broadcast a (fun value_a lanes_a => on_broadcast b (fun value_b _ =>
    Some (MutateLanes (value_a -' value_b) lanes_a)))
].

Definition sub_select_rules : list rule := [
  on_select a (fun c_a t_a f_a => on_select b (fun c_b t_b f_b =>
    when (equal (eref c_a) (eref c_b)) (Mutate (select' c_a (t_a -' t_b) (f_a -' f_b)))));
  on_select a (fun c_a t_a f_a =>
    when (equal (eref t_a) (eref b)) (Mutate (select' c_a (make_zero t) (f_a -' t_a))));
  on_select a (fun c_a t_a f_a =>
    when (equal (eref f_a) (eref b)) (Mutate (select' c_a (t_a -' f_a) (make_zero t))));
  on_select b (fun c_b t_b f_b =>
    when (equal (eref t_b) (eref a)) (Mutate (select' c_b (make_zero t) (t_b -' f_b))));
  on_select b (fun c_b t_b f_b =>
    when (equal (eref f_b) (eref a)) (Mutate (select' c_b (f_b -' t_b) (make_zero t))))
].

(** Ternary expressions where a term cancels. *)
Definition sub_cancel_rules : list rule := [
  on_bin Add a (fun a1 a2 => when (equal (eref a2) (eref b)) (Result a1));
  on_bin Add a (fun a1 a2 => when (equal (eref a1) (eref b)) (Result a2));
  on_bin Add b (fun b1 b2 => when (equal (eref b2) (eref a)) (Mutate (make_zero (type b1) -' b1)));
  on_bin Add b (fun b1 b2 => when (equal (eref b1) (eref a)) (Mutate (make_zero (type b1) -' b2)))
].

(** [op(a1, a2) - a1] and [op(a1, a2) - a2]; [a - op(...)] gives the other extremum. *)
Definition sub_extremum_left (op : binop) (make : ExprRef -> ExprRef -> res Expr) : rule :=
  on_bin op a (fun a1 a2 =>
    when (equal (eref a1) (eref b) && negb (is_const b) && no_overflow t)
      (Mutate (on2 make (make_zero t) (a2 -' a1)))).
Definition sub_extremum_right (op : binop) (make : ExprRef -> ExprRef -> res Expr) : rule :=
  on_bin op a (fun a1 a2 =>
    when (equal (eref a2) (eref b) && negb (is_const b) && no_overflow t)
      (Mutate (on2 make (a1 -' a2) (make_zero t)))).
Definition sub_from_left (op : binop) (make : ExprRef -> ExprRef -> res Expr) : rule :=
  on_bin op b (fun b1 b2 =>
    when (equal (eref b1) (eref a) && negb (is_const a) && no_overflow t)
      (Mutate (on2 make (make_zero t) (b1 -' b2)))).
Definition sub_from_right (op : binop) (make : ExprRef -> ExprRef -> res Expr) : rule :=
  on_bin op b (fun b1 b2 =>
    when (equal (eref b2) (eref a) && negb (is_const a) && no_overflow t)
      (Mutate (on2 make (b2 -' b1) (make_zero t)))).
Definition sub_minmax_rules : list rule := [
  sub_extremum_left Max Max_make; sub_extremum_left Min Min_make;
  sub_extremum_right Max Max_make; sub_extremum_right Min Min_make;
  sub_from_left Max Min_make; sub_from_left Min Max_make;
  sub_from_right Max Min_make; sub_from_right Min Max_make
].

(** Constants outwards, and products with a common term. *)
Definition sub_sum_rules : list rule := [
  on_bin Add a (fun a1 a2 =>
    when (is_simple_const a2)
      (if is_simple_const b then Mutate (a1 +' (a2 -' b)) else Mutate ((a1 -' b) +' a2)));
  on_bin Sub a (fun a1 a2 => on_bin Sub b (fun b1 b2 =>
    when (is_const a1 && is_const b1) (Mutate ((b2 -' a2) +' (a1 -' b1)))));
  on_bin Sub b (fun b1 b2 => Some (Mutate (a +' (b2 -' b1))));
  on_bin Mul b (fun b1 b2 =>
    when (is_negative_negatable_const b2) (Mutate (a +' b1 *' neg' b2)));
  on_bin Mul b (fun b1 b2 =>
    when (negb (is_const a) && equal (eref a) (eref b1) && no_overflow t)
      (Mutate (a *' (make_one t -' b2))));
  on_bin Mul b (fun b1 b2 =>
    when (negb (is_const a) && equal (eref a) (eref b2) && no_overflow t)
      (Mutate ((make_one t -' b1) *' a)));
  on_bin Mul a (fun a1 a2 =>
    when (negb (is_const b) && equal (eref a1) (eref b) && no_overflow t)
      (Mutate (a1 *' (a2 -' make_one t))));
  on_bin Mul a (fun a1 a2 =>
    when (negb (is_const b) && equal (eref a2) (eref b) && no_overflow t)
      (Mutate ((a1 -' make_one t) *' b)));
  on_bin Add b (fun b1 b2 => when (is_simple_const b2) (Mutate ((a -' b1) -' b2)));
  on_bin Sub a (fun a1 a2 =>
    when (is_simple_const a1 && is_simple_const b) (Mutate ((a1 -' b) -' a2)))
].

Definition sub_factor_rules : list rule := [
  on_bin Mul a (fun a1 a2 => on_bin Mul b (fun b1 b2 =>
    when (equal (eref a1) (eref b1)) (Mutate (a1 *' (a2 -' b2)))));
  on_bin Mul a (fun a1 a2 => on_bin Mul b (fun b1 b2 =>
    when (equal (eref a2) (eref b1)) (Mutate (a2 *' (a1 -' b2)))));
  on_bin Mul a (fun a1 a2 => on_bin Mul b (fun b1 b2 =>
    when (equal (eref a2) (eref b2)) (Mutate (a2 *' (a1 -' b1)))));
  on_bin Mul a (fun a1 a2 => on_bin Mul b (fun b1 b2 =>
    when (equal (eref a1) (eref b2)) (Mutate (a1 *' (a2 -' b1)))));
  on_bin Add a (fun a1 a2 => on_bin Add b (fun b1 b2 =>
    when (equal (eref a2) (eref b2)) (Mutate (a1 -' b1))));
  on_bin Add a (fun a1 a2 => on_bin Add b (fun b1 b2 =>
    when (equal (eref a1) (eref b1)) (Mutate (a2 -' b2))));
  on_bin Add a (fun a1 a2 => on_bin Add b (fun b1 b2 =>
    when (equal (eref a1) (eref b2)) (Mutate (a2 -' b1))));
  on_bin Add a (fun a1 a2 => on_bin Add b (fun b1 b2 =>
    when (equal (eref a2) (eref b1)) (Mutate (a1 -' b2))))
].

(** Quaternary expressions involving mins where a term cancels. *)
Definition sub_min_rules : list rule := [
  on_bin Min b (fun b1 b2 => on_bin Add b1 (fun y z =>
    when (no_overflow t && equal (eref a) (eref y)) (Mutate (on2 max (int_minus 0 z) (a -' b2)))));
  on_bin Min b (fun b1 b2 => on_bin Add b1 (fun y z =>
    when (no_overflow t && equal (eref a) (eref z)) (Mutate (on2 max (int_minus 0 y) (a -' b2)))));
  on_bin Min b (fun b1 b2 => on_bin Add b2 (fun y z =>
    when (no_overflow t && equal (eref a) (eref y)) (Mutate (on2 max (int_minus 0 z) (a -' b1)))));
  on_bin Min b (fun b1 b2 => on_bin Add b2 (fun y z =>
    when (no_overflow t && equal (eref a) (eref z)) (Mutate (on2 max (int_minus 0 y) (a -' b1)))));
  on_bin Min a (fun a1 a2 => on_bin Add a1 (fun y z =>
    when (no_overflow t && equal (eref b) (eref y)) (Mutate (on2 min z (a2 -' b)))));
  on_bin Min a (fun a1 a2 => on_bin Add a1 (fun y z =>
    when (no_overflow t && equal (eref b) (eref z)) (Mutate (on2 min y (a2 -' b)))));
  on_bin Min a (fun a1 a2 => on_bin Add a2 (fun y z =>
    when (no_overflow t && equal (eref b) (eref y)) (Mutate (on2 min z (a1 -' b)))));
  on_bin Min a (fun a1 a2 => on_bin Add a2 (fun y z =>
    when (no_overflow t && equal (eref b) (eref z)) (Mutate (on2 min y (a1 -' b)))))
].

Definition sub_same_extremum (op : binop) : rule :=
  on_bin op a (fun a1 a2 => on_bin op b (fun b1 b2 =>
    when (equal (eref a1) (eref b2) && equal (eref a2) (eref b1)) (Result (make_zero t)))).

(** [(x/4)*4 - x] and [x - (x/4)*4]. *)
Definition sub_mod_rules : list rule := [
  on_bin Mul a (fun q m => on_bin Div q (fun n d =>
    when (no_overflow t && (is_int t || is_uint t) && is_positive_const m && equal (eref m) (eref d) && equal (eref n) (eref b))
      (Mutate (make_zero (type a) -' b %' m))));
  on_bin Mul b (fun q m => on_bin Div q (fun n d =>
    when (no_overflow t && (is_int t || is_uint t) && is_positive_const m && equal (eref m) (eref d) && equal (eref n) (eref a))
      (Mutate (a %' m))))
].

(** The difference of two quotients by [c]: [k] gets their numerators and [c]. *)
Definition on_quotients (k : Expr -> Expr -> Expr -> rule) : rule :=
  on_bin Div a (fun n_a d_a => on_bin Div b (fun n_b d_b =>
    if is_positive_const d_a && equal (eref d_a) (eref d_b) && is_int t && no_overflow t
    then k n_a n_b d_a else None)).
Definition sub_div_rules : list rule := [
  on_quotients (fun n_a n_b c => on_bin Add n_a (fun x a => on_bin Add n_b (fun x' b =>
    when (equal (eref x) (eref x') && (is_simple_const a || is_simple_const b))
      (if is_simple_const b then Mutate ((((x +' (b %' c)) %' c) +' (a -' b)) /' c)
       else Mutate (((minus_int (c +' a) 1 -' b) -' ((x +' (a %' c)) %' c)) /' c)))));
  on_quotients (fun x n_b c => on_bin Add n_b (fun x' b =>
    when (equal (eref x) (eref x')) (Mutate (((minus_int c 1 -' b) -' (x %' c)) /' c))));
  on_quotients (fun n_a x c => on_bin Add n_a (fun x' a =>
    when (equal (eref x') (eref x)) (Mutate (((x' %' c) +' a) /' c))));
  on_quotients (fun x n_b c => on_bin Sub n_b (fun x' b =>
    when (equal (eref x) (eref x')) (Mutate (((minus_int c 1 +' b) -' (x %' c)) /' c))));
  on_quotients (fun n_a x c => on_bin Sub n_a (fun x' a =>
    when (equal (eref x') (eref x)) (Mutate (((x' %' c) -' a) /' c))));
  on_quotients (fun n_a n_b c => on_bin Sub n_a (fun x a => on_bin Add n_b (fun x' b =>
    when (equal (eref x) (eref x') && is_simple_const b)
      (Mutate (((((x +' (b %' c)) %' c) -' a) -' b) /' c)))));
  on_quotients (fun n_a n_b c => on_bin Add n_a (fun x a => on_bin Sub n_b (fun x' b =>
    when (equal (eref x) (eref x') && is_simple_const a)
      (Mutate (((b -' (x +' (a %' c)) %' c) +' minus_int (a +' c) 1) /' c)))))
].

(** The chain before the tests that mutate, and after them. *)
Definition sub_rules_before : list rule :=
  sub_const_rules ++ sub_vector_rules ++ sub_select_rules ++ sub_cancel_rules ++ sub_minmax_rules ++
  sub_sum_rules ++ sub_factor_rules ++ sub_min_rules ++ [sub_same_extremum Min; sub_same_extremum Max].
Definition sub_rules_after : list rule := sub_mod_rules ++ sub_div_rules.
End Rules.

Section Visit.
Context (same_as equal : ExprRef -> ExprRef -> bool) (mutate : Expr -> mut Simplify ExprRef).

Definition difference_of (crossed : bool) (a1 a2 b1 b2 : Expr) : res Expr :=
  if crossed then (a1 +' b1) -' (a2 +' b2) else (a1 +' b2) -' (a2 +' b1).

(** [op(a, b) - op(c, d)] where [a - b == c - d], or where [a - b == d - c]: the
    condition mutates the difference to see whether it is zero. *)
Definition difference_test (op : binop) (crossed : bool) (a b : Expr) : mut Simplify rule :=
  match a, b with
  | Bin op_a a1 a2, Bin op_b b1 b2 =>
      if bool_decide (op = op_a) && bool_decide (op = op_b) then
        e ← lift (difference_of crossed a1 a2 b1 b2);
        r ← mutate_defined mutate e;
        mret (when (is_zero r) (Mutate (if crossed then a2 -' b1 else a2 -' b2)))
      else mret None
  | _, _ => mret None
  end.

Fixpoint first_test (tests : list (mut Simplify rule)) : mut Simplify rule :=
  match tests with
  | [] => mret None
  | test :: tests => r ← test; match r with Some act => mret (Some act) | None => first_test tests end
  end.

Definition visit_Sub (op op_a op_b : Expr) : mut Simplify ExprRef :=
  a ← mutate_defined mutate op_a;
  b ← mutate_defined mutate op_b;
  match first_rule (sub_rules_before equal (type op) a b) with
  | Some act => run_action mutate act
  | None =>
      r ← first_test [difference_test Min false a b; difference_test Max false a b;
                      difference_test Min true a b; difference_test Max true a b];
      match r with
      | Some act => run_action mutate act
      | None =>
          match first_rule (sub_rules_after equal (type op) a b) with
          | Some act => run_action mutate act
          | None => no_rule same_as Sub_make op a b op_a op_b
          end
      end
  end.
End Visit.

(** * Every rule keeps the value *)

(** The constant subtracted can be negated, extrema are only subtracted from one
    another where nothing wraps, and a divisor called positive is a plain constant. *)
Record sub_safe (t : Ty) (a b : Expr) : Prop := {
  safe_negation : forall ib, const_int b = Some ib -> no_overflow t = true -> in_srange (bits t) (- ib);
  safe_extrema : (is_bin Min a && is_bin Min b) || (is_bin Max a && is_bin Max b) = true -> no_overflow t = true;
  safe_divisor : forall n d, a = Bin Div n d -> is_positive_const d = true -> is_simple_const d = true
}.

(** The difference of two quotients, from the remainder of either numerator. *)
Lemma quotients_low p q m c : c <> 0 -> m = emod q c + (p - q) -> ediv p c - ediv q c = ediv m c.
Proof.
  intros Hc ->. destruct (ediv_emod q c Hc).
  replace p with ((emod q c + (p - q)) + c * ediv q c) at 1 by lia. rewrite ediv_shift by done. lia.
Qed.
Lemma quotients_high p q m c : 0 < c -> m = c - 1 + (p - q) - emod p c -> ediv p c - ediv q c = ediv m c.
Proof.
  intros Hc ->. destruct (ediv_emod p c ltac:(lia)), (ediv_emod q c ltac:(lia)). symmetry.
  apply (ediv_unique _ c _ (c - 1 - emod q c)); lia.
Qed.
Lemma emod_add_emod x y c : c <> 0 -> emod (x + emod y c) c = emod (x + y) c.
Proof.
  intros Hc. destruct (ediv_emod y c Hc), (ediv_emod (x + y) c Hc).
  by apply (ediv_unique _ c (ediv (x + y) c - ediv y c)); lia.
Qed.

Section Sound.
Context (equal : ExprRef -> ExprRef -> bool).
Context (Γ : gmap string Ty) (ρ : env) (Hρ : env_ok Ideal Γ ρ) (Hp : no_poison ρ).
Context (HE : EqualityTest Γ ρ equal).
Context (t : Ty) (Ht : std_int t).

Ltac rings := repeat (apply Forall_cons; split; [ring_rule Hρ HE Ht|]); by apply Forall_nil.
Ltac exacts := repeat (apply Forall_cons; split; [exact_rule Hρ HE Ht|]); by apply Forall_nil.

Lemma sub_cancel_right a b : hasty Γ t a -> hasty Γ t b ->
  Forall (rule_ok Γ ρ (Bin Sub a b)) (sub_cancel_rules equal a b).
Proof. intros Ha Hb. rings. Qed.

Lemma sub_sum_right a b : hasty Γ t a -> hasty Γ t b ->
  Forall (rule_ok Γ ρ (Bin Sub a b)) (sub_sum_rules equal t a b).
Proof. intros Ha Hb. rings. Qed.

Lemma sub_factor_right a b : hasty Γ t a -> hasty Γ t b ->
  Forall (rule_ok Γ ρ (Bin Sub a b)) (sub_factor_rules equal a b).
Proof. intros Ha Hb. rings. Qed.

Lemma sub_minmax_right a b : hasty Γ t a -> hasty Γ t b ->
  Forall (rule_ok Γ ρ (Bin Sub a b)) (sub_minmax_rules equal t a b).
Proof. intros Ha Hb. exacts. Qed.

Lemma sub_min_right a b : hasty Γ t a -> hasty Γ t b ->
  Forall (rule_ok Γ ρ (Bin Sub a b)) (sub_min_rules equal t a b).
Proof. intros Ha Hb. exacts. Qed.

Lemma sub_same_extremum_right op a b : op = Min \/ op = Max -> hasty Γ t a -> hasty Γ t b ->
  rule_ok Γ ρ (Bin Sub a b) (sub_same_extremum equal t a b op).
Proof.
  intros Hop Ha Hb act Hact. rule_action Hact act. split_bools.
  destruct Hop as [-> | ->]; split_hasty Ht; lanes_of_rule Hρ HE Ht;
    match goal with |- norm _ ?z = 0 => replace z with 0 by lia end; apply norm_zero.
Qed.

Lemma sub_mod_right a b : hasty Γ t a -> hasty Γ t b ->
  Forall (rule_ok Γ ρ (Bin Sub a b)) (sub_mod_rules equal t a b).
Proof.
  intros Ha Hb. repeat (apply Forall_cons; split); [..|by apply Forall_nil];
    intros act Hact; rule_action Hact act; split_bools; split_hasty Ht; lanes_of_rule Hρ HE Ht;
    rewrite !norm_unbounded by assumption;
    match goal with |- context [ediv ?x ?y] => pose proof (ediv_emod x y ltac:(assumption)) end; lia.
Qed.

(** Both divisors are one constant, which is positive. *)
Ltac quotient_rule Hsafe :=
  let act := fresh "act" in let Hact := fresh "Hact" in
  intros act Hact; unfold on_quotients in Hact; inv_rule Hact;
  match type of Hact with (if ?c then _ else _) = _ => destruct c eqn:?; [|done] end;
  inv_rule Hact; subst act; split_bools; split_hasty Ht;
  match goal with H : is_positive_const ?d = true |- _ => pose proof (Hsafe _ d eq_refl H) end;
  try match goal with |- action_ok _ _ _ (if ?c then _ else _) => destruct c end.
Ltac quotient_lanes :=
  lanes_of_rule Hρ HE Ht; rewrite ?norm_unbounded in * by assumption; rewrite ?emod_add_emod by assumption;
  first [apply quotients_low; [assumption|lia]|apply quotients_high; lia].

Lemma sub_div_right a b : hasty Γ t a -> hasty Γ t b ->
  (forall n d, a = Bin Div n d -> is_positive_const d = true -> is_simple_const d = true) ->
  Forall (rule_ok Γ ρ (Bin Sub a b)) (sub_div_rules equal t a b).
Proof.
  intros Ha Hb Hsafe.
  repeat (apply Forall_cons; split); [..|by apply Forall_nil]; quotient_rule Hsafe; quotient_lanes.
Qed.

(** [x - c] for a constant [c] is [x + -c], when [-c] fits. *)
Lemma sub_negated_right a b : hasty Γ t a -> hasty Γ t b ->
  (forall ib, const_int b = Some ib -> no_overflow t = true -> in_srange (bits t) (- ib)) ->
  rule_ok Γ ρ (Bin Sub a b)
    (on_const (const_int b) (fun ib => Some (Mutate (a +' (v ← i64 (- ib); IntImm_make (type a) v))))).
Proof.
  intros Ha Hb Hneg act Hact. apply on_const_Some in Hact as (ib & Hib & [= <-]). specialize (Hneg ib Hib).
  destruct (i64_or (- ib)) as [-> | [? ->]]; [|by intros ? (? & ? & _ & ? & _)%on2_Ok]. cbn [mbind res_bind].
  assert (Hw : cong t (wrap_type t (- ib)) (- ib)).
  { destruct (wrap_type_form t (- ib)) as [k Hk]; [apply (std_int_bits t Ht)|]. exists k. split; [done|].
    intros Hu. rewrite (wrap_unbounded t Ht) in Hk; [|done|apply Hneg].
    - pose proof (pow2_pos (bits t)). pose proof (std_int_bits t Ht). nia.
    - destruct (no_overflow t) eqn:E; [done|]. by rewrite (no_overflow_no t Ht E) in Hu. }
  lanes_of_rule Hρ HE Ht. apply cong_norm; [done|]. rewrite Hw. apply cong_eq. ring.
Qed.

Lemma sub_const_right a b : hasty Γ t a -> hasty Γ t b ->
  (forall ib, const_int b = Some ib -> no_overflow t = true -> in_srange (bits t) (- ib)) ->
  Forall (rule_ok Γ ρ (Bin Sub a b)) (sub_const_rules equal t a b).
Proof.
  intros Ha Hb Hneg. apply Forall_cons; split; [ring_rule Hρ HE Ht|]. apply Forall_cons; split.
  { intros act Hact. rule_action Hact act. lanes_of_rule Hρ HE Ht. rewrite Z.sub_diag. apply norm_zero. }
  apply Forall_cons; split.
  { intros act Hact. apply on_const_Some in Hact as (ia & Hia & Hact). apply on_const_Some in Hact as (ib & Hib & [= <-]).
    apply (int_fold_ok Γ ρ Hρ t Ht Sub a b ia ib (ia - ib)); try done; [by intros ? ? -> ->|].
    destruct (const_int_in_range Γ t Ht a ia Ha Hia) as (Hra & _), (const_int_in_range Γ t Ht b ib Hb Hib) as (Hrb & _).
    destruct (hasty_fields Γ t Ht a Ha) as (_ & -> & _). apply would_overflow_range; [apply (std_int_bits t Ht)|done..]. }
  apply Forall_cons; split.
  { intros act Hact. apply on_const_Some in Hact as (ua & Hua & Hact). apply on_const_Some in Hact as (ub & Hub & [= <-]).
    apply (uint_fold_ok Γ ρ Hρ t Ht Sub a b ua ub (ua - ub)); try done. by intros ? ? -> ->. }
  apply Forall_cons; split.
  { intros act Hact. apply on_const_Some in Hact as (fa & Hfa & Hact). apply on_const_Some in Hact as (fb & Hfb & [= <-]).
    by apply (float_fold_ok Γ ρ t Ht). }
  apply Forall_cons; split; [by apply sub_negated_right|].
  apply Forall_cons; split.
  { intros act Hact. apply on_const_Some in Hact as (fb & Hfb & [= <-]). intros e' He'.
    apply on2_Ok in He' as (x & y & _ & Hy & _). by apply (FloatImm_no t Ht _ _ _ (hasty_type _ _ _ Ha)) in Hy. }
  do 2 (apply Forall_cons; split; [intros act Hact; rule_action Hact act; intros e' [= <-];
    eapply (poison_rewrites Γ ρ Hp t Ht); eauto|]).
  by apply Forall_nil.
Qed.

Let Hte : std_int (element_of t) := std_element t Ht.

Lemma sub_vector_right a b : hasty Γ t a -> hasty Γ t b ->
  Forall (rule_ok Γ ρ (Bin Sub a b)) (sub_vector_rules a b).
Proof.
  intros Ha Hb. repeat (apply Forall_cons; split); [..|by apply Forall_nil];
    intros act Hact; inv_rule Hact; injection Hact as <-; cbn [action_ok].
  - destruct (hasty_ramp Γ t Ht _ _ _ Ha) as (? & ? & -> & ?), (hasty_ramp Γ t Ht _ _ _ Hb) as (? & ? & -> & _).
    eapply (rule_rewrites _ _ Hρ _ Ht); [hasty_auto Ht|build_ramp Ht Hte|].
    operands_of_rule Hρ Ht Hfa Hfb. split_ramp Hρ Ht Ha Hfa. split_ramp Hρ Ht Hb Hfb.
    eexists. split; [compute_ramp Γ Ht Hte|]. at_lane. rewrite !element_norm by done. norm_ring.
  - destruct (hasty_ramp Γ t Ht _ _ _ Ha) as (? & ? & -> & ?), (hasty_broadcast Γ t Ht _ _ Hb) as (? & -> & _).
    eapply (rule_rewrites _ _ Hρ _ Ht); [hasty_auto Ht|build_ramp Ht Hte|].
    operands_of_rule Hρ Ht Hfa Hfb. split_ramp Hρ Ht Ha Hfa. split_broadcast Hρ Ht Hb Hfb.
    eexists. split; [compute_ramp Γ Ht Hte|]. at_lane. rewrite !element_norm by done. norm_ring.
  - destruct (hasty_broadcast Γ t Ht _ _ Ha) as (? & -> & _), (hasty_ramp Γ t Ht _ _ _ Hb) as (? & ? & -> & ?).
    eapply (rule_rewrites _ _ Hρ _ Ht); [hasty_auto Ht|build_ramp Ht Hte|].
    operands_of_rule Hρ Ht Hfa Hfb. split_broadcast Hρ Ht Ha Hfa. split_ramp Hρ Ht Hb Hfb.
    eexists. split; [compute_ramp Γ Ht Hte|]. at_lane. rewrite !element_norm by done. norm_ring.
  - destruct (hasty_broadcast Γ t Ht _ _ Ha) as (? & -> & ?), (hasty_broadcast Γ t Ht _ _ Hb) as (? & -> & _).
    apply (lanes_rewrites _ _ Hρ _ Ht); [hasty_auto Ht|done|build Hte|].
    operands_of_rule Hρ Ht Hfa Hfb. split_broadcast Hρ Ht Ha Hfa. split_broadcast Hρ Ht Hb Hfb.
    eexists. split; [compute_lanes Hte|]. at_lane. by rewrite !element_norm by done.
Qed.

(** A difference with one selection, whose condition picks the side. *)
Ltac one_select Hsel Hfa Hfb HF :=
  destruct (hasty_select _ t Ht _ _ _ Hsel) as (? & ? & ? & ? & ?);
  eapply (rule_rewrites _ _ Hρ _ Ht); [hasty_auto Ht|build_select Ht|];
  operands_of_rule Hρ Ht Hfa Hfb; split_select Hρ Ht HF; test_facts HE Ht;
  eexists; (split; [compute_select Ht|]); at_lane; pick_lane;
  rewrite ?Z.sub_diag, ?norm_zero; norm_ring.

Lemma sub_select_right a b : hasty Γ t a -> hasty Γ t b ->
  Forall (rule_ok Γ ρ (Bin Sub a b)) (sub_select_rules equal t a b).
Proof.
  intros Ha Hb. repeat (apply Forall_cons; split); [..|by apply Forall_nil];
    intros act Hact; rule_action Hact act; cbn [action_ok].
  - destruct (hasty_select Γ t Ht _ _ _ Ha) as (? & ? & ? & ? & ?), (hasty_select Γ t Ht _ _ _ Hb) as (? & ? & ? & _).
    eapply (rule_rewrites _ _ Hρ _ Ht); [hasty_auto Ht|build_select Ht|].
    operands_of_rule Hρ Ht Hfa Hfb. split_select Hρ Ht Hfa. split_select Hρ Ht Hfb.
    eexists. split; [compute_select Ht|].
    same_picks HE. at_lane. by pick_lane.
  - one_select Ha Hfa Hfb Hfa.
  - one_select Ha Hfa Hfb Hfa.
  - one_select Hb Hfa Hfb Hfb.
  - one_select Hb Hfa Hfb Hfb.
Qed.
End Sound.

(** * The tests that mutate, and the visit *)
Section VisitSound.
Context (facts : gmap string Ty -> env -> Simplify -> Prop) (equal same_as : ExprRef -> ExprRef -> bool).
Context (mutate : Expr -> mut Simplify ExprRef).
Context {HF : Facts facts equal} {HM : Simplifies facts mutate}.
Context (Γ : gmap string Ty) (ρ : env).
Context (t : Ty) (Ht : std_int t).

(** A test keeps the facts; what it answers is an action that returns or mutates an
    expression that may stand for [e], given what the test's own mutation said. *)
Definition test_ok (e : Expr) (test : mut Simplify rule) : Prop := forall s r s',
  facts Γ ρ s -> test s = Ok (r, s') ->
  facts Γ ρ s' /\ overflow_counter s <= overflow_counter s' /\
  forall act, r = Some act -> exists q, (act = Mutate q \/ act = Result q) /\ forall e', q = Ok e' -> simplified facts Γ ρ s e e' s'.

Lemma first_test_ok e tests : Forall (test_ok e) tests -> test_ok e (first_test tests).
Proof.
  induction 1 as [|test tests Htest _ IH]; intros s r s' Hs H.
  - apply mut_ret_Ok in H as [= -> ->]. split; [done|]. split; [lia|]. by intros ? [=].
  - cbn [first_test] in H. apply mut_bind_Ok in H as (r1 & s1 & H1 & H).
    destruct (Htest s r1 s1 Hs H1) as (Hs1 & Hc1 & Hact). destruct r1 as [act|].
    + apply mut_ret_Ok in H as [= -> ->]. split; [done|]. split; [done|exact Hact].
    + destruct (IH s1 r s' Hs1 H) as (Hs' & Hc' & Hact'). split; [done|]. split; [lia|].
      intros act Hr. destruct (Hact' act Hr) as (q & Hq' & Hq). exists q. split; [done|].
      intros e' He'. destruct (Hq e' He') as [? ? ? ? Hv]. split; try done; [lia|]. intros Hcc. apply Hv. lia.
Qed.

(** Carrying out what a test answered. *)
Lemma test_action s0 s s1 e0 e q act r s' : act = Mutate q \/ act = Result q ->
  (forall e', q = Ok e' -> simplified facts Γ ρ s e e' s1) -> simplified facts Γ ρ s0 e0 e s ->
  run_action mutate act s1 = Ok (r, s') -> exists e', r = Some e' /\ simplified facts Γ ρ s0 e0 e' s'.
Proof.
  intros Hact Hq Hsd H.
  assert (H' : exists e', q = Ok e' /\ run_action mutate (match act with Mutate _ => Mutate (built_expr e') | _ => Result (built_expr e') end) s1 = Ok (r, s')).
  { destruct Hact as [-> | ->]; cbn [run_action] in H; apply mut_bind_Ok in H as (e' & s2 & He' & H);
      apply lift_Ok in He' as [He' ->]; by exists e'. }
  destruct H' as (e' & He' & Hrun). specialize (Hq e' He').
  eapply (then_action facts equal mutate Γ ρ s0 s1); [done|done|apply Hq|by eapply simplified_trans| |exact Hrun].
  destruct Hact as [-> | ->]; intros ? [= <-]; apply rewrites_refl, Hq.
Qed.

(** Nothing of the node was lost on the way from [s] to [s']. *)
Lemma simplified_stays s s' e : good Γ e -> facts Γ ρ s' -> overflow_counter s <= overflow_counter s' ->
  simplified facts Γ ρ s e e s'.
Proof. intros. split; try done. apply type_eqb_refl. Qed.

(** When the difference the test mutates is zero everywhere, the extrema differ as
    their second operands do. *)
Lemma difference_value op crossed a1 a2 b1 b2 d r q v : op = Min \/ op = Max -> env_ok Ideal Γ ρ ->
  hasty Γ t (Bin op a1 a2) -> hasty Γ t (Bin op b1 b2) -> unbounded t = true ->
  difference_of crossed a1 a2 b1 b2 = Ok d ->
  (forall w, eval Ideal ρ d = Some w -> eval Ideal ρ r = Some w) -> is_zero r = true -> good Γ r ->
  (if crossed then a2 -' b1 else a2 -' b2) = Ok q ->
  eval Ideal ρ (Bin Sub (Bin op a1 a2) (Bin op b1 b2)) = Some v -> eval Ideal ρ q = Some v.
Proof.
  intros Hop Hρ Ha Hb Hu Hd Hr Hz Hgr Hq Hv.
  assert (Harith : arith op = true) by (by destruct Hop as [-> | ->]).
  assert (Hab : hasty Γ t (Bin Sub (Bin op a1 a2) (Bin op b1 b2))) by (by apply hasty_bin).
  destruct (den_intro Γ ρ Hρ t Ht _ v Hab Hv) as (F & HF' & -> & _).
  eapply (den_bin_lanes Γ ρ Hρ t Ht) in HF' as (f & g & Hf & Hg & Hlane); [|done..].
  apply hasty_bin in Ha as [Ha1 Ha2]; [|done..]. apply hasty_bin in Hb as [Hb1 Hb2]; [|done..].
  eapply (den_bin_lanes Γ ρ Hρ t Ht) in Hf as (f1 & f2 & Hf1 & Hf2 & Hlane1); [|done..].
  eapply (den_bin_lanes Γ ρ Hρ t Ht) in Hg as (g1 & g2 & Hg1 & Hg2 & Hlane2); [|done..].
  assert (forall F G, computes ρ t (difference_of crossed a1 a2 b1 b2) F ->
    computes ρ t (if crossed then a2 -' b1 else a2 -' b2) G ->
    (forall i, (i < nlanes t)%nat -> F i = 0 -> G i = iop t Sub (f i) (g i)) -> eval Ideal ρ q = Some (tab (nlanes t) (fun i => iop t Sub (f i) (g i)))) as Hlanes.
  { intros F' G HF' HG HFG. eapply (den_ext ρ t); [exact (HG q Hq)|].
    intros i Hi. apply HFG; [done|]. apply (zero_lanes Γ ρ t r F' Hz Hgr); [|done]. exact (Hr _ (HF' d Hd)). }
  replace (tab (nlanes t) F) with (tab (nlanes t) (fun i => iop t Sub (f i) (g i)))
    by (apply tab_eq; intros i Hi; by destruct (Hlane i Hi) as (_ & _ & _ & ->)).
  unfold difference_of in *. destruct crossed; (eapply Hlanes; [compute_lanes Ht|compute_lanes Ht|]); at_lane;
    intros Hzero; destruct Hop as [-> | ->]; cbn [iop] in *; exact_lane.
Qed.

Lemma difference_builds crossed op a1 a2 b1 b2 : arith op = true ->
  hasty Γ t (Bin op a1 a2) -> hasty Γ t (Bin op b1 b2) ->
  builds Γ t (difference_of crossed a1 a2 b1 b2) /\ builds Γ t (if crossed then a2 -' b1 else a2 -' b2).
Proof.
  intros Hop Ha Hb. apply hasty_bin in Ha as [Ha1 Ha2]; [|done..]. apply hasty_bin in Hb as [Hb1 Hb2]; [|done..].
  unfold difference_of. destruct crossed; split; build Ht.
Qed.

Lemma is_bin_true op e : is_bin op e = true -> exists x y, e = Bin op x y.
Proof. destruct e; try done. simpl. intros ->%bool_decide_eq_true. eauto. Qed.

Lemma difference_test_ok op crossed a b : op = Min \/ op = Max -> hasty Γ t a -> hasty Γ t b ->
  (is_bin op a && is_bin op b = true -> no_overflow t = true) ->
  test_ok (Bin Sub a b) (difference_test mutate op crossed a b).
Proof.
  intros Hop Ha Hb Hsafe s r s' Hs H.
  assert (Harith : arith op = true) by (by destruct Hop as [-> | ->]).
  assert (Hnone : (mret None : mut Simplify rule) s = Ok (r, s') -> facts Γ ρ s' /\ overflow_counter s <= overflow_counter s' /\
    forall act, r = Some act -> exists q, (act = Mutate q \/ act = Result q) /\ forall e', q = Ok e' -> simplified facts Γ ρ s (Bin Sub a b) e' s').
  { intros H0. apply mut_ret_Ok in H0 as [= -> ->]. split; [done|]. split; [lia|]. by intros ? [=]. }
  destruct (is_bin op a && is_bin op b) eqn:E.
  2: { apply Hnone. rewrite <- H. unfold difference_test. destruct a; try done. destruct b; try done.
       unfold is_bin in E. by rewrite E. }
  apply andb_true_iff in E as [(a1 & a2 & ->)%is_bin_true (b1 & b2 & ->)%is_bin_true].
  unfold difference_test in H. rewrite bool_decide_eq_true_2 in H by done. cbn [andb] in H.
  pose proof (no_overflow_unbounded t Ht t (type_eqb_refl t) (Hsafe eq_refl)) as Hu.
  destruct (difference_builds crossed op a1 a2 b1 b2 Harith Ha Hb) as [Hbd Hbq].
  apply mut_bind_Ok in H as (d & s1 & Hd & H). apply lift_Ok in Hd as [Hd ->].
  apply mut_bind_Ok in H as (x & s1 & Hx & H). apply mutate_defined_Ok in Hx.
  apply mut_ret_Ok in H as [= -> ->].
  destruct (simplifies_expr facts Γ ρ s d Hs (hasty_good _ _ _ (Hbd d Hd)) _ _ Hx) as (x' & [= <-] & [Hgx _ Hfx Hcx Hvx]).
  split; [done|]. split; [done|]. intros act Hact. apply when_Some in Hact as [Hz <-].
  eexists. split; [by left|]. intros e' He'. split; try done.
  - by apply (hasty_good Γ t), Hbq.
  - rewrite arith_type by done. eapply type_eqb_trans_std; [exact Ht|eapply hasty_type; by apply Hbq|by eapply hasty_type].
  - intros Hcc v. eapply (difference_value op crossed a1 a2 b1 b2 d x); try done; [by eapply facts_env|by apply Hvx].
Qed.

(** What the state's facts give the rules. *)
Context (s0 : Simplify) (Hs0 : facts Γ ρ s0).

Lemma sub_rules_before_right a b : hasty Γ t a -> hasty Γ t b -> sub_safe t a b ->
  rule_ok Γ ρ (Bin Sub a b) (first_rule (sub_rules_before equal t a b)).
Proof.
  intros Ha Hb [Hneg _ _]. pose proof (facts_env _ _ _ _ _ Hs0) as Hρ.
  pose proof (facts_poison _ _ _ _ _ Hs0) as Hp. pose proof (facts_equal _ _ _ _ _ Hs0) as HE. apply first_rule_ok. unfold sub_rules_before. rewrite !Forall_app.
  split_and!; try (eapply sub_const_right || eapply sub_vector_right || eapply sub_select_right || eapply sub_cancel_right
    || eapply sub_minmax_right || eapply sub_sum_right || eapply sub_factor_right || eapply sub_min_right; eassumption).
  repeat (apply Forall_cons; split); [..|by apply Forall_nil]; eapply sub_same_extremum_right; eauto.
Qed.

Lemma sub_rules_after_right a b : hasty Γ t a -> hasty Γ t b -> sub_safe t a b ->
  rule_ok Γ ρ (Bin Sub a b) (first_rule (sub_rules_after equal t a b)).
Proof.
  intros Ha Hb [_ _ Hdiv]. pose proof (facts_env _ _ _ _ _ Hs0) as Hρ. pose proof (facts_equal _ _ _ _ _ Hs0) as HE. apply first_rule_ok. unfold sub_rules_after. rewrite !Forall_app.
  split; [eapply sub_mod_right|eapply sub_div_right]; eassumption.
Qed.

Lemma difference_tests_ok a b : hasty Γ t a -> hasty Γ t b -> sub_safe t a b ->
  test_ok (Bin Sub a b)
    (first_test [difference_test mutate Min false a b; difference_test mutate Max false a b;
                 difference_test mutate Min true a b; difference_test mutate Max true a b]).
Proof.
  intros Ha Hb [_ Hext _]. apply first_test_ok.
  repeat (apply Forall_cons; split); [..|by apply Forall_nil];
    (apply difference_test_ok; [by auto|done|done|]); intros H; apply Hext; rewrite H; by rewrite ?orb_true_r.
Qed.
End VisitSound.

(** C8. The simplifier's visit of [Sub] keeps the type and the value of a difference of
    integers, through its rules and the differences it mutates to compare two extrema,
    when no signed overflow was flagged and the mutated operands are [sub_safe]: under a
    type without overflow a constant subtracted has a negation of that type; two minima,
    or two maxima, are only subtracted under a type without overflow; and a divisor that
    the test for positive constants accepts is a constant without casts. Without the
    first two the visit is wrong ([visit_Sub_defects]). *)
Theorem visit_Sub_sound facts equal same_as mutate Γ ρ s op_a op_b :
  Facts facts equal -> Simplifies facts mutate ->
  facts Γ ρ s -> good Γ (Bin Sub op_a op_b) -> std_int (type op_a) ->
  (forall x s1 y s2, mutate op_a s = Ok (Some x, s1) -> mutate op_b s1 = Ok (Some y, s2) ->
     sub_safe (type op_a) x y) ->
  simplifies facts (visit_Sub same_as equal mutate (Bin Sub op_a op_b) op_a op_b) Γ ρ s (Bin Sub op_a op_b).
Proof.
  intros HF HM Hs Hg Ht Hsafe r s' H. unfold visit_Sub in H.
  apply mut_bind_Ok in H as (x & s1 & Hx & H). apply mutate_defined_Ok in Hx.
  apply mut_bind_Ok in H as (y & s2 & Hy & H). apply mutate_defined_Ok in Hy.
  destruct (operands_simplified facts mutate Γ ρ s Sub op_a op_b eq_refl Hs Hg Ht _ _ _ _ Hx Hy) as (Hs2 & Hhx & Hhy & Hsd).
  specialize (Hsafe _ _ _ _ Hx Hy). rewrite arith_type in H by done.
  destruct (first_rule (sub_rules_before equal (type op_a) x y)) as [act|] eqn:E1.
  { eapply (then_action facts equal mutate Γ ρ s s2); eauto. by eapply (sub_rules_before_right facts equal Γ ρ _ Ht s2). }
  apply mut_bind_Ok in H as (test & s3 & Htest & H).
  destruct (difference_tests_ok facts equal mutate Γ ρ _ Ht x y Hhx Hhy Hsafe s2 _ _ Hs2 Htest) as (Hs3 & Hc3 & Hact).
  destruct test as [act|].
  - destruct (Hact act eq_refl) as (q & Hq' & Hq).
    eapply (test_action facts equal mutate Γ ρ s s2 s3); eauto.
  - assert (Hsd3 : simplified facts Γ ρ s (Bin Sub op_a op_b) (Bin Sub x y) s3).
    { eapply simplified_trans; [exact Hsd|]. by apply simplified_stays; [apply Hsd|..]. }
    destruct (first_rule (sub_rules_after equal (type op_a) x y)) as [act|] eqn:E2.
    + eapply (then_action facts equal mutate Γ ρ s s3); eauto. by eapply (sub_rules_after_right facts equal Γ ρ _ Ht s3).
    + eapply (no_rule_sound facts same_as Γ ρ s s3 Sub "Sub" x y op_a op_b); try done. apply Hsd3.
Qed.

(** Two rules of the visit of [Sub] change values. [x - INT_MIN] becomes
    [x + INT_MIN], as the negated constant wraps: at [x = -1] the difference is INT_MAX
    and the sum overflows. And the rules that compare two extrema do not ask that the type
    does not wrap: on bytes [(x + 255) - x] and [x - (x + 1)] are equal, and
    [min(x + 255, x) - min(x, x + 1)], which is 0 at [x = 0], becomes [x - (x + 1)], 255. *)
Theorem visit_Sub_defects s :
  let x8 := Var (UInt 8 1) "x" None None None in
  let plus k := Bin Add x8 (UIntImm (UInt 8 1) k) in
  let d := Bin Sub (Bin Add (plus 255) (plus 1)) (Bin Add x8 x8) in
  let fold_d e := mret (if bool_decide (e = d) then eref (UIntImm (UInt 8 1) 0) else eref e) : mut Simplify ExprRef in
  let e1 := Bin Sub x32 (imm32 (-2147483648)) in
  let e2 := Bin Sub (Bin Min (plus 255) x8) (Bin Min x8 (plus 1)) in
  let r1 := Bin Add x32 (imm32 (-2147483648)) in
  let r2 := Bin Sub x8 (plus 1) in
  let at_x z := bind_var empty_env "x" [VInt z] in
  (visit_Sub same_expr_ref ptr_equal no_mutate e1 x32 (imm32 (-2147483648)) s = Ok (eref r1, s) /\
   eval Strict (at_x (-1)) e1 = Some [VInt 2147483647] /\ eval Strict (at_x (-1)) r1 = None) /\
  (visit_Sub same_expr_ref ptr_equal fold_d e2 (Bin Min (plus 255) x8) (Bin Min x8 (plus 1)) s = Ok (eref r2, s) /\
   (forall z, 0 <= z < 256 -> eval Ideal (at_x z) d = Some [VInt 0]) /\
   eval Ideal (at_x 0) e2 = Some [VInt 0] /\ eval Ideal (at_x 0) r2 = Some [VInt 255]).
Proof.
  split; [split; [|split]; vm_compute; reflexivity|].
  split; [vm_compute; reflexivity|]. split; [|split; vm_compute; reflexivity].
  assert (H : forallb (fun z => match eval Ideal (bind_var empty_env "x" [VInt z])
    (let x8 := Var (UInt 8 1) "x" None None None in
     Bin Sub (Bin Add (Bin Add x8 (UIntImm (UInt 8 1) 255)) (Bin Add x8 (UIntImm (UInt 8 1) 1))) (Bin Add x8 x8))
    with Some [VInt 0] => true | _ => false end) (seqZ 0 256) = true) by (vm_compute; reflexivity).
  intros z Hz. rewrite forallb_forall in H. specialize (H z ltac:(apply list_elem_of_In, elem_of_seqZ; lia)).
  cbv zeta in *. repeat case_match; congruence.
Qed.

(** [(x + y) - (x + y*y)] is [y - y*y]. *)
Lemma visit_Sub_sound_witness :
  let a := Bin Add x32 y32 in
  let b := Bin Add x32 (Bin Mul y32 y32) in
  visit_Sub same_expr_ref ptr_equal no_mutate (Bin Sub a b) a b new_simplify =
    Ok (eref (Bin Sub y32 (Bin Mul y32 y32)), new_simplify) /\
  eval Ideal (xy_env 5 (-3)) (Bin Sub a b) = Some [VInt (-12)] /\
  simplifies env_facts (visit_Sub same_expr_ref ptr_equal no_mutate (Bin Sub a b) a b)
    xy_types (xy_env 5 (-3)) new_simplify (Bin Sub a b).
Proof.
  split; [by vm_compute|]. split; [by vm_compute|].
  apply (visit_Sub_sound env_facts ptr_equal same_expr_ref no_mutate).
  - apply env_facts_Facts.
  - apply no_mutate_Simplifies.
  - apply xy_facts.
  - split; [repeat split; by vm_compute|repeat split; by vm_compute|by vm_compute].
  - split; [by vm_compute|]. by vm_compute.
  - intros a s1 b s2 [= <- <-] [= <- <-]. by split.
Defined.
