(* ===== verification/SimplifyDiv.v ===== *)
(** The simplifier's visit of [Div] (src/src/Simplify.cpp): the bounds of the numerator,
    the chain of rules, and the proof that each of them keeps the value of a quotient of
    integers. *)

From Stdlib Require Import ZArith Lia Bool SpecFloat String.
From stdpp Require Import prelude strings gmap.
From S2P Require Import Prelude Types IR Semantics Scope Operators ModulusRemainder Mutator Equality EqualityMeaning Interval ConstBounds Monotonic Lanes Conditions Simplify SimplifyRules SimplifyQuotient.

#[local] Open Scope Z_scope.
#[local] Open Scope halide_scope.

Section Rules.
Context (equal : ExprRef -> ExprRef -> bool).
Context (t : Ty) (a b : Expr).

(** Zero, one, constants, and a numerator of -1. *)
Definition div_const_rules : list rule := [
  when (is_zero a && negb (is_zero b)) (Result a);
  when (is_one b) (Result a);
  when (equal (eref a) (eref b) && negb (is_zero b)) (Result (make_one t));
  on_const (const_int a) (fun ia => on_const (const_int b) (fun ib =>
    when (negb (ib =? 0)) (Result (q ← div_imp_int 64 ia ib; IntImm_make t q))));
  on_const (const_uint a) (fun ua => on_const (const_uint b) (fun ub =>
    when (negb (ub =? 0)) (Result (UIntImm_make t (ua / ub)))));
  on_const (const_float a) (fun fa => on_const (const_float b) (fun fb =>
    when (negb (float_eqb fb (S754_zero false))) (Result (FloatImm_make t (SFdiv 53 1024 fa fb)))));
  on_broadcast a (fun value_a lanes_a => on_broadcast b (fun value_b _ =>
    Some (Mutate (v ← on2 Div_make value_a value_b; Broadcast_make (eref v) lanes_a))));
  when (no_overflow_scalar_int t && is_const_value a (-1))
    (Mutate (c ← on2 operator_lt b (make_zero t); one ← make_one t; m ← make_const t (Int64 (-1));
             select (eref c) (eref one) (eref m)))
].

(** A ramp divided by one constant, which divides its stride, or so that no lane
    crosses a multiple of the divisor. *)
Definition div_ramp_rules (mod_rem : ModulusRemainder) : list rule := [
  on_ramp a (fun base stride lanes => on_const (const_int stride) (fun ia =>
    on_broadcast b (fun value _ => on_const (const_int value) (fun ib =>
      if no_overflow_scalar_int (type base) && negb (ib =? 0) then
        when_ub (divides ib ia)
          (Mutate (ramp' (base /' value) (q ← div_imp_int 64 ia ib; IntImm_make (element_of t) q) lanes))
      else None))));
  on_ramp a (fun base stride lanes => on_const (const_int stride) (fun ia =>
    on_broadcast b (fun value _ => on_const (const_int value) (fun ib =>
      if no_overflow_scalar_int (type base) && negb (ib =? 0) then
        when_ub (no_lane_crosses mod_rem ia ib lanes)
          (Mutate (v ← base /' value; Broadcast_make (eref v) lanes))
      else None))))
].

(** Constants gathered into one divisor or one factor. *)
Definition div_div_rules : list rule := [
  on_bin Div a (fun x d => on_const (const_int d) (fun ia => on_const (const_int b) (fun ib =>
    when (no_overflow t && (0 <=? ia) && (0 <=? ib))
      (Mutate (x /' (m ← i64 (ia * ib); make_const t (Int64 m)))))));
  on_bin Add a (fun q y => on_bin Div q (fun x d =>
    on_const (const_int d) (fun ia => on_const (const_int y) (fun ib => on_const (const_int b) (fun ic =>
      when (no_overflow t && (0 <=? ia) && (0 <=? ic))
        (Mutate ((x +' (m ← i64 (ia * ib); make_const t (Int64 m))) /' (m ← i64 (ia * ic); make_const t (Int64 m)))))))));
  on_bin Mul a (fun x y => on_const (const_int y) (fun ia => on_const (const_int b) (fun ib =>
    if no_overflow t && (0 <? ia) && (0 <? ib) then
      match divides ib ia with
      | Ok true => Some (Mutate (x *' ratio t ia ib))
      | Ok false => when_ub (divides ia ib) (Mutate (x /' ratio t ib ia))
      | Err e => Some (Result (Err e))
      end
    else None)))
].

(** [k] for the term [x*y] that is a multiple of the divisor, with [y / b]. *)
Definition on_multiple (m : Expr) (k : Expr -> res Expr -> res Expr) : rule :=
  on_bin Mul m (fun x y => on_const (const_int y) (fun ia => on_const (const_int b) (fun ib =>
    if no_overflow t && (0 <? ib) then when_ub (divides ib ia) (Mutate (k x (ratio t ia ib))) else None))).

(** Terms that are a multiple of the divisor are pulled out. *)
Definition div_pull_rules : list rule := [
  on_bin Add a (fun m y => on_multiple m (fun x r => x *' r +' y /' b));
  on_bin Add a (fun y m => on_multiple m (fun x r => y /' b +' x *' r));
  on_bin Sub a (fun m y => on_multiple m (fun x r => x *' r +' neg' y /' b));
  on_bin Sub a (fun y m => on_multiple m (fun x r => y /' b -' x *' r));
  on_bin Add a (fun my z => on_bin Add my (fun m y => on_multiple m (fun x r => x *' r +' (y +' z) /' b)));
  on_bin Add a (fun my z => on_bin Sub my (fun m y => on_multiple m (fun x r => x *' r +' (z -' y) /' b)));
  on_bin Sub a (fun my z => on_bin Add my (fun m y => on_multiple m (fun x r => x *' r +' (y -' z) /' b)));
  on_bin Sub a (fun my z => on_bin Sub my (fun m y => on_multiple m (fun x r => x *' r +' (neg' y -' z) /' b)));
  on_bin Add a (fun x mz => on_bin Add mz (fun m z => on_multiple m (fun y r => y *' r +' (x +' z) /' b)));
  on_bin Add a (fun x mz => on_bin Sub mz (fun m z => on_multiple m (fun y r => y *' r +' (x -' z) /' b)));
  on_bin Sub a (fun x mz => on_bin Add mz (fun m z => on_multiple m (fun y r => (x -' z) /' b -' y *' r)));
  on_bin Add a (fun x ym => on_bin Sub ym (fun y m => on_multiple m (fun z r => (x +' y) /' b -' z *' r)));
  on_bin Add a (fun y c => on_const (const_int c) (fun ia => on_const (const_int b) (fun ib =>
    if no_overflow t && (0 <? ib) then when_ub (divides ib ia) (Mutate (y /' b +' ratio t ia ib)) else None)))
].

(** Terms equal to the divisor. *)
Definition div_same_rules : list rule := [
  on_bin Add a (fun x y => when (no_overflow t && equal (eref x) (eref b)) (Mutate (y /' b +' make_one t)));
  on_bin Add a (fun y x => when (no_overflow t && equal (eref x) (eref b)) (Mutate (y /' b +' make_one t)));
  on_bin Sub a (fun x y => when (no_overflow t && negb (is_zero b) && equal (eref x) (eref b))
    (Mutate ((make_zero t -' y) /' b +' make_one t)));
  on_bin Sub a (fun y x => when (no_overflow t && equal (eref x) (eref b))
    (Mutate (y /' b +' make_const t (Int64 (-1)))));
  on_bin Add a (fun xy z => on_bin Add xy (fun x y =>
    when (no_overflow t && equal (eref x) (eref b)) (Mutate ((y +' z) /' b +' make_one t))));
  on_bin Add a (fun yx z => on_bin Add yx (fun y x =>
    when (no_overflow t && equal (eref x) (eref b)) (Mutate ((y +' z) /' b +' make_one t))));
  on_bin Add a (fun y zx => on_bin Add zx (fun z x =>
    when (no_overflow t && equal (eref x) (eref b)) (Mutate ((y +' z) /' b +' make_one t))));
  on_bin Add a (fun y xz => on_bin Add xz (fun x z =>
    when (no_overflow t && equal (eref x) (eref b)) (Mutate ((y +' z) /' b +' make_one t))))
].

(** Products one factor of which is the divisor. *)
Definition div_factor_rules : list rule := [
  on_bin Mul a (fun x y => when (no_overflow t && equal (eref y) (eref b)) (Result x));
  on_bin Mul a (fun y x => when (no_overflow t && equal (eref y) (eref b)) (Result x));
  on_bin Add a (fun m y => on_bin Mul m (fun x d =>
    when (no_overflow t && equal (eref d) (eref b)) (Mutate (x +' y /' b))));
  on_bin Add a (fun m y => on_bin Mul m (fun d x =>
    when (no_overflow t && equal (eref d) (eref b)) (Mutate (x +' y /' b))));
  on_bin Add a (fun y m => on_bin Mul m (fun x d =>
    when (no_overflow t && equal (eref d) (eref b)) (Mutate (y /' b +' x))));
  on_bin Add a (fun y m => on_bin Mul m (fun d x =>
    when (no_overflow t && equal (eref d) (eref b)) (Mutate (y /' b +' x))));
  on_bin Sub a (fun m y => on_bin Mul m (fun x d =>
    when (no_overflow t && equal (eref d) (eref b)) (Mutate (x +' (make_zero t -' y) /' b))));
  on_bin Sub a (fun m y => on_bin Mul m (fun d x =>
    when (no_overflow t && equal (eref d) (eref b)) (Mutate (x +' (make_zero t -' y) /' b))));
  on_bin Sub a (fun y m => on_bin Mul m (fun x d =>
    when (no_overflow t && equal (eref d) (eref b)) (Mutate (y /' b -' x))));
  on_bin Sub a (fun y m => on_bin Mul m (fun d x =>
    when (no_overflow t && equal (eref d) (eref b)) (Mutate (y /' b -' x))))
].

(** A float divided by a constant. *)
Definition div_float_rules : list rule := [
  when (is_float (type b) && is_simple_const b) (Mutate (a *' (make_one (type b) /' b)))
].

Definition div_rules (mod_rem : ModulusRemainder) : list rule :=
  div_const_rules ++ div_ramp_rules mod_rem ++ div_div_rules ++ div_pull_rules ++ div_same_rules ++
  div_factor_rules ++ div_float_rules.

(** A numerator whose bounds have one quotient. *)
Definition div_bounded (info : Scope bounds) : res rule :=
  match const_int b with
  | Some ib =>
      if ib =? 0 then Ok None
      else
        r ← const_int_bounds info a;
        match r with
        | Some (num_min, num_max) =>
            q1 ← div_imp_int 64 num_max ib;
            q2 ← div_imp_int 64 num_min ib;
            if q1 =? q2 then q ← div_imp_int 64 num_max ib; Ok (Some (Result (make_const t (Int64 q))))
            else Ok None
        | None => Ok None
        end
  | None => Ok None
  end.

(** The modulus and remainder of the base of a ramp. *)
Definition div_mod_rem (info : Scope ModulusRemainder) : res ModulusRemainder :=
  match a with
  | Ramp base _ _ =>
      if no_overflow_scalar_int (type base) then modulus_remainder_in base info else Ok (mkMR 0 1)
  | _ => Ok (mkMR 0 1)
  end.
End Rules.

Definition visit_Div (same_as equal : ExprRef -> ExprRef -> bool) (mutate : Expr -> mut Simplify ExprRef)
    (op op_a op_b : Expr) : mut Simplify ExprRef :=
  visit_known same_as mutate in_order
    (fun a b s => div_bounded (type op) a b (bounds_info s))
    (fun a b s => mod_rem ← div_mod_rem a (alignment_info s); Ok (div_rules equal (type op) a b mod_rem))
    Div_make op op_a op_b.

(** * Every rule keeps the value *)

(** What the rules need and do not test, under a type without overflow: a quotient
    they fold is not that of the least value by -1, and the products they fold fit.
    What the analyses know is right where they are exact. *)
Record div_safe (s : Simplify) (t : Ty) (a b : Expr) : Prop := {
  safe_fold : forall ia ib, const_int a = Some ia -> const_int b = Some ib -> no_overflow t = true ->
    in_srange (bits t) (ediv ia ib);
  safe_stride : forall base stride l value l' ia ib, a = Ramp base stride l -> b = Broadcast value l' ->
    const_int stride = Some ia -> const_int value = Some ib -> no_overflow t = true -> in_srange (bits t) (ediv ia ib);
  safe_quotient : forall lo hi ib, const_int_bounds (bounds_info s) a = Ok (Some (lo, hi)) -> const_int b = Some ib ->
    no_overflow t = true -> in_srange (bits t) (ediv hi ib);
  safe_divisors : forall x d ia ib, a = Bin Div x d -> const_int d = Some ia -> const_int b = Some ib ->
    no_overflow t = true -> in_srange (bits t) (ia * ib);
  safe_sums : forall x d y ia ib ic, a = Bin Add (Bin Div x d) y -> const_int d = Some ia -> const_int y = Some ib ->
    const_int b = Some ic -> no_overflow t = true -> in_srange (bits t) (ia * ib) /\ in_srange (bits t) (ia * ic);
  safe_numerator : is_const_value a (-1) = true -> is_simple_const a = true;
  safe_mods : mods_exact (bounds_info s) a = true;
  safe_base : forall base stride l, a = Ramp base stride l -> no_overflow_scalar_int (type base) = true ->
    defect_free (set_containing_scope scope_new (Some (alignment_info s))) base = true
}.
Section Sound.
Context (equal : ExprRef -> ExprRef -> bool).
Context (Γ : gmap string Ty) (ρ : env) (Hρ : env_ok Ideal Γ ρ) (Hp : no_poison ρ).
Context (HE : EqualityTest Γ ρ equal).
Context (t : Ty) (Ht : std_int t).

(** A rule about quotients of sums, under a type that does not wrap. *)
Ltac pull_lane := rewrite ?norm_unbounded in * by assumption; rewrite ?(wrap_small t Ht) by first [assumption|lia]; pull.
Ltac pull_rule :=
  let act := fresh "act" in let Hact := fresh "Hact" in
  intros act Hact; rule_action Hact act; split_bools; split_hasty Ht; lanes_of_rule Hρ HE Ht; pull_lane.
Ltac pulls := repeat (apply Forall_cons; split; [pull_rule|]); by apply Forall_nil.

Lemma div_same_right a b : hasty Γ t a -> hasty Γ t b ->
  Forall (rule_ok Γ ρ (Bin Div a b)) (div_same_rules equal t a b).
Proof. intros Ha Hb. pulls. Qed.

Lemma div_factor_right a b : hasty Γ t a -> hasty Γ t b ->
  Forall (rule_ok Γ ρ (Bin Div a b)) (div_factor_rules equal t a b).
Proof. intros Ha Hb. pulls. Qed.

Lemma on_multiple_Some b m k act : on_multiple t b m k = Some act ->
  (exists x y ia ib, m = Bin Mul x y /\ const_int y = Some ia /\ const_int b = Some ib /\ no_overflow t = true /\
     0 < ib /\ divides ib ia = Ok true /\ act = Mutate (k x (ratio t ia ib))) \/
  exists err, act = Result (Err err).
Proof.
  intros H. unfold on_multiple in H. inv_rule H.
  destruct (no_overflow t && _) eqn:E; [|done]. apply andb_true_iff in E as [Hno Hpos%Z.ltb_lt].
  apply when_ub_Some in H as [[H <-]|(? & _ & ->)]; [left|right]; eauto 15.
Qed.

Ltac with_ratio Hno Hpos Hd Hia Hib :=
  let k := fresh "k" in
  match type of Hia with const_int ?y = _ => match type of Hib with const_int ?d = _ =>
    destruct (multiple_ratio Γ ρ t Ht y d _ _ ltac:(assumption) ltac:(assumption) Hia Hib
      (no_overflow_unbounded t Ht t (type_eqb_refl t) Hno) Hpos Hd) as (k & -> & ? & ?)
  end end.
Ltac multiple_rule :=
  let act := fresh "act" in let Hact := fresh "Hact" in
  intros act Hact;
  repeat lazymatch type of Hact with
  | on_bin _ _ _ = _ => apply on_bin_Some in Hact; destruct Hact as (? & ? & -> & Hact)
  end;
  let Hia := fresh "Hia" in let Hib := fresh "Hib" in let Hno := fresh "Hno" in let Hpos := fresh "Hpos" in let Hd := fresh "Hd" in
  apply on_multiple_Some in Hact as [(? & ? & ? & ? & -> & Hia & Hib & Hno & Hpos & Hd & ->)|(? & ->)]; [|by intros ? [=]];
  split_hasty Ht; with_ratio Hno Hpos Hd Hia Hib; clear Hpos Hd; lanes_of_rule Hρ HE Ht; pull_lane.

Lemma div_pull_right a b : hasty Γ t a -> hasty Γ t b ->
  Forall (rule_ok Γ ρ (Bin Div a b)) (div_pull_rules t a b).
Proof.
  intros Ha Hb. do 12 (apply Forall_cons; split; [multiple_rule|]). apply Forall_cons; split; [|by apply Forall_nil].
  intros act Hact. inv_rule Hact. destruct (no_overflow t && _) eqn:E; [|done].
  apply andb_true_iff in E as [Hno Hpos%Z.ltb_lt].
  apply when_ub_Some in Hact as [[Hd <-]|(? & _ & ->)]; [|by intros ? [=]].
  split_hasty Ht.
  match goal with Hia : const_int ?y = Some _, Hib : const_int b = Some _ |- _ => with_ratio Hno Hpos Hd Hia Hib end.
  lanes_of_rule Hρ HE Ht. pull_lane.
Qed.
Lemma div_const_fold a b : hasty Γ t a -> hasty Γ t b ->
  (forall ia ib, const_int a = Some ia -> const_int b = Some ib -> no_overflow t = true -> in_srange (bits t) (ediv ia ib)) ->
  Forall (rule_ok Γ ρ (Bin Div a b)) [
    on_const (const_int a) (fun ia => on_const (const_int b) (fun ib =>
      when (negb (ib =? 0)) (Result (q ← div_imp_int 64 ia ib; IntImm_make t q))));
    on_const (const_uint a) (fun ua => on_const (const_uint b) (fun ub =>
      when (negb (ub =? 0)) (Result (UIntImm_make t (ua / ub)))))].
Proof.
  intros Ha Hb Hfit. repeat (apply Forall_cons; split); [..|by apply Forall_nil]; intros act Hact; rule_action Hact act;
    match goal with Hz : negb _ = true |- _ => apply negb_true_iff, Z.eqb_neq in Hz end; cbn [action_ok]; intros e' He'.
  - match goal with Hia : const_int a = Some ?ia, Hib : const_int b = Some ?ib |- _ =>
      destruct (const_int_in_range Γ t Ht a ia Ha Hia) as (_ & Ha64 & Hi), (const_int_in_range Γ t Ht b ib Hb Hib) as (_ & Hb64 & _) end.
    apply bind_Ok in He' as (q & Hq & He'). apply div64_Ok in Hq as [-> _]; [|done..].
    match type of He' with IntImm_make _ ?z = _ =>
      refine (proj1 (imm_rewrites Γ ρ Hρ t Ht Div a b z t eq_refl Ha Hb (type_eqb_refl t) (or_introl Hi) _) e' He') end.
    intros F HF. eapply (den_bin_lanes _ _ Hρ _ Ht) in HF as (f & g & Hf & Hg & HF); [|done..]. intros i Hl.
    destruct (HF i Hl) as (_ & _ & _ & ->).
    erewrite (const_int_lanes ρ t a f), (const_int_lanes ρ t b g) by eassumption. apply (norm_wrap t Ht). by apply Hfit.
  - match goal with Hia : const_uint a = Some ?ia, Hib : const_uint b = Some ?ib |- _ =>
      pose proof (const_uint_nonneg Γ t a ia Ha Hia); pose proof (const_uint_nonneg Γ t b ib Hb Hib) end.
    assert (Hu : is_uint t = true).
    { unfold UIntImm_make in He'. apply bind_Ok in He' as (? & H' & _). by apply internal_assert_Ok, andb_true_iff in H' as [H' _]. }
    match type of He' with UIntImm_make _ ?z = _ =>
      refine (proj2 (imm_rewrites Γ ρ Hρ t Ht Div a b z t eq_refl Ha Hb (type_eqb_refl t) (or_intror Hu) _) e' He') end.
    intros F HF. eapply (den_bin_lanes _ _ Hρ _ Ht) in HF as (f & g & Hf & Hg & HF); [|done..]. intros i Hl.
    destruct (HF i Hl) as (_ & _ & _ & ->).
    erewrite (const_uint_lanes ρ t a f), (const_uint_lanes ρ t b g) by eassumption. cbn [iop]. rewrite ediv_pos by lia.
    unfold norm, unbounded. by rewrite (uint_not_int t Hu).
Qed.

Lemma ediv_one x : ediv x 1 = x.
Proof. apply pull_all; lia. Qed.

Lemma div_broadcast_right a b : hasty Γ t a -> hasty Γ t b ->
  rule_ok Γ ρ (Bin Div a b) (on_broadcast a (fun value_a lanes_a => on_broadcast b (fun value_b _ =>
    Some (Mutate (v ← on2 Div_make value_a value_b; Broadcast_make (eref v) lanes_a))))).
Proof.
  intros Ha Hb act Hact. inv_rule Hact. injection Hact as <-. cbn [action_ok].
  pose proof (std_element t Ht) as Hte. pose proof (first_lane t Ht) as H0.
  destruct (hasty_broadcast Γ t Ht _ _ Ha) as (? & -> & Hl), (hasty_broadcast Γ t Ht _ _ Hb) as (? & -> & _).
  eapply (rule_rewrites _ _ Hρ _ Ht); [hasty_auto Ht|apply builds_broadcast; [exact Ht|exact Hl|build Hte]|].
  operands_of_rule Hρ Ht Hfa Hfb. split_broadcast Hρ Ht Ha Hfa. split_broadcast Hρ Ht Hb Hfb.
  eexists. split.
  - apply (computes_broadcast Γ); [exact Ht|exact Hl|build Hte|].
    compute_lanes Hte. first_divisor Ht H0.
  - at_lane. by rewrite !element_norm by done.
Qed.

Lemma ediv_minus_one x : x <> 0 -> ediv (-1) x = if x <? 0 then 1 else -1.
Proof.
  intros Hx. destruct (Z.ltb_spec x 0).
  - apply (ediv_unique (-1) x 1 (-1 - x)); lia.
  - apply (ediv_unique (-1) x (-1) (x - 1)); lia.
Qed.

(** [-1/x -> select(x < 0, 1, -1)]. *)
Lemma div_minus_one_right a b : hasty Γ t a -> hasty Γ t b ->
  (is_const_value a (-1) = true -> is_simple_const a = true) ->
  rule_ok Γ ρ (Bin Div a b) (when (no_overflow_scalar_int t && is_const_value a (-1))
    (Mutate (c ← on2 operator_lt b (make_zero t); one ← make_one t; m ← make_const t (Int64 (-1));
             select (eref c) (eref one) (eref m)))).
Proof.
  intros Ha Hb Hsimple act Hact. apply when_Some in Hact as [Hc <-]. split_bools. cbn [action_ok]. intros e' He'.
  destruct (scalar_no_overflow t t Ht (type_eqb_refl t)) as [Hu _]; [done|].
  apply bind_Ok in He' as (c & Hc' & He'). apply on2_Ok in Hc' as (? & z & [= <-] & Hz & Hc').
  apply (make_zero_Ok Γ ρ t Ht) in Hz as [Hz Hdz]; [|apply type_eqb_refl].
  unfold operator_lt in Hc'. rewrite (operator_same Γ t Ht) in Hc' by done. apply make_Ok in Hc' as ->.
  apply bind_Ok in He' as (one & Hone & He').
  apply (make_const_Ok Γ ρ t Ht) in Hone as [Hone Hdone]; [|apply type_eqb_refl].
  apply bind_Ok in He' as (m & Hm & He'). apply (make_const_Ok Γ ρ t Ht) in Hm as [Hm Hdm]; [|apply type_eqb_refl].
  pose proof (hasty_cmp Γ t Ht LT b z eq_refl Hb Hz) as Hlt.
  pose proof (proj1 (bool_type t Ht _) (hasty_type _ _ _ Hlt)) as [Hbool Hlanes].
  rewrite (select_same Γ t Ht) in He' by done.
  destruct (select_hasty Γ t Ht (Bin LT b z) one m) as [Hsel Hh]; try done;
    [by apply (hasty_good Γ (Bool (lanes t)))|by rewrite Hlanes, Z.eqb_refl, orb_true_r|].
  rewrite Hsel in He'. injection He' as <-.
  eapply (rule_rewrites _ _ Hρ _ Ht _ (built_expr (Select (Bin LT b z) one m))); [hasty_auto Ht|by intros ? [= <-]| |done].
  operands_of_rule Hρ Ht Hfa Hfb.
  pose proof (simple_value_lanes Γ ρ t (-1) ltac:(done) a _ ltac:(done) ltac:(auto) (hasty_good _ _ _ Ha) Hfa) as Hminus.
  eexists. split.
  - apply computes_expr. eapply (den_select ρ t Ht); [|exact Hdone|exact Hdm].
    apply (picks_den ρ t Ht). apply (den_cmp ρ t Ht LT b z _ _ eq_refl Hfb Hdz).
  - at_lane. rewrite !norm_unbounded, ediv_minus_one by done. simpl. by rewrite !(wrap_small t Ht) by (done || lia).
Qed.

Lemma div_const_right s a b : hasty Γ t a -> hasty Γ t b -> div_safe s t a b ->
  Forall (rule_ok Γ ρ (Bin Div a b)) (div_const_rules equal t a b).
Proof.
  intros Ha Hb Hsafe. unfold div_const_rules.
  apply Forall_cons; split.
  { intros act Hact. rule_action Hact act. split_bools. lanes_of_rule Hρ HE Ht.
    rewrite (pull_all 0 _ 0) by (assumption || lia). apply norm_zero. }
  apply Forall_cons; split.
  { intros act Hact. rule_action Hact act. lanes_of_rule Hρ HE Ht. rewrite ediv_one. by apply norm_id. }
  apply Forall_cons; split.
  { intros act Hact. rule_action Hact act. split_bools. lanes_of_rule Hρ HE Ht.
    match goal with |- norm t (ediv ?x ?x) = _ => rewrite (pull_all x x 1) by (assumption || lia) end.
    apply (norm_wrap t Ht). intros Hno. apply (no_overflow_unbounded t Ht t (type_eqb_refl t)) in Hno.
    unfold unbounded in Hno. apply andb_true_iff in Hno as [_ Hbits%Z.leb_le].
    apply (srange_mono 32); [lia|]. unfold in_srange. lia. }
  pose proof (div_const_fold a b Ha Hb (safe_fold _ _ _ _ Hsafe)) as Hfold.
  apply Forall_cons in Hfold as [Hi Hfold]. apply Forall_cons in Hfold as [Hu _].
  apply Forall_cons; split; [exact Hi|]. apply Forall_cons; split; [exact Hu|]. clear Hi Hu.
  apply Forall_cons; split.
  { intros act Hact. rule_action Hact act. intros e' He'. by apply (FloatImm_no t Ht _ _ _ (type_eqb_refl t)) in He'. }
  apply Forall_cons; split; [by apply div_broadcast_right|].
  apply Forall_cons; split; [|by apply Forall_nil].
  eapply div_minus_one_right; [done..|apply Hsafe].
Qed.
Lemma ediv_ediv x a b : 0 < a -> 0 < b -> ediv (ediv x a) b = ediv x (a * b).
Proof. intros Ha Hb. rewrite !ediv_pos by nia. apply Z.div_div; lia. Qed.
Lemma ediv_mul_cancel x a k : 0 < a -> 0 < k -> ediv (x * a) (a * k) = ediv x k.
Proof. intros Ha Hk. rewrite !ediv_pos by nia. rewrite (Z.mul_comm a k). apply Z.div_mul_cancel_r; lia. Qed.

(** A folded product that fits, as a constant. *)
Lemma product_const z : (no_overflow t = true -> in_srange (bits t) z) -> no_overflow t = true ->
  builds Γ t (m ← i64 z; make_const t (Int64 m)) /\ computes ρ t (m ← i64 z; make_const t (Int64 m)) (fun _ => z).
Proof.
  intros Hz Hno. pose proof (no_overflow_unbounded t Ht t (type_eqb_refl t) Hno) as Hu. split.
  - apply builds_bind. intros m _. apply (builds_const Γ ρ t Ht), type_eqb_refl.
  - apply computes_bind. intros m [-> _]%i64_Ok. pose proof (computes_const Γ ρ t Ht t z (type_eqb_refl t)) as H.
    rewrite wrap_in_range in H; auto.
Qed.

Ltac nonneg := repeat match goal with H : (0 <=? _) = true |- _ => apply Z.leb_le in H end.

Lemma div_div_right s a b : hasty Γ t a -> hasty Γ t b -> div_safe s t a b ->
  Forall (rule_ok Γ ρ (Bin Div a b)) (div_div_rules t a b).
Proof.
  intros Ha Hb Hsafe. apply Forall_cons; split.
  { intros act Hact. rule_action Hact act. split_bools. nonneg.
    match goal with H1 : const_int ?d = Some ?ia, H2 : const_int b = Some ?ib |- _ =>
      destruct (product_const (ia * ib)) as [Hm1 Hm2]; [by apply (safe_divisors _ _ _ _ Hsafe _ _ _ _ eq_refl H1 H2)|done|] end.
    split_hasty Ht. lanes_of_rule Hρ HE Ht; [at_lane; nia|]. rewrite !norm_unbounded by assumption. apply ediv_ediv; lia. }
  apply Forall_cons; split.
  { intros act Hact. rule_action Hact act. split_bools. nonneg.
    match goal with H1 : const_int ?d = Some ?ia, H2 : const_int ?y = Some ?ib, H3 : const_int b = Some ?ic |- _ =>
      pose proof (safe_sums _ _ _ _ Hsafe _ _ _ _ _ _ eq_refl H1 H2 H3) as Hfit;
      destruct (product_const (ia * ib)) as [Hm1 Hm2]; [by apply Hfit|done|];
      destruct (product_const (ia * ic)) as [Hn1 Hn2]; [by apply Hfit|done|] end. clear Hfit.
    split_hasty Ht. lanes_of_rule Hρ HE Ht; [at_lane; nia|]. rewrite !norm_unbounded by assumption.
    rewrite <- ediv_ediv by lia. f_equal. symmetry. apply ediv_shift. lia. }
  apply Forall_cons; split; [|by apply Forall_nil].
  intros act Hact. inv_rule Hact. destruct (no_overflow t && _ && _) eqn:E; [|done].
  apply andb_true_iff in E as [[Hno Hp1%Z.ltb_lt]%andb_true_iff Hp2%Z.ltb_lt].
  pose proof (no_overflow_unbounded t Ht t (type_eqb_refl t) Hno) as Hun. split_hasty Ht.
  match goal with Hia : const_int ?y = Some ?ia, Hib : const_int b = Some ?ib |- _ =>
    destruct (divides ib ia) as [[]|] eqn:Hd; [|apply when_ub_Some in Hact as [[Hd' <-]|(? & _ & ->)]; [|by intros ? [=]]|] end.
  - injection Hact as <-.
    match goal with Hia : const_int ?y = Some ?ia, Hib : const_int b = Some ?ib |- _ =>
      destruct (multiple_ratio Γ ρ t Ht y b ia ib) as (k & -> & ? & ?); [done..|] end.
    lanes_of_rule Hρ HE Ht. rewrite !norm_unbounded by assumption. apply pull_all; [lia|ring].
  - clear Hd.
    match goal with Hia : const_int ?y = Some ?ia, Hib : const_int b = Some ?ib |- _ =>
      destruct (multiple_ratio Γ ρ t Ht b y ib ia) as (k & -> & ? & ?); [done..|] end.
    assert (0 < k) by nia.
    lanes_of_rule Hρ HE Ht; [at_lane; lia|]. rewrite !norm_unbounded by assumption. apply ediv_mul_cancel; lia.
  - injection Hact as <-. by intros ? [=].
Qed.

Lemma div_float_right a b : hasty Γ t b -> Forall (rule_ok Γ ρ (Bin Div a b)) (div_float_rules a b).
Proof.
  intros Hb. apply Forall_cons; split; [|by apply Forall_nil]. intros act Hact. apply when_Some in Hact as [Hf _].
  apply andb_true_iff in Hf as [Hf _]. pose proof (type_eqb_classes _ _ (hasty_type _ _ _ Hb)) as (_ & _ & Hft & _).
  rewrite Hft in Hf. by rewrite (proj1 (proj2 (std_int_class t Ht))) in Hf.
Qed.
Lemma stride_const k ia ib : unbounded t = true -> in_srange 64 ia -> in_srange 64 ib -> ediv ia ib = k -> in_srange (bits t) k ->
  builds Γ (element_of t) (q ← div_imp_int 64 ia ib; IntImm_make (element_of t) q) /\
  computes ρ (element_of t) (q ← div_imp_int 64 ia ib; IntImm_make (element_of t) q) (fun _ => k).
Proof.
  intros Hu Ha Hb Hk Hr. pose proof (std_element t Ht) as Hte. split.
  - apply builds_bind. intros q _. apply (builds_imm Γ ρ _ Hte), type_eqb_refl.
  - apply computes_bind. intros q Hq. apply div64_Ok in Hq as [-> _]; [|done..]. rewrite Hk.
    pose proof (computes_imm Γ ρ _ Hte (element_of t) k (type_eqb_refl _)) as H.
    rewrite (wrap_in_range _ Hte) in H; [done|by rewrite (element_unbounded t Ht)|].
    by destruct (element_of_fields t (std_int_bits t Ht)) as (_ & -> & _).
Qed.

(** What a ramp and a broadcast give at every lane. *)
Lemma div_ramp_right s mr a b : hasty Γ t a -> hasty Γ t b -> div_safe s t a b ->
  (forall base stride l f, a = Ramp base stride l -> no_overflow_scalar_int (type base) = true ->
     den ρ (element_of t) base f -> mr_ok mr /\ congr mr (f 0%nat)) ->
  Forall (rule_ok Γ ρ (Bin Div a b)) (div_ramp_rules t a b mr).
Proof.
  intros Ha Hb Hsafe Hmr. pose proof (std_element t Ht) as Hte. pose proof (first_lane t Ht) as H0.
  repeat (apply Forall_cons; split); [..|by apply Forall_nil]; intros act Hact; inv_rule Hact;
    (destruct (no_overflow_scalar_int _ && _) eqn:E; [|done]); apply andb_true_iff in E as [Hno Hz];
    apply negb_true_iff, Z.eqb_neq in Hz;
    (apply when_ub_Some in Hact as [[Hd <-]|(? & _ & ->)]; [|by intros ? [=]]); cbn [action_ok];
    match goal with H1 : const_int ?s = Some ?ia, H2 : const_int ?v = Some ?ib |- _ =>
      rename H1 into Hia; rename H2 into Hib end;
    destruct (hasty_ramp Γ t Ht _ _ _ Ha) as (Hbase & Hstride & -> & ?), (hasty_broadcast Γ t Ht _ _ Hb) as (Hvalue & -> & ?);
    destruct (const_int_in_range Γ _ Hte _ _ Hstride Hia) as (_ & Ha64 & _);
    destruct (const_int_in_range Γ _ Hte _ _ Hvalue Hib) as (_ & Hb64 & _);
    destruct (element_no_overflow t Ht _ (hasty_type _ _ _ Hbase) Hno) as [Hnt Hu].
  - pose proof (safe_stride _ _ _ _ Hsafe _ _ _ _ _ _ _ eq_refl eq_refl Hia Hib Hnt) as Hr.
    apply divides_Ok in Hd as (_ & k & Hk). rewrite Hk, (pull_all _ _ k) in Hr by done.
    destruct (stride_const k _ _ Hu Ha64 Hb64) as [Hq1 Hq2]; [by rewrite Hk; apply pull_all|done|].
    eapply (rule_rewrites _ _ Hρ _ Ht); [hasty_auto Ht|build_ramp Ht Hte|].
    operands_of_rule Hρ Ht Hfa Hfb. split_ramp Hρ Ht Ha Hfa. split_broadcast Hρ Ht Hb Hfb.
    eexists. split.
    + eapply (computes_ramp Γ ρ t Ht); [build Hte|exact Hq1|done|compute_lanes Hte|exact Hq2|].
      * first_divisor Ht H0.
      * cbn [iop]. rewrite element_norm by done. by apply norm_in_type.
    + pose proof (const_int_lanes ρ _ _ _ _ Hia ltac:(eassumption) 0%nat ltac:(rewrite (element_lanes t Ht); lia)) as Hs.
      pose proof (const_int_lanes ρ _ _ _ _ Hib ltac:(eassumption) 0%nat ltac:(rewrite (element_lanes t Ht); lia)) as Hv.
      at_lane. rewrite element_norm by done. rewrite !norm_unbounded by done. rewrite Hs, Hv in *. rewrite Hk. pull.
  - eapply (rule_rewrites _ _ Hρ _ Ht); [hasty_auto Ht|apply builds_broadcast; [exact Ht|done|build Hte]|].
    operands_of_rule Hρ Ht Hfa Hfb. split_ramp Hρ Ht Ha Hfa. split_broadcast Hρ Ht Hb Hfb.
    eexists. split.
    + apply (computes_broadcast Γ); [exact Ht|done|build Hte|].
      compute_lanes Hte. first_divisor Ht H0.
    + pose proof (const_int_lanes ρ _ _ _ _ Hia ltac:(eassumption) 0%nat ltac:(rewrite (element_lanes t Ht); lia)) as Hs.
      pose proof (const_int_lanes ρ _ _ _ _ Hib ltac:(eassumption) 0%nat ltac:(rewrite (element_lanes t Ht); lia)) as Hv.
      destruct (Hmr _ _ _ _ eq_refl Hno ltac:(eassumption)) as [Hok Hcongr].
      at_lane. rewrite element_norm by done. rewrite !norm_unbounded by done. rewrite Hs, Hv in *.
      eapply no_lane_crosses_Ok; [done..|]. unfold nlanes in *. lia.
Qed.

(** The early answer: all the numerators between the bounds have one quotient. *)
Lemma div_bounded_right info a b : hasty Γ t a -> hasty Γ t b ->
  (forall lo hi f, const_int_bounds info a = Ok (Some (lo, hi)) -> den ρ t a f ->
     in_srange 64 lo /\ in_srange 64 hi /\ forall i, (i < nlanes t)%nat -> lo <= f i <= hi) ->
  (forall lo hi, const_int_bounds info a = Ok (Some (lo, hi)) -> in_srange 64 lo /\ in_srange 64 hi) ->
  (forall lo hi ib, const_int_bounds info a = Ok (Some (lo, hi)) -> const_int b = Some ib ->
     no_overflow t = true -> in_srange (bits t) (ediv hi ib)) ->
  forall r, div_bounded t a b info = Ok r -> rule_ok Γ ρ (Bin Div a b) r.
Proof.
  intros Ha Hb Hbounds Hrange Hfit r H act ->. unfold div_bounded in H.
  destruct (const_int b) as [ib|] eqn:Hib; [|done]. destruct (Z.eqb_spec ib 0) as [|Hz]; [done|].
  apply bind_Ok in H as (bnd & Hbnd & H). destruct bnd as [[lo hi]|]; [|done].
  destruct (Hrange lo hi Hbnd) as [Hlo Hhi].
  destruct (const_int_in_range Γ t Ht b ib Hb Hib) as (_ & Hb64 & _).
  apply bind_Ok in H as (q1 & H1 & H). apply bind_Ok in H as (q2 & H2 & H).
  apply div64_Ok in H1 as [H1 _], H2 as [H2 _]; try done.
  destruct (Z.eqb_spec q1 q2) as [<-|]; [|done].
  apply bind_Ok in H as (q & Hq & [= <-]). apply div64_Ok in Hq as [Hq _]; [|done..]. cbn [action_ok].
  eapply (rule_rewrites _ _ Hρ _ Ht); [hasty_auto Ht|build Ht|].
  operands_of_rule Hρ Ht Hfa Hfb. eexists. split; [compute_lanes Ht|].
  destruct (Hbounds lo hi _ Hbnd Hfa) as (_ & _ & Hbd). pose proof (const_int_lanes ρ t b _ ib Hib Hfb) as Hd.
  at_lane. rewrite (norm_wrap t Ht); [f_equal; rewrite Hq; apply (ediv_between lo _ hi); [done|lia|congruence|done]|].
  intros Hno. rewrite (ediv_between lo _ hi ib q1); [rewrite H1; by apply (Hfit lo hi)|done|lia|done|done].
Qed.

Lemma div_rules_right s mr a b : hasty Γ t a -> hasty Γ t b -> div_safe s t a b ->
  (forall base stride l f, a = Ramp base stride l -> no_overflow_scalar_int (type base) = true ->
     den ρ (element_of t) base f -> mr_ok mr /\ congr mr (f 0%nat)) ->
  rule_ok Γ ρ (Bin Div a b) (first_rule (div_rules equal t a b mr)).
Proof.
  intros Ha Hb Hsafe Hmr. apply first_rule_ok. unfold div_rules. rewrite !Forall_app.
  split_and!; eauto using div_const_right, div_ramp_right, div_div_right, div_pull_right, div_same_right,
    div_factor_right, div_float_right.
Qed.
End Sound.

(** C10. The simplifier's visit of [Div] keeps the type and the value of a quotient of
    integers, when the bounds of the numerator decide it and for every rule of the
    chain, given that the scopes are right about the variables, when no signed overflow
    was flagged and the mutated operands are [div_safe]: under a type without overflow
    no constant folded is the quotient of the least value by -1, and the products folded
    for [(x/ia)/ib] and [(x/ia + ib)/ic] fit the type; a numerator recognised as -1 is a
    constant without casts; and the analyses are asked only what they answer rightly: no
    modulus by a negative divisor of more than one value ([mods_exact]) in the
    numerator, and [defect_free] the base of a ramp. Where the products do not fit the
    visit is wrong ([visit_Div_defects]). *)
Theorem visit_Div_sound facts equal same_as mutate Γ ρ s op_a op_b :
  Facts facts equal -> Known facts -> Simplifies facts mutate ->
  facts Γ ρ s -> good Γ (Bin Div op_a op_b) -> std_int (type op_a) ->
  (forall x s1 y s2, mutate op_a s = Ok (Some x, s1) -> mutate op_b s1 = Ok (Some y, s2) ->
     div_safe s2 (type op_a) x y) ->
  simplifies facts (visit_Div same_as equal mutate (Bin Div op_a op_b) op_a op_b) Γ ρ s (Bin Div op_a op_b).
Proof.
  intros HF HK HM Hs Hg Ht Hsafe.
  apply (visit_known_sound facts equal same_as mutate Γ ρ s Div "Div"); [done..|].
  intros x s1 y s2 ?? Hx Hy [= <- <-] Hs2 Hhx Hhy. specialize (Hsafe _ _ _ _ Hx Hy). pose proof (facts_env _ _ Γ ρ s2 Hs2) as Hρ.
  rewrite arith_type by done. split.
  - apply (div_bounded_right Γ ρ Hρ); try done; [| |by apply Hsafe].
    + intros lo hi f H Hf. by eapply (bounds_lanes facts Γ ρ Hρ s2 Hs2 _ x lo hi f Hhx (safe_mods _ _ _ _ Hsafe)).
    + intros lo hi H. exact (const_int_bounds_range _ x (good_wf _ _ (hasty_good _ _ _ Hhx)) (fun n r => info_range _ ρ n r (known_bounds Γ ρ s2 Hs2)) _ H).
  - intros rs _ Hrs. apply bind_Ok in Hrs as (mr & Hmr & [= <-]).
    apply (div_rules_right equal Γ ρ Hρ (facts_equal _ _ Γ ρ s2 Hs2) _ Ht s2 mr x y Hhx Hhy Hsafe).
    intros base stride l f -> Hno Hf. unfold div_mod_rem in Hmr. rewrite Hno in Hmr.
    pose proof (safe_base _ _ _ _ Hsafe _ _ _ eq_refl Hno) as Hd. destruct (hasty_ramp Γ _ Ht _ _ _ Hhx) as (Hb & _).
    destruct (scalar_no_overflow _ _ (std_element _ Ht) (hasty_type _ _ _ Hb) Hno) as [Hun _].
    destruct (modulus_lanes facts Γ ρ Hρ s2 Hs2 _ base mr f Hb Hun Hd Hmr Hf) as [Hok Hc].
    split; [done|]. apply Hc. rewrite (element_lanes _ Ht). lia.
Qed.

(** C. Rules of the visit of [Div] that fold products do not ask that they fit:
    [(x / 65536) / 65536] becomes [x / 0], which has no value, and
    [(x / 2 + 1610612736) / 2] becomes [(x + -1073741824) / 4], -268435456 instead of
    805306368 at [x = 0]. *)
Theorem visit_Div_defects same_as s :
  bounds_info s = scope_new -> alignment_info s = scope_new ->
  let q := Bin Div x32 (imm32 65536) in
  let r := Bin Div x32 (imm32 0) in
  let q' := Bin Add (Bin Div x32 (imm32 2)) (imm32 1610612736) in
  let r' := Bin Div (Bin Add x32 (imm32 (-1073741824))) (imm32 4) in
  (visit_Div same_as ptr_equal no_mutate (Bin Div q (imm32 65536)) q (imm32 65536) s = Ok (eref r, s) /\
   eval Strict (xy_env 7 0) (Bin Div q (imm32 65536)) = Some [VInt 0] /\ eval Strict (xy_env 7 0) r = None) /\
  (visit_Div same_as ptr_equal no_mutate (Bin Div q' (imm32 2)) q' (imm32 2) s = Ok (eref r', s) /\
   eval Strict (xy_env 0 0) (Bin Div q' (imm32 2)) = Some [VInt 805306368] /\
   eval Strict (xy_env 0 0) r' = Some [VInt (-268435456)]).
Proof.
  intros Hb Ha. cbv zeta. split; (split; [|split; by vm_compute]);
    destruct s as [l v bi ai n]; simpl in Hb, Ha; subst; by vm_compute.
Qed.

(** [(x*6 + y) / 3] is [x*2 + y/3]. *)
Lemma visit_Div_sound_witness :
  let a := Bin Add (Bin Mul x32 (imm32 6)) y32 in
  visit_Div same_expr_ref ptr_equal no_mutate (Bin Div a (imm32 3)) a (imm32 3) new_simplify =
    Ok (eref (Bin Add (Bin Mul x32 (imm32 2)) (Bin Div y32 (imm32 3))), new_simplify) /\
  eval Ideal (xy_env 5 (-4)) (Bin Div a (imm32 3)) = Some [VInt 8] /\
  simplifies idle_facts (visit_Div same_expr_ref ptr_equal no_mutate (Bin Div a (imm32 3)) a (imm32 3))
    xy_types (xy_env 5 (-4)) new_simplify (Bin Div a (imm32 3)).
Proof.
  split; [by vm_compute|]. split; [by vm_compute|].
  apply (visit_Div_sound idle_facts ptr_equal same_expr_ref no_mutate).
  - apply idle_facts_Facts.
  - apply idle_facts_Known.
  - apply no_mutate_idle.
  - split; [apply xy_facts|done].
  - split; [repeat split; by vm_compute|repeat split; by vm_compute|by vm_compute].
  - split; [by vm_compute|]. by vm_compute.
  - intros a s1 b s2 [= <- <-] [= <- <-]. by split.
Defined.
