(* ===== verification/SimplifyMod.v ===== *)
(** The simplifier's visit of [Mod] (src/src/Simplify.cpp): the bounds and the remainder
    of the left operand, the chain of rules, and the proof that each of them keeps the
    value of a modulus of integers. *)

From Stdlib Require Import ZArith Lia Bool SpecFloat String.
From stdpp Require Import prelude strings gmap.
From S2P Require Import Prelude Types IR Semantics Scope Operators ModulusRemainder Mutator Equality EqualityMeaning Interval ConstBounds Monotonic Lanes Simplify SimplifyRules SimplifyQuotient.

#[local] Open Scope Z_scope.
#[local] Open Scope halide_scope.

Section Rules.
Context (t : Ty) (a b : Expr).

(** Zero, constants, and broadcasts. *)
Definition mod_const_rules : list rule := [
  when (is_zero a && negb (is_zero b)) (Result a);
  on_const (const_int a) (fun ia => on_const (const_int b) (fun ib =>
    when (negb (ib =? 0)) (Result (r ← mod_imp_int 64 ia ib; IntImm_make t r))));
  on_const (const_uint a) (fun ua => on_const (const_uint b) (fun ub =>
    when (negb (ub =? 0)) (Result (UIntImm_make t (ua mod ub)))));
  on_const (const_float a) (fun fa => on_const (const_float b) (fun fb =>
    Some (Result (FloatImm_make t (SFsub 53 1024 fa (SFmul 53 1024 fb (float_floor 64 (SFdiv 53 1024 fa fb))))))));
  on_broadcast a (fun value_a lanes_a => on_broadcast b (fun value_b _ =>
    Some (Mutate (v ← on2 Mod_make value_a value_b; Broadcast_make (eref v) lanes_a))))
].

(** [act] when the constant [c] is a multiple of the constant [b]. *)
Definition when_multiple (c : Expr) (act : action) : rule :=
  on_const (const_int b) (fun ib => on_const (const_int c) (fun ia =>
    if no_overflow t && negb (ib =? 0) then when_ub (divides ib ia) act else None)).

(** Terms that are a multiple of the divisor. *)
Definition mod_multiple_rules : list rule := [
  on_bin Mul a (fun _ c => when_multiple c (Result (make_zero t)));
  on_bin Add a (fun m y => on_bin Mul m (fun _ c => when_multiple c (Mutate (y %' b))));
  on_bin Add a (fun y c => when_multiple c (Mutate (y %' b)));
  on_bin Add a (fun y m => on_bin Mul m (fun _ c => when_multiple c (Mutate (y %' b))))
].

(** A left operand whose remainder is known. *)
Definition mod_known_rules (mod_rem : ModulusRemainder) : list rule := [
  on_const (const_int b) (fun ib =>
    if no_overflow_scalar_int t && negb (ib =? 0) then
      when_ub (divides ib (modulus mod_rem))
        (Result (r ← mod_imp_int 64 (remainder mod_rem) ib; make_const t (Int64 r)))
    else None)
].

(** A ramp modulo one constant, which divides its stride; or so that no lane crosses
    a multiple of the divisor; or whose base has a known remainder. *)
Definition mod_ramp_rules (mod_rem : ModulusRemainder) : list rule := [
  on_ramp a (fun base stride lanes => on_const (const_int stride) (fun ia =>
    on_broadcast b (fun value _ => on_const (const_int value) (fun ib =>
      if no_overflow t && negb (ib =? 0) then
        when_ub (divides ib ia) (Mutate (v ← base %' value; Broadcast_make (eref v) lanes))
      else None))));
  on_ramp a (fun base stride lanes => on_const (const_int stride) (fun ia =>
    on_broadcast b (fun value _ => on_const (const_int value) (fun ib =>
      if no_overflow_scalar_int (type base) && negb (ib =? 0) then
        when_ub (no_lane_crosses mod_rem ia ib lanes)
          (Mutate (ramp' (r ← mod_imp_int 64 (remainder mod_rem) ib; make_const (type base) (Int64 r)) stride lanes))
      else None))));
  on_ramp a (fun base stride lanes => on_const (const_int stride) (fun ia =>
    on_broadcast b (fun value _ => on_const (const_int value) (fun ib =>
      if no_overflow_scalar_int (type base) && negb (is_const base) && negb (ib =? 0) then
        when_ub (divides ib (modulus mod_rem))
          (Mutate (ramp' (r ← mod_imp_int 64 (remainder mod_rem) ib; make_const (type base) (Int64 r)) stride lanes %' b))
      else None))))
].

Definition mod_rules (mod_rem : ModulusRemainder) : list rule :=
  mod_const_rules ++ mod_multiple_rules ++ mod_known_rules mod_rem ++ mod_ramp_rules mod_rem.

(** A left operand between zero and the divisor is its own remainder. *)
Definition mod_bounded (info : Scope bounds) : res rule :=
  match const_int b with
  | Some ib =>
      if negb (ib =? 0) && no_overflow_scalar_int t then
        r ← const_int_bounds info a;
        match r with
        | Some (a_min, a_max) => Ok (when ((a_max <? ib) && (0 <=? a_min)) (Result a))
        | None => Ok None
        end
      else Ok None
  | None => Ok None
  end.

(** What is known of the left operand, or of the base when it is a ramp. *)
Definition mod_mod_rem (info : Scope ModulusRemainder) : res ModulusRemainder :=
  mod_rem ← (match const_int b with
             | Some ib =>
                 if negb (ib =? 0) && no_overflow_scalar_int t then modulus_remainder_in a info else Ok (mkMR 0 1)
             | None => Ok (mkMR 0 1)
             end);
  match a, b with
  | Ramp base _ _, Broadcast value _ =>
      match const_int value with
      | Some ib =>
          if negb (ib =? 0) && no_overflow_scalar_int (type base) then modulus_remainder_in base info else Ok mod_rem
      | None => Ok mod_rem
      end
  | _, _ => Ok mod_rem
  end.
End Rules.

Definition visit_Mod (same_as : ExprRef -> ExprRef -> bool) (mutate : Expr -> mut Simplify ExprRef)
    (op op_a op_b : Expr) : mut Simplify ExprRef :=
  visit_known same_as mutate in_order
    (fun a b s => mod_bounded (type op) a b (bounds_info s))
    (fun a b s => mod_rem ← mod_mod_rem (type op) a b (alignment_info s); Ok (mod_rules (type op) a b mod_rem))
    Mod_make op op_a op_b.

(** * Every rule keeps the value *)

(** What the analyses know is right where they are exact, and the divisor has an
    absolute value. *)
Record mod_safe (s : Simplify) (t : Ty) (a b : Expr) : Prop := {
  known_mods : mods_exact (bounds_info s) a = true;
  known_left : forall ib, const_int b = Some ib -> no_overflow_scalar_int t = true ->
    defect_free (set_containing_scope scope_new (Some (alignment_info s))) a = true;
  known_base : forall base stride l value l' ib, a = Ramp base stride l -> b = Broadcast value l' ->
    const_int value = Some ib -> no_overflow_scalar_int (type base) = true ->
    defect_free (set_containing_scope scope_new (Some (alignment_info s))) base = true;
  known_divisor : forall ib, as_const_int_expr b = Some ib -> - 2 ^ 63 < ib
}.

Lemma mod64_Ok a b r : in_srange 64 a -> in_srange 64 b -> - 2 ^ 63 < b ->
  mod_imp_int 64 a b = Ok r -> b <> 0 /\ r = emod a b.
Proof.
  intros Ha Hb Hmin H. assert (Hd : b <> 0 /\ ~ (a = - 2 ^ (64 - 1) /\ b = -1)).
  { unfold mod_imp_int in H. destruct (c_div_undefined 64 a b) eqn:E; [done|].
    unfold c_div_undefined in E. apply orb_false_iff in E as [E1 E2]. apply Z.eqb_neq in E1.
    split; [done|]. intros [-> ->]. done. }
  destruct Hd as [Hb0 Hn]. split; [done|].
  rewrite mod_imp_int_exact in H; [by injection H as <-|lia|done|done| |done|done].
  unfold in_srange in *. lia.
Qed.

Lemma const_int_expr e i : const_int e = Some i -> as_const_int_expr e = Some i.
Proof. unfold const_int. by destruct (is_vector (type e)). Qed.

Lemma emod_bound x d w : d <> 0 -> in_srange w d -> in_srange w (emod x d).
Proof. unfold in_srange. intros Hd Hr. destruct (ediv_emod x d Hd). lia. Qed.

Lemma emod_product x d k : d <> 0 -> emod (x * (d * k)) d = 0.
Proof. intros Hd. apply (emod_all _ d (x * k)); [done|ring]. Qed.
Lemma emod_product_plus x y d k : d <> 0 -> emod (x * (d * k) + y) d = emod y d.
Proof. intros Hd. apply (emod_shift _ _ d (x * k)); [done|ring]. Qed.
Lemma emod_plus_product x y d k : d <> 0 -> emod (y + x * (d * k)) d = emod y d.
Proof. intros Hd. apply (emod_shift _ _ d (x * k)); [done|ring]. Qed.
Lemma emod_plus_multiple y d k : d <> 0 -> emod (y + d * k) d = emod y d.
Proof. intros Hd. by apply (emod_shift _ _ d k). Qed.

Section Constants.
Context (Γ : gmap string Ty) (ρ : env) (t : Ty) (Ht : std_int t).

(** The known remainder as a constant. *)
Lemma remainder_const u rem ib : type_eqb u t = true -> unbounded t = true -> in_srange 64 rem -> in_srange 64 ib ->
  - 2 ^ 63 < ib -> in_srange (bits t) ib ->
  builds Γ t (r ← mod_imp_int 64 rem ib; make_const u (Int64 r)) /\
  computes ρ t (r ← mod_imp_int 64 rem ib; make_const u (Int64 r)) (fun _ => emod rem ib).
Proof.
  intros Hu Hun Hrem Hib Hmin Hbits. split.
  - apply builds_bind. intros r _. by apply (builds_const Γ ρ t Ht).
  - apply computes_bind. intros r Hr. apply mod64_Ok in Hr as [Hz ->]; [|done..].
    pose proof (computes_const Γ ρ t Ht u (emod rem ib) Hu) as H.
    rewrite (wrap_in_range t Ht) in H; [done|done|by apply emod_bound].
Qed.

Lemma known_remainder mr ib x : divides ib (modulus mr) = Ok true -> congr mr x ->
  ib <> 0 /\ exists k, x = remainder mr + ib * k.
Proof.
  intros Hd [j Hj]. apply divides_Ok in Hd as (Hz & k & Hk). split; [done|]. exists (j * k). rewrite Hk in Hj. lia.
Qed.

End Constants.

Section Sound.
Context (Γ : gmap string Ty) (ρ : env) (Hρ : env_ok Ideal Γ ρ).
Context (equal : ExprRef -> ExprRef -> bool) (HE : EqualityTest Γ ρ equal).
Context (t : Ty) (Ht : std_int t).

Lemma mod_fold_right a b : hasty Γ t a -> hasty Γ t b -> (forall ib, as_const_int_expr b = Some ib -> - 2 ^ 63 < ib) ->
  Forall (rule_ok Γ ρ (Bin Mod a b)) [
    on_const (const_int a) (fun ia => on_const (const_int b) (fun ib =>
      when (negb (ib =? 0)) (Result (r ← mod_imp_int 64 ia ib; IntImm_make t r))));
    on_const (const_uint a) (fun ua => on_const (const_uint b) (fun ub =>
      when (negb (ub =? 0)) (Result (UIntImm_make t (ua mod ub)))))].
Proof.
  intros Ha Hb Hmin. repeat (apply Forall_cons; split); [..|by apply Forall_nil]; intros act Hact; rule_action Hact act;
    match goal with Hz : negb _ = true |- _ => apply negb_true_iff, Z.eqb_neq in Hz end; cbn [action_ok]; intros e' He'.
  - match goal with Hia : const_int a = Some ?ia, Hib : const_int b = Some ?ib |- _ =>
      destruct (const_int_in_range Γ t Ht a ia Ha Hia) as (_ & Ha64 & Hi), (const_int_in_range Γ t Ht b ib Hb Hib) as (Hrb & Hb64 & _);
      pose proof (Hmin ib (const_int_expr _ _ Hib)) end.
    apply bind_Ok in He' as (r & Hr & He'). apply mod64_Ok in Hr as [_ ->]; [|done..].
    match type of He' with IntImm_make _ ?z = _ =>
      refine (proj1 (imm_rewrites Γ ρ Hρ t Ht Mod a b z t eq_refl Ha Hb (type_eqb_refl t) (or_introl Hi) _) e' He') end.
    intros F HF. eapply (den_bin_lanes _ _ Hρ _ Ht) in HF as (f & g & Hf & Hg & HF); [|done..]. intros i Hl.
    destruct (HF i Hl) as (_ & _ & _ & ->).
    erewrite (const_int_lanes ρ t a f), (const_int_lanes ρ t b g) by eassumption.
    apply (norm_wrap t Ht). intros _. by apply emod_bound.
  - match goal with Hia : const_uint a = Some ?ia, Hib : const_uint b = Some ?ib |- _ =>
      pose proof (const_uint_nonneg Γ t a ia Ha Hia); pose proof (const_uint_nonneg Γ t b ib Hb Hib) end.
    assert (Hu : is_uint t = true).
    { unfold UIntImm_make in He'. apply bind_Ok in He' as (? & H' & _). by apply internal_assert_Ok, andb_true_iff in H' as [H' _]. }
    match type of He' with UIntImm_make _ ?z = _ =>
      refine (proj2 (imm_rewrites Γ ρ Hρ t Ht Mod a b z t eq_refl Ha Hb (type_eqb_refl t) (or_intror Hu) _) e' He') end.
    intros F HF. eapply (den_bin_lanes _ _ Hρ _ Ht) in HF as (f & g & Hf & Hg & HF); [|done..]. intros i Hl.
    destruct (HF i Hl) as (_ & _ & _ & ->).
    erewrite (const_uint_lanes ρ t a f), (const_uint_lanes ρ t b g) by eassumption. cbn [iop].
    unfold norm, unbounded, emod. rewrite (uint_not_int t Hu), Z.abs_eq by lia. done.
Qed.

Lemma mod_broadcast_right a b : hasty Γ t a -> hasty Γ t b ->
  rule_ok Γ ρ (Bin Mod a b) (on_broadcast a (fun value_a lanes_a => on_broadcast b (fun value_b _ =>
    Some (Mutate (v ← on2 Mod_make value_a value_b; Broadcast_make (eref v) lanes_a))))).
Proof.
  intros Ha Hb act Hact. inv_rule Hact. injection Hact as <-. cbn [action_ok].
  pose proof (std_element t Ht) as Hte. pose proof (first_lane t Ht) as H0.
  destruct (hasty_broadcast Γ t Ht _ _ Ha) as (? & -> & Hl), (hasty_broadcast Γ t Ht _ _ Hb) as (? & -> & _).
  eapply (rule_rewrites _ _ Hρ _ Ht); [hasty_auto Ht|apply builds_broadcast; [exact Ht|exact Hl|build Hte]|].
  operands_of_rule Hρ Ht Hfa Hfb. split_broadcast Hρ Ht Ha Hfa. split_broadcast Hρ Ht Hb Hfb.
  eexists. split.
  - apply (computes_broadcast Γ); [exact Ht|exact Hl|build Hte|]. compute_lanes Hte. first_divisor Ht H0.
  - at_lane. by rewrite !element_norm by done.
Qed.

Lemma mod_const_right a b : hasty Γ t a -> hasty Γ t b -> (forall ib, as_const_int_expr b = Some ib -> - 2 ^ 63 < ib) ->
  Forall (rule_ok Γ ρ (Bin Mod a b)) (mod_const_rules t a b).
Proof.
  intros Ha Hb Hmin. unfold mod_const_rules. apply Forall_cons; split.
  { intros act Hact. rule_action Hact act. split_bools. lanes_of_rule Hρ HE Ht.
    rewrite (emod_all 0 _ 0) by (assumption || lia). apply norm_zero. }
  pose proof (mod_fold_right a b Ha Hb Hmin) as Hfold.
  apply Forall_cons in Hfold as [Hi Hfold]. apply Forall_cons in Hfold as [Hu _].
  apply Forall_cons; split; [exact Hi|]. apply Forall_cons; split; [exact Hu|]. clear Hi Hu.
  apply Forall_cons; split.
  { intros act Hact. apply on_const_Some in Hact as (fa & _ & Hact). apply on_const_Some in Hact as (fb & _ & [= <-]).
    intros e' He'. by apply (FloatImm_no t Ht _ _ _ (type_eqb_refl t)) in He'. }
  apply Forall_cons; split; [by apply mod_broadcast_right|by apply Forall_nil].
Qed.

Lemma when_multiple_Some b c act0 act : when_multiple t b c act0 = Some act ->
  (exists ia ib k, const_int c = Some ia /\ const_int b = Some ib /\ no_overflow t = true /\ ib <> 0 /\ ia = ib * k /\ act = act0) \/
  exists err, act = Result (Err err).
Proof.
  intros H. unfold when_multiple in H. inv_rule H.
  destruct (no_overflow t && _) eqn:E; [|done]. apply andb_true_iff in E as [Hno Hz].
  apply when_ub_Some in H as [[H <-]|(? & _ & ->)]; [left|right; eauto].
  apply divides_Ok in H as (Hz' & k & Hk). eauto 15.
Qed.

Ltac multiple_rule :=
  let act := fresh "act" in let Hact := fresh "Hact" in
  intros act Hact;
  repeat lazymatch type of Hact with
  | on_bin _ _ _ = _ => apply on_bin_Some in Hact; destruct Hact as (? & ? & -> & Hact)
  end;
  apply when_multiple_Some in Hact as [(? & ? & ? & ? & ? & ? & ? & -> & ->)|(? & ->)]; [|by intros ? [=]];
  split_hasty Ht; lanes_of_rule Hρ HE Ht; rewrite ?norm_unbounded in * by assumption.

Lemma mod_multiple_right a b : hasty Γ t a -> hasty Γ t b ->
  Forall (rule_ok Γ ρ (Bin Mod a b)) (mod_multiple_rules t a b).
Proof.
  intros Ha Hb. apply Forall_cons; split; [multiple_rule; by apply emod_product|].
  repeat (apply Forall_cons; split); [..|by apply Forall_nil]; multiple_rule;
    first [by apply emod_product_plus|by apply emod_plus_multiple|by apply emod_plus_product].
Qed.

Lemma mod_known_right mr a b : hasty Γ t a -> hasty Γ t b -> (forall ib, as_const_int_expr b = Some ib -> - 2 ^ 63 < ib) ->
  (forall f ib, const_int b = Some ib -> ib <> 0 -> no_overflow_scalar_int t = true -> den ρ t a f ->
     mr_ok mr /\ forall i, (i < nlanes t)%nat -> congr mr (f i)) ->
  in_srange 32 (remainder mr) ->
  Forall (rule_ok Γ ρ (Bin Mod a b)) (mod_known_rules t b mr).
Proof.
  intros Ha Hb Hmin Hmr Hrem. apply Forall_cons; split; [|by apply Forall_nil]. intros act Hact.
  apply on_const_Some in Hact as (ib & Hib & Hact).
  destruct (no_overflow_scalar_int t && _) eqn:E; [|done]. apply andb_true_iff in E as [Hno Hz%negb_true_iff%Z.eqb_neq].
  apply when_ub_Some in Hact as [[Hd <-]|(? & _ & ->)]; [|by intros ? [=]]. cbn [action_ok].
  destruct (scalar_no_overflow t t Ht (type_eqb_refl t) Hno) as [Hu _].
  destruct (const_int_in_range Γ t Ht b ib Hb Hib) as (Hrb & Hb64 & _).
  destruct (remainder_const Γ ρ t Ht t (remainder mr) ib (type_eqb_refl t) Hu) as [Hm1 Hm2];
    [by apply (srange_mono 32); [lia|]|done|by apply Hmin, const_int_expr|done|].
  eapply (rule_rewrites _ _ Hρ _ Ht); [hasty_auto Ht|exact Hm1|].
  operands_of_rule Hρ Ht Hfa Hfb. eexists. split; [exact Hm2|].
  destruct (Hmr _ ib Hib Hz Hno Hfa) as [_ Hc]. pose proof (const_int_lanes ρ t b _ ib Hib Hfb) as Hv.
  at_lane. rewrite norm_unbounded by done.
  match goal with H : congr mr _ |- _ => destruct (known_remainder mr ib _ Hd H) as (_ & k & ->) end.
  by apply (emod_shift _ _ _ k).
Qed.

(** The operands of a rule about a ramp and a broadcast of constants. *)
Lemma on_ramp_broadcast_Some a b f act : hasty Γ t a -> hasty Γ t b ->
  on_ramp a (fun base stride l => on_const (const_int stride) (fun ia =>
    on_broadcast b (fun value _ => on_const (const_int value) (fun ib => f base stride l value ia ib)))) = Some act ->
  exists base stride value ia ib,
    a = Ramp base stride (lanes t) /\ b = Broadcast value (lanes t) /\
    (hasty Γ (element_of t) base /\ hasty Γ (element_of t) stride /\ hasty Γ (element_of t) value) /\ 1 < lanes t /\
    (const_int stride = Some ia /\ in_srange 64 ia /\ in_srange (bits t) ia) /\
    (const_int value = Some ib /\ in_srange 64 ib /\ in_srange (bits t) ib) /\
    f base stride (lanes t) value ia ib = Some act.
Proof.
  intros Ha Hb H. pose proof (std_element t Ht) as Hte. inv_rule H.
  destruct (hasty_ramp Γ t Ht _ _ _ Ha) as (Hbase & Hstride & -> & Hl), (hasty_broadcast Γ t Ht _ _ Hb) as (Hvalue & -> & ?).
  destruct (element_of_fields t (std_int_bits t Ht)) as (_ & Hbt & _).
  match goal with H1 : const_int ?s = Some ?ia, H2 : const_int ?v = Some ?ib |- _ =>
    destruct (const_int_in_range Γ _ Hte _ _ Hstride H1) as (Hra & Ha64 & _);
    destruct (const_int_in_range Γ _ Hte _ _ Hvalue H2) as (Hrb & Hb64 & _) end.
  rewrite Hbt in Hra, Hrb. do 5 eexists. done.
Qed.

Lemma const_first_lane e c f : const_int e = Some c -> den ρ (element_of t) e f -> f 0%nat = c.
Proof. intros Hc Hf. apply (const_int_lanes ρ _ _ _ _ Hc Hf). rewrite (element_lanes t Ht). lia. Qed.

Lemma element_remainder mr u ib : type_eqb u (element_of t) = true -> unbounded t = true -> in_srange 32 (remainder mr) ->
  in_srange 64 ib -> - 2 ^ 63 < ib -> in_srange (bits t) ib ->
  builds Γ (element_of t) (r ← mod_imp_int 64 (remainder mr) ib; make_const u (Int64 r)) /\
  computes ρ (element_of t) (r ← mod_imp_int 64 (remainder mr) ib; make_const u (Int64 r)) (fun _ => emod (remainder mr) ib).
Proof.
  intros Hu Hun Hrem Hib Hmin Hr. destruct (element_of_fields t (std_int_bits t Ht)) as (_ & Hbt & _).
  apply remainder_const; [by apply std_element|done|by rewrite (element_unbounded t Ht)| |done|done|by rewrite Hbt].
  by apply (srange_mono 32); [lia|].
Qed.

Lemma mod_ramp_right mr a b : hasty Γ t a -> hasty Γ t b -> (forall value l ib, b = Broadcast value l -> const_int value = Some ib -> - 2 ^ 63 < ib) ->
  (forall base stride l value l' ib f, a = Ramp base stride l -> b = Broadcast value l' -> const_int value = Some ib ->
     ib <> 0 -> no_overflow_scalar_int (type base) = true -> den ρ (element_of t) base f -> mr_ok mr /\ congr mr (f 0%nat)) ->
  in_srange 32 (remainder mr) ->
  Forall (rule_ok Γ ρ (Bin Mod a b)) (mod_ramp_rules t a b mr).
Proof.
  intros Ha Hb Hmin Hmr Hrem. pose proof (std_element t Ht) as Hte. pose proof (first_lane t Ht) as H0.
  repeat (apply Forall_cons; split); [..|by apply Forall_nil]; intros act Hact; 
    apply on_ramp_broadcast_Some in Hact as (base & stride & value & ia & ib & -> & -> & (Hbase & Hstride & Hvalue) & Hl & (Hia & Ha64 & Hra) & (Hib & Hb64 & Hrb) & Hact); try done;
    (destruct (_ && negb (_ =? 0)) eqn:E; [|done]); apply andb_true_iff in E as [Hno Hz];
    apply negb_true_iff, Z.eqb_neq in Hz;
    (apply when_ub_Some in Hact as [[Hd <-]|(? & _ & ->)]; [|by intros ? [=]]); cbn [action_ok];
    pose proof (Hmin value _ ib eq_refl Hib) as Hmin'.
  - pose proof (no_overflow_unbounded t Ht t (type_eqb_refl t) Hno) as Hu.
    apply divides_Ok in Hd as (_ & k & Hk).
    eapply (rule_rewrites _ _ Hρ _ Ht); [hasty_auto Ht|apply builds_broadcast; [exact Ht|lia|build Hte]|].
    operands_of_rule Hρ Ht Hfa Hfb. split_ramp Hρ Ht Ha Hfa. split_broadcast Hρ Ht Hb Hfb.
    eexists. split.
    + apply (computes_broadcast Γ); [exact Ht|lia|build Hte|]. compute_lanes Hte. first_divisor Ht H0.
    + pose proof (const_first_lane _ _ _ Hia ltac:(eassumption)) as Hs.
      pose proof (const_first_lane _ _ _ Hib ltac:(eassumption)) as Hv. at_lane. rewrite element_norm by done. rewrite !norm_unbounded by done. rewrite Hs, Hv in *.
      eapply (emod_shift _ _ _ (_ * k)); [done|]. rewrite Hk. instantiate (1 := Z.of_nat i). ring.
  - destruct (element_no_overflow t Ht _ (hasty_type _ _ _ Hbase) Hno) as [Hnt Hu].
    destruct (element_remainder mr (type base) ib) as [Hm1 Hm2]; [by eapply hasty_type|done..|].
    eapply (rule_rewrites _ _ Hρ _ Ht); [hasty_auto Ht|build_ramp Ht Hte|].
    operands_of_rule Hρ Ht Hfa Hfb. split_ramp Hρ Ht Ha Hfa. split_broadcast Hρ Ht Hb Hfb.
    eexists. split.
    + eapply (computes_ramp Γ ρ t Ht); [exact Hm1|build Hte|done|exact Hm2|compute_lanes Hte|by left].
    + pose proof (const_first_lane _ _ _ Hia ltac:(eassumption)) as Hs.
      pose proof (const_first_lane _ _ _ Hib ltac:(eassumption)) as Hv.
      destruct (Hmr _ _ _ _ _ _ _ eq_refl eq_refl Hib Hz Hno ltac:(eassumption)) as [Hok Hcongr].
      at_lane. rewrite !norm_unbounded by done. rewrite Hs, Hv in *.
      eapply (no_lane_crosses_Ok mr ia ib (lanes t)); [done..|]. unfold nlanes in *. lia.
  - apply andb_true_iff in Hno as [Hno _].
    destruct (element_no_overflow t Ht _ (hasty_type _ _ _ Hbase) Hno) as [Hnt Hu].
    destruct (element_remainder mr (type base) ib) as [Hm1 Hm2]; [by eapply hasty_type|done..|].
    assert (Hramp : builds Γ t (ramp' (r ← mod_imp_int 64 (remainder mr) ib; make_const (type base) (Int64 r)) stride (lanes t)))
      by build_ramp Ht Hte.
    eapply (rule_rewrites _ _ Hρ _ Ht); [hasty_auto Ht|build Ht|].
    operands_of_rule Hρ Ht Hfa Hfb. split_ramp Hρ Ht Ha Hfa.
    destruct (Hmr _ _ _ _ _ _ _ eq_refl eq_refl Hib Hz Hno ltac:(eassumption)) as [_ Hcongr].
    destruct (known_remainder mr ib _ Hd Hcongr) as (_ & k & Hk).
    pose proof (const_first_lane _ _ _ Hia ltac:(eassumption)) as Hs.
    split_broadcast Hρ Ht Hb Hfb.
    eexists. split.
    + eapply (computes_on2 Γ ρ t Ht); [by apply joins_mod|done|exact Hramp|build Ht| |apply computes_expr; exact Hfb|by apply HF].
      eapply (computes_ramp Γ ρ t Ht); [exact Hm1|build Hte|done|exact Hm2|compute_lanes Hte|by left].
    + pose proof (const_first_lane _ _ _ Hib ltac:(eassumption)) as Hv.
      at_lane. rewrite !norm_unbounded by done. rewrite Hs, Hv in *.
      rewrite Hk in *. apply (emod_shift _ _ _ (k + ediv (remainder mr) ib)); [done|].
      destruct (ediv_emod (remainder mr) ib Hz). lia.
Qed.

(** The early answer: a left operand between zero and the divisor. *)
Lemma mod_bounded_right info a b : hasty Γ t a -> hasty Γ t b ->
  (forall lo hi f, const_int_bounds info a = Ok (Some (lo, hi)) -> den ρ t a f ->
     in_srange 64 lo /\ in_srange 64 hi /\ forall i, (i < nlanes t)%nat -> lo <= f i <= hi) ->
  forall r, mod_bounded t a b info = Ok r -> rule_ok Γ ρ (Bin Mod a b) r.
Proof.
  intros Ha Hb Hbounds r H act ->. unfold mod_bounded in H.
  destruct (const_int b) as [ib|] eqn:Hib; [|done]. destruct (negb (ib =? 0) && _) eqn:E; [|done].
  apply andb_true_iff in E as [_ Hno]. destruct (scalar_no_overflow t t Ht (type_eqb_refl t) Hno) as [Hu _].
  apply bind_Ok in H as (bnd & Hbnd & H). destruct bnd as [[lo hi]|]; [|done]. injection H as H.
  apply when_Some in H as [Hc <-]. apply andb_true_iff in Hc as [Hhi%Z.ltb_lt Hlo%Z.leb_le]. cbn [action_ok].
  eapply (rule_rewrites _ _ Hρ _ Ht); [hasty_auto Ht|build Ht|].
  operands_of_rule Hρ Ht Hfa Hfb. eexists. split; [compute_lanes Ht|].
  destruct (Hbounds lo hi _ Hbnd Hfa) as (_ & _ & Hbd). pose proof (const_int_lanes ρ t b _ ib Hib Hfb) as Hd.
  at_lane. rewrite norm_unbounded by done. apply emod_small. lia.
Qed.

Lemma mod_rules_right mr a b : hasty Γ t a -> hasty Γ t b ->
  (forall ib, as_const_int_expr b = Some ib -> - 2 ^ 63 < ib) ->
  (forall value l ib, b = Broadcast value l -> const_int value = Some ib -> - 2 ^ 63 < ib) ->
  (forall f ib, const_int b = Some ib -> ib <> 0 -> no_overflow_scalar_int t = true -> den ρ t a f ->
     mr_ok mr /\ forall i, (i < nlanes t)%nat -> congr mr (f i)) ->
  (forall base stride l value l' ib f, a = Ramp base stride l -> b = Broadcast value l' -> const_int value = Some ib ->
     ib <> 0 -> no_overflow_scalar_int (type base) = true -> den ρ (element_of t) base f -> mr_ok mr /\ congr mr (f 0%nat)) ->
  in_srange 32 (remainder mr) ->
  rule_ok Γ ρ (Bin Mod a b) (first_rule (mod_rules t a b mr)).
Proof.
  intros Ha Hb Hmin Hmin' Hmr Hbase Hrem. apply first_rule_ok. unfold mod_rules. rewrite !Forall_app.
  split_and!; eauto using mod_const_right, mod_multiple_right, mod_known_right, mod_ramp_right.
Qed.
End Sound.

(** What the visit knows of the left operand, or of the base of a ramp. *)
Lemma mod_mod_rem_right facts Γ ρ s t a b mr : Known facts -> facts Γ ρ s -> env_ok Ideal Γ ρ -> std_int t ->
  hasty Γ t a -> mod_safe s t a b -> mod_mod_rem t a b (alignment_info s) = Ok mr ->
  mr_ok mr /\
  (forall f ib, const_int b = Some ib -> ib <> 0 -> no_overflow_scalar_int t = true -> den ρ t a f ->
     mr_ok mr /\ forall i, (i < nlanes t)%nat -> congr mr (f i)) /\
  (forall base stride l value l' ib f, a = Ramp base stride l -> b = Broadcast value l' -> const_int value = Some ib ->
     ib <> 0 -> no_overflow_scalar_int (type base) = true -> den ρ (element_of t) base f -> mr_ok mr /\ congr mr (f 0%nat)).
Proof.
  intros HK Hs Hρ Ht Ha Hsafe H.
  assert (Hok : forall e mr', modulus_remainder_in e (alignment_info s) = Ok mr' -> mr_ok mr').
  { intros e mr' H'. unfold modulus_remainder_in in H'. apply bind_Ok in H' as ([r s'] & Hr & [= <-]).
    eapply analyze_range; [apply scope_set_containing_wf, scope_new_wf| |exact Hr].
    intros n m Hn. by apply (known_alignment Γ ρ s Hs n m). }
  assert (Hd0 : mr_ok (mkMR 0 1)) by (split; by vm_compute).
  unfold mod_mod_rem in H. apply bind_Ok in H as (mr0 & Hmr0 & H).
  assert (Hok0 : mr_ok mr0).
  { destruct (const_int b) as [ib|]; [|by injection Hmr0 as <-]. destruct (negb _ && _); [by eapply Hok|by injection Hmr0 as <-]. }
  split; [|split].
  - destruct a; try by injection H as <-. destruct b; try by injection H as <-.
    repeat case_match; try by injection H as <-. all: by eapply Hok.
  - intros f ib Hib Hz Hno Hf. rewrite Hib, Hno, (proj2 (Z.eqb_neq _ _) Hz) in Hmr0. simpl in Hmr0.
    assert (mr = mr0) as ->.
    { destruct a; try by injection H as <-. destruct b; try by injection H as <-. exfalso.
      destruct (hasty_ramp Γ t Ht _ _ _ Ha) as (_ & _ & _ & Hl).
      destruct (scalar_no_overflow t t Ht (type_eqb_refl t) Hno) as [_ Hv]. unfold is_vector in Hv. lia. }
    pose proof (known_left _ _ _ _ Hsafe _ Hib Hno). destruct (scalar_no_overflow t t Ht (type_eqb_refl t) Hno) as [Hu _].
    by eapply (modulus_lanes facts Γ ρ Hρ s Hs t a mr0 f).
  - intros base stride l value l' ib f -> -> Hib Hz Hno Hf. rewrite Hib, Hno, (proj2 (Z.eqb_neq _ _) Hz) in H. simpl in H.
    pose proof (known_base _ _ _ _ Hsafe _ _ _ _ _ _ eq_refl eq_refl Hib Hno) as Hd.
    destruct (hasty_ramp Γ t Ht _ _ _ Ha) as (Hb & _).
    destruct (scalar_no_overflow _ _ (std_element t Ht) (hasty_type _ _ _ Hb) Hno) as [Hu _].
    destruct (modulus_lanes facts Γ ρ Hρ s Hs _ base mr f Hb Hu Hd H Hf) as [Hk Hc].
    split; [done|]. apply Hc. rewrite (element_lanes _ Ht). lia.
Qed.

(** C11. The simplifier's visit of [Mod] keeps the type and the value of a modulus of
    integers, when the bounds of the left operand decide it and for every rule of the
    chain, the known remainders included, given that the scopes are right about the
    variables, when no signed overflow was flagged and the mutated operands are
    [mod_safe]: the left operand is [mods_exact]; where the divisor is a constant, under
    a type without overflow, the left operand, or the base of a left operand that is a
    ramp, is [defect_free], so that its remainder is right; and a constant divisor is
    not the least 64-bit value, which has no absolute value. *)
Theorem visit_Mod_sound facts equal same_as mutate Γ ρ s op_a op_b :
  Facts facts equal -> Known facts -> Simplifies facts mutate ->
  facts Γ ρ s -> good Γ (Bin Mod op_a op_b) -> std_int (type op_a) ->
  (forall x s1 y s2, mutate op_a s = Ok (Some x, s1) -> mutate op_b s1 = Ok (Some y, s2) ->
     mod_safe s2 (type op_a) x y) ->
  simplifies facts (visit_Mod same_as mutate (Bin Mod op_a op_b) op_a op_b) Γ ρ s (Bin Mod op_a op_b).
Proof.
  intros HF HK HM Hs Hg Ht Hsafe.
  apply (visit_known_sound facts equal same_as mutate Γ ρ s Mod "Mod"); [done..|].
  intros x s1 y s2 ?? Hx Hy [= <- <-] Hs2 Hhx Hhy. specialize (Hsafe _ _ _ _ Hx Hy). pose proof (facts_env _ _ Γ ρ s2 Hs2) as Hρ.
  rewrite arith_type by done. split.
  - apply (mod_bounded_right Γ ρ Hρ _ Ht _ _ _ Hhx Hhy).
    intros lo hi f H Hf. by eapply (bounds_lanes facts Γ ρ Hρ s2 Hs2 _ x lo hi f Hhx (known_mods _ _ _ _ Hsafe)).
  - intros rs _ Hrs. apply bind_Ok in Hrs as (mr & Hmr & [= <-]).
    destruct (mod_mod_rem_right facts Γ ρ s2 _ x y mr HK Hs2 Hρ Ht Hhx Hsafe Hmr) as ([_ Hr] & ? & ?).
    apply (mod_rules_right Γ ρ Hρ _ Ht mr x y Hhx Hhy); try done; [apply (known_divisor _ _ _ _ Hsafe)|].
    intros value l ib -> Hib. apply (known_divisor _ _ _ _ Hsafe). by apply const_int_expr in Hib.
Qed.

(** [(x*6 + y) % 3] is [y % 3]. *)
Lemma visit_Mod_sound_witness :
  let a := Bin Add (Bin Mul x32 (imm32 6)) y32 in
  visit_Mod same_expr_ref no_mutate (Bin Mod a (imm32 3)) a (imm32 3) new_simplify =
    Ok (eref (Bin Mod y32 (imm32 3)), new_simplify) /\
  eval Ideal (xy_env 5 (-4)) (Bin Mod a (imm32 3)) = Some [VInt 2] /\
  simplifies idle_facts (visit_Mod same_expr_ref no_mutate (Bin Mod a (imm32 3)) a (imm32 3))
    xy_types (xy_env 5 (-4)) new_simplify (Bin Mod a (imm32 3)).
Proof.
  split; [by vm_compute|]. split; [by vm_compute|].
  apply (visit_Mod_sound idle_facts ptr_equal same_expr_ref no_mutate).
  - apply idle_facts_Facts.
  - apply idle_facts_Known.
  - apply no_mutate_idle.
  - split; [apply xy_facts|done].
  - split; [repeat split; by vm_compute|repeat split; by vm_compute|by vm_compute].
  - split; [by vm_compute|]. by vm_compute.
  - intros a s1 b s2 [= <- <-] [= <- <-]. split; try done; try (intros ib _ _; by vm_compute). by intros ib [= <-].
Defined.
