(* ===== verification/SimplifyExtremum.v ===== *)
(** What the simplifier's visits of [Min] and [Max] share (src/src/Simplify.cpp): the
    test for expressions that round up, the shapes their rules look for, and the lemmas
    on the lanes of extrema. *)

From Stdlib Require Import ZArith Lia Bool SpecFloat String.
From stdpp Require Import prelude strings gmap.
From S2P Require Import Prelude Types IR Semantics Scope Operators ModulusRemainder Mutator Equality EqualityMeaning Interval ConstBounds Monotonic Lanes Conditions Simplify SimplifyRules SimplifyQuotient.

#[local] Open Scope Z_scope.
#[local] Open Scope halide_scope.

(** The core of an integer division by [factor] that rounds up, if [e] is one. *)
Definition is_round_up_div (e : Expr) (factor : Z) : res ExprRef :=
  if negb (no_overflow (type e)) then Ok None
  else match e with
  | Bin Div n d =>
      if negb (is_const_value d factor) then Ok None
      else match n with
      | Bin Add x c => f ← i64 (factor - 1); Ok (if is_const_value c f then eref x else None)
      | _ => Ok None
      end
  | _ => Ok None
  end.

(** The core and the factor of [((x + 3) / 4) * 4]. *)
Definition is_round_up (e : Expr) : res (option (Expr * Z)) :=
  if negb (no_overflow (type e)) then Ok None
  else match e with
  | Bin Mul q m =>
      match const_int m with
      | Some factor => r ← is_round_up_div q factor; Ok (x ← r; Some (x, factor))
      | None => Ok None
      end
  | _ => Ok None
  end.

Definition is_broadcast (e : Expr) : bool := match e with Broadcast _ _ => true | _ => false end.

(** [k] for the argument of a call of [likely]. *)
Definition on_likely (e : Expr) (k : Expr -> rule) : rule :=
  match e with
  | Call _ name args ct _ _ _ _ =>
      if call_is_intrinsic name ct "likely" then
        match args with x :: _ => k x | [] => Some (Result (Err (UB "args[0]"))) end
      else None
  | _ => None
  end.

(** C's [a / b] on [int64_t]. *)
Definition c_quot64 (a b : Z) : res Z :=
  if c_div_undefined 64 a b then Err (UB "a / b") else Ok (Z.quot a b).

(** A selection between expressions that may have failed to build. *)
Definition choose (c : Expr) (t f : res Expr) : res Expr :=
  t ← t; f ← f; select (eref c) (eref t) (eref f).

(** * Calls of [likely], and expressions that round up *)

(** The calls [likely] builds have one argument. *)
Definition likely_ok (e : Expr) : bool :=
  match e with
  | Call _ name args ct _ _ _ _ => negb (call_is_intrinsic name ct "likely") || (length args =? 1)%nat
  | _ => true
  end.

Lemma on_likely_Some e k act : on_likely e k = Some act -> likely_ok e = true ->
  exists x, k x = Some act /\ (forall ρ, eval Ideal ρ e = eval Ideal ρ x) /\ forall Γ, good Γ e -> good Γ x.
Proof.
  destruct e as [| | | | | | | | | | | |u name args ct fn vi im pr|]; try done. unfold on_likely, likely_ok.
  destruct (call_is_intrinsic name ct "likely") eqn:Hn; [|done]. destruct args as [|x [|]]; try done. intros Hk _.
  exists x. split; [done|]. split.
  - intros ρ. cbn [eval mapM]. unfold eval_call. rewrite Hn. cbn [orb]. by destruct (eval Ideal ρ x).
  - intros Γ [Hwf Hty Hu]. split; [by destruct Hwf as (_ & ? & _)|by destruct Hty as (_ & _ & ? & _)|].
    simpl in Hu. by bool_to_prop.
Qed.

(** A rounding-up by a positive factor, whose constants are plain. *)
Definition round_up_ok (e : Expr) : bool :=
  match e with
  | Bin Mul (Bin Div (Bin Add _ c) d) m =>
      match const_int m with Some f => (0 <? f) && is_simple_const c && is_simple_const d | None => true end
  | _ => true
  end.

Lemma is_round_up_Ok e x f : is_round_up e = Ok (Some (x, f)) ->
  no_overflow (type e) = true /\
  exists c d m, e = Bin Mul (Bin Div (Bin Add x c) d) m /\ const_int m = Some f /\
    is_const_value d f = true /\ is_const_value c (f - 1) = true /\ in_srange 64 (f - 1).
Proof.
  unfold is_round_up. destruct (no_overflow (type e)) eqn:Hno; [|done]. intros H. split; [done|].
  destruct e as [| | | | | |op q m| | | | | | |]; try done. destruct op; try done. simpl negb in H.
  destruct (const_int m) as [g|] eqn:Hm; [|done]. apply bind_Ok in H as (r & Hr & H).
  destruct r as [y|]; [|done]. injection H as -> ->. unfold is_round_up_div in Hr.
  destruct (negb _); [done|]. destruct q as [| | | | | |op n d| | | | | | |]; try done. destruct op; try done.
  destruct (is_const_value d f) eqn:Hd; [|done]. simpl negb in Hr.
  destruct n as [| | | | | |op y c| | | | | | |]; try done. destruct op; try done.
  apply bind_Ok in Hr as (g & [-> Hg]%i64_Ok & Hr). destruct (is_const_value c (f - 1)) eqn:Hc; [|done].
  injection Hr as ->. by exists c, d, m.
Qed.

Lemma rounds_up x f : 0 < f -> x <= ediv (x + (f - 1)) f * f < x + f.
Proof. intros Hf. destruct (ediv_emod (x + (f - 1)) f ltac:(lia)). lia. Qed.

(** * Quotients and multiples *)

Lemma ediv_min d x y : d <> 0 ->
  Z.min (ediv x d) (ediv y d) = ediv (if 0 <? d then Z.min x y else Z.max x y) d.
Proof.
  intros Hd. destruct (Z.ltb_spec 0 d); destruct (Z.le_ge_cases x y) as [Hxy|Hxy];
    [rewrite (Z.min_l x y)|rewrite (Z.min_r x y)|rewrite (Z.max_r x y)|rewrite (Z.max_l x y)]; try lia;
    [apply Z.min_l, ediv_mono|apply Z.min_r, ediv_mono|apply Z.min_r, ediv_anti|apply Z.min_l, ediv_anti]; lia.
Qed.
Lemma ediv_max d x y : d <> 0 ->
  Z.max (ediv x d) (ediv y d) = ediv (if 0 <? d then Z.max x y else Z.min x y) d.
Proof.
  intros Hd. destruct (Z.ltb_spec 0 d); destruct (Z.le_ge_cases x y) as [Hxy|Hxy];
    [rewrite (Z.max_r x y)|rewrite (Z.max_l x y)|rewrite (Z.min_l x y)|rewrite (Z.min_r x y)]; try lia;
    [apply Z.max_r, ediv_mono|apply Z.max_l, ediv_mono|apply Z.max_l, ediv_anti|apply Z.max_r, ediv_anti]; lia.
Qed.
Lemma mul_min d x y : Z.min (x * d) (y * d) = (if 0 <? d then Z.min x y else Z.max x y) * d.
Proof. destruct (Z.ltb_spec 0 d); nia. Qed.
Lemma mul_max d x y : Z.max (x * d) (y * d) = (if 0 <? d then Z.max x y else Z.min x y) * d.
Proof. destruct (Z.ltb_spec 0 d); nia. Qed.

(** The quotient of a constant by one that divides it. *)
Lemma quot64_Ok w a b q : 0 < w <= 64 -> in_srange w a -> in_srange w b -> a <> - 2 ^ (w - 1) ->
  c_quot64 a b = Ok q -> divides b a = Ok true -> a = q * b /\ in_srange w q.
Proof.
  intros Hw Ha Hb Hmin Hq Hd. apply divides_Ok in Hd as (Hz & k & ->). unfold c_quot64 in Hq.
  destruct (c_div_undefined 64 (b * k) b); [done|]. injection Hq as <-. rewrite Z.mul_comm, Z.quot_mul by done.
  split; [done|]. unfold in_srange in *. assert (b <= -1 \/ 1 <= b) as [|] by lia; nia.
Qed.

(** * An extremum of a range *)

Section Extremum.
Context (Γ : gmap string Ty) (ρ : env) (Hρ : env_ok Ideal Γ ρ).
Context (t : Ty) (Ht : std_int t).

(** The lanes of a rounding-up, and of its core. *)
Lemma round_up_lanes e x f F : hasty Γ t e -> is_round_up e = Ok (Some (x, f)) -> round_up_ok e = true -> den ρ t e F ->
  hasty Γ t x /\ exists g, den ρ t x g /\ forall i, (i < nlanes t)%nat -> g i <= F i.
Proof.
  intros He H Hok HF. apply is_round_up_Ok in H as (Hno & c & d & m & -> & Hm & Hd & Hc & Hr).
  simpl in Hok. rewrite Hm in Hok. bool_to_prop.
  pose proof (no_overflow_unbounded t Ht _ (hasty_type _ _ _ He) Hno) as Hu. pose proof He as He'. split_hasty Ht.
  split; [done|]. assert (Hf : in_srange 64 f) by (by eapply (const_int_in_range Γ t Ht m f)).
  split_den Hρ Ht.
  match goal with Hx : den ρ t x ?g, Hcf : den ρ t c ?h, Hdf : den ρ t d ?k, Hmf : den ρ t m ?l |- _ =>
    exists g; split; [exact Hx|];
    pose proof (simple_value_lanes Γ ρ t (f - 1) Hr c h Hc ltac:(assumption) (hasty_good Γ t c ltac:(assumption)) Hcf);
    pose proof (simple_value_lanes Γ ρ t f Hf d k Hd ltac:(assumption) (hasty_good Γ t d ltac:(assumption)) Hdf);
    pose proof (const_int_lanes ρ t m l f Hm Hmf)
  end.
  at_lane. rewrite ?norm_unbounded in * by assumption. by apply rounds_up.
Qed.

(** A constant of the operands, made again. *)
Lemma const_again e z : hasty Γ t e -> const_int e = Some z -> unbounded t = true ->
  builds Γ t (make_const t (Int64 z)) /\ computes ρ t (make_const t (Int64 z)) (fun _ => z).
Proof.
  intros He Hz Hu. split; [apply (builds_const Γ ρ t Ht), type_eqb_refl|].
  pose proof (computes_const Γ ρ t Ht t z (type_eqb_refl t)) as H.
  rewrite (wrap_in_range t Ht) in H; [done|done|by apply (const_int_in_range Γ t Ht e)].
Qed.

(** The quotient of two of them. *)
Lemma ratio_const ia ib : unbounded t = true -> in_srange (bits t) ia -> in_srange (bits t) ib -> ib <> - 2 ^ (bits t - 1) ->
  divides ia ib = Ok true ->
  exists q, ib = q * ia /\ builds Γ t (q ← c_quot64 ib ia; make_const t (Int64 q)) /\
    computes ρ t (q ← c_quot64 ib ia; make_const t (Int64 q)) (fun _ => q).
Proof.
  intros Hu Ha Hb Hmin Hd. pose proof (std_int_bits t Ht) as Hbits. destruct (divides_Ok _ _ Hd) as (Hz & k & Hk).
  exists k. split; [lia|]. split.
  - apply builds_bind. intros q _. apply (builds_const Γ ρ t Ht), type_eqb_refl.
  - apply computes_bind. intros q Hq. destruct (quot64_Ok (bits t) ib ia q) as [Hqk Hr]; try done.
    assert (q = k) as -> by nia. pose proof (computes_const Γ ρ t Ht t k (type_eqb_refl t)) as H.
    by rewrite (wrap_in_range t Ht) in H.
Qed.

(** ** The limits of the type *)

Lemma max_int_bits b : 0 < b <= 64 -> max_int b = 2 ^ (b - 1) - 1.
Proof.
  intros Hb. unfold max_int. rewrite Z.shiftr_div_pow2 by lia.
  replace 0x7fffffffffffffff with (2 ^ 63 - 1) by done. symmetry. apply Z.div_unique with (r := 2 ^ (64 - b) - 1).
  - pose proof (pow2_pos (64 - b)). lia.
  - replace (2 ^ 63) with (2 ^ (64 - b) * 2 ^ (b - 1)) by (rewrite <- Z.pow_add_r by lia; f_equal; lia). lia.
Qed.
Lemma max_uint_bits b : 0 < b <= 64 -> max_uint b = 2 ^ b - 1.
Proof.
  intros Hb. unfold max_uint. rewrite Z.shiftr_div_pow2 by lia.
  replace 0xffffffffffffffff with (2 ^ 64 - 1) by done. symmetry. apply Z.div_unique with (r := 2 ^ (64 - b) - 1).
  - pose proof (pow2_pos (64 - b)). lia.
  - replace (2 ^ 64) with (2 ^ (64 - b) * 2 ^ b) by (rewrite <- Z.pow_add_r by lia; f_equal; lia). lia.
Qed.

Lemma is_max_bound u z x : type_eqb u t = true -> in_srange 64 z -> is_max_int64 u z = true -> representable t x = true -> x <= z.
Proof.
  intros Hu Hz Hm Hx. destruct (eqb_class t Ht u Hu) as (Hi & Hui & _ & _ & Hb & _). pose proof (std_int_bits t Ht) as Hbits.
  unfold is_max_int64, is_max_uint64, representable in *. rewrite Hi, Hui, Hb in Hm. apply andb_true_iff in Hm as [Hp%Z.ltb_lt Hm].
  assert (Hw : uwrap 64 z = z) by (apply uwrap_id; unfold in_srange, in_urange in *; lia). rewrite Hw in Hm.
  destruct (is_int t).
  - rewrite max_int_bits in Hm by lia. apply bool_decide_eq_true in Hx. unfold in_srange in Hx. apply Z.eqb_eq in Hm as ->.
    pose proof (Z.pow_le_mono_r 2 (bits t - 1) 63 ltac:(lia) ltac:(lia)). pose proof (pow2_pos (bits t - 1)).
    rewrite uwrap_id; [lia|]. unfold in_urange. lia.
  - destruct (is_uint t); [|done]. rewrite max_uint_bits in Hm by lia. apply bool_decide_eq_true in Hx. unfold in_urange in Hx. lia.
Qed.

Lemma is_max_uint_bound u z x : type_eqb u t = true -> is_uint t = true -> is_max_uint64 u z = true -> representable t x = true -> x <= z.
Proof.
  intros Hu Hut Hm Hx. destruct (eqb_class t Ht u Hu) as (Hi & Hui & _ & _ & Hb & _). pose proof (std_int_bits t Ht) as Hbits.
  pose proof (uint_not_int t Hut) as Hni. unfold is_max_uint64, representable in *. rewrite Hi, Hui, Hb, Hni, Hut in Hm.
  rewrite Hni, Hut in Hx. rewrite max_uint_bits in Hm by lia. apply bool_decide_eq_true in Hx. unfold in_urange in Hx. lia.
Qed.

Lemma is_min_bound u z x : type_eqb u t = true -> is_min_int64 u z = true -> representable t x = true -> z <= x.
Proof.
  intros Hu Hm Hx. destruct (eqb_class t Ht u Hu) as (Hi & Hui & _ & _ & Hb & _). pose proof (std_int_bits t Ht) as Hbits.
  unfold is_min_int64, representable in *. rewrite Hi, Hui, Hb in Hm. destruct (is_int t).
  - unfold min_int in Hm. rewrite max_int_bits in Hm by lia. apply bool_decide_eq_true in Hx. unfold in_srange in Hx. lia.
  - destruct (is_uint t); [|done]. apply bool_decide_eq_true in Hx. unfold in_urange in Hx. lia.
Qed.

Lemma const_uint_class e u : hasty Γ t e -> const_uint e = Some u -> is_uint t = true.
Proof.
  intros He Hc. destruct (eqb_class t Ht _ (hasty_type _ _ _ He)) as (_ & <- & _).
  unfold const_uint in Hc. destruct (is_vector (type e)) eqn:Hv; [done|].
  pose proof (hasty_good _ _ _ He) as [Hwf Hty _]. destruct e; try done.
  - destruct Hwf as [[Hw _] _]. apply andb_true_iff in Hw as [Hw _]. by apply andb_true_iff in Hw as [Hw _].
  - exfalso. destruct Hwf as [[_ Hl] _], Hty as [_ Hlt]. simpl in Hv. unfold is_vector in Hv. simpl in Hv.
    rewrite small_lanes in Hv by done. bool_to_prop. done.
Qed.

Lemma uint_representable x : is_uint t = true -> in_type t x -> representable t x = true.
Proof. intros Hu [Hx|Hx]; [|done]. unfold unbounded in Hx. by rewrite (uint_not_int t Hu) in Hx. Qed.

Lemma not_min_int u z : type_eqb u t = true -> is_int t = true -> is_min_int64 u z = false -> z <> - 2 ^ (bits t - 1).
Proof.
  intros Hu Hit Hm. destruct (eqb_class t Ht u Hu) as (Hi & _ & _ & _ & Hb & _). pose proof (std_int_bits t Ht) as Hbits.
  unfold is_min_int64, min_int in Hm. rewrite Hi, Hit, Hb, max_int_bits in Hm by lia. lia.
Qed.

Lemma uint_nonneg x : is_uint t = true -> in_type t x -> 0 <= x.
Proof.
  intros Hut Hx. pose proof (uint_not_int t Hut) as Hni. unfold in_type, unbounded, representable in Hx. rewrite Hni, Hut in Hx.
  destruct Hx as [Hx|Hx]; [done|]. apply bool_decide_eq_true in Hx. unfold in_urange in Hx. lia.
Qed.

(** A value of the type is one of its machine values, unless the type is taken not to
    overflow; then it is a condition that it did not. *)
Definition fits (e : Expr) : Prop := unbounded t = true -> forall f, den ρ t e f ->
  forall i, (i < nlanes t)%nat -> in_srange (bits t) (f i).

Lemma fits_lanes e f : hasty Γ t e -> den ρ t e f -> fits e -> forall i, (i < nlanes t)%nat -> representable t (f i) = true.
Proof.
  intros He Hf Hfit i Hi. pose proof Hf as Hv. unfold den in Hv.
  destruct (den_intro Γ ρ Hρ t Ht e _ He Hv) as (f' & Hf' & _ & Hin).
  rewrite (den_same ρ t e f f' Hf Hf' i Hi). destruct (Hin i Hi) as [Hu|Hr]; [|done]. specialize (Hfit Hu f' Hf' i Hi).
  unfold unbounded in Hu. apply andb_true_iff in Hu as [Hu _]. unfold representable. rewrite Hu. by apply bool_decide_eq_true.
Qed.

Lemma same_lanes x y f g : eval Ideal ρ x = eval Ideal ρ y -> den ρ t x f -> den ρ t y g ->
  forall i, (i < nlanes t)%nat -> f i = g i.
Proof. unfold den. intros He Hf Hg. rewrite He, Hg in Hf. apply tab_eq. congruence. Qed.

(** ** What the rules build *)

Lemma builds_choose c a b : good Γ c -> is_bool (type c) = true ->
  is_scalar (type c) || (lanes (type c) =? lanes t) = true -> builds Γ t a -> builds Γ t b -> builds Γ t (choose c a b).
Proof.
  intros Hc Hb Hl Ha Hb' e He. unfold choose in He. apply bind_Ok in He as (x & Hx & He). apply bind_Ok in He as (y & Hy & He).
  pose proof (condition_const c (good_wf _ _ Hc) Hb) as Hn. rewrite (select_same Γ t Ht) in He by auto.
  destruct (select_hasty Γ t Ht c x y Hc (Ha _ Hx) (Hb' _ Hy) Hb Hl) as [Hs Hh]. rewrite Hs in He. by injection He as <-.
Qed.
Lemma computes_choose c a b p f g : good Γ c -> is_bool (type c) = true ->
  is_scalar (type c) || (lanes (type c) =? lanes t) = true -> builds Γ t a -> builds Γ t b ->
  picks ρ t c p -> computes ρ t a f -> computes ρ t b g -> computes ρ t (choose c a b) (fun i => if p i then f i else g i).
Proof.
  intros Hc Hb Hl Ha Hb' Hp Hf Hg e He. unfold choose in He. apply bind_Ok in He as (x & Hx & He). apply bind_Ok in He as (y & Hy & He).
  pose proof (condition_const c (good_wf _ _ Hc) Hb) as Hn. rewrite (select_same Γ t Ht) in He by auto.
  destruct (select_hasty Γ t Ht c x y Hc (Ha _ Hx) (Hb' _ Hy) Hb Hl) as [Hs _]. rewrite Hs in He. injection He as <-.
  apply (den_select ρ t Ht); auto.
Qed.

(** A rule that mutates a part of what it builds. *)
Lemma into_rewrites e r k : hasty Γ t e -> builds Γ t r ->
  (forall y, hasty Γ t y -> builds Γ t (k (eref y))) ->
  (forall F, den ρ t e F -> (forall i, (i < nlanes t)%nat -> in_type t (F i)) ->
     exists G, computes ρ t r G /\ forall y, hasty Γ t y -> den ρ t y G ->
       exists H, computes ρ t (k (eref y)) H /\ forall i, (i < nlanes t)%nat -> F i = H i) ->
  action_ok Γ ρ e (MutateInto r k).
Proof.
  intros He Hr Hk Hv x Hx. pose proof (Hr x Hx) as Hhx. split; [by apply (hasty_good Γ t)|].
  intros y e' Hgy Hty He'. assert (Hy : hasty Γ t y) by (split; [done|]; by eapply type_eqb_trans; [|eapply hasty_type]).
  pose proof (Hk y Hy e' He') as Hhe'. split; [by apply (hasty_good Γ t)|]. split.
  - eapply type_eqb_trans_std; [exact Ht|by eapply hasty_type..].
  - intros Hxy v Hev. destruct (den_intro Γ ρ Hρ t Ht e v He Hev) as (F & HF & -> & Hin).
    destruct (Hv F HF Hin) as (G & HG & Hkv). pose proof (HG x Hx) as Hdx.
    destruct (Hkv y Hy (Hxy _ Hdx)) as (H & HH & Heq). pose proof (HH e' He') as Hde. unfold den in Hde. rewrite Hde.
    f_equal. apply tab_eq. intros i Hi. by rewrite Heq.
Qed.

(** ** Rules common to both visits *)

(** An extremum is one of the operands. *)
Definition extremum (op : binop) (pick : Z -> Z -> Z) : Prop :=
  arith op = true /\ (forall z, defd op z) /\ (forall u x y, iop u op x y = pick x y) /\ forall x y, pick x y = x \/ pick x y = y.

Lemma extremum_min : extremum Min Z.min.
Proof. split; [done|]. split; [done|]. split; [done|]. intros x y. lia. Qed.
Lemma extremum_max : extremum Max Z.max.
Proof. split; [done|]. split; [done|]. split; [done|]. intros x y. lia. Qed.

Lemma wrap_int z : is_int t = true -> in_srange (bits t) z -> wrap_type t z = z.
Proof. intros Hi Hz. unfold wrap_type. rewrite Hi. apply swrap_id; [by apply (std_int_bits t Ht)|done]. Qed.

Section Keep.
Context (op : binop) (pick : Z -> Z -> Z) (Hop : extremum op pick).
Context (a b : Expr) (Ha : hasty Γ t a) (Hb : hasty Γ t b).

(** Answering with one of the operands. *)
Lemma keep_left : (forall f g, den ρ t a f -> den ρ t b g -> forall i, (i < nlanes t)%nat -> pick (f i) (g i) = f i) ->
  action_ok Γ ρ (Bin op a b) (Result a).
Proof.
  destruct Hop as (Harith & _ & Hv & _). intros Hk. cbn [action_ok].
  eapply (rule_rewrites _ _ Hρ _ Ht); [by apply hasty_bin|by apply builds_expr|]. intros F HF _.
  eapply (den_bin_lanes _ _ Hρ _ Ht) in HF as (f & g & Hf & Hg & HF); [|done..].
  exists f. split; [by apply computes_expr|]. intros i Hi. destruct (HF i Hi) as (_ & _ & _ & ->). rewrite Hv. by apply Hk.
Qed.
Lemma keep_right : (forall f g, den ρ t a f -> den ρ t b g -> forall i, (i < nlanes t)%nat -> pick (f i) (g i) = g i) ->
  action_ok Γ ρ (Bin op a b) (Result b).
Proof.
  destruct Hop as (Harith & _ & Hv & _). intros Hk. cbn [action_ok].
  eapply (rule_rewrites _ _ Hρ _ Ht); [by apply hasty_bin|by apply builds_expr|]. intros F HF _.
  eapply (den_bin_lanes _ _ Hρ _ Ht) in HF as (f & g & Hf & Hg & HF); [|done..].
  exists g. split; [by apply computes_expr|]. intros i Hi. destruct (HF i Hi) as (_ & _ & _ & ->). rewrite Hv. by apply Hk.
Qed.
End Keep.

(** What the bounds of an operand say of its lanes. *)
Definition bounded_by (info : Scope bounds) (e : Expr) : Prop := forall lo hi f,
  const_int_bounds info e = Ok (Some (lo, hi)) -> den ρ t e f -> forall i, (i < nlanes t)%nat -> lo <= f i <= hi.

Lemma broadcast_const_lanes value l ic : hasty Γ t (Broadcast value l) -> const_int value = Some ic ->
  forall g, den ρ t (Broadcast value l) g -> forall i, (i < nlanes t)%nat -> g i = ic.
Proof.
  intros Hb Hic g Hg. destruct (hasty_broadcast Γ t Ht _ _ Hb) as (_ & -> & _).
  destruct (den_broadcast_inv _ _ Hρ _ Ht _ _ _ Hb Hg) as (h & Hh & _ & L).
  intros i Hi. rewrite L by done. apply (const_int_lanes ρ _ _ _ _ Hic Hh). rewrite (element_lanes t Ht). lia.
Qed.

Lemma extremum_fold op pick a b : extremum op pick -> hasty Γ t a -> hasty Γ t b ->
  Forall (rule_ok Γ ρ (Bin op a b)) [
    on_const (const_int a) (fun ia => on_const (const_int b) (fun ib => Some (Result (IntImm_make t (pick ia ib)))));
    on_const (const_uint a) (fun ua => on_const (const_uint b) (fun ub => Some (Result (UIntImm_make t (pick ua ub)))))].
Proof.
  intros (Hop & _ & Hv & Hpick) Ha Hb.
  repeat (apply Forall_cons; split); [..|by apply Forall_nil]; intros act Hact; rule_action Hact act; cbn [action_ok]; intros e' He'.
  - match goal with Hia : const_int a = Some ?ia, Hib : const_int b = Some ?ib |- _ =>
      destruct (const_int_in_range Γ t Ht a ia Ha Hia) as (Hra & _ & Hi), (const_int_in_range Γ t Ht b ib Hb Hib) as (Hrb & _) end.
    refine (proj1 (imm_rewrites Γ ρ Hρ t Ht op a b _ t Hop Ha Hb (type_eqb_refl t) (or_introl Hi) _) e' He').
    intros F HF. eapply (den_bin_lanes _ _ Hρ _ Ht) in HF as (f & g & Hf & Hg & HF); [|done..]. intros i Hl.
    destruct (HF i Hl) as (_ & _ & _ & ->). rewrite Hv.
    erewrite (const_int_lanes ρ t a f), (const_int_lanes ρ t b g) by eassumption. symmetry. apply wrap_int; [done|].
    by match goal with |- in_srange _ (pick ?x ?y) => destruct (Hpick x y) as [-> | ->] end.
  - assert (Hu : is_uint t = true).
    { unfold UIntImm_make in He'. apply bind_Ok in He' as (? & H' & _). by apply internal_assert_Ok, andb_true_iff in H' as [H' _]. }
    refine (proj2 (imm_rewrites Γ ρ Hρ t Ht op a b _ t Hop Ha Hb (type_eqb_refl t) (or_intror Hu) _) e' He').
    intros F HF. eapply (den_bin_lanes _ _ Hρ _ Ht) in HF as (f & g & Hf & Hg & HF); [|done..]. intros i Hl.
    destruct (HF i Hl) as (Hif & Hig & _ & ->). rewrite Hv.
    erewrite (const_uint_lanes ρ t a f) in Hif |- * by eassumption. erewrite (const_uint_lanes ρ t b g) in Hig |- * by eassumption.
    symmetry. apply representable_wrap. match goal with |- representable _ (pick ?x ?y) = _ => destruct (Hpick x y) as [-> | ->] end;
      by apply uint_representable.
Qed.

Lemma extremum_broadcast op nm pick a b : extremum op pick -> hasty Γ t a -> hasty Γ t b ->
  rule_ok Γ ρ (Bin op a b) (on_broadcast a (fun value_a lanes_a => on_broadcast b (fun value_b _ =>
    Some (Mutate (v ← on2 (binary_make op nm) value_a value_b; Broadcast_make (eref v) lanes_a))))).
Proof.
  intros (Hop & Hd & Hv & _) Ha Hb act Hact. apply on_broadcast_Some in Hact as (x & l & -> & Hact).
  apply on_broadcast_Some in Hact as (y & l' & -> & [= <-]). cbn [action_ok]. pose proof (std_element t Ht) as Hte.
  destruct (hasty_broadcast Γ t Ht _ _ Ha) as (Hx & -> & Hl), (hasty_broadcast Γ t Ht _ _ Hb) as (Hy & -> & _).
  assert (Hxy : builds Γ (element_of t) (on2 (binary_make op nm) x y))
    by (eapply builds_on2; [done|by apply joins_make|done|by apply builds_expr..]).
  eapply (rule_rewrites _ _ Hρ _ Ht); [by apply hasty_bin|by apply builds_broadcast|].
  intros F HF _. eapply (den_bin_lanes _ _ Hρ _ Ht) in HF as (f & g & Hfa & Hfb & HF); [|done..].
  split_broadcast Hρ Ht Ha Hfa. split_broadcast Hρ Ht Hb Hfb.
  eexists. split.
  - apply (computes_broadcast Γ); [exact Ht|exact Hl|done|].
    eapply (computes_on2 Γ ρ _ Hte); [by apply joins_make|done|by apply builds_expr..|by apply computes_expr|by apply computes_expr|done].
  - at_lane. rewrite ?Hv in *. congruence.
Qed.
End Extremum.

(** A rule that mutates an extremum and builds on what comes back: what is left is the
    equation of a lane. *)
Ltac as_on2 :=
  cbv beta;
  lazymatch goal with
  | |- builds ?Γ ?t (?op (eref ?x) (eref ?y)) => change (builds Γ t (on2 op (built_expr x) (built_expr y)))
  | |- computes ?ρ ?t (?op (eref ?x) (eref ?y)) ?f => change (computes ρ t (on2 op (built_expr x) (built_expr y)) f)
  end.
Ltac into_rule Hρ HE Ht :=
  let F := fresh "F" in let HF := fresh "HF" in let Hin := fresh "Hin" in
  let y := fresh "y" in let Hy := fresh "Hy" in let Hdy := fresh "Hdy" in
  eapply (into_rewrites _ _ Hρ _ Ht); [hasty_auto Ht|solve [build Ht]|intros y Hy; as_on2; solve [build Ht]|];
  intros F HF Hin;
  eapply (den_bin_lanes _ _ Hρ _ Ht) in HF; [|reflexivity|hasty_auto Ht..]; destruct HF as (? & ? & ? & ? & HF);
  split_den Hρ Ht; test_facts HE Ht;
  eexists; split; [compute_lanes Ht|];
  intros y Hy Hdy; eexists; split; [as_on2; compute_lanes Ht|at_lane].

(** The left operand is one of the machine's values. *)
Ltac limit_rule Hρ HE Ht a :=
  try match goal with H : const_int _ = Some _, Hb : hasty _ _ _ |- _ => destruct (const_int_in_range _ _ Ht _ _ Hb H) as (_ & ? & _) end;
  lanes_of_rule Hρ HE Ht;
  match goal with Hl : forall f, den _ _ a f -> _, Hd : den _ _ a ?f, Hf : fits _ _ a, Hi : (?i < _)%nat |- _ => pose proof (Hl f Hd Hf i Hi) end.

(** The factor a rule takes out, as a constant; the two signs it may have. *)
Ltac scale_const ρ Ht Hd Hc :=
  let Hu := fresh "Hu" in let Hb := fresh "Hbuild" in let Hv := fresh "Hcompute" in
  match goal with H : no_overflow ?t = true |- _ => pose proof (no_overflow_unbounded t Ht t (type_eqb_refl t) H) as Hu end;
  destruct (const_again _ ρ _ Ht _ _ Hd Hc Hu) as [Hb Hv];
  match goal with |- context [0 <? ?d] => destruct (0 <? d) eqn:? end.
Ltac by_sign lem :=
  rewrite ?norm_unbounded in * by assumption; rewrite lem by assumption;
  match goal with H : (0 <? _) = _ |- _ => rewrite H end; reflexivity.

(** The likely operand and the other one have the same lanes. *)
Ltac likely_lanes Hρ HE Ht a b :=
  let Hab := fresh "Hab" in
  match type of HE with EqualityTest ?Γ ?ρ ?equal =>
    assert (Hab : eval Ideal ρ a = eval Ideal ρ b)
      by (etransitivity; [by eauto|]; eapply (equal_conditions Γ ρ equal); eauto using hasty_good);
    lanes_of_rule Hρ HE Ht; rewrite (same_lanes ρ _ a b _ _ Hab ltac:(eassumption) ltac:(eassumption)) by assumption; lia
  end.
