(* ===== verification/SimplifyMin.v ===== *)
(** The simplifier's visit of [Min] (src/src/Simplify.cpp): the early answers from
    constants and bounds, the chain of rules, and the proof that each of them keeps the
    value of a minimum of integers. *)

From Stdlib Require Import ZArith Lia Bool SpecFloat String.
From stdpp Require Import prelude strings gmap.
From S2P Require Import Prelude Types IR Semantics Scope Operators ModulusRemainder Mutator Equality EqualityMeaning Interval ConstBounds Monotonic Lanes Conditions Simplify SimplifyRules SimplifyQuotient SimplifyExtremum.

#[local] Open Scope Z_scope.
#[local] Open Scope halide_scope.

(** Constants, broadcasts and maxima to the right. *)
Definition min_swap (a b : Expr) : bool :=
  if is_simple_const a && negb (is_simple_const b) then true
  else if is_broadcast a && negb (is_broadcast b) then true
  else negb (is_bin Max a) && is_bin Max b.

Section Rules.
Context (equal : ExprRef -> ExprRef -> bool).
Context (t : Ty) (a b : Expr).

(** Equal operands, constants, and the limits of the type. *)
Definition min_const_rules : list rule := [
  when (equal (eref a) (eref b)) (Result a);
  on_const (const_int a) (fun ia => on_const (const_int b) (fun ib =>
    Some (Result (IntImm_make t (Z.min ia ib)))));
  on_const (const_uint a) (fun ua => on_const (const_uint b) (fun ub =>
    Some (Result (UIntImm_make t (Z.min ua ub)))));
  on_const (const_float a) (fun fa => on_const (const_float b) (fun fb =>
    Some (Result (FloatImm_make t (if SFltb fb fa then fb else fa)))));
  on_const (const_int b) (fun ib => when (is_max_int64 (type b) ib) (Result a));
  on_const (const_int b) (fun ib => when (is_min_int64 (type b) ib) (Result b));
  on_const (const_uint b) (fun ub => when (is_max_uint64 (type b) ub) (Result a));
  when (is_uint t && is_zero b) (Result b);
  on_broadcast a (fun value_a lanes_a => on_broadcast b (fun value_b _ =>
    Some (Mutate (v ← on2 Min_make value_a value_b; Broadcast_make (eref v) lanes_a))))
].

(** A ramp that stays on one side of a constant. *)
Definition min_ramp (info : Scope bounds) : res rule :=
  match a, b with
  | Ramp _ _ _, Broadcast value _ =>
      if no_overflow t then
        bounds_ramp ← const_int_bounds info a;
        match bounds_ramp, const_int value with
        | Some (ramp_min, ramp_max), Some ic =>
            Ok (if (ramp_min <=? ic) && (ramp_max <=? ic) then Some (Result a)
                else when ((ic <=? ramp_min) && (ic <=? ramp_max)) (Result b))
        | _, _ => Ok None
        end
      else Ok None
  | _, _ => Ok None
  end.

(** Operands whose bounds do not cross; the ramp is tried when one has none. *)
Definition min_bounded (info : Scope bounds) : res rule :=
  bounds_a ← const_int_bounds info a;
  bounds_b ← (match bounds_a with Some _ => const_int_bounds info b | None => Ok None end);
  match bounds_a, bounds_b with
  | Some (a_min, a_max), Some (b_min, b_max) =>
      Ok (if b_max <=? a_min then Some (Result b) else when (a_max <=? b_min) (Result a))
  | _, _ => min_ramp info
  end.

(** The cases of the visit that return. *)
Definition min_early (info : Scope bounds) : res rule :=
  _ ← is_round_up a;
  _ ← is_round_up b;
  match first_rule min_const_rules with
  | Some act => Ok (Some act)
  | None => min_bounded info
  end.

(** Terms that differ by a constant. *)
Definition min_offset_rules : list rule := [
  on_bin Add a (fun xa ca => on_const (const_int ca) (fun ia =>
    on_bin Add b (fun xb cb => on_const (const_int cb) (fun ib =>
      when (no_overflow t && equal (eref xa) (eref xb)) (Result (if ib <? ia then b else a))))));
  on_bin Add a (fun x c => on_const (const_int c) (fun ia =>
    when (no_overflow t && equal (eref x) (eref b)) (Result (if 0 <? ia then b else a))));
  on_bin Add b (fun x c => on_const (const_int c) (fun ib =>
    when (no_overflow t && equal (eref x) (eref a)) (Result (if 0 <? ib then a else b))));
  on_bin Sub a (fun ca xa => on_bin Sub b (fun cb xb =>
    on_const (const_int ca) (fun ia => on_const (const_int cb) (fun ib =>
      when (no_overflow t && equal (eref xa) (eref xb)) (Result (if ia <? ib then a else b))))))
].

(** An operand that rounds the other up. *)
Definition min_round_up_rules (a_round_up b_round_up : option (Expr * Z)) : list rule := [
  on_const a_round_up (fun '(x, _) => when (equal (eref x) (eref b)) (Result b));
  on_const a_round_up (fun '(x, factor) => on_bin Max b (fun b1 b2 =>
    when (equal (eref x) (eref b1) && is_const_value b2 factor) (Result b)));
  on_const b_round_up (fun '(x, _) => when (equal (eref x) (eref a)) (Result a));
  on_const b_round_up (fun '(x, factor) => on_bin Max a (fun a1 a2 =>
    when (equal (eref x) (eref a1) && is_const_value a2 factor) (Result a)))
].

(** Extrema that hold the other operand. *)
Definition min_nested_rules : list rule := [
  on_bin Max a (fun _ y => when (equal (eref y) (eref b)) (Result b));
  on_bin Min a (fun x y => when (equal (eref y) (eref b) || equal (eref x) (eref b)) (Result a));
  on_bin Min b (fun x y => when (equal (eref y) (eref a) || equal (eref x) (eref a)) (Result b));
  on_bin Min a (fun x a2 => on_broadcast a2 (fun y _ => on_broadcast b (fun z lanes =>
    Some (Mutate (on2 Min_make x (v ← on2 Min_make y z; Broadcast_make (eref v) lanes))))));
  on_bin Min a (fun a1 _ => on_bin Min a1 (fun _ y => when (equal (eref y) (eref b)) (Result a)));
  on_bin Min a (fun a1 _ => on_bin Min a1 (fun a2 _ => on_bin Min a2 (fun _ y =>
    when (equal (eref y) (eref b)) (Result a))));
  on_bin Min a (fun a1 _ => on_bin Min a1 (fun a2 _ => on_bin Min a2 (fun a3 _ => on_bin Min a3 (fun _ y =>
    when (equal (eref y) (eref b)) (Result a)))))
].

(** A term common to two extrema. *)
Definition min_distribute_rules : list rule := [
  on_bin Max a (fun a1 a2 => on_bin Max b (fun b1 b2 =>
    when (equal (eref a1) (eref b1)) (Mutate (on2 Max_make (on2 Min_make a2 b2) a1))));
  on_bin Max a (fun a1 a2 => on_bin Max b (fun b1 b2 =>
    when (equal (eref a1) (eref b2)) (Mutate (on2 Max_make (on2 Min_make a2 b1) a1))));
  on_bin Max a (fun a1 a2 => on_bin Max b (fun b1 b2 =>
    when (equal (eref a2) (eref b1)) (Mutate (on2 Max_make (on2 Min_make a1 b2) a2))));
  on_bin Max a (fun a1 a2 => on_bin Max b (fun b1 b2 =>
    when (equal (eref a2) (eref b2)) (Mutate (on2 Max_make (on2 Min_make a1 b1) a2))));
  on_bin Min a (fun a1 a2 => on_bin Min b (fun b1 b2 =>
    when (equal (eref a1) (eref b1)) (Mutate (on2 Min_make (on2 Min_make a2 b2) a1))));
  on_bin Min a (fun a1 a2 => on_bin Min b (fun b1 b2 =>
    when (equal (eref a1) (eref b2)) (Mutate (on2 Min_make (on2 Min_make a2 b1) a1))));
  on_bin Min a (fun a1 a2 => on_bin Min b (fun b1 b2 =>
    when (equal (eref a2) (eref b1)) (Mutate (on2 Min_make (on2 Min_make a1 b2) a2))));
  on_bin Min a (fun a1 a2 => on_bin Min b (fun b1 b2 =>
    when (equal (eref a2) (eref b2)) (Mutate (on2 Min_make (on2 Min_make a1 b1) a2))));
  on_bin Max a (fun m z => on_bin Min m (fun x y =>
    when (equal (eref y) (eref b)) (Mutate (on2 min (on2 max x z) b))));
  on_bin Max a (fun m z => on_bin Min m (fun y x =>
    when (equal (eref y) (eref b)) (Mutate (on2 min (on2 max x z) b))))
].

(** Sums with a common term: the minimum of the others is mutated first. *)
Definition min_add_rules : list rule := [
  on_bin Add a (fun a1 a2 => on_bin Add b (fun b1 b2 =>
    when (no_overflow t && equal (eref a2) (eref b2)) (MutateInto (on2 min a1 b1) (fun m => operator_add m (eref a2)))));
  on_bin Add a (fun a1 a2 => on_bin Add b (fun b1 b2 =>
    when (no_overflow t && equal (eref a1) (eref b1)) (MutateInto (on2 min a2 b2) (fun m => operator_add m (eref a1)))));
  on_bin Add a (fun a1 a2 => on_bin Add b (fun b1 b2 =>
    when (no_overflow t && equal (eref a1) (eref b2)) (MutateInto (on2 min a2 b1) (fun m => operator_add m (eref a1)))));
  on_bin Add a (fun a1 a2 => on_bin Add b (fun b1 b2 =>
    when (no_overflow t && equal (eref a2) (eref b1)) (MutateInto (on2 min a1 b2) (fun m => operator_add m (eref a2)))));
  on_bin Min a (fun x c =>
    when (is_simple_const c)
      (if is_simple_const b then MutateInto (on2 Min_make b c) (fun m => Min_make (eref x) m)
       else Mutate (on2 Min_make (on2 Min_make x b) c)))
].

(** Quotients by one constant, and multiples of one constant. *)
Definition min_scale_rules : list rule := [
  on_bin Div a (fun na da => on_bin Div b (fun nb db =>
    on_const (const_int da) (fun ia => on_const (const_int db) (fun ib =>
      when (no_overflow t && negb (ia =? 0) && (ia =? ib))
        (Mutate ((if 0 <? ia then on2 min na nb else on2 max na nb) /' make_const t (Int64 ia)))))));
  on_bin Mul a (fun na da => on_bin Mul b (fun nb db =>
    on_const (const_int da) (fun ia => on_const (const_int db) (fun ib =>
      when (no_overflow t && (ia =? ib))
        (Mutate ((if 0 <? ia then on2 min na nb else on2 max na nb) *' make_const t (Int64 ia)))))));
  on_bin Mul a (fun x d => on_const (const_int d) (fun ia => on_const (const_int b) (fun ib =>
    if no_overflow t && negb (ia =? 0) then
      when_ub (divides ia ib)
        (let ratio := q ← c_quot64 ib ia; make_const t (Int64 q) in
         Mutate ((if 0 <? ia then on2 min x ratio else on2 max x ratio) *' make_const t (Int64 ia)))
    else None)))
].

(** Likely operands, a constant minus a term, and selections on one condition. *)
Definition min_other_rules : list rule := [
  on_likely a (fun x => when (equal (eref x) (eref b)) (Result a));
  on_likely b (fun x => when (equal (eref x) (eref a)) (Result b));
  on_bin Sub a (fun c x =>
    when (no_overflow t && is_const c && is_const b) (Mutate (c -' on2 max x (c -' b))));
  on_select a (fun c_a t_a f_a => on_select b (fun c_b t_b f_b =>
    when (equal (eref c_a) (eref c_b)) (Mutate (choose c_a (on2 min t_a t_b) (on2 min f_a f_b)))))
].

Definition min_rules (a_round_up b_round_up : option (Expr * Z)) : list rule :=
  min_offset_rules ++ min_round_up_rules a_round_up b_round_up ++ min_nested_rules ++ min_distribute_rules ++
  min_add_rules ++ min_scale_rules ++ min_other_rules.
End Rules.

Definition visit_Min (same_as equal : ExprRef -> ExprRef -> bool) (mutate : Expr -> mut Simplify ExprRef)
    (op op_a op_b : Expr) : mut Simplify ExprRef :=
  visit_known same_as mutate min_swap
    (fun a b s => min_early equal (type op) a b (bounds_info s))
    (fun a b s => a_round_up ← is_round_up a; b_round_up ← is_round_up b;
                  Ok (min_rules equal (type op) a b a_round_up b_round_up))
    Min_make op op_a op_b.

(** * Every rule keeps the value *)

(** What the analyses know is right where they are exact; the operands of a comparison
    with a limit of the type did not overflow; an operand that rounds up does so by a
    positive factor and does not meet a maximum. *)
Record min_safe (ρ : env) (s : Simplify) (t : Ty) (a b : Expr) : Prop := {
  known_left : mods_exact (bounds_info s) a = true;
  known_right : mods_exact (bounds_info s) b = true;
  safe_limit : forall ib, const_int b = Some ib -> is_max_int64 (type b) ib || is_min_int64 (type b) ib = true -> fits ρ t a;
  safe_round_up : forall e r, e = a \/ e = b -> is_round_up e = Ok (Some r) ->
    round_up_ok e = true /\ is_bin Max a = false /\ is_bin Max b = false;
  safe_likely : likely_ok a && likely_ok b = true
}.

Section Sound.
Context (equal : ExprRef -> ExprRef -> bool).
Context (Γ : gmap string Ty) (ρ : env) (Hρ : env_ok Ideal Γ ρ).
Context (HE : EqualityTest Γ ρ equal).
Context (t : Ty) (Ht : std_int t).

(** A rule that keeps one operand or rearranges extrema, under any type. *)
Ltac min_rule :=
  let act := fresh "act" in let Hact := fresh "Hact" in
  intros act Hact; rule_action Hact act; split_bools; split_hasty Ht; lanes_of_rule Hρ HE Ht; lia.
Ltac mins := repeat (apply Forall_cons; split; [min_rule|]); by apply Forall_nil.

Lemma min_limit_right a b : hasty Γ t a -> hasty Γ t b ->
  (forall ib, const_int b = Some ib -> is_max_int64 (type b) ib || is_min_int64 (type b) ib = true -> fits ρ t a) ->
  Forall (rule_ok Γ ρ (Bin Min a b)) [
    on_const (const_int b) (fun ib => when (is_max_int64 (type b) ib) (Result a));
    on_const (const_int b) (fun ib => when (is_min_int64 (type b) ib) (Result b));
    on_const (const_uint b) (fun ub => when (is_max_uint64 (type b) ub) (Result a));
    when (is_uint t && is_zero b) (Result b)].
Proof.
  intros Ha Hb Hfit. pose proof (hasty_type _ _ _ Hb) as Hu.
  pose proof (fun f => fits_lanes Γ ρ Hρ t Ht a f Ha) as Hlanes.
  repeat (apply Forall_cons; split); [..|by apply Forall_nil]; intros act Hact; rule_action Hact act; split_bools.
  - assert (Hfa : fits ρ t a) by (eapply Hfit; [eassumption|by rewrite orb_true_iff; left]).
    limit_rule Hρ HE Ht a. apply Z.min_l. by eapply (is_max_bound t Ht (type b)).
  - assert (Hfa : fits ρ t a) by (eapply Hfit; [eassumption|by rewrite orb_true_iff; right]).
    limit_rule Hρ HE Ht a. apply Z.min_r. by eapply (is_min_bound t Ht (type b)).
  - match goal with H : const_uint b = Some _ |- _ => pose proof (const_uint_class Γ t Ht b _ Hb H) as Hut end.
    lanes_of_rule Hρ HE Ht. apply Z.min_l. by eapply (is_max_uint_bound t Ht (type b)), uint_representable.
  - lanes_of_rule Hρ HE Ht. apply Z.min_r. by eapply (uint_nonneg t).
Qed.

Lemma min_const_right a b : hasty Γ t a -> hasty Γ t b ->
  (forall ib, const_int b = Some ib -> is_max_int64 (type b) ib || is_min_int64 (type b) ib = true -> fits ρ t a) ->
  Forall (rule_ok Γ ρ (Bin Min a b)) (min_const_rules equal t a b).
Proof.
  intros Ha Hb Hfit. unfold min_const_rules. apply Forall_cons; split; [min_rule|].
  pose proof (extremum_fold Γ ρ Hρ t Ht Min Z.min a b extremum_min Ha Hb) as Hfold.
  apply Forall_cons in Hfold as [Hi Hfold]. apply Forall_cons in Hfold as [Hu _].
  apply Forall_cons; split; [exact Hi|]. apply Forall_cons; split; [exact Hu|]. apply Forall_cons; split.
  { intros act Hact. apply on_const_Some in Hact as (fa & _ & Hact). apply on_const_Some in Hact as (fb & _ & [= <-]).
    intros e' He'. by apply (FloatImm_no t Ht _ _ _ (type_eqb_refl t)) in He'. }
  pose proof (min_limit_right a b Ha Hb Hfit) as Hlimit. rewrite !Forall_cons in Hlimit. destruct Hlimit as (? & ? & ? & ? & _).
  repeat (apply Forall_cons; split; [assumption|]). apply Forall_cons; split; [|by apply Forall_nil].
  apply (extremum_broadcast Γ ρ Hρ t Ht Min "Min" Z.min); [apply extremum_min|done..].
Qed.

Lemma min_offset_right a b : hasty Γ t a -> hasty Γ t b -> Forall (rule_ok Γ ρ (Bin Min a b)) (min_offset_rules equal t a b).
Proof.
  intros Ha Hb. repeat (apply Forall_cons; split); [..|by apply Forall_nil];
    intros act Hact; rule_action Hact act; split_bools; split_hasty Ht;
    match goal with |- action_ok _ _ _ (Result (if ?c then _ else _)) => destruct c eqn:? end; bool_to_prop;
    lanes_of_rule Hρ HE Ht; exact_lane.
Qed.

Lemma min_broadcast_right a b : hasty Γ t a -> hasty Γ t b ->
  rule_ok Γ ρ (Bin Min a b)
    (on_bin Min a (fun x a2 => on_broadcast a2 (fun y _ => on_broadcast b (fun z lanes =>
      Some (Mutate (on2 Min_make x (v ← on2 Min_make y z; Broadcast_make (eref v) lanes))))))).
Proof.
  intros Ha Hb act Hact. apply on_bin_Some in Hact as (x & a2 & -> & Hact). apply on_broadcast_Some in Hact as (y & l & -> & Hact).
  apply on_broadcast_Some in Hact as (z & l' & -> & [= <-]). cbn [action_ok]. pose proof (std_element t Ht) as Hte.
  apply hasty_bin in Ha as [Hx Ha]; [|done..].
  destruct (hasty_broadcast Γ t Ht _ _ Ha) as (Hy & -> & Hl), (hasty_broadcast Γ t Ht _ _ Hb) as (Hz & -> & _).
  assert (Hyz : builds Γ (element_of t) (on2 Min_make y z)) by build Hte.
  assert (Hv : builds Γ t (v ← on2 Min_make y z; Broadcast_make (eref v) (lanes t))) by (by apply builds_broadcast).
  eapply (rule_rewrites _ _ Hρ _ Ht); [hasty_auto Ht|build Ht|].
  operands_of_rule Hρ Ht Hfa Hfb. eapply (den_bin_lanes _ _ Hρ _ Ht) in Hfa as (? & ? & ? & Hfa & ?); [|done..].
  split_broadcast Hρ Ht Ha Hfa. split_broadcast Hρ Ht Hb Hfb.
  eexists. split.
  - eapply (computes_on2 Γ ρ t Ht); [by apply joins_Min_make|done|by apply builds_expr|exact Hv|by apply computes_expr| |done].
    apply (computes_broadcast Γ); [exact Ht|exact Hl|done|]. compute_lanes Hte.
  - at_lane. lia.
Qed.

Lemma min_nested_right a b : hasty Γ t a -> hasty Γ t b -> Forall (rule_ok Γ ρ (Bin Min a b)) (min_nested_rules equal a b).
Proof.
  intros Ha Hb. unfold min_nested_rules. apply Forall_cons; split; [min_rule|].
  do 2 (apply Forall_cons; split;
    [intros act Hact; rule_action Hact act; split_hasty Ht;
     match goal with H : _ || _ = true |- _ => apply orb_true_iff in H as [H|H] end; lanes_of_rule Hρ HE Ht; lia|]).
  apply Forall_cons; split; [by apply min_broadcast_right|]. mins.
Qed.

Lemma min_distribute_right a b : hasty Γ t a -> hasty Γ t b -> Forall (rule_ok Γ ρ (Bin Min a b)) (min_distribute_rules equal a b).
Proof. intros Ha Hb. mins. Qed.

Lemma min_round_up_right a b a_up b_up : hasty Γ t a -> hasty Γ t b ->
  is_round_up a = Ok a_up -> is_round_up b = Ok b_up ->
  (forall e r, e = a \/ e = b -> is_round_up e = Ok (Some r) -> round_up_ok e = true /\ is_bin Max a = false /\ is_bin Max b = false) ->
  Forall (rule_ok Γ ρ (Bin Min a b)) (min_round_up_rules equal a b a_up b_up).
Proof.
  intros Ha Hb Hua Hub Hsafe. repeat (apply Forall_cons; split); [..|by apply Forall_nil]; intros act Hact;
    apply on_const_Some in Hact as ([x f] & -> & Hact).
  - apply when_Some in Hact as [Heq <-]. destruct (Hsafe a _ (or_introl eq_refl) Hua) as (Hok & _).
    cbn [action_ok]. eapply (rule_rewrites _ _ Hρ _ Ht); [hasty_auto Ht|build Ht|].
    operands_of_rule Hρ Ht Hfa Hfb. destruct (round_up_lanes Γ ρ Hρ t Ht a x f _ Ha Hua Hok Hfa) as (Hx & g & Hg & Hle).
    test_facts HE Ht. eexists. split; [compute_lanes Ht|]. at_lane. lia.
  - destruct (Hsafe a _ (or_introl eq_refl) Hua) as (_ & _ & Hm). apply on_bin_Some in Hact as (? & ? & -> & _). by simpl in Hm.
  - apply when_Some in Hact as [Heq <-]. destruct (Hsafe b _ (or_intror eq_refl) Hub) as (Hok & _).
    cbn [action_ok]. eapply (rule_rewrites _ _ Hρ _ Ht); [hasty_auto Ht|build Ht|].
    operands_of_rule Hρ Ht Hfa Hfb. destruct (round_up_lanes Γ ρ Hρ t Ht b x f _ Hb Hub Hok Hfb) as (Hx & g & Hg & Hle).
    test_facts HE Ht. eexists. split; [compute_lanes Ht|]. at_lane. lia.
  - destruct (Hsafe b _ (or_intror eq_refl) Hub) as (_ & Hm & _). apply on_bin_Some in Hact as (? & ? & -> & _). by simpl in Hm.
Qed.

Lemma min_add_right a b : hasty Γ t a -> hasty Γ t b -> Forall (rule_ok Γ ρ (Bin Min a b)) (min_add_rules equal t a b).
Proof.
  intros Ha Hb. repeat (apply Forall_cons; split); [..|by apply Forall_nil];
    intros act Hact; rule_action Hact act; split_bools; split_hasty Ht.
  1-4: into_rule Hρ HE Ht; exact_lane.
  match goal with |- action_ok _ _ _ (if ?c then _ else _) => destruct c end; [into_rule Hρ HE Ht|lanes_of_rule Hρ HE Ht]; lia.
Qed.

Lemma min_scale_right a b : hasty Γ t a -> hasty Γ t b ->
  (forall ib, const_int b = Some ib -> is_min_int64 (type b) ib = false) ->
  Forall (rule_ok Γ ρ (Bin Min a b)) (min_scale_rules t a b).
Proof.
  intros Ha Hb Hmin. repeat (apply Forall_cons; split); [..|by apply Forall_nil].
  - intros act Hact. rule_action Hact act. split_bools. bool_to_prop. split_hasty Ht. subst.
    match goal with Hd : hasty Γ t ?d, Hc : const_int ?d = Some _ |- _ => scale_const ρ Ht Hd Hc end;
      lanes_of_rule Hρ HE Ht; by_sign ediv_min.
  - intros act Hact. rule_action Hact act. split_bools. bool_to_prop. split_hasty Ht. subst.
    match goal with Hd : hasty Γ t ?d, Hc : const_int ?d = Some _ |- _ => scale_const ρ Ht Hd Hc end;
      lanes_of_rule Hρ HE Ht; by_sign mul_min.
  - intros act Hact. inv_rule Hact. destruct (no_overflow t && _) eqn:E; [|done]. split_bools. bool_to_prop. split_hasty Ht.
    apply when_ub_Some in Hact as [[Hd <-]|(? & _ & ->)]; [|by intros ? [=]].
    match goal with Hia : const_int ?d = Some ?ia, Hib : const_int b = Some ?ib |- _ =>
      destruct (const_int_in_range Γ t Ht d ia ltac:(assumption) Hia) as (Hra & _ & Hi), (const_int_in_range Γ t Ht b ib Hb Hib) as (Hrb & _);
      pose proof (not_min_int t Ht (type b) ib (hasty_type _ _ _ Hb) Hi (Hmin ib Hib)) as Hne;
      destruct (ratio_const Γ ρ t Ht ia ib) as (q & -> & Hq1 & Hq2); [by apply (no_overflow_unbounded t Ht t (type_eqb_refl t))|done..|];
      scale_const ρ Ht ltac:(constr:(ltac:(assumption) : hasty Γ t d)) Hia end;
      cbv zeta; lanes_of_rule Hρ HE Ht; by_sign mul_min.
Qed.

Lemma min_other_right a b : hasty Γ t a -> hasty Γ t b -> likely_ok a && likely_ok b = true ->
  Forall (rule_ok Γ ρ (Bin Min a b)) (min_other_rules equal t a b).
Proof.
  intros Ha Hb Hl. apply andb_true_iff in Hl as [Hla Hlb]. repeat (apply Forall_cons; split); [..|by apply Forall_nil].
  - intros act Hact. destruct (on_likely_Some _ _ _ Hact Hla) as (x & Hx & He & Hg). apply when_Some in Hx as [Heq <-].
    likely_lanes Hρ HE Ht a b.
  - intros act Hact. destruct (on_likely_Some _ _ _ Hact Hlb) as (x & Hx & He & Hg). apply when_Some in Hx as [Heq <-].
    likely_lanes Hρ HE Ht b a.
  - exact_rule Hρ HE Ht.
  - intros act Hact. rule_action Hact act.
    cbn [action_ok]. destruct (hasty_select Γ t Ht _ _ _ Ha) as (? & ? & ? & ? & ?), (hasty_select Γ t Ht _ _ _ Hb) as (? & ? & ? & _).
    eapply (rule_rewrites _ _ Hρ _ Ht); [hasty_auto Ht|apply (builds_choose Γ t Ht); [done..|build Ht|build Ht]|].
    operands_of_rule Hρ Ht Hfa Hfb. split_select Hρ Ht Hfa. split_select Hρ Ht Hfb.
    eexists. split; [eapply (computes_choose Γ ρ t Ht); [done..|build Ht|build Ht|eassumption|compute_lanes Ht|compute_lanes Ht]|].
    same_picks HE. at_lane. by pick_lane.
Qed.

Lemma min_ramp_right info a b : hasty Γ t a -> hasty Γ t b -> bounded_by ρ t info a ->
  forall r, min_ramp t a b info = Ok r -> rule_ok Γ ρ (Bin Min a b) r.
Proof.
  intros Ha Hb Hba r H act ->. unfold min_ramp in H. destruct a as [| | | | | | | | | |base stride l| | |]; try done.
  destruct b as [| | | | | | | | | | |value l'| |]; try done. destruct (no_overflow t); [|done].
  apply bind_Ok in H as (rb & Hrb & H). destruct rb as [[lo hi]|]; [|done].
  destruct (const_int value) as [ic|] eqn:Hic; [|done]. injection H as H. specialize (Hba lo hi).
  pose proof (broadcast_const_lanes Γ ρ Hρ t Ht value l' ic Hb Hic) as Hc.
  destruct ((lo <=? ic) && (hi <=? ic)) eqn:E; [injection H as <-|apply when_Some in H as [E' <-]]; bool_to_prop.
  - apply (keep_left Γ ρ Hρ t Ht Min Z.min extremum_min); [done..|]. intros f g Hf Hg i Hi.
    specialize (Hba f Hrb Hf i Hi). specialize (Hc g Hg i Hi). lia.
  - apply (keep_right Γ ρ Hρ t Ht Min Z.min extremum_min); [done..|]. intros f g Hf Hg i Hi.
    specialize (Hba f Hrb Hf i Hi). specialize (Hc g Hg i Hi). lia.
Qed.

Lemma min_bounded_right info a b : hasty Γ t a -> hasty Γ t b -> bounded_by ρ t info a -> bounded_by ρ t info b ->
  forall r, min_bounded t a b info = Ok r -> rule_ok Γ ρ (Bin Min a b) r.
Proof.
  intros Ha Hb Hba Hbb r H. unfold min_bounded in H.
  apply bind_Ok in H as (ra & Hra & H). apply bind_Ok in H as (rb & Hrb & H).
  destruct ra as [[a_min a_max]|], rb as [[b_min b_max]|]; try by eapply min_ramp_right.
  injection H as <-. intros act H. specialize (Hba a_min a_max). specialize (Hbb b_min b_max).
  destruct (Z.leb_spec b_max a_min); [injection H as <-|apply when_Some in H as [E%Z.leb_le <-]].
  - apply (keep_right Γ ρ Hρ t Ht Min Z.min extremum_min); [done..|]. intros f g Hf Hg i Hi.
    specialize (Hba f Hra Hf i Hi). specialize (Hbb g Hrb Hg i Hi). lia.
  - apply (keep_left Γ ρ Hρ t Ht Min Z.min extremum_min); [done..|]. intros f g Hf Hg i Hi.
    specialize (Hba f Hra Hf i Hi). specialize (Hbb g Hrb Hg i Hi). lia.
Qed.

Lemma min_early_right s a b : hasty Γ t a -> hasty Γ t b -> min_safe ρ s t a b ->
  bounded_by ρ t (bounds_info s) a -> bounded_by ρ t (bounds_info s) b ->
  forall r, min_early equal t a b (bounds_info s) = Ok r -> rule_ok Γ ρ (Bin Min a b) r.
Proof.
  intros Ha Hb Hsafe Hba Hbb r H. unfold min_early in H.
  apply bind_Ok in H as (ua & _ & H). apply bind_Ok in H as (ub & _ & H).
  destruct (first_rule (min_const_rules equal t a b)) as [act|] eqn:E; [|by eapply min_bounded_right].
  injection H as <-. rewrite <- E. apply first_rule_ok. apply min_const_right; [done..|apply Hsafe].
Qed.

(** Past the early answers, a constant on the right is not the least of its type. *)
Lemma min_early_None info a b : min_early equal t a b info = Ok None ->
  forall ib, const_int b = Some ib -> is_min_int64 (type b) ib = false.
Proof.
  intros H ib Hib. unfold min_early in H. apply bind_Ok in H as (ua & _ & H). apply bind_Ok in H as (ub & _ & H).
  destruct (is_min_int64 (type b) ib) eqn:E; [|done]. exfalso.
  assert (Hr : first_rule (min_const_rules equal t a b) <> None).
  { unfold min_const_rules. rewrite Hib. cbn [on_const]. rewrite E. intros Hn. cbn [first_rule when] in Hn.
    repeat match type of Hn with context [match ?r with Some _ => _ | None => _ end] => destruct r; [done|] end. done. }
  by destruct (first_rule (min_const_rules equal t a b)).
Qed.

Lemma min_rules_right s a b a_up b_up : hasty Γ t a -> hasty Γ t b -> min_safe ρ s t a b ->
  is_round_up a = Ok a_up -> is_round_up b = Ok b_up ->
  (forall ib, const_int b = Some ib -> is_min_int64 (type b) ib = false) ->
  rule_ok Γ ρ (Bin Min a b) (first_rule (min_rules equal t a b a_up b_up)).
Proof.
  intros Ha Hb [_ _ _ Hup Hl] Hua Hub Hmin. apply first_rule_ok. unfold min_rules. rewrite !Forall_app.
  split_and!; eauto using min_offset_right, min_round_up_right, min_nested_right, min_distribute_right, min_add_right,
    min_scale_right, min_other_right.
Qed.
End Sound.

(** C12. The simplifier's visit of [Min] keeps the type and the value of a minimum of
    integers, through the exchange of the operands, the answers from constants and
    bounds and every rule of the chain, when no signed overflow was flagged and the
    mutated operands are [min_safe]: both are [mods_exact]; an operand compared with a
    limit of its type did not overflow; one that rounds up, [((x + r) / c) * c], does so
    by a positive [c], with constants without casts, and does not meet a maximum; and
    calls to [likely] have one argument. Without the third condition the visit is wrong
    ([visit_Min_defects]). *)
Theorem visit_Min_sound facts equal same_as mutate Γ ρ s op_a op_b :
  Facts facts equal -> Known facts -> Simplifies facts mutate ->
  facts Γ ρ s -> good Γ (Bin Min op_a op_b) -> std_int (type op_a) ->
  (forall x0 s1 y0 s2 x y, mutate op_a s = Ok (Some x0, s1) -> mutate op_b s1 = Ok (Some y0, s2) ->
     (if min_swap x0 y0 then (y0, x0) else (x0, y0)) = (x, y) -> min_safe ρ s2 (type op_a) x y) ->
  simplifies facts (visit_Min same_as equal mutate (Bin Min op_a op_b) op_a op_b) Γ ρ s (Bin Min op_a op_b).
Proof.
  intros HF HK HM Hs Hg Ht Hsafe.
  apply (visit_known_sound facts equal same_as mutate Γ ρ s Min "Min"); [done..|].
  intros x0 s1 y0 s2 x y Hx Hy E Hs2 Hhx Hhy. specialize (Hsafe _ _ _ _ _ _ Hx Hy E).
  pose proof (facts_env _ _ Γ ρ s2 Hs2) as Hρ. pose proof (facts_equal _ _ Γ ρ s2 Hs2) as HE.
  rewrite arith_type by done. split.
  - apply (min_early_right equal Γ ρ Hρ HE _ Ht s2 x y Hhx Hhy Hsafe); intros lo hi f H Hf.
    + by eapply (bounds_lanes facts Γ ρ Hρ s2 Hs2 _ x lo hi f Hhx (known_left _ _ _ _ _ Hsafe)).
    + by eapply (bounds_lanes facts Γ ρ Hρ s2 Hs2 _ y lo hi f Hhy (known_right _ _ _ _ _ Hsafe)).
  - intros rs Hearly Hrs. apply bind_Ok in Hrs as (a_up & Hua & Hrs). apply bind_Ok in Hrs as (b_up & Hub & [= <-]).
    apply (min_rules_right equal Γ ρ Hρ HE _ Ht s2); try done. by eapply min_early_None.
Qed.

(** C. The rules of [Min] on operands that round up assume a positive factor, and the one
    with a maximum that the operand is positive: [min(((x+3)/4)*4, max(x, 4))] becomes
    [max(x, 4)], 4 instead of -8 at [x = -8]; [min(((x + -5)/-4)*-4, x)] becomes [x], 0
    instead of -8 at [x = 0]. *)
Theorem visit_Min_defects same_as s :
  bounds_info s = scope_new -> alignment_info s = scope_new ->
  let up k := Bin Mul (Bin Div (Bin Add x32 (imm32 (k - 1))) (imm32 k)) (imm32 k) in
  let m := Bin Max x32 (imm32 4) in
  (visit_Min same_as ptr_equal no_mutate (Bin Min (up 4) m) (up 4) m s = Ok (eref m, s) /\
   eval Strict (xy_env (-8) 0) (Bin Min (up 4) m) = Some [VInt (-8)] /\
   eval Strict (xy_env (-8) 0) m = Some [VInt 4]) /\
  (visit_Min same_as ptr_equal no_mutate (Bin Min (up (-4)) x32) (up (-4)) x32 s = Ok (eref x32, s) /\
   eval Strict (xy_env 0 0) (Bin Min (up (-4)) x32) = Some [VInt (-8)] /\
   eval Strict (xy_env 0 0) x32 = Some [VInt 0]).
Proof.
  intros Hb Ha. cbv zeta. split; (split; [|split; by vm_compute]);
    destruct s as [l v bi ai n]; simpl in Hb, Ha; subst; by vm_compute.
Qed.

(** [min(x + y, x + 3)] is [min(y, 3) + x]. *)
Lemma visit_Min_sound_witness :
  let a := Bin Add x32 y32 in
  let b := Bin Add x32 (imm32 3) in
  visit_Min same_expr_ref ptr_equal no_mutate (Bin Min a b) a b new_simplify =
    Ok (eref (Bin Add (Bin Min y32 (imm32 3)) x32), new_simplify) /\
  eval Ideal (xy_env 5 (-4)) (Bin Min a b) = Some [VInt 1] /\
  simplifies idle_facts (visit_Min same_expr_ref ptr_equal no_mutate (Bin Min a b) a b)
    xy_types (xy_env 5 (-4)) new_simplify (Bin Min a b).
Proof.
  split; [by vm_compute|]. split; [by vm_compute|].
  apply (visit_Min_sound idle_facts ptr_equal same_expr_ref no_mutate).
  - apply idle_facts_Facts.
  - apply idle_facts_Known.
  - apply no_mutate_idle.
  - split; [apply xy_facts|done].
  - split; [repeat split; by vm_compute|repeat split; by vm_compute|by vm_compute].
  - split; [by vm_compute|]. by vm_compute.
  - intros x0 s1 y0 s2 x y [= <- <-] [= <- <-] [= <- <-]. split; try done. by intros e r [-> | ->].
Defined.
