(* ===== verification/SimplifyMax.v ===== *)
(** The simplifier's visit of [Max] (src/src/Simplify.cpp): the early answers from
    constants and bounds, the chain of rules, and the proof that each of them keeps the
    value of a maximum of integers. *)

From Stdlib Require Import ZArith Lia Bool SpecFloat String.
From stdpp Require Import prelude strings gmap.
From S2P Require Import Prelude Types IR Semantics Scope Operators ModulusRemainder Mutator Equality EqualityMeaning Interval ConstBounds Monotonic Lanes Conditions Simplify SimplifyRules SimplifyQuotient SimplifyExtremum.

#[local] Open Scope Z_scope.
#[local] Open Scope halide_scope.

(** Constants, broadcasts and minima to the right. *)
Definition max_swap (a b : Expr) : bool :=
  if is_simple_const a && negb (is_simple_const b) then true
  else if is_broadcast a && negb (is_broadcast b) then true
  else negb (is_bin Min a) && is_bin Min b.

Section Rules.
Context (equal : ExprRef -> ExprRef -> bool).
Context (t : Ty) (a b : Expr).

(** Equal operands, constants, and the limits of the type. *)
Definition max_const_rules : list rule := [
  when (equal (eref a) (eref b)) (Result a);
  on_const (const_int a) (fun ia => on_const (const_int b) (fun ib =>
    Some (Result (IntImm_make t (Z.max ia ib)))));
  on_const (const_uint a) (fun ua => on_const (const_uint b) (fun ub =>
    Some (Result (UIntImm_make t (Z.max ua ub)))));
  on_const (const_float a) (fun fa => on_const (const_float b) (fun fb =>
    Some (Result (FloatImm_make t (if SFltb fa fb then fb else fa)))));
  on_const (const_int b) (fun ib => when (is_min_int64 (type b) ib) (Result a));
  on_const (const_int b) (fun ib => when (is_max_int64 (type b) ib) (Result b));
  when (is_uint t && is_zero b) (Result a);
  on_const (const_uint b) (fun ub => when (is_max_uint64 (type b) ub) (Result b));
  on_broadcast a (fun value_a lanes_a => on_broadcast b (fun value_b _ =>
    Some (Mutate (v ← on2 Max_make value_a value_b; Broadcast_make (eref v) lanes_a))))
].

(** A ramp that stays on one side of a constant. *)
Definition max_ramp (info : Scope bounds) : res rule :=
  match a, b with
  | Ramp _ _ _, Broadcast value _ =>
      if no_overflow t then
        bounds_ramp ← const_int_bounds info a;
        match bounds_ramp, const_int value with
        | Some (ramp_min, ramp_max), Some ic =>
            Ok (if (ic <=? ramp_min) && (ic <=? ramp_max) then Some (Result a)
                else when ((ramp_min <=? ic) && (ramp_max <=? ic)) (Result b))
        | _, _ => Ok None
        end
      else Ok None
  | _, _ => Ok None
  end.

(** Operands whose bounds do not cross; the ramp is tried when one has none. *)
Definition max_bounded (info : Scope bounds) : res rule :=
  bounds_a ← const_int_bounds info a;
  bounds_b ← (match bounds_a with Some _ => const_int_bounds info b | None => Ok None end);
  match bounds_a, bounds_b with
  | Some (a_min, a_max), Some (b_min, b_max) =>
      Ok (if b_max <=? a_min then Some (Result a) else when (a_max <=? b_min) (Result b))
  | _, _ => max_ramp info
  end.

(** The cases of the visit that return. *)
Definition max_early (info : Scope bounds) : res rule :=
  match first_rule max_const_rules with
  | Some act => Ok (Some act)
  | None => max_bounded info
  end.

(** Terms that differ by a constant. *)
Definition max_offset_rules : list rule := [
  on_bin Add a (fun xa ca => on_const (const_int ca) (fun ia =>
    on_bin Add b (fun xb cb => on_const (const_int cb) (fun ib =>
      when (no_overflow t && equal (eref xa) (eref xb)) (Result (if ib <? ia then a else b))))));
  on_bin Add a (fun x c => on_const (const_int c) (fun ia =>
    when (no_overflow t && equal (eref x) (eref b)) (Result (if 0 <? ia then a else b))));
  on_bin Add b (fun x c => on_const (const_int c) (fun ib =>
    when (no_overflow t && equal (eref x) (eref a)) (Result (if 0 <? ib then b else a))));
  on_bin Sub a (fun ca xa => on_bin Sub b (fun cb xb =>
    on_const (const_int ca) (fun ia => on_const (const_int cb) (fun ib =>
      when (no_overflow t && equal (eref xa) (eref xb)) (Result (if ib <? ia then a else b))))))
].

(** Extrema that hold the other operand. *)
Definition max_nested_rules : list rule := [
  on_bin Min a (fun _ y => when (equal (eref y) (eref b)) (Result b));
  on_bin Max a (fun x y => when (equal (eref y) (eref b) || equal (eref x) (eref b)) (Result a));
  on_bin Max b (fun x y => when (equal (eref y) (eref a) || equal (eref x) (eref a)) (Result b));
  on_bin Max a (fun x a2 => on_broadcast a2 (fun y _ => on_broadcast b (fun z lanes =>
    Some (Mutate (on2 Max_make x (v ← on2 Max_make y z; Broadcast_make (eref v) lanes))))));
  on_bin Max a (fun a1 _ => on_bin Max a1 (fun _ y => when (equal (eref y) (eref b)) (Result a)));
  on_bin Max a (fun a1 _ => on_bin Max a1 (fun a2 _ => on_bin Max a2 (fun _ y =>
    when (equal (eref y) (eref b)) (Result a))));
  on_bin Max a (fun a1 _ => on_bin Max a1 (fun a2 _ => on_bin Max a2 (fun a3 _ => on_bin Max a3 (fun _ y =>
    when (equal (eref y) (eref b)) (Result a)))))
].

(** A term common to two extrema. *)
Definition max_distribute_rules : list rule := [
  on_bin Max a (fun a1 a2 => on_bin Max b (fun b1 b2 =>
    when (equal (eref a1) (eref b1)) (Mutate (on2 Max_make (on2 Max_make a2 b2) a1))));
  on_bin Max a (fun a1 a2 => on_bin Max b (fun b1 b2 =>
    when (equal (eref a1) (eref b2)) (Mutate (on2 Max_make (on2 Max_make a2 b1) a1))));
  on_bin Max a (fun a1 a2 => on_bin Max b (fun b1 b2 =>
    when (equal (eref a2) (eref b1)) (Mutate (on2 Max_make (on2 Max_make a1 b2) a2))));
  on_bin Max a (fun a1 a2 => on_bin Max b (fun b1 b2 =>
    when (equal (eref a2) (eref b2)) (Mutate (on2 Max_make (on2 Max_make a1 b1) a2))));
  on_bin Min a (fun a1 a2 => on_bin Min b (fun b1 b2 =>
    when (equal (eref a1) (eref b1)) (Mutate (on2 Min_make (on2 Max_make a2 b2) a1))));
  on_bin Min a (fun a1 a2 => on_bin Min b (fun b1 b2 =>
    when (equal (eref a1) (eref b2)) (Mutate (on2 Min_make (on2 Max_make a2 b1) a1))));
  on_bin Min a (fun a1 a2 => on_bin Min b (fun b1 b2 =>
    when (equal (eref a2) (eref b1)) (Mutate (on2 Min_make (on2 Max_make a1 b2) a2))));
  on_bin Min a (fun a1 a2 => on_bin Min b (fun b1 b2 =>
    when (equal (eref a2) (eref b2)) (Mutate (on2 Min_make (on2 Max_make a1 b1) a2))));
  on_bin Min a (fun m z => on_bin Max m (fun x y =>
    when (equal (eref y) (eref b)) (Mutate (on2 max (on2 min x z) b))));
  on_bin Min a (fun m z => on_bin Max m (fun y x =>
    when (equal (eref y) (eref b)) (Mutate (on2 max (on2 min x z) b))))
].

(** Sums with a common term: the maximum of the others is mutated first. *)
Definition max_add_rules : list rule := [
  on_bin Add a (fun a1 a2 => on_bin Add b (fun b1 b2 =>
    when (no_overflow t && equal (eref a2) (eref b2)) (MutateInto (on2 max a1 b1) (fun m => operator_add m (eref a2)))));
  on_bin Add a (fun a1 a2 => on_bin Add b (fun b1 b2 =>
    when (no_overflow t && equal (eref a1) (eref b1)) (MutateInto (on2 max a2 b2) (fun m => operator_add m (eref a1)))));
  on_bin Add a (fun a1 a2 => on_bin Add b (fun b1 b2 =>
    when (no_overflow t && equal (eref a1) (eref b2)) (MutateInto (on2 max a2 b1) (fun m => operator_add m (eref a1)))));
  on_bin Add a (fun a1 a2 => on_bin Add b (fun b1 b2 =>
    when (no_overflow t && equal (eref a2) (eref b1)) (MutateInto (on2 max a1 b2) (fun m => operator_add m (eref a2)))));
  on_bin Max a (fun x c =>
    when (is_simple_const c)
      (if is_simple_const b then MutateInto (on2 Max_make b c) (fun m => Max_make (eref x) m)
       else Mutate (on2 Max_make (on2 Max_make x b) c)))
].

(** Quotients by one constant, and multiples of one constant. *)
Definition max_scale_rules : list rule := [
  on_bin Div a (fun na da => on_bin Div b (fun nb db =>
    on_const (const_int da) (fun ia => on_const (const_int db) (fun ib =>
      when (no_overflow t && negb (ia =? 0) && (ia =? ib))
        (Mutate ((if 0 <? ia then on2 max na nb else on2 min na nb) /' make_const t (Int64 ia)))))));
  on_bin Mul a (fun na da => on_bin Mul b (fun nb db =>
    on_const (const_int da) (fun ia => on_const (const_int db) (fun ib =>
      when (no_overflow t && (ia =? ib))
        (Mutate ((if 0 <? ia then on2 max na nb else on2 min na nb) *' make_const t (Int64 ia)))))));
  on_bin Mul a (fun x d => on_const (const_int d) (fun ia => on_const (const_int b) (fun ib =>
    if no_overflow t && negb (ia =? 0) then
      when_ub (divides ia ib)
        (let ratio := q ← c_quot64 ib ia; make_const t (Int64 q) in
         Mutate ((if 0 <? ia then on2 max x ratio else on2 min x ratio) *' make_const t (Int64 ia)))
    else None)))
].

(** Likely operands, a constant minus a term, and selections on one condition. *)
Definition max_other_rules : list rule := [
  on_likely a (fun x => when (equal (eref x) (eref b)) (Result a));
  on_likely b (fun x => when (equal (eref x) (eref a)) (Result b));
  on_bin Sub a (fun c x =>
    when (no_overflow t && is_const c && is_const b) (Mutate (c -' on2 min x (c -' b))));
  on_select a (fun c_a t_a f_a => on_select b (fun c_b t_b f_b =>
    when (equal (eref c_a) (eref c_b)) (Mutate (choose c_a (on2 max t_a t_b) (on2 max f_a f_b)))))
].

Definition max_rules : list rule :=
  max_offset_rules ++ max_nested_rules ++ max_distribute_rules ++ max_add_rules ++ max_scale_rules ++ max_other_rules.
End Rules.

Definition visit_Max (same_as equal : ExprRef -> ExprRef -> bool) (mutate : Expr -> mut Simplify ExprRef)
    (op op_a op_b : Expr) : mut Simplify ExprRef :=
  visit_known same_as mutate max_swap
    (fun a b s => max_early equal (type op) a b (bounds_info s))
    (fun a b s => Ok (max_rules equal (type op) a b))
    Max_make op op_a op_b.

(** * Every rule keeps the value *)

(** What the analyses know is right where they are exact, and the operands of a
    comparison with a limit of the type did not overflow. *)
Record max_safe (ρ : env) (s : Simplify) (t : Ty) (a b : Expr) : Prop := {
  known_left : mods_exact (bounds_info s) a = true;
  known_right : mods_exact (bounds_info s) b = true;
  safe_limit : forall ib, const_int b = Some ib -> is_max_int64 (type b) ib || is_min_int64 (type b) ib = true -> fits ρ t a;
  safe_likely : likely_ok a && likely_ok b = true
}.

Section Sound.
Context (equal : ExprRef -> ExprRef -> bool).
Context (Γ : gmap string Ty) (ρ : env) (Hρ : env_ok Ideal Γ ρ).
Context (HE : EqualityTest Γ ρ equal).
Context (t : Ty) (Ht : std_int t).

(** A rule that keeps one operand or rearranges extrema, under any type. *)
Ltac max_rule :=
  let act := fresh "act" in let Hact := fresh "Hact" in
  intros act Hact; rule_action Hact act; split_bools; split_hasty Ht; lanes_of_rule Hρ HE Ht; lia.
Ltac maxs := repeat (apply Forall_cons; split; [max_rule|]); by apply Forall_nil.

Lemma max_limit_right a b : hasty Γ t a -> hasty Γ t b ->
  (forall ib, const_int b = Some ib -> is_max_int64 (type b) ib || is_min_int64 (type b) ib = true -> fits ρ t a) ->
  Forall (rule_ok Γ ρ (Bin Max a b)) [
    on_const (const_int b) (fun ib => when (is_min_int64 (type b) ib) (Result a));
    on_const (const_int b) (fun ib => when (is_max_int64 (type b) ib) (Result b));
    when (is_uint t && is_zero b) (Result a);
    on_const (const_uint b) (fun ub => when (is_max_uint64 (type b) ub) (Result b))].
Proof.
  intros Ha Hb Hfit. pose proof (hasty_type _ _ _ Hb) as Hu.
  pose proof (fun f => fits_lanes Γ ρ Hρ t Ht a f Ha) as Hlanes.
  repeat (apply Forall_cons; split); [..|by apply Forall_nil]; intros act Hact; rule_action Hact act; split_bools.
  - assert (Hfa : fits ρ t a) by (eapply Hfit; [eassumption|by rewrite orb_true_iff; right]).
    limit_rule Hρ HE Ht a. apply Z.max_l. by eapply (is_min_bound t Ht (type b)).
  - assert (Hfa : fits ρ t a) by (eapply Hfit; [eassumption|by rewrite orb_true_iff; left]).
    limit_rule Hρ HE Ht a. apply Z.max_r. by eapply (is_max_bound t Ht (type b)).
  - lanes_of_rule Hρ HE Ht. apply Z.max_l. by eapply (uint_nonneg t).
  - match goal with H : const_uint b = Some _ |- _ => pose proof (const_uint_class Γ t Ht b _ Hb H) as Hut end.
    lanes_of_rule Hρ HE Ht. apply Z.max_r. by eapply (is_max_uint_bound t Ht (type b)), uint_representable.
Qed.

Lemma max_const_right a b : hasty Γ t a -> hasty Γ t b ->
  (forall ib, const_int b = Some ib -> is_max_int64 (type b) ib || is_min_int64 (type b) ib = true -> fits ρ t a) ->
  Forall (rule_ok Γ ρ (Bin Max a b)) (max_const_rules equal t a b).
Proof.
  intros Ha Hb Hfit. unfold max_const_rules. apply Forall_cons; split; [max_rule|].
  pose proof (extremum_fold Γ ρ Hρ t Ht Max Z.max a b extremum_max Ha Hb) as Hfold.
  apply Forall_cons in Hfold as [Hi Hfold]. apply Forall_cons in Hfold as [Hu _].
  apply Forall_cons; split; [exact Hi|]. apply Forall_cons; split; [exact Hu|]. apply Forall_cons; split.
  { intros act Hact. apply on_const_Some in Hact as (fa & _ & Hact). apply on_const_Some in Hact as (fb & _ & [= <-]).
    intros e' He'. by apply (FloatImm_no t Ht _ _ _ (type_eqb_refl t)) in He'. }
  pose proof (max_limit_right a b Ha Hb Hfit) as Hlimit. rewrite !Forall_cons in Hlimit. destruct Hlimit as (? & ? & ? & ? & _).
  repeat (apply Forall_cons; split; [assumption|]). apply Forall_cons; split; [|by apply Forall_nil].
  apply (extremum_broadcast Γ ρ Hρ t Ht Max "Max" Z.max); [apply extremum_max|done..].
Qed.

Lemma max_offset_right a b : hasty Γ t a -> hasty Γ t b -> Forall (rule_ok Γ ρ (Bin Max a b)) (max_offset_rules equal t a b).
Proof.
  intros Ha Hb. repeat (apply Forall_cons; split); [..|by apply Forall_nil];
    intros act Hact; rule_action Hact act; split_bools; split_hasty Ht;
    match goal with |- action_ok _ _ _ (Result (if ?c then _ else _)) => destruct c eqn:? end; bool_to_prop;
    lanes_of_rule Hρ HE Ht; exact_lane.
Qed.

Lemma max_broadcast_right a b : hasty Γ t a -> hasty Γ t b ->
  rule_ok Γ ρ (Bin Max a b)
    (on_bin Max a (fun x a2 => on_broadcast a2 (fun y _ => on_broadcast b (fun z lanes =>
      Some (Mutate (on2 Max_make x (v ← on2 Max_make y z; Broadcast_make (eref v) lanes))))))).
Proof.
  intros Ha Hb act Hact. apply on_bin_Some in Hact as (x & a2 & -> & Hact). apply on_broadcast_Some in Hact as (y & l & -> & Hact).
  apply on_broadcast_Some in Hact as (z & l' & -> & [= <-]). cbn [action_ok]. pose proof (std_element t Ht) as Hte.
  apply hasty_bin in Ha as [Hx Ha]; [|done..].
  destruct (hasty_broadcast Γ t Ht _ _ Ha) as (Hy & -> & Hl), (hasty_broadcast Γ t Ht _ _ Hb) as (Hz & -> & _).
  assert (Hyz : builds Γ (element_of t) (on2 Max_make y z)) by build Hte.
  assert (Hv : builds Γ t (v ← on2 Max_make y z; Broadcast_make (eref v) (lanes t))) by (by apply builds_broadcast).
  eapply (rule_rewrites _ _ Hρ _ Ht); [hasty_auto Ht|build Ht|].
  operands_of_rule Hρ Ht Hfa Hfb. eapply (den_bin_lanes _ _ Hρ _ Ht) in Hfa as (? & ? & ? & Hfa & ?); [|done..].
  split_broadcast Hρ Ht Ha Hfa. split_broadcast Hρ Ht Hb Hfb.
  eexists. split.
  - eapply (computes_on2 Γ ρ t Ht); [by apply joins_Max_make|done|by apply builds_expr|exact Hv|by apply computes_expr| |done].
    apply (computes_broadcast Γ); [exact Ht|exact Hl|done|]. compute_lanes Hte.
  - at_lane. lia.
Qed.

Lemma max_nested_right a b : hasty Γ t a -> hasty Γ t b -> Forall (rule_ok Γ ρ (Bin Max a b)) (max_nested_rules equal a b).
Proof.
  intros Ha Hb. unfold max_nested_rules. apply Forall_cons; split; [max_rule|].
  do 2 (apply Forall_cons; split;
    [intros act Hact; rule_action Hact act; split_hasty Ht;
     match goal with H : _ || _ = true |- _ => apply orb_true_iff in H as [H|H] end; lanes_of_rule Hρ HE Ht; lia|]).
  apply Forall_cons; split; [by apply max_broadcast_right|]. maxs.
Qed.

Lemma max_distribute_right a b : hasty Γ t a -> hasty Γ t b -> Forall (rule_ok Γ ρ (Bin Max a b)) (max_distribute_rules equal a b).
Proof. intros Ha Hb. maxs. Qed.

Lemma max_add_right a b : hasty Γ t a -> hasty Γ t b -> Forall (rule_ok Γ ρ (Bin Max a b)) (max_add_rules equal t a b).
Proof.
  intros Ha Hb. repeat (apply Forall_cons; split); [..|by apply Forall_nil];
    intros act Hact; rule_action Hact act; split_bools; split_hasty Ht.
  1-4: into_rule Hρ HE Ht; exact_lane.
  match goal with |- action_ok _ _ _ (if ?c then _ else _) => destruct c end; [into_rule Hρ HE Ht|lanes_of_rule Hρ HE Ht]; lia.
Qed.

Lemma max_scale_right a b : hasty Γ t a -> hasty Γ t b ->
  (forall ib, const_int b = Some ib -> is_min_int64 (type b) ib = false) ->
  Forall (rule_ok Γ ρ (Bin Max a b)) (max_scale_rules t a b).
Proof.
  intros Ha Hb Hmin. repeat (apply Forall_cons; split); [..|by apply Forall_nil].
  - intros act Hact. rule_action Hact act. split_bools. bool_to_prop. split_hasty Ht. subst.
    match goal with Hd : hasty Γ t ?d, Hc : const_int ?d = Some _ |- _ => scale_const ρ Ht Hd Hc end;
      lanes_of_rule Hρ HE Ht; by_sign ediv_max.
  - intros act Hact. rule_action Hact act. split_bools. bool_to_prop. split_hasty Ht. subst.
    match goal with Hd : hasty Γ t ?d, Hc : const_int ?d = Some _ |- _ => scale_const ρ Ht Hd Hc end;
      lanes_of_rule Hρ HE Ht; by_sign mul_max.
  - intros act Hact. inv_rule Hact. destruct (no_overflow t && _) eqn:E; [|done]. split_bools. bool_to_prop. split_hasty Ht.
    apply when_ub_Some in Hact as [[Hd <-]|(? & _ & ->)]; [|by intros ? [=]].
    match goal with Hia : const_int ?d = Some ?ia, Hib : const_int b = Some ?ib |- _ =>
      destruct (const_int_in_range Γ t Ht d ia ltac:(assumption) Hia) as (Hra & _ & Hi), (const_int_in_range Γ t Ht b ib Hb Hib) as (Hrb & _);
      pose proof (not_min_int t Ht (type b) ib (hasty_type _ _ _ Hb) Hi (Hmin ib Hib)) as Hne;
      destruct (ratio_const Γ ρ t Ht ia ib) as (q & -> & Hq1 & Hq2); [by apply (no_overflow_unbounded t Ht t (type_eqb_refl t))|done..|];
      scale_const ρ Ht ltac:(constr:(ltac:(assumption) : hasty Γ t d)) Hia end;
      cbv zeta; lanes_of_rule Hρ HE Ht; by_sign mul_max.
Qed.

Lemma max_other_right a b : hasty Γ t a -> hasty Γ t b -> likely_ok a && likely_ok b = true ->
  Forall (rule_ok Γ ρ (Bin Max a b)) (max_other_rules equal t a b).
Proof.
  intros Ha Hb Hl. apply andb_true_iff in Hl as [Hla Hlb]. repeat (apply Forall_cons; split); [..|by apply Forall_nil].
  - intros act Hact. destruct (on_likely_Some _ _ _ Hact Hla) as (x & Hx & He & Hg). apply when_Some in Hx as [Heq <-].
    likely_lanes Hρ HE Ht a b.
  - intros act Hact. destruct (on_likely_Some _ _ _ Hact Hlb) as (x & Hx & He & Hg). apply when_Some in Hx as [Heq <-].
    likely_lanes Hρ HE Ht b a.
  - exact_rule Hρ HE Ht.
  - intros act Hact. rule_action Hact act.
    cbn [action_ok]. destruct (hasty_select Γ t Ht _ _ _ Ha) as (? & ? & ? & ? & ?), (hasty_select Γ t Ht _ _ _ Hb) as (? & ? & ? & _).
    eapply (rule_rewrites _ _ Hρ _ Ht); [hasty_auto Ht|apply (builds_choose Γ t Ht); [done..|build Ht|build Ht]|].
    operands_of_rule Hρ Ht Hfa Hfb. split_select Hρ Ht Hfa. split_select Hρ Ht Hfb.
    eexists. split; [eapply (computes_choose Γ ρ t Ht); [done..|build Ht|build Ht|eassumption|compute_lanes Ht|compute_lanes Ht]|].
    same_picks HE. at_lane. by pick_lane.
Qed.

Lemma max_ramp_right info a b : hasty Γ t a -> hasty Γ t b -> bounded_by ρ t info a ->
  forall r, max_ramp t a b info = Ok r -> rule_ok Γ ρ (Bin Max a b) r.
Proof.
  intros Ha Hb Hba r H act ->. unfold max_ramp in H. destruct a as [| | | | | | | | | |base stride l| | |]; try done.
  destruct b as [| | | | | | | | | | |value l'| |]; try done. destruct (no_overflow t); [|done].
  apply bind_Ok in H as (rb & Hrb & H). destruct rb as [[lo hi]|]; [|done].
  destruct (const_int value) as [ic|] eqn:Hic; [|done]. injection H as H. specialize (Hba lo hi).
  pose proof (broadcast_const_lanes Γ ρ Hρ t Ht value l' ic Hb Hic) as Hc.
  destruct ((ic <=? lo) && (ic <=? hi)) eqn:E; [injection H as <-|apply when_Some in H as [E' <-]]; bool_to_prop.
  - apply (keep_left Γ ρ Hρ t Ht Max Z.max extremum_max); [done..|]. intros f g Hf Hg i Hi.
    specialize (Hba f Hrb Hf i Hi). specialize (Hc g Hg i Hi). lia.
  - apply (keep_right Γ ρ Hρ t Ht Max Z.max extremum_max); [done..|]. intros f g Hf Hg i Hi.
    specialize (Hba f Hrb Hf i Hi). specialize (Hc g Hg i Hi). lia.
Qed.

Lemma max_bounded_right info a b : hasty Γ t a -> hasty Γ t b -> bounded_by ρ t info a -> bounded_by ρ t info b ->
  forall r, max_bounded t a b info = Ok r -> rule_ok Γ ρ (Bin Max a b) r.
Proof.
  intros Ha Hb Hba Hbb r H. unfold max_bounded in H.
  apply bind_Ok in H as (ra & Hra & H). apply bind_Ok in H as (rb & Hrb & H).
  destruct ra as [[a_min a_max]|], rb as [[b_min b_max]|]; try by eapply max_ramp_right.
  injection H as <-. intros act H. specialize (Hba a_min a_max). specialize (Hbb b_min b_max).
  destruct (Z.leb_spec b_max a_min); [injection H as <-|apply when_Some in H as [E%Z.leb_le <-]].
  - apply (keep_left Γ ρ Hρ t Ht Max Z.max extremum_max); [done..|]. intros f g Hf Hg i Hi.
    specialize (Hba f Hra Hf i Hi). specialize (Hbb g Hrb Hg i Hi). lia.
  - apply (keep_right Γ ρ Hρ t Ht Max Z.max extremum_max); [done..|]. intros f g Hf Hg i Hi.
    specialize (Hba f Hra Hf i Hi). specialize (Hbb g Hrb Hg i Hi). lia.
Qed.

Lemma max_early_right s a b : hasty Γ t a -> hasty Γ t b -> max_safe ρ s t a b ->
  bounded_by ρ t (bounds_info s) a -> bounded_by ρ t (bounds_info s) b ->
  forall r, max_early equal t a b (bounds_info s) = Ok r -> rule_ok Γ ρ (Bin Max a b) r.
Proof.
  intros Ha Hb Hsafe Hba Hbb r H. unfold max_early in H.
  destruct (first_rule (max_const_rules equal t a b)) as [act|] eqn:E; [|by eapply max_bounded_right].
  injection H as <-. rewrite <- E. apply first_rule_ok. apply max_const_right; [done..|apply Hsafe].
Qed.

(** Past the early answers, a constant on the right is not the least of its type. *)
Lemma max_early_None info a b : max_early equal t a b info = Ok None ->
  forall ib, const_int b = Some ib -> is_min_int64 (type b) ib = false.
Proof.
  intros H ib Hib. unfold max_early in H. destruct (is_min_int64 (type b) ib) eqn:E; [|done]. exfalso.
  assert (Hr : first_rule (max_const_rules equal t a b) <> None).
  { unfold max_const_rules. rewrite Hib. cbn [on_const]. rewrite E. intros Hn. cbn [first_rule when] in Hn.
    repeat match type of Hn with context [match ?r with Some _ => _ | None => _ end] => destruct r; [done|] end. done. }
  by destruct (first_rule (max_const_rules equal t a b)).
Qed.

Lemma max_rules_right s a b : hasty Γ t a -> hasty Γ t b -> max_safe ρ s t a b ->
  (forall ib, const_int b = Some ib -> is_min_int64 (type b) ib = false) ->
  rule_ok Γ ρ (Bin Max a b) (first_rule (max_rules equal t a b)).
Proof.
  intros Ha Hb [_ _ _ Hl] Hmin. apply first_rule_ok. unfold max_rules. rewrite !Forall_app.
  split_and!; eauto using max_offset_right, max_nested_right, max_distribute_right, max_add_right,
    max_scale_right, max_other_right.
Qed.
End Sound.

(** C13. The simplifier's visit of [Max] keeps the type and the value of a maximum of
    integers, through the exchange of the operands, the answers from constants and
    bounds and every rule of the chain, when no signed overflow was flagged and the
    mutated operands are [max_safe]: both are [mods_exact], so that their bounds are
    right; an operand compared with a limit of its type did not overflow; and calls to
    [likely] have one argument. *)
Theorem visit_Max_sound facts equal same_as mutate Γ ρ s op_a op_b :
  Facts facts equal -> Known facts -> Simplifies facts mutate ->
  facts Γ ρ s -> good Γ (Bin Max op_a op_b) -> std_int (type op_a) ->
  (forall x0 s1 y0 s2 x y, mutate op_a s = Ok (Some x0, s1) -> mutate op_b s1 = Ok (Some y0, s2) ->
     (if max_swap x0 y0 then (y0, x0) else (x0, y0)) = (x, y) -> max_safe ρ s2 (type op_a) x y) ->
  simplifies facts (visit_Max same_as equal mutate (Bin Max op_a op_b) op_a op_b) Γ ρ s (Bin Max op_a op_b).
Proof.
  intros HF HK HM Hs Hg Ht Hsafe.
  apply (visit_known_sound facts equal same_as mutate Γ ρ s Max "Max"); [done..|].
  intros x0 s1 y0 s2 x y Hx Hy E Hs2 Hhx Hhy. specialize (Hsafe _ _ _ _ _ _ Hx Hy E).
  pose proof (facts_env _ _ Γ ρ s2 Hs2) as Hρ. pose proof (facts_equal _ _ Γ ρ s2 Hs2) as HE.
  rewrite arith_type by done. split.
  - apply (max_early_right equal Γ ρ Hρ HE _ Ht s2 x y Hhx Hhy Hsafe); intros lo hi f H Hf.
    + by eapply (bounds_lanes facts Γ ρ Hρ s2 Hs2 _ x lo hi f Hhx (known_left _ _ _ _ _ Hsafe)).
    + by eapply (bounds_lanes facts Γ ρ Hρ s2 Hs2 _ y lo hi f Hhy (known_right _ _ _ _ _ Hsafe)).
  - intros rs Hearly [= <-].
    apply (max_rules_right equal Γ ρ Hρ HE _ Ht s2); try done. by eapply max_early_None.
Qed.

(** [max(max(x, 3), y)] is [max(max(x, y), 3)]. *)
Lemma visit_Max_sound_witness :
  let a := Bin Max x32 (imm32 3) in
  visit_Max same_expr_ref ptr_equal no_mutate (Bin Max a y32) a y32 new_simplify =
    Ok (eref (Bin Max (Bin Max x32 y32) (imm32 3)), new_simplify) /\
  eval Ideal (xy_env 5 (-4)) (Bin Max a y32) = Some [VInt 5] /\
  simplifies idle_facts (visit_Max same_expr_ref ptr_equal no_mutate (Bin Max a y32) a y32)
    xy_types (xy_env 5 (-4)) new_simplify (Bin Max a y32).
Proof.
  split; [by vm_compute|]. split; [by vm_compute|].
  apply (visit_Max_sound idle_facts ptr_equal same_expr_ref no_mutate).
  - apply idle_facts_Facts.
  - apply idle_facts_Known.
  - apply no_mutate_idle.
  - split; [apply xy_facts|done].
  - split; [repeat split; by vm_compute|repeat split; by vm_compute|by vm_compute].
  - split; [by vm_compute|]. by vm_compute.
  - intros x0 s1 y0 s2 x y [= <- <-] [= <- <-] [= <- <-]. by split.
Defined.
