(* ===== verification/SimplifyConditions.v ===== *)
(** Proving the rules of the simplifier's visits of conditions right: the truth of a
    condition in each lane, what the rules build, and the shape of the visits of the
    logical operators (src/src/Simplify.cpp). *)

From Stdlib Require Import ZArith Lia Bool SpecFloat String ZifyBool.
From stdpp Require Import prelude strings gmap.
From S2P Require Import Prelude Types IR Semantics Scope Operators ModulusRemainder Mutator Equality EqualityMeaning Interval ConstBounds Monotonic Lanes Conditions Simplify SimplifyRules.

#[local] Open Scope Z_scope.
#[local] Open Scope halide_scope.

(** * What the rules build *)

Definition not' (a : res Expr) : res Expr := a ← a; operator_not (eref a).
Definition broadcast' (v : res Expr) (lanes : Z) : res Expr := v ← v; Broadcast_make (eref v) lanes.

Definition on_not (e : Expr) (k : Expr -> rule) : rule := match e with Not a => k a | _ => None end.
Definition on_var (e : Expr) (k : Ty -> string -> rule) : rule := match e with Var t n _ _ _ => k t n | _ => None end.

Lemma on_not_Some e k act : on_not e k = Some act <-> exists x, e = Not x /\ k x = Some act.
Proof. destruct e; naive_solver. Qed.
Lemma on_var_Some e k act : on_var e k = Some act <-> exists t n i p r, e = Var t n i p r /\ k t n = Some act.
Proof. destruct e; naive_solver. Qed.

(** A comparison compares integers. *)
Definition compares_ints (e : Expr) : Prop :=
  match e with Bin op x _ => is_comparison op = true -> std_int (type x) | _ => True end.

(** Expressions the test identifies have types of one code, width and length. *)
Definition types_equal (equal : ExprRef -> ExprRef -> bool) : Prop := forall a b,
  usual_types a = true -> usual_types b = true -> equal (eref a) (eref b) = true ->
  code (type a) = code (type b) /\ bits (type a) = bits (type b) /\ lanes (type a) = lanes (type b).

Lemma equal_types_equal addr same_as : (forall a b, same_as a b = true -> a = b) -> types_equal (equal addr same_as).
Proof.
  intros Hs a b Ha Hb H. apply equal_key in H; [|done|by apply plain_floats_nan_free, usual_plain..].
  injection H as H. rewrite (key_header a), (key_header b) in H. unfold header in H. apply key_type_fields.
  injection H as _ H1 H2 H3 _. unfold key_type. congruence.
Qed.

Lemma bool_type_self t : std_int t -> is_bool t = true -> t = Bool (lanes t).
Proof.
  intros (_ & Hl & Hh) Hb. unfold is_bool in Hb. apply andb_true_iff in Hb as [Hc%bool_decide_eq_true Hb%Z.eqb_eq].
  destruct t as [c b l h]. simpl in *. subst. unfold Bool, UInt, Type_make. by rewrite small_lanes by lia.
Qed.

(** * The truth of a condition, lane by lane *)
Section Truth.
Context (Γ : gmap string Ty) (ρ : env) (Hρ : env_ok Ideal Γ ρ).
Context (t : Ty) (Ht : std_int t) (Hb : is_bool t = true).

Definition truth (e : Expr) (p : nat -> bool) : Prop := den ρ t e (fun i => Z.b2z (p i)).
Definition truths (r : res Expr) (p : nat -> bool) : Prop := computes ρ t r (fun i => Z.b2z (p i)).

Lemma bool_self : t = Bool (lanes t).
Proof. by apply bool_type_self. Qed.

Lemma truth_intro e F : hasty Γ t e -> den ρ t e F -> exists p, truth e p /\ forall i, (i < nlanes t)%nat -> F i = Z.b2z (p i).
Proof.
  intros He HF. destruct (den_intro Γ ρ Hρ t Ht e _ He HF) as (f & Hf & _ & Hin).
  exists (fun i => F i =? 1). assert (H : forall i, (i < nlanes t)%nat -> F i = Z.b2z (F i =? 1)).
  { intros i Hi. rewrite (den_same ρ t e F f HF Hf i Hi). specialize (Hin i Hi). rewrite bool_self in Hin.
    apply (in_type_bool (Bool (lanes t))) in Hin as [p ->]. by destruct p. }
  split; [|done]. by apply (den_ext ρ t e F).
Qed.

Lemma truth_same e p q : truth e p -> truth e q -> forall i, (i < nlanes t)%nat -> p i = q i.
Proof. intros Hp Hq i Hi. pose proof (den_same ρ t e _ _ Hp Hq i Hi) as H. cbv beta in H. by destruct (p i), (q i). Qed.

Lemma truth_ext e p q : truth e p -> (forall i, (i < nlanes t)%nat -> p i = q i) -> truth e q.
Proof. intros Hp H. eapply den_ext; [exact Hp|]. intros i Hi. cbv beta. by rewrite H. Qed.

(** A rule's result has the truth of the condition it rewrites. *)
Lemma truth_rewrites e r : hasty Γ t e -> builds Γ t r ->
  (forall p, truth e p -> exists q, truths r q /\ forall i, (i < nlanes t)%nat -> p i = q i) ->
  forall e', r = Ok e' -> rewrites Γ ρ e e'.
Proof.
  intros He Hr Hv. apply (rule_rewrites Γ ρ Hρ t Ht e r He Hr). intros F HF _.
  destruct (truth_intro e F He HF) as (p & Hp & HFp). destruct (Hv p Hp) as (q & Hq & Heq).
  exists (fun i => Z.b2z (q i)). split; [exact Hq|]. intros i Hi. by rewrite HFp, Heq.
Qed.

(** ** Logical operators *)

Definition lop (op : binop) (p q : bool) : bool := match op with And => p && q | _ => p || q end.

Lemma logic_parts op a b : is_logical op = true -> hasty Γ t (Bin op a b) -> hasty Γ t a /\ hasty Γ t b.
Proof.
  intros Hop H. rewrite bool_self in H |- *. apply (logic_hasty Γ t Ht op); [done|exact H].
Qed.

Lemma logic_built op a b : is_logical op = true -> hasty Γ t a -> hasty Γ t b -> hasty Γ t (Bin op a b).
Proof.
  intros Hop Ha Hb'. rewrite bool_self in Ha, Hb' |- *. by apply (hasty_logic Γ t Ht op).
Qed.

Lemma logic_op op : is_logical op = true -> op = And \/ op = Or.
Proof. destruct op; auto; done. Qed.

Lemma truth_logic op a b p q : is_logical op = true -> truth a p -> truth b q ->
  truth (Bin op a b) (fun i => lop op (p i) (q i)).
Proof.
  intros Hop Hp Hq. unfold truth, den in *. cbn [eval]. rewrite Hp, Hq. cbn [mbind option_bind].
  apply zip_tab. intros i _. rewrite Nat.add_0_r.
  pose proof (eval_ilogic op (type a) _ _ (p i) (q i) (logic_op op Hop) eq_refl eq_refl) as H. by destruct (logic_op op Hop) as [-> | ->].
Qed.

Lemma truth_logic_inv op a b r : is_logical op = true -> hasty Γ t (Bin op a b) -> truth (Bin op a b) r ->
  exists p q, truth a p /\ truth b q /\ forall i, (i < nlanes t)%nat -> r i = lop op (p i) (q i).
Proof.
  intros Hop Hab Hr. destruct (logic_parts op a b Hop Hab) as [Ha Hb']. pose proof Hr as He. unfold truth, den in He.
  cbn [eval] in He. apply bind_Some in He as (va & Hva & He). apply bind_Some in He as (vb & Hvb & _).
  destruct (den_intro Γ ρ Hρ t Ht a va Ha Hva) as (f & Hf & _ & _), (den_intro Γ ρ Hρ t Ht b vb Hb' Hvb) as (g & Hg & _ & _).
  destruct (truth_intro a f Ha Hf) as (p & Hp & _), (truth_intro b g Hb' Hg) as (q & Hq & _).
  exists p, q. split; [done|]. split; [done|]. apply (truth_same (Bin op a b)); [done|]. by apply truth_logic.
Qed.

(** ** Negation *)

Lemma bool_type_iff u : type_eqb u t = true <-> is_bool u = true /\ lanes u = lanes t.
Proof.
  rewrite (type_eqb_std t Ht). pose proof Hb as Hbt. unfold is_bool in *. rewrite andb_true_iff, bool_decide_eq_true, Z.eqb_eq in *.
  destruct Hbt as [-> ->]. tauto.
Qed.

Lemma not_parts a : hasty Γ t (Not a) <-> hasty Γ t a.
Proof.
  split.
  - intros [[[Hba Hwa] Hta Hu] Hty]. split; [by split|]. cbn in Hba.
    pose proof (ty_ok_type Γ a Hwa Hta) as Hok. apply bool_type_iff. split; [done|].
    apply type_eqb_fields in Hty as (_ & _ & Hl). cbn in Hl. rewrite small_lanes in Hl; [done|apply Hok].
  - intros [[Hw Hty Hu] He]. pose proof (ty_ok_type Γ a Hw Hty) as Hok. apply bool_type_iff in He as [Hba Hl].
    split; [split; [by split|done|done]|]. cbn [type]. rewrite Hl. rewrite <- bool_self. apply type_eqb_refl.
Qed.

Lemma mapM_tab (h : scalar -> option scalar) k n f g :
  (forall i, h (VInt (f i)) = Some (VInt (g i))) ->
  mapM h ((fun i => VInt (f i)) <$> seq k n) = Some ((fun i => VInt (g i)) <$> seq k n).
Proof.
  intros H. revert k. induction n as [|n IH]; intros k; [done|]. simpl. rewrite H. cbn [mbind option_bind].
  by rewrite IH.
Qed.

Lemma truth_not a p : truth a p -> truth (Not a) (fun i => negb (p i)).
Proof.
  intros Hp. unfold truth, den in *. cbn [eval]. rewrite Hp. cbn [mbind option_bind].
  apply mapM_tab. intros i. simpl. by destruct (p i).
Qed.

Lemma truth_not_inv a r : hasty Γ t a -> truth (Not a) r ->
  exists p, truth a p /\ forall i, (i < nlanes t)%nat -> r i = negb (p i).
Proof.
  intros Ha Hr. pose proof Hr as He. unfold truth, den in He. cbn [eval] in He. apply bind_Some in He as (va & Hva & _).
  destruct (den_intro Γ ρ Hρ t Ht a va Ha Hva) as (f & Hf & _ & _). destruct (truth_intro a f Ha Hf) as (p & Hp & _).
  exists p. split; [done|]. apply (truth_same (Not a)); [done|]. by apply truth_not.
Qed.

(** ** Comparisons *)

Section Compare.
Context (u : Ty) (Hu : std_int u) (Hl : lanes u = lanes t).

Lemma compare_type : Bool (lanes u) = t.
Proof. rewrite Hl. symmetry. apply bool_self. Qed.

Lemma cmp_built op x y : is_comparison op = true -> hasty Γ u x -> hasty Γ u y -> hasty Γ t (Bin op x y).
Proof. rewrite <- compare_type. by apply hasty_cmp. Qed.

Lemma truth_cmp op x y f g : is_comparison op = true -> den ρ u x f -> den ρ u y g ->
  truth (Bin op x y) (fun i => icmp op (f i) (g i)).
Proof. unfold truth. rewrite <- compare_type. by apply den_cmp. Qed.

Lemma compare_lanes : nlanes u = nlanes t.
Proof. unfold nlanes. by rewrite Hl. Qed.

Lemma truth_cmp_inv op x y r : is_comparison op = true -> hasty Γ u x -> hasty Γ u y -> truth (Bin op x y) r ->
  exists f g, den ρ u x f /\ den ρ u y g /\
    forall i, (i < nlanes t)%nat -> in_type u (f i) /\ in_type u (g i) /\ r i = icmp op (f i) (g i).
Proof.
  intros Hop Hx Hy Hr. unfold truth in Hr. rewrite <- compare_type in Hr.
  destruct (den_cmp_inv Γ ρ Hρ u Hu op x y _ Hop Hx Hy Hr) as (f & g & Hf & Hg & H). rewrite compare_lanes in H.
  exists f, g. split; [done|]. split; [done|]. intros i Hi. destruct (H i Hi) as (? & ? & E). repeat split; try done.
  by destruct (r i), (icmp op (f i) (g i)).
Qed.

Lemma builds_cmp op mk a b : is_comparison op = true -> joins Γ u op mk -> builds Γ u a -> builds Γ u b ->
  builds Γ t (on2 mk a b).
Proof.
  intros Hop Hmk Ha Hb' e He. apply on2_Ok in He as (x & y & Hx & Hy & He).
  rewrite (Hmk x y e (Ha _ Hx) (Hb' _ Hy) He). apply cmp_built; [done|by apply Ha|by apply Hb'].
Qed.
Lemma truths_cmp op mk a b f g : is_comparison op = true -> joins Γ u op mk -> builds Γ u a -> builds Γ u b ->
  computes ρ u a f -> computes ρ u b g -> truths (on2 mk a b) (fun i => icmp op (f i) (g i)).
Proof.
  intros Hop Hmk Ha Hb' Hf Hg e He. apply on2_Ok in He as (x & y & Hx & Hy & He).
  rewrite (Hmk x y e (Ha _ Hx) (Hb' _ Hy) He). apply truth_cmp; auto.
Qed.
End Compare.

Lemma cmp_parts op x y : is_comparison op = true -> std_int (type x) -> hasty Γ t (Bin op x y) ->
  hasty Γ (type x) x /\ hasty Γ (type x) y /\ lanes (type x) = lanes t.
Proof.
  intros Hop Hx [Hg He]. destruct (cmp_hasty Γ (type x) Hx op x y Hg (type_eqb_refl _)). split; [done|]. split; [done|].
  rewrite type_cmp in He by done. apply type_eqb_fields in He as (_ & _ & He). cbn in He.
  rewrite small_lanes in He; [done|]. destruct Hx as (_ & ? & _). lia.
Qed.

(** ** What the rules build of conditions *)

Definition logic_joins (op : binop) (mk : ExprRef -> ExprRef -> res Expr) : Prop := forall x y e,
  hasty Γ t x -> hasty Γ t y -> mk (eref x) (eref y) = Ok e -> e = Bin op x y.

Lemma logical_make_node op nm x y e : is_logical op = true -> logical_make op nm (eref x) (eref y) = Ok e -> e = Bin op x y.
Proof. intros Hop He. by apply logical_make_Ok in He as [-> _]. Qed.
Lemma logic_joins_And : logic_joins And And_make.
Proof. intros x y e _ _. by apply logical_make_node. Qed.
Lemma logic_joins_Or : logic_joins Or Or_make.
Proof. intros x y e _ _. by apply logical_make_node. Qed.

Lemma match_types_same x y : hasty Γ t x -> hasty Γ t y -> match_types x y = Ok (x, y).
Proof.
  intros Hx Hy. unfold match_types.
  pose proof (type_eqb_classes _ _ (hasty_type _ _ _ Hx)) as (_ & _ & _ & -> & _).
  pose proof (type_eqb_classes _ _ (hasty_type _ _ _ Hy)) as (_ & _ & _ & -> & _). rewrite std_handle by done. simpl.
  by rewrite (type_eqb_trans_std t Ht (type x) (type y)) by (by eapply hasty_type).
Qed.
Lemma logic_joins_and : logic_joins And operator_and.
Proof.
  intros x y e Hx Hy He. unfold operator_and in He. cbn [deref eref mbind res_bind] in He.
  rewrite match_types_same in He by done. by apply logical_make_node in He.
Qed.
Lemma logic_joins_or : logic_joins Or operator_or.
Proof.
  intros x y e Hx Hy He. unfold operator_or in He. cbn [deref eref mbind res_bind] in He.
  rewrite match_types_same in He by done. by apply logical_make_node in He.
Qed.

Lemma builds_logic op mk a b : is_logical op = true -> logic_joins op mk -> builds Γ t a -> builds Γ t b ->
  builds Γ t (on2 mk a b).
Proof.
  intros Hop Hmk Ha Hb' e He. apply on2_Ok in He as (x & y & Hx & Hy & He).
  rewrite (Hmk x y e (Ha _ Hx) (Hb' _ Hy) He). apply logic_built; [done|by apply Ha|by apply Hb'].
Qed.
Lemma truths_logic op mk a b p q : is_logical op = true -> logic_joins op mk -> builds Γ t a -> builds Γ t b ->
  truths a p -> truths b q -> truths (on2 mk a b) (fun i => lop op (p i) (q i)).
Proof.
  intros Hop Hmk Ha Hb' Hp Hq e He. apply on2_Ok in He as (x & y & Hx & Hy & He).
  rewrite (Hmk x y e (Ha _ Hx) (Hb' _ Hy) He). apply truth_logic; [done|by apply Hp|by apply Hq].
Qed.

Lemma not_Ok x e : operator_not (eref x) = Ok e -> e = Not x.
Proof. unfold operator_not, Not_make, internal_assert. simpl. destruct (is_bool (type x)); [|done]. simpl. intros H. by injection H as <-. Qed.

Lemma builds_not a : builds Γ t a -> builds Γ t (not' a).
Proof.
  intros Ha e He. unfold not' in He. apply bind_Ok in He as (x & Hx & He). apply not_Ok in He as ->.
  apply not_parts. by apply Ha.
Qed.
Lemma truths_not a p : truths a p -> truths (not' a) (fun i => negb (p i)).
Proof.
  intros Hp e He. unfold not' in He. apply bind_Ok in He as (x & Hx & He). apply not_Ok in He as ->.
  by apply truth_not, Hp.
Qed.

Lemma truths_expr e p : truth e p -> truths (built_expr e) p.
Proof. by intros Hp ? [= <-]. Qed.

(** [true] and [false], by the type or by its lanes. *)
Lemma wrap_bool z : 0 <= z < 2 -> wrap_type t z = z.
Proof.
  intros Hz. rewrite bool_self. change (wrap_type (Bool (lanes t)) z) with (uwrap 1 z). apply uwrap_id. unfold in_urange. lia.
Qed.
Lemma builds_true v : type_eqb v t = true -> builds Γ t (make_one v).
Proof. by apply builds_const. Qed.
Lemma builds_false v : type_eqb v t = true -> builds Γ t (make_zero v).
Proof. by apply builds_zero. Qed.
Lemma truths_one v : type_eqb v t = true -> truths (make_one v) (fun _ => true).
Proof.
  intros Hv e He. pose proof (computes_const Γ ρ t Ht v 1 Hv e He) as H. by rewrite wrap_bool in H by lia.
Qed.
Lemma truths_zero v : type_eqb v t = true -> truths (make_zero v) (fun _ => false).
Proof. intros Hv e He. exact (computes_zero Γ ρ t Ht v Hv e He). Qed.
Lemma const_type l : l = lanes t -> type_eqb (UInt 1 l) t = true.
Proof. intros ->. rewrite bool_self at 2. apply type_eqb_refl. Qed.
End Truth.

(** * Conditions that are broadcast *)
Section Lanes.
Context (Γ : gmap string Ty) (ρ : env) (Hρ : env_ok Ideal Γ ρ).
Context (t : Ty) (Ht : std_int t) (Hb : is_bool t = true).

Notation te := (element_of t).

Lemma element_bool : is_bool te = true.
Proof. destruct (element_of_fields t (std_int_bits t Ht)) as (Hc & Hbi & _). unfold is_bool in *. by rewrite Hc, Hbi. Qed.

Lemma truth_broadcast_inv v l p : hasty Γ t (Broadcast v l) -> truth ρ t (Broadcast v l) p ->
  exists q, truth ρ te v q /\ forall i, (i < nlanes t)%nat -> p i = q 0%nat.
Proof.
  intros Hv Hp. destruct (den_broadcast_inv _ _ Hρ _ Ht _ _ _ Hv Hp) as (f & Hf & _ & H).
  destruct (hasty_broadcast Γ t Ht _ _ Hv) as (Hve & _).
  destruct (truth_intro Γ ρ Hρ te (std_element t Ht) element_bool v f Hve Hf) as (q & Hq & Hfq).
  exists q. split; [done|]. intros i Hi. specialize (H i Hi). cbv beta in H.
  rewrite Hfq in H by (rewrite (element_lanes t Ht); lia). by destruct (p i), (q 0%nat).
Qed.

Lemma truths_broadcast r q : lanes t <> 1 -> builds Γ te r -> truths ρ te r q ->
  truths ρ t (broadcast' r (lanes t)) (fun _ => q 0%nat).
Proof. intros Hl Hr Hq. exact (computes_broadcast Γ ρ t Ht r _ Hl Hr Hq). Qed.

Lemma truth_lanes_rewrites e r : hasty Γ t e -> lanes t <> 1 -> builds Γ te r ->
  (forall p, truth ρ t e p -> exists q, truths ρ te r q /\ forall i, (i < nlanes t)%nat -> p i = q 0%nat) ->
  forall x, r = Ok x -> rewrites Γ ρ e (Broadcast x (lanes t)).
Proof.
  intros He Hl Hr Hv. apply (lanes_rewrites Γ ρ Hρ t Ht e r He Hl Hr). intros F HF.
  destruct (truth_intro Γ ρ Hρ t Ht Hb e F He HF) as (p & Hp & HFp). destruct (Hv p Hp) as (q & Hq & H).
  exists (fun i => Z.b2z (q i)). split; [done|]. intros i Hi. by rewrite HFp, H.
Qed.
End Lanes.

(** * Two comparisons at once *)
Section Compared.
Context (equal : ExprRef -> ExprRef -> bool).
Context (Γ : gmap string Ty) (ρ : env) (Hρ : env_ok Ideal Γ ρ).
Context (HE : EqualityTest Γ ρ equal) (Heq : types_equal equal).
Context (t : Ty) (Ht : std_int t) (Hb : is_bool t = true).

(** Types of the same integers. *)
Definition alike (u v : Ty) : Prop := code u = code v /\ bits u = bits v /\ lanes u = lanes v.

Lemma alike_sym u v : alike u v -> alike v u.
Proof. unfold alike. naive_solver. Qed.
Lemma hasty_alike u x : std_int u -> hasty Γ u x -> alike (type x) u.
Proof. intros Hu Hx. by apply (hasty_fields Γ u Hu). Qed.

Lemma retype u v x : std_int u -> std_int v -> alike u v -> hasty Γ v x ->
  hasty Γ u x /\ forall f, den ρ v x f -> den ρ u x f.
Proof.
  intros Hu Hv (Hc & Hbi & Hl) [Hg Hx]. rewrite (type_eqb_std v Hv) in Hx. split.
  - split; [done|]. apply (type_eqb_std u Hu). naive_solver congruence.
  - intros f. unfold den, nlanes. by rewrite Hl.
Qed.

(** Operands the test identifies. *)
Lemma equal_alike u v x y : std_int u -> std_int v -> hasty Γ u x -> hasty Γ v y -> equal (eref x) (eref y) = true -> alike u v.
Proof.
  intros Hu Hv Hx Hy H. pose proof (hasty_alike u x Hu Hx) as (? & ? & ?). pose proof (hasty_alike v y Hv Hy) as (? & ? & ?).
  destruct (Heq x y) as (? & ? & ?); [by destruct Hx as [[]]|by destruct Hy as [[]]|done|]. unfold alike. naive_solver congruence.
Qed.

Lemma equal_operands u v x y f g : lanes u = lanes t -> lanes v = lanes t -> hasty Γ u x -> hasty Γ v y ->
  den ρ u x f -> den ρ v y g -> equal (eref x) (eref y) = true -> forall i, (i < nlanes t)%nat -> f i = g i.
Proof.
  intros Hu Hv [[] _] [[] _] Hf Hg H. assert (He : eval Ideal ρ x = eval Ideal ρ y) by (apply HE; auto using usual_plain).
  unfold den, nlanes in *. rewrite Hu in Hf. rewrite Hv in Hg. rewrite He, Hg in Hf. apply tab_eq. congruence.
Qed.

(** Conditions the test identifies. *)
Lemma equal_truth x y p q : hasty Γ t x -> hasty Γ t y -> truth ρ t x p -> truth ρ t y q -> equal (eref x) (eref y) = true ->
  forall i, (i < nlanes t)%nat -> p i = q i.
Proof.
  intros Hx Hy Hp Hq H i Hi. pose proof (equal_operands t t x y _ _ eq_refl eq_refl Hx Hy Hp Hq H i Hi) as E.
  cbv beta in E. by destruct (p i), (q i).
Qed.
End Compared.

Lemma one_truth Γ ρ t x p : std_int t -> hasty Γ t x -> is_one x = true -> truth ρ t x p -> forall i, (i < nlanes t)%nat -> p i = true.
Proof.
  intros Ht Hx H1 Hp i Hi. pose proof (one_lanes Γ ρ t x _ H1 (hasty_good _ _ _ Hx) Hp i Hi) as H.
  cbv beta in H. by destruct (p i).
Qed.
Lemma zero_truth Γ ρ t x p : std_int t -> hasty Γ t x -> is_zero x = true -> truth ρ t x p -> forall i, (i < nlanes t)%nat -> p i = false.
Proof.
  intros Ht Hx H1 Hp i Hi. pose proof (zero_lanes Γ ρ t x _ H1 (hasty_good _ _ _ Hx) Hp i Hi) as H.
  cbv beta in H. by destruct (p i).
Qed.

(** The ways a comparison is made of operands of one type. *)
Section CompareJoins.
Context (Γ : gmap string Ty) (u : Ty) (Hu : std_int u).

Lemma joins_EQ_make : joins Γ u EQ EQ_make.
Proof. apply (joins_make Γ u EQ "EQ"). Qed.
Lemma joins_NE_make : joins Γ u NE NE_make.
Proof. apply (joins_make Γ u NE "NE"). Qed.
Lemma joins_LT_make : joins Γ u LT LT_make.
Proof. apply (joins_make Γ u LT "LT"). Qed.
Lemma joins_LE_make : joins Γ u LE LE_make.
Proof. apply (joins_make Γ u LE "LE"). Qed.
Lemma joins_GT_make : joins Γ u GT GT_make.
Proof. apply (joins_make Γ u GT "GT"). Qed.
Lemma joins_GE_make : joins Γ u GE GE_make.
Proof. apply (joins_make Γ u GE "GE"). Qed.
Lemma joins_eq : joins Γ u EQ operator_eq.
Proof. apply (joins_operator Γ u Hu EQ). Qed.
Lemma joins_ne : joins Γ u NE operator_ne.
Proof. apply (joins_operator Γ u Hu NE). Qed.
Lemma joins_lt : joins Γ u LT operator_lt.
Proof. apply (joins_operator Γ u Hu LT). Qed.
Lemma joins_le : joins Γ u LE operator_le.
Proof. apply (joins_operator Γ u Hu LE). Qed.
Lemma joins_gt : joins Γ u GT operator_gt.
Proof. apply (joins_operator Γ u Hu GT). Qed.
Lemma joins_ge : joins Γ u GE operator_ge.
Proof. apply (joins_operator Γ u Hu GE). Qed.
End CompareJoins.

Ltac join_cmp Hu :=
  lazymatch goal with
  | |- joins _ _ _ EQ_make => apply joins_EQ_make
  | |- joins _ _ _ NE_make => apply joins_NE_make
  | |- joins _ _ _ LT_make => apply joins_LT_make
  | |- joins _ _ _ LE_make => apply joins_LE_make
  | |- joins _ _ _ GT_make => apply joins_GT_make
  | |- joins _ _ _ GE_make => apply joins_GE_make
  | |- joins _ _ _ operator_eq => apply joins_eq; exact Hu
  | |- joins _ _ _ operator_ne => apply joins_ne; exact Hu
  | |- joins _ _ _ operator_lt => apply joins_lt; exact Hu
  | |- joins _ _ _ operator_le => apply joins_le; exact Hu
  | |- joins _ _ _ operator_gt => apply joins_gt; exact Hu
  | |- joins _ _ _ operator_ge => apply joins_ge; exact Hu
  end.
(** The type of the condition a rule builds, and its truth. *)
Ltac build_cond Ht Hb :=
  first
    [ assumption
    | lazymatch goal with
      | |- builds _ _ (built_expr _) => apply builds_expr; first [assumption|apply (logic_built _ _ Ht Hb); [reflexivity|assumption|assumption]]
      | |- builds ?Γ ?t (make_zero _) => apply (builds_false Γ empty_env t Ht); same_bool Ht
      | |- builds ?Γ ?t (make_one _) => apply (builds_true Γ empty_env t Ht); same_bool Ht
      | |- builds ?Γ ?t (const_true _) => apply (builds_true Γ empty_env t Ht), (const_type t Ht Hb); first [reflexivity|assumption]
      | |- builds ?Γ ?t (const_false _) => apply (builds_false Γ empty_env t Ht), (const_type t Ht Hb); first [reflexivity|assumption]
      | |- builds ?Γ ?t (not' _) => apply (builds_not Γ t Ht Hb); build_cond Ht Hb
      | |- builds ?Γ ?t (on2 And_make _ _) => apply (builds_logic Γ t Ht Hb And); [reflexivity|apply logic_joins_And|build_cond Ht Hb|build_cond Ht Hb]
      | |- builds ?Γ ?t (on2 Or_make _ _) => apply (builds_logic Γ t Ht Hb Or); [reflexivity|apply logic_joins_Or|build_cond Ht Hb|build_cond Ht Hb]
      | |- builds ?Γ ?t (on2 operator_and _ _) => apply (builds_logic Γ t Ht Hb And); [reflexivity|apply (logic_joins_and Γ t Ht)|build_cond Ht Hb|build_cond Ht Hb]
      | |- builds ?Γ ?t (on2 operator_or _ _) => apply (builds_logic Γ t Ht Hb Or); [reflexivity|apply (logic_joins_or Γ t Ht)|build_cond Ht Hb|build_cond Ht Hb]
      | |- builds ?Γ ?t (on2 _ _ _) =>
          match goal with Hu : std_int ?u, Hl : lanes ?u = lanes t |- _ =>
            eapply (builds_cmp Γ t Ht Hb u Hu Hl); [|join_cmp Hu|solve [build Hu]|solve [build Hu]]; reflexivity end
      end ]
with same_bool Ht := first [apply type_eqb_refl|eapply hasty_type; eassumption].
Ltac compute_cond Ht Hb :=
  lazymatch goal with
  | |- truths _ _ (built_expr _) _ => apply truths_expr; first [eassumption|match goal with H : split_already _ _ ?e _ |- truth _ _ ?e _ => exact H end]
  | |- truths ?ρ ?t (make_zero _) _ => apply (truths_zero ∅ ρ t Ht); same_bool Ht
  | |- truths ?ρ ?t (make_one _) _ => apply (truths_one ∅ ρ t Ht Hb); same_bool Ht
  | |- truths ?ρ ?t (const_true _) _ => apply (truths_one ∅ ρ t Ht Hb), (const_type t Ht Hb); first [reflexivity|assumption]
  | |- truths ?ρ ?t (const_false _) _ => apply (truths_zero ∅ ρ t Ht), (const_type t Ht Hb); first [reflexivity|assumption]
  | |- truths ?ρ ?t (not' _) _ => eapply truths_not; compute_cond Ht Hb
  | |- truths ?ρ ?t (on2 And_make _ _) _ =>
      match goal with _ : hasty ?Γ t _ |- _ => eapply (truths_logic Γ ρ t And); [reflexivity|apply logic_joins_And|solve [build_cond Ht Hb]|solve [build_cond Ht Hb]|compute_cond Ht Hb|compute_cond Ht Hb] end
  | |- truths ?ρ ?t (on2 Or_make _ _) _ =>
      match goal with _ : hasty ?Γ t _ |- _ => eapply (truths_logic Γ ρ t Or); [reflexivity|apply logic_joins_Or|solve [build_cond Ht Hb]|solve [build_cond Ht Hb]|compute_cond Ht Hb|compute_cond Ht Hb] end
  | |- truths ?ρ ?t (on2 operator_and _ _) _ =>
      match goal with _ : hasty ?Γ t _ |- _ => eapply (truths_logic Γ ρ t And); [reflexivity|apply (logic_joins_and _ t Ht)|solve [build_cond Ht Hb]|solve [build_cond Ht Hb]|compute_cond Ht Hb|compute_cond Ht Hb] end
  | |- truths ?ρ ?t (on2 operator_or _ _) _ =>
      match goal with _ : hasty ?Γ t _ |- _ => eapply (truths_logic Γ ρ t Or); [reflexivity|apply (logic_joins_or _ t Ht)|solve [build_cond Ht Hb]|solve [build_cond Ht Hb]|compute_cond Ht Hb|compute_cond Ht Hb] end
  | |- truths ?ρ ?t (on2 _ _ _) _ =>
      match goal with Hu : std_int ?u, Hl : lanes ?u = lanes t, _ : hasty ?Γ t _ |- _ =>
        eapply (truths_cmp Γ ρ t Ht Hb u Hu Hl); [|join_cmp Hu|solve [build Hu]|solve [build Hu]|compute_lanes Hu|compute_lanes Hu]; reflexivity end
  end.

(** The types of the operands of the comparisons at hand, and their lanes. *)
Ltac split_compares Ht Hb :=
  repeat match goal with
  | K : compares_ints (Bin ?op ?x ?y), H : hasty ?Γ ?t (Bin ?op ?x ?y) |- _ =>
      let Hu := fresh "Hu" in pose proof (K eq_refl : std_int (type x)) as Hu; clear K;
      let Hl := fresh "Hl" in
      destruct (cmp_parts Γ t Hb op x y eq_refl Hu H) as (? & ? & Hl)
  end.
Ltac split_truths Hρ Ht Hb :=
  repeat match goal with
  | H : truth ?ρ ?t (Bin ?op ?x ?y) ?p, Hu : std_int (type ?x), Hl : lanes (type ?x) = lanes ?t |- _ =>
      pose proof (H : split_already ρ t (Bin op x y) (fun i => Z.b2z (p i)));
      eapply (truth_cmp_inv _ ρ Hρ t Ht Hb (type x) Hu Hl op x y p eq_refl) in H; [|eassumption|eassumption];
      destruct H as (? & ? & ? & ? & ?)
  | H : truth ?ρ ?t (Bin ?op ?x ?y) ?p, Hxy : hasty _ ?t (Bin ?op ?x ?y) |- _ =>
      eapply (truth_logic_inv _ ρ Hρ t Ht Hb op x y p eq_refl Hxy) in H; destruct H as (? & ? & ? & ? & ?)
  | H : truth ?ρ ?t (Not ?x) ?p |- _ =>
      pose proof (H : split_already ρ t (Not x) (fun i => Z.b2z (p i)));
      eapply (truth_not_inv _ ρ Hρ t Ht Hb x p) in H; [|eapply (not_parts _ t Ht Hb); eassumption]; destruct H as (? & ? & ?)
  end.
(** Everything known of the truth at one lane. *)
Ltac at_truth :=
  let i := fresh "i" in let Hi := fresh "Hi" in intros i Hi;
  repeat match goal with H : forall j, (j < _)%nat -> _ |- _ => specialize (H i Hi) end;
  repeat match goal with H : _ /\ _ |- _ => destruct H end;
  repeat match goal with H : ?f ?i = _ |- _ => is_var f; is_var i; rewrite H in *; clear H end;
  cbn [icmp iop lop] in *.
(** What the tests of a rule say of the truth of its operands. *)
Ltac test_truths HE Ht :=
  repeat match goal with
  | H : is_one ?x = true, Hp : truth ?ρ ?t ?x ?p, Hx : hasty ?Γ ?t ?x |- _ => pose proof (one_truth Γ ρ t x p Ht Hx H Hp); clear H
  | H : is_zero ?x = true, Hp : truth ?ρ ?t ?x ?p, Hx : hasty ?Γ ?t ?x |- _ => pose proof (zero_truth Γ ρ t x p Ht Hx H Hp); clear H
  | H : ?test (eref ?x) (eref ?y) = true, Hp : truth ?ρ ?t ?x ?p, Hq : truth ?ρ ?t ?y ?q |- _ =>
      pose proof (equal_truth test _ ρ HE t x y p q ltac:(assumption) ltac:(assumption) Hp Hq H); clear H
  | H : ?test (eref ?x) (eref ?y) = true, Hf : den ?ρ ?u ?x ?f, Hg : den ?ρ ?v ?y ?g,
    Hu : lanes ?u = lanes ?t, Hv : lanes ?v = lanes ?t |- _ =>
      pose proof (equal_operands test _ ρ HE t u v x y f g Hu Hv ltac:(assumption) ltac:(assumption) Hf Hg H); clear H
  end.
(** Comparisons with a common operand compare values of one type. *)
Ltac unify_types Heq ρ :=
  match goal with
  | _ : hasty ?Γ ?t (Bin _ ?x1 ?x2), Hu : std_int (type ?x1), _ : hasty ?Γ ?t (Bin _ ?y1 ?y2), Hv : std_int (type ?y1),
    H : ?test (eref ?x) (eref ?y) = true |- _ =>
      let Hal := fresh "Hal" in
      assert (Hal : alike (type x1) (type y1)) by (eapply (equal_alike test Γ Heq _ _ x y Hu Hv); [assumption|assumption|exact H]);
      destruct (retype Γ ρ (type x1) (type y1) y1 Hu Hv Hal ltac:(assumption));
      destruct (retype Γ ρ (type x1) (type y1) y2 Hu Hv Hal ltac:(assumption))
  end.
Ltac retype_lanes :=
  repeat match goal with Hd : forall f, den ?ρ ?v ?w f -> den ?ρ ?u ?w f, K : den ?ρ ?v ?w ?g |- _ => pose proof (Hd g K); clear Hd end.
(** A rule that builds one condition from the operands: what is left is the equation
    of a lane. *)
Ltac truth_of_rule Hρ HE Ht Hb :=
  let p := fresh "p" in let Hp := fresh "Hp" in
  cbn [action_ok]; eapply (truth_rewrites _ _ Hρ _ Ht Hb); [assumption|build_cond Ht Hb|];
  intros p Hp; split_truths Hρ Ht Hb; retype_lanes; test_truths HE Ht; eexists; split; [compute_cond Ht Hb|at_truth].
Ltac truth_rule Hρ HE Ht Hb :=
  let act := fresh "act" in let Hact := fresh "Hact" in
  intros act Hact; rule_action Hact act; split_bools; split_compares Ht Hb; truth_of_rule Hρ HE Ht Hb.

(** The cases of a test. *)
Ltac split_tests :=
  repeat match goal with
  | H : _ || _ = true |- _ => apply orb_true_iff in H; destruct H as [H|H]
  | H : _ && _ = true |- _ => apply andb_true_iff in H; destruct H
  end.
