(* ===== verification/SimplifyNot.v ===== *)
(** The simplifier's visits of [Not], [NE], [LE], [GT] and [GE] (src/src/Simplify.cpp),
    and the proof that they keep the truth of conditions on integers. *)

From Stdlib Require Import ZArith Lia Bool SpecFloat String ZifyBool.
From stdpp Require Import prelude strings gmap.
From S2P Require Import Prelude Types IR Semantics Scope Operators ModulusRemainder Mutator Equality EqualityMeaning Interval ConstBounds Monotonic Lanes Conditions Simplify SimplifyRules SimplifyConditions.

#[local] Open Scope Z_scope.
#[local] Open Scope halide_scope.

Definition not_rules (a : Expr) : list rule := [
  when (is_one a) (Result (make_zero (type a)));
  when (is_zero a) (Result (make_one (type a)));
  on_not a (fun x => Some (Result x));
  on_bin LE a (fun x y => Some (Result (on2 LT_make y x)));
  on_bin GE a (fun x y => Some (Result (on2 LT_make x y)));
  on_bin LT a (fun x y => Some (Result (on2 LE_make y x)));
  on_bin GT a (fun x y => Some (Result (on2 LE_make x y)));
  on_bin NE a (fun x y => Some (Result (on2 EQ_make x y)));
  on_bin EQ a (fun x y => Some (Result (on2 NE_make x y)));
  on_broadcast a (fun value lanes => Some (Mutate (broadcast' (not' value) lanes)))
].

Section Visits.
Context (same_as : ExprRef -> ExprRef -> bool) (mutate : Expr -> mut Simplify ExprRef).

Definition visit_Not (op op_a : Expr) : mut Simplify ExprRef :=
  a ← mutate_defined mutate op_a;
  match first_rule (not_rules a) with
  | Some act => run_action mutate act
  | None =>
      if same_as (eref a) (eref op_a) then mret (eref op)
      else e ← lift (Not_make (eref a)); mret (eref e)
  end.

Definition visit_NE (op_a op_b : Expr) : mut Simplify ExprRef :=
  run_action mutate (Mutate (not' (on2 operator_eq op_a op_b))).
Definition visit_LE (op_a op_b : Expr) : mut Simplify ExprRef :=
  run_action mutate (Mutate (not' (on2 operator_lt op_b op_a))).
Definition visit_GT (op_a op_b : Expr) : mut Simplify ExprRef :=
  run_action mutate (Mutate (on2 operator_lt op_b op_a)).
Definition visit_GE (op_a op_b : Expr) : mut Simplify ExprRef :=
  run_action mutate (Mutate (not' (on2 operator_lt op_a op_b))).
End Visits.

Section Rules.
Context (Γ : gmap string Ty) (ρ : env) (Hρ : env_ok Ideal Γ ρ).
Context (t : Ty) (Ht : std_int t) (Hb : is_bool t = true).

Lemma not_rules_right a : hasty Γ t a -> compares_ints a -> Forall (rule_ok Γ ρ (Not a)) (not_rules a).
Proof.
  intros Ha Hi. pose proof (proj2 (not_parts Γ t Ht Hb a) Ha) as Hna. unfold not_rules.
  repeat (apply Forall_cons; split); [..|by apply Forall_nil].
  1-2: truth_rule Hρ I Ht Hb; done.
  2-7: truth_rule Hρ I Ht Hb; lia.
  - intros act Hact. apply on_not_Some in Hact as (x & -> & [= <-]). pose proof (proj1 (not_parts Γ t Ht Hb x) Ha).
    truth_of_rule Hρ I Ht Hb. by rewrite negb_involutive.
  - intros act Hact. apply on_broadcast_Some in Hact as (x & l & -> & [= <-]). cbn [action_ok].
    destruct (hasty_broadcast Γ t Ht _ _ Ha) as (Hx & -> & Hl).
    pose proof (std_element t Ht) as Hte. pose proof (element_bool t Ht Hb) as Hbe.
    assert (Hnx : builds Γ (element_of t) (not' x)) by (by apply (builds_not Γ _ Hte Hbe), builds_expr).
    eapply (truth_rewrites _ _ Hρ _ Ht Hb); [done|by apply (builds_broadcast Γ t Ht)|]. intros p Hp.
    apply (truth_not_inv Γ ρ Hρ t Ht Hb _ p Ha) in Hp as (q & Hq & Hpq).
    destruct (truth_broadcast_inv Γ ρ Hρ t Ht Hb x _ q Ha Hq) as (r & Hr & Hqr).
    eexists. split; [apply (truths_broadcast Γ ρ t Ht); [done|done|]; by apply truths_not, truths_expr|].
    intros i Hlt. by rewrite Hpq, Hqr.
Qed.
End Rules.

(** The type of a condition on integers. *)
Lemma std_Bool l : 0 < l < 65536 -> std_int (Bool l) /\ is_bool (Bool l) = true /\ lanes (Bool l) = l.
Proof. intros Hl. assert (lanes (Bool l) = l) as H by (apply small_lanes; lia). split; [|done]. split; [done|]. by rewrite H. Qed.

(** C19. The simplifier's visit of [Not] keeps the truth of a negation, through every rule of
    its chain, when the mutated operand, if it is a comparison, compares integers. *)
Theorem visit_Not_sound facts equal same_as mutate Γ ρ s op_a :
  Facts facts equal -> Simplifies facts mutate -> facts Γ ρ s -> good Γ (Not op_a) -> 0 < lanes (type op_a) ->
  (forall a s1, mutate op_a s = Ok (Some a, s1) -> compares_ints a) ->
  simplifies facts (visit_Not same_as mutate (Not op_a) op_a) Γ ρ s (Not op_a).
Proof.
  intros HF HM Hs Hg Hl Hcmp r s' H. pose proof (facts_env _ _ Γ ρ s Hs) as Hρ.
  assert (Hga : good Γ op_a) by (by destruct Hg as [[_ ?] ? ?]).
  assert (Hba : is_bool (type op_a) = true) by (by destruct Hg as [[? _] _ _]).
  pose proof (ty_ok_type Γ op_a (good_wf _ _ Hga) (good_typed _ _ Hga)) as [_ Hlt].
  destruct (std_Bool (lanes (type op_a)) ltac:(lia)) as (Ht & Hb & Hlb). set (t := Bool (lanes (type op_a))) in *.
  assert (Ha : hasty Γ t op_a) by (split; [done|]; by apply (bool_type_iff t Ht Hb)).
  unfold visit_Not in H. apply mut_bind_Ok in H as (a & s1 & Hx & H). apply mutate_defined_Ok in Hx.
  destruct (simplifies_expr facts Γ ρ s op_a Hs Hga _ _ Hx) as (x & [= <-] & [Hgx Htx Hs1 Hc1 Hv1]).
  assert (Hha : hasty Γ t a) by (split; [done|]; eapply type_eqb_trans; [done|apply Ha]).
  pose proof (proj2 (not_parts Γ t Ht Hb a) Hha) as Hna.
  assert (Hsd : simplified facts Γ ρ s (Not op_a) (Not a) s1).
  { split; try done.
    - apply Hna.
    - eapply (type_eqb_trans_std t Ht); [apply Hna|]. by apply (hasty_type _ _ _ (proj2 (not_parts Γ t Ht Hb op_a) Ha)).
    - intros Hc v Hv. cbn [eval] in Hv |- *. apply bind_Some in Hv as (w & Hw & Hv). by rewrite (Hv1 Hc _ Hw). }
  destruct (first_rule (not_rules a)) as [act|] eqn:Er.
  - eapply (then_action facts equal mutate Γ ρ s s1); eauto.
    eapply first_rule_ok; [|exact Er]. apply (not_rules_right Γ ρ Hρ t Ht Hb); eauto.
  - destruct (same_as (eref a) (eref op_a)).
    + apply mut_ret_Ok in H as [= -> ->]. exists (Not op_a). split; [done|]. split; try done; [apply type_eqb_refl].
    + apply mut_bind_Ok in H as (e & s2 & He & H). apply lift_Ok in He as [He ->]. apply mut_ret_Ok in H as [= -> ->].
      apply not_Ok in He as ->. by exists (Not a).
Qed.

(** [!((x <= y))] becomes [y < x]. *)
Lemma visit_Not_sound_witness :
  let c := Bin LE x32 y32 in
  visit_Not same_expr_ref no_mutate (Not c) c new_simplify = Ok (eref (Bin LT y32 x32), new_simplify) /\
  eval Ideal (xy_env 5 (-4)) (Not c) = Some [VInt 1] /\
  simplifies env_facts (visit_Not same_expr_ref no_mutate (Not c) c) xy_types (xy_env 5 (-4)) new_simplify (Not c).
Proof.
  split; [by vm_compute|]. split; [by vm_compute|].
  apply (visit_Not_sound env_facts ptr_equal same_expr_ref no_mutate).
  - apply env_facts_Facts.
  - apply no_mutate_Simplifies.
  - apply xy_facts.
  - split; [repeat split; by vm_compute|repeat split; by vm_compute|by vm_compute].
  - by vm_compute.
  - intros a s1 [= <- <-] _. split; [by vm_compute|]. split; by vm_compute.
Defined.

(** * Comparisons, by the order *)

Definition visit_comparison (mutate : Expr -> mut Simplify ExprRef) (op : binop) : Expr -> Expr -> mut Simplify ExprRef :=
  match op with
  | NE => visit_NE mutate
  | LE => visit_LE mutate
  | GT => visit_GT mutate
  | GE => visit_GE mutate
  | _ => fun op_a op_b => mret (eref (Bin op op_a op_b))
  end.

(** C20. The simplifier's visits of [NE], [LE], [GT] and [GE] keep the truth of a comparison
    of integers: they mutate the negation of [==], or of the strict order, with the
    operands on the right sides. *)
Theorem visit_comparisons_sound facts equal mutate Γ ρ s op op_a op_b :
  Facts facts equal -> Simplifies facts mutate -> facts Γ ρ s -> op = NE \/ op = LE \/ op = GT \/ op = GE ->
  good Γ (Bin op op_a op_b) -> std_int (type op_a) ->
  simplifies facts (visit_comparison mutate op op_a op_b) Γ ρ s (Bin op op_a op_b).
Proof.
  intros HF HM Hs Hop Hg Hu. pose proof (facts_env _ _ Γ ρ s Hs) as Hρ.
  destruct (std_Bool (lanes (type op_a)) ltac:(by destruct Hu as (_ & ? & _))) as (Ht & Hb & Hl).
  set (t := Bool (lanes (type op_a))) in *. symmetry in Hl.
  destruct (cmp_hasty Γ _ Hu op op_a op_b Hg (type_eqb_refl _)) as [Ha Hb'].
  assert (He : hasty Γ t (Bin op op_a op_b)) by (split; [done|]; rewrite type_cmp by (by destruct_or? Hop; subst); apply type_eqb_refl).
  destruct Hop as [-> |[-> |[-> | ->]]]; cbn [visit_comparison]; apply (run_action_sound facts equal mutate); try done;
    truth_of_rule Hρ I Ht Hb; lia.
Qed.

Lemma visit_comparisons_sound_witness :
  visit_comparison no_mutate GE x32 y32 new_simplify = Ok (eref (Not (Bin LT x32 y32)), new_simplify) /\
  eval Ideal (xy_env 5 5) (Bin GE x32 y32) = Some [VInt 1] /\
  simplifies env_facts (visit_comparison no_mutate GE x32 y32) xy_types (xy_env 5 5) new_simplify (Bin GE x32 y32).
Proof.
  split; [by vm_compute|]. split; [by vm_compute|].
  apply (visit_comparisons_sound env_facts ptr_equal no_mutate).
  - apply env_facts_Facts.
  - apply no_mutate_Simplifies.
  - apply xy_facts.
  - by right; right; right.
  - split; [repeat split; by vm_compute|repeat split; by vm_compute|by vm_compute].
  - split; [by vm_compute|]. split; by vm_compute.
Defined.
