(* ===== verification/SimplifyLogic.v ===== *)
(** What the simplifier's visits of [And] and [Or] share (src/src/Simplify.cpp): the
    substitution of what one side says of a variable into the other, the rules for
    broadcasts, and the shape of the visits. *)

From Stdlib Require Import ZArith Lia Bool SpecFloat String ZifyBool.
From stdpp Require Import prelude strings gmap.
From S2P Require Import Prelude Types IR Semantics Scope Operators ModulusRemainder Mutator Visitor Substitute ExprUsesVar Equality EqualityMeaning Interval ConstBounds Monotonic Lanes Conditions Simplify SimplifyRules SimplifyQuotient SimplifyConditions.

#[local] Open Scope Z_scope.
#[local] Open Scope halide_scope.

(** The condition of the rules that distribute [||] over [&&]. *)
Definition distributes (c a b : Expr) : bool :=
  match is_var_simple_const_comparison c with
  | Some name_c =>
      bool_decide (is_var_simple_const_comparison a = Some name_c) ||
      bool_decide (is_var_simple_const_comparison b = Some name_c)
  | None => false
  end.

(** [a] is the negation of [b]. *)
Definition negates (equal : ExprRef -> ExprRef -> bool) (a b : Expr) : bool :=
  match a with Not x => equal (eref x) (eref b) | _ => false end.

Lemma negates_true equal a b : negates equal a b = true -> exists x, a = Not x /\ equal (eref x) (eref b) = true.
Proof. destruct a; naive_solver. Qed.
Ltac negated_side Ht Hb :=
  match goal with H : negates _ _ _ = true |- _ =>
    apply negates_true in H; destruct H as (? & -> & ?);
    match goal with K : hasty ?Γ ?t (Not ?x) |- _ => pose proof (proj1 (not_parts Γ t Ht Hb x) K) end
  end.

(** * Substitution into the other side *)

(** The test finds the occurrences of a variable, and nothing else. *)
Definition finds_variables (equal : ExprRef -> ExprRef -> bool) : Prop := forall Γ e ty n i p r,
  typed Γ e -> usual_types e = true -> Γ !! n = Some ty ->
  equal (eref e) (eref (Var ty n i p r)) = true <-> exists i' p' r', e = Var ty n i' p' r'.

Lemma equal_finds_variables addr same_as : (forall a b, same_as a b = true -> a = b) -> finds_variables (equal addr same_as).
Proof.
  intros Hs Γ e ty n i p r Ht Hu Hn. rewrite equal_key; [|done|by apply plain_floats_nan_free, usual_plain|done].
  split.
  - intros H. assert (Hk : key e = key (Var ty n i p r)) by (by injection H). clear H. apply key_erase_iff in Hk as H. destruct e; try done. injection H as _ _ _ ->.
    destruct Ht as [_ Ht]. simplify_eq. eauto.
  - intros (i' & p' & r' & ->). done.
Qed.

Lemma usual_types_children e : usual_types e = true -> Forall (fun c => usual_types c = true) (children e).
Proof.
  destruct e; simpl; rewrite ?andb_true_iff; intros H; repeat constructor; try tauto.
  apply Forall_forall. intros x Hx. destruct H as [_ H]. rewrite forallb_forall in H. by apply H, list_elem_of_In.
Qed.

Lemma usual_types_map g e : usual_types e = true -> Forall (fun c => usual_types (g c) = true) (children e) ->
  usual_types (map_children g e) = true.
Proof.
  destruct e; simpl; rewrite ?andb_true_iff, ?Forall_cons; try tauto.
  intros [H _] Ha. split; [done|]. apply forallb_forall. intros y Hy. apply in_map_iff in Hy as (x & <- & Hx).
  rewrite Forall_forall in Ha. by apply Ha, list_elem_of_In.
Qed.

Lemma usual_types_subst n k e : usual_types k = true -> let_free e -> usual_types e = true -> usual_types (subst {[n := k]} e) = true.
Proof.
  intros Hk. induction e as [e IH] using Expr_children_ind; intros Hf Hu.
  destruct (view e) as [t m i q u ->|m v b ->|Hl Hv Hs].
  - simpl. destruct (decide (n = m)) as [->|Hn]; [by rewrite lookup_singleton_eq|by rewrite lookup_singleton_ne].
  - by apply let_free_is_let in Hf.
  - rewrite Hs. apply usual_types_map; [done|]. apply usual_types_children in Hu. apply lets_avoid_children in Hf.
    rewrite Forall_forall in IH, Hu, Hf |- *. intros c Hc. apply IH; [done|by apply Hf|by apply Hu].
Qed.

Section Substitution.
Context (same_as equal : ExprRef -> ExprRef -> bool).
Hypothesis same_as_sound : forall a b, same_as a b = true -> a = b.
Hypothesis equal_variables : finds_variables equal.
Context (Γ : gmap string Ty) (n : string) (ty : Ty) (k : Expr).
Hypothesis n_type : Γ !! n = Some ty.
Hypothesis k_type : type k = ty.
Hypothesis k_good : good Γ k.

Lemma one_replacement_ok : repl_ok Γ {[n := k]}.
Proof. intros m r u [<- <-]%lookup_singleton_Some Hu. simplify_eq. split; [by destruct k_good|done]. Qed.

Lemma substitute_expr_spec i p r e : wf e -> typed Γ e -> usual_types e = true -> let_free e ->
  returns (fun _ => True) (substitute_expr_mutate same_as equal (eref (Var ty n i p r)) (eref k) e) (Some (subst {[n := k]} e)).
Proof.
  induction e as [e IH] using Expr_children_ind; intros Hwf Ht Hu Hf.
  assert (Hstep : substitute_expr_mutate same_as equal (eref (Var ty n i p r)) (eref k) e =
    if equal (eref e) (eref (Var ty n i p r)) then mret (eref k)
    else visit_expr same_as (substitute_expr_mutate same_as equal (eref (Var ty n i p r)) (eref k)) e) by (by destruct e).
  rewrite Hstep. pose proof (equal_variables Γ e ty n i p r Ht Hu n_type) as Hvar.
  destruct (equal (eref e) (eref (Var ty n i p r))).
  - destruct (proj1 Hvar eq_refl) as (i' & p' & r' & ->). simpl. rewrite lookup_singleton_eq. apply returns_ret.
  - destruct (view e) as [t m j q u ->|m v b ->|Hl Hv Hs].
    + simpl. rewrite lookup_singleton_ne; [apply returns_ret|]. intros <-. destruct Ht as [_ Ht]. simplify_eq.
      by assert (false = true) by (apply Hvar; eauto).
    + by apply let_free_is_let in Hf.
    + rewrite Hs. apply visit_expr_returns; [done| |].
      * apply wf_children in Hwf. apply typed_children in Ht; [|done]. apply usual_types_children in Hu. apply lets_avoid_children in Hf.
        rewrite Forall_forall in IH, Hwf, Ht, Hu, Hf |- *. intros c Hc. apply IH; [done|by apply Hwf|by apply Ht|by apply Hu|by apply Hf].
      * apply map_children_wf_node; [by apply wf_here|]. eapply subst_types_below; [done|exact Ht|apply one_replacement_ok].
Qed.

Lemma substitute_expr_run i p r e : good Γ e -> let_free e ->
  substitute_expr same_as equal (eref (Var ty n i p r)) (eref k) (eref e) = Ok (eref (subst {[n := k]} e)).
Proof.
  intros [Hwf Ht Hu] Hf. unfold substitute_expr. simpl.
  destruct (substitute_expr_spec i p r e Hwf Ht Hu Hf tt I) as ([] & -> & _). done.
Qed.

Lemma substitute_var_run e : good Γ e -> substitute_var same_as n (eref k) (eref e) = Ok (eref (subst {[n := k]} e)).
Proof.
  intros [Hwf Ht _]. unfold substitute_var, substitute. cbn [mutate_ref eref].
  assert (Hd : defined_replacements {[n := eref k]} = {[n := k]}).
  { unfold defined_replacements, eref. by rewrite omap_singleton_Some with (y := k). }
  pose proof (in_force_new {[n := eref k]}) as Hin. rewrite Hd in Hin.
  by rewrite (substitute_mutate_spec same_as same_as_sound {[n := eref k]} e Γ _ _ scope_new_wf Hin Hwf Ht one_replacement_ok).
Qed.

Lemma subst_good e : good Γ e -> let_free e -> good Γ (subst {[n := k]} e) /\ type (subst {[n := k]} e) = type e.
Proof.
  intros [Hwf Ht Hu] Hf. split; [|by eapply subst_type; [exact Ht|apply one_replacement_ok]]. split.
  - eapply subst_wf; [done|exact Ht|apply one_replacement_ok].
  - eapply (typed_subst_let_free e Γ Γ); [done|done|apply one_replacement_ok|]. intros m t Hm.
    destruct (decide (n = m)) as [<-|Hn]; [rewrite lookup_singleton_eq|by rewrite lookup_singleton_ne]. by destruct k_good.
  - apply usual_types_subst; [by destruct k_good|done|done].
Qed.

(** Where the variable has the replacement's value, nothing changes. *)
Lemma subst_same ρ e : typed Γ e -> let_free e -> vars ρ !! n = eval Ideal ρ k -> eval Ideal ρ (subst {[n := k]} e) = eval Ideal ρ e.
Proof.
  intros Ht Hf Hk. eapply eval_subst; [exact Ht|apply one_replacement_ok|by apply let_free_avoid|]. split; [done|]. intros m.
  destruct (decide (n = m)) as [<-|Hn]; [by rewrite lookup_singleton_eq|by rewrite lookup_singleton_ne].
Qed.
End Substitution.

(** One side [a] fixes a variable where its truth is [v], and leaves the other side
    open: [x == k], or a condition that is a variable. *)
Definition fixes (v : bool) (a : Expr) (n : string) (ty : Ty) (k : Expr) : Prop :=
  match a with
  | Bin EQ (Var ty' n' _ _ _) k' => v = true /\ is_simple_const k' = true /\ n' = n /\ ty' = ty /\ k' = k
  | Var ty' n' _ _ _ => n' = n /\ ty' = ty /\ (if v then make_one ty else make_zero ty) = Ok k
  | _ => False
  end.

(** The substitution is between scalars, cannot be captured, and leaves the other side
    with a value: under [&&] and [||] both sides are evaluated, and one that divides by
    the variable could be made to divide by zero. *)
Record subst_safe (ρ : env) (t : Ty) (b : Expr) (n : string) (ty : Ty) (k : Expr) : Prop := {
  safe_scalar : lanes t = 1;
  safe_type : type k = ty;
  safe_lets : let_free b;
  safe_value : is_Some (eval Ideal ρ b) -> is_Some (eval Ideal ρ (subst {[n := k]} b))
}.

(** What the other side needs, when it uses the variable. *)
Definition side_safe (same_node : Expr -> Expr -> bool) (v : bool) (ρ : env) (t : Ty) (a b : Expr) : Prop :=
  forall n ty k, fixes v a n ty k -> expr_uses_var same_node b n = true -> subst_safe ρ t b n ty k.

(** The comparisons of the sides compare integers, and what one side says of a variable
    may be substituted in the other. *)
Record logic_safe (same_node : Expr -> Expr -> bool) (v : bool) (ρ : env) (t : Ty) (a b : Expr) : Prop := {
  safe_left : compares_ints a;
  safe_right : compares_ints b;
  safe_into_right : side_safe same_node v ρ t a b;
  safe_into_left : side_safe same_node v ρ t b a
}.

Section Sides.
Context (Γ : gmap string Ty) (ρ : env) (Hρ : env_ok Ideal Γ ρ).
Context (t : Ty) (Ht : std_int t) (Hb : is_bool t = true).

Lemma fixes_good v a n ty k : hasty Γ t a -> fixes v a n ty k -> Γ !! n = Some ty /\ good Γ k.
Proof.
  intros [Hg He] Hf. destruct a as [| | | | |ty' n' i p r|op x k'| | | | | | |]; try done.
  - destruct Hf as (-> & -> & Hk). destruct Hg as [_ [_ Hn] _]. split; [done|].
    cbn [type] in He. destruct v.
    + by destruct (make_const_Ok Γ ρ t Ht ty 1 k He Hk) as [[? _] _].
    + by destruct (make_zero_Ok Γ ρ t Ht ty k He Hk) as [[? _] _].
  - destruct op; try done. destruct x as [| | | | |ty' n' i p r| | | | | | | |]; try done.
    destruct Hf as (_ & _ & -> & -> & ->). destruct Hg as [[_ [_ Hwk]] [[_ Hn] Htk] Hu]. simpl in Hu. apply andb_true_iff in Hu as [_ Hu].
    by split.
Qed.

Lemma fixes_value v a n ty k p : lanes t = 1 -> hasty Γ t a -> compares_ints a -> fixes v a n ty k -> truth ρ t a p -> p 0%nat = v ->
  vars ρ !! n = eval Ideal ρ k.
Proof.
  intros Hl Ha Hi Hf Hp Hv. assert (Hn : nlanes t = 1%nat) by (unfold nlanes; by rewrite Hl).
  destruct a as [| | | | |ty' n' i q r|op x k'| | | | | | |]; try done.
  - destruct Hf as (-> & -> & Hk). unfold truth, den in Hp. rewrite Hn in Hp. cbn [eval] in Hp. rewrite Hp.
    pose proof (hasty_type _ _ _ Ha) as Hty. cbn [type] in Hty.
    destruct v; [pose proof (truths_one Γ ρ t Ht Hb ty Hty k Hk) as Hd|pose proof (truths_zero Γ ρ t Ht ty Hty k Hk) as Hd];
      unfold den in Hd; rewrite Hn in Hd; rewrite Hd; unfold tab; simpl; by rewrite Hv.
  - destruct op; try done. destruct x as [| | | | |ty' n' i q r| | | | | | | |]; try done.
    destruct Hf as (-> & _ & -> & -> & ->). split_compares Ht Hb.
    destruct (truth_cmp_inv Γ ρ Hρ t Ht Hb _ Hu Hl0 EQ _ _ p eq_refl H H0 Hp) as (f & g & Hf & Hg & E).
    destruct (E 0%nat ltac:(lia)) as (_ & _ & E0). rewrite Hv in E0. symmetry in E0. cbn [icmp] in E0. apply Z.eqb_eq in E0.
    pose proof (compare_lanes t _ Hl0) as Hn'. unfold den in Hf, Hg. rewrite Hn', Hn in Hf, Hg. cbn [eval] in Hf. rewrite Hf, Hg.
    unfold tab. simpl. by rewrite E0.
Qed.

(** Substituting in one side what the other says of the variable. *)
Lemma subst_sides op a b n ty k : is_logical op = true -> hasty Γ t a -> hasty Γ t b -> compares_ints a ->
  fixes (bool_decide (op = And)) a n ty k -> subst_safe ρ t b n ty k ->
  rewrites Γ ρ (Bin op a b) (Bin op a (subst {[n := k]} b)) /\ rewrites Γ ρ (Bin op b a) (Bin op (subst {[n := k]} b) a).
Proof.
  intros Hop Ha Hb' Hi Hf [Hl Hk Hlet Hval]. destruct (fixes_good _ a n ty k Ha Hf) as [Hn Hgk].
  assert (Hty0 : type k = ty) by done.
  destruct (subst_good Γ n ty k Hn Hk Hgk b (hasty_good _ _ _ Hb') Hlet) as [Hgs Hts].
  assert (Hs : hasty Γ t (subst {[n := k]} b)) by (split; [done|]; rewrite Hts; apply Hb').
  assert (H1 : nlanes t = 1%nat) by (unfold nlanes; by rewrite Hl).
  assert (Hside : forall p q, truth ρ t a p -> truth ρ t b q -> exists q', truth ρ t (subst {[n := k]} b) q' /\
    lop op (p 0%nat) (q 0%nat) = lop op (p 0%nat) (q' 0%nat) /\ lop op (q 0%nat) (p 0%nat) = lop op (q' 0%nat) (p 0%nat)).
  { intros p q Hp Hq. destruct (Bool.bool_dec (p 0%nat) (bool_decide (op = And))) as [E|E].
    - exists q. split; [|done]. unfold truth, den. rewrite (subst_same Γ n ty k Hn Hk Hgk ρ b); [exact Hq|by destruct Hb' as [[]]|done|].
      exact (fixes_value _ a n ty k p Hl Ha Hi Hf Hp E).
    - destruct Hval as [w Hw]; [by eexists|].
      destruct (den_intro Γ ρ Hρ t Ht _ w Hs Hw) as (F & HF & _). destruct (truth_intro Γ ρ Hρ t Ht Hb _ F Hs HF) as (q' & Hq' & _).
      exists q'. split; [done|]. assert (p 0%nat = negb (bool_decide (op = And))) as -> by (by destruct (p 0%nat), (bool_decide (op = And))).
      by destruct (logic_op op Hop) as [-> | ->], (q 0%nat), (q' 0%nat). }
  split; eapply (truth_rewrites Γ ρ Hρ t Ht Hb _ (built_expr _)); try done; try (by apply (logic_built Γ t Ht Hb));
    try (by apply builds_expr, (logic_built Γ t Ht Hb)); intros r Hr;
    (apply (truth_logic_inv Γ ρ Hρ t Ht Hb) in Hr as (p & q & Hp & Hq & Hr); [|done|by apply (logic_built Γ t Ht Hb)]).
  - destruct (Hside p q Hp Hq) as (q' & Hq' & E & _). eexists. split; [by apply truths_expr, truth_logic|].
    intros i Hlt. assert (i = 0%nat) as -> by lia. by rewrite Hr.
  - destruct (Hside q p Hq Hp) as (q' & Hq' & _ & E). eexists. split; [by apply truths_expr, truth_logic|].
    intros i Hlt. assert (i = 0%nat) as -> by lia. by rewrite Hr.
Qed.
End Sides.

(** * The shape of the visits *)

(** The visits substitute by node ([SubstituteExpr]) and by name ([Substitute]). *)
Definition substitute_node (same_as equal : ExprRef -> ExprRef -> bool) (v k e : Expr) : res Expr :=
  r ← substitute_expr same_as equal (eref v) (eref k) (eref e); deref r.
Definition substitute_name (same_as : ExprRef -> ExprRef -> bool) (n : string) (k : res Expr) (e : Expr) : res Expr :=
  k ← k; r ← substitute_var same_as n (eref k) (eref e); deref r.

Definition visit_logic (same_as : ExprRef -> ExprRef -> bool) (mutate : Expr -> mut Simplify ExprRef) (op : binop)
    (rules : Ty -> Expr -> Expr -> list rule) (op_a op_b : Expr) : mut Simplify ExprRef :=
  visit_with same_as mutate in_order rules (if bool_decide (op = And) then And_make else Or_make)
    (Bin op op_a op_b) op_a op_b.

(** A visit keeps the value when every rule of its chain does, on mutated operands. *)
Lemma visit_logic_sound facts equal same_as mutate Γ ρ s op rules a b : is_logical op = true ->
  Facts facts equal -> Simplifies facts mutate -> facts Γ ρ s -> good Γ (Bin op a b) -> 0 < lanes (type a) ->
  let t := Bool (lanes (type a)) in
  (std_int t -> is_bool t = true -> forall x s1 y s2, mutate a s = Ok (Some x, s1) -> mutate b s1 = Ok (Some y, s2) ->
     facts Γ ρ s2 -> hasty Γ t x -> hasty Γ t y -> rule_ok Γ ρ (Bin op x y) (first_rule (rules t x y))) ->
  simplifies facts (visit_logic same_as mutate op rules a b) Γ ρ s (Bin op a b).
Proof.
  intros Hop HF HM Hs Hg Hl t Hrules r s' H. destruct (good_bin Γ op a b Hg) as (Hga & Hgb & Heq).
  assert (Hba : is_bool (type a) = true) by (destruct Hg as [[[_ Hbb] _] _ _]; by apply Hbb).
  pose proof (ty_ok_type Γ a (good_wf _ _ Hga) (good_typed _ _ Hga)) as [_ Hlt].
  assert (Hlb : lanes t = lanes (type a)) by (apply small_lanes; lia).
  assert (Ht : std_int t) by (split; [done|]; rewrite Hlb; split; [lia|done]).
  assert (Hb : is_bool t = true) by done.
  assert (Ha : hasty Γ t a) by (split; [done|]; apply (bool_type_iff t Ht Hb); by rewrite Hlb).
  assert (Hbt : hasty Γ t b) by (split; [done|]; eapply (type_eqb_trans_std t Ht); [|apply type_eqb_refl]; rewrite type_eqb_sym;
    eapply type_eqb_trans; [rewrite type_eqb_sym; apply Ha|done]).
  specialize (Hrules Ht Hb).
  unfold visit_logic, visit_with in H. cbn [in_order] in H.
  apply mut_bind_Ok in H as (x & s1 & Hx & H). apply mutate_defined_Ok in Hx.
  apply mut_bind_Ok in H as (y & s2 & Hy & H). apply mutate_defined_Ok in Hy.
  destruct (simplifies_expr facts Γ ρ s a Hs Hga _ _ Hx) as (x' & [= <-] & [Hgx Htx Hs1 Hc1 Hvx]).
  destruct (simplifies_expr facts Γ ρ s1 b Hs1 Hgb _ _ Hy) as (y' & [= <-] & [Hgy Hty Hs2 Hc2 Hvy]).
  assert (Hhx : hasty Γ t x) by (split; [done|]; eapply type_eqb_trans; [done|apply Ha]).
  assert (Hhy : hasty Γ t y) by (split; [done|]; eapply type_eqb_trans; [done|apply Hbt]).
  pose proof (logic_built Γ t Ht Hb op x y Hop Hhx Hhy) as Hxy. pose proof (logic_built Γ t Ht Hb op a b Hop Ha Hbt) as Hab.
  assert (Hsd : simplified facts Γ ρ s (Bin op a b) (Bin op x y) s2).
  { split; [apply Hxy| |done|lia|].
    - eapply (type_eqb_trans_std t Ht); [apply Hxy|apply Hab].
    - intros Hc v He. eapply eval_bin_congr; [exact Htx|apply Hvx; lia|apply Hvy; lia|done]. }
  specialize (Hrules x s1 y s2 Hx Hy Hs2 Hhx Hhy).
  assert (Htype : type (Bin op a b) = t) by (simpl; by rewrite Hop, orb_true_r). rewrite Htype in H.
  destruct (first_rule (rules t x y)) as [act|] eqn:Er.
  - eapply (then_action facts equal mutate Γ ρ s s2); eauto.
  - unfold no_rule in H. destruct (same_as (eref x) (eref a) && same_as (eref y) (eref b)).
    + apply mut_ret_Ok in H as [= -> ->]. exists (Bin op a b). split; [done|]. split; try done; [apply type_eqb_refl|lia].
    + apply mut_bind_Ok in H as (e & s3 & He & H). apply lift_Ok in He as [He ->]. apply mut_ret_Ok in H as [= -> ->].
      exists (Bin op x y). split; [|done]. by destruct (logic_op op Hop) as [-> | ->]; apply logical_make_node in He as ->.
Qed.

(** * The rules that substitute, and those for broadcasts *)
Section Rules.
Context (same_as equal : ExprRef -> ExprRef -> bool) (same_node : Expr -> Expr -> bool).
Hypothesis same_as_sound : forall a b, same_as a b = true -> a = b.
Hypothesis equal_variables : finds_variables equal.
Context (Γ : gmap string Ty) (ρ : env) (Hρ : env_ok Ideal Γ ρ).
Context (t : Ty) (Ht : std_int t) (Hb : is_bool t = true).

(** Joining the condition [a], which fixes a variable, with the substituted [b]. *)
Lemma equation_rewrites op mk ty n i p r k b : is_logical op = true -> logic_joins Γ t op mk ->
  let a := Bin EQ (Var ty n i p r) k in
  bool_decide (op = And) = true -> is_simple_const k = true -> hasty Γ t a -> hasty Γ t b -> compares_ints a -> subst_safe ρ t b n ty k ->
  (forall e', on2 mk a (substitute_node same_as equal (Var ty n i p r) k b) = Ok e' -> rewrites Γ ρ (Bin op a b) e') /\
  (forall e', on2 mk (substitute_node same_as equal (Var ty n i p r) k b) a = Ok e' -> rewrites Γ ρ (Bin op b a) e').
Proof.
  intros Hop Hmk a Hand Hk Ha Hbt Hi Hsafe.
  assert (Hf : fixes (bool_decide (op = And)) a n ty k) by (by rewrite Hand).
  destruct (subst_sides Γ ρ Hρ t Ht Hb op a b n ty k Hop Ha Hbt Hi Hf Hsafe) as [H1 H2]. destruct Hsafe as [_ Hty Hlet _].
  destruct (fixes_good Γ ρ t Ht _ a n ty k Ha Hf) as [Hn Hgk].
  destruct (subst_good Γ n ty k Hn Hty Hgk b (hasty_good _ _ _ Hbt) Hlet) as [Hgs Hts].
  assert (Hs : hasty Γ t (subst {[n := k]} b)) by (split; [done|]; rewrite Hts; apply Hbt).
  unfold substitute_node. rewrite (substitute_expr_run same_as equal same_as_sound equal_variables Γ n ty k Hn Hty Hgk) by (done || apply Hbt).
  split; intros e' He'; apply on2_Ok in He' as (x & y & [= <-] & [= <-] & He'); apply Hmk in He' as ->; done.
Qed.

Lemma variable_rewrites op mk ty n i p r make b : is_logical op = true -> logic_joins Γ t op mk ->
  let a := Var ty n i p r in
  make = (if bool_decide (op = And) then make_one else make_zero) -> hasty Γ t a -> hasty Γ t b ->
  (forall k, make ty = Ok k -> subst_safe ρ t b n ty k) ->
  (forall e', on2 mk a (substitute_name same_as n (make ty) b) = Ok e' -> rewrites Γ ρ (Bin op a b) e') /\
  (forall e', on2 mk (substitute_name same_as n (make ty) b) a = Ok e' -> rewrites Γ ρ (Bin op b a) e').
Proof.
  intros Hop Hmk a Hmake Ha Hbt Hsafe. unfold substitute_name.
  destruct (make ty) as [k|] eqn:Hk; cycle 1.
  { split; intros e' He'; apply on2_Ok in He' as (x & y & Hx & Hy & _); done. }
  specialize (Hsafe k eq_refl).
  assert (Hf : fixes (bool_decide (op = And)) a n ty k) by (subst make; by destruct (bool_decide (op = And))).
  assert (Hi : compares_ints a) by done.
  destruct (subst_sides Γ ρ Hρ t Ht Hb op a b n ty k Hop Ha Hbt Hi Hf Hsafe) as [H1 H2]. destruct Hsafe as [_ Hty Hlet _].
  destruct (fixes_good Γ ρ t Ht _ a n ty k Ha Hf) as [Hn Hgk].
  destruct (subst_good Γ n ty k Hn Hty Hgk b (hasty_good _ _ _ Hbt) Hlet) as [Hgs Hts].
  assert (Hs : hasty Γ t (subst {[n := k]} b)) by (split; [done|]; rewrite Hts; apply Hbt).
  cbn [mbind res_bind]. rewrite (substitute_var_run same_as same_as_sound Γ n ty k Hn Hty Hgk) by apply Hbt.
  split; intros e' He'; apply on2_Ok in He' as (x & y & [= <-] & [= <-] & He'); apply Hmk in He' as ->; done.
Qed.

Lemma broadcast_rewrites op mk x y l l' : is_logical op = true -> (forall u, std_int u -> logic_joins Γ u op mk) ->
  hasty Γ t (Broadcast x l) -> hasty Γ t (Broadcast y l') ->
  forall e', on2 mk (built_expr x) (built_expr y) = Ok e' -> rewrites Γ ρ (Bin op (Broadcast x l) (Broadcast y l')) (Broadcast e' l).
Proof.
  intros Hop Hmk Ha Hbt. destruct (hasty_broadcast Γ t Ht _ _ Ha) as (Hx & -> & Hl), (hasty_broadcast Γ t Ht _ _ Hbt) as (Hy & -> & _).
  pose proof (std_element t Ht) as Hte. pose proof (element_bool t Ht Hb) as Hbe.
  apply (truth_lanes_rewrites Γ ρ Hρ t Ht Hb); [by apply (logic_built Γ t Ht Hb)|done| |].
  - apply (builds_logic Γ _ Hte Hbe op); [done|by apply Hmk|by apply builds_expr..].
  - intros p Hp. apply (truth_logic_inv Γ ρ Hρ t Ht Hb) in Hp as (q & r & Hq & Hr & H); [|done|by apply (logic_built Γ t Ht Hb)].
    destruct (truth_broadcast_inv Γ ρ Hρ t Ht Hb x _ q Ha Hq) as (q' & Hq' & Eq).
    destruct (truth_broadcast_inv Γ ρ Hρ t Ht Hb y _ r Hbt Hr) as (r' & Hr' & Er).
    exists (fun i => lop op (q' i) (r' i)). split.
    + apply (truths_logic Γ ρ _ op); [done|by apply Hmk|by apply builds_expr..|by apply truths_expr|by apply truths_expr].
    + intros i Hi. by rewrite H, Eq, Er.
Qed.
End Rules.

(** * The tests of the trials *)

Lemma ptr_finds_variables : finds_variables ptr_equal.
Proof. apply equal_finds_variables, same_expr_sound. Qed.
Lemma ptr_types_equal : types_equal ptr_equal.
Proof. apply equal_types_equal, same_expr_sound. Qed.
Lemma same_expr_ref_sound x y : same_expr_ref x y = true -> x = y.
Proof. apply bool_decide_eq_true. Qed.
Definition same_expr_node (x y : Expr) : bool := same_expr_ref (eref x) (eref y).
