(* ===== verification/SimplifyAnd.v ===== *)
(** The simplifier's visit of [And] (src/src/Simplify.cpp): the chain of rules, and the
    proof that each of them keeps the truth of a conjunction of conditions on integers. *)

From Stdlib Require Import ZArith Lia Bool SpecFloat String ZifyBool.
From stdpp Require Import prelude strings gmap.
From S2P Require Import Prelude Types IR Semantics Scope Operators ModulusRemainder Mutator Visitor Substitute ExprUsesVar Equality EqualityMeaning Interval ConstBounds Monotonic Lanes Conditions Simplify SimplifyRules SimplifyQuotient SimplifyConditions SimplifyLogic.

#[local] Open Scope Z_scope.
#[local] Open Scope halide_scope.

Section Rules.
Context (same_as equal : ExprRef -> ExprRef -> bool) (same_node : Expr -> Expr -> bool).
Context (t : Ty) (a b : Expr).

Notation "x ≡' y" := (equal (eref x) (eref y)) (at level 70).

(** Constants and equal operands. *)
Definition and_const_rules : list rule := [
  when (is_one a) (Result b);
  when (is_one b) (Result a);
  when (is_zero a) (Result a);
  when (is_zero b) (Result b);
  when (a ≡' b) (Result a)
].

(** Bounds on one term, from the same side. *)
Definition and_bound_rules : list rule := [
  on_bin LE a (fun a1 a2 => on_bin LE b (fun b1 b2 => when (a1 ≡' b1) (Mutate (on2 operator_le a1 (on2 min a2 b2)))));
  on_bin LE a (fun a1 a2 => on_bin LE b (fun b1 b2 => when (a2 ≡' b2) (Mutate (on2 operator_le (on2 max a1 b1) a2))));
  on_bin LT a (fun a1 a2 => on_bin LT b (fun b1 b2 => when (a1 ≡' b1) (Mutate (on2 operator_lt a1 (on2 min a2 b2)))));
  on_bin LT a (fun a1 a2 => on_bin LT b (fun b1 b2 => when (a2 ≡' b2) (Mutate (on2 operator_lt (on2 max a1 b1) a2))))
].

(** Contradictions. *)
Definition and_never_rules : list rule := [
  on_bin EQ a (fun a1 a2 => on_bin NE b (fun b1 b2 =>
    when ((a1 ≡' b1) && (a2 ≡' b2) || (a1 ≡' b2) && (a2 ≡' b1)) (Result (const_false (lanes t)))));
  on_bin EQ b (fun b1 b2 => on_bin NE a (fun a1 a2 =>
    when ((b1 ≡' a1) && (b2 ≡' a2) || (b1 ≡' a2) && (b2 ≡' a1)) (Result (const_false (lanes t)))));
  when (negates equal a b || negates equal b a) (Result (const_false (lanes t)));
  on_bin LE a (fun a1 a2 => on_bin LT b (fun b1 b2 =>
    when ((a1 ≡' b2) && (a2 ≡' b1)) (Result (const_false (lanes t)))));
  on_bin LT a (fun a1 a2 => on_bin LE b (fun b1 b2 =>
    when ((a1 ≡' b2) && (a2 ≡' b1)) (Result (const_false (lanes t)))))
].

(** A term equal to one constant and different from another. *)
Definition and_constant_rules : list rule := [
  on_bin EQ a (fun x k1 => on_bin NE b (fun y k2 =>
    when ((x ≡' y) && is_simple_const k1 && is_simple_const k2) (Mutate (on2 And_make a (on2 NE_make k1 k2)))));
  on_bin NE a (fun x k1 => on_bin EQ b (fun y k2 =>
    when ((x ≡' y) && is_simple_const k1 && is_simple_const k2) (Mutate (on2 And_make b (on2 NE_make k1 k2)))))
].

(** What one side says of a variable the other uses. *)
Definition and_equation_rules : list rule := [
  on_bin EQ a (fun v k => on_var v (fun _ n =>
    when (is_simple_const k && expr_uses_var same_node b n) (Mutate (on2 And_make a (substitute_node same_as equal v k b)))));
  on_bin EQ b (fun v k => on_var v (fun _ n =>
    when (is_simple_const k && expr_uses_var same_node a n) (Mutate (on2 And_make (substitute_node same_as equal v k a) b))))
].
Definition and_broadcast_rule : rule :=
  on_broadcast a (fun value_a lanes_a => on_broadcast b (fun value_b lanes_b =>
    when (lanes_a =? lanes_b) (MutateLanes (on2 And_make value_a value_b) lanes_a))).
Definition and_variable_rules : list rule := [
  on_var a (fun ty n => when (expr_uses_var same_node b n)
    (Mutate (on2 operator_and a (substitute_name same_as n (make_one (type a)) b))));
  on_var b (fun ty n => when (expr_uses_var same_node a n)
    (Mutate (on2 operator_and (substitute_name same_as n (make_one (type b)) a) b)))
].

Definition and_rules : list rule :=
  and_const_rules ++ and_bound_rules ++ and_never_rules ++ and_constant_rules ++ and_equation_rules ++
  [and_broadcast_rule] ++ and_variable_rules.
End Rules.

Definition visit_And (same_as equal : ExprRef -> ExprRef -> bool) (same_node : Expr -> Expr -> bool)
    (mutate : Expr -> mut Simplify ExprRef) : Expr -> Expr -> mut Simplify ExprRef :=
  visit_logic same_as mutate And (and_rules same_as equal same_node).

Section Sound.
Context (same_as equal : ExprRef -> ExprRef -> bool) (same_node : Expr -> Expr -> bool).
Context (Γ : gmap string Ty) (ρ : env) (Hρ : env_ok Ideal Γ ρ).
Context (HE : EqualityTest Γ ρ equal) (Heq : types_equal equal).
Context (t : Ty) (Ht : std_int t) (Hb : is_bool t = true).
Context (a b : Expr) (Ha : hasty Γ t a) (Hbt : hasty Γ t b) (Hia : compares_ints a) (Hib : compares_ints b).

Let Hab : hasty Γ t (Bin And a b).
Proof. by apply (logic_built Γ t Ht Hb). Qed.

Lemma and_const_right : Forall (rule_ok Γ ρ (Bin And a b)) (and_const_rules equal a b).
Proof using All. repeat (apply Forall_cons; split); [..|by apply Forall_nil]; truth_rule Hρ HE Ht Hb; lia. Qed.

Lemma and_bound_right : Forall (rule_ok Γ ρ (Bin And a b)) (and_bound_rules equal a b).
Proof using All.
  repeat (apply Forall_cons; split); [..|by apply Forall_nil]; intros act Hact; rule_action Hact act; split_compares Ht Hb;
    unify_types Heq ρ; truth_of_rule Hρ HE Ht Hb; lia.
Qed.
Lemma and_never_right : Forall (rule_ok Γ ρ (Bin And a b)) (and_never_rules equal t a b).
Proof using All.
  repeat (apply Forall_cons; split); [..|by apply Forall_nil]; intros act Hact; rule_action Hact act; split_tests; split_compares Ht Hb.
  5-6: negated_side Ht Hb; truth_of_rule Hρ HE Ht Hb; lia.
  all: truth_of_rule Hρ HE Ht Hb; lia.
Qed.

Lemma and_constant_right : Forall (rule_ok Γ ρ (Bin And a b)) (and_constant_rules equal a b).
Proof using All.
  repeat (apply Forall_cons; split); [..|by apply Forall_nil]; intros act Hact; rule_action Hact act; split_bools; split_compares Ht Hb;
    unify_types Heq ρ; truth_of_rule Hρ HE Ht Hb; lia.
Qed.
Context (same_as_sound : forall x y, same_as x y = true -> x = y) (equal_variables : finds_variables equal).
Context (Hsa : side_safe same_node true ρ t a b) (Hsb : side_safe same_node true ρ t b a).

Lemma and_equation_right : Forall (rule_ok Γ ρ (Bin And a b)) (and_equation_rules same_as equal same_node a b).
Proof using All.
  repeat (apply Forall_cons; split); [..|by apply Forall_nil]; intros act Hact;
    apply on_bin_Some in Hact as (v & k & -> & Hact); apply on_var_Some in Hact as (ty & n & i & q & r & -> & Hact);
    apply when_Some in Hact as [[Hk Huse]%andb_true_iff <-]; cbn [action_ok].
  - eapply equation_rewrites; try done; [apply logic_joins_And|]. by apply Hsa.
  - eapply equation_rewrites; try done; [apply logic_joins_And|]. by apply Hsb.
Qed.

Lemma and_variable_right : Forall (rule_ok Γ ρ (Bin And a b)) (and_variable_rules same_as same_node a b).
Proof using All.
  repeat (apply Forall_cons; split); [..|by apply Forall_nil]; intros act Hact;
    apply on_var_Some in Hact as (ty & n & i & q & r & -> & Hact); apply when_Some in Hact as [Huse <-]; cbn [action_ok type].
  - eapply variable_rewrites; try done; [by apply logic_joins_and|]. intros k Hk. by apply Hsa.
  - eapply variable_rewrites; try done; [by apply logic_joins_and|]. intros k Hk. by apply Hsb.
Qed.

Lemma and_broadcast_right : rule_ok Γ ρ (Bin And a b) (and_broadcast_rule a b).
Proof using All.
  intros act Hact. apply on_broadcast_Some in Hact as (x & l & -> & Hact). apply on_broadcast_Some in Hact as (y & l' & -> & Hact).
  apply when_Some in Hact as [_ <-].
  refine (broadcast_rewrites Γ ρ Hρ t Ht Hb And And_make x y l l' eq_refl _ Ha Hbt). intros u _. apply logic_joins_And.
Qed.

Lemma and_rules_right : rule_ok Γ ρ (Bin And a b) (first_rule (and_rules same_as equal same_node t a b)).
Proof using All.
  apply first_rule_ok. unfold and_rules. rewrite !Forall_app, Forall_singleton.
  split_and!; auto using and_const_right, and_bound_right, and_never_right, and_constant_right, and_equation_right,
    and_broadcast_right, and_variable_right.
Qed.
End Sound.

(** C14. The simplifier's visit of [And] keeps the type and the truth of a conjunction
    of conditions on integers, through every rule of its chain, when no signed overflow
    was flagged and the mutated operands are [logic_safe]: their comparisons compare
    integers, and where one side is [x == k], or a variable [x], and the other side uses
    [x], the other side is scalar, has no lets, and keeps a value when [x] is replaced.
    Elsewhere that substitution is wrong ([visit_And_defects]); every other rule applies
    without condition. *)
Theorem visit_And_sound facts equal same_as same_node mutate Γ ρ s op_a op_b :
  Facts facts equal -> Simplifies facts mutate -> types_equal equal -> finds_variables equal ->
  (forall x y, same_as x y = true -> x = y) ->
  facts Γ ρ s -> good Γ (Bin And op_a op_b) -> 0 < lanes (type op_a) ->
  (forall x s1 y s2, mutate op_a s = Ok (Some x, s1) -> mutate op_b s1 = Ok (Some y, s2) ->
     logic_safe same_node true ρ (Bool (lanes (type op_a))) x y) ->
  simplifies facts (visit_And same_as equal same_node mutate op_a op_b) Γ ρ s (Bin And op_a op_b).
Proof.
  intros HF HM Heq Hfind Hsame Hs Hg Hl Hsafe. apply (visit_logic_sound facts equal); try done.
  intros Ht Hb x s1 y s2 Hx Hy Hs2 Hhx Hhy. destruct (Hsafe _ _ _ _ Hx Hy) as [Hi1 Hi2 Hr1 Hr2].
  pose proof (facts_env _ _ Γ ρ s2 Hs2) as Hρ. pose proof (facts_equal _ _ Γ ρ s2 Hs2) as HE.
  by apply (and_rules_right same_as equal same_node Γ ρ Hρ HE Heq _ Ht Hb).
Qed.

(** [(x == 3) && (x + y < 10)] becomes [(x == 3) && (3 + y < 10)]. *)
Definition x_is_3 : Expr := Bin EQ x32 (imm32 3).
Definition sum_below_10 (e : Expr) : Expr := Bin LT (Bin Add e y32) (imm32 10).

Lemma visit_And_sound_witness :
  visit_And same_expr_ref ptr_equal same_expr_node no_mutate x_is_3 (sum_below_10 x32) new_simplify =
    Ok (eref (Bin And x_is_3 (sum_below_10 (imm32 3))), new_simplify) /\
  eval Ideal (xy_env 3 5) (Bin And x_is_3 (sum_below_10 x32)) = Some [VInt 1] /\
  simplifies env_facts (visit_And same_expr_ref ptr_equal same_expr_node no_mutate x_is_3 (sum_below_10 x32))
    xy_types (xy_env 3 5) new_simplify (Bin And x_is_3 (sum_below_10 x32)).
Proof.
  split; [by vm_compute|]. split; [by vm_compute|].
  apply (visit_And_sound env_facts ptr_equal same_expr_ref same_expr_node no_mutate).
  - apply env_facts_Facts.
  - apply no_mutate_Simplifies.
  - apply ptr_types_equal.
  - apply ptr_finds_variables.
  - apply same_expr_ref_sound.
  - apply xy_facts.
  - split; [repeat split; by vm_compute|repeat split; by vm_compute|by vm_compute].
  - by vm_compute.
  - intros x s1 y s2 [= <- <-] [= <- <-]. split; try (intros _; split; [by vm_compute|split; by vm_compute]).
    + intros n ty k (_ & _ & <- & <- & <-) _. split; [by vm_compute|done| |by eexists]. by repeat split.
    + intros n ty k [].
Defined.

(** Where the visit does not keep the value: a division by the variable is made one by
    zero, where the equation is false too; and the substitution goes under a let that
    rebinds the variable. *)
Definition x_is_0 : Expr := Bin EQ x32 (imm32 0).
Definition ten_over (e : Expr) : Expr := Bin LT (imm32 1) (Bin Div (imm32 10) e).
Definition let_x_5 (e : Expr) : Expr := Let "x" (imm32 5) (Bin LT (imm32 4) e).

Lemma visit_And_defects :
  (visit_And same_expr_ref ptr_equal same_expr_node no_mutate x_is_0 (ten_over x32) new_simplify =
     Ok (eref (Bin And x_is_0 (ten_over (imm32 0))), new_simplify) /\
   eval Ideal (xy_env 5 0) (Bin And x_is_0 (ten_over x32)) = Some [VInt 0] /\
   eval Ideal (xy_env 5 0) (Bin And x_is_0 (ten_over (imm32 0))) = None) /\
  (visit_And same_expr_ref ptr_equal same_expr_node no_mutate x_is_3 (let_x_5 x32) new_simplify =
     Ok (eref (Bin And x_is_3 (let_x_5 (imm32 3))), new_simplify) /\
   eval Ideal (xy_env 3 0) (Bin And x_is_3 (let_x_5 x32)) = Some [VInt 1] /\
   eval Ideal (xy_env 3 0) (Bin And x_is_3 (let_x_5 (imm32 3))) = Some [VInt 0]).
Proof. split_and!; by vm_compute. Qed.
