(* ===== verification/SimplifyOr.v ===== *)
(** The simplifier's visit of [Or] (src/src/Simplify.cpp): the chain of rules, and the
    proof that each of them keeps the truth of a disjunction of conditions on integers. *)

From Stdlib Require Import ZArith Lia Bool SpecFloat String ZifyBool.
From stdpp Require Import prelude strings gmap.
From S2P Require Import Prelude Types IR Semantics Scope Operators ModulusRemainder Mutator Visitor Substitute ExprUsesVar Equality EqualityMeaning Interval ConstBounds Monotonic Lanes Conditions Simplify SimplifyRules SimplifyQuotient SimplifyConditions SimplifyLogic.

#[local] Open Scope Z_scope.
#[local] Open Scope halide_scope.

Section Rules.
Context (same_as equal : ExprRef -> ExprRef -> bool) (same_node : Expr -> Expr -> bool).
Context (t : Ty) (a b : Expr).

Notation "x ≡' y" := (equal (eref x) (eref y)) (at level 70).

(** Constants and equal operands. *)
Definition or_const_rules : list rule := [
  when (is_one a) (Result a);
  when (is_one b) (Result b);
  when (is_zero a) (Result b);
  when (is_zero b) (Result a);
  when (a ≡' b) (Result a)
].

(** Tautologies. *)
Definition or_always_rules : list rule := [
  on_bin EQ a (fun a1 a2 => on_bin NE b (fun b1 b2 =>
    when ((a1 ≡' b1) && (a2 ≡' b2) || (a1 ≡' b2) && (a2 ≡' b1)) (Result (const_true (lanes t)))));
  on_bin NE a (fun a1 a2 => on_bin EQ b (fun b1 b2 =>
    when ((b1 ≡' a1) && (b2 ≡' a2) || (b1 ≡' a2) && (b2 ≡' a1)) (Result (const_true (lanes t)))));
  when (negates equal a b || negates equal b a) (Result (const_true (lanes t)));
  on_bin LE a (fun a1 a2 => on_bin LT b (fun b1 b2 =>
    when ((a1 ≡' b2) && (a2 ≡' b1)) (Result (const_true (lanes t)))));
  on_bin LT a (fun a1 a2 => on_bin LE b (fun b1 b2 =>
    when ((a1 ≡' b2) && (a2 ≡' b1)) (Result (const_true (lanes t)))))
].

Definition or_broadcast_rule : rule :=
  on_broadcast a (fun value_a lanes_a => on_broadcast b (fun value_b lanes_b =>
    when (lanes_a =? lanes_b) (MutateLanes (on2 Or_make value_a value_b) lanes_a))).

(** A term equal to one constant or different from another. *)
Definition or_constant_rules : list rule := [
  on_bin EQ a (fun x k1 => on_bin NE b (fun y k2 =>
    when ((x ≡' y) && is_simple_const k1 && is_simple_const k2) (Mutate (on2 Or_make b (on2 EQ_make k1 k2)))));
  on_bin NE a (fun x k1 => on_bin EQ b (fun y k2 =>
    when ((x ≡' y) && is_simple_const k1 && is_simple_const k2) (Mutate (on2 Or_make a (on2 EQ_make k1 k2)))))
].

(** A condition that is a variable the other uses. *)
Definition or_variable_rules : list rule := [
  on_var a (fun ty n => when (expr_uses_var same_node b n)
    (Mutate (on2 operator_or a (substitute_name same_as n (make_zero (type a)) b))));
  on_var b (fun ty n => when (expr_uses_var same_node a n)
    (Mutate (on2 operator_or (substitute_name same_as n (make_zero (type b)) a) b)))
].

(** Over conjunctions that hold a comparison of the same variable with a constant. *)
Definition or_distribute_rules : list rule := [
  on_bin And a (fun a1 a2 => when (distributes b a1 a2) (Mutate (on2 And_make (on2 Or_make a1 b) (on2 Or_make a2 b))));
  on_bin And b (fun b1 b2 => when (distributes a b1 b2) (Mutate (on2 And_make (on2 Or_make b1 a) (on2 Or_make b2 a))))
].

Definition or_rules : list rule :=
  or_const_rules ++ or_always_rules ++ [or_broadcast_rule] ++ or_constant_rules ++ or_variable_rules ++ or_distribute_rules.
End Rules.

Definition visit_Or (same_as equal : ExprRef -> ExprRef -> bool) (same_node : Expr -> Expr -> bool)
    (mutate : Expr -> mut Simplify ExprRef) : Expr -> Expr -> mut Simplify ExprRef :=
  visit_logic same_as mutate Or (or_rules same_as equal same_node).

Section Sound.
Context (same_as equal : ExprRef -> ExprRef -> bool) (same_node : Expr -> Expr -> bool).
Context (Γ : gmap string Ty) (ρ : env) (Hρ : env_ok Ideal Γ ρ).
Context (HE : EqualityTest Γ ρ equal) (Heq : types_equal equal).
Context (t : Ty) (Ht : std_int t) (Hb : is_bool t = true).
Context (a b : Expr) (Ha : hasty Γ t a) (Hbt : hasty Γ t b) (Hia : compares_ints a) (Hib : compares_ints b).
Context (same_as_sound : forall x y, same_as x y = true -> x = y) (equal_variables : finds_variables equal).
Context (Hsa : side_safe same_node false ρ t a b) (Hsb : side_safe same_node false ρ t b a).

Let Hab : hasty Γ t (Bin Or a b).
Proof. by apply (logic_built Γ t Ht Hb). Qed.

Lemma or_const_right : Forall (rule_ok Γ ρ (Bin Or a b)) (or_const_rules equal a b).
Proof using All. repeat (apply Forall_cons; split); [..|by apply Forall_nil]; truth_rule Hρ HE Ht Hb; lia. Qed.

Lemma or_always_right : Forall (rule_ok Γ ρ (Bin Or a b)) (or_always_rules equal t a b).
Proof using All.
  repeat (apply Forall_cons; split); [..|by apply Forall_nil]; intros act Hact; rule_action Hact act; split_tests; split_compares Ht Hb.
  5-6: negated_side Ht Hb; truth_of_rule Hρ HE Ht Hb; lia.
  all: truth_of_rule Hρ HE Ht Hb; lia.
Qed.

Lemma or_broadcast_right : rule_ok Γ ρ (Bin Or a b) (or_broadcast_rule a b).
Proof using All.
  intros act Hact. apply on_broadcast_Some in Hact as (x & l & -> & Hact). apply on_broadcast_Some in Hact as (y & l' & -> & Hact).
  apply when_Some in Hact as [_ <-].
  refine (broadcast_rewrites Γ ρ Hρ t Ht Hb Or Or_make x y l l' eq_refl _ Ha Hbt). intros u _. apply logic_joins_Or.
Qed.

Lemma or_constant_right : Forall (rule_ok Γ ρ (Bin Or a b)) (or_constant_rules equal a b).
Proof using All.
  repeat (apply Forall_cons; split); [..|by apply Forall_nil]; intros act Hact; rule_action Hact act; split_bools; split_compares Ht Hb;
    unify_types Heq ρ; truth_of_rule Hρ HE Ht Hb; lia.
Qed.

Lemma or_variable_right : Forall (rule_ok Γ ρ (Bin Or a b)) (or_variable_rules same_as same_node a b).
Proof using All.
  repeat (apply Forall_cons; split); [..|by apply Forall_nil]; intros act Hact;
    apply on_var_Some in Hact as (ty & n & i & q & r & -> & Hact); apply when_Some in Hact as [Huse <-]; cbn [action_ok type].
  - eapply variable_rewrites; try done; [by apply logic_joins_or|]. intros k Hk. by apply Hsa.
  - eapply variable_rewrites; try done; [by apply logic_joins_or|]. intros k Hk. by apply Hsb.
Qed.

Lemma or_distribute_right : Forall (rule_ok Γ ρ (Bin Or a b)) (or_distribute_rules a b).
Proof using All.
  repeat (apply Forall_cons; split); [..|by apply Forall_nil]; intros act Hact; rule_action Hact act;
    match goal with H : hasty Γ t (Bin And ?x ?y) |- _ => destruct (logic_parts Γ t Ht Hb And x y eq_refl H) end;
    truth_of_rule Hρ HE Ht Hb; lia.
Qed.

Lemma or_rules_right : rule_ok Γ ρ (Bin Or a b) (first_rule (or_rules same_as equal same_node t a b)).
Proof using All.
  apply first_rule_ok. unfold or_rules. rewrite !Forall_app, Forall_singleton.
  split_and!; auto using or_const_right, or_always_right, or_broadcast_right, or_constant_right, or_variable_right, or_distribute_right.
Qed.
End Sound.

(** C15. The simplifier's visit of [Or] keeps the type and the truth of a disjunction of
    conditions on integers, through every rule of its chain, when no signed overflow was
    flagged and the mutated operands are [logic_safe]: their comparisons compare
    integers, and where one side is a variable [x] and the other side uses [x], the
    other side is scalar, has no lets, and keeps a value when [x] is replaced by false;
    every other rule applies without condition. *)
Theorem visit_Or_sound facts equal same_as same_node mutate Γ ρ s op_a op_b :
  Facts facts equal -> Simplifies facts mutate -> types_equal equal -> finds_variables equal ->
  (forall x y, same_as x y = true -> x = y) ->
  facts Γ ρ s -> good Γ (Bin Or op_a op_b) -> 0 < lanes (type op_a) ->
  (forall x s1 y s2, mutate op_a s = Ok (Some x, s1) -> mutate op_b s1 = Ok (Some y, s2) ->
     logic_safe same_node false ρ (Bool (lanes (type op_a))) x y) ->
  simplifies facts (visit_Or same_as equal same_node mutate op_a op_b) Γ ρ s (Bin Or op_a op_b).
Proof.
  intros HF HM Heq Hfind Hsame Hs Hg Hl Hsafe. apply (visit_logic_sound facts equal); try done.
  intros Ht Hb x s1 y s2 Hx Hy Hs2 Hhx Hhy. destruct (Hsafe _ _ _ _ Hx Hy) as [Hi1 Hi2 Hr1 Hr2].
  pose proof (facts_env _ _ Γ ρ s2 Hs2) as Hρ. pose proof (facts_equal _ _ Γ ρ s2 Hs2) as HE.
  by apply (or_rules_right same_as equal same_node Γ ρ Hρ HE Heq _ Ht Hb).
Qed.

(** [((x == 3) && (y < x)) || (x != 5)] becomes
    [((x == 3) || (x != 5)) && ((y < x) || (x != 5))]. *)
Lemma visit_Or_sound_witness :
  let c := Bin NE x32 (imm32 5) in
  let p := Bin EQ x32 (imm32 3) in
  let q := Bin LT y32 x32 in
  visit_Or same_expr_ref ptr_equal same_expr_node no_mutate (Bin And p q) c new_simplify =
    Ok (eref (Bin And (Bin Or p c) (Bin Or q c)), new_simplify) /\
  eval Ideal (xy_env 5 9) (Bin Or (Bin And p q) c) = Some [VInt 0] /\
  simplifies env_facts (visit_Or same_expr_ref ptr_equal same_expr_node no_mutate (Bin And p q) c)
    xy_types (xy_env 5 9) new_simplify (Bin Or (Bin And p q) c).
Proof.
  split; [by vm_compute|]. split; [by vm_compute|].
  apply (visit_Or_sound env_facts ptr_equal same_expr_ref).
  - apply env_facts_Facts.
  - apply no_mutate_Simplifies.
  - apply ptr_types_equal.
  - apply ptr_finds_variables.
  - apply same_expr_ref_sound.
  - apply xy_facts.
  - split; [repeat split; by vm_compute|repeat split; by vm_compute|by vm_compute].
  - by vm_compute.
  - intros x s1 y s2 [= <- <-] [= <- <-]. by split.
Defined.
