(* ===== verification/SimplifySelect.v ===== *)
(** The simplifier's visit of [Select] (src/src/Simplify.cpp): the chain of rules, and the
    proof that each of them keeps the value of a selection between integers. *)

From Stdlib Require Import ZArith Lia Bool SpecFloat String ZifyBool.
From stdpp Require Import prelude strings gmap.
From S2P Require Import Prelude Types IR Semantics Scope Operators ModulusRemainder Mutator Equality EqualityMeaning Interval ConstBounds Monotonic Lanes Conditions Simplify SimplifyRules SimplifyQuotient SimplifyExtremum SimplifyConditions.

#[local] Open Scope Z_scope.
#[local] Open Scope halide_scope.

Section Rules.
Context (equal : ExprRef -> ExprRef -> bool).
Context (c t f : Expr).

Notation "x ≡' y" := (equal (eref x) (eref y)) (at level 70).

(** Constant conditions, equal values, and conditions as values. *)
Definition select_const_rules : list rule := [
  when (is_zero c) (Result f);
  when (is_one c) (Result t);
  when (t ≡' f) (Result t);
  when (is_bool (type t) && is_one t && is_zero f)
    (if is_vector (type t) && is_scalar (type c) then Result (Broadcast_make (eref c) (lanes (type t))) else Result c);
  when (is_bool (type t) && is_zero t && is_one f)
    (if is_vector (type t) && is_scalar (type c) then MutateLanes (not' c) (lanes (type t)) else Mutate (not' c))
].

(** Conditions that are broadcast, or normalized to [==] and [<]. *)
Definition select_condition_rules : list rule := [
  on_broadcast c (fun value _ => Some (Mutate (select' value t f)));
  on_bin NE c (fun a b => Some (Mutate (select' (on2 operator_eq a b) f t)));
  on_bin LE c (fun a b => Some (Mutate (select' (on2 operator_lt b a) f t)))
].

(** Likely values, and selections of selections. *)
Definition select_nested_rules : list rule := [
  on_likely t (fun x => when (x ≡' f) (Result t));
  on_likely f (fun x => when (x ≡' t) (Result f));
  on_select t (fun c' t' f' => when (t' ≡' f) (Mutate (select' (on2 operator_and c (not' c')) f' f)));
  on_select t (fun c' t' f' => when (f' ≡' f) (Mutate (select' (on2 operator_and c c') t' f)));
  on_select f (fun c' t' f' => when (f' ≡' t) (Mutate (select' (on2 operator_or c (not' c')) t t')));
  on_select f (fun c' t' f' => when (t' ≡' t) (Mutate (select' (on2 operator_or c c') t f')))
].

(** A term common to two sums or differences. *)
Definition select_sum_rules : list rule := [
  on_bin Add t (fun t1 t2 => on_bin Add f (fun f1 f2 => when (t1 ≡' f1) (Mutate (t1 +' select' c t2 f2))));
  on_bin Add t (fun t1 t2 => on_bin Add f (fun f1 f2 => when (t1 ≡' f2) (Mutate (t1 +' select' c t2 f1))));
  on_bin Add t (fun t1 t2 => on_bin Add f (fun f1 f2 => when (t2 ≡' f1) (Mutate (t2 +' select' c t1 f2))));
  on_bin Add t (fun t1 t2 => on_bin Add f (fun f1 f2 => when (t2 ≡' f2) (Mutate (select' c t1 f1 +' t2))));
  on_bin Sub t (fun t1 t2 => on_bin Sub f (fun f1 f2 => when (t1 ≡' f1) (Mutate (t1 -' select' c t2 f2))));
  on_bin Sub t (fun t1 t2 => on_bin Sub f (fun f1 f2 => when (t2 ≡' f2) (Mutate (select' c t1 f1 -' t2))));
  on_bin Add t (fun t1 t2 => on_bin Sub f (fun f1 f2 =>
    when (t1 ≡' f1) (Mutate (t1 +' select' c t2 (make_zero (type f2) -' f2)))));
  on_bin Add t (fun t1 t2 => on_bin Sub f (fun f1 f2 =>
    when (t2 ≡' f1) (Mutate (t2 +' select' c t1 (make_zero (type f2) -' f2)))));
  on_bin Sub t (fun t1 t2 => on_bin Add f (fun f1 f2 =>
    when (t1 ≡' f1) (Mutate (t1 +' select' c (make_zero (type t2) -' t2) f2))));
  on_bin Sub t (fun t1 t2 => on_bin Add f (fun f1 f2 =>
    when (t1 ≡' f2) (Mutate (t1 +' select' c (make_zero (type t2) -' t2) f1))))
].

(** A factor common to two products. *)
Definition select_product_rules : list rule := [
  on_bin Mul t (fun t1 t2 => on_bin Mul f (fun f1 f2 => when (t1 ≡' f1) (Mutate (t1 *' select' c t2 f2))));
  on_bin Mul t (fun t1 t2 => on_bin Mul f (fun f1 f2 => when (t1 ≡' f2) (Mutate (t1 *' select' c t2 f1))));
  on_bin Mul t (fun t1 t2 => on_bin Mul f (fun f1 f2 => when (t2 ≡' f1) (Mutate (t2 *' select' c t1 f2))));
  on_bin Mul t (fun t1 t2 => on_bin Mul f (fun f1 f2 => when (t2 ≡' f2) (Mutate (select' c t1 f1 *' t2))))
].

Definition select_rules : list rule :=
  select_const_rules ++ select_condition_rules ++ select_nested_rules ++ select_sum_rules ++ select_product_rules.
End Rules.

Definition visit_Select (same_as equal : ExprRef -> ExprRef -> bool) (mutate : Expr -> mut Simplify ExprRef)
    (op op_c op_t op_f : Expr) : mut Simplify ExprRef :=
  c ← mutate_defined mutate op_c;
  t ← mutate_defined mutate op_t;
  f ← mutate_defined mutate op_f;
  match first_rule (select_rules equal c t f) with
  | Some act => run_action mutate act
  | None =>
      if same_as (eref c) (eref op_c) && same_as (eref t) (eref op_t) && same_as (eref f) (eref op_f) then mret (eref op)
      else e ← lift (Select_make (eref c) (eref t) (eref f)); mret (eref e)
  end.

(** * Conditions of a selection, of one lane or of all *)
Section Chosen.
Context (Γ : gmap string Ty) (ρ : env) (Hρ : env_ok Ideal Γ ρ).
Context (t : Ty) (Ht : std_int t).

(** A condition for values of the type [t]. *)
Definition chooser (c : Expr) : Prop :=
  good Γ c /\ is_bool (type c) = true /\ is_scalar (type c) || (lanes (type c) =? lanes t) = true.

(** The lane of the condition that decides a lane of the value. *)
Definition deciding (l : Z) (i : nat) : nat := if l =? 1 then 0%nat else i.

Lemma chooser_type c : chooser c -> exists l, (l = 1 \/ l = lanes t) /\ 0 < l < 65536 /\ std_int (Bool l) /\ hasty Γ (Bool l) c /\ lanes (type c) = l.
Proof.
  intros (Hg & Hb & Hl). exists (lanes (type c)). pose proof (lanes_small t Ht) as Hlt.
  assert (H : lanes (type c) = 1 \/ lanes (type c) = lanes t) by (unfold is_scalar in Hl; bool_to_prop; destruct Hl; bool_to_prop; auto).
  assert (Hr : 0 < lanes (type c) < 65536) by lia. split; [done|]. split; [done|].
  assert (Hlb : lanes (Bool (lanes (type c))) = lanes (type c)) by (apply small_lanes; lia).
  assert (Hs : std_int (Bool (lanes (type c)))) by (split; [done|]; rewrite Hlb; split; [lia|done]).
  split; [done|]. split; [|done]. split; [done|]. apply (bool_type_iff _ Hs eq_refl). by rewrite Hlb.
Qed.

Lemma type_chooser l c : l = 1 \/ l = lanes t -> std_int (Bool l) -> hasty Γ (Bool l) c -> 0 < l < 65536 -> chooser c /\ lanes (type c) = l.
Proof.
  intros Hl Hs [Hg He] Hr. apply (bool_type_iff _ Hs eq_refl) in He as [Hb Hlc].
  assert (Hlb : lanes (Bool l) = l) by (apply small_lanes; lia). rewrite Hlb in Hlc. split; [|done].
  split; [done|]. split; [done|]. unfold is_scalar. rewrite Hlc. destruct Hl as [-> | ->]; [done|]. by rewrite Z.eqb_refl, orb_true_r.
Qed.

Lemma nlanes_bool l : 0 < l < 65536 -> nlanes (Bool l) = Z.to_nat l.
Proof. intros Hl. unfold nlanes. f_equal. apply small_lanes. lia. Qed.

Lemma lane_condition_many (v : value) i : length v <> 1%nat -> lane_condition v i = v !! i.
Proof. by destruct v as [|x [|y v]]. Qed.

(** What a condition picks is its truth. *)
Lemma picks_truth l c p : l = 1 \/ l = lanes t -> 0 < l < 65536 -> std_int (Bool l) -> hasty Γ (Bool l) c -> picks ρ t c p ->
  exists q, truth ρ (Bool l) c q /\ forall i, (i < nlanes t)%nat -> p i = q (deciding l i).
Proof.
  intros Hl Hr Hs Hc (vc & Hvc & Hlen & Hp).
  destruct (den_intro Γ ρ Hρ (Bool l) Hs c vc Hc Hvc) as (F & HF & -> & _).
  destruct (truth_intro Γ ρ Hρ (Bool l) Hs eq_refl c F Hc HF) as (q & Hq & HFq). exists q. split; [done|].
  intros i Hi. destruct (Hp i Hi) as (s & Hs' & Hps). pose proof (lanes_small t Ht). pose proof (nlanes_bool l Hr) as Hn.
  assert (Hd : (deciding l i < nlanes (Bool l))%nat).
  { unfold deciding. destruct (Z.eqb_spec l 1); [lia|]. destruct Hl as [?|Hl]; [done|]. rewrite Hn, Hl. exact Hi. }
  assert (s = VInt (F (deciding l i))) as ->.
  { unfold deciding in *. destruct (Z.eqb_spec l 1) as [->|Hne].
    - rewrite Hn in Hs'. change (tab (Z.to_nat 1) F) with [VInt (F 0%nat)] in Hs'. by injection Hs' as <-.
    - rewrite lane_condition_many, tab_lookup in Hs' by (rewrite ?tab_length; lia).
      by injection Hs' as <-. }
  rewrite HFq in Hps by done. simpl in Hps. by destruct (q (deciding l i)), (p i).
Qed.

Lemma truth_picks l c q : l = 1 \/ l = lanes t -> 0 < l < 65536 -> truth ρ (Bool l) c q -> picks ρ t c (fun i => q (deciding l i)).
Proof.
  intros Hl Hr Hq. unfold truth, den in Hq. rewrite nlanes_bool in Hq by done. eexists. split; [exact Hq|]. rewrite tab_length.
  split; [destruct Hl as [-> | ->]; [by left|by right]|]. intros i Hi. unfold deciding.
  destruct (Z.eqb_spec l 1) as [->|Hne].
  - eexists. split; [done|]. simpl. by destruct (q 0%nat).
  - destruct Hl as [?|Hl]; [done|]. exists (VInt (Z.b2z (q i))). split; [|by destruct (q i)].
    assert (Hil : (i < Z.to_nat l)%nat) by (rewrite Hl; exact Hi).
    by rewrite lane_condition_many, tab_lookup by (rewrite ?tab_length; lia).
Qed.
(** A condition widened to the lanes of another. *)
Definition widened (c : Expr) (lc lr : Z) : Expr := if lc =? lr then c else Broadcast c lr.

Lemma widened_ok c lc lr : lc = 1 \/ lc = lr -> 0 < lr < 65536 -> std_int (Bool lc) -> std_int (Bool lr) -> hasty Γ (Bool lc) c ->
  hasty Γ (Bool lr) (widened c lc lr) /\
  forall p, truth ρ (Bool lc) c p -> truth ρ (Bool lr) (widened c lc lr) (fun i => p (deciding lc i)).
Proof.
  intros Hl Hr Hsc Hsr Hc. unfold widened. destruct (Z.eqb_spec lc lr) as [->|Hne].
  - split; [done|]. intros p Hp. eapply truth_ext; [exact Hp|]. intros i Hi. rewrite nlanes_bool in Hi by done.
    unfold deciding. destruct (Z.eqb_spec lr 1) as [->|]; [|done]. by assert (i = 0%nat) as -> by lia.
  - destruct Hl as [-> |]; [|done]. assert (Hlr : lanes (Bool lr) = lr) by (apply small_lanes; lia).
    destruct (broadcast_hasty Γ (Bool lr) Hsr c Hc) as [_ Hb]; [rewrite Hlr; lia|]. rewrite Hlr in Hb. split; [done|].
    intros p Hp. pose proof (den_broadcast ρ (Bool lr) Hsr c _ Hp) as H. by rewrite Hlr in H.
Qed.

Lemma match_conditions c d lc ld : 0 < lc < 65536 -> 0 < ld < 65536 -> lc = 1 \/ ld = 1 \/ lc = ld ->
  std_int (Bool lc) -> std_int (Bool ld) -> hasty Γ (Bool lc) c -> hasty Γ (Bool ld) d ->
  match_types c d = Ok (widened c lc (Z.max lc ld), widened d ld (Z.max lc ld)).
Proof.
  intros Hrc Hrd Hl Hsc Hsd Hc Hd.
  assert (Hlc : lanes (type c) = lc) by (destruct (hasty_fields Γ _ Hsc c Hc) as (_ & _ & ->); apply small_lanes; lia).
  assert (Hld : lanes (type d) = ld) by (destruct (hasty_fields Γ _ Hsd d Hd) as (_ & _ & ->); apply small_lanes; lia).
  destruct (Z.eq_dec lc ld) as [->|Hne].
  { rewrite Z.max_id. unfold widened. rewrite Z.eqb_refl. by apply (match_types_same Γ (Bool ld)). }
  unfold match_types. pose proof (type_eqb_classes _ _ (hasty_type _ _ _ Hc)) as (_ & _ & _ & -> & _).
  pose proof (type_eqb_classes _ _ (hasty_type _ _ _ Hd)) as (_ & _ & _ & -> & _). cbn [negb andb user_assert mbind res_bind].
  destruct (type_eqb (type c) (type d)) eqn:E; [apply type_eqb_fields in E as (_ & _ & E); lia|].
  unfold match_lanes, is_scalar, is_vector. rewrite Hlc, Hld.
  assert (Hwide : forall l b x, 1 < l < 65536 -> std_int (Bool l) -> hasty Γ (Bool 1) b -> hasty Γ (Bool l) x ->
    Broadcast_make (eref b) l = Ok (Broadcast b l) /\
    match_element_types (Broadcast b l) x = Ok (Broadcast b l, x) /\ match_element_types x (Broadcast b l) = Ok (x, Broadcast b l)).
  { intros l b x Hlr Hs Hb Hx. assert (Hll : lanes (Bool l) = l) by (apply small_lanes; lia).
    destruct (broadcast_hasty Γ (Bool l) Hs b Hb) as [Hm Hh]; [lia|]. rewrite Hll in Hm, Hh. split; [exact Hm|].
    unfold match_element_types. rewrite !(type_eqb_trans_std (Bool l) Hs) by (first [apply Hh|apply Hx]). done. }
  destruct Hl as [-> |[-> | ->]]; [| |done]; unfold widened; rewrite Z.eqb_refl; cbn [andb negb].
  - destruct (Hwide ld c d ltac:(lia) Hsd Hc Hd) as (Hm & He & _). rewrite (proj2 (Z.eqb_neq ld 1)) by lia. cbn [negb].
    rewrite Hm. cbn [mbind res_bind]. rewrite He, Z.max_r, Z.eqb_refl by lia. by rewrite (proj2 (Z.eqb_neq 1 ld)) by lia.
  - destruct (Hwide lc d c ltac:(lia) Hsc Hd Hc) as (Hm & _ & He). rewrite (proj2 (Z.eqb_neq lc 1)) by lia. cbn [negb andb].
    rewrite Hm. cbn [mbind res_bind]. rewrite He, Z.max_l, Z.eqb_refl by lia. by rewrite (proj2 (Z.eqb_neq 1 lc)) by lia.
Qed.

(** ** The conditions the rules build *)

Definition chooses (r : res Expr) : Prop := forall e, r = Ok e -> chooser e.
Definition picked (r : res Expr) (p : nat -> bool) : Prop := forall e, r = Ok e -> picks ρ t e p.

Lemma chooses_not r : chooses r -> chooses (not' r) /\ forall p, picked r p -> picked (not' r) (fun i => negb (p i)).
Proof.
  intros Hr. assert (H : forall e, not' r = Ok e -> chooser e /\ forall p, picked r p -> picks ρ t e (fun i => negb (p i)));
    [|split; [intros e He|intros p Hp e He]; by apply H].
  intros e He. unfold not' in He. apply bind_Ok in He as (x & Hx & He). apply not_Ok in He as ->.
  destruct (chooser_type x (Hr _ Hx)) as (l & Hl & Hrg & Hs & Hh & _). split.
  - apply (type_chooser l); try done. by apply (not_parts Γ _ Hs eq_refl).
  - intros p Hp. destruct (picks_truth l x p Hl Hrg Hs Hh (Hp _ Hx)) as (q & Hq & Hpq).
    destruct (truth_picks l (Not x) _ Hl Hrg (truth_not ρ _ x q Hq)) as (vc & Hvc & Hlen & Hv).
    exists vc. split; [done|]. split; [done|]. intros i Hi. destruct (Hv i Hi) as (s & ? & Hs'). exists s. split; [done|].
    by rewrite Hs', Hpq.
Qed.

Lemma picks_ext c p q : picks ρ t c p -> (forall i, (i < nlanes t)%nat -> p i = q i) -> picks ρ t c q.
Proof.
  intros (vc & Hvc & Hlen & Hv) H. exists vc. split; [done|]. split; [done|]. intros i Hi. destruct (Hv i Hi) as (s & ? & Hs).
  exists s. split; [done|]. by rewrite Hs, H.
Qed.

Lemma chooses_logic op mk r r' : (op = And /\ mk = operator_and \/ op = Or /\ mk = operator_or) ->
  chooses r -> chooses r' ->
  chooses (on2 mk r r') /\ forall p p', picked r p -> picked r' p' -> picked (on2 mk r r') (fun i => lop op (p i) (p' i)).
Proof.
  intros Hmk Hr Hr'.
  assert (H : forall e, on2 mk r r' = Ok e -> chooser e /\ forall p p', picked r p -> picked r' p' -> picks ρ t e (fun i => lop op (p i) (p' i)));
    [|split; [intros e He|intros p p' Hp Hp' e He]; by apply H].
  intros e He. apply on2_Ok in He as (c & d & Hc & Hd & He).
  destruct (chooser_type c (Hr _ Hc)) as (lc & Hlc & Hrc & Hsc & Hhc & _), (chooser_type d (Hr' _ Hd)) as (ld & Hld & Hrd & Hsd & Hhd & _).
  assert (Hop : is_logical op = true) by (by destruct Hmk as [[-> _]|[-> _]]).
  set (l := Z.max lc ld). assert (Hl : l = 1 \/ l = lanes t) by (unfold l; destruct Hlc, Hld; pose proof (lanes_small t Ht); lia).
  assert (Hrl : 0 < l < 65536) by (unfold l; lia). assert (Hsl : std_int (Bool l)) by (unfold l; by destruct (Z.max_spec lc ld) as [[_ ->]|[_ ->]]).
  assert (Hml : lc = 1 \/ ld = 1 \/ lc = ld) by (destruct Hlc, Hld; subst; auto).
  destruct (widened_ok c lc l) as [Hwc Hpc]; [unfold l; destruct Hlc, Hld; subst; pose proof (lanes_small t Ht); lia|done..|].
  destruct (widened_ok d ld l) as [Hwd Hpd]; [unfold l; destruct Hlc, Hld; subst; pose proof (lanes_small t Ht); lia|done..|].
  assert (e = Bin op (widened c lc l) (widened d ld l)) as ->.
  { pose proof (match_conditions c d lc ld Hrc Hrd Hml Hsc Hsd Hhc Hhd) as Hm. fold l in Hm.
    destruct Hmk as [[-> ->]|[-> ->]]; unfold operator_and, operator_or in He; cbn [deref eref mbind res_bind] in He;
      unfold eref in *; rewrite Hm in He; cbn [mbind res_bind] in He; by apply logical_make_node in He. }
  split; [apply (type_chooser l); try done; by apply (logic_built Γ _ Hsl eq_refl)|]. intros p p' Hp Hp'.
  destruct (picks_truth lc c p Hlc Hrc Hsc Hhc (Hp _ Hc)) as (q & Hq & Hpq), (picks_truth ld d p' Hld Hrd Hsd Hhd (Hp' _ Hd)) as (q' & Hq' & Hpq').
  pose proof (truth_logic ρ _ op _ _ _ _ Hop (Hpc q Hq) (Hpd q' Hq')) as Ht'.
  eapply picks_ext; [exact (truth_picks l _ _ Hl Hrl Ht')|]. intros i Hi. cbv beta.
  assert (Hdd : forall m, m = 1 \/ m = l -> deciding m (deciding l i) = deciding m i).
  { intros m Hm'. unfold deciding. destruct (Z.eqb_spec m 1), (Z.eqb_spec l 1); lia. }
  rewrite !Hdd by (unfold l; destruct Hlc, Hld; subst; pose proof (lanes_small t Ht); lia). by rewrite <- Hpq, <- Hpq'.
Qed.
(** The comparison that is false where another is true. *)
Lemma chooses_cmp op op' mk x y x' y' : let u := type x in
  is_comparison op = true -> is_comparison op' = true -> joins Γ u op' mk -> std_int u ->
  (hasty Γ u x -> hasty Γ u y -> hasty Γ u x' /\ hasty Γ u y') ->
  (forall f g, den ρ u x f -> den ρ u y g -> exists f' g', den ρ u x' f' /\ den ρ u y' g' /\
     forall i, icmp op' (f' i) (g' i) = negb (icmp op (f i) (g i))) ->
  chooser (Bin op x y) ->
  chooses (on2 mk x' y') /\ forall p, picks ρ t (Bin op x y) p -> picked (on2 mk x' y') (fun i => negb (p i)).
Proof.
  intros u Hop Hop' Hmk Hu Hh Hd Hc. destruct (chooser_type _ Hc) as (l & Hl & Hr & Hs & Hb & _).
  assert (Hlb : lanes (Bool l) = l) by (apply small_lanes; lia).
  destruct (cmp_parts Γ (Bool l) eq_refl op x y Hop Hu Hb) as (Hx & Hy & Hlu). destruct (Hh Hx Hy) as [Hx' Hy'].
  assert (H : forall e, on2 mk x' y' = Ok e -> chooser e /\ forall p, picks ρ t (Bin op x y) p -> picks ρ t e (fun i => negb (p i)));
    [|split; [intros e He|intros p Hp e He]; by apply H].
  intros e He. apply on2_Ok in He as (? & ? & [= <-] & [= <-] & He). apply (Hmk x' y' e Hx' Hy') in He as ->.
  split; [apply (type_chooser l); try done; by apply (cmp_built Γ (Bool l) Hs eq_refl u Hu Hlu)|]. intros p Hp.
  destruct (picks_truth l _ p Hl Hr Hs Hb Hp) as (q & Hq & Hpq).
  destruct (truth_cmp_inv Γ ρ Hρ (Bool l) Hs eq_refl u Hu Hlu op x y q Hop Hx Hy Hq) as (f & g & Hf & Hg & E).
  destruct (Hd f g Hf Hg) as (f' & g' & Hf' & Hg' & E').
  pose proof (truth_cmp ρ (Bool l) Hs eq_refl u Hu Hlu op' x' y' f' g' Hop' Hf' Hg') as Ht'.
  eapply picks_ext; [exact (truth_picks l _ _ Hl Hr Ht')|]. intros i Hi. cbv beta. rewrite E', Hpq by done.
  assert (Hdi : (deciding l i < nlanes (Bool l))%nat).
  { rewrite nlanes_bool by done. unfold deciding. destruct (Z.eqb_spec l 1); [lia|]. destruct Hl as [?|Hl]; [done|]. rewrite Hl. exact Hi. }
  by destruct (E _ Hdi) as (_ & _ & ->).
Qed.

Lemma chooses_eq x y : std_int (type x) -> chooser (Bin NE x y) ->
  chooses (on2 operator_eq x y) /\ forall p, picks ρ t (Bin NE x y) p -> picked (on2 operator_eq x y) (fun i => negb (p i)).
Proof.
  intros Hu. eapply (chooses_cmp NE EQ); try done; [by apply joins_eq|]. intros f g Hf Hg. exists f, g. split; [done|]. split; [done|].
  intros i. cbn [icmp]. by rewrite negb_involutive.
Qed.
Lemma chooses_lt x y : std_int (type x) -> chooser (Bin LE x y) ->
  chooses (on2 operator_lt y x) /\ forall p, picks ρ t (Bin LE x y) p -> picked (on2 operator_lt y x) (fun i => negb (p i)).
Proof.
  intros Hu. eapply (chooses_cmp LE LT); try done; [by apply joins_lt|]. intros f g Hf Hg. exists g, f. split; [done|]. split; [done|].
  intros i. cbn [icmp]. lia.
Qed.

(** ** Selections the rules build *)

Lemma builds_select_by r a b : chooses r -> builds Γ t a -> builds Γ t b -> builds Γ t (select' r a b).
Proof.
  intros Hr Ha Hb e He. unfold select' in He. apply bind_Ok in He as (c & Hc & He).
  destruct (Hr c Hc) as (Hg & Hb' & Hl). refine (builds_select Γ t Ht c a b Hg Hb' Hl Ha Hb e _). exact He.
Qed.
Lemma computes_select_by r p a b f g : picked r p -> computes ρ t a f -> computes ρ t b g ->
  computes ρ t (select' r a b) (fun i => if p i then f i else g i).
Proof.
  intros Hp Hf Hg e He. unfold select' in He. apply bind_Ok in He as (c & Hc & He).
  refine (computes_select ρ t Ht c a b p f g (Hp c Hc) Hf Hg e _). exact He.
Qed.
Lemma chooses_expr c : chooser c -> chooses (built_expr c).
Proof. by intros Hc ? [= <-]. Qed.
Lemma picked_expr c p : picks ρ t c p -> picked (built_expr c) p.
Proof. by intros Hc ? [= <-]. Qed.

(** The condition of a selection joined with that of a selection in it, or its negation. *)
Definition nested (mk : ExprRef -> ExprRef -> res Expr) (neg : bool) (c d : Expr) : res Expr :=
  on2 mk c (if neg then not' d else built_expr d).
Lemma nested_condition op mk neg c d : (op = And /\ mk = operator_and \/ op = Or /\ mk = operator_or) -> chooser c -> chooser d ->
  chooses (nested mk neg c d) /\
  forall p q, picks ρ t c p -> picks ρ t d q -> picked (nested mk neg c d) (fun i => lop op (p i) (xorb neg (q i))).
Proof.
  intros Hmk Hc Hd. pose proof (chooses_expr c Hc) as Hcc. pose proof (chooses_expr d Hd) as Hcd.
  destruct (chooses_not _ Hcd) as [Hn Hpn]. unfold nested.
  destruct (chooses_logic op mk c (if neg then not' d else built_expr d) Hmk Hcc) as [H1 H2]; [by destruct neg|].
  split; [done|]. intros p q Hp Hq. apply H2; [by apply picked_expr|].
  destruct neg; [by apply Hpn, picked_expr|]. intros e He. eapply picks_ext; [by apply (picked_expr d q)|]. intros i _. by destruct (q i).
Qed.

(** Constant conditions. *)
Lemma constant_picks c p v : chooser c -> (if v : bool then is_one c else is_zero c) = true -> picks ρ t c p ->
  forall i, (i < nlanes t)%nat -> p i = v.
Proof.
  intros Hc Hv Hp i Hi. destruct (chooser_type c Hc) as (l & Hl & Hr & Hs & Hb & _).
  destruct (picks_truth l c p Hl Hr Hs Hb Hp) as (q & Hq & Hpq). rewrite Hpq by done.
  assert (Hdi : (deciding l i < nlanes (Bool l))%nat).
  { rewrite nlanes_bool by done. unfold deciding. destruct (Z.eqb_spec l 1); [lia|]. destruct Hl as [?|Hl]; [done|]. rewrite Hl. exact Hi. }
  destruct v; [by eapply (one_truth Γ ρ (Bool l) c q)|by eapply (zero_truth Γ ρ (Bool l) c q)].
Qed.
End Chosen.

(** Likely calls have one argument, and a comparison that is normalized compares integers. *)
Record select_safe (c x y : Expr) : Prop := {
  safe_condition : compares_ints c;
  safe_values : likely_ok x && likely_ok y = true
}.

Section Selected.
Context (Γ : gmap string Ty) (ρ : env) (Hρ : env_ok Ideal Γ ρ).
Context (t : Ty) (Ht : std_int t).

(** A condition as a value of its own type. *)
Lemma chooser_value d : is_bool t = true -> chooser Γ t d ->
  exists l, lanes (type d) = l /\ (l = 1 \/ l = lanes t) /\ hasty Γ t (widened d l (lanes t)) /\
    forall q, picks ρ t d q -> den ρ t (widened d l (lanes t)) (fun i => Z.b2z (q i)).
Proof.
  intros Hb Hd. destruct (chooser_type Γ t Ht d Hd) as (l & Hl & Hr & Hs & Hh & Hld).
  pose proof (lanes_small t Ht) as Hlt. pose proof (bool_type_self t Ht Hb) as Hself.
  assert (Hst : std_int (Bool (lanes t))) by (by rewrite <- Hself).
  destruct (widened_ok Γ ρ d l (lanes t)) as [Hw Hp]; [done|lia|done..|]. rewrite <- Hself in Hw, Hp.
  exists l. split; [done|]. split; [done|]. split; [done|]. intros q Hq.
  destruct (picks_truth Γ ρ Hρ t Ht l d q Hl Hr Hs Hh Hq) as (r & Hrt & Hqr). eapply den_ext; [exact (Hp r Hrt)|].
  intros i Hi. cbv beta. by rewrite Hqr.
Qed.

Context (c x y : Expr) (Hc : chooser Γ t c) (Hx : hasty Γ t x) (Hy : hasty Γ t y).

Lemma chosen_hasty : hasty Γ t (Select c x y).
Proof. destruct Hc as (Hg & Hb & Hl). by apply (select_hasty Γ t Ht). Qed.

(** A rule is right when what it builds has the selected lanes. *)
Lemma select_rule r : builds Γ t r ->
  (forall p f g, picks ρ t c p -> den ρ t x f -> den ρ t y g ->
     (forall i, (i < nlanes t)%nat -> in_type t (f i) /\ in_type t (g i)) ->
     exists G, computes ρ t r G /\ forall i, (i < nlanes t)%nat -> (if p i then f i else g i) = G i) ->
  forall e', r = Ok e' -> rewrites Γ ρ (Select c x y) e'.
Proof.
  intros Hb Hv. apply (rule_rewrites Γ ρ Hρ t Ht _ r chosen_hasty Hb). intros F HF Hin.
  destruct (den_select_lanes Γ ρ Hρ t Ht c x y F Hx Hy HF) as (p & f & g & Hp & Hf & Hg & E).
  destruct (Hv p f g Hp Hf Hg) as (G & HG & E'); [intros i Hi; by destruct (E i Hi) as (? & ? & _)|].
  exists G. split; [done|]. intros i Hi. rewrite <- E' by done. by destruct (E i Hi) as (_ & _ & ->).
Qed.

(** A selection by another condition. *)
Lemma reselect_rule r a b : chooses Γ t r -> builds Γ t a -> builds Γ t b ->
  (forall p f g, picks ρ t c p -> den ρ t x f -> den ρ t y g ->
     exists q f' g', picked ρ t r q /\ computes ρ t a f' /\ computes ρ t b g' /\
       forall i, (i < nlanes t)%nat -> (if p i then f i else g i) = (if q i : bool then f' i else g' i)) ->
  action_ok Γ ρ (Select c x y) (Mutate (select' r a b)).
Proof.
  intros Hr Ha Hb' Hv. cbn [action_ok]. apply select_rule; [by apply builds_select_by|]. intros p f g Hp Hf Hg _.
  destruct (Hv p f g Hp Hf Hg) as (q & f' & g' & Hq & Hf' & Hg' & E). eexists. split; [by apply computes_select_by|]. exact E.
Qed.

End Selected.

(** The node under a rule's selection of a selection, and its parts. *)
Ltac nested_rule Hact Ht v :=
  let E := fresh "E" in
  apply on_select_Some in Hact as (c' & x' & y' & E & Hact); apply when_Some in Hact as [? <-];
  match goal with H : hasty ?Γ ?t v |- _ =>
    let K := fresh in pose proof H as K; rewrite E in K; apply (hasty_select Γ t Ht) in K; destruct K as (? & ? & ? & ? & ?) end.

(** A selection under a sum, a difference or a product: what is left is the equation of
    a lane. *)
Ltac common_rule Γ ρ Hρ HE Ht c x y Hc Hx Hy :=
  let act := fresh "act" in let Hact := fresh "Hact" in
  intros act Hact; rule_action Hact act; cbn [action_ok];
  match goal with |- forall e, ?r = Ok e -> rewrites _ _ ?s e =>
    match r with context [select' (built_expr ?c) ?a ?b] =>
      let p := fresh "p" in let Hp := fresh "Hp" in
      let B := fresh "B" in
      assert (B : builds Γ _ (select' (built_expr c) a b))
        by (split_hasty Ht; apply (builds_select_by Γ _ Ht); [by apply chooses_expr|build Ht|build Ht]);
      apply (select_rule Γ ρ Hρ _ Ht c _ _ Hc Hx Hy); [split_hasty Ht; build Ht|];
      split_hasty Ht; intros p ? ? Hp ? ? ?; split_den Hρ Ht; test_facts HE Ht;
      let C := fresh "C" in
      eassert (C : computes ρ _ (select' (built_expr c) a b) _)
        by (apply (computes_select_by ρ _ Ht); [by apply picked_expr|compute_lanes Ht|compute_lanes Ht]);
      eexists; split; [compute_lanes Ht|at_lane; pick_lane] end end.

Section Sound.
Context (equal : ExprRef -> ExprRef -> bool).
Context (Γ : gmap string Ty) (ρ : env) (Hρ : env_ok Ideal Γ ρ).
Context (HE : EqualityTest Γ ρ equal).
Context (t : Ty) (Ht : std_int t).
Context (c x y : Expr) (Hc : chooser Γ t c) (Hx : hasty Γ t x) (Hy : hasty Γ t y).

Lemma select_const_right : Forall (rule_ok Γ ρ (Select c x y)) (select_const_rules equal c x y).
Proof using All.
  destruct (eqb_class t Ht (type x) (hasty_type _ _ _ Hx)) as (_ & _ & _ & Hvec & Hbits & Hlx & _).
  assert (Hbool : is_bool (type x) = true -> is_bool t = true).
  { destruct (hasty_fields Γ t Ht x Hx) as (Hcode & Hbi & _). unfold is_bool. by rewrite Hcode, Hbi. }
  assert (Hwide : forall d l, lanes (type d) = l -> l = 1 \/ l = lanes t ->
    (if is_vector (type x) && is_scalar (type d) then Broadcast d (lanes (type x)) else d) = widened d l (lanes t)).
  { intros d l Hd Hl. unfold widened, is_vector, is_scalar. rewrite Hlx, Hd.
    destruct (Z.eqb_spec l (lanes t)) as [<-|]; destruct (Z.eqb_spec l 1) as [E|]; rewrite ?E; try done.
    + rewrite (proj2 (Z.eqb_neq (lanes t) 1)) by lia. done.
    + lia. }
  repeat (apply Forall_cons; split); [..|by apply Forall_nil]; intros act Hact; rule_action Hact act; split_bools.
  - cbn [action_ok]. apply (select_rule Γ ρ Hρ t Ht c x y Hc Hx Hy); [by apply builds_expr|]. intros p f g Hp Hf Hg Hin.
    exists g. split; [by apply computes_expr|]. intros i Hi. by rewrite (constant_picks Γ ρ Hρ t Ht c p false Hc ltac:(assumption) Hp i Hi).
  - cbn [action_ok]. apply (select_rule Γ ρ Hρ t Ht c x y Hc Hx Hy); [by apply builds_expr|]. intros p f g Hp Hf Hg Hin.
    exists f. split; [by apply computes_expr|]. intros i Hi. by rewrite (constant_picks Γ ρ Hρ t Ht c p true Hc ltac:(assumption) Hp i Hi).
  - cbn [action_ok]. apply (select_rule Γ ρ Hρ t Ht c x y Hc Hx Hy); [by apply builds_expr|]. intros p f g Hp Hf Hg Hin. test_facts HE Ht.
    exists f. split; [by apply computes_expr|]. intros i Hi. destruct (p i); [done|]. symmetry. auto.
  - assert (Hv : rewrites Γ ρ (Select c x y) (if is_vector (type x) && is_scalar (type c) then Broadcast c (lanes (type x)) else c)).
    { destruct (chooser_value Γ ρ Hρ t Ht c) as (l & Hlc & Hl & Hh & Hval); [auto|done|]. rewrite (Hwide c l Hlc Hl).
      apply (select_rule Γ ρ Hρ t Ht c x y Hc Hx Hy (built_expr (widened c l (lanes t)))); [by apply builds_expr| |done]. intros p f g Hp Hf Hg _. test_facts HE Ht.
      eexists. split; [apply computes_expr, (Hval p Hp)|]. intros i Hi. cbv beta. destruct (p i); auto. }
    destruct (is_vector (type x) && is_scalar (type c)); cbn [action_ok]; intros e' He'; [|by injection He' as <-].
    unfold Broadcast_make, internal_assert in He'. cbn [defined eref mbind res_bind] in He'. repeat (apply bind_Ok in He' as (? & _ & He')).
    by injection He' as <-.
  - assert (Hv : forall d, not' (built_expr c) = Ok d -> rewrites Γ ρ (Select c x y) (if is_vector (type x) && is_scalar (type c) then Broadcast d (lanes (type x)) else d)).
    { intros d Hd.
      assert (is_scalar (type c) = is_scalar (type d)) as ->.
      { cbn in Hd. apply not_Ok in Hd as ->. cbn [type]. unfold is_scalar. destruct (chooser_type Γ t Ht c Hc) as (l & _ & Hr & _ & _ & Hlc).
        rewrite Hlc. f_equal. symmetry. apply small_lanes. lia. }
      assert (Hcd : chooser Γ t d).
      { cbn in Hd. apply not_Ok in Hd as ->. destruct (chooser_type Γ t Ht c Hc) as (l & Hl & Hr & Hs & Hh & _).
        apply (type_chooser Γ t l); try done. by apply (not_parts Γ _ Hs eq_refl). }
      destruct (chooser_value Γ ρ Hρ t Ht d) as (l & Hlc & Hl & Hh & Hval); [auto|done|]. rewrite (Hwide d l Hlc Hl).
      apply (select_rule Γ ρ Hρ t Ht c x y Hc Hx Hy (built_expr (widened d l (lanes t)))); [by apply builds_expr| |done]. intros p f g Hp Hf Hg _. test_facts HE Ht.
      destruct (chooses_not Γ ρ Hρ t Ht (built_expr c)) as [_ Hn]; [by apply chooses_expr|].
      eexists. split; [apply computes_expr, (Hval _ (Hn p (picked_expr ρ t c p Hp) d Hd))|]. intros i Hi. cbv beta. destruct (p i); simpl; auto. }
    destruct (is_vector (type x) && is_scalar (type c)); cbn [action_ok]; intros e' He'; by apply Hv.
Qed.
Lemma select_condition_right : compares_ints c -> Forall (rule_ok Γ ρ (Select c x y)) (select_condition_rules c x y).
Proof using All.
  intros Hi. repeat (apply Forall_cons; split); [..|by apply Forall_nil]; intros act Hact.
  - apply on_broadcast_Some in Hact as (v & l & -> & [= <-]).
    destruct (chooser_type Γ t Ht _ Hc) as (lb & Hl & Hr & Hs & Hh & _).
    assert (Hlb : lanes (Bool lb) = lb) by (apply small_lanes; lia).
    destruct (hasty_broadcast Γ (Bool lb) Hs v l Hh) as (Hv & -> & Hne). rewrite Hlb in Hne. destruct Hl as [?|Hl]; [done|].
    change (element_of (Bool lb)) with (Bool 1) in Hv.
    destruct (type_chooser Γ t 1 v) as [Hcv _]; [by left|done|done|done|].
    apply (reselect_rule Γ ρ Hρ t Ht _ x y Hc Hx Hy); [by apply chooses_expr|by apply builds_expr..|]. intros p f g Hp Hf Hg.
    destruct (picks_truth Γ ρ Hρ t Ht lb _ p (or_intror Hl) Hr Hs Hh Hp) as (q & Hq & Hpq).
    destruct (truth_broadcast_inv Γ ρ Hρ (Bool lb) Hs eq_refl v _ q Hh Hq) as (q' & Hq' & Eq).
    change (element_of (Bool lb)) with (Bool 1) in Hq'.
    exists (fun i => q' (deciding 1 i)), f, g. split; [apply picked_expr; eapply (truth_picks _ _ 1); [by left|done|exact Hq']|].
    split; [by apply computes_expr|]. split; [by apply computes_expr|]. intros i Hlt.
    rewrite Hpq, Eq; [done| |done]. rewrite nlanes_bool by done. unfold deciding. rewrite (proj2 (Z.eqb_neq lb 1)) by done.
    rewrite Hl. exact Hlt.
  - apply on_bin_Some in Hact as (a & b & -> & [= <-]). pose proof (Hi eq_refl : std_int (type a)) as Hu.
    destruct (chooses_eq Γ ρ Hρ t Ht a b Hu Hc) as [Hcc Hcp]. apply (reselect_rule Γ ρ Hρ t Ht _ x y Hc Hx Hy); [done|by apply builds_expr..|].
    intros p f g Hp Hf Hg. exists (fun i => negb (p i)), g, f. split; [by apply Hcp|]. split; [by apply computes_expr|].
    split; [by apply computes_expr|]. intros i _. by destruct (p i).
  - apply on_bin_Some in Hact as (a & b & -> & [= <-]). pose proof (Hi eq_refl : std_int (type a)) as Hu.
    destruct (chooses_lt Γ ρ Hρ t Ht a b Hu Hc) as [Hcc Hcp]. apply (reselect_rule Γ ρ Hρ t Ht _ x y Hc Hx Hy); [done|by apply builds_expr..|].
    intros p f g Hp Hf Hg. exists (fun i => negb (p i)), g, f. split; [by apply Hcp|]. split; [by apply computes_expr|].
    split; [by apply computes_expr|]. intros i _. by destruct (p i).
Qed.
(** A selection of a selection. *)
Lemma nested_true op mk neg c' x' y' a b : (op = And /\ mk = operator_and \/ op = Or /\ mk = operator_or) ->
  x = Select c' x' y' -> hasty Γ t a -> hasty Γ t b ->
  (forall f' g' g, den ρ t x' f' -> den ρ t y' g' -> den ρ t y g -> exists fa gb, den ρ t a fa /\ den ρ t b gb /\
     forall i, (i < nlanes t)%nat -> forall p q : bool,
       (if p then (if q then f' i else g' i) else g i) = (if lop op p (xorb neg q) then fa i else gb i)) ->
  action_ok Γ ρ (Select c x y) (Mutate (select' (nested mk neg c c') a b)).
Proof using All.
  intros Hmk Ex Ha Hb Hv. rewrite Ex in Hx. destruct (hasty_select Γ t Ht c' x' y' Hx) as (Hgc & Hx' & Hy' & Hbc & Hlc).
  destruct (nested_condition Γ ρ Hρ t Ht op mk neg c c' Hmk Hc) as [H1 H2]; [done|]. subst x.
  apply (reselect_rule Γ ρ Hρ t Ht c _ y Hc Hx Hy); [done|by apply builds_expr..|]. intros p f g Hp Hf Hg.
  destruct (den_select_lanes Γ ρ Hρ t Ht c' x' y' f Hx' Hy' Hf) as (q & f' & g' & Hq & Hf' & Hg' & E).
  destruct (Hv f' g' g Hf' Hg' Hg) as (fa & gb & Hfa & Hgb & E'). eexists _, fa, gb.
  split; [by apply H2|]. split; [by apply computes_expr|]. split; [by apply computes_expr|].
  intros i Hi. destruct (E i Hi) as (_ & _ & ->). by apply E'.
Qed.
Lemma nested_false op mk neg c' x' y' a b : (op = And /\ mk = operator_and \/ op = Or /\ mk = operator_or) ->
  y = Select c' x' y' -> hasty Γ t a -> hasty Γ t b ->
  (forall f' g' f, den ρ t x' f' -> den ρ t y' g' -> den ρ t x f -> exists fa gb, den ρ t a fa /\ den ρ t b gb /\
     forall i, (i < nlanes t)%nat -> forall p q : bool,
       (if p then f i else (if q then f' i else g' i)) = (if lop op p (xorb neg q) then fa i else gb i)) ->
  action_ok Γ ρ (Select c x y) (Mutate (select' (nested mk neg c c') a b)).
Proof using All.
  intros Hmk Ey Ha Hb Hv. rewrite Ey in Hy. destruct (hasty_select Γ t Ht c' x' y' Hy) as (Hgc & Hx' & Hy' & Hbc & Hlc).
  destruct (nested_condition Γ ρ Hρ t Ht op mk neg c c' Hmk Hc) as [H1 H2]; [done|]. subst y.
  apply (reselect_rule Γ ρ Hρ t Ht c x _ Hc Hx Hy); [done|by apply builds_expr..|]. intros p f g Hp Hf Hg.
  destruct (den_select_lanes Γ ρ Hρ t Ht c' x' y' g Hx' Hy' Hg) as (q & f' & g' & Hq & Hf' & Hg' & E).
  destruct (Hv f' g' f Hf' Hg' Hf) as (fa & gb & Hfa & Hgb & E'). eexists _, fa, gb.
  split; [by apply H2|]. split; [by apply computes_expr|]. split; [by apply computes_expr|].
  intros i Hi. destruct (E i Hi) as (_ & _ & ->). by apply E'.
Qed.

(** A likely value is as good as the other. *)
Lemma select_nested_right : likely_ok x && likely_ok y = true ->
  Forall (rule_ok Γ ρ (Select c x y)) (select_nested_rules equal c x y).
Proof using All.
  intros [Hlx Hly]%andb_true_iff. repeat (apply Forall_cons; split); [..|by apply Forall_nil]; intros act Hact.
  - destruct (on_likely_Some _ _ _ Hact Hlx) as (z & Hz & He & Hg). apply when_Some in Hz as [Heq <-]. cbn [action_ok].
    apply (select_rule Γ ρ Hρ t Ht c x y Hc Hx Hy); [by apply builds_expr|]. intros p f g Hp Hf Hg' _. exists f. split; [by apply computes_expr|].
    intros i Hi. destruct (p i); [done|]. symmetry. refine (same_lanes ρ t x y f g _ Hf Hg' i Hi). rewrite He.
    apply (equal_conditions Γ ρ equal); [done|apply Hg, Hx|apply Hy|done].
  - destruct (on_likely_Some _ _ _ Hact Hly) as (z & Hz & He & Hg). apply when_Some in Hz as [Heq <-]. cbn [action_ok].
    apply (select_rule Γ ρ Hρ t Ht c x y Hc Hx Hy); [by apply builds_expr|]. intros p f g Hp Hf Hg' _. exists g. split; [by apply computes_expr|].
    intros i Hi. destruct (p i); [|done]. symmetry. refine (same_lanes ρ t y x g f _ Hg' Hf i Hi). rewrite He.
    apply (equal_conditions Γ ρ equal); [done|apply Hg, Hy|apply Hx|done].
  - nested_rule Hact Ht x. apply (nested_true And operator_and true c' x' y'); auto. intros f' g' g Hf' Hg' Hg. test_facts HE Ht.
    exists g', g. split; [done|]. split; [done|]. intros i Hi p q. specialize (Heq i Hi). by destruct p, q.
  - nested_rule Hact Ht x. apply (nested_true And operator_and false c' x' y'); auto. intros f' g' g Hf' Hg' Hg. test_facts HE Ht.
    exists f', g. split; [done|]. split; [done|]. intros i Hi p q. specialize (Heq i Hi). by destruct p, q.
  - nested_rule Hact Ht y. apply (nested_false Or operator_or true c' x' y'); auto. intros f' g' f Hf' Hg' Hf. test_facts HE Ht.
    exists f, f'. split; [done|]. split; [done|]. intros i Hi p q. specialize (Heq i Hi). by destruct p, q.
  - nested_rule Hact Ht y. apply (nested_false Or operator_or false c' x' y'); auto. intros f' g' f Hf' Hg' Hf. test_facts HE Ht.
    exists f, g'. split; [done|]. split; [done|]. intros i Hi p q. specialize (Heq i Hi). by destruct p, q.
Qed.

Lemma select_sum_right : Forall (rule_ok Γ ρ (Select c x y)) (select_sum_rules equal c x y).
Proof using All. repeat (apply Forall_cons; split); [..|by apply Forall_nil]; common_rule Γ ρ Hρ HE Ht c x y Hc Hx Hy; norm_ring. Qed.

Lemma select_product_right : Forall (rule_ok Γ ρ (Select c x y)) (select_product_rules equal c x y).
Proof using All. repeat (apply Forall_cons; split); [..|by apply Forall_nil]; common_rule Γ ρ Hρ HE Ht c x y Hc Hx Hy; norm_ring. Qed.

Lemma select_rules_right : select_safe c x y -> rule_ok Γ ρ (Select c x y) (first_rule (select_rules equal c x y)).
Proof using All.
  intros [Hi Hl]. apply first_rule_ok. unfold select_rules. rewrite !Forall_app.
  split_and!; auto using select_const_right, select_condition_right, select_nested_right, select_sum_right, select_product_right.
Qed.
End Sound.

(** C18. The simplifier's visit of [Select] keeps the value of a selection between integers,
    by one condition or by one for each lane, through every rule of its chain, when no
    signed overflow was flagged and the mutated operands are [select_safe]. *)
Theorem visit_Select_sound facts equal same_as mutate Γ ρ s op_c op_t op_f :
  Facts facts equal -> Simplifies facts mutate -> facts Γ ρ s -> good Γ (Select op_c op_t op_f) -> std_int (type op_t) ->
  (forall c s1 x s2 y s3, mutate op_c s = Ok (Some c, s1) -> mutate op_t s1 = Ok (Some x, s2) ->
     mutate op_f s2 = Ok (Some y, s3) -> select_safe c x y) ->
  simplifies facts (visit_Select same_as equal mutate (Select op_c op_t op_f) op_c op_t op_f) Γ ρ s (Select op_c op_t op_f).
Proof.
  intros HF HM Hs Hg Ht Hsafe r s' H. set (t := type op_t) in *.
  pose proof (facts_env _ _ Γ ρ s Hs) as Hρ.
  destruct (hasty_select Γ t Ht op_c op_t op_f) as (Hgc & Ho & Hf & Hbc & Hlc); [split; [done|]; apply type_eqb_refl|].
  unfold visit_Select in H. apply mut_bind_Ok in H as (c & s1 & Hc & H). apply mutate_defined_Ok in Hc.
  apply mut_bind_Ok in H as (x & s2 & Hx & H). apply mutate_defined_Ok in Hx.
  apply mut_bind_Ok in H as (y & s3 & Hy & H). apply mutate_defined_Ok in Hy. specialize (Hsafe _ _ _ _ _ _ Hc Hx Hy).
  destruct (simplifies_expr facts Γ ρ s op_c Hs Hgc _ _ Hc) as (c' & [= <-] & [Hg1 Ht1 Hs1 Hc1 Hv1]).
  destruct (simplifies_expr facts Γ ρ s1 op_t Hs1 (hasty_good _ _ _ Ho) _ _ Hx) as (x' & [= <-] & [Hg2 Ht2 Hs2 Hc2 Hv2]).
  destruct (simplifies_expr facts Γ ρ s2 op_f Hs2 (hasty_good _ _ _ Hf) _ _ Hy) as (y' & [= <-] & [Hg3 Ht3 Hs3 Hc3 Hv3]).
  assert (Hhx : hasty Γ t x) by (split; [done|]; eapply type_eqb_trans; [done|apply Ho]).
  assert (Hhy : hasty Γ t y) by (split; [done|]; eapply type_eqb_trans; [done|apply Hf]).
  assert (Hcc : chooser Γ t c).
  { split; [done|]. apply type_eqb_fields in Ht1 as (E1 & E2 & E3). unfold is_bool, is_scalar in *. by rewrite E1, E2, E3. }
  pose proof (chosen_hasty Γ t Ht c x y Hcc Hhx Hhy) as Hsel.
  assert (Hsd : simplified facts Γ ρ s (Select op_c op_t op_f) (Select c x y) s3).
  { split; try done.
    - apply Hsel.
    - lia.
    - intros Hcnt v Hv. cbn [eval] in Hv |- *. apply bind_Some in Hv as (vc & Hvc & Hv).
      apply bind_Some in Hv as (vx & Hvx & Hv). apply bind_Some in Hv as (vy & Hvy & Hv).
      rewrite (Hv1 ltac:(lia) _ Hvc), (Hv2 ltac:(lia) _ Hvx), (Hv3 ltac:(lia) _ Hvy). exact Hv. }
  destruct (first_rule (select_rules equal c x y)) as [act|] eqn:Er.
  - pose proof (facts_equal _ _ Γ ρ s3 Hs3) as HE. pose proof (facts_env _ _ Γ ρ s3 Hs3) as Hρ3.
    eapply (then_action facts equal mutate Γ ρ s s3); eauto. by apply (select_rules_right equal Γ ρ Hρ3 HE t Ht c x y).
  - destruct (same_as (eref c) (eref op_c) && same_as (eref x) (eref op_t) && same_as (eref y) (eref op_f)).
    + apply mut_ret_Ok in H as [= -> ->]. exists (Select op_c op_t op_f). split; [done|]. split; try done; [apply type_eqb_refl|lia].
    + destruct Hcc as (_ & Hb & Hl). destruct (select_hasty Γ t Ht c x y Hg1 Hhx Hhy Hb Hl) as [Hm _]. rewrite Hm in H.
      apply mut_bind_Ok in H as (e & s4 & He & H). apply lift_Ok in He as [[= <-] ->]. apply mut_ret_Ok in H as [= -> ->].
      by exists (Select c x y).
Qed.

(** [select(x <= y, x + 3, 5 + x)] becomes [x + select(y < x, 5, 3)]: the visit of the
    normalized selection, which the mutator makes, is the second one. *)
Definition below : Expr := Bin LT y32 x32.

Lemma visit_Select_sound_witness :
  let a := Bin Add x32 (imm32 3) in let b := Bin Add (imm32 5) x32 in
  let e := Select (Bin LE x32 y32) a b in
  visit_Select same_expr_ref ptr_equal no_mutate e (Bin LE x32 y32) a b new_simplify = Ok (eref (Select below b a), new_simplify) /\
  visit_Select same_expr_ref ptr_equal no_mutate (Select below b a) below b a new_simplify =
    Ok (eref (Bin Add x32 (Select below (imm32 5) (imm32 3))), new_simplify) /\
  eval Ideal (xy_env 5 (-4)) e = Some [VInt 10] /\
  simplifies env_facts (visit_Select same_expr_ref ptr_equal no_mutate e (Bin LE x32 y32) a b)
    xy_types (xy_env 5 (-4)) new_simplify e.
Proof.
  split; [by vm_compute|]. split; [by vm_compute|]. split; [by vm_compute|].
  apply (visit_Select_sound env_facts ptr_equal same_expr_ref no_mutate).
  - apply env_facts_Facts.
  - apply no_mutate_Simplifies.
  - apply xy_facts.
  - split; [repeat split; by vm_compute|repeat split; by vm_compute|by vm_compute].
  - by vm_compute.
  - intros c s1 x s2 y s3 [= <- <-] [= <- <-] [= <- <-]. split; [|by vm_compute]. intros _. split; [by vm_compute|split; by vm_compute].
Defined.
