(* ===== verification/SimplifyEqual.v ===== *)
(** The simplifier's visit of [EQ] (src/src/Simplify.cpp): the difference of the operands,
    what is known of it, the rules for the test that it is zero, and the proof that each
    keeps the truth of an equation of integers. *)

From Stdlib Require Import ZArith Lia Bool SpecFloat String ZifyBool.
From stdpp Require Import prelude strings gmap.
From S2P Require Import Prelude Types IR Semantics Scope Operators ModulusRemainder Mutator Equality EqualityMeaning Interval ConstBounds Monotonic Lanes Conditions Simplify SimplifyRules SimplifyQuotient SimplifyExtremum SimplifySub SimplifyConditions SimplifyNot SimplifySelect.

#[local] Open Scope Z_scope.
#[local] Open Scope halide_scope.

Section Visit.
Context (same_as : ExprRef -> ExprRef -> bool) (extract_lane : Expr -> Z -> res Expr).

(** Whether all the lanes of a constant are zero, and whether none is. *)
Fixpoint zero_lanes_of (delta : Expr) (i : Z) (n : nat) (t f : bool) : res (bool * bool) :=
  match n with
  | O => Ok (t, f)
  | S n =>
      deltai ← extract_lane delta i;
      if is_zero deltai then zero_lanes_of delta (i + 1) n t false else zero_lanes_of delta (i + 1) n false f
  end.

(** The cases of the visit that return. *)
Definition eq_early (w : Z) (delta : Expr) (s : Simplify) : res rule :=
  if is_zero delta then Ok (Some (Result (const_true w)))
  else if is_const delta then
    '(t, f) ← zero_lanes_of delta 0 (Z.to_nat (lanes (type delta))) true true;
    Ok (if (t : bool) then Some (Result (const_true w)) else when f (Result (const_false w)))
  else if no_overflow_scalar_int (type delta) then
    mod_rem ← modulus_remainder_in delta (alignment_info s);
    if negb (remainder mod_rem =? 0) then Ok (Some (Result (const_false 1)))
    else
      bnd ← const_int_bounds (bounds_info s) delta;
      Ok (match bnd with Some (lo, hi) => when ((0 <? lo) || (hi <? 0)) (Result (const_false 1)) | None => None end)
  else Ok None.

Definition eq_select_rule (delta zero : Expr) : rule :=
  on_select delta (fun c x y =>
    if is_zero x then Some (Mutate (on2 operator_or c (on2 operator_eq y zero)))
    else if is_const x then Some (Mutate (on2 operator_and (not' c) (on2 operator_eq y zero)))
    else if is_zero y then Some (Mutate (on2 operator_or (not' c) (on2 operator_eq x zero)))
    else when (is_const y) (Mutate (on2 operator_and c (on2 operator_eq x zero)))).

Definition eq_rules (op op_a op_b delta zero : Expr) : list rule := [
  on_broadcast delta (fun value lanes => Some (MutateLanes (on2 operator_eq value (make_zero (type value))) lanes));
  on_bin Add delta (fun x k => when (is_const k) (MutateInto (make_zero (type delta) -' k) (fun r => operator_eq (eref x) r)));
  on_bin Sub delta (fun x y =>
    if is_const x then Some (Result (on2 operator_eq y x))
    else if same_as (eref x) (eref op_a) && same_as (eref y) (eref op_b) then Some (Result op)
    else Some (Result (on2 operator_eq x y)));
  on_bin Mul delta (fun x y =>
    when (no_overflow (type delta)) (Mutate (on2 operator_or (on2 operator_eq x zero) (on2 operator_eq y zero))));
  eq_select_rule delta zero
].

Definition visit_EQ (mutate : Expr -> mut Simplify ExprRef) (op op_a op_b : Expr) : mut Simplify ExprRef :=
  d ← lift (operator_sub (eref op_a) (eref op_b));
  delta ← mutate_defined mutate d;
  zero ← lift (make_zero (type delta));
  s ← this;
  early ← lift (eq_early (lanes (type op)) delta s);
  match early with
  | Some act => run_action mutate act
  | None =>
      match first_rule (eq_rules op op_a op_b delta zero) with
      | Some act => run_action mutate act
      | None => run_action mutate (Result (on2 operator_eq delta (make_zero (type delta))))
      end
  end.
End Visit.

(** What the visit needs of [extract_lane]: the lane of a constant is plain enough for
    [is_zero] to see that it is zero. *)
Class LaneExtractor (extract_lane : Expr -> Z -> res Expr) : Prop :=
  extract_zero : forall Γ ρ u e f i d, std_int u -> hasty Γ u e -> is_const e = true -> env_ok Ideal Γ ρ -> den ρ u e f ->
    (i < nlanes u)%nat -> extract_lane e (Z.of_nat i) = Ok d -> is_zero d = (f i =? 0).

(** The analyses are right of the difference: its remainder is, and is not a multiple of
    the modulus unless it is zero, and so are its bounds; and where it is a selection
    between constants these are not vectors with some lanes zero: they are plain. *)
Record eq_safe (s : Simplify) (delta : Expr) : Prop := {
  safe_remainder : no_overflow_scalar_int (type delta) = true ->
    defect_free (set_containing_scope scope_new (Some (alignment_info s))) delta = true /\
    forall mr, modulus_remainder_in delta (alignment_info s) = Ok mr -> (modulus mr | remainder mr) -> remainder mr = 0;
  safe_bounded : mods_exact (bounds_info s) delta = true;
  safe_choices : forall c x y, delta = Select c x y ->
    (is_const x = true -> is_simple_const x = true) /\ (is_const y = true -> is_simple_const y = true)
}.

Lemma zero_lanes_of_Ok extract_lane delta n i t f t' f' : zero_lanes_of extract_lane delta i n t f = Ok (t', f') ->
  exists z : nat -> bool, (forall j, (j < n)%nat -> exists d, extract_lane delta (i + Z.of_nat j) = Ok d /\ is_zero d = z j) /\
    (t' = true -> t = true /\ forall j, (j < n)%nat -> z j = true) /\ (f' = true -> f = true /\ forall j, (j < n)%nat -> z j = false).
Proof.
  revert i t f. induction n as [|n IH]; intros i t f H; cbn [zero_lanes_of] in H.
  - injection H as <- <-. exists (fun _ => true). split_and!; [lia|auto with lia|auto with lia].
  - apply bind_Ok in H as (d & Hd & H).
    assert (Hstep : exists z, (forall j, (j < n)%nat -> exists d, extract_lane delta (i + 1 + Z.of_nat j) = Ok d /\ is_zero d = z j) /\
      (t' = true -> t = true /\ is_zero d = true /\ forall j, (j < n)%nat -> z j = true) /\
      (f' = true -> f = true /\ is_zero d = false /\ forall j, (j < n)%nat -> z j = false)).
    { destruct (is_zero d); apply IH in H as (z & Hz & Ht & Hf); exists z; (split; [done|]); naive_solver. }
    destruct Hstep as (z & Hz & Ht & Hf). exists (fun j => match j with O => is_zero d | S j => z j end). split_and!.
    + intros [|j] Hj; [exists d; by rewrite Z.add_0_r|]. replace (i + Z.of_nat (S j)) with (i + 1 + Z.of_nat j) by lia. apply Hz. lia.
    + intros Ht'. destruct (Ht Ht') as (-> & ? & Hj). split; [done|]. intros [|j] ?; [done|]. apply Hj. lia.
    + intros Hf'. destruct (Hf Hf') as (-> & ? & Hj). split; [done|]. intros [|j] ?; [done|]. apply Hj. lia.
Qed.

(** The rule that is carried out is one of the chain. *)
Lemma first_rule_elem rules act : first_rule rules = Some act -> Some act ∈ rules.
Proof.
  induction rules as [|[a|] rules IH]; [done| |].
  - intros [= ->]. by left.
  - intros H. right. by apply IH.
Qed.

(** * Conditions joined with others *)
Section Joined.
Context (Γ : gmap string Ty) (ρ : env) (Hρ : env_ok Ideal Γ ρ).
Context (t : Ty) (Ht : std_int t) (Hb : is_bool t = true).

(** A condition of one lane or of all, joined with a condition of all. *)
Lemma joined_condition op mk rc r : (op = And /\ mk = operator_and \/ op = Or /\ mk = operator_or) ->
  chooses Γ t rc -> builds Γ t r ->
  builds Γ t (on2 mk rc r) /\
  forall p q, picked ρ t rc p -> truths ρ t r q -> truths ρ t (on2 mk rc r) (fun i => lop op (p i) (q i)).
Proof.
  intros Hmk Hc Hr. assert (Hop : is_logical op = true) by (by destruct Hmk as [[-> _]|[-> _]]).
  assert (H : forall e, on2 mk rc r = Ok e -> exists c x, rc = Ok c /\ r = Ok x /\
    e = Bin op (widened c (lanes (type c)) (lanes t)) x).
  { intros e He. apply on2_Ok in He as (c & x & Hrc & Hrx & He). exists c, x. split; [done|]. split; [done|].
    destruct (chooser_type Γ t Ht c (Hc _ Hrc)) as (l & Hl & Hrl & Hs & Hh & ->).
    pose proof (Hr _ Hrx) as Hx. rewrite (bool_type_self t Ht Hb) in Hx. pose proof (lanes_small t Ht).
    assert (Hst : std_int (Bool (lanes t))) by (by rewrite <- (bool_type_self t Ht Hb)).
    pose proof (match_conditions Γ c x l (lanes t) Hrl ltac:(lia) ltac:(tauto) Hs Hst Hh Hx) as Hm.
    rewrite Z.max_r in Hm by lia. replace (widened x (lanes t) (lanes t)) with x in Hm by (unfold widened; by rewrite Z.eqb_refl).
    destruct Hmk as [[-> ->]|[-> ->]]; unfold operator_and, operator_or in He; cbn [deref eref mbind res_bind] in He;
      unfold eref in *; rewrite Hm in He; cbn [mbind res_bind] in He; by apply logical_make_node in He. }
  split.
  - intros e He. destruct (H e He) as (c & x & Hrc & Hrx & ->).
    destruct (chooser_value Γ ρ Hρ t Ht c Hb (Hc _ Hrc)) as (l & -> & _ & Hh & _).
    apply (logic_built Γ t Ht Hb); [done|done|by apply Hr].
  - intros p q Hp Hq e He. destruct (H e He) as (c & x & Hrc & Hrx & ->).
    destruct (chooser_value Γ ρ Hρ t Ht c Hb (Hc _ Hrc)) as (l & -> & _ & _ & Hv).
    apply (truth_logic ρ); [done| |by apply Hq]. exact (Hv p (Hp _ Hrc)).
Qed.
End Joined.

(** * A selection between integers decides by conditions of its lanes *)
Lemma retype_chooser Γ ρ t u c : lanes t = lanes u ->
  (chooser Γ u c -> chooser Γ t c) /\ forall p, picks ρ u c p -> picks ρ t c p.
Proof. intros Hl. unfold chooser, picks, nlanes. by rewrite Hl. Qed.

(** A plain constant is zero, or no lane of it is. *)
Lemma simple_nonzero_lanes Γ ρ t x f : is_zero x = false -> is_simple_const x = true -> good Γ x -> den ρ t x f ->
  forall i, (i < nlanes t)%nat -> f i <> 0.
Proof.
  intros Hz Hs [_ _ Hu] Hf i Hi. pose proof Hf as He. unfold den in He.
  assert (forall e v, is_zero e = false -> is_simple_const e = true -> usual_types e = true ->
    eval Ideal ρ e = Some v -> exists n z, v = replicate n (VInt z) /\ z <> 0) as H.
  { clear. intros e. induction e using Expr_ind'; intros w Hz Hs Hu He; simpl in *; try done.
    1,2: apply Z.eqb_neq in Hz; injection He as <-; by eexists 1%nat, _.
    apply bind_Some in He as (vs & Hvs & He). destruct (IHe _ Hz Hs Hu Hvs) as (n & z & Hn & Hz').
    exists (Z.to_nat l), z. split; [by eapply broadcast_replicate|done]. }
  destruct (H _ _ Hz Hs Hu He) as (n & z & Hn & Hz'). rewrite Hn in He. by rewrite (den_replicate ρ t x f z n Hf He i Hi).
Qed.

(** A sum or a difference that is zero. *)
Lemma norm_zero_add u x y : std_int u -> in_type u x -> (norm u (x + y) =? 0) = (x =? norm u (0 - y)).
Proof.
  intros Hu Hx. destruct (Z.eqb_spec x (norm u (0 - y))) as [->|Hne].
  - apply Z.eqb_eq. rewrite <- (norm_zero u) at 2. norm_ring.
  - apply Z.eqb_neq. intros H. apply Hne. rewrite <- (norm_id u x Hx).
    transitivity (norm u (norm u (x + y) - y)); [norm_ring|by rewrite H].
Qed.
Lemma norm_zero_sub u x y : std_int u -> in_type u x -> in_type u y -> (norm u (x - y) =? 0) = (x =? y).
Proof.
  intros Hu Hx Hy. replace (x - y) with (x + (0 - y)) by lia. rewrite norm_zero_add by done. f_equal.
  rewrite <- (norm_id u y Hy) at 2. norm_ring.
Qed.

(** * The rules *)
Section Sound.
Context (Γ : gmap string Ty) (ρ : env) (Hρ : env_ok Ideal Γ ρ).
Context (u : Ty) (Hu : std_int u) (t : Ty) (Ht : std_int t) (Hb : is_bool t = true) (Hl : lanes u = lanes t).
Context (delta zero : Expr) (Hd : hasty Γ u delta) (Hz : make_zero (type delta) = Ok zero).

Lemma zero_hasty : hasty Γ u zero.
Proof using All. by apply (builds_zero Γ ρ u Hu (type delta) (hasty_type _ _ _ Hd)). Qed.
Lemma zero_den : den ρ u zero (fun _ => 0).
Proof using All. by apply (computes_zero Γ ρ u Hu (type delta) (hasty_type _ _ _ Hd)). Qed.
Lemma zero_test_hasty : hasty Γ t (Bin EQ delta zero).
Proof using All. apply (cmp_built Γ t Ht Hb u Hu Hl); [done|done|apply zero_hasty]. Qed.

(** A rule is right when what it builds is true where the difference is zero. *)
Lemma zero_test_inv p : truth ρ t (Bin EQ delta zero) p -> exists f, den ρ u delta f /\
  forall i, (i < nlanes t)%nat -> in_type u (f i) /\ p i = (f i =? 0).
Proof using All.
  intros Hp. apply (truth_cmp_inv Γ ρ Hρ t Ht Hb u Hu Hl) in Hp as (f & g & Hf & Hg & E); [|done|done|apply zero_hasty].
  exists f. split; [done|]. intros i Hi. destruct (E i Hi) as (? & _ & ->). split; [done|]. cbn [icmp].
  rewrite <- (compare_lanes t u Hl) in Hi. by rewrite (den_same ρ u zero g _ Hg zero_den i Hi).
Qed.

Lemma eq_rule r : builds Γ t r ->
  (forall f, den ρ u delta f -> (forall i, (i < nlanes t)%nat -> in_type u (f i)) ->
     exists q, truths ρ t r q /\ forall i, (i < nlanes t)%nat -> (f i =? 0) = q i) ->
  forall e', r = Ok e' -> rewrites Γ ρ (Bin EQ delta zero) e'.
Proof using All.
  intros Hr Hv. apply (truth_rewrites Γ ρ Hρ t Ht Hb _ r zero_test_hasty Hr). intros p Hp.
  destruct (zero_test_inv p Hp) as (f & Hf & E). destruct (Hv f Hf) as (q & Hq & Eq); [intros i Hi; by apply E|].
  exists q. split; [done|]. intros i Hi. rewrite <- Eq by done. by apply E.
Qed.

Lemma constant_rule (b : bool) w : w = lanes t -> (forall f, den ρ u delta f -> forall i, (i < nlanes t)%nat -> (f i =? 0) = b) ->
  action_ok Γ ρ (Bin EQ delta zero) (Result ((if b then const_true else const_false) w)).
Proof using All.
  intros Hw Hv. cbn [action_ok]. pose proof (const_type t Ht Hb w Hw) as Hc. apply eq_rule.
  - destruct b; [by apply (builds_true Γ empty_env t Ht)|by apply (builds_false Γ empty_env t Ht)].
  - intros f Hf _. exists (fun _ => b). split; [|by apply Hv].
    destruct b; [by apply (truths_one Γ ρ t Ht Hb)|by apply (truths_zero Γ ρ t Ht)].
Qed.

(** ** What the rules compare *)
Lemma builds_eq a b : builds Γ u a -> builds Γ u b -> builds Γ t (on2 operator_eq a b).
Proof using All. apply (builds_cmp Γ t Ht Hb u Hu Hl EQ); [done|by apply joins_eq]. Qed.
Lemma truths_eq a b f g : builds Γ u a -> builds Γ u b -> computes ρ u a f -> computes ρ u b g ->
  truths ρ t (on2 operator_eq a b) (fun i => f i =? g i).
Proof using All. apply (truths_cmp Γ ρ t Ht Hb u Hu Hl EQ); [done|by apply joins_eq]. Qed.
Lemma builds_is_zero a : hasty Γ u a -> builds Γ t (on2 operator_eq a zero).
Proof using All. intros Ha. apply builds_eq; apply builds_expr; [done|apply zero_hasty]. Qed.
Lemma truths_is_zero a f : hasty Γ u a -> den ρ u a f -> truths ρ t (on2 operator_eq a zero) (fun i => f i =? 0).
Proof using All.
  intros Ha Hf. apply (truths_eq a zero f (fun _ => 0)); [by apply builds_expr|apply builds_expr, zero_hasty|by apply computes_expr|].
  apply computes_expr, zero_den.
Qed.

(** ** The rules of the chain *)
Context (same_as : ExprRef -> ExprRef -> bool) (op_a op_b : Expr).

Lemma eq_broadcast_right : rule_ok Γ ρ (Bin EQ delta zero)
  (on_broadcast delta (fun value lanes => Some (MutateLanes (on2 operator_eq value (make_zero (type value))) lanes))).
Proof using All.
  intros act Hact. apply on_broadcast_Some in Hact as (v & l & E & [= <-]). cbn [action_ok]. pose proof Hd as Hv. rewrite E in Hv.
  destruct (hasty_broadcast Γ u Hu v l Hv) as (Hve & -> & Hne). pose proof (std_element u Hu) as Hue.
  pose proof (std_element t Ht) as Hte. pose proof (element_bool t Ht Hb) as Hbe.
  assert (Hle : lanes (element_of u) = lanes (element_of t)).
  { destruct (element_of_fields u (std_int_bits u Hu)) as (_ & _ & ->). by destruct (element_of_fields t (std_int_bits t Ht)) as (_ & _ & ->). }
  pose proof (hasty_type _ _ _ Hve) as Htv. rewrite Hl.
  assert (Hbz : builds Γ (element_of u) (make_zero (type v))) by (by apply (builds_zero Γ ρ _ Hue)).
  apply (truth_lanes_rewrites Γ ρ Hρ t Ht Hb); [apply zero_test_hasty|by rewrite <- Hl| |].
  - apply (builds_cmp Γ _ Hte Hbe _ Hue Hle EQ); [done|by apply joins_eq|by apply builds_expr|done].
  - intros p Hp. destruct (zero_test_inv p Hp) as (f & Hf & Ep). rewrite E in Hf.
    destruct (den_broadcast_inv Γ ρ Hρ u Hu v _ f Hv Hf) as (g & Hg & _ & Ef).
    exists (fun i => g i =? 0). split.
    + apply (truths_cmp Γ ρ _ Hte Hbe _ Hue Hle EQ operator_eq v (make_zero (type v)) g (fun _ => 0)); [done|by apply joins_eq|by apply builds_expr|done|by apply computes_expr|].
      by apply (computes_zero Γ ρ _ Hue).
    + intros i Hi. destruct (Ep i Hi) as [_ ->]. rewrite Ef; [done|]. by rewrite (compare_lanes t u Hl).
Qed.

Lemma eq_add_right : rule_ok Γ ρ (Bin EQ delta zero)
  (on_bin Add delta (fun x k => when (is_const k) (MutateInto (make_zero (type delta) -' k) (fun r => operator_eq (eref x) r)))).
Proof using All.
  intros act Hact. apply on_bin_Some in Hact as (x & k & E & Hact). apply when_Some in Hact as [_ <-].
  pose proof Hd as Hxk. rewrite E in Hxk. apply (hasty_bin Γ u Hu) in Hxk as [Hx Hk]; [|done].
  pose proof (hasty_type _ _ _ Hd) as Htd. cbn [action_ok].
  assert (Hbn : builds Γ u (make_zero (type delta) -' k)) by (build Hu).
  intros n Hn. pose proof (Hbn n Hn) as Hhn. split; [apply Hhn|]. intros y e' Hy Hty He'.
  assert (Hhy : hasty Γ u y) by (split; [done|]; eapply type_eqb_trans; [done|apply Hhn]).
  pose proof (joins_eq Γ u Hu x y e' Hx Hhy He') as ->. pose proof (cmp_built Γ t Ht Hb u Hu Hl EQ x y eq_refl Hx Hhy) as Hxy.
  split; [apply Hxy|]. split; [eapply (type_eqb_trans_std t Ht); [apply Hxy|apply zero_test_hasty]|].
  intros Hv v Hev. destruct (den_intro Γ ρ Hρ t Ht _ v zero_test_hasty Hev) as (F & HF & -> & _).
  destruct (truth_intro Γ ρ Hρ t Ht Hb _ F zero_test_hasty HF) as (p & Hp & EF).
  destruct (zero_test_inv p Hp) as (f & Hf & Ep). rewrite E in Hf.
  destruct (den_bin_lanes Γ ρ Hρ u Hu Add x k f eq_refl Hx Hk Hf) as (g & h & Hg & Hh & Ef).
  eassert (Hcn : computes ρ u (make_zero (type delta) -' k) _) by (compute_lanes Hu).
  specialize (Hcn n Hn). apply Hv in Hcn.
  pose proof (truth_cmp ρ t Ht Hb u Hu Hl EQ x y _ _ eq_refl Hg Hcn) as Hr. unfold truth, den in Hr. rewrite Hr. f_equal.
  apply tab_eq. intros i Hi. rewrite EF by done. destruct (Ep i Hi) as [_ ->]. cbn [icmp].
  rewrite <- (compare_lanes t u Hl) in Hi. destruct (Ef i Hi) as (Hin & _ & _ & ->). cbn [iop]. by rewrite norm_zero_add.
Qed.

(** The operands of a difference are compared, in the order of the node. *)
Lemma eq_sub_right x y : delta = Bin Sub x y ->
  (forall e', on2 operator_eq y x = Ok e' -> rewrites Γ ρ (Bin EQ delta zero) e') /\
  (forall e', on2 operator_eq x y = Ok e' -> rewrites Γ ρ (Bin EQ delta zero) e').
Proof using All.
  intros E. pose proof Hd as Hxy. rewrite E in Hxy. apply (hasty_bin Γ u Hu) in Hxy as [Hx Hy]; [|done].
  split; (apply eq_rule; [apply builds_eq; by apply builds_expr|]); intros f Hf _; rewrite E in Hf;
    destruct (den_bin_lanes Γ ρ Hρ u Hu Sub x y f eq_refl Hx Hy Hf) as (g & h & Hg & Hh & Ef);
    (eexists; split; [apply truths_eq; first [by apply builds_expr|by apply computes_expr]|]);
    intros i Hi; rewrite <- (compare_lanes t u Hl) in Hi; destruct (Ef i Hi) as (Hgi & Hhi & _ & ->); cbn [iop];
    rewrite norm_zero_sub by done; [by rewrite Z.eqb_sym|done].
Qed.

Lemma eq_mul_right : rule_ok Γ ρ (Bin EQ delta zero) (on_bin Mul delta (fun x y =>
  when (no_overflow (type delta)) (Mutate (on2 operator_or (on2 operator_eq x zero) (on2 operator_eq y zero))))).
Proof using All.
  intros act Hact. apply on_bin_Some in Hact as (x & y & E & Hact). apply when_Some in Hact as [Hno <-].
  pose proof Hd as Hxy. rewrite E in Hxy. apply (hasty_bin Γ u Hu) in Hxy as [Hx Hy]; [|done].
  pose proof (no_overflow_unbounded u Hu _ (hasty_type _ _ _ Hd) Hno) as Hun. cbn [action_ok].
  apply eq_rule; [apply (builds_logic Γ t Ht Hb Or); [done|by apply logic_joins_or|by apply builds_is_zero..]|].
  intros f Hf _. rewrite E in Hf.
  destruct (den_bin_lanes Γ ρ Hρ u Hu Mul x y f eq_refl Hx Hy Hf) as (g & h & Hg & Hh & Ef).
  eexists. split; [apply (truths_logic Γ ρ t Or); [done|by apply logic_joins_or|by apply builds_is_zero..|by apply truths_is_zero|by apply truths_is_zero]|].
  intros i Hi. rewrite <- (compare_lanes t u Hl) in Hi. destruct (Ef i Hi) as (_ & _ & _ & ->). cbn [iop lop].
  rewrite norm_unbounded by done. lia.
Qed.

(** A selection is zero where the side it takes is. *)
Lemma choice_rewrites c x y op mk (neg side : bool) : delta = Select c x y ->
  (op = And /\ mk = operator_and \/ op = Or /\ mk = operator_or) ->
  (forall f g, den ρ u x f -> den ρ u y g -> forall i, (i < nlanes u)%nat -> forall b : bool,
     ((if b then f i else g i) =? 0) = lop op (xorb neg b) ((if side then f i else g i) =? 0)) ->
  forall e', on2 mk (if neg then not' c else built_expr c) (on2 operator_eq (built_expr (if side then x else y)) zero) = Ok e' ->
  rewrites Γ ρ (Bin EQ delta zero) e'.
Proof using All.
  intros E Hmk Hv. pose proof Hd as Hs. rewrite E in Hs.
  destruct (hasty_select Γ u Hu c x y Hs) as (Hgc & Hx & Hy & Hbc & Hlc).
  destruct (retype_chooser Γ ρ t u c (eq_sym Hl)) as [Hcc Hpc]. specialize (Hcc (conj Hgc (conj Hbc Hlc))).
  assert (Hz' : hasty Γ u (if side then x else y)) by (by destruct side).
  assert (Hch : chooses Γ t (if neg then not' c else built_expr c)).
  { destruct neg; [|by apply chooses_expr]. by apply (chooses_not Γ ρ Hρ t Ht), chooses_expr. }
  destruct (joined_condition Γ ρ Hρ t Ht Hb op mk _ _ Hmk Hch (builds_is_zero _ Hz')) as [Hbd Htr].
  apply eq_rule; [exact Hbd|]. intros f Hf _. rewrite E in Hf.
  destruct (den_select_lanes Γ ρ Hρ u Hu c x y f Hx Hy Hf) as (p & g & h & Hp & Hg & Hh & Ef). apply Hpc in Hp.
  assert (Hpk : picked ρ t (if neg then not' c else built_expr c) (fun i => xorb neg (p i))).
  { destruct neg; [by apply (chooses_not Γ ρ Hρ t Ht _ (chooses_expr Γ t c Hcc)), picked_expr|].
    intros e [= <-]. eapply picks_ext; [exact Hp|]. intros i _. by destruct (p i). }
  eexists. split; [apply Htr; [exact Hpk|]|].
  - apply (truths_is_zero _ (fun i => if side then g i else h i)); [done|by destruct side].
  - intros i Hi. rewrite <- (compare_lanes t u Hl) in Hi. destruct (Ef i Hi) as (_ & _ & ->). by apply Hv.
Qed.

Lemma eq_select_right : (forall c x y, delta = Select c x y ->
    (is_const x = true -> is_simple_const x = true) /\ (is_const y = true -> is_simple_const y = true)) ->
  rule_ok Γ ρ (Bin EQ delta zero) (eq_select_rule delta zero).
Proof using All.
  intros Hsafe act Hact. apply on_select_Some in Hact as (c & x & y & E & Hact). destruct (Hsafe c x y E) as [Hsx Hsy].
  pose proof Hd as Hs. rewrite E in Hs. destruct (hasty_select Γ u Hu c x y Hs) as (_ & Hx & Hy & _).
  destruct (is_zero x) eqn:Zx; [|destruct (is_const x) eqn:Cx; [|destruct (is_zero y) eqn:Zy]].
  - injection Hact as <-. cbn [action_ok]. refine (choice_rewrites c x y Or operator_or false false E _ _); [by right|]. intros f g Hf Hg i Hi b.
    rewrite (zero_lanes Γ ρ u x f Zx (hasty_good _ _ _ Hx) Hf i Hi). by destruct b.
  - injection Hact as <-. cbn [action_ok]. refine (choice_rewrites c x y And operator_and true false E _ _); [by left|]. intros f g Hf Hg i Hi b.
    pose proof (simple_nonzero_lanes Γ ρ u x f Zx (Hsx eq_refl) (hasty_good _ _ _ Hx) Hf i Hi). destruct b; cbn [lop xorb andb negb]; lia.
  - injection Hact as <-. cbn [action_ok]. refine (choice_rewrites c x y Or operator_or true true E _ _); [by right|]. intros f g Hf Hg i Hi b.
    rewrite (zero_lanes Γ ρ u y g Zy (hasty_good _ _ _ Hy) Hg i Hi). by destruct b.
  - apply when_Some in Hact as [Cy <-]. cbn [action_ok]. refine (choice_rewrites c x y And operator_and false true E _ _); [by left|]. intros f g Hf Hg i Hi b.
    pose proof (simple_nonzero_lanes Γ ρ u y g Zy (Hsy Cy) (hasty_good _ _ _ Hy) Hg i Hi). destruct b; cbn [lop xorb andb negb]; lia.
Qed.

(** ** The whole chain *)

Lemma eq_rules_right op act : (forall c x y, delta = Select c x y ->
    (is_const x = true -> is_simple_const x = true) /\ (is_const y = true -> is_simple_const y = true)) ->
  first_rule (eq_rules same_as op op_a op_b delta zero) = Some act ->
  act = Result (built_expr op) \/ action_ok Γ ρ (Bin EQ delta zero) act.
Proof using All.
  intros Hsafe Hact. apply first_rule_elem in Hact. unfold eq_rules in Hact. rewrite !elem_of_cons in Hact.
  destruct Hact as [H|[H|[H|[H|[H|H]]]]].
  - right. by apply eq_broadcast_right.
  - right. by apply eq_add_right.
  - symmetry in H. apply on_bin_Some in H as (x & y & E & H). destruct (eq_sub_right x y E) as [H1 H2]. destruct (is_const x).
    + injection H as <-. by right.
    + destruct (same_as (eref x) (eref op_a) && same_as (eref y) (eref op_b)); injection H as <-; [by left|by right].
  - right. by apply eq_mul_right.
  - right. by apply eq_select_right.
  - by apply not_elem_of_nil in H.
Qed.

Lemma eq_default_right : action_ok Γ ρ (Bin EQ delta zero) (Result (on2 operator_eq delta (make_zero (type delta)))).
Proof using All.
  cbn [action_ok]. rewrite Hz. apply eq_rule; [by apply builds_is_zero|]. intros f Hf _.
  eexists. split; [by apply truths_is_zero|]. done.
Qed.

(** ** The early answers *)
Lemma eq_early_right extract_lane facts s act : LaneExtractor extract_lane -> Known facts -> facts Γ ρ s -> eq_safe s delta ->
  eq_early extract_lane (lanes t) delta s = Ok (Some act) -> action_ok Γ ρ (Bin EQ delta zero) act.
Proof using All.
  intros HX HK Hs [Hmod Hbnd _] H. unfold eq_early in H. destruct (is_zero delta) eqn:Zd.
  - injection H as <-. apply (constant_rule true); [done|]. intros f Hf i Hi. rewrite <- (compare_lanes t u Hl) in Hi.
    by rewrite (zero_lanes Γ ρ u delta f Zd (hasty_good _ _ _ Hd) Hf i Hi).
  - destruct (is_const delta) eqn:Cd.
    + apply bind_Ok in H as ([t' f'] & Hs' & H). apply zero_lanes_of_Ok in Hs' as (z & Hz' & Htrue & Hfalse).
      destruct (hasty_fields Γ u Hu delta Hd) as (_ & _ & Hld). rewrite Hld in *.
      assert (Hlane : forall f, den ρ u delta f -> forall i, (i < nlanes t)%nat -> (f i =? 0) = z i).
      { intros f Hf i Hi. rewrite <- (compare_lanes t u Hl) in Hi. destruct (Hz' i Hi) as (d & Hd' & <-).
        symmetry. by apply (extract_zero (extract_lane := extract_lane) Γ ρ u delta f i d). }
      destruct t'.
      * injection H as <-. apply (constant_rule true); [done|]. intros f Hf i Hi. rewrite (Hlane f Hf i Hi).
        apply Htrue; [done|]. by rewrite <- (compare_lanes t u Hl) in Hi.
      * injection H as H. apply when_Some in H as [-> <-]. apply (constant_rule false); [done|]. intros f Hf i Hi. rewrite (Hlane f Hf i Hi).
        apply Hfalse; [done|]. by rewrite <- (compare_lanes t u Hl) in Hi.
    + destruct (no_overflow_scalar_int (type delta)) eqn:Hno; [|done]. destruct (Hmod eq_refl) as (Hdf & Hred).
      destruct (scalar_no_overflow _ u Hu (hasty_type _ _ _ Hd) Hno) as [Hun Hsc].
      assert (H1 : 1 = lanes t) by (rewrite <- Hl; unfold is_vector in Hsc; bool_to_prop; lia).
      apply bind_Ok in H as (mr & Hmr & H). destruct (Z.eqb_spec (remainder mr) 0) as [|Hr]; cbn [negb] in H.
      * apply bind_Ok in H as ([[lo hi]|] & Hb' & H); [|done]. injection H as H. apply when_Some in H as [Ht0 <-].
        apply (constant_rule false); [done|]. intros f Hf i Hi. rewrite <- (compare_lanes t u Hl) in Hi.
        destruct (bounds_lanes facts Γ ρ Hρ s Hs u delta lo hi f Hd Hbnd Hb' Hf) as (_ & _ & Hf'). specialize (Hf' i Hi). lia.
      * injection H as <-. apply (constant_rule false); [done|]. intros f Hf i Hi. rewrite <- (compare_lanes t u Hl) in Hi.
        destruct (modulus_lanes facts Γ ρ Hρ s Hs u delta mr f Hd Hun Hdf Hmr Hf) as [_ Hc].
        apply Z.eqb_neq. intros H0. apply Hr, (Hred mr Hmr). pose proof (Hc i Hi) as Hci. unfold congr in Hci. rewrite H0 in Hci.
        apply Z.divide_opp_r. by replace (- remainder mr) with (0 - remainder mr) by lia.
Qed.
End Sound.

(** An equation is the test that the difference is zero. *)
Lemma difference_zero Γ ρ u t a b delta zero : env_ok Ideal Γ ρ -> std_int u -> std_int t -> is_bool t = true -> lanes u = lanes t ->
  hasty Γ u a -> hasty Γ u b -> hasty Γ u delta -> make_zero (type delta) = Ok zero ->
  (forall v, eval Ideal ρ (Bin Sub a b) = Some v -> eval Ideal ρ delta = Some v) ->
  forall v, eval Ideal ρ (Bin EQ a b) = Some v -> eval Ideal ρ (Bin EQ delta zero) = Some v.
Proof.
  intros Hρ Hu Ht Hb Hl Ha Hbu Hd Hz Hv v Hev. pose proof (cmp_built Γ t Ht Hb u Hu Hl EQ a b eq_refl Ha Hbu) as Hab.
  destruct (den_intro Γ ρ Hρ t Ht _ v Hab Hev) as (F & HF & -> & _).
  destruct (truth_intro Γ ρ Hρ t Ht Hb _ F Hab HF) as (p & Hp & EF).
  destruct (truth_cmp_inv Γ ρ Hρ t Ht Hb u Hu Hl EQ a b p eq_refl Ha Hbu Hp) as (f & g & Hf & Hg & E).
  assert (Hd' : den ρ u (Bin Sub a b) (fun i => iop u Sub (f i) (g i))) by (by apply (den_bin Γ ρ u Hu)).
  apply Hv in Hd'. pose proof (zero_den Γ ρ Hρ u Hu t Ht Hb Hl delta zero Hd Hz) as Hz0.
  pose proof (truth_cmp ρ t Ht Hb u Hu Hl EQ delta zero _ _ eq_refl Hd' Hz0) as Hr. unfold truth, den in Hr. rewrite Hr. f_equal.
  apply tab_eq. intros i Hi. rewrite EF by done. destruct (E i Hi) as (Hfi & Hgi & ->). cbn [icmp iop].
  by rewrite norm_zero_sub.
Qed.

(** C16. The simplifier's visit of [EQ] keeps the type and the truth of an equation of
    integers, when the mutated difference is known not to be zero or is constant and
    through every rule of its chain, given that the scopes are right about the variables,
    when no signed overflow was flagged and the mutated difference is [eq_safe]: it is
    [mods_exact]; where its remainder is computed it is [defect_free] and that remainder is
    not a multiple of the modulus other than 0; and where it is a selection its constant
    branches are integers or broadcasts of them. Where a branch is a constant with some
    lanes zero the visit is wrong ([visit_EQ_defects]). *)
Theorem visit_EQ_sound facts equal extract_lane same_as mutate Γ ρ s op_a op_b :
  Facts facts equal -> Known facts -> LaneExtractor extract_lane -> Simplifies facts mutate ->
  facts Γ ρ s -> good Γ (Bin EQ op_a op_b) -> std_int (type op_a) ->
  (forall d delta s1, operator_sub (eref op_a) (eref op_b) = Ok d -> mutate d s = Ok (Some delta, s1) -> eq_safe s1 delta) ->
  simplifies facts (visit_EQ same_as extract_lane mutate (Bin EQ op_a op_b) op_a op_b) Γ ρ s (Bin EQ op_a op_b).
Proof.
  intros HF HK HX HM Hs Hg Hu Hsafe r s' H. set (u := type op_a) in *. pose proof (facts_env _ _ Γ ρ s Hs) as Hρ.
  destruct (std_Bool (lanes u) (lanes_small u Hu)) as (Ht & Hb & Hlb). set (t := Bool (lanes u)) in *.
  destruct (cmp_hasty Γ u Hu EQ op_a op_b Hg (type_eqb_refl _)) as [Ha Hbu].
  pose proof (cmp_built Γ t Ht Hb u Hu (eq_sym Hlb) EQ op_a op_b eq_refl Ha Hbu) as Hab.
  unfold visit_EQ in H. apply mut_bind_Ok in H as (d & s0 & Hd & H). apply lift_Ok in Hd as [Hd ->].
  apply mut_bind_Ok in H as (delta & s1 & Hx & H). apply mutate_defined_Ok in Hx. specialize (Hsafe _ _ _ Hd Hx).
  apply (joins_sub Γ u Hu) in Hd as ->; [|done|done].
  assert (Hhd : hasty Γ u (Bin Sub op_a op_b)) by (by apply (hasty_bin Γ u Hu)).
  destruct (simplifies_expr facts Γ ρ s _ Hs (hasty_good _ _ _ Hhd) _ _ Hx) as (x & [= <-] & [Hgx Htx Hs1 Hc1 Hv1]).
  assert (Hdu : hasty Γ u delta) by (split; [done|]; eapply type_eqb_trans; [done|apply Hhd]).
  apply mut_bind_Ok in H as (zero & s2 & Hz & H). apply lift_Ok in Hz as [Hz ->].
  apply mut_bind_Ok in H as (s2 & s3 & H1 & H). injection H1 as <- <-.
  apply mut_bind_Ok in H as (early & s2 & He & H). apply lift_Ok in He as [He ->].
  pose proof (facts_env _ _ Γ ρ s1 Hs1) as Hρ1.
  pose proof (zero_test_hasty Γ ρ Hρ1 u Hu t Ht Hb (eq_sym Hlb) delta zero Hdu Hz) as Hzt.
  assert (Hsd : simplified facts Γ ρ s (Bin EQ op_a op_b) (Bin EQ delta zero) s1).
  { split; try done; [apply Hzt|eapply (type_eqb_trans_std t Ht); [apply Hzt|apply Hab]|].
    intros Hc. apply (difference_zero Γ ρ u t op_a op_b delta zero); auto. }
  assert (Hact : forall act, action_ok Γ ρ (Bin EQ delta zero) act -> run_action mutate act s1 = Ok (r, s') ->
    exists e', r = Some e' /\ simplified facts Γ ρ s (Bin EQ op_a op_b) e' s').
  { intros act Hact Hrun. by eapply (then_action facts equal mutate Γ ρ s s1). }
  destruct early as [act|].
  - apply (Hact act); [|done]. eapply (eq_early_right Γ ρ Hρ1 u Hu t Ht Hb (eq_sym Hlb) delta zero Hdu Hz same_as op_a op_b extract_lane facts s1); done.
  - destruct (first_rule (eq_rules same_as (Bin EQ op_a op_b) op_a op_b delta zero)) as [act|] eqn:Er.
    + destruct (eq_rules_right Γ ρ Hρ1 u Hu t Ht Hb (eq_sym Hlb) delta zero Hdu Hz same_as op_a op_b _ act (safe_choices _ _ Hsafe) Er) as [->|Hok];
        [|by apply (Hact act)].
      cbn [run_action] in H. apply mut_bind_Ok in H as (e & s2 & He2 & H). apply lift_Ok in He2 as [[= <-] ->]. apply mut_ret_Ok in H as [= -> ->].
      exists (Bin EQ op_a op_b). split; [done|]. split; try done. apply type_eqb_refl.
    + apply (Hact (Result (on2 operator_eq delta (make_zero (type delta))))); [|done].
      by apply (eq_default_right Γ ρ Hρ1 u Hu t Ht Hb (eq_sym Hlb) delta zero Hdu Hz same_as op_a op_b).
Qed.

(** * A lane extractor to try the visit on: it evaluates the constant *)
Definition constant_lane (e : Expr) (lane : Z) : res Expr :=
  match eval Ideal empty_env e ≫= (.!! Z.to_nat lane) with
  | Some (VInt z) => Ok (IntImm (Int 64 1) z)
  | _ => Err (InternalError "not a lane of an integer constant")
  end.

Lemma const_eval p ρ ρ' e : is_const e = true -> eval p ρ e = eval p ρ' e.
Proof.
  induction e using Expr_ind'; try done; cbn [is_const eval]; intros H.
  - by rewrite IHe.
  - apply andb_true_iff in H as [H1 H2]. by rewrite IHe1, IHe2.
  - by rewrite IHe.
Qed.

#[global] Instance constant_lane_LaneExtractor : LaneExtractor constant_lane.
Proof.
  intros Γ ρ u e f i d _ _ Hc _ Hf Hi H. unfold constant_lane in H. unfold den in Hf.
  rewrite (const_eval Ideal empty_env ρ e Hc), Hf, Nat2Z.id in H. cbn [mbind option_bind] in H.
  rewrite tab_lookup in H by done. by injection H as <-.
Qed.

(** [3 == x] becomes [x == 3]. *)
Lemma visit_EQ_sound_witness :
  let e := Bin EQ (imm32 3) x32 in
  visit_EQ same_expr_ref constant_lane no_mutate e (imm32 3) x32 new_simplify = Ok (eref (Bin EQ x32 (imm32 3)), new_simplify) /\
  eval Ideal (xy_env 3 0) e = Some [VInt 1] /\
  simplifies idle_facts (visit_EQ same_expr_ref constant_lane no_mutate e (imm32 3) x32)
    xy_types (xy_env 3 0) new_simplify e.
Proof.
  split; [by vm_compute|]. split; [by vm_compute|].
  apply (visit_EQ_sound idle_facts ptr_equal constant_lane same_expr_ref no_mutate).
  - apply idle_facts_Facts.
  - apply idle_facts_Known.
  - apply constant_lane_LaneExtractor.
  - apply no_mutate_idle.
  - split; [apply xy_facts|done].
  - split; [repeat split; by vm_compute|repeat split; by vm_compute|by vm_compute].
  - split; [by vm_compute|]. by vm_compute.
  - intros d delta s1 [= <-] [= <- <-]. split; [|by vm_compute|by intros].
    intros _. split; [by vm_compute|]. intros mr Hmr _. vm_compute in Hmr. by injection Hmr as <-.
Defined.

(** Where the visit does not keep the value: a constant vector that has a zero lane is
    not zero, so [select(y < x, ramp(0, 1, 2), x2(x)) == 0] is taken to ask that [y < x]
    is false. *)
Definition ramp_or_x : Expr := Select (Bin LT y32 x32) (Ramp (imm32 0) (imm32 1) 2) (Broadcast x32 2).
Definition two_zeros : Expr := Broadcast (imm32 0) 2.
(** The simplifier's visit of [Sub] alone. *)
Definition mutate_Sub (e : Expr) : mut Simplify ExprRef :=
  match e with
  | Bin Sub a b => SimplifySub.visit_Sub same_expr_ref ptr_equal no_mutate e a b
  | _ => no_mutate e
  end.

Lemma visit_EQ_defects :
  let e := Bin EQ ramp_or_x two_zeros in
  let r := Bin And (Broadcast (Not (Bin LT y32 x32)) 2) (Bin EQ (Broadcast x32 2) two_zeros) in
  visit_EQ same_expr_ref constant_lane mutate_Sub e ramp_or_x two_zeros new_simplify = Ok (eref r, new_simplify) /\
  eval Ideal (xy_env 5 0) e = Some [VInt 1; VInt 0] /\
  eval Ideal (xy_env 5 0) r = Some [VInt 0; VInt 0].
Proof. split_and!; by vm_compute. Qed.
