(* ===== verification/SimplifyLess.v ===== *)
(** The simplifier's visit of [LT] (src/src/Simplify.cpp): the bounds of the operands,
    their mutated difference, the chain of rules, and the comparisons it mutates to see
    what becomes of them. *)

From Stdlib Require Import ZArith Lia Bool SpecFloat String ZifyBool.
From stdpp Require Import prelude strings gmap.
From S2P Require Import Prelude Types IR Semantics Scope Operators ModulusRemainder Mutator Equality EqualityMeaning Interval ConstBounds Monotonic Lanes Conditions Simplify SimplifyRules SimplifyQuotient SimplifyExtremum SimplifySub SimplifyConditions.

#[local] Open Scope Z_scope.
#[local] Open Scope halide_scope.

(** An operator applied to an expression and a C++ [int]. *)
Definition on_ei (op : ExprRef -> Z -> res Expr) (a : res Expr) (z : Z) : res Expr := a ← a; op (eref a) z.
Definition on_ie (op : Z -> ExprRef -> res Expr) (z : Z) (a : res Expr) : res Expr := a ← a; op z (eref a).

Notation "a <' b" := (on2 operator_lt a b) (at level 70) : halide_scope.

Section Rules.
Context (equal : ExprRef -> ExprRef -> bool).
(** [op->type.lanes()], the mutated operands, and their mutated difference. *)
Context (w : Z) (a b delta : Expr).

Notation "x ≡' y" := (equal (eref x) (eref y)) (at level 70).

(** The answer the bounds of the operands give. *)
Definition lt_bounded (s : Simplify) : res rule :=
  bounds_a ← const_int_bounds (bounds_info s) a;
  match bounds_a with
  | None => Ok None
  | Some (a_min, a_max) =>
      bounds_b ← const_int_bounds (bounds_info s) b;
      Ok match bounds_b with
         | None => None
         | Some (b_min, b_max) =>
             if a_max <? b_min then Some (Result (const_true w)) else when (b_max <=? a_min) (Result (const_false w))
         end
  end.

(** Constants, the limits of the type, and a difference that is constant. *)
Definition lt_const_rules : list rule := [
  on_const (const_int a) (fun ia => on_const (const_int b) (fun ib => Some (Result (make_bool (ia <? ib) w))));
  on_const (const_uint a) (fun ua => on_const (const_uint b) (fun ub => Some (Result (make_bool (ua <? ub) w))));
  on_const (const_int a) (fun ia => when (is_max_int64 (type a) ia) (Result (const_false w)));
  on_const (const_int b) (fun ib => when (is_min_int64 (type b) ib) (Result (const_false w)))
].
Definition lt_delta_rules : list rule := [
  when (is_zero delta || (no_overflow (type delta) && is_positive_const delta)) (Result (const_false w));
  when (no_overflow (type delta) && is_negative_const delta) (Result (const_true w))
].
Definition lt_broadcast_rule : rule :=
  on_broadcast a (fun value_a lanes_a => on_broadcast b (fun value_b _ => Some (Mutate (broadcast' (value_a <' value_b) lanes_a)))).

(** Terms common to both sides; sums and differences go to the right. *)
Definition lt_sum_rules : list rule := [
  on_ramp a (fun base_a stride_a lanes_a => on_ramp b (fun base_b stride_b _ =>
    when (stride_a ≡' stride_b) (Mutate (broadcast' (base_a <' base_b) lanes_a))));
  on_bin Add a (fun a1 a2 => on_bin Add b (fun b1 b2 => when (a1 ≡' b1) (Mutate (a2 <' b2))));
  on_bin Add a (fun a1 a2 => on_bin Add b (fun b1 b2 => when (a1 ≡' b2) (Mutate (a2 <' b1))));
  on_bin Add a (fun a1 a2 => on_bin Add b (fun b1 b2 => when (a2 ≡' b1) (Mutate (a1 <' b2))));
  on_bin Add a (fun a1 a2 => on_bin Add b (fun b1 b2 => when (a2 ≡' b2) (Mutate (a1 <' b1))));
  on_bin Sub a (fun a1 a2 => on_bin Sub b (fun b1 b2 => when (a1 ≡' b1) (Mutate (b2 <' a2))));
  on_bin Sub a (fun a1 a2 => on_bin Sub b (fun b1 b2 => when (a2 ≡' b2) (Mutate (a1 <' b1))));
  on_bin Add a (fun a1 a2 => Some (Mutate (a1 <' (b -' a2))));
  on_bin Sub a (fun a1 a2 => Some (Mutate (a1 <' (b +' a2))));
  on_bin Add b (fun b1 b2 => when (b1 ≡' a) (Mutate (make_zero (type b2) <' b2)));
  on_bin Add b (fun b1 b2 => when (b2 ≡' a) (Mutate (make_zero (type b1) <' b1)));
  on_bin Add b (fun b1 b2 => when (is_simple_const a && is_simple_const b2) (Mutate ((a -' b2) <' b1)));
  on_bin Sub b (fun b1 b2 => when (b1 ≡' a) (Mutate (b2 <' make_zero (type b2))));
  on_bin Sub b (fun b1 b2 => when (is_const a && is_const b1) (Mutate (b2 <' (b1 -' a))))
].

(** Multiples and quotients by positive constants. *)
Definition lt_scale_rules : list rule := [
  on_bin Mul a (fun a1 a2 => on_bin Mul b (fun b1 b2 =>
    when (is_positive_const a2 && is_positive_const b2 && (a2 ≡' b2)) (Mutate (a1 <' b1))));
  on_bin Mul a (fun a1 a2 => when (is_positive_const a2 && is_const b)
    (if is_int (type a) then Mutate (a1 <' on_ei operator_add_ei (minus_int b 1 /' a2) 1)
     else Mutate (a1 <' (b /' a2))));
  on_bin Mul b (fun b1 b2 => when (is_positive_const b2 && is_const a) (Mutate ((a /' b2) <' b1)));
  on_bin Div a (fun a1 a2 => when (is_int (type a) && is_positive_const a2 && is_const b) (Mutate (a1 <' (a2 *' b))));
  on_bin Div b (fun b1 b2 => when (is_int (type a) && is_positive_const b2 && is_const a)
    (Mutate ((a +' make_one (type a)) *' b2 -' make_one (type a) <' b1)))
].

(** [k] for [(x / c) * c] on the left, with the constant. *)
Definition on_floor (k : Expr -> Expr -> Z -> rule) : rule :=
  on_bin Mul a (fun q c => on_bin Div q (fun x d =>
    on_const (const_int d) (fun ia => on_const (const_int c) (fun ib =>
      if (0 <? ia) && (ia =? ib) then k x d ia else None)))).

(** [(x / c) * c] is [x - x % c]. *)
Definition lt_floor_rules : list rule := [
  on_floor (fun x d ia => when (x ≡' b) (Mutate (on_ie operator_lt_ie 0 (b %' make_const (type a) (Int64 ia)))));
  on_floor (fun x d ia => on_bin Add b (fun b1 b2 => when (x ≡' b1) (Mutate (on_ie operator_lt_ie 0 (b1 %' d +' b2)))));
  on_floor (fun x d ia => on_bin Sub b (fun b1 b2 => when (x ≡' b1) (Mutate (b2 <' (b1 %' d)))));
  on_floor (fun x d ia => on_bin Add x (fun y c => on_const (const_int c) (fun ic =>
    when (y ≡' b) (Mutate (c <' (x %' d))))));
  on_floor (fun x d ia => on_bin Add x (fun y c => on_bin Add b (fun b1 b2 => on_const (const_int c) (fun ic =>
    when (y ≡' b1) (Mutate (c <' (x %' d +' b2)))))));
  on_floor (fun x d ia => on_bin Add x (fun y c => on_bin Sub b (fun b1 b2 => on_const (const_int c) (fun ic =>
    when (y ≡' b1) (Mutate (b2 <' (x %' d +' (m ← i64 (- ic); make_const (type a) (Int64 m)))))))))
].

(** The rules before the comparisons with extrema. *)
Definition lt_rules_before : list rule :=
  lt_const_rules ++ lt_delta_rules ++ [lt_broadcast_rule] ++
  (if no_overflow (type delta) then lt_sum_rules ++ lt_scale_rules else []).

(** No lane of a ramp leaves the block of [modulus] its base is in, so the block says
    which side of zero they are on. *)
Definition lt_block_rule (mod_rem : ModulusRemainder) : rule :=
  on_ramp delta (fun base stride lanes =>
    if 0 <? modulus mod_rem then
      on_const (const_int stride) (fun ia =>
        when_ub (l ← i64 (ia * (lanes - 1)); l ← i64 (l + remainder mod_rem); Ok ((0 <=? l) && (l <? modulus mod_rem)))
          (MutateLanes (on2 LT_make (on_ei operator_div_ei base (modulus mod_rem)) (IntImm_make (Int 32 1) 0)) lanes))
    else None).
End Rules.

Section Visit.
Context (same_as equal : ExprRef -> ExprRef -> bool) (mutate : Expr -> mut Simplify ExprRef).

(** A comparison with an extremum is one with both its operands, when either of them is
    found to be constant. *)
Definition lt_either (join : ExprRef -> ExprRef -> res Expr) (first second : res Expr) (op a b op_a op_b : Expr) : mut Simplify ExprRef :=
  first ← lift first;
  lt_a ← mutate_defined mutate first;
  second ← lift second;
  lt_b ← mutate_defined mutate second;
  if is_const lt_a || is_const lt_b then run_action mutate (Mutate (on2 join lt_a lt_b))
  else no_rule same_as LT_make op a b op_a op_b.

Definition lt_extremum (op a b op_a op_b : Expr) : option (mut Simplify ExprRef) :=
  match a, b with
  | Bin Min x y, _ => Some (lt_either operator_or (x <' b) (y <' b) op a b op_a op_b)
  | Bin Max x y, _ => Some (lt_either operator_and (x <' b) (y <' b) op a b op_a op_b)
  | _, Bin Min x y => Some (lt_either operator_and (a <' x) (a <' y) op a b op_a op_b)
  | _, Bin Max x y => Some (lt_either operator_or (a <' x) (a <' y) op a b op_a op_b)
  | _, _ => None
  end.

(** A ramp, whose stride has a sign, on one side of zero: its last or its first lane is
    compared with zero, and the comparison mutated to see whether it holds. *)
Definition lt_ramp_test (signed : Expr -> bool) (query : Expr -> Expr -> Z -> res Expr) (answer : Z -> res Expr) (delta : Expr)
    : mut Simplify rule :=
  match delta with
  | Ramp base stride lanes =>
      if signed stride then
        e ← lift (query base stride lanes);
        r ← mutate_defined mutate e;
        mret (when (is_one r) (Result (answer lanes)))
      else mret None
  | _ => mret None
  end.

Definition last_lane (base stride : Expr) (lanes : Z) : res Expr := base +' on_ei operator_mul_ei stride (lanes - 1).

Definition lt_ramp_tests (delta : Expr) : list (mut Simplify rule) := [
  lt_ramp_test is_positive_const (fun base stride lanes => on_ei operator_lt_ei (last_lane base stride lanes) 0) const_true delta;
  lt_ramp_test is_positive_const (fun base _ _ => on_ei operator_ge_ei base 0) const_false delta;
  lt_ramp_test is_negative_const (fun base _ _ => on_ei operator_lt_ei base 0) const_true delta;
  lt_ramp_test is_negative_const (fun base stride lanes => on_ei operator_ge_ei (last_lane base stride lanes) 0) const_false delta
].

(** The remainder of the base of a ramp. *)
Definition lt_mod_rem (delta : Expr) (s : Simplify) : res ModulusRemainder :=
  match delta with
  | Ramp base _ _ =>
      if no_overflow_scalar_int (type base) then modulus_remainder_in base (alignment_info s) else Ok (mkMR 0 1)
  | _ => Ok (mkMR 0 1)
  end.

(** The rest of the chain, under a type that does not overflow. *)
Definition lt_rest (mod_rem : ModulusRemainder) (op a b delta op_a op_b : Expr) : mut Simplify ExprRef :=
  match lt_extremum op a b op_a op_b with
  | Some run => run
  | None =>
      match first_rule (lt_floor_rules equal a b) with
      | Some act => run_action mutate act
      | None =>
          test ← first_test (lt_ramp_tests delta);
          match test with
          | Some act => run_action mutate act
          | None =>
              match lt_block_rule delta mod_rem with
              | Some act => run_action mutate act
              | None => no_rule same_as LT_make op a b op_a op_b
              end
          end
      end
  end.

Definition visit_LT (op op_a op_b : Expr) : mut Simplify ExprRef :=
  a ← mutate_defined mutate op_a;
  b ← mutate_defined mutate op_b;
  s ← this;
  bounded ← lift (lt_bounded (lanes (type op)) a b s);
  match bounded with
  | Some act => run_action mutate act
  | None =>
      d ← lift (operator_sub (eref a) (eref b));
      delta ← mutate_defined mutate d;
      s ← this;
      mod_rem ← lift (lt_mod_rem delta s);
      match first_rule (lt_rules_before equal (lanes (type op)) a b delta) with
      | Some act => run_action mutate act
      | None =>
          if no_overflow (type delta) then lt_rest mod_rem op a b delta op_a op_b
          else no_rule same_as LT_make op a b op_a op_b
      end
  end.
End Visit.
