(* ===== verification/SimplifyLessRules.v ===== *)
(** The rules of the simplifier's visit of [LT] (src/src/Simplify.cpp) that look only at
    the operands: each builds what is true where the left value is less, given the sign
    its constants are found to have. *)

From Stdlib Require Import ZArith Lia Bool SpecFloat String ZifyBool.
From stdpp Require Import prelude strings gmap.
From S2P Require Import Prelude Types IR Semantics Scope Operators ModulusRemainder Mutator Equality EqualityMeaning Interval ConstBounds Monotonic Lanes Conditions Simplify SimplifyRules SimplifyQuotient SimplifyExtremum SimplifySub SimplifyConditions SimplifyNot SimplifyEqual SimplifyLess.

#[local] Open Scope Z_scope.
#[local] Open Scope halide_scope.

(** * A C++ [int] on one side of an operator *)
Section Ints.
Context (Γ : gmap string Ty) (ρ : env) (u : Ty) (Hu : std_int u).

Lemma operator_ei_Ok mk nm x z e : hasty Γ u x -> operator_ei mk nm (eref x) z = Ok e ->
  exists c, mk (eref x) (eref c) = Ok e /\ hasty Γ u c /\ den ρ u c (fun _ => wrap_type u z).
Proof.
  intros Hx He. unfold operator_ei in He. cbn [user_defined eref mbind res_bind] in He. apply bind_Ok in He as (? & _ & He).
  exact (int_operand Γ ρ u Hu x z _ e (fun c => mk (eref x) c) Hx (hasty_type _ _ _ Hx) He).
Qed.
Lemma operator_ie_Ok mk nm x z e : hasty Γ u x -> operator_ie mk nm z (eref x) = Ok e ->
  exists c, mk (eref c) (eref x) = Ok e /\ hasty Γ u c /\ den ρ u c (fun _ => wrap_type u z).
Proof.
  intros Hx He. unfold operator_ie in He. cbn [user_defined eref mbind res_bind] in He. apply bind_Ok in He as (? & _ & He).
  exact (int_operand Γ ρ u Hu x z _ e (fun c => mk c (eref x)) Hx (hasty_type _ _ _ Hx) He).
Qed.

Lemma builds_ei op mk nm r z : arith op = true -> joins Γ u op mk -> builds Γ u r -> builds Γ u (on_ei (operator_ei mk nm) r z).
Proof.
  intros Hop Hmk Hr e He. apply bind_Ok in He as (x & Hx & He). destruct (operator_ei_Ok mk nm x z e (Hr _ Hx) He) as (c & He' & Hc & _).
  apply Hmk in He' as ->; [|by apply Hr|done]. apply (hasty_bin Γ u Hu); [done|]. split; [by apply Hr|done].
Qed.
Lemma computes_ei op mk nm r z f : arith op = true -> joins Γ u op mk -> builds Γ u r -> computes ρ u r f ->
  defd op (wrap_type u z) -> computes ρ u (on_ei (operator_ei mk nm) r z) (fun i => iop u op (f i) (wrap_type u z)).
Proof.
  intros Hop Hmk Hr Hf Hd e He. apply bind_Ok in He as (x & Hx & He).
  destruct (operator_ei_Ok mk nm x z e (Hr _ Hx) He) as (c & He' & Hc & Hcv).
  apply Hmk in He' as ->; [|by apply Hr|done]. by apply (den_bin Γ ρ u Hu op x c f (fun _ => wrap_type u z)); auto.
Qed.

Context (t : Ty) (Ht : std_int t) (Hb : is_bool t = true) (Hl : lanes u = lanes t).

Lemma builds_cmp_ei op mk nm r z : is_comparison op = true -> joins Γ u op mk -> builds Γ u r ->
  builds Γ t (on_ei (operator_ei mk nm) r z).
Proof.
  intros Hop Hmk Hr e He. apply bind_Ok in He as (x & Hx & He). destruct (operator_ei_Ok mk nm x z e (Hr _ Hx) He) as (c & He' & Hc & _).
  apply Hmk in He' as ->; [|by apply Hr|done]. apply (cmp_built Γ t Ht Hb u Hu Hl); [done|by apply Hr|done].
Qed.
Lemma truths_cmp_ei op mk nm r z f : is_comparison op = true -> joins Γ u op mk -> builds Γ u r -> computes ρ u r f ->
  truths ρ t (on_ei (operator_ei mk nm) r z) (fun i => icmp op (f i) (wrap_type u z)).
Proof.
  intros Hop Hmk Hr Hf e He. apply bind_Ok in He as (x & Hx & He).
  destruct (operator_ei_Ok mk nm x z e (Hr _ Hx) He) as (c & He' & Hc & Hcv).
  apply Hmk in He' as ->; [|by apply Hr|done]. by apply (truth_cmp ρ t Ht Hb u Hu Hl op x c f (fun _ => wrap_type u z)); auto.
Qed.
Lemma builds_cmp_ie op mk nm r z : is_comparison op = true -> joins Γ u op mk -> builds Γ u r ->
  builds Γ t (on_ie (operator_ie mk nm) z r).
Proof.
  intros Hop Hmk Hr e He. apply bind_Ok in He as (x & Hx & He). destruct (operator_ie_Ok mk nm x z e (Hr _ Hx) He) as (c & He' & Hc & _).
  apply Hmk in He' as ->; [|done|by apply Hr]. apply (cmp_built Γ t Ht Hb u Hu Hl); [done|done|by apply Hr].
Qed.
Lemma truths_cmp_ie op mk nm r z f : is_comparison op = true -> joins Γ u op mk -> builds Γ u r -> computes ρ u r f ->
  truths ρ t (on_ie (operator_ie mk nm) z r) (fun i => icmp op (wrap_type u z) (f i)).
Proof.
  intros Hop Hmk Hr Hf e He. apply bind_Ok in He as (x & Hx & He).
  destruct (operator_ie_Ok mk nm x z e (Hr _ Hx) He) as (c & He' & Hc & Hcv).
  apply Hmk in He' as ->; [|done|by apply Hr]. by apply (truth_cmp ρ t Ht Hb u Hu Hl op c x (fun _ => wrap_type u z) f); auto.
Qed.
End Ints.

(** * The sign of a constant *)

(** A constant without casts. *)
Fixpoint plain_const (e : Expr) : bool :=
  match e with
  | IntImm _ _ | UIntImm _ _ => true
  | Ramp base stride _ => plain_const base && plain_const stride
  | Broadcast value _ => plain_const value
  | _ => false
  end.

(** If the sign of the constant is taken for that of its value, it is plain. *)
Definition sign_plain (e : Expr) : Prop := is_positive_const e || is_negative_const e = true -> plain_const e = true.

Lemma plain_sign_lanes Γ ρ e : env_ok Ideal Γ ρ -> plain_const e = true -> forall u f, std_int u -> unbounded u = true ->
  hasty Γ u e -> den ρ u e f -> forall k, (k < nlanes u)%nat ->
  (is_positive_const e = true -> 0 < f k) /\ (is_negative_const e = true -> f k < 0).
Proof.
  intros Hρ. induction e using Expr_ind'; intros Hp u F Hu Hun He Hf k Hk; try done; simpl in Hp.
  - rewrite (den_replicate ρ u (IntImm t v) F v 1 Hf eq_refl k Hk). cbn. lia.
  - rewrite (den_replicate ρ u (UIntImm t v) F v 1 Hf eq_refl k Hk). cbn. lia.
  - apply andb_true_iff in Hp as [Hp1 Hp2]. destruct (hasty_ramp Γ u Hu _ _ _ He) as (Hb & Hs & -> & Hl).
    destruct (den_ramp_inv Γ ρ Hρ u Hu _ _ _ _ He Hf) as (g & h & Hg & Hh & _ & _ & E).
    rewrite E, norm_unbounded by done. pose proof (std_element u Hu) as Hue. pose proof (element_unbounded u Hu) as Hune.
    destruct (IHe1 Hp1 _ g Hue ltac:(congruence) Hb Hg 0%nat) as [P1 N1]; [rewrite (element_lanes u Hu); lia|].
    destruct (IHe2 Hp2 _ h Hue ltac:(congruence) Hs Hh 0%nat) as [P2 N2]; [rewrite (element_lanes u Hu); lia|].
    split; intros [H1 H2]%andb_true_iff; [specialize (P1 H1); specialize (P2 H2)|specialize (N1 H1); specialize (N2 H2)]; nia.
  - destruct (hasty_broadcast Γ u Hu _ _ He) as (Hv & -> & Hl).
    destruct (den_broadcast_inv Γ ρ Hρ u Hu _ _ _ He Hf) as (g & Hg & _ & E). rewrite E by done.
    pose proof (element_unbounded u Hu) as Hune.
    apply (IHe Hp _ g (std_element u Hu) ltac:(congruence) Hv Hg). rewrite (element_lanes u Hu). lia.
Qed.

(** * The rules *)
Section Sound.
Context (equal : ExprRef -> ExprRef -> bool).
Context (Γ : gmap string Ty) (ρ : env) (Hρ : env_ok Ideal Γ ρ).
Context (HE : EqualityTest Γ ρ equal).
Context (u : Ty) (Hu : std_int u) (t : Ty) (Ht : std_int t) (Hb : is_bool t = true) (Hl : lanes u = lanes t).

Lemma positive_plain x f : sign_plain x -> is_positive_const x = true -> unbounded u = true -> hasty Γ u x -> den ρ u x f ->
  forall i, (i < nlanes u)%nat -> 0 < f i.
Proof using All.
  intros Hs Hp Hun Hx Hf i Hi. assert (Hpl : plain_const x = true) by (apply Hs; by rewrite Hp).
  by destruct (plain_sign_lanes Γ ρ x Hρ Hpl u f Hu Hun Hx Hf i Hi) as [? _]; auto.
Qed.
Lemma negative_plain x f : sign_plain x -> is_negative_const x = true -> unbounded u = true -> hasty Γ u x -> den ρ u x f ->
  forall i, (i < nlanes u)%nat -> f i < 0.
Proof using All.
  intros Hs Hp Hun Hx Hf i Hi. assert (Hpl : plain_const x = true) by (apply Hs; by rewrite Hp, orb_true_r).
  by destruct (plain_sign_lanes Γ ρ x Hρ Hpl u f Hu Hun Hx Hf i Hi) as [_ ?]; auto.
Qed.

Section Operands.
Context (a b : Expr) (Ha : hasty Γ u a) (Hbu : hasty Γ u b).

Lemma less_hasty : hasty Γ t (Bin LT a b).
Proof using All. by apply (cmp_built Γ t Ht Hb u Hu Hl). Qed.

(** A rule is right when what it builds is true where the left value is less. *)
Lemma less_rule r : builds Γ t r ->
  (forall f g, den ρ u a f -> den ρ u b g -> (forall i, (i < nlanes u)%nat -> in_type u (f i) /\ in_type u (g i)) ->
     exists q, truths ρ t r q /\ forall i, (i < nlanes u)%nat -> (f i <? g i) = q i) ->
  forall e', r = Ok e' -> rewrites Γ ρ (Bin LT a b) e'.
Proof using All.
  intros Hr Hv. apply (truth_rewrites Γ ρ Hρ t Ht Hb _ r less_hasty Hr). intros p Hp.
  apply (truth_cmp_inv Γ ρ Hρ t Ht Hb u Hu Hl) in Hp as (f & g & Hf & Hg & E); [|done..].
  destruct (Hv f g Hf Hg) as (q & Hq & Eq).
  - intros i Hi. rewrite (compare_lanes t u Hl) in Hi. by destruct (E i Hi) as (? & ? & _).
  - exists q. split; [done|]. intros i Hi. destruct (E i Hi) as (_ & _ & ->). rewrite <- (compare_lanes t u Hl) in Hi. by apply Eq.
Qed.

Lemma less_constant (v : bool) w : w = lanes t ->
  (forall f g, den ρ u a f -> den ρ u b g -> (forall i, (i < nlanes u)%nat -> in_type u (f i) /\ in_type u (g i)) ->
     forall i, (i < nlanes u)%nat -> (f i <? g i) = v) ->
  action_ok Γ ρ (Bin LT a b) (Result ((if v then const_true else const_false) w)).
Proof using All.
  intros Hw Hv. cbn [action_ok]. pose proof (const_type t Ht Hb w Hw) as Hc. apply less_rule.
  - destruct v; [by apply (builds_true Γ empty_env t Ht)|by apply (builds_false Γ empty_env t Ht)].
  - intros f g Hf Hg Hin. exists (fun _ => v). split; [|by apply Hv].
    destruct v; [by apply (truths_one Γ ρ t Ht Hb)|by apply (truths_zero Γ ρ t Ht)].
Qed.
End Operands.
End Sound.

(** ** Inequalities of products and quotients by a positive integer *)
Lemma ltb_mul x y c : 0 < c -> (x * c <? y * c) = (x <? y).
Proof. intros Hc. apply Bool.eq_iff_eq_true. rewrite !Z.ltb_lt. nia. Qed.
Lemma ltb_mul_l x y c : 0 < c -> (x * c <? y) = (x <? ediv (y - 1) c + 1).
Proof.
  intros Hc. destruct (ediv_emod (y - 1) c) as [E M]; [lia|]. apply Bool.eq_iff_eq_true. rewrite !Z.ltb_lt. nia.
Qed.
Lemma ltb_mul_r x y c : 0 < c -> (y <? x * c) = (ediv y c <? x).
Proof.
  intros Hc. destruct (ediv_emod y c) as [E M]; [lia|]. apply Bool.eq_iff_eq_true. rewrite !Z.ltb_lt. nia.
Qed.
Lemma ltb_div_l x y c : 0 < c -> (ediv x c <? y) = (x <? c * y).
Proof.
  intros Hc. destruct (ediv_emod x c) as [E M]; [lia|]. apply Bool.eq_iff_eq_true. rewrite !Z.ltb_lt. nia.
Qed.
Lemma ltb_div_r x y c : 0 < c -> (y <? ediv x c) = ((y + 1) * c - 1 <? x).
Proof.
  intros Hc. destruct (ediv_emod x c) as [E M]; [lia|]. apply Bool.eq_iff_eq_true. rewrite !Z.ltb_lt. nia.
Qed.
(** [(x / c) * c] is [x - x % c]. *)
Lemma ediv_floor x c : 0 < c -> ediv x c * c = x - emod x c /\ 0 <= emod x c < c.
Proof. intros Hc. destruct (ediv_emod x c) as [E M]; lia. Qed.

Lemma make_bool_const v w : make_bool v w = (if v then const_true else const_false) w.
Proof.
  destruct v; unfold make_bool, const_true, const_false, make_one, make_zero, make_const; cbn [is_handle code UInt]; by destruct (is_vector _).
Qed.

(** ** The rules under any type *)
Section AnyType.
Context (equal : ExprRef -> ExprRef -> bool).
Context (Γ : gmap string Ty) (ρ : env) (Hρ : env_ok Ideal Γ ρ).
Context (HE : EqualityTest Γ ρ equal).
Context (u : Ty) (Hu : std_int u) (t : Ty) (Ht : std_int t) (Hb : is_bool t = true) (Hl : lanes u = lanes t).

Lemma lt_bounded_right facts s a b act : Known facts -> facts Γ ρ s -> mods_exact (bounds_info s) a = true ->
  mods_exact (bounds_info s) b = true -> hasty Γ u a -> hasty Γ u b ->
  lt_bounded (lanes t) a b s = Ok (Some act) -> action_ok Γ ρ (Bin LT a b) act.
Proof using All.
  intros HK Hs Hma Hmb Ha Hbu H. unfold lt_bounded in H.
  apply bind_Ok in H as ([[alo ahi]|] & Hba & H); [|done]. apply bind_Ok in H as ([[blo bhi]|] & Hbb & H); [|done].
  assert (Hbd : forall f g, den ρ u a f -> den ρ u b g -> forall i, (i < nlanes u)%nat -> alo <= f i <= ahi /\ blo <= g i <= bhi).
  { intros f g Hf Hg i Hi.
    destruct (bounds_lanes facts Γ ρ Hρ s Hs u a alo ahi f Ha Hma Hba Hf) as (_ & _ & Ba).
    destruct (bounds_lanes facts Γ ρ Hρ s Hs u b blo bhi g Hbu Hmb Hbb Hg) as (_ & _ & Bb). auto. }
  injection H as H. destruct (Z.ltb_spec ahi blo).
  - injection H as <-. apply (less_constant equal Γ ρ Hρ HE u Hu t Ht Hb Hl a b Ha Hbu true); [done|].
    intros f g Hf Hg _ i Hi. destruct (Hbd f g Hf Hg i Hi). lia.
  - apply when_Some in H as [Hc <-]. apply (less_constant equal Γ ρ Hρ HE u Hu t Ht Hb Hl a b Ha Hbu false); [done|].
    intros f g Hf Hg _ i Hi. destruct (Hbd f g Hf Hg i Hi). lia.
Qed.

(** The other side of a limit of the type did not overflow. *)
Definition limits_fit (a b : Expr) : Prop :=
  (forall ia, const_int a = Some ia -> is_max_int64 (type a) ia = true -> fits ρ u b) /\
  (forall ib, const_int b = Some ib -> is_min_int64 (type b) ib = true -> fits ρ u a).

Lemma lt_const_right a b : hasty Γ u a -> hasty Γ u b -> limits_fit a b ->
  Forall (rule_ok Γ ρ (Bin LT a b)) (lt_const_rules (lanes t) a b).
Proof using All.
  intros Ha Hbu [Hmax Hmin]. pose proof (less_constant equal Γ ρ Hρ HE u Hu t Ht Hb Hl a b Ha Hbu) as Hconst.
  repeat (apply Forall_cons; split); [..|by apply Forall_nil]; intros act Hact; rule_action Hact act.
  - rewrite make_bool_const. apply Hconst; [done|]. intros f g Hf Hg _ i Hi.
    by rewrite (const_int_lanes ρ u a f _ ltac:(eassumption) Hf i Hi), (const_int_lanes ρ u b g _ ltac:(eassumption) Hg i Hi).
  - rewrite make_bool_const. apply Hconst; [done|]. intros f g Hf Hg _ i Hi.
    by rewrite (const_uint_lanes ρ u a f _ ltac:(eassumption) Hf i Hi), (const_uint_lanes ρ u b g _ ltac:(eassumption) Hg i Hi).
  - apply (Hconst false); [done|]. intros f g Hf Hg _ i Hi. rewrite (const_int_lanes ρ u a f _ ltac:(eassumption) Hf i Hi). apply Z.ltb_ge.
    destruct (const_int_in_range Γ u Hu a _ Ha ltac:(eassumption)) as (_ & ? & _).
    eapply (is_max_bound u Hu (type a)); try eassumption; [by eapply hasty_type|].
    eapply (fits_lanes Γ ρ Hρ u Hu b g); try done. by eapply Hmax.
  - apply (Hconst false); [done|]. intros f g Hf Hg _ i Hi. rewrite (const_int_lanes ρ u b g _ ltac:(eassumption) Hg i Hi). apply Z.ltb_ge.
    eapply (is_min_bound u Hu (type b)); try eassumption; [by eapply hasty_type|].
    eapply (fits_lanes Γ ρ Hρ u Hu a f); try done. by eapply Hmin.
Qed.

Let Hue : std_int (element_of u) := std_element u Hu.
Let Hte : std_int (element_of t) := std_element t Ht.
Let Hbe : is_bool (element_of t) = true := element_bool t Ht Hb.
Let Hle : lanes (element_of u) = lanes (element_of t).
Proof.
  destruct (element_of_fields u (std_int_bits u Hu)) as (_ & _ & ->). by destruct (element_of_fields t (std_int_bits t Ht)) as (_ & _ & ->).
Qed.

(** A comparison of one lane, for all the lanes. *)
Lemma less_first_lane a b r l : l = lanes t -> lanes u <> 1 -> hasty Γ u a -> hasty Γ u b -> builds Γ (element_of t) r ->
  (forall f g, den ρ u a f -> den ρ u b g -> exists q, truths ρ (element_of t) r q /\ forall i, (i < nlanes u)%nat -> (f i <? g i) = q 0%nat) ->
  forall e', broadcast' r l = Ok e' -> rewrites Γ ρ (Bin LT a b) e'.
Proof using All.
  intros -> Hne Ha Hbu Hr Hv e' He'. unfold broadcast' in He'. apply bind_Ok in He' as (x & Hx & He').
  assert (Hx' : hasty Γ (element_of t) x) by (by apply Hr).
  destruct (broadcast_hasty Γ t Ht x Hx' ltac:(congruence)) as [Hbr _]. rewrite Hbr in He'. injection He' as <-.
  apply (truth_lanes_rewrites Γ ρ Hρ t Ht Hb _ r); [by apply (less_hasty equal Γ ρ Hρ HE u Hu t Ht Hb Hl)|congruence|done| |done].
  intros p Hp. apply (truth_cmp_inv Γ ρ Hρ t Ht Hb u Hu Hl) in Hp as (f & g & Hf & Hg & E); [|done..].
  destruct (Hv f g Hf Hg) as (q & Hq & Eq). exists q. split; [done|]. intros i Hi. destruct (E i Hi) as (_ & _ & ->).
  rewrite <- (compare_lanes t u Hl) in Hi. by apply Eq.
Qed.

Lemma lt_broadcast_right a b : hasty Γ u a -> hasty Γ u b -> rule_ok Γ ρ (Bin LT a b) (lt_broadcast_rule a b).
Proof using All.
  intros Ha Hbu act Hact. rule_action Hact act. cbn [action_ok].
  destruct (hasty_broadcast Γ u Hu _ _ Ha) as (Hx & -> & Hne), (hasty_broadcast Γ u Hu _ _ Hbu) as (Hy & -> & _).
  apply less_first_lane; [done|done|done|done| |].
  - apply (builds_cmp Γ _ Hte Hbe _ Hue Hle LT); [done|by apply joins_lt|build Hue|build Hue].
  - intros f g Hf Hg. split_broadcast Hρ Hu Ha Hf. split_broadcast Hρ Hu Hbu Hg. eexists. split.
    + eapply (truths_cmp Γ ρ _ Hte Hbe _ Hue Hle LT); [done|by apply joins_lt|build Hue|build Hue|compute_lanes Hue|compute_lanes Hue].
    + intros i Hi. rewrite L, L0 by done. done.
Qed.

Lemma lt_ramp_right a b rest : unbounded u = true -> hasty Γ u a -> hasty Γ u b ->
  rule_ok Γ ρ (Bin LT a b) (hd rest (lt_sum_rules equal a b)).
Proof using All.
  intros Hun Ha Hbu act Hact. cbn [hd lt_sum_rules] in Hact. rule_action Hact act. cbn [action_ok].
  destruct (hasty_ramp Γ u Hu _ _ _ Ha) as (Hx & Hsx & -> & Hne), (hasty_ramp Γ u Hu _ _ _ Hbu) as (Hy & Hsy & -> & _).
  apply less_first_lane; [done|lia|done|done| |].
  - apply (builds_cmp Γ _ Hte Hbe _ Hue Hle LT); [done|by apply joins_lt|build Hue|build Hue].
  - intros f g Hf Hg. split_ramp Hρ Hu Ha Hf. split_ramp Hρ Hu Hbu Hg. test_facts HE Hue. eexists. split.
    + eapply (truths_cmp Γ ρ _ Hte Hbe _ Hue Hle LT); [done|by apply joins_lt|build Hue|build Hue|compute_lanes Hue|compute_lanes Hue].
    + intros i Hi. rewrite L, L0 by done. rewrite !norm_unbounded by done. cbn [icmp].
      rewrite Heq by (rewrite (element_lanes u Hu); lia). lia.
Qed.
End AnyType.

(** ** The rules on the operands *)
Section OperandRules.
Context (equal : ExprRef -> ExprRef -> bool).
Context (Γ : gmap string Ty) (ρ : env) (Hρ : env_ok Ideal Γ ρ).
Context (HE : EqualityTest Γ ρ equal).
Context (u : Ty) (Hu : std_int u) (t : Ty) (Ht : std_int t) (Hb : is_bool t = true) (Hl : lanes u = lanes t).
Context (Hun : unbounded u = true).

(** The sign of the constant factor or divisor is read off its value. *)
Definition plain_factors (a b : Expr) : Prop := forall x y,
  a = Bin Mul x y \/ a = Bin Div x y \/ b = Bin Mul x y \/ b = Bin Div x y -> sign_plain y.

Ltac positive_factors :=
  repeat match goal with
  | H : is_positive_const ?x = true, Hp : sign_plain ?x, Hx : den ?ρ ?u ?x ?f |- _ =>
      let K := fresh "Hpos" in
      pose proof (positive_plain equal Γ ρ Hρ HE u Hu t Ht Hb Hl x f Hp H Hun ltac:(assumption) Hx) as K; clear H
  end.
(** A rule that compares two terms of the operands. *)
Ltac less_lanes :=
  cbn [action_ok]; eapply (less_rule equal Γ ρ Hρ HE u Hu t Ht Hb Hl); [hasty_auto Hu|hasty_auto Hu|solve [build_cond Ht Hb]|];
  let Hfa := fresh "Hfa" in let Hfb := fresh "Hfb" in let Hin := fresh "Hin" in
  intros ? ? Hfa Hfb Hin; split_den Hρ Hu; test_facts HE Hu; positive_factors;
  eexists; split; [eapply (truths_cmp Γ ρ t Ht Hb u Hu Hl LT); [reflexivity|join_cmp Hu|solve [build Hu]|solve [build Hu]|compute_lanes Hu|compute_lanes Hu];
    try solve [at_lane; lia]|];
  at_lane; cbn [icmp]; rewrite ?norm_unbounded in * by assumption; rewrite ?(wrap_small u Hu) by first [assumption|lia].
Ltac less_rule_tac :=
  let act := fresh "act" in let Hact := fresh "Hact" in
  intros act Hact; rule_action Hact act; split_bools; split_hasty Hu; less_lanes.

Lemma lt_sum_right a b : hasty Γ u a -> hasty Γ u b ->
  Forall (rule_ok Γ ρ (Bin LT a b)) (tail (lt_sum_rules equal a b)).
Proof using All.
  intros Ha Hbu. cbn [tail lt_sum_rules].
  repeat (apply Forall_cons; split; [solve [less_rule_tac; lia]|]). by apply Forall_nil.
Qed.

Lemma lt_scale_right a b : hasty Γ u a -> hasty Γ u b -> plain_factors a b ->
  Forall (rule_ok Γ ρ (Bin LT a b)) (lt_scale_rules equal a b).
Proof using All.
  intros Ha Hbu Hpl.
  assert (Hint : forall x, hasty Γ u x -> is_int (type x) = true).
  { intros x Hx. destruct (eqb_class u Hu (type x) (hasty_type _ _ _ Hx)) as (-> & _).
    unfold unbounded in Hun. by apply andb_true_iff in Hun as [? _]. }
  repeat (apply Forall_cons; split); [..|by apply Forall_nil]; intros act Hact; rule_action Hact act; split_bools.
  all: repeat match goal with H : is_positive_const ?y = true |- _ =>
    lazymatch goal with _ : sign_plain y |- _ => fail | _ => pose proof (Hpl _ y ltac:(eauto)) end end; clear Hpl.
  all: pose proof (Hint _ Ha) as Hia; try rewrite Hia; clear Hint Hia; split_hasty Hu.
  - less_lanes. by apply ltb_mul.
  - assert (B : builds Γ u (on_ei operator_add_ei (minus_int (built_expr b) 1 /' built_expr x0) 1)).
    { apply (builds_ei Γ ρ u Hu Add Add_make); [done|by apply joins_Add_make|build Hu]. }
    cbn [action_ok]. eapply (less_rule equal Γ ρ Hρ HE u Hu t Ht Hb Hl); [hasty_auto Hu|hasty_auto Hu|build_cond Ht Hb|].
    intros f g Hf Hg _. split_den Hρ Hu. test_facts HE Hu. positive_factors.
    eexists. split.
    + eapply (truths_cmp Γ ρ t Ht Hb u Hu Hl LT); [reflexivity|join_cmp Hu|build Hu|exact B|compute_lanes Hu|].
      eapply (computes_ei Γ ρ u Hu Add Add_make); [done|by apply joins_Add_make|build Hu|compute_lanes Hu|done]. at_lane. lia.
    + at_lane. cbn [icmp]. rewrite !norm_unbounded by done. rewrite (wrap_small u Hu) by (done || lia). by apply ltb_mul_l.
  - less_lanes. by apply ltb_mul_r.
  - less_lanes. by apply ltb_div_l.
  - unfold make_one. less_lanes. by apply ltb_div_r.
Qed.

(** ** Floors *)
Lemma on_floor_Some a k act : on_floor a k = Some act -> exists x d c ia, a = Bin Mul (Bin Div x d) c /\
  const_int d = Some ia /\ const_int c = Some ia /\ 0 < ia /\ k x d ia = Some act.
Proof using.
  clear. unfold on_floor. intros H. inv_rule H. destruct (_ && _) eqn:E; [|done]. apply andb_true_iff in E as [E1%Z.ltb_lt ->%Z.eqb_eq].
  by do 4 eexists.
Qed.

(** The constant added under the division has a negation. *)
Definition shifts_fit (a : Expr) : Prop := forall x y d c ic, a = Bin Mul (Bin Div (Bin Add x y) d) c ->
  const_int y = Some ic -> in_srange (bits u) (- ic).

(** What is left of a rule about a floor, once both sides are known. *)
Ltac floor_lane := match goal with H : 0 < ?c |- context [ediv ?x ?c * ?c] => destruct (ediv_floor x c H) as [-> _] end; lia.

Lemma builds_zero_less r : builds Γ u r -> builds Γ t (on_ie operator_lt_ie 0 r).
Proof using All. apply (builds_cmp_ie Γ ρ u Hu t Ht Hb Hl LT LT_make); [done|by apply joins_LT_make]. Qed.
Lemma truths_zero_less r f : builds Γ u r -> computes ρ u r f -> truths ρ t (on_ie operator_lt_ie 0 r) (fun i => 0 <? f i).
Proof using All.
  intros Hr Hf.
  pose proof (truths_cmp_ie Γ ρ u Hu t Ht Hb Hl LT LT_make "operator<" r 0 f eq_refl (joins_LT_make Γ u) Hr Hf) as H.
  by rewrite wrap_type_zero in H.
Qed.

Lemma lt_floor_right a b : hasty Γ u a -> hasty Γ u b -> shifts_fit a ->
  Forall (rule_ok Γ ρ (Bin LT a b)) (lt_floor_rules equal a b).
Proof using All.
  intros Ha Hbu Hfit.
  repeat (apply Forall_cons; split); [..|by apply Forall_nil]; intros act Hact; apply on_floor_Some in Hact as (x & d & c & ia & -> & Hd & Hc & Hpos & Hact);
    rule_action Hact act.
  - assert (Hw : wrap_type u ia = ia).
    { split_hasty Hu. destruct (const_int_in_range Γ u Hu c ia ltac:(assumption) Hc) as (Hr & _). by apply (wrap_in_range u Hu). }
    pose proof (hasty_type _ _ _ Ha) as Hta. split_hasty Hu.
    assert (B : builds Γ u (built_expr b %' make_const (type (Bin Mul (Bin Div x d) c)) (Int64 ia))).
    { eapply builds_on2; [exact Hu|join_op|done|build Hu|by apply (builds_const Γ ρ u Hu)]. }
    cbn [action_ok]. eapply (less_rule equal Γ ρ Hρ HE u Hu t Ht Hb Hl); [hasty_auto Hu|hasty_auto Hu|by apply builds_zero_less|].
    intros f g Hf Hg _. split_den Hρ Hu. test_facts HE Hu. eexists. split.
    + apply truths_zero_less; [exact B|]. eapply computes_on2; [exact Hu|join_op|done|build Hu|by apply (builds_const Γ ρ u Hu)|compute_lanes Hu|by apply (computes_const Γ ρ u Hu)|].
      intros i _. rewrite Hw. cbn. lia.
    + at_lane. rewrite !norm_unbounded by done. rewrite Hw. floor_lane.
  - split_hasty Hu.
    assert (B : builds Γ u (built_expr x0 %' built_expr d +' built_expr x1)) by build Hu.
    cbn [action_ok]. eapply (less_rule equal Γ ρ Hρ HE u Hu t Ht Hb Hl); [hasty_auto Hu|hasty_auto Hu|by apply builds_zero_less|].
    intros f g Hf Hg _. split_den Hρ Hu. test_facts HE Hu. eexists. split.
    + apply truths_zero_less; [exact B|]. compute_lanes Hu.
      all: at_lane; lia.
    + at_lane. rewrite !norm_unbounded by done. floor_lane.
  - split_hasty Hu. less_lanes. floor_lane.
  - split_hasty Hu. less_lanes. floor_lane.
  - split_hasty Hu. less_lanes. floor_lane.
  - pose proof (Hfit _ _ _ _ _ eq_refl ltac:(eassumption)) as Hneg. pose proof (hasty_type _ _ _ Ha) as Hta. split_hasty Hu.
    match goal with |- context [i64 ?z] => destruct (i64_or z) as [-> | [? ->]] end; cycle 1.
    { intros e' He'. apply on2_Ok in He' as (? & ? & _ & He' & _). apply on2_Ok in He' as (? & ? & _ & [=] & _). }
    cbn [mbind res_bind]. match goal with |- context [make_const ?v (Int64 ?z)] =>
      assert (K : builds Γ u (make_const v (Int64 z)) /\ computes ρ u (make_const v (Int64 z)) (fun _ => wrap_type u z))
        by (split; [by apply (builds_const Γ ρ u Hu)|by apply (computes_const Γ ρ u Hu)]);
      set (m := make_const v (Int64 z)) in *; clearbody m end. destruct K as [Km1 Km2].
    rewrite (wrap_in_range u Hu) in Km2 by done. less_lanes. floor_lane.
Qed.
End OperandRules.
