(* ===== verification/SimplifyLessSound.v ===== *)
(** The simplifier's visit of [LT] (src/src/Simplify.cpp) keeps the truth of a comparison
    of integers: the comparisons it mutates on the way, the difference of the operands
    and the ramp it may be, and the visit. *)

From Stdlib Require Import ZArith Lia Bool SpecFloat String ZifyBool.
From stdpp Require Import prelude strings gmap.
From S2P Require Import Prelude Types IR Semantics Scope Operators ModulusRemainder Mutator Equality EqualityMeaning Interval ConstBounds Monotonic Lanes Conditions Simplify SimplifyRules SimplifyQuotient SimplifyExtremum SimplifySub SimplifyConditions SimplifyNot SimplifyEqual SimplifyLess SimplifyLessRules.

#[local] Open Scope Z_scope.
#[local] Open Scope halide_scope.

(** What the visit needs of the mutated operands: [const_int_bounds] answers rightly;
    what is compared with a limit of its type has not overflowed; the constants that the
    rules take the sign of have no casts; and the constant under a division has a
    negation. *)
Record less_safe (ρ : env) (u : Ty) (s : Simplify) (a b : Expr) : Prop := {
  less_left_mods : mods_exact (bounds_info s) a = true;
  less_right_mods : mods_exact (bounds_info s) b = true;
  less_limits : limits_fit ρ u a b;
  less_factors : plain_factors a b;
  less_shifts : shifts_fit u a
}.

(** And of their mutated difference: where it, or the stride it has as a ramp, is found
    positive or negative it has no casts, and the remainder of the base of a ramp is
    right and reduced. *)
Record difference_safe (s : Simplify) (delta : Expr) : Prop := {
  difference_sign : sign_plain delta;
  stride_sign : forall base stride l, delta = Ramp base stride l -> sign_plain stride;
  base_remainder : forall base stride l, delta = Ramp base stride l -> no_overflow_scalar_int (type base) = true ->
    defect_free (set_containing_scope scope_new (Some (alignment_info s))) base = true /\
    forall mr, modulus_remainder_in base (alignment_info s) = Ok mr -> 0 < modulus mr -> 0 <= remainder mr < modulus mr
}.

(** * The comparisons that are mutated on the way *)
Section Mutating.
Context (facts : gmap string Ty -> env -> Simplify -> Prop) (equal same_as : ExprRef -> ExprRef -> bool).
Context (mutate : Expr -> mut Simplify ExprRef).
Context {HF : Facts facts equal} {HM : Simplifies facts mutate}.
Context (Γ : gmap string Ty) (ρ : env).
Context (u : Ty) (Hu : std_int u) (t : Ty) (Ht : std_int t) (Hb : is_bool t = true) (Hl : lanes u = lanes t).

Lemma mutated_hasty v s x x' s' : std_int v -> facts Γ ρ s -> hasty Γ v x -> mutate x s = Ok (Some x', s') ->
  hasty Γ v x' /\ facts Γ ρ s' /\ overflow_counter s <= overflow_counter s' /\
  (overflow_counter s' = overflow_counter s -> forall f, den ρ v x f -> den ρ v x' f).
Proof using All.
  intros Hv Hs Hx H. destruct (simplifies_expr facts Γ ρ s x Hs (hasty_good _ _ _ Hx) _ _ H) as (y & [= <-] & [Hg Hty Hs' Hc Hev]).
  split; [split; [done|]; eapply type_eqb_trans; [done|by eapply hasty_type]|]. split; [done|]. split; [done|].
  intros Hcc f Hf. by apply Hev.
Qed.

Section Operands.
Context (a b : Expr) (Ha : hasty Γ u a) (Hbu : hasty Γ u b).

(** [e'] stands for the comparison after a run that made no poison value. *)
Lemma less_simplified s s' e' : facts Γ ρ s -> facts Γ ρ s' -> overflow_counter s <= overflow_counter s' -> hasty Γ t e' ->
  (overflow_counter s' = overflow_counter s -> forall f g, den ρ u a f -> den ρ u b g ->
     (forall i, (i < nlanes u)%nat -> in_type u (f i) /\ in_type u (g i)) ->
     exists q, truth ρ t e' q /\ forall i, (i < nlanes u)%nat -> (f i <? g i) = q i) ->
  simplified facts Γ ρ s (Bin LT a b) e' s'.
Proof using All.
  intros Hs Hs' Hc He Hv. pose proof (facts_env _ _ Γ ρ s Hs) as Hρ. pose proof (facts_equal _ _ Γ ρ s Hs) as HE.
  pose proof (less_hasty equal Γ ρ Hρ HE u Hu t Ht Hb Hl a b Ha Hbu) as Hab.
  split; [by apply He|eapply (type_eqb_trans_std t Ht); [apply He|apply Hab]|done|done|]. intros Hcc.
  apply (rw_value Γ ρ), (less_rule equal Γ ρ Hρ HE u Hu t Ht Hb Hl a b Ha Hbu (built_expr e')); [by intros ? [= <-]| |done].
  intros f g Hf Hg Hin. destruct (Hv Hcc f g Hf Hg Hin) as (q & Hq & Eq). exists q. split; [by apply truths_expr|done].
Qed.

Lemma lt_no_rule s0 s E0 op_a op_b r s' : E0 = Bin LT op_a op_b -> good Γ E0 -> simplified facts Γ ρ s0 E0 (Bin LT a b) s ->
  no_rule same_as LT_make E0 a b op_a op_b s = Ok (r, s') -> exists e', r = Some e' /\ simplified facts Γ ρ s0 E0 e' s'.
Proof using All.
  intros HE0 Hg Hsd H. unfold no_rule in H. destruct (same_as (eref a) (eref op_a) && same_as (eref b) (eref op_b)).
  - apply mut_ret_Ok in H as [= -> ->]. exists E0. split; [done|]. destruct Hsd. split; try done. apply type_eqb_refl.
  - apply mut_bind_Ok in H as (e & s1 & He & H). apply lift_Ok in He as [He ->]. apply mut_ret_Ok in H as [= -> ->].
    apply (joins_LT_make Γ u) in He as ->; [|done|done]. by exists (Bin LT a b).
Qed.

(** Both comparisons with the operands of an extremum are mutated, and joined when one
    of them has become constant. *)
Lemma lt_either_right op join first second s0 s E0 op_a op_b r s' : is_logical op = true -> logic_joins Γ t op join ->
  builds Γ t first -> builds Γ t second ->
  (forall f g, den ρ u a f -> den ρ u b g -> exists p q, truths ρ t first p /\ truths ρ t second q /\
     forall i, (i < nlanes u)%nat -> (f i <? g i) = lop op (p i) (q i)) ->
  facts Γ ρ s -> E0 = Bin LT op_a op_b -> good Γ E0 -> simplified facts Γ ρ s0 E0 (Bin LT a b) s ->
  lt_either same_as mutate join first second E0 a b op_a op_b s = Ok (r, s') -> exists e', r = Some e' /\ simplified facts Γ ρ s0 E0 e' s'.
Proof using All.
  intros Hop Hj H1 H2 Hv Hs HE0 Hg Hsd H. pose proof (facts_env _ _ Γ ρ s Hs) as Hρ. unfold lt_either in H.
  apply mut_bind_Ok in H as (e1 & s1 & He1 & H). apply lift_Ok in He1 as [He1 ->].
  apply mut_bind_Ok in H as (x1 & s1 & Hx1 & H). apply mutate_defined_Ok in Hx1.
  destruct (mutated_hasty t s e1 x1 s1 Ht Hs (H1 _ He1) Hx1) as (T1 & F1 & C1 & V1).
  apply mut_bind_Ok in H as (e2 & s2 & He2 & H). apply lift_Ok in He2 as [He2 ->].
  apply mut_bind_Ok in H as (x2 & s2 & Hx2 & H). apply mutate_defined_Ok in Hx2.
  destruct (mutated_hasty t s1 e2 x2 s2 Ht F1 (H2 _ He2) Hx2) as (T2 & F2 & C2 & V2).
  assert (Hsd2 : simplified facts Γ ρ s0 E0 (Bin LT a b) s2).
  { eapply simplified_trans; [exact Hsd|]. apply simplified_stays; [apply Hsd|done|lia]. }
  destruct (is_const x1 || is_const x2); [|by eapply lt_no_rule].
  assert (Hsj : simplified facts Γ ρ s (Bin LT a b) (Bin op x1 x2) s2).
  { apply less_simplified; [done|done|lia|by apply (logic_built Γ t Ht Hb)|]. intros Hc f g Hf Hg' _.
    destruct (Hv f g Hf Hg') as (p & q & Hp & Hq & Epq). eexists. split; [|exact Epq].
    apply (truth_logic ρ t); [done|apply V1; [lia|by apply Hp]|apply V2; [lia|by apply Hq]]. }
  eapply (then_action facts equal mutate Γ ρ s0 s2); [done|done|done| | |exact H].
  - eapply simplified_trans; [exact Hsd|exact Hsj].
  - cbn [action_ok]. intros e He. apply on2_Ok in He as (? & ? & [= <-] & [= <-] & He). apply Hj in He as ->; [|done|done].
    apply rewrites_refl, Hsj.
Qed.
End Operands.

Lemma lt_extremum_right a b s0 s E0 op_a op_b run r s' : hasty Γ u a -> hasty Γ u b ->
  facts Γ ρ s -> E0 = Bin LT op_a op_b -> good Γ E0 -> simplified facts Γ ρ s0 E0 (Bin LT a b) s ->
  lt_extremum same_as mutate E0 a b op_a op_b = Some run -> run s = Ok (r, s') ->
  exists e', r = Some e' /\ simplified facts Γ ρ s0 E0 e' s'.
Proof using All.
  intros Ha Hbu Hs HE0 Hg Hsd Hrun H. pose proof (facts_env _ _ Γ ρ s Hs) as Hρ.
  pose proof (cmp_built Γ t Ht Hb u Hu Hl LT a b eq_refl Ha Hbu) as Hab.
  assert (Hleft : forall op x y, op = Min \/ op = Max -> a = Bin op x y ->
    lt_either same_as mutate (match op with Min => operator_or | _ => operator_and end) (x <' b) (y <' b) E0 a b op_a op_b s = Ok (r, s') ->
    exists e', r = Some e' /\ simplified facts Γ ρ s0 E0 e' s').
  { clear Hrun H. intros op x y Hop Hxy Hrun. pose proof Ha as Hparts. rewrite Hxy in Hparts.
    apply (hasty_bin Γ u Hu) in Hparts as [Hx Hy]; [|by destruct Hop as [-> | ->]].
    eapply (lt_either_right a b Ha Hbu (match op with Min => Or | _ => And end)); try exact Hrun; try done;
      [by destruct Hop as [-> | ->]|destruct Hop as [-> | ->]; [by apply logic_joins_or|by apply logic_joins_and]|build_cond Ht Hb|build_cond Ht Hb|].
    intros f g Hf Hg'. rewrite Hxy in Hf.
    apply (den_bin_lanes Γ ρ Hρ u Hu op) in Hf as (f1 & f2 & H1 & H2 & Ef); [|by destruct Hop as [-> | ->]|done..].
    do 2 eexists. split; [compute_cond Ht Hb|]. split; [compute_cond Ht Hb|]. intros i Hi. destruct (Ef i Hi) as (_ & _ & _ & ->).
    destruct Hop as [-> | ->]; cbn; lia. }
  assert (Hright : forall op x y, op = Min \/ op = Max -> b = Bin op x y ->
    lt_either same_as mutate (match op with Min => operator_and | _ => operator_or end) (a <' x) (a <' y) E0 a b op_a op_b s = Ok (r, s') ->
    exists e', r = Some e' /\ simplified facts Γ ρ s0 E0 e' s').
  { clear Hrun H. intros op x y Hop Hxy Hrun. pose proof Hbu as Hparts. rewrite Hxy in Hparts.
    apply (hasty_bin Γ u Hu) in Hparts as [Hx Hy]; [|by destruct Hop as [-> | ->]].
    eapply (lt_either_right a b Ha Hbu (match op with Min => And | _ => Or end)); try exact Hrun; try done;
      [by destruct Hop as [-> | ->]|destruct Hop as [-> | ->]; [by apply logic_joins_and|by apply logic_joins_or]|build_cond Ht Hb|build_cond Ht Hb|].
    intros f g Hf Hg'. rewrite Hxy in Hg'.
    apply (den_bin_lanes Γ ρ Hρ u Hu op) in Hg' as (f1 & f2 & H1 & H2 & Ef); [|by destruct Hop as [-> | ->]|done..].
    do 2 eexists. split; [compute_cond Ht Hb|]. split; [compute_cond Ht Hb|]. intros i Hi. destruct (Ef i Hi) as (_ & _ & _ & ->).
    destruct Hop as [-> | ->]; cbn; lia. }
  unfold lt_extremum in Hrun.
  destruct a as [| | | | | |[] x y| | | | | | |];
    try (injection Hrun as <-; first [by apply (Hleft Min x y); [left| |]|by apply (Hleft Max x y); [right| |]]);
    (destruct b as [| | | | | |[] x' y'| | | | | | |]; try done;
     injection Hrun as <-; first [by apply (Hright Min x' y'); [left| |]|by apply (Hright Max x' y'); [right| |]]).
Qed.

(** ** What the mutated difference says *)
Section Difference.
Context (a b delta : Expr) (Ha : hasty Γ u a) (Hbu : hasty Γ u b) (Hd : hasty Γ u delta) (s s' : Simplify).
Context (Hs : facts Γ ρ s) (Hs' : facts Γ ρ s') (Hsub : simplified facts Γ ρ s (Bin Sub a b) delta s').

Lemma difference_less r : builds Γ t r ->
  (forall f g D, den ρ u a f -> den ρ u b g -> (forall i, (i < nlanes u)%nat -> in_type u (f i) /\ in_type u (g i)) ->
     den ρ u delta D -> (forall i, (i < nlanes u)%nat -> D i = norm u (f i - g i)) ->
     exists q, truths ρ t r q /\ forall i, (i < nlanes u)%nat -> (f i <? g i) = q i) ->
  forall e', r = Ok e' -> simplified facts Γ ρ s (Bin LT a b) e' s'.
Proof using All.
  intros Hr Hv e' He'. pose proof (facts_env _ _ Γ ρ s Hs) as Hρ. destruct Hsub as [_ _ _ Hc Hval].
  apply (less_simplified a b Ha Hbu); [done|done|done|by apply Hr|]. intros Hcc f g Hf Hg Hin.
  assert (Hdd : den ρ u delta (fun i => norm u (f i - g i))).
  { apply (Hval Hcc). by apply (den_bin Γ ρ u Hu Sub a b f g). }
  destruct (Hv f g _ Hf Hg Hin Hdd ltac:(done)) as (q & Hq & Eq). exists q. split; [by apply Hq|done].
Qed.

(** Under a type without overflow, the test that it is negative. *)
Lemma negative_difference : unbounded u = true -> simplified facts Γ ρ s (Bin LT a b) (Bin LT delta (const_node u 0)) s'.
Proof using All.
  intros Hun. pose proof (facts_env _ _ Γ ρ s Hs) as Hρ.
  assert (Hz : hasty Γ u (const_node u 0)).
  { apply hasty_const; [done|]. rewrite <- (wrap_type_zero u). apply wrap_representable; [by apply std_int_bits|]. by apply (std_int_class u Hu). }
  apply (difference_less (built_expr (Bin LT delta (const_node u 0)))); [| |done].
  - intros ? [= <-]. by apply (cmp_built Γ t Ht Hb u Hu Hl).
  - intros f g D Hf Hg Hin HD ED. exists (fun i => icmp LT (D i) 0). split.
    + apply truths_expr, (truth_cmp ρ t Ht Hb u Hu Hl LT delta (const_node u 0) D (fun _ => 0)); [done|done|by apply den_const].
    + intros i Hi. rewrite ED by done. rewrite norm_unbounded by done. cbn. lia.
Qed.

Lemma lt_delta_right act r s'' s0 E0 : sign_plain delta -> simplified facts Γ ρ s0 E0 (Bin LT a b) s ->
  Some act ∈ lt_delta_rules (lanes t) delta ->
  run_action mutate act s' = Ok (r, s'') -> exists e', r = Some e' /\ simplified facts Γ ρ s0 E0 e' s''.
Proof using All.
  intros Hpl Hsd Hact H. pose proof (facts_env _ _ Γ ρ s Hs) as Hρ. pose proof (facts_equal _ _ Γ ρ s Hs) as HE.
  assert (Hun : no_overflow (type delta) = true -> unbounded u = true).
  { intros Hno. by apply (no_overflow_unbounded u Hu (type delta)); [eapply hasty_type|]. }
  assert (Hq : exists q, act = Result q /\ forall e', q = Ok e' -> simplified facts Γ ρ s (Bin LT a b) e' s').
  { unfold lt_delta_rules in Hact. rewrite !elem_of_cons in Hact. destruct Hact as [Hact|[Hact|Hact]]; [| |by apply not_elem_of_nil in Hact];
      symmetry in Hact; apply when_Some in Hact as [Hc <-]; eexists; (split; [done|]).
    - apply difference_less; [build_cond Ht Hb|]. intros f g D Hf Hg Hin HD ED.
      exists (fun _ => false). split; [by apply (truths_zero Γ ρ t Ht), const_type|]. intros i Hi. specialize (ED i Hi). destruct (Hin i Hi) as [Hfi Hgi].
      apply orb_true_iff in Hc as [Hz|[Hno Hp]%andb_true_iff].
      + rewrite (zero_lanes Γ ρ u delta D Hz (hasty_good _ _ _ Hd) HD i Hi) in ED. symmetry in ED. apply Z.eqb_eq in ED.
        rewrite norm_zero_sub in ED by done. lia.
      + pose proof (positive_plain equal Γ ρ Hρ HE u Hu t Ht Hb Hl delta D Hpl Hp (Hun Hno) Hd HD i Hi).
        rewrite norm_unbounded in ED by auto. lia.
    - apply andb_true_iff in Hc as [Hno Hp]. apply difference_less; [build_cond Ht Hb|]. intros f g D Hf Hg Hin HD ED.
      exists (fun _ => true). split; [by apply (truths_one Γ ρ t Ht Hb), const_type|]. intros i Hi. specialize (ED i Hi).
      pose proof (negative_plain equal Γ ρ Hρ HE u Hu t Ht Hb Hl delta D Hpl Hp (Hun Hno) Hd HD i Hi).
      rewrite norm_unbounded in ED by auto. lia. }
  destruct Hq as (q & -> & Hq). by eapply (test_action facts equal mutate Γ ρ s0 s s'); [right|exact Hq|exact Hsd|exact H].
Qed.
End Difference.
End Mutating.

(** * The ramp that is the difference *)
Section RampTests.
Context (facts : gmap string Ty -> env -> Simplify -> Prop) (equal same_as : ExprRef -> ExprRef -> bool).
Context (mutate : Expr -> mut Simplify ExprRef).
Context {HF : Facts facts equal} {HM : Simplifies facts mutate}.
Context (Γ : gmap string Ty) (ρ : env) (Hρ : env_ok Ideal Γ ρ) (HE : EqualityTest Γ ρ equal).
Context (u : Ty) (Hu : std_int u) (t : Ty) (Ht : std_int t) (Hb : is_bool t = true) (Hl : lanes u = lanes t).
Context (Hun : unbounded u = true).

#[local] Notation te := (element_of u).
#[local] Notation tb := (element_of t).
Let Hue : std_int te := std_element u Hu.
Let Hte : std_int tb := std_element t Ht.
Let Hbe : is_bool tb = true := element_bool t Ht Hb.
Let Hle : lanes te = lanes tb.
Proof.
  destruct (element_of_fields u (std_int_bits u Hu)) as (_ & _ & ->). by destruct (element_of_fields t (std_int_bits t Ht)) as (_ & _ & ->).
Qed.
Let Hune : unbounded te = true.
Proof. by rewrite (element_unbounded u Hu). Qed.
Let H0 : (0 < nlanes te)%nat.
Proof. rewrite (element_lanes u Hu). lia. Qed.
Let H0b : (0 < nlanes tb)%nat.
Proof. rewrite (element_lanes t Ht). lia. Qed.

#[local] Notation zero := (const_node u 0).

Lemma zero_node : hasty Γ u zero.
Proof using Hu.
  apply hasty_const; [done|]. rewrite <- (wrap_type_zero u). apply wrap_representable; [by apply std_int_bits|]. by apply (std_int_class u Hu).
Qed.

Context (delta : Expr) (Hd : hasty Γ u delta).

(** A question about the base and the stride, whose answer settles every lane. *)
Lemma lt_ramp_test_ok signed query (v : bool) :
  (forall base stride, hasty Γ te base -> hasty Γ te stride -> builds Γ tb (query base stride (lanes u))) ->
  (forall base stride l f g, delta = Ramp base stride l -> signed stride = true -> hasty Γ te base -> hasty Γ te stride ->
     den ρ te base f -> den ρ te stride g ->
     exists q, truths ρ tb (query base stride (lanes u)) q /\
       (q 0%nat = true -> forall i, (i < nlanes u)%nat -> (f 0%nat + Z.of_nat i * g 0%nat <? 0) = v)) ->
  test_ok facts Γ ρ (Bin LT delta zero) (lt_ramp_test mutate signed query (if v then const_true else const_false) delta).
Proof using All.
  intros Hbd Hv s r s' Hs H.
  assert (Hnone : (mret None : mut Simplify rule) s = Ok (r, s') -> facts Γ ρ s' /\ overflow_counter s <= overflow_counter s' /\
    forall act, r = Some act -> exists q, (act = Mutate q \/ act = Result q) /\ forall e', q = Ok e' -> simplified facts Γ ρ s (Bin LT delta zero) e' s').
  { intros Hn. apply mut_ret_Ok in Hn as [= -> ->]. split; [done|]. split; [lia|]. by intros ? [=]. }
  destruct delta as [| | | | | | | | | |base stride l| | |] eqn:E; try by apply Hnone. cbn [lt_ramp_test] in H.
  destruct (signed stride) eqn:Hsg; [|by apply Hnone]. clear Hnone.
  pose proof Hd as Hd'. destruct (hasty_ramp Γ u Hu _ _ _ Hd') as (Hbase & Hstr & -> & Hne).
  apply mut_bind_Ok in H as (e & s1 & He & H). apply lift_Ok in He as [He ->].
  apply mut_bind_Ok in H as (x & s1 & Hx & H). apply mutate_defined_Ok in Hx. apply mut_ret_Ok in H as [= -> ->].
  pose proof (Hbd base stride Hbase Hstr e He) as Hhe.
  destruct (mutated_hasty facts equal same_as mutate Γ ρ u Hu t Ht Hb Hl tb s e x s1 Hte Hs Hhe Hx) as (Hhx & Hs1 & Hc & Hval).
  split; [done|]. split; [done|]. intros act Hact. apply when_Some in Hact as [Hone <-]. eexists. split; [by right|]. intros e' He'.
  assert (Hr : builds Γ t ((if v then const_true else const_false) (lanes u))).
  { rewrite Hl. destruct v; [apply (builds_true Γ empty_env t Ht)|apply (builds_false Γ empty_env t Ht)]; by apply const_type. }
  apply (less_simplified facts equal same_as mutate Γ ρ u Hu t Ht Hb Hl _ zero Hd' zero_node); [done|done|done|by apply Hr|].
  intros Hcc F g HF' Hg _. destruct (den_ramp_inv Γ ρ Hρ u Hu _ _ _ _ Hd' HF') as (f & h & Hf & Hh & _ & _ & EF).
  destruct (Hv base stride (lanes u) f h eq_refl Hsg Hbase Hstr Hf Hh) as (q & Hq & Hqv).
  assert (Hq1 : q 0%nat = true).
  { apply (one_truth Γ ρ tb x q Hte Hhx Hone); [|done]. apply (Hval Hcc). by apply Hq. }
  exists (fun _ => v). split.
  - rewrite Hl in He'. destruct v; [by apply (truths_one Γ ρ t Ht Hb _ (const_type t Ht Hb _ eq_refl))|by apply (truths_zero Γ ρ t Ht _ (const_type t Ht Hb _ eq_refl))].
  - intros i Hi. rewrite EF by done. rewrite norm_unbounded by done.
    rewrite (den_same ρ u zero g (fun _ => 0) Hg (den_const ρ u Hu 0) i Hi). by apply Hqv.
Qed.

Lemma lanes_count : wrap_type te (lanes u - 1) = lanes u - 1.
Proof using All. apply (wrap_small te Hue); [done|]. pose proof (lanes_small u Hu). lia. Qed.

(** The last lane of the ramp. *)
Lemma last_lane_scaled stride : hasty Γ te stride -> builds Γ te (on_ei operator_mul_ei (built_expr stride) (lanes u - 1)).
Proof using All. intros Hs. apply (builds_ei Γ ρ te Hue Mul Mul_make); [done|by apply joins_Mul_make|build Hue]. Qed.
Lemma last_lane_builds base stride : hasty Γ te base -> hasty Γ te stride -> builds Γ te (last_lane base stride (lanes u)).
Proof using All.
  intros Hbase Hstr. eapply builds_on2; [exact Hue|join_op|done|build Hue|by apply last_lane_scaled].
Qed.
Lemma last_lane_value base stride f g : hasty Γ te base -> hasty Γ te stride -> den ρ te base f -> den ρ te stride g ->
  computes ρ te (last_lane base stride (lanes u)) (fun i => f i + g i * (lanes u - 1)).
Proof using All.
  intros Hbase Hstr Hf Hg.
  assert (C : computes ρ te (on_ei operator_mul_ei (built_expr stride) (lanes u - 1)) (fun i => iop te Mul (g i) (wrap_type te (lanes u - 1))))
    by (apply (computes_ei Γ ρ te Hue Mul Mul_make); [done|by apply joins_Mul_make|build Hue|compute_lanes Hue|done]).
  pose proof (computes_on2 Γ ρ te Hue Add operator_add (built_expr base) _ f _ (joins_add Γ te Hue) eq_refl
    ltac:(build Hue) (last_lane_scaled stride Hstr) ltac:(compute_lanes Hue) C ltac:(done)) as Hsum.
  intros e He. eapply (den_ext ρ te); [exact (Hsum e He)|].
  intros i _. cbn [iop]. by rewrite lanes_count, !norm_unbounded.
Qed.

(** The comparison of a lane with zero, asked of the ramps whose stride has a sign. *)
Lemma lt_lane_test_ok signed op mk nm lane value (v : bool) : is_comparison op = true -> joins Γ te op mk ->
  (forall base stride, hasty Γ te base -> hasty Γ te stride -> builds Γ te (lane base stride (lanes u))) ->
  (forall base stride f g, hasty Γ te base -> hasty Γ te stride -> den ρ te base f -> den ρ te stride g ->
     computes ρ te (lane base stride (lanes u)) (fun i => value (f i) (g i))) ->
  (forall base stride l f g, delta = Ramp base stride l -> signed stride = true -> hasty Γ te stride -> den ρ te stride g ->
     icmp op (value f (g 0%nat)) 0 = true -> forall i, (i < nlanes u)%nat -> (f + Z.of_nat i * g 0%nat <? 0) = v) ->
  test_ok facts Γ ρ (Bin LT delta zero)
    (lt_ramp_test mutate signed (fun base stride l => on_ei (operator_ei mk nm) (lane base stride l) 0) (if v then const_true else const_false) delta).
Proof using All.
  intros Hop Hmk Hbd Hval Hv. apply lt_ramp_test_ok.
  - intros base stride Hx Hy. by apply (builds_cmp_ei Γ ρ te Hue tb Hte Hbe Hle op); [| |apply Hbd].
  - intros base stride l f g Ed Hsg Hx Hy Hf Hg.
    pose proof (truths_cmp_ei Γ ρ te Hue tb Hte Hbe Hle op mk nm _ 0 _ Hop Hmk (Hbd _ _ Hx Hy) (Hval _ _ _ _ Hx Hy Hf Hg)) as H.
    rewrite wrap_type_zero in H. eexists. split; [exact H|]. intros Hq. by eapply Hv.
Qed.

Lemma lt_ramp_tests_ok : (forall base stride l, delta = Ramp base stride l -> sign_plain stride) ->
  test_ok facts Γ ρ (Bin LT delta zero) (first_test (lt_ramp_tests mutate delta)).
Proof using All.
  intros Hpl. apply first_test_ok.
  assert (Hsign : forall base stride l g, delta = Ramp base stride l -> hasty Γ te stride -> den ρ te stride g ->
    (is_positive_const stride = true -> 0 < g 0%nat) /\ (is_negative_const stride = true -> g 0%nat < 0)).
  { intros base stride l g E Hs Hg. specialize (Hpl _ _ _ E). split; intros Hp;
      [by apply (positive_plain equal Γ ρ Hρ HE te Hue tb Hte Hbe Hle stride g)|by apply (negative_plain equal Γ ρ Hρ HE te Hue tb Hte Hbe Hle stride g)]. }
  assert (Hcount : forall i, (i < nlanes u)%nat -> 0 <= Z.of_nat i <= lanes u - 1) by (unfold nlanes; lia).
  unfold lt_ramp_tests. repeat (apply Forall_cons; split); [..|by apply Forall_nil].
  - apply (lt_lane_test_ok is_positive_const LT LT_make "operator<" last_lane (fun f g => f + g * (lanes u - 1)) true);
      [done|apply joins_LT_make|apply last_lane_builds|apply last_lane_value|].
    intros base stride l f g E Hp Hs Hg Hq i Hi. destruct (Hsign _ _ _ g E Hs Hg) as [Hpos _]. specialize (Hpos Hp). specialize (Hcount i Hi). cbn in Hq. nia.
  - apply (lt_lane_test_ok is_positive_const GE GE_make "operator>=" (fun base _ _ => built_expr base) (fun f _ => f) false);
      [done|apply joins_GE_make|by intros ? ? ? ? ? [= <-]|by intros ? ? ? ? ? ? ? ? ? [= <-]|].
    intros base stride l f g E Hp Hs Hg Hq i Hi. destruct (Hsign _ _ _ g E Hs Hg) as [Hpos _]. specialize (Hpos Hp). specialize (Hcount i Hi). cbn in Hq. nia.
  - apply (lt_lane_test_ok is_negative_const LT LT_make "operator<" (fun base _ _ => built_expr base) (fun f _ => f) true);
      [done|apply joins_LT_make|by intros ? ? ? ? ? [= <-]|by intros ? ? ? ? ? ? ? ? ? [= <-]|].
    intros base stride l f g E Hp Hs Hg Hq i Hi. destruct (Hsign _ _ _ g E Hs Hg) as [_ Hneg]. specialize (Hneg Hp). specialize (Hcount i Hi). cbn in Hq. nia.
  - apply (lt_lane_test_ok is_negative_const GE GE_make "operator>=" last_lane (fun f g => f + g * (lanes u - 1)) false);
      [done|apply joins_GE_make|apply last_lane_builds|apply last_lane_value|].
    intros base stride l f g E Hp Hs Hg Hq i Hi. destruct (Hsign _ _ _ g E Hs Hg) as [_ Hneg]. specialize (Hneg Hp). specialize (Hcount i Hi). cbn in Hq. nia.
Qed.

(** ** The ramp that stays in one block of its modulus *)
Lemma block_sign z m r d : 0 <= r < m -> (m | z - r) -> 0 <= r + d < m -> (z + d <? 0) = (ediv z m <? 0).
Proof using.
  clear. intros Hr [k Hk] Hd. destruct (ediv_unique z m k r) as [-> _]; [lia..|].
  replace z with (r + m * k) by lia. apply Bool.eq_iff_eq_true. rewrite !Z.ltb_lt. nia.
Qed.

(** [LT::make] of a scalar and the [int] zero fails unless the scalar is an [Int(32)]. *)
Lemma lt_make_zero q e : hasty Γ te q -> LT_make (eref q) (eref (IntImm (Int 32 1) 0)) = Ok e ->
  e = Bin LT q (IntImm (Int 32 1) 0) /\ hasty Γ te (IntImm (Int 32 1) 0) /\ den ρ te (IntImm (Int 32 1) 0) (fun _ => 0).
Proof using All.
  intros Hq He. pose proof He as Hm. unfold LT_make, binary_make in He. cbn [defined eref mbind res_bind type] in He.
  destruct (type_eqb (type q) (Int 32 1)) eqn:Hty; [|by vm_compute in He].
  assert (Hz : hasty Γ te (IntImm (Int 32 1) 0)).
  { split; [split; [by vm_compute..|done]|]. eapply type_eqb_trans; [|apply Hq]. by rewrite type_eqb_sym. }
  split; [by apply (joins_LT_make Γ te) in Hm|]. split; [exact Hz|].
  destruct (hasty_fields Γ te Hue _ Hz) as (_ & _ & Hlz). unfold den. cbn [eval]. unfold nlanes. rewrite <- Hlz. done.
Qed.

Lemma lt_block_right mod_rem :
  (forall base stride l f, delta = Ramp base stride l -> den ρ te base f -> 0 < modulus mod_rem ->
     mr_ok mod_rem /\ 0 <= remainder mod_rem < modulus mod_rem /\ congr mod_rem (f 0%nat)) ->
  rule_ok Γ ρ (Bin LT delta zero) (lt_block_rule delta mod_rem).
Proof using All.
  intros Hmr act Hact. unfold lt_block_rule in Hact. apply on_ramp_Some in Hact as (base & stride & l & E & Hact).
  destruct (Z.ltb_spec 0 (modulus mod_rem)) as [Hpos|]; [|done].
  apply on_const_Some in Hact as (ia & Hia & Hact). apply when_ub_Some in Hact as [[Hub <-]|(? & _ & ->)]; [|by intros ? [=]].
  apply bind_Ok in Hub as (? & [-> _]%i64_Ok & Hub). apply bind_Ok in Hub as (? & [-> _]%i64_Ok & [= [Hlo Hhi]%andb_true_iff]).
  pose proof Hd as Hd'. rewrite E in Hd'. destruct (hasty_ramp Γ u Hu _ _ _ Hd') as (Hbase & Hstr & -> & Hne).
  assert (Hbd : builds Γ te (on_ei operator_div_ei (built_expr base) (modulus mod_rem)))
    by (apply (builds_ei Γ ρ te Hue Div Div_make); [done|by apply joins_Div_make|build Hue]).
  cbn [action_ok]. rewrite Hl. apply (truth_lanes_rewrites Γ ρ Hρ t Ht Hb).
  - apply (cmp_built Γ t Ht Hb u Hu Hl LT); [done|exact Hd|exact zero_node].
  - lia.
  - intros e He. apply on2_Ok in He as (q & z & Hq & [= <-] & He). destruct (lt_make_zero q e (Hbd q Hq) He) as (-> & Hz & _).
    apply (cmp_built Γ tb Hte Hbe te Hue Hle); [done|by apply Hbd|exact Hz].
  - intros p Hp. destruct (truth_cmp_inv Γ ρ Hρ t Ht Hb u Hu Hl LT delta zero p eq_refl Hd zero_node Hp) as (F & g & HF' & Hg & Ep).
    rewrite E in HF'. destruct (den_ramp_inv Γ ρ Hρ u Hu _ _ _ F Hd' HF') as (f & h & Hf & Hh & _ & _ & EF).
    destruct (Hmr _ _ _ f E Hf Hpos) as ([Hm32 _] & Hred & Hcg).
    assert (Hw : wrap_type te (modulus mod_rem) = modulus mod_rem) by (apply (wrap_small te Hue); [done|unfold in_srange in Hm32; lia]).
    exists (fun i => iop te Div (f i) (modulus mod_rem) <? 0). split.
    + intros e He. apply on2_Ok in He as (q & z & Hq & [= <-] & He). destruct (lt_make_zero q e (Hbd q Hq) He) as (-> & Hz & Hz0).
      apply (truth_cmp ρ tb Hte Hbe te Hue Hle LT q _ _ (fun _ => 0)); [done| |exact Hz0].
      rewrite <- Hw. refine (computes_ei Γ ρ te Hue Div Div_make _ _ _ _ eq_refl _ _ _ _ q Hq); [apply joins_Div_make|build Hue|compute_lanes Hue|].
      cbn [defd]. rewrite Hw. lia.
    + intros i Hi. destruct (Ep i Hi) as (_ & _ & ->). rewrite <- (compare_lanes t u Hl) in Hi. rewrite EF by done.
      rewrite (den_same ρ u zero g (fun _ => 0) Hg (den_const ρ u Hu 0) i Hi). cbn [icmp iop]. rewrite !norm_unbounded by done.
      rewrite (const_int_lanes ρ te stride h ia Hia Hh 0%nat H0). apply (block_sign _ _ (remainder mod_rem)); [done|exact Hcg|].
      unfold nlanes in Hi. nia.
Qed.
End RampTests.

Section Visit.
Context (facts : gmap string Ty -> env -> Simplify -> Prop) (equal same_as : ExprRef -> ExprRef -> bool).
Context (mutate : Expr -> mut Simplify ExprRef).
Context {HF : Facts facts equal} {HK : Known facts} {HM : Simplifies facts mutate}.
Context (Γ : gmap string Ty) (ρ : env).
Context (u : Ty) (Hu : std_int u) (t : Ty) (Ht : std_int t) (Hb : is_bool t = true) (Hl : lanes u = lanes t).

(** The mutated operands are compared in place of the operands. *)
Lemma less_operands s op_a op_b x y s1 s2 : facts Γ ρ s -> hasty Γ u op_a -> hasty Γ u op_b ->
  mutate op_a s = Ok (Some x, s1) -> mutate op_b s1 = Ok (Some y, s2) ->
  facts Γ ρ s2 /\ hasty Γ u x /\ hasty Γ u y /\ simplified facts Γ ρ s (Bin LT op_a op_b) (Bin LT x y) s2.
Proof using All.
  intros Hs Ha Hbu Hx Hy.
  destruct (mutated_hasty facts equal same_as mutate Γ ρ u Hu t Ht Hb Hl u s op_a x s1 Hu Hs Ha Hx) as (Hhx & Hs1 & C1 & V1).
  destruct (mutated_hasty facts equal same_as mutate Γ ρ u Hu t Ht Hb Hl u s1 op_b y s2 Hu Hs1 Hbu Hy) as (Hhy & Hs2 & C2 & V2).
  split; [done|]. split; [done|]. split; [done|].
  apply (less_simplified facts equal same_as mutate Γ ρ u Hu t Ht Hb Hl op_a op_b Ha Hbu); [done|done|lia|by apply (cmp_built Γ t Ht Hb u Hu Hl)|].
  intros Hc f g Hf Hg _. exists (fun i => icmp LT (f i) (g i)). split; [|done].
  apply (truth_cmp ρ t Ht Hb u Hu Hl LT x y f g); [done|apply V1; [lia|done]|apply V2; [lia|done]].
Qed.

(** The rules before those that mutate, but for the sign of the difference. *)
Lemma lt_rules_before_right s s2 a b delta act : facts Γ ρ s -> hasty Γ u a -> hasty Γ u b -> hasty Γ u delta ->
  less_safe ρ u s2 a b -> Some act ∈ lt_rules_before equal (lanes t) a b delta ->
  Some act ∈ lt_delta_rules (lanes t) delta \/ action_ok Γ ρ (Bin LT a b) act.
Proof using All.
  intros Hs Ha Hbu Hd [_ _ Hlim Hfac _] Hact. pose proof (facts_env _ _ Γ ρ s Hs) as Hρ. pose proof (facts_equal _ _ Γ ρ s Hs) as HE.
  assert (Hin : forall rules, Forall (rule_ok Γ ρ (Bin LT a b)) rules -> Some act ∈ rules -> action_ok Γ ρ (Bin LT a b) act).
  { intros rules Hr Hin. rewrite Forall_forall in Hr. by apply (Hr _ Hin). }
  unfold lt_rules_before in Hact. rewrite !elem_of_app in Hact. destruct Hact as [H|[H|[H|H]]]; [right|by left|right|right].
  - revert H. by apply Hin, (lt_const_right equal Γ ρ Hρ HE u Hu t Ht Hb Hl).
  - apply list_elem_of_singleton in H. by apply (lt_broadcast_right equal Γ ρ Hρ HE u Hu t Ht Hb Hl a b Ha Hbu).
  - destruct (no_overflow (type delta)) eqn:Hno; [|by apply not_elem_of_nil in H].
    pose proof (no_overflow_unbounded u Hu _ (hasty_type _ _ _ Hd) Hno) as Hun. revert H. apply Hin, Forall_app. split.
    + apply Forall_cons. split; [|by apply (lt_sum_right equal Γ ρ Hρ HE u Hu t Ht Hb Hl Hun)].
      by apply (lt_ramp_right equal Γ ρ Hρ HE u Hu t Ht Hb Hl a b None Hun).
    + by apply (lt_scale_right equal Γ ρ Hρ HE u Hu t Ht Hb Hl Hun).
Qed.

(** The block the base of the difference is in. *)
Lemma lt_mod_rem_right s delta mr : facts Γ ρ s -> hasty Γ u delta -> difference_safe s delta -> lt_mod_rem delta s = Ok mr ->
  forall base stride l f, delta = Ramp base stride l -> den ρ (element_of u) base f -> 0 < modulus mr ->
  mr_ok mr /\ 0 <= remainder mr < modulus mr /\ congr mr (f 0%nat).
Proof using All.
  intros Hs Hd [_ _ Hsafe] Hmr base stride l f E Hf Hpos. pose proof (facts_env _ _ Γ ρ s Hs) as Hρ. rewrite E in Hd, Hmr. cbn [lt_mod_rem] in Hmr.
  destruct (hasty_ramp Γ u Hu _ _ _ Hd) as (Hbase & _). destruct (no_overflow_scalar_int (type base)) eqn:Hno; [|by injection Hmr as <-].
  destruct (Hsafe _ _ _ E Hno) as [Hdf Hred]. specialize (Hred mr Hmr Hpos). 
  destruct (scalar_no_overflow _ _ (std_element _ Hu) (hasty_type _ _ _ Hbase) Hno) as [Hun _].
  destruct (modulus_lanes facts Γ ρ Hρ s Hs _ base mr f Hbase Hun Hdf Hmr Hf) as [Hok Hc].
  split; [done|]. split; [done|]. apply Hc. rewrite (element_lanes _ Hu). lia.
Qed.

(** The rest of the chain, for a type that does not overflow. *)
Lemma lt_rest_right s0 s2 s mr E0 op_a op_b a b delta r s' : hasty Γ u a -> hasty Γ u b -> hasty Γ u delta -> unbounded u = true ->
  less_safe ρ u s2 a b -> difference_safe s delta -> facts Γ ρ s -> E0 = Bin LT op_a op_b -> good Γ E0 ->
  simplified facts Γ ρ s0 E0 (Bin LT a b) s -> simplified facts Γ ρ s0 E0 (Bin LT delta (const_node u 0)) s ->
  lt_mod_rem delta s = Ok mr -> lt_rest same_as equal mutate mr E0 a b delta op_a op_b s = Ok (r, s') ->
  exists e', r = Some e' /\ simplified facts Γ ρ s0 E0 e' s'.
Proof using All.
  intros Ha Hbu Hd Hun Hsafe Hdsafe Hs HE0 Hg Hsd Hsz Hmr H. pose proof (facts_env _ _ Γ ρ s Hs) as Hρ. pose proof (facts_equal _ _ Γ ρ s Hs) as HE.
  unfold lt_rest in H. destruct (lt_extremum same_as mutate E0 a b op_a op_b) as [run|] eqn:Ex.
  { by eapply (lt_extremum_right facts equal same_as mutate Γ ρ u Hu t Ht Hb Hl a b s0 s). }
  destruct (first_rule (lt_floor_rules equal a b)) as [act|] eqn:Ef.
  { eapply (then_action facts equal mutate Γ ρ s0 s E0 (Bin LT a b)); try done. revert Ef. apply first_rule_ok.
    by apply (lt_floor_right equal Γ ρ Hρ HE u Hu t Ht Hb Hl Hun), (less_shifts _ _ _ _ _ Hsafe). }
  apply mut_bind_Ok in H as (test & s4 & Htest & H).
  destruct (lt_ramp_tests_ok facts equal same_as mutate Γ ρ Hρ HE u Hu t Ht Hb Hl Hun delta Hd (stride_sign _ _ Hdsafe) s test s4 Hs Htest)
    as (Hs4 & Hc4 & Hact). pose proof (facts_env _ _ Γ ρ s4 Hs4) as Hρ4.
  destruct test as [act|].
  { destruct (Hact act eq_refl) as (q & Hq & Hqs). by eapply (test_action facts equal mutate Γ ρ s0 s s4). }
  destruct (lt_block_rule delta mr) as [act|] eqn:Eb.
  - eapply (then_action facts equal mutate Γ ρ s0 s4 E0 (Bin LT delta (const_node u 0))); try done.
    + eapply simplified_trans; [exact Hsz|]. by apply simplified_stays; [apply Hsz|..].
    + revert Eb. apply (lt_block_right facts equal same_as mutate Γ ρ Hρ HE u Hu t Ht Hb Hl Hun delta Hd mr).
      by apply (lt_mod_rem_right s delta mr Hs Hd Hdsafe).
  - eapply (lt_no_rule facts equal same_as mutate Γ ρ u Hu t Ht Hb Hl a b Ha Hbu s0 s4); try done.
    eapply simplified_trans; [exact Hsd|]. by apply simplified_stays; [apply Hsd|..].
Qed.
End Visit.

(** C17. The simplifier's visit of [LT] keeps the type and the truth of a comparison of
    integers, through the bounds of its operands, the sign of their mutated difference,
    every rule of its chain, and the comparisons it mutates to see what becomes of them,
    given that the scopes are right about the variables, when no signed overflow was
    flagged, the mutated operands are [less_safe] and their mutated difference is
    [difference_safe]: the operands are [mods_exact]; what is compared with a limit of
    its type has not overflowed; the constants whose sign is tested have no casts; the
    constant added under a division has a negation; and the remainder of the base of a
    ramp is [defect_free] and reduced. Where that remainder is not reduced, and for ramps
    of [Int(64)], the visit is wrong ([visit_LT_defects]). *)
Theorem visit_LT_sound facts equal same_as mutate Γ ρ s op_a op_b :
  Facts facts equal -> Known facts -> Simplifies facts mutate ->
  facts Γ ρ s -> good Γ (Bin LT op_a op_b) -> std_int (type op_a) ->
  (forall x s1 y s2, mutate op_a s = Ok (Some x, s1) -> mutate op_b s1 = Ok (Some y, s2) ->
     less_safe ρ (type op_a) s2 x y /\
     forall d delta s3, operator_sub (eref x) (eref y) = Ok d -> mutate d s2 = Ok (Some delta, s3) -> difference_safe s3 delta) ->
  simplifies facts (visit_LT same_as equal mutate (Bin LT op_a op_b) op_a op_b) Γ ρ s (Bin LT op_a op_b).
Proof.
  intros HF HK HM Hs Hg Hu Hsafe r s' H. set (u := type op_a) in *.
  destruct (std_Bool (lanes u) (lanes_small u Hu)) as (Ht & Hb & Hlb). set (t := Bool (lanes u)) in *.
  destruct (cmp_hasty Γ u Hu LT op_a op_b Hg (type_eqb_refl _)) as [Ha Hbu].
  unfold visit_LT in H. apply mut_bind_Ok in H as (x & s1 & Hx & H). apply mutate_defined_Ok in Hx.
  apply mut_bind_Ok in H as (y & s2 & Hy & H). apply mutate_defined_Ok in Hy.
  destruct (less_operands facts equal same_as mutate Γ ρ u Hu t Ht Hb (eq_sym Hlb) s op_a op_b x y s1 s2 Hs Ha Hbu Hx Hy) as (Hs2 & Hhx & Hhy & Hsd).
  pose proof (facts_env _ _ Γ ρ s2 Hs2) as Hρ2. pose proof (facts_equal _ _ Γ ρ s2 Hs2) as HE2.
  apply mut_bind_Ok in H as (s2' & s2'' & H1 & H). injection H1 as <- <-.
  apply mut_bind_Ok in H as (bounded & s2' & Hbd & H). apply lift_Ok in Hbd as [Hbd ->].
  destruct (Hsafe x s1 y s2 Hx Hy) as [Hls Hds]. clear Hsafe. destruct bounded as [act|].
  { eapply (then_action facts equal mutate Γ ρ s s2); try done.
    by apply (lt_bounded_right equal Γ ρ Hρ2 HE2 u Hu t Ht Hb (eq_sym Hlb) facts s2 x y act HK Hs2 (less_left_mods _ _ _ _ _ Hls) (less_right_mods _ _ _ _ _ Hls)). }
  apply mut_bind_Ok in H as (d & s2' & Hd & H). apply lift_Ok in Hd as [Hd ->].
  apply mut_bind_Ok in H as (delta & s3 & Hdel & H). apply mutate_defined_Ok in Hdel.
  specialize (Hds _ _ _ Hd Hdel).
  apply (joins_sub Γ u Hu) in Hd as ->; [|done|done]. assert (Hhd : hasty Γ u (Bin Sub x y)) by (by apply (hasty_bin Γ u Hu)).
  destruct (simplifies_expr facts Γ ρ s2 _ Hs2 (hasty_good _ _ _ Hhd) _ _ Hdel) as (x' & [= <-] & Hsub).
  assert (Hdu : hasty Γ u delta) by (split; [apply Hsub|]; eapply type_eqb_trans; [apply Hsub|apply Hhd]).
  assert (Hs3 : facts Γ ρ s3) by apply Hsub. assert (Hc3 : overflow_counter s2 <= overflow_counter s3) by apply Hsub.
  assert (Hsd3 : simplified facts Γ ρ s (Bin LT op_a op_b) (Bin LT x y) s3).
  { eapply simplified_trans; [exact Hsd|]. by apply simplified_stays; [apply Hsd|..]. }
  apply mut_bind_Ok in H as (s3' & s3'' & H1 & H). injection H1 as <- <-.
  apply mut_bind_Ok in H as (mr & s3' & Hmr & H). apply lift_Ok in Hmr as [Hmr ->].
  change (type (Bin LT op_a op_b)) with t in H. 
  destruct (first_rule (lt_rules_before equal (lanes t) x y delta)) as [act|] eqn:Er.
  - apply first_rule_elem in Er.
    destruct (lt_rules_before_right facts equal same_as mutate Γ ρ u Hu t Ht Hb (eq_sym Hlb) s3 s2 x y delta act Hs3 Hhx Hhy Hdu Hls Er) as [Hd|Hok].
    + by eapply (lt_delta_right facts equal same_as mutate Γ ρ u Hu t Ht Hb (eq_sym Hlb) x y delta Hhx Hhy Hdu s2 s3 Hs2 Hs3 Hsub act r s' s); [apply Hds|..].
    + by eapply (then_action facts equal mutate Γ ρ s s3 _ (Bin LT x y)).
  - destruct (no_overflow (type delta)) eqn:Hno.
    + pose proof (no_overflow_unbounded u Hu _ (hasty_type _ _ _ Hdu) Hno) as Hun.
      eapply (lt_rest_right facts equal same_as mutate Γ ρ u Hu t Ht Hb (eq_sym Hlb) s s2 s3 mr (Bin LT op_a op_b) op_a op_b x y delta); try done.
      eapply simplified_trans; [exact Hsd|].
      by apply (negative_difference facts equal same_as mutate Γ ρ u Hu t Ht Hb (eq_sym Hlb) x y delta Hhx Hhy Hdu s2 s3).
    + by eapply (lt_no_rule facts equal same_as mutate Γ ρ u Hu t Ht Hb (eq_sym Hlb) x y Hhx Hhy s s3).
Qed.

(** [x * 2 < 7] becomes [x < (7 - 1) / 2 + 1]. *)
Lemma visit_LT_sound_witness :
  let a := Bin Mul x32 (imm32 2) in
  let e := Bin LT a (imm32 7) in
  let r := Bin LT x32 (Bin Add (Bin Div (Bin Sub (imm32 7) (imm32 1)) (imm32 2)) (imm32 1)) in
  visit_LT same_expr_ref ptr_equal no_mutate e a (imm32 7) new_simplify = Ok (eref r, new_simplify) /\
  eval Ideal (xy_env 3 0) e = Some [VInt 1] /\ eval Ideal (xy_env 3 0) r = Some [VInt 1] /\
  simplifies idle_facts (visit_LT same_expr_ref ptr_equal no_mutate e a (imm32 7))
    xy_types (xy_env 3 0) new_simplify e.
Proof.
  split; [by vm_compute|]. split; [by vm_compute|]. split; [by vm_compute|].
  apply (visit_LT_sound idle_facts ptr_equal same_expr_ref no_mutate).
  - apply idle_facts_Facts.
  - apply idle_facts_Known.
  - apply no_mutate_idle.
  - split; [apply xy_facts|done].
  - split; [repeat split; by vm_compute|repeat split; by vm_compute|by vm_compute].
  - split; [by vm_compute|]. by vm_compute.
  - intros x s1 y s2 [= <- <-] [= <- <-]. split.
    + split; [by vm_compute|by vm_compute| | |].
      * split; intros ? [= <-] H; by vm_compute in H.
      * intros p q [[= <- <-]|[[=]|[[=]|[=]]]]. intros _. by vm_compute.
      * intros ? ? ? ? ? [=].
    + intros d delta s3 [= <-] [= <- <-]. split; [|by intros|by intros]. intros H. by vm_compute in H.
Defined.

(** Where the visit is wrong. The remainder of a product is not always reduced: that of
    [(x * -3 + 2) * -2] is -4 modulo 6, so a ramp of stride 2 from it seems to stay in one
    block, and at [x = 0] the comparison of its lanes, -4 to 2, with zero is true of all
    four. And when the ramp is one of [Int(64)] the rule compares a quotient of that type
    with the [int] zero, which is an internal error. *)
Lemma visit_LT_defects :
  let base := Bin Mul (Bin Add (Bin Mul x32 (imm32 (-3))) (imm32 2)) (imm32 (-2)) in
  let a := Ramp base (imm32 2) 4 in
  let b := Broadcast (imm32 0) 4 in
  let r := Broadcast (Bin LT (Bin Div base (imm32 6)) (imm32 0)) 4 in
  let imm64 z := IntImm (Int 64 1) z in
  let a64 := Ramp (Bin Mul (Var (Int 64 1) "z" None None None) (imm64 8)) (imm64 1) 4 in
  let b64 := Broadcast (imm64 0) 4 in
  (visit_LT same_expr_ref ptr_equal mutate_Sub (Bin LT a b) a b new_simplify = Ok (eref r, new_simplify) /\
   eval Ideal (xy_env 0 0) (Bin LT a b) = Some [VInt 1; VInt 1; VInt 0; VInt 0] /\
   eval Ideal (xy_env 0 0) r = Some [VInt 1; VInt 1; VInt 1; VInt 1]) /\
  visit_LT same_expr_ref ptr_equal mutate_Sub (Bin LT a64 b64) a64 b64 new_simplify =
    Err (InternalError "LT of mismatched types").
Proof. split_and!; by vm_compute. Qed.
